(* ===== verification/_CoqProject ===== *)
-Q . S2P
Prelude.v
FreeList.v
StatePool.v
Arena.v
RowAllocator.v
BatchSequenceTable.v
KvArena.v
PrefixCache.v
PrefixCacheInv.v
PrefixCacheSpecs.v
PrefixCacheGrow.v
PrefixCacheProps.v
StagePlan.v
StagePlanProps.v
LongContext.v
LongContextProps.v
Bytes.v
TopologySwitch.v
TopologySwitchInv.v
TopologySwitchProps.v
WorkTransaction.v
WorkLedger.v
WorkLedgerInv.v
WorkLedgerProps.v
Wire.v
WireProps.v
KvIndex.v
WorkControl.v
WorkControlProps.v
PrefillPackets.v
PacketSafety.v
KvDirectory.v
KvDirectoryInv.v
KvDirectoryOps.v
KvDirectoryRefs.v
KvDirectoryProps.v
KvTable.v
KvLifecycle.v
Scheduler.v
SchedulerInv.v
SchedulerOps.v
SchedulerBatch.v
SchedulerProps.v
TokenTables.v
TokenTablesProps.v
Tokenizer.v
MergeHeap.v
Bpe.v
MergeLoop.v
PieceTokens.v
PieceCache.v
TextSplit.v
Encode.v
Decode.v
TokenizerLoad.v
CompiledFile.v
BatchEncode.v
TokenizerProps.v
ChatTemplate.v
PromptPipeline.v
PromptPipelineProps.v
RequestTable.v
RequestTableInv.v
RequestTableProps.v
