(* ===== verification/Prelude.v ===== *)
(** * sparkpipe-rs: a verification library

    sparkpipe-rs is the Rust orchestration plane of an LLM serving engine that runs on a
    ring of nodes.  This library models its bookkeeping core (src/crates/spark-core), its
    scheduler crate (src/crates/spark-sched: stage plans, long-context policy, topology
    switch, work packets, KV directory, scheduler), its text crate (src/crates/spark-text:
    tokenizer, chat template, prompt pipeline), the request table of the serving crate
    (src/crates/spark-serve/src/request_api/mod.rs and slot.rs) and the control protocol of
    the rank daemon (src/crates/spark-node/src/rank_daemon) as executable definitions, one
    per method, and proves what makes each component correct.

    ** How the parts fit together

    A prompt becomes tokens in the tokenizer ([Tokenizer]), through the chat template
    ([ChatTemplate]), and a request in the request table ([RequestTable]); the prompt
    pipeline ([PromptPipeline]) drives its prefill and decode dispatches.  A request's
    tokens live in KV blocks.  The block arena ([KvArena]) owns the blocks, their references
    and their residency; the prefix cache ([PrefixCache]) maps hashed token prefixes to those
    blocks and binds them to sequences.  The scheduler ([Scheduler]) owns the cache, prices
    and admits steps on the ring, and retires them; the stage planner ([StagePlan]) cuts the
    model's layers over the ring, the long-context policy ([LongContext]) chooses the tokens
    a decode step reads, and the row allocator ([RowAllocator]) divides the rows of a step.
    An admitted step becomes a work packet ([WorkControl]) whose sequences' blocks come from
    the KV directory ([KvDirectory], with the hash index [KvIndex]).  Ranks exchange packets,
    acknowledgements and final events encoded by [Wire]; each packet is a transaction,
    identified by [WorkTransaction] and recorded by the ledger ([WorkLedger]).  The batch
    sequence table ([BatchSequenceTable]) tracks active sequences, the state pool and the
    slot arena ([StatePool], [Arena]) hand out fixed storage, and the topology switch
    ([TopologySwitch]) moves a running rank from one recipe to another.

    ** Files

    - [Prelude]: machine integers with explicit wrap-around, record update, the
      result-panic-state monad [M], its loops and the weakest-precondition rules.
    - [FreeList]: intrusive free lists and the clients of a slot pool.
    - [StatePool] (state_pool.rs), [Arena] (arena.rs), [RowAllocator] (row_allocator.rs),
      [BatchSequenceTable] (batch_sequence_table.rs), [KvArena] (kv_arena.rs): one file
      per component, definitions first.
    - [PrefixCache] (prefix_cache.rs) with [PrefixCacheInv] (the invariant and the
      primitive steps), [PrefixCacheSpecs] and [PrefixCacheGrow] (the operations) and
      [PrefixCacheProps] (the properties).
    - [StagePlan] and [StagePlanProps] (stage_plan.rs); [LongContext] and
      [LongContextProps] (long_context.rs).
    - [Bytes]: little-endian integers.
    - [TopologySwitch], [TopologySwitchInv], [TopologySwitchProps] (topology_switch.rs).
      The NVMe tier, the swap device and the manifest writer are traits in the source and
      classes here ([SwitchTier], [SwapDevice], [ManifestWriter]): nothing is assumed of
      them beyond their types, except where a theorem names it ([cooperative],
      [TierPresence]).
    - [WorkTransaction] (rank_daemon/status.rs, serving_engine/status.rs, the
      work_transaction module of work_control.rs, the reader and identity codec of
      rank_daemon/wire.rs).
    - [WorkLedger], [WorkLedgerInv], [WorkLedgerProps] (rank_daemon/work_ledger.rs).
    - [Wire], [WireProps] (rank_daemon/wire.rs, with the packet of work_control.rs and the
      final event of ring_runtime.rs and resident_ipc.rs).
    - [WorkControl], [WorkControlProps], [PrefillPackets], [PacketSafety] (work_control.rs:
      packets, the MTP tree, dispatch selection, builders, validation).
    - [KvIndex] (the hash index of work_control.rs), [KvDirectory] (its KvState) with
      [KvDirectoryInv], [KvDirectoryOps], [KvDirectoryRefs], [KvDirectoryProps], [KvTable]
      and [KvLifecycle] (invariant, operations, references, block tables, runs).  The
      storage hooks are a trait and a class here ([KvSwapHooks]).
    - [Scheduler] (scheduler.rs) with [SchedulerInv], [SchedulerOps], [SchedulerBatch] and
      [SchedulerProps].
    - [TokenTables], [TokenTablesProps] (the two hash tables of tokenizer.rs); [Tokenizer]
      (the rest of it) with [MergeHeap], [Bpe], [MergeLoop] (the merge loop), [PieceTokens],
      [PieceCache], [TextSplit], [Encode], [Decode], [TokenizerLoad], [CompiledFile],
      [BatchEncode] and [TokenizerProps].  Parsing JSON is a parameter.
    - [ChatTemplate] (chat_template.rs); [PromptPipeline], [PromptPipelineProps]
      (prompt_pipeline.rs, whose request API and tokenizer are traits and classes here).
    - [RequestTable], [RequestTableInv], [RequestTableProps] (request_api/mod.rs, slot.rs and
      the capacity probe of prefetch.rs).  The model speculator is a trait and a class.

    ** How code is translated

    A [&mut self] method is a computation [M S E A] over the record of [self]: it returns
    a value or an error with the state it leaves, or panics.  An [Err] keeps the mutations
    made before it, as in the source.  Indexing and slicing out of bounds panic.  Unsigned
    arithmetic wraps (the release profile leaves overflow checks off) and is written
    [+u32], [-u64] and so on.  Hash functions, byte layouts and constants are those of the
    source.  A [for] loop is a fold over its range; a [while] loop is [loop] with fuel.
    The fuel is an explicit bound on the turns the code can take (the number of table
    slots, of blocks, of rows left, of heap entries, of bytes of the text; eight for padding
    to eight bytes, 34 for a binary search over 32-bit values) and the [wp] rules turn
    running out of it into a failed proof: every property that says a call returns has shown
    the fuel to be enough.

    ** What is proved

    - Bookkeeping stays exact: over any sequence of calls the counters, free lists,
      references and residency of the pools, arenas, tables, cache, directory, scheduler and
      ledger agree with their contents, and the next call neither panics nor loops (of the
      scheduler: when each decision is retired at most once)
      ([state_pool_client_safe], [kv_arena_accounting_exact], [prefix_cache_invariant],
      [batch_table_counters_exact], [kv_directory_invariant], [kv_no_leak],
      [scheduler_invariant], [switch_invariant], [ledger_invariant]).
    - Abstract contracts: the sequence table implements a population of live handles (for
      [2^18] calls, after which a handle's generation is cut off), the request table a map from handles to slots, the hash tables finite maps, the ledger a
      map of recorded transactions that admits each one exactly once; stale handles are
      refused and live ranges are disjoint ([batch_table_refines_population],
      [request_table_refines_map], [kv_index_refines], [string_table_refines_map],
      [arena_live_ranges_disjoint], [ledger_observe_refines], [ledger_exactly_once]).
    - Decisions are the best or the exact ones: the greedy row grant is optimal, the
      balanced stage plan minimises the largest stage, the decode bucket is the cheapest,
      batches are admitted whole or not at all, probes return the longest cached prefix,
      selections are increasing and stay inside the context ([row_allocator_optimal], [balanced_plan_optimal],
      [decode_bucket_cheapest], [prefill_batch_atomic], [admit_prefill_exact],
      [prefix_probe_longest], [decode_selection_sound]).  Reservations of
      blocks are read back by the block tables, also for later chunks of a prompt, exactly
      when the bindings a sequence already has are long enough ([prefix_reserve_table],
      [admit_prefill_exact]).
    - Text: the merge loop is byte-pair encoding, encoding is the reference whatever the
      cache kept of earlier texts of the same tokenizer and for any number of workers, what
      is encoded decodes, special tokens included where the vocabulary lists them, a
      rendered prompt is the template ([merge_loop_is_bpe], [encode_is_reference], [load_encode_decode],
      [compiled_file_roundtrip], [batch_any_workers], [render_simple_exact]).
    - Protocols: a selected prefill chunk becomes a packet the receiver accepts, validation
      never panics, the pipeline settles every dispatch it scheduled
      ([prefill_chunk_accepted], [validate_packet_never_panics], [pipeline_protocol]).
    - Progress: a drained switch completes, a chunked prompt is finished, a prefill leaves a
      decode its slot while no further prefills are announced ([switch_completes], [prefill_chunks_finish],
      [prefill_leaves_decode_slot]).
    - Round trips: manifests, packets, acknowledgements and final events decode to what
      was encoded, and on any bytes the packet decoder returns a well-shaped packet or an
      error unless the lanes the header announces exceed the memory ([manifest_roundtrip],
      [packet_wire_roundtrip], [packet_decode_total]).
    - What the code gets wrong is stated too, on concrete inputs:
      [state_pool_new_unchecked_product], [arena_rounding_narrows_to_zero],
      [batch_handle_generation_truncated], [decode_selection_drops_newest],
      [lane_batch_length_wraps], [second_switch_skips_resumed_sequences],
      [checkpoint_retry_repins], [private_key_collides], [empty_special_never_ends],
      [unlisted_special_not_decoded], [hit_ignores_tokenizer],
      [cancelled_counts_as_completed], [cancel_takes_verifying_request],
      [completed_twice_takes_another], [flagless_batch_keeps_reservation],
      [announced_prefills_block_decode], [short_block_not_grown],
      [repeated_sequence_names_freed_block] and [short_packet_exhausts_memory].

    Size hypotheses are those that keep a counter from wrapping: a ledger of at most
    [2^31] entries, fewer than [2^64] calls, buffers below [isize::MAX] bytes.

    ** Not modelled

    Calls made directly on the arena through [PrefixCache::arena_mut] are outside the
    cache invariant.  Of the request API the dispatch, prefetch and speculation code
    (dispatch.rs, prefetch.rs, speculation.rs) is not modelled: the request table's theorems
    let it change any row without touching handles and links, and leave out direct writes
    to the rows through [slots_mut].  The serving engine, the HTTP
    gateway, the daemons' network and process code and a node's serving backend are sockets,
    threads, JSON and glue around the parts above; spark-model holds model constants,
    spark-sys and spark-abi generated bindings.  Batch workers run one after the other in
    the model, since they share nothing.  Memory exhaustion is
    modelled where the size of an allocation comes off the wire: [packet_from_wire] takes the
    bytes of heap there are, and an allocation beyond them is a panic (a size above
    [isize::MAX] panics as well).  Elsewhere memory is taken to suffice. *)

From Stdlib Require Export ssreflect ZArith Lia.
From stdpp Require Export numbers list prelude.

#[export] Set Default Goal Selector "!".
#[export] Unset SsrRewrite.
#[export] Set Warnings "-rewrite-rw,-clear-no-such-hyp".
Global Open Scope Z_scope.

(** ** Machine integers

    Unsigned machine integers are values of [Z].  Rust's [+], [-] and [*] on
    [u32]/[u64]/[usize] wrap in the release profile the workspace builds
    ([Cargo.toml] leaves [overflow-checks] off there), so they are written with
    the reduction explicit. *)

Abbreviation U32_MAX := 4294967295 (only parsing).
Abbreviation U64_MAX := 18446744073709551615 (only parsing).
Abbreviation ISIZE_MAX := 9223372036854775807 (only parsing).

Definition u32 (x : Z) : Z := x mod 4294967296.

Definition u64 (x : Z) : Z := x mod 18446744073709551616.

Declare Scope mach_scope.
Delimit Scope mach_scope with mach.
Notation "a '+u32' b" := (u32 (a + b)) (at level 50, left associativity) : mach_scope.
Notation "a '-u32' b" := (u32 (a - b)) (at level 50, left associativity) : mach_scope.
Notation "a '*u32' b" := (u32 (a * b)) (at level 40, left associativity) : mach_scope.
Notation "a '+u64' b" := (u64 (a + b)) (at level 50, left associativity) : mach_scope.
Notation "a '-u64' b" := (u64 (a - b)) (at level 50, left associativity) : mach_scope.
Notation "a '*u64' b" := (u64 (a * b)) (at level 40, left associativity) : mach_scope.
Global Open Scope mach_scope.

(** [saturating_add], [saturating_mul] on [u64]; [saturating_add] and
    [saturating_sub] on [u32]. *)
Definition sat_add64 (a b : Z) : Z := Z.min (a + b) U64_MAX.

Definition sat_mul64 (a b : Z) : Z := Z.min (a * b) U64_MAX.

Definition sat_add32 (a b : Z) : Z := Z.min (a + b) U32_MAX.

Definition sat_sub (a b : Z) : Z := Z.max (a - b) 0.

(** [div_ceil] on unsigned integers with a nonzero divisor. *)
Definition div_ceil (a b : Z) : Z :=
  let q := a / b in if 0 <? a mod b then q + 1 else q.

(** [!x] on [u32]. *)
Definition u32_not (x : Z) : Z := U32_MAX - x.

(** [flags & bit != 0]. *)
Definition has_flag (flags bit : Z) : bool := negb (Z.land flags bit =? 0).

(** ** Record update

    [r <| f := v |>] is [r] with the field [f] replaced, the shallow form of
    [r.f = v]. *)

Class RecordEta (R : Type) := record_eta : R -> R.

Class Setter {R E : Type} (getter : R -> E) := set_field : (E -> E) -> R -> R.
Arguments set_field {R E} getter {Setter} upd r.

(** The setter of a field is read off the record's eta expansion by abstracting
    the projection. *)
Ltac solve_setter :=
  lazymatch goal with
  | |- @Setter ?R ?E ?getter =>
      let i := constr:(_ : RecordEta R) in
      let e := eval hnf in i in
      lazymatch eval pattern getter in e with
      | ?upd _ =>
          let t := eval cbv beta in (fun (f : E -> E) => upd (fun r => f (getter r))) in
          exact t
      end
  end.

#[export] Hint Extern 1 (Setter _) => solve_setter : typeclass_instances.

Declare Scope record_scope.
Notation "r <| f := v |>" := (set_field f (fun _ => v) r)
  (at level 1, left associativity, f at level 10) : record_scope.
Global Open Scope record_scope.

(** ** Results, panics and state

    A Rust method [fn f(&mut self, ..) -> Result<A, E>] is a computation over the
    state [S] of [self]: it returns a value or an error together with the state
    it leaves (an [Err] keeps the mutations made before it), or it panics (an
    index out of bounds, a failed [expect]).  [OutOfFuel] is the outcome of a
    loop that ran out of the fuel its definition gives it; the [wp] theorems rule
    it out, as they rule out [Panic]. *)

Inductive outcome (S E A : Type) : Type :=
| Ret (a : A) (s : S)
| Fails (e : E) (s : S)
| Panic
| OutOfFuel.
Arguments Ret {S E A} a s.
Arguments Fails {S E A} e s.
Arguments Panic {S E A}.
Arguments OutOfFuel {S E A}.

Definition M (S E A : Type) : Type := S -> outcome S E A.

Definition ret {S E A} (a : A) : M S E A := fun s => Ret a s.

Definition bind {S E A B} (m : M S E A) (k : A -> M S E B) : M S E B :=
  fun s => match m s with
           | Ret a s' => k a s'
           | Fails e s' => Fails e s'
           | Panic => Panic
           | OutOfFuel => OutOfFuel
           end.

Definition throw {S E A} (e : E) : M S E A := fun s => Fails e s.

Definition panic {S E A} : M S E A := fun _ => Panic.

Definition gets {S E A} (f : S -> A) : M S E A := fun s => Ret (f s) s.

Definition modify {S E} (f : S -> S) : M S E unit := fun s => Ret tt (f s).

(** [if let Err(status) = m { handler(status) }]. *)
Definition catch {S E F A} (m : M S E A) (h : E -> M S F A) : M S F A :=
  fun s => match m s with
           | Ret a s' => Ret a s'
           | Fails e s' => h e s'
           | Panic => Panic
           | OutOfFuel => OutOfFuel
           end.

(** [let _ = m;] *)
Definition ignore {S E F A} (m : M S E A) : M S F unit :=
  fun s => match m s with
           | Ret _ s' => Ret tt s'
           | Fails _ s' => Ret tt s'
           | Panic => Panic
           | OutOfFuel => OutOfFuel
           end.

Declare Scope prog_scope.
Delimit Scope prog_scope with prog.
Notation "'let!' x ':=' m 'in' k" := (bind m (fun x => k))
  (at level 10, x name, m at level 100, k at level 200) : prog_scope.
Notation "'let!' ' p ':=' m 'in' k" := (bind m (fun x => match x with p => k end))
  (at level 10, p pattern, m at level 100, k at level 200) : prog_scope.
Notation "'do!' m 'in' k" := (bind m (fun _ => k))
  (at level 10, m at level 100, k at level 200) : prog_scope.
Notation "'when!' b 'then' m 'in' k" := (bind (if b then m else ret tt) (fun _ => k))
  (at level 10, b at level 100, m at level 100, k at level 200) : prog_scope.
Global Open Scope prog_scope.

(** [v[i]] and [v[i] = x] on a [Vec], panicking out of range. *)
Definition index {S E A} (l : list A) (i : Z) : M S E A :=
  match l !! Z.to_nat i with Some a => ret a | None => panic end.

(** [&v[lo..hi]], panicking when the bounds are crossed or out of range. *)
Definition slice {S E A} (l : list A) (lo hi : Z) : M S E (list A) :=
  if (lo <=? hi) && (hi <=? Z.of_nat (length l))
  then ret (take (Z.to_nat (hi - lo)) (drop (Z.to_nat lo) l)) else panic.

(** Overwrite [v[lo..hi]] with [xs] of the same length. *)
Definition write_slice {A} (lo hi : Z) (xs l : list A) : list A :=
  take (Z.to_nat lo) l ++ xs ++ drop (Z.to_nat hi) l.

(** [vec![x; n]]; an allocation above [isize::MAX] bytes panics. *)
Definition zeroed_bytes {S E} (n : Z) : M S E (list Z) :=
  if n <=? ISIZE_MAX then ret (replicate (Z.to_nat n) 0) else panic.

(** Update one element of a vector held in the state, [v[i].f = ..]. *)
Definition upd_nth {A} (i : Z) (f : A -> A) (l : list A) : list A := alter f (Z.to_nat i) l.

(** The index range [lo..hi]. *)
Definition range (lo hi : Z) : list Z := seqZ lo (hi - lo).

(** [for x in xs { .. }] threading the loop's local variables. *)
Fixpoint for_fold {S E X B} (xs : list X) (body : X -> B -> M S E B) (b : B) : M S E B :=
  match xs with
  | [] => ret b
  | x :: xs' => let! b' := body x b in for_fold xs' body b'
  end.

(** [for x in xs { .. return r .. }]: the body yields [Some r] to return early. *)
Fixpoint for_return {S E X R} (xs : list X) (body : X -> M S E (option R)) : M S E (option R) :=
  match xs with
  | [] => ret None
  | x :: xs' =>
      let! o := body x in
      match o with Some r => ret (Some r) | None => for_return xs' body end
  end.

(** [while ..]: the body yields [Continue] or [Break] with the local variables. *)
Inductive flow (B C : Type) : Type := Continue (b : B) | Break (c : C).
Arguments Continue {B C} b.
Arguments Break {B C} c.

Fixpoint loop {S E B C} (fuel : nat) (body : B -> M S E (flow B C)) (b : B) : M S E C :=
  match fuel with
  | O => fun _ => OutOfFuel
  | Datatypes.S fuel' =>
      let! r := body b in
      match r with Continue b' => loop fuel' body b' | Break c => ret c end
  end.

(** [for x in xs { .. }] with both local variables and early exits. *)
Fixpoint for_flow {S E X B C} (xs : list X) (body : X -> B -> M S E (flow B C)) (b : B)
    : M S E (flow B C) :=
  match xs with
  | [] => ret (Continue b)
  | x :: xs' =>
      let! r := body x b in
      match r with Continue b' => for_flow xs' body b' | Break c => ret (Break c) end
  end.

(** [for (i, x) in v.iter().enumerate() { if p(x) { return Some(i) } } None] *)
Fixpoint position_from {A} (k : Z) (p : A -> bool) (l : list A) : option Z :=
  match l with
  | [] => None
  | x :: l' => if p x then Some k else position_from (k + 1) p l'
  end.

Definition position {A} (p : A -> bool) (l : list A) : option Z := position_from 0 p l.

(** Run a component's method on the part of the state that holds it. *)
Definition zoom {S T E F A} (get : S -> T) (put : T -> S -> S) (conv : E -> F)
    (m : M T E A) : M S F A :=
  fun s => match m (get s) with
           | Ret a t => Ret a (put t s)
           | Fails e t => Fails (conv e) (put t s)
           | Panic => Panic
           | OutOfFuel => OutOfFuel
           end.

(** ** Counting *)

(** [b as u64]. *)
Definition b2z (b : bool) : Z := if b then 1 else 0.

(** How many elements of a vector satisfy a test. *)
Fixpoint countb {A} (p : A -> bool) (l : list A) : Z :=
  match l with [] => 0 | x :: l' => b2z (p x) + countb p l' end.

(** ** Weakest preconditions

    [wp m Q R s]: from the state [s], [m] does not panic or run out of fuel; if it
    returns [a] in state [s'] then [Q a s'], and if it fails with [e] in [s'] then
    [R e s']. *)

Definition wp {S E A} (m : M S E A) (Q : A -> S -> Prop) (R : E -> S -> Prop) (s : S) : Prop :=
  match m s with
  | Ret a s' => Q a s'
  | Fails e s' => R e s'
  | Panic => False
  | OutOfFuel => False
  end.

Section wp_rules.
Context {S E : Type}.
Implicit Types (s : S).

Lemma wp_mono {A} (m : M S E A) Q Q' R R' s :
  wp m Q R s -> (forall a s', Q a s' -> Q' a s') -> (forall e s', R e s' -> R' e s') ->
  wp m Q' R' s.
Proof. rw /wp. destruct (m s); naive_solver. Qed.

Lemma wp_ret {A} (a : A) Q (R : E -> S -> Prop) s : Q a s -> wp (ret a) Q R s.
Proof. done. Qed.

Lemma wp_throw {A} (e : E) (Q : A -> S -> Prop) R s : R e s -> wp (throw e) Q R s.
Proof. done. Qed.

Lemma wp_gets {A} (f : S -> A) Q (R : E -> S -> Prop) s : Q (f s) s -> wp (gets f) Q R s.
Proof. done. Qed.

Lemma wp_modify (f : S -> S) Q (R : E -> S -> Prop) s : Q tt (f s) -> wp (modify f) Q R s.
Proof. done. Qed.

Lemma wp_bind {A B} (m : M S E A) (k : A -> M S E B) Q R s :
  wp m (fun a s' => wp (k a) Q R s') R s -> wp (bind m k) Q R s.
Proof. rw /wp /bind. by destruct (m s). Qed.

Lemma wp_catch {F A} (m : M S E A) (h : E -> M S F A) Q R s :
  wp m Q (fun e s' => wp (h e) Q R s') s -> wp (catch m h) Q R s.
Proof. rw /wp /catch. by destruct (m s). Qed.

Lemma wp_ignore {F A} (m : M S E A) Q (R : F -> S -> Prop) s :
  wp m (fun _ s' => Q tt s') (fun _ s' => Q tt s') s -> wp (ignore m) Q R s.
Proof. rw /wp /ignore. by destruct (m s). Qed.

Lemma wp_index {A} (l : list A) i Q (R : E -> S -> Prop) s x :
  l !! Z.to_nat i = Some x -> Q x s -> wp (index l i) Q R s.
Proof. rw /wp /index. by intros ->. Qed.

Lemma wp_when (b : bool) (m : M S E unit) Q R s :
  (b = true -> wp m Q R s) -> (b = false -> Q tt s) -> wp (if b then m else ret tt) Q R s.
Proof. destruct b; naive_solver. Qed.

(** Loop rules: an invariant over the elements already visited, and for [loop] a
    measure that bounds the fuel used. *)
Lemma wp_for_fold {X B} (I : list X -> B -> S -> Prop) xs (body : X -> B -> M S E B) b R s :
  I [] b s ->
  (forall pre x post b s, xs = pre ++ x :: post -> I pre b s ->
     wp (body x b) (fun b' s' => I (pre ++ [x]) b' s') R s) ->
  wp (for_fold xs body b) (fun b' s' => I xs b' s') R s.
Proof.
  intros H0 Hstep.
  assert (forall post pre b s, xs = pre ++ post -> I pre b s ->
    wp (for_fold post body b) (fun b' s' => I xs b' s') R s) as Hgen.
  { induction post as [|x post IH]; intros pre b' s' Hxs HI; simpl.
    - apply wp_ret. rw Hxs app_nil_r. done.
    - apply wp_bind. eapply wp_mono; [by eapply (Hstep pre x post)| |done].
      intros b'' s'' HI'. apply (IH (pre ++ [x])); [|done].
      by rw -app_assoc. }
  by apply (Hgen xs []).
Qed.

Lemma wp_for_return {X A} (I : list X -> S -> Prop) xs (body : X -> M S E (option A)) Q R s :
  I [] s ->
  (forall pre x post s, xs = pre ++ x :: post -> I pre s ->
     wp (body x) (fun o s' => match o with Some r => Q (Some r) s' | None => I (pre ++ [x]) s' end) R s) ->
  (forall s, I xs s -> Q None s) ->
  wp (for_return xs body) Q R s.
Proof.
  intros H0 Hstep Hend.
  assert (forall post pre s, xs = pre ++ post -> I pre s -> wp (for_return post body) Q R s) as Hgen.
  { induction post as [|x post IH]; intros pre s' Hxs HI; simpl.
    - apply wp_ret, Hend. by rw Hxs app_nil_r.
    - apply wp_bind. eapply wp_mono; [by eapply (Hstep pre x post)| |done].
      intros [r|] s'' HI'; [by apply wp_ret|].
      apply (IH (pre ++ [x])); [by rw -app_assoc|done]. }
  by apply (Hgen xs []).
Qed.

Lemma wp_for_flow {X B C} (I : list X -> B -> S -> Prop) xs (body : X -> B -> M S E (flow B C)) b
    (Q : flow B C -> S -> Prop) R s :
  I [] b s ->
  (forall pre x post b s, xs = pre ++ x :: post -> I pre b s ->
     wp (body x b) (fun r s' => match r with
                                | Continue b' => I (pre ++ [x]) b' s'
                                | Break c => Q (Break c) s' end) R s) ->
  (forall b s, I xs b s -> Q (Continue b) s) ->
  wp (for_flow xs body b) Q R s.
Proof.
  intros H0 Hstep Hend.
  assert (forall post pre b s, xs = pre ++ post -> I pre b s -> wp (for_flow post body b) Q R s) as Hgen.
  { induction post as [|x post IH]; intros pre b' s' Hxs HI; simpl.
    - apply wp_ret, Hend. by rw Hxs app_nil_r.
    - apply wp_bind. eapply wp_mono; [by eapply (Hstep pre x post)| |done].
      intros [b''|c] s'' HI'; [|by apply wp_ret].
      apply (IH (pre ++ [x])); [by rw -app_assoc|done]. }
  by apply (Hgen xs []).
Qed.

Lemma wp_loop {B C} (I : B -> S -> Prop) (m : B -> S -> nat) fuel
    (body : B -> M S E (flow B C)) b Q R s :
  I b s -> (m b s < fuel)%nat ->
  (forall b s, I b s ->
     wp (body b) (fun r s' => match r with
                              | Continue b' => I b' s' /\ (m b' s' < m b s)%nat
                              | Break c => Q c s' end) R s) ->
  wp (loop fuel body b) Q R s.
Proof.
  revert b s. induction fuel as [|fuel IH]; intros b s HI Hm Hstep; [lia|].
  simpl. apply wp_bind. eapply wp_mono; [by apply Hstep| |done].
  intros [b'|c] s' H; [|by apply wp_ret].
  destruct H. apply IH; [done|lia|done].
Qed.

Lemma wp_zoom {T F A} (get : T -> S) put (conv : E -> F) (m : M S E A) Q R t :
  wp m (fun a s' => Q a (put s' t)) (fun e s' => R (conv e) (put s' t)) (get t) ->
  wp (zoom get put conv m) Q R t.
Proof. rw /wp /zoom. by destruct (m (get t)). Qed.

(** From a [wp] fact to what the computation returns. *)
Lemma wp_elim {A} (m : M S E A) Q R s :
  wp m Q R s ->
  (exists a s', m s = Ret a s' /\ Q a s') \/ (exists e s', m s = Fails e s' /\ R e s').
Proof. rw /wp. destruct (m s); naive_solver. Qed.

Lemma wp_intro {A} (m : M S E A) (Q : A -> S -> Prop) (R : E -> S -> Prop) s :
  (exists a s', m s = Ret a s' /\ Q a s') \/ (exists e s', m s = Fails e s' /\ R e s') ->
  wp m Q R s.
Proof. unfold wp. intros [(a&s'&Hm&?)|(e&s'&Hm&?)]; by rewrite Hm. Qed.

Lemma wp_ret_inv {A} (m : M S E A) Q R s a s' : wp m Q R s -> m s = Ret a s' -> Q a s'.
Proof. rw /wp. intros H Hm. by rw Hm in H. Qed.

Lemma wp_fails_inv {A} (m : M S E A) Q R s e s' : wp m Q R s -> m s = Fails e s' -> R e s'.
Proof. rw /wp. intros H Hm. by rw Hm in H. Qed.

End wp_rules.

Arguments wp : simpl never.

(** One symbolic-execution step on a [wp] goal. *)
Ltac wp_step :=
  lazymatch goal with
  | |- wp (let x := _ in _) _ _ _ => cbv zeta
  | |- wp (bind _ _) _ _ _ => apply wp_bind
  | |- wp (ret _) _ _ _ => apply wp_ret
  | |- wp (throw _) _ _ _ => apply wp_throw
  | |- wp (gets _) _ _ _ => apply wp_gets
  | |- wp (modify _) _ _ _ => apply wp_modify
  | |- wp (catch _ _) _ _ _ => apply wp_catch
  | |- wp (ignore _) _ _ _ => apply wp_ignore
  | |- wp (index _ _) _ _ _ => eapply wp_index; [eassumption|]
  end.
Ltac wp_steps := repeat (wp_step; cbn beta).

(** ** Shared lemmas *)

Create HintDb spark.

Lemma u32_small x : 0 <= x <= U32_MAX -> u32 x = x.
Proof. intros. unfold u32. apply Z.mod_small. lia. Qed.

Lemma u64_small x : 0 <= x <= U64_MAX -> u64 x = x.
Proof. intros. unfold u64. apply Z.mod_small. lia. Qed.

Lemma u32_range x : 0 <= u32 x <= U32_MAX.
Proof. unfold u32. pose proof (Z.mod_pos_bound x 4294967296). lia. Qed.

Lemma u64_range x : 0 <= u64 x <= U64_MAX.
Proof. unfold u64. pose proof (Z.mod_pos_bound x 18446744073709551616). lia. Qed.

Lemma div_ceil_spec a b : 0 <= a -> 0 < b -> b * (div_ceil a b - 1) < a <= b * div_ceil a b \/ (a = 0 /\ div_ceil a b = 0).
Proof.
  intros Ha Hb. unfold div_ceil. pose proof (Z.div_mod a b). pose proof (Z.mod_pos_bound a b).
  destruct (Z.ltb_spec 0 (a mod b)); nia.
Qed.

(** Flag words: tests distribute over the updates the code writes. *)
Lemma has_flag_lor f g b : has_flag (Z.lor f g) b = has_flag f b || has_flag g b.
Proof.
  unfold has_flag. rw Z.land_lor_distr_l -negb_andb. f_equal.
  apply eq_bool_prop_intro. rw andb_True !Is_true_true !Z.eqb_eq Z.lor_eq_0_iff. done.
Qed.

Lemma has_flag_clear f g b :
  Z.land (u32_not g) b = 0 -> has_flag (Z.land f (u32_not g)) b = false.
Proof. intros H. unfold has_flag. by rw -Z.land_assoc H Z.land_0_r. Qed.

Lemma has_flag_keep f g b :
  Z.land (u32_not g) b = b -> has_flag (Z.land f (u32_not g)) b = has_flag f b.
Proof. intros H. unfold has_flag. by rw -Z.land_assoc H. Qed.

Lemma has_flag_0 b : has_flag 0 b = false.
Proof. done. Qed.

(** Vectors updated in place. *)
Lemma length_upd_nth {A} i (f : A -> A) l : length (upd_nth i f l) = length l.
Proof. apply length_alter. Qed.

Lemma lookup_upd_nth_eq {A} i (f : A -> A) l x :
  l !! Z.to_nat i = Some x -> upd_nth i f l !! Z.to_nat i = Some (f x).
Proof. intros H. unfold upd_nth. by rw list_lookup_alter_eq H. Qed.

Lemma lookup_upd_nth_ne {A} i j (f : A -> A) l :
  Z.to_nat i <> j -> upd_nth i f l !! j = l !! j.
Proof. intros. unfold upd_nth. by apply list_lookup_alter_ne. Qed.

Lemma lookup_upd_nth_Some {A} i j (f : A -> A) l y :
  upd_nth i f l !! j = Some y <->
  (j = Z.to_nat i /\ exists x, l !! j = Some x /\ y = f x) \/ (j <> Z.to_nat i /\ l !! j = Some y).
Proof.
  destruct (decide (j = Z.to_nat i)) as [->|Hne].
  - unfold upd_nth. rw list_lookup_alter_eq. destruct (l !! Z.to_nat i); simpl; naive_solver.
  - rw lookup_upd_nth_ne; naive_solver.
Qed.

Lemma lookup_Some_range {A} (l : list A) i :
  0 <= i < Z.of_nat (length l) -> exists x, l !! Z.to_nat i = Some x.
Proof. intros H. apply lookup_lt_is_Some_2. lia. Qed.

(** Counting. *)
Lemma countb_nonneg {A} (p : A -> bool) l : 0 <= countb p l.
Proof. induction l as [|x l IH]; simpl; [lia|]. destruct (p x); simpl; lia. Qed.

Lemma countb_le_length {A} (p : A -> bool) l : countb p l <= Z.of_nat (length l).
Proof. induction l as [|x l IH]; simpl; [lia|]. destruct (p x); simpl; lia. Qed.

Lemma countb_app {A} (p : A -> bool) l k : countb p (l ++ k) = countb p l + countb p k.
Proof. induction l as [|x l IH]; simpl; lia. Qed.

Lemma countb_ext {A} (p q : A -> bool) l :
  (forall i x, l !! i = Some x -> p x = q x) -> countb p l = countb q l.
Proof.
  induction l as [|x l IH]; intros H; simpl; [done|].
  rewrite (H 0%nat x) by done. f_equal. apply IH. intros i y ?. by apply (H (S i) y).
Qed.

Lemma countb_insert {A} (p : A -> bool) l i x y :
  l !! i = Some x -> countb p (<[i:=y]> l) = countb p l - b2z (p x) + b2z (p y).
Proof.
  revert i. induction l as [|z l IH]; intros [|i] H; simpl in *; simplify_eq; [lia|].
  rewrite (IH i) by done. lia.
Qed.

Lemma countb_upd_nth {A} (p : A -> bool) l i x f :
  l !! Z.to_nat i = Some x -> countb p (upd_nth i f l) = countb p l - b2z (p x) + b2z (p (f x)).
Proof.
  intros H. replace (upd_nth i f l) with (<[Z.to_nat i:=f x]> l); [by apply countb_insert|].
  apply list_eq. intros j. destruct (decide (j = Z.to_nat i)) as [->|].
  - rewrite list_lookup_insert_eq by (eapply lookup_lt_Some; eassumption). symmetry. by apply lookup_upd_nth_eq.
  - rewrite list_lookup_insert_ne by congruence. symmetry. apply lookup_upd_nth_ne. congruence.
Qed.

Lemma countb_pos {A} (p : A -> bool) l :
  0 < countb p l -> exists i x, l !! i = Some x /\ p x = true.
Proof.
  induction l as [|x l IH]; simpl; [lia|]. intros H. destruct (p x) eqn:E.
  - by exists 0%nat, x.
  - destruct IH as (i&y&?&?); [simpl in *; lia|]. by exists (S i), y.
Qed.

Lemma countb_ge_1 {A} (p : A -> bool) l i x : l !! i = Some x -> p x = true -> 1 <= countb p l.
Proof.
  revert i. induction l as [|z l IH]; intros [|i] H Hp; simpl in *; simplify_eq.
  - rewrite Hp. pose proof (countb_nonneg p l). simpl. lia.
  - specialize (IH i H Hp). destruct (p z); simpl; lia.
Qed.

Lemma countb_ge_2 {A} (p : A -> bool) l i j x y :
  i <> j -> l !! i = Some x -> l !! j = Some y -> p x = true -> p y = true -> 2 <= countb p l.
Proof.
  revert i j. induction l as [|z l IH]; intros [|i] [|j] Hne Hi Hj Hx Hy; simpl in *; simplify_eq.
  - pose proof (countb_ge_1 p l j y Hj Hy). rewrite Hx. simpl. lia.
  - pose proof (countb_ge_1 p l i x Hi Hx). rewrite Hy. simpl. lia.
  - specialize (IH i j ltac:(lia) Hi Hj Hx Hy). destruct (p z); simpl; lia.
Qed.

Lemma countb_0 {A} (p : A -> bool) l :
  (forall i x, l !! i = Some x -> p x = false) -> countb p l = 0.
Proof.
  induction l as [|x l IH]; intros H; simpl; [done|].
  rewrite (H 0%nat x) by done. f_equal. apply IH. intros i y ?. by apply (H (S i) y).
Qed.

Lemma countb_0_inv {A} (p : A -> bool) l i x :
  countb p l = 0 -> l !! i = Some x -> p x = false.
Proof.
  intros H Hl. destruct (p x) eqn:E; [|done]. pose proof (countb_ge_1 p l i x Hl E). lia.
Qed.

Lemma countb_full {A} (p : A -> bool) l :
  countb p l = Z.of_nat (length l) -> forall i x, l !! i = Some x -> p x = true.
Proof.
  induction l as [|z l IH]; simpl; intros H [|i] x Hi; simplify_eq/=.
  - destruct (p x); [done|]. pose proof (countb_le_length p l). simpl in *. lia.
  - apply (IH ltac:(pose proof (countb_le_length p l); destruct (p z); simpl in *; lia) i x Hi).
Qed.

(** The first match of [position]. *)
Lemma position_Some {A} (p : A -> bool) l i :
  position p l = Some i ->
  0 <= i /\ exists x, l !! Z.to_nat i = Some x /\ p x = true.
Proof.
  unfold position. enough (forall k, 0 <= k -> position_from k p l = Some i ->
    k <= i /\ exists x, l !! Z.to_nat (i - k) = Some x /\ p x = true) as H.
  { intros Hp. destruct (H 0 ltac:(lia) Hp) as [? Hx]. by rewrite Z.sub_0_r in Hx. }
  induction l as [|y l IH]; intros k Hk; simpl; [done|]. destruct (p y) eqn:Hy.
  - intros [= ->]. split; [lia|]. exists y. by rewrite Z.sub_diag.
  - intros Hp. destruct (IH (k + 1) ltac:(lia) Hp) as (Hle&x&Hx&Hpx). split; [lia|]. exists x.
    split; [|done]. replace (Z.to_nat (i - k)) with (S (Z.to_nat (i - (k + 1)))) by lia. done.
Qed.

Lemma position_first {A} (p : A -> bool) l i :
  position p l = Some i -> forall j x, (j < Z.to_nat i)%nat -> l !! j = Some x -> p x = false.
Proof.
  unfold position. enough (forall k, 0 <= k -> position_from k p l = Some i ->
    forall j x, (j < Z.to_nat (i - k))%nat -> l !! j = Some x -> p x = false) as H.
  { intros Hp j x Hj. apply (H 0 ltac:(lia) Hp). by rewrite Z.sub_0_r. }
  induction l as [|y l IH]; intros k Hk; simpl; [done|]. destruct (p y) eqn:Hy.
  - intros [= ->] j x Hj. lia.
  - intros Hp [|j] x Hj Hx; simplify_eq/=; [done|].
    apply (IH (k + 1) ltac:(lia) Hp j x); [lia|done].
Qed.

Lemma position_None {A} (p : A -> bool) l i x :
  position p l = None -> l !! i = Some x -> p x = false.
Proof.
  unfold position. generalize 0 as k. revert i. induction l as [|y l IH]; intros i k; simpl; [done|].
  destruct (p y) eqn:Hy; [done|]. intros Hp Hx. destruct i as [|i]; simplify_eq/=; [done|].
  by eapply IH.
Qed.

Lemma position_ext {A} (p q : A -> bool) l l' :
  Forall2 (fun x y => p x = q y) l l' -> position p l = position q l'.
Proof.
  unfold position. intros H. generalize 0 as k. induction H as [|x y l l' Hxy H IH]; intros k; simpl; [done|].
  rewrite Hxy. by destruct (q y).
Qed.

(** Index ranges. *)
Lemma elem_of_range lo hi i : i ∈ range lo hi <-> lo <= i < hi.
Proof. unfold range. rw elem_of_seqZ. lia. Qed.

Lemma lookup_range lo hi (i : nat) x :
  range lo hi !! i = Some x <-> x = lo + Z.of_nat i /\ x < hi.
Proof. unfold range. rw lookup_seqZ. lia. Qed.

Lemma length_range lo hi : length (range lo hi) = Z.to_nat (hi - lo).
Proof. unfold range. apply length_seqZ. Qed.

Lemma range_split lo hi pre x post :
  range lo hi = pre ++ x :: post -> pre = range lo x /\ lo <= x < hi.
Proof.
  intros H.
  assert (range lo hi !! length pre = Some x) as Hx.
  { rw H. rewrite lookup_app_r by done. by rw Nat.sub_diag. }
  apply lookup_range in Hx as [Hx Hlt]. split; [|lia].
  apply list_eq. intros i. destruct (decide (i < length pre)%nat).
  - assert (pre !! i = range lo hi !! i) as -> by (rw H lookup_app_l //).
    unfold range. rewrite !lookup_seqZ_lt by lia. done.
  - rewrite lookup_ge_None_2 by lia. rewrite lookup_ge_None_2 by (rw length_range; lia). done.
Qed.

Lemma range_snoc lo x : lo <= x -> range lo (x + 1) = range lo x ++ [x].
Proof.
  intros. unfold range. replace (x + 1 - lo) with ((x - lo) + 1) by lia.
  rewrite seqZ_app by lia. f_equal. replace (lo + (x - lo)) with x by lia. done.
Qed.

Lemma range_nil lo hi : hi <= lo -> range lo hi = [].
Proof. intros. unfold range. rewrite seqZ_nil by lia. done. Qed.

(** Slices of a byte vector. *)
Lemma wp_slice {S E A} (l : list A) lo hi Q (R : E -> S -> Prop) s :
  0 <= lo <= hi -> hi <= Z.of_nat (length l) ->
  Q (take (Z.to_nat (hi - lo)) (drop (Z.to_nat lo) l)) s -> wp (slice l lo hi) Q R s.
Proof.
  intros. unfold slice. destruct (Z.leb_spec lo hi); [|lia].
  destruct (Z.leb_spec hi (Z.of_nat (length l))); [done|lia].
Qed.

Lemma length_write_slice {A} lo hi (xs l : list A) :
  0 <= lo <= hi -> hi <= Z.of_nat (length l) -> Z.of_nat (length xs) = hi - lo ->
  length (write_slice lo hi xs l) = length l.
Proof. intros. unfold write_slice. rewrite !length_app, length_take, length_drop. lia. Qed.

Lemma lookup_write_slice_out {A} lo hi (xs l : list A) i :
  0 <= lo <= hi -> hi <= Z.of_nat (length l) -> Z.of_nat (length xs) = hi - lo ->
  Z.of_nat i < lo \/ hi <= Z.of_nat i -> write_slice lo hi xs l !! i = l !! i.
Proof.
  intros ??? Hi. unfold write_slice.
  destruct (decide (Z.of_nat i < lo)).
  - rewrite lookup_app_l by (rewrite length_take; lia). apply lookup_take_lt. lia.
  - rewrite lookup_app_r by (rewrite length_take; lia).
    rewrite lookup_app_r by (rewrite length_take; lia).
    rewrite lookup_drop. f_equal. rewrite length_take. lia.
Qed.

(** [for (i, x) in v.iter().enumerate()] and [for i in 0..n], with an invariant on
    the number of rounds done. *)
Lemma wp_for_enumerate {S E A B} (I : nat -> B -> S -> Prop) (l : list A) (body : Z * A -> B -> M S E B) b R s :
  I 0%nat b s ->
  (forall m x b s, l !! m = Some x -> I m b s -> wp (body (Z.of_nat m, x) b) (I (Datatypes.S m)) R s) ->
  wp (for_fold (zip (range 0 (Z.of_nat (length l))) l) body b) (I (length l)) R s.
Proof.
  intros H0 Hstep.
  assert (length (zip (range 0 (Z.of_nat (length l))) l) = length l) as Hlen by (rewrite length_zip_with, length_range; lia).
  set (xs := zip _ l) in *. rewrite <- Hlen. apply (wp_for_fold (fun pre b s => I (length pre) b s)); [done|]. subst xs.
  intros pre [i x] post b' s' Hsplit HI.
  assert (zip (range 0 (Z.of_nat (length l))) l !! length pre = Some (i, x)) as Hi by (by rewrite Hsplit, list_lookup_middle).
  apply (lookup_zip_with_Some pair) in Hi as (j & y & [= <- <-] & Hj & Hy). apply lookup_range in Hj as [-> _].
  rewrite length_app, Nat.add_1_r. by apply Hstep.
Qed.

Lemma wp_for_range {S E B} (I : nat -> B -> S -> Prop) (n : nat) (body : Z -> B -> M S E B) b R s :
  I 0%nat b s ->
  (forall m b s, (m < n)%nat -> I m b s -> wp (body (Z.of_nat m) b) (I (Datatypes.S m)) R s) ->
  wp (for_fold (range 0 (Z.of_nat n)) body b) (I n) R s.
Proof.
  intros H0 Hstep. assert (length (range 0 (Z.of_nat n)) = n) as Hlen by (rewrite length_range; lia).
  set (xs := range 0 _) in *. rewrite <- Hlen. apply (wp_for_fold (fun pre b s => I (length pre) b s)); [done|]. subst xs.
  intros pre i post b' s' Hsplit HI.
  assert (range 0 (Z.of_nat n) !! length pre = Some i) as Hi by (by rewrite Hsplit, list_lookup_middle).
  apply lookup_range in Hi as [-> ?]. rewrite length_app, Nat.add_1_r. apply Hstep; [lia|done].
Qed.

#[export] Hint Rewrite @length_upd_nth @length_insert @length_alter : spark.
