(* ===== verification/FreeList.v ===== *)
(** * Intrusive free lists and the slot-pool interface

    The state pool, the arena's size classes, the batch sequence table and the
    prefix cache all keep their free slots on a singly linked list threaded
    through the slots themselves.  This file holds the shared representation
    predicate with its push/pop/initialisation lemmas, and the interface
    [SlotPool] that the fixed-slot pools promise to their clients, with the
    theorem a client gets from it. *)

From S2P Require Import Prelude.

(** [chain link none head fl]: following [link] from [head] visits exactly the
    slots [fl] and ends at the sentinel [none]. *)
Fixpoint chain (link : nat -> option Z) (none head : Z) (fl : list nat) : Prop :=
  match fl with
  | [] => head = none
  | i :: fl' => head = Z.of_nat i /\ exists nx, link i = Some nx /\ chain link none nx fl'
  end.

(** The list from [head] enumerates the free slots, each once. *)
Record free_list (link : nat -> option Z) (free : nat -> Prop) (none head : Z)
    (fl : list nat) : Prop := {
  fl_chain : chain link none head fl;
  fl_nodup : NoDup fl;
  fl_free : forall i, i ∈ fl <-> free i;
}.

(** The initial links [1, 2, .., n-1, none] a constructor writes. *)
Definition initial_links (n : nat) (none : Z) : list Z :=
  (fun i : nat => if (S i <? n)%nat then Z.of_nat (S i) else none) <$> seq 0 n.

(** The same vector as the constructors push it: [slot + 1] for every slot, then
    the last element overwritten. *)
Definition pushed_links (n none : Z) : list Z :=
  upd_nth (n - 1) (fun _ => none) ((fun slot => slot +u32 1) <$> range 0 n).

(** Link vectors that mark a live slot with a second sentinel, [in_use]. *)
Definition link_free (in_use : Z) (l : list Z) (i : nat) : Prop :=
  exists x, l !! i = Some x /\ x <> in_use.

Definition link_live (in_use : Z) (l : list Z) (i : nat) : Prop := l !! i = Some in_use.

Record slot_list (in_use none : Z) (l : list Z) (head count : Z) : Prop := {
  sl_bound : 0 < Z.of_nat (length l) < in_use;
  sl_none : in_use < none <= U32_MAX;
  sl_list : exists fl, free_list (fun i => l !! i) (link_free in_use l) none head fl /\
    count = Z.of_nat (length fl);
}.

(** What a fixed-slot pool promises: a handle is current while its slot is live
    and the handle is the one issued for it; acquiring issues a handle on a slot
    that was not live and keeps every current handle current; releasing succeeds
    exactly on current handles. *)
Class SlotPool (T H : Type) := {
  sp_wf : T -> Prop;
  sp_capacity : T -> nat;
  sp_slot : H -> nat;
  sp_live : T -> nat -> Prop;
  sp_current : T -> H -> Prop;
  sp_acquire : T -> option (H * T);
  sp_release : H -> T -> option T;
  sp_retired : T -> Prop;
  sp_current_live : forall p h, sp_wf p -> sp_current p h ->
    sp_live p (sp_slot h) /\ (sp_slot h < sp_capacity p)%nat;
  sp_acquire_some : forall p h p', sp_wf p -> sp_acquire p = Some (h, p') ->
    sp_wf p' /\ sp_capacity p' = sp_capacity p /\ ~ sp_live p (sp_slot h) /\ sp_current p' h /\
    (forall i, sp_live p' i <-> sp_live p i \/ i = sp_slot h) /\
    (forall h', sp_current p h' -> sp_current p' h');
  sp_acquire_none : forall p, sp_wf p -> sp_acquire p = None ->
    sp_retired p \/ forall i, (i < sp_capacity p)%nat -> sp_live p i;
  sp_release_current : forall p h, sp_wf p -> sp_current p h ->
    exists p', sp_release h p = Some p' /\ sp_wf p' /\ sp_capacity p' = sp_capacity p /\
      (forall i, sp_live p' i <-> sp_live p i /\ i <> sp_slot h) /\
      (forall h', sp_current p h' -> sp_slot h' <> sp_slot h -> sp_current p' h');
  sp_release_stale : forall p h, sp_wf p -> ~ sp_current p h -> sp_release h p = None;
}.

(** A client of a pool holds a list of handles; it may acquire one more or
    release one it holds. *)
Inductive client_step {T H : Type} `{!SlotPool T H} : T * list H -> T * list H -> Prop :=
| client_acquire p hs h p' :
    sp_acquire p = Some (h, p') -> client_step (p, hs) (p', h :: hs)
| client_release p hs1 h hs2 p' :
    sp_release h p = Some p' -> client_step (p, hs1 ++ h :: hs2) (p', hs1 ++ hs2).

(** What holds of a pool and its only client. *)
Definition client_inv {T H : Type} `{!SlotPool T H} (n : nat) (c : T * list H) : Prop :=
  sp_wf c.1 /\ sp_capacity c.1 = n /\ NoDup (sp_slot <$> c.2) /\ Forall (sp_current c.1) c.2 /\
  (forall i, sp_live c.1 i <-> i ∈ sp_slot <$> c.2).

Lemma chain_ext link link' none head fl :
  (forall i, i ∈ fl -> link' i = link i) -> chain link none head fl -> chain link' none head fl.
Proof.
  revert head. induction fl as [|i fl IH]; intros head Hext; simpl; [done|].
  intros (->&nx&Hi&Hc). split; [done|]. exists nx. split.
  - rewrite Hext by (by left). done.
  - apply IH; [|done]. intros j ?. apply Hext. by right.
Qed.

Lemma free_list_frame link link' (free free' : nat -> Prop) none head fl :
  free_list link free none head fl ->
  (forall i, free i -> link' i = link i) -> (forall i, free' i <-> free i) ->
  free_list link' free' none head fl.
Proof.
  intros [Hc Hn Hf] Hl Hfree. split; [|done|].
  - eapply chain_ext; [|exact Hc]. intros i Hi. apply Hl, Hf, Hi.
  - intros i. by rewrite Hf, Hfree.
Qed.

(** The head of a nonempty list, and the list without it. *)
Lemma free_list_head link (free : nat -> Prop) none head fl :
  free_list link free none head fl -> head <> none ->
  exists i nx fl', head = Z.of_nat i /\ free i /\ link i = Some nx /\ fl = i :: fl'.
Proof.
  intros [Hc Hn Hf] Hhd. destruct fl as [|i fl']; simpl in Hc; [done|].
  destruct Hc as (->&nx&Hi&Hc). exists i, nx, fl'. split_and!; [done|apply Hf; by left|done|done].
Qed.

Lemma free_list_pop link link' (free free' : nat -> Prop) none head i nx fl :
  free_list link free none head (i :: fl) -> link i = Some nx ->
  (forall j, free j -> j <> i -> link' j = link j) ->
  (forall j, free' j <-> free j /\ j <> i) ->
  free_list link' free' none nx fl.
Proof.
  intros [Hc Hn Hf] Hnx Hl Hfree. simpl in Hc. destruct Hc as (->&nx'&Hi&Hc). simplify_eq.
  apply NoDup_cons in Hn as [Hni Hn]. split; [|done|].
  - eapply chain_ext; [|exact Hc]. intros j Hj. apply Hl; [apply Hf; by right|]. set_solver.
  - intros j. rewrite Hfree, <- Hf, elem_of_cons. split; [|tauto].
    intros Hj. split; [by right|]. set_solver.
Qed.

(** A free list has no more slots than the vector it threads. *)
Lemma free_list_length link (free : nat -> Prop) none head fl n :
  free_list link free none head fl -> (forall i, free i -> (i < n)%nat) -> (length fl <= n)%nat.
Proof.
  intros [Hc Hn Hf] Hlt. rewrite <- (length_seq n 0). apply submseteq_length, NoDup_submseteq; [done|].
  intros i Hi. apply elem_of_seq. apply Hf, Hlt in Hi. lia.
Qed.

(** Pushing a slot that was not free. *)
Lemma free_list_push link link' (free free' : nat -> Prop) none head fl i :
  free_list link free none head fl -> ~ free i ->
  link' i = Some head -> (forall j, free j -> link' j = link j) ->
  (forall j, free' j <-> free j \/ j = i) ->
  free_list link' free' none (Z.of_nat i) (i :: fl).
Proof.
  intros [Hc Hn Hf] Hi Hli Hl Hfree. split.
  - simpl. split; [done|]. exists head. split; [done|].
    eapply chain_ext; [|exact Hc]. intros j Hj. apply Hl, Hf, Hj.
  - constructor; [|done]. by rewrite Hf.
  - intros j. rewrite elem_of_cons, Hf, Hfree. tauto.
Qed.

(** When the head is the sentinel nothing is free. *)
Lemma free_list_empty link (free : nat -> Prop) none fl :
  free_list link free none none fl -> (forall i, free i -> Z.of_nat i <> none) ->
  forall i, ~ free i.
Proof.
  intros [Hc Hn Hf] Hnone i Hi. destruct fl as [|j fl']; simpl in Hc.
  - apply Hf in Hi. by apply elem_of_nil in Hi.
  - destruct Hc as [Hc _]. apply (Hnone j); [apply Hf; by left|done].
Qed.

Lemma free_list_head_ne link (free : nat -> Prop) none head fl i :
  free_list link free none head fl -> free i -> (forall j, free j -> Z.of_nat j <> none) ->
  head <> none.
Proof.
  intros Hfl Hi Hnone ->. by eapply free_list_empty.
Qed.

Lemma length_initial_links n none : length (initial_links n none) = n.
Proof. unfold initial_links. by rewrite length_fmap, length_seq. Qed.

Lemma lookup_initial_links n none i :
  (i < n)%nat ->
  initial_links n none !! i = Some (if (S i <? n)%nat then Z.of_nat (S i) else none).
Proof.
  intros. unfold initial_links. rewrite list_lookup_fmap, lookup_seq_lt by lia. done.
Qed.

Lemma chain_initial n none k :
  chain (fun i => initial_links n none !! i) none
    (if (k <? n)%nat then Z.of_nat k else none) (seq k (n - k)).
Proof.
  remember (n - k)%nat as d eqn:Hd. revert k Hd. induction d as [|d IH]; intros k Hd; simpl.
  - destruct (Nat.ltb_spec k n); [lia|done].
  - destruct (Nat.ltb_spec k n); [|lia]. split; [done|].
    exists (if (S k <? n)%nat then Z.of_nat (S k) else none).
    split; [by apply lookup_initial_links|]. apply IH. lia.
Qed.

Lemma free_list_initial n none (free : nat -> Prop) :
  (0 < n)%nat -> (forall i, free i <-> (i < n)%nat) ->
  free_list (fun i => initial_links n none !! i) free none 0 (seq 0 n).
Proof.
  intros Hn Hfree. split.
  - pose proof (chain_initial n none 0) as H. rewrite Nat.sub_0_r in H.
    destruct (Nat.ltb_spec 0 n); [done|lia].
  - apply NoDup_seq.
  - intros i. rewrite elem_of_seq, Hfree. lia.
Qed.

Lemma pushed_links_initial n none :
  0 < n <= U32_MAX -> pushed_links n none = initial_links (Z.to_nat n) none.
Proof.
  intros Hn. unfold pushed_links. apply list_eq. intros i.
  destruct (decide (i < Z.to_nat n)%nat) as [Hi|Hi].
  - rewrite lookup_initial_links by done.
    assert (((fun slot => slot +u32 1) <$> range 0 n) !! i = Some (Z.of_nat i +u32 1)) as Hr.
    { rewrite list_lookup_fmap. rewrite (proj2 (lookup_range 0 n i (Z.of_nat i))) by lia. done. }
    destruct (Nat.ltb_spec (S i) (Z.to_nat n)).
    + rewrite lookup_upd_nth_ne by lia. rewrite Hr, u32_small by lia. f_equal. lia.
    + replace i with (Z.to_nat (n - 1)) in Hr |- * by lia.
      by erewrite lookup_upd_nth_eq.
  - rewrite !lookup_ge_None_2; [done| |].
    + rewrite length_initial_links. lia.
    + rewrite length_upd_nth, length_fmap, length_range. lia.
Qed.

Section slot_list.
Context (in_use none : Z).
Implicit Types l : list Z.

Lemma link_free_lt l i : link_free in_use l i -> (i < length l)%nat.
Proof. intros (link&H&_). by eapply lookup_lt_Some. Qed.

Lemma link_live_lt l i : link_live in_use l i -> (i < length l)%nat.
Proof. apply lookup_lt_Some. Qed.

Lemma link_free_or_live l i :
  (i < length l)%nat -> link_free in_use l i \/ link_live in_use l i.
Proof.
  intros Hi. destruct (lookup_lt_is_Some_2 l i Hi) as [link Hl].
  destruct (decide (link = in_use)) as [->|]; [by right|]. left. by exists link.
Qed.

Lemma link_free_not_live l i : link_free in_use l i -> ~ link_live in_use l i.
Proof. unfold link_live. intros (link&H&Hne) Hl. congruence. Qed.

Lemma slot_list_count l head count :
  slot_list in_use none l head count -> 0 <= count <= Z.of_nat (length l).
Proof.
  intros [Hb Hn (fl&Hfl&->)].
  pose proof (free_list_length _ _ _ _ _ _ Hfl (link_free_lt l)). lia.
Qed.

Lemma slot_list_initial n :
  0 < n < in_use -> in_use < none <= U32_MAX ->
  slot_list in_use none (pushed_links n none) 0 n /\
  length (pushed_links n none) = Z.to_nat n /\
  forall i, ~ link_live in_use (pushed_links n none) i.
Proof.
  intros Hn Hnone. rewrite pushed_links_initial by lia.
  assert (forall i, ~ link_live in_use (initial_links (Z.to_nat n) none) i) as Huse.
  { intros i Hi. pose proof (link_live_lt _ _ Hi) as Hlt. rewrite length_initial_links in Hlt.
    unfold link_live in Hi. rewrite lookup_initial_links in Hi by done.
    destruct (Nat.ltb_spec (S i) (Z.to_nat n)); simplify_eq; lia. }
  rewrite length_initial_links. split_and!; [|done|done].
  split; [rewrite length_initial_links; lia|done|].
  exists (seq 0 (Z.to_nat n)). rewrite length_seq. split; [|lia].
  apply free_list_initial; [lia|]. intros i. split.
  - intros Hf. apply link_free_lt in Hf. by rewrite length_initial_links in Hf.
  - intros Hi. destruct (link_free_or_live (initial_links (Z.to_nat n) none) i) as [|Hl];
      [by rewrite length_initial_links|done|by destruct (Huse i)].
Qed.

Lemma slot_list_exhausted l head i :
  slot_list in_use none l head 0 -> (i < length l)%nat -> link_live in_use l i.
Proof.
  intros [Hb Hn (fl&Hfl&Hlen)] Hi. destruct (link_free_or_live l i Hi) as [Hf|]; [|done].
  apply Hfl in Hf. destruct fl; [by apply elem_of_nil in Hf|simpl in *; lia].
Qed.

(** Popping the head slot and marking it in use. *)
Lemma slot_list_pop l head count :
  slot_list in_use none l head count -> count <> 0 ->
  exists i nx, head = Z.of_nat i /\ link_free in_use l i /\ l !! i = Some nx /\
    slot_list in_use none (upd_nth head (fun _ => in_use) l) nx (count - 1) /\
    (forall j, link_live in_use (upd_nth head (fun _ => in_use) l) j <->
       link_live in_use l j \/ j = i).
Proof.
  intros [Hb Hn (fl&Hfl&->)] Hc. destruct fl as [|k fl]; [simpl in *; lia|].
  destruct (free_list_head _ _ _ _ _ Hfl) as (i&nx&fl'&->&Hfi&Hnx&[= <- <-]).
  { eapply (free_list_head_ne _ _ _ _ _ k); [done|apply Hfl; by left|].
    intros j Hj. apply link_free_lt in Hj. lia. }
  set (l' := upd_nth (Z.of_nat k) (fun _ => in_use) l).
  assert (l' !! k = Some in_use) as Hi.
  { unfold l', upd_nth. rewrite Nat2Z.id, list_lookup_alter_eq, Hnx. done. }
  assert (forall j, j <> k -> l' !! j = l !! j) as Ho.
  { intros j Hj. unfold l'. apply lookup_upd_nth_ne. lia. }
  exists k, nx. split_and!; [done|done|done| |].
  - split; [unfold l'; by rewrite length_upd_nth|done|]. exists fl. split; [|simpl; lia].
    eapply free_list_pop; [exact Hfl|done| |].
    + intros j _ Hj. by apply Ho.
    + intros j. unfold link_free. destruct (decide (j = k)) as [->|Hne].
      * rewrite Hi. split; [intros (?&?&?); congruence|tauto].
      * rewrite Ho by done. tauto.
  - intros j. unfold link_live. destruct (decide (j = k)) as [->|Hne].
    + rewrite Hi. tauto.
    + rewrite Ho by done. tauto.
Qed.

(** Pushing a live slot back. *)
Lemma slot_list_push l head count i :
  slot_list in_use none l head count -> link_live in_use l i ->
  slot_list in_use none (upd_nth (Z.of_nat i) (fun _ => head) l) (Z.of_nat i) (count + 1) /\
  (forall j, link_live in_use (upd_nth (Z.of_nat i) (fun _ => head) l) j <->
     link_live in_use l j /\ j <> i).
Proof.
  intros [Hb Hn (fl&Hfl&->)] Hlive.
  set (l' := upd_nth (Z.of_nat i) (fun _ => head) l).
  assert (l' !! i = Some head) as Hi.
  { unfold l', upd_nth. rewrite Nat2Z.id, list_lookup_alter_eq, Hlive. done. }
  assert (forall j, j <> i -> l' !! j = l !! j) as Ho.
  { intros j Hj. unfold l'. apply lookup_upd_nth_ne. lia. }
  assert (head <> in_use) as Hhead.
  { destruct Hfl as [Hc _ Hf]. destruct fl as [|k fl]; simpl in Hc; [lia|].
    destruct Hc as [-> _]. assert (link_free in_use l k) as Hk by (apply Hf; by left).
    apply link_free_lt in Hk. lia. }
  split.
  - split; [unfold l'; by rewrite length_upd_nth|done|]. exists (i :: fl). split; [|simpl; lia].
    eapply free_list_push; [exact Hfl| |done| |].
    + intros Hf. by apply (link_free_not_live l i).
    + intros j Hj. apply Ho. intros ->. by apply (link_free_not_live l i).
    + intros j. unfold link_free. destruct (decide (j = i)) as [->|Hne].
      * rewrite Hi. split; [tauto|]. intros _. by exists head.
      * rewrite Ho by done. tauto.
  - intros j. unfold link_live. destruct (decide (j = i)) as [->|Hne].
    + rewrite Hi. split; [congruence|tauto].
    + rewrite Ho by done. tauto.
Qed.

End slot_list.

Section pool_client.
Context {T H : Type} `{!SlotPool T H}.

Lemma client_step_inv n c c' : client_inv n c -> client_step c c' -> client_inv n c'.
Proof.
  intros (Hwf&Hcap&Hnd&Hcur&Hlive) Hstep. destruct Hstep as [p hs h p' Ha|p hs1 h hs2 p' Hr];
    simpl in *.
  - apply sp_acquire_some in Ha as (Hwf'&Hcap'&Hfresh&Hh&Hlive'&Hkeep); [|done].
    unfold client_inv; simpl. split_and!; [done|congruence| | |].
    + constructor; [|done]. by rewrite <- Hlive.
    + constructor; [done|]. eapply Forall_impl; [done|]. naive_solver.
    + intros i. rewrite Hlive', Hlive, elem_of_cons. tauto.
  - rewrite fmap_app, fmap_cons in Hnd, Hlive. apply Forall_app in Hcur as [Hc1 Hc2].
    apply Forall_cons in Hc2 as [Hh Hc2].
    destruct (sp_release_current p h Hwf Hh) as (p''&Hr'&Hwf'&Hcap'&Hlive'&Hkeep).
    simplify_eq. apply NoDup_app in Hnd as (Hn1&Hd&Hn2). apply NoDup_cons in Hn2 as [Hn2 Hn3].
    unfold client_inv; simpl. rewrite fmap_app. split_and!; [done|congruence| | |].
    + apply NoDup_app. split_and!; [done| |done]. intros x Hx Hx'. apply (Hd x Hx). by right.
    + apply Forall_app. split.
      * apply Forall_forall. intros h' Hh'. rewrite Forall_forall in Hc1.
        apply Hkeep; [by apply Hc1|]. intros Heq. apply (Hd (sp_slot h')).
        -- by apply list_elem_of_fmap_2.
        -- rewrite Heq. by left.
      * apply Forall_forall. intros h' Hh'. rewrite Forall_forall in Hc2.
        apply Hkeep; [by apply Hc2|]. intros Heq. apply Hn2. rewrite <- Heq.
        by apply list_elem_of_fmap_2.
    + intros i. rewrite Hlive', Hlive, elem_of_app, elem_of_cons, elem_of_app.
      set_solver.
Qed.

Lemma client_reachable_inv n c c' :
  client_inv n c -> rtc client_step c c' -> client_inv n c'.
Proof. intros Hi Hr. induction Hr as [|c c1 c2 Hs Hr IH]; [done|]. eauto using client_step_inv. Qed.

Lemma client_inv_bound n c : client_inv n c -> (length c.2 <= n)%nat.
Proof.
  intros (Hwf&Hcap&Hnd&Hcur&Hlive).
  assert (length (sp_slot <$> c.2) <= length (seq 0 n))%nat as Hle.
  { apply submseteq_length, NoDup_submseteq; [done|]. intros i Hi.
    apply list_elem_of_fmap in Hi as (h&->&Hh). rewrite Forall_forall in Hcur.
    apply elem_of_seq. destruct (sp_current_live c.1 h Hwf (Hcur _ Hh)). lia. }
  by rewrite length_fmap, length_seq in Hle.
Qed.

End pool_client.
