(* ===== verification/StatePool.v ===== *)
(** * The recurrent-state pool ([crates/spark-core/src/state_pool.rs])

    A pool of equally sized slots, free slots linked through [next_free].  The
    file models the constructor, [acquire], [release] and the two slice accessors,
    and proves the representation invariant, the functional behaviour of every
    operation on every branch, that distinct slots never overlap in the backing
    store, and that the pool implements the [SlotPool] interface. *)

From S2P Require Import Prelude FreeList.

Definition NO_SLOT : Z := 0xffffffff.

Definition IN_USE : Z := 0xfffffffe.

Inductive StatePoolError := InvalidArgument | NotInUse.

(** [struct SlotHandle(u32)]; [index] is its only accessor. *)
Record SlotHandle := mkSlotHandle { handle_index : Z }.

Record StatePool := mkStatePool {
  backing : list Z;
  slot_bytes : Z;
  next_free : list Z;
  free_head : Z;
  free_count : Z;
}.

#[export] Instance StatePool_eta : RecordEta StatePool := fun p =>
  mkStatePool (backing p) (slot_bytes p) (next_free p) (free_head p) (free_count p).

Definition new (slot_count slot_bytes : Z) : M unit StatePoolError StatePool :=
  if (slot_count =? 0) || (slot_bytes =? 0) then throw InvalidArgument
  else
    let backing_bytes := slot_bytes *u64 slot_count in
    let next_free := pushed_links slot_count NO_SLOT in
    let! backing := zeroed_bytes backing_bytes in
    ret (mkStatePool backing slot_bytes next_free 0 slot_count).

Definition slot_count (p : StatePool) : Z := u32 (Z.of_nat (length (next_free p))).

Definition acquire {E} : M StatePool E (option SlotHandle) :=
  let! p := gets id in
  if free_count p =? 0 then ret None
  else
    let slot := free_head p in
    let! nx := index (next_free p) slot in
    do! modify (fun p => p <| free_head := nx |>) in
    do! modify (fun p => p <| next_free := upd_nth slot (fun _ => IN_USE) (next_free p) |>) in
    do! modify (fun p => p <| free_count := free_count p -u32 1 |>) in
    ret (Some (mkSlotHandle slot)).

(** [slot >= self.next_free.len() || self.next_free[slot] != IN_USE]. *)
Definition not_in_use (p : StatePool) (h : SlotHandle) : bool :=
  match next_free p !! Z.to_nat (handle_index h) with
  | None => true
  | Some link => negb (link =? IN_USE)
  end.

Definition release (h : SlotHandle) : M StatePool StatePoolError unit :=
  let! p := gets id in
  if not_in_use p h then throw NotInUse
  else
    do! modify (fun p => p <| next_free :=
        upd_nth (handle_index h) (fun _ => free_head p) (next_free p) |>) in
    do! modify (fun p => p <| free_head := handle_index h |>) in
    modify (fun p => p <| free_count := free_count p +u32 1 |>).

Definition slot_start (p : StatePool) (h : SlotHandle) : Z := handle_index h *u64 slot_bytes p.

Definition slot {E} (h : SlotHandle) : M StatePool E (option (list Z)) :=
  let! p := gets id in
  if not_in_use p h then ret None
  else
    let start := slot_start p h in
    let! bytes := slice (backing p) start (start +u64 slot_bytes p) in
    ret (Some bytes).

(** [slot_mut] hands out a mutable slice; [f] is what its holder does to the
    bytes (a slice cannot change length). *)
Definition slot_mut {E} (h : SlotHandle) (f : list Z -> list Z) : M StatePool E (option unit) :=
  let! p := gets id in
  if not_in_use p h then ret None
  else
    let start := slot_start p h in
    let! bytes := slice (backing p) start (start +u64 slot_bytes p) in
    do! modify (fun p => p <| backing :=
        write_slice start (start +u64 slot_bytes p) (f bytes) (backing p) |>) in
    ret (Some tt).

(** ** Representation invariant *)

Abbreviation is_free p := (link_free IN_USE (next_free p)).
Abbreviation is_live p := (link_live IN_USE (next_free p)).

Record pool_wf (p : StatePool) : Prop := {
  wf_bytes : 0 < slot_bytes p;
  wf_backing : Z.of_nat (length (backing p)) = slot_bytes p * Z.of_nat (length (next_free p));
  wf_fits : slot_bytes p * Z.of_nat (length (next_free p)) <= U64_MAX;
  wf_list : slot_list IN_USE NO_SLOT (next_free p) (free_head p) (free_count p);
}.

Lemma not_in_use_spec p h : not_in_use p h = false <-> is_live p (Z.to_nat (handle_index h)).
Proof.
  unfold not_in_use, link_live. destruct (next_free p !! _) as [link|]; [|naive_solver].
  rewrite negb_false_iff, Z.eqb_eq. naive_solver.
Qed.

(** Properties of each operation, from the invariant. *)

Lemma pool_new_spec n bytes :
  0 <= n < IN_USE -> 0 <= bytes -> bytes * n <= ISIZE_MAX ->
  wp (new n bytes)
    (fun p _ => 0 < n /\ 0 < bytes /\ pool_wf p /\ Z.of_nat (length (next_free p)) = n /\
       slot_bytes p = bytes /\ free_count p = n /\ forall i, ~ is_live p i)
    (fun e _ => e = InvalidArgument /\ (n = 0 \/ bytes = 0)) tt.
Proof.
  intros Hn Hb Hnb. unfold new.
  destruct (Z.eqb_spec n 0); simpl; [wp_steps; auto|].
  destruct (Z.eqb_spec bytes 0); simpl; [wp_steps; auto|].
  wp_steps. unfold zeroed_bytes. rewrite u64_small by nia.
  destruct (Z.leb_spec (bytes * n) ISIZE_MAX); [|lia].
  wp_steps. simpl. assert (0 <= bytes * n) by nia.
  destruct (slot_list_initial IN_USE NO_SLOT n) as (Hsl&Hlen&Huse); [lia|done|].
  split_and!; [lia|lia| |lia|done|done|done].
  split; simpl; [lia|rewrite length_replicate; lia|lia|done].
Qed.

(** [acquire] fails exactly when every slot is live, and otherwise takes a free
    slot and changes nothing else. *)
Lemma pool_acquire_spec {E} p :
  pool_wf p ->
  wp acquire
    (fun o p' => match o with
       | None => p' = p /\ forall i, (i < length (next_free p))%nat -> is_live p i
       | Some h => exists i, handle_index h = Z.of_nat i /\ is_free p i /\ pool_wf p' /\
           (forall j, is_live p' j <-> is_live p j \/ j = i) /\
           length (next_free p') = length (next_free p) /\ slot_bytes p' = slot_bytes p /\
           backing p' = backing p /\ free_count p' = free_count p - 1
       end)
    (fun (_ : E) _ => False) p.
Proof.
  intros [H1 H2 H3 Hsl]. unfold acquire. wp_steps. unfold id.
  pose proof (slot_list_count _ _ _ _ _ Hsl) as Hcount. pose proof (sl_bound _ _ _ _ _ Hsl) as Hb.
  destruct (Z.eqb_spec (free_count p) 0) as [Hc|Hc].
  - wp_steps. split; [done|]. intros i Hi. rewrite Hc in Hsl. by eapply slot_list_exhausted.
  - destruct (slot_list_pop _ _ _ _ _ Hsl Hc) as (i&nx&Hhd&Hfi&Hnx&Hsl'&Hlive).
    wp_step. eapply wp_index; [rewrite Hhd, Nat2Z.id; done|]. wp_steps. exists i. simpl.
    unfold IN_USE in Hb. rewrite u32_small by lia.
    split_and!; [done|done| |done|apply length_upd_nth|done|done|done].
    split; simpl; rewrite ?length_upd_nth; done.
Qed.

(** [release] succeeds exactly on live slots; a double release or a foreign
    handle is refused and leaves the pool unchanged. *)
Lemma pool_release_spec p h :
  pool_wf p -> 0 <= handle_index h ->
  wp (release h)
    (fun _ p' => is_live p (Z.to_nat (handle_index h)) /\ pool_wf p' /\
       (forall j, is_live p' j <-> is_live p j /\ j <> Z.to_nat (handle_index h)) /\
       length (next_free p') = length (next_free p) /\ slot_bytes p' = slot_bytes p /\
       backing p' = backing p /\ free_count p' = free_count p + 1)
    (fun e p' => e = NotInUse /\ p' = p /\ ~ is_live p (Z.to_nat (handle_index h))) p.
Proof.
  intros [H1 H2 H3 Hsl] Hh. unfold release. wp_steps. unfold id. destruct (not_in_use p h) eqn:Hu.
  - wp_steps. split_and!; [done|done|]. rewrite <- not_in_use_spec. congruence.
  - apply not_in_use_spec in Hu as Hlive. wp_steps. simpl.
    destruct (slot_list_push _ _ _ _ _ _ Hsl Hlive) as [Hsl' Hlive'].
    rewrite Z2Nat.id in Hsl', Hlive' by done.
    pose proof (slot_list_count _ _ _ _ _ Hsl') as Hcount. pose proof (sl_bound _ _ _ _ _ Hsl') as Hb.
    unfold IN_USE in Hb. rewrite u32_small by lia.
    split_and!; [done| |done|apply length_upd_nth|done|done|done].
    split; simpl; rewrite ?length_upd_nth; done.
Qed.

(** ** Slot contents *)

Lemma live_slot_bounds p i :
  pool_wf p -> is_live p i ->
  0 <= Z.of_nat i * slot_bytes p /\
  Z.of_nat i * slot_bytes p + slot_bytes p <= Z.of_nat (length (backing p)) <= U64_MAX.
Proof.
  intros Hwf Hi. apply lookup_lt_Some in Hi. destruct Hwf as [H1 H2 H3 H4]. nia.
Qed.

Lemma slot_start_live p i :
  pool_wf p -> is_live p i ->
  slot_start p (mkSlotHandle (Z.of_nat i)) = Z.of_nat i * slot_bytes p /\
  u64 (Z.of_nat i * slot_bytes p + slot_bytes p) = Z.of_nat i * slot_bytes p + slot_bytes p.
Proof.
  intros Hwf Hi. pose proof (live_slot_bounds p i Hwf Hi). pose proof (wf_bytes p Hwf).
  unfold slot_start; simpl. rewrite !u64_small by lia. done.
Qed.

(** The bytes of slot [i]: the [i]-th segment of the backing store. *)
Definition slot_contents (p : StatePool) (i : nat) : list Z :=
  take (Z.to_nat (slot_bytes p)) (drop (Z.to_nat (Z.of_nat i * slot_bytes p)) (backing p)).

Lemma slot_spec {E} p i :
  pool_wf p ->
  wp (slot (mkSlotHandle (Z.of_nat i)))
    (fun o p' => p' = p /\
       match o with
       | Some bytes => is_live p i /\ bytes = slot_contents p i /\
           Z.of_nat (length bytes) = slot_bytes p
       | None => ~ is_live p i
       end)
    (fun (_ : E) _ => False) p.
Proof.
  intros Hwf. unfold slot. wp_steps. unfold id. destruct (not_in_use p _) eqn:Hu.
  - wp_steps. split; [done|]. intros Hl. rewrite (proj2 (not_in_use_spec _ _)) in Hu; [done|].
    simpl. by rewrite Nat2Z.id.
  - apply not_in_use_spec in Hu as Hlive. simpl in Hlive. rewrite Nat2Z.id in Hlive.
    pose proof (live_slot_bounds p i Hwf Hlive). pose proof (wf_bytes p Hwf).
    destruct (slot_start_live p i Hwf Hlive) as [-> ->]. wp_steps.
    apply wp_slice; [lia|lia|]. wp_steps. split_and!; [done|done| |].
    + unfold slot_contents. repeat f_equal. lia.
    + rewrite length_take, length_drop. lia.
Qed.

Lemma slot_mut_spec {E} p i (f : list Z -> list Z) :
  pool_wf p -> (forall b, length (f b) = length b) ->
  wp (slot_mut (mkSlotHandle (Z.of_nat i)) f)
    (fun o p' => match o with
       | Some _ => is_live p i /\ pool_wf p' /\ next_free p' = next_free p /\
           slot_bytes p' = slot_bytes p /\ slot_contents p' i = f (slot_contents p i) /\
           (forall j, j <> i -> is_live p j -> slot_contents p' j = slot_contents p j)
       | None => p' = p /\ ~ is_live p i
       end)
    (fun (_ : E) _ => False) p.
Proof.
  intros Hwf Hf. unfold slot_mut. wp_steps. unfold id. destruct (not_in_use p _) eqn:Hu.
  - wp_steps. split; [done|]. intros Hl. rewrite (proj2 (not_in_use_spec _ _)) in Hu; [done|].
    simpl. by rewrite Nat2Z.id.
  - apply not_in_use_spec in Hu as Hlive. simpl in Hlive. rewrite Nat2Z.id in Hlive.
    pose proof (live_slot_bounds p i Hwf Hlive) as Hb. pose proof (wf_bytes p Hwf) as Hsb.
    destruct (slot_start_live p i Hwf Hlive) as [-> Hu64]. wp_steps.
    rewrite Hu64. apply wp_slice; [lia|lia|]. wp_steps. simpl. rewrite Hu64.
    set (start := Z.of_nat i * slot_bytes p) in *.
    replace (Z.to_nat (start + slot_bytes p - start)) with (Z.to_nat (slot_bytes p)) by lia.
    change (take (Z.to_nat (slot_bytes p)) (drop (Z.to_nat start) (backing p)))
      with (slot_contents p i). set (bytes := slot_contents p i).
    assert (Z.of_nat (length (f bytes)) = slot_bytes p) as Hlen.
    { rewrite Hf. unfold bytes, slot_contents. rewrite length_take, length_drop. lia. }
    assert (length (write_slice start (start + slot_bytes p) (f bytes) (backing p)) =
      length (backing p)) as Hl by (apply length_write_slice; lia).
    split_and!; [done| |done|done| |].
    + destruct Hwf as [H1 H2 H3 H4]. split; simpl; [exact H1|lia|exact H3|exact H4].
    + unfold slot_contents; simpl. fold start. unfold write_slice.
      rewrite drop_app_length' by (rewrite length_take; lia).
      rewrite take_app_length' by lia. done.
    + intros j Hne Hj. pose proof (live_slot_bounds p j Hwf Hj) as Hbj.
      unfold slot_contents; simpl. apply list_eq. intros k.
      destruct (decide (k < Z.to_nat (slot_bytes p))%nat).
      * rewrite !lookup_take_lt by lia. rewrite !lookup_drop. apply lookup_write_slice_out; [lia|lia|lia|].
        subst start. nia.
      * rewrite !lookup_take_ge by lia. done.
Qed.

(** ** The pool implements the slot-pool interface *)

Definition run_acquire (p : StatePool) : option (nat * StatePool) :=
  match acquire (E := StatePoolError) p with
  | Ret (Some h) p' => Some (Z.to_nat (handle_index h), p')
  | _ => None
  end.

Definition run_release (i : nat) (p : StatePool) : option StatePool :=
  match release (mkSlotHandle (Z.of_nat i)) p with Ret _ p' => Some p' | _ => None end.

#[export] Program Instance StatePool_SlotPool : SlotPool StatePool nat := {
  sp_wf := pool_wf;
  sp_capacity p := length (next_free p);
  sp_slot i := i;
  sp_live p := is_live p;
  sp_current p := is_live p;
  sp_acquire := run_acquire;
  sp_release := run_release;
  sp_retired _ := False;
}.
Next Obligation. intros p i _ Hi. split; [done|]. exact (link_live_lt _ _ _ Hi). Qed.
Next Obligation.
  intros p i p' Hwf. unfold run_acquire. pose proof (pool_acquire_spec (E:=StatePoolError) p Hwf) as Hs.
  unfold wp in Hs. destruct (acquire p) as [[h|] q| | |]; intros [= <- <-].
  destruct Hs as (k&Hk&Hfree&Hwf'&Hlive&Hlen&_). rewrite Hk, Nat2Z.id.
  split_and!; [done|done|by apply link_free_not_live|apply Hlive; by right|done|].
  intros j Hj. apply Hlive. by left.
Qed.
Next Obligation.
  intros p Hwf. unfold run_acquire. pose proof (pool_acquire_spec (E:=StatePoolError) p Hwf) as Hs.
  unfold wp in Hs. destruct (acquire p) as [[h|] q| | |]; naive_solver.
Qed.
Next Obligation.
  intros p i Hwf Hi. unfold run_release.
  pose proof (pool_release_spec p (mkSlotHandle (Z.of_nat i)) Hwf ltac:(simpl; lia)) as Hs.
  unfold wp in Hs. simpl in Hs. rewrite Nat2Z.id in Hs.
  destruct (release _ p) as [u q|e q| |]; [|naive_solver|done|done].
  destruct Hs as (_&Hwf'&Hlive&Hlen&_). exists q. split_and!; [done|done|done|done|].
  intros j Hj Hne. apply Hlive. done.
Qed.
Next Obligation.
  intros p i Hwf Hi. unfold run_release.
  pose proof (pool_release_spec p (mkSlotHandle (Z.of_nat i)) Hwf ltac:(simpl; lia)) as Hs.
  unfold wp in Hs. simpl in Hs. rewrite Nat2Z.id in Hs.
  destruct (release _ p) as [u q|e q| |]; naive_solver.
Qed.

(** ** Properties *)

(** C36. Whatever a client does with a freshly created pool (acquiring slots and
    releasing the ones it holds, in any order), the slots it holds are pairwise
    distinct, each is live, never more than [slot_count], and [acquire] returns
    [None] only when all [slot_count] slots are held. *)
Theorem state_pool_client_safe n bytes p p' held :
  0 <= n < IN_USE -> 0 <= bytes -> bytes * n <= ISIZE_MAX ->
  new n bytes tt = Ret p tt -> rtc client_step (p, []) (p', held) ->
  NoDup held /\ Forall (is_live p') held /\ Z.of_nat (length held) <= n /\
  (run_acquire p' = None -> Z.of_nat (length held) = n).
Proof.
  intros Hn Hb Hnb Hnew Hr.
  pose proof (wp_ret_inv _ _ _ _ _ _ (pool_new_spec n bytes Hn Hb Hnb) Hnew) as (_&_&Hwf&Hlen&_&_&Hno).
  assert (client_inv (length (next_free p)) (p, [] : list nat)) as Hi.
  { split_and!; [done|done|constructor|constructor|]. intros i; simpl.
    split; [intros Hi; by destruct (Hno i)|by intros ?%elem_of_nil]. }
  pose proof (client_reachable_inv _ _ _ Hi Hr) as Hi'.
  pose proof (client_inv_bound _ _ Hi') as Hbound. destruct Hi' as (Hwf'&Hcap&Hnd&Hcur&Hlive).
  simpl in *. rewrite list_fmap_id in Hnd, Hlive. split_and!; [done|done|lia|].
  intros Ha. apply (@sp_acquire_none _ _ StatePool_SlotPool p' Hwf') in Ha as [[]|Hall]. simpl in Hall.
  assert (length (seq 0 (length (next_free p'))) <= length held)%nat as Hle.
  { apply submseteq_length, NoDup_submseteq; [apply NoDup_seq|]. intros i Hi2.
    apply Hlive, Hall. apply elem_of_seq in Hi2. lia. }
  rewrite length_seq in Hle. lia.
Qed.

Lemma state_pool_client_safe_witness :
  exists p p', new 2 8 tt = Ret p tt /\ rtc client_step (p, []) (p', [1%nat; 0%nat]) /\
  NoDup [1%nat; 0%nat] /\ Forall (is_live p') [1%nat; 0%nat] /\ Z.of_nat 2 <= 2 /\
  (run_acquire p' = None -> Z.of_nat 2 = 2).
Proof.
  eexists _, _. split; [reflexivity|].
  match goal with |- ?r /\ _ => assert r as Hr end.
  { eapply rtc_l; [by apply client_acquire|]. eapply rtc_l; [by apply client_acquire|].
    apply rtc_refl. }
  split; [exact Hr|].
  refine (state_pool_client_safe 2 8 _ _ _ _ _ _ _ Hr); unfold IN_USE; [lia|lia|lia|reflexivity].
Defined.

(** Slots do not overlap: after writing through one live handle, reading it
    returns what was written, every other live slot reads as before, and neither
    call panics. *)
Theorem state_pool_slot_isolation p i j (f : list Z -> list Z) :
  pool_wf p -> is_live p i -> is_live p j -> i <> j -> (forall b, length (f b) = length b) ->
  exists p' bi bj,
    slot (E := StatePoolError) (mkSlotHandle (Z.of_nat i)) p = Ret (Some bi) p /\
    slot (E := StatePoolError) (mkSlotHandle (Z.of_nat j)) p = Ret (Some bj) p /\
    slot_mut (E := StatePoolError) (mkSlotHandle (Z.of_nat i)) f p = Ret (Some tt) p' /\
    slot (E := StatePoolError) (mkSlotHandle (Z.of_nat i)) p' = Ret (Some (f bi)) p' /\
    slot (E := StatePoolError) (mkSlotHandle (Z.of_nat j)) p' = Ret (Some bj) p'.
Proof.
  intros Hwf Hi Hj Hne Hf.
  assert (forall q k, pool_wf q -> is_live q k ->
    slot (E := StatePoolError) (mkSlotHandle (Z.of_nat k)) q = Ret (Some (slot_contents q k)) q) as Hread.
  { intros q k Hq Hk. pose proof (slot_spec (E:=StatePoolError) q k Hq) as Hs.
    unfold wp in Hs. destruct (slot _ q) as [[b|] q'| | |]; naive_solver. }
  pose proof (slot_mut_spec (E:=StatePoolError) p i f Hwf Hf) as Hm. unfold wp in Hm.
  destruct (slot_mut _ f p) as [[[]|] p'| | |]; [|naive_solver|done|done|done].
  destruct Hm as (_&Hwf'&Hnf&_&Hci&Hcj).
  assert (forall k, is_live p k -> is_live p' k) as Hlv by (by rewrite Hnf).
  exists p', (slot_contents p i), (slot_contents p j).
  split_and!; [by apply Hread|by apply Hread|done| |].
  - rewrite Hread, Hci; [done|done|by apply Hlv].
  - rewrite Hread, Hcj; [done|congruence|done|done|by apply Hlv].
Qed.

(** A pool of two 2-byte slots with both slots handed out. *)
Definition full_pool : StatePool := mkStatePool [1; 2; 3; 4] 2 [IN_USE; IN_USE] NO_SLOT 0.

Lemma full_pool_wf : pool_wf full_pool.
Proof.
  split; simpl; [done|done|done|]. split; [done|done|]. exists []. split; [|done].
  split; [done|constructor|]. intros i. split; [by intros ?%elem_of_nil|].
  intros (link&Hl&Hne). destruct i as [|[|i]]; simplify_eq/=.
Qed.

Lemma state_pool_slot_isolation_witness :
  exists p' bi bj,
    slot (E := StatePoolError) (mkSlotHandle 0) full_pool = Ret (Some bi) full_pool /\
    slot (E := StatePoolError) (mkSlotHandle 1) full_pool = Ret (Some bj) full_pool /\
    slot_mut (E := StatePoolError) (mkSlotHandle 0) (fmap (fun _ => 9)) full_pool = Ret (Some tt) p' /\
    slot (E := StatePoolError) (mkSlotHandle 0) p' = Ret (Some ((fun _ => 9) <$> bi)) p' /\
    slot (E := StatePoolError) (mkSlotHandle 1) p' = Ret (Some bj) p'.
Proof.
  apply (state_pool_slot_isolation full_pool 0 1 (fmap (fun _ => 9))).
  - apply full_pool_wf.
  - reflexivity.
  - reflexivity.
  - discriminate.
  - intros b. apply length_fmap.
Defined.

(** The region size is not checked: with two slots of 2^63 bytes the product
    [slot_bytes * slot_count] wraps to zero, [new] returns a pool instead of
    [InvalidArgument], and reading the first slot it hands out panics. *)
Theorem state_pool_new_unchecked_product :
  exists p p' h, new 2 (2 ^ 63) tt = Ret p tt /\ backing p = [] /\
    acquire (E := StatePoolError) p = Ret (Some h) p' /\
    slot (E := StatePoolError) h p' = Panic.
Proof.
  exists (mkStatePool [] (2 ^ 63) [1; NO_SLOT] 0 2), (mkStatePool [] (2 ^ 63) [IN_USE; NO_SLOT] 1 1),
    (mkSlotHandle 0). split_and!; by vm_compute.
Qed.
