(* ===== verification/Arena.v ===== *)
(** * The size-classed arena ([crates/spark-core/src/arena.rs])

    One backing blob cut into size classes of equally sized slots, handles tagged
    with a per-slot generation.  Modelled: [Arena::new], [acquire], [release],
    [resolve] with the two accessors built on it, and the counters.  Proved: the
    class invariant and its preservation, first-fit selection and every error
    branch of [acquire], that live handles address disjoint byte ranges inside the
    backing store, and that a released handle is refused for ever after. *)

From S2P Require Import Prelude FreeList.

Definition MAX_CLASS_COUNT : Z := 8.

Definition ALIGNMENT : Z := 16.

Definition NO_SLOT : Z := 0xffffffff.

Definition IN_USE : Z := 0xfffffffe.

Record ClassDescriptor := mkClassDescriptor { desc_slot_bytes : Z; desc_slot_count : Z }.

Record ArenaHandle := mkArenaHandle { class_index : Z; slot_index : Z; handle_generation : Z }.

Inductive ArenaError :=
| InvalidArgument | InvalidClassLayout | RegionOverflow | NoFittingClass | ClassExhausted | StaleHandle.

Record ArenaClass := mkArenaClass {
  slot_bytes : Z;
  slot_count : Z;
  links : list Z;
  slot_generations : list Z;
  free_head : Z;
  free_count : Z;
  generation : Z;
}.

#[export] Instance ArenaClass_eta : RecordEta ArenaClass := fun c =>
  mkArenaClass (slot_bytes c) (slot_count c) (links c) (slot_generations c) (free_head c)
    (free_count c) (generation c).

Record Arena := mkArena {
  backing : list Z;
  classes : list ArenaClass;
  class_offsets : list Z;
}.

#[export] Instance Arena_eta : RecordEta Arena := fun a =>
  mkArena (backing a) (classes a) (class_offsets a).

(** [(slot_bytes as u64 + (ALIGNMENT - 1)) & !(ALIGNMENT - 1)]. *)
Definition round_slot_bytes (slot_bytes : Z) : Z :=
  Z.land (slot_bytes +u64 (ALIGNMENT - 1)) (U64_MAX - (ALIGNMENT - 1)).

(** The validation pass of [new] over one descriptor, on its two locals
    [(previous_slot_bytes, slot_region_bytes)]. *)
Definition validate_descriptor (d : ClassDescriptor) (acc : Z * Z) : M unit ArenaError (Z * Z) :=
  let '(previous_slot_bytes, slot_region_bytes) := acc in
  let slot_bytes := round_slot_bytes (desc_slot_bytes d) in
  if (desc_slot_bytes d =? 0) || (desc_slot_count d =? 0) then throw InvalidClassLayout
  else if (0 <? slot_region_bytes) && (slot_bytes <=? previous_slot_bytes) then
    throw InvalidClassLayout
  else
    let size := slot_bytes *u64 desc_slot_count d in
    if U64_MAX <? slot_region_bytes + size then throw RegionOverflow
    else ret (slot_bytes, slot_region_bytes + size).

(** The class built for one descriptor; the rounded size is narrowed to [u32]. *)
Definition make_class (d : ClassDescriptor) : ArenaClass :=
  let slot_bytes := u32 (round_slot_bytes (desc_slot_bytes d)) in
  let slot_count := desc_slot_count d in
  let links := pushed_links slot_count NO_SLOT in
  mkArenaClass slot_bytes slot_count links (replicate (Z.to_nat slot_count) 0) 0 slot_count 0.

Arguments make_class : simpl never.

(** The building pass: the classes and the byte offset of each. *)
Fixpoint build_classes (ds : list ClassDescriptor) (region_offset : Z) : list ArenaClass * list Z :=
  match ds with
  | [] => ([], [])
  | d :: ds' =>
      let c := make_class d in
      let '(cs, offs) := build_classes ds' (region_offset +u64 (slot_bytes c *u64 slot_count c)) in
      (c :: cs, region_offset :: offs)
  end.

Definition new (descriptors : list ClassDescriptor) : M unit ArenaError Arena :=
  let n := Z.of_nat (length descriptors) in
  if (n =? 0) || (MAX_CLASS_COUNT <? n) then throw InvalidArgument
  else
    let! acc := for_fold descriptors validate_descriptor (0, 0) in
    let slot_region_bytes := acc.2 in
    if ISIZE_MAX <? slot_region_bytes then throw RegionOverflow
    else
      let! backing := zeroed_bytes slot_region_bytes in
      let '(cs, offs) := build_classes descriptors 0 in
      ret (mkArena backing cs offs).

Definition reserved_bytes (a : Arena) : Z := Z.of_nat (length (backing a)).

Definition class_generation (a : Arena) (ci : Z) : Z :=
  match classes a !! Z.to_nat ci with Some c => generation c | None => 0 end.

Definition class_free_count (a : Arena) (ci : Z) : Z :=
  match classes a !! Z.to_nat ci with Some c => free_count c | None => 0 end.

(** What [acquire] does to the class it selected: pop the head slot and bump its
    generation. *)
Definition acquire_in_class : M ArenaClass ArenaError (Z * Z) :=
  let! c := gets id in
  if free_count c =? 0 then throw ClassExhausted
  else
    let slot := free_head c in
    let! gen := index (slot_generations c) slot in
    if gen =? U64_MAX then throw StaleHandle
    else
      let! nx := index (links c) slot in
      do! modify (fun c => c <| free_head := nx |>) in
      do! modify (fun c => c <| links := upd_nth slot (fun _ => IN_USE) (links c) |>) in
      do! modify (fun c => c <| free_count := free_count c -u32 1 |>) in
      do! modify (fun c => c <| generation := sat_add64 (generation c) 1 |>) in
      let generation := gen +u64 1 in
      do! modify (fun c => c <| slot_generations :=
          upd_nth slot (fun _ => generation) (slot_generations c) |>) in
      ret (slot, generation).

(** Run a class method on [classes[ci]]. *)
Definition on_class {A} (ci : Z) (c : ArenaClass) (m : M ArenaClass ArenaError A)
    : M Arena ArenaError A :=
  zoom (fun _ => c) (fun c' a => a <| classes := upd_nth ci (fun _ => c') (classes a) |>) id m.

Definition acquire (bytes : Z) : M Arena ArenaError ArenaHandle :=
  if bytes =? 0 then throw InvalidArgument
  else
    let! a := gets id in
    let! found := for_return (range 0 (Z.of_nat (length (classes a)))) (fun ci =>
      let! c := index (classes a) ci in
      if slot_bytes c <? bytes then ret None
      else
        let! '(slot, gen) := on_class ci c acquire_in_class in
        ret (Some (mkArenaHandle (u32 ci) (u32 slot) gen))) in
    match found with Some h => ret h | None => throw NoFittingClass end.

Definition release_in_class (h : ArenaHandle) : M ArenaClass ArenaError unit :=
  let! c := gets id in
  if slot_count c <=? slot_index h then throw StaleHandle
  else
    let! link := index (links c) (slot_index h) in
    if negb (link =? IN_USE) then throw StaleHandle
    else
      let! gen := index (slot_generations c) (slot_index h) in
      if (handle_generation h =? 0) || negb (gen =? handle_generation h) then throw StaleHandle
      else
        do! modify (fun c => c <| links :=
            upd_nth (slot_index h) (fun _ => free_head c) (links c) |>) in
        do! modify (fun c => c <| free_head := slot_index h |>) in
        modify (fun c => c <| free_count := free_count c +u32 1 |>).

Definition release (h : ArenaHandle) : M Arena ArenaError unit :=
  let! a := gets id in
  match classes a !! Z.to_nat (class_index h) with
  | None => throw StaleHandle
  | Some c => on_class (class_index h) c (release_in_class h)
  end.

(** [resolve] yields the byte range of a live handle. *)
Definition resolve (h : ArenaHandle) : M Arena ArenaError (Z * Z) :=
  let! a := gets id in
  match classes a !! Z.to_nat (class_index h) with
  | None => throw StaleHandle
  | Some c =>
      if slot_count c <=? slot_index h then throw StaleHandle
      else
        let! link := index (links c) (slot_index h) in
        if negb (link =? IN_USE) then throw StaleHandle
        else
          let! gen := index (slot_generations c) (slot_index h) in
          if negb (gen =? handle_generation h) then throw StaleHandle
          else
            let! offset := index (class_offsets a) (class_index h) in
            let start := offset +u64 (slot_index h *u64 slot_bytes c) in
            ret (start, start +u64 slot_bytes c)
  end.

Definition get (h : ArenaHandle) : M Arena ArenaError (list Z) :=
  let! '(lo, hi) := resolve h in
  let! a := gets id in
  slice (backing a) lo hi.

(** [get_mut], with [f] what the borrower does to the slice. *)
Definition get_mut (h : ArenaHandle) (f : list Z -> list Z) : M Arena ArenaError unit :=
  let! '(lo, hi) := resolve h in
  let! a := gets id in
  let! bytes := slice (backing a) lo hi in
  modify (fun a => a <| backing := write_slice lo hi (f bytes) (backing a) |>).

(** ** Invariants *)

Abbreviation is_free c := (link_free IN_USE (links c)).
Abbreviation is_live c := (link_live IN_USE (links c)).

Record class_wf (c : ArenaClass) : Prop := {
  cw_count : Z.of_nat (length (links c)) = slot_count c;
  cw_gens : length (slot_generations c) = length (links c);
  cw_gen_range : forall i g, slot_generations c !! i = Some g -> 0 <= g <= U64_MAX;
  cw_gen_live : forall i g, slot_generations c !! i = Some g -> is_live c i -> 1 <= g;
  cw_list : slot_list IN_USE NO_SLOT (links c) (free_head c) (free_count c);
}.

(** The handle [(i, g)] is the one issued for the current occupant of slot [i]. *)
Definition class_current (c : ArenaClass) (i : nat) (g : Z) : Prop :=
  is_live c i /\ slot_generations c !! i = Some g.

(** Bytes taken by a list of classes. *)
Fixpoint region_size (cs : list ArenaClass) : Z :=
  match cs with [] => 0 | c :: cs' => slot_bytes c * slot_count c + region_size cs' end.

Record arena_wf (a : Arena) : Prop := {
  aw_classes : Forall class_wf (classes a);
  aw_bytes : Forall (fun c => 0 < slot_bytes c <= U32_MAX) (classes a);
  aw_sorted : forall i j c d, (i < j)%nat -> classes a !! i = Some c -> classes a !! j = Some d ->
    slot_bytes c < slot_bytes d;
  aw_offsets : forall i c, classes a !! i = Some c ->
    class_offsets a !! i = Some (region_size (take i (classes a)));
  aw_len : (length (classes a) <= 8)%nat;
  aw_backing : Z.of_nat (length (backing a)) = region_size (classes a);
  aw_fits : region_size (classes a) <= ISIZE_MAX;
}.

(** A handle as the code compares it: class, slot and generation. *)
Definition current (a : Arena) (h : ArenaHandle) : Prop :=
  0 <= class_index h /\ 0 <= slot_index h /\
  exists c, classes a !! Z.to_nat (class_index h) = Some c /\
    class_current c (Z.to_nat (slot_index h)) (handle_generation h).

(** ** Class operations *)

Lemma acquire_in_class_spec c :
  class_wf c ->
  wp acquire_in_class
    (fun r c' => exists i g, r = (Z.of_nat i, g + 1) /\ is_free c i /\
       slot_generations c !! i = Some g /\ g < U64_MAX /\ class_wf c' /\
       slot_bytes c' = slot_bytes c /\ slot_count c' = slot_count c /\
       (forall j, is_live c' j <-> is_live c j \/ j = i) /\
       slot_generations c' = <[i := g + 1]> (slot_generations c) /\
       free_count c' = free_count c - 1)
    (fun e c' => c' = c /\
       (e = ClassExhausted /\ (forall i, (i < length (links c))%nat -> is_live c i) \/
        e = StaleHandle /\ exists i, is_free c i /\ slot_generations c !! i = Some U64_MAX)) c.
Proof.
  intros [H1 H2 H3 H3' Hsl]. unfold acquire_in_class. wp_steps. unfold id.
  pose proof (slot_list_count _ _ _ _ _ Hsl) as Hcount. pose proof (sl_bound _ _ _ _ _ Hsl) as Hb.
  destruct (Z.eqb_spec (free_count c) 0) as [Hc|Hc].
  - wp_steps. split; [done|]. left. split; [done|]. intros i Hi. rewrite Hc in Hsl.
    by eapply slot_list_exhausted.
  - destruct (slot_list_pop _ _ _ _ _ Hsl Hc) as (i&nx&Hhd&Hfi&Hnx&Hsl'&Hlive).
    pose proof (link_free_lt _ _ _ Hfi) as Hilt.
    destruct (lookup_lt_is_Some_2 (slot_generations c) i) as [g Hg]; [lia|].
    wp_step. eapply wp_index; [rewrite Hhd, Nat2Z.id; done|].
    pose proof (H3 i g Hg) as Hgr. destruct (Z.eqb_spec g U64_MAX) as [->|Hgm].
    { wp_steps. split; [done|]. right. split; [done|]. by exists i. }
    wp_step. eapply wp_index; [rewrite Hhd, Nat2Z.id; done|]. wp_steps. simpl.
    rewrite (u64_small (g + 1)) by lia. unfold IN_USE in Hb. rewrite u32_small by lia.
    assert (upd_nth (free_head c) (fun _ => g + 1) (slot_generations c) =
      <[i := g + 1]> (slot_generations c)) as Hup.
    { unfold upd_nth. rewrite Hhd, Nat2Z.id. symmetry. apply list_insert_alter. }
    exists i, g. rewrite Hhd at 1. split_and!; [done|done|done|lia| |done|done|done|done|done].
    split; simpl; rewrite ?length_upd_nth; [done|done| | |done].
    + rewrite Hup. intros j gj Hj. apply list_lookup_insert_Some in Hj as [(_&<-&_)|[_ Hj]];
        [lia|exact (H3 _ _ Hj)].
    + rewrite Hup. intros j gj Hj Hl. apply list_lookup_insert_Some in Hj as [(_&<-&_)|[Hne Hj]];
        [lia|]. apply Hlive in Hl as [Hl| ->]; [exact (H3' _ _ Hj Hl)|done].
Qed.

Lemma release_in_class_spec c h :
  class_wf c -> 0 <= slot_index h ->
  let i := Z.to_nat (slot_index h) in
  wp (release_in_class h)
    (fun _ c' => class_current c i (handle_generation h) /\ class_wf c' /\
       slot_bytes c' = slot_bytes c /\ slot_count c' = slot_count c /\
       (forall j, is_live c' j <-> is_live c j /\ j <> i) /\
       slot_generations c' = slot_generations c /\ free_count c' = free_count c + 1)
    (fun e c' => e = StaleHandle /\ c' = c /\ ~ class_current c i (handle_generation h)) c.
Proof.
  intros [H1 H2 H3 H3' Hsl] Hh i. unfold release_in_class. wp_steps. unfold id.
  destruct (Z.leb_spec (slot_count c) (slot_index h)).
  { wp_steps. split_and!; [done|done|]. intros [Hl _]. apply link_live_lt in Hl. lia. }
  destruct (lookup_lt_is_Some_2 (links c) i) as [link Hlink]; [lia|].
  destruct (lookup_lt_is_Some_2 (slot_generations c) i) as [g Hg]; [lia|].
  wp_steps. destruct (Z.eqb_spec link IN_USE) as [->|Hne]; simpl.
  2:{ wp_steps. split_and!; [done|done|]. intros [Hl _]. unfold link_live in Hl. congruence. }
  wp_steps. pose proof (H3' i g Hg Hlink) as Hg1.
  destruct (Z.eqb_spec g (handle_generation h)) as [->|Hgne]; simpl.
  2:{ rewrite orb_true_r. wp_steps. split_and!; [done|done|]. intros [_ Hg']. congruence. }
  rewrite orb_false_r. destruct (Z.eqb_spec (handle_generation h) 0); [lia|]. wp_steps. simpl.
  destruct (slot_list_push _ _ _ _ _ _ Hsl Hlink) as [Hsl' Hlive']. unfold i in *.
  rewrite Z2Nat.id in Hsl', Hlive' by done.
  pose proof (slot_list_count _ _ _ _ _ Hsl') as Hcount. pose proof (sl_bound _ _ _ _ _ Hsl') as Hb.
  unfold IN_USE in Hb. rewrite u32_small by lia.
  split_and!; [done| |done|done|done|done|done].
  split; simpl; rewrite ?length_upd_nth; [done..| |done].
  intros j gj Hj Hl. apply Hlive' in Hl as [Hl _]. exact (H3' _ _ Hj Hl).
Qed.

(** ** Arena operations *)

Lemma region_size_nonneg cs :
  Forall class_wf cs -> Forall (fun c => 0 < slot_bytes c <= U32_MAX) cs -> 0 <= region_size cs.
Proof.
  induction cs as [|c cs IH]; intros Hw Hb; simpl; [done|].
  apply Forall_cons in Hw as [Hw Hws]. apply Forall_cons in Hb as [Hb Hbs].
  pose proof (cw_count c Hw). specialize (IH Hws Hbs). nia.
Qed.

Lemma region_size_app cs ds : region_size (cs ++ ds) = region_size cs + region_size ds.
Proof. induction cs as [|c cs IH]; simpl; lia. Qed.

(** Replacing a class by one of the same shape keeps the arena's layout. *)
Lemma region_size_insert cs i c c' :
  cs !! i = Some c -> slot_bytes c' = slot_bytes c -> slot_count c' = slot_count c ->
  region_size (<[i:=c']> cs) = region_size cs /\
  forall k, region_size (take k (<[i:=c']> cs)) = region_size (take k cs).
Proof.
  intros Hi Hb Hc. split.
  - revert i Hi. induction cs as [|d cs IH]; intros [|i] Hi; simplify_eq/=; [by rewrite Hb, Hc|].
    by rewrite (IH i).
  - revert i Hi. induction cs as [|d cs IH]; intros [|i] Hi [|k]; simplify_eq/=; [done| |done|].
    + by rewrite Hb, Hc.
    + by rewrite (IH i).
Qed.

Lemma arena_wf_update a i c c' :
  arena_wf a -> classes a !! i = Some c -> class_wf c' ->
  slot_bytes c' = slot_bytes c -> slot_count c' = slot_count c ->
  arena_wf (a <| classes := <[i := c']> (classes a) |>).
Proof.
  intros [H1 H2 H3 H4 H5 H6 H7] Hi Hc' Hb Hn.
  destruct (region_size_insert (classes a) i c c' Hi Hb Hn) as [Hrs Hrt].
  assert (forall j d, <[i := c']> (classes a) !! j = Some d ->
    exists d0, classes a !! j = Some d0 /\ slot_bytes d = slot_bytes d0) as Hback.
  { intros j d Hj. apply list_lookup_insert_Some in Hj as [(<-&<-&_)|[_ Hj]]; eauto. }
  split; simpl.
  - apply Forall_insert; done.
  - apply Forall_insert; [done|]. rewrite Hb. by eapply (Forall_lookup_1 _ _ i c) in H2.
  - intros j k d e Hjk Hj Hk. apply Hback in Hj as (d0&Hj&->). apply Hback in Hk as (e0&Hk&->).
    exact (H3 j k d0 e0 Hjk Hj Hk).
  - intros j d Hj. apply Hback in Hj as (d0&Hj&_). rewrite Hrt. by eapply H4.
  - by rewrite length_insert.
  - by rewrite Hrs.
  - by rewrite Hrs.
Qed.

(** [acquire] takes a free slot of the first class whose slots are large enough,
    and says why when it cannot. *)
Lemma arena_acquire_spec a bytes :
  arena_wf a -> 0 <= bytes ->
  wp (acquire bytes)
    (fun h a' => exists ci c c' i g,
       h = mkArenaHandle (Z.of_nat ci) (Z.of_nat i) (g + 1) /\
       classes a !! ci = Some c /\ bytes <= slot_bytes c /\
       (forall j d, (j < ci)%nat -> classes a !! j = Some d -> slot_bytes d < bytes) /\
       is_free c i /\ slot_generations c !! i = Some g /\
       a' = a <| classes := <[ci := c']> (classes a) |> /\ arena_wf a' /\ class_wf c' /\
       (forall j, is_live c' j <-> is_live c j \/ j = i) /\
       slot_generations c' = <[i := g + 1]> (slot_generations c))
    (fun e a' => a' = a /\
       (e = InvalidArgument /\ bytes = 0 \/
        e = NoFittingClass /\ (forall j d, classes a !! j = Some d -> slot_bytes d < bytes) \/
        exists ci c, classes a !! ci = Some c /\ bytes <= slot_bytes c /\
          (forall j d, (j < ci)%nat -> classes a !! j = Some d -> slot_bytes d < bytes) /\
          (e = ClassExhausted /\ (forall i, (i < length (links c))%nat -> is_live c i) \/
           e = StaleHandle /\ exists i, is_free c i /\ slot_generations c !! i = Some U64_MAX))) a.
Proof.
  intros Hwf Hbytes. unfold acquire. destruct (Z.eqb_spec bytes 0) as [->|Hb0].
  { wp_steps. split; [done|]. by left. }
  wp_steps. unfold id.
  apply (wp_for_return (fun pre s => s = a /\
    forall j d, (j < length pre)%nat -> classes a !! j = Some d -> slot_bytes d < bytes)).
  - split; [done|]. simpl. lia.
  - intros pre ci post s Hsplit [-> Hsmall]. apply range_split in Hsplit as [-> Hci].
    rewrite length_range in Hsmall. destruct (lookup_Some_range (classes a) ci) as [c Hc]; [lia|].
    wp_steps. destruct (Z.ltb_spec (slot_bytes c) bytes) as [Hlt|Hge].
    + wp_steps. split; [done|]. rewrite length_app, length_range. intros j d Hj Hd. simpl in Hj.
      destruct (decide (j = Z.to_nat ci)) as [->|]; [congruence|]. apply (Hsmall j); [lia|done].
    + assert (class_wf c) as Hcwf by exact (Forall_lookup_1 _ _ _ _ (aw_classes a Hwf) Hc).
      assert (forall j d, (j < Z.to_nat ci)%nat -> classes a !! j = Some d -> slot_bytes d < bytes)
        as Hsm by (intros j d ?; apply Hsmall; lia).
      wp_step. apply wp_zoom. eapply wp_mono; [by apply acquire_in_class_spec| |].
      * intros r c' (i&g&->&Hfree&Hg&Hgm&Hcwf'&Hsb&Hsc&Hlive&Hgens&_).
        wp_steps. exists (Z.to_nat ci), c, c', i, g.
        pose proof (aw_len a Hwf). pose proof (link_free_lt _ _ _ Hfree).
        pose proof (sl_bound _ _ _ _ _ (cw_list c Hcwf)) as Hbd. unfold IN_USE in Hbd.
        rewrite !u32_small by lia. rewrite Z2Nat.id by lia.
        assert (upd_nth ci (fun _ => c') (classes a) = <[Z.to_nat ci := c']> (classes a)) as ->
          by (symmetry; apply list_insert_alter).
        split_and!; [done|done|done|done|done|done|done| |done|done|done].
        eapply arena_wf_update; done.
      * intros e c' [-> He]. unfold id. split.
        { destruct a as [bk cs offs]; simpl in *. unfold set_field; simpl. f_equal.
          unfold upd_nth. rewrite <- list_insert_alter. by apply list_insert_id. }
        right; right. exists (Z.to_nat ci), c. split_and!; done.
  - intros s [-> Hall]. wp_steps. split; [done|]. right; left. split; [done|].
    intros j d Hj. apply (Hall j); [|done]. rewrite length_range. apply lookup_lt_Some in Hj. lia.
Qed.

Lemma upd_nth_same (cs : list ArenaClass) ci c :
  cs !! Z.to_nat ci = Some c -> upd_nth ci (fun _ => c) cs = cs.
Proof. intros. unfold upd_nth. rewrite <- list_insert_alter. by apply list_insert_id. Qed.

Lemma arena_release_spec a h :
  arena_wf a -> 0 <= class_index h -> 0 <= slot_index h ->
  wp (release h)
    (fun _ a' => current a h /\ exists c c', classes a !! Z.to_nat (class_index h) = Some c /\
       a' = a <| classes := <[Z.to_nat (class_index h) := c']> (classes a) |> /\
       arena_wf a' /\ class_wf c' /\
       (forall j, is_live c' j <-> is_live c j /\ j <> Z.to_nat (slot_index h)) /\
       slot_generations c' = slot_generations c)
    (fun e a' => e = StaleHandle /\ a' = a /\ ~ current a h) a.
Proof.
  intros Hwf Hci Hsi. unfold release. wp_steps. unfold id.
  destruct (classes a !! Z.to_nat (class_index h)) as [c|] eqn:Hc.
  2:{ wp_steps. split_and!; [done|done|]. intros (_&_&c&Hc'&_). congruence. }
  assert (class_wf c) as Hcwf by exact (Forall_lookup_1 _ _ _ _ (aw_classes a Hwf) Hc).
  apply wp_zoom. eapply wp_mono; [by apply release_in_class_spec| |].
  - intros _ c' (Hcur&Hcwf'&Hsb&Hsc&Hlive&Hgens&_). split.
    { split_and!; [done|done|]. by exists c. }
    exists c, c'. rewrite list_insert_alter. fold (upd_nth (class_index h) (fun _ => c') (classes a)).
    split_and!; [done|done| |done|done|done].
    unfold upd_nth. rewrite <- list_insert_alter. by eapply arena_wf_update.
  - intros e c' (->&->&Hn). split_and!; [done| |].
    + destruct a as [bk cs offs]; unfold set_field; simpl in *. by rewrite upd_nth_same.
    + intros (_&_&c2&Hc2&Hcur). simplify_eq. done.
Qed.

(** ** Construction *)

Lemma land_align x : 0 <= x <= U64_MAX -> Z.land x (U64_MAX - 15) = 16 * (x / 16).
Proof.
  intros Hx. change (U64_MAX - 15) with (Z.shiftl (Z.ones 60) 4).
  replace (16 * (x / 16)) with (Z.shiftl (Z.land (Z.shiftr x 4) (Z.ones 60)) 4).
  - apply Z.bits_inj'. intros n Hn. rewrite Z.land_spec, !Z.shiftl_spec by lia.
    destruct (Z.ltb_spec n 4).
    + rewrite !(Z.testbit_neg_r _ (n - 4)) by lia. apply andb_false_r.
    + rewrite Z.land_spec, Z.shiftr_spec by lia. by replace (n - 4 + 4) with n by lia.
  - rewrite Z.land_ones, Z.shiftr_div_pow2, Z.shiftl_mul_pow2 by lia.
    change (2 ^ 4) with 16. change (2 ^ 60) with 1152921504606846976.
    rewrite Z.mod_small; [lia|]. split; [apply Z.div_pos; lia|]. apply Z.div_lt_upper_bound; lia.
Qed.

Lemma round_slot_bytes_spec x :
  0 <= x <= U32_MAX -> round_slot_bytes x = 16 * ((x + 15) / 16) /\ x <= round_slot_bytes x < x + 16.
Proof.
  intros Hx. unfold round_slot_bytes, ALIGNMENT. change (16 - 1) with 15.
  rewrite u64_small, land_align by lia. split; [done|].
  pose proof (Z.div_mod (x + 15) 16). pose proof (Z.mod_pos_bound (x + 15) 16). lia.
Qed.

(** The sizes a descriptor may have for the narrowing to [u32] to be exact. *)
Definition descriptor_ok (d : ClassDescriptor) : Prop :=
  0 <= desc_slot_bytes d <= 0xfffffff0 /\ 0 <= desc_slot_count d < IN_USE.

Lemma make_class_bytes d :
  descriptor_ok d ->
  slot_bytes (make_class d) = round_slot_bytes (desc_slot_bytes d) /\
  desc_slot_bytes d <= slot_bytes (make_class d) <= 0xfffffff0 /\
  slot_count (make_class d) = desc_slot_count d.
Proof.
  intros [Hb Hc]. unfold make_class; simpl.
  destruct (round_slot_bytes_spec (desc_slot_bytes d)) as [Heq Hr]; [lia|].
  assert (round_slot_bytes (desc_slot_bytes d) <= 0xfffffff0) as Hle.
  { rewrite Heq. assert ((desc_slot_bytes d + 15) / 16 < 0xfffffff + 1); [|lia].
    apply Z.div_lt_upper_bound; lia. }
  rewrite u32_small by lia. split_and!; lia || done.
Qed.

Lemma make_class_wf d :
  descriptor_ok d -> desc_slot_count d <> 0 ->
  class_wf (make_class d) /\ forall i, ~ is_live (make_class d) i.
Proof.
  intros [Hb Hc] Hnz. destruct (slot_list_initial IN_USE NO_SLOT (desc_slot_count d))
    as (Hsl&Hlen&Huse); [lia|done|]. split; [|done].
  unfold make_class. split; simpl.
  - rewrite Hlen. lia.
  - by rewrite length_replicate, Hlen.
  - intros i g Hg. apply lookup_replicate in Hg as [-> _]. lia.
  - intros i g _ Hl. by destruct (Huse i).
  - done.
Qed.

Lemma region_size_make_nonneg ds :
  Forall descriptor_ok ds -> 0 <= region_size (make_class <$> ds).
Proof.
  induction 1 as [|d ds Hd Hds IH]; [done|]. rewrite fmap_cons. cbn [region_size].
  destruct (make_class_bytes d Hd) as (_&Hb&->). destruct Hd as [Hd1 Hd2].
  assert (0 <= slot_bytes (make_class d) * desc_slot_count d)
    by (apply Z.mul_nonneg_nonneg; lia). lia.
Qed.

Lemma build_classes_spec ds off :
  Forall descriptor_ok ds -> 0 <= off -> off + region_size (make_class <$> ds) <= U64_MAX ->
  exists offs, build_classes ds off = (make_class <$> ds, offs) /\
    forall i c, (make_class <$> ds) !! i = Some c ->
      offs !! i = Some (off + region_size (take i (make_class <$> ds))).
Proof.
  revert off. induction ds as [|d ds IH]; intros off Hok Hoff Hfit;
    rewrite ?fmap_cons in *; cbn [build_classes region_size] in *.
  - exists []. split; [done|]. intros i c Hi. done.
  - apply Forall_cons in Hok as [Hd Hds]. destruct (make_class_bytes d Hd) as (_&Hb&Hc).
    destruct Hd as [Hd1 Hd2]. pose proof (region_size_make_nonneg ds Hds) as Hnn.
    set (sz := slot_bytes (make_class d) * slot_count (make_class d)) in *.
    assert (0 <= sz) by (unfold sz; rewrite Hc; apply Z.mul_nonneg_nonneg; lia).
    fold sz. rewrite !u64_small by (rewrite ?u64_small by lia; lia).
    destruct (IH (off + sz) Hds) as (offs&->&Hoffs); [lia|lia|].
    exists (off :: offs). split; [done|]. intros [|i] c Hi.
    + cbn. f_equal. lia.
    + change (offs !! i = Some (off + (sz + region_size (take i (make_class <$> ds))))).
      rewrite (Hoffs i c Hi). f_equal. lia.
Qed.

(** What the validation pass has established after the descriptors [ds]. *)
Record layout_ok (ds : list ClassDescriptor) (prev region : Z) : Prop := {
  lo_nonzero : Forall (fun d => desc_slot_bytes d <> 0 /\ desc_slot_count d <> 0) ds;
  lo_sorted : forall i j d e, (i < j)%nat -> ds !! i = Some d -> ds !! j = Some e ->
    slot_bytes (make_class d) < slot_bytes (make_class e);
  lo_prev : Forall (fun d => slot_bytes (make_class d) <= prev) ds;
  lo_region : region = region_size (make_class <$> ds);
  lo_fits : 0 <= region <= U64_MAX;
  lo_pos : ds <> [] -> 0 < region;
}.

Lemma validate_descriptor_spec ds d prev region :
  layout_ok ds prev region -> descriptor_ok d ->
  wp (validate_descriptor d (prev, region))
    (fun acc _ => layout_ok (ds ++ [d]) acc.1 acc.2)
    (fun e _ => e = InvalidClassLayout \/ e = RegionOverflow) tt.
Proof.
  intros [H1 H2 H3 H4 H5 H6] Hd. destruct (make_class_bytes d Hd) as (Hmb&Hmr&Hmc).
  unfold validate_descriptor.
  destruct (Z.eqb_spec (desc_slot_bytes d) 0); simpl; [wp_steps; by left|].
  destruct (Z.eqb_spec (desc_slot_count d) 0); simpl; [wp_steps; by left|].
  destruct ((0 <? region) && _) eqn:Hs; [wp_steps; by left|].
  rewrite <- Hmb in *. destruct Hd as [Hd1 Hd2]. unfold IN_USE in Hd2.
  assert (0 < slot_bytes (make_class d) * desc_slot_count d <= U64_MAX) as Hsz by nia.
  wp_steps. rewrite u64_small by lia.
  destruct (Z.ltb_spec U64_MAX (region + slot_bytes (make_class d) * desc_slot_count d));
    wp_steps; [by right|]. cbn [fst snd].
  assert (Forall (fun e => slot_bytes (make_class e) < slot_bytes (make_class d)) ds) as Hlt.
  { apply Forall_forall. intros e He. rewrite Forall_forall in H3. specialize (H3 e He).
    apply andb_false_iff in Hs as [Hs|Hs]; [|lia].
    assert (ds <> []) as Hne by (intros ->; by apply elem_of_nil in He). specialize (H6 Hne). lia. }
  split.
  - apply Forall_app. split; [done|]. by apply Forall_singleton.
  - intros i j e f Hij Hi Hj. apply lookup_app_Some in Hj as [Hj|[Hj1 Hj]].
    + rewrite lookup_app_l in Hi; [by eapply H2|]. apply lookup_lt_Some in Hj. lia.
    + apply list_lookup_singleton_Some in Hj as [Hj ->].
      rewrite lookup_app_l in Hi by lia. by eapply (Forall_lookup_1 _ _ i e) in Hlt.
  - apply Forall_app. split; [|by apply Forall_singleton].
    eapply Forall_impl; [exact Hlt|]. simpl. intros ??. lia.
  - rewrite fmap_app, region_size_app, <- H4.
    change (region_size (make_class <$> [d]))
      with (slot_bytes (make_class d) * slot_count (make_class d) + 0).
    rewrite Hmc. lia.
  - lia.
  - intros _. lia.
Qed.

Lemma arena_new_spec ds :
  Forall descriptor_ok ds ->
  wp (new ds)
    (fun a _ => arena_wf a /\ classes a = make_class <$> ds /\ ds <> [] /\
       forall i c j, classes a !! i = Some c -> ~ is_live c j)
    (fun e _ => e = InvalidArgument /\ (ds = [] \/ (8 < length ds)%nat) \/
       e = InvalidClassLayout \/ e = RegionOverflow) tt.
Proof.
  intros Hok. unfold new, MAX_CLASS_COUNT.
  destruct (Z.eqb_spec (Z.of_nat (length ds)) 0); simpl.
  { wp_steps. left. split; [done|]. left. destruct ds; [done|]. simpl in *; lia. }
  destruct (Z.ltb_spec 8 (Z.of_nat (length ds))); [wp_steps; left; split; [done|]; right; lia|].
  wp_step. eapply wp_mono.
  - apply (wp_for_fold (fun pre acc (_ : unit) => layout_ok pre acc.1 acc.2)
      _ _ _ (fun e _ => e = InvalidClassLayout \/ e = RegionOverflow)).
    + split; simpl; [constructor|done|constructor|done|lia|done].
    + intros pre d post [prev region] [] -> Hlo. simpl in Hlo.
      apply validate_descriptor_spec; [done|]. apply Forall_app in Hok as [_ Hok].
      by apply Forall_cons in Hok as [? _].
  - intros [prev region] [] [H1 H2 H3 H4 H5 H6]; simpl in *.
    destruct (Z.ltb_spec ISIZE_MAX region); [wp_steps; by right; right|].
    wp_step. unfold zeroed_bytes. destruct (Z.leb_spec region ISIZE_MAX); [|lia]. wp_steps.
    destruct (build_classes_spec ds 0 Hok) as (offs&->&Hoffs); [lia|rewrite <- H4; lia|].
    assert (forall i c, (make_class <$> ds) !! i = Some c -> exists d, ds !! i = Some d /\
      c = make_class d /\ descriptor_ok d /\ desc_slot_bytes d <> 0 /\ desc_slot_count d <> 0) as Hback.
    { intros i c Hi. apply list_lookup_fmap_Some in Hi as (d&->&Hi). exists d.
      split_and!; [done|done|by eapply (Forall_lookup_1 _ _ i d) in Hok| |];
        by eapply (Forall_lookup_1 _ _ i d) in H1 as [??]. }
    wp_steps. simpl. split_and!; [|done|by destruct ds|].
    + split; simpl.
      * apply Forall_lookup. intros i c Hi. apply Hback in Hi as (d&_&->&?&_&?).
        by apply make_class_wf.
      * apply Forall_lookup. intros i c Hi. apply Hback in Hi as (d&_&->&Hd&?&_).
        destruct (make_class_bytes d Hd) as (_&?&_). destruct Hd. lia.
      * intros i j c d Hij Hi Hj. apply Hback in Hi as (di&Hi&->&_). apply Hback in Hj as (dj&Hj&->&_).
        by eapply H2.
      * intros i c Hi. by rewrite (Hoffs i c Hi).
      * rewrite length_fmap. lia.
      * rewrite length_replicate. lia.
      * lia.
    + intros i c j Hi. apply Hback in Hi as (d&_&->&Hd&_&?). by apply make_class_wf.
  - intros e _ [->| ->]; auto.
Qed.

(** ** Handle resolution *)

(** The byte range of slot [i] of class [ci]. *)
Definition slot_range (a : Arena) (h : ArenaHandle) : Z * Z :=
  match classes a !! Z.to_nat (class_index h) with
  | Some c =>
      let start := region_size (take (Z.to_nat (class_index h)) (classes a)) +
                   slot_index h * slot_bytes c in
      (start, start + slot_bytes c)
  | None => (0, 0)
  end.

Lemma region_size_take_le cs i c :
  Forall class_wf cs -> Forall (fun c => 0 < slot_bytes c <= U32_MAX) cs -> cs !! i = Some c ->
  0 <= region_size (take i cs) /\
  region_size (take i cs) + slot_bytes c * slot_count c = region_size (take (S i) cs) /\
  forall j, (i < j)%nat -> region_size (take (S i) cs) <= region_size (take j cs) <= region_size cs.
Proof.
  intros Hw Hb Hi. split_and!.
  - apply region_size_nonneg; by apply Forall_take.
  - rewrite (take_S_r cs i c Hi), region_size_app. simpl. lia.
  - intros j Hj. split.
    + rewrite <- (take_drop (S i) (take j cs)), region_size_app, take_take.
      rewrite Nat.min_l by lia.
      pose proof (region_size_nonneg (drop (S i) (take j cs))) as Hnn.
      assert (0 <= region_size (drop (S i) (take j cs)));
        [apply Hnn; by apply Forall_drop, Forall_take|lia].
    + rewrite <- (take_drop j cs) at 2. rewrite region_size_app.
      pose proof (region_size_nonneg (drop j cs)) as Hnn.
      assert (0 <= region_size (drop j cs)); [apply Hnn; by apply Forall_drop|lia].
Qed.

Lemma slot_range_bounds a h :
  arena_wf a -> current a h ->
  0 <= (slot_range a h).1 < (slot_range a h).2 /\
  (slot_range a h).2 <= region_size (take (S (Z.to_nat (class_index h))) (classes a)) /\
  region_size (take (Z.to_nat (class_index h)) (classes a)) <= (slot_range a h).1 /\
  (slot_range a h).2 <= Z.of_nat (length (backing a)) <= ISIZE_MAX.
Proof.
  intros Hwf (Hci&Hsi&c&Hc&Hlive&_). unfold slot_range. rewrite Hc. cbn [fst snd].
  pose proof (Forall_lookup_1 _ _ _ _ (aw_classes a Hwf) Hc) as Hcw.
  pose proof (Forall_lookup_1 _ _ _ _ (aw_bytes a Hwf) Hc) as Hcb. simpl in Hcb.
  destruct (region_size_take_le _ _ _ (aw_classes a Hwf) (aw_bytes a Hwf) Hc) as (H0&H1&H2).
  apply link_live_lt in Hlive. pose proof (cw_count c Hcw).
  rewrite (aw_backing a Hwf). pose proof (aw_fits a Hwf).
  pose proof (H2 (S (Z.to_nat (class_index h))) ltac:(lia)). split_and!; nia.
Qed.

Lemma slot_range_disjoint a h k :
  arena_wf a -> current a h -> current a k ->
  (class_index h, slot_index h) <> (class_index k, slot_index k) ->
  (slot_range a h).2 <= (slot_range a k).1 \/ (slot_range a k).2 <= (slot_range a h).1.
Proof.
  intros Hwf Hh Hk Hne.
  pose proof (slot_range_bounds a h Hwf Hh) as (Bh1&Bh2&Bh3&Bh4).
  pose proof (slot_range_bounds a k Hwf Hk) as (Bk1&Bk2&Bk3&Bk4).
  destruct Hh as (Hh1&Hh2&ch&Hch&_). destruct Hk as (Hk1&Hk2&ck&Hck&_).
  destruct (region_size_take_le _ _ _ (aw_classes a Hwf) (aw_bytes a Hwf) Hch) as (_&_&Hlh).
  destruct (region_size_take_le _ _ _ (aw_classes a Hwf) (aw_bytes a Hwf) Hck) as (_&_&Hlk).
  destruct (Z.lt_trichotomy (class_index h) (class_index k)) as [Hlt|[Heq|Hgt]].
  - left. pose proof (Hlh (Z.to_nat (class_index k)) ltac:(lia)). lia.
  - assert (slot_index h <> slot_index k) by congruence.
    unfold slot_range in *. rewrite <- Heq in *. rewrite Hch in *. simplify_eq. cbn [fst snd] in *.
    pose proof (Forall_lookup_1 _ _ _ _ (aw_bytes a Hwf) Hch) as Hcb. simpl in Hcb. nia.
  - right. pose proof (Hlk (Z.to_nat (class_index h)) ltac:(lia)). lia.
Qed.

Lemma resolve_spec a h :
  arena_wf a -> 0 <= class_index h -> 0 <= slot_index h ->
  wp (resolve h)
    (fun r a' => a' = a /\ current a h /\ r = slot_range a h)
    (fun e a' => e = StaleHandle /\ a' = a /\ ~ current a h) a.
Proof.
  intros Hwf Hci Hsi. unfold resolve. wp_steps. unfold id.
  destruct (classes a !! Z.to_nat (class_index h)) as [c|] eqn:Hc.
  2:{ wp_steps. split_and!; [done|done|]. intros (_&_&c&Hc'&_). congruence. }
  pose proof (Forall_lookup_1 _ _ _ _ (aw_classes a Hwf) Hc) as [H1 H2 H3 H3' Hsl].
  assert (forall l, links c !! Z.to_nat (slot_index h) = l -> l <> Some IN_USE -> ~ current a h) as Hno.
  { intros l Hl Hne (_&_&c'&Hc'&Hlive&_). unfold link_live in Hlive. by simplify_eq. }
  destruct (Z.leb_spec (slot_count c) (slot_index h)).
  { wp_steps. split_and!; [done|done|]. eapply Hno; [by apply lookup_ge_None_2; lia|done]. }
  destruct (lookup_lt_is_Some_2 (links c) (Z.to_nat (slot_index h))) as [link Hlink]; [lia|].
  destruct (lookup_lt_is_Some_2 (slot_generations c) (Z.to_nat (slot_index h))) as [g Hg]; [lia|].
  wp_steps. destruct (Z.eqb_spec link IN_USE) as [->|Hne]; simpl.
  2:{ wp_steps. split_and!; [done|done|]. eapply Hno; [done|congruence]. }
  wp_steps. destruct (Z.eqb_spec g (handle_generation h)) as [->|Hgne]; simpl.
  2:{ wp_steps. split_and!; [done|done|]. intros (_&_&c'&Hc'&_&Hg'). congruence. }
  assert (current a h) as Hcur by (split_and!; [done|done|]; by exists c).
  wp_step. eapply wp_index; [exact (aw_offsets a Hwf _ _ Hc)|]. wp_steps.
  pose proof (slot_range_bounds a h Hwf Hcur) as Hb.
  pose proof (Forall_lookup_1 _ _ _ _ (aw_bytes a Hwf) Hc) as Hcb. simpl in Hcb.
  destruct (region_size_take_le _ _ _ (aw_classes a Hwf) (aw_bytes a Hwf) Hc) as (H0&_&_).
  split_and!; [done|done|]. unfold slot_range in Hb |- *. rewrite Hc in Hb |- *. cbn [fst snd] in Hb.
  rewrite (u64_small (slot_index h * slot_bytes c)) by nia. by rewrite !u64_small by nia.
Qed.

(** ** Lifetimes of handles *)

(** One call on the arena, whatever it returns. *)
Inductive arena_step (a a' : Arena) : Prop :=
| step_acquire bytes : 0 <= bytes ->
    (exists h, acquire bytes a = Ret h a') \/ (exists e, acquire bytes a = Fails e a') ->
    arena_step a a'
| step_release h : 0 <= class_index h -> 0 <= slot_index h ->
    (exists u, release h a = Ret u a') \/ (exists e, release h a = Fails e a') ->
    arena_step a a'
| step_write h f : 0 <= class_index h -> 0 <= slot_index h -> (forall b, length (f b) = length b) ->
    (exists u, get_mut h f a = Ret u a') \/ (exists e, get_mut h f a = Fails e a') ->
    arena_step a a'.

(** A handle that was issued once and is no longer current: its slot's generation
    has reached the handle's. *)
Definition dead (a : Arena) (h : ArenaHandle) : Prop :=
  ~ current a h /\ exists c g, classes a !! Z.to_nat (class_index h) = Some c /\
    slot_generations c !! Z.to_nat (slot_index h) = Some g /\ handle_generation h <= g.

Lemma get_mut_spec a h f :
  arena_wf a -> 0 <= class_index h -> 0 <= slot_index h -> (forall b, length (f b) = length b) ->
  wp (get_mut h f)
    (fun _ a' => current a h /\ arena_wf a' /\ classes a' = classes a /\
       forall i, Z.of_nat i < (slot_range a h).1 \/ (slot_range a h).2 <= Z.of_nat i ->
         backing a' !! i = backing a !! i)
    (fun e a' => e = StaleHandle /\ a' = a /\ ~ current a h) a.
Proof.
  intros Hwf Hci Hsi Hf. unfold get_mut. wp_step.
  eapply wp_mono; [by apply resolve_spec| |intros ?? (->&->&?); done].
  intros [lo hi] ? (->&Hcur&Hr). pose proof (slot_range_bounds a h Hwf Hcur) as Hb.
  rewrite <- Hr in *. cbn [fst snd] in *. wp_steps. unfold id.
  apply wp_slice; [lia|lia|]. wp_steps.
  set (bytes := take _ _).
  assert (Z.of_nat (length (f bytes)) = hi - lo) as Hlen.
  { rewrite Hf. unfold bytes. rewrite length_take, length_drop. lia. }
  assert (length (write_slice lo hi (f bytes) (backing a)) = length (backing a)) as Hl
    by (apply length_write_slice; lia).
  split_and!; [done| |done|].
  - destruct Hwf as [H1 H2 H3 H4 H5 H6 H7]. split; simpl; [done..|lia|done].
  - intros i Hi. simpl. apply lookup_write_slice_out; lia.
Qed.

Lemma arena_step_wf a a' : arena_wf a -> arena_step a a' -> arena_wf a'.
Proof.
  intros Hwf [bytes Hb Hs|h H1 H2 Hs|h f H1 H2 Hf Hs].
  - pose proof (arena_acquire_spec a bytes Hwf Hb) as Hw. unfold wp in Hw.
    destruct Hs as [[h Hs]|[e Hs]]; rewrite Hs in Hw; naive_solver.
  - pose proof (arena_release_spec a h Hwf H1 H2) as Hw. unfold wp in Hw.
    destruct Hs as [[u Hs]|[e Hs]]; rewrite Hs in Hw; naive_solver.
  - pose proof (get_mut_spec a h f Hwf H1 H2 Hf) as Hw. unfold wp in Hw.
    destruct Hs as [[u Hs]|[e Hs]]; rewrite Hs in Hw; naive_solver.
Qed.

Lemma dead_insert a h ci c c' :
  dead a h -> classes a !! ci = Some c ->
  (forall i g, slot_generations c !! i = Some g -> exists g', slot_generations c' !! i = Some g' /\ g <= g') ->
  (forall i g, class_current c' i g -> class_current c i g \/
     forall g0, slot_generations c !! i = Some g0 -> g0 < g) ->
  dead (a <| classes := <[ci := c']> (classes a) |>) h.
Proof.
  intros [Hn (c0&g&Hc0&Hg&Hle)] Hc Hmono Hcur. unfold dead, current; simpl.
  destruct (decide (ci = Z.to_nat (class_index h))) as [->|Hne].
  - assert (c = c0) as <- by congruence. rewrite list_lookup_insert_eq by (by eapply lookup_lt_Some). split.
    + intros (H1&H2&?&[= <-]&Hcc). apply Hcur in Hcc as [Hcc|Hcc].
      * apply Hn. split_and!; [done|done|]. by exists c.
      * specialize (Hcc g Hg). lia.
    + destruct (Hmono _ _ Hg) as (g'&Hg'&?). exists c', g'. split_and!; [done|done|lia].
  - rewrite list_lookup_insert_ne by done. split; [|by exists c0, g].
    intros H. by apply Hn.
Qed.

Lemma dead_step a a' h : arena_wf a -> arena_step a a' -> dead a h -> dead a' h.
Proof.
  intros Hwf [bytes Hb Hs|k H1 H2 Hs|k f H1 H2 Hf Hs] Hd.
  - pose proof (arena_acquire_spec a bytes Hwf Hb) as Hw. unfold wp in Hw.
    destruct Hs as [[k Hs]|[e Hs]]; rewrite Hs in Hw; [|by destruct Hw as [-> _]].
    destruct Hw as (ci&c&c'&i&g&_&Hc&_&_&Hfree&Hg&->&_&_&Hlive&Hgens).
    eapply dead_insert; [done|done| |].
    + intros j g0 Hj. rewrite Hgens. destruct (decide (j = i)) as [->|].
      * rewrite list_lookup_insert_eq by (by eapply lookup_lt_Some). simplify_eq. eexists; split; [done|lia].
      * rewrite list_lookup_insert_ne by done. eexists; split; [done|lia].
    + intros j g0 [Hl Hj]. rewrite Hgens in Hj.
      apply list_lookup_insert_Some in Hj as [(<-&<-&_)|[Hne Hj]].
      * right. intros ??. simplify_eq. lia.
      * left. apply Hlive in Hl as [Hl|]; [done|congruence].
  - pose proof (arena_release_spec a k Hwf H1 H2) as Hw. unfold wp in Hw.
    destruct Hs as [[u Hs]|[e Hs]]; rewrite Hs in Hw; [|by destruct Hw as (_&->&_)].
    destruct Hw as (_&c&c'&Hc&->&_&_&Hlive&Hgens). eapply dead_insert; [done|done| |].
    + intros j g Hj. exists g. rewrite Hgens. split; [done|lia].
    + intros j g [Hl Hj]. left. apply Hlive in Hl as [Hl _]. rewrite Hgens in Hj. done.
  - pose proof (get_mut_spec a k f Hwf H1 H2 Hf) as Hw. unfold wp in Hw.
    destruct Hs as [[u Hs]|[e Hs]]; rewrite Hs in Hw; [|by destruct Hw as (_&->&_)].
    destruct Hw as (_&_&Hcs&_). unfold dead, current. by rewrite Hcs.
Qed.

Lemma dead_steps a a' h :
  arena_wf a -> rtc arena_step a a' -> dead a h -> arena_wf a' /\ dead a' h.
Proof.
  intros Hwf Hr. revert Hwf. induction Hr as [a|a b c Hs Hr IH]; [done|]. intros Hwf Hd.
  apply IH; [by eapply arena_step_wf|by eapply dead_step].
Qed.

(** ** Properties *)

(** C31. Live handles address disjoint memory: in a well-formed arena [resolve]
    succeeds exactly on current handles, the range it yields lies inside the
    backing store and has the class's slot size, and the ranges of two current
    handles on different slots do not overlap. *)
Theorem arena_live_ranges_disjoint a h k :
  arena_wf a -> current a h -> current a k ->
  (class_index h, slot_index h) <> (class_index k, slot_index k) ->
  exists lo hi lo' hi',
    resolve h a = Ret (lo, hi) a /\ resolve k a = Ret (lo', hi') a /\
    0 <= lo < hi /\ hi <= reserved_bytes a /\ 0 <= lo' < hi' /\ hi' <= reserved_bytes a /\
    (hi <= lo' \/ hi' <= lo).
Proof.
  intros Hwf Hh Hk Hne.
  assert (forall x, current a x -> resolve x a = Ret (slot_range a x) a) as Hres.
  { intros x Hx. pose proof (resolve_spec a x Hwf (proj1 Hx) (proj1 (proj2 Hx))) as Hw.
    destruct (wp_elim _ _ _ _ Hw) as [(r&a'&->&->&_&->)|(e&a'&_&_&_&Hn)]; done. }
  pose proof (slot_range_bounds a h Hwf Hh) as (?&_&_&?).
  pose proof (slot_range_bounds a k Hwf Hk) as (?&_&_&?).
  pose proof (slot_range_disjoint a h k Hwf Hh Hk Hne).
  exists (slot_range a h).1, (slot_range a h).2, (slot_range a k).1, (slot_range a k).2.
  rewrite <- !surjective_pairing. unfold reserved_bytes.
  split_and!; [by apply Hres|by apply Hres|lia..].
Qed.

(** An arena of two classes with one slot of each handed out. *)
Definition two_class_arena : Arena :=
  mkArena (replicate 64 0)
    [mkArenaClass 16 2 [IN_USE; NO_SLOT] [1; 0] 1 1 1; mkArenaClass 32 1 [IN_USE] [3] NO_SLOT 0 3]
    [0; 32].

Lemma two_class_arena_wf : arena_wf two_class_arena.
Proof.
  assert (class_wf (mkArenaClass 16 2 [IN_USE; NO_SLOT] [1; 0] 1 1 1)) as H1.
  { split; simpl; [done|done| | |].
    - intros [|[|i]] g Hg; simplify_eq/=; lia.
    - intros [|[|i]] g Hg Hl; unfold link_live, NO_SLOT, IN_USE in *; simplify_eq/=; lia.
    - split; [done|done|]. exists [1%nat]. split; [|done].
      split; [by split; [|exists NO_SLOT]|apply NoDup_singleton|].
      intros i. rewrite list_elem_of_singleton. split; [intros ->; by exists NO_SLOT|].
      intros (x&Hx&Hn). destruct i as [|[|i]]; simplify_eq/=; done. }
  assert (class_wf (mkArenaClass 32 1 [IN_USE] [3] NO_SLOT 0 3)) as H2.
  { split; simpl; [done|done| | |].
    - intros [|i] g Hg; simplify_eq/=; lia.
    - intros [|i] g Hg Hl; simplify_eq/=; lia.
    - split; [done|done|]. exists []. split; [|done]. split; [done|constructor|].
      intros i. split; [by intros ?%elem_of_nil|].
      intros (x&Hx&Hn). destruct i as [|i]; simplify_eq/=. }
  split; simpl.
  - apply Forall_cons. split; [exact H1|]. by apply Forall_singleton.
  - repeat constructor; simpl; lia.
  - intros [|[|i]] [|[|j]] c d Hij Hc Hd; simplify_eq/=; lia.
  - intros [|[|i]] c Hc; simplify_eq/=; done.
  - lia.
  - done.
  - lia.
Qed.

Lemma arena_live_ranges_disjoint_witness :
  exists lo hi lo' hi',
    resolve (mkArenaHandle 0 0 1) two_class_arena = Ret (lo, hi) two_class_arena /\
    resolve (mkArenaHandle 1 0 3) two_class_arena = Ret (lo', hi') two_class_arena /\
    0 <= lo < hi /\ hi <= reserved_bytes two_class_arena /\
    0 <= lo' < hi' /\ hi' <= reserved_bytes two_class_arena /\ (hi <= lo' \/ hi' <= lo).
Proof.
  apply (arena_live_ranges_disjoint two_class_arena (mkArenaHandle 0 0 1) (mkArenaHandle 1 0 3)).
  - apply two_class_arena_wf.
  - split_and!; [simpl; lia|simpl; lia|]. eexists; split; [reflexivity|]. split; reflexivity.
  - split_and!; [simpl; lia|simpl; lia|]. eexists; split; [reflexivity|]. split; reflexivity.
  - discriminate.
Defined.

(** A released handle is stale for ever: once [release h] has succeeded, no
    later sequence of acquisitions, releases and writes makes [h] resolve or
    release again; both are refused with [StaleHandle] and change nothing, even
    when the slot has been handed out again. *)
Theorem arena_released_handle_stale a h a1 a2 :
  arena_wf a -> 0 <= class_index h -> 0 <= slot_index h ->
  release h a = Ret tt a1 -> rtc arena_step a1 a2 ->
  release h a2 = Fails StaleHandle a2 /\ resolve h a2 = Fails StaleHandle a2.
Proof.
  intros Hwf Hci Hsi Hrel Hr.
  pose proof (wp_ret_inv _ _ _ _ _ _ (arena_release_spec a h Hwf Hci Hsi) Hrel)
    as (Hcur&c&c'&Hc&->&Hwf1&_&Hlive&Hgens).
  destruct Hcur as (_&_&c0&Hc0&_&Hg). simplify_eq.
  assert (dead (a <| classes := <[Z.to_nat (class_index h) := c']> (classes a) |>) h) as Hd.
  { unfold dead, current; simpl. rewrite list_lookup_insert_eq by (by eapply lookup_lt_Some). split.
    - intros (_&_&?&[= <-]&Hl&_). by apply Hlive in Hl as [_ []].
    - exists c', (handle_generation h). rewrite Hgens. split_and!; [done|done|lia]. }
  destruct (dead_steps _ _ _ Hwf1 Hr Hd) as [Hwf2 [Hn _]]. split.
  - destruct (wp_elim _ _ _ _ (arena_release_spec a2 h Hwf2 Hci Hsi)) as [(?&?&_&?&_)|(e&?&->&->&->&_)]; done.
  - destruct (wp_elim _ _ _ _ (resolve_spec a2 h Hwf2 Hci Hsi)) as [(?&?&_&_&?&_)|(e&?&->&->&->&_)]; done.
Qed.

Lemma arena_released_handle_stale_witness :
  exists a1 a2, release (mkArenaHandle 1 0 3) two_class_arena = Ret tt a1 /\
    acquire 20 a1 = Ret (mkArenaHandle 1 0 4) a2 /\
    release (mkArenaHandle 1 0 3) a2 = Fails StaleHandle a2 /\
    resolve (mkArenaHandle 1 0 3) a2 = Fails StaleHandle a2.
Proof.
  eexists _, _. split; [reflexivity|]. split; [reflexivity|].
  eapply (arena_released_handle_stale two_class_arena (mkArenaHandle 1 0 3));
    [apply two_class_arena_wf|simpl; lia|simpl; lia|reflexivity|].
  eapply rtc_l; [|apply rtc_refl]. eapply (step_acquire _ _ 20); [lia|]. left. eexists. reflexivity.
Defined.

(** An arena that [new] builds is well formed with every slot free, and
    [acquire] then serves a request from the smallest class that fits it, failing
    only for a zero size, a size no class fits, or a smallest fitting class with
    no slot left to hand out; it never falls through to a larger class. *)
Theorem arena_acquire_smallest_fit ds a0 a bytes :
  Forall descriptor_ok ds -> new ds tt = Ret a0 tt -> rtc arena_step a0 a -> 0 <= bytes ->
  (exists h a' c, acquire bytes a = Ret h a' /\ arena_wf a' /\ current a' h /\ ~ current a h /\
     classes a !! Z.to_nat (class_index h) = Some c /\ bytes <= slot_bytes c /\
     (forall j d, classes a !! j = Some d -> bytes <= slot_bytes d -> slot_bytes c <= slot_bytes d)) \/
  (acquire bytes a = Fails InvalidArgument a /\ bytes = 0) \/
  (acquire bytes a = Fails NoFittingClass a /\
     forall j d, classes a !! j = Some d -> slot_bytes d < bytes) \/
  (exists e j c, acquire bytes a = Fails e a /\ classes a !! j = Some c /\ bytes <= slot_bytes c /\
     ((e = ClassExhausted /\ forall i, (i < length (links c))%nat -> is_live c i) \/
      (e = StaleHandle /\ exists i, is_free c i /\ slot_generations c !! i = Some U64_MAX))).
Proof.
  intros Hok Hnew Hr Hb.
  pose proof (wp_ret_inv _ _ _ _ _ _ (arena_new_spec ds Hok) Hnew) as (Hwf0&_).
  assert (arena_wf a) as Hwf.
  { clear Hnew. induction Hr; [done|]. eapply IHHr, arena_step_wf; eassumption. }
  destruct (wp_elim _ _ _ _ (arena_acquire_spec a bytes Hwf Hb)) as
    [(h&a'&->&ci&c&c'&i&g&->&Hc&Hbc&Hsm&Hfree&Hg&->&Hwf'&_&Hlive&Hgens)|(e&a'&->&->&He)].
  - left. eexists _, _, c. split_and!; [done|done| | |simpl; by rewrite Nat2Z.id|done|].
    + split_and!; simpl; [lia|lia|]. exists c'. rewrite !Nat2Z.id.
      rewrite list_lookup_insert_eq by (by eapply lookup_lt_Some). split_and!; [done|].
      split; [apply Hlive; by right|]. rewrite Hgens.
      rewrite list_lookup_insert_eq by (by eapply lookup_lt_Some). done.
    + intros (_&_&c0&Hc0&Hl&_). simpl in *. rewrite Nat2Z.id in Hc0, Hl. simplify_eq.
      by eapply link_free_not_live.
    + intros j d Hj Hd. destruct (Nat.lt_trichotomy j ci) as [Hlt|[->|Hgt]].
      * specialize (Hsm j d Hlt Hj). lia.
      * simplify_eq. lia.
      * pose proof (aw_sorted a Hwf ci j c d Hgt Hc Hj). lia.
  - right. destruct He as [[-> ->]|[[-> Hs]|(ci&c&Hc&Hbc&_&He)]]; [by left|right; by left|].
    right; right. exists e, ci, c. done.
Qed.

Definition fresh_arena : Arena :=
  mkArena (replicate 80 0) [mkArenaClass 16 1 [NO_SLOT] [0] 0 1 0;
    mkArenaClass 32 2 [1; NO_SLOT] [0; 0] 0 2 0] [0; 16].

Lemma arena_acquire_smallest_fit_witness :
  exists a0 h a' c, new [mkClassDescriptor 10 1; mkClassDescriptor 30 2] tt = Ret a0 tt /\
    acquire 17 a0 = Ret h a' /\ classes a0 !! Z.to_nat (class_index h) = Some c /\
    17 <= slot_bytes c /\
    (forall j d, classes a0 !! j = Some d -> 17 <= slot_bytes d -> slot_bytes c <= slot_bytes d).
Proof.
  exists fresh_arena.
  destruct (arena_acquire_smallest_fit [mkClassDescriptor 10 1; mkClassDescriptor 30 2]
    fresh_arena fresh_arena 17) as
    [(h&a'&c&H1&_&_&_&H2&H3&H4)|[[H _]|[[H _]|(e&j&c&H&_)]]].
  - repeat constructor; simpl; unfold IN_USE; lia.
  - vm_compute. reflexivity.
  - apply rtc_refl.
  - lia.
  - exists h, a', c. split_and!; [vm_compute; reflexivity|exact H1|exact H2|exact H3|exact H4].
  - vm_compute in H. discriminate.
  - vm_compute in H. discriminate.
  - vm_compute in H. discriminate.
Defined.

(** Rounding is lost in the narrowing to [u32]: a class of 2^32 - 1 byte slots
    passes validation with its rounded size 2^32, the class built has slots of
    0 bytes, and every request is refused with [NoFittingClass] although the
    class was accepted as large enough. *)
Theorem arena_rounding_narrows_to_zero (bytes : Z) b offs :
  0 < bytes ->
  let d := mkClassDescriptor 0xffffffff 1 in
  validate_descriptor d (0, 0) tt = Ret (2 ^ 32, 2 ^ 32) tt /\
  slot_bytes (make_class d) = 0 /\
  acquire bytes (mkArena b [make_class d] offs) =
    Fails NoFittingClass (mkArena b [make_class d] offs).
Proof.
  intros Hb d. split_and!; [by vm_compute|by vm_compute|].
  unfold acquire. destruct (Z.eqb_spec bytes 0); [lia|].
  unfold bind at 1, gets at 1. cbn [classes id length].
  replace (range 0 (Z.of_nat 1)) with [0] by (by vm_compute). cbn [for_return].
  unfold bind, index, ret. change ([make_class d] !! Z.to_nat 0) with (Some (make_class d)). cbv beta iota.
  replace (slot_bytes (make_class d)) with 0 by (by vm_compute).
  destruct (Z.ltb_spec 0 bytes); [done|lia].
Qed.

Lemma arena_rounding_narrows_to_zero_witness :
  slot_bytes (make_class (mkClassDescriptor 0xffffffff 1)) = 0 /\
  acquire 1 (mkArena [] [make_class (mkClassDescriptor 0xffffffff 1)] [0]) =
    Fails NoFittingClass (mkArena [] [make_class (mkClassDescriptor 0xffffffff 1)] [0]).
Proof. apply (arena_rounding_narrows_to_zero 1 [] [0]). lia. Defined.
