(* ===== verification/RowAllocator.v ===== *)
(** * The firing-row allocator ([crates/spark-core/src/row_allocator.rs])

    Divides a wave's row budget between base rows and speculative draft rows in
    milli fixed point.  Modelled: the whole file; the state is the caller's
    [draft_budgets_out] slice.  Proved: the row budget and the per-slot depth are
    respected on every input, the greedy loop terminates, and the rows it grants
    are an optimal choice: no other choice of draft rows within the same budget has
    a larger total marginal value. *)

From S2P Require Import Prelude.

Definition MILLI : Z := 1000.

Definition ALPHA_CEILING : Z := 999.

Definition PROBE_ROWS : Z := 2.

Record SlotInput := mkSlotInput {
  commit_ema_milli : Z;
  maximum_draft_depth : Z;
  probe : Z;
}.

Definition alpha_milli (ema : Z) : Z :=
  if ema <=? MILLI then 0
  else
    let alpha := u32 (((ema -u32 MILLI) *u64 MILLI) / ema) in
    Z.min alpha ALPHA_CEILING.

(** The loop over [slots.iter().zip(draft_budgets_out.iter_mut())], with its
    [break] on an exhausted remainder. *)
Fixpoint grant_probes (slots : list SlotInput) (remaining : Z) (budgets : list Z) : Z * list Z :=
  match slots, budgets with
  | slot :: slots', budget :: budgets' =>
      if remaining =? 0 then (remaining, budgets)
      else if (probe slot =? 0) || (maximum_draft_depth slot =? 0) then
        let '(r, bs) := grant_probes slots' remaining budgets' in (r, budget :: bs)
      else
        let grant := Z.min (Z.min PROBE_ROWS (maximum_draft_depth slot)) remaining in
        let '(r, bs) := grant_probes slots' (remaining -u32 grant) budgets' in (r, grant :: bs)
  | _, _ => (remaining, budgets)
  end.

(** The marginal value of a slot's draft row at depth [granted]: the score of the
    first row, then one multiplication by alpha per row already granted. *)
Definition draft_value (slot : SlotInput) (cost granted : Z) : Z :=
  let alpha := alpha_milli (commit_ema_milli slot) in
  Nat.iter (Z.to_nat granted) (fun value => u32 ((value *u64 alpha) / MILLI))
    (u32 ((alpha *u64 MILLI) / cost)).

(** One scan: the best [(index, value)] among the slots that may take a row. *)
Definition scan_slot (budgets : list Z) (slots : list SlotInput) (cost : Z) (slot_index : Z)
    (best : Z * Z) : M (list Z) Empty_set (Z * Z) :=
  let! slot := index slots slot_index in
  if negb (probe slot =? 0) then ret best
  else
    let! granted := index budgets slot_index in
    if maximum_draft_depth slot <=? granted then ret best
    else if alpha_milli (commit_ema_milli slot) =? 0 then ret best
    else
      let value := draft_value slot cost granted in
      if best.2 <? value then ret (slot_index, value) else ret best.

(** The [while remaining != 0] loop of [greedy_grant]; each round consumes one row
    of the remainder, so [remaining + 1] rounds are enough. *)
Definition greedy_grant (slots : list SlotInput) (remaining spec_row_relative_cost_milli : Z)
    : M (list Z) Empty_set unit :=
  let slot_count := Z.of_nat (length slots) in
  let cost := if spec_row_relative_cost_milli =? 0 then MILLI else spec_row_relative_cost_milli in
  loop (S (Z.to_nat remaining)) (fun remaining =>
    if remaining =? 0 then ret (Break tt)
    else
      let! budgets := gets id in
      let! best := for_fold (range 0 slot_count) (scan_slot budgets slots cost) (slot_count, 0) in
      let '(best_index, best_value) := best in
      if (best_index =? slot_count) || (best_value =? 0) then ret (Break tt)
      else
        do! modify (upd_nth best_index (fun b => b +u32 1)) in
        ret (Continue (remaining -u32 1))) remaining.

(** [iter().sum::<u32>()] *)
Definition sum_u32 (l : list Z) : Z := foldl (fun acc x => acc +u32 x) 0 l.

Definition row_allocator_assign (slots : list SlotInput) (firing_row_cap spec_cost : Z)
    : M (list Z) Empty_set Z :=
  let! out := gets id in
  if negb (Nat.eqb (length slots) (length out)) then panic
  else if firing_row_cap =? 0 then ret 0
  else
    do! modify (fmap (fun _ => 0)) in
    let slot_count := u32 (Z.of_nat (length slots)) in
    let base_rows := Z.min slot_count firing_row_cap in
    let remaining := firing_row_cap -u32 base_rows in
    let! out := gets id in
    let '(remaining, out) := grant_probes slots remaining out in
    do! modify (fun _ => out) in
    do! greedy_grant slots remaining spec_cost in
    let! out := gets id in
    ret (base_rows +u32 sum_u32 out).

(** ** Bounds *)

(** A slot whose fields are [u32] values. *)
Definition slot_ok (s : SlotInput) : Prop :=
  0 <= commit_ema_milli s <= U32_MAX /\ 0 <= maximum_draft_depth s <= U32_MAX.

(** Each slot's grant is within its depth. *)
Definition within_depth (slots : list SlotInput) (bs : list Z) : Prop :=
  Forall2 (fun s b => 0 <= b <= maximum_draft_depth s) slots bs.

Fixpoint total (l : list Z) : Z := match l with [] => 0 | x :: l' => x + total l' end.

Lemma total_nonneg l : Forall (fun x => 0 <= x) l -> 0 <= total l.
Proof. induction 1; simpl; lia. Qed.

Lemma total_insert l i x y : l !! i = Some x -> total (<[i:=y]> l) = total l - x + y.
Proof.
  revert i. induction l as [|z l IH]; intros [|i] H; simplify_eq/=; [lia|].
  rewrite (IH i H). lia.
Qed.

Lemma sum_u32_total l :
  Forall (fun x => 0 <= x) l -> total l <= U32_MAX -> sum_u32 l = total l.
Proof.
  unfold sum_u32. intros Hnn Hle.
  enough (forall acc, 0 <= acc -> acc + total l <= U32_MAX ->
    foldl (fun a x => a +u32 x) acc l = acc + total l) as H by (by rewrite H by lia).
  clear Hle. induction Hnn as [|x l Hx Hnn IH]; intros acc Hacc Hle; simpl in *; [lia|].
  pose proof (total_nonneg l Hnn). rewrite u32_small by lia. rewrite IH by lia. lia.
Qed.

Lemma alpha_milli_range ema : 0 <= ema <= U32_MAX -> 0 <= alpha_milli ema <= 999.
Proof.
  intros. unfold alpha_milli, MILLI, ALPHA_CEILING. destruct (Z.leb_spec ema 1000); [lia|].
  pose proof (u32_range ((u64 (u32 (ema - 1000) * 1000)) / ema)). lia.
Qed.

Lemma draft_value_S slot cost g :
  0 <= g -> draft_value slot cost (g + 1) =
    u32 ((draft_value slot cost g *u64 alpha_milli (commit_ema_milli slot)) / MILLI).
Proof. intros. unfold draft_value. rewrite Z2Nat.inj_add by lia. rewrite Nat.add_1_r. done. Qed.

(** Scores are nonnegative and do not increase with depth. *)
Lemma draft_value_mono slot cost g :
  slot_ok slot -> 0 < cost -> 0 <= g ->
  0 <= draft_value slot cost (g + 1) <= draft_value slot cost g /\ draft_value slot cost g <= 999000.
Proof.
  intros [He _] Hc Hg. pose proof (alpha_milli_range _ He) as Ha.
  assert (forall k : nat, 0 <= draft_value slot cost (Z.of_nat k) <= 999000) as Hr.
  { induction k as [|k IH].
    - unfold draft_value, MILLI. simpl. rewrite u64_small by lia.
      assert (alpha_milli (commit_ema_milli slot) * 1000 / cost <= 999000).
      { transitivity (alpha_milli (commit_ema_milli slot) * 1000 / 1); [|rewrite Z.div_1_r; lia].
        apply Z.div_le_compat_l; lia. }
      assert (0 <= alpha_milli (commit_ema_milli slot) * 1000 / cost) by (apply Z.div_pos; lia).
      rewrite u32_small; lia.
    - rewrite Nat2Z.inj_succ, <- Z.add_1_r, draft_value_S by lia. unfold MILLI.
      rewrite u64_small by nia.
      pose proof (Z.div_pos (draft_value slot cost (Z.of_nat k) * alpha_milli (commit_ema_milli slot)) 1000).
      assert (draft_value slot cost (Z.of_nat k) * alpha_milli (commit_ema_milli slot) / 1000
        <= 999000) by (apply Z.div_le_upper_bound; nia).
      rewrite u32_small by nia. nia. }
  pose proof (Hr (Z.to_nat g)) as Hv. pose proof (Hr (Z.to_nat (g + 1))) as Hv'.
  rewrite Z2Nat.id in Hv, Hv' by lia. rewrite draft_value_S in Hv' |- * by lia.
  unfold MILLI in *. rewrite u64_small in * by nia.
  assert (draft_value slot cost g * alpha_milli (commit_ema_milli slot) / 1000
    <= draft_value slot cost g) by (apply Z.div_le_upper_bound; nia).
  pose proof (Z.div_pos (draft_value slot cost g * alpha_milli (commit_ema_milli slot)) 1000).
  rewrite u32_small in * by nia. nia.
Qed.

(** A slot whose alpha is zero offers no value. *)
Lemma draft_value_alpha_0 slot cost g :
  0 <= g -> alpha_milli (commit_ema_milli slot) = 0 -> draft_value slot cost g = 0.
Proof.
  intros Hg Ha. rewrite <- (Z2Nat.id g) by done. generalize (Z.to_nat g) as k. induction k as [|k IH].
  - unfold draft_value. simpl. rewrite Ha. done.
  - rewrite Nat2Z.inj_succ, <- Z.add_1_r, draft_value_S, IH by lia. done.
Qed.

Lemma grant_probes_spec slots r bs :
  Forall slot_ok slots -> 0 <= r <= U32_MAX -> within_depth slots bs ->
  Forall (fun b => b = 0) bs ->
  let '(r', bs') := grant_probes slots r bs in
  0 <= r' /\ r' + total bs' = r + total bs /\ within_depth slots bs' /\
  Forall2 (fun s b => (probe s = 0 -> b = 0) /\ b <= PROBE_ROWS) slots bs'.
Proof.
  intros Hok. revert r bs. induction Hok as [|s slots Hs Hok IH]; intros r bs Hr Hw Hz;
    inversion Hw as [|? b ? bs0 Hb Hw']; subst; simpl; [split_and!; [lia|lia|constructor|constructor]|].
  apply Forall_cons in Hz as [-> Hz].
  assert (Forall2 (fun s b => (probe s = 0 -> b = 0) /\ b <= PROBE_ROWS) slots bs0) as Hz0.
  { clear -Hz Hw'. induction Hw'; constructor; apply Forall_cons in Hz as [-> Hz]; [done|by apply IHHw']. }
  destruct (Z.eqb_spec r 0) as [->|Hr0].
  { split_and!; [lia|simpl; lia|done|]. constructor; [done|exact Hz0]. }
  destruct ((probe s =? 0) || (maximum_draft_depth s =? 0)) eqn:Hp.
  - specialize (IH r bs0 Hr Hw' Hz). destruct (grant_probes slots r bs0) as [r' bs'].
    destruct IH as (?&?&?&?). simpl. split_and!; [lia|lia|by constructor|by constructor].
  - apply orb_false_iff in Hp as [Hp Hm]. unfold PROBE_ROWS in *. destruct Hs as [_ Hs].
    set (g := Z.min (Z.min 2 (maximum_draft_depth s)) r).
    rewrite u32_small by lia. specialize (IH (r - g) bs0 ltac:(lia) Hw' Hz).
    destruct (grant_probes slots (r - g) bs0) as [r' bs']. destruct IH as (?&?&?&?). simpl.
    split_and!; [lia|lia|constructor; [lia|done]|constructor; [|done]]. split; [lia|lia].
Qed.

(** ** The greedy phase *)

(** Slots that may still take a row, and the value that row would have. *)
Definition offers (slots : list SlotInput) (bs : list Z) (cost : Z) (i : nat) (v : Z) : Prop :=
  exists s b, slots !! i = Some s /\ bs !! i = Some b /\ probe s = 0 /\
    b < maximum_draft_depth s /\ v = draft_value s cost b.

(** A scan finds the best offer, or that every offer is worthless. *)
Lemma scan_spec slots bs cost out :
  Forall slot_ok slots -> 0 < cost -> length bs = length slots -> Forall (fun b => 0 <= b) bs ->
  let n := Z.of_nat (length slots) in
  wp (for_fold (range 0 n) (scan_slot bs slots cost) (n, 0))
    (fun best out' => out' = out /\
       ((best.2 = 0 /\ best.1 = n) \/
        (0 < best.2 /\ 0 <= best.1 < n /\ offers slots bs cost (Z.to_nat best.1) best.2)) /\
       forall i v, offers slots bs cost i v -> v <= best.2)
    (fun _ _ => False) out.
Proof.
  intros Hok Hc Hlen Hnn n. eapply wp_mono.
  - apply (wp_for_fold (fun pre (best : Z * Z) out' => out' = out /\
       ((best.2 = 0 /\ best.1 = n) \/
        (0 < best.2 /\ 0 <= best.1 < n /\ offers slots bs cost (Z.to_nat best.1) best.2)) /\
       forall i v, (i < length pre)%nat -> offers slots bs cost i v -> v <= best.2)
       _ _ _ (fun _ _ => False)).
    + split_and!; [done|by left|]. simpl. lia.
    + intros pre k post [bi bv] s' Hsplit (->&Hbest&Hmax). apply range_split in Hsplit as [-> Hk].
      rewrite length_app, length_range, Z.sub_0_r in *. cbn [fst snd length] in *.
      destruct (lookup_Some_range slots k) as [s Hs]; [lia|].
      destruct (lookup_Some_range bs k) as [b Hb]; [lia|].
      assert (slot_ok s) as Hsok by exact (Forall_lookup_1 _ _ _ _ Hok Hs).
      assert (0 <= b) as Hb0 by exact (Forall_lookup_1 _ _ _ _ Hnn Hb).
      assert (forall i v, (i < Z.to_nat k + 1)%nat -> offers slots bs cost i v ->
        v <= bv \/ (v = draft_value s cost b /\ probe s = 0 /\ b < maximum_draft_depth s)) as Hstep.
      { intros i v Hi Ho. destruct (decide (i = Z.to_nat k)) as [->|].
        - right. destruct Ho as (s1&b1&?&?&?&?&?). simplify_eq. done.
        - left. apply (Hmax i); [lia|done]. }
      unfold scan_slot. wp_steps. destruct (Z.eqb_spec (probe s) 0) as [Hp|Hp]; simpl.
      2:{ wp_steps. split_and!; [done|done|]. intros i v Hi Ho.
          destruct (Hstep i v Hi Ho) as [?|(_&?&_)]; done. }
      wp_steps. destruct (Z.leb_spec (maximum_draft_depth s) b).
      { wp_steps. split_and!; [done|done|]. intros i v Hi Ho.
        destruct (Hstep i v Hi Ho) as [?|(_&_&?)]; [done|lia]. }
      destruct (Z.eqb_spec (alpha_milli (commit_ema_milli s)) 0) as [Ha|Ha].
      { wp_steps. split_and!; [done|done|]. intros i v Hi Ho. cbn [fst snd] in *.
        destruct (Hstep i v Hi Ho) as [?|(->&_)]; [done|]. rewrite draft_value_alpha_0 by done. lia. }
      destruct (Z.ltb_spec bv (draft_value s cost b)); wp_steps; cbn [fst snd] in *.
      * split_and!; [done| |].
        { right. split_and!; [lia|lia|lia|]. exists s, b. done. }
        intros i v Hi Ho. destruct (Hstep i v Hi Ho) as [?|(->&_)]; lia.
      * split_and!; [done|done|]. intros i v Hi Ho. destruct (Hstep i v Hi Ho) as [?|(->&_)]; lia.
  - intros best s' (->&Hbest&Hmax). split_and!; [done|done|]. intros i v Ho.
    apply (Hmax i v); [|done]. rewrite length_range. destruct Ho as (s&b&Hs&_).
    apply lookup_lt_Some in Hs. lia.
  - done.
Qed.

(** A value that separates the rows granted from the rows left out. *)
Definition threshold (slots : list SlotInput) (cost : Z) (bs : list Z) (t : Z) : Prop :=
  0 <= t /\
  (forall i s b, slots !! i = Some s -> bs !! i = Some b -> probe s = 0 -> 0 < b ->
     t <= draft_value s cost (b - 1)) /\
  (forall i v, offers slots bs cost i v -> v <= t).

Lemma within_depth_nonneg slots bs : within_depth slots bs -> Forall (fun b => 0 <= b) bs.
Proof. induction 1; constructor; [lia|done]. Qed.

(** Granting the best offer moves the separating value down to that offer. *)
Lemma grant_best slots cost bs t k v :
  Forall slot_ok slots -> 0 < cost -> within_depth slots bs -> threshold slots cost bs t ->
  offers slots bs cost k v -> 0 < v -> (forall i w, offers slots bs cost i w -> w <= v) ->
  exists b, bs !! k = Some b /\ 0 <= b < U32_MAX /\
    within_depth slots (<[k := b + 1]> bs) /\ threshold slots cost (<[k := b + 1]> bs) v.
Proof.
  intros Hok Hc Hw (Ht0&Hin&Hout) Hoff Hv Hmax. pose proof (Hout _ _ Hoff) as Hvt.
  destruct Hoff as (s&b&Hs&Hb&Hp&Hlt&->).
  pose proof (Forall_lookup_1 _ _ _ _ Hok Hs) as Hsok. pose proof Hsok as [_ Hdep].
  pose proof (Forall2_lookup_lr _ _ _ _ _ _ Hw Hs Hb) as Hbr. simpl in Hbr.
  destruct (draft_value_mono s cost b Hsok Hc ltac:(lia)) as [Hmono _].
  exists b. split_and!; [done|lia|lia| |].
  - assert (<[k:=s]> slots = slots) as Hid by (by apply list_insert_id).
    unfold within_depth. rewrite <- Hid. apply Forall2_insert; [done|lia].
  - split; [lia|]. split.
    + intros i si bi Hsi Hbi Hpi Hpos.
      apply list_lookup_insert_Some in Hbi as [(->&<-&_)|[Hne Hbi]].
      * simplify_eq. by replace (b + 1 - 1) with b by lia.
      * pose proof (Hin _ _ _ Hsi Hbi Hpi Hpos). lia.
    + intros i w (si&bi&Hsi&Hbi&Hpi&Hlti&->).
      apply list_lookup_insert_Some in Hbi as [(->&<-&_)|[Hne Hbi]].
      * simplify_eq. lia.
      * apply (Hmax i). exists si, bi. done.
Qed.

Definition effective_cost (c : Z) : Z := if c =? 0 then MILLI else c.

Lemma upd_nth_incr bs k b :
  bs !! Z.to_nat k = Some b -> 0 <= b < U32_MAX ->
  upd_nth k (fun b => b +u32 1) bs = <[Z.to_nat k := b + 1]> bs.
Proof.
  intros Hb Hr. apply list_eq. intros i. destruct (decide (i = Z.to_nat k)) as [->|Hne].
  - rewrite list_lookup_insert_eq by (by eapply lookup_lt_Some).
    erewrite lookup_upd_nth_eq by exact Hb. rewrite u32_small by lia. done.
  - rewrite list_lookup_insert_ne by done. by apply lookup_upd_nth_ne.
Qed.

(** The greedy loop ends with the budget spent or every offer worthless, with a
    separating value, and without touching the probing slots. *)
Lemma greedy_grant_spec slots r cost0 bs :
  Forall slot_ok slots -> 0 <= r <= U32_MAX -> 0 <= cost0 -> within_depth slots bs ->
  Forall2 (fun s b => probe s = 0 -> b = 0) slots bs ->
  let cost := effective_cost cost0 in
  wp (greedy_grant slots r cost0)
    (fun _ bs' => within_depth slots bs' /\
       total bs <= total bs' <= total bs + r /\
       (forall i s, slots !! i = Some s -> probe s <> 0 -> bs' !! i = bs !! i) /\
       exists t, threshold slots cost bs' t /\ (total bs' = total bs + r \/ t = 0))
    (fun _ _ => False) bs.
Proof.
  intros Hok Hr Hcost Hw Hz cost. assert (0 < cost) as Hc.
  { unfold cost, effective_cost, MILLI. destruct (Z.eqb_spec cost0 0); lia. }
  unfold greedy_grant. fold (effective_cost cost0). fold cost.
  apply (wp_loop (fun rem bs' => within_depth slots bs' /\ 0 <= rem /\
      total bs' + rem = total bs + r /\ rem <= r /\
      (forall i s, slots !! i = Some s -> probe s <> 0 -> bs' !! i = bs !! i) /\
      exists t, threshold slots cost bs' t)
    (fun rem _ => Z.to_nat rem)).
  - split_and!; [done|lia|lia|lia|done|]. exists 999000. split; [lia|]. split.
    + intros i s b Hs Hb Hp Hpos. pose proof (Forall2_lookup_lr _ _ _ _ _ _ Hz Hs Hb). simpl in *. naive_solver lia.
    + intros i v (s&b&Hs&Hb&_&_&->). pose proof (Forall2_lookup_lr _ _ _ _ _ _ Hw Hs Hb). simpl in *.
      apply draft_value_mono; [exact (Forall_lookup_1 _ _ _ _ Hok Hs)|done|lia].
  - lia.
  - intros rem bs' (Hw'&Hrem&Htot&Hle&Hprobe&t&Ht).
    destruct (Z.eqb_spec rem 0) as [->|Hne].
    { wp_steps. split_and!; [done|lia|lia|done|]. exists t. split; [done|left; lia]. }
    wp_steps. unfold id. pose proof (within_depth_nonneg _ _ Hw') as Hnn.
    pose proof (Forall2_length _ _ _ Hw') as Hlen.
    eapply wp_mono; [by apply scan_spec| |done].
    intros [bi bv] s' (->&Hbest&Hmax). cbn [fst snd] in *.
    destruct Hbest as [[-> ->]|(Hbv&Hbi&Hoff)].
    + rewrite Z.eqb_refl. simpl. wp_steps. split_and!; [done|lia|lia|done|].
      exists 0. split; [|by right]. split; [lia|]. split; [|done].
      intros i s b Hs Hb Hp Hpos.
      pose proof (draft_value_mono s cost (b - 1) (Forall_lookup_1 _ _ _ _ Hok Hs) Hc ltac:(lia)). lia.
    + destruct (Z.eqb_spec bi (Z.of_nat (length slots))); [lia|].
      destruct (Z.eqb_spec bv 0); [lia|]. simpl. wp_steps.
      destruct (grant_best slots cost bs' t _ _ Hok Hc Hw' Ht Hoff Hbv Hmax) as (b&Hb&Hbr&Hw2&Ht2).
      rewrite (upd_nth_incr _ _ _ Hb Hbr), u32_small by lia.
      split; [|lia]. split_and!; [done|lia| |lia| |by exists bv].
      * rewrite (total_insert _ _ _ _ Hb). lia.
      * intros i s Hs Hp. rewrite list_lookup_insert_ne; [by apply (Hprobe i s)|].
        intros <-. destruct Hoff as (s1&b1&Hs1&_&Hp1&_). congruence.
Qed.

(** ** Optimality *)

(** The value of a slot's first [b] draft rows. *)
Definition rows_value (s : SlotInput) (cost b : Z) : Z :=
  total (draft_value s cost <$> range 0 b).

(** Over the slots that compete by value: the rows granted and their value. *)
Fixpoint drafted (slots : list SlotInput) (bs : list Z) : Z :=
  match slots, bs with
  | s :: slots', b :: bs' => (if probe s =? 0 then b else 0) + drafted slots' bs'
  | _, _ => 0
  end.

Fixpoint total_value (cost : Z) (slots : list SlotInput) (bs : list Z) : Z :=
  match slots, bs with
  | s :: slots', b :: bs' =>
      (if probe s =? 0 then rows_value s cost b else 0) + total_value cost slots' bs'
  | _, _ => 0
  end.

Lemma total_app l k : total (l ++ k) = total l + total k.
Proof. induction l; simpl; lia. Qed.

Lemma rows_value_S s cost b :
  0 <= b -> rows_value s cost (b + 1) = rows_value s cost b + draft_value s cost b.
Proof.
  intros. unfold rows_value. rewrite range_snoc by lia. rewrite fmap_app, total_app. simpl. lia.
Qed.

Lemma draft_value_antitone s cost a b :
  slot_ok s -> 0 < cost -> 0 <= a <= b -> draft_value s cost b <= draft_value s cost a.
Proof.
  intros Hs Hc Hab. replace b with (a + Z.of_nat (Z.to_nat (b - a))) by lia.
  generalize (Z.to_nat (b - a)) as k. induction k as [|k IH]; [by rewrite Z.add_0_r|].
  rewrite Nat2Z.inj_succ. replace (a + Z.succ (Z.of_nat k)) with (a + Z.of_nat k + 1) by lia.
  pose proof (draft_value_mono s cost (a + Z.of_nat k) Hs Hc). lia.
Qed.

(** Adding rows worth at most [t] each, or removing rows worth at least [t]. *)
Lemma rows_value_exchange s cost g b t :
  slot_ok s -> 0 < cost -> 0 <= g -> 0 <= b ->
  (0 < g -> t <= draft_value s cost (g - 1)) -> (g < b -> draft_value s cost g <= t) ->
  rows_value s cost b <= rows_value s cost g + t * (b - g).
Proof.
  intros Hs Hc Hg Hb Hin Hout. destruct (Z.le_gt_cases g b) as [Hle|Hgt].
  - assert (forall k : nat, Z.of_nat k <= b - g ->
      rows_value s cost (g + Z.of_nat k) <= rows_value s cost g + t * Z.of_nat k) as H.
    { induction k as [|k IH]; intros Hk; [rewrite Z.add_0_r; lia|].
      rewrite Nat2Z.inj_succ. replace (g + Z.succ (Z.of_nat k)) with (g + Z.of_nat k + 1) by lia.
      rewrite rows_value_S by lia.
      pose proof (draft_value_antitone s cost g (g + Z.of_nat k) Hs Hc ltac:(lia)). lia. }
    specialize (H (Z.to_nat (b - g))). rewrite Z2Nat.id in H by lia.
    replace (g + (b - g)) with b in H by lia. lia.
  - assert (forall k : nat, Z.of_nat k <= g - b ->
      rows_value s cost (g - Z.of_nat k) <= rows_value s cost g - t * Z.of_nat k) as H.
    { induction k as [|k IH]; intros Hk; [rewrite Z.sub_0_r; lia|].
      specialize (IH ltac:(lia)). rewrite Nat2Z.inj_succ.
      replace (g - Z.of_nat k) with (g - Z.succ (Z.of_nat k) + 1) in IH by lia.
      rewrite rows_value_S in IH by lia.
      pose proof (draft_value_antitone s cost (g - Z.succ (Z.of_nat k)) (g - 1) Hs Hc ltac:(lia)). lia. }
    specialize (H (Z.to_nat (g - b))). rewrite Z2Nat.id in H by lia.
    replace (g - (g - b)) with b in H by lia. lia.
Qed.

Lemma threshold_cons s slots cost g gs t :
  threshold (s :: slots) cost (g :: gs) t -> threshold slots cost gs t.
Proof.
  intros (H0&H1&H2). split; [done|]. split.
  - intros i si b Hs Hb. by apply (H1 (S i)).
  - intros i v (si&b&Hs&Hb&?). apply (H2 (S i)). by exists si, b.
Qed.

(** A grant with a separating value beats every other allocation. *)
Lemma threshold_exchange slots cost gs bs t :
  Forall slot_ok slots -> 0 < cost -> within_depth slots gs -> within_depth slots bs ->
  threshold slots cost gs t ->
  total_value cost slots bs <= total_value cost slots gs + t * (drafted slots bs - drafted slots gs).
Proof.
  intros Hok Hc Hg. revert bs. induction Hg as [|s g slots gs Hsg Hg IH]; intros bs Hb Ht;
    inversion Hb as [|? b ? bs' Hsb Hb']; subst; simpl; [lia|].
  apply Forall_cons in Hok as [Hs Hok].
  specialize (IH Hok bs' Hb' (threshold_cons _ _ _ _ _ _ Ht)). destruct Ht as (Ht&H1&H2).
  destruct (Z.eqb_spec (probe s) 0) as [Hp|Hp]; [|lia].
  assert (rows_value s cost b <= rows_value s cost g + t * (b - g)); [|lia].
  apply rows_value_exchange; [done|done|lia|lia| |].
  - intros. by apply (H1 0%nat).
  - intros. apply (H2 0%nat). exists s, g. split_and!; [done|done|done|lia|done].
Qed.

Lemma drafted_total slots bs :
  within_depth slots bs -> Forall2 (fun s b => probe s = 0 -> b = 0) slots bs ->
  forall bs', within_depth slots bs' ->
  (forall i s, slots !! i = Some s -> probe s <> 0 -> bs' !! i = bs !! i) ->
  drafted slots bs' = total bs' - total bs.
Proof.
  intros Hw. induction Hw as [|s b slots bs Hsb Hw IH]; intros Hz bs' Hw' Hp;
    inversion Hw' as [|? b' ? bs0 Hsb' Hw0]; inversion Hz as [|???? Hz1 Hz2]; subst; simpl; [done|].
  rewrite (IH Hz2 bs0 Hw0); [|intros i si; by apply (Hp (S i))].
  destruct (Z.eqb_spec (probe s) 0) as [H0|H0]; [rewrite (Hz1 H0); lia|].
  specialize (Hp 0%nat s eq_refl H0). simplify_eq/=. lia.
Qed.

(** ** Properties *)

Lemma forall2_impl_probe slots bs :
  Forall2 (fun s b => (probe s = 0 -> b = 0) /\ b <= PROBE_ROWS) slots bs ->
  Forall2 (fun s b => probe s = 0 -> b = 0) slots bs.
Proof. intros H. eapply Forall2_impl; [exact H|]. naive_solver. Qed.

(** The two phases together, on the zeroed output the function starts from. *)
Lemma assign_spec slots cap cost0 out :
  Forall slot_ok slots -> length out = length slots -> Z.of_nat (length slots) <= U32_MAX ->
  0 < cap <= U32_MAX -> 0 <= cost0 ->
  let base := Z.min (Z.of_nat (length slots)) cap in
  wp (row_allocator_assign slots cap cost0)
    (fun rows out' => within_depth slots out' /\ rows = base + total out' /\ rows <= cap /\
       exists r t, threshold slots (effective_cost cost0) out' t /\ 0 <= r /\
         (drafted slots out' = r \/ t = 0) /\ drafted slots out' <= r /\
         base + (total out' - drafted slots out') + r = cap)
    (fun _ _ => False) out.
Proof.
  intros Hok Hlen Hn Hcap Hcost base. unfold row_allocator_assign. wp_steps. unfold id.
  rewrite Hlen, Nat.eqb_refl. simpl. destruct (Z.eqb_spec cap 0); [lia|]. wp_steps.
  set (zs := (fun _ : Z => 0) <$> out).
  assert (Forall (fun b => b = 0) zs) as Hz by (apply Forall_fmap, Forall_true; done).
  assert (within_depth slots zs) as Hw.
  { apply Forall2_same_length_lookup_2; [unfold zs; by rewrite length_fmap|].
    intros i s b Hs Hb. pose proof (Forall_lookup_1 _ _ _ _ Hz Hb). simpl in *.
    pose proof (Forall_lookup_1 _ _ _ _ Hok Hs) as [_ ?]. lia. }
  assert (total zs = 0) as Hz0 by (clear -Hz; induction Hz; simpl; lia).
  rewrite (u32_small (Z.of_nat (length slots))) by lia. fold base. rewrite u32_small by lia.
  pose proof (grant_probes_spec slots (cap - base) zs Hok ltac:(lia) Hw Hz) as Hg.
  destruct (grant_probes slots (cap - base) zs) as [r bs]. destruct Hg as (Hr&Htot&Hwb&Hpb).
  pose proof (within_depth_nonneg _ _ Hwb) as Hnn. pose proof (total_nonneg _ Hnn) as Htn.
  wp_steps. eapply wp_mono; [apply greedy_grant_spec; [done|lia|done|done|]| |done].
  { by apply forall2_impl_probe. }
  intros [] out' (Hw'&Ht'&Hprobe&t&Hth&Hend). wp_steps. unfold id.
  pose proof (drafted_total slots bs Hwb (forall2_impl_probe _ _ Hpb) out' Hw' Hprobe) as Hd.
  rewrite sum_u32_total by (by eapply within_depth_nonneg) || lia.
  rewrite u32_small by lia. split_and!; [done|done|lia|]. exists r, t.
  split_and!; [done|done| |lia|lia]. destruct Hend; [left; lia|by right].
Qed.

(** The allocator never exceeds its budget and always terminates: for any
    slots, any nonzero cap and any cost it returns exactly the base rows plus the
    draft rows it wrote, at most [firing_row_cap] in all, and no slot is granted
    more than its [maximum_draft_depth]. *)
Theorem row_allocator_within_budget slots cap cost out :
  Forall slot_ok slots -> length out = length slots -> Z.of_nat (length slots) <= U32_MAX ->
  0 < cap <= U32_MAX -> 0 <= cost ->
  exists rows out', row_allocator_assign slots cap cost out = Ret rows out' /\
    rows <= cap /\ rows = Z.min (Z.of_nat (length slots)) cap + total out' /\
    Forall2 (fun s b => 0 <= b <= maximum_draft_depth s) slots out'.
Proof.
  intros Hok Hlen Hn Hcap Hcost.
  destruct (wp_elim _ _ _ _ (assign_spec slots cap cost out Hok Hlen Hn Hcap Hcost))
    as [(rows&out'&->&Hw&->&Hle&_)|(?&?&_&[])]. by eexists _, out'.
Qed.

Definition sample_slots : list SlotInput :=
  [mkSlotInput 2500 4 0; mkSlotInput 900 4 0; mkSlotInput 1800 3 1; mkSlotInput 1900 8 0].

Lemma sample_slots_ok : Forall slot_ok sample_slots.
Proof. repeat constructor; simpl; lia. Qed.

Lemma row_allocator_within_budget_witness :
  exists rows out', row_allocator_assign sample_slots 10 1000 [7; 7; 7; 7] = Ret rows out' /\
    rows <= 10 /\ rows = Z.min (Z.of_nat 4) 10 + total out' /\
    Forall2 (fun s b => 0 <= b <= maximum_draft_depth s) sample_slots out'.
Proof.
  apply (row_allocator_within_budget sample_slots 10 1000 [7; 7; 7; 7]);
    [apply sample_slots_ok|reflexivity|simpl; lia|lia|lia].
Defined.

(** C16. The greedy grant is optimal: among all ways of giving the competing
    (non-probing) slots draft rows within their depths, using no more rows than
    the base and probe rows leave of the cap, none has a larger total marginal
    value than the one [row_allocator_assign] writes. *)
Theorem row_allocator_optimal slots cap cost out rows out' other :
  Forall slot_ok slots -> length out = length slots -> Z.of_nat (length slots) <= U32_MAX ->
  0 < cap <= U32_MAX -> 0 <= cost ->
  row_allocator_assign slots cap cost out = Ret rows out' ->
  within_depth slots other ->
  drafted slots other <= cap - (rows - drafted slots out') ->
  total_value (effective_cost cost) slots other <= total_value (effective_cost cost) slots out'.
Proof.
  intros Hok Hlen Hn Hcap Hcost Hrun Hother Hbud.
  pose proof (wp_ret_inv _ _ _ _ _ _ (assign_spec slots cap cost out Hok Hlen Hn Hcap Hcost) Hrun)
    as (Hw&Hrows&_&r&t&Ht&Hr&Hend&Hle&Hcapeq).
  assert (0 < effective_cost cost) as Hc.
  { unfold effective_cost, MILLI. destruct (Z.eqb_spec cost 0); lia. }
  pose proof (threshold_exchange slots _ out' other t Hok Hc Hw Hother Ht) as Hx.
  destruct Ht as [Ht _]. destruct Hend as [Hend| ->]; nia.
Qed.

Lemma row_allocator_optimal_witness :
  row_allocator_assign sample_slots 10 1000 [0; 0; 0; 0] = Ret 10 [2; 0; 2; 2] /\
  total_value 1000 sample_slots [1; 0; 0; 3] <= total_value 1000 sample_slots [2; 0; 2; 2].
Proof.
  split; [vm_compute; reflexivity|].
  apply (row_allocator_optimal sample_slots 10 1000 [0; 0; 0; 0] 10 [2; 0; 2; 2] [1; 0; 0; 3]).
  - apply sample_slots_ok.
  - reflexivity.
  - simpl; lia.
  - lia.
  - lia.
  - vm_compute. reflexivity.
  - repeat constructor; simpl; lia.
  - vm_compute. discriminate.
Defined.
