(* ===== verification/BatchSequenceTable.v ===== *)
(** * The batch-plane sequence table ([crates/spark-core/src/batch_sequence_table.rs])

    Admission and exchange lifecycle of batch sequences, with handles that pack a
    slot index (14 bits) and a generation (18 bits).  Modelled: the whole file.
    Proved: the table invariant (free list, high-water mark, counters) and its
    preservation, a refinement of an abstract population of live handles, that a
    completed handle is refused afterwards, and where the 18-bit generation of a
    handle and the 32-bit generation of a slot part ways. *)

From S2P Require Import Prelude FreeList.

Definition ABI_VERSION : Z := 2.

Definition MAX_SEQUENCES : Z := 16384.

Definition HANDLE_INDEX_BITS : Z := 14.

Definition HANDLE_INDEX_MASK : Z := Z.shiftl 1 HANDLE_INDEX_BITS - 1.

Definition FREE_HEAD_NONE : Z := U32_MAX.

Inductive SequenceState := Free | Active | AwaitingTool | Complete.

#[export] Instance SequenceState_eq_dec : EqDecision SequenceState.
Proof. solve_decision. Defined.

(** [SequenceHandle(u32)] is its raw encoding. *)
Definition SequenceHandle : Type := Z.

Definition handle_index (h : SequenceHandle) : Z := Z.land h HANDLE_INDEX_MASK.

Definition handle_generation (h : SequenceHandle) : Z := Z.shiftr h HANDLE_INDEX_BITS.

(** [SequenceHandle(index | (generation << HANDLE_INDEX_BITS))]. *)
Definition make_handle (i g : Z) : SequenceHandle := Z.lor i (u32 (Z.shiftl g HANDLE_INDEX_BITS)).

Record BatchSequence := mkBatchSequence {
  sequence_id : Z;
  state : SequenceState;
  seq_lane_count : Z;
  exchange_number : Z;
  context_tokens : Z;
  fragment_base : Z;
  fragment_count : Z;
  free_next : Z;
  generation : Z;
}.

#[export] Instance BatchSequence_eta : RecordEta BatchSequence := fun s =>
  mkBatchSequence (sequence_id s) (state s) (seq_lane_count s) (exchange_number s)
    (context_tokens s) (fragment_base s) (fragment_count s) (free_next s) (generation s).

Definition default_sequence : BatchSequence := mkBatchSequence 0 Free 0 0 0 0 0 0 0.

Inductive BatchSequenceError := InvalidArgument | NotFound | CapacityExceeded.

Record Configuration := mkConfiguration {
  cfg_abi_version : Z;
  cfg_sequence_capacity : Z;
  cfg_lane_count : Z;
}.

Record BatchSequenceTable := mkTable {
  abi_version : Z;
  sequence_capacity : Z;
  lane_count : Z;
  active_count : Z;
  awaiting_tool_count : Z;
  complete_count : Z;
  free_head : Z;
  free_high_water : Z;
  exchange_count : Z;
  sequences : list BatchSequence;
}.

#[export] Instance BatchSequenceTable_eta : RecordEta BatchSequenceTable := fun t =>
  mkTable (abi_version t) (sequence_capacity t) (lane_count t) (active_count t)
    (awaiting_tool_count t) (complete_count t) (free_head t) (free_high_water t)
    (exchange_count t) (sequences t).

Definition new (c : Configuration) : M unit BatchSequenceError BatchSequenceTable :=
  if negb (cfg_abi_version c =? ABI_VERSION) || (cfg_sequence_capacity c =? 0)
     || (MAX_SEQUENCES <? cfg_sequence_capacity c) || (cfg_lane_count c =? 0)
  then throw InvalidArgument
  else ret (mkTable ABI_VERSION (cfg_sequence_capacity c) (cfg_lane_count c) 0 0 0
              FREE_HEAD_NONE 0 0 (replicate (Z.to_nat (cfg_sequence_capacity c)) default_sequence)).

Definition resolve_handle (h : SequenceHandle) : M BatchSequenceTable BatchSequenceError Z :=
  let! t := gets id in
  let i := handle_index h in
  if sequence_capacity t <=? i then throw NotFound
  else
    let! s := index (sequences t) i in
    if negb (generation s =? handle_generation h) then throw NotFound else ret i.

(** [self.sequences[i].f = v] *)
Definition upd_sequence (i : Z) (f : BatchSequence -> BatchSequence)
    : M BatchSequenceTable BatchSequenceError unit :=
  modify (fun t => t <| sequences := upd_nth i f (sequences t) |>).

(** The slot [admit] takes: the head of the free list, else the next fresh slot. *)
Definition take_slot : M BatchSequenceTable BatchSequenceError Z :=
  let! t := gets id in
  if negb (free_head t =? FREE_HEAD_NONE) then
    let i := free_head t in
    let! s := index (sequences t) i in
    do! modify (fun t => t <| free_head := free_next s |>) in
    ret i
  else if free_high_water t <? sequence_capacity t then
    let i := free_high_water t in
    do! modify (fun t => t <| free_high_water := free_high_water t +u32 1 |>) in
    ret i
  else throw CapacityExceeded.

Definition admit_sequence (id_ context base count : Z)
    : M BatchSequenceTable BatchSequenceError SequenceHandle :=
  if count =? 0 then throw InvalidArgument
  else
    let! i := take_slot in
    let! t := gets id in
    let! s := index (sequences t) i in
    do! upd_sequence i (fun s => s <| sequence_id := id_ |> <| state := Active |>
          <| seq_lane_count := lane_count t |> <| exchange_number := 0 |>
          <| context_tokens := context |> <| fragment_base := base |>
          <| fragment_count := count |>) in
    do! modify (fun t => t <| active_count := active_count t +u32 1 |>) in
    do! modify (fun t => t <| exchange_count := exchange_count t +u64 1 |>) in
    ret (make_handle i (generation s)).

Definition begin_exchange (h : SequenceHandle) (appended : Z)
    : M BatchSequenceTable BatchSequenceError unit :=
  let! i := resolve_handle h in
  let! t := gets id in
  let! s := index (sequences t) i in
  if negb (bool_decide (state s = AwaitingTool)) then throw InvalidArgument
  else
    do! upd_sequence i (fun s => s <| state := Active |>
          <| exchange_number := exchange_number s +u32 1 |>
          <| context_tokens := context_tokens s +u32 appended |>) in
    do! modify (fun t => t <| awaiting_tool_count := awaiting_tool_count t -u32 1 |>) in
    do! modify (fun t => t <| active_count := active_count t +u32 1 |>) in
    modify (fun t => t <| exchange_count := exchange_count t +u64 1 |>).

Definition pause_for_tool (h : SequenceHandle) : M BatchSequenceTable BatchSequenceError unit :=
  let! i := resolve_handle h in
  let! t := gets id in
  let! s := index (sequences t) i in
  if negb (bool_decide (state s = Active)) then throw InvalidArgument
  else
    do! upd_sequence i (fun s => s <| state := AwaitingTool |>) in
    do! modify (fun t => t <| active_count := active_count t -u32 1 |>) in
    modify (fun t => t <| awaiting_tool_count := awaiting_tool_count t +u32 1 |>).

Definition complete (h : SequenceHandle) : M BatchSequenceTable BatchSequenceError unit :=
  let! i := resolve_handle h in
  let! t := gets id in
  let! s := index (sequences t) i in
  if negb (bool_decide (state s = Active)) && negb (bool_decide (state s = AwaitingTool))
  then throw InvalidArgument
  else
    do! (if bool_decide (state s = Active)
         then modify (fun t => t <| active_count := active_count t -u32 1 |>)
         else modify (fun t => t <| awaiting_tool_count := awaiting_tool_count t -u32 1 |>)) in
    do! upd_sequence i (fun s => s <| state := Complete |>
          <| generation := generation s +u32 1 |> <| free_next := free_head t |>) in
    do! modify (fun t => t <| free_head := i |>) in
    modify (fun t => t <| complete_count := complete_count t +u32 1 |>).

Definition firing_threshold (t : BatchSequenceTable) (topk expert_count threshold_cap : Z) : Z :=
  if (expert_count =? 0) || (threshold_cap =? 0) then 1
  else
    let product := (active_count t *u32 lane_count t) *u32 topk in
    let threshold := product / expert_count in
    let threshold := if threshold =? 0 then 1 else threshold in
    Z.min threshold threshold_cap.

Definition sequence (h : SequenceHandle) : M BatchSequenceTable BatchSequenceError BatchSequence :=
  let! i := resolve_handle h in
  let! t := gets id in
  index (sequences t) i.

(** ** Invariant *)

Abbreviation in_state q := (fun s => bool_decide (state s = q)).

Definition recycled (t : BatchSequenceTable) (i : nat) : Prop :=
  exists s, sequences t !! i = Some s /\ state s = Complete.

Record table_wf (t : BatchSequenceTable) : Prop := {
  tw_capacity : 0 < sequence_capacity t <= MAX_SEQUENCES;
  tw_length : Z.of_nat (length (sequences t)) = sequence_capacity t;
  tw_water : 0 <= free_high_water t <= sequence_capacity t;
  tw_fresh : forall i s, sequences t !! i = Some s ->
    (state s = Free <-> free_high_water t <= Z.of_nat i);
  tw_free : exists fl, free_list (fun i => free_next <$> sequences t !! i) (recycled t)
    FREE_HEAD_NONE (free_head t) fl;
  tw_active : active_count t = countb (in_state Active) (sequences t);
  tw_awaiting : awaiting_tool_count t = countb (in_state AwaitingTool) (sequences t);
  tw_generation : forall i s, sequences t !! i = Some s -> 0 <= generation s <= U32_MAX;
}.

(** ** Handles *)

Lemma handle_parts h :
  handle_index h = h mod 2 ^ 14 /\ handle_generation h = h / 2 ^ 14.
Proof.
  unfold handle_index, handle_generation, HANDLE_INDEX_MASK, HANDLE_INDEX_BITS. split.
  - change (Z.shiftl 1 14 - 1) with (Z.ones 14). by rewrite Z.land_ones.
  - by rewrite Z.shiftr_div_pow2.
Qed.

(** A handle and the pair of its parts determine each other while the generation
    fits the 18 bits the handle has for it. *)
Lemma make_handle_parts i g :
  0 <= i < 2 ^ 14 -> 0 <= g ->
  make_handle i g = i + 2 ^ 14 * (g mod 2 ^ 18) /\
  handle_index (make_handle i g) = i /\ handle_generation (make_handle i g) = g mod 2 ^ 18 /\
  0 <= make_handle i g <= U32_MAX.
Proof.
  intros Hi Hg. assert (make_handle i g = i + 2 ^ 14 * (g mod 2 ^ 18)) as Heq.
  { unfold make_handle, HANDLE_INDEX_BITS, u32. rewrite Z.shiftl_mul_pow2 by lia.
    change 4294967296 with (2 ^ 14 * 2 ^ 18). rewrite (Z.mul_comm g), Z.mul_mod_distr_l by lia.
    rewrite <- Z.add_lor_land. rewrite (Z.mul_comm (2 ^ 14)), <- Z.shiftl_mul_pow2 by lia.
    replace (Z.land i (Z.shiftl (g mod 2 ^ 18) 14)) with 0; [lia|].
    symmetry. apply Z.bits_inj'. intros n Hn. rewrite Z.land_spec, Z.bits_0.
    destruct (Z.ltb_spec n 14).
    - rewrite Z.shiftl_spec_low by lia. apply andb_false_r.
    - rewrite (Z.bits_above_log2 i n); [done|lia|]. destruct (decide (i = 0)) as [->|]; [simpl; lia|].
      apply Z.log2_lt_pow2; [lia|]. pose proof (Z.pow_le_mono_r 2 14 n). lia. }
  pose proof (Z.mod_pos_bound g (2 ^ 18)).
  destruct (handle_parts (make_handle i g)) as [-> ->]. rewrite Heq. split_and!; try lia.
  - rewrite (Z.mul_comm (2 ^ 14)), Z.mod_add by lia. apply Z.mod_small. lia.
  - rewrite (Z.mul_comm (2 ^ 14)), Z.div_add by lia. rewrite Z.div_small by lia. lia.
Qed.

Lemma handle_index_range h : 0 <= handle_index h < 2 ^ 14.
Proof. destruct (handle_parts h) as [-> _]. apply Z.mod_pos_bound. lia. Qed.

Lemma handle_generation_range h : 0 <= h <= U32_MAX -> 0 <= handle_generation h < 2 ^ 18.
Proof.
  intros Hh. destruct (handle_parts h) as [_ ->]. split; [apply Z.div_pos; lia|].
  apply Z.div_lt_upper_bound; lia.
Qed.

Lemma handle_inj h k :
  handle_index h = handle_index k -> handle_generation h = handle_generation k -> h = k.
Proof.
  destruct (handle_parts h) as [-> ->], (handle_parts k) as [-> ->]. intros Hi Hg.
  rewrite (Z.div_mod h (2 ^ 14)), (Z.div_mod k (2 ^ 14)) by lia. congruence.
Qed.

(** ** Preservation *)

(** [t'] is [t] with slot [i] replaced by [s'] and its bookkeeping adjusted. *)
Definition replaced (t t' : BatchSequenceTable) (i : nat) (s' : BatchSequence) : Prop :=
  sequences t' = <[i := s']> (sequences t) /\ sequence_capacity t' = sequence_capacity t /\
  lane_count t' = lane_count t.

Lemma wf_replace t t' i s s' :
  table_wf t -> sequences t !! i = Some s -> replaced t t' i s' ->
  0 <= free_high_water t' <= sequence_capacity t ->
  state s' <> Free -> Z.of_nat i < free_high_water t' ->
  (forall j, j <> i -> free_high_water t' <= Z.of_nat j <-> free_high_water t <= Z.of_nat j) ->
  active_count t' = active_count t - b2z (in_state Active s) + b2z (in_state Active s') ->
  awaiting_tool_count t' =
    awaiting_tool_count t - b2z (in_state AwaitingTool s) + b2z (in_state AwaitingTool s') ->
  0 <= generation s' <= U32_MAX ->
  (exists fl, free_list (fun i => free_next <$> sequences t' !! i) (recycled t')
    FREE_HEAD_NONE (free_head t') fl) ->
  table_wf t'.
Proof.
  intros [H1 H2 H3 H4 H5 H6 H7 H8] Hs (Hseq&Hcap&_) Hw Hst Hi Hfresh Ha Ht Hg Hfl.
  split; rewrite ?Hseq, ?Hcap, ?length_insert; try done.
  - intros j x Hj. apply list_lookup_insert_Some in Hj as [(->&<-&_)|[Hne Hj]].
    + split; [done|lia].
    + rewrite Hfresh by done. by apply H4.
  - by rewrite Hseq in Hfl.
  - rewrite (countb_insert _ _ _ s) by done. congruence.
  - rewrite (countb_insert _ _ _ s) by done. congruence.
  - intros j x Hj. apply list_lookup_insert_Some in Hj as [(->&<-&_)|[Hne Hj]]; [done|].
    exact (H8 j x Hj).
Qed.

(** The free list when a slot that is not on it is replaced by one that is not
    recycled either. *)
Lemma free_list_replace t t' i s' fl :
  replaced t t' i s' -> ~ recycled t i -> state s' <> Complete -> free_head t' = free_head t ->
  free_list (fun i => free_next <$> sequences t !! i) (recycled t) FREE_HEAD_NONE (free_head t) fl ->
  free_list (fun i => free_next <$> sequences t' !! i) (recycled t') FREE_HEAD_NONE (free_head t') fl.
Proof.
  intros (Hseq&_) Hi Hs' -> Hfl. eapply free_list_frame; [exact Hfl| |].
  - intros j Hj. rewrite Hseq, list_lookup_insert_ne; [done|]. intros ->. done.
  - intros j. unfold recycled. rewrite Hseq. split.
    + intros (x&Hx&Hst). apply list_lookup_insert_Some in Hx as [(->&<-&_)|[_ Hx]]; [done|by exists x].
    + intros (x&Hx&Hst). exists x. rewrite list_lookup_insert_ne; [done|].
      intros ->. apply Hi. by exists x.
Qed.

Lemma count_range t q : 0 <= countb (in_state q) (sequences t) <= Z.of_nat (length (sequences t)).
Proof. split; [apply countb_nonneg|apply countb_le_length]. Qed.

(** A sequence in state [q] is counted, so a decrement cannot wrap. *)
Lemma count_pos t i s q :
  sequences t !! i = Some s -> state s = q -> 1 <= countb (in_state q) (sequences t).
Proof. intros Hs Hq. eapply countb_ge_1; [exact Hs|]. by apply bool_decide_eq_true_2. Qed.

(** A sequence outside state [q] leaves room for an increment. *)
Lemma count_room t i s q :
  table_wf t -> sequences t !! i = Some s -> state s <> q ->
  countb (in_state q) (sequences t) < MAX_SEQUENCES.
Proof.
  intros Hwf Hs Hq. pose proof (tw_capacity t Hwf). pose proof (tw_length t Hwf).
  pose proof (count_range t q). assert (countb (in_state q) (sequences t) <> Z.of_nat (length (sequences t))); [|lia].
  intros Hfull. pose proof (countb_full _ _ Hfull i s Hs) as Hb. simpl in Hb.
  by apply bool_decide_eq_true in Hb.
Qed.

Lemma upd_nth_insert t i f s :
  sequences t !! Z.to_nat i = Some s ->
  upd_nth i f (sequences t) = <[Z.to_nat i := f s]> (sequences t).
Proof.
  intros Hs. apply list_eq. intros j. destruct (decide (j = Z.to_nat i)) as [->|Hne].
  - rewrite list_lookup_insert_eq by (by eapply lookup_lt_Some). by apply lookup_upd_nth_eq.
  - rewrite list_lookup_insert_ne by done. by apply lookup_upd_nth_ne.
Qed.

(** What a handle resolves to. *)
Definition resolves (t : BatchSequenceTable) (h : SequenceHandle) (s : BatchSequence) : Prop :=
  sequences t !! Z.to_nat (handle_index h) = Some s /\ generation s = handle_generation h.

Lemma resolve_handle_spec t h :
  table_wf t ->
  wp (resolve_handle h)
    (fun i t' => t' = t /\ i = handle_index h /\ exists s, resolves t h s)
    (fun e t' => e = NotFound /\ t' = t /\ forall s, ~ resolves t h s) t.
Proof.
  intros Hwf. unfold resolve_handle. wp_steps. unfold id. pose proof (handle_index_range h).
  pose proof (tw_length t Hwf). destruct (Z.leb_spec (sequence_capacity t) (handle_index h)).
  { wp_steps. split_and!; [done|done|]. intros s [Hs _]. apply lookup_lt_Some in Hs. lia. }
  destruct (lookup_Some_range (sequences t) (handle_index h)) as [s Hs]; [lia|]. wp_steps.
  destruct (Z.eqb_spec (generation s) (handle_generation h)); simpl; wp_steps.
  - split_and!; [done|done|]. by exists s.
  - split_and!; [done|done|]. intros s' [Hs' ?]. congruence.
Qed.

Ltac resolve_step Hwf :=
  eapply wp_mono; [by apply resolve_handle_spec| |intros ?? (->&->&?); by left];
  intros ?i ? (->&->&?s&?Hs&?Hg); wp_steps; unfold id.

Lemma live_below_water t i s :
  table_wf t -> sequences t !! i = Some s -> state s <> Free -> Z.of_nat i < free_high_water t.
Proof.
  intros Hwf Hs Hne. destruct (Z.lt_ge_cases (Z.of_nat i) (free_high_water t)) as [|Hge]; [done|].
  by apply (tw_fresh t Hwf i s Hs) in Hge.
Qed.

(** A sequence moved between the two live states. *)
Lemma wf_relabel t t' i s s' :
  table_wf t -> sequences t !! i = Some s -> replaced t t' i s' ->
  state s <> Free -> state s <> Complete -> state s' <> Free -> state s' <> Complete ->
  free_head t' = free_head t -> free_high_water t' = free_high_water t ->
  generation s' = generation s ->
  active_count t' = active_count t - b2z (in_state Active s) + b2z (in_state Active s') ->
  awaiting_tool_count t' =
    awaiting_tool_count t - b2z (in_state AwaitingTool s) + b2z (in_state AwaitingTool s') ->
  table_wf t'.
Proof.
  intros Hwf Hs Hrep H1 H2 H3 H4 Hfh Hhw Hg Ha Hw.
  pose proof (live_below_water t i s Hwf Hs H1).
  eapply (wf_replace t t' i s s'); rewrite ?Hhw, ?Hg; try done.
  - apply (tw_water t Hwf).
  - exact (tw_generation t Hwf i s Hs).
  - destruct (tw_free t Hwf) as [fl Hfl]. exists fl.
    eapply (free_list_replace t t'); [exact Hrep| |done|done|done].
    intros (x&Hx&?). congruence.
Qed.

Lemma begin_exchange_spec t h n :
  table_wf t ->
  wp (begin_exchange h n)
    (fun _ t' => exists s, resolves t h s /\ state s = AwaitingTool /\ table_wf t' /\
       replaced t t' (Z.to_nat (handle_index h)) (s <| state := Active |>
          <| exchange_number := exchange_number s +u32 1 |>
          <| context_tokens := context_tokens s +u32 n |>))
    (fun e t' => (e = NotFound /\ t' = t /\ forall s, ~ resolves t h s) \/
       (e = InvalidArgument /\ t' = t /\ exists s, resolves t h s /\ state s <> AwaitingTool)) t.
Proof.
  intros Hwf. unfold begin_exchange. wp_step. resolve_step Hwf.
  case_bool_decide as Hst; simpl; wp_steps.
  2:{ right. split_and!; [done|done|]. by exists s. }
  exists s. pose proof (count_pos t _ s AwaitingTool Hs Hst). pose proof (count_range t AwaitingTool).
  pose proof (count_room t _ s Active Hwf Hs ltac:(congruence)). pose proof (count_range t Active).
  pose proof (tw_length t Hwf). pose proof (tw_capacity t Hwf). unfold MAX_SEQUENCES in *.
  match goal with |- _ /\ _ /\ table_wf ?t1 /\ replaced _ _ ?k ?s1 => assert (replaced t t1 k s1) as Hrep end.
  { split_and!; [exact (upd_nth_insert t _ _ _ Hs)|done|done]. }
  split_and!; [done|done| |exact Hrep].
  apply (wf_relabel _ _ _ _ _ Hwf Hs Hrep); rewrite ?Hst; try done; simpl; rewrite ?Hst; simpl.
  - rewrite (tw_active t Hwf), u32_small by lia. lia.
  - rewrite (tw_awaiting t Hwf), u32_small by lia. lia.
Qed.

Lemma pause_for_tool_spec t h :
  table_wf t ->
  wp (pause_for_tool h)
    (fun _ t' => exists s, resolves t h s /\ state s = Active /\ table_wf t' /\
       replaced t t' (Z.to_nat (handle_index h)) (s <| state := AwaitingTool |>))
    (fun e t' => (e = NotFound /\ t' = t /\ forall s, ~ resolves t h s) \/
       (e = InvalidArgument /\ t' = t /\ exists s, resolves t h s /\ state s <> Active)) t.
Proof.
  intros Hwf. unfold pause_for_tool. wp_step. resolve_step Hwf.
  case_bool_decide as Hst; simpl; wp_steps.
  2:{ right. split_and!; [done|done|]. by exists s. }
  exists s. pose proof (count_pos t _ s Active Hs Hst). pose proof (count_range t AwaitingTool).
  pose proof (count_room t _ s AwaitingTool Hwf Hs ltac:(congruence)). pose proof (count_range t Active).
  pose proof (tw_length t Hwf). pose proof (tw_capacity t Hwf). unfold MAX_SEQUENCES in *.
  match goal with |- _ /\ _ /\ table_wf ?t1 /\ replaced _ _ ?k ?s1 => assert (replaced t t1 k s1) as Hrep end.
  { split_and!; [exact (upd_nth_insert t _ _ _ Hs)|done|done]. }
  split_and!; [done|done| |exact Hrep].
  apply (wf_relabel _ _ _ _ _ Hwf Hs Hrep); rewrite ?Hst; try done; simpl; rewrite ?Hst; simpl.
  - rewrite (tw_active t Hwf), u32_small by lia. lia.
  - rewrite (tw_awaiting t Hwf), u32_small by lia. lia.
Qed.

(** A live sequence completed: its slot goes to the head of the free list. *)
Lemma wf_recycle t t' i s s' :
  table_wf t -> sequences t !! i = Some s -> replaced t t' i s' ->
  state s <> Free -> state s <> Complete -> state s' = Complete ->
  free_next s' = free_head t -> free_head t' = Z.of_nat i ->
  free_high_water t' = free_high_water t -> 0 <= generation s' <= U32_MAX ->
  active_count t' = active_count t - b2z (in_state Active s) ->
  awaiting_tool_count t' = awaiting_tool_count t - b2z (in_state AwaitingTool s) ->
  table_wf t'.
Proof.
  intros Hwf Hs Hrep H1 H2 H3 Hfn Hfh Hhw Hg Ha Hw.
  pose proof (live_below_water t i s Hwf Hs H1). pose proof Hrep as (Hseq&_).
  assert (sequences t' !! i = Some s') as Hi'.
  { rewrite Hseq. apply list_lookup_insert_eq. by eapply lookup_lt_Some. }
  assert (forall j, j <> i -> sequences t' !! j = sequences t !! j) as Ho.
  { intros j Hj. rewrite Hseq. by apply list_lookup_insert_ne. }
  eapply (wf_replace t t' i s s'); rewrite ?Hhw; try done.
  - apply (tw_water t Hwf).
  - by rewrite H3.
  - rewrite H3. simpl in *. lia.
  - rewrite H3. simpl in *. lia.
  - destruct (tw_free t Hwf) as [fl Hfl]. exists (i :: fl). rewrite Hfh.
    eapply free_list_push; [exact Hfl| | | |].
    + intros (x&Hx&?). congruence.
    + rewrite Hi'. simpl. by rewrite Hfn.
    + intros j (x&Hx&Hc). rewrite Ho; [done|]. intros ->. congruence.
    + intros j. unfold recycled. destruct (decide (j = i)) as [->|Hne].
      * rewrite Hi'. split; [by right|]. intros _. by exists s'.
      * rewrite Ho by done. naive_solver.
Qed.

Lemma complete_spec t h :
  table_wf t ->
  wp (complete h)
    (fun _ t' => exists s, resolves t h s /\ (state s = Active \/ state s = AwaitingTool) /\
       table_wf t' /\
       replaced t t' (Z.to_nat (handle_index h)) (s <| state := Complete |>
          <| generation := generation s +u32 1 |> <| free_next := free_head t |>))
    (fun e t' => (e = NotFound /\ t' = t /\ forall s, ~ resolves t h s) \/
       (e = InvalidArgument /\ t' = t /\ exists s, resolves t h s /\
          state s <> Active /\ state s <> AwaitingTool)) t.
Proof.
  intros Hwf. unfold complete. wp_step. resolve_step Hwf.
  pose proof (handle_index_range h). pose proof (u32_range (generation s + 1)).
  pose proof (tw_length t Hwf). pose proof (tw_capacity t Hwf). unfold MAX_SEQUENCES in *.
  destruct (decide (state s = Active)) as [Hst|Hst].
  - pose proof (count_pos t _ s Active Hs Hst). pose proof (count_range t Active).
    rewrite (bool_decide_eq_true_2 _ Hst). simpl. wp_steps. exists s.
    match goal with |- _ /\ _ /\ table_wf ?t1 /\ replaced _ _ ?k ?s1 => assert (replaced t t1 k s1) as Hrep end.
    { split_and!; [exact (upd_nth_insert t _ _ _ Hs)|done|done]. }
    split_and!; [done|by left| |exact Hrep].
    apply (wf_recycle _ _ _ _ _ Hwf Hs Hrep); rewrite ?Hst; try done; simpl; rewrite ?Hst; simpl; [lia| |lia].
    rewrite (tw_active t Hwf), u32_small by lia. lia.
  - rewrite (bool_decide_eq_false_2 _ Hst). simpl.
    destruct (decide (state s = AwaitingTool)) as [Hw|Hw].
    2:{ rewrite (bool_decide_eq_false_2 _ Hw). simpl. wp_steps. right. split_and!; [done|done|]. by exists s. }
    pose proof (count_pos t _ s AwaitingTool Hs Hw). pose proof (count_range t AwaitingTool).
    rewrite (bool_decide_eq_true_2 _ Hw). simpl. wp_steps. exists s.
    match goal with |- _ /\ _ /\ table_wf ?t1 /\ replaced _ _ ?k ?s1 => assert (replaced t t1 k s1) as Hrep end.
    { split_and!; [exact (upd_nth_insert t _ _ _ Hs)|done|done]. }
    split_and!; [done|by right| |exact Hrep].
    apply (wf_recycle _ _ _ _ _ Hwf Hs Hrep); rewrite ?Hw; try done; simpl; rewrite ?Hw; simpl; [lia|lia|].
    rewrite (tw_awaiting t Hwf), u32_small by lia. lia.
Qed.

(** A slot handed out: the head of the free list, or the slot at the high-water
    mark when the list is empty. *)
Lemma wf_admit t t' i s s' :
  table_wf t -> sequences t !! i = Some s -> replaced t t' i s' ->
  state s' = Active -> generation s' = generation s -> active_count t' = active_count t + 1 ->
  awaiting_tool_count t' = awaiting_tool_count t ->
  (free_head t = Z.of_nat i /\ free_head t <> FREE_HEAD_NONE /\ free_head t' = free_next s /\
     free_high_water t' = free_high_water t) \/
  (free_head t = FREE_HEAD_NONE /\ free_head t' = free_head t /\ free_high_water t = Z.of_nat i /\
     free_high_water t' = free_high_water t + 1) ->
  table_wf t' /\ state s <> Active /\ state s <> AwaitingTool.
Proof.
  intros Hwf Hs Hrep Hst Hg Ha Hw Hcase. pose proof Hrep as (Hseq&_).
  assert (sequences t' !! i = Some s') as Hi'.
  { rewrite Hseq. apply list_lookup_insert_eq. by eapply lookup_lt_Some. }
  assert (forall j, j <> i -> sequences t' !! j = sequences t !! j) as Ho.
  { intros j Hj. rewrite Hseq. by apply list_lookup_insert_ne. }
  pose proof (tw_water t Hwf). pose proof (tw_length t Hwf). pose proof (lookup_lt_Some _ _ _ Hs).
  destruct (tw_free t Hwf) as [fl Hfl].
  destruct Hcase as [(Hhd&Hne&Hfh&Hhw)|(Hhd&Hfh&Hhw&Hhw')].
  - destruct (free_list_head _ _ _ _ _ Hfl Hne) as (k&nx&fl'&Hk&(x&Hx&Hxc)&Hnx&->).
    assert (k = i) as -> by lia. assert (x = s) as -> by congruence. clear Hx.
    assert (state s <> Active /\ state s <> AwaitingTool) as [HnA HnW] by (rewrite Hxc; done).
    split; [|done]. pose proof (live_below_water t i s Hwf Hs ltac:(congruence)).
    rewrite Hs in Hnx. simplify_eq/=.
    eapply (wf_replace t t' i s s'); rewrite ?Hhw, ?Hg; try done.
    + by rewrite Hst.
    + rewrite !bool_decide_eq_false_2, bool_decide_eq_true_2 by done. simpl. lia.
    + rewrite !bool_decide_eq_false_2 by (rewrite ?Hst; done). simpl. lia.
    + exact (tw_generation t Hwf i s Hs).
    + exists fl'. rewrite Hfh. eapply free_list_pop; [exact Hfl|cbn beta; by rewrite Hs| |].
      * intros j _ Hj. by rewrite Ho.
      * intros j. unfold recycled. destruct (decide (j = i)) as [->|Hji].
        { rewrite Hi'. split; [intros (?&[= <-]&?); congruence|tauto]. }
        rewrite Ho by done. tauto.
  - assert (state s = Free) as Hfree by (apply (tw_fresh t Hwf i s Hs); lia).
    split; [|by rewrite Hfree].
    eapply (wf_replace t t' i s s'); rewrite ?Hhw', ?Hg; try done.
    + lia.
    + by rewrite Hst.
    + lia.
    + lia.
    + rewrite Hfree, Hst. simpl. lia.
    + rewrite Hfree, Hst. simpl. lia.
    + exact (tw_generation t Hwf i s Hs).
    + exists fl. eapply (free_list_replace t t'); [exact Hrep| |by rewrite Hst|done|done].
      intros (x&Hx&?). congruence.
Qed.

(** [admit] in full: which slot, which handle, and when it fails. *)
Lemma admit_sequence_spec t id_ ctx base cnt :
  table_wf t ->
  wp (admit_sequence id_ ctx base cnt)
    (fun h t' => cnt <> 0 /\ exists i s, sequences t !! i = Some s /\
       state s <> Active /\ state s <> AwaitingTool /\
       h = make_handle (Z.of_nat i) (generation s) /\ table_wf t' /\
       replaced t t' i (mkBatchSequence id_ Active (lane_count t) 0 ctx base cnt (free_next s) (generation s)))
    (fun e t' => t' = t /\ (e = InvalidArgument /\ cnt = 0 \/
       e = CapacityExceeded /\ cnt <> 0 /\
       forall i s, sequences t !! i = Some s -> state s = Active \/ state s = AwaitingTool)) t.
Proof.
  intros Hwf. unfold admit_sequence, take_slot. destruct (Z.eqb_spec cnt 0) as [->|Hcnt].
  { wp_steps. split; [done|]. by left. }
  pose proof (tw_length t Hwf) as Hlen. pose proof (tw_capacity t Hwf) as Hcap.
  pose proof (tw_water t Hwf) as Hwater. unfold MAX_SEQUENCES in *.
  destruct (tw_free t Hwf) as [fl Hfl]. wp_steps. unfold id.
  assert (forall i s, sequences t !! i = Some s -> state s <> Active ->
    u32 (active_count t + 1) = active_count t + 1) as Hcount.
  { intros i s Hs Hne. pose proof (count_room t i s Active Hwf Hs Hne).
    pose proof (count_range t Active). unfold MAX_SEQUENCES in *. rewrite (tw_active t Hwf), u32_small; lia. }
  destruct (Z.eqb_spec (free_head t) FREE_HEAD_NONE) as [Hnone|Hsome]; simpl.
  - destruct (Z.ltb_spec (free_high_water t) (sequence_capacity t)).
    + destruct (lookup_Some_range (sequences t) (free_high_water t)) as [s Hs]; [lia|].
      assert (state s = Free) as Hfree by (apply (tw_fresh t Hwf _ s Hs); lia).
      wp_steps. simpl. wp_steps. split; [done|]. exists (Z.to_nat (free_high_water t)), s.
      rewrite Z2Nat.id by lia.
      match goal with |- _ /\ _ /\ _ /\ _ /\ table_wf ?t1 /\ replaced _ _ ?k ?s1 => assert (replaced t t1 k s1) as Hrep end.
      { split_and!; [exact (upd_nth_insert t _ _ _ Hs)|done|done]. }
      split_and!; [done|by rewrite Hfree|by rewrite Hfree|done| |exact Hrep].
      eapply (wf_admit _ _ _ _ _ Hwf Hs Hrep); try done.
      * simpl. eapply Hcount; [exact Hs|by rewrite Hfree].
      * right. simpl. rewrite Z2Nat.id, u32_small by lia. done.
    + wp_steps. split; [done|]. right. split_and!; [done|done|]. intros i s Hs.
      assert (state s <> Free) as Hnf.
      { intros Hf. apply (tw_fresh t Hwf i s Hs) in Hf. apply lookup_lt_Some in Hs. lia. }
      destruct (state s) eqn:Hst; [done|by left|by right|].
      exfalso. eapply (free_list_head_ne _ _ _ _ _ i Hfl); [by exists s| |done].
      intros j (x&Hx&_). apply lookup_lt_Some in Hx. unfold FREE_HEAD_NONE. lia.
  - destruct (free_list_head _ _ _ _ _ Hfl Hsome) as (i&nx&fl'&Hi&(s&Hs&Hsc)&Hnx&_).
    assert (sequences t !! Z.to_nat (free_head t) = Some s) as Hs' by (by rewrite Hi, Nat2Z.id).
    wp_steps. simpl. wp_steps. split; [done|]. exists i, s. rewrite Hi at 1.
    match goal with |- _ /\ _ /\ _ /\ _ /\ table_wf ?t1 /\ replaced _ _ ?k ?s1 => assert (replaced t t1 k s1) as Hrep end.
    { split_and!; [|done|done]. etransitivity; [exact (upd_nth_insert t _ _ _ Hs')|].
      rewrite Hi, Nat2Z.id. done. }
    split_and!; [done|by rewrite Hsc|by rewrite Hsc|done| |exact Hrep].
    eapply (wf_admit _ _ _ _ _ Hwf Hs Hrep); try done.
    + simpl. eapply Hcount; [exact Hs|by rewrite Hsc].
    + left. simpl. done.
Qed.

Lemma new_table_spec c :
  0 <= cfg_sequence_capacity c ->
  wp (new c)
    (fun t _ => table_wf t /\ lane_count t = cfg_lane_count c /\
       sequence_capacity t = cfg_sequence_capacity c /\
       (forall i s, sequences t !! i = Some s -> s = default_sequence))
    (fun e _ => e = InvalidArgument) tt.
Proof.
  intros Hc. unfold new. destruct (_ || _ || _ || _) eqn:Hg; [by wp_steps|].
  apply orb_false_iff in Hg as [Hg _]. apply orb_false_iff in Hg as [Hg Hmax].
  apply orb_false_iff in Hg as [_ Hz]. wp_steps.
  apply Z.ltb_ge in Hmax. apply Z.eqb_neq in Hz.
  set (n := Z.to_nat (cfg_sequence_capacity c)).
  assert (forall i s, replicate n default_sequence !! i = Some s -> s = default_sequence) as Hd.
  { intros i s Hs. by apply lookup_replicate in Hs as [-> _]. }
  split_and!; [|done|done|done]. split; simpl; fold n.
  - lia.
  - rewrite length_replicate. lia.
  - lia.
  - intros i s Hs. rewrite (Hd i s Hs). simpl. split; [lia|done].
  - exists []. split; [done|constructor|]. intros i. split; [by intros ?%elem_of_nil|].
    intros (s&Hs&Hst). simpl in Hs. by rewrite (Hd i s Hs) in Hst.
  - symmetry. apply countb_0. intros i s Hs. by rewrite (Hd i s Hs).
  - symmetry. apply countb_0. intros i s Hs. by rewrite (Hd i s Hs).
  - intros i s Hs. rewrite (Hd i s Hs). simpl. lia.
Qed.

(** ** Calls on the table *)

Inductive call :=
| CallAdmit (id_ ctx base cnt : Z)
| CallBegin (h : SequenceHandle) (n : Z)
| CallPause (h : SequenceHandle)
| CallComplete (h : SequenceHandle).

Definition run (c : call) : M BatchSequenceTable BatchSequenceError (option SequenceHandle) :=
  match c with
  | CallAdmit id_ ctx base cnt => let! h := admit_sequence id_ ctx base cnt in ret (Some h)
  | CallBegin h n => do! begin_exchange h n in ret None
  | CallPause h => do! pause_for_tool h in ret None
  | CallComplete h => do! complete h in ret None
  end.

(** One call, whatever it returns. *)
Definition table_step (t t' : BatchSequenceTable) : Prop :=
  exists c, (exists r, run c t = Ret r t') \/ (exists e, run c t = Fails e t').

(** How a call changes the table: not at all, or one slot, whose generation is kept
    or incremented. *)
Lemma run_spec t c :
  table_wf t ->
  wp (run c)
    (fun _ t' => table_wf t' /\ exists i s s', sequences t !! i = Some s /\ replaced t t' i s' /\
       (generation s' = generation s \/ generation s' = generation s +u32 1))
    (fun _ t' => t' = t) t.
Proof.
  intros Hwf. destruct c as [id_ ctx base cnt|h n|h|h]; simpl; wp_step.
  - eapply wp_mono; [by apply admit_sequence_spec| |intros ?? [-> _]; done].
    intros h t' (_&i&s&Hs&_&_&_&Hwf'&Hrep). wp_steps. split; [done|]. eexists _, _, _.
    split_and!; [exact Hs|exact Hrep|by left].
  - eapply wp_mono; [by apply begin_exchange_spec| |naive_solver].
    intros u t' (s&[Hs _]&_&Hwf'&Hrep). wp_steps. split; [done|]. eexists _, _, _.
    split_and!; [exact Hs|exact Hrep|by left].
  - eapply wp_mono; [by apply pause_for_tool_spec| |naive_solver].
    intros u t' (s&[Hs _]&_&Hwf'&Hrep). wp_steps. split; [done|]. eexists _, _, _.
    split_and!; [exact Hs|exact Hrep|by left].
  - eapply wp_mono; [by apply complete_spec| |naive_solver].
    intros u t' (s&[Hs _]&_&Hwf'&Hrep). wp_steps. split; [done|]. eexists _, _, _.
    split_and!; [exact Hs|exact Hrep|by right].
Qed.

Lemma table_step_spec t t' :
  table_wf t -> table_step t t' ->
  table_wf t' /\ sequence_capacity t' = sequence_capacity t /\
  forall i s, sequences t !! i = Some s -> exists s', sequences t' !! i = Some s' /\
    (generation s' = generation s \/ generation s' = generation s +u32 1).
Proof.
  intros Hwf [c Hstep]. pose proof (run_spec t c Hwf) as Hw. unfold wp in Hw.
  destruct Hstep as [[r Hr]|[e He]].
  - rewrite Hr in Hw. destruct Hw as (Hwf'&k&s&s'&Hs&(Hseq&Hcap&_)&Hg).
    split_and!; [done|done|]. intros i x Hx. rewrite Hseq. destruct (decide (i = k)) as [->|Hne].
    + simplify_eq. exists s'. rewrite list_lookup_insert_eq by (by eapply lookup_lt_Some). done.
    + exists x. rewrite list_lookup_insert_ne by done. split; [done|by left].
  - rewrite He in Hw. subst t'. split_and!; [done|done|]. intros i s Hs. exists s. split; [done|by left].
Qed.

(** After [k] calls a slot's generation has advanced by at most [k]. *)
Lemma generation_drift k t t' i s :
  table_wf t -> nsteps table_step k t t' -> sequences t !! i = Some s ->
  table_wf t' /\ sequence_capacity t' = sequence_capacity t /\ exists s' m, sequences t' !! i = Some s' /\
    0 <= m <= Z.of_nat k /\ generation s' = u32 (generation s + m).
Proof.
  intros Hwf Hn. revert s Hwf. induction Hn as [t|k t u t' Hst Hn IH]; intros s Hwf Hs.
  - split_and!; [done|done|]. exists s, 0. split_and!; [done|lia|lia|].
    rewrite Z.add_0_r, u32_small; [done|]. exact (tw_generation t Hwf i s Hs).
  - destruct (table_step_spec t u Hwf Hst) as (Hwf'&Hcap&Hg). destruct (Hg i s Hs) as (s1&Hs1&Hg1).
    destruct (IH s1 Hwf' Hs1) as (Hwf2&Hcap2&s2&m&Hs2&Hm&Hg2).
    split_and!; [done|congruence|]. destruct Hg1 as [Hg1|Hg1].
    + exists s2, m. rewrite Hg2, Hg1. split_and!; [done|lia|lia|done].
    + exists s2, (m + 1). rewrite Hg2, Hg1. split_and!; [done|lia|lia|].
      unfold u32. rewrite Zplus_mod_idemp_l. f_equal. lia.
Qed.

(** ** The abstract population

    What the table promises to its users: a partial map from the handles it has
    handed out to the live sequences, whatever slots they occupy. *)

Record Live := mkLive {
  lv_id : Z; lv_paused : bool; lv_exchange : Z; lv_context : Z; lv_base : Z; lv_count : Z;
}.

Definition population : Type := SequenceHandle -> option Live.

Definition pop_set (h : SequenceHandle) (o : option Live) (p : population) : population :=
  fun k => if k =? h then o else p k.

(** Equality on the handles a caller can hold. *)
Definition pop_eq (p q : population) : Prop := forall h, 0 <= h <= U32_MAX -> p h = q h.

(** Every slot is taken by some live handle. *)
Definition pop_full (n : Z) (p : population) : Prop :=
  forall i, 0 <= i < n -> exists h l, 0 <= h <= U32_MAX /\ handle_index h = i /\ p h = Some l.

Inductive spec_step (n : Z) (p : population) : call ->
  (option SequenceHandle + BatchSequenceError) -> population -> Prop :=
| spec_admit id_ ctx base cnt h q : cnt <> 0 -> 0 <= h <= U32_MAX -> p h = None ->
    pop_eq q (pop_set h (Some (mkLive id_ false 0 ctx base cnt)) p) ->
    spec_step n p (CallAdmit id_ ctx base cnt) (inl (Some h)) q
| spec_admit_invalid id_ ctx base :
    spec_step n p (CallAdmit id_ ctx base 0) (inr InvalidArgument) p
| spec_admit_full id_ ctx base cnt : cnt <> 0 -> pop_full n p ->
    spec_step n p (CallAdmit id_ ctx base cnt) (inr CapacityExceeded) p
| spec_begin h k l q : p h = Some l -> lv_paused l = true ->
    pop_eq q (pop_set h (Some (mkLive (lv_id l) false (lv_exchange l +u32 1)
      (lv_context l +u32 k) (lv_base l) (lv_count l))) p) ->
    spec_step n p (CallBegin h k) (inl None) q
| spec_pause h l q : p h = Some l -> lv_paused l = false ->
    pop_eq q (pop_set h (Some (mkLive (lv_id l) true (lv_exchange l) (lv_context l)
      (lv_base l) (lv_count l))) p) ->
    spec_step n p (CallPause h) (inl None) q
| spec_complete h l q : p h = Some l -> pop_eq q (pop_set h None p) ->
    spec_step n p (CallComplete h) (inl None) q
| spec_begin_refused h k e : (forall l, p h = Some l -> lv_paused l = false /\ e = InvalidArgument) ->
    e <> CapacityExceeded -> spec_step n p (CallBegin h k) (inr e) p
| spec_pause_refused h e : (forall l, p h = Some l -> lv_paused l = true /\ e = InvalidArgument) ->
    e <> CapacityExceeded -> spec_step n p (CallPause h) (inr e) p
| spec_complete_refused h e : p h = None -> e <> CapacityExceeded ->
    spec_step n p (CallComplete h) (inr e) p.

Definition live_of (s : BatchSequence) : option Live :=
  let l paused := mkLive (sequence_id s) paused (exchange_number s) (context_tokens s)
                    (fragment_base s) (fragment_count s) in
  match state s with
  | Active => Some (l false)
  | AwaitingTool => Some (l true)
  | Free | Complete => None
  end.

(** The population a table represents. *)
Definition view (t : BatchSequenceTable) : population := fun h =>
  match sequences t !! Z.to_nat (handle_index h) with
  | Some s => if generation s =? handle_generation h then live_of s else None
  | None => None
  end.

Lemma view_resolves t h s : resolves t h s -> view t h = live_of s.
Proof. intros [Hs Hg]. unfold view. by rewrite Hs, Hg, Z.eqb_refl. Qed.

Lemma view_None t h : (forall s, ~ resolves t h s) -> view t h = None.
Proof.
  intros Hn. unfold view. destruct (sequences t !! _) as [s|] eqn:Hs; [|done].
  destruct (Z.eqb_spec (generation s) (handle_generation h)); [|done]. by destruct (Hn s).
Qed.

(** Replacing the slot of [h] changes the population at [h] only, when nothing else
    was or becomes visible through that slot. *)
Lemma view_replaced t t' h s s' :
  0 <= h <= U32_MAX -> sequences t !! Z.to_nat (handle_index h) = Some s ->
  replaced t t' (Z.to_nat (handle_index h)) s' ->
  live_of s = None \/ generation s = handle_generation h ->
  live_of s' = None \/ generation s' = handle_generation h ->
  pop_eq (view t') (pop_set h (live_of s') (view t)).
Proof.
  intros Hh Hs (Hseq&_) Hold Hnew k Hk. unfold view, pop_set. rewrite Hseq.
  destruct (decide (handle_index k = handle_index h)) as [Hi|Hi].
  - rewrite Hi, Hs. rewrite list_lookup_insert_eq by (by eapply lookup_lt_Some).
    destruct (Z.eqb_spec k h) as [->|Hne].
    + destruct (Z.eqb_spec (generation s') (handle_generation h)) as [|Hg]; [done|].
      destruct Hnew as [->|]; done.
    + assert (handle_generation k <> handle_generation h) as Hg.
      { intros Hg. apply Hne. by apply handle_inj. }
      destruct (Z.eqb_spec (generation s') (handle_generation k)),
        (Z.eqb_spec (generation s) (handle_generation k)); naive_solver congruence.
  - destruct (Z.eqb_spec k h) as [->|_]; [done|].
    pose proof (handle_index_range k). pose proof (handle_index_range h).
    rewrite list_lookup_insert_ne by lia. done.
Qed.

(** ** Refinement *)

(** Generations still fit the bits a handle has for them. *)
Definition small_generations (t : BatchSequenceTable) : Prop :=
  forall i s, sequences t !! i = Some s -> generation s < 2 ^ 18.

Definition handle_of_call (c : call) : option SequenceHandle :=
  match c with CallAdmit _ _ _ _ => None | CallBegin h _ | CallPause h | CallComplete h => Some h end.

(** The call is on a [u32] handle. *)
Definition call_ok (c : call) : Prop :=
  forall h, handle_of_call c = Some h -> 0 <= h <= U32_MAX.

Lemma refused_cases t h (P : BatchSequence -> Prop) e :
  (e = NotFound /\ forall s, ~ resolves t h s) \/
  (e = InvalidArgument /\ exists s, resolves t h s /\ P s) ->
  e <> CapacityExceeded /\
  ((e = NotFound /\ view t h = None) \/
   (e = InvalidArgument /\ exists s, resolves t h s /\ view t h = live_of s /\ P s)).
Proof.
  intros [[-> Hn]|[-> (s&Hs&HP)]].
  - split; [done|]. left. split; [done|by apply view_None].
  - split; [done|]. right. split; [done|]. exists s. split_and!; [done|by apply view_resolves|done].
Qed.

Lemma admit_refines t id_ ctx base cnt :
  table_wf t -> small_generations t ->
  wp (run (CallAdmit id_ ctx base cnt))
    (fun r t' => spec_step (sequence_capacity t) (view t) (CallAdmit id_ ctx base cnt) (inl r) (view t'))
    (fun e t' => spec_step (sequence_capacity t) (view t) (CallAdmit id_ ctx base cnt) (inr e) (view t')) t.
Proof.
  intros Hwf Hsm. unfold run. wp_step. pose proof (tw_capacity t Hwf). pose proof (tw_length t Hwf).
  unfold MAX_SEQUENCES in *. eapply wp_mono; [by apply admit_sequence_spec| |].
  - intros h t' (Hcnt&i&s&Hs&Hna&Hnw&Hh&Hwf'&Hrep). wp_steps.
    pose proof (lookup_lt_Some _ _ _ Hs). pose proof (tw_generation t Hwf i s Hs).
    destruct (make_handle_parts (Z.of_nat i) (generation s)) as (_&Hi&Hg&Hr); [lia|lia|].
    rewrite <- Hh in *. rewrite (Z.mod_small (generation s)) in Hg by (pose proof (Hsm i s Hs); lia).
    assert (Z.to_nat (handle_index h) = i) as Hix by lia.
    assert (live_of s = None) as Hdead by (unfold live_of; by destruct (state s)).
    econstructor; [done|lia| |].
    + unfold view. rewrite Hix, Hs. by destruct (_ =? _).
    + rewrite <- Hix in Hs, Hrep.
      apply (view_replaced t t' h s _ Hr Hs Hrep); [by left|by right].
  - intros e t' [-> [[-> ->]|(->&Hcnt&Hall)]]; [constructor|].
    constructor; [done|]. intros i Hi. destruct (lookup_Some_range (sequences t) i) as [s Hs]; [lia|].
    pose proof (tw_generation t Hwf _ s Hs).
    destruct (make_handle_parts i (generation s)) as (_&Hix&Hg&Hr); [lia|lia|].
    rewrite (Z.mod_small (generation s)) in Hg by (pose proof (Hsm _ s Hs); lia).
    exists (make_handle i (generation s)).
    assert (view t (make_handle i (generation s)) = live_of s) as Hv.
    { apply view_resolves. split; [by rewrite Hix|done]. }
    destruct (Hall _ s Hs) as [Hst|Hst]; eexists; (split_and!; [lia|lia|exact Hix|]);
      rewrite Hv; unfold live_of; by rewrite Hst.
Qed.

Lemma begin_refines n t h k :
  table_wf t -> 0 <= h <= U32_MAX ->
  wp (run (CallBegin h k))
    (fun r t' => spec_step n (view t) (CallBegin h k) (inl r) (view t'))
    (fun e t' => spec_step n (view t) (CallBegin h k) (inr e) (view t')) t.
Proof.
  intros Hwf Hh. unfold run. wp_step. eapply wp_mono; [by apply begin_exchange_spec| |].
  - intros u t' (s&[Hs Hg]&Hst&_&Hrep). wp_steps.
    assert (view t h = live_of s) as Hv by (apply view_resolves; done).
    eapply spec_begin; [rewrite Hv; unfold live_of; by rewrite Hst|done|].
    apply (view_replaced t t' h s _ Hh Hs Hrep); by right.
  - intros e t' He. assert (t' = t) as -> by naive_solver.
    destruct (refused_cases t h (fun s => state s <> AwaitingTool) e) as [Hne Hc]; [naive_solver|].
    constructor; [|done]. intros l Hl. destruct Hc as [[_ Hv]|(->&s&_&Hv&Hst)]; [congruence|].
    split; [|done]. rewrite Hl in Hv. unfold live_of in Hv. destruct (state s); by simplify_eq.
Qed.

Lemma pause_refines n t h :
  table_wf t -> 0 <= h <= U32_MAX ->
  wp (run (CallPause h))
    (fun r t' => spec_step n (view t) (CallPause h) (inl r) (view t'))
    (fun e t' => spec_step n (view t) (CallPause h) (inr e) (view t')) t.
Proof.
  intros Hwf Hh. unfold run. wp_step. eapply wp_mono; [by apply pause_for_tool_spec| |].
  - intros u t' (s&[Hs Hg]&Hst&_&Hrep). wp_steps.
    assert (view t h = live_of s) as Hv by (apply view_resolves; done).
    eapply spec_pause; [rewrite Hv; unfold live_of; by rewrite Hst|done|].
    apply (view_replaced t t' h s _ Hh Hs Hrep); by right.
  - intros e t' He. assert (t' = t) as -> by naive_solver.
    destruct (refused_cases t h (fun s => state s <> Active) e) as [Hne Hc]; [naive_solver|].
    constructor; [|done]. intros l Hl. destruct Hc as [[_ Hv]|(->&s&_&Hv&Hst)]; [congruence|].
    split; [|done]. rewrite Hl in Hv. unfold live_of in Hv. destruct (state s); by simplify_eq.
Qed.

Lemma complete_refines n t h :
  table_wf t -> 0 <= h <= U32_MAX ->
  wp (run (CallComplete h))
    (fun r t' => spec_step n (view t) (CallComplete h) (inl r) (view t'))
    (fun e t' => spec_step n (view t) (CallComplete h) (inr e) (view t')) t.
Proof.
  intros Hwf Hh. unfold run. wp_step. eapply wp_mono; [by apply complete_spec| |].
  - intros u t' (s&[Hs Hg]&Hst&_&Hrep). wp_steps.
    assert (view t h = live_of s) as Hv by (apply view_resolves; done).
    assert (exists l, view t h = Some l) as [l Hl].
    { rewrite Hv. unfold live_of. destruct Hst as [->| ->]; by eexists. }
    eapply spec_complete; [exact Hl|].
    apply (view_replaced t t' h s _ Hh Hs Hrep); [by right|by left].
  - intros e t' He. assert (t' = t) as -> by naive_solver.
    destruct (refused_cases t h (fun s => state s <> Active /\ state s <> AwaitingTool) e)
      as [Hne Hc]; [naive_solver|].
    constructor; [|done]. destruct Hc as [[_ Hv]|(->&s&_&Hv&Ha&Hw)]; [done|].
    rewrite Hv. unfold live_of. by destruct (state s).
Qed.

(** ** Properties *)

Lemma reachable_small c t0 k t :
  0 <= cfg_sequence_capacity c -> new c tt = Ret t0 tt -> nsteps table_step k t0 t ->
  (Z.of_nat k < 2 ^ 18 -> small_generations t) /\ table_wf t.
Proof.
  intros Hc Hnew Hn.
  pose proof (wp_ret_inv _ _ _ _ _ _ (new_table_spec c Hc) Hnew) as (Hwf0&_&Hcap0&Hdef).
  pose proof (tw_capacity t0 Hwf0) as Hcap. pose proof (tw_length t0 Hwf0) as Hlen.
  destruct (lookup_Some_range (sequences t0) 0) as [s0 Hs0]; [lia|].
  destruct (generation_drift k t0 t _ s0 Hwf0 Hn Hs0) as (Hwf&Hcapt&_).
  split; [|done]. intros Hk i s Hs.
  destruct (lookup_lt_is_Some_2 (sequences t0) i) as [si Hsi].
  { apply lookup_lt_Some in Hs. pose proof (tw_length t Hwf). lia. }
  destruct (generation_drift k t0 t i si Hwf0 Hn Hsi) as (_&_&s'&m&Hs'&Hm&Hg).
  simplify_eq. rewrite Hg, (Hdef i si Hsi). simpl. rewrite u32_small by lia. lia.
Qed.

(** C6. The table implements the abstract population of live handles: in every
    state reached from [new] in fewer than 2^18 calls, each call behaves as the
    specification says (admission yields a handle that was not live and only adds
    it; begin, pause and complete act on exactly the sequence the handle names;
    every refusal leaves the population unchanged; [CapacityExceeded] only when
    every slot is live). *)
Theorem batch_table_refines_population cfg t0 k t c :
  0 <= cfg_sequence_capacity cfg -> new cfg tt = Ret t0 tt -> nsteps table_step k t0 t ->
  Z.of_nat k < 2 ^ 18 -> call_ok c ->
  exists t',
    (exists r, run c t = Ret r t' /\ spec_step (sequence_capacity t) (view t) c (inl r) (view t')) \/
    (exists e, run c t = Fails e t' /\ spec_step (sequence_capacity t) (view t) c (inr e) (view t')).
Proof.
  intros Hc Hnew Hn Hk Hok. destruct (reachable_small _ _ _ _ Hc Hnew Hn) as [Hsm Hwf].
  specialize (Hsm Hk).
  assert (wp (run c) (fun r t' => spec_step (sequence_capacity t) (view t) c (inl r) (view t'))
    (fun e t' => spec_step (sequence_capacity t) (view t) c (inr e) (view t')) t) as Hw.
  { destruct c as [id_ ctx base cnt|h n|h|h].
    - by apply admit_refines.
    - apply begin_refines; [done|]. by apply Hok.
    - apply pause_refines; [done|]. by apply Hok.
    - apply complete_refines; [done|]. by apply Hok. }
  destruct (wp_elim _ _ _ _ Hw) as [(r&t'&Hr&Hs)|(e&t'&He&Hs)]; exists t'; [left|right]; eauto.
Qed.

Lemma batch_table_refines_population_witness :
  let t0 := mkTable 2 2 8 0 0 0 FREE_HEAD_NONE 0 0 [default_sequence; default_sequence] in
  exists t',
    (exists r, run (CallAdmit 7 100 0 4) t0 = Ret r t' /\
       spec_step 2 (view t0) (CallAdmit 7 100 0 4) (inl r) (view t')) \/
    (exists e, run (CallAdmit 7 100 0 4) t0 = Fails e t' /\
       spec_step 2 (view t0) (CallAdmit 7 100 0 4) (inr e) (view t')).
Proof.
  intros t0. apply (batch_table_refines_population (mkConfiguration 2 2 8) t0 0 t0 (CallAdmit 7 100 0 4)).
  - simpl; lia.
  - reflexivity.
  - constructor.
  - lia.
  - intros h Hh. discriminate.
Defined.

(** The counters are exact and the firing threshold stays in bounds: in every
    reachable table [active_count] and [awaiting_tool_count] are the numbers of
    sequences in those states, they never exceed the capacity together, and with
    a nonzero expert count and cap the threshold lies between 1 and the cap. *)
Theorem batch_table_counters_exact cfg t0 k t topk experts cap :
  0 <= cfg_sequence_capacity cfg -> new cfg tt = Ret t0 tt -> nsteps table_step k t0 t ->
  0 < experts -> 0 < cap ->
  active_count t = countb (in_state Active) (sequences t) /\
  awaiting_tool_count t = countb (in_state AwaitingTool) (sequences t) /\
  active_count t + awaiting_tool_count t <= sequence_capacity t /\
  1 <= firing_threshold t topk experts cap <= cap.
Proof.
  intros Hc Hnew Hn He Hcap. destruct (reachable_small _ _ _ _ Hc Hnew Hn) as [_ Hwf].
  split_and!; [apply (tw_active t Hwf)|apply (tw_awaiting t Hwf)| | |].
  - rewrite (tw_active t Hwf), (tw_awaiting t Hwf), <- (tw_length t Hwf).
    induction (sequences t) as [|s l IH]; simpl; [lia|]. destruct (state s); simpl; lia.
  - unfold firing_threshold. destruct (Z.eqb_spec experts 0); [lia|]. destruct (Z.eqb_spec cap 0); [lia|].
    simpl. pose proof (u32_range (u32 (active_count t * lane_count t) * topk)).
    pose proof (Z.div_pos (u32 (u32 (active_count t * lane_count t) * topk)) experts).
    destruct (Z.eqb_spec (u32 (u32 (active_count t * lane_count t) * topk) / experts) 0); lia.
  - unfold firing_threshold. destruct (Z.eqb_spec experts 0); [lia|]. destruct (Z.eqb_spec cap 0); [lia|].
    simpl. lia.
Qed.

Lemma batch_table_counters_exact_witness :
  exists t, nsteps table_step 1
      (mkTable 2 2 8 0 0 0 FREE_HEAD_NONE 0 0 [default_sequence; default_sequence]) t /\
    active_count t = countb (in_state Active) (sequences t) /\
    awaiting_tool_count t = countb (in_state AwaitingTool) (sequences t) /\
    active_count t + awaiting_tool_count t <= sequence_capacity t /\
    1 <= firing_threshold t 8 256 64 <= 64.
Proof.
  eexists. match goal with |- ?r /\ _ => assert r as Hr end.
  { eapply nsteps_l; [exists (CallAdmit 7 100 0 4); left; eexists; reflexivity|constructor]. }
  split; [exact Hr|].
  eapply (batch_table_counters_exact (mkConfiguration 2 2 8)); [|reflexivity|exact Hr|lia|lia]. simpl; lia.
Defined.

(** A completed handle is refused afterwards: once [complete h] has succeeded,
    [h] resolves to nothing in any state reached by fewer than 2^32 - 1 further
    calls, so no operation on it can touch the slot's next occupant. *)
Theorem batch_completed_handle_stale t h t1 k t2 :
  table_wf t -> complete h t = Ret tt t1 -> nsteps table_step k t1 t2 -> Z.of_nat k < U32_MAX ->
  sequence h t2 = Fails NotFound t2 /\ pause_for_tool h t2 = Fails NotFound t2 /\
  complete h t2 = Fails NotFound t2 /\ forall n, begin_exchange h n t2 = Fails NotFound t2.
Proof.
  intros Hwf Hc Hn Hk.
  pose proof (wp_ret_inv _ _ _ _ _ _ (complete_spec t h Hwf) Hc) as (s&[Hs Hg]&_&Hwf1&Hseq&_).
  assert (sequences t1 !! Z.to_nat (handle_index h) =
    Some (s <| state := Complete |> <| generation := generation s +u32 1 |> <| free_next := free_head t |>)) as Hs1.
  { rewrite Hseq. apply list_lookup_insert_eq. by eapply lookup_lt_Some. }
  destruct (generation_drift k t1 t2 _ _ Hwf1 Hn Hs1) as (Hwf2&_&s2&m&Hs2&Hm&Hg2). simpl in Hg2.
  assert (generation s2 <> handle_generation h) as Hne.
  { rewrite Hg2, <- Hg. pose proof (tw_generation t Hwf _ s Hs). unfold u32. rewrite Zplus_mod_idemp_l.
    intros Heq. destruct (Z.le_gt_cases (generation s + 1 + m) U32_MAX).
    - rewrite Z.mod_small in Heq by lia. lia.
    - replace (generation s + 1 + m) with (generation s + 1 + m - 4294967296 + 1 * 4294967296) in Heq by lia.
      rewrite Z.mod_add in Heq by lia. rewrite Z.mod_small in Heq by lia. lia. }
  assert (resolve_handle h t2 = Fails NotFound t2) as Hres.
  { destruct (wp_elim _ _ _ _ (resolve_handle_spec t2 h Hwf2)) as [(i&t'&_&_&_&x&Hx&Hxg)|(e&t'&->&->&->&_)];
      [congruence|done]. }
  unfold sequence, pause_for_tool, complete, begin_exchange, bind. by rewrite Hres.
Qed.

(** A one-slot table whose sequence has generation 5. *)
Definition one_live : BatchSequenceTable :=
  mkTable 2 1 8 1 0 5 FREE_HEAD_NONE 1 6
    [mkBatchSequence 7 Active 8 0 100 0 4 FREE_HEAD_NONE 5].

Lemma one_live_wf : table_wf one_live.
Proof.
  split; unfold MAX_SEQUENCES; simpl; try done.
  - intros [|i] s Hs; simplify_eq/=. split; [done|lia].
  - exists []. split; [done|constructor|]. intros i. split; [by intros ?%elem_of_nil|].
    intros (s&Hs&Hst). destruct i; simplify_eq/=.
  - intros [|i] s Hs; simplify_eq/=. lia.
Qed.

Lemma batch_completed_handle_stale_witness :
  exists t1 t2, complete (make_handle 0 5) one_live = Ret tt t1 /\
    run (CallAdmit 8 10 0 1) t1 = Ret (Some (make_handle 0 6)) t2 /\
    sequence (make_handle 0 5) t2 = Fails NotFound t2 /\ pause_for_tool (make_handle 0 5) t2 = Fails NotFound t2 /\
    complete (make_handle 0 5) t2 = Fails NotFound t2 /\
    forall n, begin_exchange (make_handle 0 5) n t2 = Fails NotFound t2.
Proof.
  eexists _, _. split; [reflexivity|]. split; [reflexivity|].
  eapply (batch_completed_handle_stale one_live _ _ 1); [apply one_live_wf|reflexivity| |lia].
  eapply nsteps_l; [|constructor]. exists (CallAdmit 8 10 0 1). left. eexists. reflexivity.
Defined.

(** A one-slot table after [k] sequences have been admitted and completed. *)
Definition cycled (k : Z) : BatchSequenceTable :=
  mkTable 2 1 8 0 0 (u32 k) 0 1 (u64 k) [mkBatchSequence 1 Complete 8 0 2 0 1 FREE_HEAD_NONE k].

(** The same table with the next sequence admitted. *)
Definition cycled_live (k : Z) : BatchSequenceTable :=
  mkTable 2 1 8 1 0 (u32 k) FREE_HEAD_NONE 1 (u64 (k + 1))
    [mkBatchSequence 1 Active 8 0 2 0 1 FREE_HEAD_NONE k].

Lemma cycled_admit k :
  run (CallAdmit 1 2 0 1) (cycled k) = Ret (Some (make_handle 0 k)) (cycled_live k).
Proof.
  unfold cycled_live. replace (u64 (k + 1)) with (u64 (u64 k + 1)); [reflexivity|].
  unfold u64. by rewrite Zplus_mod_idemp_l.
Qed.

Lemma cycled_resolve k :
  0 <= k ->
  resolve_handle (make_handle 0 k) (cycled_live k) =
    if k =? k mod 2 ^ 18 then Ret 0 (cycled_live k) else Fails NotFound (cycled_live k).
Proof.
  intros Hk. destruct (make_handle_parts 0 k) as (_&Hi&Hg&_); [lia|done|].
  unfold resolve_handle, bind, gets, index. rewrite Hi, Hg. simpl.
  by destruct (k =? k mod 2 ^ 18).
Qed.

Lemma cycled_complete k :
  0 <= k < 2 ^ 18 -> run (CallComplete (make_handle 0 k)) (cycled_live k) = Ret None (cycled (k + 1)).
Proof.
  intros Hk. unfold run, complete. unfold bind at 1 2. rewrite cycled_resolve by lia.
  rewrite (Z.mod_small k) by lia. rewrite Z.eqb_refl.
  unfold cycled, cycled_live. rewrite (u32_small k), (u32_small (k + 1)) by lia.
  unfold bind, gets, index, modify, upd_sequence; simpl. unfold set_field, upd_nth; simpl.
  by rewrite !(u32_small (k + 1)) by lia.
Qed.

Lemma cycled_reachable (n : nat) :
  Z.of_nat n < 2 ^ 18 ->
  rtc table_step (mkTable 2 1 8 0 0 0 FREE_HEAD_NONE 0 0 [default_sequence]) (cycled (Z.of_nat n + 1)).
Proof.
  induction n as [|n IH]; intros Hn.
  - eapply rtc_l; [exists (CallAdmit 1 2 0 1); left; eexists; reflexivity|].
    eapply rtc_l; [|apply rtc_refl]. exists (CallComplete (make_handle 0 0)). left. eexists. vm_compute. reflexivity.
  - etransitivity; [apply IH; lia|]. replace (Z.of_nat (S n)) with (Z.of_nat n + 1) by lia.
    eapply rtc_l; [exists (CallAdmit 1 2 0 1); left; eexists; apply cycled_admit|].
    eapply rtc_l; [|apply rtc_refl]. exists (CallComplete (make_handle 0 (Z.of_nat n + 1))). left.
    eexists. apply cycled_complete. lia.
Qed.

(** A slot is lost once it has been recycled 2^18 times: the slot's generation
    is a full [u32] but the handle carries 18 bits of it, so the handle [admit]
    returns then resolves to nothing.  The sequence can be neither paused nor
    completed, and a one-slot table refuses every further admission. *)
Theorem batch_handle_generation_truncated :
  exists t t' h, new (mkConfiguration 2 1 8) tt =
      Ret (mkTable 2 1 8 0 0 0 FREE_HEAD_NONE 0 0 [default_sequence]) tt /\
    rtc table_step (mkTable 2 1 8 0 0 0 FREE_HEAD_NONE 0 0 [default_sequence]) t /\
    admit_sequence 1 2 0 1 t = Ret h t' /\ active_count t' = 1 /\
    sequence h t' = Fails NotFound t' /\ complete h t' = Fails NotFound t' /\
    admit_sequence 1 2 0 1 t' = Fails CapacityExceeded t'.
Proof.
  assert (exists n, Z.of_nat n + 1 = 2 ^ 18) as [n Hn].
  { exists (Z.to_nat (2 ^ 18 - 1)). rewrite Z2Nat.id by lia. lia. }
  exists (cycled (2 ^ 18)), (cycled_live (2 ^ 18)), (make_handle 0 (2 ^ 18)).
  assert (resolve_handle (make_handle 0 (2 ^ 18)) (cycled_live (2 ^ 18)) =
    Fails NotFound (cycled_live (2 ^ 18))) as Hres by (rewrite cycled_resolve by lia; reflexivity).
  split_and!; [reflexivity| | |reflexivity| | |reflexivity].
  - rewrite <- Hn. apply cycled_reachable. lia.
  - pose proof (cycled_admit (2 ^ 18)) as Ha. unfold run, bind at 1 in Ha.
    destruct (admit_sequence 1 2 0 1 (cycled (2 ^ 18))) as [h t| | |]; [|done..].
    unfold ret in Ha. congruence.
  - unfold sequence, bind. by rewrite Hres.
  - unfold complete, bind. by rewrite Hres.
Qed.
