(* ===== verification/KvArena.v ===== *)
(** * The paged KV block arena ([crates/spark-core/src/kv_arena.rs])

    Physical blocks with an allocated flag, a reference count, a generation and an
    independent residency flag bounded by a capacity.  Modelled: the whole file.
    Proved: the arena invariant (residency accounting exact and within capacity,
    only allocated blocks resident or referenced) over every sequence of calls, the
    victim selection and the two trimming loops in full (termination included),
    that marking an allocated block resident always succeeds, and that a referenced
    block is never handed out again, recycled or freed. *)

From S2P Require Import Prelude.

Definition NO_BLOCK : Z := 0xffffffff.

Definition BLOCK_FLAG_ALLOCATED : Z := 1.

Definition BLOCK_FLAG_RESIDENT : Z := 2.

Definition MAX_BLOCK_TOKENS : Z := 256.

Definition MAX_LAYER_COUNT : Z := 256.

Inductive KvArenaError := InvalidArgument | CapacityExceeded | NotFound | Busy | Internal.

Record KvArenaConfig := mkKvArenaConfig {
  cfg_physical_block_count : Z;
  cfg_block_token_count : Z;
  cfg_resident_block_capacity : Z;
  cfg_layer_count : Z;
  cfg_kv_head_count : Z;
  cfg_head_dim : Z;
  cfg_bytes_per_scalar : Z;
  cfg_key_block_stride_bytes : Z;
  cfg_value_block_stride_bytes : Z;
  cfg_key_device_base : Z;
  cfg_value_device_base : Z;
}.

Record BlockView := mkBlockView {
  view_physical_block_index : Z;
  view_token_capacity : Z;
  view_layer_count : Z;
  view_kv_head_count : Z;
  view_head_dim : Z;
  view_bytes_per_scalar : Z;
  view_generation : Z;
  view_key_block_stride_bytes : Z;
  view_value_block_stride_bytes : Z;
  view_key_device_address : Z;
  view_value_device_address : Z;
}.

Record KvBlock := mkKvBlock {
  flags : Z;
  token_capacity : Z;
  block_reference_count : Z;
  block_generation : Z;
  block_last_used_epoch : Z;
  block_key_device_address : Z;
  block_value_device_address : Z;
}.

#[export] Instance KvBlock_eta : RecordEta KvBlock := fun b =>
  mkKvBlock (flags b) (token_capacity b) (block_reference_count b) (block_generation b)
    (block_last_used_epoch b) (block_key_device_address b) (block_value_device_address b).

Record KvArena := mkKvArena {
  physical_block_count : Z;
  block_token_count : Z;
  resident_block_capacity : Z;
  layer_count : Z;
  kv_head_count : Z;
  head_dim : Z;
  bytes_per_scalar : Z;
  key_block_stride_bytes : Z;
  value_block_stride_bytes : Z;
  key_device_base : Z;
  value_device_base : Z;
  blocks : list KvBlock;
  epoch : Z;
  allocated_block_count : Z;
  recycled_block_count : Z;
  resident_block_count : Z;
  resident_evicted_block_count : Z;
  resident_capacity_stall_count : Z;
  retained_block_count : Z;
  released_reference_count : Z;
}.

#[export] Instance KvArena_eta : RecordEta KvArena := fun a =>
  mkKvArena (physical_block_count a) (block_token_count a) (resident_block_capacity a)
    (layer_count a) (kv_head_count a) (head_dim a) (bytes_per_scalar a)
    (key_block_stride_bytes a) (value_block_stride_bytes a) (key_device_base a)
    (value_device_base a) (blocks a) (epoch a) (allocated_block_count a)
    (recycled_block_count a) (resident_block_count a) (resident_evicted_block_count a)
    (resident_capacity_stall_count a) (retained_block_count a) (released_reference_count a).

Abbreviation KM := (M KvArena KvArenaError).

Definition allocated (b : KvBlock) : bool := has_flag (flags b) BLOCK_FLAG_ALLOCATED.

Definition resident (b : KvBlock) : bool := has_flag (flags b) BLOCK_FLAG_RESIDENT.

(** [SparkKvProtectedBlockListContainsBlock] *)
Definition protected_block_list_contains (protected : list Z) (i : Z) : bool :=
  bool_decide (i ∈ protected).

Definition has_value_payload (a : KvArena) : bool :=
  negb (value_device_base a =? 0) || negb (value_block_stride_bytes a =? 0).

Definition make_block (a : KvArena) (i : Z) : KvBlock :=
  let key_device_address := key_device_base a +u64 (key_block_stride_bytes a *u64 i) in
  let value_device_address :=
    if has_value_payload a then value_device_base a +u64 (value_block_stride_bytes a *u64 i) else 0 in
  mkKvBlock 0 (block_token_count a) 0 0 0 key_device_address value_device_address.

Definition new (c : KvArenaConfig) : M unit KvArenaError KvArena :=
  if (cfg_physical_block_count c =? 0)
     || (cfg_block_token_count c =? 0)
     || (MAX_BLOCK_TOKENS <? cfg_block_token_count c)
     || (cfg_physical_block_count c <? cfg_resident_block_capacity c)
     || (cfg_layer_count c =? 0)
     || (MAX_LAYER_COUNT <? cfg_layer_count c)
     || (cfg_kv_head_count c =? 0)
     || (cfg_head_dim c =? 0)
     || (cfg_bytes_per_scalar c =? 0)
     || (cfg_key_device_base c =? 0)
     || ((cfg_value_device_base c =? 0) && negb (cfg_value_block_stride_bytes c =? 0))
  then throw InvalidArgument
  else
    let default_stride_bytes :=
      cfg_block_token_count c *u64 cfg_layer_count c *u64 cfg_kv_head_count c
        *u64 cfg_head_dim c *u64 cfg_bytes_per_scalar c in
    let payload :=
      negb (cfg_value_device_base c =? 0) || negb (cfg_value_block_stride_bytes c =? 0) in
    let capacity :=
      if negb (cfg_resident_block_capacity c =? 0) then cfg_resident_block_capacity c
      else cfg_physical_block_count c in
    let key_stride :=
      if negb (cfg_key_block_stride_bytes c =? 0) then cfg_key_block_stride_bytes c
      else default_stride_bytes in
    let value_stride :=
      if payload then
        if negb (cfg_value_block_stride_bytes c =? 0) then cfg_value_block_stride_bytes c
        else default_stride_bytes
      else 0 in
    let value_base := if payload then cfg_value_device_base c else 0 in
    let arena := mkKvArena (cfg_physical_block_count c) (cfg_block_token_count c) capacity
      (cfg_layer_count c) (cfg_kv_head_count c) (cfg_head_dim c) (cfg_bytes_per_scalar c)
      key_stride value_stride (cfg_key_device_base c) value_base [] 0 0 0 0 0 0 0 0 in
    ret (arena <| blocks := make_block arena <$> range 0 (physical_block_count arena) |>).

(** [self.block(i)] *)
Definition block (a : KvArena) (i : Z) : option KvBlock := blocks a !! Z.to_nat i.

(** [let block = &mut self.blocks[i]; block.f = ..] *)
Definition upd_block (i : Z) (f : KvBlock -> KvBlock) : KM unit :=
  modify (fun a => a <| blocks := upd_nth i f (blocks a) |>).

Definition bump_epoch : KM unit := modify (fun a => a <| epoch := epoch a +u64 1 |>).

(** [self.block(i).ok_or(InvalidArgument)?] *)
Definition get_block (i : Z) : KM KvBlock :=
  let! a := gets id in
  match block a i with Some b => ret b | None => throw InvalidArgument end.

Definition acquire_block : KM Z :=
  let! a := gets id in
  let! found := for_return (range 0 (physical_block_count a)) (fun i =>
    let! b := index (blocks a) i in
    if negb (allocated b) then
      do! bump_epoch in
      let! e := gets epoch in
      do! upd_block i (fun b => b <| flags := BLOCK_FLAG_ALLOCATED |>
            <| block_reference_count := 0 |>
            <| block_generation := block_generation b +u64 1 |>
            <| block_last_used_epoch := e |>) in
      do! modify (fun a => a <| allocated_block_count := allocated_block_count a +u64 1 |>) in
      ret (Some i)
    else ret None) in
  match found with Some i => ret i | None => throw CapacityExceeded end.

Definition recycle_block (i : Z) : KM unit :=
  let! b := get_block i in
  if negb (allocated b) then throw InvalidArgument
  else if negb (block_reference_count b =? 0) then throw Busy
  else
    do! bump_epoch in
    let! a := gets id in
    when! resident b && negb (resident_block_count a =? 0) then
      modify (fun a => a <| resident_block_count := resident_block_count a -u64 1 |>) in
    do! upd_block i (fun b => b <| flags := BLOCK_FLAG_ALLOCATED |>
          <| block_generation := block_generation b +u64 1 |>
          <| block_last_used_epoch := epoch a |>) in
    modify (fun a => a <| recycled_block_count := recycled_block_count a +u64 1 |>).

Definition retain_block (i : Z) : KM unit :=
  let! b := get_block i in
  if negb (allocated b) then throw InvalidArgument
  else
    do! bump_epoch in
    let! e := gets epoch in
    do! upd_block i (fun b => b <| block_reference_count := block_reference_count b +u32 1 |>
          <| block_last_used_epoch := e |>) in
    modify (fun a => a <| retained_block_count := retained_block_count a +u64 1 |>).

Definition release_block_reference (i : Z) : KM unit :=
  let! b := get_block i in
  if negb (allocated b) || (block_reference_count b =? 0) then throw InvalidArgument
  else
    do! bump_epoch in
    let! e := gets epoch in
    do! upd_block i (fun b => b <| block_reference_count := block_reference_count b -u32 1 |>
          <| block_last_used_epoch := e |>) in
    modify (fun a => a <| released_reference_count := released_reference_count a +u64 1 |>).

Definition mark_block_nonresident (i : Z) : KM unit :=
  let! b := get_block i in
  if negb (allocated b) then throw InvalidArgument
  else
    do! bump_epoch in
    let! a := gets id in
    when! resident b then
      do! upd_block i (fun b => b <| flags := Z.land (flags b) (u32_not BLOCK_FLAG_RESIDENT) |>) in
      if negb (resident_block_count a =? 0)
      then modify (fun a => a <| resident_block_count := resident_block_count a -u64 1 |>)
      else ret tt in
    upd_block i (fun b => b <| block_last_used_epoch := epoch a |>).

Definition free_block (i : Z) : KM unit :=
  let! b := get_block i in
  if negb (allocated b) then ret tt
  else if negb (block_reference_count b =? 0) then throw Busy
  else
    do! bump_epoch in
    let! a := gets id in
    when! resident b && negb (resident_block_count a =? 0) then
      modify (fun a => a <| resident_block_count := resident_block_count a -u64 1 |>) in
    upd_block i (fun b => b <| flags := 0 |>
      <| block_generation := block_generation b +u64 1 |>
      <| block_last_used_epoch := epoch a |>).

Definition resolve_block (i : Z) : KM BlockView :=
  let! b := get_block i in
  if negb (allocated b) then throw NotFound
  else
    let! a := gets id in
    ret (mkBlockView i (block_token_count a) (layer_count a) (kv_head_count a) (head_dim a)
           (bytes_per_scalar a) (block_generation b) (key_block_stride_bytes a)
           (value_block_stride_bytes a) (block_key_device_address b) (block_value_device_address b)).

(** [(a.reference_count, a.last_used_epoch) < (b.reference_count, b.last_used_epoch)] *)
Definition colder (b c : KvBlock) : bool :=
  (block_reference_count b <? block_reference_count c)
  || ((block_reference_count b =? block_reference_count c)
      && (block_last_used_epoch b <? block_last_used_epoch c)).

Definition select_resident_eviction_victim (protected : list Z) : KM (option Z) :=
  let! a := gets id in
  for_fold (range 0 (physical_block_count a)) (fun i victim =>
    let! b := index (blocks a) i in
    if negb (allocated b) || negb (resident b) || protected_block_list_contains protected i
    then ret victim
    else
      let! better :=
        match victim with
        | None => ret true
        | Some current =>
            let! c := index (blocks a) current in
            ret (colder b c)
        end in
      if better then ret (Some i) else ret victim) None.

Definition evict_resident_block (i : Z) : KM unit :=
  do! bump_epoch in
  let! a := gets id in
  let! _b := index (blocks a) i in
  do! upd_block i (fun b => b <| flags := Z.land (flags b) (u32_not BLOCK_FLAG_RESIDENT) |>) in
  when! negb (resident_block_count a =? 0) then
    modify (fun a => a <| resident_block_count := resident_block_count a -u64 1 |>) in
  do! upd_block i (fun b => b <| block_last_used_epoch := epoch a |>) in
  modify (fun a => a <| resident_evicted_block_count := resident_evicted_block_count a +u64 1 |>).

(** The two eviction loops.  Every round lowers [resident_block_count], so that
    many rounds (and the final test) are enough. *)
Definition trim_resident_blocks_inner (protected : list Z) (target : Z) : KM Z :=
  let! a := gets id in
  loop (S (Z.to_nat (resident_block_count a))) (fun evicted =>
    let! a := gets id in
    if resident_block_count a <=? target then ret (Break evicted)
    else
      let! victim := select_resident_eviction_victim protected in
      match victim with
      | None =>
          do! modify (fun a => a <| resident_capacity_stall_count :=
                resident_capacity_stall_count a +u64 1 |>) in
          throw CapacityExceeded
      | Some v => do! evict_resident_block v in ret (Continue (evicted +u32 1))
      end) 0.

Definition trim_resident_blocks (protected : list Z) (target : Z) : KM Z :=
  let! a := gets id in
  if resident_block_capacity a <? target then throw InvalidArgument
  else trim_resident_blocks_inner protected target.

Definition evict_resident_blocks_to_limit (limit : Z) (protected : list Z) : KM Z :=
  let! a := gets id in
  loop (S (Z.to_nat (resident_block_count a))) (fun evicted =>
    let! a := gets id in
    if resident_block_count a <=? limit then ret (Break evicted)
    else
      let! victim := select_resident_eviction_victim protected in
      match victim with
      | None => ret (Break evicted)
      | Some v =>
          do! mark_block_nonresident v in
          do! modify (fun a => a <| resident_evicted_block_count :=
                resident_evicted_block_count a +u64 1 |>) in
          ret (Continue (evicted +u32 1))
      end) 0.

Definition make_room_for_resident_blocks (protected : list Z) (n : Z) : KM unit :=
  let! a := gets id in
  if resident_block_capacity a <? n then
    do! modify (fun a => a <| resident_capacity_stall_count :=
          resident_capacity_stall_count a +u64 1 |>) in
    throw CapacityExceeded
  else if (resident_block_count a +u64 n) <=? resident_block_capacity a then ret tt
  else
    let target := resident_block_capacity a -u32 n in
    let! _n := trim_resident_blocks_inner protected target in
    ret tt.

Definition mark_block_resident (i : Z) : KM unit :=
  let! b := get_block i in
  if negb (allocated b) then throw InvalidArgument
  else
    when! negb (resident b) then
      (do! make_room_for_resident_blocks [i] 1 in
       modify (fun a => a <| resident_block_count := resident_block_count a +u64 1 |>)) in
    do! bump_epoch in
    let! e := gets epoch in
    upd_block i (fun b => b <| flags := Z.lor (flags b) BLOCK_FLAG_RESIDENT |>
      <| block_last_used_epoch := e |>).

Definition reset : KM unit :=
  let! n := gets physical_block_count in
  do! for_fold (range 0 n) (fun i _ =>
        let! a := gets id in
        let b := make_block a i in
        let! _old := index (blocks a) i in
        upd_block i (fun _ => b)) tt in
  modify (fun a => a <| epoch := 0 |> <| allocated_block_count := 0 |>
    <| recycled_block_count := 0 |> <| resident_block_count := 0 |>
    <| retained_block_count := 0 |> <| released_reference_count := 0 |>).

(** The read accessors, [false] or [0] out of range. *)
Definition is_allocated (a : KvArena) (i : Z) : bool :=
  match block a i with Some b => allocated b | None => false end.

Definition is_resident (a : KvArena) (i : Z) : bool :=
  match block a i with Some b => resident b | None => false end.

Definition reference_count (a : KvArena) (i : Z) : Z :=
  match block a i with Some b => block_reference_count b | None => 0 end.

Definition block_token_capacity (a : KvArena) (i : Z) : Z :=
  match block a i with Some b => token_capacity b | None => 0 end.

Definition generation (a : KvArena) (i : Z) : Z :=
  match block a i with Some b => block_generation b | None => 0 end.

Definition key_device_address (a : KvArena) (i : Z) : Z :=
  match block a i with Some b => block_key_device_address b | None => 0 end.

Definition value_device_address (a : KvArena) (i : Z) : Z :=
  match block a i with Some b => block_value_device_address b | None => 0 end.

Definition last_used_epoch (a : KvArena) (i : Z) : Z :=
  match block a i with Some b => block_last_used_epoch b | None => 0 end.

(** ** Invariant *)

Record block_ok (b : KvBlock) : Prop := {
  bo_flags : flags b = 0 \/ flags b = 1 \/ flags b = 3;
  bo_refs : 0 <= block_reference_count b <= U32_MAX;
  bo_free : allocated b = false -> block_reference_count b = 0;
}.

Record kv_wf (a : KvArena) : Prop := {
  kw_length : Z.of_nat (length (blocks a)) = physical_block_count a;
  kw_count : 0 < physical_block_count a <= U32_MAX;
  kw_capacity : 1 <= resident_block_capacity a <= physical_block_count a;
  kw_blocks : Forall block_ok (blocks a);
  kw_resident : resident_block_count a = countb resident (blocks a);
  kw_within : resident_block_count a <= resident_block_capacity a;
}.

(** ** One block changed *)

(** The fields no operation changes. *)
Definition geometry (a : KvArena) :=
  (physical_block_count a, block_token_count a, resident_block_capacity a,
   (layer_count a, kv_head_count a, head_dim a, bytes_per_scalar a),
   (key_block_stride_bytes a, value_block_stride_bytes a, key_device_base a, value_device_base a)).

(** [a'] is [a] with block [i] changed from [b] to [b'] and residency recounted. *)
Record touched (a a' : KvArena) (i : Z) (b b' : KvBlock) : Prop := {
  to_lookup : blocks a !! Z.to_nat i = Some b;
  to_blocks : blocks a' = <[Z.to_nat i := b']> (blocks a);
  to_geometry : geometry a' = geometry a;
  to_resident : resident_block_count a' = resident_block_count a - b2z (resident b) + b2z (resident b');
}.

Lemma geometry_fields a a' :
  geometry a' = geometry a ->
  physical_block_count a' = physical_block_count a /\
  resident_block_capacity a' = resident_block_capacity a /\ block_token_count a' = block_token_count a.
Proof. unfold geometry. by intros [= -> -> -> _ _ _ _ _ _ _ _]. Qed.

Lemma touched_wf a a' i b b' :
  kv_wf a -> touched a a' i b b' -> block_ok b' ->
  resident_block_count a' <= resident_block_capacity a -> kv_wf a'.
Proof.
  intros [H1 H2 H3 H4 H5 H6] [Hl Hb Hg Hr] Hok Hcap.
  destruct (geometry_fields _ _ Hg) as (Hp&Hc&_).
  split; rewrite ?Hb, ?Hp, ?Hc, ?length_insert; try done.
  - apply Forall_insert; done.
  - rewrite (countb_insert _ _ _ b) by done. lia.
Qed.

Lemma resident_bounds a :
  kv_wf a -> 0 <= resident_block_count a <= U32_MAX.
Proof.
  intros [H1 H2 H3 H4 H5 H6]. pose proof (countb_nonneg resident (blocks a)). lia.
Qed.

Lemma resident_pos a i b :
  kv_wf a -> blocks a !! i = Some b -> resident b = true -> 1 <= resident_block_count a.
Proof. intros Hwf Hb Hr. rewrite (kw_resident a Hwf). by eapply countb_ge_1. Qed.

Lemma block_ok_lookup a i b : kv_wf a -> blocks a !! i = Some b -> block_ok b.
Proof. intros Hwf Hb. exact (Forall_lookup_1 _ _ _ _ (kw_blocks a Hwf) Hb). Qed.

(** Flag words a block can have, and what the updates do to them. *)
Lemma resident_allocated b : block_ok b -> resident b = true -> allocated b = true.
Proof. intros [Hf _ _]. unfold resident, allocated. destruct Hf as [->|[->| ->]]; done. Qed.

Lemma clear_resident_ok b :
  block_ok b ->
  let b' := b <| flags := Z.land (flags b) (u32_not BLOCK_FLAG_RESIDENT) |> in
  block_ok b' /\ resident b' = false /\ allocated b' = allocated b.
Proof.
  intros [Hf Hr Ha]. unfold resident, allocated in *. simpl.
  destruct Hf as [Hf|[Hf|Hf]]; rewrite Hf in *; (split_and!; [split; simpl; auto|done|done]).
Qed.

Lemma set_resident_ok b :
  block_ok b -> allocated b = true ->
  let b' := b <| flags := Z.lor (flags b) BLOCK_FLAG_RESIDENT |> in
  block_ok b' /\ resident b' = true /\ allocated b' = true.
Proof.
  intros [Hf Hr Ha] Hal. unfold resident, allocated in *. simpl.
  destruct Hf as [Hf|[Hf|Hf]]; rewrite Hf in *; [done| |]; (split_and!; [split; simpl; auto|done|done]).
Qed.

Lemma upd_block_insert a i f b :
  blocks a !! Z.to_nat i = Some b -> upd_nth i f (blocks a) = <[Z.to_nat i := f b]> (blocks a).
Proof.
  intros Hb. apply list_eq. intros j. destruct (decide (j = Z.to_nat i)) as [->|Hne].
  - rewrite list_lookup_insert_eq by (by eapply lookup_lt_Some). by apply lookup_upd_nth_eq.
  - rewrite list_lookup_insert_ne by done. by apply lookup_upd_nth_ne.
Qed.

(** ** Single-block operations *)

Lemma get_block_spec a i :
  wp (get_block i)
    (fun b a' => a' = a /\ blocks a !! Z.to_nat i = Some b)
    (fun e a' => e = InvalidArgument /\ a' = a /\ blocks a !! Z.to_nat i = None) a.
Proof.
  unfold get_block, block. wp_steps. unfold id.
  destruct (blocks a !! Z.to_nat i) as [b|] eqn:Hb; wp_steps; done.
Qed.

(** A block that is out of range or free. *)
Definition unusable (a : KvArena) (i : Z) : Prop :=
  forall b, blocks a !! Z.to_nat i = Some b -> allocated b = false.

Lemma retain_block_spec a i :
  kv_wf a ->
  wp (retain_block i)
    (fun _ a' => exists b b', allocated b = true /\ touched a a' i b b' /\ kv_wf a' /\
       flags b' = flags b /\ block_generation b' = block_generation b /\
       block_reference_count b' = block_reference_count b +u32 1)
    (fun e a' => e = InvalidArgument /\ a' = a /\ unusable a i) a.
Proof.
  intros Hwf. unfold retain_block, bump_epoch, upd_block. wp_step. eapply wp_mono; [apply get_block_spec| |].
  2:{ intros e a0 (->&->&Hn). split_and!; [done|done|]. intros b Hb. congruence. }
  intros b a0 (->&Hb). destruct (allocated b) eqn:Hal; simpl.
  2:{ wp_steps. split_and!; [done|done|]. intros ??. congruence. }
  wp_steps. exists b, (b <| block_reference_count := block_reference_count b +u32 1 |>
    <| block_last_used_epoch := epoch a +u64 1 |>).
  pose proof (block_ok_lookup a _ b Hwf Hb) as [Hf Hr Ha].
  match goal with |- _ /\ touched _ ?a1 _ _ ?b1 /\ _ => assert (touched a a1 i b b1) as Ht end.
  { split; [done|exact (upd_block_insert a _ _ _ Hb)|done|].
    change (resident_block_count a = resident_block_count a - b2z (resident b) + b2z (resident b)). lia. }
  split_and!; [done|exact Ht| |done|done|done].
  apply (touched_wf _ _ _ _ _ Hwf Ht); [|apply (kw_within a Hwf)].
  split; simpl; [done|apply u32_range|]. unfold allocated in *. simpl. congruence.
Qed.

Lemma release_block_reference_spec a i :
  kv_wf a ->
  wp (release_block_reference i)
    (fun _ a' => exists b b', allocated b = true /\ 0 < block_reference_count b /\
       touched a a' i b b' /\ kv_wf a' /\
       flags b' = flags b /\ block_generation b' = block_generation b /\
       block_reference_count b' = block_reference_count b - 1)
    (fun e a' => e = InvalidArgument /\ a' = a /\
       (forall b, blocks a !! Z.to_nat i = Some b -> block_reference_count b = 0)) a.
Proof.
  intros Hwf. unfold release_block_reference, bump_epoch, upd_block. wp_step. eapply wp_mono; [apply get_block_spec| |].
  2:{ intros e a0 (->&->&Hn). split_and!; [done|done|]. intros b Hb. congruence. }
  intros b a0 (->&Hb). pose proof (block_ok_lookup a _ b Hwf Hb) as [Hf Hr Ha].
  destruct (allocated b) eqn:Hal; simpl.
  2:{ wp_steps. split_and!; [done|done|]. intros ??. simplify_eq. auto. }
  destruct (Z.eqb_spec (block_reference_count b) 0) as [Hz|Hz].
  { wp_steps. split_and!; [done|done|]. intros ??. by simplify_eq. }
  wp_steps. exists b, (b <| block_reference_count := block_reference_count b -u32 1 |>
    <| block_last_used_epoch := epoch a +u64 1 |>).
  match goal with |- _ /\ _ /\ touched _ ?a1 _ _ ?b1 /\ _ => assert (touched a a1 i b b1) as Ht end.
  { split; [done|exact (upd_block_insert a _ _ _ Hb)|done|].
    change (resident_block_count a = resident_block_count a - b2z (resident b) + b2z (resident b)). lia. }
  split_and!; [done|lia|exact Ht| |done|done|simpl; rewrite u32_small by lia; done].
  apply (touched_wf _ _ _ _ _ Hwf Ht); [|apply (kw_within a Hwf)].
  split; simpl; [done|apply u32_range|]. unfold allocated in *. simpl. congruence.
Qed.

(** The residency count after a block stops being resident. *)
Lemma drop_resident a i b :
  kv_wf a -> blocks a !! i = Some b ->
  (if resident b && negb (resident_block_count a =? 0)
   then resident_block_count a -u64 1 else resident_block_count a) =
  resident_block_count a - b2z (resident b).
Proof.
  intros Hwf Hb. pose proof (resident_bounds a Hwf). destruct (resident b) eqn:Hr; simpl; [|lia].
  pose proof (resident_pos a i b Hwf Hb Hr). destruct (Z.eqb_spec (resident_block_count a) 0); [lia|].
  simpl. rewrite u64_small; lia.
Qed.

Lemma recycle_block_spec a i :
  kv_wf a ->
  wp (recycle_block i)
    (fun _ a' => exists b b', allocated b = true /\ block_reference_count b = 0 /\
       touched a a' i b b' /\ kv_wf a' /\ flags b' = BLOCK_FLAG_ALLOCATED /\
       block_reference_count b' = 0 /\ block_generation b' = block_generation b +u64 1)
    (fun e a' => a' = a /\ (e = InvalidArgument /\ unusable a i \/
       e = Busy /\ exists b, blocks a !! Z.to_nat i = Some b /\ block_reference_count b <> 0)) a.
Proof.
  intros Hwf. unfold recycle_block, bump_epoch, upd_block. wp_step. eapply wp_mono; [apply get_block_spec| |].
  2:{ intros e a0 (->&->&Hn). split_and!; [done|]. left. split; [done|]. intros b Hb. congruence. }
  intros b a0 (->&Hb). destruct (allocated b) eqn:Hal; simpl.
  2:{ wp_steps. split_and!; [done|]. left. split; [done|]. intros ??. congruence. }
  destruct (Z.eqb_spec (block_reference_count b) 0) as [Hz|Hz]; simpl.
  2:{ wp_steps. split; [done|]. right. split; [done|]. by exists b. }
  pose proof (drop_resident a _ b Hwf Hb) as Hdrop.
  wp_steps. unfold id. simpl.
  set (b' := b <| flags := BLOCK_FLAG_ALLOCATED |>
    <| block_generation := block_generation b +u64 1 |> <| block_last_used_epoch := epoch a +u64 1 |>).
  assert (block_ok b') as Hok by (split; simpl; [auto|lia|done]).
  assert (resident b' = false) as Hres by done.
  destruct (resident b && negb (resident_block_count a =? 0)) eqn:Hcase; wp_steps; exists b, b'.
  all: match goal with |- _ /\ _ /\ touched _ ?a1 _ _ _ /\ _ => assert (touched a a1 i b b') as Ht end.
  all: try (split; [done|exact (upd_block_insert a _ _ _ Hb)|done|]; rewrite Hres; simpl; rewrite <- Hdrop; lia).
  all: split_and!; [done|done|exact Ht| |done|done|done].
  all: apply (touched_wf _ _ _ _ _ Hwf Ht Hok); pose proof (kw_within a Hwf); rewrite (to_resident _ _ _ _ _ Ht), Hres;
    destruct (resident b); simpl; lia.
Qed.

Lemma free_block_spec a i :
  kv_wf a ->
  wp (free_block i)
    (fun _ a' => (a' = a /\ exists b, blocks a !! Z.to_nat i = Some b /\ allocated b = false) \/
       exists b b', allocated b = true /\ block_reference_count b = 0 /\
       touched a a' i b b' /\ kv_wf a' /\ flags b' = 0 /\
       block_reference_count b' = 0 /\ block_generation b' = block_generation b +u64 1)
    (fun e a' => a' = a /\ (e = InvalidArgument /\ blocks a !! Z.to_nat i = None \/
       e = Busy /\ exists b, blocks a !! Z.to_nat i = Some b /\ block_reference_count b <> 0)) a.
Proof.
  intros Hwf. unfold free_block, bump_epoch, upd_block. wp_step. eapply wp_mono; [apply get_block_spec| |].
  2:{ intros e a0 (->&->&Hn). split_and!; [done|]. left. done. }
  intros b a0 (->&Hb). destruct (allocated b) eqn:Hal; simpl.
  2:{ wp_steps. left. split; [done|]. by exists b. }
  destruct (Z.eqb_spec (block_reference_count b) 0) as [Hz|Hz]; simpl.
  2:{ wp_steps. split; [done|]. right. split; [done|]. by exists b. }
  pose proof (drop_resident a _ b Hwf Hb) as Hdrop.
  wp_steps. unfold id. simpl.
  set (b' := b <| flags := 0 |>
    <| block_generation := block_generation b +u64 1 |> <| block_last_used_epoch := epoch a +u64 1 |>).
  assert (block_ok b') as Hok by (split; simpl; [auto|lia|done]).
  assert (resident b' = false) as Hres by done.
  destruct (resident b && negb (resident_block_count a =? 0)) eqn:Hcase; unfold upd_block; wp_steps; right; exists b, b'.
  all: match goal with |- _ /\ _ /\ touched _ ?a1 _ _ _ /\ _ => assert (touched a a1 i b b') as Ht end.
  all: try (split; [done|exact (upd_block_insert a _ _ _ Hb)|done|]; rewrite Hres; simpl; rewrite <- Hdrop; lia).
  all: split_and!; [done|done|exact Ht| |done|done|done].
  all: apply (touched_wf _ _ _ _ _ Hwf Ht Hok); pose proof (kw_within a Hwf); rewrite (to_resident _ _ _ _ _ Ht), Hres;
    destruct (resident b); simpl; lia.
Qed.

(** [acquire_block] hands out the lowest free block. *)
Lemma acquire_block_spec a :
  kv_wf a ->
  wp acquire_block
    (fun i a' => 0 <= i < physical_block_count a /\ exists b b', allocated b = false /\
       touched a a' i b b' /\ kv_wf a' /\
       flags b' = BLOCK_FLAG_ALLOCATED /\ block_reference_count b' = 0 /\
       block_generation b' = block_generation b +u64 1 /\
       (forall j c, (j < Z.to_nat i)%nat -> blocks a !! j = Some c -> allocated c = true))
    (fun e a' => e = CapacityExceeded /\ a' = a /\ Forall (fun b => allocated b = true) (blocks a)) a.
Proof.
  intros Hwf. unfold acquire_block, bump_epoch, upd_block. wp_steps. unfold id.
  pose proof (kw_length a Hwf) as Hlen.
  apply (wp_for_return (fun pre s => s = a /\
    forall j c, (j < length pre)%nat -> blocks a !! j = Some c -> allocated c = true)).
  - split; [done|]. simpl. lia.
  - intros pre i post s Hsplit [-> Hall]. apply range_split in Hsplit as [-> Hi].
    rewrite length_range, Z.sub_0_r in Hall.
    destruct (lookup_Some_range (blocks a) i) as [b Hb]; [lia|]. wp_steps.
    destruct (allocated b) eqn:Hal; simpl; wp_steps.
    + split; [done|]. intros j c Hj Hc. rewrite length_app, length_range in Hj. simpl in Hj.
      destruct (decide (j = Z.to_nat i)) as [->|]; [congruence|]. apply (Hall j); [lia|done].
    + split; [done|]. pose proof (block_ok_lookup a _ b Hwf Hb) as [Hf Hr Ha]. simpl.
      exists b, (b <| flags := BLOCK_FLAG_ALLOCATED |> <| block_reference_count := 0 |>
        <| block_generation := block_generation b +u64 1 |> <| block_last_used_epoch := epoch a +u64 1 |>).
      match goal with |- _ /\ touched _ ?a1 _ _ ?b1 /\ _ => assert (touched a a1 i b b1) as Ht end.
      { split; [done|exact (upd_block_insert a _ _ _ Hb)|done|].
        assert (resident b = false) as ->.
        { unfold resident, allocated in *. destruct Hf as [->|[Hf|Hf]]; [done|by rewrite Hf in Hal..]. }
        simpl. lia. }
      split_and!; [done|exact Ht| |done|done|done|done].
      apply (touched_wf _ _ _ _ _ Hwf Ht); [|apply (kw_within a Hwf)].
      split; simpl; [auto|lia|done].
  - intros s [-> Hall]. wp_steps. split_and!; [done|done|]. apply Forall_lookup. intros j c Hc.
    apply (Hall j); [|done]. rewrite length_range. apply lookup_lt_Some in Hc. lia.
Qed.

Lemma mark_block_nonresident_spec a i :
  kv_wf a ->
  wp (mark_block_nonresident i)
    (fun _ a' => exists b b', allocated b = true /\ touched a a' i b b' /\ kv_wf a' /\
       resident b' = false /\ allocated b' = true /\
       block_reference_count b' = block_reference_count b /\
       block_generation b' = block_generation b /\ token_capacity b' = token_capacity b /\
       resident_capacity_stall_count a' = resident_capacity_stall_count a)
    (fun e a' => e = InvalidArgument /\ a' = a /\ unusable a i) a.
Proof.
  intros Hwf. unfold mark_block_nonresident, bump_epoch, upd_block. wp_step.
  eapply wp_mono; [apply get_block_spec| |].
  2:{ intros e a0 (->&->&Hn). split_and!; [done|done|]. intros b Hb. congruence. }
  intros b a0 (->&Hb). destruct (allocated b) eqn:Hal; simpl.
  2:{ wp_steps. split_and!; [done|done|]. intros ??. congruence. }
  pose proof (block_ok_lookup a _ b Hwf Hb) as Hok. pose proof (resident_bounds a Hwf) as Hrb.
  wp_steps. unfold id. simpl. destruct (resident b) eqn:Hres.
  - pose proof (resident_pos a _ b Hwf Hb Hres). destruct (clear_resident_ok b Hok) as ([Hf Hr Ha]&Hrf&Haf).
    wp_steps. destruct (Z.eqb_spec (resident_block_count a) 0); [lia|]. simpl. wp_steps. simpl.
    set (b1 := b <| flags := Z.land (flags b) (u32_not BLOCK_FLAG_RESIDENT) |>) in *.
    exists b, (b1 <| block_last_used_epoch := epoch a +u64 1 |>).
    match goal with |- _ /\ touched _ ?a1 _ _ ?b2 /\ _ => assert (touched a a1 i b b2) as Ht end.
    { split; [done| |done|].
      - cbn [blocks]. simpl. rewrite (upd_block_insert a i _ b Hb). fold b1.
        assert (<[Z.to_nat i:=b1]> (blocks a) !! Z.to_nat i = Some b1) as Hb1
          by (apply list_lookup_insert_eq; by eapply lookup_lt_Some).
        pose proof (upd_block_insert (a <| blocks := <[Z.to_nat i:=b1]> (blocks a) |>) i
          (fun b => b <| block_last_used_epoch := epoch a +u64 1 |>) b1 Hb1) as Hu.
        etransitivity; [exact Hu|]. simpl. by rewrite list_insert_insert_eq.
      - change (resident (b1 <| block_last_used_epoch := epoch a +u64 1 |>)) with (resident b1).
        rewrite Hrf, Hres. simpl. rewrite u64_small by lia. lia. }
    split_and!; [done|exact Ht| |exact Hrf|etransitivity; [exact Haf|exact Hal]|done|done|done|done].
    apply (touched_wf _ _ _ _ _ Hwf Ht); [split; [exact Hf|exact Hr|exact Ha]|].
    simpl. rewrite u64_small by lia. pose proof (kw_within a Hwf). lia.
  - wp_steps. simpl. exists b, (b <| block_last_used_epoch := epoch a +u64 1 |>). destruct Hok as [Hf Hr Ha].
    match goal with |- _ /\ touched _ ?a1 _ _ ?b2 /\ _ => assert (touched a a1 i b b2) as Ht end.
    { split; [done|exact (upd_block_insert a _ _ _ Hb)|done|].
      change (resident_block_count a = resident_block_count a - b2z (resident b) + b2z (resident b)). lia. }
    split_and!; [done|exact Ht| |exact Hres|exact Hal|done|done|done|done].
    apply (touched_wf _ _ _ _ _ Hwf Ht); [split; [exact Hf|exact Hr|exact Ha]|apply (kw_within a Hwf)].
Qed.

(** ** Eviction *)

(** Blocks the victim selection may pick. *)
Definition evictable (a : KvArena) (protected : list Z) (i : Z) (b : KvBlock) : Prop :=
  0 <= i /\ blocks a !! Z.to_nat i = Some b /\ allocated b = true /\ resident b = true /\ i ∉ protected.

Lemma colder_trans b c d : colder b c = true -> colder d c = false -> colder d b = false.
Proof.
  unfold colder. rewrite !orb_true_iff, !andb_true_iff, !orb_false_iff, !andb_false_iff,
    !Z.ltb_lt, !Z.eqb_eq, !Z.ltb_ge, !Z.eqb_neq. lia.
Qed.

Lemma colder_irrefl b : colder b b = false.
Proof. unfold colder. rewrite !Z.ltb_irrefl. by rewrite andb_false_r. Qed.

(** The victim is evictable and no evictable block is colder; none exists when
    nothing is evictable. *)
Lemma select_victim_spec a protected :
  kv_wf a ->
  wp (select_resident_eviction_victim protected)
    (fun o a' => a' = a /\
       match o with
       | Some v => exists b, evictable a protected v b /\
           forall j c, evictable a protected j c -> colder c b = false
       | None => forall j c, ~ evictable a protected j c
       end)
    (fun _ _ => False) a.
Proof.
  intros Hwf. unfold select_resident_eviction_victim. wp_steps. unfold id. pose proof (kw_length a Hwf) as Hlen.
  eapply wp_mono; [apply (wp_for_fold (fun pre (o : option Z) a' => a' = a /\
      match o with
       | Some v => exists b, evictable a protected v b /\
           forall j c, j < Z.of_nat (length pre) -> evictable a protected j c -> colder c b = false
       | None => forall j c, j < Z.of_nat (length pre) -> ~ evictable a protected j c
       end) _ _ _ (fun _ _ => False))| |done].
  - split; [done|]. intros j c Hj [? _]. simpl in Hj. lia.
  - intros pre i post o s Hsplit [-> Ho]. apply range_split in Hsplit as [-> Hi].
    rewrite length_app, length_range. simpl.
    replace (Z.of_nat (Z.to_nat (i - 0) + 1)) with (i + 1) by lia.
    replace (Z.of_nat (length (range 0 i))) with i in Ho by (rewrite length_range; lia).
    destruct (lookup_Some_range (blocks a) i) as [b Hb]; [lia|]. wp_steps.
    destruct (negb (allocated b) || negb (resident b) || _) eqn:Hskip.
    + assert (forall c, ~ evictable a protected i c) as Hno.
      { intros c (_&Hc&Ha&Hr&Hp). simplify_eq. rewrite Ha, Hr in Hskip. simpl in Hskip.
        unfold protected_block_list_contains in Hskip. by apply bool_decide_eq_true in Hskip. }
      wp_steps. split; [done|]. destruct o as [v|].
      * destruct Ho as (bv&Hv&Hmin). exists bv. split; [done|]. intros j c Hj Hc.
        destruct (decide (j = i)) as [->|]; [by destruct (Hno c)|]. apply (Hmin j); [lia|done].
      * intros j c Hj. destruct (decide (j = i)) as [->|]; [apply Hno|]. apply Ho. lia.
    + apply orb_false_iff in Hskip as [Hskip Hp]. apply orb_false_iff in Hskip as [Ha Hr].
      apply negb_false_iff in Ha. apply negb_false_iff in Hr.
      apply bool_decide_eq_false in Hp.
      assert (evictable a protected i b) as Hev by (split_and!; [lia|done..]).
      assert (forall c, evictable a protected i c -> c = b) as Huniq.
      { intros c (_&Hc&_). congruence. }
      destruct o as [v|].
      * destruct Ho as (bv&Hv&Hmin). pose proof Hv as (_&Hbv&_). wp_steps.
        destruct (colder b bv) eqn:Hcold; wp_steps; (split; [done|]).
        { exists b. split; [done|]. intros j c Hj Hc. destruct (decide (j = i)) as [->|].
          - rewrite (Huniq c Hc). apply colder_irrefl.
          - apply (colder_trans b bv c Hcold). apply (Hmin j); [lia|done]. }
        { exists bv. split; [done|]. intros j c Hj Hc. destruct (decide (j = i)) as [->|].
          - by rewrite (Huniq c Hc).
          - apply (Hmin j); [lia|done]. }
      * wp_steps. split; [done|]. exists b. split; [done|]. intros j c Hj Hc.
        destruct (decide (j = i)) as [->|]; [rewrite (Huniq c Hc); apply colder_irrefl|].
        exfalso. apply (Ho j c); [lia|done].
  - intros o s [-> Ho]. split; [done|].
    assert (forall j c, evictable a protected j c -> j < Z.of_nat (length (range 0 (physical_block_count a)))) as Hlt.
    { intros j c (Hj&Hc&_). apply lookup_lt_Some in Hc. rewrite length_range. lia. }
    destruct o as [v|].
    + destruct Ho as (b&Hv&Hmin). exists b. split; [done|]. intros j c Hc. apply (Hmin j); [by eapply Hlt|done].
    + intros j c Hc. apply (Ho j c); [by eapply Hlt|done].
Qed.

(** Blocks agreeing on everything but residency and the epoch stamp. *)
Definition same_owner (b c : KvBlock) : Prop :=
  allocated c = allocated b /\ block_reference_count c = block_reference_count b /\
  block_generation c = block_generation b /\ token_capacity c = token_capacity b.

(** What eviction may do: unprotected resident blocks lose their residency. *)
Record trimmed (protected : list Z) (a a' : KvArena) : Prop := {
  tr_geometry : geometry a' = geometry a;
  tr_length : length (blocks a') = length (blocks a);
  tr_blocks : forall i b, blocks a !! i = Some b -> exists b', blocks a' !! i = Some b' /\
    same_owner b b' /\ (b' = b \/ resident b = true /\ resident b' = false /\ Z.of_nat i ∉ protected);
}.

Lemma trimmed_refl protected a : trimmed protected a a.
Proof. split; [done|done|]. intros i b Hb. exists b. split_and!; [done..|by left]. Qed.

Lemma trimmed_trans protected a b c :
  trimmed protected a b -> trimmed protected b c -> trimmed protected a c.
Proof.
  intros [G1 L1 B1] [G2 L2 B2]. split; [congruence|congruence|]. intros i x Hx.
  destruct (B1 i x Hx) as (y&Hy&(S1&S2&S3&S4)&D1). destruct (B2 i y Hy) as (z&Hz&(T1&T2&T3&T4)&D2).
  exists z. split_and!; [done|unfold same_owner; split_and!; congruence|].
  destruct D1 as [->|(?&?&?)], D2 as [->|(?&?&?)]; auto; right; split_and!; congruence || done.
Qed.

Lemma touched_trimmed protected a a' i b b' :
  touched a a' i b b' -> 0 <= i -> same_owner b b' -> resident b = true -> resident b' = false ->
  i ∉ protected -> trimmed protected a a'.
Proof.
  intros [Hl Hb Hg _] Hi Hs Hr Hr' Hp. split; [done|by rewrite Hb, length_insert|].
  intros j c Hc. rewrite Hb. destruct (decide (j = Z.to_nat i)) as [->|Hne].
  - rewrite list_lookup_insert_eq by (by eapply lookup_lt_Some). assert (c = b) as -> by congruence.
    exists b'. split_and!; [done|apply Hs..|]. right. rewrite Z2Nat.id by done. done.
  - rewrite list_lookup_insert_ne by done. exists c. split_and!; [done..|by left].
Qed.

Lemma evict_resident_block_spec a protected v b :
  kv_wf a -> evictable a protected v b ->
  wp (evict_resident_block v)
    (fun _ a' => kv_wf a' /\ trimmed protected a a' /\
       resident_block_count a' = resident_block_count a - 1 /\
       resident_capacity_stall_count a' = resident_capacity_stall_count a)
    (fun _ _ => False) a.
Proof.
  intros Hwf (Hv&Hb&Hal&Hres&Hp). unfold evict_resident_block, bump_epoch, upd_block.
  pose proof (resident_bounds a Hwf). pose proof (resident_pos a _ b Hwf Hb Hres).
  pose proof (block_ok_lookup a _ b Hwf Hb) as Hok.
  destruct (clear_resident_ok b Hok) as ([Hf Hr Ha]&Hrf&Haf).
  wp_steps. unfold id. simpl.
  destruct (Z.eqb_spec (resident_block_count a) 0); [lia|]. simpl. wp_steps. simpl.
  set (b1 := b <| flags := Z.land (flags b) (u32_not BLOCK_FLAG_RESIDENT) |>) in *.
  match goal with |- kv_wf ?a1 /\ _ =>
    assert (touched a a1 v b (b1 <| block_last_used_epoch := epoch a +u64 1 |>)) as Ht end.
  { split; [done| |done|].
    - cbn [blocks]. simpl. rewrite (upd_block_insert a v _ b Hb). fold b1.
      assert (<[Z.to_nat v:=b1]> (blocks a) !! Z.to_nat v = Some b1) as Hb1
        by (apply list_lookup_insert_eq; by eapply lookup_lt_Some).
      pose proof (upd_block_insert (a <| blocks := <[Z.to_nat v:=b1]> (blocks a) |>) v
        (fun b => b <| block_last_used_epoch := epoch a +u64 1 |>) b1 Hb1) as Hu.
      etransitivity; [exact Hu|]. simpl. by rewrite list_insert_insert_eq.
    - change (resident (b1 <| block_last_used_epoch := epoch a +u64 1 |>)) with (resident b1).
      rewrite Hrf, Hres. simpl. rewrite u64_small by lia. lia. }
  split_and!.
  - apply (touched_wf _ _ _ _ _ Hwf Ht); [split; [exact Hf|exact Hr|exact Ha]|].
    simpl. rewrite u64_small by lia. pose proof (kw_within a Hwf). lia.
  - eapply touched_trimmed; [exact Ht|done| |done|exact Hrf|done]. split_and!; [exact Haf|done..].
  - simpl. rewrite u64_small by lia. done.
  - done.
Qed.

(** Nothing left to evict. *)
Definition no_victim (a : KvArena) (protected : list Z) : Prop :=
  forall i b, ~ evictable a protected i b.

Lemma trim_inner_spec a protected target :
  kv_wf a -> 0 <= target ->
  wp (trim_resident_blocks_inner protected target)
    (fun n a' => kv_wf a' /\ trimmed protected a a' /\
       n = resident_block_count a - resident_block_count a' /\
       resident_block_count a' = Z.min target (resident_block_count a) /\
       resident_capacity_stall_count a' = resident_capacity_stall_count a)
    (fun e a' => e = CapacityExceeded /\ kv_wf a' /\ trimmed protected a a' /\
       no_victim a' protected /\ target < resident_block_count a' /\
       resident_capacity_stall_count a' = resident_capacity_stall_count a +u64 1) a.
Proof.
  intros Hwf Htg. unfold trim_resident_blocks_inner. wp_steps. unfold id.
  apply (wp_loop (fun n a' => kv_wf a' /\ trimmed protected a a' /\
      n = resident_block_count a - resident_block_count a' /\
      Z.min target (resident_block_count a) <= resident_block_count a' <= resident_block_count a /\
      resident_capacity_stall_count a' = resident_capacity_stall_count a)
    (fun _ a' => Z.to_nat (resident_block_count a'))).
  - split_and!; [done|apply trimmed_refl|lia|lia|lia|done].
  - lia.
  - pose proof (resident_bounds a Hwf). clear Hwf. intros n a' (Hwf&Htr&->&Hcnt&Hstall). pose proof (resident_bounds a' Hwf).
    wp_steps. unfold id. destruct (Z.leb_spec (resident_block_count a') target).
    { wp_steps. split_and!; [done|done|done|lia|done]. }
    wp_steps. eapply wp_mono; [by apply select_victim_spec| |done]. intros [v|] s [-> Hsel].
    + destruct Hsel as (b&Hev&_). wp_steps.
      eapply wp_mono; [exact (evict_resident_block_spec _ _ _ _ Hwf Hev)| |done].
      intros [] a2 (Hwf2&Htr2&Hcnt2&Hst2). wp_steps.
      split_and!; [done|by eapply trimmed_trans|rewrite u32_small; lia|lia|lia|congruence|lia].
    + wp_steps. split_and!; [done| | |exact Hsel|simpl; lia|simpl; congruence].
      * by destruct Hwf.
      * by destruct Htr.
Qed.

Lemma evict_to_limit_spec a protected limit :
  kv_wf a -> 0 <= limit ->
  wp (evict_resident_blocks_to_limit limit protected)
    (fun n a' => kv_wf a' /\ trimmed protected a a' /\
       n = resident_block_count a - resident_block_count a' /\ 0 <= n /\
       (resident_block_count a' = Z.min limit (resident_block_count a) \/
        no_victim a' protected /\ limit < resident_block_count a'))
    (fun _ _ => False) a.
Proof.
  intros Hwf Htg. unfold evict_resident_blocks_to_limit. wp_steps. unfold id.
  apply (wp_loop (fun n a' => kv_wf a' /\ trimmed protected a a' /\
      n = resident_block_count a - resident_block_count a' /\
      Z.min limit (resident_block_count a) <= resident_block_count a' <= resident_block_count a)
    (fun _ a' => Z.to_nat (resident_block_count a'))).
  - split_and!; [done|apply trimmed_refl|lia|lia|lia].
  - lia.
  - pose proof (resident_bounds a Hwf). clear Hwf. intros n a' (Hwf&Htr&->&Hcnt). pose proof (resident_bounds a' Hwf).
    wp_steps. unfold id. destruct (Z.leb_spec (resident_block_count a') limit).
    { wp_steps. split_and!; [done|done|done|lia|left; lia]. }
    wp_steps. eapply wp_mono; [by apply select_victim_spec| |done]. intros [v|] s [-> Hsel].
    + destruct Hsel as (b&(Hv0&Hb&Hal&Hres&Hp)&_). wp_steps.
      eapply wp_mono; [exact (mark_block_nonresident_spec _ v Hwf)| |].
      2:{ intros e a2 (_&_&Hun). specialize (Hun b Hb). congruence. }
      intros [] a2 (b2&b'&_&Ht&Hwf2&Hr'&Ha'&Hrc&Hgen&Htc&_). wp_steps.
      assert (b2 = b) as -> by (pose proof (to_lookup _ _ _ _ _ Ht); congruence).
      pose proof (to_resident _ _ _ _ _ Ht) as Hc2. rewrite Hres, Hr' in Hc2. simpl in Hc2.
      split_and!; simpl; [|eapply trimmed_trans; [exact Htr|]|rewrite u32_small; lia|lia|lia|lia].
      * by destruct Hwf2.
      * assert (trimmed protected a' a2) as [T1 T2 T3].
        { eapply touched_trimmed; [exact Ht|done| |done|done|done].
          split_and!; [by rewrite Ha', Hal|done|done|done]. }
        by split.
    + wp_steps. split_and!; [done|done|done|lia|by right].
Qed.

(** Ownership of every block is as before. *)
Definition owners_kept (a a' : KvArena) : Prop :=
  geometry a' = geometry a /\ length (blocks a') = length (blocks a) /\
  forall j b, blocks a !! j = Some b -> exists b', blocks a' !! j = Some b' /\ same_owner b b'.

Lemma trimmed_owners protected a a' : trimmed protected a a' -> owners_kept a a'.
Proof.
  intros [Tg Tl Tb]. split_and!; [done|done|]. intros j b Hb.
  destruct (Tb j b Hb) as (b'&?&?&_). by exists b'.
Qed.

(** Making room for one block that is not resident yet never fails. *)
Lemma make_room_one_spec a i b :
  kv_wf a -> 0 <= i -> blocks a !! Z.to_nat i = Some b -> resident b = false ->
  wp (make_room_for_resident_blocks [i] 1)
    (fun _ a' => kv_wf a' /\ trimmed [i] a a' /\ blocks a' !! Z.to_nat i = Some b /\
       resident_block_count a' < resident_block_capacity a /\
       resident_block_count a' <= resident_block_count a <= resident_block_count a' + 1 /\
       resident_capacity_stall_count a' = resident_capacity_stall_count a)
    (fun _ _ => False) a.
Proof.
  intros Hwf Hi Hb Hres. unfold make_room_for_resident_blocks. wp_steps. unfold id.
  pose proof (resident_bounds a Hwf). pose proof (kw_capacity a Hwf). pose proof (kw_within a Hwf).
  pose proof (kw_count a Hwf).
  assert (forall a', trimmed [i] a a' -> blocks a' !! Z.to_nat i = Some b) as Hkeep.
  { intros a' [_ _ Tb]. destruct (Tb _ b Hb) as (b'&Hb'&_&[->|(?&_)]); [done|congruence]. }
  destruct (Z.ltb_spec (resident_block_capacity a) 1); [lia|]. rewrite u64_small by lia.
  destruct (Z.leb_spec (resident_block_count a + 1) (resident_block_capacity a)).
  { wp_steps. split_and!; [done|apply trimmed_refl|done|lia|lia|lia|done]. }
  wp_steps. rewrite u32_small by lia. eapply wp_mono; [apply trim_inner_spec; [done|lia]| |].
  - intros n a1 (Hwf1&Htr&_&Hcnt&Hst). wp_steps. split_and!; [done|done|by apply Hkeep|lia|lia|lia|done].
  - (* a resident block other than [i] exists while over the target *)
    intros e a1 (_&Hwf1&Htr&Hno&Hgt&_). rewrite (kw_resident a1 Hwf1) in Hgt.
    destruct (countb_pos resident (blocks a1)) as (j&c&Hc&Hrc); [lia|].
    apply (Hno (Z.of_nat j) c). split_and!; [lia|by rewrite Nat2Z.id| |done|].
    { apply resident_allocated; [by eapply block_ok_lookup|done]. }
    intros Hin. apply list_elem_of_singleton in Hin. assert (j = Z.to_nat i) as -> by lia.
    pose proof (Hkeep a1 Htr). congruence.
Qed.

(** Setting the resident bit of a block already counted as resident. *)
Lemma stamp_resident_wf a a1 i b e :
  kv_wf a -> blocks a !! Z.to_nat i = Some b -> allocated b = true -> owners_kept a a1 ->
  Forall block_ok (blocks a1) -> blocks a1 !! Z.to_nat i = Some b ->
  resident_block_count a1 = countb resident (blocks a1) + b2z (negb (resident b)) ->
  resident_block_count a1 <= resident_block_capacity a ->
  let a2 := a1 <| epoch := e |> <| blocks := upd_nth i (fun b =>
    b <| flags := Z.lor (flags b) BLOCK_FLAG_RESIDENT |> <| block_last_used_epoch := e |>) (blocks a1) |> in
  kv_wf a2 /\ is_resident a2 i = true /\ owners_kept a a2.
Proof.
  intros Hwf Hb Hal (Hg&Hlen&Hown) Hall Hb1 Hcnt Hle a2.
  destruct (geometry_fields _ _ Hg) as (Hph&Hcp&_).
  destruct (set_resident_ok b (block_ok_lookup a _ b Hwf Hb) Hal) as ([Hf Hr Hfree]&Hrs&Has).
  set (b' := b <| flags := Z.lor (flags b) BLOCK_FLAG_RESIDENT |> <| block_last_used_epoch := e |>).
  assert (blocks a2 = <[Z.to_nat i := b']> (blocks a1)) as Hbl by exact (upd_block_insert a1 i _ b Hb1).
  assert (<[Z.to_nat i:=b']> (blocks a1) !! Z.to_nat i = Some b') as Hlk
    by (apply list_lookup_insert_eq; by eapply lookup_lt_Some).
  unfold owners_kept. split_and!; [| |done| |].
  - split; rewrite ?Hbl, ?length_insert; [|exact (eq_ind_r (fun x => 0 < x <= _) (kw_count a Hwf) Hph)| | | |].
    + rewrite Hlen. etransitivity; [apply (kw_length a Hwf)|by symmetry].
    + simpl. rewrite Hcp, Hph. apply (kw_capacity a Hwf).
    + apply Forall_insert; [done|]. split; [exact Hf|exact Hr|exact Hfree].
    + rewrite (countb_insert _ _ _ b) by done.
      change (resident b') with (resident (b <| flags := Z.lor (flags b) BLOCK_FLAG_RESIDENT |>)).
      rewrite Hrs. simpl. rewrite Hcnt. destruct (resident b); simpl; lia.
    + simpl. by rewrite Hcp.
  - unfold is_resident, block. by rewrite Hbl, Hlk.
  - by rewrite Hbl, length_insert.
  - intros j c Hc. rewrite Hbl. destruct (decide (j = Z.to_nat i)) as [->|Hne].
    + exists b'. split; [done|]. assert (c = b) as -> by congruence.
      split_and!; [etransitivity; [exact Has|by rewrite Hal]|done..].
    + rewrite list_lookup_insert_ne by done. by apply Hown.
Qed.

(** Marking an allocated block resident succeeds, evicting at most one other block. *)
Lemma mark_block_resident_spec a i :
  kv_wf a -> 0 <= i ->
  wp (mark_block_resident i)
    (fun _ a' => kv_wf a' /\ is_allocated a i = true /\ is_resident a' i = true /\ owners_kept a a' /\
       resident_block_count a <= resident_block_count a' <= resident_block_count a + 1 /\
       resident_capacity_stall_count a' = resident_capacity_stall_count a)
    (fun e a' => e = InvalidArgument /\ a' = a /\ unusable a i) a.
Proof.
  intros Hwf Hi. unfold mark_block_resident, bump_epoch, upd_block. wp_step.
  eapply wp_mono; [apply get_block_spec| |].
  2:{ intros e a0 (->&->&Hn). split_and!; [done|done|]. intros b Hb. congruence. }
  intros b a0 (->&Hb). destruct (allocated b) eqn:Hal; simpl.
  2:{ wp_steps. split_and!; [done|done|]. intros ??. congruence. }
  assert (is_allocated a i = true) as Hia by (unfold is_allocated, block; by rewrite Hb).
  wp_step. destruct (resident b) eqn:Hres; simpl.
  - wp_steps. simpl. destruct (stamp_resident_wf a a i b (epoch a +u64 1) Hwf Hb Hal) as (?&?&?).
    { split_and!; [done|done|]. intros j c Hc. by exists c. }
    { apply (kw_blocks a Hwf). } { done. } { rewrite Hres, (kw_resident a Hwf). simpl. lia. }
    { apply (kw_within a Hwf). }
    split_and!; [done|done|done|done|simpl; lia|simpl; lia|done].
  - wp_step. eapply wp_mono; [by eapply make_room_one_spec| |done].
    intros [] a1 (Hwf1&Htr&Hb1&Hlt&Hle&Hst). pose proof (resident_bounds a1 Hwf1). wp_steps. simpl.
    destruct (stamp_resident_wf a (a1 <| resident_block_count := resident_block_count a1 +u64 1 |>) i b
      (epoch a1 +u64 1) Hwf Hb Hal) as (?&?&?).
    { exact (trimmed_owners _ _ _ Htr). } { apply (kw_blocks a1 Hwf1). } { done. }
    { simpl. rewrite Hres, u64_small, (kw_resident a1 Hwf1) by lia. done. }
    { simpl. rewrite u64_small by lia. lia. }
    split_and!; [done|done|done|done|simpl; rewrite u64_small by lia; lia..|done].
Qed.

(** ** Construction and reset *)

Lemma make_block_geometry a a' i : geometry a' = geometry a -> make_block a' i = make_block a i.
Proof. unfold geometry, make_block, has_value_payload. by intros [= _ -> _ _ _ _ _ -> -> -> ->]. Qed.

Lemma make_block_ok a i : block_ok (make_block a i) /\ resident (make_block a i) = false.
Proof. split; [|done]. split; simpl; [auto|lia|done]. Qed.

Lemma new_kv_spec c :
  0 <= cfg_physical_block_count c <= U32_MAX -> 0 <= cfg_resident_block_capacity c ->
  wp (new c)
    (fun a _ => kv_wf a /\ resident_block_count a = 0 /\
       physical_block_count a = cfg_physical_block_count c /\
       block_token_count a = cfg_block_token_count c /\
       forall i b, blocks a !! i = Some b -> allocated b = false)
    (fun e _ => e = InvalidArgument) tt.
Proof.
  intros Hp Hr. unfold new.
  match goal with |- wp (if ?g then _ else _) _ _ _ => destruct g eqn:Hg end; [by wp_steps|].
  repeat (apply orb_false_iff in Hg as [Hg ?]). wp_steps.
  match goal with |- context [make_block ?m] => set (a0 := m) end.
  assert (forall i b, (make_block a0 <$> range 0 (cfg_physical_block_count c)) !! i = Some b ->
    exists k, b = make_block a0 k) as Hmk.
  { intros i b Hb. apply list_lookup_fmap_Some in Hb as (k&->&_). by exists k. }
  split_and!; [|done|done|done|].
  - split; cbn [blocks physical_block_count resident_block_capacity resident_block_count set_field a0].
    + simpl. rewrite length_fmap, length_range. lia.
    + simpl. lia.
    + simpl. destruct (Z.eqb_spec (cfg_resident_block_capacity c) 0); simpl; lia.
    + simpl. apply Forall_lookup. intros i b Hb. apply Hmk in Hb as [k ->]. apply make_block_ok.
    + simpl. symmetry. apply countb_0. intros i b Hb. apply Hmk in Hb as [k ->]. done.
    + simpl. destruct (Z.eqb_spec (cfg_resident_block_capacity c) 0); simpl; lia.
  - simpl. intros i b Hb. apply Hmk in Hb as [k ->]. done.
Qed.

Lemma reset_spec a :
  kv_wf a ->
  wp reset
    (fun _ a' => kv_wf a' /\ geometry a' = geometry a /\ resident_block_count a' = 0 /\
       (forall i b, blocks a' !! i = Some b -> b = make_block a (Z.of_nat i)) /\
       resident_evicted_block_count a' = resident_evicted_block_count a /\
       resident_capacity_stall_count a' = resident_capacity_stall_count a)
    (fun _ _ => False) a.
Proof.
  intros Hwf. unfold reset, upd_block. wp_steps. pose proof (kw_length a Hwf) as Hlen.
  eapply wp_mono.
  - apply (wp_for_fold (fun pre (_ : unit) a' => geometry a' = geometry a /\
      length (blocks a') = length (blocks a) /\
      resident_evicted_block_count a' = resident_evicted_block_count a /\
      resident_capacity_stall_count a' = resident_capacity_stall_count a /\
      forall i b, (i < length pre)%nat -> blocks a' !! i = Some b -> b = make_block a (Z.of_nat i))
      _ _ _ (fun _ _ => False)).
    + split_and!; [done..|]. simpl. lia.
    + intros pre i post [] a' Hsplit (Hg&Hl&He&Hs&Hall). apply range_split in Hsplit as [-> Hi].
      destruct (lookup_Some_range (blocks a') i) as [b Hb]; [lia|]. wp_steps. unfold id. simpl.
      split_and!; [done|by rewrite length_upd_nth|done|done|].
      intros j c Hj Hc. apply lookup_upd_nth_Some in Hc as [(->&x&_&->)|[Hne Hc]].
      * rewrite Z2Nat.id by lia. by apply make_block_geometry.
      * apply Hall; [|done]. rewrite length_app, length_range in *. simpl in Hj. lia.
  - intros [] a' (Hg&Hl&He&Hs&Hall). wp_steps. simpl.
    assert (forall i b, blocks a' !! i = Some b -> b = make_block a (Z.of_nat i)) as Hmk.
    { intros i b Hb. apply Hall; [|done]. rewrite length_range. apply lookup_lt_Some in Hb. lia. }
    destruct (geometry_fields _ _ Hg) as (Hph&Hcp&_).
    split_and!; [|done|done|done|done|done]. split; simpl; rewrite ?Hph, ?Hcp.
    + by rewrite Hl.
    + apply (kw_count a Hwf).
    + apply (kw_capacity a Hwf).
    + apply Forall_lookup. intros i b Hb. rewrite (Hmk i b Hb). apply make_block_ok.
    + symmetry. apply countb_0. intros i b Hb. rewrite (Hmk i b Hb). apply make_block_ok.
    + pose proof (kw_capacity a Hwf). lia.
  - done.
Qed.

(** ** Calls on the arena *)

Inductive kv_call :=
| KvAcquire | KvRecycle (i : Z) | KvRetain (i : Z) | KvRelease (i : Z) | KvMarkResident (i : Z)
| KvMarkNonresident (i : Z) | KvFree (i : Z) | KvTrim (protected : list Z) (target : Z)
| KvEvict (limit : Z) (protected : list Z) | KvReset.

Definition kv_run (c : kv_call) : KM Z :=
  match c with
  | KvAcquire => acquire_block
  | KvRecycle i => do! recycle_block i in ret 0
  | KvRetain i => do! retain_block i in ret 0
  | KvRelease i => do! release_block_reference i in ret 0
  | KvMarkResident i => do! mark_block_resident i in ret 0
  | KvMarkNonresident i => do! mark_block_nonresident i in ret 0
  | KvFree i => do! free_block i in ret 0
  | KvTrim protected target => trim_resident_blocks protected target
  | KvEvict limit protected => evict_resident_blocks_to_limit limit protected
  | KvReset => do! reset in ret 0
  end.

(** Arguments that are [u32] values. *)
Definition kv_call_ok (c : kv_call) : Prop :=
  match c with
  | KvAcquire | KvReset => True
  | KvRecycle i | KvRetain i | KvRelease i | KvMarkResident i | KvMarkNonresident i | KvFree i => 0 <= i
  | KvTrim _ n | KvEvict n _ => 0 <= n
  end.

(** The block keeps its owner: it stays allocated in the same generation. *)
Definition kept (b b' : KvBlock) : Prop :=
  allocated b' = true /\ block_generation b' = block_generation b.

(** A call other than [reset] keeps every referenced block. *)
Definition keeps_referenced (a a' : KvArena) : Prop :=
  forall i b, blocks a !! i = Some b -> 0 < block_reference_count b ->
    exists b', blocks a' !! i = Some b' /\ kept b b'.

Lemma referenced_allocated a i b :
  kv_wf a -> blocks a !! i = Some b -> 0 < block_reference_count b -> allocated b = true.
Proof.
  intros Hwf Hb Hr. destruct (block_ok_lookup a i b Hwf Hb) as [_ _ Hf].
  destruct (allocated b); [done|]. rewrite Hf in Hr by done. lia.
Qed.

Lemma keeps_refl a : kv_wf a -> keeps_referenced a a.
Proof. intros Hwf i b Hb Hr. exists b. split; [done|]. split; [by eapply referenced_allocated|done]. Qed.

Lemma touched_keeps a a' i b b' :
  kv_wf a -> touched a a' i b b' ->
  (0 < block_reference_count b -> kept b b') -> keeps_referenced a a'.
Proof.
  intros Hwf [Hl Hb _ _] Hk j c Hc Hr. rewrite Hb. destruct (decide (j = Z.to_nat i)) as [->|Hne].
  - exists b'. rewrite list_lookup_insert_eq by (by eapply lookup_lt_Some).
    assert (c = b) as -> by congruence. auto.
  - rewrite list_lookup_insert_ne by done. exists c. split; [done|]. split; [by eapply referenced_allocated|done].
Qed.

Lemma owners_keeps a a' : kv_wf a -> owners_kept a a' -> keeps_referenced a a'.
Proof.
  intros Hwf (_&_&Hown) i b Hb Hr. destruct (Hown i b Hb) as (b'&Hb'&Ha&_&Hg&_). exists b'.
  split; [done|]. split; [|done]. rewrite Ha. by eapply referenced_allocated.
Qed.

Lemma kv_run_spec a c :
  kv_wf a -> kv_call_ok c ->
  wp (kv_run c)
    (fun _ a' => kv_wf a' /\ geometry a' = geometry a /\ (c = KvReset \/ keeps_referenced a a'))
    (fun _ a' => kv_wf a' /\ geometry a' = geometry a /\ keeps_referenced a a') a.
Proof.
  intros Hwf Hc. pose proof (keeps_refl a Hwf) as Hk.
  assert (forall i b b', allocated b = true -> touched a i.1 i.2 b b' -> flags b' = flags b ->
    block_generation b' = block_generation b -> keeps_referenced a i.1) as Hflag.
  { intros i b b' Hal Ht Hf Hg. eapply touched_keeps; [done|exact Ht|]. intros _. split; [|done].
    unfold allocated in *. by rewrite Hf. }
  destruct c as [|i|i|i|i|i|i|p t|l p|]; simpl in Hc |- *; try wp_step.
  - eapply wp_mono; [by apply acquire_block_spec| |naive_solver].
    intros i a' (_&b&b'&Hal&Ht&Hwf'&Hf&_&_&_). split_and!; [done|apply Ht|]. right.
    eapply touched_keeps; [done|exact Ht|]. intros Hr.
    pose proof (referenced_allocated a _ b Hwf (to_lookup _ _ _ _ _ Ht) Hr). congruence.
  - eapply wp_mono; [by apply recycle_block_spec| |naive_solver].
    intros [] a' (b&b'&Hal&Hz&Ht&Hwf'&_). wp_steps. split_and!; [done|apply Ht|]. right.
    eapply touched_keeps; [done|exact Ht|]. lia.
  - eapply wp_mono; [by apply retain_block_spec| |naive_solver].
    intros [] a' (b&b'&Hal&Ht&Hwf'&Hf&Hg&_). wp_steps. split_and!; [done|apply Ht|]. right.
    exact (Hflag (a', i) b b' Hal Ht Hf Hg).
  - eapply wp_mono; [by apply release_block_reference_spec| |naive_solver].
    intros [] a' (b&b'&Hal&_&Ht&Hwf'&Hf&Hg&_). wp_steps. split_and!; [done|apply Ht|]. right.
    exact (Hflag (a', i) b b' Hal Ht Hf Hg).
  - eapply wp_mono; [by apply mark_block_resident_spec| |naive_solver].
    intros [] a' (Hwf'&_&_&Hown&_). wp_steps. split_and!; [done|apply Hown|]. right. by apply owners_keeps.
  - eapply wp_mono; [by apply mark_block_nonresident_spec| |naive_solver].
    intros [] a' (b&b'&Hal&Ht&Hwf'&_&Hal'&_&Hg&_). wp_steps. split_and!; [done|apply Ht|]. right.
    eapply touched_keeps; [done|exact Ht|]. intros _. by split.
  - eapply wp_mono; [by apply free_block_spec| |naive_solver].
    intros [] a' [[-> _]|(b&b'&Hal&Hz&Ht&Hwf'&_)]; wp_steps; [naive_solver|].
    split_and!; [done|apply Ht|]. right. eapply touched_keeps; [done|exact Ht|]. lia.
  - unfold trim_resident_blocks. wp_steps. unfold id. destruct (_ <? _); [by wp_steps|].
    eapply wp_mono; [by apply trim_inner_spec| |].
    + intros n a' (Hwf'&Htr&_). split_and!; [done|apply Htr|]. right. by eapply owners_keeps, trimmed_owners.
    + intros e a' (_&Hwf'&Htr&_). split_and!; [done|apply Htr|]. by eapply owners_keeps, trimmed_owners.
  - eapply wp_mono; [by apply evict_to_limit_spec| |done].
    intros n a' (Hwf'&Htr&_). split_and!; [done|apply Htr|]. right. by eapply owners_keeps, trimmed_owners.
  - eapply wp_mono; [by apply reset_spec| |done].
    intros [] a' (Hwf'&Hg&_). wp_steps. split_and!; [done|done|by left].
Qed.

(** One call with [u32] arguments, whatever it returns. *)
Definition kv_step (a a' : KvArena) : Prop :=
  exists c, kv_call_ok c /\ ((exists r, kv_run c a = Ret r a') \/ (exists e, kv_run c a = Fails e a')).

Lemma kv_step_wf a a' : kv_wf a -> kv_step a a' -> kv_wf a'.
Proof.
  intros Hwf (c&Hc&Hs). pose proof (kv_run_spec a c Hwf Hc) as Hw. unfold wp in Hw.
  destruct Hs as [[r Hs]|[e Hs]]; rewrite Hs in Hw; apply Hw.
Qed.

Lemma kv_reachable_wf cfg a0 a :
  0 <= cfg_physical_block_count cfg <= U32_MAX -> 0 <= cfg_resident_block_capacity cfg ->
  new cfg tt = Ret a0 tt -> rtc kv_step a0 a -> kv_wf a.
Proof.
  intros Hp Hr Hnew Hs.
  pose proof (wp_ret_inv _ _ _ _ _ _ (new_kv_spec cfg Hp Hr) Hnew) as (Hwf0&_). clear Hnew.
  induction Hs; [done|]. by eapply IHHs, kv_step_wf.
Qed.

(** ** Properties *)

(** C24. Residency accounting is exact whatever the callers do: in every arena
    reached from [new] by any calls, [resident_block_count] is the number of blocks
    with the resident flag and at most the resident capacity, a resident or
    referenced block is allocated, and the next call returns (no panic, and the
    eviction loops end).  This includes recycling a resident block, as the comment on
    [recycle_block] and docs/PORT_LEDGER.md intend it; the older comments that say such a
    block keeps its share of the count do not describe the code
    ([recycle_gives_back_residency] below). *)
Theorem kv_arena_accounting_exact cfg a0 a c :
  0 <= cfg_physical_block_count cfg <= U32_MAX -> 0 <= cfg_resident_block_capacity cfg ->
  new cfg tt = Ret a0 tt -> rtc kv_step a0 a -> kv_call_ok c ->
  resident_block_count a = countb resident (blocks a) /\
  resident_block_count a <= resident_block_capacity a /\
  (forall i b, blocks a !! i = Some b -> resident b = true \/ 0 < block_reference_count b ->
     allocated b = true) /\
  ((exists r a', kv_run c a = Ret r a') \/ (exists e a', kv_run c a = Fails e a')).
Proof.
  intros Hp Hr Hnew Hs Hc. pose proof (kv_reachable_wf cfg a0 a Hp Hr Hnew Hs) as Hwf.
  split_and!; [apply (kw_resident a Hwf)|apply (kw_within a Hwf)| |].
  - intros i b Hb [Hres|Href]; [|by eapply referenced_allocated].
    apply resident_allocated; [by eapply block_ok_lookup|done].
  - destruct (wp_elim _ _ _ _ (kv_run_spec a c Hwf Hc)) as [(r&a'&H&_)|(e&a'&H&_)]; eauto.
Qed.

Definition sample_config : KvArenaConfig := mkKvArenaConfig 3 16 2 1 1 4 2 0 0 4096 0.

Definition sample_arena : KvArena :=
  mkKvArena 3 16 2 1 1 4 2 128 0 4096 0
    [mkKvBlock 0 16 0 0 0 4096 0; mkKvBlock 0 16 0 0 0 4224 0; mkKvBlock 0 16 0 0 0 4352 0]
    0 0 0 0 0 0 0 0.

Lemma kv_arena_accounting_exact_witness :
  exists a, rtc kv_step sample_arena a /\
    resident_block_count a = countb resident (blocks a) /\
    resident_block_count a <= resident_block_capacity a /\
    (forall i b, blocks a !! i = Some b -> resident b = true \/ 0 < block_reference_count b ->
       allocated b = true) /\
    ((exists r a', kv_run (KvTrim [] 0) a = Ret r a') \/ (exists e a', kv_run (KvTrim [] 0) a = Fails e a')).
Proof.
  eexists. match goal with |- ?r /\ _ => assert r as Hr end.
  { eapply rtc_l; [exists KvAcquire; split; [exact I|]; left; eexists; reflexivity|].
    eapply rtc_l; [exists (KvMarkResident 0); split; [simpl; lia|]; left; eexists; reflexivity|].
    apply rtc_refl. }
  split; [exact Hr|].
  apply (kv_arena_accounting_exact sample_config sample_arena _ (KvTrim [] 0));
    [simpl; lia|simpl; lia|vm_compute; reflexivity|exact Hr|simpl; lia].
Defined.

(** Marking an allocated block resident never stalls: in a well-formed arena
    it succeeds, the block is resident afterwards, the resident count grows by at
    most one and stays within the capacity, no block changes its owner (allocation,
    reference count, generation), and no capacity stall is recorded. *)
Theorem kv_mark_resident_succeeds a i :
  kv_wf a -> 0 <= i -> is_allocated a i = true ->
  exists a', mark_block_resident i a = Ret tt a' /\ is_resident a' i = true /\
    resident_block_count a <= resident_block_count a' <= resident_block_count a + 1 /\
    resident_block_count a' <= resident_block_capacity a' /\ owners_kept a a' /\
    resident_capacity_stall_count a' = resident_capacity_stall_count a.
Proof.
  intros Hwf Hi Hal.
  destruct (wp_elim _ _ _ _ (mark_block_resident_spec a i Hwf Hi)) as
    [([]&a'&->&Hwf'&_&Hres&Hown&Hcnt&Hst)|(e&a'&_&_&_&Hun)].
  - exists a'. split_and!; [done|done|lia|lia|apply (kw_within a' Hwf')|done|done].
  - unfold is_allocated, block in Hal. destruct (blocks a !! Z.to_nat i) as [b|] eqn:Hb; [|done].
    rewrite (Hun b Hb) in Hal. done.
Qed.

(** Both blocks of the capacity resident, a third allocated. *)
Definition full_arena : KvArena :=
  sample_arena <| blocks := [mkKvBlock 3 16 1 1 7 4096 0; mkKvBlock 3 16 0 1 5 4224 0;
                             mkKvBlock 1 16 2 1 6 4352 0] |>
    <| epoch := 7 |> <| resident_block_count := 2 |>.

Lemma full_arena_wf : kv_wf full_arena.
Proof.
  split; simpl; try done. repeat apply Forall_cons_2; [..|apply Forall_nil_2];
    (split; simpl; [auto|lia|done]).
Qed.

(** Recycling the resident, unreferenced second block takes it out of the count. *)
Lemma recycle_gives_back_residency :
  match recycle_block 1 full_arena with
  | Ret _ a => is_resident full_arena 1 = true /\ is_resident a 1 = false /\ is_allocated a 1 = true /\ resident_block_count a = 1
  | _ => False
  end.
Proof. vm_compute. split_and!; reflexivity. Qed.

Lemma kv_mark_resident_succeeds_witness :
  exists a', mark_block_resident 2 full_arena = Ret tt a' /\ is_resident a' 2 = true /\
    resident_block_count full_arena <= resident_block_count a' <= resident_block_count full_arena + 1 /\
    resident_block_count a' <= resident_block_capacity a' /\ owners_kept full_arena a' /\
    resident_capacity_stall_count a' = resident_capacity_stall_count full_arena.
Proof. apply (kv_mark_resident_succeeds full_arena 2); [apply full_arena_wf|lia|reflexivity]. Defined.

(** Eviction picks the coldest block: the victim is allocated, resident and
    not protected, and no such block has a lower reference count, or the same count
    and an older epoch; [None] only when nothing is evictable.  The arena is not
    changed by the selection. *)
Theorem kv_victim_is_coldest a protected :
  kv_wf a ->
  exists o, select_resident_eviction_victim protected a = Ret o a /\
    match o with
    | Some v => exists b, evictable a protected v b /\
        forall j c, evictable a protected j c ->
          block_reference_count b < block_reference_count c \/
          (block_reference_count b = block_reference_count c /\
           block_last_used_epoch b <= block_last_used_epoch c)
    | None => forall j c, ~ evictable a protected j c
    end.
Proof.
  intros Hwf. destruct (wp_elim _ _ _ _ (select_victim_spec a protected Hwf)) as
    [(o&a'&->&->&Ho)|(e&a'&_&[])]. exists o. split; [done|]. destruct o as [v|]; [|done].
  destruct Ho as (b&Hv&Hmin). exists b. split; [done|]. intros j c Hc. specialize (Hmin j c Hc).
  unfold colder in Hmin. apply orb_false_iff in Hmin as [H1 H2]. apply Z.ltb_ge in H1.
  apply andb_false_iff in H2 as [H2|H2]; [apply Z.eqb_neq in H2|apply Z.ltb_ge in H2]; lia.
Qed.

Lemma kv_victim_is_coldest_witness :
  exists o, select_resident_eviction_victim [] full_arena = Ret o full_arena /\
    match o with
    | Some v => exists b, evictable full_arena [] v b /\
        forall j c, evictable full_arena [] j c ->
          block_reference_count b < block_reference_count c \/
          (block_reference_count b = block_reference_count c /\
           block_last_used_epoch b <= block_last_used_epoch c)
    | None => forall j c, ~ evictable full_arena [] j c
    end.
Proof. apply (kv_victim_is_coldest full_arena []), full_arena_wf. Defined.

(** Trimming does exactly what it says: it ends with the resident count at the
    target (or where it was, if lower), reports the number of blocks it evicted,
    and touches only the residency of unprotected resident blocks; it fails with
    [CapacityExceeded], counting one stall, only when every resident block that is
    left is protected. *)
Theorem kv_trim_exact a protected target :
  kv_wf a -> 0 <= target <= resident_block_capacity a ->
  (exists n a', trim_resident_blocks protected target a = Ret n a' /\
     resident_block_count a' = Z.min target (resident_block_count a) /\
     n = resident_block_count a - resident_block_count a' /\ trimmed protected a a') \/
  (exists a', trim_resident_blocks protected target a = Fails CapacityExceeded a' /\
     target < resident_block_count a' /\ trimmed protected a a' /\
     (forall i b, blocks a' !! i = Some b -> resident b = true -> Z.of_nat i ∈ protected) /\
     resident_capacity_stall_count a' = resident_capacity_stall_count a +u64 1).
Proof.
  intros Hwf Ht. unfold trim_resident_blocks, bind, gets, id.
  destruct (Z.ltb_spec (resident_block_capacity a) target); [lia|].
  destruct (wp_elim _ _ _ _ (trim_inner_spec a protected target Hwf ltac:(lia))) as
    [(n&a'&->&_&Htr&->&Hcnt&_)|(e&a'&->&->&Hwf'&Htr&Hno&Hgt&Hst)].
  - left. by exists (resident_block_count a - resident_block_count a'), a'.
  - right. exists a'. split_and!; [done|done|done| |done]. intros i b Hb Hres.
    destruct (decide (Z.of_nat i ∈ protected)) as [|Hn]; [done|]. exfalso. apply (Hno (Z.of_nat i) b).
    split_and!; [lia|by rewrite Nat2Z.id| |done|done].
    apply resident_allocated; [by eapply block_ok_lookup|done].
Qed.

Lemma kv_trim_exact_witness :
  (exists n a', trim_resident_blocks [1] 1 full_arena = Ret n a' /\
     resident_block_count a' = Z.min 1 (resident_block_count full_arena) /\
     n = resident_block_count full_arena - resident_block_count a' /\ trimmed [1] full_arena a') \/
  (exists a', trim_resident_blocks [1] 1 full_arena = Fails CapacityExceeded a' /\
     1 < resident_block_count a' /\ trimmed [1] full_arena a' /\
     (forall i b, blocks a' !! i = Some b -> resident b = true -> Z.of_nat i ∈ [1]) /\
     resident_capacity_stall_count a' = resident_capacity_stall_count full_arena +u64 1).
Proof. apply (kv_trim_exact full_arena [1] 1); [apply full_arena_wf|simpl; lia]. Defined.

(** A referenced block is never given away: whatever call is made (other than
    the whole-arena [reset]) and whatever it returns, a block with a nonzero
    reference count stays allocated in the same generation. *)
Theorem kv_referenced_block_kept a c i b :
  kv_wf a -> kv_call_ok c -> c <> KvReset -> blocks a !! i = Some b -> 0 < block_reference_count b ->
  exists a' b', ((exists r, kv_run c a = Ret r a') \/ (exists e, kv_run c a = Fails e a')) /\
    blocks a' !! i = Some b' /\ allocated b' = true /\ block_generation b' = block_generation b.
Proof.
  intros Hwf Hc Hne Hb Hr.
  destruct (wp_elim _ _ _ _ (kv_run_spec a c Hwf Hc)) as [(r&a'&Hrun&_&_&[?|Hk])|(e&a'&Hrun&_&_&Hk)];
    [done| |]; destruct (Hk i b Hb Hr) as (b'&Hb'&Hal&Hg); exists a', b'; (split_and!; [|done..]); eauto.
Qed.

Lemma kv_referenced_block_kept_witness :
  exists a' b', ((exists r, kv_run (KvFree 2) full_arena = Ret r a') \/
      (exists e, kv_run (KvFree 2) full_arena = Fails e a')) /\
    blocks a' !! 2%nat = Some b' /\ allocated b' = true /\ block_generation b' = 1.
Proof.
  apply (kv_referenced_block_kept full_arena (KvFree 2) 2 (mkKvBlock 1 16 2 1 6 4352 0));
    [apply full_arena_wf|simpl; lia|discriminate|reflexivity|simpl; lia].
Defined.
