(* ===== verification/PrefixCache.v ===== *)
(** * The prefix cache: definitions ([crates/spark-core/src/prefix_cache.rs])

    Content-addressed block entries with parent-chained hashes, per-sequence
    bindings and the KV arena they draw their blocks from.  The whole file is
    modelled: the state is the record [PrefixCache], every method is a computation
    over it, and calls into the arena run the arena's own definitions on the
    [arena] field.  The invariant and the theorems are in the two files that
    follow. *)

From S2P Require Import Prelude KvArena.

Definition EMPTY_PARENT_HASH : Z := 1469598103934665603.

Definition NO_PHYSICAL_BLOCK : Z := 0xffffffff.

Definition NO_ENTRY : Z := 0xffffffff.

Definition MAX_BLOCK_TOKENS : Z := 256.

Definition ENTRY_FLAG_VALID : Z := 1.

Definition ENTRY_FLAG_REUSABLE : Z := 2.

Definition ENTRY_FLAG_PENDING : Z := 4.

Definition ENTRY_FLAG_LIVE_ONLY : Z := 8.

Definition BINDING_FLAG_VALID : Z := 1.

Definition BINDING_FLAG_PENDING : Z := 2.

Definition FNV_PRIME : Z := 1099511628211.

Definition CONTENT_HASH_SEED : Z := 7809847782465536322.

Definition GOLDEN_GAMMA_32 : Z := 0x9e3779b9.

Definition REUSE_SCORE_LOOKAHEAD_BASE : Z := 1000000000000000.

Definition REUSE_SCORE_PRIORITY_WEIGHT : Z := 1000000000.

Definition REUSE_SCORE_REQUEST_WEIGHT : Z := 10000000.

Definition REUSE_SCORE_REFERENCE_WEIGHT : Z := 1000000000000.

Definition REUSE_SCORE_TOKEN_DEPTH_WEIGHT : Z := 1024.

Inductive PrefixCacheError :=
| InvalidArgument | CapacityExceeded | NotFound | Busy | Duplicate | ModuleNotValidated | InternalError.

(** [impl From<KvArenaError> for PrefixCacheError] *)
Definition from_kv_error (e : KvArenaError) : PrefixCacheError :=
  match e with
  | KvArena.InvalidArgument => InvalidArgument
  | KvArena.CapacityExceeded => CapacityExceeded
  | KvArena.NotFound => NotFound
  | KvArena.Busy => Busy
  | KvArena.Internal => InternalError
  end.

(** ** Hashing *)

Definition mix_u64 (hash_value value : Z) : Z :=
  let hash_value := Z.lxor hash_value value in
  let hash_value := hash_value *u64 FNV_PRIME in
  Z.lxor hash_value (Z.shiftr hash_value 32).

(** The loop over [token_ids.iter().enumerate()], from position [k]. *)
Fixpoint hash_tokens (k : Z) (token_ids : list Z) (hash_value : Z) : Z :=
  match token_ids with
  | [] => hash_value
  | t :: ts => hash_tokens (k + 1) ts (mix_u64 hash_value (t +u64 u64 (Z.shiftl k 32)))
  end.

Definition hash_block (token_ids : list Z) (parent_hash : Z) : Z :=
  let hash_value := hash_tokens 0 token_ids (Z.lxor parent_hash FNV_PRIME) in
  mix_u64 hash_value (u64 (Z.of_nat (length token_ids))).

Fixpoint hash_content_tokens (k : Z) (token_ids : list Z) (hash_value : Z) : Z :=
  match token_ids with
  | [] => hash_value
  | t :: ts =>
      hash_content_tokens (k + 1) ts
        (mix_u64 hash_value (Z.lxor (u64 (Z.shiftl t 1)) (u32 k +u32 GOLDEN_GAMMA_32)))
  end.

Definition hash_block_content (token_ids : list Z) : Z :=
  mix_u64 (hash_content_tokens 0 token_ids CONTENT_HASH_SEED) (u64 (Z.of_nat (length token_ids))).

Record PromptHash := mkPromptHash {
  ph_token_count : Z;
  ph_hashed_token_count : Z;
  ph_block_count : Z;
  ph_last_block_token_count : Z;
  ph_parent_hash : Z;
  ph_prompt_hash : Z;
}.

(** The [while] loop advances by at least one token per round. *)
Definition hash_prompt_tokens (block_token_count parent_hash : Z) (token_ids : list Z)
    : M unit PrefixCacheError PromptHash :=
  if (block_token_count =? 0) || (MAX_BLOCK_TOKENS <? block_token_count) then throw InvalidArgument
  else
    let len := Z.of_nat (length token_ids) in
    let token_count := u32 len in
    let! r := loop (S (length token_ids)) (fun b =>
      let '(hash_value, token_offset, block_count) := b in
      if len <=? token_offset then ret (Break (hash_value, block_count))
      else
        let current := Z.min (len - token_offset) block_token_count in
        let! tokens := slice token_ids token_offset (token_offset + current) in
        ret (Continue (hash_block tokens hash_value, token_offset + current, block_count +u32 1)))
      (parent_hash, 0, 0) in
    ret (mkPromptHash token_count token_count r.2
           (if len =? 0 then 0 else ((token_count -u32 1) mod block_token_count) +u32 1)
           parent_hash r.1).

(** ** Data *)

Record PrefixCacheConfig := mkPrefixCacheConfig {
  pcfg_block_token_count : Z;
  pcfg_entry_count : Z;
  pcfg_physical_block_count : Z;
  pcfg_sequence_binding_count : Z;
}.

Record Lookup := mkLookup {
  lk_requested_token_count : Z;
  lk_matched_token_count : Z;
  lk_matched_block_count : Z;
  lk_next_token_index : Z;
  lk_physical_block_index : Z;
  lk_sequence_id : Z;
  lk_last_block_hash : Z;
}.

#[export] Instance Lookup_eta : RecordEta Lookup := fun l =>
  mkLookup (lk_requested_token_count l) (lk_matched_token_count l) (lk_matched_block_count l)
    (lk_next_token_index l) (lk_physical_block_index l) (lk_sequence_id l) (lk_last_block_hash l).

(** [Lookup::new] *)
Definition new_lookup (sequence_id requested_token_count : Z) : Lookup :=
  mkLookup requested_token_count 0 0 0 NO_PHYSICAL_BLOCK sequence_id EMPTY_PARENT_HASH.

Record Reservation := mkReservation {
  rs_requested_token_count : Z;
  rs_reserved_token_count : Z;
  rs_reusable_token_count : Z;
  rs_physical_block_count : Z;
  rs_cached_physical_block_count : Z;
  rs_pending_physical_block_count : Z;
  rs_sequence_id : Z;
  rs_reservation_epoch : Z;
  rs_last_block_hash : Z;
  rs_physical_block_indices : list Z;
}.

#[export] Instance Reservation_eta : RecordEta Reservation := fun r =>
  mkReservation (rs_requested_token_count r) (rs_reserved_token_count r) (rs_reusable_token_count r)
    (rs_physical_block_count r) (rs_cached_physical_block_count r) (rs_pending_physical_block_count r)
    (rs_sequence_id r) (rs_reservation_epoch r) (rs_last_block_hash r) (rs_physical_block_indices r).

Record PhysicalBlockTableProbe := mkPhysicalBlockTableProbe {
  pb_matched_token_count : Z;
  pb_physical_block_indices : list Z;
}.

Record PrefixResidencyProbe := mkPrefixResidencyProbe {
  pr_matched_token_count : Z;
  pr_resident_block_count : Z;
  pr_nonresident_block_count : Z;
}.

Record SequenceResidencyProbe := mkSequenceResidencyProbe {
  sr_physical_block_count : Z;
  sr_resident_block_count : Z;
  sr_nonresident_block_count : Z;
}.

Record LookaheadProtection := mkLookaheadProtection {
  lp_protected_token_count : Z;
  lp_protected_block_count : Z;
}.

Record PrefetchSourceBlock := mkPrefetchSourceBlock {
  ps_physical_block_index : Z;
  ps_token_capacity : Z;
  ps_first_token_index : Z;
  ps_token_count : Z;
  ps_generation : Z;
  ps_parent_hash : Z;
  ps_block_hash : Z;
  ps_content_hash : Z;
}.

Record PrefetchSourceProbe := mkPrefetchSourceProbe {
  pf_matched_token_count : Z;
  pf_source_blocks : list PrefetchSourceBlock;
}.

Record EntryView := mkEntryView {
  ev_flags : Z; ev_token_count : Z; ev_first_token_index : Z; ev_physical_block_index : Z;
  ev_reference_count : Z; ev_lookahead_priority : Z; ev_lookahead_request_count : Z;
  ev_parent_hash : Z; ev_block_hash : Z; ev_content_hash : Z; ev_last_used_tick : Z;
  ev_reservation_epoch : Z; ev_committed_epoch : Z; ev_lookahead_protection_epoch : Z;
}.

Record Entry := mkEntry {
  e_flags : Z;
  e_token_count : Z;
  e_first_token_index : Z;
  e_physical_block_index : Z;
  e_reference_count : Z;
  e_reserved : Z;
  e_lookahead_priority : Z;
  e_lookahead_request_count : Z;
  e_parent_hash : Z;
  e_block_hash : Z;
  e_content_hash : Z;
  e_last_used_tick : Z;
  e_reservation_epoch : Z;
  e_committed_epoch : Z;
  e_lookahead_protection_epoch : Z;
}.

#[export] Instance Entry_eta : RecordEta Entry := fun e =>
  mkEntry (e_flags e) (e_token_count e) (e_first_token_index e) (e_physical_block_index e)
    (e_reference_count e) (e_reserved e) (e_lookahead_priority e) (e_lookahead_request_count e)
    (e_parent_hash e) (e_block_hash e) (e_content_hash e) (e_last_used_tick e)
    (e_reservation_epoch e) (e_committed_epoch e) (e_lookahead_protection_epoch e).

(** [Entry::unallocated] *)
Definition unallocated_entry : Entry := mkEntry 0 0 0 NO_PHYSICAL_BLOCK 0 0 0 0 0 0 0 0 0 0 0.

Definition e_valid (e : Entry) : bool := has_flag (e_flags e) ENTRY_FLAG_VALID.

Definition e_pending (e : Entry) : bool := has_flag (e_flags e) ENTRY_FLAG_PENDING.

Definition is_evictable (e : Entry) : bool :=
  e_valid e && negb (e_pending e) && (e_reference_count e =? 0).

Definition view (e : Entry) : EntryView :=
  mkEntryView (e_flags e) (e_token_count e) (e_first_token_index e) (e_physical_block_index e)
    (e_reference_count e) (e_lookahead_priority e) (e_lookahead_request_count e)
    (e_parent_hash e) (e_block_hash e) (e_content_hash e) (e_last_used_tick e)
    (e_reservation_epoch e) (e_committed_epoch e) (e_lookahead_protection_epoch e).

Record Binding := mkBinding {
  b_flags : Z;
  b_entry_index : Z;
  b_first_token_index : Z;
  b_token_count : Z;
  b_physical_block_index : Z;
  b_reserved : Z;
  b_sequence_id : Z;
  b_parent_hash : Z;
  b_block_hash : Z;
  b_acquire_epoch : Z;
}.

#[export] Instance Binding_eta : RecordEta Binding := fun b =>
  mkBinding (b_flags b) (b_entry_index b) (b_first_token_index b) (b_token_count b)
    (b_physical_block_index b) (b_reserved b) (b_sequence_id b) (b_parent_hash b)
    (b_block_hash b) (b_acquire_epoch b).

(** [Binding::unallocated] *)
Definition unallocated_binding : Binding := mkBinding 0 NO_ENTRY 0 0 NO_PHYSICAL_BLOCK 0 0 0 0 0.

Definition b_valid (b : Binding) : bool := has_flag (b_flags b) BINDING_FLAG_VALID.

Definition protected_victim_is_better (candidate current : Entry) : bool :=
  if negb (e_lookahead_priority candidate =? e_lookahead_priority current)
  then e_lookahead_priority candidate <? e_lookahead_priority current
  else e_last_used_tick candidate <? e_last_used_tick current.

Record ChainWalk := mkChainWalk {
  cw_parent_hash : Z;
  cw_block_hash : Z;
  cw_token_offset : Z;
  cw_reusable_token_count : Z;
  cw_matched_block_count : Z;
}.

#[export] Instance ChainWalk_eta : RecordEta ChainWalk := fun w =>
  mkChainWalk (cw_parent_hash w) (cw_block_hash w) (cw_token_offset w)
    (cw_reusable_token_count w) (cw_matched_block_count w).

Definition default_walk : ChainWalk := mkChainWalk 0 0 0 0 0.

Record ResidentEvictionCandidate := mkCandidate {
  rc_physical_block_index : Z;
  rc_has_prefix_entry : bool;
  rc_has_lookahead_protection : bool;
  rc_keep_score : Z;
  rc_last_used_epoch : Z;
}.

(** [ResidentEvictionCandidate::none] *)
Definition no_candidate : ResidentEvictionCandidate :=
  mkCandidate NO_PHYSICAL_BLOCK false false U64_MAX U64_MAX.

Definition is_better (self current : ResidentEvictionCandidate) : bool :=
  if rc_physical_block_index current =? NO_PHYSICAL_BLOCK then true
  else if negb (rc_keep_score self =? rc_keep_score current)
  then rc_keep_score self <? rc_keep_score current
  else if negb (Bool.eqb (rc_has_prefix_entry self) (rc_has_prefix_entry current))
  then negb (rc_has_prefix_entry self)
  else if negb (rc_last_used_epoch self =? rc_last_used_epoch current)
  then rc_last_used_epoch self <? rc_last_used_epoch current
  else rc_physical_block_index self <? rc_physical_block_index current.

Record PrefixCache := mkPrefixCache {
  block_token_count : Z;
  physical_block_count : Z;
  entries : list Entry;
  bindings : list Binding;
  arena : KvArena.KvArena;
  free_entry_head : Z;
  free_binding_head : Z;
  tick : Z;
  operation_epoch : Z;
  lookup_count : Z;
  hit_count : Z;
  miss_count : Z;
  inserted_block_count : Z;
  evicted_block_count : Z;
  acquired_block_count : Z;
  released_block_count : Z;
  reserved_block_count : Z;
  committed_reserved_block_count : Z;
  cancelled_reserved_block_count : Z;
  live_only_block_count : Z;
  lookahead_protection_epoch : Z;
  lookahead_protected_block_count : Z;
  lookahead_protected_eviction_skip_count : Z;
  reuse_scored_resident_eviction_count : Z;
  reuse_scored_lookahead_eviction_count : Z;
  reuse_scored_untracked_eviction_count : Z;
  reuse_scored_capacity_stall_count : Z;
}.

#[export] Instance PrefixCache_eta : RecordEta PrefixCache := fun c =>
  mkPrefixCache (block_token_count c) (physical_block_count c) (entries c) (bindings c) (arena c)
    (free_entry_head c) (free_binding_head c) (tick c) (operation_epoch c) (lookup_count c)
    (hit_count c) (miss_count c) (inserted_block_count c) (evicted_block_count c)
    (acquired_block_count c) (released_block_count c) (reserved_block_count c)
    (committed_reserved_block_count c) (cancelled_reserved_block_count c)
    (live_only_block_count c) (lookahead_protection_epoch c) (lookahead_protected_block_count c)
    (lookahead_protected_eviction_skip_count c) (reuse_scored_resident_eviction_count c)
    (reuse_scored_lookahead_eviction_count c) (reuse_scored_untracked_eviction_count c)
    (reuse_scored_capacity_stall_count c).

Abbreviation PM := (M PrefixCache PrefixCacheError).

(** The free chain the constructor and [reset] thread through the [reserved] words. *)
Definition link_entries (n : Z) : list Entry :=
  (fun i => unallocated_entry <| e_reserved := if i + 1 <? n then u32 i +u32 1 else NO_ENTRY |>)
    <$> range 0 n.

Definition link_bindings (n : Z) : list Binding :=
  (fun i => unallocated_binding <| b_reserved := if i + 1 <? n then u32 i +u32 1 else NO_ENTRY |>)
    <$> range 0 n.

Definition new (config : PrefixCacheConfig) (a : KvArena.KvArena) : M unit PrefixCacheError PrefixCache :=
  if (pcfg_block_token_count config =? 0)
     || (MAX_BLOCK_TOKENS <? pcfg_block_token_count config)
     || (pcfg_entry_count config =? 0)
     || (pcfg_physical_block_count config =? 0)
     || (pcfg_sequence_binding_count config =? 0)
  then throw InvalidArgument
  else if (KvArena.physical_block_count a <? pcfg_physical_block_count config)
     || negb (KvArena.block_token_count a =? pcfg_block_token_count config)
  then throw InvalidArgument
  else
    ret (mkPrefixCache (pcfg_block_token_count config) (pcfg_physical_block_count config)
      (link_entries (pcfg_entry_count config)) (link_bindings (pcfg_sequence_binding_count config)) a
      0 0 0 0 0 0 0 0 0 0 0 0 0 0 0 0 0 0 0 0 0 0).

Definition entry_view (c : PrefixCache) (entry_index : Z) : option EntryView :=
  view <$> entries c !! Z.to_nat entry_index.

Definition entry_count (c : PrefixCache) : Z := u32 (Z.of_nat (length (entries c))).

Definition maximum_reusable_token_count (c : PrefixCache) (token_count : Z) : Z :=
  if token_count <=? 1 then 0
  else (token_count -u32 1) -u32 ((token_count -u32 1) mod block_token_count c).

Definition full_block_token_count (c : PrefixCache) (token_count : Z) : Z :=
  token_count -u32 (token_count mod block_token_count c).

Definition ceil_block_count (c : PrefixCache) (token_count : Z) : Z :=
  div_ceil token_count (block_token_count c).

(** [entry_is_reusable] and [entry_has_current_lookahead_protection] on the entry
    itself; callers index [entries] first. *)
Definition entry_is_reusable (c : PrefixCache) (e : Entry) : bool :=
  e_valid e && has_flag (e_flags e) ENTRY_FLAG_REUSABLE && negb (e_pending e)
  && (e_token_count e =? block_token_count c).

Definition entry_has_current_lookahead_protection (c : PrefixCache) (e : Entry) : bool :=
  negb (lookahead_protection_epoch c =? 0)
  && (e_lookahead_protection_epoch e =? lookahead_protection_epoch c).

Definition find_entry (c : PrefixCache) (parent_hash block_hash content_hash first_token_index
    token_count : Z) (reusable_only : bool) : option Z :=
  position (fun e => e_valid e && (e_parent_hash e =? parent_hash) && (e_block_hash e =? block_hash)
    && (e_content_hash e =? content_hash) && (e_first_token_index e =? first_token_index)
    && (e_token_count e =? token_count) && (negb reusable_only || entry_is_reusable c e)) (entries c).

Definition find_binding (c : PrefixCache) (sequence_id entry_index : Z) : option Z :=
  position (fun b => b_valid b && (b_sequence_id b =? sequence_id) && (b_entry_index b =? entry_index))
    (bindings c).

Definition find_binding_at_token_offset (c : PrefixCache) (sequence_id first_token_index : Z) : option Z :=
  position (fun b => b_valid b && (b_sequence_id b =? sequence_id)
    && (b_first_token_index b =? first_token_index)) (bindings c).

Definition find_free_binding (c : PrefixCache) : option Z :=
  if free_binding_head c =? NO_ENTRY then None
  else
    let head := free_binding_head c in
    match bindings c !! Z.to_nat head with
    | None => None
    | Some b => if b_valid b then None else Some head
    end.

(** Field updates of one entry, one binding, and calls into the arena. *)
Definition upd_entry (i : Z) (f : Entry -> Entry) : PM unit :=
  modify (fun c => c <| entries := upd_nth i f (entries c) |>).

Definition upd_binding (i : Z) (f : Binding -> Binding) : PM unit :=
  modify (fun c => c <| bindings := upd_nth i f (bindings c) |>).

Definition on_arena {A} (m : M KvArena.KvArena KvArenaError A) : PM A :=
  zoom arena (fun a c => c <| arena := a |>) from_kv_error m.

(** ** Entries and bindings *)

(** One round of the victim scan on the locals [(unprotected, protected)]. *)
Definition victim_round (c : PrefixCache) (i : Z) (acc : option Z * option Z)
    : PM (flow (option Z * option Z) Z) :=
  let '(unprotected, protected) := acc in
  let! e := index (entries c) i in
  if negb (e_valid e) then ret (Break i)
  else if negb (is_evictable e) then ret (Continue acc)
  else if entry_has_current_lookahead_protection c e then
    let! better :=
      match protected with
      | None => ret true
      | Some current =>
          let! cur := index (entries c) current in ret (protected_victim_is_better e cur)
      end in
    ret (Continue (unprotected, if better then Some i else protected))
  else
    let! better :=
      match unprotected with
      | None => ret true
      | Some current =>
          let! cur := index (entries c) current in ret (e_last_used_tick e <? e_last_used_tick cur)
      end in
    ret (Continue (if better then Some i else unprotected, protected)).

Definition select_victim : PM (option Z) :=
  let! c := gets id in
  if negb (free_entry_head c =? NO_ENTRY) then
    let head := free_entry_head c in
    match entries c !! Z.to_nat head with
    | None => ret None
    | Some e => if e_valid e then ret None else ret (Some head)
    end
  else
    let! r := for_flow (range 0 (u32 (Z.of_nat (length (entries c))))) (victim_round c) (None, None) in
    match r with
    | Break i => ret (Some i)
    | Continue (Some u, _) => ret (Some u)
    | Continue (None, protected) =>
        when! match protected with Some _ => true | None => false end then
          modify (fun c => c <| lookahead_protected_eviction_skip_count :=
            lookahead_protected_eviction_skip_count c +u64 1 |>) in
        ret protected
    end.

Definition invalidate_entry (entry_index : Z) : PM unit :=
  let! c := gets id in
  match entries c !! Z.to_nat entry_index with
  | None => throw InvalidArgument
  | Some e =>
      if negb (e_valid e) then ret tt
      else if negb (e_reference_count e =? 0) then throw Busy
      else
        when! negb (e_physical_block_index e =? NO_PHYSICAL_BLOCK) then
          on_arena (free_block (e_physical_block_index e)) in
        let! head := gets free_entry_head in
        do! upd_entry entry_index (fun _ => unallocated_entry <| e_reserved := head |>) in
        modify (fun c => c <| free_entry_head := entry_index |>)
  end.

(** The block of the entry being installed: the one of the entry it evicts,
    recycled, or a freshly acquired one for a free slot. *)
Definition install_block (entry_index : Z) (e : Entry) : PM Z :=
  if e_valid e then
    if negb (e_reference_count e =? 0) then throw Busy
    else
      let physical := e_physical_block_index e in
      do! on_arena (recycle_block physical) in
      do! modify (fun c => c <| evicted_block_count := evicted_block_count c +u64 1 |>) in
      ret physical
  else
    let! head := gets free_entry_head in
    if negb (head =? entry_index) then throw InternalError
    else
      let next_free_entry_index := e_reserved e in
      let! physical := on_arena acquire_block in
      do! modify (fun c => c <| free_entry_head := next_free_entry_index |>) in
      ret physical.

(** The fields an installed entry gets. *)
Definition installed (e : Entry) (entry_flags parent_hash block_hash content_hash first_token_index
    token_count op_epoch physical now : Z) : Entry :=
  e <| e_flags := Z.lor ENTRY_FLAG_VALID entry_flags |> <| e_token_count := token_count |>
    <| e_first_token_index := first_token_index |> <| e_physical_block_index := physical |>
    <| e_reference_count := 0 |> <| e_reserved := 0 |> <| e_parent_hash := parent_hash |>
    <| e_block_hash := block_hash |> <| e_content_hash := content_hash |>
    <| e_reservation_epoch := op_epoch |> <| e_committed_epoch := 0 |>
    <| e_lookahead_priority := 0 |> <| e_lookahead_request_count := 0 |>
    <| e_lookahead_protection_epoch := 0 |> <| e_last_used_tick := now |>.

Definition install_entry (entry_index entry_flags parent_hash block_hash content_hash
    first_token_index token_count op_epoch : Z) : PM unit :=
  let! c := gets id in
  match entries c !! Z.to_nat entry_index with
  | None => throw InvalidArgument
  | Some e =>
      let! physical := install_block entry_index e in
      do! modify (fun c => c <| tick := tick c +u64 1 |>) in
      let! now := gets tick in
      do! upd_entry entry_index (fun e => installed e entry_flags parent_hash block_hash content_hash
            first_token_index token_count op_epoch physical now) in
      do! modify (fun c => c <| inserted_block_count := inserted_block_count c +u64 1 |>) in
      if has_flag entry_flags ENTRY_FLAG_LIVE_ONLY
      then modify (fun c => c <| live_only_block_count := live_only_block_count c +u64 1 |>)
      else ret tt
  end.

Definition release_binding (binding_index : Z) : PM unit :=
  let! c := gets id in
  match bindings c !! Z.to_nat binding_index with
  | None => throw InvalidArgument
  | Some b =>
      if negb (b_valid b) then ret tt
      else
        match entries c !! Z.to_nat (b_entry_index b) with
        | None => throw InvalidArgument
        | Some e =>
            if e_reference_count e =? 0 then throw InvalidArgument
            else
              do! on_arena (release_block_reference (b_physical_block_index b)) in
              do! upd_entry (b_entry_index b)
                    (fun e => e <| e_reference_count := e_reference_count e -u32 1 |>) in
              do! modify (fun c => c <| released_block_count := released_block_count c +u64 1 |>) in
              let! head := gets free_binding_head in
              do! upd_binding binding_index (fun _ => unallocated_binding <| b_reserved := head |>) in
              modify (fun c => c <| free_binding_head := binding_index |>)
        end
  end.

Definition acquire_entry_for_sequence (sequence_id entry_index op_epoch : Z)
    (binding_is_pending : bool) : PM unit :=
  let! c := gets id in
  match entries c !! Z.to_nat entry_index with
  | None => throw InvalidArgument
  | Some e =>
      match find_binding c sequence_id entry_index with
      | Some bi =>
          if binding_is_pending
          then upd_binding bi (fun b => b <| b_flags := Z.lor (b_flags b) BINDING_FLAG_PENDING |>)
          else ret tt
      | None =>
          match find_free_binding c with
          | None => throw CapacityExceeded
          | Some bi =>
              let physical := e_physical_block_index e in
              do! on_arena (retain_block physical) in
              let! b := index (bindings c) bi in
              if negb (free_binding_head c =? bi) then
                do! ignore (on_arena (release_block_reference physical)) in
                throw InternalError
              else
                do! modify (fun c => c <| free_binding_head := b_reserved b |>) in
                do! upd_binding bi (fun b => b
                      <| b_flags := if binding_is_pending
                                    then Z.lor BINDING_FLAG_VALID BINDING_FLAG_PENDING
                                    else BINDING_FLAG_VALID |>
                      <| b_entry_index := entry_index |>
                      <| b_first_token_index := e_first_token_index e |>
                      <| b_token_count := e_token_count e |>
                      <| b_physical_block_index := e_physical_block_index e |>
                      <| b_sequence_id := sequence_id |> <| b_parent_hash := e_parent_hash e |>
                      <| b_block_hash := e_block_hash e |> <| b_acquire_epoch := op_epoch |>) in
                do! upd_entry entry_index
                      (fun e => e <| e_reference_count := e_reference_count e +u32 1 |>) in
                modify (fun c => c <| acquired_block_count := acquired_block_count c +u64 1 |>)
          end
      end
  end.

(** Two of the loops over all bindings and all entries: release the bindings that
    satisfy [p], and invalidate the entries that satisfy [q]. *)
Definition release_bindings_where (p : Binding -> bool) : PM unit :=
  let! n := gets (fun c => u32 (Z.of_nat (length (bindings c)))) in
  for_fold (range 0 n) (fun i _ =>
    let! c := gets id in
    let! b := index (bindings c) i in
    if p b then release_binding i else ret tt) tt.

Definition invalidate_entries_where (q : Entry -> bool) (after : PM unit) : PM unit :=
  let! n := gets (fun c => u32 (Z.of_nat (length (entries c)))) in
  for_fold (range 0 n) (fun i _ =>
    let! c := gets id in
    let! e := index (entries c) i in
    if q e then do! invalidate_entry i in after else ret tt) tt.

Definition rollback_epoch (sequence_id op_epoch : Z) : PM unit :=
  do! release_bindings_where (fun b =>
        b_valid b && (b_sequence_id b =? sequence_id) && (b_acquire_epoch b =? op_epoch)) in
  invalidate_entries_where (fun e =>
      e_valid e && e_pending e && (e_reservation_epoch e =? op_epoch) && (e_reference_count e =? 0))
    (modify (fun c => c <| cancelled_reserved_block_count := cancelled_reserved_block_count c +u64 1 |>)).

(** [let _ = self.rollback_epoch(..); return Err(status);] *)
Definition fail_with_rollback {A} (sequence_id op_epoch : Z) (status : PrefixCacheError) : PM A :=
  do! ignore (rollback_epoch sequence_id op_epoch) in
  throw status.

(** [self.operation_epoch += 1; let operation_epoch = self.operation_epoch;] *)
Definition next_epoch : PM Z :=
  do! modify (fun c => c <| operation_epoch := operation_epoch c +u64 1 |>) in
  gets operation_epoch.

(** ** Probing *)

(** The sequence's own binding at the offset, when its entry is the block sought. *)
Definition own_entry (sequence_id token_offset parent_hash block_hash content_hash : Z) : PM (option Z) :=
  let! c := gets id in
  match find_binding_at_token_offset c sequence_id token_offset with
  | None => ret None
  | Some bi =>
      let! b := index (bindings c) bi in
      match entries c !! Z.to_nat (b_entry_index b) with
      | None => ret None
      | Some e =>
          if e_valid e && (e_first_token_index e =? token_offset)
             && (e_token_count e =? block_token_count c) && (e_parent_hash e =? parent_hash)
             && (e_block_hash e =? block_hash) && (e_content_hash e =? content_hash)
          then ret (Some (b_entry_index b)) else ret None
      end
  end.

(** One round of [probe_prompt]'s loop on [(parent_hash, token_offset, lookup)]. *)
Definition probe_round (sequence_id : Z) (token_ids : list Z) (reusable_token_count : Z)
    (b : Z * Z * Lookup) : PM (flow (Z * Z * Lookup) Lookup) :=
  let '(parent_hash, token_offset, lookup) := b in
  let! c := gets id in
  if reusable_token_count <=? token_offset then ret (Break lookup)
  else
    let! block_tokens := slice token_ids token_offset (token_offset +u32 block_token_count c) in
    let block_hash := hash_block block_tokens parent_hash in
    let content_hash := hash_block_content block_tokens in
    let! own := own_entry sequence_id token_offset parent_hash block_hash content_hash in
    let entry_index :=
      match own with
      | Some i => Some i
      | None => find_entry c parent_hash block_hash content_hash token_offset (block_token_count c) true
      end in
    match entry_index with
    | None => ret (Break lookup)
    | Some i =>
        do! modify (fun c => c <| tick := tick c +u64 1 |>) in
        let! now := gets tick in
        let! e := index (entries c) i in
        do! upd_entry i (fun e => e <| e_last_used_tick := now |>) in
        ret (Continue (block_hash, token_offset +u32 block_token_count c,
          lookup <| lk_matched_token_count := lk_matched_token_count lookup +u32 block_token_count c |>
                 <| lk_matched_block_count := lk_matched_block_count lookup +u32 1 |>
                 <| lk_physical_block_index := e_physical_block_index e |>
                 <| lk_last_block_hash := block_hash |>))
    end.

(** Each round of the loop moves [token_offset] by a whole block, so
    [reusable_token_count] rounds are enough. *)
Definition probe_prompt (sequence_id : Z) (token_ids : list Z) : PM Lookup :=
  if (Z.of_nat (length token_ids) =? 0) || (sequence_id =? 0) then throw InvalidArgument
  else
    let token_count := u32 (Z.of_nat (length token_ids)) in
    do! modify (fun c => c <| lookup_count := lookup_count c +u64 1 |>) in
    let! c := gets id in
    let reusable_token_count := maximum_reusable_token_count c token_count in
    let! lookup := loop (S (Z.to_nat reusable_token_count))
      (probe_round sequence_id token_ids reusable_token_count)
      (EMPTY_PARENT_HASH, 0, new_lookup sequence_id token_count) in
    let lookup := lookup <| lk_next_token_index := lk_matched_token_count lookup |> in
    do! (if negb (lk_matched_token_count lookup =? 0)
         then modify (fun c => c <| hit_count := hit_count c +u64 1 |>)
         else modify (fun c => c <| miss_count := miss_count c +u64 1 |>)) in
    ret lookup.

Definition walk_next (token_ids : list Z) (walk : ChainWalk) : PM (option Z * ChainWalk) :=
  let! c := gets id in
  let! walk :=
    (if (cw_matched_block_count walk =? 0) && (cw_token_offset walk =? 0) then
       ret (walk <| cw_parent_hash := EMPTY_PARENT_HASH |>
                 <| cw_reusable_token_count :=
                      maximum_reusable_token_count c (u32 (Z.of_nat (length token_ids))) |>)
     else
       do! modify (fun c => c <| tick := tick c +u64 1 |>) in
       ret (walk <| cw_parent_hash := cw_block_hash walk |>
                 <| cw_token_offset := cw_token_offset walk +u32 block_token_count c |>)) in
  if cw_reusable_token_count walk <=? cw_token_offset walk then ret (None, walk)
  else
    let offset := cw_token_offset walk in
    let! block_tokens := slice token_ids offset (offset +u64 block_token_count c) in
    let walk := walk <| cw_block_hash := hash_block block_tokens (cw_parent_hash walk) |> in
    let content_hash := hash_block_content block_tokens in
    match find_entry c (cw_parent_hash walk) (cw_block_hash walk) content_hash
            (cw_token_offset walk) (block_token_count c) true with
    | None => ret (None, walk)
    | Some i =>
        let! now := gets tick in
        do! upd_entry i (fun e => e <| e_last_used_tick := now +u64 1 |>) in
        ret (Some i, walk <| cw_matched_block_count := cw_matched_block_count walk +u32 1 |>)
    end.

(** [while let Some(entry_index) = self.walk_next(token_ids, &mut walk) { .. }] on
    the loop's accumulator; the walk visits at most one block per token. *)
Definition walk_prefix {A} (token_ids : list Z) (visit : Z -> A -> PM A) (acc : A) : PM A :=
  loop (S (S (length token_ids))) (fun b =>
    let '(walk, acc) := b in
    let! r := walk_next token_ids walk in
    match r with
    | (None, _) => ret (Break acc)
    | (Some i, walk') => let! acc' := visit i acc in ret (Continue (walk', acc'))
    end) (default_walk, acc).

Definition probe_physical_block_table (token_ids : list Z) (capacity : Z) : PM PhysicalBlockTableProbe :=
  if Z.of_nat (length token_ids) =? 0 then throw InvalidArgument
  else
    let! indices := walk_prefix token_ids (fun i indices =>
      if capacity <=? u32 (Z.of_nat (length indices)) then throw CapacityExceeded
      else
        let! c := gets id in
        let! e := index (entries c) i in
        ret (indices ++ [e_physical_block_index e])) [] in
    let! c := gets id in
    ret (mkPhysicalBlockTableProbe (u32 (Z.of_nat (length indices)) *u32 block_token_count c) indices).

Definition fill_prefetch_source_block (entry_index : Z) : PM PrefetchSourceBlock :=
  let! c := gets id in
  let! e := index (entries c) entry_index in
  let physical := e_physical_block_index e in
  if negb (e_valid e) || (physical =? NO_PHYSICAL_BLOCK) || (physical_block_count c <=? physical)
  then throw InvalidArgument
  else
    let! generation :=
      catch (on_arena (let! v := resolve_block physical in ret (view_generation v)))
            (fun _ => ret 0) in
    ret (mkPrefetchSourceBlock physical (block_token_count c) (e_first_token_index e)
           (e_token_count e) generation (e_parent_hash e) (e_block_hash e) (e_content_hash e)).

Definition probe_reusable_prefix_prefetch_sources (token_ids : list Z) (capacity : Z)
    : PM PrefetchSourceProbe :=
  if Z.of_nat (length token_ids) =? 0 then throw InvalidArgument
  else
    let! blocks := walk_prefix token_ids (fun i blocks =>
      if capacity <=? u32 (Z.of_nat (length blocks)) then throw CapacityExceeded
      else let! s := fill_prefetch_source_block i in ret (blocks ++ [s])) [] in
    let! c := gets id in
    ret (mkPrefetchSourceProbe (u32 (Z.of_nat (length blocks)) *u32 block_token_count c) blocks).

(** [physical_block_index < self.physical_block_count && !self.arena.is_resident(..)] *)
Definition block_is_nonresident (c : PrefixCache) (physical : Z) : bool :=
  (physical <? physical_block_count c) && negb (is_resident (arena c) physical).

Definition probe_reusable_prefix_residency (token_ids : list Z) : PM PrefixResidencyProbe :=
  if Z.of_nat (length token_ids) =? 0 then throw InvalidArgument
  else
    let! '(r, n) := walk_prefix token_ids (fun i acc =>
      let! c := gets id in
      let! e := index (entries c) i in
      if block_is_nonresident c (e_physical_block_index e)
      then ret (acc.1, acc.2 +u32 1) else ret (acc.1 +u32 1, acc.2)) (0, 0) in
    let! c := gets id in
    ret (mkPrefixResidencyProbe ((r +u32 n) *u32 block_token_count c) r n).

(** ** Lookahead protection and residency *)

Definition reset_lookahead_protection : PM unit :=
  do! modify (fun c => c <| lookahead_protection_epoch := lookahead_protection_epoch c +u64 1 |>) in
  let! c := gets id in
  if lookahead_protection_epoch c =? 0 then
    do! modify (fun c => c <| lookahead_protection_epoch := 1 |>) in
    modify (fun c => c <| entries := (fun e => e <| e_lookahead_protection_epoch := 0 |>
      <| e_lookahead_priority := 0 |> <| e_lookahead_request_count := 0 |>) <$> entries c |>)
  else ret tt.

(** One round of [protect_prompt_lookahead] on [(parent_hash, token_offset, count)]. *)
Definition protect_round (token_ids : list Z) (demand_weight reusable_token_count : Z)
    (b : Z * Z * Z) : PM (flow (Z * Z * Z) Z) :=
  let '(parent_hash, token_offset, protected_block_count) := b in
  let! c := gets id in
  if reusable_token_count <=? token_offset then ret (Break protected_block_count)
  else
    let! block_tokens := slice token_ids token_offset (token_offset +u32 block_token_count c) in
    let block_hash := hash_block block_tokens parent_hash in
    let content_hash := hash_block_content block_tokens in
    match find_entry c parent_hash block_hash content_hash token_offset (block_token_count c) true with
    | None => ret (Break protected_block_count)
    | Some i =>
        let! e := index (entries c) i in
        do! (if negb (e_lookahead_protection_epoch e =? lookahead_protection_epoch c) then
               do! upd_entry i (fun e => e
                     <| e_lookahead_protection_epoch := lookahead_protection_epoch c |>
                     <| e_lookahead_priority := demand_weight |> <| e_lookahead_request_count := 1 |>) in
               modify (fun c => c <| lookahead_protected_block_count :=
                 lookahead_protected_block_count c +u64 1 |>)
             else
               do! (if e_lookahead_priority e <? demand_weight
                    then upd_entry i (fun e => e <| e_lookahead_priority := demand_weight |>)
                    else ret tt) in
               upd_entry i (fun e => e <| e_lookahead_request_count :=
                 sat_add32 (e_lookahead_request_count e) 1 |>)) in
        ret (Continue (block_hash, token_offset +u32 block_token_count c, protected_block_count +u32 1))
    end.

Definition protect_prompt_lookahead (token_ids : list Z) (demand_weight : Z) : PM LookaheadProtection :=
  if Z.of_nat (length token_ids) =? 0 then throw InvalidArgument
  else
    let! c := gets id in
    when! lookahead_protection_epoch c =? 0 then reset_lookahead_protection in
    let! c := gets id in
    let reusable_token_count := maximum_reusable_token_count c (u32 (Z.of_nat (length token_ids))) in
    let! count := loop (S (Z.to_nat reusable_token_count))
      (protect_round token_ids demand_weight reusable_token_count) (EMPTY_PARENT_HASH, 0, 0) in
    let! c := gets id in
    ret (mkLookaheadProtection (count *u32 block_token_count c) count).

Definition find_resident_entry_for_physical_block (c : PrefixCache) (physical : Z) : PM (option Z) :=
  for_fold (range 0 (Z.of_nat (length (entries c)))) (fun i best =>
    let! e := index (entries c) i in
    if negb (e_valid e) || negb (e_physical_block_index e =? physical) then ret best
    else
      match best with
      | None => ret (Some i)
      | Some b =>
          let! eb := index (entries c) b in
          if protected_victim_is_better eb e then ret (Some i) else ret best
      end) None.

Definition compute_resident_block_keep_score (c : PrefixCache) (physical : Z) (entry : option Entry) : Z :=
  let score := last_used_epoch (arena c) physical in
  let score := sat_add64 score
    (sat_mul64 (reference_count (arena c) physical) REUSE_SCORE_REFERENCE_WEIGHT) in
  match entry with
  | None => score
  | Some e =>
      let score := sat_add64 score (e_last_used_tick e) in
      let score := sat_add64 score (sat_mul64 (e_reference_count e) REUSE_SCORE_REFERENCE_WEIGHT) in
      let prefix_token_depth := e_first_token_index e +u32 e_token_count e in
      let score := sat_add64 score (sat_mul64 prefix_token_depth REUSE_SCORE_TOKEN_DEPTH_WEIGHT) in
      if entry_has_current_lookahead_protection c e then
        let score := sat_add64 score REUSE_SCORE_LOOKAHEAD_BASE in
        let score := sat_add64 score (sat_mul64 (e_lookahead_priority e) REUSE_SCORE_PRIORITY_WEIGHT) in
        sat_add64 score (sat_mul64 (e_lookahead_request_count e) REUSE_SCORE_REQUEST_WEIGHT)
      else score
  end.

(** The candidate for one resident block. *)
Definition eviction_candidate (c : PrefixCache) (physical : Z) : PM ResidentEvictionCandidate :=
  let! found := find_resident_entry_for_physical_block c physical in
  let! entry :=
    match found with
    | None => ret None
    | Some i => let! e := index (entries c) i in ret (Some e)
    end in
  ret (mkCandidate physical (match entry with Some _ => true | None => false end)
    (match entry with Some e => entry_has_current_lookahead_protection c e | None => false end)
    (compute_resident_block_keep_score c physical entry) (last_used_epoch (arena c) physical)).

Definition select_resident_reuse_score_victim (hard_protected : list Z)
    : PM (option ResidentEvictionCandidate) :=
  let! c := gets id in
  let! victim := for_fold (range 0 (KvArena.physical_block_count (arena c))) (fun i victim =>
    if negb (is_allocated (arena c) i) || negb (is_resident (arena c) i)
       || bool_decide (i ∈ hard_protected)
    then ret victim
    else
      let! candidate := eviction_candidate c i in
      ret (if is_better candidate victim then candidate else victim)) no_candidate in
  ret (if rc_physical_block_index victim =? NO_PHYSICAL_BLOCK then None else Some victim).

(** The [while] loop; each round lowers the arena's [resident_block_count]. *)
Definition trim_resident_blocks_by_reuse_score (max_resident : Z) (hard_protected : list Z) : PM Z :=
  let! c := gets id in
  if KvArena.physical_block_count (arena c) <? max_resident then throw InvalidArgument
  else
    loop (S (Z.to_nat (resident_block_count (arena c)))) (fun evicted =>
      let! c := gets id in
      if resident_block_count (arena c) <=? max_resident then ret (Break evicted)
      else
        let! victim := select_resident_reuse_score_victim hard_protected in
        match victim with
        | None =>
            do! modify (fun c => c <| reuse_scored_capacity_stall_count :=
                  reuse_scored_capacity_stall_count c +u64 1 |>) in
            throw CapacityExceeded
        | Some v =>
            do! on_arena (mark_block_nonresident (rc_physical_block_index v)) in
            do! modify (fun c => c <| reuse_scored_resident_eviction_count :=
                  reuse_scored_resident_eviction_count c +u64 1 |>) in
            when! rc_has_lookahead_protection v then
              modify (fun c => c <| reuse_scored_lookahead_eviction_count :=
                reuse_scored_lookahead_eviction_count c +u64 1 |>) in
            when! negb (rc_has_prefix_entry v) then
              modify (fun c => c <| reuse_scored_untracked_eviction_count :=
                reuse_scored_untracked_eviction_count c +u64 1 |>) in
            ret (Continue (evicted +u32 1))
        end) 0.

(** ** Lookup, reservation, commit *)

(** One round of [lookup_prompt]'s binding loop on [(parent_hash, token_offset)]. *)
Definition lookup_round (sequence_id : Z) (token_ids : list Z) (matched op_epoch : Z) (b : Z * Z)
    : PM (flow (Z * Z) unit) :=
  let '(parent_hash, token_offset) := b in
  let! c := gets id in
  if matched <=? token_offset then ret (Break tt)
  else
    let! block_tokens := slice token_ids token_offset (token_offset +u32 block_token_count c) in
    let block_hash := hash_block block_tokens parent_hash in
    let content_hash := hash_block_content block_tokens in
    match find_entry c parent_hash block_hash content_hash token_offset (block_token_count c) true with
    | None => fail_with_rollback sequence_id op_epoch InternalError
    | Some i =>
        do! catch (acquire_entry_for_sequence sequence_id i op_epoch false)
              (fun status => fail_with_rollback sequence_id op_epoch status) in
        ret (Continue (block_hash, token_offset +u32 block_token_count c))
    end.

Definition lookup_prompt (sequence_id : Z) (token_ids : list Z) : PM Lookup :=
  let! probe := probe_prompt sequence_id token_ids in
  let! op_epoch := next_epoch in
  let matched := lk_matched_token_count probe in
  do! loop (S (Z.to_nat matched)) (lookup_round sequence_id token_ids matched op_epoch)
        (EMPTY_PARENT_HASH, 0) in
  ret probe.

(** The entry a reservation uses for one block: the sequence's own binding, a
    reusable entry with the same content, or a victim installed as pending. *)
Definition existing_entry (c : PrefixCache) (sequence_id token_offset : Z) : PM (option Z) :=
  match find_binding_at_token_offset c sequence_id token_offset with
  | None => ret None
  | Some bi =>
      let! b := index (bindings c) bi in
      let i := b_entry_index b in
      ret (if i <? Z.of_nat (length (entries c)) then Some i else None)
  end.

Definition reserve_victim (sequence_id op_epoch entry_flags parent_hash block_hash content_hash
    token_offset tokens : Z) : PM Z :=
  let! victim := select_victim in
  match victim with
  | None => fail_with_rollback sequence_id op_epoch CapacityExceeded
  | Some v =>
      do! catch (install_entry v entry_flags parent_hash block_hash content_hash token_offset tokens op_epoch)
            (fun status => fail_with_rollback sequence_id op_epoch status) in
      do! modify (fun c => c <| reserved_block_count := reserved_block_count c +u64 1 |>) in
      ret v
  end.

(** One block of [reserve_prompt_internal] on [(parent_hash, token_offset, reservation)]. *)
Definition reserve_block (sequence_id : Z) (token_ids : list Z) (allow_reuse : bool)
    (token_count reusable_token_count op_epoch : Z) (b : Z * Z * Reservation)
    : PM (Z * Z * Reservation) :=
  let '(parent_hash, token_offset, r) := b in
  let! c := gets id in
  let tokens := Z.min (block_token_count c) (token_count -u32 token_offset) in
  let is_full_block := tokens =? block_token_count c in
  let! block_tokens := slice token_ids token_offset (token_offset +u32 tokens) in
  let block_hash := hash_block block_tokens parent_hash in
  let content_hash := hash_block_content block_tokens in
  let! existing := existing_entry c sequence_id token_offset in
  let found :=
    match existing with
    | Some i => Some i
    | None =>
        if allow_reuse && is_full_block && (token_offset <? reusable_token_count)
        then find_entry c parent_hash block_hash content_hash token_offset tokens true
        else None
    end in
  let! '(i, r) :=
    match found with
    | Some i =>
        let! e := index (entries c) i in
        ret (i, if entry_is_reusable c e
                then r <| rs_cached_physical_block_count := rs_cached_physical_block_count r +u32 1 |>
                       <| rs_reusable_token_count := rs_reusable_token_count r +u32 tokens |>
                else if e_pending e
                then r <| rs_pending_physical_block_count := rs_pending_physical_block_count r +u32 1 |>
                else r)
    | None =>
        let entry_flags := if negb is_full_block || negb allow_reuse
                           then Z.lor ENTRY_FLAG_PENDING ENTRY_FLAG_LIVE_ONLY else ENTRY_FLAG_PENDING in
        let! v := reserve_victim sequence_id op_epoch entry_flags parent_hash block_hash content_hash
                    token_offset tokens in
        ret (v, r <| rs_pending_physical_block_count := rs_pending_physical_block_count r +u32 1 |>)
    end in
  let! c := gets id in
  let! e := index (entries c) i in
  do! catch (acquire_entry_for_sequence sequence_id i op_epoch (e_pending e))
        (fun status => fail_with_rollback sequence_id op_epoch status) in
  let! c := gets id in
  let! e := index (entries c) i in
  let r := r <| rs_physical_block_indices := rs_physical_block_indices r ++ [e_physical_block_index e] |> in
  do! modify (fun c => c <| tick := tick c +u64 1 |>) in
  let! now := gets tick in
  do! upd_entry i (fun e => e <| e_last_used_tick := now |>) in
  ret (block_hash, token_offset +u32 tokens, r).

Definition reserve_prompt_internal (sequence_id : Z) (token_ids : list Z) (allow_reuse : bool)
    : PM Reservation :=
  if (Z.of_nat (length token_ids) =? 0) || (sequence_id =? 0) then throw InvalidArgument
  else
    let token_count := u32 (Z.of_nat (length token_ids)) in
    let! c := gets id in
    let block_count := ceil_block_count c token_count in
    let! op_epoch := next_epoch in
    let r := mkReservation token_count 0 0 0 0 0 sequence_id op_epoch EMPTY_PARENT_HASH [] in
    let reusable_token_count := maximum_reusable_token_count c token_count in
    let! '(parent_hash, _, r) := for_fold (range 0 block_count)
      (fun _ => reserve_block sequence_id token_ids allow_reuse token_count reusable_token_count op_epoch)
      (EMPTY_PARENT_HASH, 0, r) in
    ret (r <| rs_reserved_token_count := token_count |> <| rs_physical_block_count := block_count |>
           <| rs_last_block_hash := parent_hash |>).

Definition reserve_prompt (sequence_id : Z) (token_ids : list Z) : PM Reservation :=
  reserve_prompt_internal sequence_id token_ids true.

Definition reserve_sequence_prompt (sequence_id : Z) (token_ids : list Z) : PM Reservation :=
  reserve_prompt_internal sequence_id token_ids false.

(** The flags and stamp of an entry being committed. *)
Definition committed_entry (c : PrefixCache) (reservation_epoch : Z) (e : Entry) : Entry :=
  let flags := Z.land (e_flags e) (u32_not ENTRY_FLAG_PENDING) in
  let flags :=
    if (e_token_count e =? block_token_count c) && negb (has_flag flags ENTRY_FLAG_LIVE_ONLY)
    then Z.lor flags ENTRY_FLAG_REUSABLE else Z.lor flags ENTRY_FLAG_LIVE_ONLY in
  e <| e_flags := flags |> <| e_committed_epoch := reservation_epoch |>.

Definition commit_reservation (sequence_id reservation_epoch : Z) : PM unit :=
  if (sequence_id =? 0) || (reservation_epoch =? 0) then throw InvalidArgument
  else
    let! n := gets (fun c => u32 (Z.of_nat (length (entries c)))) in
    do! for_fold (range 0 n) (fun i _ =>
          let! c := gets id in
          let! e := index (entries c) i in
          if e_valid e && e_pending e && (e_reservation_epoch e =? reservation_epoch) then
            do! on_arena (mark_block_resident (e_physical_block_index e)) in
            do! upd_entry i (committed_entry c reservation_epoch) in
            modify (fun c => c <| committed_reserved_block_count :=
              committed_reserved_block_count c +u64 1 |>)
          else ret tt) tt in
    modify (fun c => c <| bindings := (fun b =>
      if b_valid b && (b_sequence_id b =? sequence_id) && (b_acquire_epoch b =? reservation_epoch)
      then b <| b_flags := Z.land (b_flags b) (u32_not BINDING_FLAG_PENDING) |> else b)
      <$> bindings c |>).

Definition cancel_reservation (sequence_id reservation_epoch : Z) : PM unit :=
  if (sequence_id =? 0) || (reservation_epoch =? 0) then throw InvalidArgument
  else rollback_epoch sequence_id reservation_epoch.

Definition commit_prompt (sequence_id : Z) (token_ids : list Z) : PM Lookup :=
  let token_count := u32 (Z.of_nat (length token_ids)) in
  let lookup := new_lookup sequence_id token_count in
  let! r := reserve_prompt sequence_id token_ids in
  do! catch (commit_reservation sequence_id (rs_reservation_epoch r))
        (fun status =>
           do! ignore (cancel_reservation sequence_id (rs_reservation_epoch r)) in throw status) in
  let! c := gets id in
  let committed := full_block_token_count c token_count in
  ret (lookup <| lk_matched_token_count := committed |>
              <| lk_matched_block_count := committed / block_token_count c |>
              <| lk_next_token_index := committed |>
              <| lk_last_block_hash := rs_last_block_hash r |>).

(** ** Growing, tables, sharing and release *)

(** The binding already covering a block of [ensure_sequence_token_capacity]: its
    checks, and the short block it may leave to grow. *)
Definition ensure_existing (sequence_id op_epoch first required bi : Z) (short : option (Z * Z))
    : PM (Z * option (Z * Z)) :=
  let! c := gets id in
  let! b := index (bindings c) bi in
  match entries c !! Z.to_nat (b_entry_index b) with
  | None => fail_with_rollback sequence_id op_epoch InvalidArgument
  | Some e =>
      if (physical_block_count c <=? b_physical_block_index b) || (b_token_count b =? 0)
         || (block_token_count c <? b_token_count b)
      then fail_with_rollback sequence_id op_epoch InvalidArgument
      else if negb (e_valid e) || e_pending e || negb (e_first_token_index e =? first)
         || negb (e_physical_block_index e =? b_physical_block_index b)
         || negb (e_token_count e =? b_token_count b)
      then fail_with_rollback sequence_id op_epoch Busy
      else if b_token_count b <? required then
        if negb (has_flag (e_flags e) ENTRY_FLAG_LIVE_ONLY) || negb (e_reference_count e =? 1)
           || (match short with Some _ => true | None => false end)
        then fail_with_rollback sequence_id op_epoch ModuleNotValidated
        else ret (b_block_hash b, Some (bi, b_entry_index b))
      else ret (b_block_hash b, short)
  end.

(** One block of [ensure_sequence_token_capacity] on [(parent_hash, short)]. *)
Definition ensure_block (sequence_id token_count op_epoch : Z) (block_index : Z)
    (acc : Z * option (Z * Z)) : PM (Z * option (Z * Z)) :=
  let '(parent_hash, short) := acc in
  let! c := gets id in
  let first := block_index *u32 block_token_count c in
  let required := Z.min (block_token_count c) (token_count -u32 first) in
  match find_binding_at_token_offset c sequence_id first with
  | Some bi => ensure_existing sequence_id op_epoch first required bi short
  | None =>
      let! victim := select_victim in
      match victim with
      | None => fail_with_rollback sequence_id op_epoch CapacityExceeded
      | Some v =>
          let block_hash := mix_u64 (mix_u64 parent_hash sequence_id) first in
          let content_hash := mix_u64 block_hash op_epoch in
          do! catch (install_entry v (Z.lor ENTRY_FLAG_PENDING ENTRY_FLAG_LIVE_ONLY) parent_hash
                       block_hash content_hash first (block_token_count c) op_epoch)
                (fun status => fail_with_rollback sequence_id op_epoch status) in
          do! modify (fun c => c <| reserved_block_count := reserved_block_count c +u64 1 |>) in
          do! catch (acquire_entry_for_sequence sequence_id v op_epoch true)
                (fun status => fail_with_rollback sequence_id op_epoch status) in
          ret (block_hash, short)
      end
  end.

Definition ensure_sequence_token_capacity (sequence_id token_count : Z) : PM unit :=
  if (sequence_id =? 0) || (token_count =? 0) then throw InvalidArgument
  else
    let! c := gets id in
    let block_count := ceil_block_count c token_count in
    let! op_epoch := next_epoch in
    let! '(_, short) := for_fold (range 0 block_count) (ensure_block sequence_id token_count op_epoch)
                          (EMPTY_PARENT_HASH, None) in
    do! catch (commit_reservation sequence_id op_epoch)
          (fun status => fail_with_rollback sequence_id op_epoch status) in
    match short with
    | None => ret tt
    | Some (bi, ei) =>
        let! c := gets id in
        let! _b := index (bindings c) bi in
        do! upd_binding bi (fun b => b <| b_token_count := block_token_count c |>) in
        let! _e := index (entries c) ei in
        upd_entry ei (fun e => e <| e_token_count := block_token_count c |>
          <| e_flags := Z.lor (Z.land (e_flags e) (u32_not ENTRY_FLAG_REUSABLE)) ENTRY_FLAG_LIVE_ONLY |>)
    end.

Definition build_physical_block_table (sequence_id token_count : Z) : PM (list Z) :=
  if (sequence_id =? 0) || (token_count =? 0) then throw InvalidArgument
  else
    let! c := gets id in
    for_fold (range 0 (ceil_block_count c token_count)) (fun block_index indices =>
      let token_offset := block_index *u32 block_token_count c in
      let required := Z.min (block_token_count c) (token_count -u32 token_offset) in
      match find_binding_at_token_offset c sequence_id token_offset with
      | None => throw NotFound
      | Some bi =>
          let! b := index (bindings c) bi in
          if b_token_count b <? required then throw NotFound
          else ret (indices ++ [b_physical_block_index b])
      end) [].

Definition build_sequence_prefetch_sources (sequence_id token_count : Z) : PM (list PrefetchSourceBlock) :=
  if (sequence_id =? 0) || (token_count =? 0) then throw InvalidArgument
  else
    let! c := gets id in
    let! r := for_fold (range 0 (ceil_block_count c token_count)) (fun _ acc =>
      let '(token_offset, blocks) := acc in
      match find_binding_at_token_offset c sequence_id token_offset with
      | None => throw NotFound
      | Some bi =>
          let! b := index (bindings c) bi in
          match entries c !! Z.to_nat (b_entry_index b) with
          | None => throw NotFound
          | Some _ =>
              let! s := fill_prefetch_source_block (b_entry_index b) in
              ret (token_offset +u32 b_token_count b, blocks ++ [s])
          end
      end) (0, []) in
    ret r.2.

Definition probe_sequence_residency (sequence_id token_count : Z) : PM SequenceResidencyProbe :=
  if (sequence_id =? 0) || (token_count =? 0) then throw InvalidArgument
  else
    let! c := gets id in
    let block_count := ceil_block_count c token_count in
    let! r := for_fold (range 0 block_count) (fun _ acc =>
      let '(token_offset, resident, nonresident) := acc in
      match find_binding_at_token_offset c sequence_id token_offset with
      | None => throw NotFound
      | Some bi =>
          let! b := index (bindings c) bi in
          let next := token_offset +u32 b_token_count b in
          if block_is_nonresident c (b_physical_block_index b)
          then ret (next, resident, nonresident +u32 1) else ret (next, resident +u32 1, nonresident)
      end) (0, 0, 0) in
    let '(_, resident, nonresident) := r in
    ret (mkSequenceResidencyProbe block_count resident nonresident).

(** One round of [bind_committed_prefix_from_sequence] on [token_offset]. *)
Definition bind_round (source target token_count op_epoch : Z) (token_offset : Z) : PM (flow Z unit) :=
  if token_count <=? token_offset then ret (Break tt)
  else
    let! c := gets id in
    match find_binding_at_token_offset c source token_offset with
    | None => fail_with_rollback target op_epoch NotFound
    | Some sbi =>
        let! sb := index (bindings c) sbi in
        match entries c !! Z.to_nat (b_entry_index sb) with
        | None => fail_with_rollback target op_epoch NotFound
        | Some e =>
            if (b_token_count sb =? 0) || (token_count <? (token_offset +u32 b_token_count sb))
            then fail_with_rollback target op_epoch NotFound
            else if negb (e_valid e) || e_pending e then fail_with_rollback target op_epoch Busy
            else
              let! conflict :=
                match find_binding_at_token_offset c target token_offset with
                | None => ret false
                | Some tbi =>
                    let! tb := index (bindings c) tbi in
                    ret (negb (b_entry_index tb =? b_entry_index sb))
                end in
              if conflict : bool then fail_with_rollback target op_epoch Duplicate
              else
                do! catch (acquire_entry_for_sequence target (b_entry_index sb) op_epoch false)
                      (fun status => fail_with_rollback target op_epoch status) in
                ret (Continue (token_offset +u32 b_token_count sb))
        end
    end.

Definition bind_committed_prefix_from_sequence (source target token_count : Z) : PM unit :=
  if (source =? 0) || (target =? 0) || (source =? target) || (token_count =? 0)
  then throw InvalidArgument
  else
    let! op_epoch := next_epoch in
    loop (S (Z.to_nat token_count)) (bind_round source target token_count op_epoch) 0.

Definition release_sequence (sequence_id : Z) : PM unit :=
  if sequence_id =? 0 then throw InvalidArgument
  else
    do! release_bindings_where (fun b => b_valid b && (b_sequence_id b =? sequence_id)) in
    invalidate_entries_where (fun e =>
      e_valid e && negb (has_flag (e_flags e) ENTRY_FLAG_REUSABLE) && (e_reference_count e =? 0)) (ret tt).

Definition reset : PM unit :=
  do! modify (fun c => c <| entries := link_entries (Z.of_nat (length (entries c))) |>) in
  do! modify (fun c => c <| bindings := link_bindings (Z.of_nat (length (bindings c))) |>) in
  do! on_arena KvArena.reset in
  modify (fun c => c <| tick := 0 |> <| free_entry_head := 0 |> <| free_binding_head := 0 |>
    <| operation_epoch := 0 |> <| lookup_count := 0 |> <| hit_count := 0 |> <| miss_count := 0 |>
    <| inserted_block_count := 0 |> <| evicted_block_count := 0 |> <| acquired_block_count := 0 |>
    <| released_block_count := 0 |> <| reserved_block_count := 0 |>
    <| committed_reserved_block_count := 0 |> <| cancelled_reserved_block_count := 0 |>
    <| live_only_block_count := 0 |> <| lookahead_protection_epoch := 0 |>
    <| lookahead_protected_block_count := 0 |> <| lookahead_protected_eviction_skip_count := 0 |>).
