(* ===== verification/PrefixCacheInv.v ===== *)
(** * The prefix cache: invariant

    The representation invariant of the cache ([cache_wf]) relates its four stores:
    the entry slots and the binding slots with their intrusive free lists, the
    bindings with the entries they reference, and the entries with the arena blocks
    they own.  It is stated on those parts alone, so that the statistics counters
    and clocks do not disturb it; the lemmas of the first half say which updates of
    the parts keep it, those of the second half that every method does, without
    panicking. *)

From S2P Require Import Prelude FreeList KvArena PrefixCache.

(** The binding references the entry in slot [i]. *)
Definition bound_to (i : nat) (b : Binding) : bool := b_valid b && (b_entry_index b =? Z.of_nat i).

(** What a binding copies from its entry. *)
Definition binding_of (b : Binding) (e : Entry) : Prop :=
  b_physical_block_index b = e_physical_block_index e /\
  b_first_token_index b = e_first_token_index e /\ b_token_count b = e_token_count e /\
  b_parent_hash b = e_parent_hash e /\ b_block_hash b = e_block_hash e.

(** A valid entry owns an allocated block whose reference count is its own, and
    both count the bindings. *)
Record entry_ok (btc : Z) (a : KvArena.KvArena) (bs : list Binding) (i : nat) (e : Entry) : Prop := {
  eo_physical : 0 <= e_physical_block_index e;
  eo_block : exists blk, blocks a !! Z.to_nat (e_physical_block_index e) = Some blk /\
    allocated blk = true /\ block_reference_count blk = e_reference_count e;
  eo_references : e_reference_count e = countb (bound_to i) bs;
  eo_tokens : 1 <= e_token_count e <= btc;
  eo_range : 0 <= e_first_token_index e /\ e_first_token_index e + e_token_count e <= U32_MAX;
}.

Definition free_entry (es : list Entry) (i : nat) : Prop :=
  exists e, es !! i = Some e /\ e_valid e = false.

Definition free_binding (bs : list Binding) (i : nat) : Prop :=
  exists b, bs !! i = Some b /\ b_valid b = false.

Record store_wf (btc : Z) (es : list Entry) (bs : list Binding) (a : KvArena.KvArena) (eh bh : Z) : Prop := {
  sw_btc : 1 <= btc <= 256;
  sw_entries : 0 < Z.of_nat (length es) <= U32_MAX;
  sw_bindings : 0 < Z.of_nat (length bs) <= U32_MAX;
  sw_arena : kv_wf a;
  sw_free_entries : exists fl,
    free_list (fun i => e_reserved <$> es !! i) (free_entry es) NO_ENTRY eh fl;
  sw_free_bindings : exists fl,
    free_list (fun i => b_reserved <$> bs !! i) (free_binding bs) NO_ENTRY bh fl;
  sw_entry : forall i e, es !! i = Some e -> e_valid e = true -> entry_ok btc a bs i e;
  sw_distinct : forall i j e f, es !! i = Some e -> es !! j = Some f ->
    e_valid e = true -> e_valid f = true ->
    e_physical_block_index e = e_physical_block_index f -> i = j;
  sw_binding : forall k b, bs !! k = Some b -> b_valid b = true ->
    0 <= b_entry_index b /\ exists e, es !! Z.to_nat (b_entry_index b) = Some e /\
      e_valid e = true /\ binding_of b e;
  sw_owned : forall i blk, blocks a !! i = Some blk -> allocated blk = true ->
    exists j e, es !! j = Some e /\ e_valid e = true /\ e_physical_block_index e = Z.of_nat i;
}.

Definition cache_wf (c : PrefixCache) : Prop :=
  store_wf (block_token_count c) (entries c) (bindings c) (arena c) (free_entry_head c)
    (free_binding_head c).

(** ** Updates that do not touch the structure *)

Definition entry_core (e : Entry) :=
  (e_valid e, e_physical_block_index e, e_reference_count e, e_reserved e, e_first_token_index e,
   e_token_count e, e_parent_hash e, e_block_hash e).

Definition binding_core (b : Binding) :=
  (b_valid b, b_entry_index b, b_first_token_index b, b_token_count b, b_physical_block_index b,
   b_reserved b, b_parent_hash b, b_block_hash b).

(** Pointwise equal structure: only clocks, hashes of content and status changed. *)
Definition entries_sim (es es' : list Entry) : Prop :=
  Forall2 (fun e e' => entry_core e' = entry_core e) es es'.

Definition bindings_sim (bs bs' : list Binding) : Prop :=
  Forall2 (fun b b' => binding_core b' = binding_core b) bs bs'.

#[export] Instance entries_sim_preorder : PreOrder entries_sim.
Proof.
  split.
  - intros l. unfold entries_sim, bindings_sim. induction l; constructor; auto.
  - intros x y z. unfold entries_sim. intros H1 H2. revert z H2.
    induction H1; intros z H2; inversion H2; subst; constructor; [congruence|auto].
Qed.

#[export] Instance bindings_sim_preorder : PreOrder bindings_sim.
Proof.
  split.
  - intros l. unfold entries_sim, bindings_sim. induction l; constructor; auto.
  - intros x y z. unfold bindings_sim. intros H1 H2. revert z H2.
    induction H1; intros z H2; inversion H2; subst; constructor; [congruence|auto].
Qed.

Lemma entries_sim_lookup es es' i e' :
  entries_sim es es' -> es' !! i = Some e' ->
  exists e, es !! i = Some e /\ entry_core e' = entry_core e.
Proof. intros Hs He. destruct (Forall2_lookup_r _ _ _ _ _ Hs He) as (e&?&?). by exists e. Qed.

Lemma entries_sim_lookup_l es es' i e :
  entries_sim es es' -> es !! i = Some e ->
  exists e', es' !! i = Some e' /\ entry_core e' = entry_core e.
Proof. intros Hs He. destruct (Forall2_lookup_l _ _ _ _ _ Hs He) as (e'&?&?). by exists e'. Qed.

Lemma bindings_sim_lookup bs bs' i b' :
  bindings_sim bs bs' -> bs' !! i = Some b' ->
  exists b, bs !! i = Some b /\ binding_core b' = binding_core b.
Proof. intros Hs He. destruct (Forall2_lookup_r _ _ _ _ _ Hs He) as (e&?&?). by exists e. Qed.

Lemma bindings_sim_count i bs bs' :
  bindings_sim bs bs' -> countb (bound_to i) bs' = countb (bound_to i) bs.
Proof.
  induction 1 as [|b b' bs bs' Hc Hs IH]; simpl; [done|]. rewrite IH. unfold bound_to.
  unfold binding_core in Hc. replace (b_valid b') with (b_valid b) by congruence.
  by replace (b_entry_index b') with (b_entry_index b) by congruence.
Qed.

Lemma entries_sim_upd es i f :
  (forall e, es !! Z.to_nat i = Some e -> entry_core (f e) = entry_core e) ->
  entries_sim es (upd_nth i f es).
Proof.
  intros Hf. apply Forall2_same_length_lookup. split; [symmetry; apply length_upd_nth|].
  intros j e e' He He'. apply lookup_upd_nth_Some in He' as [(->&x&Hx&->)|[_ He']].
  - simplify_eq. by apply Hf.
  - congruence.
Qed.

Lemma bindings_sim_upd bs i f :
  (forall b, bs !! Z.to_nat i = Some b -> binding_core (f b) = binding_core b) ->
  bindings_sim bs (upd_nth i f bs).
Proof.
  intros Hf. apply Forall2_same_length_lookup. split; [symmetry; apply length_upd_nth|].
  intros j e e' He He'. apply lookup_upd_nth_Some in He' as [(->&x&Hx&->)|[_ He']].
  - simplify_eq. by apply Hf.
  - congruence.
Qed.

Lemma entries_sim_fmap es f :
  (forall e, entry_core (f e) = entry_core e) -> entries_sim es (f <$> es).
Proof. intros Hf. induction es; constructor; auto. Qed.

Lemma bindings_sim_fmap bs f :
  (forall b, binding_core (f b) = binding_core b) -> bindings_sim bs (f <$> bs).
Proof. intros Hf. induction bs; constructor; auto. Qed.

(** The free lists only read the valid bit and the link. *)
Lemma free_entries_sim es es' eh fl :
  entries_sim es es' ->
  free_list (fun i => e_reserved <$> es !! i) (free_entry es) NO_ENTRY eh fl ->
  free_list (fun i => e_reserved <$> es' !! i) (free_entry es') NO_ENTRY eh fl.
Proof.
  intros Hs Hfl. eapply free_list_frame; [exact Hfl| |].
  - intros i (e&He&_). destruct (entries_sim_lookup_l _ _ _ _ Hs He) as (e'&He'&Hc).
    unfold entry_core in Hc. rewrite He, He'. simpl. congruence.
  - intros i. split; intros (e&He&Hv).
    + destruct (entries_sim_lookup _ _ _ _ Hs He) as (e0&He0&Hc). exists e0. split; [done|].
      unfold entry_core in Hc. congruence.
    + destruct (entries_sim_lookup_l _ _ _ _ Hs He) as (e0&He0&Hc). exists e0. split; [done|].
      unfold entry_core in Hc. congruence.
Qed.

Lemma free_bindings_sim bs bs' bh fl :
  bindings_sim bs bs' ->
  free_list (fun i => b_reserved <$> bs !! i) (free_binding bs) NO_ENTRY bh fl ->
  free_list (fun i => b_reserved <$> bs' !! i) (free_binding bs') NO_ENTRY bh fl.
Proof.
  intros Hs Hfl. assert (forall i b, bs !! i = Some b -> exists b', bs' !! i = Some b' /\ binding_core b' = binding_core b) as Hl.
  { intros i b Hb. destruct (Forall2_lookup_l _ _ _ _ _ Hs Hb) as (b'&?&?). by exists b'. }
  eapply free_list_frame; [exact Hfl| |].
  - intros i (b&Hb&_). destruct (Hl i b Hb) as (b'&Hb'&Hc).
    unfold binding_core in Hc. rewrite Hb, Hb'. simpl. congruence.
  - intros i. split; intros (b&Hb&Hv).
    + destruct (bindings_sim_lookup _ _ _ _ Hs Hb) as (e0&He0&Hc). exists e0. split; [done|].
      unfold binding_core in Hc. congruence.
    + destruct (Hl i b Hb) as (e0&He0&Hc). exists e0. split; [done|].
      unfold binding_core in Hc. congruence.
Qed.

Lemma store_wf_sim btc es es' bs bs' a a' eh bh :
  store_wf btc es bs a eh bh -> entries_sim es es' -> bindings_sim bs bs' ->
  kv_wf a' -> owners_kept a a' -> store_wf btc es' bs' a' eh bh.
Proof.
  intros [H1 H2 H3 H4 [fe Hfe] [fb Hfb] H7 H8 H9 H10] Hes Hbs Ha (_&Hlen&Hown).
  pose proof (Forall2_length _ _ _ Hes) as Le. pose proof (Forall2_length _ _ _ Hbs) as Lb.
  assert (forall i blk', blocks a' !! i = Some blk' -> exists blk, blocks a !! i = Some blk /\ same_owner blk blk') as Hback.
  { intros i blk' Hb'. destruct (lookup_lt_is_Some_2 (blocks a) i) as [blk Hb].
    { rewrite <- Hlen. by eapply lookup_lt_Some. }
    destruct (Hown i blk Hb) as (x&Hx&So). simplify_eq. by exists blk. }
  split; [done|lia|lia|done|exists fe; by eapply free_entries_sim|exists fb; by eapply free_bindings_sim| | | |].
  - intros i e' He' Hv'. destruct (entries_sim_lookup _ _ _ _ Hes He') as (e&He&Hc).
    unfold entry_core in Hc. destruct (H7 i e He) as [P1 (blk&B1&B2&B3) P3 P4 P5]; [congruence|].
    destruct (Hown _ blk B1) as (blk'&B1'&So1&So2&_).
    split; rewrite ?(bindings_sim_count _ _ _ Hbs).
    + congruence.
    + exists blk'. replace (e_physical_block_index e') with (e_physical_block_index e) by congruence.
      split_and!; [done|congruence|congruence].
    + congruence.
    + replace (e_token_count e') with (e_token_count e) by congruence. done.
    + replace (e_token_count e') with (e_token_count e) by congruence.
      replace (e_first_token_index e') with (e_first_token_index e) by congruence. done.
  - intros i j e f He Hf Hve Hvf Hp.
    destruct (entries_sim_lookup _ _ _ _ Hes He) as (e0&He0&Hce).
    destruct (entries_sim_lookup _ _ _ _ Hes Hf) as (f0&Hf0&Hcf). unfold entry_core in *.
    apply (H8 i j e0 f0); congruence.
  - intros k b' Hb' Hv'. destruct (bindings_sim_lookup _ _ _ _ Hbs Hb') as (b&Hb&Hc).
    unfold binding_core in Hc. destruct (H9 k b Hb) as (Q0&e&He&Hve&Q1&Q2&Q3&Q4&Q5); [congruence|].
    replace (b_entry_index b') with (b_entry_index b) by congruence. split; [done|].
    destruct (entries_sim_lookup_l _ _ _ _ Hes He) as (e'&He'&Hce). unfold entry_core in Hce.
    exists e'. split_and!; [done|congruence|]. unfold binding_of. split_and!; congruence.
  - intros i blk' Hb' Hal. destruct (Hback i blk' Hb') as (blk&Hb&So&_).
    destruct (H10 i blk Hb) as (j&e&He&Hve&Hp); [congruence|].
    destruct (entries_sim_lookup_l _ _ _ _ Hes He) as (e'&He'&Hce). unfold entry_core in Hce.
    exists j, e'. split_and!; [done|congruence|congruence].
Qed.

(** ** Structural updates *)

(** Blocks other than the touched one. *)
Lemma touched_other a a' p blk blk' q :
  touched a a' p blk blk' -> 0 <= p -> 0 <= q -> q <> p ->
  blocks a' !! Z.to_nat q = blocks a !! Z.to_nat q.
Proof. intros [_ Hb _ _] ? ? ?. rewrite Hb, list_lookup_insert_ne by lia. done. Qed.

Lemma touched_same a a' p blk blk' :
  touched a a' p blk blk' -> blocks a' !! Z.to_nat p = Some blk'.
Proof. intros [Hl Hb _ _]. rewrite Hb. apply list_lookup_insert_eq. by eapply lookup_lt_Some. Qed.

Lemma insert_same {A} (l : list A) i x y : l !! i = Some x -> <[i:=y]> l !! i = Some y.
Proof. intros. apply list_lookup_insert_eq. by eapply lookup_lt_Some. Qed.

(** An entry that is not the one touched keeps its block. *)
Lemma entry_ok_frame btc a a' bs bs' p blk blk' j f :
  entry_ok btc a bs j f -> touched a a' p blk blk' -> 0 <= p -> e_physical_block_index f <> p ->
  countb (bound_to j) bs' = countb (bound_to j) bs -> entry_ok btc a' bs' j f.
Proof.
  intros [P1 (b&B1&B2&B3) P3 P4 P5] Ht Hp Hne Hc. split; [done| |congruence|done|done].
  exists b. rewrite (touched_other _ _ _ _ _ _ Ht) by done. done.
Qed.

(** No binding references a slot whose count is zero. *)
Lemma unbound_slot i bs k b :
  countb (bound_to i) bs = 0 -> bs !! k = Some b -> b_valid b = true -> 0 <= b_entry_index b ->
  Z.to_nat (b_entry_index b) <> i.
Proof.
  intros Hc Hb Hv H0 <-. pose proof (countb_0_inv _ _ _ _ Hc Hb) as Hf. unfold bound_to in Hf.
  rewrite Hv, Z2Nat.id, Z.eqb_refl in Hf by done. done.
Qed.

Lemma unbound_invalid btc es bs a eh bh i e :
  store_wf btc es bs a eh bh -> es !! i = Some e -> e_valid e = false ->
  countb (bound_to i) bs = 0.
Proof.
  intros Hwf He Hv. apply countb_0. intros k b Hb. unfold bound_to. destruct (b_valid b) eqn:Hbv; [|done].
  simpl. apply Z.eqb_neq. intros Hi. destruct (sw_binding _ _ _ _ _ _ Hwf k b Hb Hbv) as (_&f&Hf&Hfv&_).
  rewrite Hi, Nat2Z.id in Hf. congruence.
Qed.

(** Put a fresh, unreferenced entry into slot [i], on the block [p] it takes over or
    has just acquired. *)
Lemma store_put_entry btc es bs a a' eh eh' bh i e e' p blk blk' :
  store_wf btc es bs a eh bh -> es !! i = Some e -> countb (bound_to i) bs = 0 ->
  touched a a' p blk blk' -> kv_wf a' -> 0 <= p -> allocated blk' = true -> block_reference_count blk' = 0 ->
  e_valid e' = true -> e_physical_block_index e' = p -> e_reference_count e' = 0 ->
  1 <= e_token_count e' <= btc -> 0 <= e_first_token_index e' ->
  e_first_token_index e' + e_token_count e' <= U32_MAX ->
  (e_valid e = true /\ e_physical_block_index e = p) \/ (e_valid e = false /\ allocated blk = false) ->
  (exists fl, free_list (fun i' => e_reserved <$> <[i:=e']> es !! i') (free_entry (<[i:=e']> es)) NO_ENTRY eh' fl) ->
  store_wf btc (<[i:=e']> es) bs a' eh' bh.
Proof.
  intros Hwf He Hc Ht Ha Hp Hal Hrc Hv' Hp' Hr' Htc Hf0 Hfr Hcase Hfl.
  pose proof Hwf as [H1 H2 H3 H4 H5 H6 H7 H8 H9 H10].
  assert (forall j f, j <> i -> es !! j = Some f -> e_valid f = true -> e_physical_block_index f <> p) as Hdist.
  { intros j f Hj Hf Hfv Heq. destruct Hcase as [[Hve Hpe]|[_ Hfree]].
    - apply Hj. apply (H8 j i f e); congruence.
    - destruct (H7 j f Hf Hfv) as [_ (b&B1&B2&_) _ _ _]. rewrite Heq in B1.
      pose proof (to_lookup _ _ _ _ _ Ht). congruence. }
  split; rewrite ?length_insert; try done.
  - intros j f Hf Hfv. apply list_lookup_insert_Some in Hf as [(<-&<-&_)|[Hne Hf]].
    + split; [congruence| |congruence|done|done]. exists blk'. rewrite Hp'.
      split_and!; [by eapply touched_same|done|congruence].
    + eapply entry_ok_frame; [by apply H7|exact Ht|done|by eapply Hdist|done].
  - intros j k f g Hf Hg Hfv Hgv Heq.
    apply list_lookup_insert_Some in Hf as [(<-&<-&_)|[Hne Hf]];
      apply list_lookup_insert_Some in Hg as [(<-&<-&_)|[Hne' Hg]]; [done| | |by eapply H8].
    + exfalso. apply (Hdist k g (not_eq_sym Hne') Hg Hgv). congruence.
    + exfalso. apply (Hdist j f (not_eq_sym Hne) Hf Hfv). congruence.
  - intros k b Hb Hbv. destruct (H9 k b Hb Hbv) as (Hb0&f&Hf&Hfv&Hbo). split; [done|].
    exists f. rewrite list_lookup_insert_ne by (symmetry; by eapply unbound_slot). done.
  - intros j b Hb Hba. destruct (decide (j = Z.to_nat p)) as [->|Hj].
    + exists i, e'. rewrite (insert_same _ _ e) by done. split_and!; [done|done|lia].
    + pose proof (touched_other _ _ _ _ _ (Z.of_nat j) Ht Hp ltac:(lia) ltac:(lia)) as Ho.
      rewrite Nat2Z.id in Ho. rewrite Ho in Hb. destruct (H10 j b Hb Hba) as (k&f&Hf&Hfv&Hpf).
      exists k, f. rewrite list_lookup_insert_ne; [done|]. intros ->. simplify_eq.
      destruct Hcase as [[_ Hpe]|[Hve _]]; [lia|congruence].
Qed.

(** Free the unreferenced entry in slot [i] together with its block. *)
Lemma store_drop_entry btc es bs a a' eh bh i e blk blk' :
  store_wf btc es bs a eh bh -> es !! i = Some e -> e_valid e = true -> e_reference_count e = 0 ->
  touched a a' (e_physical_block_index e) blk blk' -> kv_wf a' -> allocated blk' = false ->
  store_wf btc (<[i := unallocated_entry <| e_reserved := eh |>]> es) bs a' (Z.of_nat i) bh.
Proof.
  intros Hwf He Hv Hr Ht Ha Hal. pose proof Hwf as [H1 H2 H3 H4 [fe Hfe] H6 H7 H8 H9 H10].
  destruct (H7 i e He Hv) as [P1 _ P3 _ _]. rewrite Hr in P3.
  set (e' := unallocated_entry <| e_reserved := eh |>).
  assert (forall j f, j <> i -> es !! j = Some f -> e_valid f = true ->
    e_physical_block_index f <> e_physical_block_index e) as Hdist.
  { intros j f Hj Hf Hfv Heq. apply Hj. by apply (H8 j i f e). }
  split; rewrite ?length_insert; try done.
  - exists (i :: fe). eapply free_list_push; [exact Hfe| | | |].
    + intros (x&Hx&?). congruence.
    + cbn beta. rewrite (insert_same _ _ e) by done. done.
    + intros j (x&Hx&Hxv). rewrite list_lookup_insert_ne; [done|]. intros ->. congruence.
    + intros j. unfold free_entry. destruct (decide (j = i)) as [->|Hne].
      * rewrite (insert_same _ _ e) by done. split; [by right|]. intros _. by exists e'.
      * rewrite list_lookup_insert_ne by done. naive_solver.
  - intros j f Hf Hfv. apply list_lookup_insert_Some in Hf as [(<-&<-&_)|[Hne Hf]]; [done|].
    eapply entry_ok_frame; [by apply H7|exact Ht|done|by eapply Hdist|done].
  - intros j k f g Hf Hg Hfv Hgv Heq.
    apply list_lookup_insert_Some in Hf as [(<-&<-&_)|[Hne Hf]]; [done|].
    apply list_lookup_insert_Some in Hg as [(<-&<-&_)|[Hne' Hg]]; [done|]. by eapply H8.
  - intros k b Hb Hbv. destruct (H9 k b Hb Hbv) as (Hb0&f&Hf&Hfv&Hbo). split; [done|].
    exists f. rewrite list_lookup_insert_ne by (symmetry; by eapply unbound_slot). done.
  - intros j b Hb Hba. destruct (decide (j = Z.to_nat (e_physical_block_index e))) as [->|Hj].
    + rewrite (touched_same _ _ _ _ _ Ht) in Hb. congruence.
    + pose proof (touched_other _ _ _ _ _ (Z.of_nat j) Ht P1 ltac:(lia) ltac:(lia)) as Ho.
      rewrite Nat2Z.id in Ho. rewrite Ho in Hb. destruct (H10 j b Hb Hba) as (k&f&Hf&Hfv&Hpf).
      exists k, f. rewrite list_lookup_insert_ne; [done|]. intros ->. simplify_eq. lia.
Qed.

(** Change the binding in slot [k] from [b] to [b'] and the reference counts of the
    entry in slot [i] and of its block with it. *)
Lemma store_rebind btc es bs a a' eh bh bh' i k e e' b b' blk blk' :
  store_wf btc es bs a eh bh -> es !! i = Some e -> e_valid e = true -> bs !! k = Some b ->
  touched a a' (e_physical_block_index e) blk blk' -> kv_wf a' ->
  allocated blk' = allocated blk -> e_reserved e' = e_reserved e ->
  e_valid e' = true -> e_physical_block_index e' = e_physical_block_index e ->
  e_reference_count e' = e_reference_count e - b2z (bound_to i b) + b2z (bound_to i b') ->
  block_reference_count blk' = e_reference_count e' ->
  1 <= e_token_count e' <= btc -> e_first_token_index e' = e_first_token_index e ->
  e_first_token_index e' + e_token_count e' <= U32_MAX ->
  (forall j, j <> i -> bound_to j b' = bound_to j b) ->
  (b_valid b' = true -> b_entry_index b' = Z.of_nat i /\ binding_of b' e') ->
  (forall k' b0, k' <> k -> bs !! k' = Some b0 -> b_valid b0 = true -> b_entry_index b0 = Z.of_nat i ->
     binding_of b0 e -> binding_of b0 e') ->
  (exists fl, free_list (fun j => b_reserved <$> <[k:=b']> bs !! j) (free_binding (<[k:=b']> bs)) NO_ENTRY bh' fl) ->
  store_wf btc (<[i:=e']> es) (<[k:=b']> bs) a' eh bh'.
Proof.
  intros Hwf He Hv Hb Ht Ha Hal Hres Hv' Hp' Hr' Hbr' Htc Hf' Hfr Hother Hb' Hkeep Hfl.
  pose proof Hwf as [H1 H2 H3 H4 [fe Hfe] H6 H7 H8 H9 H10].
  destruct (H7 i e He Hv) as [P1 (b1&B1&B2&B3) P3 P4 P5].
  pose proof (to_lookup _ _ _ _ _ Ht) as Hblk. assert (b1 = blk) as -> by congruence.
  split; rewrite ?length_insert; try done.
  - exists fe. eapply free_list_frame; [exact Hfe| |].
    + intros j (x&Hx&Hxv). rewrite list_lookup_insert_ne; [done|]. intros ->. congruence.
    + intros j. unfold free_entry. destruct (decide (j = i)) as [->|Hne].
      * rewrite (insert_same _ _ e) by done. naive_solver congruence.
      * rewrite list_lookup_insert_ne by done. done.
  - intros j f Hf Hfv. apply list_lookup_insert_Some in Hf as [(<-&<-&_)|[Hne Hf]].
    + split; [congruence| | |done|lia].
      * exists blk'. rewrite Hp'. split_and!; [by eapply touched_same|congruence|done].
      * rewrite (countb_insert _ _ _ b) by done. lia.
    + eapply entry_ok_frame; [by apply H7|exact Ht|done| |].
      * intros Heq. apply Hne. symmetry. by apply (H8 j i f e).
      * rewrite (countb_insert _ _ _ b) by done. rewrite (Hother j) by done. lia.
  - intros j l f g Hf Hg Hfv Hgv Heq.
    apply list_lookup_insert_Some in Hf as [(<-&<-&_)|[Hne Hf]];
      apply list_lookup_insert_Some in Hg as [(<-&<-&_)|[Hne' Hg]]; [done| | |by eapply H8].
    + apply (H8 i l e g); congruence.
    + apply (H8 j i f e); congruence.
  - intros k' b0 Hb0 Hbv. apply list_lookup_insert_Some in Hb0 as [(<-&<-&_)|[Hne Hb0]].
    + destruct (Hb' Hbv) as [-> Hbo]. split; [lia|]. exists e'. rewrite Nat2Z.id.
      rewrite (insert_same _ _ e) by done. done.
    + destruct (H9 k' b0 Hb0 Hbv) as (Hi0&f&Hf&Hfv&Hbo). split; [done|].
      destruct (decide (Z.to_nat (b_entry_index b0) = i)) as [Hi|Hi].
      * exists e'. rewrite Hi, (insert_same _ _ e) by done. split_and!; [done|done|].
        assert (f = e) as -> by congruence. eapply Hkeep; [by apply not_eq_sym|done|done|lia|done].
      * exists f. rewrite list_lookup_insert_ne by done. done.
  - intros j blk0 Hb0 Hba. destruct (decide (j = Z.to_nat (e_physical_block_index e))) as [->|Hj].
    + exists i, e'. rewrite (insert_same _ _ e) by done. split_and!; [done|done|lia].
    + pose proof (touched_other _ _ _ _ _ (Z.of_nat j) Ht P1 ltac:(lia) ltac:(lia)) as Ho.
      rewrite Nat2Z.id in Ho. rewrite Ho in Hb0. destruct (H10 j blk0 Hb0 Hba) as (l&f&Hf&Hfv&Hpf).
      destruct (decide (l = i)) as [->|Hli]; [simplify_eq; lia|].
      exists l, f. rewrite list_lookup_insert_ne by done. done.
Qed.

(** ** Methods on one entry or binding *)

(** The dimensions of the stores never change. *)
Definition shape (c : PrefixCache) :=
  (block_token_count c, physical_block_count c, length (entries c), length (bindings c),
   KvArena.geometry (arena c)).

(** [c'] is well formed with the dimensions of [c]. *)
Definition cache_ok (c c' : PrefixCache) : Prop := cache_wf c' /\ shape c' = shape c.

Lemma cache_ok_refl c : cache_wf c -> cache_ok c c.
Proof. by split. Qed.

Lemma cache_ok_trans c1 c2 c3 : cache_ok c1 c2 -> cache_ok c2 c3 -> cache_ok c1 c3.
Proof. intros [_ H1] [H2 H3]. split; [done|congruence]. Qed.

Lemma shape_fields c c' :
  shape c' = shape c ->
  block_token_count c' = block_token_count c /\ length (entries c') = length (entries c) /\
  length (bindings c') = length (bindings c) /\ physical_block_count c' = physical_block_count c.
Proof. unfold shape. by intros [= -> -> -> -> _]. Qed.

Lemma wp_on_arena {A} (m : M KvArena.KvArena KvArenaError A) Q R c :
  wp m (fun r a => Q r (c <| arena := a |>)) (fun e a => R (from_kv_error e) (c <| arena := a |>)) (arena c) ->
  wp (on_arena m) Q R c.
Proof. intros H. apply (wp_zoom arena (fun a c => c <| arena := a |>) from_kv_error m Q R c H). Qed.

Lemma upd_entry_insert c i f e :
  entries c !! Z.to_nat i = Some e -> upd_nth i f (entries c) = <[Z.to_nat i := f e]> (entries c).
Proof.
  intros He. apply list_eq. intros j. destruct (decide (j = Z.to_nat i)) as [->|Hne].
  - rewrite (insert_same _ _ e) by done. by apply lookup_upd_nth_eq.
  - rewrite list_lookup_insert_ne by done. by apply lookup_upd_nth_ne.
Qed.

Lemma upd_binding_insert c i f b :
  bindings c !! Z.to_nat i = Some b -> upd_nth i f (bindings c) = <[Z.to_nat i := f b]> (bindings c).
Proof.
  intros He. apply list_eq. intros j. destruct (decide (j = Z.to_nat i)) as [->|Hne].
  - rewrite (insert_same _ _ b) by done. by apply lookup_upd_nth_eq.
  - rewrite list_lookup_insert_ne by done. by apply lookup_upd_nth_ne.
Qed.

(** A valid entry and its block. *)
Lemma valid_block c i e :
  cache_wf c -> entries c !! i = Some e -> e_valid e = true ->
  0 <= e_physical_block_index e < U32_MAX /\
  exists blk, blocks (arena c) !! Z.to_nat (e_physical_block_index e) = Some blk /\
    allocated blk = true /\ block_reference_count blk = e_reference_count e.
Proof.
  intros Hwf He Hv. destruct (sw_entry _ _ _ _ _ _ Hwf i e He Hv) as [P1 (blk&B1&B2) _ _ _].
  split; [|by exists blk]. pose proof (lookup_lt_Some _ _ _ B1).
  pose proof (kw_length _ (sw_arena _ _ _ _ _ _ Hwf)). pose proof (kw_count _ (sw_arena _ _ _ _ _ _ Hwf)). lia.
Qed.

Lemma reference_range c i e :
  cache_wf c -> entries c !! i = Some e -> e_valid e = true ->
  0 <= e_reference_count e <= Z.of_nat (length (bindings c)) /\ Z.of_nat (length (bindings c)) <= U32_MAX.
Proof.
  intros Hwf He Hv. destruct (sw_entry _ _ _ _ _ _ Hwf i e He Hv) as [_ _ P3 _ _]. rewrite P3.
  pose proof (countb_nonneg (bound_to i) (bindings c)). pose proof (countb_le_length (bound_to i) (bindings c)).
  pose proof (sw_bindings _ _ _ _ _ _ Hwf). lia.
Qed.

Lemma invalidate_entry_spec c i e :
  cache_wf c -> 0 <= i -> entries c !! Z.to_nat i = Some e ->
  (e_valid e = true -> e_reference_count e = 0) ->
  wp (invalidate_entry i)
    (fun _ c' => cache_ok c c' /\ bindings c' = bindings c /\
       (exists e', entries c' !! Z.to_nat i = Some e' /\ e_valid e' = false) /\
       (forall j, j <> Z.to_nat i -> entries c' !! j = entries c !! j) /\
       free_binding_head c' = free_binding_head c)
    (fun _ _ => False) c.
Proof.
  intros Hwf Hi He Hr. unfold invalidate_entry, upd_entry. wp_steps. unfold id. rewrite He.
  destruct (e_valid e) eqn:Hv; simpl; wp_steps.
  2:{ split_and!; [by apply cache_ok_refl|done|by exists e|done|done]. }
  rewrite (Hr eq_refl). simpl. wp_steps.
  destruct (valid_block c _ e Hwf He Hv) as (Hp&blk&Hblk&Hal&Hbr).
  destruct (Z.eqb_spec (e_physical_block_index e) NO_PHYSICAL_BLOCK) as [Hno|_]; [unfold NO_PHYSICAL_BLOCK in Hno; lia|].
  simpl. apply wp_on_arena. pose proof (sw_arena _ _ _ _ _ _ Hwf) as Hkv.
  eapply wp_mono; [by apply free_block_spec| |].
  - intros [] a' [(_&b&Hb&Hb2)|(b&b'&_&_&Ht&Hkv'&Hf&_&_)]; [congruence|]. wp_steps. cbn -[upd_nth].
    split_and!; [|done| | |done].
    + split.
      * unfold cache_wf. cbn -[upd_nth]. rewrite (upd_entry_insert c i _ e He).
        rewrite <- (Z2Nat.id i) at 2 by done.
        eapply store_drop_entry; [exact Hwf|exact He|done|by apply Hr|exact Ht|done|].
        unfold allocated. by rewrite Hf.
      * unfold shape. cbn -[upd_nth]. rewrite length_upd_nth. by rewrite (to_geometry _ _ _ _ _ Ht).
    + eexists. split; [by erewrite lookup_upd_nth_eq by exact He|done].
    + intros j Hj. apply lookup_upd_nth_ne. congruence.
  - intros err a' [_ [[_ Hn]|[_ (b&Hb&Hne)]]]; [congruence|]. assert (b = blk) as -> by congruence.
    apply Hne. rewrite Hbr. by apply Hr.
Qed.

Lemma free_bindings_push bs bh fb i b b' h :
  free_list (fun j => b_reserved <$> bs !! j) (free_binding bs) NO_ENTRY bh fb ->
  bs !! i = Some b -> b_valid b = true -> b_valid b' = false -> b_reserved b' = bh -> h = Z.of_nat i ->
  free_list (fun j => b_reserved <$> <[i:=b']> bs !! j) (free_binding (<[i:=b']> bs)) NO_ENTRY h (i :: fb).
Proof.
  intros Hfb Hb Hv Hv' Hr ->. eapply free_list_push; [exact Hfb| | | |].
  - intros (x&Hx&?). congruence.
  - cbn beta. rewrite (insert_same _ _ b) by done. simpl. by rewrite Hr.
  - intros j (x&Hx&Hxv). rewrite list_lookup_insert_ne; [done|]. intros ->. congruence.
  - intros j. unfold free_binding. destruct (decide (j = i)) as [->|Hne].
    + rewrite (insert_same _ _ b) by done. split; [by right|]. intros _. by exists b'.
    + rewrite list_lookup_insert_ne by done. naive_solver.
Qed.

Lemma unallocated_unbound i h : bound_to i (unallocated_binding <| b_reserved := h |>) = false.
Proof. done. Qed.

Lemma release_binding_spec c k b :
  cache_wf c -> 0 <= k -> bindings c !! Z.to_nat k = Some b ->
  wp (release_binding k)
    (fun _ c' => cache_ok c c' /\
       (exists b', bindings c' !! Z.to_nat k = Some b' /\ b_valid b' = false) /\
       (forall j, j <> Z.to_nat k -> bindings c' !! j = bindings c !! j))
    (fun _ _ => False) c.
Proof.
  intros Hwf Hk Hb. unfold release_binding, upd_entry, upd_binding. wp_steps. unfold id. rewrite Hb.
  destruct (b_valid b) eqn:Hv; simpl; wp_steps.
  2:{ split_and!; [by apply cache_ok_refl|by exists b|done]. }
  destruct (sw_binding _ _ _ _ _ _ Hwf _ b Hb Hv) as (Hi&e&He&Hve&Hbo). rewrite He.
  destruct (valid_block c _ e Hwf He Hve) as (Hp&blk&Hblk&Hal&Hbr).
  pose proof (reference_range c _ e Hwf He Hve) as Hrr.
  destruct (sw_entry _ _ _ _ _ _ Hwf _ e He Hve) as [P1 _ P3 P4 P5].
  assert (bound_to (Z.to_nat (b_entry_index b)) b = true) as Hbt.
  { unfold bound_to. rewrite Hv, Z2Nat.id by done. simpl. apply Z.eqb_refl. }
  pose proof (countb_ge_1 _ _ _ _ Hb Hbt) as Hge.
  destruct (Z.eqb_spec (e_reference_count e) 0); [lia|].
  wp_steps. apply wp_on_arena. rewrite (proj1 Hbo).
  eapply wp_mono; [exact (release_block_reference_spec _ _ (sw_arena _ _ _ _ _ _ Hwf))| |].
  2:{ intros err a' (_&_&Hz). rewrite (Hz blk Hblk) in Hbr. lia. }
  intros [] a' (b1&b1'&_&_&Ht&Hkv'&Hf&_&Hrc). assert (b1 = blk) as -> by (pose proof (to_lookup _ _ _ _ _ Ht); congruence).
  wp_steps. cbn -[upd_nth].
  split_and!; [split| |].
  - unfold cache_wf. cbn -[upd_nth]. rewrite (upd_entry_insert c _ _ e He), (upd_binding_insert c _ _ b Hb).
    destruct (sw_free_bindings _ _ _ _ _ _ Hwf) as [fb Hfb].
    eapply (store_rebind _ _ _ _ a' _ _ _ _ _ e _ b); [exact Hwf|exact He|done|exact Hb|exact Ht|done|..]; cbn -[bound_to]; try done.
    + unfold allocated. by rewrite Hf.
    + rewrite Hbt, unallocated_unbound, u32_small by lia. simpl. lia.
    + rewrite u32_small by lia. lia.
    + lia.
    + intros j Hj. unfold bound_to. rewrite Hv. cbn. symmetry. apply Z.eqb_neq. lia.
    + exists (Z.to_nat k :: fb). eapply free_bindings_push; [exact Hfb|exact Hb|done|done|done|lia].
  - unfold shape. cbn -[upd_nth]. rewrite !length_upd_nth. by rewrite (to_geometry _ _ _ _ _ Ht).
  - eexists. split; [by erewrite lookup_upd_nth_eq by exact Hb|done].
  - intros j Hj. apply lookup_upd_nth_ne. congruence.
Qed.

Lemma free_bindings_pop bs bh fb i b b' :
  free_list (fun j => b_reserved <$> bs !! j) (free_binding bs) NO_ENTRY bh fb ->
  bh = Z.of_nat i -> Z.of_nat (length bs) <= U32_MAX -> bs !! i = Some b -> b_valid b = false -> b_valid b' = true ->
  exists fl, free_list (fun j => b_reserved <$> <[i:=b']> bs !! j) (free_binding (<[i:=b']> bs)) NO_ENTRY
    (b_reserved b) fl.
Proof.
  intros Hfb Hbh Hlen Hb Hv Hv'. pose proof (lookup_lt_Some _ _ _ Hb).
  destruct (free_list_head _ _ _ _ _ Hfb) as (k&nx&fl'&Hk&_&_&->); [unfold NO_ENTRY; lia|].
  assert (k = i) as -> by lia. exists fl'.
  eapply free_list_pop; [exact Hfb|cbn beta; by rewrite Hb| |].
  - intros j _ Hj. by rewrite list_lookup_insert_ne.
  - intros j. unfold free_binding. destruct (decide (j = i)) as [->|Hne].
    + rewrite (insert_same _ _ b) by done. split; [intros (?&[= <-]&?); congruence|tauto].
    + rewrite list_lookup_insert_ne by done. tauto.
Qed.

Lemma free_entries_pop es eh fe i e e' :
  free_list (fun j => e_reserved <$> es !! j) (free_entry es) NO_ENTRY eh fe ->
  eh = Z.of_nat i -> Z.of_nat (length es) <= U32_MAX -> es !! i = Some e -> e_valid e = false -> e_valid e' = true ->
  exists fl, free_list (fun j => e_reserved <$> <[i:=e']> es !! j) (free_entry (<[i:=e']> es)) NO_ENTRY
    (e_reserved e) fl.
Proof.
  intros Hfb Hbh Hlen Hb Hv Hv'. pose proof (lookup_lt_Some _ _ _ Hb).
  destruct (free_list_head _ _ _ _ _ Hfb) as (k&nx&fl'&Hk&_&_&->); [unfold NO_ENTRY; lia|].
  assert (k = i) as -> by lia. exists fl'.
  eapply free_list_pop; [exact Hfb|cbn beta; by rewrite Hb| |].
  - intros j _ Hj. by rewrite list_lookup_insert_ne.
  - intros j. unfold free_entry. destruct (decide (j = i)) as [->|Hne].
    + rewrite (insert_same _ _ e) by done. split; [intros (?&[= <-]&?); congruence|tauto].
    + rewrite list_lookup_insert_ne by done. tauto.
Qed.

(** The head of the binding free list is a free binding; without one all are
    taken. *)
Lemma find_free_binding_spec c :
  cache_wf c ->
  match find_free_binding c with
  | Some k => 0 <= k /\ free_binding_head c = k /\ exists b, bindings c !! Z.to_nat k = Some b /\ b_valid b = false
  | None => forall k b, bindings c !! k = Some b -> b_valid b = true
  end.
Proof.
  intros Hwf. unfold find_free_binding. destruct (sw_free_bindings _ _ _ _ _ _ Hwf) as [fb Hfb].
  pose proof (sw_bindings _ _ _ _ _ _ Hwf) as Hlen.
  destruct (Z.eqb_spec (free_binding_head c) NO_ENTRY) as [Hno|Hno].
  - intros k b Hb. destruct (b_valid b) eqn:Hv; [done|]. exfalso. rewrite Hno in Hfb.
    eapply (free_list_empty _ _ _ _ Hfb); [|by exists b].
    intros j (x&Hx&_). apply lookup_lt_Some in Hx. unfold NO_ENTRY. lia.
  - destruct (free_list_head _ _ _ _ _ Hfb Hno) as (i&nx&fl'&Hi&(b&Hb&Hv)&_&_).
    rewrite Hi, Nat2Z.id, Hb, Hv. split_and!; [lia|done|]. exists b. by rewrite Nat2Z.id.
Qed.

(** Status flags are not part of the structure. *)
Lemma binding_flags_core b f :
  has_flag f BINDING_FLAG_VALID = has_flag (b_flags b) BINDING_FLAG_VALID ->
  binding_core (b <| b_flags := f |>) = binding_core b.
Proof.
  intros Hf. unfold binding_core.
  replace (b_valid (b <| b_flags := f |>)) with (b_valid b) by (unfold b_valid; by symmetry). done.
Qed.

Lemma entry_flags_core e f :
  has_flag f ENTRY_FLAG_VALID = has_flag (e_flags e) ENTRY_FLAG_VALID ->
  entry_core (e <| e_flags := f |>) = entry_core e.
Proof.
  intros Hf. unfold entry_core.
  replace (e_valid (e <| e_flags := f |>)) with (e_valid e) by (unfold e_valid; by symmetry). done.
Qed.

(** What acquiring does to an entry: at most one more reference. *)
Definition same_entry_but_references (e e' : Entry) : Prop :=
  exists n, e' = e <| e_reference_count := n |>.

(** What acquiring does to the bindings: one more references the entry, the others
    change at most their pending flag. *)
Definition acquired (c c' : PrefixCache) (seq i : Z) (e : Entry) : Prop :=
  (exists k b, bindings c' !! k = Some b /\ b_valid b = true /\ b_sequence_id b = seq /\
     b_entry_index b = i /\ binding_of b e) /\
  (forall k b, bindings c !! k = Some b -> b_valid b = true ->
     exists fl, bindings c' !! k = Some (b <| b_flags := fl |>) /\ b_valid (b <| b_flags := fl |>) = true) /\
  (forall k b', bindings c' !! k = Some b' -> b_valid b' = true ->
     (exists b fl, bindings c !! k = Some b /\ b_valid b = true /\ b' = b <| b_flags := fl |>) \/
     (b_sequence_id b' = seq /\ b_entry_index b' = i /\ binding_of b' e)).

Lemma acquired_upd c c' seq i e k f b :
  bindings c' = upd_nth k f (bindings c) -> bindings c !! Z.to_nat k = Some b ->
  (b_valid b = true -> exists fl, f b = b <| b_flags := fl |>) ->
  b_valid (f b) = true -> b_sequence_id (f b) = seq -> b_entry_index (f b) = i -> binding_of (f b) e ->
  acquired c c' seq i e.
Proof.
  intros Hc Hb Hf Hv Hs Hi Ho. unfold acquired. rewrite Hc.
  assert (forall x, exists fl, x = x <| b_flags := fl |>) as Hid.
  { intros x. exists (b_flags x). by destruct x. }
  split_and!.
  - exists (Z.to_nat k), (f b). split_and!; [by apply lookup_upd_nth_eq|done..].
  - intros j x Hx Hxv. destruct (decide (j = Z.to_nat k)) as [->|Hne].
    + assert (x = b) as -> by congruence. destruct (Hf Hxv) as [fl Hfl]. exists fl. rewrite <- Hfl.
      split; [by apply lookup_upd_nth_eq|done].
    + destruct (Hid x) as [fl Hfl]. exists fl. rewrite <- Hfl. rewrite lookup_upd_nth_ne by congruence. done.
  - intros j x Hx Hxv. apply lookup_upd_nth_Some in Hx as [(->&y&Hy&->)|[Hne Hx]].
    + right. by replace y with b by congruence.
    + left. destruct (Hid x) as [fl Hfl]. by exists x, fl.
Qed.

Lemma acquire_entry_spec c seq i op pending e :
  cache_wf c -> 0 <= i -> entries c !! Z.to_nat i = Some e -> e_valid e = true ->
  wp (acquire_entry_for_sequence seq i op pending)
    (fun _ c' => cache_ok c c' /\
       (exists e', entries c' !! Z.to_nat i = Some e' /\ same_entry_but_references e e') /\
       (forall j, j <> Z.to_nat i -> entries c' !! j = entries c !! j) /\ acquired c c' seq i e)
    (fun err c' => cache_ok c c' /\ err = CapacityExceeded /\ entries c' = entries c /\ bindings c' = bindings c) c.
Proof.
  intros Hwf Hi He Hv. unfold acquire_entry_for_sequence, upd_entry, upd_binding. wp_steps. unfold id. rewrite He.
  assert (same_entry_but_references e e) as Hself by (exists (e_reference_count e); by destruct e).
  destruct (find_binding c seq i) as [bi|] eqn:Hfind.
  - apply position_Some in Hfind as (Hbi&b&Hb&Hpb).
    apply andb_true_iff in Hpb as [Hpb Hbe]. apply andb_true_iff in Hpb as [Hbv Hbs]. apply Z.eqb_eq in Hbe, Hbs.
    assert (binding_of b e) as Hbo.
    { destruct (sw_binding _ _ _ _ _ _ Hwf _ b Hb Hbv) as (_&x&Hx&_&Hbo). rewrite Hbe in Hx. congruence. }
    destruct pending; wp_steps.
    2:{ split_and!; [by apply cache_ok_refl|by exists e|done|].
        apply (acquired_upd c c seq i e bi (fun b => b) b); try done.
        - apply list_eq. intros j. destruct (decide (j = Z.to_nat bi)) as [->|]; [by erewrite lookup_upd_nth_eq|].
          by rewrite lookup_upd_nth_ne.
        - exists (b_flags b). by destruct b. }
    split_and!; [|by exists e|done|].
    2:{ eapply (acquired_upd _ _ seq i e bi _ b); [done|done|by eexists|..|done|done|done].
        unfold b_valid. cbn -[has_flag]. rewrite has_flag_lor. apply orb_true_iff. by left. }
    split.
    + unfold cache_wf. cbn -[upd_nth]. eapply store_wf_sim; [exact Hwf|done| |apply (sw_arena _ _ _ _ _ _ Hwf)|].
      * apply bindings_sim_upd. intros b0 _. apply binding_flags_core.
        rewrite has_flag_lor. apply orb_false_r.
      * split_and!; [done|done|]. intros j x Hx. by exists x.
    + unfold shape. cbn -[upd_nth]. by rewrite length_upd_nth.
  - pose proof (find_free_binding_spec c Hwf) as Hffb. destruct (find_free_binding c) as [bi|]; [|wp_steps].
    2:{ split_and!; [by apply cache_ok_refl|done|done|done]. }
    destruct Hffb as (Hbi&Hbh&b&Hb&Hbv).
    destruct (valid_block c _ e Hwf He Hv) as (Hp&blk&Hblk&Hal&Hbr).
    pose proof (reference_range c _ e Hwf He Hv) as Hrr.
    destruct (sw_entry _ _ _ _ _ _ Hwf _ e He Hv) as [P1 _ P3 P4 P5].
    (* the free binding is not counted, so there is room for one more reference *)
    assert (e_reference_count e < U32_MAX) as Hroom.
    { assert (countb (bound_to (Z.to_nat i)) (bindings c) <> Z.of_nat (length (bindings c))) as Hne; [|lia].
      intros Hfull. pose proof (countb_full _ _ Hfull _ b Hb) as Hbt. unfold bound_to in Hbt. by rewrite Hbv in Hbt. }
    wp_steps. apply wp_on_arena.
    eapply wp_mono; [exact (retain_block_spec _ _ (sw_arena _ _ _ _ _ _ Hwf))| |].
    2:{ intros err a' (_&_&Hun). rewrite (Hun blk Hblk) in Hal. done. }
    intros [] a' (b1&b1'&_&Ht&Hkv'&Hf&_&Hrc).
    assert (b1 = blk) as -> by (pose proof (to_lookup _ _ _ _ _ Ht); congruence).
    wp_steps. rewrite Hbh, Z.eqb_refl. simpl negb. cbn iota. wp_steps. cbn -[upd_nth].
    split_and!; [split| | |].
    + unfold cache_wf. cbn -[upd_nth]. rewrite (upd_entry_insert c _ _ e He), (upd_binding_insert c _ _ b Hb).
      destruct (sw_free_bindings _ _ _ _ _ _ Hwf) as [fb Hfb].
      assert (forall n : Z, u32 n = n -> has_flag (if pending then Z.lor BINDING_FLAG_VALID BINDING_FLAG_PENDING
        else BINDING_FLAG_VALID) BINDING_FLAG_VALID = true) as Hfl by (by destruct pending).
      eapply (store_rebind _ _ _ _ a' _ _ _ _ _ e _ b); [exact Hwf|exact He|done|exact Hb|exact Ht|done|..];
        cbn -[bound_to]; try done.
      * unfold allocated. by rewrite Hf.
      * unfold bound_to, b_valid. cbn. rewrite (Hfl 0 eq_refl). unfold b_valid in Hbv. rewrite Hbv.
        rewrite Z2Nat.id, Z.eqb_refl by done. rewrite u32_small by lia. simpl. lia.
      * by rewrite Hrc, Hbr.
      * lia.
      * intros j Hj. unfold bound_to. rewrite Hbv. unfold b_valid. cbn. apply andb_false_iff. right.
        apply Z.eqb_neq. lia.
      * intros _. split; [lia|done].
      * eapply free_bindings_pop; [exact Hfb|lia| |exact Hb|done|].
        { pose proof (sw_bindings _ _ _ _ _ _ Hwf). lia. }
        unfold b_valid. cbn. by apply (Hfl 0).
    + unfold shape. cbn -[upd_nth]. rewrite !length_upd_nth. by rewrite (to_geometry _ _ _ _ _ Ht).
    + eexists. split; [by erewrite lookup_upd_nth_eq by exact He|]. by eexists.
    + intros j Hj. apply lookup_upd_nth_ne. congruence.
    + eapply (acquired_upd _ _ seq i e bi _ b); [done|done|congruence|..|done|done|done].
      unfold b_valid. cbn -[has_flag]. by destruct pending.
Qed.

(** ** Victims and installation *)

(** A slot [install_entry] can use: the head of the free list, or an evictable
    entry. *)
Definition installable (c : PrefixCache) (v : Z) : Prop :=
  0 <= v /\ exists e, entries c !! Z.to_nat v = Some e /\
    ((e_valid e = false /\ free_entry_head c = v) \/ (e_valid e = true /\ e_reference_count e = 0)).

(** How far an entry is from being evicted: unprotected entries go first, in
    order of their tick; protected ones in order of priority, then tick. *)
Definition evicts_before (c : PrefixCache) (e f : Entry) : Prop :=
  match entry_has_current_lookahead_protection c e, entry_has_current_lookahead_protection c f with
  | false, true => True
  | true, false => False
  | false, false => e_last_used_tick e <= e_last_used_tick f
  | true, true => e_lookahead_priority e < e_lookahead_priority f \/
      (e_lookahead_priority e = e_lookahead_priority f /\ e_last_used_tick e <= e_last_used_tick f)
  end.

Lemma better_total e f :
  protected_victim_is_better e f = false ->
  e_lookahead_priority f < e_lookahead_priority e \/
  (e_lookahead_priority f = e_lookahead_priority e /\ e_last_used_tick f <= e_last_used_tick e).
Proof.
  unfold protected_victim_is_better.
  destruct (Z.eqb_spec (e_lookahead_priority e) (e_lookahead_priority f)); simpl; intros H; lia.
Qed.

Lemma better_true e f :
  protected_victim_is_better e f = true ->
  e_lookahead_priority e < e_lookahead_priority f \/
  (e_lookahead_priority e = e_lookahead_priority f /\ e_last_used_tick e < e_last_used_tick f).
Proof.
  unfold protected_victim_is_better.
  destruct (Z.eqb_spec (e_lookahead_priority e) (e_lookahead_priority f)); simpl; intros H; lia.
Qed.

(** The scan's two running choices over the first [n] entries: each is the best
    evictable entry of its kind. *)
Definition best_of_kind (c : PrefixCache) (n : Z) (kind : bool) (o : option Z) : Prop :=
  match o with
  | Some v => 0 <= v /\ exists e, entries c !! Z.to_nat v = Some e /\ is_evictable e = true /\
      entry_has_current_lookahead_protection c e = kind /\
      forall j f, (j < Z.to_nat n)%nat -> entries c !! j = Some f -> is_evictable f = true ->
        entry_has_current_lookahead_protection c f = kind -> evicts_before c e f
  | None => forall j f, (j < Z.to_nat n)%nat -> entries c !! j = Some f -> is_evictable f = true ->
      entry_has_current_lookahead_protection c f <> kind
  end.

Lemma best_of_kind_skip c i kind o e :
  best_of_kind c i kind o -> 0 <= i -> entries c !! Z.to_nat i = Some e ->
  (is_evictable e = false \/ entry_has_current_lookahead_protection c e <> kind) ->
  best_of_kind c (i + 1) kind o.
Proof.
  intros Ho Hi He Hskip. unfold best_of_kind in *.
  assert (forall j f, (j < Z.to_nat (i + 1))%nat -> entries c !! j = Some f -> is_evictable f = true ->
    entry_has_current_lookahead_protection c f = kind -> (j < Z.to_nat i)%nat) as Hlt.
  { intros j f Hj Hf Hev Hk. destruct (decide (j = Z.to_nat i)) as [->|]; [|lia].
    assert (f = e) as -> by congruence. destruct Hskip; congruence. }
  destruct o as [v|].
  - destruct Ho as (Hv&ev&Hev&H1&H2&H3). split; [done|]. exists ev. split_and!; [done..|].
    intros j f Hj Hf Hfe Hk. apply (H3 j f); [by eapply Hlt|done..].
  - intros j f Hj Hf Hfe Hk. apply (Ho j f); [by eapply Hlt|done..].
Qed.

(** Taking entry [i] when it is better than the current choice, or the first. *)
Lemma best_of_kind_step c i kind o e (better : bool) :
  best_of_kind c i kind o -> 0 <= i -> entries c !! Z.to_nat i = Some e -> is_evictable e = true ->
  entry_has_current_lookahead_protection c e = kind ->
  match o with
  | None => better = true
  | Some v => forall ev, entries c !! Z.to_nat v = Some ev -> entry_has_current_lookahead_protection c ev = kind ->
      (if better then evicts_before c e ev /\ forall f, evicts_before c ev f ->
         entry_has_current_lookahead_protection c f = kind -> evicts_before c e f
       else evicts_before c ev e)
  end ->
  best_of_kind c (i + 1) kind (if better then Some i else o).
Proof.
  intros Ho Hi He Hev Hk Hbetter.
  assert (forall j f, (j < Z.to_nat (i + 1))%nat -> entries c !! j = Some f -> f = e \/ (j < Z.to_nat i)%nat) as Hsplit.
  { intros j f Hj Hf. destruct (decide (j = Z.to_nat i)) as [->|]; [left; congruence|right; lia]. }
  assert (evicts_before c e e) as Hrefl.
  { unfold evicts_before. destruct (entry_has_current_lookahead_protection c e); lia. }
  destruct o as [v|]; simpl in Ho.
  - destruct Ho as (Hv&ev&Hve&H1&H2&H3). specialize (Hbetter ev Hve H2). destruct better; simpl.
    + destruct Hbetter as [_ Htr]. split; [done|]. exists e. split_and!; [done..|].
      intros j f Hj Hf Hfe Hfk. destruct (Hsplit j f Hj Hf) as [->|Hlt]; [done|].
      apply Htr; [by apply (H3 j f)|done].
    + split; [done|]. exists ev. split_and!; [done..|]. intros j f Hj Hf Hfe Hfk.
      destruct (Hsplit j f Hj Hf) as [->|Hlt]; [done|]. by apply (H3 j f).
  - rewrite Hbetter. simpl. split; [done|]. exists e. split_and!; [done..|]. intros j f Hj Hf Hfe Hfk.
    destruct (Hsplit j f Hj Hf) as [->|Hlt]; [done|]. by destruct (Ho j f Hlt Hf Hfe).
Qed.

Lemma victim_round_spec c s i u p :
  0 <= i < Z.of_nat (length (entries c)) -> (forall j e, entries c !! j = Some e -> e_valid e = true) ->
  best_of_kind c i false u -> best_of_kind c i true p ->
  wp (victim_round c i (u, p))
    (fun r s' => s' = s /\ match r with
       | Continue (u', p') => best_of_kind c (i + 1) false u' /\ best_of_kind c (i + 1) true p'
       | Break _ => False end)
    (fun _ _ => False) s.
Proof.
  intros Hi Hall Hu Hp. destruct (lookup_Some_range (entries c) i Hi) as [e He].
  unfold victim_round. wp_steps. rewrite (Hall _ e He). simpl.
  destruct (is_evictable e) eqn:Hev; simpl.
  2:{ wp_steps. split; [done|]. split; eapply best_of_kind_skip; eauto; lia. }
  destruct (entry_has_current_lookahead_protection c e) eqn:Hprot.
  - assert (best_of_kind c (i + 1) false u) as Hu'.
    { eapply best_of_kind_skip; [done|lia|done|]. right. by rewrite Hprot. }
    destruct p as [cur|]; wp_steps.
    + pose proof Hp as (_&ec&Hec&_&Hck&_). wp_steps. split; [done|]. split; [done|].
      apply (best_of_kind_step c i true (Some cur) e _ Hp); [lia|done|done|done|].
      intros ev Hve Hvk. assert (ev = ec) as -> by congruence. unfold evicts_before. rewrite Hprot, Hck.
      destruct (protected_victim_is_better e ec) eqn:Hb.
      * apply better_true in Hb. split; [lia|]. intros f Hf Hfk. rewrite Hfk in *. lia.
      * apply better_total in Hb. lia.
    + split; [done|]. split; [done|]. apply (best_of_kind_step c i true None e true Hp); [lia|done..].
  - assert (best_of_kind c (i + 1) true p) as Hp'.
    { eapply best_of_kind_skip; [done|lia|done|]. right. by rewrite Hprot. }
    destruct u as [cur|]; wp_steps.
    + pose proof Hu as (_&ec&Hec&_&Hck&_). wp_steps. split; [done|]. split; [|done].
      apply (best_of_kind_step c i false (Some cur) e _ Hu); [lia|done|done|done|].
      intros ev Hve Hvk. assert (ev = ec) as -> by congruence. unfold evicts_before. rewrite Hprot, Hck.
      destruct (Z.ltb_spec (e_last_used_tick e) (e_last_used_tick ec)).
      * split; [lia|]. intros f Hf Hfk. rewrite Hfk in *. lia.
      * lia.
    + split; [done|]. split; [|done]. apply (best_of_kind_step c i false None e true Hu); [lia|done..].
Qed.

(** What [select_victim] returns. *)
Definition victim_choice (c : PrefixCache) (o : option Z) : Prop :=
  match o with
  | Some v => installable c v /\
      (free_entry_head c = NO_ENTRY -> exists e, entries c !! Z.to_nat v = Some e /\ is_evictable e = true /\
         forall j f, entries c !! j = Some f -> is_evictable f = true -> evicts_before c e f)
  | None => forall j f, entries c !! j = Some f -> e_valid f = true /\ is_evictable f = false
  end.

Lemma evictable_unreferenced e : is_evictable e = true -> e_valid e = true /\ e_reference_count e = 0.
Proof.
  unfold is_evictable. intros H. apply andb_true_iff in H as [H Hr]. apply andb_true_iff in H as [Hv _].
  split; [done|lia].
Qed.

Lemma choose_victim_spec c :
  cache_wf c ->
  wp select_victim
    (fun o c' => cache_ok c c' /\ entries c' = entries c /\ bindings c' = bindings c /\
       free_entry_head c' = free_entry_head c /\ victim_choice c o)
    (fun _ _ => False) c.
Proof.
  intros Hwf. unfold select_victim. wp_steps. unfold id.
  destruct (sw_free_entries _ _ _ _ _ _ Hwf) as [fe Hfe]. pose proof (sw_entries _ _ _ _ _ _ Hwf) as Hlen.
  destruct (Z.eqb_spec (free_entry_head c) NO_ENTRY) as [Hno|Hno]; simpl.
  - assert (forall j e, entries c !! j = Some e -> e_valid e = true) as Hall.
    { intros j e He. destruct (e_valid e) eqn:Hv; [done|]. exfalso. rewrite Hno in Hfe.
      eapply (free_list_empty _ _ _ _ Hfe); [|by exists e].
      intros k (x&Hx&_). apply lookup_lt_Some in Hx. unfold NO_ENTRY. lia. }
    rewrite u32_small by lia. wp_steps. eapply wp_mono.
    + apply (wp_for_flow (fun pre acc s => s = c /\ best_of_kind c (Z.of_nat (length pre)) false acc.1 /\
        best_of_kind c (Z.of_nat (length pre)) true acc.2) _ _ _
        (fun r s => s = c /\ exists u p, r = Continue (u, p) /\ best_of_kind c (Z.of_nat (length (entries c))) false u /\
           best_of_kind c (Z.of_nat (length (entries c))) true p) (fun _ _ => False)).
      * split_and!; [done|..]; intros j f Hj; simpl in Hj; lia.
      * intros pre i post [u p] s Hsplit (->&Hu&Hp). apply range_split in Hsplit as [-> Hi].
        rewrite length_range in Hu, Hp. rewrite length_app, length_range. simpl.
        replace (Z.of_nat (Z.to_nat (i - 0) + 1)) with (i + 1) by lia.
        replace (Z.of_nat (Z.to_nat (i - 0))) with i in Hu, Hp by lia.
        eapply wp_mono; [by apply victim_round_spec| |done].
        intros [[u' p']|b] s' [-> Hr]; [done|done].
      * intros [u p] s (->&Hu&Hp). rewrite length_range, Z.sub_0_r, Nat2Z.id in Hu, Hp. split; [done|].
        by exists u, p.
    + intros r s (->&u&p&->&Hu&Hp). unfold best_of_kind in Hu, Hp. rewrite Nat2Z.id in Hu, Hp.
      destruct u as [v|]; wp_steps.
      * destruct Hu as (Hv&e&He&Hev&Hk&Hmin). split_and!; [by apply cache_ok_refl|done..|].
        split; [split; [done|]; exists e; split; [done|]; right; by apply evictable_unreferenced|].
        intros _. exists e. split_and!; [done|done|]. intros j f Hf Hfev.
        destruct (entry_has_current_lookahead_protection c f) eqn:Hfk.
        { unfold evicts_before. by rewrite Hk, Hfk. }
        apply (Hmin j f); [by eapply lookup_lt_Some|done..].
      * destruct p as [v|]; wp_steps.
        { destruct Hp as (Hv&e&He&Hev&Hk&Hmin). split_and!; [|done..|].
          - split; [exact Hwf|done].
          - split; [split; [done|]; exists e; split; [done|]; right; by apply evictable_unreferenced|].
            intros _. exists e. split_and!; [done|done|]. intros j f Hf Hfev.
            apply (Hmin j f); [by eapply lookup_lt_Some|done|done|].
            destruct (entry_has_current_lookahead_protection c f) eqn:Hfk; [done|].
            exfalso. eapply Hu; [by eapply lookup_lt_Some|done|done|done]. }
        split_and!; [by apply cache_ok_refl|done..|]. intros j f Hf. split; [by eapply Hall|].
        destruct (is_evictable f) eqn:Hfev; [|done].
        destruct (entry_has_current_lookahead_protection c f) eqn:Hfk.
        { exfalso. eapply Hp; [by eapply lookup_lt_Some|done|done|done]. }
        { exfalso. eapply Hu; [by eapply lookup_lt_Some|done|done|done]. }
    + done.
  - destruct (free_list_head _ _ _ _ _ Hfe Hno) as (i&nx&fl'&Hi&(e&He&Hv)&_&_).
    assert (entries c !! Z.to_nat (free_entry_head c) = Some e) as He' by (by rewrite Hi, Nat2Z.id).
    rewrite He', Hv. wp_steps. split_and!; [by apply cache_ok_refl|done..|].
    split; [|done]. split; [lia|]. exists e. split; [done|]. by left.
Qed.

Lemma installed_valid e flags parent block content first tokens op physical now :
  e_valid (installed e flags parent block content first tokens op physical now) = true.
Proof.
  unfold e_valid. change (has_flag (Z.lor ENTRY_FLAG_VALID flags) ENTRY_FLAG_VALID = true).
  rewrite has_flag_lor. done.
Qed.

(** Writing the new entry over an arena that has provided its block. *)
Lemma install_store c a' v e eh' flags parent block content first tokens op physical now blk blk' :
  cache_wf c -> 0 <= v -> entries c !! Z.to_nat v = Some e ->
  1 <= tokens <= block_token_count c -> 0 <= first -> first + tokens <= U32_MAX ->
  countb (bound_to (Z.to_nat v)) (bindings c) = 0 ->
  touched (arena c) a' physical blk blk' -> kv_wf a' -> 0 <= physical ->
  allocated blk' = true -> block_reference_count blk' = 0 ->
  (e_valid e = true /\ e_physical_block_index e = physical /\ eh' = free_entry_head c) \/
  (e_valid e = false /\ allocated blk = false /\ free_entry_head c = v /\ eh' = e_reserved e) ->
  let e' := installed e flags parent block content first tokens op physical now in
  store_wf (block_token_count c) (<[Z.to_nat v := e']> (entries c)) (bindings c) a' eh' (free_binding_head c).
Proof.
  intros Hwf Hv He Ht1 Ht2 Ht3 Hcnt Ht Hkv Hp Hal Hrc Hcase e'.
  destruct (sw_free_entries _ _ _ _ _ _ Hwf) as [fe Hfe].
  pose proof (installed_valid e flags parent block content first tokens op physical now) as Hve'. fold e' in Hve'.
  eapply (store_put_entry _ _ _ _ a' _ _ _ _ e); [exact Hwf|exact He|done|exact Ht|done|done|done|done|done|done|done|done|done|done| |].
  - destruct Hcase as [(?&?&_)|(?&?&_)]; auto.
  - destruct Hcase as [(Hve&_&->)|(Hve&_&Heh&->)].
    + exists fe. eapply free_list_frame; [exact Hfe| |].
      * intros j (x&Hx&Hxv). rewrite list_lookup_insert_ne; [done|]. intros <-. congruence.
      * intros j. unfold free_entry. destruct (decide (j = Z.to_nat v)) as [->|Hne].
        { rewrite (insert_same _ _ e) by done. naive_solver congruence. }
        rewrite list_lookup_insert_ne by done. done.
    + eapply free_entries_pop; [exact Hfe|lia| |exact He|done|done].
      pose proof (sw_entries _ _ _ _ _ _ Hwf). lia.
Qed.

(** The stores after the block has been found: only the arena and the head of the
    entry free list changed. *)
Definition block_provided (c c1 : PrefixCache) (v : Z) (e : Entry) (physical : Z) : Prop :=
  block_token_count c1 = block_token_count c /\ physical_block_count c1 = physical_block_count c /\
  entries c1 = entries c /\ bindings c1 = bindings c /\ free_binding_head c1 = free_binding_head c /\
  countb (bound_to (Z.to_nat v)) (bindings c) = 0 /\ 0 <= physical /\ kv_wf (arena c1) /\
  exists blk blk', touched (arena c) (arena c1) physical blk blk' /\ allocated blk' = true /\
    block_reference_count blk' = 0 /\
    ((e_valid e = true /\ e_physical_block_index e = physical /\ free_entry_head c1 = free_entry_head c) \/
     (e_valid e = false /\ allocated blk = false /\ free_entry_head c = v /\ free_entry_head c1 = e_reserved e)).

Lemma install_block_spec c v e :
  cache_wf c -> 0 <= v -> entries c !! Z.to_nat v = Some e ->
  (e_valid e = false /\ free_entry_head c = v) \/ (e_valid e = true /\ e_reference_count e = 0) ->
  wp (install_block v e)
    (fun physical c1 => block_provided c c1 v e physical)
    (fun err c1 => cache_ok c c1 /\ err = CapacityExceeded /\ entries c1 = entries c /\ bindings c1 = bindings c) c.
Proof.
  intros Hwf Hv He Hcase. unfold install_block. pose proof (sw_arena _ _ _ _ _ _ Hwf) as Hkv.
  destruct Hcase as [[Hve Hh]|[Hve Hr]]; rewrite Hve.
  - wp_steps. rewrite Hh, Z.eqb_refl. simpl. wp_steps. apply wp_on_arena.
    pose proof (unbound_invalid _ _ _ _ _ _ _ _ Hwf He Hve) as Hcnt.
    eapply wp_mono; [by apply acquire_block_spec| |].
    + intros p a' (Hp&b&b'&Hal&Ht&Hkv'&Hf&Hrc&_&_). wp_steps. unfold block_provided. cbn -[bound_to].
      split_and!; [done|done|done|done|done|done|lia|done|]. exists b, b'. split_and!; [exact Ht| |done|].
      * unfold allocated. by rewrite Hf.
      * right. by rewrite Hh.
    + intros err a' (->&->&_). split_and!; [|done|done|done]. by split.
  - rewrite Hr. simpl. destruct (valid_block c _ e Hwf He Hve) as (Hp&blk&Hblk&Hal&Hbr).
    destruct (sw_entry _ _ _ _ _ _ Hwf _ e He Hve) as [_ _ P3 _ _]. rewrite Hr in P3.
    wp_steps. apply wp_on_arena. eapply wp_mono; [by apply recycle_block_spec| |].
    + intros [] a' (b&b'&_&_&Ht&Hkv'&Hf&Hrc&_). wp_steps. unfold block_provided. cbn -[bound_to].
      split_and!; [done|done|done|done|done|done|lia|done|]. exists b, b'. split_and!; [exact Ht| |done|by left].
      unfold allocated. by rewrite Hf.
    + intros err a' [_ [[_ Hun]|[_ (b&Hb&Hne)]]]; [rewrite (Hun blk Hblk) in Hal; done|].
      assert (b = blk) as -> by congruence. congruence.
Qed.

Lemma install_entry_spec c v flags parent block content first tokens op :
  cache_wf c -> installable c v -> 1 <= tokens <= block_token_count c -> 0 <= first ->
  first + tokens <= U32_MAX ->
  wp (install_entry v flags parent block content first tokens op)
    (fun _ c' => cache_ok c c' /\ bindings c' = bindings c /\
       (exists e physical now, entries c' !! Z.to_nat v =
          Some (installed e flags parent block content first tokens op physical now)) /\
       (forall j, j <> Z.to_nat v -> entries c' !! j = entries c !! j))
    (fun err c' => cache_ok c c' /\ err = CapacityExceeded /\ entries c' = entries c /\
       bindings c' = bindings c) c.
Proof.
  intros Hwf (Hv&e&He&Hcase) Ht1 Ht2 Ht3. unfold install_entry, upd_entry. wp_steps. unfold id. rewrite He.
  wp_step. eapply wp_mono; [by apply install_block_spec| |done].
  intros physical c1 (B1&B2&B3&B4&B5&Hcnt&Hp&Hkv&blk&blk'&Ht&Hal&Hrc&Hc). wp_steps.
  set (f := fun e => installed e flags parent block content first tokens op physical (tick c1 +u64 1)).
  assert (entries c1 !! Z.to_nat v = Some e) as He1 by congruence.
  pose proof (install_store c (arena c1) v e (free_entry_head c1) flags parent block content first tokens op
    physical (tick c1 +u64 1) blk blk' Hwf Hv He Ht1 Ht2 Ht3 Hcnt Ht Hkv Hp Hal Hrc Hc) as Hst.
  assert (upd_nth v f (entries c1) = <[Z.to_nat v := f e]> (entries c)) as Hup.
  { rewrite (upd_entry_insert c1 v f e He1). by rewrite B3. }
  assert (forall c', block_token_count c' = block_token_count c1 -> physical_block_count c' = physical_block_count c1 ->
    entries c' = upd_nth v f (entries c1) -> bindings c' = bindings c1 -> arena c' = arena c1 ->
    free_entry_head c' = free_entry_head c1 -> free_binding_head c' = free_binding_head c1 ->
    cache_ok c c' /\ bindings c' = bindings c /\
       (exists e physical now, entries c' !! Z.to_nat v =
          Some (installed e flags parent block content first tokens op physical now)) /\
       (forall j, j <> Z.to_nat v -> entries c' !! j = entries c !! j)) as Hdone.
  { intros c' E1 E2 E3 E4 E5 E6 E7. rewrite Hup in E3. split_and!; [split| | |].
    - unfold cache_wf. rewrite E1, E3, E4, E5, E6, E7, B1, B4, B5. exact Hst.
    - unfold shape. rewrite E1, E2, E3, E4, E5, B1, B2, B4, length_insert. by rewrite (to_geometry _ _ _ _ _ Ht).
    - congruence.
    - rewrite E3. eexists _, _, _. by rewrite (insert_same _ _ e).
    - intros j Hj. rewrite E3. by apply list_lookup_insert_ne. }
  destruct (has_flag flags ENTRY_FLAG_LIVE_ONLY); wp_steps; by apply Hdone.
Qed.

(** ** Rolling back *)

(** Releasing every binding that satisfies [p] leaves none. *)
Lemma release_bindings_spec c p :
  cache_wf c -> (forall b, p b = true -> b_valid b = true) ->
  wp (release_bindings_where p)
    (fun _ c' => cache_ok c c' /\
       (forall k b, bindings c' !! k = Some b -> p b = false /\
         (b_valid b = true -> bindings c !! k = Some b)) /\
       (forall k b, bindings c !! k = Some b -> p b = false -> bindings c' !! k = Some b))
    (fun _ _ => False) c.
Proof.
  intros Hwf Hp. unfold release_bindings_where. wp_steps.
  pose proof (sw_bindings _ _ _ _ _ _ Hwf) as Hlen. rewrite u32_small by lia.
  eapply wp_mono.
  - apply (wp_for_fold (fun pre (_ : unit) c' => cache_ok c c' /\
      (forall k b, (k < length pre)%nat -> bindings c' !! k = Some b -> p b = false) /\
      (forall k b, bindings c' !! k = Some b -> b_valid b = true -> bindings c !! k = Some b) /\
      (forall k b, bindings c !! k = Some b -> p b = false -> bindings c' !! k = Some b)) _ _ _ (fun _ _ => False)).
    + split_and!; [by apply cache_ok_refl|simpl; lia|done|done].
    + intros pre i post [] c' Hsplit ((Hwf'&Hsh)&Hdone&Horig&Hkeep). apply range_split in Hsplit as [-> Hi].
      destruct (shape_fields _ _ Hsh) as (_&_&Hlb&_). rewrite length_range in Hdone.
      destruct (lookup_Some_range (bindings c') i) as [b Hb]; [lia|]. wp_steps. unfold id. wp_steps.
      assert (forall k : nat, (k < length (range 0 i ++ [i]))%nat -> k <> Z.to_nat i -> (k < Z.to_nat (i - 0))%nat) as Hlt.
      { intros k Hk Hne. rewrite length_app, length_range in Hk. simpl in Hk. lia. }
      destruct (p b) eqn:Hpb.
      * eapply wp_mono; [eapply release_binding_spec; [done|lia|done]| |done].
        intros [] c2 (Hok&(b'&Hb'&Hv')&Hother). split_and!; [by eapply cache_ok_trans|..].
        { intros k x Hk Hx. destruct (decide (k = Z.to_nat i)) as [->|Hne].
          - assert (x = b') as -> by congruence. destruct (p b') eqn:Hpb'; [|done]. apply Hp in Hpb'. congruence.
          - rewrite Hother in Hx by done. apply (Hdone k x); [by apply Hlt|done]. }
        { intros k x Hx Hxv. destruct (decide (k = Z.to_nat i)) as [->|Hne]; [congruence|].
          rewrite Hother in Hx by done. by apply Horig. }
        { intros k x Hx Hpx. destruct (decide (k = Z.to_nat i)) as [->|Hne]; [|rewrite Hother by done; by apply Hkeep].
          rewrite (Hkeep _ x Hx Hpx) in Hb. congruence. }
      * wp_steps. split_and!; [done| |done|done]. intros k x Hk Hx.
        destruct (decide (k = Z.to_nat i)) as [->|Hne]; [congruence|]. apply (Hdone k x); [by apply Hlt|done].
  - intros [] c' (Hok&Hdone&Horig&Hkeep). split_and!; [done| |done]. intros k b Hb. split; [|by apply Horig].
    apply (Hdone k b); [|done]. rewrite length_range. apply lookup_lt_Some in Hb.
    destruct (shape_fields _ _ (proj2 Hok)) as (_&_&Hlb&_). lia.
  - done.
Qed.

(** Invalidating every entry that satisfies [q] leaves none, when [q] selects
    unreferenced valid entries. *)
Lemma invalidate_entries_spec c q after :
  cache_wf c -> (forall e, q e = true -> e_valid e = true /\ e_reference_count e = 0) ->
  (forall c', wp after (fun _ c2 => cache_wf c' -> cache_ok c' c2 /\ entries c2 = entries c' /\ bindings c2 = bindings c')
                (fun _ _ => False) c') ->
  wp (invalidate_entries_where q after)
    (fun _ c' => cache_ok c c' /\ bindings c' = bindings c /\
       forall k e, entries c' !! k = Some e -> q e = false /\ (e_valid e = true -> entries c !! k = Some e))
    (fun _ _ => False) c.
Proof.
  intros Hwf Hq Hafter. unfold invalidate_entries_where. wp_steps.
  pose proof (sw_entries _ _ _ _ _ _ Hwf) as Hlen. rewrite u32_small by lia.
  eapply wp_mono.
  - apply (wp_for_fold (fun pre (_ : unit) c' => cache_ok c c' /\ bindings c' = bindings c /\
      (forall k e, (k < length pre)%nat -> entries c' !! k = Some e -> q e = false) /\
      (forall k e, entries c' !! k = Some e -> e_valid e = true -> entries c !! k = Some e)) _ _ _ (fun _ _ => False)).
    + split_and!; [by apply cache_ok_refl|done|simpl; lia|done].
    + intros pre i post [] c' Hsplit ((Hwf'&Hsh)&Hbs&Hdone&Horig). apply range_split in Hsplit as [-> Hi].
      destruct (shape_fields _ _ Hsh) as (_&Hle&_). rewrite length_range in Hdone.
      destruct (lookup_Some_range (entries c') i) as [e He]; [lia|]. wp_steps. unfold id. wp_steps.
      assert (forall k : nat, (k < length (range 0 i ++ [i]))%nat -> k <> Z.to_nat i -> (k < Z.to_nat (i - 0))%nat) as Hlt.
      { intros k Hk Hne. rewrite length_app, length_range in Hk. simpl in Hk. lia. }
      destruct (q e) eqn:Hqe.
      * destruct (Hq e Hqe) as [Hv Hr]. wp_step.
        eapply wp_mono; [eapply invalidate_entry_spec; [done|lia|done|done]| |done].
        intros [] c2 (Hok&Hb2&(e'&He'&Hv')&Hother&_).
        eapply wp_mono; [apply Hafter| |done]. intros [] c3 H3.
        destruct (H3 (proj1 Hok)) as (Hok3&He3&Hb3). rewrite He3.
        split_and!; [eapply cache_ok_trans; [|exact Hok3]; by eapply (cache_ok_trans c c')|congruence|..].
        { intros k x Hk Hx. destruct (decide (k = Z.to_nat i)) as [->|Hne].
          - assert (x = e') as -> by congruence. destruct (q e') eqn:Hqe'; [|done]. apply Hq in Hqe' as [? _]. congruence.
          - rewrite Hother in Hx by done. apply (Hdone k x); [by apply Hlt|done]. }
        { intros k x Hx Hxv. destruct (decide (k = Z.to_nat i)) as [->|Hne]; [congruence|].
          rewrite Hother in Hx by done. by apply Horig. }
      * wp_steps. split_and!; [done|done| |done]. intros k x Hk Hx.
        destruct (decide (k = Z.to_nat i)) as [->|Hne]; [congruence|]. apply (Hdone k x); [by apply Hlt|done].
  - intros [] c' (Hok&Hbs&Hdone&Horig). split_and!; [done|done|]. intros k e He. split; [|by apply Horig].
    apply (Hdone k e); [|done]. rewrite length_range. apply lookup_lt_Some in He.
    destruct (shape_fields _ _ (proj2 Hok)) as (_&Hle&_). lia.
  - done.
Qed.

(** Rolling back an epoch never fails; afterwards the sequence has no binding of
    that epoch, and no unreferenced pending entry of that epoch is left. *)
Lemma rollback_epoch_spec c seq op :
  cache_wf c ->
  wp (rollback_epoch seq op)
    (fun _ c' => cache_ok c c' /\
       (forall k b, bindings c' !! k = Some b -> b_valid b = true ->
          bindings c !! k = Some b /\ (b_sequence_id b <> seq \/ b_acquire_epoch b <> op)) /\
       (forall k e, entries c' !! k = Some e -> e_valid e = true -> e_pending e = true ->
          e_reservation_epoch e = op -> e_reference_count e <> 0))
    (fun _ _ => False) c.
Proof.
  intros Hwf. unfold rollback_epoch. wp_step. eapply wp_mono; [apply release_bindings_spec; [done|]| |done].
  { intros b Hb. apply andb_true_iff in Hb as [Hb _]. by apply andb_true_iff in Hb as [Hb _]. }
  intros [] c1 ([Hwf1 Hsh1]&Hb1&_). eapply wp_mono; [apply invalidate_entries_spec; [done| |]| |done].
  - intros e He. apply andb_true_iff in He as [He Hr]. apply andb_true_iff in He as [He _].
    apply andb_true_iff in He as [Hv _]. split; [done|lia].
  - intros c'. wp_steps. intros Hc'. split_and!; [by split|done|done].
  - intros [] c2 (Hok2&Hbs&He2). split_and!; [by eapply cache_ok_trans|..].
    + intros k b Hb Hv. rewrite Hbs in Hb. destruct (Hb1 k b Hb) as [Hp Horig]. split; [by apply Horig|].
      rewrite Hv in Hp. simpl in Hp. apply andb_false_iff in Hp as [Hp|Hp]; [left|right]; lia.
    + intros k e He Hv Hpend Hop Hz. destruct (He2 k e He) as [Hq _].
      rewrite Hv, Hpend, Hop, Z.eqb_refl, Hz in Hq. done.
Qed.

Lemma fail_with_rollback_spec {A} c c0 seq op err (Q : A -> PrefixCache -> Prop) :
  cache_ok c0 c ->
  wp (fail_with_rollback seq op err) Q (fun e c' => cache_ok c0 c' /\ e = err /\
    (forall k b, bindings c' !! k = Some b -> b_valid b = true ->
       b_sequence_id b <> seq \/ b_acquire_epoch b <> op) /\
    (forall k e, entries c' !! k = Some e -> e_valid e = true -> e_pending e = true ->
       e_reservation_epoch e = op -> e_reference_count e <> 0)) c.
Proof.
  intros Hok. unfold fail_with_rollback. wp_steps.
  eapply wp_mono; [apply rollback_epoch_spec, Hok| |done]. intros [] c' (Hok'&Hb&He). wp_steps.
  split_and!; [by eapply cache_ok_trans|done| |done]. intros k b Hk Hv. by apply (Hb k b).
Qed.
