(* ===== verification/PrefixCacheSpecs.v ===== *)
(** * The prefix cache: probing, lookahead, residency and reservations

    Specifications of the methods that look at the cached chain of a prompt, of
    residency trimming, and of lookup, reservation and commit: each returns
    without panicking, keeps the invariant, and either succeeds with the stated
    result or rolls its epoch back. *)

From S2P Require Import Prelude FreeList KvArena PrefixCache PrefixCacheInv.

(** ** Updates of clocks and status *)

Lemma cache_ok_sim c c' :
  cache_wf c -> block_token_count c' = block_token_count c -> physical_block_count c' = physical_block_count c ->
  free_entry_head c' = free_entry_head c -> free_binding_head c' = free_binding_head c ->
  entries_sim (entries c) (entries c') -> bindings_sim (bindings c) (bindings c') ->
  kv_wf (arena c') -> owners_kept (arena c) (arena c') -> cache_ok c c'.
Proof.
  intros Hwf E1 E2 E3 E4 Hes Hbs Hkv Hown. split.
  - unfold cache_wf. rewrite E1, E3, E4. by eapply store_wf_sim.
  - unfold shape. rewrite E1, E2. rewrite (Forall2_length _ _ _ Hes), (Forall2_length _ _ _ Hbs).
    by rewrite (proj1 Hown).
Qed.

Lemma owners_kept_refl a : owners_kept a a.
Proof. split_and!; [done|done|]. intros j b Hb. by exists b. Qed.

(** Everything but clocks and counters is as before. *)
Record quiet (c c' : PrefixCache) : Prop := {
  qu_btc : block_token_count c' = block_token_count c;
  qu_physical : physical_block_count c' = physical_block_count c;
  qu_bindings : bindings c' = bindings c;
  qu_arena : arena c' = arena c;
  qu_entry_head : free_entry_head c' = free_entry_head c;
  qu_binding_head : free_binding_head c' = free_binding_head c;
  qu_epoch : operation_epoch c' = operation_epoch c;
  qu_entries : Forall2 (fun e e' => exists t, e' = e <| e_last_used_tick := t |>) (entries c) (entries c');
}.

Lemma ticked_refl es : Forall2 (fun e e' : Entry => exists t, e' = e <| e_last_used_tick := t |>) es es.
Proof. induction es as [|e es IH]; constructor; [exists (e_last_used_tick e); by destruct e|done]. Qed.

Lemma quiet_refl c : quiet c c.
Proof. split; try done. apply ticked_refl. Qed.

Lemma quiet_trans c1 c2 c3 : quiet c1 c2 -> quiet c2 c3 -> quiet c1 c3.
Proof.
  intros [A1 A2 A3 A4 A5 A6 A8 A7] [B1 B2 B3 B4 B5 B6 B8 B7]. split; try congruence.
  clear -A7 B7. revert B7. generalize (entries c3). induction A7 as [|e e' es es' [t ->] H IH];
    intros l B7; inversion B7 as [|? e3 ? ? [t' ->]]; subst; constructor; [by exists t'|auto].
Qed.

Lemma quiet_ok c c' : cache_wf c -> quiet c c' -> cache_ok c c'.
Proof.
  intros Hwf [Q1 Q2 Q3 Q4 Q5 Q6 _ Q7]. apply cache_ok_sim; try done.
  - eapply Forall2_impl; [exact Q7|]. by intros e e' [t ->].
  - by rewrite Q3.
  - rewrite Q4. apply (sw_arena _ _ _ _ _ _ Hwf).
  - rewrite Q4. apply owners_kept_refl.
Qed.

Lemma quiet_tick c i t tk :
  quiet c (c <| tick := tk |> <| entries := upd_nth i (fun e => e <| e_last_used_tick := t |>) (entries c) |>).
Proof.
  split; try done. cbn -[upd_nth]. apply Forall2_same_length_lookup.
  split; [symmetry; apply length_upd_nth|]. intros j e e' He He'.
  apply lookup_upd_nth_Some in He' as [(->&x&Hx&->)|[_ He']].
  - simplify_eq. by exists t.
  - assert (e' = e) as -> by congruence. exists (e_last_used_tick e). by destruct e.
Qed.

Lemma quiet_entry c c' i e' :
  quiet c c' -> entries c' !! i = Some e' ->
  exists e t, entries c !! i = Some e /\ e' = e <| e_last_used_tick := t |>.
Proof.
  intros Hq He'. destruct (Forall2_lookup_r _ _ _ _ _ (qu_entries _ _ Hq) He') as (e&He&t&->). by exists e, t.
Qed.

Lemma quiet_entry_l c c' i e :
  quiet c c' -> entries c !! i = Some e ->
  exists t, entries c' !! i = Some (e <| e_last_used_tick := t |>).
Proof.
  intros Hq He. destruct (Forall2_lookup_l _ _ _ _ _ (qu_entries _ _ Hq) He) as (e'&He'&t&->). by exists t.
Qed.

(** ** Searching *)

(** The entry holds exactly this block of a prompt. *)
Definition holds (c : PrefixCache) (e : Entry) (parent block content first : Z) : Prop :=
  e_valid e = true /\ e_parent_hash e = parent /\ e_block_hash e = block /\
  e_content_hash e = content /\ e_first_token_index e = first /\ e_token_count e = block_token_count c.

Lemma find_entry_Some c parent block content first tokens only i :
  find_entry c parent block content first tokens only = Some i ->
  0 <= i /\ exists e, entries c !! Z.to_nat i = Some e /\ e_valid e = true /\ e_parent_hash e = parent /\
    e_block_hash e = block /\ e_content_hash e = content /\ e_first_token_index e = first /\
    e_token_count e = tokens /\ (only = true -> entry_is_reusable c e = true).
Proof.
  intros Hf. apply position_Some in Hf as (Hi&e&He&Hp). split; [done|]. exists e.
  repeat (apply andb_true_iff in Hp as [Hp ?]). split_and!; try lia; try done.
  intros ->. done.
Qed.

Lemma find_entry_None c parent block content first tokens i e :
  find_entry c parent block content first tokens true = None -> entries c !! i = Some e ->
  ~ (e_valid e = true /\ e_parent_hash e = parent /\ e_block_hash e = block /\
     e_content_hash e = content /\ e_first_token_index e = first /\ e_token_count e = tokens /\
     entry_is_reusable c e = true).
Proof.
  intros Hf He (H1&<-&<-&<-&<-&<-&H7). pose proof (position_None _ _ _ _ Hf He) as Hp. simpl in Hp.
  rewrite H1, !Z.eqb_refl, H7 in Hp. done.
Qed.

Lemma find_binding_at_Some c seq off k :
  find_binding_at_token_offset c seq off = Some k ->
  0 <= k /\ exists b, bindings c !! Z.to_nat k = Some b /\ b_valid b = true /\ b_sequence_id b = seq /\
    b_first_token_index b = off.
Proof.
  intros Hf. apply position_Some in Hf as (Hk&b&Hb&Hp). split; [done|]. exists b.
  repeat (apply andb_true_iff in Hp as [Hp ?]). split_and!; try lia; done.
Qed.

(** ** Blocks of a prompt *)

Section prompt.
Context (btc : Z) (tokens : list Z).

(** The [n]-th block of the prompt and the hash chain up to it. *)
Definition prompt_block (n : nat) : list Z :=
  take (Z.to_nat btc) (drop (Z.to_nat (Z.of_nat n * btc)) tokens).

Fixpoint chain_hash (n : nat) : Z :=
  match n with O => EMPTY_PARENT_HASH | S m => hash_block (prompt_block m) (chain_hash m) end.

End prompt.

(** The cache holds the [n]-th block of the prompt. *)
Definition block_cached (c : PrefixCache) (tokens : list Z) (n : nat) : Prop :=
  let btc := block_token_count c in
  exists i e, entries c !! i = Some e /\
    holds c e (chain_hash btc tokens n) (chain_hash btc tokens (S n))
      (hash_block_content (prompt_block btc tokens n)) (Z.of_nat n * btc).

(** ... and offers it to every sequence. *)
Definition block_reusable (c : PrefixCache) (tokens : list Z) (n : nat) : Prop :=
  let btc := block_token_count c in
  exists i e, entries c !! i = Some e /\ entry_is_reusable c e = true /\
    holds c e (chain_hash btc tokens n) (chain_hash btc tokens (S n))
      (hash_block_content (prompt_block btc tokens n)) (Z.of_nat n * btc).

Lemma max_reusable_spec c n :
  1 <= block_token_count c <= 256 -> 0 <= n <= U32_MAX ->
  let r := maximum_reusable_token_count c n in
  0 <= r /\ (r < n \/ r = 0 /\ n = 0) /\ exists k, 0 <= k /\ r = k * block_token_count c.
Proof.
  intros Hb Hn. unfold maximum_reusable_token_count. destruct (Z.leb_spec n 1).
  - split_and!; [lia|lia|]. exists 0. lia.
  - rewrite (u32_small (n - 1)) by lia. pose proof (Z.mod_pos_bound (n - 1) (block_token_count c)).
    pose proof (Z.mod_le (n - 1) (block_token_count c)). rewrite u32_small by lia.
    split_and!; [lia|lia|]. exists ((n - 1) / block_token_count c).
    split; [apply Z.div_pos; lia|]. pose proof (Z.div_mod (n - 1) (block_token_count c)). lia.
Qed.

(** Stepping from one multiple of the block size to the next stays below a
    larger multiple. *)
Lemma block_step n r btc k :
  1 <= btc -> r = k * btc -> n * btc < r -> (n + 1) * btc <= r.
Proof. intros. assert (n < k) by nia. nia. Qed.

Lemma slice_block {S E} btc tokens n (Q : list Z -> S -> Prop) (R : E -> S -> Prop) s hi :
  1 <= btc -> hi = Z.of_nat n * btc + btc -> hi <= Z.of_nat (length tokens) ->
  Q (prompt_block btc tokens n) s -> wp (slice tokens (Z.of_nat n * btc) hi) Q R s.
Proof.
  intros Hb -> Hlen HQ. apply wp_slice; [lia|lia|].
  by replace (Z.of_nat n * btc + btc - Z.of_nat n * btc) with btc by lia.
Qed.

Lemma u32_le x : 0 <= x -> 0 <= u32 x <= x /\ u32 x <= U32_MAX.
Proof. intros. pose proof (u32_range x). unfold u32 in *. pose proof (Z.mod_le x 4294967296). lia. Qed.

(** ** Probing *)

(** The entry found for a block belongs to it. *)
Lemma own_entry_spec c seq off parent block content :
  cache_wf c ->
  wp (own_entry seq off parent block content)
    (fun o c' => c' = c /\ match o with
       | Some i => 0 <= i /\ exists e, entries c !! Z.to_nat i = Some e /\ holds c e parent block content off
       | None => True end)
    (fun _ _ => False) c.
Proof.
  intros Hwf. unfold own_entry. wp_steps. unfold id.
  destruct (find_binding_at_token_offset c seq off) as [k|] eqn:Hf; [|by wp_steps].
  destruct (find_binding_at_Some _ _ _ _ Hf) as (Hk&b&Hb&Hv&_&_). wp_steps.
  destruct (sw_binding _ _ _ _ _ _ Hwf _ b Hb Hv) as (Hi&e&He&_). rewrite He.
  match goal with |- wp (if ?g then _ else _) _ _ _ => destruct g eqn:Hg end; wp_steps; [|done].
  split; [done|]. split; [done|]. exists e. split; [done|].
  repeat (apply andb_true_iff in Hg as [Hg ?]). unfold holds. split_and!; try lia; done.
Qed.

(** The rounds of a walk over the first [n] blocks of the prompt. *)
Section rounds.
Context (c : PrefixCache) (tokens : list Z) (limit : Z).
Abbreviation btc := (block_token_count c).
Hypothesis Hwf : cache_wf c.
Hypothesis Hlimit : limit = maximum_reusable_token_count c (u32 (Z.of_nat (length tokens))).

Lemma round_bounds (n : nat) :
  Z.of_nat n * btc < limit ->
  (Z.of_nat n + 1) * btc <= limit /\ limit < Z.of_nat (length tokens) /\ limit <= U32_MAX /\ 1 <= btc <= 256.
Proof.
  intros Hn. pose proof (sw_btc _ _ _ _ _ _ Hwf) as Hb.
  destruct (u32_le (Z.of_nat (length tokens))) as [Hl Hl']; [lia|].
  destruct (max_reusable_spec c (u32 (Z.of_nat (length tokens))) Hb) as (H0&Hlt&k&Hk&Heq); [lia|].
  rewrite <- Hlimit in *. split_and!; [|lia|lia|lia|lia]. eapply block_step; [lia|exact Heq|lia].
Qed.

(** The end of the walk: the limit is reached, or the next block is not offered. *)
Definition walk_ends (n : nat) : Prop :=
  Z.of_nat n * btc = limit \/ (Z.of_nat n * btc < limit /\ ~ block_reusable c tokens n).

Lemma find_entry_block c' n i :
  quiet c c' ->
  find_entry c' (chain_hash btc tokens n) (chain_hash btc tokens (S n))
    (hash_block_content (prompt_block btc tokens n)) (Z.of_nat n * btc) btc true = Some i ->
  0 <= i /\ exists e, entries c' !! Z.to_nat i = Some e /\ entry_is_reusable c' e = true /\
    holds c' e (chain_hash btc tokens n) (chain_hash btc tokens (S n))
      (hash_block_content (prompt_block btc tokens n)) (Z.of_nat n * btc).
Proof.
  intros Hq Hf. apply find_entry_Some in Hf as (Hi&e&He&H1&H2&H3&H4&H5&H6&H7). split; [done|].
  exists e. split_and!; [done|by apply H7|]. unfold holds. rewrite (qu_btc _ _ Hq). done.
Qed.

Lemma holds_back c' i e' parent block content first :
  quiet c c' -> entries c' !! i = Some e' -> holds c' e' parent block content first ->
  exists e, entries c !! i = Some e /\ holds c e parent block content first /\
    e_physical_block_index e = e_physical_block_index e'.
Proof.
  intros Hq He' Hh. destruct (quiet_entry _ _ _ _ Hq He') as (e&t&He&->). exists e. split; [done|].
  split; [|done]. unfold holds in *. rewrite (qu_btc _ _ Hq) in Hh. done.
Qed.

Lemma not_reusable c' n :
  quiet c c' ->
  find_entry c' (chain_hash btc tokens n) (chain_hash btc tokens (S n))
    (hash_block_content (prompt_block btc tokens n)) (Z.of_nat n * btc) btc true = None ->
  ~ block_reusable c tokens n.
Proof.
  intros Hq Hf (i&e&He&Hr&H1&H2&H3&H4&H5&H6). destruct (quiet_entry_l _ _ _ _ Hq He) as (t&He').
  apply (find_entry_None _ _ _ _ _ _ _ _ Hf He'). split_and!; try done.
  unfold entry_is_reusable in *. rewrite (qu_btc _ _ Hq). done.
Qed.

Lemma quiet_wf c' : quiet c c' -> cache_wf c'.
Proof. intros Hq. apply (quiet_ok c c' Hwf Hq). Qed.

End rounds.

(** The locals of [probe_prompt] after [n] matched blocks. *)
Definition probe_inv (c : PrefixCache) (tokens : list Z) (limit seq : Z) (n : nat) (b : Z * Z * Lookup)
    (c' : PrefixCache) : Prop :=
  let btc := block_token_count c in
  quiet c c' /\ Z.of_nat n * btc <= limit /\
  b.1 = (chain_hash btc tokens n, Z.of_nat n * btc) /\
  lk_matched_token_count b.2 = Z.of_nat n * btc /\ lk_matched_block_count b.2 = Z.of_nat n /\
  lk_last_block_hash b.2 = chain_hash btc tokens n /\ lk_sequence_id b.2 = seq /\
  lk_requested_token_count b.2 = u32 (Z.of_nat (length tokens)) /\
  forall m, (m < n)%nat -> block_cached c tokens m.

Lemma probe_round_spec c tokens limit seq n b c' :
  cache_wf c -> limit = maximum_reusable_token_count c (u32 (Z.of_nat (length tokens))) ->
  probe_inv c tokens limit seq n b c' ->
  wp (probe_round seq tokens limit b)
    (fun r c2 => match r with
       | Continue b' => probe_inv c tokens limit seq (S n) b' c2
       | Break lk => lk = b.2 /\ quiet c c2 /\ walk_ends c tokens limit n end)
    (fun _ _ => False) c'.
Proof.
  intros Hwf Hlim (Hq&Hle&Hb&Hm1&Hm2&Hm3&Hm4&Hm5&Hcached). destruct b as [[parent off] lk].
  cbn [fst snd] in *. injection Hb as -> ->. pose proof (qu_btc _ _ Hq) as Hbtc.
  unfold probe_round, upd_entry. wp_steps. unfold id. rewrite Hbtc.
  destruct (Z.leb_spec limit (Z.of_nat n * block_token_count c)) as [Hge|Hlt]; wp_steps.
  { split_and!; [done|done|]. left. lia. }
  destruct (round_bounds c tokens limit Hwf Hlim n Hlt) as (Hb1&Hb2&Hb3&Hb4).
  rewrite u32_small by lia. eapply slice_block; [lia|reflexivity|lia|]. wp_steps.
  eapply wp_mono; [apply own_entry_spec, (quiet_wf c Hwf _ Hq)| |done].
  intros own c2 (->&Hown). cbv zeta.
  set (found := match own with Some i => Some i | None => _ end).
  assert (match found with
    | Some i => 0 <= i /\ exists e, entries c' !! Z.to_nat i = Some e /\
        holds c' e (chain_hash (block_token_count c) tokens n) (chain_hash (block_token_count c) tokens (S n))
          (hash_block_content (prompt_block (block_token_count c) tokens n)) (Z.of_nat n * block_token_count c)
    | None => ~ block_reusable c tokens n end) as Hfound.
  { subst found. destruct own as [i|]; [done|]. destruct (find_entry c' _ _ _ _ _ _) as [i|] eqn:Hf.
    - destruct (find_entry_block c tokens c' n i Hq Hf) as (Hi&e&He&_&Hh). split; [done|]. by exists e.
    - by eapply not_reusable. }
  clearbody found. destruct found as [i|]; wp_steps.
  2:{ split_and!; [done|done|]. by right. }
  destruct Hfound as (Hi&e&He&Hh). wp_steps.
  unfold probe_inv. cbn [fst snd set_field lk_matched_token_count lk_matched_block_count lk_last_block_hash].
  cbn. rewrite Hm1, Hm2, !u32_small by lia. split_and!; try done.
  - eapply quiet_trans; [exact Hq|]. apply quiet_tick.
  - lia.
  - f_equal. lia.
  - lia.
  - lia.
  - intros m Hm. destruct (decide (m = n)) as [->|Hne]; [|apply Hcached; lia].
    destruct (holds_back c c' _ e _ _ _ _ Hq He Hh) as (e0&He0&Hh0&_). by exists (Z.to_nat i), e0.
Qed.

(** What [probe_prompt] returns: the matched blocks are cached blocks of the
    prompt and the walk stops only where it must. *)
Definition probe_result (c : PrefixCache) (tokens : list Z) (seq : Z) (lk : Lookup) : Prop :=
  let btc := block_token_count c in
  exists n : nat, lk_matched_block_count lk = Z.of_nat n /\
    lk_matched_token_count lk = Z.of_nat n * btc /\ lk_next_token_index lk = Z.of_nat n * btc /\
    lk_last_block_hash lk = chain_hash btc tokens n /\
    (forall m, (m < n)%nat -> block_cached c tokens m) /\
    walk_ends c tokens (maximum_reusable_token_count c (u32 (Z.of_nat (length tokens)))) n.

Lemma probe_prompt_spec c seq tokens :
  cache_wf c ->
  wp (probe_prompt seq tokens)
    (fun lk c' => quiet c c' /\ probe_result c tokens seq lk)
    (fun err c' => c' = c /\ err = InvalidArgument /\ (tokens = [] \/ seq = 0)) c.
Proof.
  intros Hwf. unfold probe_prompt.
  destruct (Z.eqb_spec (Z.of_nat (length tokens)) 0) as [Hl|Hl]; cbn [orb].
  { wp_steps. split_and!; [done|done|]. left. apply length_zero_iff_nil. lia. }
  destruct (Z.eqb_spec seq 0) as [Hs|Hs]; wp_steps; [by split_and!; [..|right]|].
  unfold id. set (c1 := c <| lookup_count := _ |>).
  assert (quiet c c1) as Hq1 by (split; try done; apply ticked_refl).
  change (maximum_reusable_token_count c1) with (maximum_reusable_token_count c).
  set (limit := maximum_reusable_token_count c (u32 (Z.of_nat (length tokens)))).
  pose proof (sw_btc _ _ _ _ _ _ Hwf) as Hb.
  destruct (max_reusable_spec c (u32 (Z.of_nat (length tokens))) Hb (u32_range _)) as (H0&_).
  apply (wp_loop (fun b c' => exists n, probe_inv c tokens limit seq n b c')
    (fun b _ => Z.to_nat (limit - b.1.2))).
  - exists 0%nat. unfold probe_inv. split_and!; try done. intros m Hm. lia.
  - fold limit in H0. simpl. lia.
  - intros b c' [n Hinv]. eapply wp_mono; [by eapply probe_round_spec| |done].
    intros [b'|lk] c2; cbn beta.
    + intros Hinv'. split; [by exists (S n)|].
      destruct Hinv as (_&_&Hbn&_). destruct Hinv' as (_&Hle&Hbn'&_). rewrite Hbn, Hbn'. cbn [snd].
      lia.
    + intros (->&Hq&Hend). destruct Hinv as (_&_&_&Hm1&Hm2&Hm3&Hm4&Hm5&Hc).
      destruct (negb _); wp_steps; (split; [eapply quiet_trans; [exact Hq|split; try done; apply ticked_refl]|]);
        exists n; cbn; split_and!; done.
Qed.

(** ** Walking the cached prefix *)

Lemma quiet_clock c tk : quiet c (c <| tick := tk |>).
Proof. split; try done. apply ticked_refl. Qed.

Lemma quiet_touch c i t :
  quiet c (c <| entries := upd_nth i (fun e => e <| e_last_used_tick := t |>) (entries c) |>).
Proof. destruct (quiet_tick c i t (tick c)) as [? ? ? ? ? ? ? Q7]. split; try done. Qed.

(** The walk after [n] blocks. *)
Definition walk_inv (c : PrefixCache) (tokens : list Z) (limit : Z) (n : nat) (w : ChainWalk) : Prop :=
  let btc := block_token_count c in
  Z.of_nat n * btc <= limit /\
  match n with
  | O => w = default_walk
  | S m => cw_block_hash w = chain_hash btc tokens n /\ cw_token_offset w = Z.of_nat m * btc /\
      cw_matched_block_count w = Z.of_nat n /\ cw_reusable_token_count w = limit
  end.

(** The second half of [walk_next], at the [n]-th block. *)
Definition walk_at (c : PrefixCache) (tokens : list Z) (limit : Z) (n : nat) (w : ChainWalk) : Prop :=
  let btc := block_token_count c in
  Z.of_nat n * btc <= limit /\ cw_parent_hash w = chain_hash btc tokens n /\
  cw_token_offset w = Z.of_nat n * btc /\ cw_matched_block_count w = Z.of_nat n /\
  cw_reusable_token_count w = limit.

(** The entry a walk yields for the [n]-th block. *)
Definition block_entry (c : PrefixCache) (tokens : list Z) (n : nat) (i : Z) : Prop :=
  let btc := block_token_count c in
  0 <= i /\ exists e, entries c !! Z.to_nat i = Some e /\ entry_is_reusable c e = true /\
    holds c e (chain_hash btc tokens n) (chain_hash btc tokens (S n))
      (hash_block_content (prompt_block btc tokens n)) (Z.of_nat n * btc).

Lemma block_entry_back c c' tokens n i :
  quiet c c' -> block_entry c' tokens n i -> block_entry c tokens n i.
Proof.
  intros Hq (Hi&e'&He'&Hr&Hh). unfold block_entry. rewrite (qu_btc _ _ Hq) in *. split; [done|].
  destruct (quiet_entry _ _ _ _ Hq He') as (e&t&He&->). exists e. unfold entry_is_reusable, holds in *.
  rewrite (qu_btc _ _ Hq) in *. done.
Qed.

Lemma block_entry_forward c c' tokens n i :
  quiet c c' -> block_entry c tokens n i -> block_entry c' tokens n i.
Proof.
  intros Hq (Hi&e&He&Hr&Hh). unfold block_entry. rewrite (qu_btc _ _ Hq) in *. split; [done|].
  destruct (quiet_entry_l _ _ _ _ Hq He) as (t&He'). eexists. split; [exact He'|].
  unfold entry_is_reusable, holds in *. rewrite (qu_btc _ _ Hq) in *. done.
Qed.

Lemma walk_next_spec c tokens limit n w c' :
  cache_wf c -> limit = maximum_reusable_token_count c (u32 (Z.of_nat (length tokens))) ->
  quiet c c' -> walk_inv c tokens limit n w ->
  wp (walk_next tokens w)
    (fun r c2 => quiet c c2 /\ match r with
       | (Some i, w') => walk_inv c tokens limit (S n) w' /\ block_entry c2 tokens n i
       | (None, _) => walk_ends c tokens limit n end)
    (fun _ _ => False) c'.
Proof.
  intros Hwf Hlim Hq Hw. pose proof (qu_btc _ _ Hq) as Hbtc. pose proof (sw_btc _ _ _ _ _ _ Hwf) as Hb.
  assert (limit <= U32_MAX) as Hmax.
  { destruct (max_reusable_spec c (u32 (Z.of_nat (length tokens))) Hb (u32_range _)) as (_&Hx&_).
    pose proof (u32_range (Z.of_nat (length tokens))). lia. }
  unfold walk_next, upd_entry. wp_steps. unfold id.
  eapply (wp_mono _ (fun w1 c1 => walk_at c tokens limit n w1 /\ quiet c' c1 /\ entries c1 = entries c')
    _ (fun _ _ => False)).
  - destruct Hw as [Hle Hw]. destruct n as [|m].
    + subst w. wp_steps. cbn. unfold walk_at. cbn. split_and!; [done|done|done|done| |apply quiet_refl|done].
      unfold maximum_reusable_token_count in *. by rewrite Hbtc.
    + destruct Hw as (H1&H2&H3&H4). rewrite H3. destruct (Z.eqb_spec (Z.of_nat (S m)) 0); [lia|]. cbn [andb].
      wp_steps. unfold walk_at. cbn -[Z.of_nat]. rewrite H1, H2, H3, H4, Hbtc, u32_small by nia.
      split_and!; [done|done|lia|done|done|apply quiet_clock|done].
  - intros w1 c1 ((Hle&W1&W2&W3&W4)&Hq1&He1). rewrite W4, W2.
    destruct (Z.leb_spec limit (Z.of_nat n * block_token_count c)); wp_steps.
    { split; [by eapply quiet_trans|]. left. lia. }
    destruct (round_bounds c tokens limit Hwf Hlim n) as (Hb1&Hb2&Hb3&Hb4); [done|].
    rewrite Hbtc, u64_small by lia. eapply slice_block; [lia|reflexivity|lia|]. cbn. rewrite W1, W2.
    destruct (find_entry c' _ _ _ _ _ _) as [i|] eqn:Hf; wp_steps.
    + rewrite He1. split.
      { eapply quiet_trans; [exact Hq|]. eapply quiet_trans; [exact Hq1|]. rewrite <- He1. apply quiet_touch. }
      split.
      * split; [lia|]. cbn -[Z.of_nat]. rewrite W3, u32_small by nia. split_and!; [done|done|lia|done].
      * assert (block_entry c' tokens n i) as Hbe.
        { unfold block_entry. rewrite Hbtc. by eapply find_entry_block. }
        eapply (block_entry_forward c'); [|exact Hbe]. eapply quiet_trans; [exact Hq1|].
        rewrite <- He1. apply quiet_touch.
    + split; [by eapply quiet_trans|]. right. split; [done|]. by eapply not_reusable.
  - done.
Qed.

(** A walk visits the longest reusable prefix, one entry per block. *)
Lemma walk_prefix_spec {A} c tokens (visit : Z -> A -> PM A) acc (I : nat -> A -> PrefixCache -> Prop)
    (R : PrefixCacheError -> PrefixCache -> Prop) :
  let limit := maximum_reusable_token_count c (u32 (Z.of_nat (length tokens))) in
  cache_wf c -> I 0%nat acc c ->
  (forall n acc c', I n acc c' -> quiet c c') ->
  (forall n acc c' c2, I n acc c' -> quiet c c2 -> I n acc c2) ->
  (forall n acc c' i, I n acc c' -> block_entry c' tokens n i -> Z.of_nat n * block_token_count c < limit ->
     wp (visit i acc) (I (S n)) R c') ->
  wp (walk_prefix tokens visit acc)
    (fun r c' => exists n, I n r c' /\ walk_ends c tokens limit n) R c.
Proof.
  intros limit Hwf H0 Hquiet Hstable Hvisit. unfold walk_prefix.
  pose proof (sw_btc _ _ _ _ _ _ Hwf) as Hb.
  destruct (max_reusable_spec c (u32 (Z.of_nat (length tokens))) Hb (u32_range _)) as (Hl0&Hlt&_). fold limit in Hl0, Hlt.
  destruct (u32_le (Z.of_nat (length tokens))) as [Hu _]; [lia|].
  apply (wp_loop (fun (b : ChainWalk * A) c' => exists n, walk_inv c tokens limit n b.1 /\ I n b.2 c')
    (fun b _ => (length tokens + 1 - Z.to_nat (cw_matched_block_count b.1))%nat)).
  - exists 0%nat. split; [|done]. split; [lia|done].
  - simpl. lia.
  - intros [w r] c' (n&Hw&HI). cbn [fst snd] in *. wp_steps.
    eapply wp_mono; [apply (walk_next_spec c tokens limit n w c' Hwf eq_refl); [by eapply Hquiet|done]| |done].
    intros [[i|] w'] c2 (Hq2&Hr); wp_steps.
    + destruct Hr as [Hw' Hbe].
      eapply wp_mono; [apply (Hvisit n r c2 i)| |done].
      * by eapply Hstable.
      * done.
      * destruct Hw' as [Hle' _]. lia.
      * intros r' c3 HI'. wp_steps. split; [by exists (S n)|]. cbn [fst].
        assert (cw_matched_block_count w = Z.of_nat n) as ->.
        { destruct Hw as [_ Hw]. destruct n as [|m]; [by subst w|apply Hw]. }
        destruct Hw' as (Hle'&_&_&->&_). nia.
    + exists n. split; [|done]. by eapply Hstable.
Qed.

(** The physical blocks of the first [n] blocks of the prompt. *)
Definition prefix_table (c : PrefixCache) (tokens : list Z) (n : nat) (table : list Z) : Prop :=
  length table = n /\ forall m p, table !! m = Some p ->
    exists i e, block_entry c tokens m i /\ entries c !! Z.to_nat i = Some e /\ e_physical_block_index e = p.

Lemma prefix_table_snoc c tokens n table i e :
  prefix_table c tokens n table -> block_entry c tokens n i -> entries c !! Z.to_nat i = Some e ->
  prefix_table c tokens (S n) (table ++ [e_physical_block_index e]).
Proof.
  intros [Hl Ht] Hbe He. split; [rewrite length_app; simpl; lia|].
  intros m p Hm. apply lookup_app_Some in Hm as [Hm|[Hge Hm]]; [by apply Ht|].
  apply list_lookup_singleton_Some in Hm as [Hm <-]. replace m with n by lia. by exists i, e.
Qed.

Lemma limit_bound c tokens n :
  cache_wf c -> walk_ends c tokens (maximum_reusable_token_count c (u32 (Z.of_nat (length tokens)))) n ->
  0 <= Z.of_nat n * block_token_count c <= U32_MAX.
Proof.
  intros Hwf Hend. pose proof (sw_btc _ _ _ _ _ _ Hwf) as Hb.
  pose proof (u32_range (Z.of_nat (length tokens))) as Hu.
  destruct (max_reusable_spec c (u32 (Z.of_nat (length tokens))) Hb Hu) as (_&Hx&_).
  destruct Hend as [?|[? _]]; nia.
Qed.

(** Blocks of a prompt within the limit fit a [u32]. *)
Lemma under_limit c (tokens : list Z) n :
  cache_wf c -> Z.of_nat n * block_token_count c < maximum_reusable_token_count c (u32 (Z.of_nat (length tokens))) ->
  0 <= Z.of_nat n <= U32_MAX.
Proof.
  intros Hwf Hlt. destruct (round_bounds c tokens _ Hwf eq_refl n Hlt) as (?&?&?&?). nia.
Qed.

Lemma probe_table_spec c tokens capacity :
  cache_wf c ->
  wp (probe_physical_block_table tokens capacity)
    (fun r c' => quiet c c' /\ exists n,
       pb_matched_token_count r = Z.of_nat n * block_token_count c /\
       prefix_table c tokens n (pb_physical_block_indices r) /\
       walk_ends c tokens (maximum_reusable_token_count c (u32 (Z.of_nat (length tokens)))) n)
    (fun err c' => quiet c c' /\
       ((err = InvalidArgument /\ tokens = []) \/
        (err = CapacityExceeded /\ exists n, capacity <= Z.of_nat n /\ block_reusable c tokens n))) c.
Proof.
  intros Hwf. unfold probe_physical_block_table.
  destruct (Z.eqb_spec (Z.of_nat (length tokens)) 0) as [Hl|Hl]; wp_steps.
  { split; [apply quiet_refl|]. left. split; [done|]. apply length_zero_iff_nil. lia. }
  eapply wp_mono.
  - apply (walk_prefix_spec c tokens _ [] (fun n table c' => quiet c c' /\ prefix_table c tokens n table)
      (fun err c' => quiet c c' /\ err = CapacityExceeded /\
         exists n, capacity <= Z.of_nat n /\ block_reusable c tokens n)); try done.
    + split; [apply quiet_refl|]. by split.
    + naive_solver.
    + naive_solver.
    + intros n table c' i [Hq Ht] Hbe Hlt.
      pose proof (block_entry_back _ _ _ _ _ Hq Hbe) as Hbe0. pose proof (under_limit _ _ _ Hwf Hlt) as Hn.
      rewrite (proj1 Ht), u32_small by done. destruct (Z.leb_spec capacity (Z.of_nat n)); wp_steps.
      { split; [done|]. split; [done|]. exists n. split; [done|]. destruct Hbe0 as (?&e&?&?&?). by exists (Z.to_nat i), e. }
      unfold id. destruct Hbe as (Hi&e&He&_). wp_steps. split; [done|].
      destruct (quiet_entry _ _ _ _ Hq He) as (e0&t&He0&->).
      by apply (prefix_table_snoc c tokens n table i e0).
  - intros table c' (n&[Hq Ht]&Hend). wp_steps. unfold id. split; [done|]. exists n. cbn.
    pose proof (limit_bound _ _ _ Hwf Hend). pose proof (sw_btc _ _ _ _ _ _ Hwf).
    rewrite (proj1 Ht), (qu_btc _ _ Hq), (u32_small (Z.of_nat n)), u32_small by nia. done.
  - intros err c' (Hq&->&Hn). split; [done|]. by right.
Qed.

Lemma quiet_arena c : quiet c (c <| arena := arena c |>).
Proof. split; try done. apply ticked_refl. Qed.

Lemma fill_prefetch_spec c i :
  0 <= i < Z.of_nat (length (entries c)) ->
  wp (fill_prefetch_source_block i) (fun _ c' => quiet c c') (fun _ c' => quiet c c') c.
Proof.
  intros Hi. destruct (lookup_Some_range (entries c) i Hi) as [e He].
  unfold fill_prefetch_source_block. wp_steps. unfold id. wp_steps.
  match goal with |- wp (if ?g then _ else _) _ _ _ => destruct g end; wp_steps; [apply quiet_refl|].
  apply wp_on_arena. unfold resolve_block. wp_steps.
  eapply wp_mono; [apply get_block_spec| |].
  - intros b a' [-> _]. destruct (negb (allocated b)); wp_steps; apply quiet_arena.
  - intros err a' (_&->&_). wp_steps. apply quiet_arena.
Qed.

(** A walk whose visits only look leaves the cache alone. *)
Lemma walk_prefix_quiet {A} c tokens (visit : Z -> A -> PM A) acc :
  cache_wf c ->
  (forall c' i acc, quiet c c' -> 0 <= i < Z.of_nat (length (entries c')) ->
     wp (visit i acc) (fun _ c2 => quiet c c2) (fun _ c2 => quiet c c2) c') ->
  wp (walk_prefix tokens visit acc) (fun _ c' => quiet c c') (fun _ c' => quiet c c') c.
Proof.
  intros Hwf Hv. eapply wp_mono.
  - apply (walk_prefix_spec c tokens visit acc (fun _ _ c' => quiet c c') (fun _ c' => quiet c c')); try done.
    + apply quiet_refl.
    + intros n r c' i Hq (Hi&e&He&_) _. apply Hv; [done|]. apply lookup_lt_Some in He. lia.
  - by intros r c' (n&Hq&_).
  - done.
Qed.

Lemma probe_sources_spec c tokens capacity :
  cache_wf c ->
  wp (probe_reusable_prefix_prefetch_sources tokens capacity) (fun _ c' => quiet c c') (fun _ c' => quiet c c') c.
Proof.
  intros Hwf. unfold probe_reusable_prefix_prefetch_sources.
  destruct (Z.of_nat (length tokens) =? 0); wp_steps; [apply quiet_refl|].
  eapply wp_mono; [apply walk_prefix_quiet; [done|]| |done].
  - intros c' i acc Hq Hi. destruct (capacity <=? _); wp_steps; [done|].
    eapply wp_mono; [by apply fill_prefetch_spec| |].
    + intros s c2 Hq2. wp_steps. by eapply quiet_trans.
    + intros err c2 Hq2. by eapply quiet_trans.
  - intros bs c' Hq. by wp_steps.
Qed.

Lemma probe_residency_spec c tokens :
  cache_wf c ->
  wp (probe_reusable_prefix_residency tokens) (fun _ c' => quiet c c') (fun _ c' => quiet c c') c.
Proof.
  intros Hwf. unfold probe_reusable_prefix_residency.
  destruct (Z.of_nat (length tokens) =? 0); wp_steps; [apply quiet_refl|].
  eapply wp_mono; [apply walk_prefix_quiet; [done|]| |done].
  - intros c' i acc Hq Hi. destruct (lookup_Some_range (entries c') i Hi) as [e He].
    wp_steps. unfold id. wp_steps. destruct (block_is_nonresident _ _); by wp_steps.
  - intros [r n] c' Hq. by wp_steps.
Qed.

(** ** Safety of the remaining methods *)

(** The method returns, and leaves a well-formed cache of the same shape. *)
Definition safe {A} (m : PM A) (c : PrefixCache) : Prop :=
  wp m (fun _ c' => cache_ok c c') (fun _ c' => cache_ok c c') c.

Lemma quiet_safe {A} (m : PM A) c :
  cache_wf c -> wp m (fun _ c' => quiet c c') (fun _ c' => quiet c c') c -> safe m c.
Proof. intros Hwf Hm. eapply wp_mono; [exact Hm| |]; intros; by apply quiet_ok. Qed.

(** Only entries, clocks and counters changed. *)
Lemma cache_ok_entries c c' :
  cache_wf c -> block_token_count c' = block_token_count c -> physical_block_count c' = physical_block_count c ->
  free_entry_head c' = free_entry_head c -> free_binding_head c' = free_binding_head c ->
  bindings c' = bindings c -> arena c' = arena c -> entries_sim (entries c) (entries c') -> cache_ok c c'.
Proof.
  intros Hwf E1 E2 E3 E4 E5 E6 Hes. apply cache_ok_sim; try done.
  - by rewrite E5.
  - rewrite E6. apply (sw_arena _ _ _ _ _ _ Hwf).
  - rewrite E6. apply owners_kept_refl.
Qed.

(** Only clocks and counters changed. *)
Lemma cache_ok_counters c c' :
  cache_wf c -> block_token_count c' = block_token_count c -> physical_block_count c' = physical_block_count c ->
  free_entry_head c' = free_entry_head c -> free_binding_head c' = free_binding_head c ->
  bindings c' = bindings c -> arena c' = arena c -> entries c' = entries c -> cache_ok c c'.
Proof. intros Hwf E1 E2 E3 E4 E5 E6 E7. apply cache_ok_entries; try done. by rewrite E7. Qed.

Lemma reset_lookahead_safe c :
  cache_wf c -> wp reset_lookahead_protection (fun _ c' => cache_ok c c') (fun _ _ => False) c.
Proof.
  intros Hwf. unfold reset_lookahead_protection. wp_steps. unfold id.
  destruct (_ =? 0); wp_steps; [|by apply cache_ok_counters].
  apply cache_ok_entries; try done. cbn. by apply entries_sim_fmap.
Qed.

(** The locals of a block loop at a block boundary below [limit]. *)
Definition at_block (c : PrefixCache) (limit off : Z) : Prop :=
  exists n : nat, off = Z.of_nat n * block_token_count c /\ off <= limit.

Lemma at_block_0 c limit : 0 <= limit -> at_block c limit 0.
Proof. exists 0%nat. lia. Qed.

Lemma at_block_next c (tokens : list Z) limit off :
  cache_wf c -> limit = maximum_reusable_token_count c (u32 (Z.of_nat (length tokens))) ->
  at_block c limit off -> off < limit ->
  0 <= off /\ off +u32 block_token_count c = off + block_token_count c /\
  off + block_token_count c <= Z.of_nat (length tokens) /\ at_block c limit (off + block_token_count c) /\
  1 <= block_token_count c.
Proof.
  intros Hwf Hlim (n&->&_) Hlt. destruct (round_bounds c tokens limit Hwf Hlim n Hlt) as (?&?&?&?).
  rewrite u32_small by lia. split_and!; [lia|done|lia| |lia]. exists (S n). lia.
Qed.

Lemma protect_safe c tokens demand : cache_wf c -> safe (protect_prompt_lookahead tokens demand) c.
Proof.
  intros Hwf. unfold safe, protect_prompt_lookahead.
  destruct (Z.of_nat (length tokens) =? 0); wp_steps; [by apply cache_ok_refl|]. unfold id.
  eapply (wp_mono _ (fun _ c' => cache_ok c c') _ (fun _ _ => False)).
  { destruct (_ =? 0); [by apply reset_lookahead_safe|]. wp_steps. by apply cache_ok_refl. }
  2:{ done. }
  intros _ c1 Hok1. wp_steps. pose proof (proj1 Hok1) as Hwf1.
  set (limit := maximum_reusable_token_count c1 _).
  destruct (max_reusable_spec c1 (u32 (Z.of_nat (length tokens))) (sw_btc _ _ _ _ _ _ Hwf1) (u32_range _)) as (H0&_).
  fold limit in H0.
  apply (wp_loop (fun b c' => cache_ok c1 c' /\ at_block c1 limit b.1.2) (fun b _ => Z.to_nat (limit - b.1.2))).
  - split; [by apply cache_ok_refl|]. by apply at_block_0.
  - cbn. lia.
  - intros [[parent off] count] c' [Hok Hat]. cbn [fst snd] in Hat. unfold protect_round, upd_entry. wp_steps. unfold id.
    destruct (shape_fields _ _ (proj2 Hok)) as (Hbtc&_). rewrite Hbtc.
    destruct (Z.leb_spec limit off); wp_steps.
    { by eapply cache_ok_trans. }
    destruct (at_block_next c1 tokens limit off Hwf1 eq_refl Hat) as (Ho&->&Hle&Hat'&Hb); [done|].
    apply wp_slice; [lia|lia|]. wp_steps. destruct (find_entry c' _ _ _ _ _ _) as [i|] eqn:Hf; wp_steps.
    2:{ by eapply cache_ok_trans. }
    destruct (find_entry_Some _ _ _ _ _ _ _ _ Hf) as (_&e&He&_). wp_steps.
    eapply (wp_mono _ (fun _ c2 => cache_ok c' c2) _ (fun _ _ => False)).
    + destruct (negb _); wp_steps; [|destruct (_ <? demand); wp_steps];
        (apply cache_ok_entries; [apply Hok|done..|]); cbn -[upd_nth]; repeat (etransitivity; [|by apply entries_sim_upd]);
        done.
    + intros _ c2 Hok2. wp_steps. split; [split; [by eapply cache_ok_trans|done]|]. cbn [fst snd]. lia.
    + done.
Qed.

(** ** Residency *)

Lemma find_resident_spec c physical s :
  wp (find_resident_entry_for_physical_block c physical)
    (fun o s' => s' = s /\ match o with
       | Some i => 0 <= i < Z.of_nat (length (entries c)) | None => True end)
    (fun _ _ => False) s.
Proof.
  unfold find_resident_entry_for_physical_block.
  apply (wp_for_fold (fun _ best s' => s' = s /\ match best with
    | Some i => 0 <= i < Z.of_nat (length (entries c)) | None => True end)); [done|].
  intros pre i post best s' Hs [-> Hbest]. apply range_split in Hs as [_ Hi].
  destruct (lookup_Some_range (entries c) i) as [e He]; [lia|]. wp_steps.
  destruct (_ || _); wp_steps; [done|]. destruct best as [b|]; wp_steps; [|done].
  destruct (lookup_Some_range (entries c) b) as [eb Heb]; [lia|]. wp_steps.
  destruct (protected_victim_is_better _ _); by wp_steps.
Qed.

(** The victim of a trim is resident. *)
Lemma select_resident_victim_spec c hard :
  cache_wf c ->
  wp (select_resident_reuse_score_victim hard)
    (fun o s' => s' = c /\ match o with
       | Some v => 0 <= rc_physical_block_index v /\ is_allocated (arena c) (rc_physical_block_index v) = true /\
           is_resident (arena c) (rc_physical_block_index v) = true /\ rc_physical_block_index v ∉ hard
       | None => forall i, 0 <= i < KvArena.physical_block_count (arena c) ->
           is_allocated (arena c) i = true -> is_resident (arena c) i = true -> i ∈ hard end)
    (fun _ _ => False) c.
Proof.
  intros Hwf. unfold select_resident_reuse_score_victim. wp_steps. unfold id.
  pose proof (kw_count _ (sw_arena _ _ _ _ _ _ Hwf)) as Hcount.
  set (I := fun (n : Z) v (s' : PrefixCache) => s' = c /\
    (rc_physical_block_index v = NO_PHYSICAL_BLOCK /\
       (forall i, 0 <= i < n -> is_allocated (arena c) i = true -> is_resident (arena c) i = true -> i ∈ hard) \/
     0 <= rc_physical_block_index v < U32_MAX /\ is_allocated (arena c) (rc_physical_block_index v) = true /\
       is_resident (arena c) (rc_physical_block_index v) = true /\ rc_physical_block_index v ∉ hard)).
  eapply wp_mono.
  - apply (wp_for_fold (fun pre v s' => I (Z.of_nat (length pre)) v s') _ _ _ (fun _ _ => False)).
    + split; [done|]. left. split; [done|]. simpl. lia.
    + intros pre i post v s' Hs [-> Hv]. apply range_split in Hs as [-> Hi].
      rewrite length_range in Hv. rewrite length_app, length_range. cbn [length].
      replace (Z.of_nat (Z.to_nat (i - 0) + 1)) with (i + 1) by lia.
      replace (Z.of_nat (Z.to_nat (i - 0))) with i in Hv by lia.
      match goal with |- wp (if ?g then _ else _) _ _ _ => destruct g eqn:Hg end; wp_steps.
      * split; [done|]. destruct Hv as [[Hno Hall]|Hv]; [left|by right]. split; [done|].
        intros j Hj Ha Hr. destruct (decide (j = i)) as [->|]; [|apply Hall; lia || done].
        rewrite Ha, Hr in Hg. simpl in Hg. by apply bool_decide_eq_true in Hg.
      * apply orb_false_iff in Hg as [Hg Hin]. apply orb_false_iff in Hg as [Ha Hr].
        apply negb_false_iff in Ha, Hr. apply bool_decide_eq_false in Hin.
        unfold eviction_candidate. wp_steps.
        eapply wp_mono; [apply find_resident_spec| |done]. intros o s' [-> Ho]. wp_step.
        eapply (wp_mono _ (fun _ s' => s' = c) _ (fun _ _ => False)).
        { destruct o as [k|]; [|by wp_steps]. destruct (lookup_Some_range _ _ Ho) as [e He]. by wp_steps. }
        2:{ done. }
        intros entry s' ->. wp_steps. split; [done|].
        destruct (is_better _ _) eqn:Hbet.
        { right. cbn [rc_physical_block_index]. split_and!; [lia|lia|done|done|done]. }
        destruct Hv as [[Hno _]|Hv]; [|by right]. exfalso. unfold is_better in Hbet. rewrite Hno in Hbet. done.
  - intros v s' [-> Hv]. rewrite length_range in Hv. wp_steps. split; [done|].
    destruct Hv as [[-> Hall]|(Hr&Hv)].
    + rewrite Z.eqb_refl. intros i Hi. apply Hall. lia.
    + destruct (Z.eqb_spec (rc_physical_block_index v) NO_PHYSICAL_BLOCK) as [Hx|]; [unfold NO_PHYSICAL_BLOCK in Hx; lia|].
      split; [lia|done].
  - done.
Qed.

Lemma touched_owners a a' i b b' : touched a a' i b b' -> same_owner b b' -> owners_kept a a'.
Proof.
  intros [T1 T2 T3 T4] Hs. split_and!; [done|by rewrite T2, length_insert|].
  intros j x Hx. rewrite T2. destruct (decide (j = Z.to_nat i)) as [->|Hne].
  - exists b'. rewrite (insert_same _ _ b) by done. split; [done|]. congruence.
  - exists x. rewrite list_lookup_insert_ne by done. split; [done|]. unfold same_owner. done.
Qed.

(** The arena changed without changing owners. *)
Lemma cache_ok_arena c c' :
  cache_wf c -> block_token_count c' = block_token_count c -> physical_block_count c' = physical_block_count c ->
  free_entry_head c' = free_entry_head c -> free_binding_head c' = free_binding_head c ->
  bindings c' = bindings c -> entries c' = entries c -> kv_wf (arena c') -> owners_kept (arena c) (arena c') ->
  cache_ok c c'.
Proof. intros Hwf E1 E2 E3 E4 E5 E6 Hkv Hown. apply cache_ok_sim; try done; by rewrite ?E5, ?E6. Qed.

(** What a trim leaves: entries and bindings untouched, and the target reached or
    only protected blocks resident. *)
Lemma trim_by_reuse_spec c target hard :
  cache_wf c ->
  wp (trim_resident_blocks_by_reuse_score target hard)
    (fun _ c' => cache_ok c c' /\ entries c' = entries c /\ bindings c' = bindings c /\
       resident_block_count (arena c') <= target)
    (fun err c' => cache_ok c c' /\ entries c' = entries c /\ bindings c' = bindings c /\
       (err = InvalidArgument /\ KvArena.physical_block_count (arena c) < target \/
        err = CapacityExceeded /\ target < resident_block_count (arena c') /\
        forall i, 0 <= i -> is_allocated (arena c') i = true -> is_resident (arena c') i = true -> i ∈ hard)) c.
Proof.
  intros Hwf. unfold trim_resident_blocks_by_reuse_score. wp_steps. unfold id.
  destruct (Z.ltb_spec (KvArena.physical_block_count (arena c)) target); wp_steps.
  { split_and!; [by apply cache_ok_refl|done|done|]. by left. }
  apply (wp_loop (fun (_ : Z) c' => cache_ok c c' /\ entries c' = entries c /\ bindings c' = bindings c /\
      resident_block_count (arena c') <= resident_block_count (arena c))
    (fun _ c' => Z.to_nat (resident_block_count (arena c')))).
  { split_and!; [by apply cache_ok_refl|done|done|lia]. }
  { lia. }
  intros n c1 (Hok&He&Hb&Hle). wp_steps. unfold id.
  destruct (Z.leb_spec (resident_block_count (arena c1)) target); wp_steps.
  { done. }
  eapply wp_mono; [by apply select_resident_victim_spec, Hok| |done].
  intros o c2 [-> Ho]. pose proof (sw_arena _ _ _ _ _ _ (proj1 Hok)) as Hkv. destruct o as [v|]; wp_steps.
  2:{ split_and!; [by eapply cache_ok_trans; [|apply cache_ok_counters; [apply Hok|done..]]|done|done|].
      right. split_and!; [done|done|]. intros i Hi Ha Hr. change (is_allocated (arena c1) i = true) in Ha.
      change (is_resident (arena c1) i = true) in Hr. apply Ho; [|done|done]. split; [done|].
      unfold is_allocated, block in Ha. rewrite <- (kw_length _ Hkv).
      destruct (blocks _ !! Z.to_nat i) eqn:Hx; [|done]. apply lookup_lt_Some in Hx. lia. }
  destruct Ho as (Hv0&Ha&Hr&_). apply wp_on_arena.
  eapply wp_mono; [by apply mark_block_nonresident_spec| |].
  - intros _ a' (b&b'&Hal&Ht&Hkv'&Hres&Hal'&Hrc&Hg&Htc&_). pose proof (to_lookup _ _ _ _ _ Ht) as Hlb.
    assert (resident b = true) as Hrb by (unfold is_resident, block in Hr; by rewrite Hlb in Hr).
    pose proof (to_resident _ _ _ _ _ Ht) as Hcnt. rewrite Hrb, Hres in Hcnt. simpl in Hcnt.
    pose proof (resident_pos _ _ _ Hkv Hlb Hrb) as Hpos.
    assert (owners_kept (arena c1) a') as Hown.
    { eapply touched_owners; [exact Ht|]. unfold same_owner. split_and!; congruence. }
    assert (forall c2, block_token_count c2 = block_token_count c1 -> physical_block_count c2 = physical_block_count c1 ->
      free_entry_head c2 = free_entry_head c1 -> free_binding_head c2 = free_binding_head c1 ->
      bindings c2 = bindings c1 -> entries c2 = entries c1 -> arena c2 = a' ->
      (cache_ok c c2 /\ entries c2 = entries c /\ bindings c2 = bindings c /\
        resident_block_count (arena c2) <= resident_block_count (arena c)) /\
      (Z.to_nat (resident_block_count (arena c2)) < Z.to_nat (resident_block_count (arena c1)))%nat) as Hdone.
    { intros c2 E1 E2 E3 E4 E5 E6 E7. split; [split_and!; [|congruence|congruence|rewrite E7; lia]|rewrite E7; lia].
      eapply cache_ok_trans; [exact Hok|]. apply cache_ok_arena; try done; [apply Hok|by rewrite E7|by rewrite E7]. }
    wp_steps. destruct (rc_has_lookahead_protection v), (negb (rc_has_prefix_entry v)); wp_steps; by apply Hdone.
  - intros err a' (_&->&Hun). exfalso. unfold is_allocated, block in Ha.
    destruct (blocks (arena c1) !! Z.to_nat (rc_physical_block_index v)) as [b|] eqn:Hx; [|done].
    rewrite (Hun b Hx) in Ha. done.
Qed.

(** ** Operations with an epoch: they succeed, or roll everything back *)

(** Nothing of the operation [op] of the sequence is left: none of its bindings,
    and no unreferenced entry it reserved. *)
Definition rolled_back (c : PrefixCache) (seq op : Z) : Prop :=
  (forall k b, bindings c !! k = Some b -> b_valid b = true -> b_sequence_id b <> seq \/ b_acquire_epoch b <> op) /\
  (forall k e, entries c !! k = Some e -> e_valid e = true -> e_pending e = true ->
     e_reservation_epoch e = op -> e_reference_count e <> 0).

(** The failure outcome of an operation started in [c0]. *)
Definition failed (c0 : PrefixCache) (seq op : Z) (errors : PrefixCacheError -> Prop)
    (err : PrefixCacheError) (c : PrefixCache) : Prop :=
  cache_ok c0 c /\ rolled_back c seq op /\ errors err.

Lemma fail_spec {A} c0 c seq op err (errors : PrefixCacheError -> Prop) (Q : A -> PrefixCache -> Prop) :
  cache_ok c0 c -> errors err -> wp (fail_with_rollback seq op err) Q (failed c0 seq op errors) c.
Proof.
  intros Hok Herr. eapply wp_mono; [by apply fail_with_rollback_spec| |].
  - intros a c' H. exact H.
  - intros e c' (Hok'&->&Hb&He). by split_and!; [|split|].
Qed.

(** [acquire_entry_for_sequence] as the operations call it. *)
Lemma acquire_or_fail c0 c seq i op pending e (errors : PrefixCacheError -> Prop) (Q : unit -> PrefixCache -> Prop) :
  cache_ok c0 c -> 0 <= i -> entries c !! Z.to_nat i = Some e -> e_valid e = true -> errors CapacityExceeded ->
  (forall c', cache_ok c0 c' -> acquired c c' seq i e ->
     (exists e', entries c' !! Z.to_nat i = Some e' /\ same_entry_but_references e e') ->
     (forall j, j <> Z.to_nat i -> entries c' !! j = entries c !! j) -> Q tt c') ->
  wp (catch (acquire_entry_for_sequence seq i op pending) (fun status => fail_with_rollback seq op status))
    Q (failed c0 seq op errors) c.
Proof.
  intros Hok Hi He Hv Herr HQ. wp_steps.
  eapply wp_mono; [by apply acquire_entry_spec; [apply Hok|..]| |].
  - intros [] c' (Hok'&Hself&Hother&Hacq). apply HQ; [by eapply cache_ok_trans|done..].
  - intros err c' (Hok'&->&_). apply fail_spec; [by eapply cache_ok_trans|done].
Qed.

(** [install_entry] as the operations call it. *)
Lemma install_or_fail c0 c seq v flags parent block content first tokens op (errors : PrefixCacheError -> Prop)
    (Q : unit -> PrefixCache -> Prop) :
  cache_ok c0 c -> installable c v -> 1 <= tokens <= block_token_count c -> 0 <= first ->
  first + tokens <= U32_MAX -> errors CapacityExceeded ->
  (forall c' e physical now, cache_ok c0 c' -> bindings c' = bindings c ->
     entries c' !! Z.to_nat v = Some (installed e flags parent block content first tokens op physical now) ->
     (forall j, j <> Z.to_nat v -> entries c' !! j = entries c !! j) -> Q tt c') ->
  wp (catch (install_entry v flags parent block content first tokens op)
       (fun status => fail_with_rollback seq op status)) Q (failed c0 seq op errors) c.
Proof.
  intros Hok Hv Ht1 Ht2 Ht3 Herr HQ. wp_steps.
  eapply wp_mono; [by apply install_entry_spec; [apply Hok|..]| |].
  - intros [] c' (Hok'&Hb&(e&p&now&He)&Hother). eapply HQ; [by eapply cache_ok_trans|done|exact He|done].
  - intros err c' (Hok'&->&_). apply fail_spec; [by eapply cache_ok_trans|done].
Qed.

(** The sequence is bound to the [m]-th block of the prompt. *)
Definition bound_block (c : PrefixCache) (btc : Z) (tokens : list Z) (seq : Z) (m : nat) : Prop :=
  exists k b, bindings c !! k = Some b /\ b_valid b = true /\ b_sequence_id b = seq /\
    b_first_token_index b = Z.of_nat m * btc /\ b_token_count b = btc /\
    b_parent_hash b = chain_hash btc tokens m /\ b_block_hash b = chain_hash btc tokens (S m).

Lemma acquired_bound c c' seq' i e btc tokens seq m :
  acquired c c' seq' i e -> bound_block c btc tokens seq m -> bound_block c' btc tokens seq m.
Proof.
  intros (_&Hkeep&_) (k&b&Hb&Hv&H1&H2&H3&H4&H5). destruct (Hkeep k b Hb Hv) as (fl&Hb'&Hv').
  exists k, (b <| b_flags := fl |>). done.
Qed.

Lemma matched_bounds c (tokens : list Z) n :
  cache_wf c -> walk_ends c tokens (maximum_reusable_token_count c (u32 (Z.of_nat (length tokens)))) n ->
  0 <= Z.of_nat n * block_token_count c <= U32_MAX /\
  Z.of_nat n * block_token_count c <= Z.of_nat (length tokens).
Proof.
  intros Hwf Hend. pose proof (sw_btc _ _ _ _ _ _ Hwf) as Hb.
  destruct (u32_le (Z.of_nat (length tokens))) as [Hl Hl']; [lia|].
  destruct (max_reusable_spec c (u32 (Z.of_nat (length tokens))) Hb) as (H0&Hx&_); [lia|].
  destruct Hend as [?|[? _]]; nia.
Qed.

Lemma next_epoch_spec c (R : PrefixCacheError -> PrefixCache -> Prop) :
  cache_wf c ->
  wp next_epoch (fun op c' => op = operation_epoch c +u64 1 /\ cache_ok c c' /\ entries c' = entries c /\
    bindings c' = bindings c /\ free_entry_head c' = free_entry_head c /\ arena c' = arena c) R c.
Proof.
  intros Hwf. unfold next_epoch. wp_steps. by split_and!.
Qed.

Lemma lookup_prompt_spec c seq tokens :
  cache_wf c ->
  wp (lookup_prompt seq tokens)
    (fun lk c' => cache_ok c c' /\ probe_result c tokens seq lk /\
       forall m, Z.of_nat m < lk_matched_block_count lk -> bound_block c' (block_token_count c) tokens seq m)
    (fun err c' => cache_ok c c' /\ (err = InvalidArgument /\ c' = c /\ (tokens = [] \/ seq = 0) \/
       failed c seq (operation_epoch c +u64 1) (fun e => e = CapacityExceeded \/ e = InternalError) err c')) c.
Proof.
  intros Hwf. unfold lookup_prompt. wp_step. eapply wp_mono; [by apply probe_prompt_spec| |].
  2:{ intros err c' (->&->&?). split; [by apply cache_ok_refl|]. by left. }
  intros lk c1 [Hq Hres]. pose proof Hres as (n&Hn1&Hn2&_&_&_&Hend). pose proof (quiet_ok _ _ Hwf Hq) as Hok1.
  destruct (matched_bounds c tokens n Hwf Hend) as [Hb1 Hb2]. pose proof (sw_btc _ _ _ _ _ _ Hwf) as Hb.
  wp_step. eapply wp_mono; [apply (next_epoch_spec c1 (fun _ _ => False)), Hok1| |done]. intros op c2 (Hop&Hok2&_). wp_steps. rewrite Hn2.
  rewrite (qu_epoch _ _ Hq) in Hop.
  assert (cache_ok c c2) as Hok by (by eapply cache_ok_trans).
  eapply wp_mono.
  - apply (wp_loop (fun b c' => cache_ok c c' /\ exists m : nat, (m <= n)%nat /\
        b = (chain_hash (block_token_count c) tokens m, Z.of_nat m * block_token_count c) /\
        forall m', (m' < m)%nat -> bound_block c' (block_token_count c) tokens seq m')
      (fun b _ => Z.to_nat (Z.of_nat n * block_token_count c - b.2)) _ _ _
      (fun _ c' => cache_ok c c' /\ forall m', (m' < n)%nat -> bound_block c' (block_token_count c) tokens seq m')
      (failed c seq op (fun e => e = CapacityExceeded \/ e = InternalError))).
    + split; [done|]. exists 0%nat. split_and!; [lia|done|lia].
    + cbn [snd]. lia.
    + intros b c3 (Hok3&m&Hm&->&Hbound). unfold lookup_round. wp_steps. unfold id.
      destruct (shape_fields _ _ (proj2 Hok3)) as (Hbtc&_). rewrite Hbtc.
      destruct (Z.leb_spec (Z.of_nat n * block_token_count c) (Z.of_nat m * block_token_count c)); wp_steps.
      { split; [done|]. intros m' Hm'. apply Hbound. nia. }
      assert (Z.of_nat m + 1 <= Z.of_nat n) as Hmn by nia.
      assert ((Z.of_nat m + 1) * block_token_count c <= Z.of_nat n * block_token_count c) by nia.
      rewrite u32_small by lia. eapply slice_block; [lia|reflexivity|lia|]. wp_steps.
      destruct (find_entry c3 _ _ _ _ _ _) as [i|] eqn:Hf.
      2:{ apply fail_spec; [done|by right]. }
      apply find_entry_Some in Hf as (Hi&e&He&Hv&H1&H2&H3&H4&H5&_). apply wp_bind.
      eapply acquire_or_fail; [done|done|exact He|done|by left|]. intros c4 Hok4 Hacq _ _. wp_steps.
      split; [split; [done|]|cbn [snd]; lia]. exists (S m). split_and!; [lia|f_equal; lia|].
      intros m' Hm'. destruct (decide (m' = m)) as [->|]; [|eapply acquired_bound; [exact Hacq|apply Hbound; lia]].
      destruct Hacq as ((k&b&Hbk&Hbv&Hbs&_&Hbo)&_). exists k, b. unfold binding_of in Hbo.
      destruct Hbo as (_&Q1&Q2&Q3&Q4). split_and!; [done|done|done|congruence|congruence|congruence|exact (eq_trans Q4 H2)].
  - intros _ c' (Hok'&Hbound). wp_steps. split_and!; [done|done|]. intros m Hm. apply Hbound. lia.
  - intros err c' Hf. split; [apply Hf|]. right. by rewrite <- Hop.
Qed.

(** ** Reservations *)

(** [acquire] leaves what is found at other offsets. *)
Lemma acquired_find c c' seq' i e seq off :
  acquired c c' seq' i e -> length (bindings c') = length (bindings c) -> e_first_token_index e <> off ->
  find_binding_at_token_offset c' seq off = find_binding_at_token_offset c seq off.
Proof.
  intros (_&A2&A3) Hl Hne. apply position_ext, Forall2_same_length_lookup. split; [done|].
  intros k b' b Hb' Hb. cbn beta. destruct (b_valid b) eqn:Hv.
  - destruct (A2 k b Hb Hv) as (fl&Hbf&Hvf). assert (b' = b <| b_flags := fl |>) as -> by congruence.
    rewrite Hvf. done.
  - destruct (b_valid b') eqn:Hv'; [|done]. destruct (A3 k b' Hb' Hv') as [(b0&fl&Hb0&Hv0&_)|(_&_&Hbo)]; [congruence|].
    destruct Hbo as (_&Hfi&_). apply andb_false_iff. right. apply Z.eqb_neq. congruence.
Qed.

Lemma ceil_bounds c n :
  1 <= block_token_count c -> 0 < n ->
  0 < ceil_block_count c n /\ (ceil_block_count c n - 1) * block_token_count c < n <= ceil_block_count c n * block_token_count c.
Proof.
  intros Hb Hn. unfold ceil_block_count. destruct (div_ceil_spec n (block_token_count c)) as [H|[H _]]; nia.
Qed.

Section reserve.
Context (c0 : PrefixCache) (seq op : Z) (tokens : list Z) (allow : bool).
Abbreviation btc := (block_token_count c0).
Abbreviation len := (Z.of_nat (length tokens)).
Hypothesis Hwf0 : cache_wf c0.
Hypothesis Hlen : 0 < len <= U32_MAX.

(** Tokens of the [m]-th block. *)
Definition block_tokens (m : nat) : Z := Z.min btc (len - Z.of_nat m * btc).

(** What the sequence holds for block [m]: the tokens covered by the first binding at the
    block's offset, and its physical block. *)
Definition held (c : PrefixCache) (m : nat) : option (Z * Z) :=
  match find_binding_at_token_offset c seq (Z.of_nat m * btc) with
  | Some k => (fun b => (b_token_count b, b_physical_block_index b)) <$> bindings c !! Z.to_nat k
  | None => None
  end.

Definition unbound (c : PrefixCache) : Prop :=
  forall k b, bindings c !! k = Some b -> b_valid b = true -> b_sequence_id b <> seq.

(** The tokens covered once block [m] is reserved: those of the binding the sequence already
    had there, or the prompt's. *)
Definition kept_tokens (m : nat) : Z := from_option fst (block_tokens m) (held c0 m).

Lemma held_unbound m : unbound c0 -> held c0 m = None.
Proof.
  intros Hu. unfold held. destruct (find_binding_at_token_offset c0 seq _) as [k|] eqn:Hf; [|done].
  destruct (find_binding_at_Some _ _ _ _ Hf) as (_&b&Hb&Hv&Hs&_). by destruct (Hu _ b Hb Hv).
Qed.

Record reserve_inv (n : nat) (b : Z * Z * Reservation) (c : PrefixCache) : Prop := {
  ri_ok : cache_ok c0 c;
  ri_parent : b.1.1 = chain_hash btc tokens n;
  ri_offset : b.1.2 = Z.min (Z.of_nat n * btc) len;
  ri_epoch : rs_reservation_epoch b.2 = op;
  ri_table : length (rs_physical_block_indices b.2) = n;
  ri_counts : 0 <= rs_cached_physical_block_count b.2 /\ 0 <= rs_pending_physical_block_count b.2 /\
    rs_cached_physical_block_count b.2 + rs_pending_physical_block_count b.2 <= Z.of_nat n;
  ri_later : forall m, (n <= m)%nat -> held c m = held c0 m;
  ri_read : forall m, (m < n)%nat -> exists p, rs_physical_block_indices b.2 !! m = Some p /\ held c m = Some (kept_tokens m, p);
  ri_fresh : unbound c0 -> rs_cached_physical_block_count b.2 + rs_pending_physical_block_count b.2 = Z.of_nat n;
}.

(** The entry for the [n]-th block: the one the sequence holds there, or one of the block's tokens. *)
Definition stands_for (n : nat) (c : PrefixCache) (e : Entry) : Prop :=
  e_first_token_index e = Z.of_nat n * btc /\
  (held c n = Some (e_token_count e, e_physical_block_index e) \/ held c n = None /\ e_token_count e = block_tokens n).

(** The entry chosen for the [n]-th block, with the reservation's counters moved. *)
Definition chosen (n : nat) (c : PrefixCache) (r : Reservation) (x : Z * Reservation) (c' : PrefixCache) : Prop :=
  cache_ok c0 c' /\ bindings c' = bindings c /\ 0 <= x.1 /\
  (exists e, entries c' !! Z.to_nat x.1 = Some e /\ e_valid e = true /\ stands_for n c e) /\
  rs_physical_block_indices x.2 = rs_physical_block_indices r /\ rs_reservation_epoch x.2 = rs_reservation_epoch r /\
  ((rs_cached_physical_block_count x.2 = rs_cached_physical_block_count r +u32 1 /\
      rs_pending_physical_block_count x.2 = rs_pending_physical_block_count r) \/
   (rs_cached_physical_block_count x.2 = rs_cached_physical_block_count r /\
      rs_pending_physical_block_count x.2 = rs_pending_physical_block_count r +u32 1) \/
   (rs_cached_physical_block_count x.2 = rs_cached_physical_block_count r /\
      rs_pending_physical_block_count x.2 = rs_pending_physical_block_count r /\ held c n <> None)).

(** What [existing_entry] finds for block [n]. *)
Definition existing_ok (n : nat) (c : PrefixCache) (existing : option Z) : Prop :=
  match existing with
  | Some i => 0 <= i /\ exists e, entries c !! Z.to_nat i = Some e /\ e_valid e = true /\
      e_first_token_index e = Z.of_nat n * btc /\ held c n = Some (e_token_count e, e_physical_block_index e)
  | None => held c n = None
  end.

Lemma existing_entry_spec n c :
  cache_wf c ->
  wp (existing_entry c seq (Z.of_nat n * btc)) (fun o c' => c' = c /\ existing_ok n c o) (fun _ _ => False) c.
Proof.
  intros Hwf. unfold existing_entry.
  destruct (find_binding_at_token_offset c seq (Z.of_nat n * btc)) as [k|] eqn:Hf; [|wp_steps; split; [done|]; unfold existing_ok, held; by rewrite Hf].
  destruct (find_binding_at_Some _ _ _ _ Hf) as (Hk&b&Hb&Hv&_&Hfi). wp_steps.
  destruct (sw_binding _ _ _ _ _ _ Hwf _ b Hb Hv) as (Hi&e&He&Hve&Hbo).
  pose proof (lookup_lt_Some _ _ _ He). destruct (Z.ltb_spec (b_entry_index b) (Z.of_nat (length (entries c)))); [|lia].
  split; [done|]. split; [done|]. exists e. destruct Hbo as (B1&B2&B3&_). unfold held. rewrite Hf, Hb. cbn.
  split_and!; [done|done|congruence|congruence].
Qed.

Lemma reserve_victim_spec n c flags parent block content (Q : Z -> PrefixCache -> Prop) :
  cache_ok c0 c -> Z.of_nat n * btc < len ->
  (forall v c' e, cache_ok c0 c' -> bindings c' = bindings c -> 0 <= v -> entries c' !! Z.to_nat v = Some e ->
     e_valid e = true -> e_first_token_index e = Z.of_nat n * btc -> e_token_count e = block_tokens n -> Q v c') ->
  wp (reserve_victim seq op flags parent block content (Z.of_nat n * btc) (block_tokens n))
    Q (failed c0 seq op (eq CapacityExceeded)) c.
Proof.
  intros Hok Hn HQ. unfold reserve_victim. wp_step. pose proof (sw_btc _ _ _ _ _ _ Hwf0) as Hb.
  destruct (shape_fields _ _ (proj2 Hok)) as (Hbtc&_).
  eapply wp_mono; [apply choose_victim_spec, Hok| |done].
  intros o c1 (Hok1&He1&Hb1&Hh1&Hch). destruct o as [v|]; [wp_step|].
  2:{ apply fail_spec; [by eapply cache_ok_trans|done]. }
  destruct Hch as [Hinst _]. pose proof (proj1 Hinst) as Hv.
  destruct (shape_fields _ _ (proj2 Hok1)) as (Hbtc1&_).
  eapply install_or_fail; [by eapply cache_ok_trans| | | | |done|].
  - unfold installable in *. rewrite He1, Hh1. done.
  - unfold block_tokens. lia.
  - nia.
  - unfold block_tokens. lia.
  - intros c2 e physical now Hok2 Hb2 He2 _. wp_steps.
    eapply HQ; [|cbn; congruence|done|exact He2|apply installed_valid|done|done].
    eapply cache_ok_trans; [exact Hok2|]. by apply cache_ok_counters; [apply Hok2|..].
Qed.


(** Binding an entry leaves what is held of the other blocks. *)
Lemma held_other c c1 c2 c3 i e m :
  bindings c1 = bindings c -> bindings c3 = bindings c2 -> acquired c1 c2 seq i e -> length (bindings c2) = length (bindings c1) ->
  e_first_token_index e <> Z.of_nat m * btc -> held c3 m = held c m.
Proof.
  intros Hb1 Hb3 Hacq Hl Hne. pose proof (acquired_find c1 c2 seq i e seq _ Hacq Hl Hne) as Hf. unfold held, find_binding_at_token_offset in *.
  rewrite Hb3, Hf, Hb1. destruct (position _ (bindings c)) as [k|] eqn:Hk; [|done]. apply position_Some in Hk as (_&b&Hb&Hv).
  destruct Hacq as (_&A2&_). rewrite <- Hb1 in Hb. apply andb_true_iff in Hv as [Hv _]. apply andb_true_iff in Hv as [Hv _].
  destruct (A2 _ b Hb Hv) as (fl&Hb'&_). by rewrite Hb', <- Hb1, Hb.
Qed.

(** The block it is bound for is then held. *)
Lemma held_here c c1 c2 c3 i e n :
  bindings c1 = bindings c -> bindings c3 = bindings c2 -> acquired c1 c2 seq i e -> stands_for n c e ->
  held c3 n = Some (e_token_count e, e_physical_block_index e).
Proof.
  intros Hb1 Hb3 (A1&A2&A3) [Hfi Hheld]. unfold held, find_binding_at_token_offset in *. rewrite Hb3. rewrite Hb1 in A2, A3.
  set (p := fun b : Binding => _ && _) in *. assert (forall b, p b = true -> b_valid b = true /\ b_sequence_id b = seq /\ b_first_token_index b = Z.of_nat n * btc) as Hp.
  { intros b Hb. subst p. cbn beta in Hb. apply andb_true_iff in Hb as [Hb ?]. apply andb_true_iff in Hb as [? ?]. split_and!; [done|lia|lia]. }
  destruct (position p (bindings c2)) as [k|] eqn:Hk.
  - pose proof (position_first _ _ _ Hk) as Hfirst. apply position_Some in Hk as (Hk0&b'&Hb'&Hpb'). rewrite Hb'. cbn. destruct (Hp b' Hpb') as (Hv'&Hs'&Hf').
    destruct (A3 _ b' Hb' Hv') as [(b&fl&Hb&Hv&->)|(_&_&Hbo)]; [|by destruct Hbo as (->&_&->&_)].
    assert (p b = true) as Hpb by (subst p; cbn beta; cbn in Hs', Hf'; by rewrite Hv, Hs', Hf', !Z.eqb_refl).
    destruct (position p (bindings c)) as [k1|] eqn:Hk1; [|pose proof (position_None _ _ _ _ Hk1 Hb); congruence].
    pose proof (position_first _ _ _ Hk1) as Hfirst1. apply position_Some in Hk1 as (Hk10&b1&Hb1'&Hpb1). destruct (Hp b1 Hpb1) as (Hv1&Hs1&Hf1).
    destruct (A2 _ b1 Hb1' Hv1) as (fl1&Hb1''&Hv1'').
    assert (p (b1 <| b_flags := fl1 |>) = true) as Hpb1' by (subst p; cbn beta; rewrite Hv1''; cbn; by rewrite Hs1, Hf1, !Z.eqb_refl).
    assert (Z.to_nat k1 = Z.to_nat k) as Hkk.
    { destruct (Nat.lt_total (Z.to_nat k1) (Z.to_nat k)) as [Hlt|[Heq|Hlt]]; [|done|].
      - rewrite (Hfirst _ _ Hlt Hb1'') in Hpb1'. done.
      - rewrite (Hfirst1 _ _ Hlt Hb) in Hpb. done. }
    rewrite Hkk, Hb in Hheld. cbn in Hheld. destruct Hheld as [[= H1 H2]|[? _]]; [|done]. cbn. by rewrite H1, H2.
  - exfalso. destruct A1 as (k&b&Hb&Hv&Hs&_&Hbo). destruct Hbo as (_&Hbf&_). pose proof (position_None _ _ _ _ Hk Hb) as Hpn. subst p. cbn beta in Hpn.
    by rewrite Hv, Hs, Hbf, Hfi, !Z.eqb_refl in Hpn.
Qed.

(** The slice of the prompt a reservation hashes is its block. *)
Lemma block_slice n :
  1 <= btc -> Z.of_nat n * btc < len ->
  take (Z.to_nat (block_tokens n)) (drop (Z.to_nat (Z.of_nat n * btc)) tokens) = prompt_block btc tokens n.
Proof.
  intros Hb Hn. unfold prompt_block, block_tokens. destruct (Z.le_gt_cases btc (len - Z.of_nat n * btc)).
  - by rewrite Z.min_l.
  - rewrite Z.min_r by lia. rewrite !take_ge; [done|..]; rewrite length_drop; lia.
Qed.

Lemma choose_spec n c r parent block content existing :
  cache_ok c0 c -> Z.of_nat n * btc < len ->
  existing_ok n c existing ->
  forall reuse : bool,
  let found := match existing with
    | Some i => Some i
    | None => if reuse then find_entry c parent block content (Z.of_nat n * btc) (block_tokens n) true else None end in
  wp (match found with
    | Some i =>
        let! e := index (entries c) i in
        ret (i, if entry_is_reusable c e
                then r <| rs_cached_physical_block_count := rs_cached_physical_block_count r +u32 1 |>
                       <| rs_reusable_token_count := rs_reusable_token_count r +u32 block_tokens n |>
                else if e_pending e
                then r <| rs_pending_physical_block_count := rs_pending_physical_block_count r +u32 1 |>
                else r)
    | None =>
        let entry_flags := if negb (block_tokens n =? block_token_count c) || negb allow
                           then Z.lor ENTRY_FLAG_PENDING ENTRY_FLAG_LIVE_ONLY else ENTRY_FLAG_PENDING in
        let! v := reserve_victim seq op entry_flags parent block content (Z.of_nat n * btc) (block_tokens n) in
        ret (v, r <| rs_pending_physical_block_count := rs_pending_physical_block_count r +u32 1 |>)
    end) (chosen n c r) (failed c0 seq op (eq CapacityExceeded)) c.
Proof.
  intros Hok Hn Hex reuse found.
  assert (match found with
    | Some i => 0 <= i /\ exists e, entries c !! Z.to_nat i = Some e /\ e_valid e = true /\ stands_for n c e /\
       (held c n = None -> entry_is_reusable c e = true)
    | None => held c n = None end) as Hfound.
  { subst found. unfold existing_ok in Hex. destruct existing as [i|].
    - destruct Hex as (Hi&e&He&Hv&Hfi&Hh). split; [done|]. exists e. split_and!; [done|done|split; [done|by left]|by rewrite Hh].
    - destruct reuse; [|done]. destruct (find_entry _ _ _ _ _ _ _) as [i|] eqn:Hf; [|done].
      apply find_entry_Some in Hf as (Hi&e&He&Hv&_&_&_&H4&H5&H6). split; [done|]. exists e.
      split_and!; [done|done|split; [done|by right]|]. intros _. by apply H6. }
  clearbody found. destruct found as [i|].
  - destruct Hfound as (Hi&e&He&Hv&Hst&Hreuse). wp_steps. unfold chosen. cbn [fst snd].
    split_and!; [done|done|done|by exists e| | |].
    + by destruct (entry_is_reusable c e), (e_pending e).
    + by destruct (entry_is_reusable c e), (e_pending e).
    + destruct (entry_is_reusable c e) eqn:Hr; [by left|]. right. destruct (e_pending e); [by left|]. right.
      split_and!; [done|done|]. intros Hh. by specialize (Hreuse Hh).
  - wp_steps. eapply reserve_victim_spec; [done|done|]. intros v c' e Hok' Hb' Hv0 He Hv Hf Ht. wp_steps.
    unfold chosen. cbn [fst snd]. split_and!; [done|done|done|exists e; split_and!; [done|done|split; [done|by right]]|done|done|].
    right. by left.
Qed.

Lemma reserve_block_spec n b c limit :
  reserve_inv n b c -> Z.of_nat n * btc < len -> Z.of_nat n < U32_MAX ->
  wp (reserve_block seq tokens allow len limit op b) (reserve_inv (S n)) (failed c0 seq op (eq CapacityExceeded)) c.
Proof.
  intros [Hok Hpar Hoff Hep Htab Hcnt Hlater Hread Hfresh] Hn Hn32. destruct b as [[parent off] r]. cbn [fst snd] in *.
  rewrite Z.min_l in Hoff by lia. subst parent off.
  pose proof (sw_btc _ _ _ _ _ _ Hwf0) as Hb. destruct (shape_fields _ _ (proj2 Hok)) as (Hbtc&_).
  unfold reserve_block, upd_entry. wp_step. wp_step. unfold id. rewrite Hbtc, (u32_small (len - _)) by lia.
  fold (block_tokens n). assert (1 <= block_tokens n <= len - Z.of_nat n * btc) as Hbt by (unfold block_tokens; lia).
  rewrite (u32_small (_ + block_tokens n)) by lia. wp_steps. apply wp_slice; [lia|lia|].
  replace (Z.of_nat n * btc + block_tokens n - Z.of_nat n * btc) with (block_tokens n) by lia.
  rewrite block_slice by lia. wp_steps.
  eapply wp_mono; [apply existing_entry_spec, Hok| |done]. intros existing c1 [-> Hex]. wp_step. cbv zeta.
  eapply wp_mono.
  { pose proof (choose_spec n c r (chain_hash btc tokens n) (chain_hash btc tokens (S n))
      (hash_block_content (prompt_block btc tokens n)) existing Hok Hn Hex
      (allow && (block_tokens n =? btc) && (Z.of_nat n * btc <? limit))) as Hc.
    rewrite Hbtc in Hc. exact Hc. }
  2:{ intros e c1 H. exact H. }
  intros [i r1] c1 (Hok1&Hb1&Hi&(e&He&Hv&Hst)&Hr1&Hr2&Hr3). cbn [fst snd] in *.
  wp_step. wp_step. unfold id. do 3 (wp_step; cbn beta).
  eapply acquire_or_fail; [done|done|exact He|done|done|]. intros c2 Hok2 Hacq (e'&He'&[refs ->]) Hother. wp_steps.
  match goal with |- reserve_inv _ _ ?s => set (c3 := s) end.
  assert (cache_ok c2 c3) as Hok3.
  { apply cache_ok_entries; try done; [apply Hok2|]. by apply entries_sim_upd. }
  assert (length (bindings c2) = length (bindings c1)) as Hbl.
  { destruct (shape_fields _ _ (proj2 Hok1)) as (_&_&->&_), (shape_fields _ _ (proj2 Hok2)) as (_&_&->&_). done. }
  split; cbn [fst snd rs_physical_block_indices rs_reservation_epoch set_field].
  - by eapply cache_ok_trans.
  - done.
  - unfold block_tokens in *. lia.
  - cbn. congruence.
  - cbn. rewrite length_app, Hr1. simpl. lia.
  - cbn. destruct Hr3 as [[-> ->]|[[-> ->]|(->&->&_)]]; rewrite ?u32_small by lia; lia.
  - intros m Hm. rewrite <- Hlater by lia. eapply (held_other c c1 c2 c3 i e); [done|done|done|done|]. destruct Hst as [-> _]. nia.
  - intros m Hm. cbn. rewrite Hr1. change (e_physical_block_index (e <| e_reference_count := refs |>)) with (e_physical_block_index e).
    destruct (decide (m = n)) as [->|Hne].
    + exists (e_physical_block_index e). rewrite <- Htab, list_lookup_middle by done. split; [done|]. rewrite Htab.
      rewrite (held_here c c1 c2 c3 i e n) by done. unfold kept_tokens. rewrite <- Hlater by lia. by destruct Hst as [_ [->|[-> ->]]].
    + destruct (Hread m ltac:(lia)) as (p&Hp&Hh). exists p. rewrite lookup_app_l by lia. split; [done|]. rewrite <- Hh.
      eapply (held_other c c1 c2 c3 i e); [done|done|done|done|]. destruct Hst as [-> _]. nia.
  - intros Hu. specialize (Hfresh Hu). cbn. destruct Hr3 as [[-> ->]|[[-> ->]|(_&_&Hx)]]; [rewrite ?u32_small by lia; lia..|].
    rewrite Hlater, held_unbound in Hx by done. done.
Qed.

End reserve.

(** What a successful reservation returns. *)
Definition reserved (c : PrefixCache) (seq : Z) (tokens : list Z) (r : Reservation) (c' : PrefixCache) : Prop :=
  let len := Z.of_nat (length tokens) in
  let count := ceil_block_count c len in
  exists n : nat, count = Z.of_nat n /\
  rs_reserved_token_count r = len /\ rs_physical_block_count r = count /\
  rs_reservation_epoch r = operation_epoch c +u64 1 /\
  rs_last_block_hash r = chain_hash (block_token_count c) tokens n /\
  length (rs_physical_block_indices r) = n /\
  rs_cached_physical_block_count r + rs_pending_physical_block_count r <= count /\
  (forall m, (m < n)%nat -> exists p, rs_physical_block_indices r !! m = Some p /\ held c seq c' m = Some (kept_tokens c seq tokens m, p)) /\
  (unbound seq c -> rs_cached_physical_block_count r + rs_pending_physical_block_count r = count).

Lemma reserve_internal_spec c seq tokens allow :
  cache_wf c -> Z.of_nat (length tokens) <= U32_MAX ->
  wp (reserve_prompt_internal seq tokens allow)
    (fun r c' => cache_ok c c' /\ reserved c seq tokens r c')
    (fun err c' => (err = InvalidArgument /\ c' = c /\ (tokens = [] \/ seq = 0)) \/
       failed c seq (operation_epoch c +u64 1) (eq CapacityExceeded) err c') c.
Proof.
  intros Hwf Hlen. unfold reserve_prompt_internal.
  destruct (Z.eqb_spec (Z.of_nat (length tokens)) 0) as [Hl|Hl]; cbn [orb].
  { wp_steps. left. split_and!; [done|done|]. left. apply length_zero_iff_nil. lia. }
  destruct (Z.eqb_spec seq 0) as [Hs|Hs]; wp_steps; [left; by split_and!; [..|right]|].
  unfold id. rewrite u32_small by lia. pose proof (sw_btc _ _ _ _ _ _ Hwf) as Hb.
  destruct (ceil_bounds c (Z.of_nat (length tokens))) as [Hc0 Hc]; [lia|lia|].
  set (len := Z.of_nat (length tokens)) in *. set (count := ceil_block_count c len) in *.
  assert (count <= len) as Hcl by nia.
  eapply wp_mono; [by apply (next_epoch_spec c (fun _ _ => False))| |done].
  intros op c1 (Hop&Hok1&_&Hb1&_). wp_steps. set (r0 := mkReservation _ _ _ _ _ _ _ _ _ _).
  eapply wp_mono.
  - apply (wp_for_fold (fun pre b c' => reserve_inv c seq op tokens (length pre) b c')).
    + split; cbn; try done; [lia| |intros m Hm; lia]. intros m Hm. unfold held, find_binding_at_token_offset. by rewrite Hb1.
    + intros pre x post b c' Hsplit Hinv. apply range_split in Hsplit as [-> Hx].
      rewrite length_app, length_range in *. cbn [length]. rewrite Nat.add_1_r.
      eapply (reserve_block_spec c seq op tokens allow Hwf); [unfold len in *; lia|done| |].
      * replace (Z.of_nat (Z.to_nat (x - 0))) with x by lia. fold len. nia.
      * lia.
  - intros [[parent off] r] c' [Hok Hpar Hoff Hep Htab Hcnt Hlater Hread Hfresh]. cbn [fst snd] in *. wp_steps.
    rewrite length_range in *. split; [done|]. exists (Z.to_nat count).
    rewrite Z.sub_0_r in *. subst count len. split_and!; [lia|done|done|cbn; congruence|exact Hpar|done|cbn; lia|exact Hread|].
    intros Hu. specialize (Hfresh Hu). cbn in *. lia.
  - intros err c' Hf. right. by rewrite <- Hop.
Qed.

(** ** Commit *)

Lemma committed_core c op e : entry_core (committed_entry c op e) = entry_core e.
Proof.
  assert (has_flag (e_flags (committed_entry c op e)) ENTRY_FLAG_VALID = has_flag (e_flags e) ENTRY_FLAG_VALID) as Hf.
  { unfold committed_entry. cbn -[has_flag Z.land Z.lor u32_not].
    destruct (_ && _); rewrite has_flag_lor, has_flag_keep by done; apply orb_false_r. }
  rewrite <- (entry_flags_core e _ Hf). done.
Qed.

Lemma committed_not_pending c op e : e_pending (committed_entry c op e) = false.
Proof.
  unfold e_pending, committed_entry. cbn -[has_flag Z.land Z.lor u32_not].
  destruct (_ && _); rewrite has_flag_lor, has_flag_clear by done; done.
Qed.

(** A full block that is not live-only is reusable once committed. *)
Lemma committed_reusable c op e :
  e_valid e = true -> has_flag (e_flags e) ENTRY_FLAG_LIVE_ONLY = false -> e_token_count e = block_token_count c ->
  entry_is_reusable c (committed_entry c op e) = true.
Proof.
  intros Hv Hl Ht. pose proof (committed_core c op e) as Hcore. unfold entry_core in Hcore.
  unfold entry_is_reusable. rewrite committed_not_pending.
  replace (e_valid (committed_entry c op e)) with (e_valid e) by congruence.
  replace (e_token_count (committed_entry c op e)) with (e_token_count e) by congruence.
  rewrite Hv, Ht, Z.eqb_refl. unfold committed_entry. cbn -[has_flag Z.land Z.lor u32_not].
  rewrite Ht, Z.eqb_refl, has_flag_keep, Hl by done. cbn -[has_flag Z.land Z.lor u32_not].
  rewrite has_flag_lor. by rewrite orb_true_r.
Qed.

(** The entries a commit of epoch [op] touches. *)
Definition commits (op : Z) (e : Entry) : bool := e_valid e && e_pending e && (e_reservation_epoch e =? op).

(** The bindings after a commit. *)
Definition commit_binding (seq op : Z) (b : Binding) : Binding :=
  if b_valid b && (b_sequence_id b =? seq) && (b_acquire_epoch b =? op)
  then b <| b_flags := Z.land (b_flags b) (u32_not BINDING_FLAG_PENDING) |> else b.

Lemma commit_binding_core seq op b : binding_core (commit_binding seq op b) = binding_core b.
Proof.
  unfold commit_binding. destruct (_ && _); [|done]. apply binding_flags_core. by apply has_flag_keep.
Qed.

(** Committing never fails; it commits exactly the pending entries of the epoch. *)
Lemma commit_spec c seq op :
  cache_wf c -> seq <> 0 -> op <> 0 ->
  wp (commit_reservation seq op)
    (fun _ c' => cache_ok c c' /\ bindings c' = commit_binding seq op <$> bindings c /\
       forall i e, entries c !! i = Some e ->
         entries c' !! i = Some (if commits op e then committed_entry c op e else e))
    (fun _ _ => False) c.
Proof.
  intros Hwf Hs Ho. unfold commit_reservation, upd_entry.
  destruct (Z.eqb_spec seq 0); [done|]. destruct (Z.eqb_spec op 0); [done|]. cbn [orb]. wp_steps.
  pose proof (sw_entries _ _ _ _ _ _ Hwf) as Hlen. rewrite u32_small by lia.
  eapply wp_mono.
  - apply (wp_for_fold (fun pre (_ : unit) c' => cache_ok c c' /\ bindings c' = bindings c /\
      forall i e, entries c !! i = Some e -> entries c' !! i = Some
        (if (i <? length pre)%nat && commits op e then committed_entry c op e else e)) _ _ _ (fun _ _ => False)).
    + split_and!; [by apply cache_ok_refl|done|done].
    + intros pre i post [] c' Hsplit (Hok&Hb&Hent). apply range_split in Hsplit as [-> Hi].
      rewrite length_app, length_range in *. cbn [length].
      destruct (lookup_Some_range (entries c) i) as [e He]; [lia|].
      pose proof (Hent _ e He) as He'. destruct (Nat.ltb_spec (Z.to_nat i) (Z.to_nat (i - 0))); [lia|]. cbn [andb] in He'.
      assert (forall j x, j <> Z.to_nat i -> entries c !! j = Some x -> entries c' !! j = Some
        (if (j <? Z.to_nat (i - 0) + 1)%nat && commits op x then committed_entry c op x else x)) as Hrest.
      { intros j x Hj Hx. rewrite (Hent j x Hx).
        by destruct (Nat.ltb_spec j (Z.to_nat (i - 0))), (Nat.ltb_spec j (Z.to_nat (i - 0) + 1)); try lia. }
      assert ((Z.to_nat i <? Z.to_nat (i - 0) + 1)%nat = true) as Hlt by (apply Nat.ltb_lt; lia).
      wp_steps. unfold id. wp_steps. fold (commits op e). destruct (commits op e) eqn:Hc; wp_steps.
      2:{ split_and!; [done|done|]. intros j x Hx. destruct (decide (j = Z.to_nat i)) as [->|Hne]; [|by apply Hrest].
          assert (x = e) as -> by congruence. by rewrite Hc, andb_false_r. }
      assert (e_valid e = true) as Hv by (unfold commits in Hc; by destruct (e_valid e)).
      destruct (valid_block c' _ e (proj1 Hok) He' Hv) as (Hp&blk&Hblk&Hal&_).
      apply wp_on_arena. eapply wp_mono; [apply mark_block_resident_spec; [apply (sw_arena _ _ _ _ _ _ (proj1 Hok))|lia]| |].
      2:{ intros err a' (_&_&Hun). rewrite (Hun blk Hblk) in Hal. done. }
      intros [] a' (Hkv&_&_&Hown&_). wp_steps. destruct (shape_fields _ _ (proj2 Hok)) as (Hbtc&_).
      assert (committed_entry c' op = committed_entry c op) as Hce by (unfold committed_entry; by rewrite Hbtc).
      split_and!; [|done|].
      * eapply cache_ok_trans; [exact Hok|]. apply cache_ok_sim; try done; [apply Hok|].
        cbn -[upd_nth]. apply entries_sim_upd. intros x _. apply committed_core.
      * cbn -[upd_nth Nat.ltb Z.sub Nat.add]. intros j x Hx. destruct (decide (j = Z.to_nat i)) as [->|Hne].
        { assert (x = e) as -> by congruence. rewrite (lookup_upd_nth_eq _ _ _ e) by done. by rewrite Hlt, Hc, Hce. }
        rewrite lookup_upd_nth_ne by congruence. by apply Hrest.
  - intros [] c' (Hok&Hb&Hent). wp_steps. split_and!.
    + eapply cache_ok_trans; [exact Hok|]. apply cache_ok_sim; try done; [apply Hok| | |].
      * cbn. apply bindings_sim_fmap. intros b. apply (commit_binding_core seq op).
      * apply (sw_arena _ _ _ _ _ _ (proj1 Hok)).
      * apply owners_kept_refl.
    + cbn. by rewrite Hb.
    + cbn. intros i e He. rewrite (Hent i e He). rewrite length_range. apply lookup_lt_Some in He.
      by destruct (Nat.ltb_spec i (Z.to_nat (Z.of_nat (length (entries c)) - 0))); [|lia].
  - done.
Qed.
