(* ===== verification/PrefixCacheGrow.v ===== *)
(** * The prefix cache: growing, sharing and releasing sequences

    Specifications of [ensure_sequence_token_capacity], of the block tables read
    from a sequence's bindings, of sharing a committed prefix with another
    sequence, and of [release_sequence], [reset] and [new]. *)

From S2P Require Import Prelude FreeList KvArena PrefixCache PrefixCacheInv PrefixCacheSpecs.

(** ** Reading the table of a sequence *)

Section table.
Context (seq token_count : Z).

(** Tokens of block [m] that must be covered. *)
Definition required (btc : Z) (m : nat) : Z := Z.min btc (token_count - Z.of_nat m * btc).

(** The binding found for block [m], and how many tokens it covers. *)
Definition block_binding (c : PrefixCache) (btc : Z) (m : nat) (k : Z) (b : Binding) : Prop :=
  find_binding_at_token_offset c seq (Z.of_nat m * btc) = Some k /\ bindings c !! Z.to_nat k = Some b.

Definition covered (c : PrefixCache) (btc : Z) (m : nat) : Prop :=
  exists k b, block_binding c btc m k b /\ required btc m <= b_token_count b.

Lemma build_table_spec c :
  cache_wf c -> seq <> 0 -> 0 < token_count <= U32_MAX ->
  wp (build_physical_block_table seq token_count)
    (fun table c' => c' = c /\ Z.of_nat (length table) = ceil_block_count c token_count /\
       forall m p, table !! m = Some p -> exists k b, block_binding c (block_token_count c) m k b /\
         required (block_token_count c) m <= b_token_count b /\ b_physical_block_index b = p)
    (fun err c' => c' = c /\ err = NotFound /\ exists m, Z.of_nat m < ceil_block_count c token_count /\
       ~ covered c (block_token_count c) m) c.
Proof.
  intros Hwf Hs Ht. unfold build_physical_block_table.
  destruct (Z.eqb_spec seq 0); [done|]. destruct (Z.eqb_spec token_count 0); [lia|]. cbn [orb]. wp_steps. unfold id.
  pose proof (sw_btc _ _ _ _ _ _ Hwf) as Hb. destruct (ceil_bounds c token_count) as [Hc0 Hc]; [lia|lia|].
  eapply wp_mono.
  - apply (wp_for_fold (fun pre table c' => c' = c /\ length table = length pre /\
      forall m p, table !! m = Some p -> exists k b, block_binding c (block_token_count c) m k b /\
         required (block_token_count c) m <= b_token_count b /\ b_physical_block_index b = p) _ _ _
      (fun err c' => c' = c /\ err = NotFound /\ exists m, Z.of_nat m < ceil_block_count c token_count /\
         ~ covered c (block_token_count c) m)).
    + done.
    + intros pre i post table c' Hsplit (->&Hl&Htab). apply range_split in Hsplit as [-> Hi].
      rewrite length_app, length_range in *. cbn [length].
      assert (i * block_token_count c < token_count) as Hlt by nia.
      rewrite (u32_small (i * _)) by nia. rewrite u32_small by nia.
      assert (Z.min (block_token_count c) (token_count - i * block_token_count c) =
        required (block_token_count c) (Z.to_nat i)) as -> by (unfold required; by rewrite Z2Nat.id by lia).
      assert (forall k, find_binding_at_token_offset c seq (i * block_token_count c) = k ->
        find_binding_at_token_offset c seq (Z.of_nat (Z.to_nat i) * block_token_count c) = k) as Hfi
        by (by rewrite Z2Nat.id by lia).
      destruct (find_binding_at_token_offset c seq (i * block_token_count c)) as [k|] eqn:Hf; wp_steps.
      2:{ split_and!; [done|done|]. exists (Z.to_nat i). split; [lia|]. intros (k&b&[Hk _]&_).
          rewrite (Hfi _ eq_refl) in Hk. done. }
      destruct (find_binding_at_Some _ _ _ _ Hf) as (Hk&b&Hb'&_). wp_steps. pose proof (Hfi _ eq_refl) as Hf'.
      destruct (Z.ltb_spec (b_token_count b) (required (block_token_count c) (Z.to_nat i))); wp_steps.
      { split_and!; [done|done|]. exists (Z.to_nat i). split; [lia|]. intros (k'&b'&[Hk' Hbk']&Hr).
        rewrite Hf' in Hk'. simplify_eq. lia. }
      split_and!; [done|rewrite length_app; simpl; lia|]. intros m p Hm.
      apply lookup_app_Some in Hm as [Hm|[Hge Hm]]; [by apply Htab|].
      apply list_lookup_singleton_Some in Hm as [Hm <-]. replace m with (Z.to_nat i) by lia.
      exists k, b. split_and!; [by split|lia|done].
  - intros table c' (->&Hl&Htab). split_and!; [done| |done]. rewrite Hl, length_range. lia.
  - intros err c' H. exact H.
Qed.

End table.

(** ** Growing a sequence *)

Section ensure.
Context (c0 : PrefixCache) (seq token_count op : Z).
Abbreviation btc := (block_token_count c0).
Hypothesis Hwf0 : cache_wf c0.
Hypothesis Htc : 0 < token_count <= U32_MAX - 256.

(** The short block left to grow: a binding that is the only one of its entry. *)
Definition short_ok (c : PrefixCache) (short : option (Z * Z)) : Prop :=
  match short with
  | None => True
  | Some (k, i) => 0 <= k /\ 0 <= i /\ exists b e, bindings c !! Z.to_nat k = Some b /\ b_valid b = true /\
      b_entry_index b = i /\ entries c !! Z.to_nat i = Some e /\ e_valid e = true /\
      e_reference_count e = 1 /\ e_first_token_index e + btc <= U32_MAX
  end.

(** Block [m] is covered, or will be once the short block has grown. *)
Definition will_cover (c : PrefixCache) (short : option (Z * Z)) (m : nat) : Prop :=
  exists k b, block_binding seq c btc m k b /\
    (required token_count btc m <= b_token_count b \/ exists i, short = Some (k, i)).

Definition ensure_inv (n : nat) (acc : Z * option (Z * Z)) (c : PrefixCache) : Prop :=
  cache_ok c0 c /\ short_ok c acc.2 /\ forall m, (m < n)%nat -> will_cover c acc.2 m.

Lemma ensure_existing_spec n acc c k :
  ensure_inv n acc c -> find_binding_at_token_offset c seq (Z.of_nat n * btc) = Some k ->
  Z.of_nat n * btc < token_count ->
  wp (ensure_existing seq op (Z.of_nat n * btc) (required token_count btc n) k acc.2)
    (ensure_inv (S n)) (failed c0 seq op (fun _ => True)) c.
Proof.
  intros (Hok&Hshort&Hcov) Hf Hn. destruct (shape_fields _ _ (proj2 Hok)) as (Hbtc&_).
  destruct (find_binding_at_Some _ _ _ _ Hf) as (Hk&b&Hb&Hv&Hs&_).
  destruct (sw_binding _ _ _ _ _ _ (proj1 Hok) _ b Hb Hv) as (Hi&e&He&Hve&Hbo).
  assert (forall short' : option (Z * Z),
    (required token_count btc n <= b_token_count b \/ exists i, short' = Some (k, i)) ->
    (acc.2 = None \/ short' = acc.2) -> forall m, (m < S n)%nat -> will_cover c short' m) as Hnext.
  { intros short' Hnew Hkeep m Hm. destruct (decide (m = n)) as [->|Hne]; [exists k, b; by split|].
    destruct (Hcov m ltac:(lia)) as (k'&b'&Hb'&[Hr|[i Hi']]); exists k', b'; (split; [done|]); [by left|].
    destruct Hkeep as [Hnone| ->]; [congruence|]. right. by exists i. }
  pose proof (sw_btc _ _ _ _ _ _ Hwf0) as Hbb.
  unfold ensure_existing. wp_steps. unfold id. wp_steps. rewrite He.
  match goal with |- wp (if ?g then _ else _) _ _ _ => destruct g end; [by apply fail_spec|].
  match goal with |- wp (if ?g then _ else _) _ _ _ => destruct g eqn:Hg end; [by apply fail_spec|].
  destruct (Z.ltb_spec (b_token_count b) (required token_count btc n)); wp_steps.
  2:{ split_and!; [done|done|]. apply Hnext; [by left|by right]. }
  match goal with |- wp (if ?g then _ else _) _ _ _ => destruct g eqn:Hg2 end; [by apply fail_spec|]. wp_steps.
  apply orb_false_iff in Hg2 as [Hg2 Hsn]. apply orb_false_iff in Hg2 as [_ Href].
  apply negb_false_iff, Z.eqb_eq in Href. destruct acc as [p [s|]]; [done|].
  repeat (apply orb_false_iff in Hg as [Hg ?]).
  split_and!; [done| |].
  - cbn [snd short_ok]. split_and!; [done|done|]. exists b, e. split_and!; try done. lia.
  - apply Hnext; [right; by exists (b_entry_index b)|by left].
Qed.

(** A new slot and binding leave the short block alone. *)
Lemma short_ok_step c c' v short :
  short_ok c short -> (forall j, j <> Z.to_nat v -> entries c' !! j = entries c !! j) ->
  (forall e, entries c !! Z.to_nat v = Some e -> e_valid e = false \/ e_reference_count e = 0) ->
  (forall k b, bindings c !! k = Some b -> b_valid b = true ->
     exists fl, bindings c' !! k = Some (b <| b_flags := fl |>) /\ b_valid (b <| b_flags := fl |>) = true) ->
  short_ok c' short.
Proof.
  intros Hs He Hv Hb. destruct short as [[k i]|]; [|done]. destruct Hs as (Hk&Hi&b&e&H1&H2&H3&H4&H5&H6&H7).
  split_and!; [done|done|]. destruct (Hb _ b H1 H2) as (fl&Hbf&Hvf). exists (b <| b_flags := fl |>), e.
  split_and!; try done. rewrite He; [done|]. intros Heq. rewrite Heq in H4.
  destruct (Hv e H4) as [?|?]; [congruence|lia].
Qed.

Lemma same_bindings c c' : bindings c' = bindings c ->
  forall k b, bindings c !! k = Some b -> b_valid b = true ->
    exists fl, bindings c' !! k = Some (b <| b_flags := fl |>) /\ b_valid (b <| b_flags := fl |>) = true.
Proof.
  intros -> k b Hb Hv. exists (b_flags b). assert (b = b <| b_flags := b_flags b |>) as <- by (by destruct b). done.
Qed.

Lemma will_cover_keep c c' short m :
  bindings c' = bindings c -> will_cover c short m -> will_cover c' short m.
Proof.
  intros Hb (k&b&[Hf Hk]&H). exists k, b. split; [|done]. unfold block_binding, find_binding_at_token_offset in *.
  by rewrite Hb.
Qed.

Lemma will_cover_acquired c c' i e short m :
  acquired c c' seq i e -> length (bindings c') = length (bindings c) ->
  e_first_token_index e <> Z.of_nat m * btc -> will_cover c short m -> will_cover c' short m.
Proof.
  intros Hacq Hl Hne (k&b&[Hf Hk]&H). destruct (find_binding_at_Some _ _ _ _ Hf) as (_&b0&Hb0&Hv&_).
  assert (b0 = b) as -> by congruence. pose proof Hacq as (_&A2&_). destruct (A2 _ b Hk Hv) as (fl&Hb'&_).
  exists k, (b <| b_flags := fl |>). split; [split; [|done]|done]. by erewrite acquired_find.
Qed.

(** What is found at the offset just bound. *)
Lemma acquired_here c c' i e off :
  acquired c c' seq i e -> cache_ok c c' -> e_first_token_index e = off ->
  find_binding_at_token_offset c seq off = None ->
  exists k b, find_binding_at_token_offset c' seq off = Some k /\ bindings c' !! Z.to_nat k = Some b /\
    b_token_count b = e_token_count e.
Proof.
  intros (A1&A2&A3) Hok Hfi Hnone. destruct A1 as (k&b&Hb&Hv&Hs&Hi&Hbo).
  destruct (find_binding_at_token_offset c' seq off) as [k'|] eqn:Hf.
  - destruct (find_binding_at_Some _ _ _ _ Hf) as (_&b'&Hb'&Hv'&Hs'&Hf'). exists k', b'. split_and!; [done|done|].
    destruct (A3 _ b' Hb' Hv') as [(b0&fl&Hb0&Hv0&->)|(_&_&Hbo')]; [|by destruct Hbo' as (_&_&?&_)].
    pose proof (position_None _ _ _ _ Hnone Hb0) as Hp. cbn beta in Hp. rewrite Hv0 in Hp.
    cbn in Hs', Hf'. rewrite Hs', Hf', !Z.eqb_refl in Hp. done.
  - exfalso. pose proof (position_None _ _ _ _ Hf Hb) as Hp. cbn beta in Hp. rewrite Hv, Hs, Z.eqb_refl in Hp.
    destruct Hbo as (_&Hbf&_). rewrite Hbf, Hfi, Z.eqb_refl in Hp. done.
Qed.

Lemma ensure_block_spec n acc c :
  ensure_inv n acc c -> Z.of_nat n * btc < token_count ->
  wp (ensure_block seq token_count op (Z.of_nat n) acc)
    (ensure_inv (S n)) (failed c0 seq op (fun _ => True)) c.
Proof.
  intros Hinv Hn. pose proof Hinv as (Hok&Hshort&Hcov). destruct (shape_fields _ _ (proj2 Hok)) as (Hbtc&_).
  pose proof (sw_btc _ _ _ _ _ _ Hwf0) as Hbb. destruct acc as [parent short]. unfold ensure_block.
  wp_step. wp_step. unfold id. cbv zeta. rewrite Hbtc, (u32_small (_ * _)), u32_small by lia.
  fold (required token_count btc n).
  destruct (find_binding_at_token_offset c seq (Z.of_nat n * btc)) as [k|] eqn:Hf.
  { by apply (ensure_existing_spec n (parent, short)). }
  wp_step. eapply wp_mono; [apply choose_victim_spec, Hok| |done].
  intros o c1 (Hok1&He1&Hb1&Hh1&Hch). assert (cache_ok c0 c1) as Hok1' by (by eapply cache_ok_trans).
  destruct o as [v|]; [|by apply fail_spec]. destruct Hch as [Hinst _]. wp_step.
  destruct (shape_fields _ _ (proj2 Hok1')) as (Hbtc1&_). pose proof (proj1 Hinst) as Hv0.
  eapply install_or_fail; [done| |lia|lia|lia|done|].
  { unfold installable in *. rewrite He1, Hh1. done. }
  intros c2 e physical now Hok2 Hb2 He2 Hother2.
  set (e2 := installed e _ _ _ _ _ _ _ _ _) in *.
  do 3 (wp_step; cbn beta). set (c3 := c2 <| reserved_block_count := _ |>).
  assert (cache_ok c2 c3) as Hok3 by (apply cache_ok_counters; [apply Hok2|done..]).
  assert (cache_ok c0 c3) as Hok3' by (by eapply cache_ok_trans).
  eapply acquire_or_fail; [exact Hok3'|done|exact He2|apply installed_valid|done|].
  intros c4 Hok4 Hacq _ Hother4. wp_steps. cbn [snd] in *.
  assert (bindings c3 = bindings c) as Hb3 by (change (bindings c3) with (bindings c2); congruence).
  assert (length (bindings c4) = length (bindings c3)) as Hl4.
  { destruct (shape_fields _ _ (proj2 Hok4)) as (_&_&->&_). by destruct (shape_fields _ _ (proj2 Hok3')) as (_&_&->&_). }
  assert (find_binding_at_token_offset c3 seq (Z.of_nat n * btc) = None) as Hf3.
  { unfold find_binding_at_token_offset in *. by rewrite Hb3. }
  split_and!; [done| |].
  - eapply (short_ok_step c _ v); [exact Hshort| | |].
    + intros j Hj. rewrite Hother4 by done. change (entries c3) with (entries c2). by rewrite Hother2, He1.
    + destruct Hinst as (_&x&Hx&Hcase). intros y Hy. assert (y = x) as -> by congruence. naive_solver.
    + intros k b Hk Hvk. rewrite <- Hb3 in Hk. pose proof Hacq as (_&A2&_). by apply (A2 k b).
  - intros m Hm. destruct (decide (m = n)) as [->|Hne].
    + destruct (acquired_here c3 c4 v e2 (Z.of_nat n * btc) Hacq) as (k&b&Hk&Hb&Ht); [|done|done|].
      { split; [apply Hok4|]. rewrite (proj2 Hok4). symmetry. apply Hok3'. }
      exists k, b. split; [by split|]. left. rewrite Ht. cbn. unfold required. lia.
    + eapply (will_cover_acquired c3); [exact Hacq|done| |].
      * cbn. nia.
      * eapply (will_cover_keep c); [done|]. apply Hcov. lia.
Qed.

End ensure.

(** Growing the short block: its entry has no other binding. *)
Lemma grow_short c c' k i b e :
  cache_wf c -> bindings c !! k = Some b -> b_valid b = true -> b_entry_index b = Z.of_nat i ->
  entries c !! i = Some e -> e_valid e = true -> e_reference_count e = 1 ->
  e_first_token_index e + block_token_count c <= U32_MAX ->
  let b' := b <| b_token_count := block_token_count c |> in
  let e' := e <| e_token_count := block_token_count c |>
    <| e_flags := Z.lor (Z.land (e_flags e) (u32_not ENTRY_FLAG_REUSABLE)) ENTRY_FLAG_LIVE_ONLY |> in
  block_token_count c' = block_token_count c -> physical_block_count c' = physical_block_count c ->
  free_entry_head c' = free_entry_head c -> free_binding_head c' = free_binding_head c -> arena c' = arena c ->
  bindings c' = <[k := b']> (bindings c) -> entries c' = <[i := e']> (entries c) -> cache_ok c c'.
Proof.
  intros Hwf Hb Hv Hbi He Hve Href Hfr b' e' E1 E2 E3 E4 E5 E6 E7.
  pose proof (sw_btc _ _ _ _ _ _ Hwf) as Hbb.
  destruct (sw_entry _ _ _ _ _ _ Hwf i e He Hve) as [P1 (blk&B1&B2&B3) P3 P4 P5].
  destruct (sw_binding _ _ _ _ _ _ Hwf k b Hb Hv) as (_&x&Hx&_&Hbo). rewrite Hbi, Nat2Z.id in Hx.
  assert (x = e) as -> by congruence. destruct Hbo as (Q1&Q2&Q3&Q4&Q5).
  assert (bound_to i b = true) as Hbt by (unfold bound_to; rewrite Hv, Hbi; apply Z.eqb_refl).
  assert (e_valid e' = true) as Hve'.
  { unfold e_valid, e'. cbn -[has_flag Z.land Z.lor u32_not]. rewrite has_flag_lor, has_flag_keep by done.
    unfold e_valid in Hve. by rewrite Hve. }
  split.
  - unfold cache_wf. rewrite E1, E3, E4, E5, E6, E7.
    eapply (store_rebind _ _ _ _ (arena c) _ _ _ _ _ e _ b _ blk blk); try done.
    + split; [done| |done|lia]. symmetry. by apply list_insert_id.
    + apply (sw_arena _ _ _ _ _ _ Hwf).
    + change (bound_to i b') with (bound_to i b). cbn. lia.
    + cbn. lia.
    + intros k' b0 Hne Hb0 Hv0 Hi0 _. exfalso.
      assert (bound_to i b0 = true) as Hbt0 by (unfold bound_to; rewrite Hv0, Hi0; apply Z.eqb_refl).
      pose proof (countb_ge_2 _ _ _ _ _ _ Hne Hb0 Hb Hbt0 Hbt). lia.
    + destruct (sw_free_bindings _ _ _ _ _ _ Hwf) as [fb Hfb]. exists fb.
      eapply free_list_frame; [exact Hfb| |].
      * intros j (x&Hx'&Hxv). rewrite list_lookup_insert_ne; [done|]. intros ->. congruence.
      * intros j. unfold free_binding. destruct (decide (j = k)) as [->|Hne].
        { rewrite (insert_same _ _ b) by done. split; intros (y&Hy1&Hy2); exfalso.
          - injection Hy1 as <-. change (b_valid b = false) in Hy2. congruence.
          - congruence. }
        rewrite list_lookup_insert_ne by done. done.
  - unfold shape. rewrite E1, E2, E5, E6, E7, !length_insert. done.
Qed.

(** Committing as the operations call it; it fails only for an epoch of zero. *)
Lemma commit_or_fail c0 c seq op (errors : PrefixCacheError -> Prop) (Q : unit -> PrefixCache -> Prop) :
  cache_ok c0 c -> seq <> 0 -> errors InvalidArgument ->
  (forall c', cache_ok c0 c' -> bindings c' = commit_binding seq op <$> bindings c ->
     (forall i e, entries c !! i = Some e -> entries c' !! i = Some (if commits op e then committed_entry c op e else e)) ->
     Q tt c') ->
  wp (catch (commit_reservation seq op) (fun status => fail_with_rollback seq op status))
    Q (failed c0 seq op errors) c.
Proof.
  intros Hok Hs Herr HQ. wp_steps. destruct (decide (op = 0)) as [->|Hop].
  - unfold commit_reservation. rewrite orb_true_r. wp_steps. by apply fail_spec.
  - eapply wp_mono; [apply commit_spec; [apply Hok|done..]| |done].
    intros [] c' (Hok'&Hb&He). apply HQ; [by eapply cache_ok_trans|done|done].
Qed.

Lemma commit_binding_fields seq op b :
  b_valid (commit_binding seq op b) = b_valid b /\ b_sequence_id (commit_binding seq op b) = b_sequence_id b /\
  b_first_token_index (commit_binding seq op b) = b_first_token_index b /\
  b_token_count (commit_binding seq op b) = b_token_count b /\
  b_entry_index (commit_binding seq op b) = b_entry_index b /\
  b_physical_block_index (commit_binding seq op b) = b_physical_block_index b.
Proof.
  pose proof (commit_binding_core seq op b) as Hc. unfold binding_core in Hc.
  split_and!; try congruence. unfold commit_binding. by destruct (_ && _).
Qed.

Lemma commit_find c c' seq op seq' off :
  bindings c' = commit_binding seq op <$> bindings c ->
  find_binding_at_token_offset c' seq' off = find_binding_at_token_offset c seq' off.
Proof.
  intros Hb. apply position_ext. rewrite Hb. apply Forall2_fmap_l.
  assert (forall l, Forall2 (fun x y => b_valid (commit_binding seq op x) && (b_sequence_id (commit_binding seq op x) =? seq')
    && (b_first_token_index (commit_binding seq op x) =? off) = b_valid y && (b_sequence_id y =? seq')
    && (b_first_token_index y =? off)) l l) as H; [|apply H].
  induction l as [|x l IH]; constructor; [|done].
  by destruct (commit_binding_fields seq op x) as (->&->&->&_).
Qed.

Lemma committed_fields c op e :
  e_valid (committed_entry c op e) = e_valid e /\ e_reference_count (committed_entry c op e) = e_reference_count e /\
  e_first_token_index (committed_entry c op e) = e_first_token_index e.
Proof. pose proof (committed_core c op e) as Hc. unfold entry_core in Hc. split_and!; congruence. Qed.

Lemma short_ok_commit c0 c c' seq op short :
  short_ok c0 c short -> bindings c' = commit_binding seq op <$> bindings c ->
  (forall i e, entries c !! i = Some e -> entries c' !! i = Some (if commits op e then committed_entry c op e else e)) ->
  short_ok c0 c' short.
Proof.
  intros Hs Hb He. destruct short as [[k i]|]; [|done]. destruct Hs as (Hk&Hi&b&e&H1&H2&H3&H4&H5&H6&H7).
  split_and!; [done|done|]. eexists (commit_binding seq op b), _.
  destruct (commit_binding_fields seq op b) as (->&_&_&_&->&_). destruct (committed_fields c op e) as (F1&F2&F3).
  split_and!; [rewrite Hb, list_lookup_fmap, H1; done|done|done|by apply He|..];
    destruct (commits op e); rewrite ?F1, ?F2, ?F3; done.
Qed.

Lemma ensure_spec c seq token_count :
  cache_wf c -> 0 <= token_count <= U32_MAX - 256 ->
  wp (ensure_sequence_token_capacity seq token_count)
    (fun _ c' => cache_ok c c' /\
       forall m, Z.of_nat m < ceil_block_count c token_count -> covered seq token_count c' (block_token_count c) m)
    (fun err c' => (err = InvalidArgument /\ c' = c /\ (seq = 0 \/ token_count = 0)) \/
       failed c seq (operation_epoch c +u64 1) (fun _ => True) err c') c.
Proof.
  intros Hwf Ht. unfold ensure_sequence_token_capacity.
  destruct (Z.eqb_spec seq 0) as [Hs|Hs]; cbn [orb]; [wp_steps; left; auto|].
  destruct (Z.eqb_spec token_count 0) as [Ht0|Ht0]; wp_steps; [left; auto|]. unfold id.
  pose proof (sw_btc _ _ _ _ _ _ Hwf) as Hb. destruct (ceil_bounds c token_count) as [Hc0 Hc]; [lia|lia|].
  eapply wp_mono; [by apply (next_epoch_spec c (fun _ _ => False))| |done].
  intros op c1 (<-&Hok1&_). wp_step.
  eapply wp_mono.
  - apply (wp_for_fold (fun pre acc c' => ensure_inv c seq token_count (length pre) acc c') _ _ _
      (failed c seq op (fun _ => True))).
    + split_and!; [done|done|]. simpl. lia.
    + intros pre x post acc c' Hsplit Hinv. apply range_split in Hsplit as [-> Hx].
      rewrite length_app, length_range in *. cbn [length]. rewrite Nat.add_1_r.
      replace x with (Z.of_nat (Z.to_nat (x - 0))) at 1 by lia.
      apply ensure_block_spec; [done|lia|done|]. nia.
  - intros [parent short] c2 (Hok2&Hshort&Hcov). rewrite length_range in Hcov. cbn [snd] in *. wp_step.
    eapply wp_mono; [apply (commit_or_fail c c2 seq op (fun _ => True)
      (fun _ c3 => cache_ok c c3 /\ short_ok c c3 short /\
         forall m, Z.of_nat m < ceil_block_count c token_count -> will_cover c seq token_count c3 short m)); [done|done|done|]| |].
    + intros c3 Hok3 Hb3 He3. split_and!; [done|by eapply short_ok_commit|].
      intros m Hm. destruct (Hcov m ltac:(lia)) as (k&b&[Hf Hk]&Hr).
      exists k, (commit_binding seq op b). destruct (commit_binding_fields seq op b) as (_&_&_&Htok&_).
      rewrite Htok. split; [|done]. split; [by erewrite commit_find|]. by rewrite Hb3, list_lookup_fmap, Hk.
    + intros [] c3 (Hok3&Hsh3&Hcov3). destruct (shape_fields _ _ (proj2 Hok3)) as (Hbtc3&_).
      destruct short as [[k i]|]; wp_steps.
      2:{ split; [done|]. intros m Hm. destruct (Hcov3 m Hm) as (k&b&Hbb&[Hr|[? [=]]]). by exists k, b. }
      destruct Hsh3 as (Hk&Hi&b&e&H1&H2&H3&H4&H5&H6&H7). unfold id, upd_binding, upd_entry. wp_steps. rewrite !Hbtc3.
      match goal with |- cache_ok _ ?s /\ _ => set (c4 := s) end.
      assert (bindings c4 = <[Z.to_nat k := b <| b_token_count := block_token_count c |>]> (bindings c3)) as Eb.
      { exact (upd_binding_insert c3 k _ b H1). }
      split.
      * eapply cache_ok_trans; [exact Hok3|].
        eapply (grow_short c3 c4 (Z.to_nat k) (Z.to_nat i) b e); try done; [apply Hok3|lia|lia|by rewrite Hbtc3|].
        rewrite Hbtc3. exact (upd_entry_insert c3 i _ e H4).
      * intros m Hm. destruct (Hcov3 m Hm) as (k'&b'&[Hf Hk']&Hr).
        assert (find_binding_at_token_offset c4 seq (Z.of_nat m * block_token_count c) = Some k') as Hf4.
        { rewrite <- Hf. apply position_ext. rewrite Eb. apply Forall2_same_length_lookup.
          split; [apply length_insert|]. intros j x y Hx Hy.
          apply list_lookup_insert_Some in Hx as [(<-&<-&_)|[_ Hx]]; [|congruence].
          assert (y = b) as -> by congruence. done. }
        destruct (find_binding_at_Some _ _ _ _ Hf) as (Hk0&_).
        destruct (decide (k' = k)) as [->|Hne].
        { assert (b' = b) as -> by congruence. exists k, (b <| b_token_count := block_token_count c |>).
          split; [split; [done|]|].
          - rewrite Eb. by rewrite (insert_same _ _ b).
          - cbn. unfold required. lia. }
        exists k', b'. split; [split; [done|]|].
        { rewrite Eb, list_lookup_insert_ne by lia. done. }
        destruct Hr as [Hr|[? [= <- _]]]; [done|lia].
    + intros err c' Hf. by right.
  - intros err c' Hf. by right.
Qed.

(** ** Reading a sequence, sharing it, releasing it *)

(** The bindings a sequence walk finds. *)
Lemma found_binding c seq off k :
  cache_wf c -> find_binding_at_token_offset c seq off = Some k ->
  exists b e, bindings c !! Z.to_nat k = Some b /\ b_valid b = true /\ b_sequence_id b = seq /\
    b_first_token_index b = off /\ 0 <= b_entry_index b /\ entries c !! Z.to_nat (b_entry_index b) = Some e /\
    e_valid e = true /\ 0 <= off /\ 1 <= b_token_count b /\ off + b_token_count b <= U32_MAX /\ binding_of b e.
Proof.
  intros Hwf Hf. destruct (find_binding_at_Some _ _ _ _ Hf) as (Hk&b&Hb&Hv&Hs&Hfi).
  destruct (sw_binding _ _ _ _ _ _ Hwf _ b Hb Hv) as (Hi&e&He&Hve&Hbo).
  destruct (sw_entry _ _ _ _ _ _ Hwf _ e He Hve) as [_ _ _ P4 P5]. pose proof Hbo as (_&Q2&Q3&_).
  exists b, e. split_and!; try done; lia.
Qed.

Lemma sequence_sources_spec c seq token_count :
  cache_wf c ->
  wp (build_sequence_prefetch_sources seq token_count) (fun _ c' => quiet c c') (fun _ c' => quiet c c') c.
Proof.
  intros Hwf. unfold build_sequence_prefetch_sources. destruct (_ || _); wp_steps; [apply quiet_refl|]. unfold id.
  eapply wp_mono.
  - apply (wp_for_fold (fun _ _ c' => quiet c c') _ _ _ (fun _ c' => quiet c c')); [apply quiet_refl|].
    intros pre i post [off blocks] c' _ Hq.
    destruct (find_binding_at_token_offset c seq off) as [k|] eqn:Hf; wp_steps; [|done].
    destruct (found_binding _ _ _ _ Hwf Hf) as (b&e&Hb&_&_&_&Hi&He&_). wp_steps. rewrite He. wp_steps.
    assert (0 <= b_entry_index b < Z.of_nat (length (entries c'))) as Hr.
    { rewrite <- (Forall2_length _ _ _ (qu_entries _ _ Hq)). apply lookup_lt_Some in He. lia. }
    eapply wp_mono; [by apply fill_prefetch_spec| |].
    + intros s c2 Hq2. wp_steps. by eapply quiet_trans.
    + intros err c2 Hq2. by eapply quiet_trans.
  - intros r c' Hq. by wp_steps.
  - done.
Qed.

Lemma sequence_residency_spec c seq token_count :
  cache_wf c ->
  wp (probe_sequence_residency seq token_count) (fun _ c' => c' = c) (fun _ c' => c' = c) c.
Proof.
  intros Hwf. unfold probe_sequence_residency. destruct (_ || _); wp_steps; [done|]. unfold id.
  eapply wp_mono.
  - apply (wp_for_fold (fun _ _ c' => c' = c) _ _ _ (fun _ c' => c' = c)); [done|].
    intros pre i post [[off r] n] c' _ ->.
    destruct (find_binding_at_token_offset c seq off) as [k|] eqn:Hf; wp_steps; [|done].
    destruct (found_binding _ _ _ _ Hwf Hf) as (b&e&Hb&_). wp_steps. destruct (block_is_nonresident _ _); by wp_steps.
  - intros [[off r] n] c' ->. by wp_steps.
  - done.
Qed.

(** Token [t] of the source is served to the target from the same block. *)
Definition shares (c : PrefixCache) (source target t : Z) : Prop :=
  exists k b k' b', bindings c !! k = Some b /\ b_valid b = true /\ b_sequence_id b = source /\
    bindings c !! k' = Some b' /\ b_valid b' = true /\ b_sequence_id b' = target /\
    b_first_token_index b <= t < b_first_token_index b + b_token_count b /\
    b_first_token_index b' = b_first_token_index b /\ b_token_count b' = b_token_count b /\
    b_physical_block_index b' = b_physical_block_index b.

Lemma shares_acquired c c' seq i e source target t :
  acquired c c' seq i e -> shares c source target t -> shares c' source target t.
Proof.
  intros (_&A2&_) (k&b&k'&b'&H1&H2&H3&H4&H5&H6&H7&H8&H9&H10).
  destruct (A2 k b H1 H2) as (fl&Hb&Hv). destruct (A2 k' b' H4 H5) as (fl'&Hb'&Hv').
  exists k, (b <| b_flags := fl |>), k', (b' <| b_flags := fl' |>). done.
Qed.

Lemma bind_round_spec c0 c source target token_count op off :
  cache_ok c0 c -> 0 <= off -> (forall t, 0 <= t < off -> shares c source target t) ->
  wp (bind_round source target token_count op off)
    (fun r c' => cache_ok c0 c' /\ match r with
       | Continue off' => off < off' <= token_count /\ (forall t, 0 <= t < off' -> shares c' source target t)
       | Break _ => forall t, 0 <= t < token_count -> shares c' source target t end)
    (failed c0 target op (fun _ => True)) c.
Proof.
  intros Hok H0 Hsh. unfold bind_round. destruct (Z.leb_spec token_count off).
  { wp_steps. split; [done|]. intros t Ht. apply Hsh. lia. }
  wp_step. wp_step. unfold id. destruct (find_binding_at_token_offset c source off) as [k|] eqn:Hf; [|by apply fail_spec].
  destruct (found_binding _ _ _ _ (proj1 Hok) Hf) as (b&e&Hb&Hv&Hs&Hfi&Hi&He&Hve&_&Ht1&Ht2&Hbo).
  wp_step. wp_step. rewrite He. rewrite (u32_small (off + _)) by lia.
  match goal with |- wp (if ?g then _ else _) _ _ _ => destruct g eqn:Hg end; [by apply fail_spec|].
  match goal with |- wp (if ?g then _ else _) _ _ _ => destruct g end; [by apply fail_spec|].
  apply orb_false_iff in Hg as [_ Hg]. wp_step.
  eapply (wp_mono _ (fun _ c' => c' = c) _ (fun _ _ => False)).
  { destruct (find_binding_at_token_offset c target off) as [k'|] eqn:Hf'; [|by wp_steps].
    destruct (found_binding _ _ _ _ (proj1 Hok) Hf') as (b'&_&Hb'&_). by wp_steps. }
  2:{ done. }
  intros conflict c1 ->. destruct conflict; [by apply fail_spec|]. wp_step.
  eapply acquire_or_fail; [done|done|exact He|done|done|]. intros c2 Hok2 Hacq _ _. wp_steps.
  split; [done|]. split; [lia|]. intros t Ht. destruct (Z.lt_ge_cases t off).
  - eapply shares_acquired; [exact Hacq|]. apply Hsh. lia.
  - destruct Hacq as ((k'&b'&Hb'&Hv'&Hs'&_&Q1&Q2&Q3&_)&A2&_). destruct (A2 _ b Hb Hv) as (fl&Hbf&Hvf).
    destruct Hbo as (R1&R2&R3&_). exists (Z.to_nat k), (b <| b_flags := fl |>), k', b'.
    split_and!; try done; cbn; try congruence; lia.
Qed.

Lemma bind_spec c source target token_count :
  cache_wf c -> 0 <= token_count ->
  wp (bind_committed_prefix_from_sequence source target token_count)
    (fun _ c' => cache_ok c c' /\ forall t, 0 <= t < token_count -> shares c' source target t)
    (fun err c' => (err = InvalidArgument /\ c' = c /\
         (source = 0 \/ target = 0 \/ source = target \/ token_count = 0)) \/
       failed c target (operation_epoch c +u64 1) (fun _ => True) err c') c.
Proof.
  intros Hwf Ht. unfold bind_committed_prefix_from_sequence.
  match goal with |- wp (if ?g then _ else _) _ _ _ => destruct g eqn:Hg end.
  { wp_steps. left. split_and!; [done|done|]. lia. }
  wp_step.
  eapply wp_mono; [by apply (next_epoch_spec c (fun _ _ => False))| |done].
  intros op c1 (<-&Hok1&_).
  apply (wp_loop (fun off c' => cache_ok c c' /\ 0 <= off <= token_count /\ forall t, 0 <= t < off -> shares c' source target t)
    (fun off _ => Z.to_nat (token_count - off))).
  - split_and!; [done|lia|lia|lia].
  - lia.
  - intros off c' (Hok&Ho&Hsh). eapply wp_mono; [by apply bind_round_spec; [..|lia|]| |].
    + intros [off'|[]] c2 [Hok2 H]; [|done]. destruct H as [Hlt Hsh2]. split; [split_and!; [done|lia|lia|done]|lia].
    + intros err c2 Hf. by right.
Qed.

Lemma release_sequence_spec c seq :
  cache_wf c -> seq <> 0 ->
  wp (release_sequence seq)
    (fun _ c' => cache_ok c c' /\ unbound seq c' /\
       (forall k b, bindings c !! k = Some b -> b_sequence_id b <> seq -> bindings c' !! k = Some b) /\
       (forall i e, entries c' !! i = Some e -> e_valid e = true -> e_reference_count e = 0 ->
          has_flag (e_flags e) ENTRY_FLAG_REUSABLE = true))
    (fun _ _ => False) c.
Proof.
  intros Hwf Hs. unfold release_sequence. destruct (Z.eqb_spec seq 0); [done|]. wp_step.
  eapply wp_mono; [apply release_bindings_spec; [done|]| |done].
  { intros b Hb. by apply andb_true_iff in Hb as [Hb _]. }
  intros [] c1 (Hok1&Hb1&Hkeep). eapply wp_mono; [apply invalidate_entries_spec; [apply Hok1| |]| |done].
  - intros e He. apply andb_true_iff in He as [He Hr]. apply andb_true_iff in He as [Hv _]. split; [done|lia].
  - intros c'. wp_steps. intros Hc'. split_and!; [by split|done|done].
  - intros [] c2 (Hok2&Hbs&He2). split_and!; [by eapply cache_ok_trans|..].
    + intros k b Hk Hv Hsq. rewrite Hbs in Hk. destruct (Hb1 k b Hk) as [Hp _].
      rewrite Hv, Hsq, Z.eqb_refl in Hp. done.
    + intros k b Hk Hne. rewrite Hbs. apply Hkeep; [done|]. apply andb_false_iff. right. by apply Z.eqb_neq.
    + intros i e He Hv Hr. destruct (He2 i e He) as [Hq _]. rewrite Hv, Hr in Hq. simpl in Hq.
      by destruct (has_flag (e_flags e) ENTRY_FLAG_REUSABLE).
Qed.

(** ** Construction and reset *)

Lemma lookup_link_entries n i :
  (i < Z.to_nat n)%nat ->
  link_entries n !! i = Some (unallocated_entry <| e_reserved := if Z.of_nat i + 1 <? n then u32 (Z.of_nat i) +u32 1 else NO_ENTRY |>).
Proof.
  intros Hi. unfold link_entries. rewrite list_lookup_fmap.
  assert (range 0 n !! i = Some (Z.of_nat i)) as -> by (apply lookup_range; lia). done.
Qed.

Lemma lookup_link_bindings n i :
  (i < Z.to_nat n)%nat ->
  link_bindings n !! i = Some (unallocated_binding <| b_reserved := if Z.of_nat i + 1 <? n then u32 (Z.of_nat i) +u32 1 else NO_ENTRY |>).
Proof.
  intros Hi. unfold link_bindings. rewrite list_lookup_fmap.
  assert (range 0 n !! i = Some (Z.of_nat i)) as -> by (apply lookup_range; lia). done.
Qed.

Lemma length_link_entries n : length (link_entries n) = Z.to_nat n.
Proof. unfold link_entries. rewrite length_fmap, length_range. f_equal. lia. Qed.

Lemma length_link_bindings n : length (link_bindings n) = Z.to_nat n.
Proof. unfold link_bindings. rewrite length_fmap, length_range. f_equal. lia. Qed.

Lemma initial_link n i :
  0 < n <= U32_MAX -> (i < Z.to_nat n)%nat ->
  initial_links (Z.to_nat n) NO_ENTRY !! i =
    Some (if Z.of_nat i + 1 <? n then u32 (Z.of_nat i) +u32 1 else NO_ENTRY).
Proof.
  intros Hn Hi. rewrite lookup_initial_links by done. rewrite (u32_small (Z.of_nat i)) by lia.
  destruct (Nat.ltb_spec (S i) (Z.to_nat n)), (Z.ltb_spec (Z.of_nat i + 1) n); try lia; [|done].
  rewrite u32_small by lia. f_equal. lia.
Qed.

(** A cache without entries over an arena without allocated blocks. *)
Lemma fresh_store btc n m a :
  1 <= btc <= 256 -> 0 < n <= U32_MAX -> 0 < m <= U32_MAX -> kv_wf a ->
  (forall i b, blocks a !! i = Some b -> allocated b = false) ->
  store_wf btc (link_entries n) (link_bindings m) a 0 0.
Proof.
  intros Hb Hn Hm Ha Hfree.
  assert (forall i e, link_entries n !! i = Some e -> (i < Z.to_nat n)%nat /\ e_valid e = false) as He.
  { intros i e Hi. pose proof (lookup_lt_Some _ _ _ Hi) as Hl. rewrite length_link_entries in Hl.
    rewrite lookup_link_entries in Hi by done. by simplify_eq. }
  assert (forall i b, link_bindings m !! i = Some b -> (i < Z.to_nat m)%nat /\ b_valid b = false) as Hbs.
  { intros i e Hi. pose proof (lookup_lt_Some _ _ _ Hi) as Hl. rewrite length_link_bindings in Hl.
    rewrite lookup_link_bindings in Hi by done. by simplify_eq. }
  split; rewrite ?length_link_entries, ?length_link_bindings; [done|lia|lia|done|..].
  - exists (seq 0 (Z.to_nat n)). eapply free_list_frame; [apply (free_list_initial (Z.to_nat n) NO_ENTRY (free_entry (link_entries n)))|..].
    + lia.
    + intros i. split; [intros (e&Hi&_); by apply (He i e)|]. intros Hi.
      rewrite <- length_link_entries in Hi. apply lookup_lt_is_Some_2 in Hi as [e Hi]. exists e. split; [done|]. by apply (He i e).
    + intros i (e&Hi&_). destruct (He i e Hi) as [Hl _]. rewrite initial_link, lookup_link_entries by done. done.
    + done.
  - exists (seq 0 (Z.to_nat m)). eapply free_list_frame; [apply (free_list_initial (Z.to_nat m) NO_ENTRY (free_binding (link_bindings m)))|..].
    + lia.
    + intros i. split; [intros (e&Hi&_); by apply (Hbs i e)|]. intros Hi.
      rewrite <- length_link_bindings in Hi. apply lookup_lt_is_Some_2 in Hi as [e Hi]. exists e. split; [done|]. by apply (Hbs i e).
    + intros i (e&Hi&_). destruct (Hbs i e Hi) as [Hl _]. rewrite initial_link, lookup_link_bindings by done. done.
    + done.
  - intros i e Hi Hv. destruct (He i e Hi) as [_ ?]. congruence.
  - intros i j e f Hi _ Hv. destruct (He i e Hi) as [_ ?]. congruence.
  - intros k b Hk Hv. destruct (Hbs k b Hk) as [_ ?]. congruence.
  - intros i b Hi Hal. rewrite (Hfree i b Hi) in Hal. done.
Qed.

Lemma reset_cache_spec c :
  cache_wf c -> wp PrefixCache.reset (fun _ c' => cache_ok c c' /\
    (forall i e, entries c' !! i = Some e -> e_valid e = false)) (fun _ _ => False) c.
Proof.
  intros Hwf. unfold PrefixCache.reset. wp_steps. apply wp_on_arena.
  eapply wp_mono; [apply reset_spec, (sw_arena _ _ _ _ _ _ Hwf)| |done].
  intros [] a' (Hkv&Hg&_&Hmk&_). wp_steps.
  pose proof (sw_entries _ _ _ _ _ _ Hwf) as He. pose proof (sw_bindings _ _ _ _ _ _ Hwf) as Hb.
  match goal with |- cache_ok _ ?s /\ _ => set (c' := s) end.
  assert (entries c' = link_entries (Z.of_nat (length (entries c)))) as E1 by reflexivity.
  assert (bindings c' = link_bindings (Z.of_nat (length (bindings c)))) as E2 by reflexivity.
  assert (block_token_count c' = block_token_count c) as E3 by reflexivity.
  assert (physical_block_count c' = physical_block_count c) as E4 by reflexivity.
  assert (arena c' = a') as E5 by reflexivity.
  assert (free_entry_head c' = 0) as E6 by reflexivity.
  assert (free_binding_head c' = 0) as E7 by reflexivity.
  clearbody c'. split; [split|].
  - unfold cache_wf. rewrite E1, E2, E3, E5, E6, E7. apply fresh_store; [apply (sw_btc _ _ _ _ _ _ Hwf)|done|done|done|].
    intros i b Hi. by rewrite (Hmk i b Hi).
  - unfold shape. rewrite E1, E2, E3, E4, E5, length_link_entries, length_link_bindings, Hg. by rewrite !Nat2Z.id.
  - rewrite E1. intros i e Hi. pose proof (lookup_lt_Some _ _ _ Hi) as Hl. rewrite length_link_entries in Hl.
    rewrite lookup_link_entries in Hi by done. by simplify_eq.
Qed.

Lemma new_cache_spec cfg a :
  0 <= pcfg_block_token_count cfg -> 0 <= pcfg_entry_count cfg <= U32_MAX ->
  0 <= pcfg_sequence_binding_count cfg <= U32_MAX -> kv_wf a ->
  (forall i b, blocks a !! i = Some b -> allocated b = false) ->
  wp (PrefixCache.new cfg a)
    (fun c _ => cache_wf c /\ block_token_count c = KvArena.block_token_count a /\ arena c = a /\
       length (entries c) = Z.to_nat (pcfg_entry_count cfg) /\
       length (bindings c) = Z.to_nat (pcfg_sequence_binding_count cfg))
    (fun err _ => err = InvalidArgument) tt.
Proof.
  intros Hb He Hbd Ha Hfree. unfold PrefixCache.new.
  match goal with |- wp (if ?g then _ else _) _ _ _ => destruct g eqn:Hg end; [by wp_steps|].
  match goal with |- wp (if ?g then _ else _) _ _ _ => destruct g eqn:Hg2 end; [by wp_steps|]. wp_steps.
  repeat (apply orb_false_iff in Hg as [Hg ?]). apply orb_false_iff in Hg2 as [_ Hg2].
  unfold PrefixCache.MAX_BLOCK_TOKENS in *.
  split_and!; [|cbn; lia|done|apply length_link_entries|apply length_link_bindings].
  unfold cache_wf. cbn -[link_entries link_bindings]. apply fresh_store; try done; lia.
Qed.
