(* ===== verification/PrefixCacheProps.v ===== *)
(** * The prefix cache: theorems

    Every public method keeps the stores consistent and returns without panicking,
    from [new] on; probing finds the longest cached chain of the prompt's own
    blocks; victims follow the eviction order; a refused operation is rolled back,
    a commit cannot fail, growing a sequence makes its block table readable, and
    releasing a sequence gives everything back. *)

From S2P Require Import Prelude FreeList KvArena PrefixCache PrefixCacheInv PrefixCacheSpecs PrefixCacheGrow.

(** ** Calls on the cache *)

Inductive cache_call :=
| CallProbe (seq : Z) (tokens : list Z)
| CallProbeTable (tokens : list Z) (capacity : Z)
| CallProbeSources (tokens : list Z) (capacity : Z)
| CallProbeResidency (tokens : list Z)
| CallResetLookahead
| CallProtect (tokens : list Z) (demand_weight : Z)
| CallTrim (max_resident : Z) (hard_protected : list Z)
| CallLookup (seq : Z) (tokens : list Z)
| CallReserve (seq : Z) (tokens : list Z)
| CallReserveSequence (seq : Z) (tokens : list Z)
| CallCommit (seq epoch : Z)
| CallCancel (seq epoch : Z)
| CallCommitPrompt (seq : Z) (tokens : list Z)
| CallEnsure (seq token_count : Z)
| CallTable (seq token_count : Z)
| CallSources (seq token_count : Z)
| CallResidency (seq token_count : Z)
| CallBind (source target token_count : Z)
| CallRelease (seq : Z)
| CallReset.

Definition drop_result {A} (m : PM A) : PM unit := let! _r := m in ret tt.

Definition cache_run (call : cache_call) : PM unit :=
  match call with
  | CallProbe seq tokens => drop_result (probe_prompt seq tokens)
  | CallProbeTable tokens capacity => drop_result (probe_physical_block_table tokens capacity)
  | CallProbeSources tokens capacity => drop_result (probe_reusable_prefix_prefetch_sources tokens capacity)
  | CallProbeResidency tokens => drop_result (probe_reusable_prefix_residency tokens)
  | CallResetLookahead => reset_lookahead_protection
  | CallProtect tokens w => drop_result (protect_prompt_lookahead tokens w)
  | CallTrim n hard => drop_result (trim_resident_blocks_by_reuse_score n hard)
  | CallLookup seq tokens => drop_result (lookup_prompt seq tokens)
  | CallReserve seq tokens => drop_result (reserve_prompt seq tokens)
  | CallReserveSequence seq tokens => drop_result (reserve_sequence_prompt seq tokens)
  | CallCommit seq epoch => commit_reservation seq epoch
  | CallCancel seq epoch => cancel_reservation seq epoch
  | CallCommitPrompt seq tokens => drop_result (commit_prompt seq tokens)
  | CallEnsure seq n => ensure_sequence_token_capacity seq n
  | CallTable seq n => drop_result (build_physical_block_table seq n)
  | CallSources seq n => drop_result (build_sequence_prefetch_sources seq n)
  | CallResidency seq n => drop_result (probe_sequence_residency seq n)
  | CallBind source target n => bind_committed_prefix_from_sequence source target n
  | CallRelease seq => release_sequence seq
  | CallReset => PrefixCache.reset
  end.

(** Prompts fit a [u32] length; a sequence grows at most to the last whole block
    below [u32::MAX]. *)
Definition cache_call_ok (call : cache_call) : Prop :=
  match call with
  | CallReserve _ tokens | CallReserveSequence _ tokens | CallCommitPrompt _ tokens =>
      Z.of_nat (length tokens) <= U32_MAX
  | CallEnsure _ n => 0 <= n <= U32_MAX - 256
  | CallTable _ n => 0 <= n <= U32_MAX
  | CallBind _ _ n => 0 <= n
  | _ => True
  end.

Lemma safe_drop {A} (m : PM A) c : safe m c -> safe (drop_result m) c.
Proof. intros Hm. unfold safe, drop_result. wp_step. eapply wp_mono; [exact Hm| |done]. intros. by wp_steps. Qed.

Lemma safe_mono {A} (m : PM A) c Q R :
  wp m Q R c -> (forall a c', Q a c' -> cache_ok c c') -> (forall e c', R e c' -> cache_ok c c') -> safe m c.
Proof. intros Hm HQ HR. by eapply wp_mono. Qed.

Lemma reserve_safe c seq tokens allow :
  cache_wf c -> Z.of_nat (length tokens) <= U32_MAX -> safe (reserve_prompt_internal seq tokens allow) c.
Proof.
  intros Hwf Hl. eapply safe_mono; [by apply reserve_internal_spec|by intros ?? [? _]|].
  intros e c' [(_&->&_)|[? _]]; [by apply cache_ok_refl|done].
Qed.

Lemma commit_safe c seq op : cache_wf c -> safe (commit_reservation seq op) c.
Proof.
  intros Hwf. destruct (decide (seq = 0 \/ op = 0)) as [H0|Hn].
  - unfold safe, commit_reservation. destruct (_ || _) eqn:Hg; [wp_steps; by apply cache_ok_refl|].
    apply orb_false_iff in Hg as [? ?]. lia.
  - eapply safe_mono; [by apply commit_spec; [done|naive_solver..]|by intros ?? [? _]|done].
Qed.

Lemma cancel_safe c seq op : cache_wf c -> safe (cancel_reservation seq op) c.
Proof.
  intros Hwf. unfold safe, cancel_reservation. destruct (_ || _); [wp_steps; by apply cache_ok_refl|].
  eapply wp_mono; [by apply rollback_epoch_spec|by intros ?? [? _]|done].
Qed.

Lemma commit_prompt_safe c seq tokens :
  cache_wf c -> Z.of_nat (length tokens) <= U32_MAX -> safe (commit_prompt seq tokens) c.
Proof.
  intros Hwf Hl. unfold safe, commit_prompt. cbv zeta. wp_step.
  eapply wp_mono; [by apply (reserve_safe c seq tokens true)| |done]. intros r c1 Hok1. wp_steps.
  eapply wp_mono; [apply commit_safe, Hok1| |].
  - intros [] c2 Hok2. wp_steps. exact (cache_ok_trans _ _ _ Hok1 Hok2).
  - intros err c2 Hok2. wp_steps. eapply wp_mono; [apply cancel_safe, Hok2| |];
      intros ? c3 Hok3; wp_steps; exact (cache_ok_trans _ _ _ Hok1 (cache_ok_trans _ _ _ Hok2 Hok3)).
Qed.

Lemma cache_run_safe call c : cache_wf c -> cache_call_ok call -> safe (cache_run call) c.
Proof.
  intros Hwf Hc. destruct call; simpl in *; try apply safe_drop.
  - eapply safe_mono; [by apply probe_prompt_spec|intros ?? [? _]; by apply quiet_ok|].
    intros e c' (->&_). by apply cache_ok_refl.
  - eapply safe_mono; [by apply probe_table_spec|..]; intros ?? [? _]; by apply quiet_ok.
  - by apply quiet_safe, probe_sources_spec.
  - by apply quiet_safe, probe_residency_spec.
  - by eapply safe_mono; [by apply reset_lookahead_safe|..].
  - by apply protect_safe.
  - eapply safe_mono; [by apply trim_by_reuse_spec|..]; by intros ?? [? _].
  - eapply safe_mono; [by apply lookup_prompt_spec|..]; by intros ?? [? _].
  - by apply reserve_safe.
  - by apply reserve_safe.
  - by apply commit_safe.
  - by apply cancel_safe.
  - by apply commit_prompt_safe.
  - eapply safe_mono; [by apply ensure_spec|by intros ?? [? _]|].
    intros e c' [(_&->&_)|[? _]]; [by apply cache_ok_refl|done].
  - destruct (decide (seq = 0 \/ token_count = 0)) as [H0|Hn].
    + unfold safe, build_physical_block_table. destruct (_ || _) eqn:Hg; [wp_steps; by apply cache_ok_refl|].
      apply orb_false_iff in Hg as [? ?]. lia.
    + eapply safe_mono; [apply build_table_spec; [done|naive_solver|lia]|..]; intros ?? [-> _]; by apply cache_ok_refl.
  - by apply quiet_safe, sequence_sources_spec.
  - eapply safe_mono; [by apply sequence_residency_spec|..]; intros ?? ->; by apply cache_ok_refl.
  - eapply safe_mono; [by apply bind_spec|by intros ?? [? _]|].
    intros e c' [(_&->&_)|[? _]]; [by apply cache_ok_refl|done].
  - destruct (decide (seq = 0)) as [->|Hn].
    + unfold safe, release_sequence. wp_steps. by apply cache_ok_refl.
    + eapply safe_mono; [by apply release_sequence_spec|by intros ?? [? _]|done].
  - eapply safe_mono; [by apply reset_cache_spec|by intros ?? [? _]|done].
Qed.

Definition cache_step (c c' : PrefixCache) : Prop :=
  exists call, cache_call_ok call /\
    (cache_run call c = Ret tt c' \/ exists e, cache_run call c = Fails e c').

Lemma cache_step_wf c c' : cache_wf c -> cache_step c c' -> cache_wf c'.
Proof.
  intros Hwf (call&Hc&Hs). pose proof (cache_run_safe call c Hwf Hc) as Hw. unfold safe, wp in Hw.
  destruct Hs as [Hs|[e Hs]]; rewrite Hs in Hw; apply Hw.
Qed.

Lemma cache_reachable_wf cfg a c0 c :
  0 <= pcfg_block_token_count cfg -> 0 <= pcfg_entry_count cfg <= U32_MAX ->
  0 <= pcfg_sequence_binding_count cfg <= U32_MAX -> kv_wf a ->
  (forall i b, blocks a !! i = Some b -> allocated b = false) ->
  PrefixCache.new cfg a tt = Ret c0 tt -> rtc cache_step c0 c -> cache_wf c.
Proof.
  intros H1 H2 H3 Ha Hfree Hnew Hs.
  pose proof (wp_ret_inv _ _ _ _ _ _ (new_cache_spec cfg a H1 H2 H3 Ha Hfree) Hnew) as (Hwf&_). clear Hnew.
  induction Hs; [done|]. by eapply IHHs, cache_step_wf.
Qed.

(** ** Sample caches for the witnesses *)

Definition small_arena : KvArena.KvArena :=
  mkKvArena 4 2 4 1 1 4 2 16 0 4096 0
    [mkKvBlock 0 2 0 0 0 4096 0; mkKvBlock 0 2 0 0 0 4112 0;
     mkKvBlock 0 2 0 0 0 4128 0; mkKvBlock 0 2 0 0 0 4144 0]
    0 0 0 0 0 0 0 0.

Definition small_config : PrefixCacheConfig := mkPrefixCacheConfig 2 3 4 4.

Definition fresh_cache : PrefixCache :=
  mkPrefixCache 2 4 (link_entries 3) (link_bindings 4) small_arena
    0 0 0 0 0 0 0 0 0 0 0 0 0 0 0 0 0 0 0 0 0 0.

(** The state a call leaves. *)
Definition after {A} (m : PM A) (c : PrefixCache) : PrefixCache :=
  match m c with Ret _ c' => c' | Fails _ c' => c' | _ => c end.

(** A prompt of two full blocks and one more token, committed by sequence 7. *)
Definition warm_cache : PrefixCache := after (commit_prompt 7 [10; 11; 12; 13; 14]) fresh_cache.

Lemma small_arena_wf : kv_wf small_arena.
Proof.
  split; simpl; try lia. repeat constructor; simpl; try lia; auto.
Qed.

Lemma small_arena_free i b : blocks small_arena !! i = Some b -> allocated b = false.
Proof. intros Hb. repeat (destruct i as [|i]; [by injection Hb as <-|]). done. Qed.

Lemma fresh_cache_wf : cache_wf fresh_cache.
Proof.
  apply (cache_reachable_wf small_config small_arena fresh_cache); simpl; try lia; try done.
  - apply small_arena_wf.
  - apply small_arena_free.
Qed.

Lemma warm_cache_step : cache_step fresh_cache warm_cache.
Proof.
  exists (CallCommitPrompt 7 [10; 11; 12; 13; 14]). split; [simpl; lia|]. left. vm_compute. reflexivity.
Qed.

Lemma warm_cache_wf : cache_wf warm_cache.
Proof. eapply cache_step_wf; [apply fresh_cache_wf|apply warm_cache_step]. Qed.

(** ** Properties *)

(** C1. The stores of the cache stay consistent whatever its callers do.  In every
    cache reached from [new] over an arena without allocated blocks, by any
    sequence of public calls, succeeding or failing: a valid entry owns an
    allocated arena block whose reference count is the entry's and both are the
    number of bindings to the entry; no two entries share a block; every allocated
    block belongs to an entry; a binding references a valid entry and agrees with it
    on block and token range; and the next call returns (it neither panics nor
    loops). *)
Theorem prefix_cache_invariant cfg a c0 c call :
  0 <= pcfg_block_token_count cfg -> 0 <= pcfg_entry_count cfg <= U32_MAX ->
  0 <= pcfg_sequence_binding_count cfg <= U32_MAX -> kv_wf a ->
  (forall i b, blocks a !! i = Some b -> allocated b = false) ->
  PrefixCache.new cfg a tt = Ret c0 tt -> rtc cache_step c0 c -> cache_call_ok call ->
  (forall i e, entries c !! i = Some e -> e_valid e = true ->
     exists blk, blocks (arena c) !! Z.to_nat (e_physical_block_index e) = Some blk /\ allocated blk = true /\
       block_reference_count blk = e_reference_count e /\ e_reference_count e = countb (bound_to i) (bindings c)) /\
  (forall i j e f, entries c !! i = Some e -> entries c !! j = Some f -> e_valid e = true -> e_valid f = true ->
     e_physical_block_index e = e_physical_block_index f -> i = j) /\
  (forall i blk, blocks (arena c) !! i = Some blk -> allocated blk = true ->
     exists j e, entries c !! j = Some e /\ e_valid e = true /\ e_physical_block_index e = Z.of_nat i) /\
  (forall k b, bindings c !! k = Some b -> b_valid b = true ->
     exists e, entries c !! Z.to_nat (b_entry_index b) = Some e /\ e_valid e = true /\ binding_of b e) /\
  ((exists c', cache_run call c = Ret tt c') \/ (exists e c', cache_run call c = Fails e c')).
Proof.
  intros H1 H2 H3 Ha Hfree Hnew Hs Hc.
  pose proof (cache_reachable_wf cfg a c0 c H1 H2 H3 Ha Hfree Hnew Hs) as Hwf.
  split_and!.
  - intros i e He Hv. destruct (sw_entry _ _ _ _ _ _ Hwf i e He Hv) as [_ (blk&B1&B2&B3) P3 _ _]. by exists blk.
  - apply (sw_distinct _ _ _ _ _ _ Hwf).
  - apply (sw_owned _ _ _ _ _ _ Hwf).
  - intros k b Hb Hv. destruct (sw_binding _ _ _ _ _ _ Hwf k b Hb Hv) as (_&e&?). by exists e.
  - destruct (wp_elim _ _ _ _ (cache_run_safe call c Hwf Hc)) as [([]&c'&Hr&_)|(e&c'&Hr&_)]; eauto.
Qed.

Lemma prefix_cache_invariant_witness :
  (option_map b_valid (bindings warm_cache !! 0%nat) = Some true) /\
  forall k b, bindings warm_cache !! k = Some b -> b_valid b = true ->
    exists e, entries warm_cache !! Z.to_nat (b_entry_index b) = Some e /\ e_valid e = true /\ binding_of b e.
Proof.
  split; [vm_compute; reflexivity|].
  apply (prefix_cache_invariant small_config small_arena fresh_cache warm_cache (CallRelease 7));
    [simpl; lia|simpl; lia|simpl; lia|apply small_arena_wf|apply small_arena_free|reflexivity|
     apply rtc_once, warm_cache_step|exact I].
Defined.



(** The physical block table of a prompt's cached prefix is exact: it lists, in
    order, the blocks of reusable entries holding the first [n] blocks of the prompt,
    [n] is as large as the reusable limit and the cache allow, and a table that does
    not fit is refused only when more than [capacity] blocks are reusable. *)
Theorem prefix_probe_table_exact c tokens capacity :
  cache_wf c -> 0 < Z.of_nat (length tokens) <= U32_MAX ->
  (exists r c' n, probe_physical_block_table tokens capacity c = Ret r c' /\ quiet c c' /\
     pb_matched_token_count r = Z.of_nat n * block_token_count c /\
     prefix_table c tokens n (pb_physical_block_indices r) /\
     walk_ends c tokens (maximum_reusable_token_count c (Z.of_nat (length tokens))) n) \/
  (exists c' n, probe_physical_block_table tokens capacity c = Fails CapacityExceeded c' /\ quiet c c' /\
     capacity <= Z.of_nat n /\ block_reusable c tokens n).
Proof.
  intros Hwf Hl. destruct (wp_elim _ _ _ _ (probe_table_spec c tokens capacity Hwf))
    as [(r&c'&Hr&Hq&n&H1&H2&H3)|(e&c'&Hr&Hq&[[_ ->]|[-> (n&Hn)]])].
  - left. exists r, c', n. by rewrite u32_small in H3 by lia.
  - simpl in Hl. lia.
  - right. by exists c', n.
Qed.

Lemma prefix_probe_table_exact_witness :
  exists r c', probe_physical_block_table [10; 11; 12; 13; 20] 4 warm_cache = Ret r c' /\
    pb_physical_block_indices r = [0; 1] /\ exists n, prefix_table warm_cache [10; 11; 12; 13; 20] n [0; 1].
Proof.
  assert (match probe_physical_block_table [10; 11; 12; 13; 20] 4 warm_cache with
    | Ret r _ => pb_physical_block_indices r | _ => [] end = [0; 1]) as Hv by (vm_compute; reflexivity).
  destruct (prefix_probe_table_exact warm_cache [10; 11; 12; 13; 20] 4 warm_cache_wf ltac:(simpl; lia))
    as [(r&c'&n&Hr&_&_&Ht&_)|(c'&n&Hr&_)]; rewrite Hr in Hv; [|discriminate Hv].
  exists r, c'. split; [exact Hr|]. split; [exact Hv|]. exists n. rewrite <- Hv. exact Ht.
Defined.

(** Victims follow the eviction order: a free entry slot if there is one,
    otherwise an unpinned committed entry that no other unpinned committed entry
    precedes (entries without lookahead protection first, by age; then protected
    ones by priority and age); there is no victim only when every slot holds a
    pinned or pending entry. *)
Theorem prefix_victim_policy c :
  cache_wf c ->
  exists o c', select_victim c = Ret o c' /\ entries c' = entries c /\ bindings c' = bindings c /\
    match o with
    | Some v => exists e, entries c !! Z.to_nat v = Some e /\
        (e_valid e = false \/
         (is_evictable e = true /\ (forall i f, entries c !! i = Some f -> e_valid f = true) /\
          forall i f, entries c !! i = Some f -> is_evictable f = true -> evicts_before c e f))
    | None => forall i f, entries c !! i = Some f -> e_valid f = true /\ is_evictable f = false
    end.
Proof.
  intros Hwf. destruct (wp_elim _ _ _ _ (choose_victim_spec c Hwf)) as [(o&c'&Hr&_&He&Hb&_&Hc)|(e&c'&_&[])].
  exists o, c'. split_and!; [done..|]. destruct o as [v|]; [|done]. destruct Hc as [(Hv&e&Hev&Hcase) Hbest].
  exists e. split; [done|]. destruct (decide (free_entry_head c = NO_ENTRY)) as [Hno|Hno].
  - right. destruct (Hbest Hno) as (e'&He'&Hevict&Hmin). assert (e' = e) as -> by congruence. split_and!; [done| |done].
    intros i f Hf. destruct (e_valid f) eqn:Hfv; [done|]. exfalso.
    destruct (sw_free_entries _ _ _ _ _ _ Hwf) as [fe Hfe]. rewrite Hno in Hfe.
    eapply (free_list_empty _ _ _ _ Hfe); [|by exists f].
    intros j (x&Hx&_). apply lookup_lt_Some in Hx. pose proof (sw_entries _ _ _ _ _ _ Hwf). unfold NO_ENTRY. lia.
  - left. destruct Hcase as [[? _]|[Hvalid _]]; [done|].
    destruct (sw_free_entries _ _ _ _ _ _ Hwf) as [fe Hfe].
    destruct (free_list_head _ _ _ _ _ Hfe Hno) as (i&_&_&Hi&(x&Hx&Hxv)&_).
    exfalso. revert Hr. unfold select_victim, bind, gets, id. destruct (Z.eqb_spec (free_entry_head c) NO_ENTRY) as [|_]; [done|].
    cbn [negb]. rewrite Hi, Nat2Z.id, Hx, Hxv. intros [= <- _]. rewrite Nat2Z.id in Hev. congruence.
Qed.

(** Then sequence 7 is released; then three committed blocks of released sequences
    fill the cache. *)
Definition released_cache : PrefixCache := after (release_sequence 7) warm_cache.

Definition idle_cache : PrefixCache := after (release_sequence 9) (after (commit_prompt 9 [20; 21]) released_cache).

Lemma released_cache_wf : cache_wf released_cache.
Proof.
  apply (cache_step_wf warm_cache); [apply warm_cache_wf|]. exists (CallRelease 7). split; [exact I|].
  left. vm_compute. reflexivity.
Qed.

Lemma idle_cache_wf : cache_wf idle_cache.
Proof.
  apply (cache_step_wf (after (commit_prompt 9 [20; 21]) released_cache)).
  - apply (cache_step_wf released_cache); [apply released_cache_wf|].
    exists (CallCommitPrompt 9 [20; 21]). split; [simpl; lia|]. left. vm_compute. reflexivity.
  - exists (CallRelease 9). split; [exact I|]. left. vm_compute. reflexivity.
Qed.

Lemma prefix_victim_policy_witness :
  free_entry_head idle_cache = NO_ENTRY /\
  exists v c' e, select_victim idle_cache = Ret (Some v) c' /\ v = 0 /\ entries idle_cache !! 0%nat = Some e /\
    is_evictable e = true.
Proof.
  split; [vm_compute; reflexivity|].
  assert (match select_victim idle_cache with Ret (Some v) _ => v | _ => 99 end = 0) as Hv by (vm_compute; reflexivity).
  destruct (prefix_victim_policy idle_cache idle_cache_wf) as (o&c'&Hr&_&_&Ho).
  rewrite Hr in Hv. destruct o as [v|]; [|discriminate Hv]. destruct Ho as (e&He&Hcase).
  exists v, c', e. rewrite Hv in *. split; [exact Hr|]. split; [reflexivity|]. split; [exact He|].
  destruct Hcase as [Hf|[H _]]; [|exact H].
  assert (e_valid <$> entries idle_cache !! 0%nat = Some true) as Hv0 by (vm_compute; reflexivity).
  change (Z.to_nat 0) with 0%nat in He. rewrite He in Hv0. injection Hv0 as Hv0. congruence.
Defined.

(** Where the sequence is bound already, its bindings cover the prompt's blocks. *)
Definition holds_enough (seq : Z) (tokens : list Z) (c : PrefixCache) : Prop :=
  forall m count p, held c seq c m = Some (count, p) -> block_tokens c tokens m <= count.

Lemma unbound_holds_enough seq tokens c : unbound seq c -> holds_enough seq tokens c.
Proof. intros Hu m count p Hh. by rewrite held_unbound in Hh. Qed.

(** A sequence bound to whole blocks only, as after the commit of a chunk that ends at a
    block boundary, covers the blocks of any prompt. *)
Lemma whole_holds_enough seq tokens c :
  (forall k b, bindings c !! k = Some b -> b_valid b = true -> b_sequence_id b = seq -> b_token_count b = block_token_count c) ->
  holds_enough seq tokens c.
Proof.
  intros Hw m count p Hh. unfold held in Hh. destruct (find_binding_at_token_offset c seq _) as [k|] eqn:Hf; [|done].
  destruct (find_binding_at_Some _ _ _ _ Hf) as (_&b&Hb&Hv&Hs&_). rewrite Hb in Hh. injection Hh as <- _.
  rewrite (Hw _ b Hb Hv Hs). unfold block_tokens. lia.
Qed.

(** What is held of a block, read as a binding. *)
Lemma held_binding c seq c' m count p : held c seq c' m = Some (count, p) ->
  exists k b, block_binding seq c' (block_token_count c) m k b /\ b_token_count b = count /\ b_physical_block_index b = p.
Proof.
  unfold held, block_binding. destruct (find_binding_at_token_offset c' seq _) as [k|]; [|done].
  destruct (bindings c' !! Z.to_nat k) as [b|] eqn:Hb; [|done]. intros [= <- <-]. by exists k, b.
Qed.

(** The table read back after a reservation. *)
Lemma reserved_table c seq tokens r c' :
  cache_wf c -> cache_ok c c' -> seq <> 0 -> 0 < Z.of_nat (length tokens) <= U32_MAX -> reserved c seq tokens r c' ->
  (holds_enough seq tokens c -> build_physical_block_table seq (Z.of_nat (length tokens)) c' = Ret (rs_physical_block_indices r) c') /\
  (~ holds_enough seq tokens c -> build_physical_block_table seq (Z.of_nat (length tokens)) c' = Fails NotFound c').
Proof.
  intros Hwf Hok Hs Hl (n&Hn&_&_&_&_&Hlen&_&Hread&_).
  destruct (shape_fields _ _ (proj2 Hok)) as (Hbtc&_). pose proof (sw_btc _ _ _ _ _ _ Hwf) as Hb.
  assert (forall m, (m < n)%nat -> exists k b, block_binding seq c' (block_token_count c) m k b /\
    b_token_count b = kept_tokens c seq tokens m /\ rs_physical_block_indices r !! m = Some (b_physical_block_index b)) as Hbb.
  { intros m Hm. destruct (Hread m Hm) as (p&Hp&Hh). destruct (held_binding _ _ _ _ _ _ Hh) as (k&b&Hbm&Hc&<-). by exists k, b. }
  assert (ceil_block_count c' = ceil_block_count c) as Hceil by (unfold ceil_block_count; by rewrite Hbtc).
  pose proof (build_table_spec seq (Z.of_nat (length tokens)) c' (proj1 Hok) Hs Hl) as Hw. rewrite Hbtc, Hceil in Hw.
  destruct (ceil_bounds c (Z.of_nat (length tokens)) ltac:(lia) ltac:(lia)) as [_ Hcov].
  destruct (wp_elim _ _ _ _ Hw) as [(table&c2&Hr&->&Hlt&Htab)|(e&c2&Hr&->&->&m&Hm&Hnot)]; rewrite Hr; split; intros He; try done.
  - f_equal. apply list_eq. intros m. destruct (table !! m) as [p|] eqn:Hp.
    + pose proof (lookup_lt_Some _ _ _ Hp). destruct (Htab m p Hp) as (k&b&[Hf Hk]&_&<-).
      destruct (Hbb m ltac:(lia)) as (k'&b'&[Hf' Hk']&_&->). congruence.
    + apply lookup_ge_None in Hp. symmetry. apply lookup_ge_None. lia.
  - exfalso. apply He. intros m count p Hh. destruct (decide (m < n)%nat) as [Hm|Hm]; [|unfold block_tokens; apply held_binding in Hh as (k&b&[Hf Hk]&<-&_);
      destruct (find_binding_at_Some _ _ _ _ Hf) as (_&b'&Hb'&Hv&_); assert (b' = b) as -> by congruence;
      destruct (sw_binding _ _ _ _ _ _ Hwf _ b Hk Hv) as (_&e&He'&Hve&_&_&Hct&_); pose proof (eo_tokens _ _ _ _ _ (sw_entry _ _ _ _ _ _ Hwf _ e He' Hve)); nia].
    destruct (lookup_lt_is_Some_2 table m ltac:(lia)) as [q Hq]. destruct (Htab m q Hq) as (k&b&[Hf Hk]&Hreq&_).
    destruct (Hbb m Hm) as (k'&b'&[Hf' Hk']&Hc&_). assert (b' = b) as -> by congruence. unfold kept_tokens in Hc. rewrite Hh in Hc. cbn in Hc.
    unfold required in Hreq. unfold block_tokens. lia.
  - exfalso. apply Hnot. destruct (Hbb m ltac:(lia)) as (k&b&Hbm&Hc&_). exists k, b. split; [done|]. rewrite Hc.
    unfold kept_tokens. change (required (Z.of_nat (length tokens)) (block_token_count c) m) with (block_tokens c tokens m).
    destruct (held c seq c m) as [[count p]|] eqn:Hh; cbn; [by apply (He m count p)|lia].
Qed.

(** C33. Reserving a prompt, for any sequence, either succeeds or fails with
    [CapacityExceeded], and then no binding of the sequence from this operation and no
    unreferenced entry it reserved remains.  On success there is one physical block per
    prompt block, all of them counted as cached or pending when the sequence held nothing;
    and [build_physical_block_table] returns exactly the reservation's blocks when the
    bindings the sequence already had are long enough for the prompt's blocks at their
    offsets (so when it had none, or whole blocks only), and [NotFound] when one of them is
    too short: the reservation takes a short block over without growing it. *)
Theorem prefix_reserve_table c seq tokens allow :
  cache_wf c -> seq <> 0 -> 0 < Z.of_nat (length tokens) <= U32_MAX ->
  (exists r c', reserve_prompt_internal seq tokens allow c = Ret r c' /\ cache_ok c c' /\
     (holds_enough seq tokens c -> build_physical_block_table seq (Z.of_nat (length tokens)) c' = Ret (rs_physical_block_indices r) c') /\
     (~ holds_enough seq tokens c -> build_physical_block_table seq (Z.of_nat (length tokens)) c' = Fails NotFound c') /\
     (unbound seq c -> rs_cached_physical_block_count r + rs_pending_physical_block_count r =
        Z.of_nat (length (rs_physical_block_indices r))) /\
     Z.of_nat (length (rs_physical_block_indices r)) = ceil_block_count c (Z.of_nat (length tokens)))
  \/ (exists c', reserve_prompt_internal seq tokens allow c = Fails CapacityExceeded c' /\ cache_ok c c' /\
        rolled_back c' seq (operation_epoch c +u64 1)).
Proof.
  intros Hwf Hs Hl.
  destruct (wp_elim _ _ _ _ (reserve_internal_spec c seq tokens allow Hwf (proj2 Hl))) as [(r&c'&Hr&Hok&Hres)|(e&c'&Hr&Hf)].
  - left. exists r, c'. destruct (reserved_table c seq tokens r c' Hwf Hok Hs Hl Hres) as [H1 H2].
    destruct Hres as (n&Hn&_&_&_&_&Hlen&_&_&Hfresh). split_and!; [done|done|done|done| |lia]. intros Hu. specialize (Hfresh Hu). lia.
  - right. destruct Hf as [(_&_&[->|?])|(Hok&Hrb&<-)]; [simpl in Hl; lia|done|]. by exists c'.
Qed.

Lemma unbound_check seq c :
  forallb (fun b => negb (b_valid b && (b_sequence_id b =? seq))) (bindings c) = true -> unbound seq c.
Proof.
  unfold unbound. generalize (bindings c). induction l as [|x l IH]; intros Hl [|k] b Hb Hv; simplify_eq/=.
  - apply andb_true_iff in Hl as [Hl _]. rewrite Hv in Hl. simpl in Hl. lia.
  - apply andb_true_iff in Hl as [_ Hl]. by eapply IH.
Qed.

Lemma prefix_reserve_table_witness :
  exists r c', reserve_prompt_internal 8 [10; 11; 12; 13] true released_cache = Ret r c' /\
    build_physical_block_table 8 4 c' = Ret (rs_physical_block_indices r) c' /\
    rs_cached_physical_block_count r + rs_pending_physical_block_count r =
      Z.of_nat (length (rs_physical_block_indices r)).
Proof.
  assert (unbound 8 released_cache) as Hu by (apply unbound_check; vm_compute; reflexivity).
  assert (match reserve_prompt_internal 8 [10; 11; 12; 13] true released_cache with
    | Ret _ _ => true | _ => false end = true) as Hv by (vm_compute; reflexivity).
  destruct (prefix_reserve_table released_cache 8 [10; 11; 12; 13] true released_cache_wf ltac:(done) ltac:(simpl; lia))
    as [(r&c'&Hr&_&Ht&_&Hsum&_)|(c'&Hr&_)]; rewrite Hr in Hv; [|discriminate Hv].
  exists r, c'. split; [exact Hr|]. split; [apply Ht, unbound_holds_enough, Hu|exact (Hsum Hu)].
Defined.

(** A short last block stays short: after the commit of three tokens in blocks of two, a
    reservation of four succeeds but its block table cannot be read. *)
Lemma short_block_not_grown :
  match commit_prompt 7 [10; 11; 12] fresh_cache with
  | Ret _ c => match reserve_prompt 7 [10; 11; 12; 13] c with
               | Ret r c' => bool_decide (rs_physical_block_indices r = [0; 1]) &&
                   match build_physical_block_table 7 4 c' with Fails NotFound _ => true | _ => false end
               | _ => false
               end
  | _ => false
  end = true.
Proof. vm_compute. reflexivity. Qed.

(** A commit cannot fail: on a consistent cache it marks exactly the pending
    entries of the epoch as committed and leaves every other entry as it was; a
    committed full block that was not reserved as live-only is offered for reuse from
    then on. *)
Theorem prefix_commit_total c seq op :
  cache_wf c -> seq <> 0 -> op <> 0 ->
  exists c', commit_reservation seq op c = Ret tt c' /\ cache_ok c c' /\
    forall i e, entries c !! i = Some e -> exists e', entries c' !! i = Some e' /\
      (commits op e = false -> e' = e) /\
      (commits op e = true -> e_pending e' = false /\ e_committed_epoch e' = op /\
         (has_flag (e_flags e) ENTRY_FLAG_LIVE_ONLY = false -> e_token_count e = block_token_count c ->
            entry_is_reusable c' e' = true)).
Proof.
  intros Hwf Hs Ho. destruct (wp_elim _ _ _ _ (commit_spec c seq op Hwf Hs Ho)) as [([]&c'&Hr&Hok&_&He)|(e&c'&_&[])].
  exists c'. split_and!; [done|done|]. intros i e Hi. eexists. split; [by apply He|].
  destruct (shape_fields _ _ (proj2 Hok)) as (Hbtc&_).
  destruct (commits op e) eqn:Hc; [|done]. split; [done|]. intros _. split_and!; [apply committed_not_pending|done|].
  intros Hl Ht. replace (entry_is_reusable c') with (entry_is_reusable c) by (unfold entry_is_reusable; by rewrite Hbtc).
  apply committed_reusable; [|done|done]. unfold commits in Hc. by destruct (e_valid e).
Qed.

Lemma prefix_commit_total_witness :
  exists c', commit_reservation 8 4 (after (reserve_prompt 8 [30; 31]) released_cache) = Ret tt c' /\
    cache_wf (after (reserve_prompt 8 [30; 31]) released_cache).
Proof.
  assert (cache_wf (after (reserve_prompt 8 [30; 31]) released_cache)) as Hwf.
  { apply (cache_step_wf released_cache); [apply released_cache_wf|].
    exists (CallReserve 8 [30; 31]). split; [simpl; lia|]. left. vm_compute. reflexivity. }
  destruct (prefix_commit_total (after (reserve_prompt 8 [30; 31]) released_cache) 8 4 Hwf ltac:(done) ltac:(done)) as (c'&Hr&_).
  exists c'. split; [exact Hr|exact Hwf].
Defined.

(** Growing a sequence keeps its promise: when
    [ensure_sequence_token_capacity] succeeds, the block table of the requested
    length can be built, one block per started block of tokens; when it fails, what
    the operation reserved and bound is rolled back. *)
Theorem prefix_ensure_capacity c seq token_count :
  cache_wf c -> seq <> 0 -> 0 < token_count <= U32_MAX - 256 ->
  (exists c' table, ensure_sequence_token_capacity seq token_count c = Ret tt c' /\ cache_ok c c' /\
     build_physical_block_table seq token_count c' = Ret table c' /\
     Z.of_nat (length table) = ceil_block_count c token_count) \/
  (exists e c', ensure_sequence_token_capacity seq token_count c = Fails e c' /\ cache_ok c c' /\
     rolled_back c' seq (operation_epoch c +u64 1)).
Proof.
  intros Hwf Hs Ht. destruct (wp_elim _ _ _ _ (ensure_spec c seq token_count Hwf ltac:(lia))) as [([]&c'&Hr&Hok&Hcov)|(e&c'&Hr&Hf)].
  - left. destruct (shape_fields _ _ (proj2 Hok)) as (Hbtc&_).
    assert (ceil_block_count c' = ceil_block_count c) as Hceil by (unfold ceil_block_count; by rewrite Hbtc).
    pose proof (build_table_spec seq token_count c' (proj1 Hok) Hs ltac:(lia)) as Hw. rewrite Hbtc, Hceil in Hw.
    destruct (wp_elim _ _ _ _ Hw) as [(table&c2&Hb&->&Hl&_)|(e&c2&_&_&_&m&Hm&Hnot)].
    + by exists c', table.
    + by destruct (Hnot (Hcov m Hm)).
  - right. destruct Hf as [(_&_&[?|?])|(Hok&Hrb&_)]; [done|lia|]. by exists e, c'.
Qed.

Lemma prefix_ensure_capacity_witness :
  exists c' table, ensure_sequence_token_capacity 7 6 warm_cache = Ret tt c' /\
    build_physical_block_table 7 6 c' = Ret table c' /\ Z.of_nat (length table) = 3.
Proof.
  assert (match ensure_sequence_token_capacity 7 6 warm_cache with Ret _ _ => true | _ => false end = true)
    as Hv by (vm_compute; reflexivity).
  destruct (prefix_ensure_capacity warm_cache 7 6 warm_cache_wf ltac:(done) ltac:(lia))
    as [(c'&table&Hr&_&Ht&Hl)|(e&c'&Hr&_)]; rewrite Hr in Hv; [|discriminate Hv].
  exists c', table. split; [exact Hr|]. split; [exact Ht|]. rewrite Hl. vm_compute. reflexivity.
Defined.


(** A successful lookup binds the sequence to every block it reports as
    matched; a lookup fails only for want of binding slots or because a matched
    block is not committed yet, and then leaves no binding of its epoch behind. *)
Theorem prefix_lookup_binds c seq tokens :
  cache_wf c -> seq <> 0 -> 0 < Z.of_nat (length tokens) <= U32_MAX ->
  (exists lk c', lookup_prompt seq tokens c = Ret lk c' /\ cache_ok c c' /\ probe_result c tokens seq lk /\
     forall m, Z.of_nat m < lk_matched_block_count lk -> bound_block c' (block_token_count c) tokens seq m) \/
  (exists e c', lookup_prompt seq tokens c = Fails e c' /\ (e = CapacityExceeded \/ e = InternalError) /\
     cache_ok c c' /\ rolled_back c' seq (operation_epoch c +u64 1)).
Proof.
  intros Hwf Hs Hl. destruct (wp_elim _ _ _ _ (lookup_prompt_spec c seq tokens Hwf)) as [(lk&c'&Hr&Hok&Hp&Hb)|(e&c'&Hr&Hok&Hf)].
  - left. by exists lk, c'.
  - destruct Hf as [(_&_&[->|?])|(_&Hrb&He)]; [simpl in Hl; lia|done|]. right. by exists e, c'.
Qed.

Lemma prefix_lookup_binds_witness :
  exists lk c', lookup_prompt 8 [10; 11; 12; 13; 20] released_cache = Ret lk c' /\
    bound_block c' 2 [10; 11; 12; 13; 20] 8 1.
Proof.
  assert (match lookup_prompt 8 [10; 11; 12; 13; 20] released_cache with
    | Ret lk _ => lk_matched_block_count lk | _ => 0 end = 2) as Hv by (vm_compute; reflexivity).
  destruct (prefix_lookup_binds released_cache 8 [10; 11; 12; 13; 20] released_cache_wf ltac:(done) ltac:(simpl; lia))
    as [(lk&c'&Hr&_&_&Hb)|(e&c'&Hr&_)]; rewrite Hr in Hv; [|discriminate Hv].
  exists lk, c'. split; [exact Hr|]. apply Hb. rewrite Hv. lia.
Defined.


(** Sharing a committed prefix works: after a successful
    [bind_committed_prefix_from_sequence] every token of the shared range is served
    to the target from the very block that serves it to the source; a failure leaves
    no binding of its epoch behind. *)
Theorem prefix_bind_shares c source target token_count :
  cache_wf c -> source <> 0 -> target <> 0 -> source <> target -> 0 < token_count ->
  (exists c', bind_committed_prefix_from_sequence source target token_count c = Ret tt c' /\ cache_ok c c' /\
     forall t, 0 <= t < token_count -> shares c' source target t) \/
  (exists e c', bind_committed_prefix_from_sequence source target token_count c = Fails e c' /\ cache_ok c c' /\
     rolled_back c' target (operation_epoch c +u64 1)).
Proof.
  intros Hwf H1 H2 H3 Ht. destruct (wp_elim _ _ _ _ (bind_spec c source target token_count Hwf ltac:(lia)))
    as [([]&c'&Hr&Hok&Hsh)|(e&c'&Hr&Hf)]; [left; by exists c'|].
  right. destruct Hf as [(_&_&?)|(Hok&Hrb&_)]; [lia|by exists e, c'].
Qed.

Lemma prefix_bind_shares_witness :
  exists c', bind_committed_prefix_from_sequence 7 8 2 warm_cache = Ret tt c' /\ shares c' 7 8 1.
Proof.
  assert (match bind_committed_prefix_from_sequence 7 8 2 warm_cache with
    | Ret _ _ => true | _ => false end = true) as Hv by (vm_compute; reflexivity).
  destruct (prefix_bind_shares warm_cache 7 8 2 warm_cache_wf ltac:(done) ltac:(done) ltac:(done) ltac:(lia))
    as [(c'&Hr&_&Hsh)|(e&c'&Hr&_)]; rewrite Hr in Hv; [|discriminate Hv].
  exists c'. split; [exact Hr|]. apply Hsh. lia.
Defined.

(** Releasing a sequence never fails and gives everything back: no binding of
    the sequence is left, every binding of other sequences is untouched, and every
    entry left without a reference is one that offers its block for reuse (live-only
    and pending ones are freed with their blocks). *)
Theorem prefix_release_returns c seq :
  cache_wf c -> seq <> 0 ->
  exists c', release_sequence seq c = Ret tt c' /\ cache_ok c c' /\ unbound seq c' /\
    (forall k b, bindings c !! k = Some b -> b_sequence_id b <> seq -> bindings c' !! k = Some b) /\
    (forall i e, entries c' !! i = Some e -> e_valid e = true -> e_reference_count e = 0 ->
       has_flag (e_flags e) ENTRY_FLAG_REUSABLE = true) /\
    (forall i e, entries c' !! i = Some e -> e_valid e = false -> countb (bound_to i) (bindings c') = 0).
Proof.
  intros Hwf Hs. destruct (wp_elim _ _ _ _ (release_sequence_spec c seq Hwf Hs)) as [([]&c'&Hr&Hok&H1&H2&H3)|(e&c'&_&[])].
  exists c'. split_and!; [done..|]. intros i e He Hv. by eapply unbound_invalid; [apply Hok|..].
Qed.

Lemma prefix_release_returns_witness :
  exists c', release_sequence 7 warm_cache = Ret tt c' /\ unbound 7 c'.
Proof.
  destruct (prefix_release_returns warm_cache 7 warm_cache_wf ltac:(done)) as (c'&Hr&_&Hu&_).
  exists c'. split; [exact Hr|exact Hu].
Defined.

(** Trimming residency by reuse score touches no entry and no binding, and
    either brings the resident count to the target or fails with only hard-protected
    blocks resident (or with a target beyond the arena). *)
Theorem prefix_trim_exact c target hard :
  cache_wf c -> target <= KvArena.physical_block_count (arena c) ->
  (exists n c', trim_resident_blocks_by_reuse_score target hard c = Ret n c' /\ cache_ok c c' /\
     entries c' = entries c /\ bindings c' = bindings c /\ resident_block_count (arena c') <= target) \/
  (exists c', trim_resident_blocks_by_reuse_score target hard c = Fails CapacityExceeded c' /\ cache_ok c c' /\
     entries c' = entries c /\ bindings c' = bindings c /\ target < resident_block_count (arena c') /\
     forall i, 0 <= i -> is_allocated (arena c') i = true -> is_resident (arena c') i = true -> i ∈ hard).
Proof.
  intros Hwf Ht. destruct (wp_elim _ _ _ _ (trim_by_reuse_spec c target hard Hwf)) as [(n&c'&Hr&?)|(e&c'&Hr&Hok&He&Hb&Hf)].
  - left. by exists n, c'.
  - right. destruct Hf as [[_ ?]|(->&Hc&Hh)]; [lia|]. by exists c'.
Qed.

Lemma prefix_trim_exact_witness :
  exists n c', trim_resident_blocks_by_reuse_score 1 [0] warm_cache = Ret n c' /\
    resident_block_count (arena c') <= 1.
Proof.
  assert (match trim_resident_blocks_by_reuse_score 1 [0] warm_cache with
    | Ret _ _ => true | _ => false end = true) as Hv by (vm_compute; reflexivity).
  destruct (prefix_trim_exact warm_cache 1 [0] warm_cache_wf ltac:(vm_compute; discriminate))
    as [(n&c'&Hr&_&_&_&Hc)|(c'&Hr&_)]; rewrite Hr in Hv; [|discriminate Hv].
  exists n, c'. split; [exact Hr|exact Hc].
Defined.

(** ** Hashing *)

Section chain.
Context (btc : Z) (tokens : list Z) (parent : Z).

(** The hash chain from an arbitrary parent. *)
Fixpoint chain_from (n : nat) : Z :=
  match n with O => parent | S m => hash_block (prompt_block btc tokens m) (chain_from m) end.

End chain.

Lemma hash_prompt_spec btc parent tokens :
  1 <= btc <= 256 -> Z.of_nat (length tokens) <= U32_MAX ->
  let n := Z.to_nat (div_ceil (Z.of_nat (length tokens)) btc) in
  exists h, hash_prompt_tokens btc parent tokens tt = Ret h tt /\
    ph_prompt_hash h = chain_from btc tokens parent n /\ ph_block_count h = Z.of_nat n /\
    ph_hashed_token_count h = Z.of_nat (length tokens).
Proof.
  intros Hb Hl n. set (len := Z.of_nat (length tokens)) in *.
  assert (0 <= div_ceil len btc /\ btc * (div_ceil len btc - 1) < len <= btc * div_ceil len btc \/ len = 0 /\ div_ceil len btc = 0) as Hc.
  { destruct (div_ceil_spec len btc) as [H|[H H']]; [lia|lia| |right; done]. left. nia. }
  enough (wp (hash_prompt_tokens btc parent tokens) (fun h _ => ph_prompt_hash h = chain_from btc tokens parent n /\
    ph_block_count h = Z.of_nat n /\ ph_hashed_token_count h = len) (fun _ _ => False) tt) as Hw.
  { destruct (wp_elim _ _ _ _ Hw) as [(h&[]&Hr&?)|(e&[]&_&[])]. by exists h. }
  unfold hash_prompt_tokens, PrefixCache.MAX_BLOCK_TOKENS.
  destruct (Z.eqb_spec btc 0); [lia|]. destruct (Z.ltb_spec 256 btc); [lia|]. cbn [orb]. wp_step. fold len.
  apply (wp_loop (fun (b : Z * Z * Z) (_ : unit) => exists m : nat, b.1.1 = chain_from btc tokens parent m /\
      b.1.2 = Z.min (Z.of_nat m * btc) len /\ b.2 = Z.of_nat m /\ (m <= n)%nat)
    (fun b _ => Z.to_nat (len - b.1.2))).
  - exists 0%nat. cbn. split_and!; [done|lia|done|lia].
  - cbn [fst snd]. lia.
  - intros [[h off] count] [] (m&Hh&Ho&Hm&Hmn). cbn [fst snd] in *. subst h off count.
    destruct (Z.leb_spec len (Z.min (Z.of_nat m * btc) len)); wp_steps.
    + cbn. rewrite u32_small by lia. assert (m = n) as ->; [|done]. subst n. nia.
    + rewrite (Z.min_l (Z.of_nat m * btc)) by lia. apply wp_slice; [lia|lia|]. wp_steps. cbn [fst snd].
      replace (Z.of_nat m * btc + Z.min (len - Z.of_nat m * btc) btc - Z.of_nat m * btc)
        with (Z.min (len - Z.of_nat m * btc) btc) by lia.
      assert (S m <= n)%nat as Hmn' by (subst n; nia).
      assert (Z.of_nat n <= len) as Hnl by (subst n; nia).
      split; [|lia]. exists (S m). rewrite u32_small by lia. split_and!; [|lia|lia|done].
      change (chain_from btc tokens parent (S m)) with (hash_block (prompt_block btc tokens m) (chain_from btc tokens parent m)).
      f_equal. unfold prompt_block. destruct (Z.le_gt_cases btc (len - Z.of_nat m * btc)).
      * by rewrite Z.min_r.
      * rewrite Z.min_l by lia. rewrite !take_ge; [done|..]; rewrite length_drop; lia.
Qed.

(** Blocks of a concatenation at a block boundary. *)
Lemma prompt_block_app btc xs ys k n :
  1 <= btc -> Z.of_nat (length xs) = Z.of_nat k * btc ->
  prompt_block btc (xs ++ ys) n = if (n <? k)%nat then prompt_block btc xs n else prompt_block btc ys (n - k).
Proof.
  intros Hb Hk. unfold prompt_block. destruct (Nat.ltb_spec n k).
  - rewrite drop_app_le by nia. rewrite take_app_le; [done|]. rewrite length_drop. nia.
  - rewrite drop_app_ge by nia. do 2 f_equal. nia.
Qed.

Lemma chain_from_app btc parent xs ys k j :
  1 <= btc -> Z.of_nat (length xs) = Z.of_nat k * btc ->
  chain_from btc (xs ++ ys) parent (k + j) = chain_from btc ys (chain_from btc xs parent k) j.
Proof.
  intros Hb Hk. induction j as [|j IH].
  - rewrite Nat.add_0_r. cbn [chain_from]. assert (forall i, (i <= k)%nat ->
      chain_from btc (xs ++ ys) parent i = chain_from btc xs parent i) as H; [|by apply H].
    induction i as [|i IH]; intros Hi; [done|]. cbn [chain_from]. rewrite IH by lia. f_equal.
    rewrite (prompt_block_app _ _ _ k) by done. by destruct (Nat.ltb_spec i k); [|lia].
  - rewrite Nat.add_succ_r. cbn [chain_from]. rewrite IH. f_equal. rewrite (prompt_block_app _ _ _ k) by done.
    destruct (Nat.ltb_spec (k + j) k); [lia|]. f_equal. lia.
Qed.

(** Prompt hashes are incremental at block boundaries: hashing a prompt is
    hashing its whole-block prefix and then the rest with the prefix's hash as
    parent, and block counts add up, so a cached prefix identifies the same chain
    whatever follows it. *)
Theorem prompt_hash_incremental btc parent xs ys k :
  1 <= btc <= 256 -> Z.of_nat (length xs) = Z.of_nat k * btc -> Z.of_nat (length (xs ++ ys)) <= U32_MAX ->
  exists h1 h2 h, hash_prompt_tokens btc parent xs tt = Ret h1 tt /\
    hash_prompt_tokens btc (ph_prompt_hash h1) ys tt = Ret h2 tt /\
    hash_prompt_tokens btc parent (xs ++ ys) tt = Ret h tt /\
    ph_prompt_hash h = ph_prompt_hash h2 /\ ph_block_count h = ph_block_count h1 + ph_block_count h2.
Proof.
  intros Hb Hk Hl. rewrite length_app in Hl.
  destruct (hash_prompt_spec btc parent xs Hb ltac:(lia)) as (h1&R1&P1&C1&_).
  destruct (hash_prompt_spec btc (ph_prompt_hash h1) ys Hb ltac:(lia)) as (h2&R2&P2&C2&_).
  destruct (hash_prompt_spec btc parent (xs ++ ys) Hb ltac:(rewrite length_app; lia)) as (h&R&P&C&_).
  exists h1, h2, h. split; [exact R1|]. split; [exact R2|]. split; [exact R|].
  assert (Z.to_nat (div_ceil (Z.of_nat (length xs)) btc) = k) as E1.
  { rewrite Hk. unfold div_ceil. rewrite Z.mod_mul, Z.div_mul by lia. simpl. lia. }
  assert (Z.to_nat (div_ceil (Z.of_nat (length (xs ++ ys))) btc) =
    (k + Z.to_nat (div_ceil (Z.of_nat (length ys)) btc))%nat) as E2.
  { rewrite length_app, Nat2Z.inj_add, Hk. unfold div_ceil.
    rewrite (Z.add_comm (_ * _)), Z.mod_add, Z.div_add by lia.
    pose proof (Z.div_pos (Z.of_nat (length ys)) btc). destruct (0 <? _); lia. }
  rewrite E1 in P1, C1. rewrite E2 in P, C. split; [|lia].
  rewrite P, P2, P1. apply chain_from_app; [lia|done].
Qed.

Lemma prompt_hash_incremental_witness :
  exists h1 h2 h, hash_prompt_tokens 2 EMPTY_PARENT_HASH [10; 11] tt = Ret h1 tt /\
    hash_prompt_tokens 2 (ph_prompt_hash h1) [12; 13; 14] tt = Ret h2 tt /\
    hash_prompt_tokens 2 EMPTY_PARENT_HASH ([10; 11] ++ [12; 13; 14]) tt = Ret h tt /\
    ph_prompt_hash h = ph_prompt_hash h2 /\ ph_block_count h = ph_block_count h1 + ph_block_count h2.
Proof.
  apply (prompt_hash_incremental 2 EMPTY_PARENT_HASH [10; 11] [12; 13; 14] 1); [lia|reflexivity|simpl; lia].
Defined.
