(* ===== verification/StagePlan.v ===== *)
(** * The stage planner: definitions ([crates/spark-sched/src/stage_plan.rs])

    Layer ranges, the plan record with its validation, the table-driven builder, the
    exact dynamic program behind the balanced builders, the measured cost profiles,
    batch buckets and execution chunks.  The functions are pure: they are
    computations without state that return a plan, fail with the error the code
    returns, or panic where it would index out of range.  The theorems are in
    [StagePlanProps]. *)

From Stdlib Require Import String.
From S2P Require Import Prelude.

Definition ABI_VERSION : Z := 1.

Definition CURRENT_SPARK_COUNT : Z := 13.

Definition MAX_STAGE_COUNT : Z := CURRENT_SPARK_COUNT.

Definition DESCRIPTOR_BYTES : Z := 16 + MAX_STAGE_COUNT * 16.

Definition MAX_LAYER_COUNT : Z := 128.

Definition MAX_ROUTED_LAYERS_PER_STAGE : Z := 8.

Definition MEASURED_PROFILE_20260701 : Z := 20260701.

Definition BUCKET_B16 : Z := 16.

Definition BUCKET_B32 : Z := 32.

Definition BUCKET_B64 : Z := 64.

Definition BUCKET_B128 : Z := 128.

Definition BUCKET_B256 : Z := 256.

Definition BUCKET_B512 : Z := 512.

Definition BUCKET_B1024 : Z := 1024.

Definition MAX_BATCH_BUCKET : Z := BUCKET_B1024.

Definition BATCH_BUCKETS : list Z :=
  [BUCKET_B16; BUCKET_B32; BUCKET_B64; BUCKET_B128; BUCKET_B256; BUCKET_B512; BUCKET_B1024].

Definition STAGE_FLAG_FINAL_TOKEN : Z := 1.

Definition STAGE_FLAG_INPUT_HIDDEN : Z := 2.

Definition STAGE_FLAG_OUTPUT_HIDDEN : Z := 4.

Definition STAGE_FLAG_DENSE_PREFIX : Z := 8.

Definition STAGE_KNOWN_FLAGS : Z :=
  Z.lor (Z.lor (Z.lor STAGE_FLAG_FINAL_TOKEN STAGE_FLAG_INPUT_HIDDEN) STAGE_FLAG_OUTPUT_HIDDEN)
    STAGE_FLAG_DENSE_PREFIX.

(** [u64::MAX / 4] *)
Definition UNREACHABLE_COST : Z := U64_MAX / 4.

(** ** Data *)

Record StagePlanGeometry := mkGeometry {
  g_layer_count : Z;
  g_first_routed_layer : Z;
  g_max_routed_layers_per_stage : Z;
}.

(** [StagePlanGeometry::new] *)
Definition new_geometry (layer_count first_routed_layer : Z) : StagePlanGeometry :=
  mkGeometry layer_count first_routed_layer MAX_ROUTED_LAYERS_PER_STAGE.

Definition with_max_routed_layers_per_stage (g : StagePlanGeometry) (limit : Z) : StagePlanGeometry :=
  mkGeometry (g_layer_count g) (g_first_routed_layer g) limit.

Record StagePlanStage := mkStage {
  first_layer_index : Z;
  layer_count : Z;
  flags : Z;
  reserved : Z;
}.

#[export] Instance StagePlanStage_eta : RecordEta StagePlanStage := fun s =>
  mkStage (first_layer_index s) (layer_count s) (flags s) (reserved s).

(** [StagePlanStage::default] *)
Definition default_stage : StagePlanStage := mkStage 0 0 0 0.

Record StagePlan := mkStagePlan {
  abi_version : Z;
  descriptor_bytes : Z;
  stage_count : Z;
  plan_reserved : Z;
  stages : list StagePlanStage;
}.

#[export] Instance StagePlan_eta : RecordEta StagePlan := fun p =>
  mkStagePlan (abi_version p) (descriptor_bytes p) (stage_count p) (plan_reserved p) (stages p).

(** [StagePlan::reset] *)
Definition reset_plan : StagePlan := mkStagePlan ABI_VERSION DESCRIPTOR_BYTES 0 0 [].

Definition total_layer_count (p : StagePlan) : Z :=
  foldl (fun acc s => acc +u32 layer_count s) 0
    (take (Z.to_nat (Z.min (stage_count p) (u32 (Z.of_nat (length (stages p)))))) (stages p)).

Record CostProfile := mkCostProfile {
  layer_cost_ns : list Z;
  final_stage_extra_cost_ns : Z;
}.

Record ExecutionChunkShape := mkChunkShape {
  maximum_sequences_per_chunk : Z;
  chunk_count : Z;
}.

Inductive QuantizationMode := Auto | Nvfp4_4Bit | Fp8E4m3_8Bit.

Inductive StagePlanError :=
| InvalidArgument (message : string)
| CapacityExceeded (message : string)
| AbiMismatch (message : string)
| InternalError (message : string).

(** The functions have no state. *)
Abbreviation SP := (M unit StagePlanError).

Definition normalize (m : QuantizationMode) : SP QuantizationMode :=
  match m with Auto => ret Nvfp4_4Bit | _ => ret m end.

(** ** Buckets and layer ranges *)

Definition batch_bucket_is_supported (batch_bucket : Z) : bool := bool_decide (batch_bucket ∈ BATCH_BUCKETS).

(** The [for] loop over the buckets. *)
Fixpoint first_bucket (active_sequence_count : Z) (buckets : list Z) : option Z :=
  match buckets with
  | [] => None
  | b :: bs => if active_sequence_count <=? b then Some b else first_bucket active_sequence_count bs
  end.

Definition select_batch_bucket_value (active_sequence_count : Z) : Z :=
  if (active_sequence_count =? 0) || (MAX_BATCH_BUCKET <? active_sequence_count) then 0
  else match first_bucket active_sequence_count BATCH_BUCKETS with Some b => b | None => BUCKET_B1024 end.

Definition routed_layer_count_for_range (first_layer_index layer_count first_routed_layer
    total_layer_count : Z) : Z :=
  let range_end := first_layer_index +u32 layer_count in
  let routed_begin := Z.max first_layer_index first_routed_layer in
  let routed_end := Z.min range_end total_layer_count in
  sat_sub routed_end routed_begin.

Definition layer_range_is_valid (g : StagePlanGeometry) (first_layer_index layer_count : Z) : bool :=
  if (layer_count =? 0) || (g_layer_count g <=? first_layer_index) then false
  else if (g_layer_count g -u32 first_layer_index) <? layer_count then false
  else
    let range_end := first_layer_index +u32 layer_count in
    if (g_first_routed_layer g <? g_layer_count g)
       && ((negb (first_layer_index =? 0) && (first_layer_index <? g_first_routed_layer g))
           || (range_end <? g_first_routed_layer g))
    then false
    else routed_layer_count_for_range first_layer_index layer_count (g_first_routed_layer g)
           (g_layer_count g) <=? g_max_routed_layers_per_stage g.

(** ** Flags and validation *)

Definition stage_flags (g : StagePlanGeometry) (count : Z) (i : Z) (s : StagePlanStage) : Z :=
  let f := STAGE_FLAG_INPUT_HIDDEN in
  let f := if i + 1 <? count then Z.lor f STAGE_FLAG_OUTPUT_HIDDEN else Z.lor f STAGE_FLAG_FINAL_TOKEN in
  if (first_layer_index s =? 0) && (g_first_routed_layer g <=? layer_count s)
  then Z.lor f STAGE_FLAG_DENSE_PREFIX else f.

(** [&mut stages[..stage_count]] panics when the table is shorter. *)
Definition assign_stage_flags (g : StagePlanGeometry) (p : StagePlan) : SP StagePlan :=
  let n := Z.to_nat (stage_count p) in
  if Z.of_nat (length (stages p)) <? stage_count p then panic
  else ret (p <| stages :=
    imap (fun i s => s <| flags := stage_flags g (stage_count p) (Z.of_nat i) s |>) (take n (stages p))
    ++ drop n (stages p) |>).

(** One stage of [validate]'s loop on [(expected_first_layer_index, final_stage_count)]. *)
Definition validate_stage (g : StagePlanGeometry) (count : Z) (x : Z * StagePlanStage) (acc : Z * Z)
    : SP (Z * Z) :=
  let '(i, s) := x in
  let '(expected, finals) := acc in
  if has_flag (flags s) (u32_not STAGE_KNOWN_FLAGS)
  then throw (InvalidArgument "stage contains unknown flags")
  else if negb (first_layer_index s =? expected)
  then throw (InvalidArgument "stage layers are not contiguous")
  else if negb (layer_range_is_valid g (first_layer_index s) (layer_count s))
  then throw (InvalidArgument "stage layer range violates GLM-5.2 cut rules")
  else
    let! finals :=
      (if has_flag (flags s) STAGE_FLAG_FINAL_TOKEN then
         if negb (i + 1 =? count) then throw (InvalidArgument "final-token stage is not the last stage")
         else ret (finals +u32 1)
       else if negb (has_flag (flags s) STAGE_FLAG_OUTPUT_HIDDEN)
       then throw (InvalidArgument "non-final stage must emit hidden state")
       else ret finals) in
    ret (first_layer_index s +u32 layer_count s, finals).

Definition validate (g : StagePlanGeometry) (p : StagePlan) : SP unit :=
  if negb (abi_version p =? ABI_VERSION) || negb (descriptor_bytes p =? DESCRIPTOR_BYTES)
  then throw (AbiMismatch "stage plan ABI mismatch")
  else if (stage_count p =? 0) || (MAX_STAGE_COUNT <? stage_count p)
  then throw (InvalidArgument "stage count is outside supported range")
  else if Z.of_nat (length (stages p)) <? stage_count p
  then throw (InvalidArgument "stage table holds fewer entries than stage count")
  else
    let! '(expected, finals) :=
      for_fold (zip (range 0 (stage_count p)) (take (Z.to_nat (stage_count p)) (stages p)))
        (validate_stage g (stage_count p)) (0, 0) in
    if negb (expected =? g_layer_count g)
    then throw (InvalidArgument "stage plan does not cover all GLM-5.2 layers")
    else if negb (finals =? 1)
    then throw (InvalidArgument "stage plan must contain exactly one final-token stage")
    else ret tt.

(** ** The table-driven builder *)

Definition build_from_layer_counts (g : StagePlanGeometry) (layer_counts : list Z) : SP StagePlan :=
  let count := Z.of_nat (length layer_counts) in
  if (count =? 0) || (MAX_STAGE_COUNT <? count)
  then throw (InvalidArgument "invalid table-driven stage-plan input")
  else
    let p := reset_plan <| stage_count := u32 count |> in
    let! '(p, _) := for_fold layer_counts (fun layer_count acc =>
      let '(p, first) := acc in
      if (layer_count =? 0) || ((g_layer_count g -u32 first) <? layer_count)
      then throw (InvalidArgument "table-driven stage layer count is invalid")
      else ret (p <| stages := stages p ++ [mkStage first layer_count 0 0] |>, first +u32 layer_count))
      (p, 0) in
    let! p := assign_stage_flags g p in
    do! validate g p in
    ret p.

(** ** The balanced builder *)

(** Two-dimensional tables, [t[s][l]]. *)
Definition read2 (t : list (list Z)) (s l : Z) : SP Z := let! row := index t s in index row l.

Definition write2 (s l v : Z) (t : list (list Z)) : list (list Z) := upd_nth s (upd_nth l (fun _ => v)) t.

(** [prefix_cost_ns] *)
Definition prefix_costs (layer_cost_ns : list Z) (layer_count : Z) : SP (list Z) :=
  for_fold (range 0 layer_count) (fun i prefix =>
    let! cost := index layer_cost_ns i in
    if cost =? 0 then throw (InvalidArgument "layer cost cannot be zero")
    else
      let! before := index prefix i in
      let after := before +u64 cost in
      let prefix := upd_nth (i + 1) (fun _ => after) prefix in
      if after <? before then throw (CapacityExceeded "layer cost prefix overflow")
      else ret prefix)
    (replicate (Z.to_nat (layer_count + 1)) 0).

(** The body of the innermost loop on [(best_cost, best_split)]. *)
Definition relax (g : StagePlanGeometry) (prefix : list Z) (final_extra stage_count : Z) (s l p : Z)
    (acc : list (list Z) * list (list Z)) : SP (list (list Z) * list (list Z)) :=
  let '(best_cost, best_split) := acc in
  let! before := read2 best_cost (s - 1) p in
  if before =? UNREACHABLE_COST then ret acc
  else if negb (layer_range_is_valid g (u32 p) (u32 (l - p))) then ret acc
  else
    let! upto := index prefix l in
    let! from := index prefix p in
    let segment := upto -u64 from in
    let segment :=
      if s =? stage_count
      then if U64_MAX - final_extra <? segment then None else Some (segment +u64 final_extra)
      else Some segment in
    match segment with
    | None => ret acc
    | Some segment_cost =>
        let candidate_cost := Z.max before segment_cost in
        let! current := read2 best_cost s l in
        if candidate_cost <? current
        then ret (write2 s l candidate_cost best_cost, write2 s l (u32 p) best_split)
        else ret acc
    end.

(** The three nested loops. *)
Definition fill_tables (g : StagePlanGeometry) (prefix : list Z) (final_extra stage_count layer_count : Z)
    (tables : list (list Z) * list (list Z)) : SP (list (list Z) * list (list Z)) :=
  for_fold (range 1 (stage_count + 1)) (fun s =>
    for_fold (range 1 (layer_count + 1)) (fun l =>
      for_fold (range 0 l) (fun p => relax g prefix final_extra stage_count s l p))) tables.

(** The backtracking loop on [(stages, current_layer_index)]. *)
Definition backtrack (best_split : list (list Z)) (count layers : Z) : SP (list StagePlanStage) :=
  let! r := for_fold (reverse (range 1 (count + 1))) (fun s acc =>
    let '(built, current) := acc in
    let! split := read2 best_split s current in
    if split =? U32_MAX then throw (InternalError "stage-plan backtrack failed")
    else
      ret (upd_nth (s - 1) (fun st => st <| first_layer_index := split |>
             <| layer_count := u32 (current - split) |>) built, split))
    (replicate (Z.to_nat count) default_stage, layers) in
  ret r.1.

Definition build_balanced_with_final_cost (g : StagePlanGeometry) (layer_cost_ns : list Z)
    (final_extra count : Z) : SP StagePlan :=
  let layer_count := g_layer_count g in
  if (Z.of_nat (length layer_cost_ns) <? layer_count) || (count =? 0) || (MAX_STAGE_COUNT <? count)
  then throw (InvalidArgument "invalid balanced stage-plan input")
  else
    let! prefix := prefix_costs layer_cost_ns layer_count in
    let rows := Z.to_nat (count + 1) in
    let columns := Z.to_nat (layer_count + 1) in
    let best_cost := write2 0 0 0 (replicate rows (replicate columns UNREACHABLE_COST)) in
    let best_split := replicate rows (replicate columns U32_MAX) in
    let! '(best_cost, best_split) := fill_tables g prefix final_extra count layer_count (best_cost, best_split) in
    let! best := read2 best_cost count layer_count in
    if best =? UNREACHABLE_COST
    then throw (CapacityExceeded "stage count cannot satisfy the cut rules")
    else
      let! built := backtrack best_split count layer_count in
      let! p := assign_stage_flags g (reset_plan <| stage_count := count |> <| stages := built |>) in
      do! validate g p in
      ret p.

Definition build_balanced (g : StagePlanGeometry) (layer_cost_ns : list Z) (count : Z) : SP StagePlan :=
  build_balanced_with_final_cost g layer_cost_ns 0 count.

Definition build_uniform (g : StagePlanGeometry) (count : Z) : SP StagePlan :=
  build_balanced g (replicate (Z.to_nat (g_layer_count g)) 1) count.

(** ** Cost profiles *)

(** The [for] loop over the offsets; it breaks at the end of the table. *)
Fixpoint store_costs (base remainder first_layer_index : Z) (offsets : list Z) (costs : list Z) : list Z :=
  match offsets with
  | [] => costs
  | offset :: rest =>
      let i := first_layer_index +u32 offset in
      if Z.of_nat (length costs) <=? i then costs
      else store_costs base remainder first_layer_index rest
             (upd_nth i (fun _ => base +u64 b2z (offset <? remainder)) costs)
  end.

Definition store_uniform_segment_cost (segment_cost_ns first_layer_index layer_count : Z)
    (costs : list Z) : list Z :=
  store_costs (segment_cost_ns / layer_count) (segment_cost_ns mod layer_count) first_layer_index
    (range 0 layer_count) costs.

Definition scale_cost (numerator denominator cost : Z) : Z := div_ceil (cost *u64 numerator) denominator.

Definition scale_cost_profile (costs : list Z) (final_extra numerator denominator : Z) : list Z * Z :=
  (scale_cost numerator denominator <$> costs, scale_cost numerator denominator final_extra).

(** The measured ring: thirteen stages of six layers. *)
Definition ring_first_layers : list Z := [0; 6; 12; 18; 24; 30; 36; 42; 48; 54; 60; 66; 72].

Definition b64_stage_costs : list Z :=
  [50660288; 45685889; 45232480; 45782816; 44223711; 45062784; 45439968; 45055391; 45370304;
   46190688; 44552225; 45824320; 46449792].

Definition b128_stage_costs : list Z :=
  [177756500; 188399000; 193653016; 197361562; 195107453; 195583047; 192805688; 194702031;
   195701188; 193026547; 196165188; 190992359; 194542891].

Definition b32_stage_costs : list Z :=
  [39691000; 35142000; 33496000; 36755000; 38837000; 41760000; 46160000; 56283000; 60862000;
   69126000; 72429000; 81610000; 73314000].

Definition load_ring_profile (stage_costs : list Z) (costs : list Z) : list Z :=
  foldl (fun costs x => store_uniform_segment_cost x.2 x.1 6 costs) costs (zip ring_first_layers stage_costs).

Definition load_measured_b64_cost_profile (costs : list Z) : list Z * Z :=
  (load_ring_profile b64_stage_costs costs, 0).

Definition load_measured_b128_cost_profile (costs : list Z) : list Z * Z :=
  (load_ring_profile b128_stage_costs costs, 0).

Definition load_measured_b32_cost_profile (costs : list Z) : list Z * Z :=
  (load_ring_profile b32_stage_costs costs, 39342000).

Definition load_estimated_large_batch_cost_profile (batch_bucket : Z) (costs : list Z) : SP (list Z * Z) :=
  if (batch_bucket <? BUCKET_B128) || negb (batch_bucket_is_supported batch_bucket)
  then throw (InvalidArgument "invalid large-batch profile bucket")
  else
    let '(costs, extra) := load_measured_b128_cost_profile costs in
    ret (scale_cost_profile costs extra batch_bucket BUCKET_B128).

Definition load_uniform_cost_profile (g : StagePlanGeometry) (layer_estimate final_estimate : Z) : SP CostProfile :=
  if (layer_estimate =? 0) || (g_layer_count g =? 0) || (MAX_LAYER_COUNT <? g_layer_count g)
  then throw (InvalidArgument "invalid uniform cost-profile input")
  else ret (mkCostProfile (replicate (Z.to_nat (g_layer_count g)) layer_estimate) final_estimate).

Definition load_measured_cost_profile_for_quantization (g : StagePlanGeometry)
    (measured_profile_id batch_bucket : Z) (mode : QuantizationMode) : SP CostProfile :=
  do! catch (normalize mode) (fun _ => throw (InvalidArgument "invalid quantization mode")) in
  if negb (measured_profile_id =? MEASURED_PROFILE_20260701)
  then throw (InvalidArgument "unknown measured profile")
  else
    let costs := replicate (Z.to_nat (g_layer_count g)) 0 in
    let! '(costs, extra) :=
      (if batch_bucket =? BUCKET_B64 then ret (load_measured_b64_cost_profile costs)
       else if batch_bucket =? BUCKET_B128 then ret (load_measured_b128_cost_profile costs)
       else if (BUCKET_B128 <? batch_bucket) && batch_bucket_is_supported batch_bucket
       then load_estimated_large_batch_cost_profile batch_bucket costs
       else if (batch_bucket =? BUCKET_B32) || (batch_bucket =? BUCKET_B16)
       then ret (load_measured_b32_cost_profile costs)
       else throw (InvalidArgument "unsupported batch bucket")) in
    ret (mkCostProfile costs extra).

Definition load_measured_cost_profile (g : StagePlanGeometry) (measured_profile_id batch_bucket : Z) : SP CostProfile :=
  load_measured_cost_profile_for_quantization g measured_profile_id batch_bucket Auto.

Definition build_measured_balanced_for_quantization (g : StagePlanGeometry)
    (measured_profile_id batch_bucket : Z) (mode : QuantizationMode) (count : Z) : SP StagePlan :=
  let! profile :=
    catch (load_measured_cost_profile_for_quantization g measured_profile_id batch_bucket mode)
      (fun e => match e with
                | InvalidArgument _ => throw (InvalidArgument "measured stage-plan profile is unavailable")
                | other => throw other end) in
  build_balanced_with_final_cost g (layer_cost_ns profile) (final_stage_extra_cost_ns profile) count.

Definition build_measured_balanced (g : StagePlanGeometry) (measured_profile_id batch_bucket count : Z) : SP StagePlan :=
  build_measured_balanced_for_quantization g measured_profile_id batch_bucket Auto count.

Definition build_measured_b64_ring_exact (g : StagePlanGeometry) : SP StagePlan :=
  let p := reset_plan <| stage_count := CURRENT_SPARK_COUNT |>
             <| stages := (fun first => mkStage first 6 0 0) <$> ring_first_layers |> in
  let! p := assign_stage_flags g p in
  do! validate g p in
  ret p.

Definition build_current_spark_measured_balanced_for_quantization (g : StagePlanGeometry)
    (measured_profile_id batch_bucket : Z) (mode : QuantizationMode) : SP StagePlan :=
  let! normalized := catch (normalize mode)
    (fun _ => throw (InvalidArgument "invalid measured stage-plan quantization mode")) in
  if (measured_profile_id =? MEASURED_PROFILE_20260701) && (BUCKET_B64 <=? batch_bucket)
     && batch_bucket_is_supported batch_bucket
     && (match normalized with Nvfp4_4Bit | Fp8E4m3_8Bit => true | Auto => false end)
  then build_measured_b64_ring_exact g
  else build_measured_balanced_for_quantization g measured_profile_id batch_bucket normalized CURRENT_SPARK_COUNT.

Definition build_current_spark_measured_balanced (g : StagePlanGeometry) (measured_profile_id batch_bucket : Z)
    : SP StagePlan :=
  build_current_spark_measured_balanced_for_quantization g measured_profile_id batch_bucket Auto.

(** ** Buckets and chunks *)

Definition select_batch_bucket (active_sequence_count : Z) : SP Z :=
  if active_sequence_count =? 0 then throw (InvalidArgument "active sequence count is zero")
  else
    let bucket := select_batch_bucket_value active_sequence_count in
    if bucket =? 0
    then throw (CapacityExceeded "active sequence count exceeds the maximum batch bucket")
    else ret bucket.

Definition execution_chunk_shape (logical_sequence_count rows_per_sequence execution_row_capacity : Z)
    : SP ExecutionChunkShape :=
  if (logical_sequence_count =? 0) || (rows_per_sequence =? 0) || (execution_row_capacity =? 0)
  then throw (InvalidArgument "invalid execution chunk-shape input")
  else
    let capacity := Z.min execution_row_capacity MAX_BATCH_BUCKET in
    let per_chunk := capacity / rows_per_sequence in
    if per_chunk =? 0
    then throw (CapacityExceeded "one sequence does not fit the execution row capacity")
    else
      let per_chunk := if logical_sequence_count <? per_chunk then logical_sequence_count else per_chunk in
      let chunks := logical_sequence_count / per_chunk in
      let chunks := if negb (logical_sequence_count mod per_chunk =? 0) then chunks +u32 1 else chunks in
      ret (mkChunkShape per_chunk chunks).
