(* ===== verification/StagePlanProps.v ===== *)
(** * The stage planner: theorems

    A plan is a list of layer counts.  [cut_ok] says that every stage obeys the cut
    rules and together they cover the model; [max_stage_cost] is the cost of the
    slowest stage.  The dynamic program returns a plan that no valid plan beats;
    [validate] accepts exactly the well-formed plans; measured profiles cost exactly
    the layers of the measured ring; buckets and chunk shapes are the smallest that
    fit. *)

From Stdlib Require Import String.
From S2P Require Import Prelude StagePlan.

(** ** Plans *)

Definition sumZ (l : list Z) : Z := foldr Z.add 0 l.
Arguments sumZ : simpl never.

(** Cost of [k] layers from [first]. *)
Definition layers_cost (costs : list Z) (first k : Z) : Z :=
  sumZ (take (Z.to_nat k) (drop (Z.to_nat first) costs)).

(** The stages of a plan obey the cut rules and follow one another. *)
Fixpoint cuts_valid (g : StagePlanGeometry) (first : Z) (ks : list Z) : bool :=
  match ks with
  | [] => true
  | k :: ks' => (0 <? k) && layer_range_is_valid g first k && cuts_valid g (first + k) ks'
  end.

(** ... and cover the model. *)
Definition cut_ok (g : StagePlanGeometry) (ks : list Z) : Prop :=
  cuts_valid g 0 ks = true /\ sumZ ks = g_layer_count g.

(** The cost of the slowest stage; the last one is charged [extra]. *)
Fixpoint max_stage_cost (costs : list Z) (extra first : Z) (ks : list Z) : Z :=
  match ks with
  | [] => 0
  | k :: ks' =>
      Z.max (layers_cost costs first k + match ks' with [] => extra | _ => 0 end)
        (max_stage_cost costs extra (first + k) ks')
  end.

Lemma sumZ_cons x l : sumZ (x :: l) = x + sumZ l.
Proof. done. Qed.

Lemma sumZ_app l k : sumZ (l ++ k) = sumZ l + sumZ k.
Proof. induction l as [|x l IH]; [done|]. cbn [app]. rewrite !sumZ_cons. lia. Qed.

Lemma sumZ_nonneg l : Forall (fun x => 0 <= x) l -> 0 <= sumZ l.
Proof. intros H. induction H as [|x l Hx Hl IH]; [done|]. rewrite sumZ_cons. cbn beta in Hx. lia. Qed.

Lemma sumZ_take_S l i x : l !! i = Some x -> sumZ (take (S i) l) = sumZ (take i l) + x.
Proof. intros H. rewrite (take_S_r _ _ x) by done. rewrite sumZ_app. change (sumZ [x]) with (x + 0). lia. Qed.

Lemma cuts_valid_app g first ks ls :
  cuts_valid g first (ks ++ ls) = cuts_valid g first ks && cuts_valid g (first + sumZ ks) ls.
Proof.
  revert first. induction ks as [|k ks IH]; intros first; cbn [cuts_valid app].
  - change (sumZ []) with 0. by rewrite Z.add_0_r.
  - rewrite IH, sumZ_cons, <- !andb_assoc. by rewrite Z.add_assoc.
Qed.

Lemma max_stage_cost_snoc costs extra first ks k :
  max_stage_cost costs extra first (ks ++ [k]) =
  Z.max (max_stage_cost costs 0 first ks) (layers_cost costs (first + sumZ ks) k + extra).
Proof.
  revert first. induction ks as [|x ks IH]; intros first; cbn [max_stage_cost app].
  - change (sumZ []) with 0. rewrite Z.add_0_r. lia.
  - rewrite IH, sumZ_cons. replace (first + x + sumZ ks) with (first + (x + sumZ ks)) by lia.
    destruct ks as [|y ks]; cbn [app]; lia.
Qed.

Lemma cuts_valid_pos g first ks : cuts_valid g first ks = true -> Forall (fun k => 0 < k) ks.
Proof.
  revert first. induction ks as [|k ks IH]; intros first H; constructor; simpl in H.
  - apply andb_true_iff in H as [H _]. apply andb_true_iff in H as [H _]. lia.
  - apply andb_true_iff in H as [_ H]. by eapply IH.
Qed.

(** ** Prefix sums *)

Section prefix.
Context (costs : list Z) (layers : Z).
Hypothesis Hlayers : 0 <= layers <= Z.of_nat (length costs).
Hypothesis Hcosts : Forall (fun x => 0 <= x <= U64_MAX) costs.

(** The prefix sums are exact. *)
Definition prefix_ok (prefix : list Z) : Prop :=
  forall i : nat, Z.of_nat i <= layers -> prefix !! i = Some (sumZ (take i costs)) /\ sumZ (take i costs) <= U64_MAX.

Lemma sum_take_nonneg i : 0 <= sumZ (take i costs).
Proof. apply sumZ_nonneg, Forall_take. eapply Forall_impl; [exact Hcosts|]. simpl. lia. Qed.

Lemma sum_take_mono i j : (i <= j)%nat -> sumZ (take i costs) <= sumZ (take j costs).
Proof.
  intros Hij. replace j with (i + (j - i))%nat by lia. rewrite <- take_take_drop, sumZ_app.
  assert (0 <= sumZ (take (j - i) (drop i costs))); [|lia].
  apply sumZ_nonneg, Forall_take, Forall_drop. eapply Forall_impl; [exact Hcosts|]. simpl. lia.
Qed.

Lemma layers_cost_prefix p l :
  0 <= p <= l -> layers_cost costs p (l - p) = sumZ (take (Z.to_nat l) costs) - sumZ (take (Z.to_nat p) costs).
Proof.
  intros H. unfold layers_cost. replace (Z.to_nat l) with (Z.to_nat p + Z.to_nat (l - p))%nat by lia.
  rewrite <- (take_take_drop costs (Z.to_nat p)), sumZ_app. lia.
Qed.

Lemma prefix_costs_spec :
  wp (prefix_costs costs layers)
    (fun prefix _ => prefix_ok prefix /\ forall i x, Z.of_nat i < layers -> costs !! i = Some x -> 0 < x)
    (fun e _ => (e = InvalidArgument "layer cost cannot be zero" /\ exists i, Z.of_nat i < layers /\ costs !! i = Some 0) \/
                (e = CapacityExceeded "layer cost prefix overflow" /\ exists i, Z.of_nat i <= layers /\ U64_MAX < sumZ (take i costs)))
    tt.
Proof.
  unfold prefix_costs. eapply wp_mono.
  - apply (wp_for_fold (fun pre prefix _ => length prefix = Z.to_nat (layers + 1) /\
      (forall i : nat, (i <= length pre)%nat -> prefix !! i = Some (sumZ (take i costs)) /\ sumZ (take i costs) <= U64_MAX) /\
      (forall i x, (i < length pre)%nat -> costs !! i = Some x -> 0 < x)) _ _ _
      (fun e _ => (e = InvalidArgument "layer cost cannot be zero" /\ exists i, Z.of_nat i < layers /\ costs !! i = Some 0) \/
                (e = CapacityExceeded "layer cost prefix overflow" /\ exists i, Z.of_nat i <= layers /\ U64_MAX < sumZ (take i costs)))).
    + split_and!; [apply length_replicate| |simpl; lia]. intros i Hi. simpl in Hi. replace i with 0%nat by lia.
      rewrite lookup_replicate_2 by lia. split; [done|]. change (sumZ (take 0 costs)) with 0. lia.
    + intros pre i post prefix [] Hsplit (Hl&Hpre&Hpos). apply range_split in Hsplit as [-> Hi].
      rewrite length_app, length_range in *. cbn [length].
      destruct (lookup_Some_range costs i) as [x Hx]; [lia|].
      pose proof (proj1 (Forall_lookup _ _) Hcosts _ x Hx) as Hxr. cbn beta in Hxr.
      destruct (Hpre (Z.to_nat i)) as [Hb Hbu]; [lia|]. wp_steps.
      destruct (Z.eqb_spec x 0) as [->|Hx0]; wp_steps.
      { left. split; [done|]. exists (Z.to_nat i). split; [lia|done]. }
      pose proof (sum_take_nonneg (Z.to_nat i)) as Hs0.
      pose proof (sumZ_take_S costs (Z.to_nat i) x Hx) as HS.
      destruct (Z.ltb_spec (sumZ (take (Z.to_nat i) costs) +u64 x) (sumZ (take (Z.to_nat i) costs))) as [Hlt|Hge]; wp_steps.
      { right. split; [done|]. exists (S (Z.to_nat i)). split; [lia|]. rewrite HS.
        destruct (Z.le_gt_cases (sumZ (take (Z.to_nat i) costs) + x) U64_MAX) as [Hle|]; [|done].
        rewrite u64_small in Hlt by lia. lia. }
      assert (sumZ (take (Z.to_nat i) costs) + x <= U64_MAX) as Hle.
      { destruct (Z.le_gt_cases (sumZ (take (Z.to_nat i) costs) + x) U64_MAX) as [|Hgt]; [done|]. exfalso.
        unfold u64 in Hge. rewrite <- (Zmod_unique _ _ 1 (sumZ (take (Z.to_nat i) costs) + x - 18446744073709551616)) in Hge; lia. }
      rewrite u64_small by lia. split_and!.
      * by rewrite length_upd_nth.
      * intros j Hj. destruct (decide (j = Z.to_nat (i + 1))) as [->|Hne].
        { destruct (lookup_Some_range prefix (i + 1)) as [y Hy]; [lia|].
          rewrite (lookup_upd_nth_eq _ _ _ y) by done. replace (Z.to_nat (i + 1)) with (S (Z.to_nat i)) by lia.
          rewrite HS. done. }
        rewrite lookup_upd_nth_ne by done. apply Hpre. lia.
      * intros j y Hj Hy. destruct (decide (j = Z.to_nat i)) as [->|]; [|by apply (Hpos j y); [lia|]].
        assert (y = x) as -> by congruence. lia.
  - intros prefix [] (Hl&Hpre&Hpos). rewrite length_range in *. split.
    + intros i Hi. apply Hpre. lia.
    + intros i x Hi. apply Hpos. lia.
  - done.
Qed.

End prefix.

(** ** Two-dimensional tables *)

Definition cell (t : list (list Z)) (s l : Z) : option Z :=
  match t !! Z.to_nat s with Some row => row !! Z.to_nat l | None => None end.

(** A table of [rows] rows and [columns] columns. *)
Definition table_dims (rows columns : Z) (t : list (list Z)) : Prop :=
  Z.of_nat (length t) = rows /\ forall i row, t !! i = Some row -> Z.of_nat (length row) = columns.

Lemma cell_Some rows columns t s l :
  table_dims rows columns t -> 0 <= s < rows -> 0 <= l < columns -> exists v, cell t s l = Some v.
Proof.
  intros [Hl Hr] Hs Hc. unfold cell. destruct (lookup_Some_range t s) as [row Hrow]; [lia|]. rewrite Hrow.
  pose proof (Hr _ row Hrow). apply lookup_Some_range. lia.
Qed.

Lemma wp_read2 t s l v (Q : Z -> unit -> Prop) (R : StagePlanError -> unit -> Prop) :
  cell t s l = Some v -> Q v tt -> wp (read2 t s l) Q R tt.
Proof.
  unfold cell, read2. intros Hc HQ. destruct (t !! Z.to_nat s) as [row|] eqn:Hrow; [|done]. by wp_steps.
Qed.

Lemma write2_dims rows columns t s l v : table_dims rows columns t -> table_dims rows columns (write2 s l v t).
Proof.
  intros [Hl Hr]. unfold write2. split; [by rewrite length_upd_nth|]. intros i row Hi.
  apply lookup_upd_nth_Some in Hi as [(->&x&Hx&->)|[_ Hi]]; [rewrite length_upd_nth; by eapply Hr|by eapply Hr].
Qed.

Lemma cell_write2_same t s l v w : cell t s l = Some w -> cell (write2 s l v t) s l = Some v.
Proof.
  unfold cell, write2. intros Hc. destruct (t !! Z.to_nat s) as [row|] eqn:Hrow; [|done].
  rewrite (lookup_upd_nth_eq _ _ _ row) by done. by rewrite (lookup_upd_nth_eq _ _ _ w).
Qed.

Lemma cell_write2_other t s l v s' l' :
  0 <= s -> 0 <= s' -> 0 <= l -> 0 <= l' -> s' <> s \/ l' <> l -> cell (write2 s l v t) s' l' = cell t s' l'.
Proof.
  intros H1 H2 H3 H4 Hne. unfold cell, write2. destruct (decide (s' = s)) as [->|].
  - destruct (t !! Z.to_nat s) as [row|] eqn:Hrow.
    + rewrite (lookup_upd_nth_eq _ _ _ row) by done. apply lookup_upd_nth_ne. lia.
    + rewrite lookup_ge_None_2; [done|]. rewrite length_upd_nth. by apply lookup_ge_None.
  - rewrite lookup_upd_nth_ne by lia. done.
Qed.

(** ** The dynamic program *)

Section dp.
Context (g : StagePlanGeometry) (costs prefix : list Z) (final count : Z).
Abbreviation L := (g_layer_count g).
Hypothesis HL : 0 <= L <= U32_MAX.
Hypothesis Hlen : L <= Z.of_nat (length costs).
Hypothesis Hcosts : Forall (fun x => 0 <= x <= U64_MAX) costs.
Hypothesis Hprefix : prefix_ok costs L prefix.
Hypothesis Hfinal : 0 <= final <= U64_MAX.
Hypothesis Hcount : 1 <= count <= 13.

(** The charge on the last stage of an [s]-stage prefix. *)
Definition charge (s : Z) : Z := if s =? count then final else 0.

(** A plan of [s] stages for the first [l] layers. *)
Definition plan_to (s l : Z) (ks : list Z) : Prop :=
  Z.of_nat (length ks) = s /\ cuts_valid g 0 ks = true /\ sumZ ks = l.

Definition plan_cost (s : Z) (ks : list Z) : Z := max_stage_cost costs (charge s) 0 ks.

(** [v] is no more than the cost of any plan, capped at the sentinel. *)
Definition lower_bound (s l v : Z) : Prop :=
  forall ks, plan_to s l ks -> v <= Z.min UNREACHABLE_COST (plan_cost s ks).

(** A finite cost comes from a split whose prefix has a finite cost. *)
Definition justified (bc : list (list Z)) (s l v p : Z) : Prop :=
  v < UNREACHABLE_COST ->
  (s = 0 /\ l = 0) \/
  (0 < s /\ 0 <= p < l /\ layer_range_is_valid g p (l - p) = true /\
   exists u, cell bc (s - 1) p = Some u /\ u < UNREACHABLE_COST /\
     v = Z.max u (layers_cost costs p (l - p) + charge s)).

Definition cell_done (bc bs : list (list Z)) (s l : Z) : Prop :=
  exists v p, cell bc s l = Some v /\ cell bs s l = Some p /\ 0 <= v <= UNREACHABLE_COST /\
    lower_bound s l v /\ justified bc s l v p.

Definition cell_fresh (bc bs : list (list Z)) (s l : Z) : Prop :=
  cell bc s l = Some UNREACHABLE_COST /\ cell bs s l = Some U32_MAX.

(** The last stage of a plan. *)
Lemma plan_to_split s l ks :
  plan_to s l ks -> 0 < s ->
  exists ks' p, ks = ks' ++ [l - p] /\ plan_to (s - 1) p ks' /\ 0 <= p < l /\
    layer_range_is_valid g p (l - p) = true /\
    plan_cost s ks = Z.max (max_stage_cost costs 0 0 ks') (layers_cost costs p (l - p) + charge s).
Proof.
  intros (Hl&Hv&Hs) Hpos. destruct ks as [|k ks _] using rev_ind; [simpl in Hl; lia|].
  exists ks, (l - k). rewrite sumZ_app in Hs. change (sumZ [k]) with (k + 0) in Hs.
  replace (l - (l - k)) with k by lia. rewrite length_app in Hl. cbn [length] in Hl.
  pose proof Hv as Hv'. rewrite cuts_valid_app in Hv'. cbn [cuts_valid] in Hv'.
  apply andb_true_iff in Hv' as [Hv1 Hv2]. rewrite andb_true_r in Hv2. apply andb_true_iff in Hv2 as [Hk Hv2].
  replace (l - k) with (sumZ ks) by lia. rewrite Z.add_0_l in Hv2.
  assert (0 <= sumZ ks) as H0.
  { apply sumZ_nonneg. eapply Forall_impl; [by eapply cuts_valid_pos|]. simpl. lia. }
  split_and!; [done|unfold plan_to; split_and!; [lia|done|done]|lia|lia|done|].
  unfold plan_cost. by rewrite max_stage_cost_snoc.
Qed.

(** Appending a stage to a plan. *)
Lemma plan_cost_prev s ks : s < count -> plan_cost s ks = max_stage_cost costs 0 0 ks.
Proof. intros. unfold plan_cost, charge. by destruct (Z.eqb_spec s count); [lia|]. Qed.

Lemma no_empty_plan s ks : plan_to s 0 ks -> 0 < s -> False.
Proof. intros Hp Hs. destruct (plan_to_split s 0 ks Hp Hs) as (_&p&_&_&Hp'&_). lia. Qed.

(** The table cell for [(s, l)] after the splits below [p0]. *)
Definition partial (bc bs : list (list Z)) (s l p0 : Z) : Prop :=
  exists v p, cell bc s l = Some v /\ cell bs s l = Some p /\ 0 <= v <= UNREACHABLE_COST /\
    (forall ks q, plan_to (s - 1) q ks -> 0 <= q < p0 -> layer_range_is_valid g q (l - q) = true ->
       v <= Z.min UNREACHABLE_COST (Z.max (max_stage_cost costs 0 0 ks) (layers_cost costs q (l - q) + charge s))) /\
    justified bc s l v p.

Lemma partial_done bc bs s l : 0 < s -> partial bc bs s l l -> cell_done bc bs s l.
Proof.
  intros Hs (v&p&H1&H2&H3&H4&H5). exists v, p. split_and!; try done; try lia.
  intros ks Hks. destruct (plan_to_split s l ks Hks Hs) as (ks'&q&_&Hk'&Hq&Hv&->). by apply (H4 ks' q).
Qed.

Definition dims (t : list (list Z)) : Prop := table_dims (count + 1) (L + 1) t.

Lemma unreachable_range : 0 < UNREACHABLE_COST < U64_MAX.
Proof. vm_compute. done. Qed.

(** The stage cost the program computes is the real one, unless it is past the
    sentinel. *)
Lemma segment_cost p l upto from :
  0 <= p < l -> l <= L -> prefix !! Z.to_nat l = Some upto -> prefix !! Z.to_nat p = Some from ->
  0 <= layers_cost costs p (l - p) <= U64_MAX /\ upto -u64 from = layers_cost costs p (l - p).
Proof.
  intros Hp Hl Hu Hf. destruct (Hprefix (Z.to_nat l)) as [Hu' Hub]; [lia|].
  destruct (Hprefix (Z.to_nat p)) as [Hf' _]; [lia|]. rewrite layers_cost_prefix by lia.
  pose proof (sum_take_mono costs Hcosts (Z.to_nat p) (Z.to_nat l) ltac:(lia)).
  pose proof (sum_take_nonneg costs Hcosts (Z.to_nat p)).
  assert (upto = sumZ (take (Z.to_nat l) costs)) as -> by congruence.
  assert (from = sumZ (take (Z.to_nat p) costs)) as -> by congruence.
  rewrite u64_small by lia. split; [lia|done].
Qed.

(** Skipping a split that cannot give a plan below the sentinel. *)
Lemma partial_skip bc bs s l p :
  partial bc bs s l p ->
  (forall ks, plan_to (s - 1) p ks -> layer_range_is_valid g p (l - p) = true ->
     UNREACHABLE_COST <= Z.max (max_stage_cost costs 0 0 ks) (layers_cost costs p (l - p) + charge s)) ->
  partial bc bs s l (p + 1).
Proof.
  intros (v&q&H1&H2&H3&H4&H5) Hskip. exists v, q. split_and!; try done; try lia.
  intros ks q' Hks Hq Hv. destruct (decide (q' = p)) as [->|]; [|apply H4; [done|lia|done]].
  pose proof (Hskip ks Hks Hv). lia.
Qed.

Lemma justified_write bc s l v' s' l' v p :
  0 < s -> 0 <= l -> s' <= s -> 0 <= s' -> justified bc s' l' v p ->
  justified (write2 s l v' bc) s' l' v p.
Proof.
  intros Hs Hl Hs' Hs0 Hj Hv. destruct (Hj Hv) as [?|(H1&H2&H3&u&Hu&H4)]; [by left|]. right.
  split_and!; try done; try lia. exists u. split; [|done]. rewrite cell_write2_other by lia. done.
Qed.

Lemma relax_spec bc bs s l p :
  dims bc -> dims bs -> 1 <= s <= count -> 1 <= l <= L -> 0 <= p < l ->
  cell_done bc bs (s - 1) p -> partial bc bs s l p ->
  wp (relax g prefix final count s l p (bc, bs))
    (fun t _ => dims t.1 /\ dims t.2 /\ partial t.1 t.2 s l (p + 1) /\
       forall s' l', 0 <= s' -> 0 <= l' -> s' <> s \/ l' <> l ->
         cell t.1 s' l' = cell bc s' l' /\ cell t.2 s' l' = cell bs s' l')
    (fun _ _ => False) tt.
Proof.
  intros D1 D2 Hs Hl Hp (u&pu&Hu&_&Hur&Hulow&_) Hpart. pose proof unreachable_range as HU.
  unfold relax. apply wp_bind. eapply wp_read2; [exact Hu|].
  assert (forall ks, plan_to (s - 1) p ks -> u <= Z.min UNREACHABLE_COST (max_stage_cost costs 0 0 ks)) as Hlow.
  { intros ks Hks. rewrite <- (plan_cost_prev (s - 1)) by lia. by apply Hulow. }
  destruct (Z.eqb_spec u UNREACHABLE_COST) as [->|Hne]; wp_steps.
  { split_and!; [done|done| |done]. apply partial_skip; [done|]. intros ks Hks _. specialize (Hlow ks Hks). lia. }
  rewrite (u32_small p), (u32_small (l - p)) by lia.
  destruct (layer_range_is_valid g p (l - p)) eqn:Hv; cbn [negb]; wp_steps.
  2:{ split_and!; [done|done| |done]. apply partial_skip; [done|]. congruence. }
  destruct (Hprefix (Z.to_nat l)) as [Hl1 _]; [lia|]. destruct (Hprefix (Z.to_nat p)) as [Hl2 _]; [lia|]. wp_steps.
  destruct (segment_cost p l _ _ Hp ltac:(lia) Hl1 Hl2) as [Hsr ->]. set (seg := layers_cost costs p (l - p)) in *.
  set (o := if s =? count then _ else _).
  assert (match o with Some c => c = seg + charge s | None => U64_MAX < seg + charge s end) as Ho.
  { subst o. unfold charge. destruct (s =? count); [|lia].
    destruct (Z.ltb_spec (U64_MAX - final) seg); [lia|]. by rewrite u64_small by lia. }
  clearbody o. destruct o as [c|]; wp_steps.
  2:{ split_and!; [done|done| |done]. apply partial_skip; [done|]. intros ks _ _. fold seg. lia. }
  subst c. destruct Hpart as (v&q&Hc1&Hc2&Hvr&Hvlow&Hj). eapply wp_read2; [exact Hc1|].
  assert (0 <= charge s) as Hch by (unfold charge; destruct (s =? count); lia).
  destruct (Z.ltb_spec (Z.max u (seg + charge s)) v) as [Hlt|Hge]; wp_steps; cbn [fst snd].
  - split_and!; [by apply write2_dims|by apply write2_dims| |].
    + exists (Z.max u (seg + charge s)), p.
      split_and!; [by eapply cell_write2_same|by eapply cell_write2_same|lia|lia| |].
      * intros ks q' Hks Hq' Hv'. destruct (decide (q' = p)) as [->|].
        { specialize (Hlow ks Hks). fold seg. lia. }
        specialize (Hvlow ks q' Hks ltac:(lia) Hv'). lia.
      * intros _. right. split_and!; [lia|lia|lia|done|]. exists u. split_and!; [|lia|done].
        rewrite cell_write2_other by lia. done.
    + intros s' l' H0 H1 Hne'. rewrite !cell_write2_other by lia. done.
  - split_and!; [done|done| |done]. exists v, q. split_and!; try done; try lia.
    intros ks q' Hks Hq' Hv'. destruct (decide (q' = p)) as [->|]; [|apply Hvlow; [done|lia|done]].
    specialize (Hlow ks Hks). fold seg. lia.
Qed.

(** Cells other than [(s, l)] stay done when only that one changes. *)
Lemma cell_done_stable bc bs bc' bs' s l s' l' :
  (forall a b, 0 <= a -> 0 <= b -> a <> s \/ b <> l -> cell bc' a b = cell bc a b /\ cell bs' a b = cell bs a b) ->
  0 <= s' <= s -> 0 <= l' -> s' <> s \/ l' <> l -> cell_done bc bs s' l' -> cell_done bc' bs' s' l'.
Proof.
  intros Heq Hs Hl Hne (v&p&H1&H2&H3&H4&H5). destruct (Heq s' l') as [E1 E2]; [lia|lia|done|].
  exists v, p. rewrite E1, E2. split_and!; try done; try lia. intros Hv.
  destruct (H5 Hv) as [?|(J1&J2&J3&u&Hu&J4)]; [by left|]. right. split_and!; try done; try lia.
  exists u. destruct (Heq (s' - 1) p) as [-> _]; [lia|lia|lia|]. done.
Qed.

Lemma fresh_done s l bc bs :
  cell_fresh bc bs s l -> (forall ks, ~ plan_to s l ks) -> cell_done bc bs s l.
Proof.
  intros [H1 H2] Hno. pose proof unreachable_range. exists UNREACHABLE_COST, U32_MAX.
  split_and!; [done|done|lia|lia| |].
  - intros ks Hks. by destruct (Hno ks).
  - intros Hv. lia.
Qed.

Definition before (s0 l0 s l : Z) : Prop := s < s0 \/ (s = s0 /\ l < l0).

(** The tables when [(s0, l0)] is the next cell to fill. *)
Definition tables_inv (s0 l0 : Z) (t : list (list Z) * list (list Z)) : Prop :=
  dims t.1 /\ dims t.2 /\ forall s l, 0 <= s <= count -> 0 <= l <= L ->
    (before s0 l0 s l -> cell_done t.1 t.2 s l) /\ (~ before s0 l0 s l -> cell_fresh t.1 t.2 s l).

Lemma fill_cell_spec s l t :
  1 <= s <= count -> 1 <= l <= L -> tables_inv s l t ->
  wp (for_fold (range 0 l) (fun p => relax g prefix final count s l p) t)
    (fun t' _ => tables_inv s (l + 1) t') (fun _ _ => False) tt.
Proof.
  intros Hs Hl (D1&D2&Hcells). destruct t as [bc0 bs0]. cbn [fst snd] in *. pose proof unreachable_range as HU.
  eapply wp_mono.
  - apply (wp_for_fold (fun pre t _ => dims t.1 /\ dims t.2 /\ partial t.1 t.2 s l (Z.of_nat (length pre)) /\
      forall a b, 0 <= a -> 0 <= b -> a <> s \/ b <> l -> cell t.1 a b = cell bc0 a b /\ cell t.2 a b = cell bs0 a b)
      _ _ _ (fun _ _ => False)).
    + cbn [fst snd length]. split_and!; try done.
      destruct (proj2 (Hcells s l ltac:(lia) ltac:(lia))) as [F1 F2]; [unfold before; lia|].
      exists UNREACHABLE_COST, U32_MAX. split_and!; [done|done|lia|lia| |].
      * intros ks q _ Hq. simpl in Hq. lia.
      * intros Hv. lia.
    + intros pre p post [bc bs] [] Hsplit (E1&E2&Hpart&Heq). apply range_split in Hsplit as [-> Hp].
      rewrite length_app, length_range in *. cbn [length fst snd] in *.
      replace (Z.of_nat (Z.to_nat (p - 0) + 1)) with (p + 1) by lia.
      replace (Z.of_nat (Z.to_nat (p - 0))) with p in Hpart by lia.
      eapply wp_mono; [apply relax_spec; [done|done|lia|lia|lia| |exact Hpart]| |done].
      * eapply cell_done_stable; [exact Heq|lia|lia|lia|]. apply Hcells; [lia|lia|unfold before; lia].
      * intros [bc' bs'] [] (E3&E4&Hpart'&Heq'). cbn [fst snd] in *. split_and!; [done|done|done|].
        intros a b Ha Hb Hne. destruct (Heq' a b Ha Hb Hne) as [-> ->]. by apply Heq.
  - intros [bc bs] [] (E1&E2&Hpart&Heq). cbn [fst snd] in *. rewrite length_range in Hpart.
    replace (Z.of_nat (Z.to_nat (l - 0))) with l in Hpart by lia.
    split_and!; [done|done|]. cbn [fst snd]. intros a b Ha Hb. split.
    + intros Hbef. destruct (decide (a = s /\ b = l)) as [[-> ->]|Hne].
      * apply partial_done; [lia|done].
      * eapply cell_done_stable; [exact Heq| |lia|lia|]; [unfold before in Hbef; lia|].
        apply Hcells; [lia|lia|]. unfold before in *. lia.
    + intros Hbef. destruct (Heq a b) as [Q1 Q2]; [lia|lia|unfold before in Hbef; lia|]. unfold cell_fresh.
      rewrite Q1, Q2. apply Hcells; [lia|lia|]. unfold before in *. lia.
  - done.
Qed.

Lemma tables_inv_row s t :
  1 <= s -> tables_inv s 0 t -> tables_inv s 1 t.
Proof.
  intros Hs (D1&D2&Hcells). split_and!; [done|done|]. intros a b Ha Hb.
  destruct (Hcells a b Ha Hb) as [H1 H2]. split; [|unfold before in *; intros; apply H2; lia].
  intros Hbef. destruct (decide (a = s /\ b = 0)) as [[-> ->]|Hne].
  - apply fresh_done; [apply H2; unfold before; lia|]. intros ks Hks. eapply no_empty_plan; [exact Hks|lia].
  - apply H1. unfold before in *. lia.
Qed.

Lemma fill_tables_spec t :
  tables_inv 1 0 t ->
  wp (fill_tables g prefix final count L t) (fun t' _ => tables_inv (count + 1) 0 t') (fun _ _ => False) tt.
Proof.
  intros Ht. unfold fill_tables. eapply wp_mono.
  - apply (wp_for_fold (fun pre t _ => tables_inv (Z.of_nat (length pre) + 1) 0 t) _ _ _ (fun _ _ => False)); [done|].
    intros pre s post t1 [] Hsplit Hinv. apply range_split in Hsplit as [-> Hs].
    rewrite length_app, length_range in *. cbn [length].
    replace (Z.of_nat (Z.to_nat (s - 1) + 1) + 1) with (s + 1) by lia.
    replace (Z.of_nat (Z.to_nat (s - 1)) + 1) with s in Hinv by lia.
    eapply wp_mono.
    + apply (wp_for_fold (fun pre t _ => tables_inv s (Z.of_nat (length pre) + 1) t) _ _ _ (fun _ _ => False)).
      * apply tables_inv_row; [lia|done].
      * intros pre2 l post2 t2 [] Hsplit Hinv2. apply range_split in Hsplit as [-> Hl].
        rewrite length_app, length_range in *. cbn [length].
        replace (Z.of_nat (Z.to_nat (l - 1) + 1) + 1) with (l + 1) by lia.
        replace (Z.of_nat (Z.to_nat (l - 1)) + 1) with l in Hinv2 by lia.
        apply fill_cell_spec; [lia|lia|done].
    + intros t2 [] (D1&D2&Hcells). rewrite length_range in Hcells. split_and!; [done|done|].
      intros a b Ha Hb. destruct (Hcells a b Ha Hb) as [H1 H2]. unfold before in *.
      split; intros; [apply H1|apply H2]; lia.
    + done.
  - intros t' [] Hinv. rewrite length_range in Hinv.
    by replace (Z.of_nat (Z.to_nat (count + 1 - 1)) + 1) with (count + 1) in Hinv by lia.
  - done.
Qed.

Lemma initial_tables :
  tables_inv 1 0
    (write2 0 0 0 (replicate (Z.to_nat (count + 1)) (replicate (Z.to_nat (L + 1)) UNREACHABLE_COST)),
     replicate (Z.to_nat (count + 1)) (replicate (Z.to_nat (L + 1)) U32_MAX)).
Proof.
  assert (forall v, dims (replicate (Z.to_nat (count + 1)) (replicate (Z.to_nat (L + 1)) v))) as HD.
  { intros v. split; [rewrite length_replicate; lia|]. intros i row Hi. apply lookup_replicate in Hi as [-> _].
    rewrite length_replicate. lia. }
  assert (forall v s l, 0 <= s <= count -> 0 <= l <= L ->
    cell (replicate (Z.to_nat (count + 1)) (replicate (Z.to_nat (L + 1)) v)) s l = Some v) as Hc.
  { intros v s l Hs Hl. unfold cell. rewrite lookup_replicate_2 by lia. apply lookup_replicate_2. lia. }
  pose proof unreachable_range.
  split_and!; [apply write2_dims, HD|apply HD|]. cbn [fst snd]. intros s l Hs Hl. split.
  - intros Hbef. assert (s = 0) as -> by (unfold before in Hbef; lia). destruct (decide (l = 0)) as [->|Hl0].
    + exists 0, U32_MAX. split_and!; [eapply cell_write2_same, Hc; lia|apply Hc; lia|lia|lia| |by left].
      intros ks (Hk&_). destruct ks; [|simpl in Hk; lia]. unfold plan_cost. simpl. lia.
    + apply fresh_done.
      * split; [rewrite cell_write2_other by lia|]; apply Hc; lia.
      * intros ks (Hk&_&Hsum). destruct ks; [|simpl in Hk; lia]. by apply Hl0.
  - intros Hbef. split; [rewrite cell_write2_other by (unfold before in Hbef; lia)|]; apply Hc; lia.
Qed.

End dp.

(** ** Validation *)

Lemma range_valid_bounds g first k :
  0 <= g_layer_count g <= U32_MAX -> 0 <= first -> 0 <= k -> layer_range_is_valid g first k = true ->
  0 < k /\ first + k <= g_layer_count g.
Proof.
  intros HL Hf Hk. unfold layer_range_is_valid. destruct (Z.eqb_spec k 0); [done|].
  destruct (Z.leb_spec (g_layer_count g) first); [done|]. cbn [orb]. rewrite u32_small by lia.
  destruct (Z.ltb_spec (g_layer_count g - first) k); [done|]. lia.
Qed.

Section validity.
Context (g : StagePlanGeometry) (p : StagePlan).
Abbreviation live := (take (Z.to_nat (stage_count p)) (stages p)).

(** What a stage of a valid plan satisfies. *)
Definition stage_valid (i : nat) (s : StagePlanStage) : Prop :=
  has_flag (flags s) (u32_not STAGE_KNOWN_FLAGS) = false /\
  first_layer_index s = sumZ (layer_count <$> take i live) /\
  layer_range_is_valid g (first_layer_index s) (layer_count s) = true /\
  (if has_flag (flags s) STAGE_FLAG_FINAL_TOKEN then Z.of_nat i + 1 = stage_count p
   else has_flag (flags s) STAGE_FLAG_OUTPUT_HIDDEN = true).

Record plan_valid : Prop := {
  pv_abi : abi_version p = ABI_VERSION /\ descriptor_bytes p = DESCRIPTOR_BYTES;
  pv_count : 1 <= stage_count p <= MAX_STAGE_COUNT;
  pv_table : stage_count p <= Z.of_nat (length (stages p));
  pv_stages : forall i s, live !! i = Some s -> stage_valid i s;
  pv_cover : sumZ (layer_count <$> live) = g_layer_count g;
  pv_final : exists s, live !! Z.to_nat (stage_count p - 1) = Some s /\
    has_flag (flags s) STAGE_FLAG_FINAL_TOKEN = true;
}.

Lemma lookup_zip_range {A} lo (l : list A) (i : nat) x s :
  zip (range lo (lo + Z.of_nat (length l))) l !! i = Some (x, s) <-> x = lo + Z.of_nat i /\ l !! i = Some s.
Proof.
  rewrite lookup_zip_with_Some. split.
  - intros (a&b&[= -> ->]&Ha&Hb). apply lookup_range in Ha as [Ha _]. done.
  - intros [-> Hs]. exists (lo + Z.of_nat i), s. split_and!; [done| |done].
    apply lookup_range. apply lookup_lt_Some in Hs. lia.
Qed.

Lemma validate_stage_spec i s expected finals :
  0 <= g_layer_count g <= U32_MAX -> 1 <= stage_count p <= MAX_STAGE_COUNT ->
  live !! i = Some s -> 0 <= first_layer_index s -> 0 <= layer_count s -> 0 <= finals <= 1 ->
  expected = sumZ (layer_count <$> take i live) ->
  wp (validate_stage g (stage_count p) (Z.of_nat i, s) (expected, finals))
    (fun r _ => stage_valid i s /\ r = (sumZ (layer_count <$> take (S i) live),
       finals + b2z (has_flag (flags s) STAGE_FLAG_FINAL_TOKEN)))
    (fun _ _ => ~ stage_valid i s) tt.
Proof.
  intros HL Hn Hi Hf Hk Hfin ->. unfold validate_stage, stage_valid.
  destruct (has_flag (flags s) (u32_not STAGE_KNOWN_FLAGS)); wp_steps; [naive_solver|].
  destruct (Z.eqb_spec (first_layer_index s) (sumZ (layer_count <$> take i live))) as [Hfi|]; cbn [negb]; wp_steps; [|naive_solver].
  destruct (layer_range_is_valid g (first_layer_index s) (layer_count s)) eqn:Hv; cbn [negb]; wp_steps; [|naive_solver].
  destruct (range_valid_bounds g _ _ HL Hf Hk Hv) as [Hk0 Hb].
  assert (sumZ (layer_count <$> take (S i) live) = first_layer_index s + layer_count s) as ->.
  { rewrite (take_S_r _ _ s) by done. rewrite fmap_app, sumZ_app, <- Hfi. cbn [fmap list_fmap]. rewrite sumZ_cons.
    change (sumZ []) with 0. lia. }
  destruct (has_flag (flags s) STAGE_FLAG_FINAL_TOKEN).
  - destruct (Z.eqb_spec (Z.of_nat i + 1) (stage_count p)); cbn [negb]; wp_steps; [|naive_solver].
    split; [done|]. rewrite !u32_small by lia. done.
  - destruct (has_flag (flags s) STAGE_FLAG_OUTPUT_HIDDEN); cbn [negb]; wp_steps; [|naive_solver].
    split; [done|]. rewrite u32_small by lia. f_equal. simpl. lia.
Qed.

(** [validate] accepts exactly the valid plans. *)
Lemma validate_spec :
  0 <= g_layer_count g <= U32_MAX -> 0 <= stage_count p ->
  Forall (fun s => 0 <= first_layer_index s /\ 0 <= layer_count s) (stages p) ->
  wp (validate g p) (fun _ _ => plan_valid) (fun _ _ => ~ plan_valid) tt.
Proof.
  intros HL Hc0 Hst. unfold validate.
  destruct (Z.eqb_spec (abi_version p) ABI_VERSION), (Z.eqb_spec (descriptor_bytes p) DESCRIPTOR_BYTES);
    cbn [negb orb]; wp_steps; try (intros [[? ?]]; done).
  destruct (Z.eqb_spec (stage_count p) 0); cbn [orb]; wp_steps; [intros [_ ?]; lia|].
  destruct (Z.ltb_spec MAX_STAGE_COUNT (stage_count p)); wp_steps; [intros [_ ?]; lia|].
  destruct (Z.ltb_spec (Z.of_nat (length (stages p))) (stage_count p)); wp_steps; [intros [_ _ ?]; lia|].
  assert (length live = Z.to_nat (stage_count p)) as Hlive by (rewrite length_take; lia).
  replace (range 0 (stage_count p)) with (range 0 (0 + Z.of_nat (length live))) by (rewrite Hlive; f_equal; lia).
  set (zs := zip (range 0 (0 + Z.of_nat (length live))) live).
  assert (length zs = length live) as Hzs by (unfold zs; rewrite length_zip_with, length_range; lia).
  eapply wp_mono.
  - apply (wp_for_fold (fun pre acc _ => (forall i s, (i < length pre)%nat -> live !! i = Some s -> stage_valid i s) /\
      acc.1 = sumZ (layer_count <$> take (length pre) live) /\
      acc.2 = countb (fun s => has_flag (flags s) STAGE_FLAG_FINAL_TOKEN) (take (length pre) live))
      _ _ _ (fun _ _ => ~ plan_valid)).
    + split_and!; [simpl; lia|done|done].
    + intros pre [x s] post [expected finals] [] Hsplit (Hok&He&Hf). cbn [fst snd] in *. rewrite length_app. cbn [length].
      rewrite Nat.add_1_r. assert (zs !! length pre = Some (x, s)) as Hz.
      { rewrite Hsplit. rewrite lookup_app_r by lia. by rewrite Nat.sub_diag. }
      apply lookup_zip_range in Hz as [Hx Hs]. rewrite Z.add_0_l in Hx. subst x.
      pose proof (proj1 (Forall_lookup _ _) Hst (length pre) s) as Hs0.
      assert (stages p !! length pre = Some s) as Hsp by (apply lookup_take_Some in Hs; apply Hs).
      specialize (Hs0 Hsp). cbn beta in Hs0.
      assert (countb (fun s => has_flag (flags s) STAGE_FLAG_FINAL_TOKEN) (take (length pre) live) = 0) as Hc.
      { apply countb_0. intros i y Hy. apply lookup_take_Some in Hy as [Hy Hi]. destruct (Hok i y Hi Hy) as (_&_&_&Hfl).
        destruct (has_flag (flags y) STAGE_FLAG_FINAL_TOKEN); [|done]. apply lookup_lt_Some in Hs. lia. }
      eapply wp_mono; [apply (validate_stage_spec (length pre) s expected finals)| |]; try done; try lia.
      * intros [e' f'] [] [Hsv [= -> ->]]. cbn [fst snd]. split_and!; [|done|].
        { intros i y Hi Hy. destruct (decide (i = length pre)) as [->|]; [congruence|]. apply Hok; [lia|done]. }
        rewrite (take_S_r _ _ s) by done. rewrite countb_app. simpl. lia.
      * intros _ [] Hnot Hpv. apply Hnot. by apply (pv_stages Hpv).
  - intros [expected finals] [] (Hok&He&Hf). cbn [fst snd] in *. rewrite Hzs, !take_ge in He, Hf by lia.
    assert (forall i s, live !! i = Some s -> stage_valid i s) as Hall.
    { intros i s Hs. apply Hok; [|done]. rewrite Hzs. by eapply lookup_lt_Some. }
    destruct (Z.eqb_spec expected (g_layer_count g)); cbn [negb]; wp_steps; [|intros Hpv; by destruct (pv_cover Hpv)].
    destruct (Z.eqb_spec finals 1) as [Hf1|Hf1]; cbn [negb]; wp_steps.
    + split; try done; [lia|congruence|]. destruct (countb_pos _ live ltac:(rewrite <- Hf, Hf1; lia)) as (i&s&Hs&Hfl).
      exists s. split; [|done]. destruct (Hall i s Hs) as (_&_&_&Hlast). rewrite Hfl in Hlast.
      by replace (Z.to_nat (stage_count p - 1)) with i by lia.
    + intros Hpv. destruct (pv_final Hpv) as (s&Hs&Hfl). apply Hf1. rewrite Hf.
      rewrite <- (take_ge live (S (Z.to_nat (stage_count p - 1)))) by lia.
      rewrite (take_S_r _ _ s) by done. rewrite countb_app, countb_0; [simpl; rewrite Hfl; done|].
      intros i y Hy. apply lookup_take_Some in Hy as [Hy Hi]. destruct (Hall i y Hy) as (_&_&_&Hlast).
      destruct (has_flag (flags y) STAGE_FLAG_FINAL_TOKEN); [lia|done].
  - done.
Qed.

End validity.

(** ** Building plans *)

Fixpoint stages_of (first : Z) (ks : list Z) : list StagePlanStage :=
  match ks with [] => [] | k :: ks' => mkStage first k 0 0 :: stages_of (first + k) ks' end.

Lemma lookup_stages_of first ks i :
  stages_of first ks !! i = (fun k => mkStage (first + sumZ (take i ks)) k 0 0) <$> ks !! i.
Proof.
  revert first i. induction ks as [|k ks IH]; intros first [|i]; cbn [stages_of lookup list_lookup]; try done.
  - cbn. by rewrite Z.add_0_r.
  - rewrite IH. cbn [take]. rewrite sumZ_cons. destruct (ks !! i); [|done]. cbn. by rewrite Z.add_assoc.
Qed.

Lemma length_stages_of first ks : length (stages_of first ks) = length ks.
Proof. revert first. induction ks as [|k ks IH]; intros first; simpl; [done|]. by rewrite IH. Qed.

(** The flags [assign_stage_flags] writes. *)
Definition flagged (g : StagePlanGeometry) (n : Z) (built : list StagePlanStage) : list StagePlanStage :=
  imap (fun i s => s <| flags := stage_flags g n (Z.of_nat i) s |>) built.

Lemma stage_flags_ok g n i s :
  has_flag (stage_flags g n i s) (u32_not STAGE_KNOWN_FLAGS) = false /\
  has_flag (stage_flags g n i s) STAGE_FLAG_FINAL_TOKEN = negb (i + 1 <? n) /\
  has_flag (stage_flags g n i s) STAGE_FLAG_OUTPUT_HIDDEN = (i + 1 <? n).
Proof. unfold stage_flags. by destruct (i + 1 <? n), (_ && _). Qed.

(** The plan made of the stages [ks]. *)
Definition plan_of (g : StagePlanGeometry) (ks : list Z) : StagePlan :=
  mkStagePlan ABI_VERSION DESCRIPTOR_BYTES (Z.of_nat (length ks)) 0
    (flagged g (Z.of_nat (length ks)) (stages_of 0 ks)).

Lemma cuts_valid_lookup g first ks i k :
  cuts_valid g first ks = true -> ks !! i = Some k ->
  0 < k /\ layer_range_is_valid g (first + sumZ (take i ks)) k = true.
Proof.
  revert first i. induction ks as [|x ks IH]; intros first [|i] Hv Hk; simplify_eq/=;
    apply andb_true_iff in Hv as [Hv1 Hv2]; apply andb_true_iff in Hv1 as [Hp Hv1].
  - change (sumZ []) with 0. rewrite Z.add_0_r. split; [lia|done].
  - rewrite sumZ_cons, Z.add_assoc. by apply IH.
Qed.

Lemma plan_of_lookup g ks i s :
  stages (plan_of g ks) !! i = Some s ->
  exists k, ks !! i = Some k /\
    s = mkStage (sumZ (take i ks)) k (stage_flags g (Z.of_nat (length ks)) (Z.of_nat i) (mkStage (sumZ (take i ks)) k 0 0)) 0.
Proof.
  cbn [stages plan_of]. unfold flagged. rewrite list_lookup_imap, lookup_stages_of.
  destruct (ks !! i) as [k|]; [|done]. cbn. intros [= <-]. by exists k.
Qed.

Lemma plan_of_counts g ks : layer_count <$> stages (plan_of g ks) = ks.
Proof.
  apply list_eq. intros i. rewrite list_lookup_fmap. destruct (stages (plan_of g ks) !! i) as [s|] eqn:Hs.
  - destruct (plan_of_lookup g ks i s Hs) as (k&Hk&->). by rewrite Hk.
  - apply lookup_ge_None in Hs. symmetry. apply lookup_ge_None. cbn in Hs. unfold flagged in Hs.
    by rewrite length_imap, length_stages_of in Hs.
Qed.

Lemma plan_of_valid g ks :
  1 <= Z.of_nat (length ks) <= MAX_STAGE_COUNT -> cut_ok g ks -> plan_valid g (plan_of g ks).
Proof.
  intros Hn [Hv Hsum].
  assert (length (stages (plan_of g ks)) = length ks) as Hlen by (rewrite <- (plan_of_counts g ks) at 2; by rewrite length_fmap).
  assert (take (Z.to_nat (stage_count (plan_of g ks))) (stages (plan_of g ks)) = stages (plan_of g ks)) as Hlive.
  { apply take_ge. change (stage_count (plan_of g ks)) with (Z.of_nat (length ks)). lia. }
  split; rewrite ?Hlive; try done.
  - change (stage_count (plan_of g ks)) with (Z.of_nat (length ks)). lia.
  - intros i s Hs. unfold stage_valid. rewrite Hlive, fmap_take, plan_of_counts.
    destruct (plan_of_lookup g ks i s Hs) as (k&Hk&->). cbn [flags first_layer_index layer_count].
    destruct (stage_flags_ok g (Z.of_nat (length ks)) (Z.of_nat i) (mkStage (sumZ (take i ks)) k 0 0)) as (F1&F2&F3).
    rewrite F1, F2, F3. destruct (cuts_valid_lookup g 0 ks i k Hv Hk) as [_ Hr]. rewrite Z.add_0_l in Hr.
    split_and!; [done|done|done|]. apply lookup_lt_Some in Hk.
    destruct (Z.ltb_spec (Z.of_nat i + 1) (Z.of_nat (length ks))); cbn [negb]; [done|]. cbn. lia.
  - by rewrite plan_of_counts.
  - destruct (lookup_lt_is_Some_2 (stages (plan_of g ks)) (Z.to_nat (Z.of_nat (length ks) - 1))) as [s Hs]; [lia|].
    exists s. split; [done|]. destruct (plan_of_lookup g ks _ s Hs) as (k&Hk&->). cbn [flags].
    destruct (stage_flags_ok g (Z.of_nat (length ks)) (Z.of_nat (Z.to_nat (Z.of_nat (length ks) - 1)))
      (mkStage (sumZ (take (Z.to_nat (Z.of_nat (length ks) - 1)) ks)) k 0 0)) as (_&->&_).
    destruct (Z.ltb_spec (Z.of_nat (Z.to_nat (Z.of_nat (length ks) - 1)) + 1) (Z.of_nat (length ks))); [lia|done].
Qed.

(** The last steps of the builders accept every valid list of stages. *)
Lemma finish_spec g ks (Q : StagePlan -> unit -> Prop) (R : StagePlanError -> unit -> Prop) :
  0 <= g_layer_count g <= U32_MAX -> 1 <= Z.of_nat (length ks) <= MAX_STAGE_COUNT -> cut_ok g ks ->
  Q (plan_of g ks) tt ->
  wp (let! p := assign_stage_flags g (reset_plan <| stage_count := Z.of_nat (length ks) |> <| stages := stages_of 0 ks |>) in
      do! validate g p in ret p) Q R tt.
Proof.
  intros HL Hn Hcut HQ. unfold assign_stage_flags. cbn [stage_count stages]. cbn -[Z.of_nat Z.to_nat stages_of validate].
  rewrite length_stages_of. destruct (Z.ltb_spec (Z.of_nat (length ks)) (Z.of_nat (length ks))); [lia|]. wp_steps.
  rewrite Nat2Z.id, drop_ge, take_ge, app_nil_r by (rewrite length_stages_of; lia).
  change (wp (validate g (plan_of g ks)) (fun _ s' => wp (ret (plan_of g ks)) Q R s') R tt).
  destruct Hcut as [Hv Hsum]. pose proof (plan_of_valid g ks Hn (conj Hv Hsum)) as Hpv.
  eapply wp_mono; [apply validate_spec; [done|cbn; lia|]| |].
  - apply Forall_lookup. intros i s Hs. destruct (plan_of_lookup g ks i s Hs) as (k&Hk&->). cbn.
    destruct (cuts_valid_lookup g 0 ks i k Hv Hk) as [Hk0 _]. split; [|lia].
    apply sumZ_nonneg, Forall_take. eapply Forall_impl; [by eapply cuts_valid_pos|]. simpl. lia.
  - intros [] [] _. by wp_steps.
  - intros e [] Hnot. by destruct Hnot.
Qed.

(** ** Backtracking *)

Lemma reverse_range_split n pre s post :
  0 <= n -> reverse (range 1 (n + 1)) = pre ++ s :: post -> s = n - Z.of_nat (length pre) /\ 1 <= s <= n.
Proof.
  intros Hn H. assert (reverse (range 1 (n + 1)) !! length pre = Some s) as Hs.
  { rewrite H, lookup_app_r by lia. by rewrite Nat.sub_diag. }
  apply reverse_lookup_Some in Hs as [Hs Hlt]. rewrite length_range in *. apply lookup_range in Hs. lia.
Qed.

Lemma upd_last_default n f (rest : list StagePlanStage) :
  0 < n ->
  upd_nth (n - 1) f (replicate (Z.to_nat n) default_stage ++ rest) =
  replicate (Z.to_nat (n - 1)) default_stage ++ f default_stage :: rest.
Proof.
  intros Hn. unfold upd_nth. replace (Z.to_nat n) with (Z.to_nat (n - 1) + 1)%nat by lia.
  rewrite replicate_add, <- app_assoc. cbn [replicate app]. induction (Z.to_nat (n - 1)) as [|m IH]; [done|].
  cbn [replicate app]. by rewrite <- IH.
Qed.

Section backtracking.
Context (g : StagePlanGeometry) (costs : list Z) (final count : Z) (bc bs : list (list Z)).
Abbreviation L := (g_layer_count g).
Hypothesis HL : 0 <= L <= U32_MAX.
Hypothesis Hcount : 1 <= count <= 13.
Hypothesis Htables : tables_inv g costs final count (count + 1) 0 (bc, bs).

Lemma done_cell s l : 0 <= s <= count -> 0 <= l <= L -> cell_done g costs final count bc bs s l.
Proof. intros Hs Hl. destruct Htables as (_&_&Hc). apply Hc; [done|done|unfold before; lia]. Qed.

Lemma backtrack_spec best :
  cell bc count L = Some best -> best < UNREACHABLE_COST ->
  wp (backtrack bs count L)
    (fun built _ => exists ks, built = stages_of 0 ks /\ Z.of_nat (length ks) = count /\ cut_ok g ks /\
       max_stage_cost costs final 0 ks <= best)
    (fun _ _ => False) tt.
Proof.
  intros Hbest Hfin. unfold backtrack. wp_step. eapply wp_mono.
  - apply (wp_for_fold (fun pre acc _ => exists ks v, let s := count - Z.of_nat (length pre) in
      length ks = length pre /\ 0 <= acc.2 <= L /\ acc.1 = replicate (Z.to_nat s) default_stage ++ stages_of acc.2 ks /\
      cuts_valid g acc.2 ks = true /\ acc.2 + sumZ ks = L /\ cell bc s acc.2 = Some v /\ v < UNREACHABLE_COST /\
      Z.max v (max_stage_cost costs final acc.2 ks) = Z.max best 0) _ _ _ (fun _ _ => False)).
    + exists [], best. cbn [length fst snd stages_of cuts_valid max_stage_cost]. rewrite Z.sub_0_r, app_nil_r.
      change (sumZ []) with 0. split_and!; try done; lia.
    + intros pre s post [built l] [] Hsplit (ks&v&Hlk&Hl&Hbu&Hv&Hsum&Hcell&Hvu&Hmax).
      apply reverse_range_split in Hsplit as [-> Hs]; [|lia]. cbn [fst snd] in *. subst built.
      rewrite length_app. cbn [length]. set (s := count - Z.of_nat (length pre)) in *.
      replace (count - Z.of_nat (length pre + 1)) with (s - 1) by lia.
      destruct (done_cell s l) as (v'&p&Hc1&Hc2&Hvr&_&Hj); [lia|lia|].
      assert (v' = v) as -> by congruence. apply wp_bind. eapply wp_read2; [exact Hc2|].
      destruct (Hj Hvu) as [[? _]|(_&Hp&Hr&u&Hu&Huu&Hveq)]; [lia|].
      destruct (Z.eqb_spec p U32_MAX); [lia|]. wp_steps.
      exists ((l - p) :: ks), u. cbn [fst snd length]. rewrite upd_last_default by lia. rewrite u32_small by lia.
      cbn [stages_of cuts_valid max_stage_cost]. replace (p + (l - p)) with l by lia.
      rewrite Hr, Hv, sumZ_cons. split_and!; [lia|lia|lia|done| |lia|done|done|].
      * destruct (Z.ltb_spec 0 (l - p)); [done|lia].
      * assert (match ks with [] => final | _ => 0 end = charge final count s) as ->; [|lia].
        unfold charge. destruct (Z.eqb_spec s count), ks; cbn [length] in *; try done; lia.
  - intros [built l] [] (ks&v&Hlk&Hl&Hbu&Hv&Hsum&Hcell&Hvu&Hmax). cbn [fst snd] in *. subst built.
    assert (length (reverse (range 1 (count + 1))) = Z.to_nat count) as Hlen by (rewrite length_reverse, length_range; f_equal; lia).
    rewrite Hlen in *. replace (count - Z.of_nat (Z.to_nat count)) with 0 in * by lia.
    destruct (done_cell 0 l) as (v'&p&Hc1&_&_&_&Hj); [lia|lia|]. assert (v' = v) as -> by congruence.
    destruct (Hj Hvu) as [[_ ->]|(?&_)]; [|lia]. wp_steps. exists ks. cbn [replicate app Z.to_nat fst].
    split_and!; [done|lia| |].
    + split; [done|lia].
    + destruct (done_cell count L) as (b'&_&Hb&_&Hbr&_); [lia|lia|]. assert (b' = best) as -> by congruence. lia.
  - done.
Qed.

End backtracking.

(** ** The balanced builder *)

Lemma build_balanced_spec g costs final count :
  0 <= g_layer_count g <= U32_MAX -> Forall (fun x => 0 <= x <= U64_MAX) costs -> 0 <= final <= U64_MAX -> 0 <= count ->
  wp (build_balanced_with_final_cost g costs final count)
    (fun p _ => (forall i x, Z.of_nat i < g_layer_count g -> costs !! i = Some x -> 0 < x) /\
       exists ks, p = plan_of g ks /\ Z.of_nat (length ks) = count /\ cut_ok g ks /\
       max_stage_cost costs final 0 ks < UNREACHABLE_COST /\
       forall ks', Z.of_nat (length ks') = count -> cut_ok g ks' ->
         max_stage_cost costs final 0 ks <= max_stage_cost costs final 0 ks')
    (fun e _ =>
       (e = InvalidArgument "invalid balanced stage-plan input" /\
          (Z.of_nat (length costs) < g_layer_count g \/ count = 0 \/ MAX_STAGE_COUNT < count)) \/
       (e = InvalidArgument "layer cost cannot be zero" /\ exists i, Z.of_nat i < g_layer_count g /\ costs !! i = Some 0) \/
       (e = CapacityExceeded "layer cost prefix overflow" /\
          exists i, Z.of_nat i <= g_layer_count g /\ U64_MAX < sumZ (take i costs)) \/
       (e = CapacityExceeded "stage count cannot satisfy the cut rules" /\
          (forall i x, Z.of_nat i < g_layer_count g -> costs !! i = Some x -> 0 < x) /\
          forall ks, Z.of_nat (length ks) = count -> cut_ok g ks -> UNREACHABLE_COST <= max_stage_cost costs final 0 ks))
    tt.
Proof.
  intros HL Hcosts Hfinal Hc. unfold build_balanced_with_final_cost.
  match goal with |- wp (if ?g then _ else _) _ _ _ => destruct g eqn:Hg end; wp_steps.
  { left. split; [done|]. lia. }
  repeat (apply orb_false_iff in Hg as [Hg ?]). assert (1 <= count <= 13) as Hcount by (unfold MAX_STAGE_COUNT, CURRENT_SPARK_COUNT in *; lia).
  eapply wp_mono; [apply prefix_costs_spec; [lia|done]| |].
  2:{ intros e [] [?|?]; [right; by left|right; right; by left]. }
  intros prefix [] [Hprefix Hpos]. wp_steps.
  eapply wp_mono; [apply (fill_tables_spec g costs prefix final count); try done; apply initial_tables; done| |done].
  intros [bc bs] [] Htab. wp_steps.
  destruct (done_cell g costs final count bc bs Htab count (g_layer_count g)) as (best&p&Hb&_&Hbr&Hlow&_); [lia|lia|].
  eapply wp_read2; [exact Hb|]. cbv beta.
  assert (forall ks, Z.of_nat (length ks) = count -> cut_ok g ks ->
    best <= Z.min UNREACHABLE_COST (max_stage_cost costs final 0 ks)) as Hopt.
  { intros ks Hk [Hv Hs]. specialize (Hlow ks (conj Hk (conj Hv Hs))). unfold plan_cost, charge in Hlow.
    by rewrite Z.eqb_refl in Hlow. }
  destruct (Z.eqb_spec best UNREACHABLE_COST) as [->|Hne]; wp_steps.
  { right. right. right. split_and!; [done|done|]. intros ks Hk Hcut. specialize (Hopt ks Hk Hcut). lia. }
  eapply wp_mono; [eapply backtrack_spec; [done|done|exact Htab|exact Hb|lia]| |done].
  intros built [] (ks&->&Hk&Hcut&Hle). rewrite <- Hk.
  apply finish_spec; [done|unfold MAX_STAGE_COUNT, CURRENT_SPARK_COUNT; lia|done|].
  split; [done|]. exists ks. split_and!; [done|done|done|lia|]. intros ks' Hk' Hcut'. rewrite Hk in Hk'.
  specialize (Hopt ks' Hk' Hcut'). lia.
Qed.

(** A stage costs no more than the whole model and the final charge. *)
Lemma layers_cost_le costs first k :
  Forall (fun x => 0 <= x <= U64_MAX) costs -> layers_cost costs first k <= sumZ costs.
Proof.
  intros Hc. assert (forall l, Forall (fun x => 0 <= x <= U64_MAX) l -> 0 <= sumZ l) as Hn.
  { intros l Hl. apply sumZ_nonneg. eapply Forall_impl; [exact Hl|]. simpl. lia. }
  unfold layers_cost. rewrite <- (take_drop (Z.to_nat first) costs) at 2.
  rewrite <- (take_drop (Z.to_nat k) (drop (Z.to_nat first) costs)) at 2. rewrite !sumZ_app.
  pose proof (Hn (take (Z.to_nat first) costs) (Forall_take _ _ _ Hc)).
  pose proof (Hn (drop (Z.to_nat k) (drop (Z.to_nat first) costs)) (Forall_drop _ _ _ (Forall_drop _ _ _ Hc))). lia.
Qed.

Lemma max_stage_cost_le costs extra first ks :
  Forall (fun x => 0 <= x <= U64_MAX) costs -> 0 <= extra -> 0 <= sumZ costs ->
  max_stage_cost costs extra first ks <= sumZ costs + extra.
Proof.
  intros Hc He Hs. revert first. induction ks as [|k ks IH]; intros first; cbn [max_stage_cost]; [lia|].
  specialize (IH (first + k)). pose proof (layers_cost_le costs first k Hc). destruct ks; lia.
Qed.

(** ** Properties *)

(** C7. The balanced planner is optimal.  For a cost table that covers the model,
    with positive costs whose total (with the final charge) stays below the
    sentinel [u64::MAX / 4], it returns a plan of the requested number of stages
    that passes validation and whose slowest stage costs no more than that of any
    partition obeying the cut rules; and it fails only when no partition into that
    many stages obeys the cut rules. *)
Theorem balanced_plan_optimal g costs final count :
  0 <= g_layer_count g <= U32_MAX -> Forall (fun x => 0 < x <= U64_MAX) costs ->
  Z.of_nat (length costs) = g_layer_count g -> 0 <= final -> sumZ costs + final < UNREACHABLE_COST ->
  1 <= count <= MAX_STAGE_COUNT ->
  (exists ks, build_balanced_with_final_cost g costs final count tt = Ret (plan_of g ks) tt /\
     Z.of_nat (length ks) = count /\ cut_ok g ks /\ plan_valid g (plan_of g ks) /\
     forall ks', Z.of_nat (length ks') = count -> cut_ok g ks' ->
       max_stage_cost costs final 0 ks <= max_stage_cost costs final 0 ks') \/
  (build_balanced_with_final_cost g costs final count tt =
     Fails (CapacityExceeded "stage count cannot satisfy the cut rules") tt /\
   forall ks, Z.of_nat (length ks) = count -> ~ cut_ok g ks).
Proof.
  intros HL Hc Hlen Hf Hsum Hn. pose proof unreachable_range as HU.
  assert (Forall (fun x => 0 <= x <= U64_MAX) costs) as Hc' by (eapply Forall_impl; [exact Hc|]; simpl; lia).
  assert (forall l, Forall (fun x => 0 < x <= U64_MAX) l -> 0 <= sumZ l) as Hnn.
  { intros l Hl. apply sumZ_nonneg. eapply Forall_impl; [exact Hl|]. simpl. lia. }
  pose proof (Hnn costs Hc) as Hs0.
  destruct (wp_elim _ _ _ _ (build_balanced_spec g costs final count HL Hc' ltac:(lia) ltac:(lia)))
    as [(p&[]&Hr&_&ks&->&Hk&Hcut&_&Hopt)|(e&[]&Hr&He)].
  - left. exists ks. split_and!; [done|done|done| |done]. apply plan_of_valid; [lia|done].
  - right. destruct He as [[_ ?]|[[_ (i&Hi&Hz)]|[[_ (i&Hi&Ho)]|(->&_&Hno)]]].
    + lia.
    + pose proof (proj1 (Forall_lookup _ _) Hc i 0 Hz). simpl in *. lia.
    + rewrite <- (take_drop i costs), sumZ_app in Hsum.
      pose proof (Hnn (drop i costs) (Forall_drop _ _ _ Hc)). lia.
    + split; [done|]. intros ks Hk Hcut. specialize (Hno ks Hk Hcut).
      pose proof (max_stage_cost_le costs final 0 ks Hc' Hf Hs0). lia.
Qed.

Lemma balanced_plan_optimal_witness :
  exists ks, build_balanced_with_final_cost (mkGeometry 5 1 3) [7; 1; 1; 4; 4] 2 2 tt = Ret (plan_of (mkGeometry 5 1 3) ks) tt /\
    ks = [3; 2] /\ forall ks', Z.of_nat (length ks') = 2 -> cut_ok (mkGeometry 5 1 3) ks' ->
      max_stage_cost [7; 1; 1; 4; 4] 2 0 ks <= max_stage_cost [7; 1; 1; 4; 4] 2 0 ks'.
Proof.
  assert (match build_balanced_with_final_cost (mkGeometry 5 1 3) [7; 1; 1; 4; 4] 2 2 tt with
    | Ret p _ => layer_count <$> stages p | _ => [] end = [3; 2]) as Hv by (vm_compute; reflexivity).
  destruct (balanced_plan_optimal (mkGeometry 5 1 3) [7; 1; 1; 4; 4] 2 2) as [(ks&Hr&_&_&_&Hopt)|[Hr _]];
    [simpl; lia|repeat constructor; simpl; lia|reflexivity|lia|vm_compute; reflexivity|vm_compute; split; discriminate| |];
    rewrite Hr in Hv; [|discriminate Hv].
  rewrite plan_of_counts in Hv. exists ks. split; [exact Hr|]. split; [exact Hv|exact Hopt].
Defined.

Lemma chunk_shape_spec sequences rows capacity :
  0 <= sequences <= U32_MAX -> 0 <= rows <= U32_MAX -> 0 <= capacity <= U32_MAX ->
  match execution_chunk_shape sequences rows capacity tt with
  | Ret s _ => let per := maximum_sequences_per_chunk s in let n := chunk_count s in
      1 <= per <= sequences /\ per * rows <= Z.min capacity MAX_BATCH_BUCKET /\
      (n - 1) * per < sequences <= n * per /\
      (per < sequences -> Z.min capacity MAX_BATCH_BUCKET < (per + 1) * rows)
  | Fails (InvalidArgument _) _ => sequences = 0 \/ rows = 0 \/ capacity = 0
  | Fails (CapacityExceeded _) _ => Z.min capacity MAX_BATCH_BUCKET < rows
  | _ => False
  end.
Proof.
  intros Hs Hr Hc. unfold execution_chunk_shape.
  destruct (_ || _) eqn:Hg; [simpl; lia|]. apply orb_false_iff in Hg as [Hg Hc0]. apply orb_false_iff in Hg as [Hs0 Hr0].
  set (cap := Z.min capacity MAX_BATCH_BUCKET). assert (1 <= cap) as Hcap.
  { unfold cap, MAX_BATCH_BUCKET, BUCKET_B1024. lia. }
  pose proof (Z.div_mod cap rows ltac:(lia)) as Hdm. pose proof (Z.mod_pos_bound cap rows ltac:(lia)) as Hmb.
  destruct (Z.eqb_spec (cap / rows) 0) as [Hz|Hz]; [cbn; nia|].
  assert (0 <= cap / rows) as Hq by (apply Z.div_pos; lia).
  assert (cap <= U32_MAX) by (unfold cap; lia).
  set (per := if sequences <? cap / rows then sequences else cap / rows).
  assert (1 <= per <= sequences /\ per <= cap / rows /\ (per < sequences -> per = cap / rows)) as Hper.
  { unfold per. destruct (Z.ltb_spec sequences (cap / rows)); lia. }
  clearbody per. pose proof (Z.div_mod sequences per ltac:(lia)) as Hdm2.
  pose proof (Z.mod_pos_bound sequences per ltac:(lia)) as Hmb2.
  assert (0 <= sequences / per <= sequences) as Hd by (split; [apply Z.div_pos; lia|apply Z.div_le_upper_bound; nia]).
  cbn. destruct (Z.eqb_spec (sequences mod per) 0) as [Hm|Hm]; cbn [negb].
  - split_and!; try lia; nia.
  - assert (2 <= per) as Hp2 by lia. assert (sequences / per < U32_MAX) as Hlt by nia.
    rewrite u32_small by lia. split_and!; try lia; nia.
Qed.

(** [validate] accepts exactly the well-formed plans: the ABI words match, one
    to thirteen stages, each known flags only, each starting where the previous one
    ends and obeying the cut rules, non-final stages emitting hidden state, the last
    stage (and only it) emitting the token, and together covering every layer. *)
Theorem validate_exact g p :
  0 <= g_layer_count g <= U32_MAX -> 0 <= stage_count p ->
  Forall (fun s => 0 <= first_layer_index s /\ 0 <= layer_count s) (stages p) ->
  (validate g p tt = Ret tt tt <-> plan_valid g p) /\
  (validate g p tt = Ret tt tt \/ exists e, validate g p tt = Fails e tt).
Proof.
  intros HL Hc Hs. pose proof (validate_spec g p HL Hc Hs) as Hw.
  destruct (wp_elim _ _ _ _ Hw) as [([]&[]&Hr&Hv)|(e&[]&Hr&Hv)]; rewrite Hr.
  - split; [done|by left].
  - split; [split; [done|naive_solver]|right; by exists e].
Qed.

Lemma validate_exact_witness :
  validate (mkGeometry 5 1 3) (plan_of (mkGeometry 5 1 3) [3; 2]) tt = Ret tt tt /\
  plan_valid (mkGeometry 5 1 3) (plan_of (mkGeometry 5 1 3) [3; 2]).
Proof.
  assert (validate (mkGeometry 5 1 3) (plan_of (mkGeometry 5 1 3) [3; 2]) tt = Ret tt tt) as Hr by (vm_compute; reflexivity).
  split; [exact Hr|].
  apply (validate_exact (mkGeometry 5 1 3) (plan_of (mkGeometry 5 1 3) [3; 2])); [simpl; lia|simpl; lia| |exact Hr].
  repeat constructor; simpl; lia.
Defined.

Lemma cuts_valid_intro g first ks :
  (forall i k, ks !! i = Some k -> 0 < k /\ layer_range_is_valid g (first + sumZ (take i ks)) k = true) ->
  cuts_valid g first ks = true.
Proof.
  revert first. induction ks as [|k ks IH]; intros first H; cbn [cuts_valid]; [done|].
  destruct (H 0%nat k eq_refl) as [Hk Hr]. change (sumZ (take 0 (k :: ks))) with 0 in Hr. rewrite Z.add_0_r in Hr.
  rewrite Hr, IH; [destruct (Z.ltb_spec 0 k); [done|lia]|]. intros i x Hx.
  destruct (H (S i) x Hx) as [? Hr2]. cbn [take] in Hr2. rewrite sumZ_cons, Z.add_assoc in Hr2. done.
Qed.

Lemma plan_of_valid_inv g ks : Forall (fun k => 0 < k) ks -> plan_valid g (plan_of g ks) -> cut_ok g ks.
Proof.
  intros Hpos Hpv.
  assert (length (stages (plan_of g ks)) = length ks) as Hlen by (rewrite <- (plan_of_counts g ks) at 2; by rewrite length_fmap).
  assert (take (Z.to_nat (stage_count (plan_of g ks))) (stages (plan_of g ks)) = stages (plan_of g ks)) as Hlive.
  { apply take_ge. change (stage_count (plan_of g ks)) with (Z.of_nat (length ks)). lia. }
  split.
  - apply cuts_valid_intro. intros i k Hk. split; [exact (proj1 (Forall_lookup _ _) Hpos i k Hk)|].
    destruct (lookup_lt_is_Some_2 (stages (plan_of g ks)) i) as [s Hs]; [apply lookup_lt_Some in Hk; lia|].
    pose proof (pv_stages g _ Hpv i s) as Hsv. rewrite Hlive in Hsv. destruct (Hsv Hs) as (_&_&Hr&_).
    destruct (plan_of_lookup g ks i s Hs) as (k'&Hk'&->). simplify_eq. done.
  - pose proof (pv_cover g _ Hpv) as Hcov. by rewrite Hlive, plan_of_counts in Hcov.
Qed.

(** The table of stages the table-driven builder has pushed so far. *)
Lemma stages_of_snoc first ks k : stages_of first (ks ++ [k]) = stages_of first ks ++ [mkStage (first + sumZ ks) k 0 0].
Proof.
  revert first. induction ks as [|x ks IH]; intros first; cbn [stages_of app].
  - change (sumZ []) with 0. by rewrite Z.add_0_r.
  - rewrite IH, sumZ_cons. by rewrite Z.add_assoc.
Qed.

(** The table-driven builder returns the plan made of exactly the given layer
    counts when they obey the cut rules and cover the model, and otherwise refuses
    the table. *)
Theorem table_driven_plan g ks :
  0 <= g_layer_count g <= U32_MAX -> Forall (fun k => 0 <= k <= U32_MAX) ks ->
  1 <= Z.of_nat (length ks) <= MAX_STAGE_COUNT ->
  (build_from_layer_counts g ks tt = Ret (plan_of g ks) tt /\ cut_ok g ks) \/
  (exists e, build_from_layer_counts g ks tt = Fails e tt /\ ~ cut_ok g ks).
Proof.
  intros HL Hks Hn. unfold MAX_STAGE_COUNT, CURRENT_SPARK_COUNT in Hn.
  enough (wp (build_from_layer_counts g ks) (fun p _ => p = plan_of g ks /\ cut_ok g ks)
    (fun _ _ => ~ cut_ok g ks) tt) as Hw.
  { destruct (wp_elim _ _ _ _ Hw) as [(p&[]&Hr&->&Hc)|(e&[]&Hr&Hc)]; [by left|right; by exists e]. }
  unfold build_from_layer_counts, MAX_STAGE_COUNT, CURRENT_SPARK_COUNT.
  destruct (Z.eqb_spec (Z.of_nat (length ks)) 0); [lia|].
  destruct (Z.ltb_spec 13 (Z.of_nat (length ks))); [lia|]. cbn [orb]. wp_steps. rewrite u32_small by lia.
  set (p0 := reset_plan <| stage_count := _ |>).
  eapply wp_mono.
  - apply (wp_for_fold (fun pre acc _ => acc = (p0 <| stages := stages_of 0 pre |>, sumZ pre) /\
      Forall (fun k => 0 < k) pre /\ 0 <= sumZ pre <= g_layer_count g) _ _ _
      (fun _ _ => ~ cut_ok g ks)).
    + split_and!; [done|constructor|change (sumZ []) with 0; lia|change (sumZ []) with 0; lia].
    + intros pre k post acc [] Hsplit (->&Hpos&Hsum). cbn beta iota.
      rewrite u32_small by lia.
      assert (0 <= k <= U32_MAX) as Hk.
      { apply (proj1 (Forall_forall _ _) Hks). rewrite Hsplit. apply elem_of_app. right. left. }
      destruct (Z.eqb_spec k 0) as [->|Hk0]; cbn [orb].
      { wp_steps. intros [Hv _]. apply cuts_valid_pos in Hv. rewrite Hsplit in Hv.
        apply Forall_app in Hv as [_ Hv]. inversion Hv. lia. }
      destruct (Z.ltb_spec (g_layer_count g - sumZ pre) k); wp_steps.
      { intros [Hv Hs]. rewrite Hsplit, sumZ_app, sumZ_cons in Hs.
        assert (0 <= sumZ post); [|lia]. apply sumZ_nonneg. apply cuts_valid_pos in Hv. rewrite Hsplit in Hv.
        apply Forall_app in Hv as [_ Hv]. apply Forall_cons_1 in Hv as [_ Hv]. eapply Forall_impl; [exact Hv|]. simpl. lia. }
      rewrite sumZ_app, stages_of_snoc. change (sumZ [k]) with (k + 0). rewrite u32_small, Z.add_0_r by lia.
      split_and!; [done|apply Forall_app; split; [done|]; constructor; [lia|constructor]|lia|lia].
  - intros acc [] (->&Hpos&Hsum). wp_step. unfold assign_stage_flags.
    change (stage_count (p0 <| stages := stages_of 0 ks |>)) with (Z.of_nat (length ks)).
    change (stages (p0 <| stages := stages_of 0 ks |>)) with (stages_of 0 ks).
    rewrite length_stages_of. destruct (Z.ltb_spec (Z.of_nat (length ks)) (Z.of_nat (length ks))); [lia|]. wp_steps.
    rewrite Nat2Z.id, drop_ge, take_ge, app_nil_r by (rewrite length_stages_of; lia).
    match goal with |- wp (validate g ?q) _ _ _ => change q with (plan_of g ks) end.
    eapply wp_mono; [apply validate_spec; [done|cbn; lia|]| |].
    + apply Forall_lookup. intros i s Hs. destruct (plan_of_lookup g ks i s Hs) as (k&Hk&->). cbn.
      pose proof (proj1 (Forall_lookup _ _) Hpos i k Hk). split; [|simpl in *; lia].
      apply sumZ_nonneg, Forall_take. eapply Forall_impl; [exact Hpos|]. simpl. lia.
    + intros [] [] Hpv. wp_steps. split; [done|]. by apply plan_of_valid_inv.
    + intros e [] Hnot Hc. apply Hnot, plan_of_valid; [unfold MAX_STAGE_COUNT, CURRENT_SPARK_COUNT; lia|done].
  - done.
Qed.

Lemma table_driven_plan_witness :
  build_from_layer_counts (mkGeometry 5 1 3) [3; 2] tt = Ret (plan_of (mkGeometry 5 1 3) [3; 2]) tt /\
  cut_ok (mkGeometry 5 1 3) [3; 2].
Proof.
  destruct (table_driven_plan (mkGeometry 5 1 3) [3; 2]) as [H|(e&Hr&_)];
    [simpl; lia|repeat constructor; simpl; lia|vm_compute; split; discriminate|exact H|].
  vm_compute in Hr. discriminate Hr.
Defined.

(** [select_batch_bucket] returns the smallest supported bucket that holds the
    active sequences, refuses zero as an invalid argument, and refuses more than the
    largest bucket for want of capacity. *)
Theorem batch_bucket_smallest n :
  0 <= n ->
  (n = 0 /\ exists m, select_batch_bucket n tt = Fails (InvalidArgument m) tt) \/
  (MAX_BATCH_BUCKET < n /\ exists m, select_batch_bucket n tt = Fails (CapacityExceeded m) tt) \/
  (exists b, select_batch_bucket n tt = Ret b tt /\ batch_bucket_is_supported b = true /\ n <= b /\
     forall b', batch_bucket_is_supported b' = true -> n <= b' -> b <= b').
Proof.
  intros Hn. unfold select_batch_bucket. destruct (Z.eqb_spec n 0) as [->|Hn0]; [left; split; [done|by eexists]|].
  right. unfold select_batch_bucket_value. destruct (Z.eqb_spec n 0) as [|_]; [done|]. cbn [orb].
  destruct (Z.ltb_spec MAX_BATCH_BUCKET n) as [Hb|Hb]; [left; split; [done|by eexists]|]. right.
  assert (forall b', batch_bucket_is_supported b' = true -> b' ∈ BATCH_BUCKETS) as Hin.
  { intros b' H. unfold batch_bucket_is_supported in H. by apply bool_decide_eq_true in H. }
  unfold MAX_BATCH_BUCKET, BATCH_BUCKETS, BUCKET_B16, BUCKET_B32, BUCKET_B64, BUCKET_B128, BUCKET_B256, BUCKET_B512, BUCKET_B1024 in *.
  cbn [first_bucket].
  repeat match goal with |- context [n <=? ?b] => destruct (Z.leb_spec n b) end; try lia.
  all: eexists; split; [reflexivity|]; split; [reflexivity|]; split; [lia|]; intros b' Hs Hle; apply Hin in Hs.
  all: repeat (apply elem_of_cons in Hs as [->|Hs]; [lia|]); by apply elem_of_nil in Hs.
Qed.

Lemma batch_bucket_smallest_witness :
  exists b, select_batch_bucket 33 tt = Ret b tt /\ batch_bucket_is_supported b = true /\ 33 <= b.
Proof.
  destruct (batch_bucket_smallest 33 ltac:(lia)) as [[H _]|[[H _]|(b&Hr&Hs&Hle&_)]];
    [discriminate H|vm_compute in H; discriminate H|].
  exists b. split; [exact Hr|]. split; [exact Hs|exact Hle].
Defined.

(** An execution chunk shape covers the batch exactly: every chunk fits the row
    capacity (itself capped by the largest bucket), the chunks hold all sequences, one
    chunk fewer would not, and no larger chunk would fit; a shape is refused only for a
    zero input or when a single sequence does not fit. *)
Theorem chunk_shape_exact sequences rows capacity :
  0 <= sequences <= U32_MAX -> 0 <= rows <= U32_MAX -> 0 <= capacity <= U32_MAX ->
  match execution_chunk_shape sequences rows capacity tt with
  | Ret s _ => let per := maximum_sequences_per_chunk s in let n := chunk_count s in
      1 <= per <= sequences /\ per * rows <= Z.min capacity MAX_BATCH_BUCKET /\
      (n - 1) * per < sequences <= n * per /\
      (per < sequences -> Z.min capacity MAX_BATCH_BUCKET < (per + 1) * rows)
  | Fails (InvalidArgument _) _ => sequences = 0 \/ rows = 0 \/ capacity = 0
  | Fails (CapacityExceeded _) _ => Z.min capacity MAX_BATCH_BUCKET < rows
  | _ => False
  end.
Proof. apply chunk_shape_spec. Qed.

Lemma chunk_shape_exact_witness :
  exists s, execution_chunk_shape 100 3 200 tt = Ret s tt /\ maximum_sequences_per_chunk s = 66 /\
    (chunk_count s - 1) * 66 < 100 <= chunk_count s * 66.
Proof.
  pose proof (chunk_shape_exact 100 3 200 ltac:(lia) ltac:(lia) ltac:(lia)) as H.
  destruct (execution_chunk_shape 100 3 200 tt) as [s []|e []| |] eqn:Hr; [|vm_compute in Hr; discriminate Hr..].
  exists s. split; [reflexivity|]. assert (maximum_sequences_per_chunk s = 66) as Hp.
  { assert (match execution_chunk_shape 100 3 200 tt with Ret s _ => maximum_sequences_per_chunk s | _ => 0 end = 66)
      as Hv by (vm_compute; reflexivity). rewrite Hr in Hv. exact Hv. }
  split; [exact Hp|]. destruct H as (_&_&H&_). rewrite Hp in H. exact H.
Defined.

(** ** Measured profiles *)

Lemma store_costs_spec base remainder first a n costs :
  0 <= first -> 0 <= a -> first + n <= U32_MAX ->
  let r := store_costs base remainder first (range a n) costs in
  length r = length costs /\
  forall i, r !! i = if (bool_decide (first + a <= Z.of_nat i < first + n) && bool_decide (i < length costs)%nat)
                     then Some (base +u64 b2z (Z.of_nat i - first <? remainder)) else costs !! i.
Proof.
  intros Hf Ha Hn. remember (Z.to_nat (n - a)) as d eqn:Hd. revert a costs Ha Hd.
  induction d as [|d IH]; intros a costs Ha Hd.
  - rewrite range_nil by lia. cbn. split; [done|]. intros i. case_bool_decide; [lia|done].
  - assert (range a n = a :: range (a + 1) n) as ->.
    { unfold range. rewrite seqZ_cons by lia. f_equal. f_equal; lia. }
    cbn [store_costs]. rewrite u32_small by lia.
    destruct (Z.leb_spec (Z.of_nat (length costs)) (first + a)) as [Hge|Hlt].
    + split; [done|]. intros i. repeat case_bool_decide; try done. lia.
    + destruct (IH (a + 1) (upd_nth (first + a) (fun _ => base +u64 b2z (a <? remainder)) costs) ltac:(lia) ltac:(lia))
        as [Hl Hr]. rewrite length_upd_nth in *. split; [done|]. intros i. rewrite Hr.
      destruct (decide (i = Z.to_nat (first + a))) as [->|Hne].
      * destruct (lookup_Some_range costs (first + a)) as [x Hx]; [lia|].
        rewrite (lookup_upd_nth_eq _ _ _ x) by done.
        replace (Z.of_nat (Z.to_nat (first + a)) - first) with a by lia.
        repeat case_bool_decide; try lia; done.
      * rewrite lookup_upd_nth_ne by done. repeat case_bool_decide; try lia; done.
Qed.

(** The measured costs: positive and far below overflow. *)
Definition measured (x : Z) : Prop := 0 < x < 4294967296.

Lemma load_ring_spec segments costs :
  Forall (fun s => 0 <= s.1 /\ s.1 + 6 <= U32_MAX /\ 6 <= s.2 < 4294967296) segments ->
  let r := foldl (fun costs x => store_uniform_segment_cost x.2 x.1 6 costs) costs segments in
  length r = length costs /\
  forall i, (i < length costs)%nat ->
    ((exists s, s ∈ segments /\ s.1 <= Z.of_nat i < s.1 + 6) -> exists x, r !! i = Some x /\ measured x) /\
    ((forall s, s ∈ segments -> ~ s.1 <= Z.of_nat i < s.1 + 6) -> r !! i = costs !! i).
Proof.
  intros Hs r. subst r. induction segments as [|s segments IH] using rev_ind.
  - split; [done|]. intros i Hi. split; [|done]. intros (s&Hin&_). by apply elem_of_nil in Hin.
  - apply Forall_app in Hs as [Hs1 Hs2]. destruct (IH Hs1) as [Hl Hr]. rewrite foldl_app. cbn [foldl].
    inversion Hs2 as [|? ? Hs _]; subst. set (F := foldl _ costs segments) in *. unfold store_uniform_segment_cost.
    destruct (store_costs_spec (s.2 / 6) (s.2 mod 6) s.1 0 6 F) as [Hl2 Hr2]; [lia|lia|lia|].
    split; [congruence|]. intros i Hi. rewrite Hr2. rewrite Hl. rewrite (bool_decide_true (i < length costs)%nat) by done.
    rewrite andb_true_r. rewrite Z.add_0_r. case_bool_decide as Hin.
    + split; [|intros Hno; by destruct (Hno s); [apply elem_of_app; right; left|]].
      intros _. eexists. split; [done|]. unfold measured.
      assert (1 <= s.2 / 6 <= 715827883) as Hd.
      { split; [apply Z.div_le_lower_bound; lia|]. apply Z.div_le_upper_bound; lia. }
      rewrite u64_small; destruct (_ <? _); simpl; lia.
    + destruct (Hr i Hi) as [H1 H2]. split.
      * intros (s'&Hs'&Hc). apply elem_of_app in Hs' as [Hs'|Hs']; [apply H1; by exists s'|].
        apply list_elem_of_singleton in Hs' as ->. done.
      * intros Hno. apply H2. intros s' Hs'. apply Hno. apply elem_of_app. by left.
Qed.

(** The ring measures layers 0 to 77. *)
Lemma ring_covers stage_costs costs :
  length stage_costs = 13%nat -> Forall (fun c => 6 <= c < 4294967296) stage_costs ->
  let r := load_ring_profile stage_costs costs in
  length r = length costs /\ forall i, (i < length costs)%nat ->
    (Z.of_nat i < 78 -> exists x, r !! i = Some x /\ measured x) /\ (78 <= Z.of_nat i -> r !! i = costs !! i).
Proof.
  intros Hl Hc. unfold load_ring_profile.
  assert (Forall (fun f => exists j, f = 6 * Z.of_nat j /\ (j < 13)%nat) ring_first_layers) as Hring.
  { unfold ring_first_layers. repeat (constructor; [match goal with |- exists j, ?f = _ /\ _ =>
      let n := eval vm_compute in (Z.to_nat (f / 6)) in exists n; split; [reflexivity|lia] end|]). constructor. }
  assert (forall j, (j < 13)%nat -> ring_first_layers !! j = Some (6 * Z.of_nat j)) as Hlook.
  { intros j Hj. do 13 (destruct j as [|j]; [reflexivity|]). lia. }
  destruct (load_ring_spec (zip ring_first_layers stage_costs) costs) as [L1 L2].
  { apply Forall_lookup. intros k [f c] Hk. apply lookup_zip_with_Some in Hk as (f'&c'&[= <- <-]&Hf&Hcc).
    destruct (proj1 (Forall_lookup _ _) Hring k f Hf) as (j&->&Hj). pose proof (proj1 (Forall_lookup _ _) Hc k c Hcc).
    cbn in *. lia. }
  split; [done|]. intros i Hi. destruct (L2 i Hi) as [H1 H2]. split.
  - intros Hlt. apply H1. set (j := Z.to_nat (Z.of_nat i / 6)).
    assert (0 <= Z.of_nat i / 6 < 13) as Hd by (split; [apply Z.div_pos; lia|apply Z.div_lt_upper_bound; lia]).
    destruct (lookup_lt_is_Some_2 stage_costs j) as [c Hcj]; [lia|].
    exists (6 * Z.of_nat j, c). split.
    + apply (list_elem_of_lookup_2 _ j). apply lookup_zip_with_Some. exists (6 * Z.of_nat j), c.
      split_and!; [done|apply Hlook; lia|done].
    + cbn [fst]. pose proof (Z.div_mod (Z.of_nat i) 6). pose proof (Z.mod_pos_bound (Z.of_nat i) 6). lia.
  - intros Hge. apply H2. intros [f c] Hin. apply list_elem_of_lookup_1 in Hin as [k Hk].
    apply lookup_zip_with_Some in Hk as (f'&c'&[= <- <-]&Hf&_).
    destruct (proj1 (Forall_lookup _ _) Hring k f Hf) as (j&->&Hj). cbn [fst]. lia.
Qed.

(** A profile that costs exactly the measured layers, below [bound]. *)
Definition ring_profile (bound n : Z) (costs : list Z) : Prop :=
  Z.of_nat (length costs) = n /\
  (forall i x, costs !! i = Some x -> Z.of_nat i < 78 -> 0 < x < bound) /\
  (forall i x, costs !! i = Some x -> 78 <= Z.of_nat i -> x = 0).

Lemma ring_profile_load n stage_costs :
  0 <= n -> length stage_costs = 13%nat -> Forall (fun c => 6 <= c < 4294967296) stage_costs ->
  ring_profile 4294967296 n (load_ring_profile stage_costs (replicate (Z.to_nat n) 0)).
Proof.
  intros Hn Hl Hc. destruct (ring_covers stage_costs (replicate (Z.to_nat n) 0) Hl Hc) as [L1 L2].
  rewrite length_replicate in *. split_and!; [lia| |].
  - intros i x Hx Hi. destruct (L2 i) as [H1 _]; [rewrite <- L1; by eapply lookup_lt_Some|].
    destruct (H1 Hi) as (y&Hy&Hm). assert (y = x) as -> by congruence. done.
  - intros i x Hx Hi. assert (i < Z.to_nat n)%nat as Hlt by (rewrite <- L1; by eapply lookup_lt_Some).
    destruct (L2 i Hlt) as [_ H2]. rewrite (H2 Hi), lookup_replicate_2 in Hx by done. congruence.
Qed.

Lemma ring_profile_scale b n costs :
  128 < b <= 1024 -> ring_profile 4294967296 n costs -> ring_profile 1099511627776 n (scale_cost b 128 <$> costs).
Proof.
  intros Hb (H1&H2&H3).
  assert (forall x, 0 <= x < 4294967296 -> (x = 0 -> scale_cost b 128 x = 0) /\ (0 < x -> 0 < scale_cost b 128 x < 1099511627776)) as Hs.
  { intros x Hx. unfold scale_cost. rewrite u64_small by nia.
    destruct (div_ceil_spec (x * b) 128 ltac:(nia) ltac:(lia)) as [H|[Ha Hc]]; nia. }
  split_and!; [by rewrite length_fmap| |]; intros i x Hx Hi; apply list_lookup_fmap_Some in Hx as (y&->&Hy).
  - pose proof (H2 i y Hy Hi). apply Hs; lia.
  - rewrite (H3 i y Hy Hi). apply Hs; lia.
Qed.

Lemma ring_profile_sum bound n costs i :
  0 < bound -> ring_profile bound n costs -> sumZ (take i costs) <= 78 * bound.
Proof.
  intros Hb (H1&H2&H3). enough (sumZ (take i costs) <= Z.of_nat (i `min` 78) * bound) by nia.
  induction i as [|i IH]; [done|]. destruct (costs !! i) as [x|] eqn:Hx.
  - rewrite (sumZ_take_S _ _ x) by done. destruct (Z.lt_ge_cases (Z.of_nat i) 78).
    + pose proof (H2 i x Hx). replace (Z.of_nat (S i `min` 78)) with (Z.of_nat (i `min` 78) + 1) by lia. nia.
    + rewrite (H3 i x Hx) by lia. replace (S i `min` 78)%nat with (i `min` 78)%nat by lia. lia.
  - apply lookup_ge_None in Hx. rewrite (take_ge _ (S i)), <- (take_ge costs i) by lia. nia.
Qed.

Lemma load_measured_spec g b :
  0 <= g_layer_count g -> batch_bucket_is_supported b = true ->
  exists p, load_measured_cost_profile g MEASURED_PROFILE_20260701 b tt = Ret p tt /\
    ring_profile 1099511627776 (g_layer_count g) (layer_cost_ns p) /\ 0 <= final_stage_extra_cost_ns p <= U64_MAX.
Proof.
  intros HL Hb.
  assert (forall bs, length bs = 13%nat -> Forall (fun c => 6 <= c < 4294967296) bs ->
    ring_profile 4294967296 (g_layer_count g) (load_ring_profile bs (replicate (Z.to_nat (g_layer_count g)) 0))) as Hload
    by (intros; by apply ring_profile_load).
  assert (forall c, ring_profile 4294967296 (g_layer_count g) c -> ring_profile 1099511627776 (g_layer_count g) c) as Hweak.
  { intros c (H1&H2&H3). split_and!; [done| |done]. intros i x Hx Hi. pose proof (H2 i x Hx Hi). lia. }
  assert (Forall (fun c => 6 <= c < 4294967296) b64_stage_costs /\ Forall (fun c => 6 <= c < 4294967296) b128_stage_costs /\
    Forall (fun c => 6 <= c < 4294967296) b32_stage_costs) as (C64&C128&C32).
  { split_and!; repeat constructor; lia. }
  unfold load_measured_cost_profile, load_measured_cost_profile_for_quantization, bind, catch, normalize, ret.
  rewrite Z.eqb_refl. cbn [negb]. pose proof Hb as Hin. unfold batch_bucket_is_supported in Hin.
  apply bool_decide_eq_true in Hin.
  repeat (apply elem_of_cons in Hin as [->|Hin]); [..|by apply elem_of_nil in Hin]; cbn -[load_ring_profile replicate scale_cost];
    (eexists; split; [reflexivity|]); cbn -[load_ring_profile replicate scale_cost]; (split; [|vm_compute; done]).
  all: try (apply Hweak, Hload; done).
  all: apply ring_profile_scale; [vm_compute; done|]; apply Hload; done.
Qed.

(** The measured profiles describe the measured ring and nothing more: for every
    supported bucket the loaded profile has one cost per layer of the model, positive
    for layers 0 to 77 and zero beyond, so a measured plan for a deeper model is
    refused for its unmeasured layers. *)
Theorem measured_profile_covers_ring g b count :
  0 <= g_layer_count g <= U32_MAX -> batch_bucket_is_supported b = true ->
  (exists p, load_measured_cost_profile g MEASURED_PROFILE_20260701 b tt = Ret p tt /\
     Z.of_nat (length (layer_cost_ns p)) = g_layer_count g /\
     forall i x, layer_cost_ns p !! i = Some x -> (0 < x <-> Z.of_nat i < 78)) /\
  (78 < g_layer_count g -> 1 <= count <= MAX_STAGE_COUNT ->
     build_measured_balanced g MEASURED_PROFILE_20260701 b count tt =
       Fails (InvalidArgument "layer cost cannot be zero") tt).
Proof.
  intros HL Hb. destruct (load_measured_spec g b (proj1 HL) Hb) as (p&Hp&Hr&Hx). pose proof Hr as (R1&R2&R3). split.
  - exists p. split_and!; [done|done|]. intros i x Hi. split; intros H.
    + destruct (Z.lt_ge_cases (Z.of_nat i) 78); [done|]. rewrite (R3 i x Hi) in H by lia. lia.
    + by apply (R2 i x Hi).
  - intros Hd Hc. unfold build_measured_balanced, build_measured_balanced_for_quantization, bind at 1, catch.
    unfold load_measured_cost_profile in Hp. rewrite Hp.
    assert (Forall (fun x => 0 <= x <= U64_MAX) (layer_cost_ns p)) as Hcosts.
    { apply Forall_lookup. intros i x Hi. destruct (Z.lt_ge_cases (Z.of_nat i) 78); [pose proof (R2 i x Hi); lia|].
      rewrite (R3 i x Hi) by lia. lia. }
    assert (forall P : Prop, (forall i x, Z.of_nat i < g_layer_count g -> layer_cost_ns p !! i = Some x -> 0 < x) -> P) as Hzero.
    { intros P Hpos. exfalso. destruct (lookup_lt_is_Some_2 (layer_cost_ns p) 78) as [x Hi]; [lia|].
      pose proof (R3 78%nat x Hi ltac:(lia)). pose proof (Hpos 78%nat x ltac:(lia) Hi). lia. }
    destruct (wp_elim _ _ _ _ (build_balanced_spec g (layer_cost_ns p) (final_stage_extra_cost_ns p) count HL Hcosts Hx ltac:(lia)))
      as [(q&[]&_&Hpos&_)|(e&[]&He&Hcase)]; [by apply Hzero|]. rewrite He.
    destruct Hcase as [[_ ?]|[[-> _]|[[_ (i&_&Ho)]|(_&Hpos&_)]]]; [lia|done| |by apply Hzero].
    pose proof (ring_profile_sum 1099511627776 _ _ i ltac:(lia) Hr). lia.
Qed.

Lemma measured_profile_covers_ring_witness :
  build_measured_balanced (new_geometry 79 3) MEASURED_PROFILE_20260701 64 13 tt =
    Fails (InvalidArgument "layer cost cannot be zero") tt.
Proof.
  apply (measured_profile_covers_ring (new_geometry 79 3) 64 13);
    [simpl; lia|reflexivity|simpl; lia|vm_compute; split; discriminate].
Defined.
