(* ===== verification/LongContext.v ===== *)
(** * Long-context scheduling: definitions ([crates/spark-sched/src/long_context.rs])

    The policy that chooses which tokens of a long context a decode step reads, and
    the chunked-prefill plan.  The caller's selection buffer is the state of the
    computations; a lane of a batch runs on its part of the buffer. *)

From stdpp Require Import gmap.
From S2P Require Import Prelude.

Definition INVALID_TOKEN_ID : Z := 0xffffffff.

Definition MAX_SELECTED_TOKEN_CAPACITY : Z := 4096.

Definition DEFAULT_BLOCK_TOKEN_COUNT : Z := 16.

Definition DEFAULT_RECENT_TOKEN_COUNT : Z := 1536.

Definition DEFAULT_SINK_TOKEN_COUNT : Z := 128.

Definition DEFAULT_STRIDE_SAMPLE_TOKEN_COUNT : Z := 384.

Definition DEFAULT_LONG_CONTEXT_THRESHOLD : Z := 8192.

Definition POLICY_FLAG_REQUIRE_BOUNDED_DECODE : Z := 0x1.

Definition POLICY_FLAG_INCLUDE_SINK_TOKENS : Z := 0x2.

Definition POLICY_FLAG_INCLUDE_STRIDED_MIDDLE_TOKENS : Z := 0x4.

Definition POLICY_FLAG_INCLUDE_RECENT_TOKENS : Z := 0x8.

Definition POLICY_FLAG_FAIL_ON_CONTEXT_OVERFLOW : Z := 0x10.

Definition POLICY_FLAG_ALLOW_FULL_CONTEXT_SCAN : Z := 0x20.

Definition POLICY_DEFAULT_FLAGS : Z :=
  Z.lor (Z.lor (Z.lor (Z.lor POLICY_FLAG_REQUIRE_BOUNDED_DECODE POLICY_FLAG_INCLUDE_SINK_TOKENS)
    POLICY_FLAG_INCLUDE_STRIDED_MIDDLE_TOKENS) POLICY_FLAG_INCLUDE_RECENT_TOKENS)
    POLICY_FLAG_FAIL_ON_CONTEXT_OVERFLOW.

Definition POLICY_KNOWN_FLAGS : Z := Z.lor POLICY_DEFAULT_FLAGS POLICY_FLAG_ALLOW_FULL_CONTEXT_SCAN.

Definition DECODE_PLAN_FLAG_BOUNDED_SELECTION : Z := 0x1.

Definition DECODE_PLAN_FLAG_FULL_CONTEXT_SCAN : Z := 0x2.

Definition DECODE_PLAN_FLAG_LONG_CONTEXT : Z := 0x4.

Definition DECODE_PLAN_FLAG_CONTEXT_TRUNCATED : Z := 0x8.

Definition DECODE_PLAN_FLAG_SELECTION_PADDED : Z := 0x10.

Definition PREFILL_PLAN_FLAG_CHUNKED_PREFILL : Z := 0x1.

Definition PREFILL_PLAN_FLAG_LONG_CONTEXT : Z := 0x2.

Inductive LongContextError := InvalidArgument | CapacityExceeded.

Inductive PolicyMode := BoundedWindow | FullContextScan.

Definition is_full_scan (m : PolicyMode) : bool := match m with FullContextScan => true | BoundedWindow => false end.

Record LongContextPolicy := mkPolicy {
  policy_mode : PolicyMode;
  policy_flags : Z;
  max_context_tokens : Z;
  selected_token_capacity : Z;
  block_token_count : Z;
  recent_token_count : Z;
  sink_token_count : Z;
  stride_sample_token_count : Z;
  maximum_decode_scan_token_count : Z;
  prefill_chunk_token_count : Z;
  long_context_threshold_token_count : Z;
}.

#[export] Instance LongContextPolicy_eta : RecordEta LongContextPolicy := fun p =>
  mkPolicy (policy_mode p) (policy_flags p) (max_context_tokens p) (selected_token_capacity p)
    (block_token_count p) (recent_token_count p) (sink_token_count p) (stride_sample_token_count p)
    (maximum_decode_scan_token_count p) (prefill_chunk_token_count p) (long_context_threshold_token_count p).

Record DecodePlan := mkDecodePlan {
  dp_flags : Z;
  dp_context_token_count : Z;
  dp_selected_token_count : Z;
  dp_selected_token_capacity : Z;
  dp_padded_token_count : Z;
  dp_selected_block_count : Z;
  dp_kv_block_token_count : Z;
  dp_kv_block_count_for_context : Z;
  dp_first_recent_token_index : Z;
  dp_maximum_decode_scan_token_count : Z;
  dp_sink_token_count : Z;
  dp_stride_sample_token_count : Z;
  dp_recent_token_count : Z;
  dp_estimated_attention_token_reads : Z;
  dp_avoided_full_scan_token_reads : Z;
}.

#[export] Instance DecodePlan_eta : RecordEta DecodePlan := fun d =>
  mkDecodePlan (dp_flags d) (dp_context_token_count d) (dp_selected_token_count d)
    (dp_selected_token_capacity d) (dp_padded_token_count d) (dp_selected_block_count d)
    (dp_kv_block_token_count d) (dp_kv_block_count_for_context d) (dp_first_recent_token_index d)
    (dp_maximum_decode_scan_token_count d) (dp_sink_token_count d) (dp_stride_sample_token_count d)
    (dp_recent_token_count d) (dp_estimated_attention_token_reads d) (dp_avoided_full_scan_token_reads d).

Record PrefillPlan := mkPrefillPlan {
  pp_flags : Z;
  pp_prompt_token_count : Z;
  pp_max_prefill_tokens_per_step : Z;
  pp_prefill_chunk_count : Z;
  pp_final_chunk_token_count : Z;
  pp_kv_block_token_count : Z;
  pp_kv_block_count_for_prompt : Z;
  pp_total_prompt_token_visits : Z;
}.

Definition ceil_div_u32 (numerator denominator : Z) : Z :=
  if denominator =? 0 then 0 else u32 (div_ceil numerator denominator).

(** ** Policies *)

(** [LongContextPolicy::new] *)
Definition new_policy (default_max_context_tokens default_selected_token_capacity : Z) : LongContextPolicy :=
  mkPolicy BoundedWindow POLICY_DEFAULT_FLAGS default_max_context_tokens default_selected_token_capacity
    DEFAULT_BLOCK_TOKEN_COUNT DEFAULT_RECENT_TOKEN_COUNT DEFAULT_SINK_TOKEN_COUNT
    DEFAULT_STRIDE_SAMPLE_TOKEN_COUNT default_selected_token_capacity default_selected_token_capacity
    DEFAULT_LONG_CONTEXT_THRESHOLD.

(** A field of zero takes its default. *)
Definition or_default (x d : Z) : Z := if x =? 0 then d else x.

Definition normalized (p : LongContextPolicy) : LongContextPolicy :=
  p <| policy_flags := or_default (policy_flags p) POLICY_DEFAULT_FLAGS |>
    <| block_token_count := or_default (block_token_count p) DEFAULT_BLOCK_TOKEN_COUNT |>
    <| recent_token_count := or_default (recent_token_count p) DEFAULT_RECENT_TOKEN_COUNT |>
    <| sink_token_count := or_default (sink_token_count p) DEFAULT_SINK_TOKEN_COUNT |>
    <| stride_sample_token_count :=
         or_default (stride_sample_token_count p) DEFAULT_STRIDE_SAMPLE_TOKEN_COUNT |>
    <| maximum_decode_scan_token_count :=
         or_default (maximum_decode_scan_token_count p) (selected_token_capacity p) |>
    <| prefill_chunk_token_count := or_default (prefill_chunk_token_count p) (selected_token_capacity p) |>
    <| long_context_threshold_token_count :=
         or_default (long_context_threshold_token_count p) DEFAULT_LONG_CONTEXT_THRESHOLD |>.

Definition validate {S} (self : LongContextPolicy) : M S LongContextError unit :=
  let p := normalized self in
  if has_flag (policy_flags p) (u32_not POLICY_KNOWN_FLAGS)
     || (max_context_tokens p =? 0) || (selected_token_capacity p =? 0)
     || (MAX_SELECTED_TOKEN_CAPACITY <? selected_token_capacity p) || (block_token_count p =? 0)
     || (maximum_decode_scan_token_count p =? 0)
     || (selected_token_capacity p <? maximum_decode_scan_token_count p)
     || (prefill_chunk_token_count p =? 0)
  then throw InvalidArgument
  else if has_flag (policy_flags p) POLICY_FLAG_REQUIRE_BOUNDED_DECODE
     && is_full_scan (policy_mode p)
     && negb (has_flag (policy_flags p) POLICY_FLAG_ALLOW_FULL_CONTEXT_SCAN)
  then throw InvalidArgument
  else if negb (has_flag (policy_flags p) POLICY_FLAG_INCLUDE_SINK_TOKENS)
     && negb (has_flag (policy_flags p) POLICY_FLAG_INCLUDE_STRIDED_MIDDLE_TOKENS)
     && negb (has_flag (policy_flags p) POLICY_FLAG_INCLUDE_RECENT_TOKENS)
  then throw InvalidArgument
  else ret tt.

(** ** Prefill *)

Definition build_prefill_plan {S} (self : LongContextPolicy) (prompt_token_count max_prefill_tokens_per_step : Z)
    : M S LongContextError PrefillPlan :=
  if prompt_token_count =? 0 then throw InvalidArgument
  else
    do! validate self in
    let p := normalized self in
    if (max_context_tokens p <? prompt_token_count)
       && has_flag (policy_flags p) POLICY_FLAG_FAIL_ON_CONTEXT_OVERFLOW
    then throw CapacityExceeded
    else
      let step := if max_prefill_tokens_per_step =? 0 then prefill_chunk_token_count p
                  else max_prefill_tokens_per_step in
      let chunk_count := ceil_div_u32 prompt_token_count step in
      let final_chunk := prompt_token_count mod step in
      let final_chunk := if final_chunk =? 0 then step else final_chunk in
      let flags := if 1 <? chunk_count then PREFILL_PLAN_FLAG_CHUNKED_PREFILL else 0 in
      let flags := if long_context_threshold_token_count p <=? prompt_token_count
                   then Z.lor flags PREFILL_PLAN_FLAG_LONG_CONTEXT else flags in
      ret (mkPrefillPlan flags prompt_token_count step chunk_count final_chunk (block_token_count p)
             (ceil_div_u32 prompt_token_count (block_token_count p)) prompt_token_count).

(** ** Decode selection *)

(** The caller's buffer of token indices. *)
Abbreviation LM := (M (list Z) LongContextError).

Definition build_full_selection (p : LongContextPolicy) (context_token_count capacity : Z) (plan : DecodePlan)
    : LM DecodePlan :=
  if (capacity <? context_token_count) || (maximum_decode_scan_token_count p <? context_token_count)
  then throw CapacityExceeded
  else
    let! buffer := gets id in
    let! _head := slice buffer 0 capacity in
    do! modify (write_slice 0 capacity (range 0 capacity)) in
    let! buffer := gets id in
    let! _tail := slice buffer context_token_count capacity in
    do! modify (write_slice context_token_count capacity
          (replicate (Z.to_nat (capacity - context_token_count)) INVALID_TOKEN_ID)) in
    let plan := plan <| dp_selected_token_count := context_token_count |>
      <| dp_padded_token_count := capacity -u32 context_token_count |>
      <| dp_selected_block_count := ceil_div_u32 context_token_count (block_token_count p) |>
      <| dp_estimated_attention_token_reads := context_token_count |> in
    let plan := if context_token_count <? capacity
                then plan <| dp_flags := Z.lor (dp_flags plan) DECODE_PLAN_FLAG_SELECTION_PADDED |> else plan in
    ret (if is_full_scan (policy_mode p)
         then plan <| dp_flags := Z.lor (dp_flags plan) DECODE_PLAN_FLAG_FULL_CONTEXT_SCAN |>
         else plan <| dp_flags := Z.lor (dp_flags plan) DECODE_PLAN_FLAG_BOUNDED_SELECTION |>).

Definition append_unique_token (capacity token_index : Z) (selection : list Z) : list Z :=
  if (capacity <=? u32 (Z.of_nat (length selection))) || (token_index =? INVALID_TOKEN_ID) then selection
  else if bool_decide (token_index ∈ selection) then selection
  else selection ++ [token_index].

(** [blocks.insert(..)] over the selection, then [blocks.len()]. *)
Definition count_unique_blocks (selection : list Z) (block_tokens : Z) : Z :=
  u32 (Z.of_nat (size (foldl (fun (blocks : gset Z) t =>
    if t =? INVALID_TOKEN_ID then blocks else {[t / block_tokens]} ∪ blocks) ∅ selection))).

(** The last loop: it breaks when the selection is full. *)
Fixpoint append_recent (capacity : Z) (tokens : list Z) (selection : list Z) : list Z :=
  match tokens with
  | [] => selection
  | t :: ts =>
      if capacity <=? u32 (Z.of_nat (length selection)) then selection
      else append_recent capacity ts (append_unique_token capacity t selection)
  end.

(** The sampled token of the middle. *)
Definition middle_token (middle_begin middle_end stride_count i : Z) : Z :=
  let numerator := (i +u64 1) *u64 sat_sub middle_end middle_begin in
  let t := middle_begin +u32 u32 (numerator / (stride_count +u64 1)) in
  if middle_end <=? t then middle_end -u32 1 else t.

(** What [build_bounded_selection] chooses: the selection, the sink, stride and
    recent-begin counts. *)
Definition bounded_selection (p : LongContextPolicy) (context_token_count capacity : Z)
    : list Z * Z * Z * Z :=
  let sink_count :=
    if has_flag (policy_flags p) POLICY_FLAG_INCLUDE_SINK_TOKENS
    then Z.min (Z.min (sink_token_count p) context_token_count) capacity else 0 in
  let selection := foldl (fun sel t => append_unique_token capacity t sel) [] (range 0 sink_count) in
  let recent_count :=
    if has_flag (policy_flags p) POLICY_FLAG_INCLUDE_RECENT_TOKENS
       && (u32 (Z.of_nat (length selection)) <? capacity)
    then Z.min (Z.min (recent_token_count p) (capacity -u32 u32 (Z.of_nat (length selection)))) context_token_count
    else 0 in
  let recent_begin := sat_sub context_token_count recent_count in
  let recent_begin := if recent_begin <? sink_count then sink_count else recent_begin in
  let middle_token_count := sat_sub recent_begin sink_count in
  let sample := has_flag (policy_flags p) POLICY_FLAG_INCLUDE_STRIDED_MIDDLE_TOKENS
    && negb (middle_token_count =? 0) && (u32 (Z.of_nat (length selection)) <? capacity) in
  let stride_count :=
    if sample
    then Z.min (Z.min (stride_sample_token_count p) (capacity -u32 u32 (Z.of_nat (length selection))))
           middle_token_count
    else 0 in
  let selection :=
    foldl (fun sel i => append_unique_token capacity (middle_token sink_count recent_begin stride_count i) sel)
      selection (range 0 stride_count) in
  let selection := append_recent capacity (range recent_begin context_token_count) selection in
  (selection, sink_count, stride_count, recent_begin).

Definition build_bounded_selection (p : LongContextPolicy) (context_token_count capacity : Z) (plan : DecodePlan)
    : LM DecodePlan :=
  let '(selection, sink_count, stride_count, recent_begin) := bounded_selection p context_token_count capacity in
  let len := Z.of_nat (length selection) in
  let! buffer := gets id in
  let! _head := slice buffer 0 len in
  do! modify (write_slice 0 len selection) in
  let! buffer := gets id in
  let! _tail := slice buffer len capacity in
  do! modify (write_slice len capacity (replicate (Z.to_nat (capacity - len)) INVALID_TOKEN_ID)) in
  let selected := u32 len in
  let plan := plan <| dp_flags := Z.lor (dp_flags plan) DECODE_PLAN_FLAG_BOUNDED_SELECTION |>
    <| dp_selected_token_count := selected |>
    <| dp_padded_token_count := capacity -u32 selected |>
    <| dp_selected_block_count := count_unique_blocks selection (block_token_count p) |>
    <| dp_first_recent_token_index := recent_begin |>
    <| dp_sink_token_count := sink_count |> <| dp_stride_sample_token_count := stride_count |>
    <| dp_recent_token_count := context_token_count -u32 recent_begin |>
    <| dp_estimated_attention_token_reads := selected |>
    <| dp_avoided_full_scan_token_reads := sat_sub context_token_count selected |> in
  let plan := if selected <? capacity
              then plan <| dp_flags := Z.lor (dp_flags plan) DECODE_PLAN_FLAG_SELECTION_PADDED |> else plan in
  ret (if selected <? context_token_count
       then plan <| dp_flags := Z.lor (dp_flags plan) DECODE_PLAN_FLAG_CONTEXT_TRUNCATED |> else plan).

Definition build_decode_selection (self : LongContextPolicy) (context_token_count : Z) : LM DecodePlan :=
  let! buffer := gets id in
  if (context_token_count =? 0) || (Z.of_nat (length buffer) =? 0) then throw InvalidArgument
  else
    do! validate self in
    let p := normalized self in
    let capacity := Z.min (u32 (Z.of_nat (length buffer))) (selected_token_capacity p) in
    if (max_context_tokens p <? context_token_count)
       && has_flag (policy_flags p) POLICY_FLAG_FAIL_ON_CONTEXT_OVERFLOW
    then throw CapacityExceeded
    else
      let flags := if long_context_threshold_token_count p <=? context_token_count
                   then DECODE_PLAN_FLAG_LONG_CONTEXT else 0 in
      let plan := mkDecodePlan flags context_token_count 0 capacity 0 0 (block_token_count p)
        (ceil_div_u32 context_token_count (block_token_count p)) 0 (maximum_decode_scan_token_count p)
        0 0 0 0 0 in
      if is_full_scan (policy_mode p) then
        if negb (has_flag (policy_flags p) POLICY_FLAG_ALLOW_FULL_CONTEXT_SCAN) then throw InvalidArgument
        else build_full_selection p context_token_count capacity plan
      else if (context_token_count <=? capacity)
              && (context_token_count <=? maximum_decode_scan_token_count p)
      then build_full_selection p context_token_count capacity plan
      else
        let! plan := build_bounded_selection p context_token_count capacity plan in
        if maximum_decode_scan_token_count p <? dp_selected_token_count plan
        then throw CapacityExceeded else ret plan.

(** A lane works on [&mut selected_token_indices[lo..hi]]. *)
Definition on_lane {A} (lo hi : Z) (m : LM A) : LM A :=
  let! buffer := gets id in
  let! _lane := slice buffer lo hi in
  zoom (fun b => take (Z.to_nat (hi - lo)) (drop (Z.to_nat lo) b)) (fun lane b => write_slice lo hi lane b)
    (fun e => e) m.

Definition build_decode_selection_for_lane_batch (self : LongContextPolicy) (context_token_counts : list Z)
    (stride capacity : Z) : LM (list DecodePlan) :=
  let lane_count := Z.of_nat (length context_token_counts) in
  if (lane_count =? 0) || (stride =? 0) || (capacity =? 0) || (stride <? capacity)
  then throw InvalidArgument
  else
    let required_len := ((lane_count - 1) *u64 stride) +u64 capacity in
    let! buffer := gets id in
    if Z.of_nat (length buffer) <? required_len then throw InvalidArgument
    else
      for_fold (zip (range 0 lane_count) context_token_counts) (fun x plans =>
        let '(lane_index, context_token_count) := x in
        let lane_start := lane_index *u64 stride in
        let! plan := on_lane lane_start (lane_start +u64 capacity)
                       (build_decode_selection self context_token_count) in
        ret (plans ++ [plan])) [].
