(* ===== verification/LongContextProps.v ===== *)
(** * Long-context scheduling: theorems

    A decode selection is a strictly increasing list of in-range tokens written at the
    head of the caller's buffer and padded to capacity; what the bounded mode
    selects is given exactly; prefill chunks cover the prompt; the lanes of a batch
    are independent. *)

From stdpp Require Import gmap sorting.
From S2P Require Import Prelude LongContext.

(** ** Policies whose fields are [u32] values *)

Definition policy_u32 (p : LongContextPolicy) : Prop :=
  0 <= max_context_tokens p <= U32_MAX /\ 0 <= selected_token_capacity p <= U32_MAX /\
  0 <= block_token_count p <= U32_MAX /\ 0 <= recent_token_count p <= U32_MAX /\
  0 <= sink_token_count p <= U32_MAX /\ 0 <= stride_sample_token_count p <= U32_MAX /\
  0 <= maximum_decode_scan_token_count p <= U32_MAX /\ 0 <= prefill_chunk_token_count p <= U32_MAX.

(** What [validate] accepts, after normalisation. *)
Definition policy_valid (self : LongContextPolicy) : Prop :=
  let p := normalized self in
  has_flag (policy_flags p) (u32_not POLICY_KNOWN_FLAGS) = false /\
  max_context_tokens p <> 0 /\ 1 <= selected_token_capacity p <= MAX_SELECTED_TOKEN_CAPACITY /\
  1 <= block_token_count p /\
  1 <= maximum_decode_scan_token_count p <= selected_token_capacity p /\
  1 <= prefill_chunk_token_count p /\
  (policy_mode p = FullContextScan -> has_flag (policy_flags p) POLICY_FLAG_REQUIRE_BOUNDED_DECODE = true ->
   has_flag (policy_flags p) POLICY_FLAG_ALLOW_FULL_CONTEXT_SCAN = true) /\
  (has_flag (policy_flags p) POLICY_FLAG_INCLUDE_SINK_TOKENS = true \/
   has_flag (policy_flags p) POLICY_FLAG_INCLUDE_STRIDED_MIDDLE_TOKENS = true \/
   has_flag (policy_flags p) POLICY_FLAG_INCLUDE_RECENT_TOKENS = true).

Lemma normalized_u32 p : policy_u32 p -> policy_u32 (normalized p).
Proof.
  unfold policy_u32, normalized, or_default. cbn.
  unfold DEFAULT_BLOCK_TOKEN_COUNT, DEFAULT_RECENT_TOKEN_COUNT, DEFAULT_SINK_TOKEN_COUNT,
    DEFAULT_STRIDE_SAMPLE_TOKEN_COUNT.
  intros. repeat case_match; lia.
Qed.

Lemma policy_validate_spec {S} p (s : S) :
  policy_u32 p ->
  (validate p s = Ret tt s /\ policy_valid p) \/ (validate p s = Fails InvalidArgument s /\ ~ policy_valid p).
Proof.
  intros (?&?&?&?&?&?&?&?)%normalized_u32. unfold validate, policy_valid.
  set (q := normalized p) in *. clearbody q.
  destruct (has_flag (policy_flags q) (u32_not POLICY_KNOWN_FLAGS)) eqn:?; cbn [orb].
  { right. split; [done|]. intros (?&_). done. }
  destruct (Z.eqb_spec (max_context_tokens q) 0); cbn [orb]; [right; split; [done|tauto]|].
  destruct (Z.eqb_spec (selected_token_capacity q) 0); cbn [orb]; [right; split; [done|lia]|].
  destruct (Z.ltb_spec MAX_SELECTED_TOKEN_CAPACITY (selected_token_capacity q)); cbn [orb];
    [right; split; [done|lia]|].
  destruct (Z.eqb_spec (block_token_count q) 0); cbn [orb]; [right; split; [done|lia]|].
  destruct (Z.eqb_spec (maximum_decode_scan_token_count q) 0); cbn [orb]; [right; split; [done|lia]|].
  destruct (Z.ltb_spec (selected_token_capacity q) (maximum_decode_scan_token_count q)); cbn [orb];
    [right; split; [done|lia]|].
  destruct (Z.eqb_spec (prefill_chunk_token_count q) 0); cbn [orb]; [right; split; [done|lia]|].
  destruct (has_flag (policy_flags q) POLICY_FLAG_REQUIRE_BOUNDED_DECODE) eqn:?,
    (policy_mode q), (has_flag (policy_flags q) POLICY_FLAG_ALLOW_FULL_CONTEXT_SCAN) eqn:?,
    (has_flag (policy_flags q) POLICY_FLAG_INCLUDE_SINK_TOKENS) eqn:?,
    (has_flag (policy_flags q) POLICY_FLAG_INCLUDE_STRIDED_MIDDLE_TOKENS) eqn:?,
    (has_flag (policy_flags q) POLICY_FLAG_INCLUDE_RECENT_TOKENS) eqn:?; cbn [andb negb is_full_scan];
    (left; split; [done|]; repeat split; try done; try lia; by auto) || (right; split; [done|]; intuition congruence).
Qed.

(** ** Selections *)

(** A legal selection: no duplicates, within capacity, within the context. *)
Definition selection_ok (capacity ctx : Z) (sel : list Z) : Prop :=
  NoDup sel /\ Z.of_nat (length sel) <= capacity /\ Forall (fun t => 0 <= t < ctx) sel.

Lemma append_unique_ok capacity ctx t sel :
  0 <= capacity <= MAX_SELECTED_TOKEN_CAPACITY -> 0 <= t < ctx -> selection_ok capacity ctx sel ->
  selection_ok capacity ctx (append_unique_token capacity t sel).
Proof.
  unfold MAX_SELECTED_TOKEN_CAPACITY. intros Hc Ht (Hnd & Hlen & Hin). unfold append_unique_token.
  rewrite u32_small by lia.
  destruct (Z.leb_spec capacity (Z.of_nat (length sel))); cbn [orb]; [done|].
  destruct (t =? INVALID_TOKEN_ID); [done|].
  case_bool_decide as Hel; [done|].
  split_and!.
  - apply NoDup_app. repeat split; [done|set_solver|apply NoDup_singleton].
  - rewrite length_app. simpl. lia.
  - apply Forall_app. split; [done|by apply Forall_singleton].
Qed.

Lemma foldl_append_ok {X} capacity ctx (f : X -> Z) xs sel :
  0 <= capacity <= MAX_SELECTED_TOKEN_CAPACITY -> Forall (fun x => 0 <= f x < ctx) xs ->
  selection_ok capacity ctx sel ->
  selection_ok capacity ctx (foldl (fun sel x => append_unique_token capacity (f x) sel) sel xs).
Proof.
  intros Hc Hxs. revert sel. induction Hxs as [|x xs Hx Hxs IH]; intros sel Hsel; simpl; [done|].
  apply IH. by apply append_unique_ok.
Qed.

Lemma append_recent_ok capacity ctx xs sel :
  0 <= capacity <= MAX_SELECTED_TOKEN_CAPACITY -> Forall (fun t => 0 <= t < ctx) xs ->
  selection_ok capacity ctx sel -> selection_ok capacity ctx (append_recent capacity xs sel).
Proof.
  intros Hc Hxs. revert sel. induction Hxs as [|x xs Hx Hxs IH]; intros sel Hsel; simpl; [done|].
  destruct (_ <=? _); [done|]. apply IH. by apply append_unique_ok.
Qed.

(** ** Order *)

Lemma range_sorted a n : StronglySorted Z.lt (range a (a + n)).
Proof.
  destruct (Z.le_gt_cases 0 n) as [Hn|Hn]; [|unfold range; rewrite seqZ_nil by lia; constructor].
  pattern n. apply natlike_ind; [|clear n Hn|done].
  - unfold range. rewrite seqZ_nil by lia. constructor.
  - intros n Hn IH. rewrite <- Z.add_1_r, Z.add_assoc, range_snoc by lia. apply StronglySorted_app. split_and!; [|done|repeat constructor].
    intros x y Hx%elem_of_range Hy%list_elem_of_singleton. lia.
Qed.

(** Appending a token that is not below any other keeps the selection increasing. *)
Lemma append_unique_sorted capacity t sel :
  StronglySorted Z.lt sel -> Forall (fun x => x <= t) sel ->
  StronglySorted Z.lt (append_unique_token capacity t sel) /\ Forall (fun x => x <= t) (append_unique_token capacity t sel).
Proof.
  intros Hs Hle. unfold append_unique_token. destruct (_ || _); [done|]. case_bool_decide as Hel; [done|]. split.
  - apply StronglySorted_app. split_and!; [|done|repeat constructor]. intros x y Hx ->%list_elem_of_singleton.
    rewrite Forall_forall in Hle. pose proof (Hle x Hx) as Hxt. cbn in Hxt. destruct (decide (x = t)) as [->|]; [done|lia].
  - apply Forall_app. split; [done|]. apply Forall_singleton. lia.
Qed.

Lemma foldl_append_sorted capacity ys sel :
  StronglySorted Z.lt sel -> StronglySorted Z.le ys -> (forall x y, x ∈ sel -> y ∈ ys -> x <= y) ->
  StronglySorted Z.lt (foldl (fun sel t => append_unique_token capacity t sel) sel ys).
Proof.
  intros Hs Hys. revert sel Hs. induction Hys as [|y ys Hys IH Hy]; intros sel Hs Hle; cbn [foldl]; [done|].
  destruct (append_unique_sorted capacity y sel Hs) as [Hs' Hle'].
  { apply Forall_forall. intros x Hx. apply Hle; [done|set_solver]. }
  apply IH; [done|]. intros x z Hx Hz. rewrite Forall_forall in Hle', Hy. pose proof (Hle' x Hx). pose proof (Hy z Hz). lia.
Qed.

Lemma append_recent_sorted capacity ys sel :
  StronglySorted Z.lt sel -> StronglySorted Z.le ys -> (forall x y, x ∈ sel -> y ∈ ys -> x <= y) ->
  StronglySorted Z.lt (append_recent capacity ys sel).
Proof.
  intros Hs Hys. revert sel Hs. induction Hys as [|y ys Hys IH Hy]; intros sel Hs Hle; cbn [append_recent]; [done|].
  destruct (_ <=? _); [done|]. destruct (append_unique_sorted capacity y sel Hs) as [Hs' Hle'].
  { apply Forall_forall. intros x Hx. apply Hle; [done|set_solver]. }
  apply IH; [done|]. intros x z Hx Hz. rewrite Forall_forall in Hle', Hy. pose proof (Hle' x Hx). pose proof (Hy z Hz). lia.
Qed.

Lemma sorted_le (l : list Z) : StronglySorted Z.lt l -> StronglySorted Z.le l.
Proof. induction 1 as [|x l _ IH Hx]; constructor; [done|]. eapply Forall_impl; [exact Hx|]. lia. Qed.

(** Tokens of a selection come from its parts. *)
Lemma elem_of_foldl_append_inv capacity ys sel x :
  x ∈ foldl (fun sel t => append_unique_token capacity t sel) sel ys -> x ∈ sel \/ x ∈ ys.
Proof.
  revert sel. induction ys as [|y ys IH]; intros sel; cbn [foldl]; [by left|]. intros [Hx|Hx]%IH; [|set_solver].
  unfold append_unique_token in Hx. repeat case_match; set_solver.
Qed.

(** Without reaching the capacity nothing is dropped. *)
Lemma elem_of_append_unique capacity t sel x :
  Z.of_nat (length sel) < capacity <= MAX_SELECTED_TOKEN_CAPACITY -> t <> INVALID_TOKEN_ID ->
  x ∈ append_unique_token capacity t sel <-> x = t \/ x ∈ sel.
Proof.
  unfold MAX_SELECTED_TOKEN_CAPACITY. intros ??. unfold append_unique_token. rewrite u32_small by lia.
  destruct (Z.leb_spec capacity (Z.of_nat (length sel))); [lia|].
  destruct (Z.eqb_spec t INVALID_TOKEN_ID); [done|]. cbn [orb].
  case_bool_decide; set_solver.
Qed.

Lemma length_append_unique capacity t sel :
  (length (append_unique_token capacity t sel) <= S (length sel))%nat.
Proof. unfold append_unique_token. repeat case_match; rewrite ?length_app; simpl; lia. Qed.

Lemma elem_of_foldl_append {X} capacity (f : X -> Z) xs sel x :
  Z.of_nat (length sel) + Z.of_nat (length xs) <= capacity <= MAX_SELECTED_TOKEN_CAPACITY ->
  Forall (fun i => f i <> INVALID_TOKEN_ID) xs ->
  x ∈ foldl (fun sel i => append_unique_token capacity (f i) sel) sel xs <->
    x ∈ sel \/ exists i, i ∈ xs /\ x = f i.
Proof.
  intros Hlen Hxs. revert sel Hlen.
  induction Hxs as [|i xs Hi Hxs IH]; intros sel Hlen; simpl in *; [set_solver|].
  pose proof (length_append_unique capacity (f i) sel).
  rewrite IH, elem_of_append_unique by (done || lia). set_solver.
Qed.

Lemma length_foldl_append {X} capacity (f : X -> Z) xs sel :
  (length (foldl (fun sel i => append_unique_token capacity (f i) sel) sel xs) <= length sel + length xs)%nat.
Proof.
  revert sel. induction xs as [|i xs IH]; intros sel; simpl; [lia|].
  pose proof (IH (append_unique_token capacity (f i) sel)).
  pose proof (length_append_unique capacity (f i) sel). lia.
Qed.

Lemma append_recent_foldl capacity xs sel :
  Z.of_nat (length sel) + Z.of_nat (length xs) <= capacity <= MAX_SELECTED_TOKEN_CAPACITY ->
  append_recent capacity xs sel = foldl (fun sel t => append_unique_token capacity t sel) sel xs.
Proof.
  revert sel. induction xs as [|t xs IH]; intros sel Hlen; simpl in *; [done|].
  unfold MAX_SELECTED_TOKEN_CAPACITY in Hlen. rewrite u32_small by lia.
  destruct (Z.leb_spec capacity (Z.of_nat (length sel))); [lia|].
  apply IH. pose proof (length_append_unique capacity t sel).
  unfold MAX_SELECTED_TOKEN_CAPACITY. lia.
Qed.

(** The sink prefix is appended whole. *)
Lemma sinks_exact capacity n :
  0 <= n <= capacity -> capacity <= MAX_SELECTED_TOKEN_CAPACITY ->
  foldl (fun sel t => append_unique_token capacity t sel) [] (range 0 n) = range 0 n.
Proof.
  intros [Hn Hle] Hc. revert Hle. pattern n. apply natlike_ind; [done| |done].
  clear n Hn. intros n Hn IH Hle. rewrite <- Z.add_1_r in *. rewrite range_snoc, foldl_app, IH by lia.
  unfold MAX_SELECTED_TOKEN_CAPACITY in Hc. simpl. unfold append_unique_token, INVALID_TOKEN_ID.
  rewrite length_range, u32_small by lia.
  destruct (Z.leb_spec capacity (Z.of_nat (Z.to_nat (n - 0)))); [lia|].
  destruct (Z.eqb_spec n 0xffffffff); [lia|]. cbn [orb].
  rewrite bool_decide_eq_false_2; [done|]. rewrite elem_of_range. lia.
Qed.

(** The sample is the evenly spaced point, always inside the middle. *)
Lemma middle_token_range mb me n i :
  0 <= mb < me -> me <= U32_MAX -> 0 <= i < n -> n <= me - mb ->
  middle_token mb me n i = mb + ((i + 1) * (me - mb)) / (n + 1) /\ mb <= middle_token mb me n i < me.
Proof.
  intros Hm Hme Hi Hn. unfold middle_token, sat_sub. rewrite Z.max_l by lia.
  assert (0 <= (i + 1) * (me - mb) <= U32_MAX * U32_MAX) by nia.
  rewrite (u64_small (i + 1)), (u64_small (n + 1)), (u64_small (_ * _)) by lia.
  assert (0 <= (i + 1) * (me - mb) / (n + 1) < me - mb) as Hq.
  { split; [apply Z.div_pos; lia|]. apply Z.div_lt_upper_bound; nia. }
  rewrite (u32_small (_ / _)), (u32_small (mb + _)) by lia.
  destruct (Z.leb_spec me (mb + (i + 1) * (me - mb) / (n + 1))); lia.
Qed.

Section bounded.
Context (p : LongContextPolicy) (ctx capacity : Z).
Hypothesis Hp : policy_u32 p.
Hypothesis Hctx : 1 <= ctx <= U32_MAX.
Hypothesis Hcap : 1 <= capacity <= MAX_SELECTED_TOKEN_CAPACITY.

Let flag f := has_flag (policy_flags p) f.

Definition sink_size : Z :=
  if flag POLICY_FLAG_INCLUDE_SINK_TOKENS then Z.min (Z.min (sink_token_count p) ctx) capacity else 0.

Definition recent_start : Z :=
  Z.max sink_size
    (ctx - if flag POLICY_FLAG_INCLUDE_RECENT_TOKENS
           then Z.min (Z.min (recent_token_count p) (capacity - sink_size)) ctx else 0).

Definition stride_size : Z :=
  if flag POLICY_FLAG_INCLUDE_STRIDED_MIDDLE_TOKENS
  then Z.min (Z.min (stride_sample_token_count p) (capacity - sink_size)) (recent_start - sink_size) else 0.

Lemma sizes_range : 0 <= sink_size <= capacity /\ sink_size <= recent_start <= ctx /\
  0 <= stride_size <= capacity - sink_size /\ stride_size <= recent_start - sink_size.
Proof. destruct Hp as (?&?&?&?&?&?&?&?). unfold stride_size, recent_start, sink_size. repeat case_match; lia. Qed.

(** The middle samples, in order. *)
Definition samples : list Z := middle_token sink_size recent_start stride_size <$> range 0 stride_size.

Lemma foldl_fmap {A B C} (f : B -> A) (g : C -> A -> C) (xs : list B) (c : C) :
  foldl g c (f <$> xs) = foldl (fun c x => g c (f x)) c xs.
Proof. revert c. induction xs; simpl; auto. Qed.

Lemma bounded_selection_eq :
  bounded_selection p ctx capacity =
  (append_recent capacity (range recent_start ctx)
     (foldl (fun sel t => append_unique_token capacity t sel) (range 0 sink_size) samples),
   sink_size, stride_size, recent_start).
Proof using Hp Hctx Hcap.
  pose proof sizes_range as (Hs & Hr & Hst & Hst').
  destruct Hp as (?&?&?&?&?&?&?&?). unfold MAX_SELECTED_TOKEN_CAPACITY in Hcap.
  unfold bounded_selection. fold (flag POLICY_FLAG_INCLUDE_SINK_TOKENS). fold sink_size.
  rewrite sinks_exact by (unfold MAX_SELECTED_TOKEN_CAPACITY; lia).
  rewrite length_range. rewrite (u32_small (Z.of_nat _)) by lia.
  replace (Z.of_nat (Z.to_nat (sink_size - 0))) with sink_size by lia.
  assert (u32 (capacity - sink_size) = capacity - sink_size) as -> by (apply u32_small; lia).
  cbv zeta. fold (flag POLICY_FLAG_INCLUDE_RECENT_TOKENS). fold (flag POLICY_FLAG_INCLUDE_STRIDED_MIDDLE_TOKENS).
  set (rc := if flag POLICY_FLAG_INCLUDE_RECENT_TOKENS && (sink_size <? capacity)
             then Z.min (Z.min (recent_token_count p) (capacity - sink_size)) ctx else 0).
  assert ((if sat_sub ctx rc <? sink_size then sink_size else sat_sub ctx rc) = recent_start) as ->.
  { unfold rc, recent_start, sat_sub. destruct (flag POLICY_FLAG_INCLUDE_RECENT_TOKENS); cbn [andb];
      repeat case_match; lia. }
  set (sc := if _ && _ && _ then _ else 0).
  assert (sc = stride_size) as ->.
  { unfold sc, stride_size, sat_sub in *. rewrite (Z.max_l (recent_start - sink_size)) by lia.
    destruct (flag POLICY_FLAG_INCLUDE_STRIDED_MIDDLE_TOKENS); cbn [andb]; [|done].
    destruct (Z.eqb_spec (recent_start - sink_size) 0), (Z.ltb_spec sink_size capacity); cbn; lia. }
  unfold samples. by rewrite foldl_fmap.
Qed.

Lemma samples_range : Forall (fun t => sink_size <= t < recent_start) samples.
Proof using Hp Hctx Hcap.
  pose proof sizes_range as (Hs & Hr & Hst & Hst').
  apply Forall_fmap, Forall_forall. intros i Hi%elem_of_range. simpl.
  apply middle_token_range; lia.
Qed.

Lemma bounded_selection_ok : selection_ok capacity ctx (bounded_selection p ctx capacity).1.1.1.
Proof using Hp Hctx Hcap.
  pose proof sizes_range as (Hs & Hr & Hst & Hst'). rewrite bounded_selection_eq. simpl.
  apply append_recent_ok; [lia| |].
  { apply Forall_forall. intros t Ht%elem_of_range. lia. }
  apply (foldl_append_ok _ _ id); [lia| |].
  { eapply Forall_impl; [apply samples_range|]. simpl. intros. lia. }
  split_and!; [apply NoDup_seqZ|rewrite length_range; lia|].
  apply Forall_forall. intros t Ht%elem_of_range. lia.
Qed.

Lemma samples_sorted : StronglySorted Z.le samples.
Proof using Hp Hctx Hcap.
  pose proof sizes_range as (Hs & Hr & Hst & Hst'). unfold samples. pose proof (range_sorted 0 stride_size) as Hrs. rewrite Z.add_0_l in Hrs.
  assert (Forall (fun i => 0 <= i < stride_size) (range 0 stride_size)) as Hin by (apply Forall_forall; intros i; apply elem_of_range).
  induction Hrs as [|i js _ IH Hi]; cbn [fmap list_fmap]; [constructor|]. inversion_clear Hin as [|? ? Hi0 His]. constructor; [by apply IH|].
  apply Forall_fmap, Forall_forall. intros j Hj. rewrite Forall_forall in Hi, His. specialize (Hi j Hj). specialize (His j Hj). cbn.
  rewrite (proj1 (middle_token_range sink_size recent_start stride_size i ltac:(lia) ltac:(lia) Hi0 ltac:(lia))).
  rewrite (proj1 (middle_token_range sink_size recent_start stride_size j ltac:(lia) ltac:(lia) His ltac:(lia))).
  apply Z.add_le_mono_l, Z.div_le_mono; [lia|]. apply Z.mul_le_mono_nonneg_r; lia.
Qed.

Lemma bounded_selection_sorted : StronglySorted Z.lt (bounded_selection p ctx capacity).1.1.1.
Proof using Hp Hctx Hcap.
  pose proof sizes_range as (Hs & Hr & Hst & Hst'). pose proof samples_range as Hsr. rewrite Forall_forall in Hsr. rewrite bounded_selection_eq. cbn [fst].
  apply append_recent_sorted.
  - apply foldl_append_sorted; [apply (range_sorted 0 sink_size)|apply samples_sorted|]. intros x y Hx%elem_of_range Hy%Hsr. lia.
  - apply sorted_le. replace ctx with (recent_start + (ctx - recent_start)) by lia. apply range_sorted.
  - intros x y [Hx%elem_of_range|Hx%Hsr]%elem_of_foldl_append_inv Hy%elem_of_range; lia.
Qed.

(** When sinks, samples and recent tokens fit the capacity together, the selection
    is exactly their union. *)
Lemma bounded_selection_union t :
  sink_size + stride_size + (ctx - recent_start) <= capacity ->
  t ∈ (bounded_selection p ctx capacity).1.1.1 <->
    0 <= t < sink_size \/ t ∈ samples \/ recent_start <= t < ctx.
Proof using Hp Hctx Hcap.
  intros Hfit. pose proof sizes_range as (Hs & Hr & Hst & Hst').
  assert (length samples = Z.to_nat stride_size) as Hls.
  { unfold samples. rewrite length_fmap, length_range. f_equal. lia. }
  pose proof (length_foldl_append capacity id samples (range 0 sink_size)) as Hl.
  rewrite length_range in Hl. unfold MAX_SELECTED_TOKEN_CAPACITY in *.
  rewrite bounded_selection_eq. simpl.
  rewrite append_recent_foldl by (rewrite length_range; unfold MAX_SELECTED_TOKEN_CAPACITY; cbn in Hl; lia).
  rewrite (elem_of_foldl_append _ id).
  2:{ rewrite length_range. cbn in Hl. unfold MAX_SELECTED_TOKEN_CAPACITY. lia. }
  2:{ apply Forall_forall. intros x Hx%elem_of_range. unfold INVALID_TOKEN_ID, id. lia. }
  rewrite (elem_of_foldl_append _ id).
  2:{ rewrite length_range. unfold MAX_SELECTED_TOKEN_CAPACITY. lia. }
  2:{ eapply Forall_impl; [apply samples_range|]. simpl. unfold INVALID_TOKEN_ID, id. intros. lia. }
  rewrite elem_of_range. unfold id. setoid_rewrite elem_of_range. naive_solver.
Qed.

End bounded.

(** ** Decode selection *)

(** A buffer holding a selection padded to [capacity] over what it held before. *)
Definition selected_buffer (capacity : Z) (sel buffer : list Z) : list Z :=
  sel ++ replicate (Z.to_nat (capacity - Z.of_nat (length sel))) INVALID_TOKEN_ID ++ drop (Z.to_nat capacity) buffer.

Lemma write_slice_0 {A} hi (xs l : list A) : write_slice 0 hi xs l = xs ++ drop (Z.to_nat hi) l.
Proof. done. Qed.

Lemma take_range n m : 0 <= n <= m -> take (Z.to_nat (n - 0)) (range 0 m) = range 0 n.
Proof.
  intros. apply list_eq. intros i. rewrite lookup_take. case_decide.
  - unfold range. rewrite !lookup_seqZ_lt by lia. done.
  - symmetry. apply lookup_ge_None_2. rewrite length_range. lia.
Qed.

Lemma write_selection capacity (head sel buffer : list Z) n :
  0 <= n <= capacity -> capacity <= Z.of_nat (length buffer) -> n = Z.of_nat (length sel) ->
  take (length sel) head = sel -> drop (Z.to_nat capacity) head = drop (Z.to_nat capacity) buffer ->
  write_slice n capacity (replicate (Z.to_nat (capacity - n)) INVALID_TOKEN_ID) head =
  selected_buffer capacity sel buffer.
Proof.
  intros ?? -> Hh Hd. unfold write_slice, selected_buffer. rewrite Nat2Z.id, Hh, Hd. done.
Qed.

Lemma length_selected_buffer capacity sel buffer :
  Z.of_nat (length sel) <= capacity <= Z.of_nat (length buffer) ->
  length (selected_buffer capacity sel buffer) = length buffer.
Proof. intros. unfold selected_buffer. rewrite !length_app, length_replicate, length_drop. lia. Qed.

(** The context overflows the policy's limit and the policy says to fail then. *)
Definition context_overflow (p : LongContextPolicy) (ctx : Z) : Prop :=
  max_context_tokens p < ctx /\ has_flag (policy_flags p) POLICY_FLAG_FAIL_ON_CONTEXT_OVERFLOW = true.

Definition fits (p : LongContextPolicy) (capacity ctx : Z) : Prop :=
  ctx <= capacity /\ ctx <= maximum_decode_scan_token_count p.

(** The tokens a decode step reads: the whole context when it fits, the bounded
    choice otherwise. *)
Definition chosen (p : LongContextPolicy) (capacity ctx : Z) : list Z :=
  if (ctx <=? capacity) && (ctx <=? maximum_decode_scan_token_count p) then range 0 ctx
  else (bounded_selection p ctx capacity).1.1.1.

Lemma chosen_ok p capacity ctx :
  policy_u32 p -> 1 <= ctx <= U32_MAX -> 1 <= capacity <= MAX_SELECTED_TOKEN_CAPACITY ->
  selection_ok capacity ctx (chosen p capacity ctx).
Proof.
  intros ???. unfold chosen. destruct (Z.leb_spec ctx capacity); cbn [andb]; [|by apply bounded_selection_ok].
  destruct (_ <=? _); [|by apply bounded_selection_ok].
  split_and!; [apply NoDup_seqZ|rewrite length_range; lia|].
  apply Forall_forall. intros t Ht%elem_of_range. lia.
Qed.

Lemma chosen_sorted p capacity ctx :
  policy_u32 p -> 1 <= ctx <= U32_MAX -> 1 <= capacity <= MAX_SELECTED_TOKEN_CAPACITY -> StronglySorted Z.lt (chosen p capacity ctx).
Proof. intros ???. unfold chosen. destruct (_ && _); [apply (range_sorted 0 ctx)|by apply bounded_selection_sorted]. Qed.

Lemma chosen_fits p capacity ctx : fits p capacity ctx -> chosen p capacity ctx = range 0 ctx.
Proof. intros [??]. unfold chosen. rewrite !(proj2 (Z.leb_le _ _)) by lia. done. Qed.

(** The KV blocks a selection reads from. *)
Definition blocks_of (block_tokens : Z) (sel : list Z) : gset Z := list_to_set ((fun t => t / block_tokens) <$> sel).

Lemma size_blocks_of block_tokens sel : (size (blocks_of block_tokens sel) <= length sel)%nat.
Proof.
  unfold blocks_of. rewrite <- (length_fmap (fun t => t / block_tokens) sel). generalize ((fun t => t / block_tokens) <$> sel). clear sel.
  intros l. induction l as [|t l IH]; cbn [list_to_set length]; [by rewrite size_empty|]. rewrite size_union_alt, size_singleton.
  pose proof (subseteq_size (list_to_set l ∖ {[t]} : gset Z) (list_to_set l) ltac:(set_solver)). lia.
Qed.

(** [count_unique_blocks] counts the blocks of a selection of real tokens. *)
Lemma count_unique_blocks_eq block_tokens sel :
  Forall (fun t => t <> INVALID_TOKEN_ID) sel -> Z.of_nat (length sel) <= U32_MAX ->
  count_unique_blocks sel block_tokens = Z.of_nat (size (blocks_of block_tokens sel)).
Proof.
  intros Hv Hl. unfold count_unique_blocks.
  assert (forall acc : gset Z, foldl (fun (blocks : gset Z) t => if t =? INVALID_TOKEN_ID then blocks else {[t / block_tokens]} ∪ blocks) acc sel =
    acc ∪ blocks_of block_tokens sel) as Hf.
  { unfold blocks_of. clear Hl. induction Hv as [|t sel Ht Hv IH]; intros acc; cbn [foldl fmap list_fmap list_to_set]; [set_solver|].
    destruct (Z.eqb_spec t INVALID_TOKEN_ID); [done|]. rewrite IH. cbn [fmap list_fmap]. set_solver. }
  rewrite Hf, union_empty_l_L. apply u32_small. pose proof (size_blocks_of block_tokens sel). lia.
Qed.

(** The whole context reads from every block up to its last. *)
Lemma blocks_of_range block_tokens ctx : 1 <= ctx -> 1 <= block_tokens ->
  Z.of_nat (size (blocks_of block_tokens (range 0 ctx))) = div_ceil ctx block_tokens.
Proof.
  intros Hc Hb. destruct (div_ceil_spec ctx block_tokens ltac:(lia) ltac:(lia)) as [Hd|[? _]]; [|lia]. set (n := div_ceil ctx block_tokens) in *.
  assert (blocks_of block_tokens (range 0 ctx) = list_to_set (range 0 n)) as ->.
  { apply set_eq. intros b. unfold blocks_of. rewrite !elem_of_list_to_set, list_elem_of_fmap, elem_of_range. split.
    - intros (t&->&Ht%elem_of_range). split; [apply Z.div_pos; lia|]. apply Z.div_lt_upper_bound; nia.
    - intros Hb'. exists (b * block_tokens). rewrite Z.div_mul by lia. split; [done|]. apply elem_of_range. nia. }
  rewrite size_list_to_set by apply NoDup_seqZ. rewrite length_range. nia.
Qed.

Lemma ceil_div_blocks block_tokens ctx : 1 <= ctx <= U32_MAX -> 1 <= block_tokens ->
  ceil_div_u32 ctx block_tokens = Z.of_nat (size (blocks_of block_tokens (range 0 ctx))).
Proof.
  intros Hc Hb. pose proof (size_blocks_of block_tokens (range 0 ctx)) as Hs. rewrite length_range in Hs.
  unfold ceil_div_u32. destruct (Z.eqb_spec block_tokens 0); [lia|]. rewrite <- blocks_of_range by lia. apply u32_small. lia.
Qed.

(** What a plan says about the selection it was built with. *)
Definition plan_describes (plan : DecodePlan) (capacity ctx block_tokens : Z) (sel : list Z) : Prop :=
  dp_context_token_count plan = ctx /\ dp_selected_token_capacity plan = capacity /\
  dp_selected_token_count plan = Z.of_nat (length sel) /\
  dp_selected_block_count plan = Z.of_nat (size (blocks_of block_tokens sel)) /\
  dp_padded_token_count plan = capacity - Z.of_nat (length sel) /\
  dp_estimated_attention_token_reads plan = Z.of_nat (length sel).

Lemma build_full_spec p ctx capacity plan buffer :
  1 <= block_token_count p -> 1 <= ctx <= U32_MAX -> 1 <= capacity <= MAX_SELECTED_TOKEN_CAPACITY -> capacity <= Z.of_nat (length buffer) ->
  dp_context_token_count plan = ctx -> dp_selected_token_capacity plan = capacity ->
  wp (build_full_selection p ctx capacity plan)
     (fun plan' b' => fits p capacity ctx /\ b' = selected_buffer capacity (range 0 ctx) buffer /\
        plan_describes plan' capacity ctx (block_token_count p) (range 0 ctx))
     (fun e b' => e = CapacityExceeded /\ b' = buffer /\ ~ fits p capacity ctx) buffer.
Proof.
  intros Hblk Hctx Hcap Hlen Hpc Hps. unfold build_full_selection, fits, MAX_SELECTED_TOKEN_CAPACITY in *.
  destruct (Z.ltb_spec capacity ctx); cbn [orb]; [apply wp_throw; split_and!; [done|done|lia]|].
  destruct (Z.ltb_spec (maximum_decode_scan_token_count p) ctx); [apply wp_throw; split_and!; [done|done|lia]|].
  wp_step. wp_step. unfold id. wp_step. apply wp_slice; [lia..|]. wp_step. wp_step. wp_step. wp_step. wp_step.
  assert (length (write_slice 0 capacity (range 0 capacity) buffer) = length buffer) as Hl.
  { apply length_write_slice; rewrite ?length_range; lia. }
  apply wp_slice; [lia|unfold id; rewrite Hl; lia|]. wp_step. wp_step.
  erewrite (write_selection capacity _ (range 0 ctx) buffer ctx).
  2-5: try (rewrite ?length_range; lia).
  2:{ rewrite write_slice_0, length_range, take_app_le by (rewrite length_range; lia). apply take_range. lia. }
  2:{ rewrite write_slice_0, drop_app_le by (rewrite length_range; lia).
      rewrite drop_ge by (rewrite length_range; lia). done. }
  unfold plan_describes. rewrite length_range, (u32_small (capacity - ctx)), ceil_div_blocks by lia.
  apply wp_ret. split_and!; [done|done|done|..]; repeat case_match; cbn; lia.
Qed.

Lemma build_bounded_spec p ctx capacity plan buffer :
  policy_u32 p -> 1 <= ctx <= U32_MAX -> 1 <= capacity <= MAX_SELECTED_TOKEN_CAPACITY ->
  capacity <= Z.of_nat (length buffer) ->
  dp_context_token_count plan = ctx -> dp_selected_token_capacity plan = capacity ->
  wp (build_bounded_selection p ctx capacity plan)
     (fun plan' b' => let sel := (bounded_selection p ctx capacity).1.1.1 in
        b' = selected_buffer capacity sel buffer /\ plan_describes plan' capacity ctx (block_token_count p) sel)
     (fun _ _ => False) buffer.
Proof.
  intros Hp Hctx Hcap Hlen Hpc Hps. pose proof (bounded_selection_ok p ctx capacity Hp Hctx Hcap) as (_ & Hl & Hin).
  unfold build_bounded_selection, MAX_SELECTED_TOKEN_CAPACITY in *.
  destruct (bounded_selection p ctx capacity) as [[[sel sink] stride] rb]. cbn [fst snd] in *.
  wp_step. wp_step. unfold id. wp_step. apply wp_slice; [lia..|]. do 5 wp_step.
  assert (length (write_slice 0 (Z.of_nat (length sel)) sel buffer) = length buffer) as Hw.
  { apply length_write_slice; lia. }
  apply wp_slice; [lia|unfold id; rewrite Hw; lia|]. do 2 wp_step.
  erewrite (write_selection capacity _ sel buffer); [|lia..| |].
  2:{ rewrite write_slice_0, take_app_le, take_ge by lia. done. }
  2:{ rewrite write_slice_0, drop_app_ge, drop_drop by lia. f_equal. lia. }
  unfold plan_describes. rewrite (u32_small (Z.of_nat _)), (u32_small (capacity - _)) by lia.
  rewrite count_unique_blocks_eq; [|eapply Forall_impl; [exact Hin|]; unfold INVALID_TOKEN_ID; cbn; lia|lia].
  apply wp_ret. split; [done|]. repeat case_match; cbn; lia.
Qed.

Lemma build_decode_spec self ctx buffer :
  policy_u32 self -> 0 <= ctx <= U32_MAX -> Z.of_nat (length buffer) <= U32_MAX ->
  let p := normalized self in
  let capacity := Z.min (Z.of_nat (length buffer)) (selected_token_capacity p) in
  wp (build_decode_selection self ctx)
     (fun plan b' => ctx <> 0 /\ buffer <> [] /\ policy_valid self /\ ~ context_overflow p ctx /\
        (policy_mode p = FullContextScan -> fits p capacity ctx) /\
        b' = selected_buffer capacity (chosen p capacity ctx) buffer /\
        plan_describes plan capacity ctx (block_token_count p) (chosen p capacity ctx) /\
        Z.of_nat (length (chosen p capacity ctx)) <= maximum_decode_scan_token_count p)
     (fun e b' => match e with
        | InvalidArgument => b' = buffer /\
            (ctx = 0 \/ buffer = [] \/ ~ policy_valid self \/
             (policy_mode p = FullContextScan /\ has_flag (policy_flags p) POLICY_FLAG_ALLOW_FULL_CONTEXT_SCAN = false))
        | CapacityExceeded =>
            (b' = buffer /\ context_overflow p ctx) \/
            (b' = buffer /\ policy_mode p = FullContextScan /\ ~ fits p capacity ctx) \/
            (length b' = length buffer /\
             maximum_decode_scan_token_count p < Z.of_nat (length (bounded_selection p ctx capacity).1.1.1))
        end) buffer.
Proof.
  intros Hp Hctx Hbuf p capacity. pose proof (normalized_u32 _ Hp) as Hn. fold p in Hn.
  unfold build_decode_selection. do 2 wp_step. unfold id.
  destruct (Z.eqb_spec ctx 0) as [->|]; cbn [orb]; [apply wp_throw; auto|].
  destruct (Z.eqb_spec (Z.of_nat (length buffer)) 0); [apply wp_throw; split; [done|]; right; left; apply nil_length_inv; lia|].
  wp_step.
  destruct (policy_validate_spec self buffer Hp) as [[E Hv]|[E Hv]]; unfold wp at 1; rewrite E; [|auto].
  fold p. rewrite (u32_small (Z.of_nat (length buffer))) by lia. fold capacity.
  assert (1 <= capacity <= MAX_SELECTED_TOKEN_CAPACITY) as Hcap.
  { destruct Hv as (_&_&?&_). fold p in H. subst capacity. lia. }
  assert (1 <= block_token_count p) as Hblk by apply Hv.
  match goal with |- wp (if ?g then _ else _) _ _ _ => destruct g eqn:Hov end.
  { apply wp_throw. left. apply andb_prop in Hov as [Ho%Z.ltb_lt ?]. done. }
  assert (~ context_overflow p ctx) as Hno.
  { intros [Ho%Z.ltb_lt Hf]. rewrite Ho, Hf in Hov. done. }
  set (plan := mkDecodePlan _ _ _ _ _ _ _ _ _ _ _ _ _ _ _).
  assert (buffer <> []) by (intros ->; done).
  assert (capacity <= Z.of_nat (length buffer)) by lia.
  destruct (is_full_scan (policy_mode p)) eqn:Hm.
  - assert (policy_mode p = FullContextScan) as Hmode by (by destruct (policy_mode p)).
    destruct (has_flag (policy_flags p) POLICY_FLAG_ALLOW_FULL_CONTEXT_SCAN) eqn:Ha; cbn [negb];
      [|apply wp_throw; auto 6].
    eapply wp_mono; [apply build_full_spec; done || lia| |].
    + intros plan' b' ([Hc Hs] & -> & Hd). rewrite (chosen_fits p capacity ctx) by done.
      split_and!; try done. rewrite length_range. lia.
    + intros e b' (-> & -> & ?). auto.
  - assert (policy_mode p <> FullContextScan) as Hmode by (by destruct (policy_mode p)).
    destruct ((ctx <=? capacity) && (ctx <=? maximum_decode_scan_token_count p)) eqn:Hf.
    + assert (fits p capacity ctx) as Hfit by (unfold fits; lia).
      eapply wp_mono; [apply build_full_spec; done || lia| |].
      * intros plan' b' ([Hc Hs] & -> & Hd). rewrite (chosen_fits p capacity ctx) by done.
        split_and!; try done. rewrite length_range. lia.
      * intros e b' (_ & _ & ?). done.
    + assert (chosen p capacity ctx = (bounded_selection p ctx capacity).1.1.1) as Hch.
      { unfold chosen. by rewrite Hf. }
      rewrite Hch. wp_step. eapply wp_mono; [apply build_bounded_spec; done || lia| |done].
      intros plan' b' (-> & Hd). cbn beta.
      assert (dp_selected_token_count plan' = Z.of_nat (length (bounded_selection p ctx capacity).1.1.1)) as Hsel
        by apply Hd.
      destruct (Z.ltb_spec (maximum_decode_scan_token_count p) (dp_selected_token_count plan')).
      * apply wp_throw. right. right. split; [|lia]. apply length_selected_buffer.
        destruct (bounded_selection_ok p ctx capacity Hn) as (_ & ? & _); lia.
      * apply wp_ret. split_and!; try done. lia.
Qed.

(** ** Lanes *)

Definition lane (capacity stride i : Z) (b : list Z) : list Z :=
  take (Z.to_nat capacity) (drop (Z.to_nat (i * stride)) b).

Lemma lookup_write_slice_in {A} lo hi (xs l : list A) i :
  0 <= lo <= hi -> hi <= Z.of_nat (length l) -> Z.of_nat (length xs) = hi - lo ->
  lo <= Z.of_nat i < hi -> write_slice lo hi xs l !! i = xs !! (i - Z.to_nat lo)%nat.
Proof.
  intros. unfold write_slice. rewrite lookup_app_r by (rewrite length_take; lia).
  rewrite length_take, lookup_app_l by lia. f_equal. lia.
Qed.

Lemma lookup_lane capacity stride i b j :
  (j < Z.to_nat capacity)%nat -> lane capacity stride i b !! j = b !! (Z.to_nat (i * stride) + j)%nat.
Proof. intros. unfold lane. rewrite lookup_take_lt by done. apply lookup_drop. Qed.

Lemma lane_ext capacity stride i b b' :
  0 <= i -> 0 <= stride ->
  (forall j, i * stride <= Z.of_nat j < i * stride + capacity -> b !! j = b' !! j) ->
  lane capacity stride i b = lane capacity stride i b'.
Proof.
  intros ?? Hb. apply list_eq. intros j. destruct (decide (j < Z.to_nat capacity)%nat) as [Hj|Hj].
  - rewrite !lookup_lane by done. apply Hb. nia.
  - unfold lane. rewrite !lookup_take_ge by lia. done.
Qed.

Lemma lane_write capacity stride i xs b :
  0 <= i -> 0 <= stride -> 0 <= capacity -> i * stride + capacity <= Z.of_nat (length b) ->
  Z.of_nat (length xs) = capacity ->
  lane capacity stride i (write_slice (i * stride) (i * stride + capacity) xs b) = xs.
Proof.
  intros. apply list_eq. intros j. destruct (decide (j < Z.to_nat capacity)%nat) as [Hj|Hj].
  - rewrite lookup_lane, lookup_write_slice_in by nia. f_equal. lia.
  - unfold lane. rewrite lookup_take_ge by lia. symmetry. apply lookup_ge_None_2. lia.
Qed.

Lemma length_lane capacity stride i b :
  0 <= i * stride -> 0 <= capacity -> i * stride + capacity <= Z.of_nat (length b) ->
  Z.of_nat (length (lane capacity stride i b)) = capacity.
Proof. intros. unfold lane. rewrite length_take, length_drop. lia. Qed.

(** A lane works on its part of the buffer only. *)
Lemma wp_on_lane {A} lo hi (m : LM A) Q R b :
  0 <= lo <= hi -> hi <= Z.of_nat (length b) ->
  wp m (fun a l => Q a (write_slice lo hi l b)) (fun e l => R e (write_slice lo hi l b))
    (take (Z.to_nat (hi - lo)) (drop (Z.to_nat lo) b)) ->
  wp (on_lane lo hi m) Q R b.
Proof.
  intros ?? Hm. unfold on_lane. do 2 wp_step. unfold id. wp_step. apply wp_slice; [lia..|].
  unfold wp, zoom in *. by destruct (m _).
Qed.

(** The state of the batch after its first lanes. *)
Definition lanes_done (self : LongContextPolicy) (capacity stride : Z) (b0 : list Z) (counts : list Z)
    (plans : list DecodePlan) (b : list Z) : Prop :=
  length b = length b0 /\ length plans = length counts /\
  (forall i ctx, counts !! i = Some ctx -> exists plan, plans !! i = Some plan /\
     build_decode_selection self ctx (lane capacity stride (Z.of_nat i) b0) =
       Ret plan (lane capacity stride (Z.of_nat i) b)) /\
  (forall j, (forall i, (i < length counts)%nat ->
      ~ (Z.of_nat i * stride <= Z.of_nat j < Z.of_nat i * stride + capacity)) -> b !! j = b0 !! j).

(** A lane that fails after its predecessors are done. *)
Definition lane_failed (self : LongContextPolicy) (capacity stride : Z) (b0 counts : list Z)
    (e : LongContextError) : Prop :=
  exists i ctx l, counts !! i = Some ctx /\
    build_decode_selection self ctx (lane capacity stride (Z.of_nat i) b0) = Fails e l.

Lemma lane_step self capacity stride b0 pre ctx plans b :
  policy_u32 self -> 1 <= capacity <= stride -> capacity <= U32_MAX -> 0 <= ctx <= U32_MAX ->
  Z.of_nat (length pre) * stride + capacity <= Z.of_nat (length b0) ->
  lanes_done self capacity stride b0 pre plans b ->
  wp (on_lane (Z.of_nat (length pre) * stride) (Z.of_nat (length pre) * stride + capacity)
        (build_decode_selection self ctx))
     (fun plan b' => lanes_done self capacity stride b0 (pre ++ [ctx]) (plans ++ [plan]) b')
     (fun e _ => exists l, build_decode_selection self ctx
        (lane capacity stride (Z.of_nat (length pre)) b0) = Fails e l) b.
Proof.
  intros Hp Hcs Hc Hctx Hroom (Hlen & Hpl & Hdone & Hout). set (k := Z.of_nat (length pre)) in *.
  assert (0 <= k * stride) by nia.
  apply wp_on_lane; [lia..|].
  replace (k * stride + capacity - k * stride) with capacity by lia.
  change (take (Z.to_nat capacity) (drop (Z.to_nat (k * stride)) b)) with (lane capacity stride k b).
  assert (lane capacity stride k b = lane capacity stride k b0) as Hlane.
  { apply lane_ext; [lia..|]. intros j Hj. apply Hout. intros i Hi. nia. }
  rewrite Hlane. set (l0 := lane capacity stride k b0) in *.
  assert (Z.of_nat (length l0) = capacity) as Hl0 by (apply length_lane; lia).
  assert (length (selected_buffer (Z.min capacity (selected_token_capacity (normalized self)))
    (chosen (normalized self) (Z.min capacity (selected_token_capacity (normalized self))) ctx) l0) = length l0 \/
    ctx = 0 \/ ~ policy_valid self) as Hsl.
  { destruct (decide (ctx = 0)) as [|Hz]; [auto|]. destruct (policy_validate_spec self tt Hp) as [[_ Hv]|[_ Hv]]; [|auto].
    left. destruct Hv as (_&_&Hcap&_). apply length_selected_buffer.
    destruct (chosen_ok (normalized self) (Z.min capacity (selected_token_capacity (normalized self))) ctx)
      as (_ & ? & _); [by apply normalized_u32|lia|lia|]. lia. }
  pose proof (build_decode_spec self ctx l0 Hp Hctx ltac:(lia)) as Hspec. cbn zeta in Hspec. rewrite Hl0 in Hspec.
  unfold wp in *. destruct (build_decode_selection self ctx l0) as [plan l'|e l'| |] eqn:E; [|by eauto|done..].
  destruct Hspec as (Hz & _ & Hv & _ & _ & -> & _).
  destruct Hsl as [Hsl|[?|?]]; [|done..]. set (l' := selected_buffer _ _ _) in *.
  assert (length (write_slice (k * stride) (k * stride + capacity) l' b) = length b) as Hw
    by (apply length_write_slice; lia).
  split_and!.
  - lia.
  - rewrite !length_app. simpl. lia.
  - intros i c Hi. destruct (decide (i = length pre)) as [->|Hne].
    + rewrite list_lookup_middle in Hi by done. injection Hi as <-. exists plan.
      rewrite <- Hpl, list_lookup_middle, Hpl by done. split; [done|]. fold k l0. rewrite E. f_equal.
      symmetry. apply lane_write; lia.
    + apply lookup_app_Some in Hi as [Hi|[Hge Hi]].
      2:{ apply list_lookup_singleton_Some in Hi. lia. }
      destruct (Hdone i c Hi) as (plan' & Hpi & Hrun). exists plan'.
      apply lookup_lt_Some in Hi. rewrite lookup_app_l by lia. split; [done|]. rewrite Hrun. f_equal.
      apply lane_ext; [lia..|]. intros j Hj. symmetry. apply lookup_write_slice_out; [lia..|]. nia.
  - intros j Hj. rewrite lookup_write_slice_out; [|lia..|].
    + apply Hout. intros i Hi. apply Hj. rewrite length_app. simpl. lia.
    + specialize (Hj (length pre)). rewrite length_app in Hj. simpl in Hj. fold k in Hj. lia.
Qed.

Lemma lookup_zip_lanes (counts : list Z) pre x post :
  zip (range 0 (Z.of_nat (length counts))) counts = pre ++ x :: post ->
  x.1 = Z.of_nat (length pre) /\ counts !! length pre = Some x.2 /\
  snd <$> pre = take (length pre) counts /\ (length pre < length counts)%nat.
Proof.
  intros Hz.
  assert (zip (range 0 (Z.of_nat (length counts))) counts !! length pre = Some x) as Hx
    by (rewrite Hz; by apply list_lookup_middle).
  apply lookup_zip_with_Some in Hx as (i & c & -> & Hi & Hc).
  apply lookup_range in Hi as [-> Hlt]. split_and!; [cbn; lia|done| |by eapply lookup_lt_Some].
  assert (snd <$> zip (range 0 (Z.of_nat (length counts))) counts = counts) as Hs.
  { apply snd_zip. rewrite length_range. lia. }
  rewrite Hz, fmap_app in Hs. transitivity (take (length pre) (pre.*2 ++ ((Z.of_nat (length pre), c) :: post).*2)).
  - rewrite take_app_le, take_ge by (rewrite length_fmap; lia). done.
  - f_equal. by rewrite <- Hs.
Qed.

Lemma lane_batch_spec self counts stride capacity buffer :
  policy_u32 self -> Forall (fun c => 0 <= c <= U32_MAX) counts -> 0 <= capacity <= U32_MAX ->
  0 <= stride -> Z.of_nat (length counts) * stride + capacity <= U64_MAX ->
  wp (build_decode_selection_for_lane_batch self counts stride capacity)
     (fun plans b' => counts <> [] /\ 1 <= capacity <= stride /\
        lanes_done self capacity stride buffer counts plans b')
     (fun e b' =>
        (e = InvalidArgument /\ b' = buffer /\
          (counts = [] \/ capacity = 0 \/ stride < capacity \/
           Z.of_nat (length buffer) < (Z.of_nat (length counts) - 1) * stride + capacity)) \/
        lane_failed self capacity stride buffer counts e) buffer.
Proof.
  intros Hp Hcounts Hcap Hst Hmax. unfold build_decode_selection_for_lane_batch.
  set (n := Z.of_nat (length counts)) in *.
  destruct (Z.eqb_spec n 0); cbn [orb].
  { apply wp_throw. left. split_and!; [done..|]. left. apply nil_length_inv. lia. }
  destruct (Z.eqb_spec stride 0); cbn [orb]; [apply wp_throw; left; split_and!; [done..|lia]|].
  destruct (Z.eqb_spec capacity 0); cbn [orb]; [apply wp_throw; left; split_and!; [done..|lia]|].
  destruct (Z.ltb_spec stride capacity); cbn [orb]; [apply wp_throw; left; split_and!; [done..|lia]|].
  rewrite (u64_small ((n - 1) * stride)), (u64_small ((n - 1) * stride + capacity)) by nia.
  do 2 wp_step. unfold id.
  destruct (Z.ltb_spec (Z.of_nat (length buffer)) ((n - 1) * stride + capacity));
    [apply wp_throw; left; split_and!; [done..|lia]|].
  eapply wp_mono.
  { apply (wp_for_fold (fun pre plans b => lanes_done self capacity stride buffer (pre.*2) plans b) _ _ _
      (fun e _ => lane_failed self capacity stride buffer counts e)).
    { split_and!; [done..|]. intros. done. }
    intros pre [i ctx] post plans b Hz HI. apply lookup_zip_lanes in Hz as (Hi & Hc & Hpre & Hlt).
    cbn [fst snd] in Hi, Hc. subst i.
    assert (Z.of_nat (length pre) <= n - 1) by (subst n; lia).
    assert (0 <= ctx <= U32_MAX) by (by eapply (Forall_lookup_1 _ _ _ _ Hcounts)).
    rewrite (u64_small (Z.of_nat (length pre) * stride)), (u64_small (_ + capacity)) by nia.
    wp_step. eapply wp_mono.
    - rewrite <- (length_fmap snd pre) at 1 2.
      apply (lane_step self capacity stride buffer (pre.*2) ctx plans b); try done; rewrite ?length_fmap; nia.
    - intros plan b' Hd. cbn beta. apply wp_ret. rewrite fmap_app. exact Hd.
    - intros e b' (l & Hf). rewrite length_fmap in Hf. exists (length pre), ctx, l. done. }
  - intros plans b' Hd. rewrite snd_zip in Hd by (rewrite length_range; lia).
    split_and!; [intros ->; done|lia|lia|done].
  - intros e b' Hf. by right.
Qed.

(** ** The theorems *)

(** A policy with capacity 8 that keeps 2 sinks, 2 samples and the 4 newest tokens. *)
Definition sample_policy : LongContextPolicy :=
  (new_policy 100 8) <| sink_token_count := 2 |> <| stride_sample_token_count := 2 |>
    <| recent_token_count := 4 |>.

Lemma sample_policy_u32 : policy_u32 sample_policy.
Proof. unfold policy_u32. cbn. unfold DEFAULT_BLOCK_TOKEN_COUNT. lia. Qed.

(** C35. A decode step never reads more, twice, or outside its context.  On success
    the buffer holds, at its head, a strictly increasing list of tokens of the context,
    at most as many as the buffer, the policy's capacity and its scan budget allow, then
    [INVALID_TOKEN_ID] up to the capacity, then what it held before; the plan counts
    exactly these tokens, the padding, and the distinct KV blocks they lie in; the whole
    context is read when it fits.  Every refusal is explained, and the call never panics. *)
Theorem decode_selection_sound self ctx buffer :
  policy_u32 self -> 0 <= ctx <= U32_MAX -> Z.of_nat (length buffer) <= U32_MAX ->
  let p := normalized self in
  let capacity := Z.min (Z.of_nat (length buffer)) (selected_token_capacity p) in
  match build_decode_selection self ctx buffer with
  | Ret plan b' => policy_valid self /\ exists sel,
      b' = selected_buffer capacity sel buffer /\ (StronglySorted Z.lt sel /\ NoDup sel) /\ Forall (fun t => 0 <= t < ctx) sel /\
      Z.of_nat (length sel) <= Z.min capacity (maximum_decode_scan_token_count p) /\
      plan_describes plan capacity ctx (block_token_count p) sel /\ (fits p capacity ctx -> sel = range 0 ctx)
  | Fails InvalidArgument b' => b' = buffer /\
      (ctx = 0 \/ buffer = [] \/ ~ policy_valid self \/
       (policy_mode p = FullContextScan /\ has_flag (policy_flags p) POLICY_FLAG_ALLOW_FULL_CONTEXT_SCAN = false))
  | Fails CapacityExceeded b' => length b' = length buffer /\
      (context_overflow p ctx \/ (policy_mode p = FullContextScan /\ ~ fits p capacity ctx) \/
       maximum_decode_scan_token_count p < Z.of_nat (length (bounded_selection p ctx capacity).1.1.1))
  | _ => False
  end.
Proof.
  intros Hp Hctx Hb p capacity. pose proof (build_decode_spec self ctx buffer Hp Hctx Hb) as Hspec.
  cbn zeta in Hspec. fold p in Hspec. fold capacity in Hspec. unfold wp in Hspec.
  assert (policy_valid self -> buffer <> [] -> 1 <= capacity <= MAX_SELECTED_TOKEN_CAPACITY) as Hcap.
  { intros (_&_&?&_) Hne. destruct buffer; [done|]. subst capacity. cbn [length] in *. fold p in H. lia. }
  destruct (build_decode_selection self ctx buffer) as [plan b'|[] b'| |]; [|done| |done..].
  - destruct Hspec as (Hz & Hne & Hv & _ & _ & -> & Hd & Hscan). split; [done|].
    pose proof (normalized_u32 _ Hp) as Hn. specialize (Hcap Hv Hne).
    destruct (chosen_ok p capacity ctx Hn ltac:(lia) Hcap) as (? & ? & ?). exists (chosen p capacity ctx).
    split_and!; try done; [by apply chosen_sorted; [|lia|]|lia|apply chosen_fits].
  - naive_solver.
Qed.

Lemma decode_selection_sound_witness :
  match build_decode_selection sample_policy 50 (replicate 10 7) with
  | Ret plan b' => b' = [0; 1; 16; 31; 46; 47; 48; 49; 7; 7] /\ dp_selected_block_count plan = 4 /\ exists sel,
      b' = selected_buffer 8 sel (replicate 10 7) /\ StronglySorted Z.lt sel /\
      dp_selected_block_count plan = Z.of_nat (size (blocks_of (block_token_count (normalized sample_policy)) sel))
  | _ => False
  end.
Proof.
  pose proof (decode_selection_sound sample_policy 50 (replicate 10 7) sample_policy_u32 ltac:(lia)
    ltac:(rewrite length_replicate; lia)) as H.
  destruct (build_decode_selection sample_policy 50 (replicate 10 7)) as [plan b'|e b'| |] eqn:E;
    [|vm_compute in E; discriminate E..].
  destruct H as (_ & sel & Hb & (Hs & _) & _ & _ & (_ & _ & _ & Hblocks & _) & _).
  vm_compute in E. injection E as <- <-. split; [reflexivity|]. split; [reflexivity|].
  exists sel. split; [|split; [exact Hs|exact Hblocks]]. rewrite Hb. f_equal.
Defined.

(** When its parts fit the capacity together, a bounded selection is exactly the
    sink prefix, the evenly spaced samples of the middle and the newest tokens: each
    of the last [recent_token_count] tokens of the context is read. *)
Theorem bounded_selection_exact p ctx capacity t :
  policy_u32 p -> 1 <= ctx <= U32_MAX -> 1 <= capacity <= MAX_SELECTED_TOKEN_CAPACITY ->
  sink_token_count p + stride_sample_token_count p + recent_token_count p <= capacity ->
  has_flag (policy_flags p) POLICY_FLAG_INCLUDE_SINK_TOKENS = true ->
  has_flag (policy_flags p) POLICY_FLAG_INCLUDE_STRIDED_MIDDLE_TOKENS = true ->
  has_flag (policy_flags p) POLICY_FLAG_INCLUDE_RECENT_TOKENS = true ->
  let '(sel, sink, stride, recent) := bounded_selection p ctx capacity in
  sink = Z.min (sink_token_count p) ctx /\ recent = Z.max sink (ctx - recent_token_count p) /\
  stride = Z.min (stride_sample_token_count p) (recent - sink) /\
  (t ∈ sel <-> 0 <= t < sink \/ recent <= t < ctx \/
     exists i, 0 <= i < stride /\ t = sink + ((i + 1) * (recent - sink)) / (stride + 1)).
Proof.
  intros Hp Hctx Hcap Hfit Hf1 Hf2 Hf3. pose proof Hp as (?&?&?&?&?&?&?&?).
  pose proof (bounded_selection_union p ctx capacity Hp Hctx Hcap t) as Hu.
  pose proof (sizes_range p ctx capacity Hp Hctx Hcap) as (Hs & Hr & Hst & Hst').
  rewrite (bounded_selection_eq p ctx capacity Hp Hctx Hcap) in *. cbn [fst snd] in Hu.
  assert (sink_size p ctx capacity = Z.min (sink_token_count p) ctx) as Es.
  { unfold sink_size. rewrite Hf1. lia. }
  assert (recent_start p ctx capacity = Z.max (sink_size p ctx capacity) (ctx - recent_token_count p)) as Er.
  { unfold recent_start. rewrite Hf3. lia. }
  assert (stride_size p ctx capacity =
    Z.min (stride_sample_token_count p) (recent_start p ctx capacity - sink_size p ctx capacity)) as Et.
  { unfold stride_size. rewrite Hf2. lia. }
  split_and!; [done..|]. rewrite Hu by lia. clear Hu Es Er Et. unfold samples. rewrite list_elem_of_fmap.
  assert (forall i, 0 <= i < stride_size p ctx capacity ->
    middle_token (sink_size p ctx capacity) (recent_start p ctx capacity) (stride_size p ctx capacity) i =
    sink_size p ctx capacity +
      (i + 1) * (recent_start p ctx capacity - sink_size p ctx capacity) / (stride_size p ctx capacity + 1)) as Hmid.
  { intros i Hi. apply middle_token_range; lia. }
  setoid_rewrite elem_of_range. naive_solver.
Qed.

Lemma bounded_selection_exact_witness :
  let '(sel, sink, stride, recent) := bounded_selection sample_policy 50 8 in
  sel = [0; 1; 16; 31; 46; 47; 48; 49] /\ recent = Z.max sink (50 - 4) /\ (49 ∈ sel).
Proof.
  pose proof (bounded_selection_exact sample_policy 50 8 49 sample_policy_u32 ltac:(lia)
    ltac:(unfold MAX_SELECTED_TOKEN_CAPACITY; lia) ltac:(cbn; lia) eq_refl eq_refl eq_refl) as H.
  destruct (bounded_selection sample_policy 50 8) as [[[sel sink] stride] recent] eqn:E.
  assert (sel = [0; 1; 16; 31; 46; 47; 48; 49]) by (vm_compute in E; by injection E).
  destruct H as (_ & Hr & _ & Hel). split_and!; [done|exact Hr|].
  apply Hel. right. left. vm_compute in E. injection E. intros. lia.
Defined.

(** A prefill plan covers the prompt exactly: all chunks but the last hold the
    step's token count, the last holds between one token and a full step, together
    they are the prompt, and the prompt's KV blocks are counted with the last one
    partly filled.  It is refused only for an empty prompt, an invalid policy, or a
    prompt over the limit of a policy that forbids it. *)
Theorem prefill_plan_covers self prompt step :
  policy_u32 self -> 0 <= prompt <= U32_MAX -> 0 <= step <= U32_MAX ->
  let p := normalized self in
  match build_prefill_plan self prompt step tt with
  | Ret plan _ => policy_valid self /\
      let n := pp_prefill_chunk_count plan in let last := pp_final_chunk_token_count plan in
      let s := pp_max_prefill_tokens_per_step plan in let blocks := pp_kv_block_count_for_prompt plan in
      s = or_default step (prefill_chunk_token_count p) /\
      1 <= n /\ 1 <= last <= s /\ (n - 1) * s + last = prompt /\
      (blocks - 1) * block_token_count p < prompt <= blocks * block_token_count p
  | Fails InvalidArgument _ => prompt = 0 \/ ~ policy_valid self
  | Fails CapacityExceeded _ => context_overflow p prompt
  | _ => False
  end.
Proof.
  intros Hp Hprompt Hstep p. unfold build_prefill_plan.
  destruct (Z.eqb_spec prompt 0); [cbn; auto|].
  destruct (policy_validate_spec self tt Hp) as [[E Hv]|[E Hv]]; unfold bind; rewrite E; [|auto]. fold p.
  match goal with |- context [if ?g then throw CapacityExceeded else _] => destruct g eqn:Hov end.
  { apply andb_prop in Hov as [Ho%Z.ltb_lt ?]. done. }
  pose proof Hv as (_&_&_&Hb&_&Hc&_). fold p in Hb, Hc. clearbody p. cbn. split; [done|].
  unfold or_default. set (s := if step =? 0 then _ else step).
  assert (1 <= s) as Hs by (unfold s; destruct (Z.eqb_spec step 0); lia). clearbody s.
  assert (forall d, 1 <= d -> ceil_div_u32 prompt d = div_ceil prompt d /\
    d * (div_ceil prompt d - 1) < prompt <= d * div_ceil prompt d) as Hceil.
  { intros d Hd. destruct (div_ceil_spec prompt d ltac:(lia) ltac:(lia)) as [Hdc|]; [|lia]. split; [|done].
    unfold ceil_div_u32. destruct (Z.eqb_spec d 0); [lia|]. apply u32_small. nia. }
  destruct (Hceil s Hs) as [-> Hn], (Hceil _ Hb) as [-> Hbl].
  pose proof (Z.div_mod prompt s ltac:(lia)). pose proof (Z.mod_pos_bound prompt s ltac:(lia)).
  set (blocks := div_ceil prompt (block_token_count p)) in *. clearbody blocks.
  assert (div_ceil prompt s = prompt / s + if prompt mod s =? 0 then 0 else 1) as Hq.
  { unfold div_ceil. destruct (Z.ltb_spec 0 (prompt mod s)), (Z.eqb_spec (prompt mod s) 0); lia. }
  rewrite Hq in *. set (q := prompt / s) in *. clearbody q. split; [done|].
  destruct (Z.eqb_spec (prompt mod s) 0); split_and!; (lia || nia).
Qed.

Lemma prefill_plan_covers_witness :
  match build_prefill_plan sample_policy 50 12 tt with
  | Ret plan _ => pp_prefill_chunk_count plan = 5 /\ pp_final_chunk_token_count plan = 2 /\ policy_valid sample_policy
  | _ => False
  end.
Proof.
  pose proof (prefill_plan_covers sample_policy 50 12 sample_policy_u32 ltac:(lia) ltac:(lia)) as H.
  destruct (build_prefill_plan sample_policy 50 12 tt) as [plan []|e []| |] eqn:E; [|vm_compute in E; discriminate E..].
  vm_compute in E. injection E as <-. split_and!; [reflexivity|reflexivity|]. apply H.
Defined.

(** The lanes of a batch are independent.  A successful batch gives every lane
    the plan and the indices [build_decode_selection] computes on that lane's part
    of the original buffer, and leaves every entry between lanes as it was; a batch
    is refused for its shape, with the buffer untouched, or with the error one of
    its lanes gives on its own. *)
Theorem lane_batch_independent self counts stride capacity buffer :
  policy_u32 self -> Forall (fun c => 0 <= c <= U32_MAX) counts -> 0 <= capacity <= U32_MAX ->
  0 <= stride -> Z.of_nat (length counts) * stride + capacity <= U64_MAX ->
  match build_decode_selection_for_lane_batch self counts stride capacity buffer with
  | Ret plans b' => 1 <= capacity <= stride /\ lanes_done self capacity stride buffer counts plans b'
  | Fails e b' =>
      (e = InvalidArgument /\ b' = buffer /\
        (counts = [] \/ capacity = 0 \/ stride < capacity \/
         Z.of_nat (length buffer) < (Z.of_nat (length counts) - 1) * stride + capacity)) \/
      lane_failed self capacity stride buffer counts e
  | _ => False
  end.
Proof.
  intros Hp Hc Hcap Hst Hmax. pose proof (lane_batch_spec self counts stride capacity buffer Hp Hc Hcap Hst Hmax) as Hs.
  unfold wp in Hs. destruct (build_decode_selection_for_lane_batch _ _ _ _ _); [apply Hs|exact Hs|done..].
Qed.

Lemma lane_batch_independent_witness :
  match build_decode_selection_for_lane_batch sample_policy [3; 50] 6 4 (replicate 11 7) with
  | Ret plans b' => b' = [0; 1; 2; INVALID_TOKEN_ID; 7; 7; 0; 1; 17; 32; 7] /\
      lanes_done sample_policy 4 6 (replicate 11 7) [3; 50] plans b'
  | _ => False
  end.
Proof.
  pose proof (lane_batch_independent sample_policy [3; 50] 6 4 (replicate 11 7) sample_policy_u32
    ltac:(repeat constructor; lia) ltac:(lia) ltac:(lia) ltac:(cbn; lia)) as H.
  destruct (build_decode_selection_for_lane_batch _ _ _ _ _) as [plans b'|e b'| |] eqn:E;
    [|vm_compute in E; discriminate E..].
  destruct H as [_ H]. split; [vm_compute in E; by injection E|done].
Defined.

(** With a caller buffer smaller than sinks, samples and recent window together, the
    samples take the place of the newest tokens: the default policy on a buffer of
    1024 entries and a context of 10000 tokens reports 896 recent tokens and selects
    only the oldest 512 of them, not the token before the one being decoded. *)
Theorem decode_selection_drops_newest :
  match build_decode_selection (new_policy 100000 2048) 10000 (replicate 1024 0) with
  | Ret plan b' => dp_recent_token_count plan = 896 /\ dp_first_recent_token_index plan = 9104 /\
      bool_decide (9104 ∈ b') = true /\ bool_decide (9615 ∈ b') = true /\
      existsb (fun t => (9616 <=? t) && (t <? 10000)) b' = false
  | _ => False
  end.
Proof. vm_compute. repeat split. Qed.

(** The length check of a lane batch wraps: three lanes at stride [2^63] pass it
    with an eight-entry buffer, and the second lane's slice is out of range. *)
Theorem lane_batch_length_wraps :
  build_decode_selection_for_lane_batch sample_policy [1; 1; 1] (2 ^ 63) 4 (replicate 8 0) = Panic.
Proof. vm_compute. reflexivity. Qed.
