(* ===== verification/Bytes.v ===== *)
(** * Little-endian bytes

    [uN::to_le_bytes], [uN::from_le_bytes] and the [Reader] cursors built on them:
    an [n]-byte unsigned integer is the list of its bytes, least significant first,
    each a [Z] in [0..256). *)

From S2P Require Import Prelude.

(** [x.to_le_bytes()] for an [n]-byte integer. *)
Fixpoint to_le_bytes (n : nat) (x : Z) : list Z :=
  match n with
  | O => []
  | S n' => x mod 256 :: to_le_bytes n' (x / 256)
  end.

(** [uN::from_le_bytes(bytes)]. *)
Fixpoint from_le_bytes (bytes : list Z) : Z :=
  match bytes with
  | [] => 0
  | b :: bytes' => b + 256 * from_le_bytes bytes'
  end.

Abbreviation le32 := (to_le_bytes 4).
Abbreviation le64 := (to_le_bytes 8).

Definition byte (b : Z) : Prop := 0 <= b < 256.

Lemma length_to_le_bytes n x : length (to_le_bytes n x) = n.
Proof. revert x. induction n; simpl; auto. Qed.

Lemma to_le_bytes_bytes n x : Forall byte (to_le_bytes n x).
Proof. revert x. induction n; intros x; simpl; constructor; auto. apply Z.mod_pos_bound. lia. Qed.

Lemma from_to_le_bytes n x : from_le_bytes (to_le_bytes n x) = x mod 256 ^ Z.of_nat n.
Proof.
  revert x. induction n as [|n IH]; intros x; simpl to_le_bytes; simpl from_le_bytes.
  - change (256 ^ Z.of_nat 0) with 1. by rewrite Z.mod_1_r.
  - rewrite IH, Nat2Z.inj_succ, Z.pow_succ_r by lia.

    rewrite Z.rem_mul_r by (try apply Z.pow_nonzero; lia). lia.
Qed.

Lemma from_le_bytes_range bytes : Forall byte bytes -> 0 <= from_le_bytes bytes < 256 ^ Z.of_nat (length bytes).
Proof.
  induction 1 as [|b bytes Hb Hbs IH]; cbn [from_le_bytes length]; [lia|].
  rewrite Nat2Z.inj_succ, Z.pow_succ_r by lia. unfold byte in Hb. lia.
Qed.

Lemma to_from_le_bytes bytes : Forall byte bytes -> to_le_bytes (length bytes) (from_le_bytes bytes) = bytes.
Proof.
  induction 1 as [|b bytes Hb Hbs IH]; cbn [from_le_bytes length to_le_bytes]; [done|]. unfold byte in Hb.
  rewrite (Z.mul_comm 256), Z_mod_plus_full, Z.mod_small, Z.div_add, Z.div_small, Z.add_0_l, IH by lia. done.
Qed.

Lemma le32_roundtrip x : 0 <= x <= U32_MAX -> from_le_bytes (le32 x) = x.
Proof. intros. rewrite from_to_le_bytes. apply Z.mod_small. change (256 ^ Z.of_nat 4) with 4294967296. lia. Qed.

Lemma le64_roundtrip x : 0 <= x <= U64_MAX -> from_le_bytes (le64 x) = x.
Proof.
  intros. rewrite from_to_le_bytes. apply Z.mod_small. change (256 ^ Z.of_nat 8) with 18446744073709551616. lia.
Qed.

#[export] Hint Rewrite length_to_le_bytes : spark.
