(* ===== verification/TopologySwitch.v ===== *)
(** * The topology switch: definitions ([crates/spark-sched/src/topology_switch.rs])

    The state machine that moves a rank from one recipe to another with sequences in
    flight: Quiesce drains them to a token boundary, Checkpoint pins their tier
    blocks and writes a manifest each, Swap streams the target's weights, Resume
    classifies every sequence.

    The tier, the swap device and the manifest writer are traits of the source; they
    are type classes here.  A trait method is a total function on the implementer's
    state that returns a value or an error ([call]). *)

From S2P Require Import Prelude Bytes.

Definition MANIFEST_DOMAIN : Z := 0x9e3779b97f4a7c15.

Definition PLAN_CHUNK : nat := 16.

Definition MANIFEST_HEADER_BYTES : Z := 24.

Definition C_SEQUENCE_RECORD_BYTES : Z := 32.

Definition FNV_PRIME : Z := 1099511628211.

Inductive TopologySwitchError :=
| InvalidArgument | CapacityExceeded | NotFound | IoError | ParseError | SchemaError | HashMismatch
| ModuleNotValidated | ValidationFailed | AbiMismatch | TargetMismatch | CompilerError | DriverLoadError
| RouteNotFound | Busy | Duplicate | InternalError | Pending | Unsupported.

#[export] Instance TopologySwitchError_dec : EqDecision TopologySwitchError.
Proof. solve_decision. Defined.

Inductive TopologyStrategy := TensorParallel | PipelineParallel.

Record TopologyRecipe := mkRecipe {
  recipe_id : Z;
  weight_pack_bytes : Z;
  strategy : TopologyStrategy;
}.

Inductive SwitchState := Steady | Quiesce | Checkpoint | Swap | Resume.

#[export] Instance SwitchState_dec : EqDecision SwitchState.
Proof. solve_decision. Defined.

Inductive ResumeClass := ClassPending | Warm | Recompute.

#[export] Instance ResumeClass_dec : EqDecision ResumeClass.
Proof. solve_decision. Defined.

Record SwitchBudget := mkBudget {
  quiesce_us : Z;
  checkpoint_us : Z;
  swap_fixed_us : Z;
  swap_stream_us : Z;
  resume_warm_us : Z;
  total_us : Z;
}.

Record SwitchStatistics := mkStatistics {
  switches_completed : Z;
  sequences_checkpointed : Z;
  sequences_resumed_warm : Z;
  sequences_resumed_recompute : Z;
  sequences_completed_mid_switch : Z;
  blocks_pinned : Z;
  manifest_writes : Z;
  manifest_bytes : Z;
  tier_blocks_found : Z;
  tier_blocks_absent : Z;
  swaps_started : Z;
}.

#[export] Instance SwitchStatistics_eta : RecordEta SwitchStatistics := fun s =>
  mkStatistics (switches_completed s) (sequences_checkpointed s) (sequences_resumed_warm s)
    (sequences_resumed_recompute s) (sequences_completed_mid_switch s) (blocks_pinned s) (manifest_writes s)
    (manifest_bytes s) (tier_blocks_found s) (tier_blocks_absent s) (swaps_started s).

Definition default_statistics : SwitchStatistics := mkStatistics 0 0 0 0 0 0 0 0 0 0 0.

Record TopologySwitchConfig := mkConfig {
  kv_namespace : Z;
  max_sequences : Z;
  max_blocks_per_sequence : Z;
  step_time_microseconds : Z;
  manifest_block_bytes : Z;
  nvme_read_bytes_per_second : Z;
  nvme_write_bytes_per_second : Z;
  swap_fixed_microseconds : Z;
  initial_recipe : TopologyRecipe;
}.

Record TierNeed := mkNeed { need_key : Z; need_by_step : Z }.

Record WriteReservation := mkReservation { device_offset : Z; already_present : bool }.

(** A trait method on the implementer's state. *)
Definition call (T A : Type) : Type := T -> (TopologySwitchError + A) * T.

Class SwitchTier (T : Type) := {
  tier_pin : Z -> bool -> call T unit;
  tier_offset_of : Z -> call T Z;
  tier_reserve_write : Z -> call T WriteReservation;
  tier_commit_write : WriteReservation -> call T unit;
  tier_abort_write : WriteReservation -> T -> T;
  tier_plan_lookahead : list TierNeed -> Z -> call T unit;
}.

Class SwapDevice (D : Type) := {
  begin_swap : TopologyRecipe -> TopologyRecipe -> call D unit;
  poll_swap : call D unit;
}.

Class ManifestWriter (W : Type) := {
  write_block : Z -> list Z -> call W unit;
}.

(** ** Tier keys *)

Definition hash_bytes (hash : Z) (data : list Z) : Z :=
  foldl (fun h byte => Z.lxor h byte *u64 FNV_PRIME) hash data.

Definition kv_key (namespace content_hash : Z) : Z := Z.lor (hash_bytes namespace (le64 content_hash)) 1.

Definition manifest_key (namespace sequence_id : Z) : Z :=
  kv_key namespace (Z.lor (hash_bytes MANIFEST_DOMAIN (le64 sequence_id)) 1).

(** ** Sequence slots *)

Inductive SlotState := Free | Active | AtBoundary.

#[export] Instance SlotState_dec : EqDecision SlotState.
Proof. solve_decision. Defined.

Record SequenceSlot := mkSlot {
  sequence_id : Z;
  slot_recipe_id : Z;
  position_tokens : Z;
  block_count : Z;
  slot_state : SlotState;
  resume_class : ResumeClass;
  pins_done : bool;
  checkpointed : bool;
}.

#[export] Instance SequenceSlot_eta : RecordEta SequenceSlot := fun s =>
  mkSlot (sequence_id s) (slot_recipe_id s) (position_tokens s) (block_count s) (slot_state s)
    (resume_class s) (pins_done s) (checkpointed s).

Definition default_slot : SequenceSlot := mkSlot 0 0 0 0 Free ClassPending false false.

Definition is_free (s : SequenceSlot) : bool := bool_decide (slot_state s = Free).

Definition is_active (s : SequenceSlot) : bool := bool_decide (slot_state s = Active).

(** [keys.chunks(n)]; a list of [l] elements has at most [l] chunks. *)
Fixpoint chunks_fuel {A} (fuel n : nat) (l : list A) : list (list A) :=
  match fuel, l with
  | S fuel', _ :: _ => take n l :: chunks_fuel fuel' n (drop n l)
  | _, _ => []
  end.

Definition chunks {A} (n : nat) (l : list A) : list (list A) := chunks_fuel (length l) n l.

Section TopologySwitch.
Context {T D W : Type} `{!SwitchTier T} `{!SwapDevice D} `{!ManifestWriter W}.

Record TopologySwitch := mkSwitch {
  config : TopologySwitchConfig;
  tier : T;
  swap_device : D;
  writer : W;
  sequences : list SequenceSlot;
  block_keys : list Z;
  manifest_buffer : list Z;
  current_recipe : TopologyRecipe;
  target_recipe : TopologyRecipe;
  state : SwitchState;
  sequence_count : Z;
  phase_cursor : Z;
  swap_started : bool;
  last_error : option TopologySwitchError;
  statistics : SwitchStatistics;
}.

#[local] Instance TopologySwitch_eta : RecordEta TopologySwitch := fun s =>
  mkSwitch (config s) (tier s) (swap_device s) (writer s) (sequences s) (block_keys s) (manifest_buffer s)
    (current_recipe s) (target_recipe s) (state s) (sequence_count s) (phase_cursor s) (swap_started s)
    (last_error s) (statistics s).

Abbreviation SM := (M TopologySwitch TopologySwitchError).

(** A call into the tier, the device or the writer; the caller inspects the result. *)
Definition on_tier {A} (m : call T A) : SM (TopologySwitchError + A) := fun s =>
  let '(r, t) := m (tier s) in Ret r (s <| tier := t |>).

Definition on_device {A} (m : call D A) : SM (TopologySwitchError + A) := fun s =>
  let '(r, d) := m (swap_device s) in Ret r (s <| swap_device := d |>).

Definition on_writer {A} (m : call W A) : SM (TopologySwitchError + A) := fun s =>
  let '(r, w) := m (writer s) in Ret r (s <| writer := w |>).

(** [?] on a trait call. *)
Definition or_throw {A} (r : TopologySwitchError + A) : SM A :=
  match r with inl e => throw e | inr a => ret a end.

Definition count_stat (f : SwitchStatistics -> SwitchStatistics) : SM unit :=
  modify (fun s => s <| statistics := f (statistics s) |>).

Definition upd_slot (slot : Z) (f : SequenceSlot -> SequenceSlot) : SM unit :=
  modify (fun s => s <| sequences := upd_nth slot f (sequences s) |>).

(** ** Construction and queries *)

Definition align8 (value : Z) : Z := Z.land (value +u64 7) (U64_MAX - 7).

Definition table_bytes (c : TopologySwitchConfig) : Z :=
  let total := align8 (max_sequences c *u64 C_SEQUENCE_RECORD_BYTES) in
  let total := align8 (total +u64 ((max_sequences c *u64 max_blocks_per_sequence c) *u64 8)) in
  align8 (total +u64 manifest_block_bytes c).

(** A key table above [isize::MAX] bytes cannot be allocated. *)
Definition new (c : TopologySwitchConfig) (t : T) (d : D) (w : W) : M unit TopologySwitchError TopologySwitch :=
  if (max_sequences c =? 0) || (max_blocks_per_sequence c =? 0) || (step_time_microseconds c =? 0)
  then throw InvalidArgument
  else if (nvme_read_bytes_per_second c =? 0) || (nvme_write_bytes_per_second c =? 0)
  then throw InvalidArgument
  else
    let manifest_capacity := MANIFEST_HEADER_BYTES +u64 (max_blocks_per_sequence c *u64 8) in
    if manifest_block_bytes c <? manifest_capacity then throw InvalidArgument
    else
      let key_count := max_sequences c *u64 max_blocks_per_sequence c in
      if ISIZE_MAX <? 8 * key_count then panic
      else ret (mkSwitch c t d w (replicate (Z.to_nat (max_sequences c)) default_slot)
        (replicate (Z.to_nat key_count) 0) (replicate (Z.to_nat (manifest_block_bytes c)) 0)
        (initial_recipe c) (initial_recipe c) Steady 0 0 false None default_statistics).

Definition admissions_open (s : TopologySwitch) : bool := bool_decide (state s = Steady).

Definition find_sequence (s : TopologySwitch) (id : Z) : option Z :=
  position (fun slot => negb (is_free slot) && (sequence_id slot =? id)) (sequences s).

Definition resume_class_of (s : TopologySwitch) (id : Z) : SM ResumeClass :=
  match find_sequence s id with
  | Some slot => let! q := index (sequences s) slot in ret (resume_class q)
  | None => ret Recompute
  end.

Definition estimate_budget (c : TopologySwitchConfig) (target : TopologyRecipe)
    (active_sequence_count warm_kv_bytes : Z) : M unit TopologySwitchError SwitchBudget :=
  if (nvme_read_bytes_per_second c =? 0) || (nvme_write_bytes_per_second c =? 0)
  then throw InvalidArgument
  else
    let manifest_total := active_sequence_count *u64 manifest_block_bytes c in
    let checkpoint := (manifest_total *u64 1000000) / nvme_write_bytes_per_second c in
    let stream := (weight_pack_bytes target *u64 1000000) / nvme_read_bytes_per_second c in
    let warm := (warm_kv_bytes *u64 1000000) / nvme_read_bytes_per_second c in
    let quiesce := step_time_microseconds c in
    let fixed := swap_fixed_microseconds c in
    ret (mkBudget quiesce checkpoint fixed stream warm (((quiesce +u64 checkpoint) +u64 fixed) +u64 stream)).

(** ** Sequence operations *)

Definition track_sequence (id recipe : Z) : SM unit :=
  let! s := gets (fun s => s) in
  if id =? 0 then throw InvalidArgument
  else if negb (bool_decide (state s = Steady)) then throw Busy
  else if negb (recipe =? recipe_id (current_recipe s)) then throw InvalidArgument
  else match find_sequence s id with
  | Some _ => throw Duplicate
  | None =>
      match position is_free (sequences s) with
      | None => throw CapacityExceeded
      | Some slot =>
          do! upd_slot slot (fun q => q <| sequence_id := id |> <| slot_recipe_id := recipe |>
                <| position_tokens := 0 |> <| block_count := 0 |> <| slot_state := Active |>
                <| resume_class := ClassPending |> <| pins_done := false |> <| checkpointed := false |>) in
          modify (fun s => s <| sequence_count := sequence_count s +u32 1 |>)
      end
  end.

(** The first key of a slot's run. *)
Definition key_base (s : TopologySwitch) (slot : Z) : Z := slot *u64 max_blocks_per_sequence (config s).

Definition find_or_fail (id : Z) : SM Z :=
  let! s := gets (fun s => s) in
  match find_sequence s id with Some slot => ret slot | None => throw NotFound end.

Definition set_sequence_kv (id position : Z) (content_hashes : list Z) : SM unit :=
  let! s := gets (fun s => s) in
  if max_blocks_per_sequence (config s) <? Z.of_nat (length content_hashes) then throw CapacityExceeded
  else
    let! slot := find_or_fail id in
    let! q := index (sequences s) slot in
    if checkpointed q then throw Busy
    else
      let base := key_base s slot in
      do! for_fold (zip (range 0 (Z.of_nat (length content_hashes))) content_hashes) (fun x _ =>
            let '(i, content_hash) := x in
            let! s := gets (fun s => s) in
            let! _old := index (block_keys s) (base +u64 i) in
            modify (fun s => s <| block_keys :=
              upd_nth (base +u64 i) (fun _ => kv_key (kv_namespace (config s)) content_hash) (block_keys s) |>)) tt in
      do! upd_slot slot (fun q => q <| block_count := u32 (Z.of_nat (length content_hashes)) |>) in
      upd_slot slot (fun q => q <| position_tokens := position |>).

Definition sequence_at_boundary (id : Z) : SM unit :=
  let! slot := find_or_fail id in
  upd_slot slot (fun q => q <| slot_state := AtBoundary |>).

(** [&self.block_keys[base..base + count]] *)
Definition slot_keys (slot count : Z) : SM (list Z) :=
  let! s := gets (fun s => s) in
  slice (block_keys s) (key_base s slot) (key_base s slot +u64 count).

Definition sequence_complete (id : Z) : SM unit :=
  let! slot := find_or_fail id in
  let! s := gets (fun s => s) in
  let! q := index (sequences s) slot in
  do! (if pins_done q then
         let! keys := slot_keys slot (block_count q) in
         for_fold keys (fun key _ => let! _r := on_tier (tier_pin key false) in ret tt) tt
       else ret tt) in
  do! (if negb (bool_decide (state s = Steady)) && negb (checkpointed q)
       then count_stat (fun st => st <| sequences_completed_mid_switch := sequences_completed_mid_switch st +u64 1 |>)
       else ret tt) in
  do! upd_slot slot (fun q => q <| slot_state := Free |> <| resume_class := ClassPending |> <| block_count := 0 |>) in
  modify (fun s => s <| sequence_count := sequence_count s -u32 1 |>).

(** ** The machine *)

Definition begin (target : TopologyRecipe) : SM unit :=
  let! s := gets (fun s => s) in
  if recipe_id target =? 0 then throw InvalidArgument
  else if negb (bool_decide (state s = Steady)) then throw Busy
  else if recipe_id target =? recipe_id (current_recipe s) then throw InvalidArgument
  else modify (fun s => s <| target_recipe := target |> <| state := Quiesce |> <| phase_cursor := 0 |>
                <| swap_started := false |> <| last_error := None |>).

Definition quiesce_drained (s : TopologySwitch) : bool := negb (existsb is_active (sequences s)).

(** Pin one block, counting it as found or absent. *)
Definition pin_block (key : Z) : SM unit :=
  let! r := on_tier (tier_pin key true) in
  match r with
  | inr _ => count_stat (fun st => st <| tier_blocks_found := tier_blocks_found st +u64 1 |>
                <| blocks_pinned := blocks_pinned st +u64 1 |>)
  | inl NotFound => count_stat (fun st => st <| tier_blocks_absent := tier_blocks_absent st +u64 1 |>)
  | inl e => throw e
  end.

(** [buffer[lo..lo + bytes.len()].copy_from_slice(bytes)] *)
Definition copy_into_manifest (lo : Z) (bytes : list Z) : SM unit :=
  let! s := gets (fun s => s) in
  let! _dst := slice (manifest_buffer s) lo (lo + Z.of_nat (length bytes)) in
  modify (fun s => s <| manifest_buffer :=
    write_slice lo (lo + Z.of_nat (length bytes)) bytes (manifest_buffer s) |>).

(** Serialise: id, recipe, position, count, then the key run. *)
Definition serialise_manifest (slot : Z) : SM unit :=
  do! modify (fun s => s <| manifest_buffer := replicate (length (manifest_buffer s)) 0 |>) in
  let! s := gets (fun s => s) in
  let! q := index (sequences s) slot in
  do! copy_into_manifest 0 (le64 (sequence_id q)) in
  do! copy_into_manifest 8 (le64 (slot_recipe_id q)) in
  do! copy_into_manifest 16 (le32 (position_tokens q)) in
  do! copy_into_manifest 20 (le32 (block_count q)) in
  for_fold (range 0 (block_count q)) (fun i _ =>
    let! key := index (block_keys s) (key_base s slot +u64 i) in
    copy_into_manifest (MANIFEST_HEADER_BYTES + i * 8) (le64 key)) tt.

(** Reserve a record for the manifest, write it, commit it. *)
Definition write_manifest (slot : Z) : SM unit :=
  let! s := gets (fun s => s) in
  let! q := index (sequences s) slot in
  let key := manifest_key (kv_namespace (config s)) (sequence_id q) in
  let! r := on_tier (tier_reserve_write key) in
  let! reservation := or_throw r in
  if already_present reservation then ret tt
  else
    let! s := gets (fun s => s) in
    let! r := on_writer (write_block (device_offset reservation) (manifest_buffer s)) in
    match r with
    | inl e =>
        do! modify (fun s => s <| tier := tier_abort_write reservation (tier s) |>) in throw e
    | inr _ =>
        let! r := on_tier (tier_commit_write reservation) in or_throw r
    end.

Definition checkpoint_one (slot : Z) : SM unit :=
  let! s := gets (fun s => s) in
  let! q := index (sequences s) slot in
  do! (if pins_done q then ret tt
       else
         let! keys := slot_keys slot (block_count q) in
         do! for_fold keys (fun key _ => pin_block key) tt in
         upd_slot slot (fun q => q <| pins_done := true |>)) in
  do! serialise_manifest slot in
  do! write_manifest slot in
  do! upd_slot slot (fun q => q <| checkpointed := true |>) in
  count_stat (fun st => st <| sequences_checkpointed := sequences_checkpointed st +u64 1 |>
    <| manifest_writes := manifest_writes st +u64 1 |>
    <| manifest_bytes := manifest_bytes st +u64 manifest_block_bytes (config s) |>).

(** One turn of [checkpoint_run]'s loop. *)
Definition checkpoint_round (_ : unit) : SM (flow unit bool) :=
  let! s := gets (fun s => s) in
  if phase_cursor s <? Z.of_nat (length (sequences s)) then
    let slot := phase_cursor s in
    do! modify (fun s => s <| phase_cursor := phase_cursor s +u32 1 |>) in
    let! q := index (sequences s) slot in
    if is_free q || checkpointed q then ret (Continue tt)
    else
      let! r := catch (do! checkpoint_one slot in ret None) (fun e => ret (Some e)) in
      match r with
      | None => ret (Continue tt)
      | Some e =>
          do! modify (fun s => s <| phase_cursor := phase_cursor s -u32 1 |> <| last_error := Some e |>) in
          ret (Break false)
      end
  else ret (Break true).

Definition checkpoint_run : SM bool :=
  let! s := gets (fun s => s) in
  loop (S (length (sequences s))) checkpoint_round tt.

Definition resume_one (slot step_now : Z) : SM unit :=
  let! s := gets (fun s => s) in
  let! q := index (sequences s) slot in
  let! keys := slot_keys slot (block_count q) in
  let! warm := for_fold keys (fun key warm =>
    let! r := on_tier (tier_offset_of key) in
    let warm := match r with inl _ => false | inr _ => warm end in
    let! _r := on_tier (tier_pin key false) in
    ret warm) true in
  if warm && negb (block_count q =? 0) then
    do! for_fold (chunks PLAN_CHUNK keys) (fun chunk _ =>
          let! _r := on_tier (tier_plan_lookahead ((fun key => mkNeed key (step_now +u32 1)) <$> chunk) step_now) in
          ret tt) tt in
    do! upd_slot slot (fun q => q <| resume_class := Warm |>) in
    count_stat (fun st => st <| sequences_resumed_warm := sequences_resumed_warm st +u64 1 |>)
  else
    do! upd_slot slot (fun q => q <| resume_class := Recompute |>) in
    count_stat (fun st => st <| sequences_resumed_recompute := sequences_resumed_recompute st +u64 1 |>).

Definition resume_round (step_now : Z) (_ : unit) : SM (flow unit unit) :=
  let! s := gets (fun s => s) in
  if phase_cursor s <? Z.of_nat (length (sequences s)) then
    let slot := phase_cursor s in
    do! modify (fun s => s <| phase_cursor := phase_cursor s +u32 1 |>) in
    let! q := index (sequences s) slot in
    if is_free q then ret (Continue tt)
    else do! resume_one slot step_now in ret (Continue tt)
  else ret (Break tt).

(** The Quiesce part of [advance]. *)
Definition advance_quiesce : SM unit :=
  let! s := gets (fun s => s) in
  if bool_decide (state s = Quiesce) && quiesce_drained s
  then modify (fun s => s <| state := Checkpoint |> <| phase_cursor := 0 |>) else ret tt.

Definition advance_checkpoint : SM unit :=
  let! s := gets (fun s => s) in
  if bool_decide (state s = Checkpoint) then
    let! finished := checkpoint_run in
    if (finished : bool) then modify (fun s => s <| state := Swap |> <| swap_started := false |>) else ret tt
  else ret tt.

(** Issue the swap unless it is under way. *)
Definition issue_swap : SM bool :=
  let! s := gets (fun s => s) in
  if swap_started s then ret true
  else
    let! r := on_device (begin_swap (current_recipe s) (target_recipe s)) in
    match r with
    | inr _ =>
        do! modify (fun s => s <| swap_started := true |>) in
        do! count_stat (fun st => st <| swaps_started := swaps_started st +u64 1 |>) in ret true
    | inl e => do! modify (fun s => s <| last_error := Some e |>) in ret false
    end.

Definition advance_swap : SM unit :=
  let! s := gets (fun s => s) in
  if bool_decide (state s = Swap) then
    let! issued := issue_swap in
    if (issued : bool) then
      let! r := on_device poll_swap in
      match r with
      | inr _ => modify (fun s => s <| state := Resume |> <| phase_cursor := 0 |>)
      | inl Busy => ret tt
      | inl e => modify (fun s => s <| last_error := Some e |>)
      end
    else ret tt
  else ret tt.

Definition advance_resume (step_now : Z) : SM unit :=
  let! s := gets (fun s => s) in
  if bool_decide (state s = Resume) then
    do! loop (S (length (sequences s))) (resume_round step_now) tt in
    do! modify (fun s => s <| current_recipe := target_recipe s |> <| state := Steady |> <| last_error := None |>) in
    count_stat (fun st => st <| switches_completed := switches_completed st +u64 1 |>)
  else ret tt.

Definition advance (step_now : Z) : SM SwitchState :=
  do! advance_quiesce in
  do! advance_checkpoint in
  do! advance_swap in
  do! advance_resume step_now in
  gets state.

End TopologySwitch.
Arguments TopologySwitch : clear implicits.
