(* ===== verification/TopologySwitchInv.v ===== *)
(** * The topology switch: invariant and specifications of its operations

    What each phase of the machine changes and keeps, whatever the tier, the swap
    device and the writer do, and the invariant of the machine's tables. *)

From S2P Require Import Prelude Bytes TopologySwitch.

(** What a tier promises about presence: [offset_of] succeeds exactly on the keys it
    holds, and neither a query, nor an unpin, nor a lookahead plan evicts. *)
Class TierPresence (T : Type) `{!SwitchTier T} := {
  present : T -> Z -> bool;
  present_offset_of : forall t key,
    match (tier_offset_of key t).1 with inr _ => true | inl _ => false end = present t key;
  present_after_offset_of : forall t key k, present (tier_offset_of key t).2 k = present t k;
  present_after_unpin : forall t key k, present (tier_pin key false t).2 k = present t k;
  present_after_plan : forall t needs step k, present (tier_plan_lookahead needs step t).2 k = present t k;
}.

Section specs.
Context {T D W : Type} `{!SwitchTier T} `{!SwapDevice D} `{!ManifestWriter W}.
Implicit Types (s : TopologySwitch T D W) (q : SequenceSlot).

#[local] Instance switch_eta : RecordEta (TopologySwitch T D W) := fun s =>
  mkSwitch (config s) (tier s) (swap_device s) (writer s) (sequences s) (block_keys s) (manifest_buffer s)
    (current_recipe s) (target_recipe s) (state s) (sequence_count s) (phase_cursor s) (swap_started s)
    (last_error s) (statistics s).

(** What the phases keep: everything but slots, cursor, last error, statistics,
    tier, writer and the manifest's contents. *)
Definition machine s :=
  (config s, block_keys s, length (manifest_buffer s), current_recipe s, target_recipe s, state s,
   sequence_count s, swap_started s, swap_device s).

Lemma machine_fields s s' :
  machine s' = machine s ->
  config s' = config s /\ block_keys s' = block_keys s /\ length (manifest_buffer s') = length (manifest_buffer s) /\
  current_recipe s' = current_recipe s /\ target_recipe s' = target_recipe s /\ state s' = state s /\
  sequence_count s' = sequence_count s /\ swap_started s' = swap_started s /\ swap_device s' = swap_device s.
Proof. unfold machine. intros H. by simplify_eq. Qed.

(** What a slot keeps while it is checkpointed and classified. *)
Definition slot_core q := (sequence_id q, slot_recipe_id q, position_tokens q, block_count q, slot_state q).

Definition same_slots (l l' : list SequenceSlot) : Prop := slot_core <$> l' = slot_core <$> l.

Lemma same_slots_length l l' : same_slots l l' -> length l' = length l.
Proof. intros H%(f_equal length). by rewrite !length_fmap in H. Qed.

Lemma same_slots_lookup l l' i q' :
  same_slots l l' -> l' !! i = Some q' -> exists q, l !! i = Some q /\ slot_core q' = slot_core q.
Proof.
  intros H Hi. assert ((slot_core <$> l') !! i = Some (slot_core q')) as Hc by (by rewrite list_lookup_fmap, Hi).
  rewrite H, list_lookup_fmap in Hc. destruct (l !! i) as [q|]; [|done]. exists q. split; [done|by apply (inj Some) in Hc].
Qed.

Lemma same_slots_refl l : same_slots l l.
Proof. done. Qed.

Lemma same_slots_trans l1 l2 l3 : same_slots l1 l2 -> same_slots l2 l3 -> same_slots l1 l3.
Proof. unfold same_slots. congruence. Qed.

Lemma same_slots_sym l l' : same_slots l l' -> same_slots l' l.
Proof. unfold same_slots. congruence. Qed.

Lemma same_slots_upd l i f : (forall q, slot_core (f q) = slot_core q) -> same_slots l (upd_nth i f l).
Proof.
  intros Hf. unfold same_slots, upd_nth. apply list_eq. intros j. rewrite !list_lookup_fmap.
  destruct (decide (Z.to_nat i = j)) as [<-|].
  - rewrite list_lookup_alter_eq. destruct (l !! _); simpl; [by rewrite Hf|done].
  - by rewrite list_lookup_alter_ne.
Qed.

(** ** Calls into the devices *)

Lemma wp_on_tier {A} (m : call T A) Q R s :
  (forall r t, m (tier s) = (r, t) -> Q r (s <| tier := t |>)) -> wp (on_tier m) Q R s.
Proof. intros H. unfold wp, on_tier. destruct (m (tier s)) as [r t] eqn:E. by apply H. Qed.

Lemma wp_on_device {A} (m : call D A) Q R s :
  (forall r d, m (swap_device s) = (r, d) -> Q r (s <| swap_device := d |>)) -> wp (on_device m) Q R s.
Proof. intros H. unfold wp, on_device. destruct (m (swap_device s)) as [r t] eqn:E. by apply H. Qed.

Lemma wp_on_writer {A} (m : call W A) Q R s :
  (forall r w, m (writer s) = (r, w) -> Q r (s <| writer := w |>)) -> wp (on_writer m) Q R s.
Proof. intros H. unfold wp, on_writer. destruct (m (writer s)) as [r t] eqn:E. by apply H. Qed.

(** The tier and the writer accept what a checkpoint asks of them: pins find the
    block or report it absent, reservations, writes and commits succeed. *)
Definition cooperative : Prop :=
  (forall key t, (tier_pin key true t).1 = inr tt \/ (tier_pin key true t).1 = inl NotFound) /\
  (forall key (t : T), exists r, (tier_reserve_write key t).1 = inr r) /\
  (forall r (t : T), (tier_commit_write r t).1 = inr tt) /\
  (forall offset payload (w : W), (write_block offset payload w).1 = inr tt).

(** ** The tables *)

Definition is_live q : bool := negb (is_free q).

Record tables_wf s : Prop := {
  wf_sequences : 1 <= max_sequences (config s) <= U32_MAX;
  wf_blocks : 1 <= max_blocks_per_sequence (config s) <= U32_MAX;
  wf_keys_fit : 8 * (max_sequences (config s) * max_blocks_per_sequence (config s)) <= ISIZE_MAX;
  wf_manifest : MANIFEST_HEADER_BYTES + 8 * max_blocks_per_sequence (config s) <= manifest_block_bytes (config s);
  wf_len : Z.of_nat (length (sequences s)) = max_sequences (config s);
  wf_keys : Z.of_nat (length (block_keys s)) = max_sequences (config s) * max_blocks_per_sequence (config s);
  wf_buffer : Z.of_nat (length (manifest_buffer s)) = manifest_block_bytes (config s);
  wf_counts : forall i q, sequences s !! i = Some q -> 0 <= block_count q <= max_blocks_per_sequence (config s);
  wf_ids : forall i j q r, sequences s !! i = Some q -> sequences s !! j = Some r ->
    is_live q = true -> is_live r = true -> sequence_id q = sequence_id r -> i = j;
  wf_id_nonzero : forall i q, sequences s !! i = Some q -> is_live q = true -> sequence_id q <> 0;
  wf_count : sequence_count s = countb is_live (sequences s);
  wf_cursor : 0 <= phase_cursor s <= Z.of_nat (length (sequences s));
}.

(** The tables stay well formed when slots keep their cores. *)
Lemma live_core q q' : slot_core q' = slot_core q -> is_live q' = is_live q.
Proof. unfold slot_core, is_live, is_free. intros H. injection H as _ _ _ _ ->. done. Qed.

Lemma countb_live l l' : same_slots l l' -> countb is_live l' = countb is_live l.
Proof.
  intros H. assert (forall k, countb is_live k = countb (fun c => negb (bool_decide (snd c = Free))) (slot_core <$> k)) as E.
  { induction k as [|q k IH]; simpl; [done|]. by rewrite IH. }
  by rewrite !E, H.
Qed.

Lemma tables_wf_frame s s' :
  tables_wf s -> machine s' = machine s -> same_slots (sequences s) (sequences s') ->
  0 <= phase_cursor s' <= Z.of_nat (length (sequences s)) -> tables_wf s'.
Proof.
  intros [] (H & ? & Hbuf & _ & _ & _ & ? & _)%machine_fields Hs Hcur.
  pose proof (same_slots_length _ _ Hs). split; try congruence.
  - intros i q' Hi. destruct (same_slots_lookup _ _ _ _ Hs Hi) as (q & Hq & Hc).
    unfold slot_core in Hc. injection Hc as _ _ _ -> _. rewrite H. eauto.
  - intros i j q' r' Hi Hj Hlq Hlr Hid.
    destruct (same_slots_lookup _ _ _ _ Hs Hi) as (q & Hq & Hcq), (same_slots_lookup _ _ _ _ Hs Hj) as (r & Hr & Hcr).
    rewrite (live_core _ _ Hcq) in Hlq. rewrite (live_core _ _ Hcr) in Hlr.
    eapply wf_ids0; eauto. unfold slot_core in *. congruence.
  - intros i q' Hi Hl. destruct (same_slots_lookup _ _ _ _ Hs Hi) as (q & Hq & Hc).
    rewrite (live_core _ _ Hc) in Hl. unfold slot_core in Hc. injection Hc as -> _ _ _ _. eauto.
  - rewrite (countb_live _ _ Hs). congruence.
Qed.

Lemma key_base_spec s slot :
  tables_wf s -> 0 <= slot < max_sequences (config s) ->
  key_base s slot = slot * max_blocks_per_sequence (config s).
Proof. intros [] ?. unfold key_base. apply u64_small. nia. Qed.

Lemma slot_in_range s i q :
  tables_wf s -> sequences s !! Z.to_nat i = Some q -> 0 <= i -> 0 <= i < max_sequences (config s).
Proof. intros [] Hq%lookup_lt_Some ?. lia. Qed.

(** The keys of a slot. *)
Definition keys_of s (slot count : Z) : list Z :=
  take (Z.to_nat count) (drop (Z.to_nat (slot * max_blocks_per_sequence (config s))) (block_keys s)).

Lemma slot_keys_spec s slot q Q R :
  tables_wf s -> 0 <= slot -> sequences s !! Z.to_nat slot = Some q ->
  Q (keys_of s slot (block_count q)) s -> wp (slot_keys slot (block_count q)) Q R s.
Proof.
  intros Hwf Hslot Hq HQ. pose proof (slot_in_range _ _ _ Hwf Hq Hslot). pose proof Hwf as [].
  pose proof (wf_counts0 _ _ Hq).
  unfold slot_keys. do 2 wp_step. rewrite key_base_spec by done.
  rewrite u64_small by nia. apply wp_slice; [nia..|].
  replace (slot * _ + block_count q - _) with (block_count q) by lia. exact HQ.
Qed.

(** ** Checkpoint *)

(** Only tier, writer, statistics and the manifest's contents changed. *)
Definition kept s s' : Prop :=
  machine s' = machine s /\ sequences s' = sequences s /\ phase_cursor s' = phase_cursor s /\
  last_error s' = last_error s.

Lemma kept_refl s : kept s s.
Proof. done. Qed.

Lemma kept_trans s1 s2 s3 : kept s1 s2 -> kept s2 s3 -> kept s1 s3.
Proof. intros (?&?&?&?) (?&?&?&?). repeat split; congruence. Qed.

Lemma pin_block_spec key s :
  wp (pin_block key) (fun _ s' => kept s s') (fun _ s' => kept s s' /\ ~ cooperative) s.
Proof.
  unfold pin_block. wp_step. apply wp_on_tier. intros [e|[]] t E; [|by apply wp_modify].
  assert (e <> NotFound -> ~ cooperative) as Hc.
  { intros Hne (Hp & _). destruct (Hp key (tier s)) as [Hr|Hr]; rewrite E in Hr; simplify_eq/=. }
  destruct e; try (apply wp_throw; split; [done|apply Hc; done]). by apply wp_modify.
Qed.

Lemma pin_blocks_spec keys s :
  wp (for_fold keys (fun key _ => pin_block key) tt) (fun _ s' => kept s s')
     (fun _ s' => kept s s' /\ ~ cooperative) s.
Proof.
  apply (wp_for_fold (fun _ _ s' => kept s s')); [done|].
  intros pre key post [] s1 _ Hk. eapply wp_mono; [apply pin_block_spec| |].
  - intros u s2 ?. by eapply kept_trans.
  - intros e s2 [? ?]. split; [by eapply kept_trans|done].
Qed.

(** The manifest record of a sequence: its identity, then its keys, then zeroes. *)
Definition manifest_body q (keys : list Z) : list Z :=
  le64 (sequence_id q) ++ le64 (slot_recipe_id q) ++ le32 (position_tokens q) ++ le32 (block_count q) ++
  mjoin ((fun k => le64 k) <$> keys).

Definition manifest_of q (keys : list Z) (size : nat) : list Z :=
  manifest_body q keys ++ replicate (size - length (manifest_body q keys)) 0.

Lemma copy_append pre bytes n s Q R :
  manifest_buffer s = pre ++ replicate n 0 -> (length bytes <= n)%nat ->
  (forall s', kept s s' -> manifest_buffer s' = (pre ++ bytes) ++ replicate (n - length bytes) 0 -> Q tt s') ->
  wp (copy_into_manifest (Z.of_nat (length pre)) bytes) Q R s.
Proof.
  intros Hb Hn HQ. unfold copy_into_manifest. do 2 wp_step.
  assert (length (manifest_buffer s) = (length pre + n)%nat) as Hl by (rewrite Hb, length_app, length_replicate; done).
  wp_step. apply wp_slice; [lia|lia|]. wp_step. apply HQ.
  - repeat split. unfold machine. cbn. rewrite length_write_slice by lia. done.
  - cbn. unfold write_slice. rewrite Hb. rewrite Nat2Z.id, take_app_length, <- app_assoc. do 2 f_equal.
    replace (Z.to_nat _) with (length pre + length bytes)%nat by lia.
    rewrite <- drop_drop, drop_app_length, drop_replicate. done.
Qed.

Lemma lookup_keys_of s slot count i :
  tables_wf s -> 0 <= slot < max_sequences (config s) -> 0 <= i < count ->
  count <= max_blocks_per_sequence (config s) ->
  exists key, block_keys s !! Z.to_nat (key_base s slot +u64 i) = Some key /\
    keys_of s slot count !! Z.to_nat i = Some key.
Proof.
  intros Hwf ?? ?. pose proof Hwf as []. rewrite key_base_spec by done. rewrite u64_small by nia.
  destruct (lookup_lt_is_Some_2 (block_keys s) (Z.to_nat (slot * max_blocks_per_sequence (config s) + i))) as [key Hkey];
    [nia|]. exists key. split; [done|].
  unfold keys_of. rewrite lookup_take_lt, lookup_drop by lia. rewrite <- Hkey. f_equal. nia.
Qed.

Lemma length_keys_of s slot count :
  tables_wf s -> 0 <= slot < max_sequences (config s) -> 0 <= count <= max_blocks_per_sequence (config s) ->
  Z.of_nat (length (keys_of s slot count)) = count.
Proof. intros [] ??. unfold keys_of. rewrite length_take, length_drop. nia. Qed.

Lemma length_key_bytes (keys : list Z) : length (mjoin ((fun k => le64 k) <$> keys)) = (8 * length keys)%nat.
Proof.
  induction keys as [|k keys IH]; [done|].
  change (mjoin ((fun k => le64 k) <$> k :: keys)) with (le64 k ++ mjoin ((fun k => le64 k) <$> keys)).
  rewrite length_app, length_to_le_bytes, IH. simpl length. lia.
Qed.

Lemma length_manifest_body q keys : length (manifest_body q keys) = (24 + 8 * length keys)%nat.
Proof. unfold manifest_body. rewrite !length_app, !length_to_le_bytes, length_key_bytes. lia. Qed.

Lemma kept_base s s' slot : kept s s' -> key_base s' slot = key_base s slot.
Proof. intros [(Hc & _)%machine_fields _]. unfold key_base. by rewrite Hc. Qed.

Lemma serialise_spec slot q s :
  tables_wf s -> 0 <= slot -> sequences s !! Z.to_nat slot = Some q ->
  wp (serialise_manifest slot)
     (fun _ s' => kept s s' /\
        manifest_buffer s' = manifest_of q (keys_of s slot (block_count q)) (length (manifest_buffer s)))
     (fun _ _ => False) s.
Proof.
  intros Hwf Hslot Hq. pose proof (slot_in_range _ _ _ Hwf Hq Hslot) as Hr. pose proof Hwf as [].
  pose proof (wf_counts0 _ _ Hq) as Hcount. set (n := length (manifest_buffer s)).
  assert (24 + 8 * block_count q <= Z.of_nat n) as Hn by (unfold MANIFEST_HEADER_BYTES in *; lia).
  unfold serialise_manifest. do 4 wp_step.
  set (s0 := set_field manifest_buffer _ s).
  assert (kept s s0) as Hk0.
  { repeat split. unfold machine, s0. cbn. by rewrite length_replicate. }
  wp_step. eapply wp_index; [exact Hq|]. wp_step.
  apply (copy_append [] _ n); [done|rewrite length_to_le_bytes; lia|].
  rewrite length_to_le_bytes. intros s1 Hk1 Hb1. wp_step.
  change 8 with (Z.of_nat (length (le64 (sequence_id q)))) at 1.
  eapply copy_append; [exact Hb1|rewrite length_to_le_bytes; lia|].
  rewrite length_to_le_bytes. intros s2 Hk2 Hb2. wp_step.
  change 16 with (Z.of_nat (length (([] ++ le64 (sequence_id q)) ++ le64 (slot_recipe_id q)))).
  eapply copy_append; [exact Hb2|rewrite length_to_le_bytes; lia|].
  rewrite length_to_le_bytes. intros s3 Hk3 Hb3. wp_step.
  change 20 with (Z.of_nat (length ((([] ++ le64 (sequence_id q)) ++ le64 (slot_recipe_id q)) ++ le32 (position_tokens q)))).
  eapply copy_append; [exact Hb3|rewrite length_to_le_bytes; lia|].
  rewrite length_to_le_bytes. intros s4 Hk4 Hb4.
  assert (kept s s4) as Hks by (eauto 6 using kept_trans). clear Hb1 Hb2 Hb3 Hk1 Hk2 Hk3.
  set (ks := keys_of s slot (block_count q)) in *.
  assert (Z.of_nat (length ks) = block_count q) as Hlk by (by apply length_keys_of).
  eapply wp_mono.
  { apply (wp_for_fold (fun pre _ s' => kept s s' /\ exists m, (Z.of_nat m + 24 + 8 * Z.of_nat (length pre) = Z.of_nat n) /\
      manifest_buffer s' = manifest_body q (take (length pre) ks) ++ replicate m 0) _ _ _ (fun _ _ => False)).
    - split; [done|]. exists (n - 24)%nat. split; [simpl; lia|]. rewrite Hb4. unfold manifest_body. simpl fmap.
      rewrite <- !app_assoc, app_nil_l. simpl mjoin. rewrite !app_nil_l. do 5 f_equal. lia.
    - intros pre i post [] s5 Hsplit [Hk (m & Hm & Hb)]. apply range_split in Hsplit as (Hpre & Hi).
      assert (length pre = Z.to_nat i) as Hlp by (rewrite Hpre, length_range; f_equal; lia).
      rewrite Hlp in *. assert (0 <= i < block_count q) as Hir by lia.
      destruct (lookup_keys_of s slot (block_count q) i Hwf Hr Hir ltac:(lia)) as (key & Hkey & Hkey').
      wp_step. rewrite (kept_base s s0) by done.
      eapply wp_index; [exact Hkey|].
      replace (MANIFEST_HEADER_BYTES + i * 8) with (Z.of_nat (length (manifest_body q (take (Z.to_nat i) ks)))).
      2:{ rewrite length_manifest_body, length_take. unfold MANIFEST_HEADER_BYTES. lia. }
      eapply copy_append; [exact Hb|rewrite length_to_le_bytes; lia|]. rewrite length_to_le_bytes.
      intros s6 Hk6 Hb6. split; [by eapply kept_trans|]. exists (m - 8)%nat. rewrite length_app. simpl length. split; [lia|].
      rewrite Hb6. f_equal. unfold manifest_body. rewrite <- !app_assoc. do 4 f_equal.
      replace (length pre + 1)%nat with (S (Z.to_nat i)) by lia.
      fold ks in Hkey'. rewrite (take_S_r _ _ _ Hkey'), fmap_app, join_app. f_equal. }
  2: done.
  intros [] s' [Hk (m & Hm & Hb)]. split; [done|]. rewrite Hb, length_range, Z.sub_0_r, take_ge by lia.
  unfold manifest_of. do 2 f_equal. rewrite length_manifest_body. rewrite length_range in Hm. lia.
Qed.

Lemma write_manifest_spec slot q s :
  sequences s !! Z.to_nat slot = Some q ->
  wp (write_manifest slot) (fun _ s' => kept s s' /\ manifest_buffer s' = manifest_buffer s)
     (fun _ s' => kept s s' /\ ~ cooperative) s.
Proof.
  intros Hq. unfold write_manifest. wp_steps. apply wp_on_tier. intros [e|r] t E; cbn [or_throw].
  { wp_steps. split; [done|]. intros (_ & Hc & _). destruct (Hc (manifest_key (kv_namespace (config s)) (sequence_id q)) (tier s)).
    by rewrite E in H. }
  wp_steps. destruct (already_present r); [by apply wp_ret|]. wp_steps. apply wp_on_writer. intros [e|[]] w Ew.
  { wp_steps. split; [done|]. intros (_ & _ & _ & Hc).
    match type of Ew with write_block ?o ?p ?w0 = _ => specialize (Hc o p w0) end. by rewrite Ew in Hc. }
  wp_steps. apply wp_on_tier. intros [e|[]] t' E'; wp_steps; [|done].
  split; [done|]. intros (_ & _ & Hc & _).
  match type of E' with tier_commit_write ?r ?t0 = _ => specialize (Hc r t0) end. by rewrite E' in Hc.
Qed.

(** Slots that are checkpointed stay so. *)
Definition slot_forward q q' : Prop :=
  slot_core q' = slot_core q /\ (checkpointed q = true -> checkpointed q' = true).

Definition slots_forward : list SequenceSlot -> list SequenceSlot -> Prop := Forall2 slot_forward.

#[local] Instance slots_forward_preorder : PreOrder slots_forward.
Proof.
  split.
  - intros l. apply Forall2_same_length_lookup_2; [done|]. intros i q q' Hq Hq'. by simplify_eq.
  - intros l1 l2 l3 H12 H23. revert l3 H23.
    induction H12 as [|q1 q2 l1 l2 [Hc Hf] H12 IH]; intros l3 H23; inversion H23 as [|? q3 ? ? [Hc' Hf']]; subst; [done|].
    constructor; [split; [congruence|auto]|by apply IH].
Qed.

Lemma slots_forward_upd l i f :
  (forall q, slot_forward q (f q)) -> slots_forward l (upd_nth i f l).
Proof.
  intros Hf. apply Forall2_same_length_lookup_2; [by rewrite length_upd_nth|]. intros j q q' Hq Hq'.
  unfold upd_nth in Hq'. destruct (decide (Z.to_nat i = j)) as [<-|].
  - rewrite list_lookup_alter_eq, Hq in Hq'. simplify_eq/=. apply Hf.
  - rewrite list_lookup_alter_ne, Hq in Hq' by done. by simplify_eq.
Qed.

Lemma slots_forward_same l l' : slots_forward l l' -> same_slots l l'.
Proof. intros H. unfold same_slots. induction H as [|q q' l l' [Hc _] _ IH]; [done|]. rewrite !fmap_cons. by f_equal. Qed.

Lemma list_alter_twice {A} (f g : A -> A) (i : nat) (l : list A) : alter f i (alter g i l) = alter (fun x => f (g x)) i l.
Proof. revert i. induction l as [|x l IH]; intros [|i]; f_equal/=; auto. Qed.

Lemma checkpoint_one_spec slot q s :
  tables_wf s -> 0 <= slot -> sequences s !! Z.to_nat slot = Some q ->
  wp (checkpoint_one slot)
     (fun _ s' => machine s' = machine s /\ phase_cursor s' = phase_cursor s /\ last_error s' = last_error s /\
        sequences s' = upd_nth slot (fun q => q <| pins_done := true |> <| checkpointed := true |>) (sequences s) /\
        manifest_buffer s' = manifest_of q (keys_of s slot (block_count q)) (length (manifest_buffer s)))
     (fun _ s' => machine s' = machine s /\ phase_cursor s' = phase_cursor s /\
        slots_forward (sequences s) (sequences s') /\ ~ cooperative) s.
Proof.
  intros Hwf Hslot Hq. unfold checkpoint_one. wp_steps.
  set (l1 := upd_nth slot (fun q => q <| pins_done := true |>) (sequences s)).
  assert (sequences s !! Z.to_nat slot = Some q) as Hq' by done.
  eapply (wp_mono _ (fun _ s1 => machine s1 = machine s /\ phase_cursor s1 = phase_cursor s /\
    last_error s1 = last_error s /\ sequences s1 = l1) _
    (fun _ s' => machine s' = machine s /\ phase_cursor s' = phase_cursor s /\
        slots_forward (sequences s) (sequences s') /\ ~ cooperative)).
  { destruct (pins_done q) eqn:Hpins.
    { apply wp_ret. split_and!; try done. unfold l1, upd_nth. symmetry.
      rewrite <- (list_alter_id id (sequences s) (Z.to_nat slot)) at 2 by done. apply list_alter_ext; [|done].
      intros q2 Hq2. rewrite Hq in Hq2. injection Hq2 as <-. unfold id. destruct q. cbn in *. by subst. }
    wp_step. apply (slot_keys_spec s slot q); [done..|]. cbn beta. wp_step.
    eapply wp_mono; [apply pin_blocks_spec| |].
    - intros [] s1 (Hm & Hs & Hc & He). cbn beta. unfold upd_slot. wp_step. split_and!; try done. cbn. by rewrite Hs.
    - intros e s1 [(Hm & Hs & Hc & He) Hnc]. split_and!; try done. by rewrite Hs. }
  2: done.
  intros [] s1 (Hm1 & Hc1 & He1 & Hs1). cbn beta.
  assert (same_slots (sequences s) l1) as Hsame by (by apply same_slots_upd).
  assert (slots_forward (sequences s) l1) as Hfwd by (apply slots_forward_upd; by split).
  assert (tables_wf s1) as Hwf1.
  { eapply tables_wf_frame; [exact Hwf|done|by rewrite Hs1|rewrite Hc1; apply Hwf]. }
  set (q1 := q <| pins_done := true |>).
  assert (sequences s1 !! Z.to_nat slot = Some q1) as Hq1 by (rewrite Hs1; unfold l1; by apply lookup_upd_nth_eq).
  assert (keys_of s1 slot (block_count q1) = keys_of s slot (block_count q)) as Hkeys.
  { apply machine_fields in Hm1 as (Hcf & Hbk & _). unfold keys_of. by rewrite Hcf, Hbk. }
  wp_step. eapply wp_mono; [apply (serialise_spec slot q1); done| |done].
  intros [] s2 [(Hm2 & Hs2 & Hc2 & He2) Hb2]. cbn beta. wp_step.
  eapply wp_mono; [apply (write_manifest_spec slot q1); congruence| |].
  - intros [] s3 ((Hm3 & Hs3 & Hc3 & He3) & Hb3). cbn beta. unfold upd_slot, count_stat. wp_steps. cbn.
    split_and!; [unfold machine in *; cbn; congruence|congruence|congruence| |].
    + rewrite Hs3, Hs2, Hs1. unfold l1, upd_nth. apply list_alter_twice.
    + rewrite Hb3, Hb2, Hkeys. apply machine_fields in Hm1 as (_ & _ & -> & _). done.
  - intros e s3 [(Hm3 & Hs3 & Hc3 & He3) Hnc]. split_and!; [congruence..| |done]. by rewrite Hs3, Hs2, Hs1.
Qed.

(** Every live slot before the cursor is checkpointed. *)
Definition done_below (c : Z) (l : list SequenceSlot) : Prop :=
  forall i q, l !! i = Some q -> Z.of_nat i < c -> is_live q = true -> checkpointed q = true.

Lemma done_below_forward c l l' : slots_forward l l' -> done_below c l -> done_below c l'.
Proof.
  intros Hf Hd i q' Hq' Hi Hl. destruct (Forall2_lookup_r _ _ _ _ _ Hf Hq') as (q & Hq & Hc & Hck).
  apply Hck. eapply Hd; [done..|]. by rewrite <- (live_core _ _ Hc).
Qed.

Lemma done_below_next c l q :
  0 <= c -> done_below c l -> l !! Z.to_nat c = Some q -> (is_live q = true -> checkpointed q = true) ->
  done_below (c + 1) l.
Proof.
  intros Hc Hd Hq Hck i r Hr Hi Hl. destruct (decide (i = Z.to_nat c)) as [->|Hne].
  - simplify_eq. auto.
  - eapply Hd; [done| |done]. lia.
Qed.

(** The state of a checkpoint under way that began in [s]. *)
Definition checkpointing s s' : Prop :=
  machine s' = machine s /\ slots_forward (sequences s) (sequences s') /\ tables_wf s' /\
  done_below (phase_cursor s') (sequences s').

Lemma checkpointing_trans s1 s2 s3 : checkpointing s1 s2 -> checkpointing s2 s3 -> checkpointing s1 s3.
Proof.
  intros (Hm & Hf & _) (Hm' & Hf' & ? & ?). split_and!; [congruence| |done..]. by transitivity (sequences s2).
Qed.

Lemma checkpoint_round_spec s :
  tables_wf s -> done_below (phase_cursor s) (sequences s) ->
  wp (checkpoint_round tt)
     (fun r s' => checkpointing s s' /\
        match r with
        | Continue _ => phase_cursor s' = phase_cursor s + 1 /\ phase_cursor s < Z.of_nat (length (sequences s)) /\
            last_error s' = last_error s
        | Break true => phase_cursor s' = Z.of_nat (length (sequences s)) /\ last_error s' = last_error s
        | Break false => (exists e, last_error s' = Some e) /\ phase_cursor s' = phase_cursor s /\ ~ cooperative
        end)
     (fun _ _ => False) s.
Proof.
  intros Hwf Hd. pose proof (wf_cursor _ Hwf) as Hcur. pose proof (wf_sequences _ Hwf). pose proof (wf_len _ Hwf).
  unfold checkpoint_round. do 2 wp_step.
  destruct (Z.ltb_spec (phase_cursor s) (Z.of_nat (length (sequences s)))) as [Hlt|Hge].
  2:{ apply wp_ret. split; [by split_and!|]. split; [lia|done]. }
  destruct (lookup_lt_is_Some_2 (sequences s) (Z.to_nat (phase_cursor s))) as [q Hq]; [lia|].
  do 3 wp_step. eapply wp_index; [exact Hq|]. set (s0 := set_field phase_cursor _ s).
  assert (phase_cursor s0 = phase_cursor s + 1) as Hc0 by (cbn; apply u32_small; lia).
  assert (tables_wf s0) as Hwf0.
  { eapply tables_wf_frame; [exact Hwf|done|done|]. rewrite Hc0. lia. }
  destruct (is_free q || checkpointed q) eqn:Hskip.
  { apply wp_ret. split; [|split_and!; done]. split_and!; [done| |done|]; [done|].
    rewrite Hc0. eapply done_below_next; [lia|done|done|]. unfold is_live. destruct (is_free q); [done|]. by cbn in Hskip. }
  wp_step. apply wp_catch. wp_step. eapply wp_mono; [apply (checkpoint_one_spec (phase_cursor s) q s0); [done|lia|done]| |].
  - intros [] s1 (Hm & Hc & He & Hs & _). do 2 (cbn beta; wp_step).
    assert (slots_forward (sequences s) (sequences s1)) as Hf by (rewrite Hs; apply slots_forward_upd; by split).
    split; [|split_and!; try done; lia]. split_and!; [done|done| |].
    + eapply tables_wf_frame; [exact Hwf0|done|by apply slots_forward_same|]. rewrite Hc, Hc0. cbn. lia.
    + rewrite Hc, Hc0. apply (done_below_next _ _ (q <| pins_done := true |> <| checkpointed := true |>));
        [lia|by eapply done_below_forward| |done]. rewrite Hs. exact (lookup_upd_nth_eq _ _ _ _ Hq).
  - intros e s1 (Hm & Hc & Hf & Hnc). cbn beta. do 4 (wp_step; cbn beta).
    assert (phase_cursor s1 -u32 1 = phase_cursor s) as Hcc by (rewrite Hc, Hc0, u32_small; lia).
    split; [|split_and!; [by eexists|cbn; lia|done]]. split_and!; [done|done| |].
    + eapply tables_wf_frame; [exact Hwf0|done|by apply slots_forward_same|]. cbn. rewrite Hcc. cbn. lia.
    + cbn. rewrite Hcc. by eapply done_below_forward.
Qed.

Lemma checkpoint_run_spec s :
  tables_wf s -> done_below (phase_cursor s) (sequences s) ->
  wp checkpoint_run
     (fun b s' => checkpointing s s' /\
        match b with
        | true => phase_cursor s' = Z.of_nat (length (sequences s)) /\ last_error s' = last_error s
        | false => (exists e, last_error s' = Some e) /\ ~ cooperative
        end)
     (fun _ _ => False) s.
Proof.
  intros Hwf Hd. unfold checkpoint_run. do 2 wp_step.
  apply (wp_loop (fun _ s' => checkpointing s s' /\ last_error s' = last_error s)
    (fun _ s' => Z.to_nat (Z.of_nat (length (sequences s)) - phase_cursor s'))).
  - split; [|done]. by split_and!.
  - pose proof (wf_cursor _ Hwf). lia.
  - intros [] s1 [Hck He]. pose proof Hck as (Hm & Hf & Hwf1 & Hd1).
    pose proof (same_slots_length _ _ (slots_forward_same _ _ Hf)) as Hlen.
    eapply wp_mono; [by apply checkpoint_round_spec| |done].
    intros [[]|[]] s2 [Hck2 H2]; rewrite ?Hlen in H2.
    + split; [split; [by eapply checkpointing_trans|destruct H2 as (_&_&?); congruence]|]. lia.
    + destruct H2. split; [by eapply checkpointing_trans|split; congruence].
    + destruct H2 as (? & _ & ?). split; [by eapply checkpointing_trans|done].
Qed.

(** ** Resume *)

Definition presence_kept s s' : Prop :=
  forall (P : TierPresence T) k, present (tier s') k = present (tier s) k.

Lemma offsets_spec keys s :
  wp (for_fold keys (fun key warm =>
        let! r := on_tier (tier_offset_of key) in
        let warm := match r with inl _ => false | inr _ => warm end in
        let! _r := on_tier (tier_pin key false) in
        ret warm) true)
     (fun warm s' => kept s s' /\ presence_kept s s' /\
        forall P : TierPresence T, warm = forallb (present (tier s)) keys)
     (fun _ _ => False) s.
Proof.
  apply (wp_for_fold (fun pre warm s' => kept s s' /\ presence_kept s s' /\
    forall P : TierPresence T, warm = forallb (present (tier s)) pre)); [done|].
  intros pre key post warm s1 _ (Hk & Hp & Hw). wp_step. apply wp_on_tier. intros r t Er. cbv zeta.
  wp_step. apply wp_on_tier. intros r' t' Er'. wp_step. cbn in Er'. split_and!.
  - exact Hk.
  - intros P k. cbn. pose proof (present_after_unpin t key k) as E1. rewrite Er' in E1. cbn in E1.
    pose proof (present_after_offset_of (tier s1) key k) as E2. rewrite Er in E2. cbn in E2. rewrite E1, E2. apply Hp.
  - intros P. rewrite forallb_app, <- Hw. cbn [forallb]. rewrite andb_true_r, <- (Hp P), <- (present_offset_of (tier s1)), Er.
    destruct r; cbn; [by rewrite andb_false_r|by rewrite andb_true_r].
Qed.

Lemma plans_spec (css : list (list Z)) step s :
  wp (for_fold css (fun chunk _ =>
        let! _r := on_tier (tier_plan_lookahead ((fun key => mkNeed key (step +u32 1)) <$> chunk) step) in
        ret tt) tt)
     (fun _ s' => kept s s' /\ presence_kept s s') (fun _ _ => False) s.
Proof.
  apply (wp_for_fold (fun _ _ s' => kept s s' /\ presence_kept s s')); [done|].
  intros pre chunk post [] s1 _ [Hk Hp]. wp_step. apply wp_on_tier. intros r t Er. wp_step. split; [exact Hk|].
  intros P k. cbn. rewrite <- (Hp P k). match type of Er with tier_plan_lookahead ?n ?st ?t0 = _ =>
    pose proof (present_after_plan t0 n st k) as E end. by rewrite Er in E.
Qed.

(** The class resume gives the slot [i]: warm when it has blocks and all of them are
    on the tier. *)
Definition class_exact s (i : Z) q (cls : ResumeClass) : Prop :=
  cls <> ClassPending /\
  forall P : TierPresence T, cls = Warm <->
    block_count q <> 0 /\ forallb (present (tier s)) (keys_of s i (block_count q)) = true.

Lemma resume_one_spec slot step q s :
  tables_wf s -> 0 <= slot -> sequences s !! Z.to_nat slot = Some q ->
  wp (resume_one slot step)
     (fun _ s' => machine s' = machine s /\ phase_cursor s' = phase_cursor s /\ last_error s' = last_error s /\
        presence_kept s s' /\
        exists cls, class_exact s slot q cls /\
          sequences s' = upd_nth slot (fun q => q <| resume_class := cls |>) (sequences s))
     (fun _ _ => False) s.
Proof.
  intros Hwf Hslot Hq. unfold resume_one. wp_steps. apply (slot_keys_spec s slot q); [done..|]. cbn beta. wp_step.
  set (ks := keys_of s slot (block_count q)). eapply wp_mono; [apply offsets_spec| |done].
  intros warm s1 ((Hm & Hs & Hc & He) & Hp & Hw). cbn beta.
  destruct (warm && negb (block_count q =? 0)) eqn:Hgo.
  - wp_step. eapply wp_mono; [apply plans_spec| |done]. intros [] s2 ((Hm2 & Hs2 & Hc2 & He2) & Hp2). cbn beta.
    unfold upd_slot, count_stat. wp_steps. apply andb_prop in Hgo as [-> Hz%negb_true_iff%Z.eqb_neq].
    split_and!; [unfold machine in *; cbn; congruence|cbn; congruence|cbn; congruence| |].
    + intros P k. cbn. by rewrite (Hp2 P), (Hp P).
    + exists Warm. split; [|cbn; by rewrite Hs2, Hs]. split; [done|]. intros P. fold ks. by rewrite <- (Hw P).
  - unfold upd_slot, count_stat. wp_steps. split_and!; [exact Hm|done|done|exact Hp|].
    exists Recompute. split; [|cbn; by rewrite Hs]. split; [done|]. intros P. fold ks. rewrite <- (Hw P). split; [done|].
    intros [Hz ->]. apply Z.eqb_neq in Hz. by rewrite Hz in Hgo.
Qed.

(** A slot after resume passed it. *)
Definition classified s (i : nat) q q' : Prop :=
  if is_live q then exists cls, class_exact s (Z.of_nat i) q cls /\ q' = q <| resume_class := cls |> else q' = q.

Definition resuming s s' : Prop :=
  machine s' = machine s /\ last_error s' = last_error s /\ tables_wf s' /\ presence_kept s s' /\
  length (sequences s') = length (sequences s) /\
  forall i q, sequences s !! i = Some q -> exists q', sequences s' !! i = Some q' /\
    if Z.of_nat i <? phase_cursor s' then classified s i q q' else q' = q.

Lemma forallb_ext {A} (f g : A -> bool) l : (forall x, f x = g x) -> forallb f l = forallb g l.
Proof. intros H. induction l as [|x l IH]; simpl; [done|]. by rewrite H, IH. Qed.

Lemma class_exact_frame s s' i q cls :
  machine s' = machine s -> presence_kept s s' -> class_exact s' i q cls -> class_exact s i q cls.
Proof.
  intros (Hc & Hk & _)%machine_fields Hp [Hne H]. split; [done|]. intros P. rewrite (H P).
  unfold keys_of. rewrite Hc, Hk, (forallb_ext (present (tier s')) (present (tier s))) by apply Hp. done.
Qed.

Lemma resume_round_spec step s0 s :
  resuming s0 s ->
  wp (resume_round step tt)
     (fun r s' => resuming s0 s' /\
        match r with
        | Continue _ => phase_cursor s' = phase_cursor s + 1 /\ phase_cursor s < Z.of_nat (length (sequences s0))
        | Break _ => s' = s /\ phase_cursor s = Z.of_nat (length (sequences s0))
        end)
     (fun _ _ => False) s.
Proof.
  intros (Hm & He & Hwf & Hp & Hlen & Hsl). pose proof (wf_cursor _ Hwf) as Hcur.
  pose proof (wf_sequences _ Hwf). pose proof (wf_len _ Hwf). unfold resume_round. do 2 wp_step.
  destruct (Z.ltb_spec (phase_cursor s) (Z.of_nat (length (sequences s)))) as [Hlt|Hge].
  2:{ apply wp_ret. split; [by split_and!|]. split; [done|lia]. }
  destruct (lookup_lt_is_Some_2 (sequences s0) (Z.to_nat (phase_cursor s))) as [q0 Hq0]; [lia|].
  destruct (Hsl _ _ Hq0) as (q & Hq & Hsame). rewrite (proj2 (Z.ltb_ge _ _)) in Hsame by lia. subst q.
  do 3 wp_step. eapply wp_index; [exact Hq|]. set (s1 := set_field phase_cursor _ s).
  assert (phase_cursor s1 = phase_cursor s + 1) as Hc1 by (cbn; apply u32_small; lia).
  assert (tables_wf s1) as Hwf1. { eapply tables_wf_frame; [exact Hwf|done|done|]. rewrite Hc1. lia. }
  assert (forall i q, sequences s0 !! i = Some q -> i <> Z.to_nat (phase_cursor s) ->
    exists q', sequences s !! i = Some q' /\
      if Z.of_nat i <? phase_cursor s1 then classified s0 i q q' else q' = q) as Hold.
  { intros i q Hi Hne. destruct (Hsl i q Hi) as (q' & Hq' & Hd). exists q'. split; [done|].
    destruct (Z.ltb_spec (Z.of_nat i) (phase_cursor s)), (Z.ltb_spec (Z.of_nat i) (phase_cursor s1)); done || lia. }
  destruct (is_free q0) eqn:Hfree.
  { apply wp_ret. split; [|split; [done|lia]]. split_and!; try done. intros i q Hi.
    destruct (decide (i = Z.to_nat (phase_cursor s))) as [->|Hne]; [|by apply Hold].
    rewrite Hq0 in Hi. injection Hi as <-. exists q0. split; [done|]. rewrite (proj2 (Z.ltb_lt _ _)) by lia.
    unfold classified, is_live. by rewrite Hfree. }
  wp_step. eapply wp_mono; [apply (resume_one_spec (phase_cursor s) step q0 s1); [done|lia|done]| |done].
  intros [] s2 (Hm2 & Hc2 & He2 & Hp2 & cls & Hcls & Hs2). cbn beta. wp_step.
  assert (presence_kept s0 s1) as Hp1 by exact Hp.
  split; [|split; [lia|lia]]. split_and!.
  - by etrans; [exact Hm2|].
  - by etrans; [exact He2|].
  - eapply tables_wf_frame; [exact Hwf1|done|rewrite Hs2; by apply same_slots_upd|]. rewrite Hc2, Hc1. cbn. lia.
  - intros P k. by rewrite (Hp2 P), (Hp1 P).
  - rewrite Hs2, length_upd_nth. done.
  - intros i q Hi. rewrite Hc2. destruct (decide (i = Z.to_nat (phase_cursor s))) as [->|Hne].
    + rewrite Hq0 in Hi. injection Hi as <-. exists (q0 <| resume_class := cls |>).
      split; [rewrite Hs2; exact (lookup_upd_nth_eq _ _ _ _ Hq)|]. rewrite (proj2 (Z.ltb_lt _ _)) by lia.
      unfold classified, is_live. rewrite Hfree. cbn [negb]. exists cls. split; [|done].
      rewrite Z2Nat.id by lia. eapply class_exact_frame; [|exact Hp1|exact Hcls]. exact Hm.
    + destruct (Hold i q Hi Hne) as (q' & Hq' & Hd). exists q'. split; [|done].
      rewrite Hs2. unfold upd_nth. rewrite list_lookup_alter_ne by done. done.
Qed.

(** ** The phases of [advance] *)

Lemma advance_resume_spec step s :
  tables_wf s -> state s = Resume -> phase_cursor s = 0 ->
  wp (advance_resume step)
     (fun _ s' => state s' = Steady /\ current_recipe s' = target_recipe s /\ target_recipe s' = target_recipe s /\
        config s' = config s /\ last_error s' = None /\ tables_wf s' /\
        length (sequences s') = length (sequences s) /\
        forall i q, sequences s !! i = Some q -> exists q', sequences s' !! i = Some q' /\ classified s i q q')
     (fun _ _ => False) s.
Proof.
  intros Hwf Hst Hcur. unfold advance_resume. do 2 wp_step. rewrite bool_decide_true by done. wp_step.
  eapply wp_mono.
  - apply (wp_loop (fun _ s' => resuming s s')
      (fun _ s' => Z.to_nat (Z.of_nat (length (sequences s)) - phase_cursor s')) _ _ _
      (fun _ s' => resuming s s' /\ phase_cursor s' = Z.of_nat (length (sequences s))) (fun _ _ => False)).
    + split_and!; try done. intros i q Hq. exists q. split; [done|]. rewrite (proj2 (Z.ltb_ge _ _)) by lia. done.
    + lia.
    + intros [] s1 Hr. eapply wp_mono; [by apply resume_round_spec| |done].
      intros [[]|[]] s2 [Hr2 H2]; [split; [done|lia]|]. destruct H2 as [-> ?]. done.
  - intros [] s1 [(Hm & He & Hwf1 & Hp & Hlen & Hsl) Hc]. cbn beta. unfold count_stat. wp_steps. cbn.
    pose proof (machine_fields _ _ Hm) as (Hcf & _ & _ & _ & Ht & _).
    split_and!; try done.
    + destruct Hwf1. split; cbn; try done.
    + intros i q Hq. destruct (Hsl i q Hq) as (q' & Hq' & Hd). exists q'. split; [done|].
      rewrite (proj2 (Z.ltb_lt _ _)) in Hd; [done|]. rewrite Hc. apply lookup_lt_Some in Hq. lia.
  - done.
Qed.

(** The phases of a switch: what is drained and what is checkpointed in each. *)
Record phase_ok s : Prop := {
  ph_recipes : state s <> Steady -> recipe_id (current_recipe s) <> recipe_id (target_recipe s);
  ph_drained : state s <> Steady -> state s <> Quiesce ->
    forall i q, sequences s !! i = Some q -> slot_state q <> Active;
  ph_checkpoint : state s = Checkpoint -> done_below (phase_cursor s) (sequences s);
  ph_swap : state s = Swap \/ state s = Resume ->
    done_below (Z.of_nat (length (sequences s))) (sequences s);
}.

Record switch_inv s : Prop := {
  inv_tables : tables_wf s;
  inv_phase : phase_ok s;
  inv_public : state s <> Resume;
}.

Lemma drained_slots s :
  quiesce_drained s = true -> forall i q, sequences s !! i = Some q -> slot_state q <> Active.
Proof.
  unfold quiesce_drained. intros Hd%negb_true_iff i q Hq Ha.
  assert (existsb is_active (sequences s) = true); [|congruence].
  apply existsb_exists. exists q. split; [by apply list_elem_of_In, list_elem_of_lookup_2 with i|].
  unfold is_active. by apply bool_decide_eq_true.
Qed.

Lemma same_slots_states l l' :
  same_slots l l' -> (forall i q, l !! i = Some q -> slot_state q <> Active) ->
  forall i q, l' !! i = Some q -> slot_state q <> Active.
Proof.
  intros Hs Ha i q' Hq'. destruct (same_slots_lookup _ _ _ _ Hs Hq') as (q & Hq & Hc).
  unfold slot_core in Hc. injection Hc as _ _ _ _ ->. eauto.
Qed.

(** Constant over the first three phases. *)
Definition identity s := (config s, block_keys s, current_recipe s, target_recipe s).

Lemma identity_fields s s' :
  identity s' = identity s ->
  config s' = config s /\ block_keys s' = block_keys s /\ current_recipe s' = current_recipe s /\
  target_recipe s' = target_recipe s.
Proof. unfold identity. intros. by simplify_eq. Qed.

Lemma machine_identity s s' : machine s' = machine s -> identity s' = identity s.
Proof. intros (?&?&?&?&?&_)%machine_fields. unfold identity. congruence. Qed.

Lemma advance_quiesce_spec s :
  switch_inv s ->
  wp advance_quiesce
     (fun _ s' => switch_inv s' /\ identity s' = identity s /\ sequences s' = sequences s /\ tier s' = tier s /\
        swap_device s' = swap_device s /\ swap_started s' = swap_started s /\
        if bool_decide (state s = Quiesce) && quiesce_drained s then state s' = Checkpoint else s' = s)
     (fun _ _ => False) s.
Proof.
  intros Hinv. unfold advance_quiesce. do 2 wp_step.
  destruct (bool_decide (state s = Quiesce) && quiesce_drained s) eqn:Hgo; [|by apply wp_ret].
  apply andb_prop in Hgo as [Hst%bool_decide_eq_true Hd]. wp_step. split_and!; try done. split; cbn; [| |done].
  - destruct Hinv as [[] _ _]. split; try done. cbn. lia.
  - destruct (inv_phase _ Hinv) as [Hr _ _ _]. split; cbn; try done.
    + intros _. apply Hr. by rewrite Hst.
    + intros _ _. by apply drained_slots.
    + intros _ i q _ Hi. lia.
    + by intros [?|?].
Qed.

Lemma checkpointing_phase s s' :
  switch_inv s -> state s = Checkpoint -> checkpointing s s' -> switch_inv s'.
Proof.
  intros Hinv Hst (Hm & Hf & Hwf & Hd). pose proof (machine_fields _ _ Hm) as (_&_&_&Hc&Ht&Hs&_&_).
  destruct (inv_phase _ Hinv) as [Hr Ha _ _]. split; [done| |congruence]. split.
  - rewrite Hc, Ht. intros _. apply Hr. congruence.
  - intros _ _. eapply same_slots_states; [by apply slots_forward_same|]. apply Ha; congruence.
  - done.
  - intros [?|?]; congruence.
Qed.

Lemma advance_checkpoint_spec s :
  switch_inv s ->
  wp advance_checkpoint
     (fun _ s' => switch_inv s' /\ identity s' = identity s /\ same_slots (sequences s) (sequences s') /\
        match state s with
        | Checkpoint => (state s' = Swap /\ swap_started s' = false /\ swap_device s' = swap_device s) \/
            (state s' = Checkpoint /\ ~ cooperative /\ exists e, last_error s' = Some e)
        | _ => s' = s
        end)
     (fun _ _ => False) s.
Proof.
  intros Hinv. unfold advance_checkpoint. do 2 wp_step. case_bool_decide as Hst.
  2:{ apply wp_ret. split_and!; try done. by destruct (state s). }
  pose proof (inv_tables _ Hinv) as Hwf. wp_step.
  eapply wp_mono; [apply checkpoint_run_spec; [done|by apply (inv_phase _ Hinv)]| |done].
  intros [] s1 [Hck Hr]; cbn beta iota; rewrite Hst.
  - pose proof Hck as (Hm & Hf & Hwf1 & Hd1). wp_step. destruct Hr as [Hc He].
    pose proof (same_slots_length _ _ (slots_forward_same _ _ Hf)) as Hlen.
    pose proof (checkpointing_phase _ _ Hinv Hst Hck) as Hinv1.
    pose proof (machine_fields _ _ Hm) as (_&_&_&_&_&Hs1&_&_).
    split_and!; [|exact (machine_identity _ _ Hm)|by apply slots_forward_same|].
    2:{ left. split_and!; [done|done|]. apply (machine_fields _ _ Hm). }
    split; cbn; [| |done].
    + destruct Hwf1. by split.
    + destruct (inv_phase _ Hinv1) as [Hr1 Ha1 _ _]. split; cbn; try done.
      * intros _. apply Hr1. congruence.
      * intros _ _. apply Ha1; congruence.
      * intros _. by rewrite Hlen, <- Hc.
  - apply wp_ret. split_and!; [by eapply checkpointing_phase|by apply machine_identity, Hck|by apply slots_forward_same, Hck|].
    right. split_and!; [|apply Hr..]. destruct Hck as ((_&_&_&_&_&?&_)%machine_fields & _). congruence.
Qed.

End specs.
