(* ===== verification/TopologySwitchProps.v ===== *)
(** * The topology switch: theorems

    Every state reached through the public calls satisfies the machine's invariant;
    a switch completes once the tier, the writer and the device cooperate; resume
    classifies exactly; a manifest reads back as the sequence it was written for. *)

From S2P Require Import Prelude Bytes TopologySwitch TopologySwitchInv.

Section props.
Context {T D W : Type} `{!SwitchTier T} `{!SwapDevice D} `{!ManifestWriter W}.
Implicit Types (s : TopologySwitch T D W) (q : SequenceSlot).

#[local] Instance switch_eta : RecordEta (TopologySwitch T D W) := fun s =>
  mkSwitch (config s) (tier s) (swap_device s) (writer s) (sequences s) (block_keys s) (manifest_buffer s)
    (current_recipe s) (target_recipe s) (state s) (sequence_count s) (phase_cursor s) (swap_started s)
    (last_error s) (statistics s).

(** ** Swap *)

(** The device after one [advance] in Swap, and whether the target is resident. *)
Definition swap_turn s : bool * bool * D :=
  let '(issued, d) :=
    if swap_started s then (true, swap_device s)
    else let '(r, d) := begin_swap (current_recipe s) (target_recipe s) (swap_device s) in
         (match r with inr _ => true | inl _ => false end, d) in
  if (issued : bool) then let '(r, d) := poll_swap d in (true, match r with inr _ => true | inl _ => false end, d)
  else (false, false, d).

Lemma advance_swap_spec s :
  state s = Swap -> phase_ok s -> tables_wf s ->
  wp advance_swap
     (fun _ s' => identity s' = identity s /\ sequences s' = sequences s /\ tier s' = tier s /\
        tables_wf s' /\ phase_ok s' /\
        let '(issued, resident, d) := swap_turn s in
        swap_started s' = issued /\ swap_device s' = d /\
        if (resident : bool) then state s' = Resume /\ phase_cursor s' = 0 else state s' = Swap)
     (fun _ _ => False) s.
Proof.
  intros Hst Hph Hwf. unfold advance_swap. do 2 wp_step. rewrite bool_decide_true by done.
  unfold issue_swap, swap_turn. do 3 wp_step.
  assert (forall s', identity s' = identity s -> sequences s' = sequences s ->
    (state s' = Swap \/ state s' = Resume) -> phase_ok s') as Hph'.
  { intros s' (_ & _ & H1 & H2)%identity_fields Hs Hst'.
    destruct Hph as [Hr Ha _ Hall]. split; rewrite ?Hs.
    - intros _. rewrite H1, H2. apply Hr. congruence.
    - intros _ _. apply Ha; congruence.
    - intros ?. destruct Hst'; congruence.
    - intros _. apply Hall. auto. }
  assert (forall s', identity s' = identity s -> sequences s' = sequences s ->
    length (manifest_buffer s') = length (manifest_buffer s) -> sequence_count s' = sequence_count s ->
    0 <= phase_cursor s' <= Z.of_nat (length (sequences s)) -> tables_wf s') as Hwf'.
  { intros s' (Hcf & Hk & _ & _)%identity_fields Hs Hb Hc Hcur. destruct Hwf.
    split; rewrite ?Hs, ?Hcf, ?Hk, ?Hb, ?Hc; done. }
  pose proof (wf_cursor _ Hwf).
  destruct (swap_started s) eqn:Hss.
  - wp_steps. apply wp_on_device. intros [e|[]] d E.
    + destruct e; apply wp_modify || apply wp_ret; rewrite E; split_and!; try done; first [apply Hwf'|apply Hph']; try done; by left.
    + apply wp_modify. rewrite E. split_and!; try done; [apply Hwf'; try done; cbn; lia|apply Hph'; try done; by right].
  - wp_step. apply wp_on_device. intros [e|[]] d E.
    + wp_steps. rewrite E. split_and!; try done; first [apply Hwf'|apply Hph']; try done; by left.
    + unfold count_stat. wp_steps. apply wp_on_device. cbn. rewrite E. intros [e|[]] d' E'.
      * destruct e; apply wp_modify || apply wp_ret; rewrite E'; split_and!; try done; first [apply Hwf'|apply Hph']; try done; by left.
      * apply wp_modify. rewrite E'. split_and!; try done; [apply Hwf'; try done; cbn; lia|apply Hph'; try done; by right].
Qed.

(** ** Advance *)

(** Where the first two phases leave the machine. *)
Definition drained_to s s2 : Prop :=
  switch_inv s2 /\ identity s2 = identity s /\ same_slots (sequences s) (sequences s2) /\
  ((s2 = s /\ state s <> Checkpoint /\ (state s = Quiesce -> quiesce_drained s = false)) \/
   (state s2 = Checkpoint /\ ~ @cooperative T W _ _ /\ (exists e, last_error s2 = Some e) /\
    state s <> Steady /\ state s <> Swap) \/
   (state s2 = Swap /\ swap_started s2 = false /\ swap_device s2 = swap_device s /\
    state s <> Steady /\ state s <> Swap)).

Lemma advance_drain_spec s :
  switch_inv s -> wp (do! advance_quiesce in advance_checkpoint) (fun _ s2 => drained_to s s2) (fun _ _ => False) s.
Proof.
  intros Hinv. wp_step. eapply wp_mono; [by apply advance_quiesce_spec| |done].
  intros [] s1 (Hinv1 & Hid1 & Hs1 & _ & Hd1 & _ & H1). cbn beta.
  eapply wp_mono; [by apply advance_checkpoint_spec| |done].
  intros [] s2 (Hinv2 & Hid2 & Hs2 & H2).
  assert (identity s2 = identity s) as Hid by congruence. rewrite Hs1 in Hs2.
  split_and!; [done..|].
  destruct (bool_decide (state s = Quiesce) && quiesce_drained s) eqn:Hgo.
  - apply andb_prop in Hgo as [Hq%bool_decide_eq_true _]. rewrite H1 in H2.
    right. destruct H2 as [(? & ? & ?)|(? & ? & ?)]; [right|left]; split_and!; congruence || done.
  - subst s1. destruct (state s) eqn:Hst; try (left; split_and!; [done..|]).
    + done.
    + intros _. by rewrite bool_decide_true in Hgo.
    + right. destruct H2 as [(? & ? & ?)|(? & ? & ?)]; [right|left]; split_and!; congruence || done.
    + done.
    + by destruct (inv_public _ Hinv).
Qed.

(** A completed switch: the target runs, and every sequence still tracked is at a
    token boundary, checkpointed and classified. *)
Definition switched s s' : Prop :=
  state s' = Steady /\ current_recipe s' = target_recipe s /\ last_error s' = None /\
  forall i q', sequences s' !! i = Some q' -> is_live q' = true ->
    slot_state q' = AtBoundary /\ checkpointed q' = true /\ resume_class q' <> ClassPending /\
    exists q, sequences s !! i = Some q /\ slot_core q' = slot_core q.

Lemma classified_core s i q q' : classified s i q q' -> slot_core q' = slot_core q /\ checkpointed q' = checkpointed q.
Proof. unfold classified. destruct (is_live q); [intros (cls & _ & ->)|intros ->]; done. Qed.

Lemma resumed_inv s0 s3 s' step :
  phase_ok s3 -> tables_wf s3 -> state s3 = Resume -> phase_cursor s3 = 0 ->
  identity s3 = identity s0 -> same_slots (sequences s0) (sequences s3) ->
  wp (advance_resume step) (fun _ s' => switch_inv s' /\ config s' = config s0 /\
      target_recipe s' = target_recipe s0 /\ switched s0 s' /\ length (sequences s') = length (sequences s3) /\
      forall i q, sequences s3 !! i = Some q -> exists q', sequences s' !! i = Some q' /\ classified s3 i q q')
    (fun _ _ => False) s3.
Proof.
  clear s'. intros Hph Hwf Hst Hc (Hcf & Hk & Hcur & Ht)%identity_fields Hs.
  eapply wp_mono; [by apply advance_resume_spec| |done].
  intros [] s' (Hst' & Hcur' & Ht' & Hcf' & He' & Hwf' & Hlen & Hcl).
  assert (forall i q', sequences s' !! i = Some q' -> exists q, sequences s3 !! i = Some q /\ classified s3 i q q') as Hback.
  { intros i q' Hq'. destruct (lookup_lt_is_Some_2 (sequences s3) i) as [q Hq].
    { rewrite <- Hlen. by eapply lookup_lt_Some. }
    exists q. split; [done|]. destruct (Hcl i q Hq) as (q2 & Hq2 & ?). congruence. }
  split_and!; [|congruence|congruence| |done|done].
  - split; [done| |congruence]. split; intros; try congruence. destruct H; congruence.
  - split_and!; [done|congruence|done|]. intros i q' Hq' Hl. destruct (Hback i q' Hq') as (q & Hq & Hcl').
    pose proof (classified_core _ _ _ _ Hcl') as [Hcore Hck]. pose proof (live_core _ _ Hcore) as Hl'.
    destruct (same_slots_lookup _ _ _ _ Hs Hq) as (q0 & Hq0 & Hcore0).
    assert (slot_state q' = slot_state q) as Hss by (unfold slot_core in Hcore; congruence).
    split_and!.
    + rewrite Hss. destruct Hph as [_ Ha _ _]. specialize (Ha ltac:(congruence) ltac:(congruence) i q Hq).
      rewrite Hl' in Hl. unfold is_live, is_free in Hl. destruct (slot_state q); [done|done|done].
    + rewrite Hck. eapply (ph_swap _ Hph); [auto|done| |congruence]. apply lookup_lt_Some in Hq. lia.
    + unfold classified in Hcl'. rewrite <- Hl', Hl in Hcl'. destruct Hcl' as (cls & [? _] & ->). done.
    + exists q0. split; [done|congruence].
Qed.

Lemma advance_spec step s :
  switch_inv s ->
  wp (advance step)
     (fun st s' => st = state s' /\ switch_inv s' /\ config s' = config s /\ target_recipe s' = target_recipe s /\
        exists s2, drained_to s s2 /\
        if bool_decide (state s2 = Swap) then
          let '(issued, resident, d) := swap_turn s2 in
          if (resident : bool) then state s <> Steady /\ switched s s'
          else state s' = Swap /\ identity s' = identity s /\ same_slots (sequences s) (sequences s') /\
               swap_started s' = issued /\ swap_device s' = d
        else s' = s2)
     (fun _ _ => False) s.
Proof.
  intros Hinv. unfold advance.
  assert (wp (do! do! advance_quiesce in advance_checkpoint in
    do! advance_swap in do! advance_resume step in gets state) (fun st s' => st = state s' /\ switch_inv s' /\ config s' = config s /\ target_recipe s' = target_recipe s /\
        exists s2, drained_to s s2 /\
        if bool_decide (state s2 = Swap) then
          let '(issued, resident, d) := swap_turn s2 in
          if (resident : bool) then state s <> Steady /\ switched s s'
          else state s' = Swap /\ identity s' = identity s /\ same_slots (sequences s) (sequences s') /\
               swap_started s' = issued /\ swap_device s' = d
        else s' = s2) (fun _ _ => False) s) as Hgoal.
  2:{ unfold wp, bind in *. by destruct (advance_quiesce s). }
  wp_step. eapply wp_mono; [by apply advance_drain_spec| |done].
  intros [] s2 Hdr. cbn beta. pose proof Hdr as (Hinv2 & Hid2 & Hs2 & Hcase).
  pose proof (identity_fields _ _ Hid2) as (Hcf & _ & Hcur & Ht).
  wp_step. destruct (decide (state s2 = Swap)) as [Hsw|Hsw].
  - eapply wp_mono; [apply advance_swap_spec; [done|apply Hinv2|apply Hinv2]| |done].
    intros [] s3 (Hid3 & Hs3 & Ht3 & Hwf3 & Hph3 & H3). cbn beta.
    pose proof (identity_fields _ _ Hid3) as (Hcf3 & _ & Hcur3 & Htg3).
    destruct (swap_turn s2) as [[issued resident] d] eqn:Htn. destruct H3 as (Hss & Hdev & Hres).
    destruct resident.
    + destruct Hres as [Hst3 Hc3]. wp_step.
      eapply wp_mono; [apply (resumed_inv s s3 s3 step); try done; [congruence|by rewrite Hs3]| |done].
      intros [] s' (Hinv' & Hcf' & Ht' & Hswd & _). cbn beta. apply wp_gets. split_and!; try done.
      exists s2. split; [done|]. rewrite bool_decide_true, Htn by done. split; [|done].
      destruct Hcase as [(-> & _ & _)|[(? & _)|(_ & _ & _ & ? & _)]]; congruence.
    + wp_step. unfold advance_resume. do 2 wp_step. rewrite bool_decide_false by congruence. wp_steps.
      split_and!; [done| |congruence|congruence|].
      { split; [done|done|congruence]. }
      exists s2. split; [done|]. rewrite bool_decide_true, Htn by done. split_and!; try done; congruence || by rewrite Hs3.
  - unfold advance_swap. do 2 wp_step. rewrite bool_decide_false by done. wp_steps.
    unfold advance_resume. do 2 wp_step. rewrite bool_decide_false by apply Hinv2. wp_steps.
    split_and!; try done. exists s2. split; [done|]. by rewrite bool_decide_false.
Qed.

(** ** Sequence operations *)

(** One slot replaced. *)
Lemma tables_wf_put s s' i q f :
  tables_wf s -> config s' = config s -> length (block_keys s') = length (block_keys s) ->
  length (manifest_buffer s') = length (manifest_buffer s) -> phase_cursor s' = phase_cursor s ->
  sequences s !! Z.to_nat i = Some q -> sequences s' = upd_nth i f (sequences s) ->
  0 <= block_count (f q) <= max_blocks_per_sequence (config s) ->
  (is_live (f q) = true -> sequence_id (f q) <> 0 /\ forall j r, j <> Z.to_nat i -> sequences s !! j = Some r ->
     is_live r = true -> sequence_id r <> sequence_id (f q)) ->
  sequence_count s' = sequence_count s - b2z (is_live q) + b2z (is_live (f q)) -> tables_wf s'.
Proof.
  intros [] Hcf Hk Hb Hcur Hq Hs Hcount Hid Hc.
  assert (forall j r, sequences s' !! j = Some r -> (j = Z.to_nat i /\ r = f q) \/ (j <> Z.to_nat i /\ sequences s !! j = Some r)) as Hlook.
  { intros j r Hr. rewrite Hs in Hr. destruct (decide (j = Z.to_nat i)) as [->|Hne].
    - rewrite (lookup_upd_nth_eq _ _ _ _ Hq) in Hr. left. by simplify_eq.
    - right. split; [done|]. unfold upd_nth in Hr. by rewrite list_lookup_alter_ne in Hr by done. }
  split; rewrite ?Hcf, ?Hk, ?Hb, ?Hcur; try done.
  - by rewrite Hs, length_upd_nth.
  - intros j r [[-> ->]|[_ Hr]]%Hlook; [done|eauto].
  - intros j k r t [[-> ->]|[Hj Hr]]%Hlook [[-> ->]|[Hk' Ht]]%Hlook Hlr Hlt Heq; [done| | |by eapply wf_ids].
    + destruct (Hid Hlr) as [_ Hu]. by destruct (Hu k t Hk' Ht Hlt).
    + destruct (Hid Hlt) as [_ Hu]. by destruct (Hu j r Hj Hr Hlr).
  - intros j r [[-> ->]|[_ Hr]]%Hlook Hl; [by apply Hid|eauto].
  - rewrite Hc, Hs, wf_count. erewrite countb_upd_nth by done. lia.
  - rewrite Hs, length_upd_nth. done.
Qed.

Lemma phase_ok_put s s' i q f :
  phase_ok s -> state s' = state s -> current_recipe s' = current_recipe s -> target_recipe s' = target_recipe s ->
  phase_cursor s' = phase_cursor s -> sequences s !! Z.to_nat i = Some q ->
  sequences s' = upd_nth i f (sequences s) ->
  (slot_state (f q) = Active -> slot_state q = Active) ->
  (is_live (f q) = true -> is_live q = true /\ checkpointed (f q) = checkpointed q) -> phase_ok s'.
Proof.
  intros [Hr Ha Hck Hsw] Hst Hc Ht Hcur Hq Hs Hact Hlive.
  assert (forall c, done_below c (sequences s) -> done_below c (sequences s')) as Hdb.
  { intros c Hd j r Hj Hjc Hl. rewrite Hs in Hj. destruct (decide (j = Z.to_nat i)) as [->|Hne].
    - rewrite (lookup_upd_nth_eq _ _ _ _ Hq) in Hj. injection Hj as <-. destruct (Hlive Hl) as [Hl' ->]. by eapply Hd.
    - unfold upd_nth in Hj. rewrite list_lookup_alter_ne in Hj by done. by eapply Hd. }
  split; rewrite ?Hst, ?Hc, ?Ht, ?Hcur.
  - done.
  - intros H1 H2 j r Hj. rewrite Hs in Hj. destruct (decide (j = Z.to_nat i)) as [->|Hne].
    + rewrite (lookup_upd_nth_eq _ _ _ _ Hq) in Hj. injection Hj as <-. intros HA. by apply (Ha H1 H2 _ _ Hq), Hact.
    + unfold upd_nth in Hj. rewrite list_lookup_alter_ne in Hj by done. by eapply Ha.
  - intros HC. by apply Hdb, Hck.
  - intros HS. rewrite Hs, length_upd_nth. rewrite <- Hs. by apply Hdb, Hsw.
Qed.

Lemma find_sequence_Some s id i :
  find_sequence s id = Some i ->
  exists q, 0 <= i /\ sequences s !! Z.to_nat i = Some q /\ is_live q = true /\ sequence_id q = id.
Proof.
  intros (Hi & q & Hq & Hp%andb_prop)%position_Some. destruct Hp as [Hl ?%Z.eqb_eq]. exists q. done.
Qed.

Lemma wp_find s id Q (R : TopologySwitchError -> TopologySwitch T D W -> Prop) :
  (forall i q, find_sequence s id = Some i -> 0 <= i -> sequences s !! Z.to_nat i = Some q -> is_live q = true ->
     sequence_id q = id -> Q i s) ->
  (find_sequence s id = None -> R NotFound s) -> wp (find_or_fail id) Q R s.
Proof.
  intros HQ HR. unfold find_or_fail. do 2 wp_step. destruct (find_sequence s id) as [i|] eqn:E.
  - destruct (find_sequence_Some _ _ _ E) as (q & ? & ? & ? & ?). apply wp_ret. eauto.
  - apply wp_throw. auto.
Qed.

Lemma live_count s i q :
  tables_wf s -> sequences s !! Z.to_nat i = Some q ->
  b2z (is_live q) <= sequence_count s <= U32_MAX - b2z (negb (is_live q)).
Proof.
  intros [] Hq. rewrite wf_count. pose proof (countb_le_length is_live (sequences s)).
  pose proof (countb_nonneg is_live (sequences s)). destruct (is_live q) eqn:Hl; cbn.
  - pose proof (countb_ge_1 _ _ _ _ Hq Hl). lia.
  - destruct (Z.eq_dec (countb is_live (sequences s)) (Z.of_nat (length (sequences s)))) as [Hf|]; [|lia].
    pose proof (countb_full is_live (sequences s) Hf _ _ Hq). congruence.
Qed.

Lemma track_spec id recipe s :
  switch_inv s ->
  wp (track_sequence id recipe)
     (fun _ s' => switch_inv s' /\ state s' = Steady /\ current_recipe s' = current_recipe s /\
        find_sequence s id = None /\ id <> 0 /\ recipe = recipe_id (current_recipe s) /\
        sequence_count s' = sequence_count s + 1)
     (fun e s' => s' = s) s.
Proof.
  intros Hinv. pose proof (inv_tables _ Hinv) as Hwf. unfold track_sequence. do 2 wp_step.
  destruct (Z.eqb_spec id 0); [by apply wp_throw|]. case_bool_decide as Hst; [|by apply wp_throw]. cbn [negb].
  destruct (Z.eqb_spec recipe (recipe_id (current_recipe s))); [|by apply wp_throw]. cbn [negb].
  destruct (find_sequence s id) as [?|] eqn:Hf; [by apply wp_throw|].
  destruct (position is_free (sequences s)) as [i|] eqn:Hp; [|by apply wp_throw].
  apply position_Some in Hp as (Hi & q & Hq & Hfree). unfold upd_slot. wp_steps.
  assert (is_live q = false) as Hl by (unfold is_live; by rewrite Hfree).
  pose proof (live_count s i q Hwf Hq) as Hcnt. rewrite Hl in Hcnt. cbn in Hcnt.
  assert (sequence_count s +u32 1 = sequence_count s + 1) as Hc by (apply u32_small; lia).
  split_and!; try done. split; cbn; [| |congruence].
  - eapply (tables_wf_put s _ i q); try done; cbn.
    + pose proof (wf_blocks _ Hwf). lia.
    + intros _. split; [done|]. intros j r _ Hr Hlr Heq.
      pose proof (position_None _ _ _ _ Hf Hr) as Hn. cbn beta in Hn. unfold is_live in Hlr. cbn in Heq.
      by rewrite Hlr, Heq, Z.eqb_refl in Hn.
    + rewrite Hl, Hc. change (sequence_count s + 1 = sequence_count s - 0 + 1). lia.
  - split; cbn; try congruence. intros [?|?]; congruence.
Qed.

Lemma begin_spec target s :
  switch_inv s ->
  wp (begin target)
     (fun _ s' => switch_inv s' /\ state s = Steady /\ state s' = Quiesce /\ target_recipe s' = target /\
        current_recipe s' = current_recipe s /\ sequences s' = sequences s /\
        recipe_id target <> recipe_id (current_recipe s))
     (fun _ s' => s' = s) s.
Proof.
  intros Hinv. unfold begin. do 2 wp_step. destruct (Z.eqb_spec (recipe_id target) 0); [by apply wp_throw|].
  case_bool_decide as Hst; [|by apply wp_throw]. cbn [negb].
  destruct (Z.eqb_spec (recipe_id target) (recipe_id (current_recipe s))); [by apply wp_throw|]. wp_step.
  split_and!; try done. split; cbn; [| |done].
  - destruct (inv_tables _ Hinv). split; try done. cbn. lia.
  - split; cbn; try done; first [congruence|by intros [?|?]].
Qed.

Lemma at_boundary_spec id s :
  switch_inv s ->
  wp (sequence_at_boundary id)
     (fun _ s' => switch_inv s' /\ state s' = state s /\ current_recipe s' = current_recipe s)
     (fun e s' => s' = s /\ e = NotFound) s.
Proof.
  intros Hinv. pose proof (inv_tables _ Hinv) as Hwf. unfold sequence_at_boundary. wp_step. apply wp_find; [|done].
  intros i q Hf Hi Hq Hl Hid. unfold upd_slot. wp_steps. split_and!; try done.
  split; [|eapply (phase_ok_put s _ i q); try done; apply Hinv|apply Hinv].
  eapply (tables_wf_put s _ i q); try done; cbn.
  - by eapply wf_counts.
  - intros _. split; [by eapply wf_id_nonzero|]. intros j r Hj Hr Hlr Heq. apply Hj.
    by eapply (wf_ids _ Hwf j (Z.to_nat i) r q).
  - rewrite Hl. change (sequence_count s = sequence_count s - 1 + 1). lia.
Qed.

(** The keys named by [set_sequence_kv]. *)
Lemma name_keys_spec base hashes s :
  0 <= base -> base + Z.of_nat (length hashes) <= Z.of_nat (length (block_keys s)) ->
  Z.of_nat (length (block_keys s)) <= U64_MAX ->
  wp (for_fold (zip (range 0 (Z.of_nat (length hashes))) hashes) (fun x _ =>
        let '(i, content_hash) := x in
        let! s := gets (fun s => s) in
        let! _old := index (block_keys s) (base +u64 i) in
        modify (fun s => s <| block_keys :=
          upd_nth (base +u64 i) (fun _ => kv_key (kv_namespace (config s)) content_hash) (block_keys s) |>)) tt)
     (fun _ s' => exists keys, s' = s <| block_keys := keys |> /\ length keys = length (block_keys s) /\
        forall j, keys !! j =
          if (base <=? Z.of_nat j) && (Z.of_nat j <? base + Z.of_nat (length hashes))
          then kv_key (kv_namespace (config s)) <$> hashes !! (j - Z.to_nat base)%nat else block_keys s !! j)
     (fun (_ : TopologySwitchError) _ => False) s.
Proof.
  intros Hb Hroom Hmax. eapply wp_mono.
  { apply (wp_for_fold (fun pre _ s' => exists keys, s' = s <| block_keys := keys |> /\
      length keys = length (block_keys s) /\
      forall j, keys !! j =
        if (base <=? Z.of_nat j) && (Z.of_nat j <? base + Z.of_nat (length pre))
        then kv_key (kv_namespace (config s)) <$> hashes !! (j - Z.to_nat base)%nat else block_keys s !! j)
      _ _ _ (fun (_ : TopologySwitchError) _ => False)).
    - exists (block_keys s). split_and!; [by destruct s|done|]. intros j.
      destruct (Z.leb_spec base (Z.of_nat j)), (Z.ltb_spec (Z.of_nat j) (base + Z.of_nat (length (@nil (Z * Z))))); cbn in *; done || lia.
    - intros pre [i h] post [] s1 Hsplit (keys & -> & Hlen & Hkeys).
      assert (zip (range 0 (Z.of_nat (length hashes))) hashes !! length pre = Some (i, h)) as Hx
        by (rewrite Hsplit; by apply list_lookup_middle).
      apply lookup_zip_with_Some in Hx as (i' & h' & Heq & Hi & Hh). simplify_eq.
      apply lookup_range in Hi as [-> Hlt]. rewrite Z.add_0_l.
      assert (Z.of_nat (length pre) < Z.of_nat (length hashes)) by (apply lookup_lt_Some in Hh; lia).
      rewrite u64_small by lia. do 3 wp_step. cbn.
      destruct (lookup_lt_is_Some_2 keys (Z.to_nat (base + Z.of_nat (length pre)))) as [old Hold]; [lia|].
      eapply wp_index; [exact Hold|]. wp_step. eexists. split_and!; [reflexivity|by rewrite length_upd_nth|].
      intros j. rewrite length_app. cbn [length]. destruct (decide (j = Z.to_nat (base + Z.of_nat (length pre)))) as [->|Hne].
      + rewrite (lookup_upd_nth_eq _ _ _ _ Hold).
        rewrite (proj2 (Z.leb_le _ _)), (proj2 (Z.ltb_lt _ _)) by lia. cbn [andb].
        replace (Z.to_nat (base + Z.of_nat (length pre)) - Z.to_nat base)%nat with (length pre) by lia. by rewrite Hh.
      + unfold upd_nth. rewrite list_lookup_alter_ne, Hkeys by done.
        destruct (Z.leb_spec base (Z.of_nat j)), (Z.ltb_spec (Z.of_nat j) (base + Z.of_nat (length pre))),
          (Z.ltb_spec (Z.of_nat j) (base + Z.of_nat (length pre + 1))); cbn [andb]; done || lia. }
  2: done.
  intros [] s' (keys & -> & Hlen & Hkeys). exists keys. split_and!; [done..|].
  intros j. rewrite Hkeys. rewrite length_zip_with, length_range.
  replace (Nat.min (Z.to_nat (Z.of_nat (length hashes) - 0)) (length hashes)) with (length hashes) by lia. done.
Qed.

Lemma set_kv_spec id pos hashes s :
  switch_inv s ->
  wp (set_sequence_kv id pos hashes)
     (fun _ s' => switch_inv s' /\ state s' = state s /\ current_recipe s' = current_recipe s /\
        exists i q q', find_sequence s id = Some i /\ sequences s !! Z.to_nat i = Some q /\ checkpointed q = false /\
          sequences s' !! Z.to_nat i = Some q' /\ position_tokens q' = pos /\
          block_count q' = Z.of_nat (length hashes) /\
          keys_of s' i (block_count q') = kv_key (kv_namespace (config s)) <$> hashes)
     (fun e s' => s' = s /\
        ((e = CapacityExceeded /\ max_blocks_per_sequence (config s) < Z.of_nat (length hashes)) \/
         (e = NotFound /\ find_sequence s id = None) \/
         (e = Busy /\ exists i q, find_sequence s id = Some i /\ sequences s !! Z.to_nat i = Some q /\
            checkpointed q = true))) s.
Proof.
  intros Hinv. pose proof (inv_tables _ Hinv) as Hwf. unfold set_sequence_kv. do 2 wp_step.
  destruct (Z.ltb_spec (max_blocks_per_sequence (config s)) (Z.of_nat (length hashes))); [apply wp_throw; auto|].
  wp_step. apply wp_find; [|auto 6]. intros i q Hf Hi Hq Hl Hid. wp_step. eapply wp_index; [exact Hq|].
  destruct (checkpointed q) eqn:Hck; [apply wp_throw; split; [done|]; right; right; eauto 8|].
  pose proof (slot_in_range _ _ _ Hwf Hq Hi) as Hr. rewrite key_base_spec by done.
  pose proof Hwf as []. wp_step. eapply wp_mono; [apply name_keys_spec; nia| |done].
  intros [] s1 (keys & -> & Hlen & Hkeys). cbn beta. unfold upd_slot. wp_steps.
  rewrite u32_small by lia.
  set (s' := set_field sequences _ _).
  assert (sequences s' = upd_nth i (fun q => q <| block_count := Z.of_nat (length hashes) |> <| position_tokens := pos |>)
    (sequences s)) as Hs'.
  { unfold s'. cbn. unfold upd_nth. by rewrite list_alter_twice. }
  assert (switch_inv s') as Hinv'.
  { split; [|eapply (phase_ok_put s _ i q); try done; apply Hinv|apply Hinv].
    eapply (tables_wf_put s _ i q); try done; cbn; [lia| |].
    - intros _. split; [by eapply wf_id_nonzero|]. intros j r Hj Hrr Hlr Heq. apply Hj.
      by eapply (wf_ids j (Z.to_nat i) r q).
    - rewrite Hl. change (is_live _) with (is_live q). rewrite Hl. cbn. lia. }
  split_and!; try done. exists i, q, (q <| block_count := Z.of_nat (length hashes) |> <| position_tokens := pos |>).
  split_and!; try done.
  - rewrite Hs'. exact (lookup_upd_nth_eq _ _ _ _ Hq).
  - change (block_count _) with (Z.of_nat (length hashes)). unfold keys_of.
    change (config s') with (config s). change (block_keys s') with keys.
    apply list_eq. intros j. rewrite list_lookup_fmap. destruct (decide (j < length hashes)%nat).
    + rewrite lookup_take_lt, lookup_drop, Hkeys by lia.
      rewrite (proj2 (Z.leb_le _ _)), (proj2 (Z.ltb_lt _ _)) by nia. cbn [andb]. do 2 f_equal. nia.
    + rewrite lookup_take_ge by lia. by rewrite lookup_ge_None_2 by lia.
Qed.

Lemma unpin_spec keys s :
  wp (for_fold keys (fun key _ => let! _r := on_tier (tier_pin key false) in ret tt) tt)
     (fun _ s' => kept s s') (fun _ _ => False) s.
Proof.
  apply (wp_for_fold (fun _ _ s' => kept s s')); [done|].
  intros pre key post [] s1 _ Hk. wp_step. apply wp_on_tier. intros r t _. wp_step. exact Hk.
Qed.

Lemma complete_sequence_spec id s :
  switch_inv s ->
  wp (sequence_complete id)
     (fun _ s' => switch_inv s' /\ state s' = state s /\ current_recipe s' = current_recipe s /\
        find_sequence s' id = None /\ sequence_count s' = sequence_count s - 1)
     (fun e s' => s' = s /\ e = NotFound) s.
Proof.
  intros Hinv. pose proof (inv_tables _ Hinv) as Hwf. unfold sequence_complete. wp_step. apply wp_find; [|done].
  intros i q Hf Hi Hq Hl Hid. do 3 wp_step. eapply wp_index; [exact Hq|]. wp_step.
  eapply (wp_mono _ (fun _ s1 => kept s s1) _ (fun _ _ => False)); [|clear Hf|done].
  { destruct (pins_done q); [|by apply wp_ret]. wp_step. apply (slot_keys_spec s i q); [done..|]. cbn beta. apply unpin_spec. }
  intros [] s1 (Hm & Hs & Hc & He). cbn beta. wp_step.
  eapply (wp_mono _ (fun _ s2 => machine s2 = machine s /\ sequences s2 = sequences s /\ phase_cursor s2 = phase_cursor s)
    _ (fun _ _ => False)); [|clear s1 Hm Hs Hc He|done].
  { destruct (_ && _); [unfold count_stat; by apply wp_modify|by apply wp_ret]. }
  intros [] s2 (Hm & Hs & Hc). cbn beta. unfold upd_slot. wp_steps.
  set (f := fun q : SequenceSlot => q <| slot_state := Free |> <| resume_class := ClassPending |> <| block_count := 0 |>).
  set (s' := set_field sequence_count _ _).
  pose proof (machine_fields _ _ Hm) as (Hcf & Hk & Hb & Hcur & Htg & Hst & Hcnt & _).
  pose proof (live_count s i q Hwf Hq) as Hlc. rewrite Hl in Hlc. cbn in Hlc.
  assert (sequence_count s' = sequence_count s - 1) as Hc' by (cbn; rewrite Hcnt; apply u32_small; lia).
  assert (sequences s' = upd_nth i f (sequences s)) as Hs' by (cbn; by rewrite Hs).
  split_and!; [|exact Hst|exact Hcur| |done].
  - split; [|eapply (phase_ok_put s _ i q f); try done; apply Hinv|cbn; rewrite Hst; apply Hinv].
    eapply (tables_wf_put s _ i q f); try done; cbn; try congruence.
    + pose proof (wf_blocks _ Hwf). lia.
    + rewrite Hl. change (b2z (is_live (f q))) with 0. cbn in Hc'. rewrite Hc'. cbn. lia.
  - destruct (find_sequence s' id) as [j|] eqn:Hf; [|done].
    destruct (find_sequence_Some _ _ _ Hf) as (r & Hj & Hr & Hlr & Hid'). rewrite Hs' in Hr.
    destruct (decide (Z.to_nat j = Z.to_nat i)) as [Heq|Hne].
    + rewrite Heq, (lookup_upd_nth_eq _ _ _ _ Hq) in Hr. by injection Hr as <-.
    + unfold upd_nth in Hr. rewrite list_lookup_alter_ne in Hr by done. destruct Hne.
      eapply (wf_ids _ Hwf _ _ r q); try done. congruence.
Qed.

(** ** Histories *)

Inductive switch_call :=
| CallTrack (id recipe : Z)
| CallSetKv (id position : Z) (hashes : list Z)
| CallBoundary (id : Z)
| CallComplete (id : Z)
| CallBegin (target : TopologyRecipe)
| CallAdvance (step_now : Z).

Definition switch_run (c : switch_call) : M (TopologySwitch T D W) TopologySwitchError unit :=
  match c with
  | CallTrack id recipe => track_sequence id recipe
  | CallSetKv id position hashes => set_sequence_kv id position hashes
  | CallBoundary id => sequence_at_boundary id
  | CallComplete id => sequence_complete id
  | CallBegin target => begin target
  | CallAdvance step_now => let! _st := advance step_now in ret tt
  end.

(** A public call, succeeding or failing, or serving traffic that changes the tier
    ([tier_mut]). *)
Inductive switch_step s : TopologySwitch T D W -> Prop :=
| step_ok c a s' : switch_run c s = Ret a s' -> switch_step s s'
| step_err c e s' : switch_run c s = Fails e s' -> switch_step s s'
| step_tier t : switch_step s (s <| tier := t |>).

(** What one call does to the running recipe. *)
Definition recipe_kept_or_switched (c : switch_call) s s' : Prop :=
  current_recipe s' = current_recipe s \/
  ((exists step_now, c = CallAdvance step_now) /\ state s <> Steady /\ switched s s').

Lemma switch_run_spec c s :
  switch_inv s ->
  wp (switch_run c) (fun _ s' => switch_inv s' /\ recipe_kept_or_switched c s s')
     (fun _ s' => switch_inv s' /\ current_recipe s' = current_recipe s) s.
Proof.
  intros Hinv. destruct c as [id r|id p h|id|id|target|step]; cbn [switch_run].
  - eapply wp_mono; [by apply track_spec| |by intros e s' ->]. intros a s' H. split; [apply H|left; apply H].
  - eapply wp_mono; [by apply set_kv_spec| |by intros e s' [-> _]]. intros a s' H. split; [apply H|left; apply H].
  - eapply wp_mono; [by apply at_boundary_spec| |by intros e s' [-> _]]. intros a s' H. split; [apply H|left; apply H].
  - eapply wp_mono; [by apply complete_sequence_spec| |by intros e s' [-> _]]. intros a s' H. split; [apply H|left; apply H].
  - eapply wp_mono; [by apply begin_spec| |by intros e s' ->]. intros a s' H. split; [apply H|left; apply H].
  - wp_step. eapply wp_mono; [by apply advance_spec| |done].
    intros st s' (_ & Hinv' & _ & _ & s2 & (_ & Hid & _) & Hcase). cbn beta. wp_step. split; [done|].
    pose proof (identity_fields _ _ Hid) as (_ & _ & Hcur & _).
    destruct (bool_decide (state s2 = Swap)); [|subst s2; by left].
    destruct (swap_turn s2) as [[issued resident] d]. destruct resident.
    + destruct Hcase. right. split; [by eexists|done].
    + destruct Hcase as (_ & (_ & _ & Hcur' & _)%identity_fields & _). by left.
Qed.

Lemma switch_step_inv s s' : switch_inv s -> switch_step s s' -> switch_inv s'.
Proof.
  intros Hinv [c a s1 Hr|c e s1 Hr|t].
  - by apply (wp_ret_inv _ _ _ _ _ _ (switch_run_spec c s Hinv) Hr).
  - by apply (wp_fails_inv _ _ _ _ _ _ (switch_run_spec c s Hinv) Hr).
  - destruct Hinv as [Hwf Hph ?]. split; [|destruct Hph; by split|done].
    eapply tables_wf_frame; [exact Hwf|done|done|apply Hwf].
Qed.

Lemma switch_reachable_inv s s' : switch_inv s -> rtc switch_step s s' -> switch_inv s'.
Proof. intros Hinv Hr. induction Hr; eauto using switch_step_inv. Qed.

Lemma new_switch_spec c t d w s :
  0 <= max_sequences c <= U32_MAX -> 0 <= max_blocks_per_sequence c <= U32_MAX ->
  0 <= manifest_block_bytes c <= U32_MAX ->
  new c t d w tt = Ret s tt -> switch_inv s /\ state s = Steady /\ sequence_count s = 0.
Proof.
  intros Hs Hb Hm. unfold new.
  destruct (Z.eqb_spec (max_sequences c) 0); [done|]. destruct (Z.eqb_spec (max_blocks_per_sequence c) 0); [done|].
  destruct (_ =? 0); [done|]. cbn [orb]. destruct (_ || _); [done|].
  rewrite (u64_small (max_blocks_per_sequence c * 8)), (u64_small (MANIFEST_HEADER_BYTES + _)),
    (u64_small (max_sequences c * _)) by (unfold MANIFEST_HEADER_BYTES; nia).
  destruct (Z.ltb_spec (manifest_block_bytes c) (MANIFEST_HEADER_BYTES + max_blocks_per_sequence c * 8)); [done|].
  destruct (Z.ltb_spec ISIZE_MAX (8 * (max_sequences c * max_blocks_per_sequence c))); [done|].
  unfold ret. intros H1. injection H1 as <-. split; [|done].
  assert (forall i q, replicate (Z.to_nat (max_sequences c)) default_slot !! i = Some q -> q = default_slot) as Hd.
  { intros i q [Hq _]%lookup_replicate. done. }
  split; cbn; [| |done].
  - split; cbn; rewrite ?length_replicate; try lia.
    + intros i q ->%Hd. cbn. lia.
    + by intros i j q r ->%Hd.
    + by intros i q ->%Hd.
    + symmetry. apply countb_0. by intros i q ->%Hd.
  - split; cbn; try done. by intros [?|?].
Qed.

(** ** Completion *)

(** The device reports the target resident after [n] busy polls. *)
Fixpoint ready (n : nat) (d : D) : Prop :=
  match n with
  | O => (poll_swap d).1 = inr tt
  | S n' => (poll_swap d).1 = inl Busy /\ ready n' (poll_swap d).2
  end.

Definition advances (steps : list Z) : M (TopologySwitch T D W) TopologySwitchError unit :=
  for_fold steps (fun step_now _ => let! _st := advance step_now in ret tt) tt.

Lemma switched_from s s1 s' :
  target_recipe s1 = target_recipe s -> same_slots (sequences s) (sequences s1) -> switched s1 s' -> switched s s'.
Proof.
  intros Ht Hs (? & ? & ? & Hq). split_and!; [done|congruence|done|]. intros i q' Hi Hl.
  destruct (Hq i q' Hi Hl) as (? & ? & ? & q1 & Hq1 & Hc1). split_and!; [done..|].
  destruct (same_slots_lookup _ _ _ _ Hs Hq1) as (q & Hq0 & Hc). exists q. split; [done|congruence].
Qed.

(** One [advance] with the device [d] polled: done, or still swapping with the swap
    under way. *)
Lemma advance_poll s s2 s' n d :
  drained_to s s2 -> state s2 = Swap ->
  swap_turn s2 = (true, match (poll_swap d).1 with inr _ => true | inl _ => false end, (poll_swap d).2) ->
  ready n d ->
  (if bool_decide (state s2 = Swap) then
     let '(issued, resident, d) := swap_turn s2 in
     if (resident : bool) then state s <> Steady /\ switched s s'
     else state s' = Swap /\ identity s' = identity s /\ same_slots (sequences s) (sequences s') /\
          swap_started s' = issued /\ swap_device s' = d
   else s' = s2) ->
  match n with
  | O => switched s s'
  | S n' => state s' = Swap /\ target_recipe s' = target_recipe s /\ same_slots (sequences s) (sequences s') /\
      swap_started s' = true /\ ready n' (swap_device s')
  end.
Proof.
  intros _ Hst Htn Hr H. rewrite bool_decide_true, Htn in H by done. destruct n as [|n]; cbn in Hr.
  - rewrite Hr in H. apply H.
  - destruct Hr as [Hb Hr]. rewrite Hb in H. destruct H as (? & (_&_&_&?)%identity_fields & ? & ? & ->). done.
Qed.

Lemma swapping_completes n steps s :
  switch_inv s -> state s = Swap -> swap_started s = true -> ready n (swap_device s) -> length steps = S n ->
  wp (advances steps) (fun _ s' => switched s s') (fun _ _ => False) s.
Proof.
  revert steps s. induction n as [|n IH]; intros steps s Hinv Hst Hss Hr Hlen;
    (destruct steps as [|step steps]; [done|]); unfold advances; cbn [for_fold]; do 2 wp_step.
  all: eapply wp_mono; [by apply advance_spec| |done]; intros st s' (_ & Hinv' & _ & _ & s2 & Hdr & Hcase);
    cbn beta; wp_step; fold (advances steps).
  all: assert (s2 = s) as -> by (destruct Hdr as (_&_&_&[(-> & _)|[(_&_&_&_&?)|(_&_&_&_&?)]]); done).
  all: eapply (advance_poll s s s' _ (swap_device s)) in Hcase; [|done|done| |exact Hr];
    [|unfold swap_turn; rewrite Hss; by destruct (poll_swap (swap_device s)) as [[?|?] ?]].
  - destruct steps; [|done]. by apply wp_ret.
  - destruct Hcase as (Hst' & Ht' & Hs' & Hss' & Hr'). eapply wp_mono; [apply IH; try done; by injection Hlen| |done].
    intros [] s3 H3. by apply (switched_from s s').
Qed.

Lemma draining_completes n steps d s :
  switch_inv s -> @cooperative T W _ _ -> state s = Quiesce -> quiesce_drained s = true ->
  begin_swap (current_recipe s) (target_recipe s) (swap_device s) = (inr tt, d) -> ready n d -> length steps = S n ->
  wp (advances steps) (fun _ s' => switched s s') (fun _ _ => False) s.
Proof.
  intros Hinv Hco Hst Hd Hb Hr Hlen. destruct steps as [|step steps]; [done|]. unfold advances. cbn [for_fold].
  do 2 wp_step. eapply wp_mono; [by apply advance_spec| |done]. intros st s' (_ & Hinv' & _ & _ & s2 & Hdr & Hcase).
  cbn beta. wp_step. fold (advances steps).
  pose proof Hdr as (_ & (_ & _ & Hcur & Htg)%identity_fields & _ & H2).
  destruct H2 as [(_ & _ & Hnd)|[(_ & Hnc & _)|(Hst2 & Hss2 & Hdev2 & _)]]; [by rewrite (Hnd Hst) in Hd|done|].
  eapply (advance_poll s s2 s' n d) in Hcase; [|done|done| |done].
  2:{ unfold swap_turn. rewrite Hss2, Hdev2, Hcur, Htg, Hb. cbn. by destruct (poll_swap d) as [[?|?] ?]. }
  destruct n as [|n].
  - destruct steps; [|done]. by apply wp_ret.
  - destruct Hcase as (Hst' & Ht' & Hs' & Hss' & Hr').
    eapply wp_mono; [apply (swapping_completes n); try done; by injection Hlen| |done].
    intros [] s3 H3. by apply (switched_from s s').
Qed.

(** ** Classification *)

Lemma class_exact_tier s s' i q cls :
  config s' = config s -> block_keys s' = block_keys s -> tier s' = tier s ->
  class_exact s' i q cls -> class_exact s i q cls.
Proof. unfold class_exact, keys_of. by intros -> -> ->. Qed.

Lemma advance_from_swap step d s :
  switch_inv s -> state s = Swap -> swap_turn s = (true, true, d) ->
  wp (advance step)
     (fun _ s' => switched s s' /\ length (sequences s') = length (sequences s) /\
        forall i q, sequences s !! i = Some q -> exists q', sequences s' !! i = Some q' /\ classified s i q q')
     (fun _ _ => False) s.
Proof.
  intros Hinv Hst Htn. unfold advance, advance_quiesce, advance_checkpoint. do 3 wp_step.
  rewrite Hst. cbn [bool_decide decide_rel SwitchState_dec]. rewrite bool_decide_false by done. cbn [andb].
  do 4 wp_step. rewrite Hst, bool_decide_false by done. do 2 wp_step.
  eapply wp_mono; [apply advance_swap_spec; [done|apply Hinv..]| |done].
  intros [] s3 (Hid & Hs3 & Ht3 & Hwf3 & Hph3 & H3). cbn beta. rewrite Htn in H3. destruct H3 as (_ & _ & Hst3 & Hc3).
  pose proof (identity_fields _ _ Hid) as (Hcf & Hk & _ & _). wp_step.
  eapply wp_mono; [apply (resumed_inv s s3 s3 step); try done; by rewrite Hs3| |done].
  intros [] s' (_ & _ & _ & Hsw & Hlen & Hcl). cbn beta. wp_step. rewrite Hs3 in Hlen, Hcl. split_and!; [done..|].
  intros i q Hq. destruct (Hcl i q Hq) as (q' & Hq' & H). exists q'. split; [done|]. unfold classified in *.
  destruct (is_live q); [|done]. destruct H as (cls & Hce & ->). exists cls. split; [|done]. by eapply class_exact_tier.
Qed.

End props.

(** ** Manifests *)

(** Reading [n] bytes at [offset] as a little-endian integer. *)
Definition read_le (bytes : list Z) (offset n : nat) : Z := from_le_bytes (take n (drop offset bytes)).

(** A manifest read back: sequence, recipe, position and keys. *)
Definition read_manifest (bytes : list Z) : Z * Z * Z * list Z :=
  (read_le bytes 0 8, read_le bytes 8 8, read_le bytes 16 4,
   (fun i => read_le bytes (24 + 8 * i) 8) <$> seq 0 (Z.to_nat (read_le bytes 20 4))).

Lemma field_at (pre f post : list Z) offset n :
  length pre = offset -> length f = n -> take n (drop offset (pre ++ f ++ post)) = f.
Proof. intros <- <-. rewrite drop_app_length. apply take_app_length. Qed.

Definition slot_u q : Prop :=
  0 <= sequence_id q <= U64_MAX /\ 0 <= slot_recipe_id q <= U64_MAX /\ 0 <= position_tokens q <= U32_MAX /\
  0 <= block_count q <= U32_MAX.

Lemma read_manifest_of q keys size :
  slot_u q -> Forall (fun k => 0 <= k <= U64_MAX) keys -> Z.of_nat (length keys) = block_count q ->
  read_manifest (manifest_of q keys size) = (sequence_id q, slot_recipe_id q, position_tokens q, keys).
Proof.
  intros (Hid & Hr & Hp & Hc) Hk Hlen. unfold manifest_of, manifest_body.
  set (z := replicate _ 0). clearbody z. rewrite <- !app_assoc. unfold read_manifest, read_le.
  set (a := le64 (sequence_id q)). set (b := le64 (slot_recipe_id q)). set (c := le32 (position_tokens q)).
  set (d := le32 (block_count q)). remember (mjoin _) as ks eqn:Hks.
  assert (length a = 8%nat /\ length b = 8%nat /\ length c = 4%nat /\ length d = 4%nat) as (La & Lb & Lc & Ld)
    by (unfold a, b, c, d; by rewrite !length_to_le_bytes).
  assert (forall l, take 8 (drop 0 (a ++ l)) = a) as E0 by (intros l; by apply (field_at [] a l)).
  rewrite E0, (field_at a b) by done.
  assert (forall (l : list Z), a ++ b ++ l = (a ++ b) ++ l) as E1 by (intros; by rewrite <- app_assoc).
  rewrite E1, (field_at (a ++ b) c) by (rewrite ?length_app; lia).
  assert (forall (l : list Z), (a ++ b) ++ c ++ l = ((a ++ b) ++ c) ++ l) as E2 by (intros; by rewrite <- app_assoc).
  rewrite E2, (field_at ((a ++ b) ++ c) d) by (rewrite ?length_app; lia).
  unfold a, b, c, d. rewrite !le64_roundtrip, !le32_roundtrip by done. fold a b c d. f_equal.
  rewrite <- Hlen, Nat2Z.id. apply list_eq. intros i. rewrite list_lookup_fmap.
  destruct (decide (i < length keys)%nat) as [Hi|Hi].
  2:{ rewrite lookup_ge_None_2 by (rewrite length_seq; lia). by rewrite lookup_ge_None_2 by lia. }
  rewrite lookup_seq_lt by done. destruct (lookup_lt_is_Some_2 keys i Hi) as [k Hki].
  cbn [fmap option_fmap option_map Nat.add]. rewrite Hki. f_equal.
  rewrite Hks, <- (take_drop_middle keys i k Hki), fmap_app, join_app.
  change (mjoin ((fun k => le64 k) <$> k :: drop (S i) keys)) with (le64 k ++ mjoin ((fun k => le64 k) <$> drop (S i) keys)).
  assert (forall m u v w x : list Z, ((a ++ b) ++ c) ++ d ++ (m ++ u ++ v) ++ z = ((((a ++ b) ++ c) ++ d) ++ m) ++ u ++ v ++ z) as E3
    by (intros; by rewrite <- !app_assoc).
  rewrite E3 by exact []. rewrite field_at.
  - apply le64_roundtrip. by eapply (Forall_lookup_1 _ _ _ _ Hk).
  - rewrite !length_app, length_key_bytes, length_take. lia.
  - apply length_to_le_bytes.
Qed.

(** ** Sample devices *)

Module Sample.

(** A tier that holds a list of keys and evicts nothing; reserving an absent key
    adds it. *)
#[global] Instance list_tier : SwitchTier (list Z) := {
  tier_pin key _ t := (if bool_decide (key ∈ t) then inr tt else inl NotFound, t);
  tier_offset_of key t := (if bool_decide (key ∈ t) then inr 0 else inl NotFound, t);
  tier_reserve_write key t := (inr (mkReservation 4096 (bool_decide (key ∈ t))), key :: t);
  tier_commit_write _ t := (inr tt, t);
  tier_abort_write _ t := t;
  tier_plan_lookahead _ _ t := (inr tt, t);
}.

#[global] Program Instance list_presence : TierPresence (list Z) := {
  present t key := bool_decide (key ∈ t);
}.
Next Obligation. intros t key. cbn. by case_bool_decide. Qed.
Next Obligation. done. Qed.
Next Obligation. done. Qed.
Next Obligation. done. Qed.

(** A device that needs a number of polls, and a writer that logs its blocks. *)
#[global] Instance counting_device : SwapDevice nat := {
  begin_swap _ _ d := (inr tt, d);
  poll_swap d := match d with O => (inr tt, O) | S d' => (inl Busy, d') end;
}.

#[global] Instance log_writer : ManifestWriter (list (Z * list Z)) := {
  write_block offset payload w := (inr tt, (offset, payload) :: w);
}.

Definition switch := TopologySwitch (list Z) nat (list (Z * list Z)).

Definition old_recipe : TopologyRecipe := mkRecipe 11 1000 TensorParallel.

Definition new_recipe : TopologyRecipe := mkRecipe 22 1000 PipelineParallel.

Definition config : TopologySwitchConfig := mkConfig 5 2 2 1 40 1 1 0 old_recipe.

(** A fresh switch over a tier that holds the two blocks of sequence 7, with a
    device that needs two polls. *)
Definition fresh : switch :=
  mkSwitch config [kv_key 5 100; kv_key 5 101] 2%nat [] (replicate 2 default_slot) (replicate 4 0) (replicate 40 0)
    old_recipe old_recipe Steady 0 0 false None default_statistics.

(** The state a call leaves; the calls below all return. *)
Definition after {A} (m : M switch TopologySwitchError A) (s : switch) : switch :=
  match m s with Ret _ s' => s' | Fails _ s' => s' | _ => s end.

Definition tracked : switch := Eval vm_compute in after (track_sequence 7 11) fresh.

Definition named : switch := Eval vm_compute in after (set_sequence_kv 7 30 [100; 101]) tracked.

Definition at_boundary : switch := Eval vm_compute in after (sequence_at_boundary 7) named.

Definition begun : switch := Eval vm_compute in after (begin new_recipe) at_boundary.

Definition swapping : switch := Eval vm_compute in after (advances [1; 2]) begun.

Definition resumed : switch := Eval vm_compute in after (advance 3) swapping.

Lemma begun_reachable : rtc switch_step fresh begun.
Proof.
  eapply rtc_l; [eapply (step_ok _ (CallTrack 7 11)); vm_compute; reflexivity|].
  eapply rtc_l; [eapply (step_ok _ (CallSetKv 7 30 [100; 101])); vm_compute; reflexivity|].
  eapply rtc_l; [eapply (step_ok _ (CallBoundary 7)); vm_compute; reflexivity|].
  eapply rtc_l; [eapply (step_ok _ (CallBegin new_recipe)); vm_compute; reflexivity|]. apply rtc_refl.
Qed.

Lemma swapping_reachable : rtc switch_step fresh swapping.
Proof.
  etransitivity; [apply begun_reachable|].
  eapply rtc_l; [eapply (step_ok _ (CallAdvance 1)); vm_compute; reflexivity|].
  eapply rtc_l; [eapply (step_ok _ (CallAdvance 2)); vm_compute; reflexivity|]. apply rtc_refl.
Qed.

Lemma sample_cooperates : @cooperative (list Z) (list (Z * list Z)) _ _.
Proof. split_and!; intros; cbn; [by case_bool_decide; auto|by eexists|done|done]. Qed.

End Sample.

(** ** The theorems *)

Section theorems.
Context {T D W : Type} `{!SwitchTier T} `{!SwapDevice D} `{!ManifestWriter W}.
Context (c : TopologySwitchConfig) (t : T) (d : D) (w : W) (s0 s : TopologySwitch T D W).
Hypothesis Hsequences : 0 <= max_sequences c <= U32_MAX.
Hypothesis Hblocks : 0 <= max_blocks_per_sequence c <= U32_MAX.
Hypothesis Hmanifest : 0 <= manifest_block_bytes c <= U32_MAX.
Hypothesis Hnew : new c t d w tt = Ret s0 tt.
Hypothesis Hreach : rtc switch_step s0 s.

Lemma reachable_inv : switch_inv s.
Proof using Hsequences Hblocks Hmanifest Hnew Hreach.
  eapply switch_reachable_inv; [|exact Hreach]. eapply new_switch_spec; [..|exact Hnew]; done.
Qed.

(** C14. Whatever the tier, the swap device and the writer do, in every state reached
    from [new] by public calls and tier traffic: live sequences have distinct nonzero
    ids and their number is the sequence count; while a switch is under way the
    target recipe is not the running one; weights are swapped only with every live
    sequence at a token boundary and checkpointed (pins down, manifest committed);
    and the next call returns. *)
Theorem switch_invariant call :
  sequence_count s = countb is_live (sequences s) /\
  (forall i j q r, sequences s !! i = Some q -> sequences s !! j = Some r -> is_live q = true -> is_live r = true ->
     sequence_id q = sequence_id r -> i = j /\ sequence_id q <> 0) /\
  (state s <> Steady -> recipe_id (current_recipe s) <> recipe_id (target_recipe s)) /\
  (state s = Swap -> forall i q, sequences s !! i = Some q -> is_live q = true ->
     slot_state q = AtBoundary /\ checkpointed q = true) /\
  ((exists a s', switch_run call s = Ret a s') \/ (exists e s', switch_run call s = Fails e s')).
Proof using Hsequences Hblocks Hmanifest Hnew Hreach.
  pose proof reachable_inv as [Hwf Hph _]. split_and!.
  - apply Hwf.
  - intros i j q r Hq Hr Hlq Hlr Heq. split; [by eapply (wf_ids _ Hwf)|by eapply (wf_id_nonzero _ Hwf)].
  - apply Hph.
  - intros Hst i q Hq Hl. split.
    + pose proof (ph_drained _ Hph ltac:(congruence) ltac:(congruence) i q Hq). unfold is_live, is_free in Hl.
      by destruct (slot_state q).
    + eapply (ph_swap _ Hph); [auto|done| |done]. apply lookup_lt_Some in Hq. lia.
  - pose proof (switch_run_spec call s reachable_inv) as Hr. unfold wp in Hr.
    destruct (switch_run call s); [left; by eauto|right; by eauto|done|done].
Qed.

(** The running recipe changes only by completing a switch: any call keeps it,
    except an [advance] in mid-switch that leaves the machine Steady on the target,
    with no error pending and every sequence still tracked at a boundary,
    checkpointed, classified, and otherwise as it was. *)
Theorem switch_recipe_changes_whole call :
  match switch_run call s with
  | Ret _ s' => recipe_kept_or_switched call s s'
  | Fails _ s' => current_recipe s' = current_recipe s
  | _ => False
  end.
Proof using Hsequences Hblocks Hmanifest Hnew Hreach. pose proof (switch_run_spec call s reachable_inv) as H. unfold wp in H. destruct (switch_run call s); naive_solver. Qed.

(** C32. A drained switch completes: when the tier and the writer accept the
    checkpoint's requests, the device accepts the swap, and it reports the target
    resident after [n] busy polls, then [n + 1] calls of [advance] end in Steady on
    the target recipe with every tracked sequence classified. *)
Theorem switch_completes n steps d' :
  @cooperative T W _ _ -> state s = Quiesce -> quiesce_drained s = true ->
  begin_swap (current_recipe s) (target_recipe s) (swap_device s) = (inr tt, d') -> ready n d' ->
  length steps = S n ->
  exists s', advances steps s = Ret tt s' /\ switched s s'.
Proof using Hsequences Hblocks Hmanifest Hnew Hreach.
  intros Hco Hst Hd Hb Hr Hl. pose proof (draining_completes n steps d' s reachable_inv Hco Hst Hd Hb Hr Hl) as H.
  unfold wp in H. destruct (advances steps s) as [[] s'| | |]; [by eauto|done..].
Qed.

(** Resume classifies exactly.  When the device reports the target resident, each
    tracked sequence comes out of the switch Warm if it has blocks and the tier holds
    every one of them, and Recompute otherwise; nothing else about it changes, and
    untracked slots are untouched. *)
Theorem resume_classifies_exactly (P : TierPresence T) step_now d' :
  state s = Swap -> swap_turn s = (true, true, d') ->
  exists s', advance step_now s = Ret Steady s' /\
    forall i q, sequences s !! i = Some q -> exists q', sequences s' !! i = Some q' /\
      if is_live q then
        exists cls, q' = mkSlot (sequence_id q) (slot_recipe_id q) (position_tokens q) (block_count q) (slot_state q)
                      cls (pins_done q) (checkpointed q) /\ cls <> ClassPending /\
          (cls = Warm <-> block_count q <> 0 /\
             forallb (present (tier s)) (keys_of s (Z.of_nat i) (block_count q)) = true)
      else q' = q.
Proof using Hsequences Hblocks Hmanifest Hnew Hreach.
  intros Hst Htn. pose proof (advance_from_swap step_now d' s reachable_inv Hst Htn) as H.
  pose proof (advance_spec step_now s reachable_inv) as Ha. unfold wp in H, Ha.
  destruct (advance step_now s) as [st s'| | |]; [|done..].
  destruct H as [(Hs' & _) [_ Hcl]], Ha as (-> & _). exists s'. split; [by rewrite Hs'|].
  intros i q Hq. destruct (Hcl i q Hq) as (q' & Hq' & Hc). exists q'. split; [done|]. unfold classified in Hc.
  destruct (is_live q); [|done]. destruct Hc as (cls & [Hne Hw] & ->). exists cls. split_and!; [done|done|apply Hw].
Qed.

(** A manifest reads back as the sequence it was written for.  When
    [checkpoint_one] succeeds, the manifest it hands to the writer decodes to the
    slot's sequence id, recipe, position and exactly its block keys. *)
Theorem manifest_roundtrip slot q :
  0 <= slot -> sequences s !! Z.to_nat slot = Some q -> slot_u q ->
  Forall (fun k => 0 <= k <= U64_MAX) (block_keys s) ->
  match checkpoint_one slot s with
  | Ret _ s' => read_manifest (manifest_buffer s') =
      (sequence_id q, slot_recipe_id q, position_tokens q, keys_of s slot (block_count q))
  | Fails _ _ => True
  | _ => False
  end.
Proof using Hsequences Hblocks Hmanifest Hnew Hreach.
  intros Hslot Hq Hu Hk. pose proof (inv_tables _ reachable_inv) as Hwf.
  pose proof (checkpoint_one_spec slot q s Hwf Hslot Hq) as H. unfold wp in H.
  destruct (checkpoint_one slot s); [|done..]. destruct H as (_ & _ & _ & _ & ->).
  apply read_manifest_of; [done| |].
  - unfold keys_of. by apply Forall_take, Forall_drop.
  - apply length_keys_of; [done|by eapply slot_in_range|by eapply wf_counts].
Qed.

End theorems.

(** ** Witnesses *)

Lemma sample_new : new Sample.config [kv_key 5 100; kv_key 5 101] 2%nat [] tt = Ret Sample.fresh tt.
Proof. vm_compute. reflexivity. Qed.

Lemma switch_invariant_witness :
  state Sample.swapping = Swap /\ sequence_count Sample.swapping = 1 /\
  forall i q, sequences Sample.swapping !! i = Some q -> is_live q = true ->
    slot_state q = AtBoundary /\ checkpointed q = true.
Proof.
  split; [reflexivity|]. split; [reflexivity|].
  apply (switch_invariant Sample.config [kv_key 5 100; kv_key 5 101] 2%nat [] Sample.fresh Sample.swapping
    ltac:(cbn; lia) ltac:(cbn; lia) ltac:(cbn; lia) sample_new Sample.swapping_reachable (CallAdvance 3)). reflexivity.
Defined.

Lemma switch_recipe_changes_whole_witness :
  recipe_id (current_recipe Sample.swapping) = 11 /\ recipe_id (current_recipe Sample.resumed) = 22 /\
  recipe_kept_or_switched (CallAdvance 3) Sample.swapping Sample.resumed.
Proof.
  split; [reflexivity|]. split; [reflexivity|].
  pose proof (switch_recipe_changes_whole Sample.config [kv_key 5 100; kv_key 5 101] 2%nat [] Sample.fresh Sample.swapping
    ltac:(cbn; lia) ltac:(cbn; lia) ltac:(cbn; lia) sample_new Sample.swapping_reachable (CallAdvance 3)) as H.
  assert (switch_run (CallAdvance 3) Sample.swapping = Ret tt Sample.resumed) as E by (vm_compute; reflexivity).
  by rewrite E in H.
Defined.

Lemma switch_completes_witness :
  exists s', advances [1; 2; 3] Sample.begun = Ret tt s' /\ switched Sample.begun s'.
Proof.
  apply (switch_completes Sample.config [kv_key 5 100; kv_key 5 101] 2%nat [] Sample.fresh Sample.begun
    ltac:(cbn; lia) ltac:(cbn; lia) ltac:(cbn; lia) sample_new Sample.begun_reachable 2 [1; 2; 3] 2%nat
    Sample.sample_cooperates); first [reflexivity|repeat split].
Defined.

Lemma resume_classifies_exactly_witness :
  exists s', advance 3 Sample.swapping = Ret Steady s' /\
    option_map resume_class (sequences s' !! 0%nat) = Some Warm /\
    forallb (present (tier Sample.swapping)) (keys_of Sample.swapping 0 2) = true.
Proof.
  destruct (resume_classifies_exactly Sample.config [kv_key 5 100; kv_key 5 101] 2%nat [] Sample.fresh Sample.swapping
    ltac:(cbn; lia) ltac:(cbn; lia) ltac:(cbn; lia) sample_new Sample.swapping_reachable Sample.list_presence 3 O
    eq_refl ltac:(vm_compute; reflexivity)) as (s' & Hs' & Hcl).
  exists s'. split; [exact Hs'|]. vm_compute in Hs'. injection Hs' as <-. split; vm_compute; reflexivity.
Defined.

Lemma manifest_roundtrip_witness :
  exists s', checkpoint_one 0 Sample.begun = Ret tt s' /\
    read_manifest (manifest_buffer s') = (7, 11, 30, [kv_key 5 100; kv_key 5 101]).
Proof.
  assert (checkpoint_one 0 Sample.begun = Ret tt (Sample.after (checkpoint_one 0) Sample.begun)) as E
    by (vm_compute; reflexivity).
  exists (Sample.after (checkpoint_one 0) Sample.begun). split; [exact E|].
  assert (sequences Sample.begun !! Z.to_nat 0 = Some (mkSlot 7 11 30 2 AtBoundary ClassPending false false)) as Hq
    by reflexivity.
  pose proof (manifest_roundtrip Sample.config [kv_key 5 100; kv_key 5 101] 2%nat [] Sample.fresh Sample.begun
    ltac:(cbn; lia) ltac:(cbn; lia) ltac:(cbn; lia) sample_new Sample.begun_reachable 0 _ ltac:(lia) Hq
    ltac:(unfold slot_u; cbn; lia) ltac:(repeat constructor; vm_compute; done)) as H.
  rewrite E in H. etransitivity; [exact H|]. vm_compute. reflexivity.
Defined.

(** ** What a second switch does

    [resume_one] leaves a sequence [AtBoundary] and [checkpointed]: after a completed
    switch its keys can no longer be updated, and the next switch neither waits for
    it to reach a boundary nor checkpoints it again. *)
Theorem second_switch_skips_resumed_sequences :
  set_sequence_kv 7 40 [100; 102] Sample.resumed = Fails Busy Sample.resumed /\
  exists s', (do! begin Sample.old_recipe in advance 4) Sample.resumed = Ret Steady s' /\
    sequence_count s' = 1 /\ swaps_started (statistics s') = 2 /\ manifest_writes (statistics s') = 1.
Proof. split; [vm_compute; reflexivity|]. eexists. split_and!; vm_compute; reflexivity. Qed.

(** A tier whose second pin fails once. *)
Definition flaky_tier : SwitchTier nat := {|
  tier_pin _ pinned t := if pinned then (if Nat.eqb t 1 then inl IoError else inr tt, S t) else (inr tt, t);
  tier_offset_of _ t := (inr 0, t);
  tier_reserve_write _ t := (inr (mkReservation 0 false), t);
  tier_commit_write _ t := (inr tt, t);
  tier_abort_write _ t := t;
  tier_plan_lookahead _ _ t := (inr tt, t);
|}.

Definition flaky_begun : TopologySwitch nat nat (list (Z * list Z)) :=
  mkSwitch Sample.config 0%nat 0%nat [] (sequences Sample.begun) (block_keys Sample.begun) (replicate 40 0)
    Sample.old_recipe Sample.new_recipe Quiesce 1 0 false None default_statistics.

(** When a pin fails in the middle of a sequence's keys, the retry pins the earlier
    keys again: three pins are counted for a sequence of two blocks. *)
Theorem checkpoint_retry_repins :
  match @advances nat nat (list (Z * list Z)) flaky_tier _ _ [1; 2] flaky_begun with
  | Ret _ s' => state s' = Steady /\ blocks_pinned (statistics s') = 3 /\ tier s' = 4%nat
  | _ => False
  end.
Proof. vm_compute. repeat split. Qed.
