(* ===== verification/WorkTransaction.v ===== *)
(** * Work transactions: statuses, identities and byte cursors

    The parts of the control plane that the transaction ledger and the socket codecs
    share: the [SparkStatus] code space
    (src/crates/spark-serve/src/serving_engine/status.rs and
    src/crates/spark-node/src/rank_daemon/status.rs), the transaction identity with
    its validation and FNV-1a fingerprint (the [work_transaction] module of
    src/crates/spark-sched/src/work_control.rs), and the [Reader] cursor with the
    identity codec (src/crates/spark-node/src/rank_daemon/wire.rs). *)

From S2P Require Import Prelude Bytes.

(** ** Statuses *)

Inductive SparkStatus :=
| Ok | InvalidArgument | CapacityExceeded | NotFound | IoError | ParseError | SchemaError | HashMismatch
| ModuleNotValidated | ValidationFailed | AbiMismatch | TargetMismatch | CompilerError | DriverLoadError
| RouteNotFound | Busy | Duplicate | InternalError | Pending | Unsupported.

#[export] Instance SparkStatus_dec : EqDecision SparkStatus.
Proof. solve_decision. Defined.

(** [status as u32]. *)
Definition status_code (status : SparkStatus) : Z :=
  match status with
  | Ok => 0 | InvalidArgument => 1 | CapacityExceeded => 2 | NotFound => 3 | IoError => 4
  | ParseError => 5 | SchemaError => 6 | HashMismatch => 7 | ModuleNotValidated => 8
  | ValidationFailed => 9 | AbiMismatch => 10 | TargetMismatch => 11 | CompilerError => 12
  | DriverLoadError => 13 | RouteNotFound => 14 | Busy => 15 | Duplicate => 16
  | InternalError => 17 | Pending => 18 | Unsupported => 19
  end.

Definition status_from_code (code : Z) : option SparkStatus :=
  match code with
  | 0 => Some Ok | 1 => Some InvalidArgument | 2 => Some CapacityExceeded | 3 => Some NotFound
  | 4 => Some IoError | 5 => Some ParseError | 6 => Some SchemaError | 7 => Some HashMismatch
  | 8 => Some ModuleNotValidated | 9 => Some ValidationFailed | 10 => Some AbiMismatch
  | 11 => Some TargetMismatch | 12 => Some CompilerError | 13 => Some DriverLoadError
  | 14 => Some RouteNotFound | 15 => Some Busy | 16 => Some Duplicate | 17 => Some InternalError
  | 18 => Some Pending | 19 => Some Unsupported
  | _ => None
  end.

(** ** Identities *)

Definition ABI_VERSION : Z := 2.

Definition ACK_MAGIC : Z := 0x4B415457.

Definition PHASE_PREFILL : Z := 1.

Definition PHASE_DECODE : Z := 2.

Definition PHASE_VERIFY : Z := 3.

Definition PHASE_RELEASE : Z := 4.

Definition PHASE_CANCEL : Z := 5.

Definition PHASE_KNOWN_MAX : Z := PHASE_CANCEL.

Definition FINGERPRINT_OFFSET : Z := 14695981039346656037.

Definition FINGERPRINT_PRIME : Z := 1099511628211.

Definition phase_is_valid (phase : Z) : bool := (PHASE_PREFILL <=? phase) && (phase <=? PHASE_KNOWN_MAX).

Definition fingerprint_bytes (data : list Z) : Z :=
  match data with
  | [] => 0
  | _ =>
      let hash := foldl (fun hash b => Z.lxor hash b *u64 FINGERPRINT_PRIME) FINGERPRINT_OFFSET data in
      if hash =? 0 then 1 else hash
  end.

Record Identity := mkIdentity {
  control_generation : Z;
  transaction_id : Z;
  dispatch_generation : Z;
  request_generation : Z;
  step_generation : Z;
  step_chunk_index : Z;
  step_chunk_count : Z;
  transaction_phase : Z;
}.

#[export] Instance Identity_dec : EqDecision Identity.
Proof. solve_decision. Defined.

Definition default_identity : Identity := mkIdentity 0 0 0 0 0 0 0 0.

(** [validate_identity(identity).is_ok()]: its only error is [InvalidArgument]. *)
Definition validate_identity (identity : Identity) : bool :=
  negb ((control_generation identity =? 0)
    || (transaction_id identity =? 0)
    || (dispatch_generation identity =? 0)
    || (request_generation identity =? 0)
    || (step_generation identity =? 0)
    || (step_chunk_count identity =? 0)
    || (step_chunk_count identity <=? step_chunk_index identity)
    || negb (phase_is_valid (transaction_phase identity))).

(** The fields of an identity are machine words. *)
Definition identity_words (i : Identity) : Prop :=
  0 <= control_generation i <= U64_MAX /\ 0 <= transaction_id i <= U64_MAX /\
  0 <= dispatch_generation i <= U64_MAX /\ 0 <= request_generation i <= U64_MAX /\
  0 <= step_generation i <= U64_MAX /\ 0 <= step_chunk_index i <= U32_MAX /\
  0 <= step_chunk_count i <= U32_MAX /\ 0 <= transaction_phase i <= U32_MAX.

(** ** The byte cursor *)

Record Reader := mkReader { bytes : list Z; offset : Z }.

#[export] Instance Reader_eta : RecordEta Reader := fun r => mkReader (bytes r) (offset r).

(** [take], [skip], [u32] and [u64] return an [Option]: the error [tt] is [None]. *)
Definition reader_take (count : Z) : M Reader unit (list Z) :=
  let! r := gets (fun r => r) in
  let stop := offset r +u64 count in
  if (offset r <=? stop) && (stop <=? Z.of_nat (length (bytes r))) then
    do! modify (fun r => r <| offset := offset r +u64 count |>) in
    ret (take (Z.to_nat (stop - offset r)) (drop (Z.to_nat (offset r)) (bytes r)))
  else throw tt.

Definition reader_skip (count : Z) : M Reader unit unit :=
  let! _bytes := reader_take count in ret tt.

Definition reader_u32 : M Reader unit Z :=
  let! b := reader_take 4 in
  if (length b =? 4)%nat then ret (from_le_bytes b) else throw tt.

Definition reader_u64 : M Reader unit Z :=
  let! b := reader_take 8 in
  if (length b =? 8)%nat then ret (from_le_bytes b) else throw tt.

(** [option.unwrap_or(d)] and [option.ok_or(error)?]. *)
Definition unwrap_or {S E A} (d : A) (m : M S unit A) : M S E A := catch m (fun _ => ret d).

Definition ok_or {S E A} (error : E) (m : M S unit A) : M S E A := catch m (fun _ => throw error).

(** Run a computation on a local variable initialised to [t]. *)
Definition with_local {S T E A} (t : T) (m : M T E A) : M S E A :=
  fun s => match m t with
           | Ret a _ => Ret a s
           | Fails e _ => Fails e s
           | Panic => Panic
           | OutOfFuel => OutOfFuel
           end.

(** ** The identity codec *)

Definition IDENTITY_WIRE_BYTES : Z := 56.

Definition identity_to_wire (identity : Identity) : list Z :=
  le64 (control_generation identity) ++
  le64 (transaction_id identity) ++
  le64 (dispatch_generation identity) ++
  le64 (request_generation identity) ++
  le64 (step_generation identity) ++
  le32 (step_chunk_index identity) ++
  le32 (step_chunk_count identity) ++
  le32 (transaction_phase identity) ++
  le32 0.

Definition identity_from_wire {S E} (wire : list Z) : M S E Identity :=
  with_local (mkReader wire 0) (
    let! control_generation := unwrap_or 0 reader_u64 in
    let! transaction_id := unwrap_or 0 reader_u64 in
    let! dispatch_generation := unwrap_or 0 reader_u64 in
    let! request_generation := unwrap_or 0 reader_u64 in
    let! step_generation := unwrap_or 0 reader_u64 in
    let! step_chunk_index := unwrap_or 0 reader_u32 in
    let! step_chunk_count := unwrap_or 0 reader_u32 in
    let! transaction_phase := unwrap_or 0 reader_u32 in
    ret (mkIdentity control_generation transaction_id dispatch_generation request_generation
           step_generation step_chunk_index step_chunk_count transaction_phase)).

Definition identity_fingerprint (identity : Identity) : Z := fingerprint_bytes (identity_to_wire identity).

(** ** What a decoder consumes

    [reads m enc a]: wherever the cursor stands in a buffer, when the next bytes are
    [enc] the decoder [m] returns [a] and leaves the cursor just behind them. *)

Definition reads {E A} (m : M Reader E A) (enc : list Z) (a : A) : Prop :=
  forall pre post, Z.of_nat (length (pre ++ enc ++ post)) <= ISIZE_MAX ->
  m (mkReader (pre ++ enc ++ post) (Z.of_nat (length pre))) =
  Ret a (mkReader (pre ++ enc ++ post) (Z.of_nat (length pre) + Z.of_nat (length enc))).

Lemma reads_ret {E A} (a : A) : reads (E := E) (ret a) [] a.
Proof. intros pre post _. unfold ret. simpl. by rewrite Z.add_0_r. Qed.

Lemma reads_bind {E A B} (m : M Reader E A) (k : A -> M Reader E B) e1 e2 a b :
  reads m e1 a -> reads (k a) e2 b -> reads (bind m k) (e1 ++ e2) b.
Proof.
  intros H1 H2 pre post Hlen. unfold bind. rewrite <-app_assoc in Hlen |- *.
  rewrite (H1 pre (e2 ++ post)) by done.
  specialize (H2 (pre ++ e1) post). rewrite <-app_assoc in H2. specialize (H2 Hlen).
  rewrite length_app, Nat2Z.inj_add in H2. rewrite H2. rewrite length_app. do 2 f_equal. lia.
Qed.

Lemma reads_catch {E F A} (m : M Reader E A) (h : E -> M Reader F A) enc a :
  reads m enc a -> reads (catch m h) enc a.
Proof. intros H pre post Hlen. unfold catch. by rewrite (H pre post Hlen). Qed.

Lemma reads_take enc n : Z.of_nat (length enc) = n -> reads (reader_take n) enc enc.
Proof.
  intros <- pre post Hlen. rewrite !length_app in Hlen.
  unfold reader_take, bind, gets, modify, ret. cbn [bytes offset].
  rewrite u64_small by lia. rewrite !length_app.
  destruct (Z.leb_spec (Z.of_nat (length pre)) (Z.of_nat (length pre) + Z.of_nat (length enc))); [|lia].
  destruct (Z.leb_spec (Z.of_nat (length pre) + Z.of_nat (length enc))
    (Z.of_nat (length pre + (length enc + length post)))); [|lia].
  cbn [andb]. unfold set_field. cbn. rewrite u64_small by lia. f_equal.
  rewrite Nat2Z.id, drop_app_length. rewrite take_app_le by lia.
  apply take_ge. lia.
Qed.

Lemma reads_skip enc n : Z.of_nat (length enc) = n -> reads (reader_skip n) enc tt.
Proof.
  intros. unfold reader_skip. rewrite <-(app_nil_r enc).
  eapply reads_bind; [by apply reads_take|apply reads_ret].
Qed.

Lemma reads_u32 x : 0 <= x <= U32_MAX -> reads reader_u32 (le32 x) x.
Proof.
  intros. unfold reader_u32. rewrite <-(app_nil_r (le32 x)).
  eapply reads_bind; [by apply reads_take|]. rewrite length_to_le_bytes, Nat.eqb_refl, le32_roundtrip by done.
  apply reads_ret.
Qed.

Lemma reads_u64 x : 0 <= x <= U64_MAX -> reads reader_u64 (le64 x) x.
Proof.
  intros. unfold reader_u64. rewrite <-(app_nil_r (le64 x)).
  eapply reads_bind; [by apply reads_take|]. rewrite length_to_le_bytes, Nat.eqb_refl, le64_roundtrip by done.
  apply reads_ret.
Qed.

(** A decoder run on a buffer that starts with what it consumes. *)
Lemma with_local_reads {S E A} (m : M Reader E A) enc post a (s : S) :
  reads m enc a -> Z.of_nat (length (enc ++ post)) <= ISIZE_MAX ->
  with_local (mkReader (enc ++ post) 0) m s = Ret a s.
Proof. intros H Hlen. unfold with_local. specialize (H [] post Hlen).
  change (Z.of_nat (length [])) with 0 in H. cbn [app] in H. by rewrite H. Qed.

(** Split a decoding goal along the sequence of the encoder. *)
Ltac reads_step :=
  lazymatch goal with
  | |- reads (bind _ _) _ _ => eapply reads_bind
  | |- reads (unwrap_or _ _) _ _ => apply reads_catch
  | |- reads (ok_or _ _) _ _ => apply reads_catch
  | |- reads reader_u32 (le32 _) _ => apply reads_u32
  | |- reads reader_u64 (le64 _) _ => apply reads_u64
  end.

Lemma length_identity_to_wire identity : length (identity_to_wire identity) = 56%nat.
Proof. unfold identity_to_wire. rewrite !length_app, !length_to_le_bytes. done. Qed.

Lemma identity_wire_roundtrip {S E} identity (s : S) :
  identity_words identity -> identity_from_wire (E := E) (identity_to_wire identity) s = Ret identity s.
Proof.
  intros (H1&H2&H3&H4&H5&H6&H7&H8). unfold identity_from_wire.
  assert (identity_to_wire identity = (le64 (control_generation identity) ++
    le64 (transaction_id identity) ++ le64 (dispatch_generation identity) ++
    le64 (request_generation identity) ++ le64 (step_generation identity) ++
    le32 (step_chunk_index identity) ++ le32 (step_chunk_count identity) ++
    le32 (transaction_phase identity) ++ []) ++ le32 0) as Hsplit.
  { unfold identity_to_wire. rewrite <-!app_assoc. done. }
  rewrite Hsplit. apply with_local_reads.
  - repeat (reads_step; [repeat reads_step; eassumption|cbn beta]). destruct identity. apply reads_ret.
  - rewrite <-Hsplit, length_identity_to_wire. lia.
Qed.

Lemma status_code_roundtrip status : status_from_code (status_code status) = Some status.
Proof. by destruct status. Qed.

Lemma status_from_code_inv code status : status_from_code code = Some status -> code = status_code status.
Proof.
  unfold status_from_code. intros H.
  repeat match type of H with
  | match ?x with _ => _ end = _ => destruct x; try discriminate
  end; by injection H as <-.
Qed.

Lemma fingerprint_bytes_range data : 0 <= fingerprint_bytes data <= U64_MAX.
Proof.
  destruct data as [|b data]; [simpl; lia|]. unfold fingerprint_bytes.
  assert (forall h l, 0 <= h <= U64_MAX ->
    0 <= foldl (fun hash b => Z.lxor hash b *u64 FINGERPRINT_PRIME) h l <= U64_MAX) as Hfold.
  { intros h l. revert h. induction l as [|x l IH]; intros h Hh; cbn [foldl]; [done|]. apply IH, u64_range. }
  specialize (Hfold FINGERPRINT_OFFSET (b :: data)). cbv zeta.
  destruct (_ =? 0); [lia|]. apply Hfold. vm_compute. split; discriminate.
Qed.

Lemma fingerprint_bytes_nonzero data : data <> [] -> fingerprint_bytes data <> 0.
Proof.
  destruct data as [|b data]; [done|]. intros _. unfold fingerprint_bytes. cbv zeta.
  match goal with |- context [?h =? 0] => destruct (Z.eqb_spec h 0) end; [lia|done].
Qed.
