(* ===== verification/WorkLedger.v ===== *)
(** * The work transaction ledger

    src/crates/spark-node/src/rank_daemon/work_ledger.rs: the rank daemon's record of
    the transactions of a control generation, an open-addressing table with linear
    probing from the identity's fingerprint.  An [EMPTY] entry ends a probe,
    tombstones are reused by insertions, and the least recently observed terminal
    entry is recycled when the table is full.  This file holds the definitions;
    [WorkLedgerProps] their properties. *)

From S2P Require Import Prelude Bytes WorkTransaction.

Definition STATE_EMPTY : Z := 0.

Definition STATE_PREPARED : Z := 1.

Definition STATE_ACCEPTED : Z := 2.

Definition STATE_EXECUTING : Z := 3.

Definition STATE_COMMITTED : Z := 4.

Definition STATE_CANCELLED : Z := 5.

Definition STATE_FAILED : Z := 6.

Definition STATE_TOMBSTONE : Z := 7.

Definition INVALID_INDEX : Z := U32_MAX.

Definition state_is_terminal (state : Z) : bool :=
  (state =? STATE_COMMITTED) || (state =? STATE_CANCELLED) || (state =? STATE_FAILED).

Definition state_is_stored (state : Z) : bool := (STATE_PREPARED <=? state) && (state <=? STATE_FAILED).

Definition transition_is_legal (current target : Z) : bool :=
  if current =? target then true
  else if current =? STATE_PREPARED then
    (target =? STATE_ACCEPTED) || (target =? STATE_CANCELLED) || (target =? STATE_FAILED)
  else if current =? STATE_ACCEPTED then
    (target =? STATE_EXECUTING) || (target =? STATE_CANCELLED) || (target =? STATE_FAILED)
  else if current =? STATE_EXECUTING then
    (target =? STATE_COMMITTED) || (target =? STATE_CANCELLED) || (target =? STATE_FAILED)
  else false.

Record LedgerEntry := mkEntry {
  identity : Identity;
  payload_fingerprint : Z;
  last_observed_epoch : Z;
  state : Z;
  terminal_status : Z;
}.

#[export] Instance LedgerEntry_eta : RecordEta LedgerEntry := fun e =>
  mkEntry (identity e) (payload_fingerprint e) (last_observed_epoch e) (state e) (terminal_status e).

Definition default_entry : LedgerEntry := mkEntry default_identity 0 0 0 0.

Inductive Observation := New | ReplayActive | ReplayTerminal | Conflict.

Record TransactionLedger := mkLedger {
  entries : list LedgerEntry;
  entry_count : Z;
  active_entry_count : Z;
  terminal_entry_count : Z;
  tombstone_entry_count : Z;
  epoch : Z;
  active_control_generation : Z;
}.

#[export] Instance TransactionLedger_eta : RecordEta TransactionLedger := fun l =>
  mkLedger (entries l) (entry_count l) (active_entry_count l) (terminal_entry_count l)
    (tombstone_entry_count l) (epoch l) (active_control_generation l).

Abbreviation LM := (M TransactionLedger SparkStatus).

Definition new (entry_capacity : Z) : M unit SparkStatus TransactionLedger :=
  if entry_capacity =? 0 then throw InvalidArgument
  else ret (mkLedger (replicate (Z.to_nat entry_capacity) default_entry) 0 0 0 0 0 0).

Definition entry_capacity (l : TransactionLedger) : Z := u32 (Z.of_nat (length (entries l))).

Definition validate : LM unit :=
  let! l := gets (fun l => l) in
  let capacity := entry_capacity l in
  if (capacity =? 0)
    || (capacity <? entry_count l)
    || (entry_count l <? active_entry_count l)
    || (entry_count l <? terminal_entry_count l)
    || (capacity <? tombstone_entry_count l)
    || negb (active_entry_count l +u32 terminal_entry_count l =? entry_count l)
  then throw InvalidArgument else ret tt.

Definition start_index (l : TransactionLedger) (id : Identity) : Z :=
  identity_fingerprint id mod entry_capacity l.

Definition find_internal (id : Identity) : LM Z :=
  let! l := gets (fun l => l) in
  let capacity := entry_capacity l in
  let start := start_index l id in
  let! found := for_return (range 0 capacity) (fun probe_index =>
    let entry_index := (start +u32 probe_index) mod capacity in
    let! entry := index (entries l) entry_index in
    if state entry =? STATE_EMPTY then throw NotFound
    else if negb (state entry =? STATE_TOMBSTONE) && bool_decide (identity entry = id)
    then ret (Some entry_index) else ret None) in
  match found with Some entry_index => ret entry_index | None => throw NotFound end.

Definition reset (control_generation : Z) : LM unit :=
  modify (fun l => mkLedger (replicate (length (entries l)) default_entry) 0 0 0 0 0 control_generation).

Definition prepare_control_generation (control_generation : Z) : LM unit :=
  let! l := gets (fun l => l) in
  if active_control_generation l =? 0 then reset control_generation
  else if control_generation =? active_control_generation l then ret tt
  else if control_generation <? active_control_generation l then throw ValidationFailed
  else if negb (active_entry_count l =? 0) then throw Busy
  else reset control_generation.

(** The scan of [recycle_oldest_terminal_entry]: the oldest epoch and its index. *)
Definition oldest_round (x : Z * LedgerEntry) (best : Z * Z) : Z * Z :=
  let '(entry_index, entry) := x in
  if state_is_terminal (state entry) && (last_observed_epoch entry <? fst best)
  then (last_observed_epoch entry, u32 entry_index) else best.

Definition recycle_oldest_terminal_entry : LM unit :=
  let! l := gets (fun l => l) in
  let oldest_index := snd (foldl (fun best x => oldest_round x best) (U64_MAX, INVALID_INDEX)
    (zip (range 0 (Z.of_nat (length (entries l)))) (entries l))) in
  if oldest_index =? INVALID_INDEX then throw CapacityExceeded
  else
    let! _entry := index (entries l) oldest_index in
    do! modify (fun l => l <| entries := upd_nth oldest_index
          (fun _ => default_entry <| state := STATE_TOMBSTONE |>) (entries l) |>) in
    modify (fun l => l <| entry_count := entry_count l -u32 1 |>
      <| terminal_entry_count := terminal_entry_count l -u32 1 |>
      <| tombstone_entry_count := tombstone_entry_count l +u32 1 |>).

(** The first tombstone of the probe is taken when it ends without a match. *)
Definition take_tombstone (index : Z) : LM Z :=
  do! modify (fun l => l <| tombstone_entry_count := tombstone_entry_count l -u32 1 |>) in ret index.

Definition insertion_round (l : TransactionLedger) (start probe_index first_tombstone_index : Z)
    : LM (flow Z Z) :=
  let entry_index := (start +u32 probe_index) mod entry_capacity l in
  let! entry := index (entries l) entry_index in
  if (state entry =? STATE_TOMBSTONE) && (first_tombstone_index =? INVALID_INDEX)
  then ret (Continue entry_index)
  else if state entry =? STATE_EMPTY then
    if negb (first_tombstone_index =? INVALID_INDEX)
    then let! i := take_tombstone first_tombstone_index in ret (Break i)
    else ret (Break entry_index)
  else ret (Continue first_tombstone_index).

Definition select_insertion_entry (id : Identity) : LM Z :=
  let! l := gets (fun l => l) in
  let start := start_index l id in
  let! r := for_flow (range 0 (entry_capacity l)) (insertion_round l start) INVALID_INDEX in
  match r with
  | Break i => ret i
  | Continue first_tombstone_index =>
      if negb (first_tombstone_index =? INVALID_INDEX)
      then take_tombstone first_tombstone_index else throw CapacityExceeded
  end.

Definition bump_epoch : LM unit :=
  do! modify (fun l => l <| epoch := epoch l +u64 1 |>) in
  modify (fun l => if epoch l =? 0 then l <| epoch := 1 |> else l).

(** A new transaction takes the selected entry. *)
Definition insert_entry (id : Identity) (payload : Z) : LM (Observation * option Z) :=
  let! entry_index := catch (select_insertion_entry id) (fun status =>
    match status with
    | CapacityExceeded => do! recycle_oldest_terminal_entry in select_insertion_entry id
    | _ => throw status
    end) in
  let! l := gets (fun l => l) in
  let! _entry := index (entries l) entry_index in
  do! modify (fun l => l <| entries := upd_nth entry_index
        (fun _ => mkEntry id payload (epoch l) STATE_PREPARED (status_code Pending)) (entries l) |>) in
  do! modify (fun l => l <| entry_count := entry_count l +u32 1 |>
        <| active_entry_count := active_entry_count l +u32 1 |>) in
  ret (New, Some entry_index).

(** [Ok(index)], [Err(NotFound)] or another error of [find_internal]. *)
Definition lookup_internal (id : Identity) : LM (option Z) :=
  catch (let! i := find_internal id in ret (Some i)) (fun status =>
    match status with NotFound => ret None | _ => throw status end).

Definition check_identity (id : Identity) : LM unit :=
  if validate_identity id then ret tt else throw InvalidArgument.

Definition observe (id : Identity) (payload : Z) : LM (Observation * option Z) :=
  if payload =? 0 then throw InvalidArgument
  else
    do! validate in
    do! check_identity id in
    do! prepare_control_generation (control_generation id) in
    do! bump_epoch in
    let! found := lookup_internal id in
    match found with
    | Some entry_index =>
        let! l := gets (fun l => l) in
        let! entry := index (entries l) entry_index in
        do! modify (fun l => l <| entries := upd_nth entry_index
              (fun e => e <| last_observed_epoch := epoch l |>) (entries l) |>) in
        if negb (payload_fingerprint entry =? payload) then ret (Conflict, Some entry_index)
        else ret (if state_is_terminal (state entry) then ReplayTerminal else ReplayActive, Some entry_index)
    | None => insert_entry id payload
    end.

Definition transition (id : Identity) (target_state : Z) (status : SparkStatus) : LM unit :=
  do! validate in
  do! check_identity id in
  if negb (state_is_stored target_state) then throw InvalidArgument
  else
    let! entry_index := find_internal id in
    let! l := gets (fun l => l) in
    let! entry := index (entries l) entry_index in
    if state_is_terminal (state entry) then
      if (state entry =? target_state) && (terminal_status entry =? status_code status)
      then throw Duplicate else throw InvalidArgument
    else if negb (transition_is_legal (state entry) target_state) then throw InvalidArgument
    else
      do! bump_epoch in
      let target_is_terminal := state_is_terminal target_state in
      do! modify (fun l => l <| entries := upd_nth entry_index
            (fun e => e <| last_observed_epoch := epoch l |>) (entries l) |>) in
      do! (if target_is_terminal then
             modify (fun l => l <| active_entry_count := active_entry_count l -u32 1 |>
               <| terminal_entry_count := terminal_entry_count l +u32 1 |>)
           else ret tt) in
      modify (fun l => l <| entries := upd_nth entry_index
        (fun e => e <| state := target_state |>
          <| terminal_status := if target_is_terminal then status_code status else status_code Pending |>)
        (entries l) |>).

Definition find (id : Identity) : LM LedgerEntry :=
  do! validate in
  do! check_identity id in
  let! entry_index := find_internal id in
  let! l := gets (fun l => l) in
  index (entries l) entry_index.

(** ** The daemon's wrappers *)

Definition distributed_observe (id : Identity) (payload : Z) : LM Z :=
  let! r := observe id payload in
  match r with
  | (New, Some entry_index) => ret entry_index
  | (Conflict, _) => throw ValidationFailed
  | (ReplayActive, _) | (ReplayTerminal, _) => throw Duplicate
  | _ => throw InternalError
  end.

Definition distributed_transition (id : Identity) (payload target_state : Z) (status : SparkStatus) : LM unit :=
  let! entry := find id in
  if negb (payload_fingerprint entry =? payload) then throw ValidationFailed
  else
    catch (transition id target_state status) (fun e =>
      match e with InvalidArgument => throw ValidationFailed | _ => throw e end).

Definition distributed_find (id : Identity) (payload : Z) : LM LedgerEntry :=
  let! entry := find id in
  if negb (payload_fingerprint entry =? payload) then throw ValidationFailed else ret entry.
