(* ===== verification/WorkLedgerInv.v ===== *)
(** * The transaction ledger: invariant and specifications

    The invariant of the open-addressing table and the specifications of its
    operations against the map from identities to recorded transactions.  A table has
    at most [2^31] entries: beyond that the [u32] sum [start_index + probe_index] of a
    probe wraps. *)

From S2P Require Import Prelude Bytes WorkTransaction WorkLedger.

(** ** The map a table stands for *)

Definition stored (e : LedgerEntry) : bool := state_is_stored (state e).

Definition terminal (e : LedgerEntry) : bool := state_is_terminal (state e).

Definition active (e : LedgerEntry) : bool := stored e && negb (terminal e).

Definition buried (e : LedgerEntry) : bool := state e =? STATE_TOMBSTONE.

Definition holds (id : Identity) (e : LedgerEntry) : bool := stored e && bool_decide (identity e = id).

(** The transaction recorded under an identity. *)
Definition view (l : TransactionLedger) (id : Identity) : option LedgerEntry :=
  List.find (holds id) (entries l).

(** Only [vm_compute] evaluates a fingerprint. *)
Opaque identity_fingerprint.

(** The [k]-th entry a probe for [id] visits. *)
Definition probe_slot (cap : Z) (id : Identity) (k : Z) : Z := (identity_fingerprint id mod cap + k) mod cap.

Definition occupied (es : list LedgerEntry) (i : Z) : Prop :=
  exists e, es !! Z.to_nat i = Some e /\ state e <> STATE_EMPTY.

(** Nothing ends a probe for [id] before it reaches [i]. *)
Definition reached_by (es : list LedgerEntry) (id : Identity) (i : Z) : Prop :=
  let cap := Z.of_nat (length es) in
  exists d, 0 <= d < cap /\ i = probe_slot cap id d /\ forall k, 0 <= k < d -> occupied es (probe_slot cap id k).

Record table_ok (es : list LedgerEntry) (generation last : Z) : Prop := {
  ok_capacity : 0 < Z.of_nat (length es) <= 2147483648;
  ok_state i e : es !! i = Some e -> 0 <= state e <= STATE_TOMBSTONE;
  ok_probe i e : es !! i = Some e -> stored e = true -> reached_by es (identity e) (Z.of_nat i);
  ok_unique i j e f :
    es !! i = Some e -> es !! j = Some f -> stored e = true -> stored f = true -> identity e = identity f -> i = j;
  ok_entry i e : es !! i = Some e -> stored e = true ->
    control_generation (identity e) = generation /\ validate_identity (identity e) = true /\
    payload_fingerprint e <> 0 /\ 0 <= last_observed_epoch e <= last /\
    (terminal e = false -> terminal_status e = status_code Pending);
}.

Record ledger_wf (l : TransactionLedger) : Prop := {
  wf_table : table_ok (entries l) (active_control_generation l) (epoch l);
  wf_entries : entry_count l = countb stored (entries l);
  wf_active : active_entry_count l = countb active (entries l);
  wf_terminal : terminal_entry_count l = countb terminal (entries l);
  wf_tombstones : tombstone_entry_count l = countb buried (entries l);
  wf_epoch : 0 <= epoch l <= U64_MAX;
}.

(** ** Entry states *)

Lemma stored_cases e :
  stored e = true <-> STATE_PREPARED <= state e <= STATE_FAILED.
Proof. unfold stored, state_is_stored. rewrite andb_true_iff, !Z.leb_le. done. Qed.

Lemma stored_nonempty e : stored e = true -> state e <> STATE_EMPTY.
Proof. rewrite stored_cases. unfold STATE_PREPARED, STATE_EMPTY. lia. Qed.

Lemma terminal_stored e : terminal e = true -> stored e = true.
Proof.
  rewrite stored_cases. unfold terminal, state_is_terminal.
  rewrite !orb_true_iff, !Z.eqb_eq. unfold STATE_COMMITTED, STATE_CANCELLED, STATE_FAILED, STATE_PREPARED. lia.
Qed.

Lemma unstored_cases e :
  0 <= state e <= STATE_TOMBSTONE -> stored e = false -> state e = STATE_EMPTY \/ state e = STATE_TOMBSTONE.
Proof.
  intros Hr Hs. destruct (decide (STATE_PREPARED <= state e <= STATE_FAILED)) as [H|H].
  - apply stored_cases in H. congruence.
  - unfold STATE_PREPARED, STATE_FAILED, STATE_TOMBSTONE, STATE_EMPTY in *. lia.
Qed.

Lemma buried_spec e : buried e = true <-> state e = STATE_TOMBSTONE.
Proof. apply Z.eqb_eq. Qed.

Lemma buried_unstored e : state e = STATE_TOMBSTONE -> stored e = false.
Proof. intros H. unfold stored. by rewrite H. Qed.

Lemma empty_unstored e : state e = STATE_EMPTY -> stored e = false.
Proof. intros H. unfold stored. by rewrite H. Qed.

Lemma active_spec e : active e = true <-> stored e = true /\ terminal e = false.
Proof. unfold active. rewrite andb_true_iff, negb_true_iff. done. Qed.

(** ** Looking a transaction up *)

Lemma list_find_first {A} (p : A -> bool) l x :
  List.find p l = Some x -> exists i, l !! i = Some x /\ p x = true.
Proof.
  intros H. apply List.find_some in H as [Hin Hp].
  apply list_elem_of_In, list_elem_of_lookup in Hin as [i Hi]. by exists i.
Qed.

Lemma holds_spec id e : holds id e = true <-> stored e = true /\ identity e = id.
Proof. unfold holds. rewrite andb_true_iff, bool_decide_eq_true. done. Qed.

Lemma view_lookup l id e :
  view l id = Some e -> exists i, entries l !! i = Some e /\ stored e = true /\ identity e = id.
Proof. intros H. apply list_find_first in H as (i&Hi&Hp). apply holds_spec in Hp. eauto. Qed.

Lemma view_absent l id i e : view l id = None -> entries l !! i = Some e -> stored e = true -> identity e <> id.
Proof.
  intros H Hi Hs He. unfold view in H.
  assert (In e (entries l)) as Hin by (apply list_elem_of_In, list_elem_of_lookup; eauto).
  pose proof (List.find_none _ _ H e Hin) as Hf. assert (holds id e = true) by (apply holds_spec; done). congruence.
Qed.

Lemma view_intro l i e :
  table_ok (entries l) (active_control_generation l) (epoch l) ->
  entries l !! i = Some e -> stored e = true -> view l (identity e) = Some e.
Proof.
  intros Hok Hi Hs. destruct (view l (identity e)) as [f|] eqn:Hv.
  - apply view_lookup in Hv as (j&Hj&Hf&Hid).
    assert (i = j) as <- by (eapply (ok_unique _ _ _ Hok); eauto). congruence.
  - by destruct (view_absent _ _ _ _ Hv Hi Hs).
Qed.

(** ** Probing *)

Lemma probe_slot_range cap id k : 0 < cap -> 0 <= probe_slot cap id k < cap.
Proof. intros. unfold probe_slot. apply Z.mod_pos_bound. lia. Qed.

Lemma probe_slot_cover cap id i : 0 <= i < cap -> exists d, 0 <= d < cap /\ i = probe_slot cap id d.
Proof.
  intros Hi. exists ((i - identity_fingerprint id mod cap) mod cap). split; [apply Z.mod_pos_bound; lia|].
  unfold probe_slot. rewrite Z.add_mod_idemp_r by lia.
  replace (identity_fingerprint id mod cap + (i - identity_fingerprint id mod cap)) with i by lia.
  symmetry. apply Z.mod_small. lia.
Qed.

Lemma shift_mod_inj cap h d d' :
  0 <= h < cap -> 0 <= d < cap -> 0 <= d' < cap -> (h + d) mod cap = (h + d') mod cap -> d = d'.
Proof.
  intros Hh Hd Hd' H.
  assert (forall x, 0 <= x < cap -> (h + x) mod cap = h + x \/ (h + x) mod cap = h + x - cap /\ cap <= h + x) as Hwrap.
  { intros x Hx. destruct (decide (h + x < cap)); [left; apply Z.mod_small; lia|].
    right. split; [|lia]. rewrite <-(Z.mod_add (h + x) (-1)) by lia. rewrite Z.mod_small; lia. }
  destruct (Hwrap d Hd) as [E|[E ?]], (Hwrap d' Hd') as [E'|[E' ?]]; rewrite E, E' in H; lia.
Qed.

Lemma probe_slot_inj cap id d d' :
  0 <= d < cap -> 0 <= d' < cap -> probe_slot cap id d = probe_slot cap id d' -> d = d'.
Proof. intros Hd Hd'. unfold probe_slot. apply shift_mod_inj; [|done|done]. apply Z.mod_pos_bound. lia. Qed.

Lemma capacity_small l : table_ok (entries l) (active_control_generation l) (epoch l) ->
  entry_capacity l = Z.of_nat (length (entries l)).
Proof. intros [[??] _ _ _ _]. unfold entry_capacity. apply u32_small. lia. Qed.

(** The index a probe computes. *)
Lemma probe_index_spec l id k :
  table_ok (entries l) (active_control_generation l) (epoch l) -> 0 <= k < entry_capacity l ->
  (start_index l id +u32 k) mod entry_capacity l = probe_slot (Z.of_nat (length (entries l))) id k.
Proof.
  intros Hok Hk. pose proof (ok_capacity _ _ _ Hok). unfold start_index. rewrite (capacity_small l Hok) in *.
  pose proof (Z.mod_pos_bound (identity_fingerprint id) (Z.of_nat (length (entries l)))).
  rewrite u32_small by lia. done.
Qed.

Lemma wp_probe l id k Q R (s : TransactionLedger) :
  table_ok (entries l) (active_control_generation l) (epoch l) -> 0 <= k < entry_capacity l ->
  (forall e, entries l !! Z.to_nat (probe_slot (Z.of_nat (length (entries l))) id k) = Some e -> Q e s) ->
  wp (E := SparkStatus) (index (entries l) ((start_index l id +u32 k) mod entry_capacity l)) Q R s.
Proof.
  intros Hok Hk HQ. rewrite (probe_index_spec l id k Hok Hk).
  destruct (lookup_Some_range (entries l) (probe_slot (Z.of_nat (length (entries l))) id k)) as [e He].
  { apply probe_slot_range. apply Hok. }
  eapply wp_index; [done|]. by apply HQ.
Qed.

(** The entries a probe has passed: none is empty, none is the wanted one. *)
Definition passed (l : TransactionLedger) (id : Identity) (n : Z) : Prop :=
  forall k, 0 <= k < n -> exists e,
    entries l !! Z.to_nat (probe_slot (Z.of_nat (length (entries l))) id k) = Some e /\
    state e <> STATE_EMPTY /\ (stored e = true -> identity e <> id).

(** A probe that has passed up to an empty entry, or around the table, missed nothing. *)
Lemma probe_misses l id n :
  table_ok (entries l) (active_control_generation l) (epoch l) -> 0 <= n -> passed l id n ->
  (n = entry_capacity l \/ exists e,
     entries l !! Z.to_nat (probe_slot (Z.of_nat (length (entries l))) id n) = Some e /\ state e = STATE_EMPTY) ->
  view l id = None.
Proof.
  intros Hok Hn Hpass Hstop. destruct (view l id) as [e|] eqn:Hv; [|done]. exfalso.
  apply view_lookup in Hv as (i&Hi&Hs&<-).
  destruct (ok_probe _ _ _ Hok i e Hi Hs) as (d&Hd&Hid&Hk).
  assert (Z.to_nat (probe_slot (Z.of_nat (length (entries l))) (identity e) d) = i) as Hslot by lia.
  destruct (decide (d < n)) as [Hlt|Hge].
  { destruct (Hpass d ltac:(lia)) as (f&Hf&_&Hne). rewrite Hslot, Hi in Hf. simplify_eq. by apply Hne. }
  destruct Hstop as [->|(f&Hf&Hempty)]; [rewrite (capacity_small l Hok) in Hge; lia|].
  destruct (decide (d = n)) as [->|Hne'].
  - rewrite Hslot, Hi in Hf. simplify_eq. by apply (stored_nonempty f).
  - destruct (Hk n ltac:(lia)) as (g&Hg&Hnonempty). rewrite Hg in Hf. by simplify_eq.
Qed.

Lemma passed_0 l id : passed l id 0.
Proof. intros k Hk. lia. Qed.

Lemma passed_next l id n e :
  passed l id n -> entries l !! Z.to_nat (probe_slot (Z.of_nat (length (entries l))) id n) = Some e ->
  state e <> STATE_EMPTY -> (stored e = true -> identity e <> id) -> passed l id (n + 1).
Proof.
  intros Hp He Hne Hid k Hk. destruct (decide (k = n)) as [->|]; [by exists e|]. apply Hp. lia.
Qed.

Lemma find_internal_spec l id :
  table_ok (entries l) (active_control_generation l) (epoch l) ->
  wp (find_internal id)
    (fun i l' => l' = l /\ 0 <= i /\ exists e, entries l !! Z.to_nat i = Some e /\ view l id = Some e)
    (fun status l' => l' = l /\ status = NotFound /\ view l id = None) l.
Proof.
  intros Hok. unfold find_internal. wp_steps.
  apply (wp_for_return (fun pre l' => l' = l /\ passed l id (Z.of_nat (length pre))) _ _
    (fun o l' => wp (match o with Some i => ret i | None => throw NotFound end)
      (fun i l' => l' = l /\ 0 <= i /\ exists e, entries l !! Z.to_nat i = Some e /\ view l id = Some e)
      (fun status l' => l' = l /\ status = NotFound /\ view l id = None) l')).
  - split; [done|apply passed_0].
  - intros pre k post s Hsplit [-> Hpass]. apply range_split in Hsplit as [-> Hk].
    rewrite length_range in *. rewrite Z.sub_0_r, Z2Nat.id in * by lia.
    apply wp_bind, wp_probe; [done|lia|]. intros e He. destruct (Z.eqb_spec (state e) STATE_EMPTY) as [Hz|Hz].
    + apply wp_throw. split; [done|]. split; [done|]. apply (probe_misses l id k); [done|lia|done|eauto].
    + destruct (_ && _) eqn:Hhit; apply wp_ret.
      * apply andb_true_iff in Hhit as [Ht Hid]. rewrite bool_decide_eq_true in Hid. rewrite negb_true_iff, Z.eqb_neq in Ht.
        rewrite (probe_index_spec l id k Hok) by lia. apply wp_ret. split; [done|].
        split; [apply probe_slot_range, Hok|]. exists e. split; [done|]. rewrite <-Hid.
        eapply view_intro; [done|done|]. destruct (stored e) eqn:Hs; [done|].
        destruct (unstored_cases e); [by eapply (ok_state _ _ _ Hok)|done|done|done].
      * split; [done|]. rewrite length_app, length_range, Nat2Z.inj_add, Z.sub_0_r, Z2Nat.id by lia.
        eapply passed_next; [done|done|done|]. intros Hs Hid. subst id.
        rewrite bool_decide_true in Hhit by done. rewrite andb_true_r, negb_false_iff, Z.eqb_eq in Hhit.
        pose proof (buried_unstored e Hhit). congruence.
  - intros s [-> Hpass]. apply wp_throw. split; [done|]. split; [done|].
    rewrite length_range, Z.sub_0_r, Z2Nat.id in Hpass.
    + apply (probe_misses l id (entry_capacity l)); [done| |done|by left]. rewrite (capacity_small l Hok). lia.
    + rewrite (capacity_small l Hok). lia.
Qed.

(** ** Choosing where a new transaction goes *)

(** A free entry a probe for [id] reaches. *)
Definition insertable (es : list LedgerEntry) (id : Identity) (i : Z) (e : LedgerEntry) : Prop :=
  0 <= i /\ es !! Z.to_nat i = Some e /\ stored e = false /\ reached_by es id i.

(** [select_insertion_entry] claims a tombstone by taking it off its counter. *)
Definition claimed (l : TransactionLedger) (e : LedgerEntry) : TransactionLedger :=
  if buried e then l <| tombstone_entry_count := tombstone_entry_count l -u32 1 |> else l.

Lemma insertable_intro l id k e :
  table_ok (entries l) (active_control_generation l) (epoch l) -> 0 <= k < entry_capacity l ->
  entries l !! Z.to_nat (probe_slot (Z.of_nat (length (entries l))) id k) = Some e -> stored e = false ->
  (forall j, 0 <= j < k -> occupied (entries l) (probe_slot (Z.of_nat (length (entries l))) id j)) ->
  insertable (entries l) id (probe_slot (Z.of_nat (length (entries l))) id k) e.
Proof.
  intros Hok Hk He Hs Hocc. pose proof (probe_slot_range (Z.of_nat (length (entries l))) id k) as Hr.
  pose proof (ok_capacity _ _ _ Hok). rewrite (capacity_small l Hok) in Hk.
  split; [lia|]. split; [done|]. split; [done|]. exists k. done.
Qed.

(** The probe so far: everything visited is occupied, and the first tombstone is remembered. *)
Definition searching (l : TransactionLedger) (id : Identity) (n first : Z) : Prop :=
  (forall j, 0 <= j < n -> occupied (entries l) (probe_slot (Z.of_nat (length (entries l))) id j)) /\
  (if first =? INVALID_INDEX
   then forall j e, 0 <= j < n ->
     entries l !! Z.to_nat (probe_slot (Z.of_nat (length (entries l))) id j) = Some e -> stored e = true
   else exists e, insertable (entries l) id first e /\ buried e = true).

Lemma slot_not_invalid l id k :
  table_ok (entries l) (active_control_generation l) (epoch l) ->
  probe_slot (Z.of_nat (length (entries l))) id k =? INVALID_INDEX = false.
Proof.
  intros Hok. pose proof (ok_capacity _ _ _ Hok). apply Z.eqb_neq.
  pose proof (probe_slot_range (Z.of_nat (length (entries l))) id k). unfold INVALID_INDEX. lia.
Qed.

Lemma insertion_round_spec l id k first :
  table_ok (entries l) (active_control_generation l) (epoch l) -> 0 <= k < entry_capacity l ->
  searching l id k first ->
  wp (insertion_round l (start_index l id) k first)
    (fun r l' => match r with
       | Continue first' => l' = l /\ searching l id (k + 1) first'
       | Break i => exists e, insertable (entries l) id i e /\ l' = claimed l e end)
    (fun _ _ => False) l.
Proof.
  intros Hok Hk [Hocc Hfirst]. unfold insertion_round. apply wp_bind, wp_probe; [done|done|]. intros e He.
  rewrite (probe_index_spec l id k Hok Hk).
  assert (forall j, state e <> STATE_EMPTY -> 0 <= j < k + 1 ->
    occupied (entries l) (probe_slot (Z.of_nat (length (entries l))) id j)) as Hocc'.
  { intros j Hne Hj. destruct (decide (j = k)) as [->|]; [by exists e|]. apply Hocc. lia. }
  destruct (_ && _) eqn:Htomb; [|destruct (Z.eqb_spec (state e) STATE_EMPTY) as [Hz|Hz]].
  - apply andb_true_iff in Htomb as [Ht Hf]. apply Z.eqb_eq in Ht. apply wp_ret. split; [done|].
    split; [intros j; apply Hocc'; by rewrite Ht|]. rewrite slot_not_invalid by done. exists e.
    split; [|by apply buried_spec]. apply insertable_intro; [done|done|done|by apply buried_unstored|done].
  - assert (buried e = false) by (apply Z.eqb_neq; by rewrite Hz).
    destruct (first =? INVALID_INDEX); cbn [negb].
    + apply wp_ret. exists e. split; [|unfold claimed; by rewrite H].
      apply insertable_intro; [done|done|done|by apply empty_unstored|done].
    + unfold take_tombstone. wp_steps. destruct Hfirst as (f&Hf&Hb). exists f. split; [done|].
      unfold claimed. by rewrite Hb.
  - apply wp_ret. split; [done|]. split; [by intros j; apply Hocc'|].
    destruct (first =? INVALID_INDEX); [|done]. intros j f Hj Hf.
    destruct (decide (j = k)) as [->|]; [|apply (Hfirst j); [lia|done]]. rewrite He in Hf. injection Hf as <-.
    rewrite andb_true_r in Htomb. apply Z.eqb_neq in Htomb. destruct (stored e) eqn:Hs; [done|].
    by destruct (unstored_cases e) as [?|?]; [eapply (ok_state _ _ _ Hok)| | |].
Qed.

Lemma select_insertion_spec l id :
  table_ok (entries l) (active_control_generation l) (epoch l) ->
  wp (select_insertion_entry id)
    (fun i l' => exists e, insertable (entries l) id i e /\ l' = claimed l e)
    (fun status l' => l' = l /\ status = CapacityExceeded /\
       forall i e, entries l !! i = Some e -> stored e = true) l.
Proof.
  intros Hok. unfold select_insertion_entry. wp_steps.
  eapply (wp_for_flow (fun pre first l' => l' = l /\ searching l id (Z.of_nat (length pre)) first)).
  - split; [done|]. split; [intros j Hj; simpl in Hj; lia|]. cbn. intros j e Hj. lia.
  - intros pre k post first s Hsplit [-> Hsearch]. apply range_split in Hsplit as [-> Hk].
    rewrite length_app, length_range in *. rewrite Nat2Z.inj_add, Z.sub_0_r, Z2Nat.id in * by lia.
    eapply wp_mono; [by apply insertion_round_spec| |done]. intros [first'|i] l' H; [done|]. by apply wp_ret.
  - intros first s [-> [Hocc Hfirst]]. rewrite length_range, Z.sub_0_r in *.
    pose proof (ok_capacity _ _ _ Hok). rewrite (capacity_small l Hok), Z2Nat.id in * by lia.
    destruct (first =? INVALID_INDEX); cbn [negb].
    + apply wp_throw. split; [done|]. split; [done|]. intros i e Hi.
      destruct (probe_slot_cover (Z.of_nat (length (entries l))) id (Z.of_nat i)) as (d&Hd&Heq).
      { apply lookup_lt_Some in Hi. lia. }
      apply (Hfirst d); [done|]. by rewrite <-Heq, Nat2Z.id.
    + unfold take_tombstone. wp_steps. destruct Hfirst as (f&Hf&Hb). exists f. split; [done|].
      unfold claimed. by rewrite Hb.
Qed.

(** ** Replacing one entry *)

Lemma occupied_put es i e e' j :
  es !! i = Some e -> (state e <> STATE_EMPTY -> state e' <> STATE_EMPTY) ->
  occupied es j -> occupied (<[i:=e']> es) j.
Proof.
  intros Hi Hkeep (f&Hf&Hne). destruct (decide (Z.to_nat j = i)) as [Heq|Hne'].
  - exists e'. rewrite Heq in Hf |- *. rewrite list_lookup_insert_eq by (by eapply lookup_lt_Some).
    split; [done|]. simplify_eq. by apply Hkeep.
  - exists f. by rewrite list_lookup_insert_ne.
Qed.

Lemma reached_put es i e e' id j :
  es !! i = Some e -> (state e <> STATE_EMPTY -> state e' <> STATE_EMPTY) ->
  reached_by es id j -> reached_by (<[i:=e']> es) id j.
Proof.
  intros Hi Hkeep (d&Hd&Hj&Hocc). exists d. rewrite length_insert. split; [done|]. split; [done|].
  intros k Hk. eapply occupied_put; eauto.
Qed.

(** What a stored entry must satisfy on its own. *)
Definition entry_ok (generation last : Z) (e : LedgerEntry) : Prop :=
  control_generation (identity e) = generation /\ validate_identity (identity e) = true /\
  payload_fingerprint e <> 0 /\ 0 <= last_observed_epoch e <= last /\
  (terminal e = false -> terminal_status e = status_code Pending).

Lemma table_put es g last last' i e e' :
  table_ok es g last -> es !! i = Some e -> last <= last' ->
  (state e <> STATE_EMPTY -> state e' <> STATE_EMPTY) -> 0 <= state e' <= STATE_TOMBSTONE ->
  (stored e' = true -> reached_by es (identity e') (Z.of_nat i) /\ entry_ok g last' e' /\
     forall j f, j <> i -> es !! j = Some f -> stored f = true -> identity f <> identity e') ->
  table_ok (<[i:=e']> es) g last'.
Proof.
  intros Hok Hi Hlast Hkeep Hstate Hnew.
  assert (forall j f, <[i:=e']> es !! j = Some f -> j = i /\ f = e' \/ j <> i /\ es !! j = Some f) as Hcase.
  { intros j f Hj. destruct (decide (j = i)) as [->|].
    - rewrite list_lookup_insert_eq in Hj by (by eapply lookup_lt_Some). left. by simplify_eq.
    - rewrite list_lookup_insert_ne in Hj by done. by right. }
  split.
  - rewrite length_insert. apply Hok.
  - intros j f Hj. destruct (Hcase j f Hj) as [[-> ->]|[_ Hf]]; [done|]. by eapply (ok_state _ _ _ Hok).
  - intros j f Hj Hs. eapply reached_put; [done|done|].
    destruct (Hcase j f Hj) as [[-> ->]|[_ Hf]]; [by apply Hnew|]. by eapply (ok_probe _ _ _ Hok).
  - intros j k f f' Hj Hk Hs Hs' Hid.
    destruct (Hcase j f Hj) as [[-> ->]|[Hne Hf]], (Hcase k f' Hk) as [[-> ->]|[Hne' Hf']]; try done.
    + destruct (Hnew Hs) as (_&_&Hother). by destruct (Hother k f').
    + destruct (Hnew Hs') as (_&_&Hother). by destruct (Hother j f).
    + by eapply (ok_unique _ _ _ Hok).
  - intros j f Hj Hs. destruct (Hcase j f Hj) as [[-> ->]|[_ Hf]]; [by apply Hnew|].
    destruct (ok_entry _ _ _ Hok j f Hf Hs) as (?&?&?&?&?). repeat split; try done; lia.
Qed.

Lemma find_insert_other {A} (p : A -> bool) l i x y :
  l !! i = Some x -> p x = false -> p y = false -> List.find p (<[i:=y]> l) = List.find p l.
Proof.
  revert i. induction l as [|z l IH]; intros [|i] Hi Hx Hy; simplify_eq/=.
  - by rewrite Hx, Hy.
  - destruct (p z); [done|]. by apply IH.
Qed.

(** Replacing an entry changes the map only at the identities of the two entries. *)
Lemma view_put_other l l' i e e' id :
  entries l' = <[i:=e']> (entries l) -> entries l !! i = Some e ->
  holds id e = false -> holds id e' = false -> view l' id = view l id.
Proof. intros Hl Hi He He'. unfold view. rewrite Hl. by apply (find_insert_other _ _ i e). Qed.

Lemma unstored_holds id e : stored e = false -> holds id e = false.
Proof. intros H. unfold holds. by rewrite H. Qed.

Lemma other_holds id e : identity e <> id -> holds id e = false.
Proof. intros H. unfold holds. rewrite bool_decide_false by done. apply andb_false_r. Qed.

(** ** Recycling the oldest terminal entry *)

Definition scan_oldest (es : list LedgerEntry) : Z * Z :=
  foldl (fun best x => oldest_round x best) (U64_MAX, INVALID_INDEX) (zip (range 0 (Z.of_nat (length es))) es).

Lemma scan_oldest_snoc es e :
  scan_oldest (es ++ [e]) = oldest_round (Z.of_nat (length es), e) (scan_oldest es).
Proof.
  unfold scan_oldest. rewrite length_app. cbn [length].
  replace (Z.of_nat (length es + 1)) with (Z.of_nat (length es) + 1) by lia.
  rewrite range_snoc by lia. rewrite zip_with_app by (rewrite length_range; lia). by rewrite foldl_app.
Qed.

Lemma scan_oldest_spec es :
  Z.of_nat (length es) <= 2147483648 ->
  (forall i e, es !! i = Some e -> terminal e = true -> last_observed_epoch e < U64_MAX) ->
  (scan_oldest es = (U64_MAX, INVALID_INDEX) /\ forall i e, es !! i = Some e -> terminal e = false) \/
  (exists i e, snd (scan_oldest es) = Z.of_nat i /\ fst (scan_oldest es) = last_observed_epoch e /\
     es !! i = Some e /\ terminal e = true /\
     forall j f, es !! j = Some f -> terminal f = true -> last_observed_epoch e <= last_observed_epoch f).
Proof.
  induction es as [|x es IH] using rev_ind; intros Hlen Hep; [by left|].
  rewrite length_app in Hlen. cbn [length] in Hlen. rewrite scan_oldest_snoc. unfold oldest_round.
  fold (terminal x).
  assert (forall j f, (es ++ [x]) !! j = Some f -> es !! j = Some f \/ j = length es /\ f = x) as Hcase.
  { intros j f Hj. apply lookup_app_Some in Hj as [Hj|[Hle Hj]]; [by left|]. right.
    apply list_lookup_singleton_Some in Hj. split; [lia|by destruct Hj]. }
  destruct IH as [[Hbest Hnone]|(i&e&Hi&He&Hlook&Ht&Hmin)]; [lia| | |].
  { intros i e Hi. apply (Hep i). by apply lookup_app_l_Some. }
  - rewrite Hbest. cbn [fst]. destruct (terminal x) eqn:Hx; cbn [andb].
    + assert (last_observed_epoch x < U64_MAX) as Hlt.
      { apply (Hep (length es)); [|done]. by rewrite lookup_app_r, Nat.sub_diag. }
      destruct (Z.ltb_spec (last_observed_epoch x) U64_MAX); [|lia]. right. exists (length es), x. cbn [fst snd].
      rewrite u32_small by lia. split; [done|]. split; [done|]. split; [by rewrite lookup_app_r, Nat.sub_diag|].
      split; [done|]. intros j f Hj Hf. destruct (Hcase j f Hj) as [Hj'|[-> ->]]; [|lia].
      specialize (Hnone j f Hj'). congruence.
    + left. split; [done|]. intros j f Hj. destruct (Hcase j f Hj) as [Hj'|[-> ->]]; [|done]. by eapply Hnone.
  - right. rewrite He. destruct (terminal x && _) eqn:Hb.
    + apply andb_true_iff in Hb as [Hx Hlt]. apply Z.ltb_lt in Hlt. exists (length es), x. cbn [fst snd].
      rewrite u32_small by lia. split; [done|]. split; [done|]. split; [by rewrite lookup_app_r, Nat.sub_diag|].
      split; [done|]. intros j f Hj Hf. destruct (Hcase j f Hj) as [Hj'|[-> ->]]; [|lia].
      specialize (Hmin j f Hj' Hf). lia.
    + exists i, e. split; [done|]. split; [done|]. split; [by apply lookup_app_l_Some|]. split; [done|].
      intros j f Hj Hf. destruct (Hcase j f Hj) as [Hj'|[-> ->]]; [by eapply Hmin|].
      rewrite Hf in Hb. cbn [andb] in Hb. apply Z.ltb_ge in Hb. lia.
Qed.

Definition tombstone : LedgerEntry := default_entry <| state := STATE_TOMBSTONE |>.

(** The ledger with the entry at [i] turned into a tombstone. *)
Definition tombstoned (l : TransactionLedger) (i : Z) : TransactionLedger :=
  l <| entries := upd_nth i (fun _ => tombstone) (entries l) |>
    <| entry_count := entry_count l -u32 1 |> <| terminal_entry_count := terminal_entry_count l -u32 1 |>
    <| tombstone_entry_count := tombstone_entry_count l +u32 1 |>.

(** [e] is the least recently observed terminal transaction. *)
Definition oldest_terminal (l : TransactionLedger) (e : LedgerEntry) : Prop :=
  view l (identity e) = Some e /\ terminal e = true /\
  forall id f, view l id = Some f -> terminal f = true -> last_observed_epoch e <= last_observed_epoch f.

Lemma recycle_spec l :
  ledger_wf l -> epoch l < U64_MAX ->
  wp recycle_oldest_terminal_entry
    (fun _ l' => exists i e, 0 <= i /\ entries l !! Z.to_nat i = Some e /\ oldest_terminal l e /\ l' = tombstoned l i)
    (fun status l' => l' = l /\ status = CapacityExceeded /\ countb terminal (entries l) = 0) l.
Proof.
  intros Hwf Hep. pose proof (wf_table _ Hwf) as Hok. unfold recycle_oldest_terminal_entry. wp_steps.
  fold (scan_oldest (entries l)). destruct (scan_oldest_spec (entries l)) as [[-> Hnone]|(i&e&Hi&_&Hlook&Ht&Hmin)].
  - apply Hok.
  - intros i e Hi Ht. pose proof (ok_entry _ _ _ Hok i e Hi (terminal_stored e Ht)) as (_&_&_&?&_). lia.
  - cbn [snd]. rewrite Z.eqb_refl. apply wp_throw. split; [done|]. split; [done|]. by apply countb_0.
  - rewrite Hi. destruct (Z.eqb_spec (Z.of_nat i) INVALID_INDEX) as [Hbad|_].
    { apply lookup_lt_Some in Hlook. pose proof (ok_capacity _ _ _ Hok). unfold INVALID_INDEX in Hbad. lia. }
    apply wp_bind. eapply (wp_index _ _ _ _ _ e); [by rewrite Nat2Z.id|]. wp_steps.
    exists (Z.of_nat i), e. split; [lia|]. split; [by rewrite Nat2Z.id|]. split; [|done].
    split; [by apply (view_intro l i e Hok Hlook), terminal_stored|]. split; [done|].
    intros id f Hf Hft. apply view_lookup in Hf as (j&Hj&_&_). by eapply Hmin.
Qed.

(** ** Counters under a replacement *)

Lemma upd_nth_put {A} (l : list A) i x y : l !! Z.to_nat i = Some x -> upd_nth i (fun _ => y) l = <[Z.to_nat i:=y]> l.
Proof.
  intros H. unfold upd_nth. apply list_eq. intros j. destruct (decide (j = Z.to_nat i)) as [->|].
  - rewrite list_lookup_alter_eq, H, list_lookup_insert_eq by (by eapply lookup_lt_Some). done.
  - by rewrite list_lookup_alter_ne, list_lookup_insert_ne by congruence.
Qed.

Lemma count_bound p (es : list LedgerEntry) :
  Z.of_nat (length es) <= 2147483648 -> 0 <= countb p es <= 2147483648.
Proof. intros. pose proof (countb_nonneg p es). pose proof (countb_le_length p es). lia. Qed.

Lemma tombstone_flags :
  stored tombstone = false /\ active tombstone = false /\ terminal tombstone = false /\ buried tombstone = true.
Proof. done. Qed.

Lemma terminal_flags e : terminal e = true -> stored e = true /\ active e = false /\ buried e = false.
Proof.
  intros Ht. pose proof (terminal_stored e Ht) as Hs. split; [done|]. split; [unfold active; by rewrite Hs, Ht|].
  apply Z.eqb_neq. apply stored_cases in Hs. unfold STATE_FAILED, STATE_TOMBSTONE in *. lia.
Qed.

Lemma unstored_flags e : stored e = false -> active e = false /\ terminal e = false.
Proof.
  intros Hs. unfold active. rewrite Hs. split; [done|]. destruct (terminal e) eqn:Ht; [|done].
  pose proof (terminal_stored e Ht). congruence.
Qed.

Lemma tombstoned_wf l i e :
  ledger_wf l -> 0 <= i -> entries l !! Z.to_nat i = Some e -> terminal e = true -> ledger_wf (tombstoned l i).
Proof.
  intros Hwf Hi He Ht. destruct (terminal_flags e Ht) as (Hs&Ha&Hb).
  pose proof (ok_capacity _ _ _ (wf_table _ Hwf)) as [_ Hcap].
  pose proof (countb_ge_1 stored _ _ _ He Hs). pose proof (countb_ge_1 terminal _ _ _ He Ht).
  pose proof (count_bound stored _ Hcap). pose proof (count_bound terminal _ Hcap). pose proof (count_bound buried _ Hcap).
  destruct Hwf as [Hok Hc1 Hc2 Hc3 Hc4 Hep]. unfold tombstoned.
  split; cbn [entries entry_count active_entry_count terminal_entry_count tombstone_entry_count epoch
    active_control_generation set_field]; rewrite ?(upd_nth_put _ _ _ _ He), ?(countb_insert _ _ _ _ _ He).
  - eapply table_put; [done|done|lia| | |done]; done.
  - rewrite Hs, Hc1. cbn [b2z]. change (stored tombstone) with false. cbn [b2z]. rewrite u32_small; lia.
  - rewrite Ha, Hc2. change (active tombstone) with false. cbn [b2z]. lia.
  - rewrite Ht, Hc3. change (terminal tombstone) with false. cbn [b2z]. rewrite u32_small; lia.
  - rewrite Hb, Hc4. change (buried tombstone) with true. cbn [b2z]. rewrite u32_small; lia.
  - done.
Qed.

(** ** Recording a new transaction *)

(** The entry [insert_entry] writes. *)
Definition prepared (l : TransactionLedger) (id : Identity) (payload : Z) : LedgerEntry :=
  mkEntry id payload (epoch l) STATE_PREPARED (status_code Pending).

Definition placed (l : TransactionLedger) (i : Z) (e : LedgerEntry) (id : Identity) (payload : Z)
    : TransactionLedger :=
  (claimed l e) <| entries := upd_nth i (fun _ => prepared l id payload) (entries l) |>
    <| entry_count := entry_count l +u32 1 |> <| active_entry_count := active_entry_count l +u32 1 |>.

Lemma claimed_fields l e :
  entries (claimed l e) = entries l /\ entry_count (claimed l e) = entry_count l /\
  active_entry_count (claimed l e) = active_entry_count l /\
  terminal_entry_count (claimed l e) = terminal_entry_count l /\ epoch (claimed l e) = epoch l /\
  active_control_generation (claimed l e) = active_control_generation l /\
  tombstone_entry_count (claimed l e) =
    if buried e then tombstone_entry_count l -u32 1 else tombstone_entry_count l.
Proof. unfold claimed. by destruct (buried e). Qed.

(** A transaction the ledger may record: valid, of its generation, not yet recorded. *)
Definition recordable (l : TransactionLedger) (id : Identity) (payload : Z) : Prop :=
  validate_identity id = true /\ control_generation id = active_control_generation l /\
  payload <> 0 /\ view l id = None.

Lemma placed_wf l i e id payload :
  ledger_wf l -> recordable l id payload -> insertable (entries l) id i e -> ledger_wf (placed l i e id payload).
Proof.
  intros Hwf (Hid&Hgen&Hp&Hv) (Hi&He&Hs&Hreach). destruct (unstored_flags e Hs) as [Ha Ht].
  pose proof (ok_capacity _ _ _ (wf_table _ Hwf)) as [_ Hcap].
  pose proof (count_bound buried _ Hcap). pose proof (count_bound active _ Hcap).
  assert (0 <= countb stored (entries l) < 2147483648 + 1) by (pose proof (count_bound stored _ Hcap); lia).
  destruct Hwf as [Hok Hc1 Hc2 Hc3 Hc4 Hep]. destruct (claimed_fields l e) as (F1&F2&F3&F4&F5&F6&F7).
  unfold placed. split; cbn [entries entry_count active_entry_count terminal_entry_count tombstone_entry_count epoch
    active_control_generation set_field]; rewrite ?F1, ?F2, ?F3, ?F4, ?F5, ?F6, ?F7,
    ?(upd_nth_put _ _ _ _ He), ?(countb_insert _ _ _ _ _ He).
  - eapply table_put; [done|done|lia|done|done|]. intros _. cbn [identity prepared].
    split; [rewrite Z2Nat.id by lia; done|]. split.
    + split; [done|]. split; [done|]. split; [done|]. split; [cbn [prepared last_observed_epoch]; lia|done].
    + intros j f _ Hj Hf. by eapply view_absent.
  - rewrite Hs, Hc1. change (stored (prepared l id payload)) with true. cbn [b2z]. rewrite u32_small; lia.
  - rewrite Ha, Hc2. change (active (prepared l id payload)) with true. cbn [b2z]. rewrite u32_small; lia.
  - rewrite Ht, Hc3. change (terminal (prepared l id payload)) with false. cbn [b2z]. lia.
  - change (buried (prepared l id payload)) with false. cbn [b2z]. rewrite <-Hc4. destruct (buried e) eqn:Hb; cbn [b2z]; [|lia].
    pose proof (countb_ge_1 buried _ _ _ He Hb). rewrite u32_small; lia.
  - done.
Qed.

Lemma placed_view l i e id payload :
  ledger_wf l -> recordable l id payload -> insertable (entries l) id i e ->
  view (placed l i e id payload) id = Some (prepared l id payload) /\
  forall id', id' <> id -> view (placed l i e id payload) id' = view l id'.
Proof.
  intros Hwf Hrec Hins. pose proof (wf_table _ (placed_wf _ _ _ _ _ Hwf Hrec Hins)) as Hok.
  destruct Hins as (Hi&He&Hs&_).
  assert (entries (placed l i e id payload) = <[Z.to_nat i:=prepared l id payload]> (entries l)) as Hentries.
  { unfold placed. cbn [entries set_field]. by apply (upd_nth_put _ _ _ _ He). }
  split.
  - change id with (identity (prepared l id payload)) at 2. apply (view_intro _ (Z.to_nat i)); [done| |done].
    rewrite Hentries. apply list_lookup_insert_eq. by eapply lookup_lt_Some.
  - intros id' Hne. apply (view_put_other _ _ _ _ _ _ Hentries He); [by apply unstored_holds|].
    apply other_holds. cbn [identity prepared]. congruence.
Qed.

Lemma tombstoned_view l i e :
  ledger_wf l -> 0 <= i -> entries l !! Z.to_nat i = Some e -> terminal e = true ->
  view (tombstoned l i) (identity e) = None /\
  forall id, id <> identity e -> view (tombstoned l i) id = view l id.
Proof.
  intros Hwf Hi He Ht. pose proof (wf_table _ Hwf) as Hok.
  assert (entries (tombstoned l i) = <[Z.to_nat i:=tombstone]> (entries l)) as Hentries.
  { unfold tombstoned. cbn [entries set_field]. by apply (upd_nth_put _ _ _ _ He). }
  split.
  - destruct (view (tombstoned l i) (identity e)) as [f|] eqn:Hv; [|done].
    apply view_lookup in Hv as (j&Hj&Hs&Hid). rewrite Hentries in Hj.
    destruct (decide (j = Z.to_nat i)) as [->|Hne].
    + rewrite list_lookup_insert_eq in Hj by (by eapply lookup_lt_Some). by simplify_eq.
    + rewrite list_lookup_insert_ne in Hj by done. destruct Hne.
      eapply (ok_unique _ _ _ Hok); [exact Hj|exact He|done|by apply terminal_stored|done].
  - intros id Hne. apply (view_put_other _ _ _ _ _ _ Hentries He); [|by apply unstored_holds].
    apply other_holds. congruence.
Qed.

(** How recording a transaction changes the map: it is added, and when no entry was
    free the least recently observed terminal transaction is forgotten. *)
Definition recorded (l l' : TransactionLedger) (id : Identity) (payload : Z) : Prop :=
  view l' id = Some (prepared l id payload) /\
  ((entry_count l < entry_capacity l /\ forall id', id' <> id -> view l' id' = view l id') \/
   (entry_count l = entry_capacity l /\ exists victim,
      oldest_terminal l victim /\ view l' (identity victim) = None /\
      forall id', id' <> id -> id' <> identity victim -> view l' id' = view l id')).

(** The ledger keeps its shape: capacity, generation and clock. *)
Definition same_shape (l l' : TransactionLedger) : Prop :=
  length (entries l') = length (entries l) /\ epoch l' = epoch l /\
  active_control_generation l' = active_control_generation l.

Lemma placed_shape l i e id payload : same_shape l (placed l i e id payload).
Proof.
  destruct (claimed_fields l e) as (_&_&_&_&F5&F6&_). unfold same_shape, placed.
  cbn [entries epoch active_control_generation set_field]. rewrite length_upd_nth. done.
Qed.

(** The last steps of [insert_entry], once an entry is selected. *)
Lemma place_spec l i e id payload :
  insertable (entries l) id i e ->
  wp (E := SparkStatus) (let! l := gets (fun l => l) in
      let! _entry := index (entries l) i in
      do! modify (fun l => l <| entries := upd_nth i
            (fun _ => mkEntry id payload (epoch l) STATE_PREPARED (status_code Pending)) (entries l) |>) in
      do! modify (fun l => l <| entry_count := entry_count l +u32 1 |>
            <| active_entry_count := active_entry_count l +u32 1 |>) in
      ret (New, Some i))
    (fun r l' => r = (New, Some i) /\ l' = placed l i e id payload) (fun _ _ => False) (claimed l e).
Proof.
  intros (Hi&He&_&_). destruct (claimed_fields l e) as (F1&_). apply wp_bind, wp_gets, wp_bind.
  eapply wp_index; [by rewrite F1|]. wp_steps. split; [done|]. unfold placed, claimed. by destruct (buried e).
Qed.

Lemma all_stored_full l :
  ledger_wf l -> (forall i e, entries l !! i = Some e -> stored e = true) -> entry_count l = entry_capacity l.
Proof.
  intros Hwf Hall. rewrite (wf_entries _ Hwf), (capacity_small l (wf_table _ Hwf)).
  clear Hwf. generalize dependent (entries l). intros es Hall.
  induction es as [|e es IH]; [done|]. cbn [countb length]. rewrite (Hall 0%nat e) by done. rewrite IH; [cbn; lia|].
  intros i f Hi. by apply (Hall (S i)).
Qed.

Lemma free_not_full l i e :
  ledger_wf l -> entries l !! i = Some e -> stored e = false -> entry_count l < entry_capacity l.
Proof.
  intros Hwf Hi Hs. rewrite (wf_entries _ Hwf), (capacity_small l (wf_table _ Hwf)).
  pose proof (countb_le_length stored (entries l)). destruct (decide (countb stored (entries l) = Z.of_nat (length (entries l)))) as [Heq|]; [|lia].
  pose proof (countb_full stored (entries l) Heq i e Hi). congruence.
Qed.

Lemma placed_recorded l i e id payload :
  ledger_wf l -> recordable l id payload -> insertable (entries l) id i e ->
  ledger_wf (placed l i e id payload) /\ same_shape l (placed l i e id payload) /\
  recorded l (placed l i e id payload) id payload.
Proof.
  intros Hwf Hrec Hins. split; [by apply placed_wf|]. split; [apply placed_shape|].
  destruct (placed_view _ _ _ _ _ Hwf Hrec Hins) as [Hv Ho]. split; [done|]. left. split; [|done].
  destruct Hins as (_&He&Hs&_). by eapply free_not_full.
Qed.

(** Recording in the entry freed by recycling. *)
Lemma recycled_recorded l i v id payload j e :
  ledger_wf l -> recordable l id payload -> entry_count l = entry_capacity l ->
  0 <= i -> entries l !! Z.to_nat i = Some v -> oldest_terminal l v ->
  insertable (entries (tombstoned l i)) id j e ->
  ledger_wf (placed (tombstoned l i) j e id payload) /\ same_shape l (placed (tombstoned l i) j e id payload) /\
  recorded l (placed (tombstoned l i) j e id payload) id payload.
Proof.
  intros Hwf Hrec Hfull Hi Hv (Hview&Ht&Hmin) Hins.
  pose proof (tombstoned_wf _ _ _ Hwf Hi Hv Ht) as Hwf'.
  destruct (tombstoned_view _ _ _ Hwf Hi Hv Ht) as [Hgone Hothers].
  assert (id <> identity v) as Hne by (intros ->; destruct Hrec as (_&_&_&Hnone); congruence).
  assert (recordable (tombstoned l i) id payload) as Hrec'.
  { destruct Hrec as (?&?&?&?). split; [done|]. split; [done|]. split; [done|]. by rewrite Hothers. }
  destruct (placed_view _ _ _ _ _ Hwf' Hrec' Hins) as [Hnew Hold].
  split; [by apply placed_wf|]. split.
  { destruct (placed_shape (tombstoned l i) j e id payload) as (S1&S2&S3). split; [|by rewrite S2, S3].
    rewrite S1. unfold tombstoned. cbn [entries set_field]. by rewrite length_upd_nth. }
  split; [done|]. right. split; [done|]. exists v. split; [done|]. split; [by rewrite Hold|].
  intros id' H1 H2. rewrite Hold by done. by apply Hothers.
Qed.

Lemma insert_entry_spec l id payload :
  ledger_wf l -> recordable l id payload -> epoch l < U64_MAX ->
  wp (insert_entry id payload)
    (fun r l' => (exists i, r = (New, Some i)) /\ ledger_wf l' /\ same_shape l l' /\ recorded l l' id payload)
    (fun status l' => l' = l /\ status = CapacityExceeded /\
       entry_count l = entry_capacity l /\ terminal_entry_count l = 0) l.
Proof.
  intros Hwf Hrec Hep. unfold insert_entry. apply wp_bind, wp_catch.
  eapply wp_mono; [apply (select_insertion_spec l id (wf_table _ Hwf))| |].
  - intros i l1 (e&Hins&->). eapply wp_mono; [by apply place_spec| |done]. intros r l' [-> ->].
    split; [eauto|]. by apply placed_recorded.
  - intros status l1 (->&->&Hall). pose proof (all_stored_full l Hwf Hall) as Hfull. apply wp_bind.
    eapply wp_mono; [by apply recycle_spec| |].
    + intros _ l1 (i&v&Hi&Hv&Hold&->). pose proof Hold as (_&Ht&_).
      pose proof (tombstoned_wf _ _ _ Hwf Hi Hv Ht) as Hwf'.
      eapply wp_mono; [apply (select_insertion_spec _ id (wf_table _ Hwf'))| |].
      * intros j l2 (e&Hins&->). eapply wp_mono; [by apply place_spec| |done]. intros r l' [-> ->].
        split; [eauto|]. by eapply recycled_recorded.
      * intros status l2 (_&_&Hall'). exfalso.
        assert (stored tombstone = true); [|done]. apply (Hall' (Z.to_nat i)).
        unfold tombstoned. cbn [entries set_field]. by rewrite (upd_nth_put _ _ _ _ Hv), list_lookup_insert_eq by (by eapply lookup_lt_Some).
    + intros status l1 (->&->&Hnone). split; [done|]. split; [done|]. split; [done|]. by rewrite (wf_terminal _ Hwf).
Qed.

(** ** Generations and the clock *)

Lemma stored_split es : countb stored es = countb active es + countb terminal es.
Proof.
  induction es as [|e es IH]; [done|]. cbn [countb]. rewrite IH. unfold active.
  destruct (stored e) eqn:Hs; cbn [andb]; [destruct (terminal e); cbn; lia|].
  destruct (unstored_flags e Hs) as [_ ->]. cbn. lia.
Qed.

Lemma ledger_validate_spec l : ledger_wf l -> validate l = Ret tt l.
Proof.
  intros Hwf. pose proof (ok_capacity _ _ _ (wf_table _ Hwf)) as Hcap.
  unfold validate, bind, gets. rewrite (capacity_small l (wf_table _ Hwf)).
  destruct Hwf as [_ -> -> -> -> _].
  pose proof (stored_split (entries l)). pose proof (countb_le_length stored (entries l)).
  pose proof (countb_le_length buried (entries l)). pose proof (countb_nonneg active (entries l)).
  pose proof (countb_nonneg terminal (entries l)). rewrite u32_small by lia.
  rewrite (proj2 (Z.eqb_neq _ _)) by lia.
  repeat match goal with |- context [?a <? ?b] => rewrite (proj2 (Z.ltb_ge a b)) by lia end.
  rewrite (proj2 (Z.eqb_eq _ _)) by lia. done.
Qed.

Definition emptied (l : TransactionLedger) (g : Z) : TransactionLedger :=
  mkLedger (replicate (length (entries l)) default_entry) 0 0 0 0 0 g.

Lemma fresh_table n g : 0 < Z.of_nat n <= 2147483648 -> table_ok (replicate n default_entry) g 0.
Proof.
  intros Hn. assert (forall i e, replicate n default_entry !! i = Some e -> e = default_entry) as Hd.
  { intros i e Hi. apply lookup_replicate in Hi. by destruct Hi. }
  split; [by rewrite length_replicate|..].
  - intros i e ->%Hd. done.
  - intros i e ->%Hd. done.
  - intros i j e f ->%Hd _ Hs. done.
  - intros i e ->%Hd. done.
Qed.

Lemma fresh_wf n g : 0 < Z.of_nat n <= 2147483648 -> ledger_wf (mkLedger (replicate n default_entry) 0 0 0 0 0 g).
Proof.
  intros Hn. assert (forall p, p default_entry = false -> countb p (replicate n default_entry) = 0) as Hc.
  { intros p Hp. apply countb_0. intros i e Hi. apply lookup_replicate in Hi as [-> _]. done. }
  split; cbn [entries entry_count active_entry_count terminal_entry_count tombstone_entry_count epoch
    active_control_generation]; rewrite ?Hc by done; try done. by apply fresh_table.
Qed.

Lemma fresh_view n g id : view (mkLedger (replicate n default_entry) 0 0 0 0 0 g) id = None.
Proof.
  destruct (view _ id) as [e|] eqn:Hv; [|done]. apply view_lookup in Hv as (i&Hi&Hs&_).
  apply lookup_replicate in Hi as [-> _]. done.
Qed.

(** The transactions that survive the step to generation [g]. *)
Definition surviving (l : TransactionLedger) (g : Z) (id : Identity) : option LedgerEntry :=
  if active_control_generation l =? g then view l id else None.

(** The ledger [observe] works on: the current one, or an empty one when the
    generation advances. *)
Definition entered (l : TransactionLedger) (g : Z) : TransactionLedger :=
  if active_control_generation l =? g then l else emptied l g.

Lemma entered_spec l g :
  ledger_wf l -> ledger_wf (entered l g) /\ length (entries (entered l g)) = length (entries l) /\
  active_control_generation (entered l g) = g /\ 0 <= epoch (entered l g) <= epoch l /\
  forall id, view (entered l g) id = surviving l g id.
Proof.
  intros Hwf. unfold entered, surviving. pose proof (wf_epoch _ Hwf).
  destruct (Z.eqb_spec (active_control_generation l) g) as [Hg|Hg].
  { split; [done|]. split; [done|]. split; [done|]. split; [lia|done]. }
  split; [apply fresh_wf, (wf_table _ Hwf)|]. split; [apply length_replicate|]. split; [done|].
  split; [cbn; lia|]. intros id. apply fresh_view.
Qed.

Lemma prepare_spec l g :
  ledger_wf l -> g <> 0 ->
  wp (prepare_control_generation g)
    (fun _ l' => l' = entered l g /\
       (active_control_generation l = 0 \/ active_control_generation l = g \/
        active_control_generation l < g /\ active_entry_count l = 0))
    (fun status l' => l' = l /\ active_control_generation l <> 0 /\
       (status = ValidationFailed /\ g < active_control_generation l \/
        status = Busy /\ active_control_generation l < g /\ active_entry_count l <> 0)) l.
Proof.
  intros Hwf Hg. unfold prepare_control_generation, entered. wp_steps.
  destruct (Z.eqb_spec (active_control_generation l) 0) as [Hz|Hz].
  { unfold reset. wp_steps. rewrite (proj2 (Z.eqb_neq (active_control_generation l) g)) by lia. auto. }
  destruct (Z.eqb_spec g (active_control_generation l)) as [->|Hne].
  { wp_steps. rewrite Z.eqb_refl. auto. }
  rewrite (proj2 (Z.eqb_neq (active_control_generation l) g)) by lia. destruct (Z.ltb_spec g (active_control_generation l)).
  { wp_steps. auto. }
  destruct (Z.eqb_spec (active_entry_count l) 0) as [Ha|Ha]; cbn [negb].
  - unfold reset. wp_steps. split; [done|]. right. right. split; [lia|done].
  - wp_steps. split; [done|]. split; [done|]. right. split; [done|]. split; [lia|done].
Qed.

Definition ticked (l : TransactionLedger) : TransactionLedger := l <| epoch := epoch l + 1 |>.

Lemma bump_epoch_spec l : 0 <= epoch l < U64_MAX -> bump_epoch l = Ret tt (ticked l).
Proof.
  intros He. unfold bump_epoch, bind, modify, ticked. unfold set_field. cbn. rewrite u64_small by lia.
  rewrite (proj2 (Z.eqb_neq _ _)) by lia. done.
Qed.

Lemma ticked_wf l : ledger_wf l -> epoch l < U64_MAX -> ledger_wf (ticked l).
Proof.
  intros [Hok ? ? ? ? ?] He. split; try done; [|cbn; lia]. destruct Hok as [H1 H2 H3 H4 H5].
  split; try done. intros i e Hi Hs. destruct (H5 i e Hi Hs) as (?&?&?&?&?). cbn [epoch ticked set_field] in *.
  repeat split; try done; cbn; lia.
Qed.

Lemma ticked_view l id : view (ticked l) id = view l id.
Proof. done. Qed.

(** ** Observing *)

Lemma table_relabel es g last i e e' :
  table_ok es g last -> es !! i = Some e -> stored e = true -> stored e' = true -> identity e' = identity e ->
  entry_ok g last e' -> table_ok (<[i:=e']> es) g last.
Proof.
  intros Hok Hi Hs Hs' Hid Hok'. eapply table_put; [done|done|lia| | |].
  - intros _. by apply stored_nonempty.
  - apply stored_cases in Hs'. unfold STATE_PREPARED, STATE_FAILED, STATE_TOMBSTONE in *. lia.
  - intros _. rewrite Hid. split; [by eapply (ok_probe _ _ _ Hok)|]. split; [done|].
    intros j f Hj Hf Hsf Heq. apply Hj. by eapply (ok_unique _ _ _ Hok).
Qed.

Lemma view_relabel l l' i e e' :
  table_ok (entries l') (active_control_generation l') (epoch l') ->
  entries l' = <[i:=e']> (entries l) -> entries l !! i = Some e -> stored e' = true -> identity e' = identity e ->
  view l' (identity e) = Some e' /\ forall id, id <> identity e -> view l' id = view l id.
Proof.
  intros Hok Hl Hi Hs' Hid. split.
  - rewrite <-Hid. eapply view_intro; [done| |done]. rewrite Hl. apply list_lookup_insert_eq. by eapply lookup_lt_Some.
  - intros id Hne. eapply view_put_other; [done|done|..]; apply other_holds; congruence.
Qed.

(** What observing a recorded transaction reports. *)
Definition observation_of (e : LedgerEntry) (payload : Z) : Observation :=
  if negb (payload_fingerprint e =? payload) then Conflict
  else if terminal e then ReplayTerminal else ReplayActive.

(** The generation of a transaction is current, or newer with nothing active. *)
Definition generation_enters (l : TransactionLedger) (g : Z) : Prop :=
  active_control_generation l = 0 \/ active_control_generation l = g \/
  (active_control_generation l < g /\ active_entry_count l = 0).

(** A successful [observe]: a recorded transaction is reported and stamped, an
    unknown one is recorded. *)
Definition observed (l : TransactionLedger) (id : Identity) (payload : Z) (o : Observation)
    (l' : TransactionLedger) : Prop :=
  let g := control_generation id in
  generation_enters l g /\ active_control_generation l' = g /\
  match surviving l g id with
  | Some e => o = observation_of e payload /\ view l' id = Some (e <| last_observed_epoch := epoch l' |>) /\
      forall id', id' <> id -> view l' id' = view l id'
  | None => o = New /\ recorded (ticked (entered l g)) l' id payload
  end.

(** A refused [observe]: nothing but the clock changes. *)
Definition refused (l : TransactionLedger) (id : Identity) (payload : Z) (status : SparkStatus)
    (l' : TransactionLedger) : Prop :=
  let g := control_generation id in
  (status = InvalidArgument /\ l' = l /\ (payload = 0 \/ validate_identity id = false)) \/
  (status = ValidationFailed /\ l' = l /\ active_control_generation l <> 0 /\ g < active_control_generation l) \/
  (status = Busy /\ l' = l /\ active_control_generation l <> 0 /\ active_control_generation l < g /\
     active_entry_count l <> 0) \/
  (status = CapacityExceeded /\ l' = ticked l /\ active_control_generation l = g /\ view l id = None /\
     active_entry_count l = entry_capacity l).

Lemma lookup_internal_spec l id :
  ledger_wf l ->
  wp (lookup_internal id)
    (fun found l' => l' = l /\ match found with
       | Some i => 0 <= i /\ exists e, entries l !! Z.to_nat i = Some e /\ view l id = Some e
       | None => view l id = None end)
    (fun _ _ => False) l.
Proof.
  intros Hwf. unfold lookup_internal. apply wp_catch, wp_bind.
  eapply wp_mono; [apply (find_internal_spec l id (wf_table _ Hwf))| |].
  - intros i l' (->&Hi&He). apply wp_ret. done.
  - intros status l' (->&->&Hv). apply wp_ret. done.
Qed.

Lemma restamped_wf l i e :
  ledger_wf l -> entries l !! Z.to_nat i = Some e -> stored e = true ->
  ledger_wf (l <| entries := upd_nth i (fun e => e <| last_observed_epoch := epoch l |>) (entries l) |>) /\
  entries (l <| entries := upd_nth i (fun e => e <| last_observed_epoch := epoch l |>) (entries l) |>) =
    <[Z.to_nat i := e <| last_observed_epoch := epoch l |>]> (entries l).
Proof.
  intros Hwf Hi Hs. cbn [entries set_field].
  assert (upd_nth i (fun e => e <| last_observed_epoch := epoch l |>) (entries l) =
    <[Z.to_nat i := e <| last_observed_epoch := epoch l |>]> (entries l)) as Hupd.
  { rewrite <-(upd_nth_put _ _ _ _ Hi). unfold upd_nth. apply list_alter_ext; [|done]. intros f Hf. by simplify_eq. }
  split; [|done]. destruct Hwf as [Hok Hc1 Hc2 Hc3 Hc4 Hep].
  split; cbn [entries entry_count active_entry_count terminal_entry_count tombstone_entry_count epoch
    active_control_generation set_field]; rewrite ?Hupd, ?(countb_insert _ _ _ _ _ Hi).
  - eapply table_relabel; [done|done|done|done|done|].
    destruct (ok_entry _ _ _ Hok _ _ Hi Hs) as (?&?&?&?&?). repeat split; try done; cbn; lia.
  - change (stored (_ <| last_observed_epoch := _ |>)) with (stored e). lia.
  - change (active (_ <| last_observed_epoch := _ |>)) with (active e). lia.
  - change (terminal (_ <| last_observed_epoch := _ |>)) with (terminal e). lia.
  - change (buried (_ <| last_observed_epoch := _ |>)) with (buried e). lia.
  - done.
Qed.

(** The ledger stays consistent and its clock advances by at most one. *)
Definition ledger_ok (l l' : TransactionLedger) : Prop :=
  ledger_wf l' /\ length (entries l') = length (entries l) /\ epoch l' <= epoch l + 1.

Lemma ledger_ok_refl l : ledger_wf l -> ledger_ok l l.
Proof. intros. split; [done|]. split; [done|lia]. Qed.

Lemma ledger_ok_ticked l : ledger_wf l -> epoch l < U64_MAX -> ledger_ok l (ticked l).
Proof. intros. split; [by apply ticked_wf|]. split; [done|]. cbn. lia. Qed.

Lemma wp_validate l Q (R : SparkStatus -> TransactionLedger -> Prop) : ledger_wf l -> Q tt l -> wp validate Q R l.
Proof. intros Hwf HQ. unfold wp. by rewrite (ledger_validate_spec l Hwf). Qed.

Lemma wp_check_identity l id Q R :
  (validate_identity id = true -> Q tt l) -> (validate_identity id = false -> R InvalidArgument l) ->
  wp (check_identity id) Q R l.
Proof. intros. unfold check_identity. destruct (validate_identity id); wp_steps; auto. Qed.

Lemma valid_generation id : validate_identity id = true -> control_generation id <> 0.
Proof.
  unfold validate_identity. rewrite negb_true_iff, !orb_false_iff. intros [[[[[[[H _] _] _] _] _] _] _].
  by apply Z.eqb_neq in H.
Qed.

(** [observe] once the generation is entered and the clock ticked. *)
Lemma observe_entered_spec l id payload :
  ledger_wf l -> epoch l < U64_MAX -> validate_identity id = true -> payload <> 0 ->
  control_generation id = active_control_generation l ->
  wp (let! found := lookup_internal id in
      match found with
      | Some entry_index =>
          let! l := gets (fun l => l) in
          let! entry := index (entries l) entry_index in
          do! modify (fun l => l <| entries := upd_nth entry_index
                (fun e => e <| last_observed_epoch := epoch l |>) (entries l) |>) in
          if negb (payload_fingerprint entry =? payload) then ret (Conflict, Some entry_index)
          else ret (if state_is_terminal (state entry) then ReplayTerminal else ReplayActive, Some entry_index)
      | None => insert_entry id payload
      end)
    (fun r l' => ledger_wf l' /\ same_shape l l' /\ is_Some (snd r) /\
       match view l id with
       | Some e => fst r = observation_of e payload /\ view l' id = Some (e <| last_observed_epoch := epoch l' |>) /\
           forall id', id' <> id -> view l' id' = view l id'
       | None => fst r = New /\ recorded l l' id payload end)
    (fun status l' => l' = l /\ status = CapacityExceeded /\ view l id = None /\
       entry_count l = entry_capacity l /\ terminal_entry_count l = 0) l.
Proof.
  intros Hwf Hep Hid Hp Hgen. apply wp_bind. eapply wp_mono; [by apply lookup_internal_spec| |done].
  intros [i|] l1 [-> Hfound].
  - destruct Hfound as (Hi&e&He&Hv). pose proof (view_lookup _ _ _ Hv) as (j&Hj&Hs&<-).
    destruct (restamped_wf l i e Hwf He Hs) as [Hwf' Hentries].
    destruct (view_relabel l _ _ e _ (wf_table _ Hwf') Hentries He Hs eq_refl) as [Hnew Hold].
    apply wp_bind, wp_gets, wp_bind. eapply wp_index; [done|]. wp_steps. rewrite Hv.
    assert (same_shape l (l <| entries := upd_nth i (fun e => e <| last_observed_epoch := epoch l |>) (entries l) |>))
      as Hshape by (split; [cbn [entries set_field]; by rewrite length_upd_nth|done]).
    unfold observation_of, terminal. destruct (negb _); wp_steps.
    + split; [done|]. split; [done|]. split; [done|]. done.
    + split; [done|]. split; [done|]. split; [done|]. done.
  - rewrite Hfound. eapply wp_mono; [by apply insert_entry_spec| |].
    + intros r l' ((i&->)&Hwf'&Hshape&Hrec). split; [done|]. split; [done|]. split; [done|]. done.
    + intros status l' (->&->&Hfull&Hnone). done.
Qed.

Lemma observe_spec l id payload :
  ledger_wf l -> epoch l < U64_MAX - 1 ->
  wp (observe id payload)
    (fun r l' => ledger_ok l l' /\ is_Some (snd r) /\ observed l id payload (fst r) l')
    (fun status l' => ledger_ok l l' /\ refused l id payload status l') l.
Proof.
  intros Hwf Hep. unfold observe. pose proof (ledger_ok_refl l Hwf).
  destruct (Z.eqb_spec payload 0) as [->|Hp]; [wp_steps; split; [done|left; auto]|].
  apply wp_bind, wp_validate; [done|]. apply wp_bind, wp_check_identity; intros Hid; [|split; [done|left; auto]].
  apply wp_bind. eapply wp_mono; [apply (prepare_spec l _ Hwf (valid_generation id Hid))| |].
  2:{ intros status l' (->&Hz&[[-> ?]|(->&?&?)]); (split; [done|]); unfold refused; [right; left|right; right; left]; auto. }
  intros _ l1 [-> Henter]. set (l1 := entered l (control_generation id)).
  destruct (entered_spec l (control_generation id) Hwf) as (Hwf1&Hlen&Hgen&Hep1&Hview). fold l1 in Hwf1, Hlen, Hgen, Hep1, Hview.
  apply wp_bind. unfold wp at 1. rewrite bump_epoch_spec by lia.
  eapply wp_mono; [apply (observe_entered_spec (ticked l1) id payload)|..].
  - apply ticked_wf; [done|lia].
  - cbn; lia.
  - done.
  - done.
  - done.
  - intros r l' (Hwf'&(S1&S2&S3)&Hsome&Hres). split; [|split; [done|]].
    + split; [done|]. split; [rewrite S1; done|]. rewrite S2. cbn. lia.
    + split; [done|]. split; [by rewrite S3|]. cbv zeta. rewrite ticked_view, Hview in Hres.
      destruct (surviving l _ id) as [e|] eqn:Hsv; [|done]. destruct Hres as (?&?&Hothers). split; [done|]. split; [done|].
      intros id' Hne. rewrite Hothers, ticked_view, Hview by done. unfold surviving in Hsv |- *.
      by destruct (_ =? _).
  - intros status l' (->&->&Hv&Hfull&Hnone). rewrite ticked_view, Hview in Hv.
    destruct (decide (active_control_generation l = control_generation id)) as [Heq|Hne].
    + assert (l1 = l) as Hl1 by (unfold l1, entered; by rewrite Heq, Z.eqb_refl). rewrite Hl1 in *.
      split; [apply ledger_ok_ticked; [done|lia]|]. right. right. right. split; [done|]. split; [done|]. split; [done|].
      split; [unfold surviving in Hv; by rewrite Heq, Z.eqb_refl in Hv|].
      change (entry_count l = entry_capacity l) in Hfull. change (terminal_entry_count l = 0) in Hnone.
      pose proof (stored_split (entries l)). rewrite (wf_entries _ Hwf) in Hfull. rewrite (wf_terminal _ Hwf) in Hnone.
      rewrite (wf_active _ Hwf). lia.
    + exfalso. assert (l1 = emptied l (control_generation id)) as Hl1
        by (unfold l1, entered; by rewrite (proj2 (Z.eqb_neq _ _))).
      pose proof (capacity_small _ (wf_table _ Hwf1)) as Hcap. rewrite Hlen in Hcap.
      assert (entry_count l1 = entry_capacity l1) as Hfull' by done.
      rewrite Hcap, Hl1 in Hfull'. pose proof (ok_capacity _ _ _ (wf_table _ Hwf)). cbn in Hfull'. lia.
Qed.

(** ** Transitions *)

(** The error a transition reports, read off the recorded transaction. *)
Definition transition_error (l : TransactionLedger) (id : Identity) (target : Z) (status : SparkStatus)
    : option SparkStatus :=
  if negb (validate_identity id && state_is_stored target) then Some InvalidArgument
  else match view l id with
  | None => Some NotFound
  | Some e =>
      if terminal e then
        if (state e =? target) && (terminal_status e =? status_code status)
        then Some Duplicate else Some InvalidArgument
      else if transition_is_legal (state e) target then None else Some InvalidArgument
  end.

(** The entry after a transition observed at [now]. *)
Definition moved (e : LedgerEntry) (now target : Z) (status : SparkStatus) : LedgerEntry :=
  mkEntry (identity e) (payload_fingerprint e) now target
    (if state_is_terminal target then status_code status else status_code Pending).

(** The ledger a transition leaves. *)
Definition moved_ledger (l : TransactionLedger) (i : Z) (e : LedgerEntry) (target : Z) (status : SparkStatus)
    : TransactionLedger :=
  let finishes := state_is_terminal target in
  mkLedger (<[Z.to_nat i := moved e (epoch l + 1) target status]> (entries l)) (entry_count l)
    (if finishes then active_entry_count l -u32 1 else active_entry_count l)
    (if finishes then terminal_entry_count l +u32 1 else terminal_entry_count l)
    (tombstone_entry_count l) (epoch l + 1) (active_control_generation l).

Lemma stored_state target : state_is_stored target = true -> STATE_PREPARED <= target <= STATE_FAILED.
Proof. unfold state_is_stored. rewrite andb_true_iff, !Z.leb_le. done. Qed.

Lemma moved_wf l i e target status :
  ledger_wf l -> epoch l < U64_MAX -> entries l !! Z.to_nat i = Some e -> active e = true ->
  state_is_stored target = true -> ledger_wf (moved_ledger l i e target status).
Proof.
  intros Hwf Hep Hi Ha Hst. pose proof Ha as [Hs Ht]%active_spec. pose proof (wf_table _ (ticked_wf l Hwf Hep)) as Hok.
  pose proof (ok_capacity _ _ _ Hok) as [_ Hcap]. cbn [entries ticked set_field] in Hcap.
  pose proof (countb_ge_1 active _ _ _ Hi Ha). pose proof (count_bound active _ Hcap). pose proof (count_bound terminal _ Hcap).
  destruct Hwf as [Hok0 Hc1 Hc2 Hc3 Hc4 Hep0].
  assert (buried e = false) as Hb.
  { apply Z.eqb_neq. apply stored_cases in Hs. unfold STATE_FAILED, STATE_TOMBSTONE in *. lia. }
  assert (buried (moved e (epoch l + 1) target status) = false) as Hb'.
  { apply Z.eqb_neq. apply stored_state in Hst. cbn. unfold STATE_FAILED, STATE_TOMBSTONE in *. lia. }
  unfold moved_ledger. split; cbn [entries entry_count active_entry_count terminal_entry_count tombstone_entry_count epoch
    active_control_generation]; rewrite ?(countb_insert _ _ _ _ _ Hi).
  - eapply table_relabel; [exact Hok|exact Hi|done|done|done|].
    destruct (ok_entry _ _ _ Hok0 _ _ Hi Hs) as (?&?&?&?&Hpend). split; [done|]. split; [done|]. split; [done|].
    split; [cbn; lia|]. unfold terminal. cbn [moved state terminal_status]. intros Hnt. by rewrite Hnt.
  - change (stored (moved e (epoch l + 1) target status)) with (state_is_stored target). rewrite Hs, Hst. cbn [b2z]. lia.
  - unfold active at 3. change (stored (moved e (epoch l + 1) target status)) with (state_is_stored target).
    change (terminal (moved e (epoch l + 1) target status)) with (state_is_terminal target).
    rewrite Ha, Hst. destruct (state_is_terminal target); cbn [andb negb b2z]; [rewrite u32_small|]; lia.
  - change (terminal (moved e (epoch l + 1) target status)) with (state_is_terminal target).
    rewrite Ht. destruct (state_is_terminal target); cbn [b2z]; [rewrite u32_small|]; lia.
  - rewrite Hb, Hb'. cbn [b2z]. lia.
  - lia.
Qed.

Lemma moved_view l i e target status :
  ledger_wf l -> epoch l < U64_MAX -> entries l !! Z.to_nat i = Some e -> active e = true ->
  state_is_stored target = true ->
  view (moved_ledger l i e target status) (identity e) = Some (moved e (epoch l + 1) target status) /\
  forall id, id <> identity e -> view (moved_ledger l i e target status) id = view l id.
Proof.
  intros Hwf Hep Hi Ha Hst. apply (view_relabel l _ (Z.to_nat i) e); [|done|done|done|done].
  by apply (wf_table _ (moved_wf _ _ _ _ _ Hwf Hep Hi Ha Hst)).
Qed.

(** What a successful transition does to the map. *)
Definition transitioned (l : TransactionLedger) (id : Identity) (target : Z) (status : SparkStatus)
    (l' : TransactionLedger) : Prop :=
  exists e, view l id = Some e /\ active e = true /\ transition_is_legal (state e) target = true /\
    view l' id = Some (moved e (epoch l') target status) /\
    (forall id', id' <> id -> view l' id' = view l id') /\
    active_control_generation l' = active_control_generation l.

Lemma double_update (es : list LedgerEntry) i e now target status :
  es !! Z.to_nat i = Some e ->
  upd_nth i (fun e => e <| state := target |>
      <| terminal_status := if state_is_terminal target then status_code status else status_code Pending |>)
    (upd_nth i (fun e => e <| last_observed_epoch := now |>) es) =
  <[Z.to_nat i := moved e now target status]> es.
Proof.
  intros Hi. apply list_eq. intros j. destruct (decide (j = Z.to_nat i)) as [->|Hne].
  - rewrite list_lookup_insert_eq by (by eapply lookup_lt_Some).
    erewrite lookup_upd_nth_eq; [|by apply lookup_upd_nth_eq]. done.
  - by rewrite list_lookup_insert_ne, !lookup_upd_nth_ne by congruence.
Qed.

(** The writes of a transition after the clock has ticked. *)
Lemma apply_move_spec l i e target status Q R :
  entries l !! Z.to_nat i = Some e -> Q tt (moved_ledger l i e target status) ->
  wp (E := SparkStatus)
    (do! modify (fun l => l <| entries := upd_nth i (fun e => e <| last_observed_epoch := epoch l |>) (entries l) |>) in
     do! (if state_is_terminal target then
            modify (fun l => l <| active_entry_count := active_entry_count l -u32 1 |>
              <| terminal_entry_count := terminal_entry_count l +u32 1 |>)
          else ret tt) in
     modify (fun l => l <| entries := upd_nth i
       (fun e => e <| state := target |>
         <| terminal_status := if state_is_terminal target then status_code status else status_code Pending |>)
       (entries l) |>)) Q R (ticked l).
Proof.
  intros He HQ. wp_steps.
  assert (forall l1, entries l1 = upd_nth i (fun e => e <| last_observed_epoch := epoch l + 1 |>) (entries l) ->
    (l1 <| entries := upd_nth i
       (fun e => e <| state := target |>
         <| terminal_status := if state_is_terminal target then status_code status else status_code Pending |>)
       (entries l1) |>) =
    (l1 <| entries := <[Z.to_nat i := moved e (epoch l + 1) target status]> (entries l) |>)) as Hfinal.
  { intros l1 ->. rewrite (double_update _ _ e) by done. done. }
  unfold moved_ledger in HQ. destruct (state_is_terminal target) eqn:Hterm; wp_steps;
    rewrite Hfinal by done; exact HQ.
Qed.

Lemma transition_spec l id target status :
  ledger_wf l -> epoch l < U64_MAX - 1 ->
  wp (transition id target status)
    (fun _ l' => ledger_ok l l' /\ transition_error l id target status = None /\ transitioned l id target status l')
    (fun error l' => l' = l /\ transition_error l id target status = Some error) l.
Proof.
  intros Hwf Hep. unfold transition. apply wp_bind, wp_validate; [done|].
  apply wp_bind, wp_check_identity; intros Hid; unfold transition_error; rewrite Hid; cbn [andb negb]; [|done].
  destruct (state_is_stored target) eqn:Hst; cbn [negb]; [|by apply wp_throw].
  apply wp_bind. eapply wp_mono; [apply (find_internal_spec l id (wf_table _ Hwf))| |].
  2:{ intros error l' (->&->&->). done. }
  intros i l' (->&Hi&e&He&Hv). rewrite Hv. apply wp_bind, wp_gets, wp_bind. eapply wp_index; [done|].
  fold (terminal e). destruct (terminal e) eqn:Ht.
  { destruct (_ && _); by apply wp_throw. }
  destruct (transition_is_legal (state e) target) eqn:Hlegal; cbn [negb]; [|by apply wp_throw].
  pose proof (view_lookup _ _ _ Hv) as (j&Hj&Hs&<-). assert (active e = true) as Ha by (by apply active_spec).
  apply wp_bind. unfold wp at 1. rewrite bump_epoch_spec by (pose proof (wf_epoch _ Hwf); lia).
  assert (ledger_ok l (moved_ledger l i e target status)) as Hok.
  { split; [apply moved_wf; [done|lia|done|done|done]|]. split; [apply length_insert|cbn; lia]. }
  assert (transitioned l (identity e) target status (moved_ledger l i e target status)) as Htr.
  { destruct (moved_view l i e target status Hwf ltac:(lia) He Ha Hst) as [Hnew Hold]. exists e. done. }
  by apply (apply_move_spec l i e).
Qed.
