(* ===== verification/WorkLedgerProps.v ===== *)
(** * The transaction ledger: what the rank daemon relies on

    The properties of the ledger over any sequence of calls: exact counters and
    findable entries, the behaviour of [observe] and [transition] on the map of
    recorded transactions, and exactly-once admission. *)

From S2P Require Import Prelude Bytes WorkTransaction WorkLedger WorkLedgerInv.

(** ** Calls and reachable ledgers *)

Inductive ledger_call :=
| Observe (id : Identity) (payload : Z)
| Transition (id : Identity) (target : Z) (status : SparkStatus)
| DistributedObserve (id : Identity) (payload : Z)
| DistributedTransition (id : Identity) (payload target : Z) (status : SparkStatus).

Definition ledger_run (call : ledger_call) : LM unit :=
  match call with
  | Observe id payload => let! _r := observe id payload in ret tt
  | Transition id target status => transition id target status
  | DistributedObserve id payload => let! _i := distributed_observe id payload in ret tt
  | DistributedTransition id payload target status => distributed_transition id payload target status
  end.

(** The ledger after a call, successful or not. *)
Definition ledger_step (call : ledger_call) (l l' : TransactionLedger) : Prop :=
  ledger_run call l = Ret tt l' \/ exists e, ledger_run call l = Fails e l'.

(** Ledgers reached in [n] calls of a set from a given one. *)
Inductive ledger_steps (allowed : ledger_call -> Prop) (l : TransactionLedger) : Z -> TransactionLedger -> Prop :=
| steps_none : ledger_steps allowed l 0 l
| steps_more n l1 call l2 : ledger_steps allowed l n l1 -> allowed call -> ledger_step call l1 l2 ->
    ledger_steps allowed l (n + 1) l2.

Definition ledger_reachable (capacity n : Z) (l : TransactionLedger) : Prop :=
  exists l0, new capacity tt = Ret l0 tt /\ ledger_steps (fun _ => True) l0 n l.

(** ** The calls one by one *)

Lemma find_spec l id :
  ledger_wf l ->
  wp (find id) (fun e l' => l' = l /\ validate_identity id = true /\ view l id = Some e)
    (fun status l' => l' = l /\ (status = InvalidArgument /\ validate_identity id = false \/
       status = NotFound /\ validate_identity id = true /\ view l id = None)) l.
Proof.
  intros Hwf. unfold find. apply wp_bind, wp_validate; [done|]. apply wp_bind, wp_check_identity; intros Hid; [|auto].
  apply wp_bind. eapply wp_mono; [apply (find_internal_spec l id (wf_table _ Hwf))| |].
  - intros i l' (->&_&e&He&Hv). wp_steps. done.
  - intros status l' (->&->&Hv). auto.
Qed.

Lemma distributed_observe_spec l id payload :
  ledger_wf l -> epoch l < U64_MAX - 1 ->
  wp (distributed_observe id payload)
    (fun _ l' => ledger_ok l l' /\ observed l id payload New l')
    (fun status l' => ledger_ok l l' /\ (refused l id payload status l' \/
       exists o, observed l id payload o l' /\
         (status = ValidationFailed /\ o = Conflict \/
          status = Duplicate /\ (o = ReplayActive \/ o = ReplayTerminal)))) l.
Proof.
  intros Hwf Hep. unfold distributed_observe. apply wp_bind. eapply wp_mono; [by apply observe_spec| |].
  - intros [o i] l' (Hok&[j Hj]&Hobs). cbn [snd] in Hj. subst i. cbn [fst] in Hobs.
    destruct o; wp_steps; (split; [done|]); try done; right; eexists; (split; [exact Hobs|]); auto.
  - intros status l' [Hok Href]. auto.
Qed.

(** The error of a distributed transition. *)
Definition distributed_error (l : TransactionLedger) (id : Identity) (payload target : Z) (status : SparkStatus)
    : option SparkStatus :=
  if negb (validate_identity id) then Some InvalidArgument
  else match view l id with
  | None => Some NotFound
  | Some e =>
      if negb (payload_fingerprint e =? payload) then Some ValidationFailed
      else match transition_error l id target status with
           | Some InvalidArgument => Some ValidationFailed
           | r => r
           end
  end.

Lemma distributed_transition_spec l id payload target status :
  ledger_wf l -> epoch l < U64_MAX - 1 ->
  wp (distributed_transition id payload target status)
    (fun _ l' => ledger_ok l l' /\ distributed_error l id payload target status = None /\
       transitioned l id target status l')
    (fun error l' => l' = l /\ distributed_error l id payload target status = Some error) l.
Proof.
  intros Hwf Hep. unfold distributed_transition, distributed_error. apply wp_bind.
  eapply wp_mono; [by apply find_spec| |].
  2:{ intros error l' (->&[[-> ->]|(->&->&->)]); done. }
  intros e l' (->&->&->). cbn [negb]. destruct (negb _); [by apply wp_throw|].
  apply wp_catch. eapply wp_mono; [by apply transition_spec| |].
  - intros _ l' (Hok&->&Htr). done.
  - intros error l' [-> ->]. destruct error; by apply wp_throw.
Qed.

Lemma ledger_run_spec l call :
  ledger_wf l -> epoch l < U64_MAX - 1 ->
  wp (ledger_run call) (fun _ l' => ledger_ok l l') (fun _ l' => ledger_ok l l') l.
Proof.
  intros Hwf Hep. destruct call; cbn [ledger_run].
  - apply wp_bind. eapply wp_mono; [by apply observe_spec| |]; [|naive_solver].
    intros r l' [? _]. by apply wp_ret.
  - eapply wp_mono; [by apply transition_spec|naive_solver|]. intros e l' [-> _]. by apply ledger_ok_refl.
  - apply wp_bind. eapply wp_mono; [by apply distributed_observe_spec| |]; [|naive_solver].
    intros r l' [? _]. by apply wp_ret.
  - eapply wp_mono; [by apply distributed_transition_spec|naive_solver|]. intros e l' [-> _]. by apply ledger_ok_refl.
Qed.

Lemma ledger_step_ok l call l' :
  ledger_wf l -> epoch l < U64_MAX - 1 -> ledger_step call l l' -> ledger_ok l l'.
Proof.
  intros Hwf Hep. pose proof (ledger_run_spec l call Hwf Hep) as H. intros [Hr|[e Hr]]; unfold wp in H; by rewrite Hr in H.
Qed.

Lemma ledger_steps_ok allowed l n l' :
  ledger_wf l -> ledger_steps allowed l n l' -> epoch l + n < U64_MAX ->
  0 <= n /\ ledger_wf l' /\ length (entries l') = length (entries l) /\ epoch l' <= epoch l + n.
Proof.
  intros Hwf. induction 1 as [|n l1 call l2 Hsteps IH Hcall Hstep]; intros Hn.
  { split; [lia|]. split; [done|]. split; [done|lia]. }
  destruct IH as (Hn'&Hwf1&Hlen&Hep); [lia|].
  destruct (ledger_step_ok l1 call l2) as (Hwf2&Hlen2&Hep2); [done|lia|done|].
  split; [lia|]. split; [done|]. split; [congruence|lia].
Qed.

Lemma reachable_wf capacity n l :
  1 <= capacity <= 2147483648 -> ledger_reachable capacity n l -> n < U64_MAX ->
  ledger_wf l /\ Z.of_nat (length (entries l)) = capacity /\ epoch l <= n.
Proof.
  intros Hcap (l0&Hnew&Hsteps) Hn. unfold new in Hnew. rewrite (proj2 (Z.eqb_neq _ _)) in Hnew by lia.
  unfold ret in Hnew. injection Hnew as <-.
  destruct (ledger_steps_ok _ _ _ _ (fresh_wf (Z.to_nat capacity) 0 ltac:(lia)) Hsteps) as (_&Hwf&Hlen&Hep); [cbn; lia|].
  cbn [entries epoch] in Hlen, Hep. rewrite length_replicate in Hlen. split; [done|]. split; [lia|lia].
Qed.

(** ** Kept transactions *)

(** An active transaction with the payload it was admitted with. *)
Definition pending_with (l : TransactionLedger) (id : Identity) (payload : Z) : Prop :=
  exists e, view l id = Some e /\ active e = true /\ payload_fingerprint e = payload.

(** Calls that do not finish the transaction [id]. *)
Definition spares (id : Identity) (call : ledger_call) : Prop :=
  match call with
  | Transition id' target _ | DistributedTransition id' _ target _ => id' = id -> state_is_terminal target = false
  | Observe _ _ | DistributedObserve _ _ => True
  end.

Lemma pending_counts l id payload : ledger_wf l -> pending_with l id payload ->
  active_entry_count l <> 0 /\ control_generation id = active_control_generation l /\
  validate_identity id = true /\ payload <> 0.
Proof.
  intros Hwf (e&Hv&Ha&<-). destruct (view_lookup _ _ _ Hv) as (i&Hi&Hs&<-).
  pose proof (countb_ge_1 active _ _ _ Hi Ha). rewrite (wf_active _ Hwf).
  destruct (ok_entry _ _ _ (wf_table _ Hwf) i e Hi Hs) as (?&?&?&_). split; [lia|done].
Qed.

(** An observation that goes through while [id] is pending stays in its generation. *)
Lemma pending_same_generation l id payload g :
  ledger_wf l -> g <> 0 -> pending_with l id payload -> generation_enters l g -> active_control_generation l = g.
Proof.
  intros Hwf Hg Hp Hgen. destruct (pending_counts l id payload Hwf Hp) as (Hact&Hid&Hvalid&_).
  pose proof (valid_generation id Hvalid). destruct Hgen as [H0|[H1|[_ H2]]]; congruence.
Qed.

Lemma recorded_keeps l l' id' payload' id payload :
  ledger_wf l -> recorded l l' id' payload' -> view l id' = None -> pending_with l id payload ->
  pending_with l' id payload.
Proof.
  intros Hwf [_ Hcase] Hnone (e&Hv&Ha&Hp). exists e. split; [|done].
  assert (id <> id') as Hne by (intros ->; congruence).
  destruct Hcase as [[_ Hkeep]|(_&victim&(Hvv&Ht&_)&_&Hkeep)]; [by rewrite Hkeep|].
  rewrite Hkeep; [done|done|]. intros ->. rewrite Hvv in Hv. simplify_eq. apply active_spec in Ha as [_ Ha]. congruence.
Qed.

Lemma observed_valid l id payload o l' : observed l id payload o l' -> ledger_wf l' -> control_generation id <> 0.
Proof.
  intros (_&_&Hcase) Hwf. destruct (surviving l (control_generation id) id) as [e|].
  - destruct Hcase as (_&Hv&_). destruct (view_lookup _ _ _ Hv) as (i&Hi&Hs&<-).
    apply valid_generation. by eapply (ok_entry _ _ _ (wf_table _ Hwf)).
  - destruct Hcase as (_&Hv&_). destruct (view_lookup _ _ _ Hv) as (i&Hi&Hs&<-).
    apply valid_generation. by eapply (ok_entry _ _ _ (wf_table _ Hwf)).
Qed.

Lemma observed_keeps l id' payload' o l' id payload :
  ledger_wf l -> epoch l < U64_MAX - 1 -> ledger_wf l' -> observed l id' payload' o l' ->
  pending_with l id payload -> pending_with l' id payload.
Proof.
  intros Hwf Hep Hwf' Hobs Hp. pose proof (observed_valid _ _ _ _ _ Hobs Hwf') as Hg.
  destruct Hobs as (Hgen&_&Hcase).
  pose proof (pending_same_generation _ _ _ _ Hwf Hg Hp Hgen) as Heq.
  unfold surviving, entered in Hcase. rewrite Heq, Z.eqb_refl in Hcase.
  destruct (view l id') as [e'|] eqn:Hv'.
  - destruct Hcase as (_&Hnew&Hold). destruct Hp as (e&Hv&Ha&Hpe). destruct (decide (id = id')) as [->|Hne].
    + rewrite Hv in Hv'. injection Hv' as <-. eexists. split; [exact Hnew|]. done.
    + exists e. by rewrite Hold.
  - destruct Hcase as [_ Hrec]. by eapply (recorded_keeps (ticked l)); [apply ticked_wf; [done|lia]|exact Hrec|..].
Qed.

Lemma refused_keeps l id' payload' status l' id payload :
  refused l id' payload' status l' -> pending_with l id payload -> pending_with l' id payload.
Proof. intros [(_&->&_)|[(_&->&_)|[(_&->&_)|(_&->&_)]]]; done. Qed.

Lemma transitioned_keeps l id' target status l' id payload :
  (id' = id -> state_is_terminal target = false) -> state_is_stored target = true ->
  transitioned l id' target status l' -> pending_with l id payload -> pending_with l' id payload.
Proof.
  intros Hspare Hst (e'&Hv'&_&_&Hnew&Hold&_) (e&Hv&Ha&Hp). destruct (decide (id = id')) as [->|Hne].
  - rewrite Hv in Hv'. injection Hv' as <-. eexists. split; [exact Hnew|]. split; [|done].
    apply active_spec. split; [done|]. by apply Hspare.
  - exists e. by rewrite Hold.
Qed.

Lemma transition_target l id target status : transition_error l id target status = None -> state_is_stored target = true.
Proof. unfold transition_error. destruct (state_is_stored target); [done|]. by rewrite andb_false_r. Qed.

Lemma distributed_target l id payload target status :
  distributed_error l id payload target status = None -> state_is_stored target = true.
Proof.
  unfold distributed_error. destruct (negb (validate_identity id)); [done|]. destruct (view l id) as [e|]; [|done].
  destruct (negb _); [done|]. destruct (transition_error l id target status) as [[]|] eqn:Ht; try done.
  intros _. by eapply transition_target.
Qed.

Lemma step_keeps l call l' id payload :
  ledger_wf l -> epoch l < U64_MAX - 1 -> spares id call -> ledger_step call l l' ->
  pending_with l id payload -> pending_with l' id payload.
Proof.
  intros Hwf Hep Hspare Hstep Hp.
  assert (wp (ledger_run call) (fun _ l' => pending_with l' id payload) (fun _ l' => pending_with l' id payload) l) as H.
  { destruct call; cbn [ledger_run].
    - apply wp_bind. eapply wp_mono; [by apply observe_spec| |].
      + intros r l1 ((Hwf1&_)&_&Hobs). apply wp_ret. exact (observed_keeps _ _ _ _ _ _ _ Hwf Hep Hwf1 Hobs Hp).
      + intros e l1 [_ Href]. exact (refused_keeps _ _ _ _ _ _ _ Href Hp).
    - eapply wp_mono; [by apply transition_spec| |].
      + intros _ l1 (_&Herr&Htr). eapply transitioned_keeps; [done|by eapply transition_target|done|done].
      + intros e l1 [-> _]. done.
    - apply wp_bind. eapply wp_mono; [by apply distributed_observe_spec| |].
      + intros r l1 ((Hwf1&_)&Hobs). apply wp_ret. exact (observed_keeps _ _ _ _ _ _ _ Hwf Hep Hwf1 Hobs Hp).
      + intros e l1 ((Hwf1&_)&[Href|(o&Hobs&_)]); [exact (refused_keeps _ _ _ _ _ _ _ Href Hp)|exact (observed_keeps _ _ _ _ _ _ _ Hwf Hep Hwf1 Hobs Hp)].
    - eapply wp_mono; [by apply distributed_transition_spec| |].
      + intros _ l1 (_&Herr&Htr). eapply transitioned_keeps; [done|by eapply distributed_target|done|done].
      + intros e l1 [-> _]. done. }
  destruct Hstep as [Hr|[e Hr]]; unfold wp in H; by rewrite Hr in H.
Qed.

Lemma steps_keep l m l' id payload :
  ledger_wf l -> epoch l + m < U64_MAX - 1 -> ledger_steps (spares id) l m l' ->
  pending_with l id payload -> pending_with l' id payload.
Proof.
  intros Hwf Hm Hsteps. revert Hm. induction Hsteps as [|m l1 call l2 Hsteps IH Hcall Hstep]; intros Hm Hp; [done|].
  destruct (ledger_steps_ok _ _ _ _ Hwf Hsteps) as (?&Hwf1&_&Hep); [lia|].
  eapply step_keeps; [done| |done|done|]; [lia|]. apply IH; [lia|done].
Qed.

(** A fresh transaction is pending with its payload. *)
Lemma observed_pending l id payload l' : observed l id payload New l' -> pending_with l' id payload.
Proof.
  intros (_&_&Hcase). destruct (surviving _ _ id) as [e|].
  - destruct Hcase as [Ho _]. unfold observation_of in Ho. destruct (negb _); [done|]. by destruct (terminal e).
  - destruct Hcase as (_&Hv&_). eexists. split; [exact Hv|done].
Qed.

Lemma pending_observation l id payload q o l' :
  ledger_wf l -> pending_with l id payload -> observed l id q o l' ->
  o = if payload =? q then ReplayActive else Conflict.
Proof.
  intros Hwf Hp Hobs. destruct (pending_counts l id payload Hwf Hp) as (_&Hg&_&_). destruct Hp as (e&Hv&Ha&<-).
  destruct Hobs as (_&_&Hcase). unfold surviving in Hcase. rewrite Hg, Z.eqb_refl, Hv in Hcase.
  destruct Hcase as [-> _]. unfold observation_of. apply active_spec in Ha as [_ Ha]. rewrite Ha. by destruct (_ =? _).
Qed.

(** A pending transaction is never admitted again. *)
Lemma pending_replay l id payload q :
  ledger_wf l -> epoch l < U64_MAX - 1 -> pending_with l id payload -> q <> 0 ->
  exists l', distributed_observe id q l = Fails (if payload =? q then Duplicate else ValidationFailed) l'.
Proof.
  intros Hwf Hep Hp Hq. destruct (wp_elim _ _ _ _ (distributed_observe_spec l id q Hwf Hep)) as
    [(i&l'&_&_&Hobs)|(status&l'&Heq&_&[Href|(o&Hobs&Hst)])].
  - pose proof (pending_observation _ _ _ _ _ _ Hwf Hp Hobs) as Ho. by destruct (_ =? _).
  - exfalso. destruct (pending_counts l id payload Hwf Hp) as (_&Hg&Hid&_). destruct Hp as (e&Hv&_).
    destruct Href as [(_&_&[?|?])|[(_&_&_&?)|[(_&_&_&?&_)|(_&_&_&?&_)]]]; congruence || lia.
  - pose proof (pending_observation _ _ _ _ _ _ Hwf Hp Hobs) as Ho. exists l'. rewrite Heq.
    destruct (_ =? _); subst o; destruct Hst as [[-> ?]|[-> [?|?]]]; done.
Qed.

(** A newer generation waits for the pending ones. *)
Lemma pending_blocks l id payload id' q :
  ledger_wf l -> epoch l < U64_MAX - 1 -> pending_with l id payload -> q <> 0 -> validate_identity id' = true ->
  control_generation id < control_generation id' -> distributed_observe id' q l = Fails Busy l.
Proof.
  intros Hwf Hep Hp Hq Hid' Hlt. destruct (pending_counts l id payload Hwf Hp) as (Hact&Hg&Hid&_).
  pose proof (valid_generation id' Hid') as Hnz.
  assert (forall o l', observed l id' q o l' -> False) as Hno.
  { intros o l' (Hgen&_). pose proof (pending_same_generation _ _ _ _ Hwf Hnz Hp Hgen). lia. }
  destruct (wp_elim _ _ _ _ (distributed_observe_spec l id' q Hwf Hep)) as
    [(i&l'&_&_&Hobs)|(status&l'&Heq&_&[Href|(o&Hobs&_)])]; [by destruct (Hno _ _ Hobs)| |by destruct (Hno _ _ Hobs)].
  rewrite Heq. destruct Href as [(_&_&[?|?])|[(_&_&_&?)|[(->&->&_)|(_&_&?&_)]]]; [congruence|congruence|lia|done|lia].
Qed.

(** ** The properties *)

(** In every ledger reached by any calls from a fresh one the four counters are
    exact, an entry is occupied by at most one transaction that a probe for its
    identity finds, and the next call returns. *)
Theorem ledger_invariant capacity n l call :
  1 <= capacity <= 2147483648 -> ledger_reachable capacity n l -> n < U64_MAX - 1 ->
  entry_count l = countb stored (entries l) /\ active_entry_count l = countb active (entries l) /\
  terminal_entry_count l = countb terminal (entries l) /\ tombstone_entry_count l = countb buried (entries l) /\
  entry_count l = active_entry_count l + terminal_entry_count l /\ entry_count l <= capacity /\
  (forall i e, entries l !! i = Some e -> stored e = true -> find_internal (identity e) l = Ret (Z.of_nat i) l) /\
  exists l', ledger_step call l l'.
Proof.
  intros Hcap Hreach Hn. destruct (reachable_wf capacity n l Hcap Hreach ltac:(lia)) as (Hwf&Hlen&Hep).
  pose proof (wf_table _ Hwf) as Hok. split; [apply Hwf|]. split; [apply Hwf|]. split; [apply Hwf|]. split; [apply Hwf|].
  pose proof (stored_split (entries l)). pose proof (countb_le_length stored (entries l)).
  split; [rewrite (wf_entries _ Hwf), (wf_active _ Hwf), (wf_terminal _ Hwf); lia|].
  split; [rewrite (wf_entries _ Hwf); lia|]. split.
  - intros i e Hi Hs. pose proof (view_intro l i e Hok Hi Hs) as Hv.
    destruct (wp_elim _ _ _ _ (find_internal_spec l (identity e) Hok)) as
      [(j&l'&Heq&->&Hj&f&Hf&Hvf)|(st&l'&_&_&_&Hnone)]; [|congruence].
    rewrite Heq. f_equal. assert (f = e) as -> by congruence.
    assert (Z.to_nat j = i) as <- by (eapply (ok_unique _ _ _ Hok); eauto). lia.
  - destruct (wp_elim _ _ _ _ (ledger_run_spec l call Hwf ltac:(lia))) as [([]&l'&Heq&_)|(e&l'&Heq&_)];
      exists l'; [by left|right; eauto].
Qed.

(** C29. [observe] implements the map of recorded transactions: a known transaction is
    reported as active, terminal or in conflict and only its stamp changes; an unknown
    one is added, and only when every entry is taken is the least recently observed
    terminal transaction forgotten; a refusal changes nothing but the clock. *)
Theorem ledger_observe_refines capacity n l id payload :
  1 <= capacity <= 2147483648 -> ledger_reachable capacity n l -> n < U64_MAX - 1 ->
  (exists o i l', observe id payload l = Ret (o, Some i) l' /\ observed l id payload o l') \/
  (exists status l', observe id payload l = Fails status l' /\ refused l id payload status l').
Proof.
  intros Hcap Hreach Hn. destruct (reachable_wf capacity n l Hcap Hreach ltac:(lia)) as (Hwf&_&Hep).
  destruct (wp_elim _ _ _ _ (observe_spec l id payload Hwf ltac:(lia))) as
    [([o i]&l'&Heq&_&[j Hj]&Hobs)|(st&l'&Heq&_&Href)]; [left|right; eauto].
  cbn in Hj. subst i. eauto.
Qed.

(** C9. A transaction is admitted exactly once.  After [distributed_observe] accepts it
    and through any later calls that do not finish it, it stays recorded with its
    payload: a repeated packet is refused as a duplicate, the same identity with
    another payload fails validation, and a newer control generation has to wait. *)
Theorem ledger_exactly_once capacity n l id payload i l1 m l2 :
  1 <= capacity <= 2147483648 -> ledger_reachable capacity n l -> n + m < U64_MAX - 2 ->
  distributed_observe id payload l = Ret i l1 -> ledger_steps (spares id) l1 m l2 ->
  pending_with l2 id payload /\
  (forall q, q <> 0 ->
     exists l3, distributed_observe id q l2 = Fails (if payload =? q then Duplicate else ValidationFailed) l3) /\
  (forall id' q, validate_identity id' = true -> q <> 0 -> control_generation id < control_generation id' ->
     distributed_observe id' q l2 = Fails Busy l2).
Proof.
  intros Hcap Hreach Hn Hobs Hsteps.
  assert (0 <= m) as Hm by (clear -Hsteps; induction Hsteps; lia).
  destruct (reachable_wf capacity n l Hcap Hreach ltac:(lia)) as (Hwf&_&Hep).
  destruct (wp_ret_inv _ _ _ _ _ _ (distributed_observe_spec l id payload Hwf ltac:(lia)) Hobs) as [(Hwf1&_&Hep1) Hnew].
  destruct (ledger_steps_ok _ _ _ _ Hwf1 Hsteps ltac:(lia)) as (_&Hwf2&_&Hep2).
  assert (epoch l1 + m < U64_MAX - 1) as Hroom by lia.
  pose proof (steps_keep _ _ _ _ _ Hwf1 Hroom Hsteps (observed_pending _ _ _ _ Hnew)) as Hp.
  split; [done|]. split.
  - intros q Hq. apply pending_replay; [done|lia|done|done].
  - intros id' q Hid' Hq Hlt. apply (pending_blocks l2 id payload); [done|lia|done|done|done|done].
Qed.

(** C38. [distributed_transition] follows the life cycle of a transaction: it succeeds
    exactly along the legal transitions of the recorded transaction with the recorded
    payload and then changes that transaction only; every other case is refused with
    the stated error and leaves the ledger as it was. *)
Theorem ledger_transition_exact capacity n l id payload target status :
  1 <= capacity <= 2147483648 -> ledger_reachable capacity n l -> n < U64_MAX - 1 ->
  match distributed_error l id payload target status with
  | None => exists l', distributed_transition id payload target status l = Ret tt l' /\
      transitioned l id target status l'
  | Some error => distributed_transition id payload target status l = Fails error l
  end.
Proof.
  intros Hcap Hreach Hn. destruct (reachable_wf capacity n l Hcap Hreach ltac:(lia)) as (Hwf&_&Hep).
  destruct (wp_elim _ _ _ _ (distributed_transition_spec l id payload target status Hwf ltac:(lia))) as
    [([]&l'&Heq&_&->&Htr)|(error&l'&Heq&->&->)]; eauto.
Qed.

(** ** Witnesses *)

Definition sample_id (k : Z) : Identity := mkIdentity 7 k 1 (1000 + k) 2 0 1 1.

Definition after (call : ledger_call) (l : TransactionLedger) : TransactionLedger :=
  match ledger_run call l with Ret _ l' | Fails _ l' => l' | _ => l end.

Definition empty_ledger : TransactionLedger := mkLedger (replicate 2 default_entry) 0 0 0 0 0 0.

(** Two entries, both taken, the first transaction finished. *)
Definition one_ledger : TransactionLedger := Eval vm_compute in
  after (DistributedObserve (sample_id 1) 100) empty_ledger.

Definition finished_ledger : TransactionLedger := Eval vm_compute in
  after (DistributedTransition (sample_id 1) 100 STATE_FAILED InternalError) one_ledger.

Definition full_ledger : TransactionLedger := Eval vm_compute in
  after (DistributedObserve (sample_id 2) 200) finished_ledger.

Lemma one_step call l l' : ledger_run call l = Ret tt l' -> ledger_step call l l'.
Proof. by left. Qed.

Lemma one_reachable : ledger_reachable 2 1 one_ledger.
Proof.
  exists empty_ledger. split; [reflexivity|].
  apply (steps_more _ _ 0 empty_ledger (DistributedObserve (sample_id 1) 100)); [apply steps_none|done|].
  apply one_step. vm_compute. reflexivity.
Qed.

Lemma full_reachable : ledger_reachable 2 3 full_ledger.
Proof.
  destruct one_reachable as (l0&Hnew&Hsteps). exists l0. split; [done|].
  apply (steps_more _ _ 2 finished_ledger (DistributedObserve (sample_id 2) 200)); [|done|].
  - apply (steps_more _ _ 1 one_ledger (DistributedTransition (sample_id 1) 100 STATE_FAILED InternalError)); [done|done|].
    apply one_step. vm_compute. reflexivity.
  - apply one_step. vm_compute. reflexivity.
Qed.

Lemma ledger_invariant_witness :
  entry_count full_ledger = 2 /\ exists l', ledger_step (Observe (sample_id 3) 300) full_ledger l'.
Proof.
  destruct (ledger_invariant 2 3 full_ledger (Observe (sample_id 3) 300)) as (H1&_&_&_&_&_&_&H2);
    [lia|exact full_reachable|lia|]. split; [vm_compute; reflexivity|exact H2].
Defined.

(** A third transaction takes the entry of the finished one. *)
Lemma ledger_observe_refines_witness :
  view (after (Observe (sample_id 3) 300) full_ledger) (sample_id 1) = None /\
  ((exists o i l', observe (sample_id 3) 300 full_ledger = Ret (o, Some i) l' /\
      observed full_ledger (sample_id 3) 300 o l') \/
   (exists status l', observe (sample_id 3) 300 full_ledger = Fails status l' /\
      refused full_ledger (sample_id 3) 300 status l')).
Proof.
  split; [vm_compute; reflexivity|].
  apply (ledger_observe_refines 2 3 full_ledger (sample_id 3) 300); [lia|exact full_reachable|lia].
Defined.

Definition full_index : Z := Eval vm_compute in
  match distributed_observe (sample_id 2) 200 finished_ledger with Ret i _ => i | _ => 9 end.

Lemma finished_reachable : ledger_reachable 2 2 finished_ledger.
Proof.
  destruct one_reachable as (l0&Hnew&Hsteps). exists l0. split; [done|].
  apply (steps_more _ _ 1 one_ledger (DistributedTransition (sample_id 1) 100 STATE_FAILED InternalError)); [done|done|].
  apply one_step. vm_compute. reflexivity.
Qed.

Lemma ledger_exactly_once_witness :
  2 <> 0 /\ exists l3, distributed_observe (sample_id 2) 200 full_ledger = Fails Duplicate l3.
Proof.
  split; [lia|].
  destruct (ledger_exactly_once 2 2 finished_ledger (sample_id 2) 200 full_index full_ledger 0 full_ledger) as (_&H&_);
    [lia|exact finished_reachable|lia|vm_compute; reflexivity|apply steps_none|]. apply (H 200). lia.
Defined.

Lemma ledger_transition_exact_witness :
  2 <> 0 /\ distributed_transition (sample_id 2) 200 STATE_COMMITTED Ok full_ledger = Fails ValidationFailed full_ledger.
Proof.
  split; [lia|].
  pose proof (ledger_transition_exact 2 3 full_ledger (sample_id 2) 200 STATE_COMMITTED Ok ltac:(lia) full_reachable
    ltac:(lia)) as H.
  replace (distributed_error full_ledger (sample_id 2) 200 STATE_COMMITTED Ok) with (Some ValidationFailed) in H
    by (vm_compute; reflexivity). exact H.
Defined.
