(* ===== verification/Wire.v ===== *)
(** * The rank daemon's socket codecs

    src/crates/spark-node/src/rank_daemon/wire.rs with the messages it encodes: the
    work-control packet and its configuration
    (src/crates/spark-sched/src/work_control.rs), the acknowledgement, and the final
    event (src/crates/spark-node/src/rank_daemon/ring_runtime.rs and
    resident_ipc.rs).  Layouts are little-endian at the offsets of the C structs.
    This file holds the definitions; [WireProps] their properties. *)

From S2P Require Import Prelude Bytes WorkTransaction.

(** ** Configuration and packet sizes *)

Record WorkControlConfig := mkWorkConfig {
  c_mtp_draft_token_count : Z;
  dspark_max_speculative_token_count : Z;
  maximum_context_tokens : Z;
  kv_block_tokens : Z;
  max_prefill_tokens_per_packet : Z;
  output_vocab_count : Z;
  max_lane_count : Z;
  max_active_sequence_count : Z;
  cohort_capacity : Z;
}.

Definition max_speculative_token_count (c : WorkControlConfig) : Z :=
  Z.max (c_mtp_draft_token_count c) (dspark_max_speculative_token_count c).

Definition align8 (value : Z) : Z := Z.land (value +u32 7) (u32_not 7).

Definition lane_bytes (c : WorkControlConfig) : Z := align8 (64 +u32 (4 *u32 max_speculative_token_count c)).

Definition packet_prefix_bytes (c : WorkControlConfig) : Z :=
  align8 (164 +u32 (4 *u32 (max_speculative_token_count c +u32 max_active_sequence_count c))).

Definition calculate_packet_bytes (c : WorkControlConfig) (active_sequence_count : Z) : Z :=
  if (active_sequence_count =? 0) || (max_active_sequence_count c <? active_sequence_count) then 0
  else
    let packet_bytes := packet_prefix_bytes c +u64 (active_sequence_count *u64 lane_bytes c) in
    if packet_bytes <=? U32_MAX then packet_bytes else 0.

(** ** Packets *)

Record WorkControlLane := mkLane {
  l_request_id : Z;
  l_request_generation : Z;
  l_step_generation : Z;
  l_sequence_id : Z;
  l_sequence_position : Z;
  request_slot_index : Z;
  context_token_count : Z;
  l_input_token_id : Z;
  l_mtp_draft_token_count : Z;
  l_speculative_token_count : Z;
  mtp_resolution_proposed_token_count : Z;
  mtp_resolution_accepted_token_count : Z;
  mtp_resolution_path_id : Z;
  l_speculative_draft_token_ids : list Z;
}.

Record WorkControlPacket := mkPacket {
  p_magic : Z;
  p_abi_version : Z;
  p_descriptor_bytes : Z;
  p_flags : Z;
  p_request_id : Z;
  p_sequence_id : Z;
  p_sequence_position : Z;
  deadline_time_ns : Z;
  p_control_generation : Z;
  p_transaction_id : Z;
  p_dispatch_generation : Z;
  p_request_generation : Z;
  p_step_generation : Z;
  p_step_chunk_index : Z;
  p_step_chunk_count : Z;
  p_transaction_phase : Z;
  p_reserved_transaction : Z;
  active_sequence_count : Z;
  new_token_count : Z;
  pipeline_slot : Z;
  priority : Z;
  block_token_count : Z;
  kv_block_table_token_count : Z;
  max_blocks_per_sequence : Z;
  p_mtp_draft_token_count : Z;
  p_input_token_id : Z;
  p_speculative_token_count : Z;
  speculative_token_index : Z;
  p_speculative_draft_token_ids : list Z;
  lane_count : Z;
  rows_per_lane : Z;
  execution_row_count : Z;
  execution_batch_bucket : Z;
  prefill_token_ids : list Z;
  lanes : list WorkControlLane;
}.

(** [for &value in values { push_u32(value) }] *)
Definition push_all (values : list Z) : list Z := concat ((fun v => le32 v) <$> values).

(** [bytes.resize(n, 0)] *)
Definition resize (n : Z) (bytes : list Z) : list Z :=
  take (Z.to_nat n) bytes ++ replicate (Z.to_nat n - length bytes) 0.

(** [while bytes.len() % 8 != 0 { bytes.push(0) }]: at most seven turns. *)
Fixpoint pad8 (fuel : nat) (bytes : list Z) : list Z :=
  match fuel with
  | O => bytes
  | S fuel' => if Z.of_nat (length bytes) mod 8 =? 0 then bytes else pad8 fuel' (bytes ++ [0])
  end.

(** The packet up to the padding before its lanes. *)
Definition packet_header (p : WorkControlPacket) : list Z :=
  le32 (p_magic p) ++ le32 (p_abi_version p) ++ le32 (p_descriptor_bytes p) ++ le32 (p_flags p) ++
  le64 (p_request_id p) ++ le64 (p_sequence_id p) ++ le64 (p_sequence_position p) ++
  le64 (deadline_time_ns p) ++ le64 (p_control_generation p) ++ le64 (p_transaction_id p) ++
  le64 (p_dispatch_generation p) ++ le64 (p_request_generation p) ++ le64 (p_step_generation p) ++
  le32 (p_step_chunk_index p) ++ le32 (p_step_chunk_count p) ++ le32 (p_transaction_phase p) ++
  le32 (p_reserved_transaction p) ++ le32 (active_sequence_count p) ++ le32 (new_token_count p) ++
  le32 (pipeline_slot p) ++ le32 (priority p) ++ le32 (block_token_count p) ++
  le32 (kv_block_table_token_count p) ++ le32 (max_blocks_per_sequence p) ++
  le32 (p_mtp_draft_token_count p) ++ le32 (p_input_token_id p) ++ le32 (p_speculative_token_count p) ++
  le32 (speculative_token_index p) ++ push_all (p_speculative_draft_token_ids p) ++
  le32 (lane_count p) ++ le32 (rows_per_lane p) ++ le32 (execution_row_count p) ++
  le32 (execution_batch_bucket p) ++ push_all (prefill_token_ids p).

Definition lane_body (lane : WorkControlLane) : list Z :=
  le64 (l_request_id lane) ++ le64 (l_request_generation lane) ++ le64 (l_step_generation lane) ++
  le64 (l_sequence_id lane) ++ le64 (l_sequence_position lane) ++ le32 (request_slot_index lane) ++
  le32 (context_token_count lane) ++ le32 (l_input_token_id lane) ++ le32 (l_mtp_draft_token_count lane) ++
  le32 (l_speculative_token_count lane) ++ [mtp_resolution_proposed_token_count lane] ++
  [mtp_resolution_accepted_token_count lane] ++ to_le_bytes 2 (mtp_resolution_path_id lane) ++
  push_all (l_speculative_draft_token_ids lane).

Definition canonical_bytes {S E} (c : WorkControlConfig) (p : WorkControlPacket) : M S E (list Z) :=
  for_fold (range 0 (lane_count p)) (fun lane_index bytes =>
    let lane_start := Z.of_nat (length bytes) in
    let! lane := index (lanes p) lane_index in
    ret (resize (lane_start +u64 lane_bytes c) (bytes ++ lane_body lane))) (pad8 8 (packet_header p)).

Definition packet_to_wire {S} (c : WorkControlConfig) (p : WorkControlPacket) : M S SparkStatus (list Z) :=
  let expected := calculate_packet_bytes c (active_sequence_count p) in
  if (expected =? 0) || negb (p_descriptor_bytes p =? expected) then throw InvalidArgument
  else canonical_bytes c p.

(** *** Decoding *)

Abbreviation RM := (M Reader SparkStatus).

Definition read : RM Z := ok_or AbiMismatch reader_u32.

Definition read64 : RM Z := ok_or AbiMismatch reader_u64.

(** [for slot in values.iter_mut() { *slot = m? }] over [n] slots. *)
Definition read_many {A} (n : Z) (m : RM A) : RM (list A) :=
  for_fold (range 0 n) (fun _ values => let! v := m in ret (values ++ [v])) [].

(** [while cursor.offset % 8 != 0 { cursor.skip(1)? }]: at most seven turns. *)
Definition align_round (_ : unit) : RM (flow unit unit) :=
  let! r := gets (fun r => r) in
  if offset r mod 8 =? 0 then ret (Break tt)
  else do! ok_or AbiMismatch (reader_skip 1) in ret (Continue tt).

Definition align_cursor : RM unit := loop 8 align_round tt.

(** [*cursor.take(1)?.first().unwrap_or(&0)] *)
Definition read_byte : RM Z :=
  let! b := ok_or AbiMismatch (reader_take 1) in ret (List.hd 0 b).

Definition read_u16 : RM Z :=
  let! path_bytes := ok_or AbiMismatch (reader_take 2) in
  let! b0 := index path_bytes 0 in
  let! b1 := index path_bytes 1 in
  ret (from_le_bytes [b0; b1]).

(** The fields of one lane, without its tail padding. *)
Definition read_lane_fields (c : WorkControlConfig) : RM WorkControlLane :=
  let! request_id := read64 in
  let! request_generation := read64 in
  let! step_generation := read64 in
  let! sequence_id := read64 in
  let! sequence_position := read64 in
  let! request_slot_index := read in
  let! context_token_count := read in
  let! input_token_id := read in
  let! mtp_draft_token_count := read in
  let! speculative_token_count := read in
  let! proposed := read_byte in
  let! accepted := read_byte in
  let! path_id := read_u16 in
  let! ids := read_many (max_speculative_token_count c) read in
  ret (mkLane request_id request_generation step_generation sequence_id sequence_position
    request_slot_index context_token_count input_token_id mtp_draft_token_count speculative_token_count
    proposed accepted path_id ids).

(** One lane: its fields, then the padding to the lane stride. *)
Definition read_lane (c : WorkControlConfig) : RM WorkControlLane :=
  let! lane_start := gets offset in
  let! lane := read_lane_fields c in
  let! stop := gets offset in
  let consumed := stop -u64 lane_start in
  if lane_bytes c <? consumed then throw AbiMismatch
  else do! ok_or AbiMismatch (reader_skip (lane_bytes c -u64 consumed)) in ret lane.

(** The header fields, in order; the lanes are still empty. *)
Definition read_header (c : WorkControlConfig) : RM WorkControlPacket :=
  let! magic := read in
  let! abi_version := read in
  let! descriptor_bytes := read in
  let! flags := read in
  let! request_id := read64 in
  let! sequence_id := read64 in
  let! sequence_position := read64 in
  let! deadline := read64 in
  let! control := read64 in
  let! transaction := read64 in
  let! dispatch := read64 in
  let! request := read64 in
  let! step := read64 in
  let! chunk_index := read in
  let! chunk_count := read in
  let! phase := read in
  let! reserved := read in
  let! active := read in
  let! new_tokens := read in
  let! slot := read in
  let! prio := read in
  let! block_tokens := read in
  let! table_tokens := read in
  let! max_blocks := read in
  let! drafts := read in
  let! input := read in
  let! spec_count := read in
  let! spec_index := read in
  let! spec_ids := read_many (max_speculative_token_count c) read in
  let! lane_total := read in
  let! rows := read in
  let! row_count := read in
  let! bucket := read in
  let! prefill := read_many (max_active_sequence_count c) read in
  ret (mkPacket magic abi_version descriptor_bytes flags request_id sequence_id sequence_position deadline
    control transaction dispatch request step chunk_index chunk_count phase reserved active new_tokens slot
    prio block_tokens table_tokens max_blocks drafts input spec_count spec_index spec_ids lane_total rows
    row_count bucket prefill []).

#[export] Instance WorkControlPacket_eta : RecordEta WorkControlPacket := fun p =>
  mkPacket (p_magic p) (p_abi_version p) (p_descriptor_bytes p) (p_flags p) (p_request_id p) (p_sequence_id p)
    (p_sequence_position p) (deadline_time_ns p) (p_control_generation p) (p_transaction_id p)
    (p_dispatch_generation p) (p_request_generation p) (p_step_generation p) (p_step_chunk_index p)
    (p_step_chunk_count p) (p_transaction_phase p) (p_reserved_transaction p) (active_sequence_count p)
    (new_token_count p) (pipeline_slot p) (priority p) (block_token_count p) (kv_block_table_token_count p)
    (max_blocks_per_sequence p) (p_mtp_draft_token_count p) (p_input_token_id p) (p_speculative_token_count p)
    (speculative_token_index p) (p_speculative_draft_token_ids p) (lane_count p) (rows_per_lane p)
    (execution_row_count p) (execution_batch_bucket p) (prefill_token_ids p) (lanes p).

Definition zeroed_lane (c : WorkControlConfig) : WorkControlLane :=
  mkLane 0 0 0 0 0 0 0 0 0 0 0 0 0 (replicate (Z.to_nat (max_speculative_token_count c)) 0).

Definition zeroed (c : WorkControlConfig) : WorkControlPacket :=
  mkPacket 0 0 0 0 0 0 0 0 0 0 0 0 0 0 0 0 0 0 0 0 0 0 0 0 0 0 0 0
    (replicate (Z.to_nat (max_speculative_token_count c)) 0) 0 0 0 0
    (replicate (Z.to_nat (max_active_sequence_count c)) 0) [].

(** [resize_with] truncates or appends zeroed lanes. *)
Definition set_lane_count (c : WorkControlConfig) (n : Z) (p : WorkControlPacket) : WorkControlPacket :=
  p <| lane_count := n |>
    <| lanes := take (Z.to_nat n) (lanes p) ++ replicate (Z.to_nat n - length (lanes p)) (zeroed_lane c) |>.

(** The heap the lanes of a packet take: the vector of lanes, 88 bytes each, and for every
    lane the vector of its draft tokens. *)
Definition LANE_STRUCT_BYTES : Z := 88.

Definition lanes_heap_bytes (c : WorkControlConfig) (n : Z) : Z := n * (LANE_STRUCT_BYTES + 4 * max_speculative_token_count c).

(** [resize_with] on a heap with [memory] bytes left; the process aborts when they do not
    suffice. *)
Definition resize_lanes (memory : Z) (c : WorkControlConfig) (n : Z) (p : WorkControlPacket) : RM WorkControlPacket :=
  if memory <? lanes_heap_bytes c n then panic else ret (set_lane_count c n p).

(** The loop over the lanes writes each one in place. *)
Definition read_lane_at (c : WorkControlConfig) (lane_index : Z) (packet : WorkControlPacket) : RM WorkControlPacket :=
  let! _lane := index (lanes packet) lane_index in
  let! lane := read_lane c in
  ret (packet <| lanes := <[Z.to_nat lane_index := lane]> (lanes packet) |>).

Definition packet_from_wire {S} (memory : Z) (c : WorkControlConfig) (wire : list Z) : M S SparkStatus WorkControlPacket :=
  with_local (mkReader wire 0) (
    let! packet := read_header c in
    do! align_cursor in
    let! here := gets offset in
    if negb (u32 here =? packet_prefix_bytes c) then throw AbiMismatch
    else
      let! packet := resize_lanes memory c (lane_count packet) packet in
      let! packet := for_fold (range 0 (lane_count packet)) (read_lane_at c) packet in
      let! stop := gets offset in
      if negb (stop =? Z.of_nat (length wire)) || negb (Z.of_nat (length wire) =? p_descriptor_bytes packet)
      then throw AbiMismatch
      else ret packet).

(** [packet_dedup_hash32]: FNV-1a over 32 bits. *)
Definition packet_dedup_hash32 (wire_bytes : list Z) : Z :=
  foldl (fun hash b => Z.lxor hash b *u32 16777619) 2166136261 wire_bytes.

(** ** Acknowledgements *)

Definition ACKNOWLEDGEMENT_WIRE_BYTES : Z := 96.

Record WorkAcknowledgement := mkAck {
  a_magic : Z;
  a_abi_version : Z;
  a_descriptor_bytes : Z;
  a_status : Z;
  transaction_state : Z;
  a_reserved0 : Z;
  a_identity : Identity;
  packet_fingerprint : Z;
  reserved1 : Z;
}.

Definition initialize_acknowledgement (identity : option Identity) (fingerprint state : Z) (status : SparkStatus)
    : WorkAcknowledgement :=
  mkAck ACK_MAGIC ABI_VERSION ACKNOWLEDGEMENT_WIRE_BYTES (status_code status) state 0
    (default default_identity identity) fingerprint 0.

Definition ack_state_is_stored (state : Z) : bool := (1 <=? state) && (state <=? 6).

Definition validate_acknowledgement (ack : WorkAcknowledgement) (expected_identity : Identity)
    (expected_fingerprint : Z) : SparkStatus + Z :=
  if expected_fingerprint =? 0 then inl InvalidArgument
  else if negb (a_magic ack =? ACK_MAGIC) || negb (a_abi_version ack =? ABI_VERSION)
    || negb (a_descriptor_bytes ack =? ACKNOWLEDGEMENT_WIRE_BYTES)
  then inl AbiMismatch
  else if negb (validate_identity (a_identity ack)) || negb (bool_decide (a_identity ack = expected_identity))
    || negb (packet_fingerprint ack =? expected_fingerprint)
    || negb (bool_decide (is_Some (status_from_code (a_status ack))))
    || negb (ack_state_is_stored (transaction_state ack))
    || negb (a_reserved0 ack =? 0) || negb (reserved1 ack =? 0)
  then inl ValidationFailed
  else inr (a_status ack).

Definition acknowledgement_to_wire (ack : WorkAcknowledgement) : list Z :=
  le32 (a_magic ack) ++ le32 (a_abi_version ack) ++ le32 (a_descriptor_bytes ack) ++ le32 (a_status ack) ++
  le32 (transaction_state ack) ++ le32 (a_reserved0 ack) ++ identity_to_wire (a_identity ack) ++
  le64 (packet_fingerprint ack) ++ le64 (reserved1 ack).

Definition acknowledgement_from_wire {S E} (wire : list Z) : M S E WorkAcknowledgement :=
  with_local (mkReader wire 0) (
    let! magic := unwrap_or 0 reader_u32 in
    let! abi_version := unwrap_or 0 reader_u32 in
    let! descriptor_bytes := unwrap_or 0 reader_u32 in
    let! status := unwrap_or 0 reader_u32 in
    let! state := unwrap_or 0 reader_u32 in
    let! reserved0 := unwrap_or 0 reader_u32 in
    let! identity_bytes := unwrap_or (replicate 56 0) (reader_take IDENTITY_WIRE_BYTES) in
    let! identity := identity_from_wire identity_bytes in
    let! fingerprint := unwrap_or 0 reader_u64 in
    let! reserved1 := unwrap_or 0 reader_u64 in
    ret (mkAck magic abi_version descriptor_bytes status state reserved0 identity fingerprint reserved1)).

(** ** Final events *)

Definition DRAFT_MAX_TOKENS : Z := 7.

Definition FINAL_EVENT_DESCRIPTOR_BYTES : Z := 272.

Definition FINAL_EVENT_MAGIC : Z := 0x35454650.

Record DsparkDraftResult := mkDraft {
  d_abi_version : Z;
  d_descriptor_bytes : Z;
  d_flags : Z;
  d_token_count : Z;
  confidence_milli : list Z;
  d_token_ids : list Z;
}.

Record FinalEvent := mkEvent {
  e_magic : Z;
  e_descriptor_bytes : Z;
  e_status : Z;
  program_id : Z;
  driver_dispatch_slot : Z;
  accepted_token_count : Z;
  completion_flags : Z;
  e_token_count : Z;
  e_token_ids : list Z;
  draft_token_count : Z;
  draft_token_ids : list Z;
  e_request_id : Z;
  e_sequence_id : Z;
  e_sequence_position : Z;
  service_time_ns : Z;
  e_control_generation : Z;
  e_transaction_id : Z;
  e_dispatch_generation : Z;
  e_request_generation : Z;
  e_step_generation : Z;
  e_step_chunk_index : Z;
  e_step_chunk_count : Z;
  e_transaction_phase : Z;
  e_reserved_transaction : Z;
  extension_flags : Z;
  e_reserved0 : Z;
  dspark_draft : DsparkDraftResult;
}.

Definition final_event_to_wire (event : FinalEvent) : list Z :=
  le32 (e_magic event) ++ le32 (e_descriptor_bytes event) ++ le32 (e_status event) ++
  le32 (program_id event) ++ le32 (driver_dispatch_slot event) ++ le32 (accepted_token_count event) ++
  le32 (completion_flags event) ++ le32 (e_token_count event) ++ push_all (e_token_ids event) ++
  le32 (draft_token_count event) ++ push_all (draft_token_ids event) ++ le32 0 ++
  le64 (e_request_id event) ++ le64 (e_sequence_id event) ++ le64 (e_sequence_position event) ++
  le64 (service_time_ns event) ++ le64 (e_control_generation event) ++ le64 (e_transaction_id event) ++
  le64 (e_dispatch_generation event) ++ le64 (e_request_generation event) ++ le64 (e_step_generation event) ++
  le32 (e_step_chunk_index event) ++ le32 (e_step_chunk_count event) ++ le32 (e_transaction_phase event) ++
  le32 (e_reserved_transaction event) ++ le32 (extension_flags event) ++ le32 (e_reserved0 event) ++
  le32 (d_abi_version (dspark_draft event)) ++ le32 (d_descriptor_bytes (dspark_draft event)) ++
  le32 (d_flags (dspark_draft event)) ++ le32 (d_token_count (dspark_draft event)) ++
  push_all (confidence_milli (dspark_draft event)) ++ push_all (d_token_ids (dspark_draft event)).

Definition event_u32 {E} : M Reader E Z := unwrap_or 0 reader_u32.

Definition event_u64 {E} : M Reader E Z := unwrap_or 0 reader_u64.

Definition event_ids {E} (n : Z) : M Reader E (list Z) :=
  for_fold (range 0 n) (fun _ values => let! v := event_u32 in ret (values ++ [v])) [].

Definition final_event_from_wire {S E} (wire : list Z) : M S E FinalEvent :=
  with_local (mkReader wire 0) (
    let! magic := event_u32 in
    let! descriptor_bytes := event_u32 in
    let! status := event_u32 in
    let! program := event_u32 in
    let! slot := event_u32 in
    let! accepted := event_u32 in
    let! flags := event_u32 in
    let! token_total := event_u32 in
    let! tokens := event_ids 8 in
    let! draft_total := event_u32 in
    let! drafts := event_ids 8 in
    do! ignore (reader_skip 4) in
    let! request_id := event_u64 in
    let! sequence_id := event_u64 in
    let! sequence_position := event_u64 in
    let! service := event_u64 in
    let! control := event_u64 in
    let! transaction := event_u64 in
    let! dispatch := event_u64 in
    let! request := event_u64 in
    let! step := event_u64 in
    let! chunk_index := event_u32 in
    let! chunk_count := event_u32 in
    let! phase := event_u32 in
    let! reserved := event_u32 in
    let! extension := event_u32 in
    let! reserved0 := event_u32 in
    let! draft_abi := event_u32 in
    let! draft_bytes := event_u32 in
    let! draft_flags := event_u32 in
    let! draft_count := event_u32 in
    let! confidence := event_ids DRAFT_MAX_TOKENS in
    let! draft_ids := event_ids DRAFT_MAX_TOKENS in
    ret (mkEvent magic descriptor_bytes status program slot accepted flags token_total tokens draft_total drafts
      request_id sequence_id sequence_position service control transaction dispatch request step chunk_index
      chunk_count phase reserved extension reserved0
      (mkDraft draft_abi draft_bytes draft_flags draft_count confidence draft_ids))).

Definition validate_final_event (event : FinalEvent) : SparkStatus + unit :=
  if negb (e_magic event =? FINAL_EVENT_MAGIC) || negb (e_descriptor_bytes event =? FINAL_EVENT_DESCRIPTOR_BYTES)
  then inl AbiMismatch else inr tt.
