(* ===== verification/WireProps.v ===== *)
(** * The socket codecs: round trips and robust decoding

    Every message decodes to what was encoded; the packet decoder returns on any
    bytes; an acknowledgement is accepted exactly for the packet it was made for. *)

From S2P Require Import Prelude Bytes WorkTransaction Wire.

(** ** Words *)

Definition word32 (x : Z) : Prop := 0 <= x <= U32_MAX.

Definition word64 (x : Z) : Prop := 0 <= x <= U64_MAX.

(** ** Decoding sequences *)

Lemma reads_for_fold {E A B} (ks : list B) (m : M Reader E A) (enc : A -> list Z) xs acc :
  length ks = length xs -> Forall (fun x => reads m (enc x) x) xs ->
  reads (for_fold ks (fun _ values => let! v := m in ret (values ++ [v])) acc) (concat (enc <$> xs)) (acc ++ xs).
Proof.
  revert xs acc. induction ks as [|k ks IH]; intros [|x xs] acc Hlen Hxs; try done.
  - cbn. rewrite app_nil_r. apply reads_ret.
  - apply Forall_cons in Hxs as [Hx Hxs]. rewrite fmap_cons. cbn [concat for_fold].
    eapply reads_bind.
    + rewrite <-(app_nil_r (enc x)). eapply reads_bind; [exact Hx|apply reads_ret].
    + replace (acc ++ x :: xs) with ((acc ++ [x]) ++ xs) by (by rewrite <-app_assoc). apply IH; [by injection Hlen|done].
Qed.

Lemma reads_many {E A} n (m : M Reader E A) (enc : A -> list Z) xs :
  Z.of_nat (length xs) = n -> Forall (fun x => reads m (enc x) x) xs ->
  reads (for_fold (range 0 n) (fun _ values => let! v := m in ret (values ++ [v])) []) (concat (enc <$> xs)) xs.
Proof. intros Hn Hxs. apply (reads_for_fold _ m enc xs []); [|done]. rewrite length_range. lia. Qed.

Lemma reads_read x : word32 x -> reads read (le32 x) x.
Proof. intros. apply reads_catch. by apply reads_u32. Qed.

Lemma reads_read64 x : word64 x -> reads read64 (le64 x) x.
Proof. intros. apply reads_catch. by apply reads_u64. Qed.

Lemma reads_event_u32 {E} x : word32 x -> reads (E := E) event_u32 (le32 x) x.
Proof. intros. apply reads_catch. by apply reads_u32. Qed.

Lemma reads_event_u64 {E} x : word64 x -> reads (E := E) event_u64 (le64 x) x.
Proof. intros. apply reads_catch. by apply reads_u64. Qed.

Lemma reads_ids n xs : Z.of_nat (length xs) = n -> Forall word32 xs -> reads (read_many n read) (push_all xs) xs.
Proof. intros Hn Hxs. apply reads_many; [done|]. eapply Forall_impl; [exact Hxs|]. apply reads_read. Qed.

Lemma reads_event_ids {E} n xs :
  Z.of_nat (length xs) = n -> Forall word32 xs -> reads (E := E) (event_ids n) (push_all xs) xs.
Proof. intros Hn Hxs. apply reads_many; [done|]. eapply Forall_impl; [exact Hxs|]. apply reads_event_u32. Qed.

Lemma reads_byte b : byte b -> reads read_byte [b] b.
Proof.
  intros Hb. unfold read_byte. change [b] with ([b] ++ []).
  apply (reads_bind _ _ [b] [] [b]); [apply reads_catch; by apply reads_take|apply (reads_ret b)].
Qed.

Lemma reads_u16 x : 0 <= x < 65536 -> reads read_u16 (to_le_bytes 2 x) x.
Proof.
  intros Hx. unfold read_u16. rewrite <-(app_nil_r (to_le_bytes 2 x)).
  eapply reads_bind; [apply reads_catch; by apply reads_take|].
  assert (from_le_bytes (to_le_bytes 2 x) = x) as Hround.
  { rewrite from_to_le_bytes. apply Z.mod_small. change (256 ^ Z.of_nat 2) with 65536. lia. }
  revert Hround. cbn [to_le_bytes]. intros Hround. unfold index. cbn [lookup list_lookup Z.to_nat Pos.to_nat].
  change [] with (@nil Z ++ (@nil Z ++ @nil Z)).
  eapply (reads_bind (ret _)); [apply reads_ret|]. eapply (reads_bind (ret _)); [apply reads_ret|].
  rewrite <-Hround at 3. apply reads_ret.
Qed.

Lemma reads_ignore {F} enc n : Z.of_nat (length enc) = n -> reads (E := F) (ignore (reader_skip n)) enc tt.
Proof. intros Hn pre post Hlen. unfold ignore. by rewrite (reads_skip enc n Hn pre post Hlen). Qed.

Lemma length_push_all xs : length (push_all xs) = (4 * length xs)%nat.
Proof. unfold push_all. induction xs as [|x xs IH]; [done|]. cbn [fmap list_fmap concat]. rewrite length_app, IH, length_to_le_bytes. cbn [length]. lia. Qed.

(** ** Final events *)

Definition draft_words (d : DsparkDraftResult) : Prop :=
  word32 (d_abi_version d) /\ word32 (d_descriptor_bytes d) /\ word32 (d_flags d) /\ word32 (d_token_count d) /\
  (length (confidence_milli d) = 7%nat /\ Forall word32 (confidence_milli d)) /\
  (length (d_token_ids d) = 7%nat /\ Forall word32 (d_token_ids d)).

(** The fields of a final event hold what their types can. *)
Definition event_words (e : FinalEvent) : Prop :=
  Forall word32 [e_magic e; e_descriptor_bytes e; e_status e; program_id e; driver_dispatch_slot e;
    accepted_token_count e; completion_flags e; e_token_count e; draft_token_count e; e_step_chunk_index e;
    e_step_chunk_count e; e_transaction_phase e; e_reserved_transaction e; extension_flags e; e_reserved0 e] /\
  Forall word64 [e_request_id e; e_sequence_id e; e_sequence_position e; service_time_ns e;
    e_control_generation e; e_transaction_id e; e_dispatch_generation e; e_request_generation e; e_step_generation e] /\
  (length (e_token_ids e) = 8%nat /\ Forall word32 (e_token_ids e)) /\
  (length (draft_token_ids e) = 8%nat /\ Forall word32 (draft_token_ids e)) /\ draft_words (dspark_draft e).

Ltac split_words :=
  repeat match goal with
  | H : _ /\ _ |- _ => destruct H
  | H : Forall _ (_ :: _) |- _ => apply Forall_cons in H as [? H]
  end.

Lemma length_final_event_to_wire e : event_words e -> length (final_event_to_wire e) = 272%nat.
Proof.
  intros (_&_&[H1 _]&[H2 _]&_&_&_&_&[H3 _]&[H4 _]). unfold final_event_to_wire.
  rewrite !length_app, !length_push_all, !length_to_le_bytes, H1, H2, H3, H4. done.
Qed.

Ltac reads_field :=
  lazymatch goal with
  | |- reads read (le32 _) _ => apply reads_read; assumption
  | |- reads read64 (le64 _) _ => apply reads_read64; assumption
  | |- reads (unwrap_or _ reader_u32) (le32 _) _ => apply reads_catch, reads_u32; assumption
  | |- reads (unwrap_or _ reader_u64) (le64 _) _ => apply reads_catch, reads_u64; assumption
  | |- reads event_u32 (le32 _) _ => apply reads_event_u32; assumption
  | |- reads event_u64 (le64 _) _ => apply reads_event_u64; assumption
  | |- reads (event_ids _) (push_all _) _ => apply reads_event_ids; [lia|assumption]
  | |- reads (read_many _ read) (push_all _) _ => apply reads_ids; [lia|assumption]
  | |- reads (ignore (reader_skip _)) _ _ => apply reads_ignore; reflexivity
  | |- reads read_byte _ _ => apply reads_byte; assumption
  | |- reads read_u16 _ _ => apply reads_u16; lia
  end.

(** Follow the decoder along the encoder, field by field. *)
Ltac reads_fields := repeat (eapply reads_bind; [reads_field|cbn beta]).

Lemma final_event_wire_roundtrip {S E} e (s : S) :
  event_words e -> final_event_from_wire (E := E) (final_event_to_wire e) s = Ret e s.
Proof.
  intros Hw. pose proof (length_final_event_to_wire e Hw) as Hlen.
  unfold final_event_from_wire. rewrite <-(app_nil_r (final_event_to_wire e)).
  apply with_local_reads; [|rewrite app_nil_r, Hlen; lia].
  unfold event_words, draft_words in Hw. split_words. unfold final_event_to_wire.
  rewrite <-(app_nil_r (push_all (d_token_ids (dspark_draft e)))).
  unfold DRAFT_MAX_TOKENS. reads_fields. destruct e as [? ? ? ? ? ? ? ? ? ? ? ? ? ? ? ? ? ? ? ? ? ? ? ? ? ? d].
  destruct d. apply reads_ret.
Qed.

(** ** Acknowledgements *)

Definition ack_words (a : WorkAcknowledgement) : Prop :=
  Forall word32 [a_magic a; a_abi_version a; a_descriptor_bytes a; a_status a; transaction_state a; a_reserved0 a] /\
  identity_words (a_identity a) /\ word64 (packet_fingerprint a) /\ word64 (reserved1 a).

Lemma reads_pure {E A} (m : M Reader E A) a : (forall r, m r = Ret a r) -> reads m [] a.
Proof. intros H pre post _. rewrite H. cbn [length]. do 2 f_equal. lia. Qed.

Lemma length_acknowledgement_to_wire a : length (acknowledgement_to_wire a) = 96%nat.
Proof. unfold acknowledgement_to_wire. rewrite !length_app, length_identity_to_wire, !length_to_le_bytes. done. Qed.

Lemma acknowledgement_wire_roundtrip {S E} a (s : S) :
  ack_words a -> acknowledgement_from_wire (E := E) (acknowledgement_to_wire a) s = Ret a s.
Proof.
  intros Hw. pose proof (length_acknowledgement_to_wire a) as Hlen.
  unfold acknowledgement_from_wire. rewrite <-(app_nil_r (acknowledgement_to_wire a)).
  apply with_local_reads; [|rewrite app_nil_r, Hlen; lia].
  unfold ack_words in Hw. split_words. unfold acknowledgement_to_wire.
  rewrite <-(app_nil_r (le64 (reserved1 a))). reads_fields.
  eapply reads_bind; [apply reads_catch, reads_take; by rewrite length_identity_to_wire|cbn beta].
  apply (reads_bind _ _ [] (le64 (packet_fingerprint a) ++ le64 (reserved1 a) ++ []) (a_identity a)); [apply reads_pure; intros r; by apply identity_wire_roundtrip|cbn beta].
  reads_fields. destruct a. apply reads_ret.
Qed.

Lemma initialized_words identity fingerprint state status :
  identity_words identity -> word64 fingerprint -> word32 state ->
  ack_words (initialize_acknowledgement (Some identity) fingerprint state status).
Proof.
  intros Hi Hf Hs. split; [|split; [done|split; [done|]]].
  - repeat constructor; try done; try apply Hs; destruct status; cbn; lia.
  - split; cbn; lia.
Qed.

(** ** Packet sizes *)

Lemma align8_spec v : 0 <= v <= U32_MAX - 7 -> align8 v = (v + 7) / 8 * 8.
Proof.
  intros Hv. unfold align8, u32_not. rewrite u32_small by lia. apply Z.bits_inj'. intros n Hn. rewrite Z.land_spec.
  change ((v + 7) / 8) with ((v + 7) / 2 ^ 3). rewrite <-Z.shiftr_div_pow2 by lia.
  change 8 with (2 ^ 3). rewrite <-Z.shiftl_mul_pow2 by lia. rewrite Z.shiftl_spec by lia.
  destruct (decide (n < 3)) as [Hlt|Hge].
  - rewrite (Z.testbit_neg_r _ (n - 3)) by lia. replace (Z.testbit (4294967295 - 7) n) with false; [apply andb_false_r|].
    assert (n = 0 \/ n = 1 \/ n = 2) as [->|[->| ->]] by lia; reflexivity.
  - rewrite Z.shiftr_spec by lia. replace (n - 3 + 3) with n by lia.
    destruct (decide (n < 32)) as [Hlt'|Hge'].
    + replace (4294967295 - 7) with (Z.shiftl (Z.ones 29) 3) by reflexivity.
      rewrite Z.shiftl_spec, Z.ones_spec_low by lia. apply andb_true_r.
    + assert (Z.testbit (v + 7) n = false) as ->; [|done].
      apply Z.bits_above_log2; [lia|]. destruct (decide (v + 7 = 0)) as [->|]; [cbn; lia|].
      assert (Z.log2 (v + 7) < 32) by (apply Z.log2_lt_pow2; lia). lia.
Qed.

(** A configuration whose packets fit a [u32]. *)
Definition config_ok (c : WorkControlConfig) : Prop :=
  word32 (c_mtp_draft_token_count c) /\ word32 (dspark_max_speculative_token_count c) /\
  word32 (max_active_sequence_count c) /\
  164 + 4 * (max_speculative_token_count c + max_active_sequence_count c) <= U32_MAX - 7.

Lemma speculative_range c : config_ok c -> 0 <= max_speculative_token_count c /\ 0 <= max_active_sequence_count c.
Proof. intros (H1&H2&H3&_). unfold max_speculative_token_count, word32 in *. lia. Qed.

Lemma lane_bytes_spec c :
  config_ok c -> lane_bytes c = (64 + 4 * max_speculative_token_count c + 7) / 8 * 8.
Proof.
  intros Hc. pose proof (speculative_range c Hc). destruct Hc as (_&_&_&Hfit). unfold lane_bytes.
  rewrite (u32_small (4 * _)) by lia. rewrite u32_small by lia. apply align8_spec. lia.
Qed.

Lemma prefix_bytes_spec c :
  config_ok c ->
  packet_prefix_bytes c = (164 + 4 * (max_speculative_token_count c + max_active_sequence_count c) + 7) / 8 * 8.
Proof.
  intros Hc. pose proof (speculative_range c Hc). destruct Hc as (_&_&_&Hfit). unfold packet_prefix_bytes.
  rewrite (u32_small (_ + max_active_sequence_count c)) by lia. rewrite (u32_small (4 * _)) by lia.
  rewrite u32_small by lia. apply align8_spec. lia.
Qed.

(** ** Packets *)

Definition lane_words (c : WorkControlConfig) (l : WorkControlLane) : Prop :=
  Forall word64 [l_request_id l; l_request_generation l; l_step_generation l; l_sequence_id l; l_sequence_position l] /\
  Forall word32 [request_slot_index l; context_token_count l; l_input_token_id l; l_mtp_draft_token_count l;
    l_speculative_token_count l] /\
  byte (mtp_resolution_proposed_token_count l) /\ byte (mtp_resolution_accepted_token_count l) /\
  0 <= mtp_resolution_path_id l < 65536 /\
  Z.of_nat (length (l_speculative_draft_token_ids l)) = max_speculative_token_count c /\
  Forall word32 (l_speculative_draft_token_ids l).

(** A packet as the configuration shapes it: every field within its type, every
    vector at its capacity, one lane per active sequence. *)
Definition packet_words (c : WorkControlConfig) (p : WorkControlPacket) : Prop :=
  Forall word32 [p_magic p; p_abi_version p; p_descriptor_bytes p; p_flags p; p_step_chunk_index p;
    p_step_chunk_count p; p_transaction_phase p; p_reserved_transaction p; active_sequence_count p;
    new_token_count p; pipeline_slot p; priority p; block_token_count p; kv_block_table_token_count p;
    max_blocks_per_sequence p; p_mtp_draft_token_count p; p_input_token_id p; p_speculative_token_count p;
    speculative_token_index p; lane_count p; rows_per_lane p; execution_row_count p; execution_batch_bucket p] /\
  Forall word64 [p_request_id p; p_sequence_id p; p_sequence_position p; deadline_time_ns p;
    p_control_generation p; p_transaction_id p; p_dispatch_generation p; p_request_generation p; p_step_generation p] /\
  (Z.of_nat (length (p_speculative_draft_token_ids p)) = max_speculative_token_count c /\
   Forall word32 (p_speculative_draft_token_ids p)) /\
  (Z.of_nat (length (prefill_token_ids p)) = max_active_sequence_count c /\ Forall word32 (prefill_token_ids p)) /\
  (Z.of_nat (length (lanes p)) = lane_count p /\ Forall (lane_words c) (lanes p)).

Lemma length_packet_header c p : packet_words c p ->
  Z.of_nat (length (packet_header p)) = 164 + 4 * (max_speculative_token_count c + max_active_sequence_count c).
Proof.
  intros (_&_&[H1 _]&[H2 _]&_). unfold packet_header.
  rewrite !length_app, !length_push_all, !length_to_le_bytes. lia.
Qed.

Lemma length_lane_body c l : lane_words c l ->
  Z.of_nat (length (lane_body l)) = 64 + 4 * max_speculative_token_count c.
Proof.
  intros (_&_&_&_&_&H&_). unfold lane_body. rewrite !length_app, !length_push_all, !length_to_le_bytes. cbn [length]. lia.
Qed.

Lemma mod8_step x : x mod 8 <> 0 -> (- (x + 1)) mod 8 = (- x) mod 8 - 1.
Proof. intros H. pose proof (Z.div_mod x 8). pose proof (Z.div_mod (-x) 8). pose proof (Z.div_mod (-(x + 1)) 8).
  pose proof (Z.mod_pos_bound x 8). pose proof (Z.mod_pos_bound (-x) 8). pose proof (Z.mod_pos_bound (-(x + 1)) 8). lia.
Qed.

Lemma mod8_zero x : x mod 8 = 0 -> (- x) mod 8 = 0.
Proof. intros H. pose proof (Z.div_mod x 8). pose proof (Z.div_mod (-x) 8). pose proof (Z.mod_pos_bound (-x) 8). lia. Qed.

(** The padding that follows [n] bytes. *)
Definition padding (n : Z) : list Z := replicate (Z.to_nat ((- n) mod 8)) 0.

Lemma padding_step n : n mod 8 <> 0 -> padding n = 0 :: padding (n + 1).
Proof.
  intros H. unfold padding. rewrite mod8_step by done. pose proof (Z.mod_pos_bound (-n) 8).
  assert ((- n) mod 8 <> 0). { intros Hz. apply H. apply mod8_zero in Hz. by rewrite Z.opp_involutive in Hz. }
  replace (Z.to_nat ((- n) mod 8)) with (S (Z.to_nat ((- n) mod 8 - 1))) by lia. done.
Qed.

Lemma padding_done n : n mod 8 = 0 -> padding n = [].
Proof. intros H. unfold padding. by rewrite mod8_zero. Qed.

Lemma pad8_spec fuel bs :
  (- Z.of_nat (length bs)) mod 8 < Z.of_nat fuel -> pad8 fuel bs = bs ++ padding (Z.of_nat (length bs)).
Proof.
  revert bs. induction fuel as [|fuel IH]; intros bs Hfuel.
  - pose proof (Z.mod_pos_bound (- Z.of_nat (length bs)) 8). lia.
  - cbn [pad8]. destruct (Z.eqb_spec (Z.of_nat (length bs) mod 8) 0) as [Hz|Hz].
    + by rewrite padding_done, app_nil_r.
    + rewrite IH; rewrite length_app, Nat2Z.inj_add; cbn [length].
      * rewrite (padding_step (Z.of_nat (length bs)) Hz), <-app_assoc. done.
      * rewrite mod8_step by done. lia.
Qed.

Lemma align_step pre post :
  Z.of_nat (length pre) mod 8 <> 0 -> Z.of_nat (length (pre ++ 0 :: post)) <= ISIZE_MAX ->
  align_round tt (mkReader (pre ++ 0 :: post) (Z.of_nat (length pre))) =
  Ret (Continue tt) (mkReader (pre ++ 0 :: post) (Z.of_nat (length pre) + 1)).
Proof.
  intros Hz Hlen. unfold align_round, bind, gets. cbn [offset]. rewrite (proj2 (Z.eqb_neq _ _)) by done.
  pose proof (reads_catch _ (fun _ => throw AbiMismatch) _ _ (reads_skip [0] 1 eq_refl) pre post Hlen) as Hskip.
  unfold ok_or. cbn [app] in Hskip. rewrite Hskip. done.
Qed.

Lemma align_cursor_spec fuel pre post :
  (- Z.of_nat (length pre)) mod 8 < Z.of_nat fuel ->
  Z.of_nat (length (pre ++ padding (Z.of_nat (length pre)) ++ post)) <= ISIZE_MAX ->
  loop fuel align_round tt
    (mkReader (pre ++ padding (Z.of_nat (length pre)) ++ post) (Z.of_nat (length pre))) =
  Ret tt (mkReader (pre ++ padding (Z.of_nat (length pre)) ++ post)
    (Z.of_nat (length pre) + Z.of_nat (length (padding (Z.of_nat (length pre)))))).
Proof.
  revert pre. induction fuel as [|fuel IH]; intros pre Hfuel Hlen.
  { pose proof (Z.mod_pos_bound (- Z.of_nat (length pre)) 8). lia. }
  cbn [loop]. unfold bind at 1. destruct (decide (Z.of_nat (length pre) mod 8 = 0)) as [Hz|Hz].
  - rewrite padding_done by done. unfold align_round, bind, gets. cbn [offset]. rewrite (proj2 (Z.eqb_eq _ _)) by done.
    cbn [app length]. unfold ret. by rewrite Z.add_0_r.
  - rewrite padding_step in * by done. specialize (IH (pre ++ [0])).
    rewrite length_app, Nat2Z.inj_add in IH. cbn [length] in IH. change (Z.of_nat 1) with 1 in IH.
    rewrite <-app_assoc in IH. cbn [app] in IH. cbn [app] in Hlen |- *. rewrite align_step by done.
    rewrite IH; [|rewrite mod8_step by done; lia|done]. f_equal. f_equal. cbn [length]. lia.
Qed.

(** A lane with its tail padding. *)
Definition lane_wire (c : WorkControlConfig) (l : WorkControlLane) : list Z :=
  lane_body l ++ replicate (Z.to_nat (lane_bytes c) - length (lane_body l)) 0.

Lemma lane_bytes_room c : config_ok c ->
  64 + 4 * max_speculative_token_count c <= lane_bytes c <= U32_MAX.
Proof.
  intros Hc. rewrite lane_bytes_spec by done. pose proof (speculative_range c Hc). destruct Hc as (_&_&_&Hfit).
  pose proof (Z.div_mod (64 + 4 * max_speculative_token_count c + 7) 8).
  pose proof (Z.mod_pos_bound (64 + 4 * max_speculative_token_count c + 7) 8). lia.
Qed.

Lemma length_lane_wire c l : config_ok c -> lane_words c l -> Z.of_nat (length (lane_wire c l)) = lane_bytes c.
Proof.
  intros Hc Hl. pose proof (lane_bytes_room c Hc). pose proof (length_lane_body c l Hl).
  pose proof (speculative_range c Hc). unfold lane_wire. rewrite length_app, length_replicate. lia.
Qed.

Lemma reads_lane_fields c l : lane_words c l -> reads (read_lane_fields c) (lane_body l) l.
Proof.
  intros Hl. unfold lane_words in Hl. split_words. unfold lane_body, read_lane_fields.
  rewrite <-(app_nil_r (push_all (l_speculative_draft_token_ids l))). reads_fields. destruct l. apply reads_ret.
Qed.

Lemma reads_lane c l : config_ok c -> lane_words c l -> reads (read_lane c) (lane_wire c l) l.
Proof.
  intros Hc Hl pre post Hlen. pose proof (lane_bytes_room c Hc) as Hroom. pose proof (length_lane_body c l Hl) as Hbody.
  pose proof (speculative_range c Hc). pose proof (length_lane_wire c l Hc Hl) as Hwire.
  set (pad := replicate (Z.to_nat (lane_bytes c) - length (lane_body l)) 0).
  assert (lane_wire c l = lane_body l ++ pad) as Hsplit by done. rewrite Hsplit in Hlen, Hwire |- *.
  unfold read_lane, bind, gets. cbn [offset]. rewrite <-app_assoc in Hlen |- *.
  rewrite (reads_lane_fields c l Hl pre (pad ++ post) Hlen). cbn [offset].
  replace (Z.of_nat (length pre) + Z.of_nat (length (lane_body l)) - Z.of_nat (length pre))
    with (Z.of_nat (length (lane_body l))) by lia.
  rewrite length_app in Hwire. rewrite (u64_small (Z.of_nat (length (lane_body l)))) by lia.
  rewrite (proj2 (Z.ltb_ge _ _)) by lia. rewrite u64_small by lia.
  replace (lane_bytes c - Z.of_nat (length (lane_body l))) with (Z.of_nat (length pad)) by lia.
  pose proof (reads_catch _ (fun _ => throw AbiMismatch) _ _ (reads_skip pad _ eq_refl) (pre ++ lane_body l) post) as Hskip.
  rewrite <-app_assoc in Hskip. specialize (Hskip Hlen). rewrite length_app, Nat2Z.inj_add in Hskip.
  unfold ok_or. rewrite Hskip. unfold ret. rewrite length_app. do 2 f_equal. lia.
Qed.

Lemma reads_packet_header c p :
  packet_words c p -> reads (read_header c) (packet_header p) (p <| lanes := [] |>).
Proof.
  intros Hp. unfold packet_words in Hp. split_words. unfold packet_header, read_header.
  rewrite <-(app_nil_r (push_all (prefill_token_ids p))). reads_fields. apply reads_ret.
Qed.

Lemma resize_lane c acc l :
  config_ok c -> lane_words c l -> Z.of_nat (length acc) + lane_bytes c <= ISIZE_MAX ->
  resize (Z.of_nat (length acc) +u64 lane_bytes c) (acc ++ lane_body l) = acc ++ lane_wire c l.
Proof.
  intros Hc Hl Hfit. pose proof (lane_bytes_room c Hc). pose proof (length_lane_body c l Hl). pose proof (speculative_range c Hc).
  rewrite u64_small by lia. unfold resize, lane_wire. rewrite take_ge by (rewrite length_app; lia).
  rewrite <-app_assoc. do 2 f_equal. f_equal. rewrite length_app. lia.
Qed.

Lemma length_lanes_wire c ls : config_ok c -> Forall (lane_words c) ls ->
  Z.of_nat (length (concat (lane_wire c <$> ls))) = Z.of_nat (length ls) * lane_bytes c.
Proof.
  intros Hc. induction 1 as [|l ls Hl Hls IH]; [done|]. rewrite fmap_cons. cbn [concat length].
  rewrite length_app, Nat2Z.inj_add, IH, (length_lane_wire c l Hc Hl). lia.
Qed.

Lemma length_padded c p : config_ok c -> packet_words c p ->
  Z.of_nat (length (pad8 8 (packet_header p))) = packet_prefix_bytes c /\
  pad8 8 (packet_header p) = packet_header p ++ padding (Z.of_nat (length (packet_header p))).
Proof.
  intros Hc Hp. pose proof (length_packet_header c p Hp) as Hlen.
  pose proof (Z.mod_pos_bound (- Z.of_nat (length (packet_header p))) 8) as Hb.
  rewrite pad8_spec by lia. split; [|done]. rewrite prefix_bytes_spec by done. unfold padding.
  rewrite length_app, length_replicate, Hlen.
  set (n := 164 + 4 * (max_speculative_token_count c + max_active_sequence_count c)) in *. rewrite Hlen in Hb.
  pose proof (Z.div_mod (n + 7) 8). pose proof (Z.div_mod (-n) 8). pose proof (Z.mod_pos_bound (n + 7) 8).
  rewrite Nat2Z.inj_add, Hlen. lia.
Qed.

Lemma canonical_bytes_spec {S E} c p (s : S) :
  config_ok c -> packet_words c p -> packet_prefix_bytes c + lane_count p * lane_bytes c <= U32_MAX ->
  canonical_bytes (E := E) c p s = Ret (pad8 8 (packet_header p) ++ concat (lane_wire c <$> lanes p)) s.
Proof.
  intros Hc Hp Hfit. pose proof Hp as (_&_&_&_&Hcount&Hlanes). pose proof (length_padded c p Hc Hp) as [Hpad _].
  pose proof (lane_bytes_room c Hc). pose proof (speculative_range c Hc).
  destruct (wp_elim (canonical_bytes (E := E) c p) (fun bytes s' =>
    bytes = pad8 8 (packet_header p) ++ concat (lane_wire c <$> take (length (range 0 (lane_count p))) (lanes p)) /\ s' = s)
    (fun _ _ => False) s) as [(bytes&s'&Heq&->&->)|(?&?&?&[])].
  - unfold canonical_bytes.
    apply (wp_for_fold (fun pre bytes s' =>
      bytes = pad8 8 (packet_header p) ++ concat (lane_wire c <$> take (length pre) (lanes p)) /\ s' = s)).
    { cbn. by rewrite app_nil_r. }
    intros pre i post bytes s' Hsplit [-> ->]. apply range_split in Hsplit as [-> Hi].
    destruct (lookup_Some_range (lanes p) i) as [l Hl]; [lia|]. apply wp_bind. eapply wp_index; [exact Hl|]. apply wp_ret.
    replace (length (range 0 i ++ [i])) with (Datatypes.S (Z.to_nat i)) by (rewrite length_app, length_range; cbn [length]; lia).
    rewrite (length_range 0 i), Z.sub_0_r.
    assert (Forall (lane_words c) (take (Z.to_nat i) (lanes p))) as Htake by (by apply Forall_take).
    pose proof (length_lanes_wire c _ Hc Htake) as Hlen. rewrite length_take_le in Hlen by lia.
    pose proof (Forall_lookup_1 _ _ _ _ Hlanes Hl) as Hlw.
    rewrite resize_lane; [|done|done|rewrite length_app; nia].
    split; [|done]. rewrite (take_S_r _ _ _ Hl), fmap_app, concat_app, <-app_assoc. cbn. by rewrite app_nil_r.
  - rewrite Heq. f_equal. rewrite length_range, Z.sub_0_r, <-Hcount, Nat2Z.id, firstn_all. done.
Qed.

Lemma packet_bytes_exact c n :
  config_ok c -> calculate_packet_bytes c n <> 0 -> 0 <= n ->
  0 < n /\ n <= max_active_sequence_count c /\ calculate_packet_bytes c n = packet_prefix_bytes c + n * lane_bytes c /\
  packet_prefix_bytes c + n * lane_bytes c <= U32_MAX.
Proof.
  intros Hc Hnz Hn. revert Hnz. unfold calculate_packet_bytes.
  destruct (Z.eqb_spec n 0); [done|]. destruct (Z.ltb_spec (max_active_sequence_count c) n); [done|]. cbn [orb].
  pose proof (lane_bytes_room c Hc). pose proof (speculative_range c Hc).
  pose proof (u32_range (164 +u32 (4 *u32 (max_speculative_token_count c +u32 max_active_sequence_count c)))).
  assert (0 <= packet_prefix_bytes c <= U32_MAX) as Hpre.
  { rewrite prefix_bytes_spec by done. destruct Hc as (_&_&_&Hfit).
    pose proof (Z.div_mod (164 + 4 * (max_speculative_token_count c + max_active_sequence_count c) + 7) 8).
    pose proof (Z.mod_pos_bound (164 + 4 * (max_speculative_token_count c + max_active_sequence_count c) + 7) 8). lia. }
  assert (max_active_sequence_count c <= U32_MAX) by apply Hc.
  rewrite (u64_small (n * lane_bytes c)) by nia. rewrite u64_small by nia.
  destruct (Z.leb_spec (packet_prefix_bytes c + n * lane_bytes c) U32_MAX); [|done]. intros _.
  split; [lia|]. split; [lia|]. split; [done|lia].
Qed.

(** Filling the lanes in place reads them one after the other. *)
Lemma fill_lanes_from c xs p vs rest r :
  xs = seqZ (Z.of_nat (length vs)) (Z.of_nat (length rest)) -> lanes p = vs ++ rest ->
  for_fold xs (read_lane_at c) p r =
    match for_fold xs (fun _ values => let! v := read_lane c in ret (values ++ [v])) vs r with
    | Ret ls r' => Ret (p <| lanes := ls |>) r'
    | Fails e r' => Fails e r'
    | Panic => Panic
    | OutOfFuel => OutOfFuel
    end.
Proof.
  revert xs p vs r. induction rest as [|x rest IH]; intros xs p vs r -> Hp.
  - cbn. rewrite app_nil_r in Hp. unfold ret. by destruct p; cbn in *; subst.
  - rewrite seqZ_cons by (cbn; lia). cbn [for_fold]. unfold read_lane_at at 1, bind, index, gets. rewrite Nat2Z.id, Hp.
    rewrite list_lookup_middle by done. unfold ret at 1. destruct (read_lane c r) as [l r'|e r'| |]; [|done..]. unfold ret.
    replace (<[length vs := l]> (vs ++ x :: rest)) with ((vs ++ [l]) ++ rest).
    2: { rewrite insert_app_r_alt, Nat.sub_diag by done. cbn. by rewrite <- app_assoc. }
    rewrite (IH _ (p <| lanes := (vs ++ [l]) ++ rest |>) (vs ++ [l])); [|f_equal; rewrite ?length_app; cbn; lia|done].
    by destruct (for_fold _ _ (vs ++ [l]) r').
Qed.

Lemma fill_lanes_spec c p r : length (lanes p) = Z.to_nat (lane_count p) ->
  for_fold (range 0 (lane_count p)) (read_lane_at c) p r =
    match read_many (lane_count p) (read_lane c) r with
    | Ret ls r' => Ret (p <| lanes := ls |>) r'
    | Fails e r' => Fails e r'
    | Panic => Panic
    | OutOfFuel => OutOfFuel
    end.
Proof.
  intros Hl. apply (fill_lanes_from c _ p [] (lanes p)); [|done]. unfold range, seqZ. by rewrite Hl, Z.sub_0_r, Nat2Z.id.
Qed.

(** What the decoder does on the canonical bytes. *)
Lemma packet_from_canonical {S} memory c p (s : S) :
  lanes_heap_bytes c (lane_count p) <= memory -> config_ok c -> packet_words c p -> packet_prefix_bytes c + lane_count p * lane_bytes c <= U32_MAX ->
  p_descriptor_bytes p = packet_prefix_bytes c + lane_count p * lane_bytes c ->
  packet_from_wire memory c (pad8 8 (packet_header p) ++ concat (lane_wire c <$> lanes p)) s = Ret p s.
Proof.
  intros Hmem Hc Hp Hfit Hdesc. pose proof Hp as (_&_&_&_&Hcount&Hlanes).
  destruct (length_padded c p Hc Hp) as [Hpad Hsplit]. pose proof (length_lanes_wire c _ Hc Hlanes) as Hwire.
  pose proof (reads_packet_header c p Hp) as Hheader.
  set (body := concat (lane_wire c <$> lanes p)) in *. set (n := length (packet_header p)) in *.
  assert (Z.of_nat (length (pad8 8 (packet_header p) ++ body)) = p_descriptor_bytes p) as Hlen
    by (rewrite length_app, Nat2Z.inj_add, Hpad, Hwire; lia).
  unfold packet_from_wire, with_local. unfold bind at 1.
  specialize (Hheader [] (padding (Z.of_nat n) ++ body)). cbn [app length] in Hheader. change (Z.of_nat 0) with 0 in Hheader.
  rewrite app_assoc in Hheader. fold n in Hheader. rewrite <-Hsplit in Hheader. rewrite Hheader by lia. clear Hheader.
  pose proof (align_cursor_spec 8 (packet_header p) body) as Halign. fold n in Halign.
  rewrite app_assoc, <-Hsplit in Halign. unfold bind at 1, align_cursor. rewrite Z.add_0_l.
  rewrite Halign; [|pose proof (Z.mod_pos_bound (- Z.of_nat n) 8); lia|lia]. clear Halign.
  assert (Z.of_nat n + Z.of_nat (length (padding (Z.of_nat n))) = packet_prefix_bytes c) as Hhere
    by (rewrite Hsplit, length_app, Nat2Z.inj_add in Hpad; done).
  rewrite Hhere. unfold bind at 1, gets. cbn [offset]. rewrite u32_small by nia. rewrite Z.eqb_refl. cbn [negb].
  assert (reads (read_many (lane_count (p <| lanes := [] |>)) (read_lane c)) body (lanes p)) as Hbody.
  { apply (reads_many _ _ (lane_wire c)); [exact Hcount|]. eapply Forall_impl; [exact Hlanes|].
    intros l Hl. by apply reads_lane. }
  specialize (Hbody (pad8 8 (packet_header p)) []). rewrite app_nil_r, Hpad in Hbody.
  unfold bind at 1, resize_lanes. change (lane_count (p <| lanes := [] |>)) with (lane_count p) in *.
  destruct (Z.ltb_spec memory (lanes_heap_bytes c (lane_count p))); [lia|]. unfold ret at 1. set (p0 := set_lane_count c (lane_count p) _).
  change (lane_count p) with (lane_count p0) in Hbody.
  unfold bind at 1. rewrite fill_lanes_spec; [|unfold p0, set_lane_count; cbn [lanes lane_count]; cbn; rewrite length_app, take_nil, length_replicate; cbn; lia].
  rewrite Hbody by lia. clear Hbody. unfold bind at 1. cbn [offset]. rewrite Hlen, Hwire.
  rewrite (proj2 (Z.eqb_eq _ _)) by lia. cbn [negb orb].
  change (p_descriptor_bytes (p <| lanes := [] |>)) with (p_descriptor_bytes p). rewrite Z.eqb_refl. cbn [negb].
  unfold ret. f_equal. by destruct p.
Qed.

(** ** Decoding arbitrary bytes *)

Definition cursor_ok (r : Reader) : Prop := 0 <= offset r <= Z.of_nat (length (bytes r)) /\ Z.of_nat (length (bytes r)) <= ISIZE_MAX.

(** A decoder that returns from every cursor, failing only with [AbiMismatch]. *)
Definition decodes {A} (m : RM A) (P : A -> Prop) : Prop :=
  forall r, cursor_ok r -> wp m (fun a r' => cursor_ok r' /\ P a) (fun e _ => e = AbiMismatch) r.

Lemma take_spec count r :
  0 <= count <= U64_MAX -> cursor_ok r ->
  wp (reader_take count)
    (fun b r' => bytes r' = bytes r /\ offset r' = offset r + count /\ cursor_ok r' /\ Z.of_nat (length b) = count)
    (fun _ r' => r' = r) r.
Proof.
  intros Hcount [Hr Hlen]. unfold reader_take. wp_steps.
  destruct (decide (offset r + count <= U64_MAX)) as [Hsmall|Hbig].
  - rewrite u64_small by lia. destruct (_ && _) eqn:Hfit; [|by apply wp_throw].
    apply andb_true_iff in Hfit as [H1%Z.leb_le H2%Z.leb_le]. wp_steps. unfold set_field. cbn.
    rewrite u64_small by lia. split; [done|]. split; [done|]. split; [split; cbn; lia|].
    rewrite length_take, length_drop. lia.
  - assert (u64 (offset r + count) < offset r) as Hwrap.
    { unfold u64. rewrite <-(Z.mod_add (offset r + count) (-1)) by lia. rewrite Z.mod_small; lia. }
    rewrite (proj2 (Z.leb_gt _ _)) by lia. by apply wp_throw.
Qed.

Lemma decodes_ok_or {A} (m : M Reader unit A) (P : A -> Prop) :
  (forall r, cursor_ok r -> wp m (fun a r' => cursor_ok r' /\ P a) (fun _ _ => True) r) -> decodes (ok_or AbiMismatch m) P.
Proof.
  intros H r Hr. apply wp_catch. eapply wp_mono; [by apply H|done|]. intros e r' _. by apply wp_throw.
Qed.

Lemma decodes_bind {A B} (m : RM A) (k : A -> RM B) P Q :
  decodes m P -> (forall a, P a -> decodes (k a) Q) -> decodes (bind m k) Q.
Proof.
  intros Hm Hk r Hr. apply wp_bind. eapply wp_mono; [by apply Hm| |done]. intros a r' [Hr' Ha]. by apply (Hk a).
Qed.

Lemma decodes_ret {A} (a : A) (P : A -> Prop) : P a -> decodes (ret a) P.
Proof. intros Ha r Hr. by apply wp_ret. Qed.

Lemma decodes_mono {A} (m : RM A) (P Q : A -> Prop) : decodes m P -> (forall a, P a -> Q a) -> decodes m Q.
Proof. intros H HPQ r Hr. eapply wp_mono; [by apply H| |done]. naive_solver. Qed.

Definition any {A} (_ : A) : Prop := True.

Lemma decodes_read : decodes read any.
Proof.
  apply decodes_ok_or. intros r Hr. unfold reader_u32. apply wp_bind. eapply wp_mono; [by apply take_spec| |done].
  intros b r' (_&_&Hr'&_). destruct (_ =? _)%nat; [by apply wp_ret|by apply wp_throw].
Qed.

Lemma decodes_read64 : decodes read64 any.
Proof.
  apply decodes_ok_or. intros r Hr. unfold reader_u64. apply wp_bind. eapply wp_mono; [by apply take_spec| |done].
  intros b r' (_&_&Hr'&_). destruct (_ =? _)%nat; [by apply wp_ret|by apply wp_throw].
Qed.

Lemma decodes_skip count : 0 <= count <= U64_MAX -> decodes (ok_or AbiMismatch (reader_skip count)) any.
Proof.
  intros Hc. apply decodes_ok_or. intros r Hr. unfold reader_skip. apply wp_bind.
  eapply wp_mono; [by apply take_spec| |done]. intros b r' (_&_&Hr'&_). by apply wp_ret.
Qed.

Lemma decodes_take n :
  0 <= n <= U64_MAX -> decodes (ok_or AbiMismatch (reader_take n)) (fun b => Z.of_nat (length b) = n).
Proof. intros Hn. apply decodes_ok_or. intros r Hr. eapply wp_mono; [by apply take_spec| |done]. naive_solver. Qed.

Lemma decodes_many {A} n (m : RM A) P :
  decodes m P -> decodes (read_many n m) (fun xs => length xs = Z.to_nat n /\ Forall P xs).
Proof.
  intros Hm r Hr. unfold read_many.
  eapply wp_mono; [apply (wp_for_fold (fun pre values r' => cursor_ok r' /\ length values = length pre /\ Forall P values) _ _ _
    (fun e _ => e = AbiMismatch))| |done].
  - done.
  - intros pre x post values r' _ (Hr'&Hlen&Hall). apply wp_bind. eapply wp_mono; [by apply Hm| |done].
    intros a r'' [Hr'' Ha]. apply wp_ret. split; [done|]. split; [rewrite !length_app; cbn [length]; lia|]. apply Forall_app. by repeat constructor.
  - intros xs r' (Hr'&Hlen&Hall). split; [done|]. by rewrite Hlen, length_range, Z.sub_0_r.
Qed.

Lemma decodes_byte : decodes read_byte any.
Proof.
  unfold read_byte. eapply decodes_bind; [by apply decodes_take|]. intros b _. by apply decodes_ret.
Qed.

Lemma decodes_u16 : decodes read_u16 any.
Proof.
  unfold read_u16. eapply decodes_bind; [by apply decodes_take|]. intros b Hb.
  destruct b as [|b0 [|b1 b]]; cbn [length] in Hb; try lia.
  eapply (decodes_bind _ _ any); [by apply (decodes_ret b0)|]. intros x0 _.
  eapply (decodes_bind _ _ any); [by apply (decodes_ret b1)|]. intros x1 _. by apply decodes_ret.
Qed.

Ltac decodes_field :=
  lazymatch goal with
  | |- decodes (bind read _) _ => eapply decodes_bind; [apply decodes_read|intros ? _]
  | |- decodes (bind read64 _) _ => eapply decodes_bind; [apply decodes_read64|intros ? _]
  | |- decodes (bind read_byte _) _ => eapply decodes_bind; [apply decodes_byte|intros ? _]
  | |- decodes (bind read_u16 _) _ => eapply decodes_bind; [apply decodes_u16|intros ? _]
  | |- decodes (bind (read_many _ read) _) _ => eapply decodes_bind; [apply (decodes_many _ _ any), decodes_read|intros ? [? _]]
  end.

(** A lane whose vector of draft tokens has the configured capacity. *)
Definition lane_shaped (c : WorkControlConfig) (l : WorkControlLane) : Prop :=
  length (l_speculative_draft_token_ids l) = Z.to_nat (max_speculative_token_count c).

Lemma decodes_lane_fields c : decodes (read_lane_fields c) (lane_shaped c).
Proof. unfold read_lane_fields. repeat decodes_field. by apply decodes_ret. Qed.

Lemma decodes_lane c : decodes (read_lane c) (lane_shaped c).
Proof.
  intros r Hr. unfold read_lane. apply wp_bind, wp_gets, wp_bind.
  eapply wp_mono; [by apply decodes_lane_fields| |done]. intros l r' [Hr' Hl]. apply wp_bind, wp_gets. cbv zeta.
  destruct (_ <? _); [by apply wp_throw|]. apply wp_bind. eapply wp_mono; [apply decodes_skip; [apply u64_range|done]| |done].
  intros _ r'' [Hr'' _]. by apply wp_ret.
Qed.

Lemma decodes_align : decodes align_cursor any.
Proof.
  intros r Hr. unfold align_cursor.
  apply (wp_loop (fun _ r' => cursor_ok r') (fun _ r' => Z.to_nat ((- offset r') mod 8))).
  - done.
  - pose proof (Z.mod_pos_bound (- offset r) 8). lia.
  - intros u r' Hr'. unfold align_round. wp_steps. destruct (Z.eqb_spec (offset r' mod 8) 0) as [Hz|Hz]; wp_steps; [done|].
    unfold reader_skip, ok_or. wp_steps. eapply wp_mono; [by apply take_spec| |].
    + intros b r'' (_&Hoff&Hr''&_). wp_steps. split; [done|]. rewrite Hoff, mod8_step by done.
      pose proof (Z.mod_pos_bound (- offset r') 8).
      assert ((- offset r') mod 8 <> 0) by (intros H0; apply Hz; apply mod8_zero in H0; by rewrite Z.opp_involutive in H0).
      lia.
    + intros _ r'' _. by wp_steps.
Qed.

(** A packet whose vectors have the configured capacities. *)
Definition header_shaped (c : WorkControlConfig) (p : WorkControlPacket) : Prop :=
  length (p_speculative_draft_token_ids p) = Z.to_nat (max_speculative_token_count c) /\
  length (prefill_token_ids p) = Z.to_nat (max_active_sequence_count c).

Lemma decodes_header c : decodes (read_header c) (header_shaped c).
Proof. unfold read_header. repeat decodes_field. by apply decodes_ret. Qed.

(** The lanes a packet announces, before anything else is checked. *)
Definition announced_lanes (c : WorkControlConfig) (wire : list Z) : option Z :=
  match read_header c (mkReader wire 0) with Ret p _ => Some (lane_count p) | _ => None end.

Lemma wp_with_local {S T E A} (t : T) (m : M T E A) (Q : A -> Prop) (R : E -> Prop) (s : S) :
  wp m (fun a _ => Q a) (fun e _ => R e) t -> wp (with_local t m) (fun a s' => s' = s /\ Q a) (fun e s' => s' = s /\ R e) s.
Proof. unfold wp, with_local. by destruct (m t). Qed.

(** The state after the header, when the header can be read. *)
Lemma wp_header c wire (Q : WorkControlPacket -> Reader -> Prop) :
  Z.of_nat (length wire) <= ISIZE_MAX ->
  (forall p r, announced_lanes c wire = Some (lane_count p) -> cursor_ok r -> header_shaped c p -> Q p r) ->
  wp (read_header c) Q (fun e _ => e = AbiMismatch) (mkReader wire 0).
Proof.
  intros Hlen HQ. pose proof (decodes_header c (mkReader wire 0) ltac:(split; cbn; lia)) as Hw. unfold announced_lanes in HQ.
  unfold wp in *. destruct (read_header c (mkReader wire 0)) as [p r|e r| |]; [|done..]. destruct Hw as [Hr Hp]. by apply HQ.
Qed.

Lemma resized_lanes c p : length (lanes (set_lane_count c (lane_count p) p)) = Z.to_nat (lane_count p).
Proof. unfold set_lane_count. cbn. rewrite length_app, length_take, length_replicate. lia. Qed.

Lemma packet_decode_spec {S} memory c wire (s : S) :
  Z.of_nat (length wire) <= ISIZE_MAX -> (forall n, announced_lanes c wire = Some n -> lanes_heap_bytes c n <= memory) ->
  wp (packet_from_wire memory c wire)
    (fun p s' => s' = s /\ header_shaped c p /\ length (lanes p) = Z.to_nat (lane_count p) /\ Forall (lane_shaped c) (lanes p) /\
       p_descriptor_bytes p = Z.of_nat (length wire))
    (fun e s' => s' = s /\ e = AbiMismatch) s.
Proof.
  intros Hlen Hmem. apply (wp_with_local _ _ (fun p => header_shaped c p /\ length (lanes p) = Z.to_nat (lane_count p) /\
    Forall (lane_shaped c) (lanes p) /\ p_descriptor_bytes p = Z.of_nat (length wire))).
  apply wp_bind, wp_header; [done|]. intros p r Hann Hr Hp.
  apply wp_bind. eapply wp_mono; [by apply decodes_align| |done]. intros _ r1 [Hr1 _].
  apply wp_bind, wp_gets. destruct (negb _); [by apply wp_throw|]. apply wp_bind. unfold resize_lanes.
  destruct (Z.ltb_spec memory (lanes_heap_bytes c (lane_count p))); [apply Hmem in Hann; lia|]. apply wp_ret, wp_bind.
  unfold wp at 1. set (p0 := set_lane_count c (lane_count p) p). rewrite (fill_lanes_spec c p0 r1 (resized_lanes c p)).
  pose proof (decodes_many (lane_count p0) _ _ (decodes_lane c) r1 Hr1) as Hw. unfold wp in Hw.
  destruct (read_many _ _ r1) as [ls r2|e r2| |]; [|done..]. destruct Hw as (Hr2&Hls&Hall).
  apply wp_bind, wp_gets. destruct (_ || _) eqn:Hbad; [by apply wp_throw|].
  apply orb_false_iff in Hbad as [_ Hd]. apply negb_false_iff, Z.eqb_eq in Hd. by apply wp_ret.
Qed.

(** Without the memory for them the announced lanes end the process. *)
Lemma packet_decode_starved memory c wire n :
  Z.of_nat (length wire) <= ISIZE_MAX -> announced_lanes c wire = Some n -> memory < lanes_heap_bytes c n ->
  packet_from_wire memory c wire tt = Fails AbiMismatch tt \/ packet_from_wire memory c wire tt = Panic.
Proof.
  intros Hlen Hann Hmem. unfold packet_from_wire, with_local, bind.
  assert (cursor_ok (mkReader wire 0)) as H0 by (split; cbn; lia).
  pose proof (decodes_header c _ H0) as Hw. unfold announced_lanes in Hann. unfold wp in Hw.
  destruct (read_header c (mkReader wire 0)) as [p r|e r| |]; [|done..]. injection Hann as Hn. destruct Hw as [Hr _].
  pose proof (decodes_align r Hr) as Hw. unfold wp in Hw.
  destruct (align_cursor r) as [u r1|e r1| |]; [|left; by subst|done|done]. unfold gets. destruct (negb _); [by left|].
  right. unfold resize_lanes. rewrite Hn. destruct (Z.ltb_spec memory (lanes_heap_bytes c n)); [done|lia].
Qed.

(** ** The properties *)

(** C17. A work-control packet survives the wire.  For a packet with one lane per active
    sequence and the descriptor size of the configuration, [packet_to_wire] succeeds
    with exactly [descriptor_bytes] bytes and [packet_from_wire], on a heap with room for
    the packet's lanes, gives the packet back. *)
Theorem packet_wire_roundtrip memory c p :
  config_ok c -> packet_words c p -> lane_count p = active_sequence_count p ->
  calculate_packet_bytes c (active_sequence_count p) <> 0 ->
  p_descriptor_bytes p = calculate_packet_bytes c (active_sequence_count p) ->
  exists wire, packet_to_wire c p tt = Ret wire tt /\ Z.of_nat (length wire) = p_descriptor_bytes p /\
    (lanes_heap_bytes c (lane_count p) <= memory -> packet_from_wire memory c wire tt = Ret p tt).
Proof.
  intros Hc Hp Hlanes Hnz Hdesc. pose proof Hp as (_&_&_&_&Hcount&Hall).
  destruct (packet_bytes_exact c (active_sequence_count p) Hc Hnz ltac:(lia)) as (_&_&Hexact&Hfit).
  rewrite <-Hlanes in Hexact, Hfit. exists (pad8 8 (packet_header p) ++ concat (lane_wire c <$> lanes p)).
  split; [|split].
  - unfold packet_to_wire. rewrite (proj2 (Z.eqb_neq _ _)) by done. rewrite Hdesc, Z.eqb_refl. by apply canonical_bytes_spec.
  - destruct (length_padded c p Hc Hp) as [Hpad _]. pose proof (length_lanes_wire c _ Hc Hall) as Hwire.
    rewrite length_app, Nat2Z.inj_add, Hpad, Hwire, Hcount, Hdesc, <-Hlanes. lia.
  - intros Hmem. apply packet_from_canonical; [done|done|done|done|]. by rewrite Hdesc, <-Hlanes.
Qed.

(** C40. Decoding arbitrary bytes ends in one of three ways.  [packet_from_wire] returns a
    packet exactly as long as its descriptor says, whose vectors have the configured
    capacities, with as many lanes as its lane count; or it answers [AbiMismatch]; or, only
    when the lanes announced in the header need more heap than there is, the process aborts:
    the code allocates them before it looks at the length of the input. *)
Theorem packet_decode_total memory c wire :
  Z.of_nat (length wire) <= ISIZE_MAX ->
  match packet_from_wire memory c wire tt with
  | Ret p _ => p_descriptor_bytes p = Z.of_nat (length wire) /\ header_shaped c p /\
      length (lanes p) = Z.to_nat (lane_count p) /\ Forall (lane_shaped c) (lanes p)
  | Fails e _ => e = AbiMismatch
  | Panic => exists n, announced_lanes c wire = Some n /\ memory < lanes_heap_bytes c n
  | OutOfFuel => False
  end.
Proof.
  intros Hlen. destruct (announced_lanes c wire) as [n|] eqn:Hann.
  - destruct (Z.lt_ge_cases memory (lanes_heap_bytes c n)) as [Hlt|Hge].
    + destruct (packet_decode_starved memory c wire n Hlen Hann Hlt) as [->| ->]; [done|by exists n].
    + pose proof (packet_decode_spec memory c wire tt Hlen ltac:(intros ? ?; congruence)) as Hw. unfold wp in Hw.
      destruct (packet_from_wire memory c wire tt); naive_solver.
  - pose proof (packet_decode_spec memory c wire tt Hlen ltac:(intros ? ?; congruence)) as Hw. unfold wp in Hw.
    destruct (packet_from_wire memory c wire tt); naive_solver.
Qed.

(** An acknowledgement answers one packet.  The bytes made for an identity and a
    fingerprint are accepted, with the status they carry, by the sender of exactly that
    packet and fail validation for any other; and whatever acknowledgement is accepted
    names the expected identity and fingerprint and a known status. *)
Theorem acknowledgement_handshake identity fingerprint state status expected expected_fingerprint :
  identity_words identity -> validate_identity identity = true -> word64 fingerprint ->
  ack_state_is_stored state = true -> expected_fingerprint <> 0 ->
  (exists ack, acknowledgement_from_wire (S := unit) (E := SparkStatus) (acknowledgement_to_wire
       (initialize_acknowledgement (Some identity) fingerprint state status)) tt = Ret ack tt /\
     validate_acknowledgement ack expected expected_fingerprint =
       if bool_decide (identity = expected) && (fingerprint =? expected_fingerprint)
       then inr (status_code status) else inl ValidationFailed) /\
  (forall ack code, validate_acknowledgement ack expected expected_fingerprint = inr code ->
     a_identity ack = expected /\ packet_fingerprint ack = expected_fingerprint /\
     exists known, code = status_code known).
Proof.
  intros Hwords Hid Hfp Hstate Hexp. split.
  - exists (initialize_acknowledgement (Some identity) fingerprint state status). split.
    + apply acknowledgement_wire_roundtrip, initialized_words; [done|done|].
      unfold ack_state_is_stored in Hstate. apply andb_true_iff in Hstate as [?%Z.leb_le ?%Z.leb_le]. split; lia.
    + unfold validate_acknowledgement. rewrite (proj2 (Z.eqb_neq _ _)) by done. cbn.
      rewrite Hid, Hstate, status_code_roundtrip, (bool_decide_true (is_Some _)) by eauto. cbn [negb orb].
      destruct (bool_decide (identity = expected)), (fingerprint =? expected_fingerprint); done.
  - intros ack code. unfold validate_acknowledgement. destruct (_ =? 0); [done|]. destruct (_ || _); [done|].
    destruct (negb _ || _ || _ || _ || _ || _ || _) eqn:Hchecks; [done|]. intros [= <-].
    repeat (apply orb_false_iff in Hchecks as [Hchecks ?]).
    repeat match goal with H : negb _ = false |- _ => apply negb_false_iff in H end.
    repeat match goal with H : bool_decide _ = true |- _ => apply bool_decide_eq_true in H end.
    split; [done|]. split; [by apply Z.eqb_eq|].
    match goal with H : is_Some _ |- _ => destruct H as [known Hk] end. exists known. by apply status_from_code_inv.
Qed.

(** A final event survives the wire in exactly 272 bytes, and the receiver accepts
    it exactly when it carries the magic and the descriptor size. *)
Theorem final_event_roundtrip event :
  event_words event ->
  length (final_event_to_wire event) = 272%nat /\
  final_event_from_wire (S := unit) (E := SparkStatus) (final_event_to_wire event) tt = Ret event tt /\
  (validate_final_event event = inr tt <->
   e_magic event = FINAL_EVENT_MAGIC /\ e_descriptor_bytes event = FINAL_EVENT_DESCRIPTOR_BYTES).
Proof.
  intros Hw. split; [by apply length_final_event_to_wire|]. split; [by apply final_event_wire_roundtrip|].
  unfold validate_final_event.
  destruct (Z.eqb_spec (e_magic event) FINAL_EVENT_MAGIC), (Z.eqb_spec (e_descriptor_bytes event) FINAL_EVENT_DESCRIPTOR_BYTES);
    cbn [negb orb]; naive_solver.
Qed.

(** ** Witnesses *)

Definition small_config : WorkControlConfig := mkWorkConfig 2 3 1024 64 8 1000 4 2 3.

Definition small_lane (k : Z) : WorkControlLane := mkLane 7 k 2 (100 + k) 40 0 41 9 2 1 2 1 513 [11; 12; 13].

Definition small_packet : WorkControlPacket := mkPacket 1 2 344 2 7 100 40 99 7 42 1 1001 2 0 1 2 0 2 1 0 5 64 64 16
  2 9 1 0 [11; 12; 13] 2 1 2 2 [21; 22] [small_lane 1; small_lane 2].

Ltac words :=
  unfold config_ok, packet_words, event_words, draft_words, identity_words;
  repeat match goal with
  | |- _ /\ _ => split
  | |- Forall _ _ => constructor
  | |- lane_words _ _ => unfold lane_words
  end; unfold word32, word64, byte; vm_compute; first [reflexivity|discriminate|split; first [discriminate|reflexivity]].

Lemma packet_wire_roundtrip_witness :
  calculate_packet_bytes small_config 2 = 344 /\
  exists wire, packet_to_wire small_config small_packet tt = Ret wire tt /\ Z.of_nat (length wire) = 344 /\
    packet_from_wire 200 small_config wire tt = Ret small_packet tt.
Proof.
  split; [vm_compute; reflexivity|]. destruct (packet_wire_roundtrip 200 small_config small_packet) as (wire&Hw&Hlen&Hback).
  - words.
  - words.
  - reflexivity.
  - vm_compute. discriminate.
  - vm_compute. reflexivity.
  - exists wire. split; [exact Hw|]. split; [exact Hlen|]. apply Hback. vm_compute. discriminate.
Defined.

(** The header of [small_packet] alone, announcing [n] lanes. *)
Definition short_wire (n : Z) : list Z := pad8 8 (packet_header (small_packet <| lane_count := n |>)).

Lemma packet_decode_total_witness :
  packet_from_wire 200 small_config (short_wire 2) tt = Fails AbiMismatch tt.
Proof.
  assert (Z.of_nat (length (short_wire 2)) <= ISIZE_MAX) as Hlen by (vm_compute; discriminate).
  pose proof (packet_decode_total 200 small_config (short_wire 2) Hlen) as H.
  destruct (packet_from_wire 200 small_config (short_wire 2) tt) as [p []|e []| |] eqn:E;
    [vm_compute in E; discriminate E|by rewrite H|vm_compute in E; discriminate E|destruct H].
Defined.

(** 184 bytes that announce 2^32 - 1 lanes abort a decoder with 256 GiB of heap left. *)
Lemma short_packet_exhausts_memory :
  Z.of_nat (length (short_wire U32_MAX)) = 184 /\ packet_from_wire (2 ^ 38) small_config (short_wire U32_MAX) tt = Panic.
Proof. split; vm_compute; reflexivity. Qed.

Definition wire_identity : Identity := mkIdentity 7 42 1 1001 2 0 1 1.

Lemma acknowledgement_handshake_witness :
  1 <> 0 /\ exists ack, acknowledgement_from_wire (S := unit) (E := SparkStatus) (acknowledgement_to_wire
    (initialize_acknowledgement (Some wire_identity) 99 2 Ok)) tt = Ret ack tt /\
    validate_acknowledgement ack wire_identity 99 = inr 0.
Proof.
  split; [lia|].
  destruct (acknowledgement_handshake wire_identity 99 2 Ok wire_identity 99) as [(ack&Hack&Hval) _];
    [words|reflexivity|words|reflexivity|lia|]. exists ack. split; [exact Hack|]. rewrite Hval. vm_compute. reflexivity.
Defined.

Definition sample_event : FinalEvent := mkEvent FINAL_EVENT_MAGIC 272 0 3 0 1 1 1 [101; 0; 0; 0; 0; 0; 0; 0] 0
  [0; 0; 0; 0; 0; 0; 0; 0] 7 8 0 5 7 42 1 1 1 0 1 1 0 0 0 (mkDraft 2 72 0 0 [0; 0; 0; 0; 0; 0; 0] [0; 0; 0; 0; 0; 0; 0]).

Lemma final_event_roundtrip_witness :
  1 <> 0 /\ final_event_from_wire (S := unit) (E := SparkStatus) (final_event_to_wire sample_event) tt = Ret sample_event tt.
Proof. split; [lia|]. apply (final_event_roundtrip sample_event). words. Defined.
