(* ===== verification/KvIndex.v ===== *)
(** * The KV key domain and the open-addressed index (work_control.rs)

    The 128-bit keys of the KV block directory and the power-of-two table with
    linear probing and backward-shift deletion that both the sequence directory
    and the block table use.  [represents es m]: the table [es] stores exactly the
    finite map [m] and every probe chain is contiguous.  Probing then decides
    membership in [m], writing to the slot a missed probe returns is insertion and
    [kv_index_erase] is deletion. *)

From stdpp Require Export gmap.
From S2P Require Import Prelude.

(** ** Keys *)

Record KvKey := mkKvKey { key_low : Z; key_high : Z }.

#[export] Instance KvKey_eq_dec : EqDecision KvKey.
Proof. solve_decision. Defined.

#[export] Instance KvKey_countable : Countable KvKey.
Proof.
  refine (inj_countable' (fun k => (key_low k, key_high k)) (fun p => mkKvKey p.1 p.2) _).
  by intros [].
Defined.

Definition empty_key : KvKey := mkKvKey 0 0.

Definition key_is_empty (k : KvKey) : bool := (key_low k =? 0) && (key_high k =? 0).

(** The splitmix64 finalizer. *)
Definition kv_mix (value : Z) : Z :=
  let value := Z.lxor value (Z.shiftr value 30) in
  let value := value *u64 0xbf58476d1ce4e5b9 in
  let value := Z.lxor value (Z.shiftr value 27) in
  let value := value *u64 0x94d049bb133111eb in
  Z.lxor value (Z.shiftr value 31).

Definition private_key (sequence_id logical_block_index : Z) : KvKey :=
  let low := kv_mix (Z.lxor sequence_id (logical_block_index *u64 0x9e3779b97f4a7c15)) in
  let high := Z.lor (kv_mix (Z.lxor low 0xd6e8feb86659fd93)) 1 in
  mkKvKey low high.

(** [(digest_high | 2) & !1] on [u64]. *)
Definition content_key (digest_low digest_high : Z) : KvKey :=
  mkKvKey digest_low (Z.land (Z.lor digest_high 2) (U64_MAX - 1)).

(** ** The table *)

(** [trait KvIndexed: Copy + Default]; the default entry is the vacant one. *)
Class KvIndexed (E : Type) := {
  entry_key : E -> KvKey;
  entry_default : E;
  entry_default_key : entry_key entry_default = empty_key;
}.

Definition kv_index_home (key : KvKey) (mask : Z) : Z := u32 (Z.land (key_low key) mask).

Section operations.
Context {E : Type} `{KvIndexed E}.

(** One step of the probe: the slot decides, or the probe moves on. *)
Definition probe_step {S F} (entries : list E) (key : KvKey) (mask : Z) (_ : Z) (slot : Z)
    : M S F (flow Z (Z * bool)) :=
  let! e := index entries slot in
  if key_is_empty (entry_key e) then ret (Break (slot, false))
  else if bool_decide (entry_key e = key) then ret (Break (slot, true))
  else ret (Continue (Z.land (slot +u32 1) mask)).

Definition kv_index_probe {S F} (entries : list E) (key : KvKey) : M S F (Z * bool) :=
  let mask := u32 (Z.of_nat (length entries)) -u32 1 in
  let! r := for_flow (range 0 (mask + 1)) (probe_step entries key mask) (kv_index_home key mask) in
  match r with Break res => ret res | Continue _ => ret (U32_MAX, false) end.

Definition kv_index_find {S F} (entries : list E) (key : KvKey) : M S F (option Z) :=
  let! r := kv_index_probe entries key in
  ret (if snd r then Some (fst r) else None).

(** [while scan != hole]: one iteration of the backward shift. *)
Definition erase_step {F} (mask : Z) (hs : Z * Z) : M (list E) F (flow (Z * Z) unit) :=
  let '(hole, scan) := hs in
  if scan =? hole then ret (Break tt) else
  let! entries := gets id in
  let! e := index entries scan in
  if key_is_empty (entry_key e) then ret (Break tt) else
  let home := kv_index_home (entry_key e) mask in
  let hole_distance := Z.land (hole -u32 home) mask in
  let scan_distance := Z.land (scan -u32 home) mask in
  if scan_distance <=? hole_distance then ret (Continue (hole, Z.land (scan +u32 1) mask)) else
  do! modify (fun es => <[Z.to_nat hole := e]> es) in
  do! modify (fun es => <[Z.to_nat scan := entry_default]> es) in
  ret (Continue (scan, Z.land (scan +u32 1) mask)).

(** Fuel: one step per slot.  The scan meets a vacant slot within one revolution
    when the table has one besides the erased slot. *)
Definition kv_index_erase {F} (slot : Z) : M (list E) F unit :=
  let! entries := gets id in
  let mask := u32 (Z.of_nat (length entries)) -u32 1 in
  do! index entries slot in
  do! modify (fun es => <[Z.to_nat slot := entry_default]> es) in
  loop (Datatypes.S (length entries)) (erase_step mask) (slot, Z.land (slot +u32 1) mask).

End operations.

(** ** Cyclic distance *)

(** How many slots a probe that starts at [a] passes before it reaches [b], in a
    table of [n] slots. *)
Definition dist (n a b : Z) : Z := (b - a) mod n.

Lemma dist_cases n a b :
  0 <= a < n -> 0 <= b < n -> (a <= b /\ dist n a b = b - a) \/ (b < a /\ dist n a b = b - a + n).
Proof.
  intros Ha Hb. unfold dist. destruct (decide (a <= b)); [left|right].
  - split; [done|]. apply Z.mod_small. lia.
  - split; [lia|]. rewrite <-(Z.mod_add (b - a) 1) by lia. rewrite Z.mod_small; lia.
Qed.

(** The slot after [a]. *)
Definition next_slot (n a : Z) : Z := if a + 1 =? n then 0 else a + 1.

Lemma next_slot_range n a : 0 <= a < n -> 0 <= next_slot n a < n.
Proof. intros. unfold next_slot. destruct (Z.eqb_spec (a + 1) n); lia. Qed.

(** Reduce the cyclic distance from [a] to [b] to linear arithmetic. *)
Ltac cyc n a b :=
  let H := fresh "Hd" in destruct (dist_cases n a b) as [[? H]|[? H]]; [lia|lia| |]; rewrite ?H in *.

Lemma dist_next n a b : 0 <= a < n -> 0 <= b < n -> next_slot n b <> a ->
  dist n a (next_slot n b) = dist n a b + 1.
Proof.
  intros Ha Hb. unfold next_slot. destruct (Z.eqb_spec (b + 1) n); intros.
  - cyc n a b; cyc n a 0; lia.
  - cyc n a b; cyc n a (b + 1); lia.
Qed.

Lemma dist_next_self n a : 0 <= a < n -> next_slot n a <> a -> dist n a (next_slot n a) = 1.
Proof.
  intros Ha Hne. rewrite dist_next by done. unfold dist. rewrite Z.sub_diag, Z.mod_0_l; lia.
Qed.

Lemma dist_range n a b : 0 < n -> 0 <= dist n a b < n.
Proof. intros. unfold dist. apply Z.mod_pos_bound. lia. Qed.

(** ** Slots of a power-of-two table *)

Section pow2.
Context (k n : Z) (Hk : 0 <= k <= 31) (Hn : n = 2 ^ k).

Lemma pow2_bounds : 0 < n <= 2147483648.
Proof.
  subst n. split; [apply Z.pow_pos_nonneg; lia|].
  replace 2147483648 with (2 ^ 31) by reflexivity. apply Z.pow_le_mono_r; lia.
Qed.

Lemma pow2_mask : u32 n -u32 1 = n - 1.
Proof. pose proof pow2_bounds. rewrite (u32_small n) by lia. apply u32_small. lia. Qed.

Lemma land_mask x : Z.land x (n - 1) = x mod n.
Proof. subst n. rewrite <-Z.land_ones by lia. rewrite Z.ones_equiv. done. Qed.

Lemma u32_mod x : u32 x mod n = x mod n.
Proof.
  unfold u32. subst n. replace 4294967296 with (2 ^ k * 2 ^ (32 - k)).
  - rewrite Z.rem_mul_r by (try apply Z.pow_nonzero; try apply Z.pow_pos_nonneg; lia).
    rewrite Z.mul_comm, Z.mod_add by (apply Z.pow_nonzero; lia).
    apply Z.mod_mod. apply Z.pow_nonzero; lia.
  - rewrite <-Z.pow_add_r by lia. by replace (k + (32 - k)) with 32 by lia.
Qed.

Lemma home_mask key : kv_index_home key (n - 1) = key_low key mod n.
Proof.
  pose proof pow2_bounds. unfold kv_index_home. rewrite land_mask. apply u32_small.
  pose proof (Z.mod_pos_bound (key_low key) n). lia.
Qed.

Lemma home_range key : 0 <= kv_index_home key (n - 1) < n.
Proof. pose proof pow2_bounds. rewrite home_mask. apply Z.mod_pos_bound. lia. Qed.

Lemma next_mask a : 0 <= a < n -> Z.land (a +u32 1) (n - 1) = next_slot n a.
Proof.
  intros Ha. rewrite land_mask, u32_mod. unfold next_slot.
  destruct (Z.eqb_spec (a + 1) n) as [->|]; [apply Z.mod_same|apply Z.mod_small]; lia.
Qed.

Lemma dist_mask a b : Z.land (b -u32 a) (n - 1) = dist n a b.
Proof. rewrite land_mask, u32_mod. done. Qed.

End pow2.

(** ** The map a table stands for *)

Section representation.
Context {E : Type} `{KvIndexed E}.
Implicit Types (es : list E) (m : gmap KvKey E).

Definition vacant (e : E) : bool := key_is_empty (entry_key e).

Definition held (e : E) : bool := negb (vacant e).

(** The home slot of an entry in a table of [n] slots. *)
Definition home (n : Z) (key : KvKey) : Z := kv_index_home key (n - 1).

Definition occupied_slot es (i : Z) : Prop := exists e, es !! Z.to_nat i = Some e /\ held e = true.

(** Every slot a probe for [key] visits before [i] is occupied. *)
Definition reaches es (key : KvKey) (i : Z) : Prop :=
  let n := Z.of_nat (length es) in
  forall j, 0 <= j < n -> dist n (home n key) j < dist n (home n key) i -> occupied_slot es j.

Record represents es m : Prop := {
  rep_size : exists k, 0 <= k <= 31 /\ Z.of_nat (length es) = 2 ^ k;
  rep_lookup key e :
    m !! key = Some e <-> key <> empty_key /\ exists i, es !! i = Some e /\ entry_key e = key;
  rep_unique i j e f :
    es !! i = Some e -> es !! j = Some f -> held e = true -> entry_key e = entry_key f -> i = j;
  rep_chain i e : es !! i = Some e -> held e = true -> reaches es (entry_key e) (Z.of_nat i);
  rep_count : countb held es = Z.of_nat (size m);
}.

Lemma key_is_empty_spec key : key_is_empty key = true <-> key = empty_key.
Proof.
  unfold key_is_empty, empty_key. destruct key as [l h]; simpl. rewrite andb_true_iff, !Z.eqb_eq.
  split; [by intros [-> ->]|by intros [= -> ->]].
Qed.

Lemma held_spec e : held e = true <-> entry_key e <> empty_key.
Proof. unfold held, vacant. rewrite negb_true_iff, <-not_true_iff_false, key_is_empty_spec. done. Qed.

Lemma held_default : held entry_default = false.
Proof. apply not_true_iff_false. rewrite held_spec, entry_default_key. tauto. Qed.

Lemma vacant_spec e : vacant e = true <-> held e = false.
Proof. unfold held. by rewrite negb_false_iff. Qed.

(** A table freshly filled with the default entry is the empty map. *)
Lemma represents_empty k : 0 <= k <= 31 -> represents (replicate (Z.to_nat (2 ^ k)) entry_default) ∅.
Proof.
  intros Hk. assert (forall i e, replicate (Z.to_nat (2 ^ k)) entry_default !! i = Some e -> e = entry_default) as Hd.
  { intros i e Hi. by apply lookup_replicate in Hi as [-> _]. }
  pose proof held_default as Hh. split.
  - exists k. split; [done|]. rewrite length_replicate. pose proof (Z.pow_nonneg 2 k). lia.
  - intros key e. rewrite lookup_empty. split; [done|]. intros (Hne&i&Hi&He). apply Hd in Hi as ->.
    by rewrite entry_default_key in He.
  - intros i j e f Hi _ He. apply Hd in Hi as ->. congruence.
  - intros i e Hi He. apply Hd in Hi as ->. congruence.
  - rewrite countb_0; [done|]. intros i e Hi. by apply Hd in Hi as ->.
Qed.

Section table.
Context {es m} (Hrep : represents es m).
Let n := Z.of_nat (length es).

Lemma rep_bounds : 0 < n <= 2147483648.
Proof. destruct (rep_size _ _ Hrep) as (k&Hk&Hn). by apply (pow2_bounds k). Qed.

Lemma rep_mask : u32 n -u32 1 = n - 1.
Proof. destruct (rep_size _ _ Hrep) as (k&Hk&Hn). by apply (pow2_mask k). Qed.

Lemma rep_home key : 0 <= home n key < n.
Proof. destruct (rep_size _ _ Hrep) as (k&Hk&Hn). by apply (home_range k). Qed.

Lemma rep_next a : 0 <= a < n -> Z.land (a +u32 1) (n - 1) = next_slot n a.
Proof. destruct (rep_size _ _ Hrep) as (k&Hk&Hn). by apply (next_mask k). Qed.

Lemma rep_dist a b : Z.land (b -u32 a) (n - 1) = dist n a b.
Proof. destruct (rep_size _ _ Hrep) as (k&Hk&Hn). by apply (dist_mask k). Qed.

Lemma rep_slot i : 0 <= i < n -> exists e, es !! Z.to_nat i = Some e.
Proof. apply lookup_Some_range. Qed.

Lemma rep_found key e i : es !! i = Some e -> entry_key e = key -> key <> empty_key -> m !! key = Some e.
Proof. intros Hi He Hne. apply (rep_lookup _ _ Hrep). eauto. Qed.

(** The slots a probe has visited hold other keys. *)
Definition skipped (key : KvKey) (d : Z) : Prop :=
  forall j, 0 <= j < n -> dist n (home n key) j < d ->
    exists e, es !! Z.to_nat j = Some e /\ held e = true /\ entry_key e <> key.

(** A probe that stops at a vacant slot, or goes all the way round, missed nothing. *)
Lemma skipped_absent key d :
  skipped key d ->
  d = n \/ (exists j e, 0 <= j < n /\ dist n (home n key) j = d /\ es !! Z.to_nat j = Some e /\ held e = false) ->
  m !! key = None.
Proof.
  intros Hskip Hstop. destruct (m !! key) as [e|] eqn:Hm; [|done]. exfalso. pose proof rep_bounds as Hb.
  apply (rep_lookup _ _ Hrep) in Hm as (Hne&i&Hi&<-). pose proof (lookup_lt_Some _ _ _ Hi) as Hlt.
  destruct (decide (dist n (home n (entry_key e)) (Z.of_nat i) < d)) as [Hd|Hd].
  { destruct (Hskip (Z.of_nat i) ltac:(lia) Hd) as (f&Hf&_&Hkey). rewrite Nat2Z.id in Hf. congruence. }
  destruct Hstop as [->|(j&f&Hj&<-&Hf&Hv)].
  { pose proof (dist_range n (home n (entry_key e)) (Z.of_nat i)). lia. }
  destruct (decide (j = Z.of_nat i)) as [->|Hji].
  { rewrite Nat2Z.id in Hf. assert (held e = true) by by apply held_spec. congruence. }
  destruct (rep_chain _ _ Hrep i e Hi) with (j := j) as (g&Hg&Hgh); [by apply held_spec|done| |congruence].
  pose proof (rep_home (entry_key e)). fold n. cyc n (home n (entry_key e)) j; cyc n (home n (entry_key e)) (Z.of_nat i); lia.
Qed.

(** What a probe answers: the slot that holds the key, the vacant slot its chain
    ends at, or that the table is full without it. *)
Inductive probe_result (key : KvKey) : Z * bool -> Prop :=
| Probe_found slot e : 0 <= slot < n -> es !! Z.to_nat slot = Some e -> entry_key e = key ->
    m !! key = Some e -> probe_result key (slot, true)
| Probe_vacant slot e : 0 <= slot < n -> es !! Z.to_nat slot = Some e -> held e = false ->
    m !! key = None -> reaches es key slot -> probe_result key (slot, false)
| Probe_saturated : m !! key = None -> (forall j, 0 <= j < n -> occupied_slot es j) ->
    probe_result key (U32_MAX, false).

Lemma skipped_reaches key i : skipped key (dist n (home n key) i) -> reaches es key i.
Proof. intros Hs j Hj Hd. destruct (Hs j Hj Hd) as (e&?&?&_). exists e. done. Qed.

Definition step_result (key : KvKey) (d : Z) (r : flow Z (Z * bool)) : Prop :=
  match r with
  | Break res => probe_result key res
  | Continue slot => 0 <= slot < n /\ skipped key (d + 1) /\ (d + 1 < n -> dist n (home n key) slot = d + 1)
  end.

Lemma probe_step_spec {S F} key d slot x (R : F -> S -> Prop) (s : S) :
  key <> empty_key -> 0 <= slot < n -> dist n (home n key) slot = d -> skipped key d ->
  wp (probe_step es key (n - 1) x slot)
    (fun r s' => s' = s /\ step_result key d r) R s.
Proof.
  intros Hne Hslot Hd Hskip. destruct (rep_slot slot Hslot) as [e He]. unfold probe_step.
  apply wp_bind. eapply wp_index; [done|]. destruct (key_is_empty (entry_key e)) eqn:Hv.
  { apply wp_ret. split; [done|]. apply vacant_spec in Hv. eapply Probe_vacant; try done.
    - apply (skipped_absent key d Hskip). right. by exists slot, e.
    - apply skipped_reaches. by rewrite Hd. }
  assert (held e = true) as Hh by (unfold held, vacant; by rewrite Hv).
  destruct (bool_decide_reflect (entry_key e = key)) as [Hk|Hk].
  { apply wp_ret. split; [done|]. eapply Probe_found; try done. by eapply rep_found. }
  apply wp_ret. split; [done|]. rewrite rep_next by done. pose proof (rep_home key) as Hhome.
  split; [by apply next_slot_range|]. split.
  - intros j Hj Hdj. destruct (decide (j = slot)) as [->|Hjs]; [by exists e|].
    apply Hskip; [done|]. cyc n (home n key) j; cyc n (home n key) slot; lia.
  - intros Hlt. rewrite dist_next; [lia|done|done|]. intros Heq.
    unfold next_slot in Heq. destruct (Z.eqb_spec (slot + 1) n); cyc n (home n key) slot; lia.
Qed.

Lemma kv_index_probe_spec {S F} key (R : F -> S -> Prop) (s : S) :
  key <> empty_key -> wp (kv_index_probe es key) (fun r s' => s' = s /\ probe_result key r) R s.
Proof.
  intros Hne. pose proof rep_bounds as Hb. pose proof (rep_home key) as Hh. unfold kv_index_probe. fold n.
  rewrite rep_mask. fold (home n key). apply wp_bind.
  apply (wp_for_flow (fun pre slot s' => s' = s /\ 0 <= slot < n /\ skipped key (Z.of_nat (length pre)) /\ (Z.of_nat (length pre) < n -> dist n (home n key) slot = Z.of_nat (length pre)))).
  - split; [done|]. split; [done|]. split.
    + intros j Hj Hd. pose proof (dist_range n (home n key) j). simpl in Hd. lia.
    + intros _. unfold dist. rewrite Z.sub_diag. apply Z.mod_0_l. lia.
  - intros pre x post slot s' Hpre (->&Hslot&Hskip&Hd). apply range_split in Hpre as [-> Hx].
    rewrite length_range in *. replace (Z.of_nat (Z.to_nat (x - 0))) with x in * by lia.
    eapply wp_mono; [apply (probe_step_spec key x slot); [done|done|apply Hd; lia|done]| |done].
    intros [slot'|res] s'' (->&Hr); [|by apply wp_ret].
    rewrite length_app, length_range. simpl. replace (Z.of_nat (Z.to_nat (x - 0) + 1)) with (x + 1) by lia. done.
  - intros slot s' (->&Hslot&Hskip&_). apply wp_ret. split; [done|].
    rewrite length_range in Hskip. replace (Z.of_nat (Z.to_nat (n - 1 + 1 - 0))) with n in Hskip by lia.
    apply Probe_saturated; [apply (skipped_absent key n Hskip); by left|].
    intros j Hj. destruct (Hskip j Hj) as (e&?&?&_); [apply dist_range; lia|]. by exists e.
Qed.

(** [kv_index_find] decides membership and locates the entry. *)
Lemma kv_index_find_spec {S F} key (R : F -> S -> Prop) (s : S) :
  key <> empty_key ->
  wp (kv_index_find es key) (fun o s' => s' = s /\ match o with
     | Some slot => exists e, 0 <= slot < n /\ es !! Z.to_nat slot = Some e /\ entry_key e = key /\ m !! key = Some e
     | None => m !! key = None end) R s.
Proof.
  intros Hne. unfold kv_index_find. apply wp_bind.
  eapply wp_mono; [by apply kv_index_probe_spec| |done].
  intros r s' (->&Hr). apply wp_ret. split; [done|]. destruct Hr; simpl; eauto 10.
Qed.

(** ** Writing entries *)

(** Overwriting an entry in place under its own key. *)
Lemma represents_update slot e e' :
  es !! slot = Some e -> held e = true -> entry_key e' = entry_key e ->
  represents (<[slot:=e']> es) (<[entry_key e:=e']> m).
Proof.
  intros Hs Hh Hk. pose proof (lookup_lt_Some _ _ _ Hs) as Hlt.
  assert (held e' = true) as Hh' by (rewrite held_spec, Hk; by apply held_spec).
  assert (forall i x, <[slot:=e']> es !! i = Some x ->
    exists y, es !! i = Some y /\ entry_key y = entry_key x /\ held y = held x /\ (i = slot -> x = e')) as Hold.
  { intros i x Hi. destruct (decide (i = slot)) as [->|Hne].
    - rewrite list_lookup_insert_eq in Hi by done. simplify_eq. exists e. by rewrite Hh, Hh'.
    - rewrite list_lookup_insert_ne in Hi by done. by exists x. }
  assert (forall j, occupied_slot es j -> occupied_slot (<[slot:=e']> es) j) as Hocc.
  { intros j (x&Hx&Hhx). destruct (decide (Z.to_nat j = slot)) as [<-|Hne].
    - exists e'. by rewrite list_lookup_insert_eq.
    - exists x. by rewrite list_lookup_insert_ne. }
  split.
  - rewrite length_insert. apply Hrep.
  - intros key x. destruct (decide (key = entry_key e)) as [->|Hne].
    + rewrite lookup_insert_eq. split.
      * intros [= <-]. split; [by apply held_spec|]. exists slot. by rewrite list_lookup_insert_eq.
      * intros (_&i&Hi&Hkx). destruct (Hold i x Hi) as (y&Hy&Hyk&Hyh&Hxs). f_equal. symmetry. apply Hxs.
        eapply (rep_unique _ _ Hrep i slot y e); [done|done| |congruence]. apply held_spec. rewrite Hyk, Hkx. by apply held_spec.
    + rewrite lookup_insert_ne by done. rewrite (rep_lookup _ _ Hrep). split; intros (Hne'&i&Hi&Hkx); (split; [done|]).
      * exists i. rewrite list_lookup_insert_ne; [done|]. intros <-. congruence.
      * exists i. destruct (decide (i = slot)) as [->|]; [rewrite list_lookup_insert_eq in Hi by done; congruence|].
        by rewrite list_lookup_insert_ne in Hi.
  - intros i j x y Hi Hj Hhx Hkey. destruct (Hold i x Hi) as (x0&Hx0&Hxk&Hxh&_), (Hold j y Hj) as (y0&Hy0&Hyk&Hyh&_).
    apply (rep_unique _ _ Hrep i j x0 y0); congruence.
  - intros i x Hi Hhx j. rewrite length_insert. intros Hj Hd. destruct (Hold i x Hi) as (x0&Hx0&Hxk&Hxh&_).
    apply Hocc. apply (rep_chain _ _ Hrep i x0 Hx0); [congruence|done|]. by rewrite Hxk.
  - rewrite (countb_insert _ _ _ e) by done. rewrite Hh, Hh', (rep_count _ _ Hrep).
    rewrite map_size_insert_Some; [lia|]. exists e. eapply rep_found; [done|done|by apply held_spec].
Qed.

(** Writing a new entry to the vacant slot its probe stopped at. *)
Lemma represents_insert slot e e' :
  es !! slot = Some e -> held e = false -> entry_key e' <> empty_key -> m !! entry_key e' = None ->
  reaches es (entry_key e') (Z.of_nat slot) -> represents (<[slot:=e']> es) (<[entry_key e':=e']> m).
Proof.
  intros Hs Hh Hk Hnone Hreach. pose proof (lookup_lt_Some _ _ _ Hs) as Hlt.
  assert (held e' = true) as Hh' by by apply held_spec.
  assert (forall i x, <[slot:=e']> es !! i = Some x -> i = slot /\ x = e' \/ i <> slot /\ es !! i = Some x) as Hold.
  { intros i x Hi. destruct (decide (i = slot)) as [->|Hne].
    - rewrite list_lookup_insert_eq in Hi by done. simplify_eq. by left.
    - rewrite list_lookup_insert_ne in Hi by done. by right. }
  assert (forall i x, es !! i = Some x -> entry_key x <> entry_key e') as Hfresh.
  { intros i x Hi Heq. assert (m !! entry_key e' = Some x) by (by eapply rep_found). congruence. }
  assert (forall j, occupied_slot es j -> occupied_slot (<[slot:=e']> es) j) as Hocc.
  { intros j (x&Hx&Hhx). exists x. rewrite list_lookup_insert_ne; [done|]. intros ->. congruence. }
  split.
  - rewrite length_insert. apply Hrep.
  - intros key x. destruct (decide (key = entry_key e')) as [->|Hne].
    + rewrite lookup_insert_eq. split.
      * intros [= <-]. split; [done|]. exists slot. by rewrite list_lookup_insert_eq.
      * intros (_&i&Hi&Hkx). destruct (Hold i x Hi) as [[-> ->]|[_ Hi']]; [done|]. by destruct (Hfresh i x Hi').
    + rewrite lookup_insert_ne by done. rewrite (rep_lookup _ _ Hrep). split; intros (Hne'&i&Hi&Hkx); (split; [done|]).
      * exists i. rewrite list_lookup_insert_ne; [done|]. intros <-. apply not_true_iff_false in Hh. apply Hh, held_spec. congruence.
      * destruct (Hold i x Hi) as [[-> ->]|[_ Hi']]; [congruence|]. eauto.
  - intros i j x y Hi Hj Hhx Hkey. destruct (Hold i x Hi) as [[-> ->]|[Hi' Hi'']], (Hold j y Hj) as [[-> ->]|[Hj' Hj'']].
    + done.
    + by destruct (Hfresh j y Hj'').
    + by destruct (Hfresh i x Hi'').
    + by apply (rep_unique _ _ Hrep i j x y).
  - intros i x Hi Hhx j. rewrite length_insert. intros Hj Hd. apply Hocc.
    destruct (Hold i x Hi) as [[-> ->]|[_ Hi']]; [by apply Hreach|]. by apply (rep_chain _ _ Hrep i x Hi').
  - rewrite (countb_insert _ _ _ e) by done. rewrite Hh, Hh', (rep_count _ _ Hrep), map_size_insert_None by done. simpl. lia.
Qed.

End table.
End representation.

(** ** Erasing *)

Section erase.
Context {E : Type} `{KvIndexed E}.
Implicit Types (es : list E) (m : gmap KvKey E).

(** How far a scan at [c] is from the hole [h]; a full revolution is [n]. *)
Definition scanned (n h c : Z) : Z := if c =? h then n else dist n h c.

(** The table while the hole moves: chains are contiguous but for the hole, and
    only entries the scan has yet to visit have the hole on their chain. *)
Record shifting es m (h c : Z) : Prop := {
  sh_size : exists k, 0 <= k <= 31 /\ Z.of_nat (length es) = 2 ^ k;
  sh_hole : 0 <= h < Z.of_nat (length es) /\ es !! Z.to_nat h = Some entry_default;
  sh_scan : 0 <= c < Z.of_nat (length es);
  sh_lookup key e :
    m !! key = Some e <-> key <> empty_key /\ exists i, es !! i = Some e /\ entry_key e = key;
  sh_unique i j e f :
    es !! i = Some e -> es !! j = Some f -> held e = true -> entry_key e = entry_key f -> i = j;
  sh_chain i e j : let n := Z.of_nat (length es) in
    es !! i = Some e -> held e = true -> 0 <= j < n ->
    dist n (home n (entry_key e)) j < dist n (home n (entry_key e)) (Z.of_nat i) ->
    occupied_slot es j \/ (j = h /\ scanned n h c <= dist n h (Z.of_nat i));
  sh_count : countb held es = Z.of_nat (size m);
}.

Lemma occupied_not_default es i : occupied_slot es i -> es !! Z.to_nat i <> Some entry_default.
Proof. intros (e&He&Hh) Hd. pose proof held_default. congruence. Qed.

(** A scan that stops at a vacant slot, or comes back to the hole, leaves every chain contiguous. *)
Lemma shifting_done es m h c :
  shifting es m h c -> c = h \/ (c <> h /\ exists e, es !! Z.to_nat c = Some e /\ held e = false) -> represents es m.
Proof.
  intros Hs Hstop. pose proof (sh_scan _ _ _ _ Hs) as Hc. destruct (sh_hole _ _ _ _ Hs) as [Hh Hdef].
  split; try apply Hs. intros i e Hi He j Hj Hd. set (n := Z.of_nat (length es)) in *.
  pose proof (lookup_lt_Some _ _ _ Hi) as Hlt.
  destruct (sh_size _ _ _ _ Hs) as (k&Hk&Hn). pose proof (home_range k n Hk Hn (entry_key e)) as Hho. fold (home n (entry_key e)) in Hho.
  destruct (sh_chain _ _ _ _ Hs i e j Hi He Hj Hd) as [?|[-> Hsc]]; [done|exfalso].
  unfold scanned in Hsc. fold n in Hsc. destruct Hstop as [->|(Hch&f&Hf&Hv)].
  { rewrite Z.eqb_refl in Hsc. pose proof (dist_range n h (Z.of_nat i)). lia. }
  destruct (Z.eqb_spec c h); [done|].
  destruct (decide (c = Z.of_nat i)) as [->|Hci]; [rewrite Nat2Z.id in Hf; congruence|].
  destruct (sh_chain _ _ _ _ Hs i e c Hi He Hc) as [(g&Hg&Hgh)|[? _]]; [|congruence|done].
  fold n. cyc n (home n (entry_key e)) h; cyc n (home n (entry_key e)) (Z.of_nat i);
    cyc n (home n (entry_key e)) c; cyc n h c; cyc n h (Z.of_nat i); lia.
Qed.

(** The scan passes an entry whose home lies after the hole. *)
Lemma shifting_pass es m h c e :
  let n := Z.of_nat (length es) in
  shifting es m h c -> c <> h -> es !! Z.to_nat c = Some e -> held e = true ->
  dist n (home n (entry_key e)) c <= dist n (home n (entry_key e)) h -> shifting es m h (next_slot n c).
Proof.
  intros n Hs Hch Hc He Hle. pose proof (sh_scan _ _ _ _ Hs) as Hcr. destruct (sh_hole _ _ _ _ Hs) as [Hh Hdef].
  split; try apply Hs; [by apply next_slot_range|]. fold n. fold n in Hcr, Hh. intros i f j n0 Hi Hf Hj Hd. subst n0.
  pose proof (lookup_lt_Some _ _ _ Hi) as Hlt.
  destruct (sh_chain _ _ _ _ Hs i f j Hi Hf Hj Hd) as [?|[-> Hsc]]; [by left|right; split; [done|]].
  fold n in Hsc. unfold scanned in *. destruct (Z.eqb_spec c h); [done|].
  destruct (decide (Z.of_nat i = c)) as [<-|Hic].
  { rewrite Nat2Z.id in Hc. simplify_eq. lia. }
  destruct (Z.eqb_spec (next_slot n c) h) as [Hnx|Hnx].
  - exfalso. unfold next_slot in Hnx. destruct (Z.eqb_spec (c + 1) n); cyc n h c; cyc n h (Z.of_nat i); lia.
  - rewrite dist_next by done. cyc n h c; cyc n h (Z.of_nat i); lia.
Qed.

(** Moving the entry at [c] into the hole. *)
Definition moved es (h c : Z) (e : E) : list E := <[Z.to_nat c := entry_default]> (<[Z.to_nat h := e]> es).

Section move.
Context {es m} {h c : Z} {e : E} (Hs : shifting es m h c) (Hch : c <> h).
Context (Hc : es !! Z.to_nat c = Some e) (He : held e = true).
Let n := Z.of_nat (length es).

Lemma moved_length : length (moved es h c e) = length es.
Proof. unfold moved. by rewrite !length_insert. Qed.

(** Where an entry of the moved table was. *)
Lemma moved_lookup i x :
  moved es h c e !! i = Some x -> held x = true ->
  (Z.of_nat i = h /\ x = e) \/ (Z.of_nat i <> h /\ Z.of_nat i <> c /\ es !! i = Some x).
Proof.
  unfold moved. intros Hi Hx. pose proof (sh_scan _ _ _ _ Hs). destruct (sh_hole _ _ _ _ Hs) as [??].
  destruct (decide (Z.of_nat i = c)) as [Heq|Hic].
  { replace i with (Z.to_nat c) in Hi by lia. rewrite list_lookup_insert_eq in Hi by (rewrite length_insert; lia).
    simplify_eq. by rewrite held_default in Hx. }
  rewrite list_lookup_insert_ne in Hi by lia. destruct (decide (Z.of_nat i = h)) as [Heq|Hih].
  - replace i with (Z.to_nat h) in Hi by lia. rewrite list_lookup_insert_eq in Hi by lia. simplify_eq. by left.
  - rewrite list_lookup_insert_ne in Hi by lia. by right.
Qed.

Lemma moved_at_hole : moved es h c e !! Z.to_nat h = Some e.
Proof.
  pose proof (sh_scan _ _ _ _ Hs). destruct (sh_hole _ _ _ _ Hs) as [??]. unfold moved.
  rewrite list_lookup_insert_ne by lia. rewrite list_lookup_insert_eq by lia. done.
Qed.

Lemma moved_other i : Z.of_nat i <> h -> Z.of_nat i <> c -> moved es h c e !! i = es !! i.
Proof.
  pose proof (sh_scan _ _ _ _ Hs). destruct (sh_hole _ _ _ _ Hs) as [??]. intros. unfold moved.
  rewrite !list_lookup_insert_ne by lia. done.
Qed.

Lemma moved_occupied j : j <> c -> 0 <= j -> occupied_slot es j -> occupied_slot (moved es h c e) j.
Proof.
  intros Hjc Hj (x&Hx&Hhx). destruct (decide (j = h)) as [->|Hjh]; [exists e; by rewrite moved_at_hole|].
  exists x. rewrite moved_other by lia. done.
Qed.

Lemma moved_stores key x :
  (exists i, moved es h c e !! i = Some x /\ entry_key x = key) /\ key <> empty_key <->
  (exists i, es !! i = Some x /\ entry_key x = key) /\ key <> empty_key.
Proof.
  split; intros [(i&Hi&<-) Hne]; (split; [|done]); apply held_spec in Hne as Hx.
  - destruct (moved_lookup i x Hi Hx) as [[_ ->]|(_&_&Hi')]; eauto.
  - destruct (decide (Z.of_nat i = c)) as [Heq|Hic].
    + exists (Z.to_nat h). rewrite moved_at_hole. subst c. rewrite Nat2Z.id in Hc. by simplify_eq.
    + exists i. rewrite moved_other; [done| |done]. intros Heq. destruct (sh_hole _ _ _ _ Hs) as [_ Hd].
      subst h. rewrite Nat2Z.id in Hd. simplify_eq. by rewrite held_default in Hx.
Qed.

Lemma moved_unique i j x y :
  moved es h c e !! i = Some x -> moved es h c e !! j = Some y -> held x = true -> entry_key x = entry_key y -> i = j.
Proof.
  intros Hi Hj Hx Hxy. assert (held y = true) as Hy by (rewrite held_spec in *; congruence).
  pose proof (sh_scan _ _ _ _ Hs) as Hcr.
  destruct (moved_lookup i x Hi Hx) as [[Hih ->]|(Hih&Hic&Hi')], (moved_lookup j y Hj Hy) as [[Hjh ->]|(Hjh&Hjc&Hj')].
  - lia.
  - pose proof (sh_unique _ _ _ _ Hs _ _ _ _ Hc Hj' Hx Hxy). lia.
  - pose proof (sh_unique _ _ _ _ Hs _ _ _ _ Hi' Hc Hx Hxy). lia.
  - by apply (sh_unique _ _ _ _ Hs i j x y).
Qed.

Lemma shifting_move :
  dist n (home n (entry_key e)) h < dist n (home n (entry_key e)) c ->
  shifting (moved es h c e) m c (next_slot n c).
Proof.
  intros Hlt. pose proof (sh_scan _ _ _ _ Hs) as Hcr. destruct (sh_hole _ _ _ _ Hs) as [Hh Hdef].
  destruct (sh_size _ _ _ _ Hs) as (k&Hk&Hn). split; rewrite ?moved_length.
  - by exists k.
  - split; [done|]. unfold moved. apply list_lookup_insert_eq. rewrite length_insert. lia.
  - by apply next_slot_range.
  - intros key x. rewrite (sh_lookup _ _ _ _ Hs). pose proof (moved_stores key x). tauto.
  - apply moved_unique.
  - fold n. intros i x j n0 Hi Hx Hj Hd. subst n0. pose proof (lookup_lt_Some _ _ _ Hi) as Hil. rewrite moved_length in Hil.
    destruct (decide (j = c)) as [->|Hjc].
    + right. split; [done|]. assert (Z.of_nat i <> c) as Hic.
      { destruct (moved_lookup i x Hi Hx) as [[? _]|(_&?&_)]; congruence. }
      fold n in Hcr. unfold scanned, next_slot. destruct (Z.eqb_spec (c + 1) n).
      * destruct (Z.eqb_spec 0 c); [lia|]. cyc n c 0; cyc n c (Z.of_nat i); lia.
      * destruct (Z.eqb_spec (c + 1) c); [lia|]. cyc n c (c + 1); cyc n c (Z.of_nat i); lia.
    + left. destruct (decide (j = h)) as [->|Hjh]; [exists e; by rewrite moved_at_hole|].
      destruct (moved_lookup i x Hi Hx) as [[Hih ->]|(Hih&Hic&Hi')].
      * destruct (sh_chain _ _ _ _ Hs (Z.to_nat c) e j Hc He Hj) as [?|[? _]]; [|by apply moved_occupied; [|lia|]|done].
        rewrite Z2Nat.id by lia. fold n. rewrite Hih in Hd. lia.
      * destruct (sh_chain _ _ _ _ Hs i x j Hi' Hx Hj Hd) as [?|[? _]]; [by apply moved_occupied; [|lia|]|done].
  - unfold moved. rewrite (countb_insert _ _ _ e) by (rewrite list_lookup_insert_ne by lia; done).
    rewrite (countb_insert _ _ _ entry_default) by done. rewrite He, held_default, (sh_count _ _ _ _ Hs). simpl. lia.
Qed.

End move.

(** Emptying a slot opens a hole. *)
Lemma shifting_start es m slot e :
  let n := Z.of_nat (length es) in
  represents es m -> 0 <= slot < n -> es !! Z.to_nat slot = Some e -> held e = true ->
  shifting (<[Z.to_nat slot:=entry_default]> es) (delete (entry_key e) m) slot (next_slot n slot).
Proof.
  intros n Hrep Hslot Hse He.
  assert (forall i x, <[Z.to_nat slot:=entry_default]> es !! i = Some x -> held x = true -> i <> Z.to_nat slot /\ es !! i = Some x) as Hold.
  { intros i x Hi Hx. destruct (decide (i = Z.to_nat slot)) as [->|Hne].
    - rewrite list_lookup_insert_eq in Hi by lia. simplify_eq. by rewrite held_default in Hx.
    - by rewrite list_lookup_insert_ne in Hi. }
  split; rewrite ?length_insert.
  - apply Hrep.
  - split; [done|]. apply list_lookup_insert_eq. lia.
  - by apply next_slot_range.
  - intros key x. destruct (decide (key = entry_key e)) as [->|Hne].
    + rewrite lookup_delete_eq. split; [done|]. intros (Hk&i&Hi&Hkx). destruct (Hold i x Hi) as [Hne Hi'].
      { apply held_spec. congruence. }
      destruct Hne. eapply (rep_unique _ _ Hrep _ _ x e); try done. apply held_spec. congruence.
    + rewrite lookup_delete_ne by done. rewrite (rep_lookup _ _ Hrep). split; intros (Hk&i&Hi&Hkx); (split; [done|]); exists i.
      * rewrite list_lookup_insert_ne; [done|]. intros <-. congruence.
      * destruct (Hold i x Hi) as [_ Hi']; [apply held_spec; congruence|done].
  - intros i j x y Hi Hj Hx Hxy. assert (held y = true) as Hy by (rewrite held_spec in *; congruence).
    apply (rep_unique _ _ Hrep i j x y); [by apply Hold|by apply Hold|done|done].
  - fold n. intros i x j n0 Hi Hx Hj Hd. subst n0. pose proof (lookup_lt_Some _ _ _ Hi) as Hil. rewrite length_insert in Hil.
    destruct (Hold i x Hi Hx) as [Hne Hi']. destruct (decide (j = slot)) as [->|Hjs].
    + right. split; [done|]. unfold scanned, next_slot. destruct (Z.eqb_spec (slot + 1) n).
      * destruct (Z.eqb_spec 0 slot); [lia|]. cyc n slot 0; cyc n slot (Z.of_nat i); lia.
      * destruct (Z.eqb_spec (slot + 1) slot); [lia|]. cyc n slot (slot + 1); cyc n slot (Z.of_nat i); lia.
    + left. destruct (rep_chain _ _ Hrep i x Hi' Hx j Hj Hd) as (y&Hy&Hyh). exists y.
      rewrite list_lookup_insert_ne by lia. done.
  - rewrite (countb_insert _ _ _ e) by done. rewrite He, held_default, (rep_count _ _ Hrep).
    assert (m !! entry_key e = Some e) as Hm by (eapply rep_found; [done|done|done|by apply held_spec]).
    rewrite map_size_delete_Some by eauto. assert (size m <> 0%nat) by (intros Hz; apply map_size_empty_iff in Hz; by subst m).
    simpl. lia.
Qed.

(** A table that is not full has a vacant slot. *)
Lemma represents_vacant es m :
  represents es m -> Z.of_nat (size m) < Z.of_nat (length es) ->
  exists v e, 0 <= v < Z.of_nat (length es) /\ es !! Z.to_nat v = Some e /\ held e = false.
Proof.
  intros Hrep Hlt. rewrite <-(rep_count _ _ Hrep) in Hlt. clear Hrep.
  induction es as [|x es IH]; [simpl in Hlt; lia|]. destruct (held x) eqn:Hx.
  - destruct IH as (v&e&Hv&He&Hh); [simpl in Hlt; rewrite Hx in Hlt; simpl in Hlt; lia|].
    exists (v + 1), e. split; [simpl; lia|]. replace (Z.to_nat (v + 1)) with (S (Z.to_nat v)) by lia. done.
  - exists 0, x. split; [simpl; lia|done].
Qed.

(** One step of the scan, towards the vacant slot [v]. *)
Lemma erase_step_spec {F} es m h c v n (R : F -> list E -> Prop) :
  n = Z.of_nat (length es) -> shifting es m h c ->
  (0 <= v < n /\ (exists e, es !! Z.to_nat v = Some e /\ held e = false) /\ v <> h /\ scanned n h c <= dist n h v) ->
  wp (erase_step (n - 1) (h, c))
    (fun r es' => length es' = length es /\ match r with
     | Break _ => represents es' m
     | Continue (h', c') => shifting es' m h' c' /\
         (exists e, es' !! Z.to_nat v = Some e /\ held e = false) /\ v <> h' /\ scanned n h' c' <= dist n h' v /\
         dist n h' v - scanned n h' c' = dist n h v - scanned n h c - 1
     end) R es.
Proof.
  intros -> Hs (Hv&(ev&Hev&Hvh)&Hne&Hsc). set (n := Z.of_nat (length es)) in *.
  pose proof (sh_scan _ _ _ _ Hs) as Hc. destruct (sh_hole _ _ _ _ Hs) as [Hh Hdef]. fold n in Hc, Hh.
  destruct (sh_size _ _ _ _ Hs) as (k&Hk&Hn). fold n in Hn. unfold erase_step. destruct (Z.eqb_spec c h) as [->|Hch].
  { apply wp_ret. split; [done|]. apply (shifting_done es m h h Hs). by left. }
  wp_steps. destruct (lookup_Some_range es c Hc) as [e Hce]. eapply wp_index; [done|].
  destruct (key_is_empty (entry_key e)) eqn:Hemp.
  { apply wp_ret. split; [done|]. apply vacant_spec in Hemp.
    apply (shifting_done es m h c Hs). right. eauto. }
  assert (held e = true) as He by (unfold held, vacant; by rewrite Hemp).
  assert (v <> c) as Hvc by (intros ->; congruence). cbv zeta.
  rewrite !(dist_mask k n Hk Hn), (next_mask k n Hk Hn) by done. fold (home n (entry_key e)).
  assert (next_slot n c <> h) as Hnh.
  { unfold scanned in Hsc. destruct (Z.eqb_spec c h); [done|]. intros Heq. unfold next_slot in Heq.
    destruct (Z.eqb_spec (c + 1) n); cyc n h c; cyc n h v; lia. }
  assert (next_slot n c <> c) as Hnc.
  { unfold next_slot. destruct (Z.eqb_spec (c + 1) n); lia. }
  assert (scanned n h c = dist n h c) as Hscan by (unfold scanned; by destruct (Z.eqb_spec c h)).
  rewrite Hscan in Hsc.
  destruct (Z.leb_spec (dist n (home n (entry_key e)) c) (dist n (home n (entry_key e)) h)) as [Hle|Hlt].
  - apply wp_ret. split; [done|]. split; [by apply (shifting_pass es m h c e)|].
    split; [by exists ev|]. split; [done|].
    assert (scanned n h (next_slot n c) = dist n h c + 1) as Hnext.
    { unfold scanned. destruct (Z.eqb_spec (next_slot n c) h); [done|]. by apply dist_next. }
    rewrite Hnext, Hscan. cyc n h c; cyc n h v; lia.
  - wp_steps. change (<[Z.to_nat c:=entry_default]> (<[Z.to_nat h:=e]> es)) with (moved es h c e).
    split; [apply moved_length|]. split; [by apply (shifting_move Hs Hch Hce He)|].
    split. { exists ev. rewrite (moved_other Hs) by lia. done. }
    split; [done|].
    assert (scanned n c (next_slot n c) = 1) as Hnext.
    { unfold scanned. destruct (Z.eqb_spec (next_slot n c) c); [done|]. by apply dist_next_self. }
    rewrite Hnext, Hscan. cyc n h c; cyc n h v; cyc n c v; lia.
Qed.

Lemma kv_index_erase_spec {F} es m slot e (R : F -> list E -> Prop) :
  represents es m -> 0 <= slot < Z.of_nat (length es) -> es !! Z.to_nat slot = Some e -> held e = true ->
  Z.of_nat (size m) < Z.of_nat (length es) ->
  wp (kv_index_erase slot) (fun _ es' => length es' = length es /\ represents es' (delete (entry_key e) m)) R es.
Proof.
  intros Hrep Hslot Hse He Hload. destruct (represents_vacant es m Hrep Hload) as (v&ev&Hv&Hev&Hvh).
  assert (v <> slot) as Hvs by (intros ->; congruence).
  pose proof (shifting_start es m slot e Hrep Hslot Hse He) as Hstart.
  unfold kv_index_erase. set (n := Z.of_nat (length es)) in *. wp_steps.
  change (length (id es)) with (length es). rewrite (rep_mask Hrep), (rep_next Hrep) by done. fold n.
  apply (wp_loop (fun '(h, c) es' => length es' = length es /\ shifting es' (delete (entry_key e) m) h c /\
      (exists f, es' !! Z.to_nat v = Some f /\ held f = false) /\ v <> h /\ scanned n h c <= dist n h v)
    (fun '(h, c) _ => Z.to_nat (dist n h v - scanned n h c))).
  - split; [apply length_insert|]. split; [done|]. split; [exists ev; rewrite list_lookup_insert_ne by lia; done|].
    split; [done|]. unfold scanned, next_slot. destruct (Z.eqb_spec (slot + 1) n).
    + destruct (Z.eqb_spec 0 slot); [cyc n slot v; lia|]. cyc n slot 0; cyc n slot v; lia.
    + destruct (Z.eqb_spec (slot + 1) slot); [lia|]. cyc n slot (slot + 1); cyc n slot v; lia.
  - pose proof (dist_range n slot v). assert (0 <= scanned n slot (next_slot n slot)); [|lia].
    unfold scanned. destruct (_ =? _); [lia|]. apply dist_range. lia.
  - intros [h c] es' (Hlen&Hs&Hvac&Hvh'&Hsc). eapply wp_mono.
    + apply (erase_step_spec es' (delete (entry_key e) m) h c v n); [lia|done|]. split; [lia|]. done.
    + intros [[h' c']|[]] es'' [Hl Hr]; [|split; [lia|done]].
      destruct Hr as (Hs'&Hvac'&Hvh''&Hsc'&Hdec). split; [split; [lia|done]|]. lia.
    + done.
Qed.

End erase.

(** ** The key domains *)

Lemma private_key_tag s i : Z.testbit (key_high (private_key s i)) 0 = true.
Proof. unfold private_key. cbn [key_high]. rewrite Z.lor_spec. by rewrite orb_true_r. Qed.

Lemma content_key_tag low high :
  Z.testbit (key_high (content_key low high)) 0 = false /\ Z.testbit (key_high (content_key low high)) 1 = true.
Proof.
  unfold content_key. cbn [key_high]. rewrite !Z.land_spec, !Z.lor_spec. split; [apply andb_false_r|].
  rewrite orb_true_r. reflexivity.
Qed.

Lemma private_key_nonempty s i : private_key s i <> empty_key.
Proof. intros H. pose proof (private_key_tag s i) as Ht. by rewrite H in Ht. Qed.

Lemma content_key_nonempty low high : content_key low high <> empty_key.
Proof. intros H. destruct (content_key_tag low high) as [_ Ht]. by rewrite H in Ht. Qed.

(** Only [vm_compute] evaluates a key. *)
Opaque private_key content_key.

(** The two key domains never alias and neither contains the vacant key, whatever
    the sequence, the block index and the content digest. *)
Theorem kv_key_domains_disjoint s i low high :
  private_key s i <> content_key low high /\
  key_is_empty (private_key s i) = false /\ key_is_empty (content_key low high) = false.
Proof.
  split.
  - intros H. pose proof (private_key_tag s i) as Hp. destruct (content_key_tag low high) as [Hc _]. congruence.
  - rewrite <-!not_true_iff_false, !key_is_empty_spec. split; [apply private_key_nonempty|apply content_key_nonempty].
Qed.

(** Private keys mix the sequence and the block index into one 64-bit word first, so
    distinct slots can share a key: the 128 bits are a function of 64. *)
Transparent private_key.

Lemma private_key_collides s i j :
  private_key (Z.lxor s (Z.lxor (i *u64 0x9e3779b97f4a7c15) (j *u64 0x9e3779b97f4a7c15))) j = private_key s i.
Proof.
  unfold private_key.
  replace (Z.lxor (Z.lxor s (Z.lxor (i *u64 0x9e3779b97f4a7c15) (j *u64 0x9e3779b97f4a7c15))) (j *u64 0x9e3779b97f4a7c15))
    with (Z.lxor s (i *u64 0x9e3779b97f4a7c15)); [done|].
  by rewrite !Z.lxor_assoc, Z.lxor_nilpotent, Z.lxor_0_r.
Qed.

Opaque private_key.

(** ** Refinement *)

(** C22. The open-addressed index implements a finite map.  In a table that stores the
    map [m] with at least one slot to spare, for every key: [kv_index_find] returns the
    slot of the entry [m] holds under the key, or [None] when it holds none; writing a
    new entry to the slot a missed [kv_index_probe] returns stores it; overwriting a
    found entry under its key updates it; and [kv_index_erase] of a found slot returns
    and removes exactly that key, with every remaining probe chain contiguous. *)
Theorem kv_index_refines {E} `{KvIndexed E} (es : list E) (m : gmap KvKey E) key :
  represents es m -> key <> empty_key -> Z.of_nat (size m) < Z.of_nat (length es) ->
  (exists o, kv_index_find (F := unit) es key tt = Ret o tt /\ (o ≫= fun slot => es !! Z.to_nat slot) = m !! key) /\
  (m !! key = None -> exists slot, kv_index_probe (F := unit) es key tt = Ret (slot, false) tt /\
     forall e, entry_key e = key -> represents (<[Z.to_nat slot := e]> es) (<[key := e]> m)) /\
  (forall slot, kv_index_find (F := unit) es key tt = Ret (Some slot) tt ->
     (forall e, entry_key e = key -> represents (<[Z.to_nat slot := e]> es) (<[key := e]> m)) /\
     exists es', kv_index_erase (F := unit) slot es = Ret tt es' /\ length es' = length es /\ represents es' (delete key m)).
Proof.
  intros Hrep Hne Hload. destruct (wp_elim _ _ _ _ (kv_index_find_spec Hrep (F := unit) key (fun _ _ => False) tt Hne))
    as [(o&[]&Hfind&_&Ho)|(?&?&_&[])]. split; [|split].
  - exists o. split; [done|]. destruct o as [slot|]; [|done]. destruct Ho as (e&_&Hs&_&Hm). by rewrite Hm.
  - intros Hnone. destruct (wp_elim _ _ _ _ (kv_index_probe_spec Hrep (F := unit) key (fun _ _ => False) tt Hne))
      as [(r&[]&Hp&_&Hr)|(?&?&_&[])]. destruct Hr as [slot e _ _ _ Hm|slot e Hslot Hs Hh _ Hreach|_ Hfull]; [congruence| |].
    + exists slot. split; [done|]. intros e' <-. apply (represents_insert Hrep _ e); try done. by rewrite Z2Nat.id by lia.
    + destruct (represents_vacant es m Hrep Hload) as (v&e&Hv&Hev&Hh). destruct (Hfull v Hv) as (f&Hf&Hfh). congruence.
  - intros slot Hslot. rewrite Hfind in Hslot. injection Hslot as ->. destruct Ho as (e&Hr&Hs&<-&Hm). apply held_spec in Hne.
    split; [intros e' He'; by apply (represents_update Hrep _ e)|].
    destruct (wp_elim _ _ _ _ (kv_index_erase_spec (F := unit) es m slot e (fun _ _ => False) Hrep Hr Hs Hne Hload))
      as [([]&es'&He&Hl&Hd)|(?&?&_&[])]. by exists es'.
Qed.

(** A table of four slots in which keys 1, 5 and 2 collide. *)
#[local] Instance KvKey_indexed : KvIndexed KvKey := {| entry_key := id; entry_default := empty_key; entry_default_key := eq_refl |}.

Definition sample_index : list KvKey := [empty_key; mkKvKey 1 1; mkKvKey 5 1; empty_key].

Lemma sample_index_ok : represents sample_index (<[mkKvKey 5 1 := mkKvKey 5 1]> (<[mkKvKey 1 1 := mkKvKey 1 1]> ∅)).
Proof.
  assert (sample_index = <[2%nat := mkKvKey 5 1]> (<[1%nat := mkKvKey 1 1]> (replicate (Z.to_nat (2 ^ 2)) empty_key))) as -> by reflexivity.
  pose proof (represents_empty (E := KvKey) 2 ltac:(lia)) as H0.
  pose proof (represents_insert H0 1 empty_key (mkKvKey 1 1)) as H1. specialize (H1 eq_refl eq_refl ltac:(discriminate) eq_refl).
  assert (represents (<[1%nat := mkKvKey 1 1]> (replicate (Z.to_nat (2 ^ 2)) empty_key)) (<[mkKvKey 1 1 := mkKvKey 1 1]> ∅)) as H2.
  { apply H1. intros j Hj Hd. exfalso. change (dist 4 1 j < 0) in Hd. pose proof (dist_range 4 1 j). lia. }
  apply (represents_insert H2 2 empty_key (mkKvKey 5 1)); [done|done|discriminate|done|].
  intros j Hj Hd. change (0 <= j < 4) in Hj. change (dist 4 1 j < 1) in Hd.
  assert (j = 1) as -> by (cyc 4 1 j; lia). by exists (mkKvKey 1 1).
Defined.

Lemma kv_index_refines_witness :
  let m := <[mkKvKey 5 1 := mkKvKey 5 1]> (<[mkKvKey 1 1 := mkKvKey 1 1]> (∅ : gmap KvKey KvKey)) in
  kv_index_find (F := unit) sample_index (mkKvKey 1 1) tt = Ret (Some 1) tt /\
  exists es', kv_index_erase (F := unit) 1 sample_index = Ret tt es' /\ length es' = 4%nat /\
    represents es' (delete (mkKvKey 1 1) m).
Proof.
  intros m. assert (kv_index_find (F := unit) sample_index (mkKvKey 1 1) tt = Ret (Some 1) tt) as Hf by (vm_compute; reflexivity).
  split; [exact Hf|].
  apply (kv_index_refines sample_index m (mkKvKey 1 1) sample_index_ok ltac:(discriminate) ltac:(vm_compute; reflexivity)).
  exact Hf.
Defined.
