(* ===== verification/WorkControl.v ===== *)
(** * The work control plane (work_control.rs)

    Per-step batch re-formation: a dispatch of the serving side becomes a
    [WorkControlPacket] with a content-addressed transaction identity, and every
    receiver validates the packet before it acts on it.  This file models the MTP
    draft tree, bucket and budget selection, the decode and prefill packet builders,
    the transaction identity and [validate_packet]; [Wire] models the packet and its
    bytes, [KvDirectory] the KV block directory the packets drive. *)

From S2P Require Import Prelude Bytes WorkTransaction Wire.

(** ** Errors *)

Inductive WorkControlError :=
| InvalidArgument | CapacityExceeded | NotFound | ModuleNotValidated | ValidationFailed | AbiMismatch
| Busy | InternalError.

#[export] Instance WorkControlError_dec : EqDecision WorkControlError.
Proof. solve_decision. Defined.

(** rank_daemon/status.rs *)
Definition from_work_control (error : WorkControlError) : SparkStatus :=
  match error with
  | InvalidArgument => WorkTransaction.InvalidArgument
  | CapacityExceeded => WorkTransaction.CapacityExceeded
  | NotFound => WorkTransaction.NotFound
  | ModuleNotValidated => WorkTransaction.ModuleNotValidated
  | ValidationFailed => WorkTransaction.ValidationFailed
  | AbiMismatch => WorkTransaction.AbiMismatch
  | Busy => WorkTransaction.Busy
  | InternalError => WorkTransaction.InternalError
  end.

(** Functions without [&mut] arguments run in any state. *)
Abbreviation WC S := (M S WorkControlError).

(** [option.ok_or(error)?] on a value. *)
Definition some_or {S E A} (e : E) (o : option A) : M S E A :=
  match o with Some a => ret a | None => throw e end.

(** [v.get(i)] *)
Definition get {A} (l : list A) (i : Z) : option A := l !! Z.to_nat i.

(** ** The MTP draft tree *)

Module mtp_tree.

Definition CANDIDATE_COUNT : Z := 5.

Definition VERIFIER_ROW_COUNT : Z := 6.

Definition MAX_COMMITTED_TOKEN_COUNT : Z := 4.

Definition CONTEXT_EXTENSION : Z := 3.

Definition RESOLUTION_NONE : Z := 0.

Record Node := mkNode {
  parent_row : Z; depth : Z; candidate_index : Z; child_row_base : Z; child_count : Z;
}.

Definition NODES : list Node :=
  [mkNode 0 0 0 1 1; mkNode 0 1 0 2 2; mkNode 1 2 1 4 2; mkNode 1 2 2 0 0; mkNode 2 3 3 0 0; mkNode 2 3 4 0 0].

Definition node_at (row_index : Z) : option Node := get NODES row_index.

Definition accepted_token_count (path_id : Z) : Z :=
  match node_at path_id with Some node => depth node | None => 0 end.

Definition fallback_row_index (path_id : Z) : Z :=
  match node_at path_id with Some _ => path_id | None => 0 end.

Definition tail_candidate_index (path_id : Z) : Z :=
  match node_at path_id with Some node => candidate_index node | None => 0 end.

Definition tail_parent_row_index (path_id : Z) : Z :=
  match node_at path_id with Some node => parent_row node | None => 0 end.

Definition tail_base_position_offset (path_id : Z) : Z :=
  let accepted := accepted_token_count path_id in
  if accepted =? 0 then 0 else accepted - 1.

Definition resolution_is_valid (proposed_token_count accepted path_id : Z) : bool :=
  if proposed_token_count <? accepted then false
  else if proposed_token_count =? 0 then (accepted =? 0) && (path_id =? RESOLUTION_NONE)
  else if negb (proposed_token_count =? CANDIDATE_COUNT) then path_id =? RESOLUTION_NONE
  else if VERIFIER_ROW_COUNT <=? path_id then false
  else accepted =? accepted_token_count path_id.

(** The first loop of [topology_is_valid]: parents, depths and candidates. *)
Definition topology_row {S E} (row_index : Z) (seen : Z * Z) : M S E (flow (Z * Z) bool) :=
  let '(candidate_seen_mask, max_depth) := seen in
  let! node := index NODES row_index in
  let! parent := index NODES (parent_row node) in
  if (row_index <=? parent_row node)
     || negb (depth node =? depth parent + 1)
     || (CANDIDATE_COUNT <=? candidate_index node)
     || negb (Z.land candidate_seen_mask (Z.shiftl 1 (candidate_index node)) =? 0)
  then ret (Break false)
  else ret (Continue (Z.lor candidate_seen_mask (Z.shiftl 1 (candidate_index node)), Z.max max_depth (depth node))).

(** The second loop: the children of a node name it as their parent. *)
Definition topology_children {S E} (row_index : Z) : M S E (option bool) :=
  let! node := index NODES row_index in
  if child_count node =? 0 then ret None
  else if (child_row_base node <=? row_index)
          || (Z.of_nat (length NODES) <? child_row_base node + child_count node) then ret (Some false)
  else for_return (range 0 (child_count node)) (fun child_offset =>
    let! child := index NODES (child_row_base node + child_offset) in
    if negb (parent_row child =? row_index) then ret (Some false) else ret None).

Definition topology_is_valid {S E} : M S E bool :=
  let! root := index NODES 0 in
  if negb (depth root =? 0) || negb (parent_row root =? 0) then ret false else
  let! rows := for_flow (range 1 VERIFIER_ROW_COUNT) topology_row (0, 0) in
  match rows with
  | Break b => ret b
  | Continue (candidate_seen_mask, max_depth) =>
      if negb (candidate_seen_mask =? Z.shiftl 1 CANDIDATE_COUNT - 1)
         || negb (max_depth =? CONTEXT_EXTENSION)
         || negb (max_depth + 1 =? MAX_COMMITTED_TOKEN_COUNT)
      then ret false
      else
        let! bad := for_return (range 0 (Z.of_nat (length NODES))) topology_children in
        ret (match bad with Some b => b | None => true end)
  end.

End mtp_tree.

(** ** Constants *)

Definition WORK_ABI_VERSION : Z := 16.

Definition PACKET_MAGIC : Z := 0x35574350.

Definition STANDALONE_GENERATION : Z := 1.

Definition FLAG_PREFILL : Z := 0x01.

Definition FLAG_MTP_DRAFT : Z := 0x02.

Definition FLAG_DSPARK_TAP_CAPTURE : Z := 0x04.

Definition FLAG_DSPARK_SPECULATIVE_VERIFY : Z := 0x08.

Definition FLAG_MTP_SPECULATIVE_VERIFY : Z := 0x10.

Definition FLAG_RELEASE_SEQUENCES : Z := 0x20.

Definition FLAG_MTP_RESOLVE : Z := 0x40.

Definition FLAG_MTP_TREE_VERIFY : Z := 0x80.

Definition KNOWN_FLAGS : Z :=
  Z.lor (Z.lor (Z.lor (Z.lor (Z.lor (Z.lor (Z.lor FLAG_PREFILL FLAG_MTP_DRAFT) FLAG_DSPARK_TAP_CAPTURE)
    FLAG_DSPARK_SPECULATIVE_VERIFY) FLAG_MTP_SPECULATIVE_VERIFY) FLAG_RELEASE_SEQUENCES) FLAG_MTP_RESOLVE)
    FLAG_MTP_TREE_VERIFY.

Definition INVALID_REQUEST_SLOT : Z := U32_MAX.

Definition REQUEST_DISPATCH_KIND_PREFILL : Z := 1.

Definition REQUEST_DISPATCH_KIND_DECODE_BATCH : Z := 2.

Definition REQUEST_DISPATCH_KIND_PREFILL_BATCH : Z := 3.

Definition REQUEST_DISPATCH_KIND_SPECULATIVE_VERIFY_BATCH : Z := 4.

Definition REQUEST_DISPATCH_FLAG_DSPARK_TAP_CAPTURE : Z := 0x40.

Definition REQUEST_DISPATCH_FLAG_DSPARK_SPECULATIVE_VERIFY : Z := 0x80.

Definition REQUEST_DISPATCH_FLAG_MTP_COMMIT : Z := 0x200.

Definition REQUEST_DISPATCH_FLAG_MTP_SPECULATIVE_VERIFY : Z := 0x400.

Definition REQUEST_DISPATCH_FLAG_MTP_TREE_VERIFY : Z := 0x800.

(** ** Batch buckets, configuration *)

Definition STAGE_PLAN_BATCH_BUCKETS : list Z := [16; 32; 64; 128; 256; 512; 1024].

Definition batch_bucket_is_supported (batch_bucket : Z) : bool :=
  bool_decide (batch_bucket ∈ STAGE_PLAN_BATCH_BUCKETS).

Definition select_batch_bucket {S} (active_sequence_count : Z) : WC S Z :=
  if active_sequence_count =? 0 then throw InvalidArgument
  else some_or CapacityExceeded (List.find (fun bucket => active_sequence_count <=? bucket) STAGE_PLAN_BATCH_BUCKETS).

Definition execution_chunk_shape {S} (logical_sequence_count rows_per_sequence execution_row_capacity
    max_batch_bucket : Z) : WC S (Z * Z) :=
  if (logical_sequence_count =? 0) || (rows_per_sequence =? 0) || (execution_row_capacity =? 0)
  then throw InvalidArgument else
  let execution_row_capacity := Z.min execution_row_capacity max_batch_bucket in
  let maximum_sequences_per_chunk := execution_row_capacity / rows_per_sequence in
  if maximum_sequences_per_chunk =? 0 then throw CapacityExceeded else
  let maximum_sequences_per_chunk := Z.min maximum_sequences_per_chunk logical_sequence_count in
  ret (maximum_sequences_per_chunk, div_ceil logical_sequence_count maximum_sequences_per_chunk).

Definition queue_depth (cohort_capacity : Z) : Z := cohort_capacity +u32 1.

(** [maximum_context_tokens / kv_block_tokens]; a zero divisor panics. *)
Definition kv_block_capacity {S E} (c : WorkControlConfig) : M S E Z :=
  if kv_block_tokens c =? 0 then panic else ret (maximum_context_tokens c / kv_block_tokens c).

(** [WorkControlConfig::validate]; its only error is [InvalidArgument]. *)
Definition validate_config (c : WorkControlConfig) : bool :=
  negb ((c_mtp_draft_token_count c =? 0)
    || (dspark_max_speculative_token_count c =? 0)
    || (maximum_context_tokens c =? 0)
    || (kv_block_tokens c =? 0)
    || (max_prefill_tokens_per_packet c =? 0)
    || (output_vocab_count c =? 0)
    || (max_lane_count c =? 0)
    || (max_active_sequence_count c =? 0)
    || (cohort_capacity c =? 0)
    || negb (maximum_context_tokens c mod kv_block_tokens c =? 0)).

(** ** Fresh packets *)

#[export] Instance WorkControlLane_eta : RecordEta WorkControlLane := fun l =>
  mkLane (l_request_id l) (l_request_generation l) (l_step_generation l) (l_sequence_id l)
    (l_sequence_position l) (request_slot_index l) (context_token_count l) (l_input_token_id l)
    (l_mtp_draft_token_count l) (l_speculative_token_count l) (mtp_resolution_proposed_token_count l)
    (mtp_resolution_accepted_token_count l) (mtp_resolution_path_id l) (l_speculative_draft_token_ids l).

(** Update lane [i] of the packet under construction. *)
Definition upd_lane (i : Z) (f : WorkControlLane -> WorkControlLane) (p : WorkControlPacket) : WorkControlPacket :=
  p <| lanes := upd_nth i f (lanes p) |>.

(** ** Transaction identity *)

Abbreviation PK := (M WorkControlPacket WorkControlError).

Definition nonzero_identity_word (value fallback : Z) : Z := if value =? 0 then fallback else value.

(** [transaction_phase(packet)] *)
Definition packet_phase (p : WorkControlPacket) : Z :=
  if has_flag (p_flags p) FLAG_RELEASE_SEQUENCES then PHASE_RELEASE
  else if has_flag (p_flags p) FLAG_PREFILL then PHASE_PREFILL
  else if has_flag (p_flags p) (Z.lor FLAG_DSPARK_SPECULATIVE_VERIFY FLAG_MTP_SPECULATIVE_VERIFY) then PHASE_VERIFY
  else PHASE_DECODE.

Definition packet_fingerprint {S E} (p : WorkControlPacket) (c : WorkControlConfig) : M S E Z :=
  if (p_descriptor_bytes p <? packet_prefix_bytes c)
     || (calculate_packet_bytes c (max_lane_count c) <? p_descriptor_bytes p)
  then ret 0
  else let! bytes := canonical_bytes c p in ret (fingerprint_bytes bytes).

(** [for lane in lanes[..lane_count].iter_mut() { lane.step_generation = g }] *)
Definition stamp_step (g : Z) (p : WorkControlPacket) : WorkControlPacket :=
  p <| lanes := ((fun l => l <| l_step_generation := g |>) <$> take (Z.to_nat (lane_count p)) (lanes p))
                ++ drop (Z.to_nat (lane_count p)) (lanes p) |>.

Definition set_transaction_identity (c : WorkControlConfig) (control_generation transaction_id
    dispatch_generation step_generation : Z) : PK unit :=
  let! p := gets id in
  if (control_generation =? 0) || (transaction_id =? 0) || (dispatch_generation =? 0) || (step_generation =? 0)
     || (lane_count p =? 0) || (max_lane_count c <? lane_count p) || (p_step_chunk_count p =? 0)
     || (p_step_chunk_count p <=? p_step_chunk_index p) || negb (phase_is_valid (p_transaction_phase p))
  then throw InvalidArgument else
  let! active := slice (lanes p) 0 (lane_count p) in
  if existsb (fun l => l_request_generation l =? 0) active then throw InvalidArgument else
  let! first := index (lanes p) 0 in
  do! modify (fun p => p <| p_control_generation := control_generation |>
    <| p_transaction_id := transaction_id |> <| p_dispatch_generation := dispatch_generation |>
    <| p_request_generation := l_request_generation first |> <| p_step_generation := step_generation |>
    <| p_reserved_transaction := 0 |>) in
  modify (stamp_step step_generation).

(** The loop that clears the step stamps stops at the first lane without a request. *)
Definition clear_step (lane_index : Z) : PK unit :=
  let! p := gets id in
  let! lane := index (lanes p) lane_index in
  if l_request_generation lane =? 0 then throw InvalidArgument
  else modify (upd_lane lane_index (fun l => l <| l_step_generation := 0 |>)).

(** [rotate_left] on [u64]. *)
Definition rotate_left64 (x n : Z) : Z := Z.lor (u64 (Z.shiftl x n)) (Z.shiftr x (64 - n)).

Definition finalize_transaction (c : WorkControlConfig) (control_generation step_chunk_index step_chunk_count : Z)
    : PK unit :=
  let! p := gets id in
  if (control_generation =? 0) || (step_chunk_count =? 0) || (step_chunk_count <=? step_chunk_index)
     || (lane_count p =? 0) || (max_lane_count c <? lane_count p)
     || negb (p_descriptor_bytes p =? calculate_packet_bytes c (lane_count p))
  then throw InvalidArgument else
  do! slice (lanes p) 0 (lane_count p) in
  do! for_fold (range 0 (lane_count p)) (fun lane_index _ => clear_step lane_index) tt in
  let! p := gets id in
  let! first := index (lanes p) 0 in
  do! modify (fun p => p <| p_control_generation := control_generation |> <| p_transaction_id := 0 |>
    <| p_dispatch_generation := 0 |> <| p_request_generation := l_request_generation first |>
    <| p_step_generation := 0 |> <| p_step_chunk_index := step_chunk_index |>
    <| p_step_chunk_count := step_chunk_count |>) in
  do! modify (fun p => p <| p_transaction_phase := packet_phase p |> <| p_reserved_transaction := 0 |>) in
  let! p := gets id in
  if negb (phase_is_valid (p_transaction_phase p)) then throw InvalidArgument else
  let! bytes := canonical_bytes c p in
  let canonical_hash := fingerprint_bytes bytes in
  if canonical_hash =? 0 then throw InternalError else
  let dispatch_generation := nonzero_identity_word (Z.lxor canonical_hash 0x9E3779B97F4A7C15) 1 in
  let step_generation := nonzero_identity_word (Z.lxor (rotate_left64 canonical_hash 17) 0xD1B54A32D192ED03) 1 in
  set_transaction_identity c control_generation canonical_hash dispatch_generation step_generation.

(** The identity a packet carries. *)
Definition packet_identity (p : WorkControlPacket) : Identity :=
  mkIdentity (p_control_generation p) (p_transaction_id p) (p_dispatch_generation p) (p_request_generation p)
    (p_step_generation p) (p_step_chunk_index p) (p_step_chunk_count p) (p_transaction_phase p).

Definition get_transaction_identity {S} (p : WorkControlPacket) : WC S Identity :=
  let identity := packet_identity p in
  if validate_identity identity then ret identity else throw InvalidArgument.

Definition validate_transaction_fields {S} (p : WorkControlPacket) (c : WorkControlConfig) : WC S unit :=
  if (lane_count p =? 0) || (max_lane_count c <? lane_count p)
     || negb (p_descriptor_bytes p =? calculate_packet_bytes c (lane_count p))
     || (p_request_generation p =? 0) || negb (p_reserved_transaction p =? 0)
  then throw InvalidArgument else
  do! get_transaction_identity p in
  let! bad :=
    (if negb (p_transaction_phase p =? packet_phase p) then ret true
     else let! first := index (lanes p) 0 in
          ret (negb (p_request_generation p =? l_request_generation first))) in
  if bad then throw InvalidArgument else
  let! active := slice (lanes p) 0 (lane_count p) in
  if existsb (fun l => (l_request_generation l =? 0) || negb (l_step_generation l =? p_step_generation p)) active
  then throw InvalidArgument else ret tt.

(** ** Dispatch inputs *)

Record RequestApiDispatch := mkRequestDispatch {
  kind : Z;
  d_flags : Z;
  d_request_count : Z;
  highest_priority : Z;
  request_handles : list Z;
  request_ids : list Z;
  sequence_ids : list Z;
  prefill_decision_batch_bucket : Z;
  prefill_batch_decision_batch_bucket : Z;
  decode_batch_decision_batch_bucket : Z;
  speculative_verifier_token_count : Z;
  mtp_draft_token_budget : Z;
}.

Record DecodeDispatchLaneView := mkDecodeLane {
  dl_request_index : Z;
  dl_sequence_position : Z;
  dl_context_token_count : Z;
  dl_request_slot_index : Z;
  dl_request_id : Z;
  dl_sequence_id : Z;
  dl_request_handle : Z;
  dl_mtp_resolution_base_position : Z;
  dl_mtp_resolution_proposed_token_count : Z;
  dl_mtp_resolution_accepted_token_count : Z;
  dl_mtp_resolution_committed_token_count : Z;
  dl_mtp_resolution_path_id : Z;
}.

Record DecodeDispatchView := mkDecodeView { dv_lane_count : Z; dv_lanes : list DecodeDispatchLaneView }.

Record DispatchKvBlockTableView := mkTableView {
  tv_block_token_count : Z; tv_lane_count : Z; tv_lane_stride : Z; tv_lane_capacity : Z;
}.

Record ServingDecodeDispatch := mkDecodeDispatch {
  dd_dispatch_kind : Z;
  dd_request_count : Z;
  dd_active_sequence_count : Z;
  dd_request_dispatch : RequestApiDispatch;
  dd_kv_block_table_view : option DispatchKvBlockTableView;
  decode_view : DecodeDispatchView;
  input_token_ids : list Z;
  dd_speculative_token_count : Z;
  dd_speculative_draft_token_ids : list (list Z);
}.

Record PrefillDispatchLaneView := mkPrefillLane {
  pl_request_index : Z;
  pl_prompt_token_offset : Z;
  pl_prompt_token_count : Z;
  pl_request_slot_index : Z;
  pl_request_id : Z;
  pl_sequence_id : Z;
  pl_request_handle : Z;
}.

Record PrefillDispatchView := mkPrefillView {
  pv_lane_count : Z; pv_prompt_token_count : Z; pv_prompt_token_stride : Z; pv_lanes : list PrefillDispatchLaneView;
}.

Record PromptPipelinePrefillDispatch := mkPrefillDispatch {
  pd_dispatch_kind : Z;
  pd_active_sequence_count : Z;
  pd_lane_count : Z;
  pd_prompt_token_offset : Z;
  pd_prompt_token_count : Z;
  pd_prompt_token_stride : Z;
  host_token_stride : Z;
  pd_request_dispatch : RequestApiDispatch;
  prefill_view : PrefillDispatchView;
  host_token_ids : list Z;
  pd_kv_block_table_view : option DispatchKvBlockTableView;
}.

(** ** Bucket and budget selection *)

Definition dispatch_bucket (d : RequestApiDispatch) : option Z :=
  if kind d =? REQUEST_DISPATCH_KIND_PREFILL then Some (prefill_decision_batch_bucket d)
  else if kind d =? REQUEST_DISPATCH_KIND_PREFILL_BATCH then Some (prefill_batch_decision_batch_bucket d)
  else if (kind d =? REQUEST_DISPATCH_KIND_DECODE_BATCH)
          || (kind d =? REQUEST_DISPATCH_KIND_SPECULATIVE_VERIFY_BATCH)
  then Some (decode_batch_decision_batch_bucket d)
  else None.

Definition select_execution_batch_bucket {S} (d : RequestApiDispatch) (batch_lane_or_row_count : Z) : WC S Z :=
  if batch_lane_or_row_count =? 0 then throw InvalidArgument else
  let! batch_bucket := some_or InvalidArgument (dispatch_bucket d) in
  if negb (batch_bucket_is_supported batch_bucket) then throw InvalidArgument
  else if batch_bucket <? batch_lane_or_row_count then select_batch_bucket batch_lane_or_row_count
  else ret batch_bucket.

Definition select_mtp_draft_budget {S} (dispatch_kind request_flags requested_budget : Z) : WC S Z :=
  let tree_flags := Z.lor REQUEST_DISPATCH_FLAG_MTP_SPECULATIVE_VERIFY REQUEST_DISPATCH_FLAG_MTP_TREE_VERIFY in
  let producer := (dispatch_kind =? REQUEST_DISPATCH_KIND_DECODE_BATCH)
                  && has_flag request_flags REQUEST_DISPATCH_FLAG_MTP_COMMIT in
  let tree_verify := (dispatch_kind =? REQUEST_DISPATCH_KIND_SPECULATIVE_VERIFY_BATCH)
                     && (Z.land request_flags tree_flags =? tree_flags) in
  if negb producer && negb tree_verify then
    if negb (requested_budget =? 0) then throw InvalidArgument else ret 0
  else if negb (requested_budget =? mtp_tree.CANDIDATE_COUNT) then throw ModuleNotValidated
  else ret requested_budget.

(** ** Decode packets *)

Definition written_position_count (p : WorkControlPacket) : Z :=
  if has_flag (p_flags p) FLAG_MTP_TREE_VERIFY then mtp_tree.CONTEXT_EXTENSION +u32 1 else new_token_count p.

Definition flag_if (b : bool) (flag flags : Z) : Z := if b then Z.lor flags flag else flags.

Definition set_decode_flags (d : ServingDecodeDispatch) (mtp_budget : Z) (p : WorkControlPacket) : WorkControlPacket :=
  let request_flags := d_flags (dd_request_dispatch d) in
  p <| p_flags :=
    flag_if (has_flag request_flags REQUEST_DISPATCH_FLAG_MTP_TREE_VERIFY) FLAG_MTP_TREE_VERIFY
      (flag_if (has_flag request_flags REQUEST_DISPATCH_FLAG_MTP_SPECULATIVE_VERIFY) FLAG_MTP_SPECULATIVE_VERIFY
        (flag_if (has_flag request_flags REQUEST_DISPATCH_FLAG_DSPARK_SPECULATIVE_VERIFY) FLAG_DSPARK_SPECULATIVE_VERIFY
          (flag_if (has_flag request_flags REQUEST_DISPATCH_FLAG_DSPARK_TAP_CAPTURE) FLAG_DSPARK_TAP_CAPTURE
            (flag_if (negb (mtp_budget =? 0)) FLAG_MTP_DRAFT (p_flags p))))) |>.

Definition set_mtp_resolution_flag : PK unit :=
  let! p := gets id in
  let! active := slice (lanes p) 0 (lane_count p) in
  if existsb (fun l => negb (mtp_resolution_proposed_token_count l =? 0)) active
  then modify (fun p => p <| p_flags := Z.lor (p_flags p) FLAG_MTP_RESOLVE |>) else ret tt.

(** [lane.speculative_draft_token_ids[token_index] = *source_tokens.get(token_index)?] *)
Definition copy_draft_token (lane_index : Z) (source_tokens : list Z) (token_index : Z) : PK unit :=
  let! token := some_or InvalidArgument (get source_tokens token_index) in
  let! p := gets id in
  let! lane := index (lanes p) lane_index in
  do! index (l_speculative_draft_token_ids lane) token_index in
  modify (upd_lane lane_index (fun l =>
    l <| l_speculative_draft_token_ids := <[Z.to_nat token_index := token]> (l_speculative_draft_token_ids l) |>)).

(** The draft tokens and the context they extend. *)
Definition extend_decode_lane (d : ServingDecodeDispatch) (source_index lane_index : Z)
    (speculative_verify : bool) (mtp_budget : Z) : PK unit :=
  let mtp_tree_verify := has_flag (d_flags (dd_request_dispatch d)) REQUEST_DISPATCH_FLAG_MTP_TREE_VERIFY in
  let! p := gets id in
  let! lane := index (lanes p) lane_index in
  if speculative_verify then
    let context_extension :=
      if mtp_tree_verify then mtp_tree.CONTEXT_EXTENSION else dd_speculative_token_count d in
    if U32_MAX - context_extension <? context_token_count lane then throw CapacityExceeded else
    do! modify (upd_lane lane_index (fun l =>
      l <| context_token_count := context_token_count l +u32 context_extension |>
        <| l_speculative_token_count := dd_speculative_token_count d |>)) in
    let! source_tokens := some_or InvalidArgument (get (dd_speculative_draft_token_ids d) source_index) in
    for_fold (range 0 (dd_speculative_token_count d))
      (fun token_index _ => copy_draft_token lane_index source_tokens token_index) tt
  else if negb (mtp_budget =? 0) then
    if U32_MAX - mtp_budget <? context_token_count lane then throw CapacityExceeded else
    modify (upd_lane lane_index (fun l => l <| context_token_count := context_token_count l +u32 mtp_budget |>))
  else ret tt.

(** [if context_token_count > kv_block_table_token_count { .. }] *)
Definition raise_table_count (lane_index : Z) : PK unit :=
  let! p := gets id in
  let! lane := index (lanes p) lane_index in
  if kv_block_table_token_count p <? context_token_count lane
  then modify (fun p => p <| kv_block_table_token_count := context_token_count lane |>) else ret tt.

Definition build_decode_lane (d : ServingDecodeDispatch) (lane_offset : Z) (speculative_verify : bool)
    (mtp_budget lane_index : Z) : PK unit :=
  let rd := dd_request_dispatch d in
  let source_index := lane_offset +u32 lane_index in
  let! source_lane := some_or InvalidArgument (get (dv_lanes (decode_view d)) source_index) in
  let! request_id := some_or InvalidArgument (get (request_ids rd) source_index) in
  let! sequence_id := some_or InvalidArgument (get (sequence_ids rd) source_index) in
  let! request_handle := some_or InvalidArgument (get (request_handles rd) source_index) in
  let! input_token_id := some_or InvalidArgument (get (input_token_ids d) source_index) in
  if negb (dl_request_index source_lane =? source_index) || negb (dl_request_id source_lane =? request_id)
     || negb (dl_sequence_id source_lane =? sequence_id)
  then throw InvalidArgument
  else if negb (dl_request_handle source_lane =? request_handle) then throw InvalidArgument else
  let! p := gets id in
  do! index (lanes p) lane_index in
  do! modify (upd_lane lane_index (fun l =>
    l <| l_request_id := request_id |> <| l_request_generation := request_handle |>
      <| l_sequence_id := sequence_id |> <| l_sequence_position := dl_sequence_position source_lane |>
      <| request_slot_index := dl_request_slot_index source_lane |>
      <| context_token_count := dl_context_token_count source_lane |>
      <| l_input_token_id := input_token_id |> <| l_mtp_draft_token_count := mtp_budget |>
      <| mtp_resolution_proposed_token_count := dl_mtp_resolution_proposed_token_count source_lane mod 256 |>
      <| mtp_resolution_accepted_token_count := dl_mtp_resolution_accepted_token_count source_lane mod 256 |>
      <| mtp_resolution_path_id := dl_mtp_resolution_path_id source_lane mod 65536 |>)) in
  do! extend_decode_lane d source_index lane_index speculative_verify mtp_budget in
  raise_table_count lane_index.

Definition build_decode_lanes (d : ServingDecodeDispatch) (lane_offset lane_count : Z)
    (speculative_verify : bool) (mtp_budget : Z) : PK unit :=
  for_fold (range 0 lane_count)
    (fun lane_index _ => build_decode_lane d lane_offset speculative_verify mtp_budget lane_index) tt.

(** The packet header repeats its first lane. *)
Definition copy_first_lane : PK unit :=
  let! p := gets id in
  let! first := index (lanes p) 0 in
  modify (fun p => p <| p_request_id := l_request_id first |> <| p_sequence_id := l_sequence_id first |>
    <| p_sequence_position := l_sequence_position first |> <| p_input_token_id := l_input_token_id first |>).

Definition decode_rows_per_lane (d : ServingDecodeDispatch) (speculative_verify mtp_tree_verify : bool) : Z :=
  if speculative_verify then
    if mtp_tree_verify then speculative_verifier_token_count (dd_request_dispatch d)
    else dd_speculative_token_count d +u32 1
  else 1.

(** The statements of [build_decode_packet_range] from the row count on. *)
Definition fill_decode_packet (c : WorkControlConfig) (d : ServingDecodeDispatch) (lane_offset n
    speculative_token_idx : Z) (speculative_verify mtp_tree_verify : bool) (mtp_budget : Z) : PK WorkControlPacket :=
  let rd := dd_request_dispatch d in
  let! p := gets id in
  if mtp_tree_verify && (negb (rows_per_lane p =? mtp_tree.VERIFIER_ROW_COUNT)
                         || negb (dd_speculative_token_count d =? mtp_tree.CANDIDATE_COUNT))
  then throw ModuleNotValidated
  else if U32_MAX <? lane_count p * rows_per_lane p then throw CapacityExceeded else
  do! modify (fun p => p <| execution_row_count := lane_count p *u32 rows_per_lane p |>) in
  let! p := gets id in
  let! bucket := select_execution_batch_bucket rd (execution_row_count p) in
  let! capacity := kv_block_capacity c in
  do! modify (fun p => p <| execution_batch_bucket := bucket |>
    <| new_token_count := if speculative_verify then rows_per_lane p else mtp_budget +u32 1 |>
    <| priority := highest_priority rd |> <| block_token_count := kv_block_tokens c |>
    <| max_blocks_per_sequence := capacity |> <| p_mtp_draft_token_count := mtp_budget |>) in
  do! modify (set_decode_flags d mtp_budget) in
  do! build_decode_lanes d lane_offset n speculative_verify mtp_budget in
  do! set_mtp_resolution_flag in
  do! copy_first_lane in
  do! (if speculative_verify then
    do! modify (fun p => p <| p_speculative_token_count := dd_speculative_token_count d |>
      <| speculative_token_index := speculative_token_idx |>) in
    let! source_tokens := some_or InvalidArgument (get (dd_speculative_draft_token_ids d) lane_offset) in
    modify (fun p => p <| p_speculative_draft_token_ids :=
      imap (fun i _ => default 0 (source_tokens !! i)) (p_speculative_draft_token_ids p) |>)
  else ret tt) in
  do! finalize_transaction c STANDALONE_GENERATION 0 1 in
  gets id.

Definition build_decode_packet_range {S} (c : WorkControlConfig) (d : ServingDecodeDispatch)
    (lane_offset n speculative_token_idx : Z) : WC S WorkControlPacket :=
  let rd := dd_request_dispatch d in
  if (dd_request_count d =? 0)
     || negb (dd_request_count d =? dd_active_sequence_count d)
     || negb (dv_lane_count (decode_view d) =? dd_active_sequence_count d)
     || (max_active_sequence_count c <? dd_active_sequence_count d)
     || negb (bool_decide (is_Some (dd_kv_block_table_view d)))
     || (n =? 0)
     || (dd_active_sequence_count d <=? lane_offset)
     || ((dd_active_sequence_count d -u32 lane_offset) <? n)
  then throw InvalidArgument else
  let speculative_verify := dd_dispatch_kind d =? REQUEST_DISPATCH_KIND_SPECULATIVE_VERIFY_BATCH in
  let mtp_tree_verify := has_flag (d_flags rd) REQUEST_DISPATCH_FLAG_MTP_TREE_VERIFY in
  if (speculative_verify && ((dd_speculative_token_count d =? 0)
        || (max_speculative_token_count c <? dd_speculative_token_count d) || negb (speculative_token_idx =? 0)))
     || (negb speculative_verify && negb (speculative_token_idx =? 0))
  then throw InvalidArgument else
  let! mtp_budget := select_mtp_draft_budget (dd_dispatch_kind d) (d_flags rd) (mtp_draft_token_budget rd) in
  if calculate_packet_bytes c n =? 0 then throw InvalidArgument else
  with_local (set_lane_count c n (zeroed c)
      <| p_magic := PACKET_MAGIC |> <| p_abi_version := WORK_ABI_VERSION |>
      <| p_control_generation := STANDALONE_GENERATION |> <| active_sequence_count := n |>
      <| p_descriptor_bytes := calculate_packet_bytes c n |>
      <| rows_per_lane := decode_rows_per_lane d speculative_verify mtp_tree_verify |>)
    (fill_decode_packet c d lane_offset n speculative_token_idx speculative_verify mtp_tree_verify mtp_budget).

Definition build_decode_packet {S} (c : WorkControlConfig) (d : ServingDecodeDispatch)
    (speculative_token_idx : Z) : WC S WorkControlPacket :=
  build_decode_packet_range c d 0 (dd_active_sequence_count d) speculative_token_idx.

(** ** Prefill packets *)

(** One lane of the scan in [select_prefill_chunk]. *)
Definition scan_lane {S} (d : PromptPipelinePrefillDispatch) (token_offset lane_index : Z) (acc : Z * Z)
    : WC S (Z * Z) :=
  let '(active_lane_count, minimum_remaining_token_count) := acc in
  let! lane := some_or InvalidArgument (get (pv_lanes (prefill_view d)) lane_index) in
  if pl_prompt_token_count lane <=? token_offset then ret acc
  else
    let remaining_token_count := pl_prompt_token_count lane -u32 token_offset in
    ret (active_lane_count +u32 1, Z.min minimum_remaining_token_count remaining_token_count).

Definition select_prefill_chunk {S} (c : WorkControlConfig) (d : PromptPipelinePrefillDispatch)
    (token_offset maximum_execution_row_count : Z) : WC S Z :=
  if (pd_lane_count d =? 0) || negb (pd_lane_count d =? pd_active_sequence_count d)
     || negb (pd_lane_count d =? pv_lane_count (prefill_view d))
     || (pd_prompt_token_count d <=? token_offset)
     || (maximum_execution_row_count =? 0) || (max_active_sequence_count c <? maximum_execution_row_count)
  then throw InvalidArgument else
  let! '(active_lane_count, minimum_remaining_token_count) :=
    for_fold (range 0 (pd_lane_count d)) (scan_lane d token_offset) (0, U32_MAX) in
  if (active_lane_count =? 0) || (maximum_execution_row_count <? active_lane_count) then throw CapacityExceeded else
  let token_count := maximum_execution_row_count / active_lane_count in
  let token_count := Z.min token_count minimum_remaining_token_count in
  let token_count := Z.min token_count (max_prefill_tokens_per_packet c) in
  let token_count := Z.min token_count (pd_prompt_token_count d -u32 token_offset) in
  if token_count =? 0 then throw CapacityExceeded else ret token_count.

(** One lane of the first pass of [build_prefill_packet]. *)
Definition check_lane {S} (d : PromptPipelinePrefillDispatch) (token_offset token_count source_lane_index
    active_lane_count : Z) : WC S Z :=
  let! source_lane := some_or InvalidArgument (get (pv_lanes (prefill_view d)) source_lane_index) in
  if token_offset <? pl_prompt_token_count source_lane then
    if pl_prompt_token_count source_lane -u32 token_offset <? token_count then throw InvalidArgument
    else ret (active_lane_count +u32 1)
  else ret active_lane_count.

(** [packet.prefill_token_ids[execution_row_index + row_offset] = host_token_ids[..]] *)
Definition copy_prompt_token (d : PromptPipelinePrefillDispatch) (source_lane_index token_offset
    execution_row_index row_offset : Z) : PK unit :=
  let! token := index (host_token_ids d)
    ((source_lane_index *u64 host_token_stride d) +u64 (token_offset +u32 row_offset)) in
  let! p := gets id in
  do! index (prefill_token_ids p) (execution_row_index +u32 row_offset) in
  modify (fun p => p <| prefill_token_ids :=
    <[Z.to_nat (execution_row_index +u32 row_offset) := token]> (prefill_token_ids p) |>).

(** One lane of the second pass, which writes the destination lane. *)
Definition build_prefill_lane (d : PromptPipelinePrefillDispatch) (token_offset token_count source_lane_index
    destination_lane_count : Z) : PK Z :=
  let! source_lane := index (pv_lanes (prefill_view d)) source_lane_index in
  if pl_prompt_token_count source_lane <=? token_offset then ret destination_lane_count
  else if host_token_stride d <? pl_prompt_token_count source_lane then throw CapacityExceeded
  else if U32_MAX - token_offset <? pl_prompt_token_offset source_lane then throw CapacityExceeded else
  let position := pl_prompt_token_offset source_lane +u32 token_offset in
  if U32_MAX - token_count <? position then throw CapacityExceeded else
  let! p := gets id in
  do! index (lanes p) destination_lane_count in
  do! modify (upd_lane destination_lane_count (fun l =>
    l <| l_request_id := pl_request_id source_lane |> <| l_request_generation := pl_request_handle source_lane |>
      <| l_sequence_id := pl_sequence_id source_lane |> <| l_sequence_position := position |>
      <| request_slot_index := pl_request_slot_index source_lane |>
      <| context_token_count := position +u32 token_count |>)) in
  let execution_row_index := destination_lane_count *u32 token_count in
  do! for_fold (range 0 token_count)
    (fun row_offset _ => copy_prompt_token d source_lane_index token_offset execution_row_index row_offset) tt in
  let! p := gets id in
  let! last := index (prefill_token_ids p) (execution_row_index +u32 token_count -u32 1) in
  do! modify (upd_lane destination_lane_count (fun l => l <| l_input_token_id := last |>)) in
  do! raise_table_count destination_lane_count in
  ret (destination_lane_count +u32 1).

(** The statements of [build_prefill_packet] after the packet is allocated. *)
Definition fill_prefill_packet (c : WorkControlConfig) (d : PromptPipelinePrefillDispatch)
    (token_offset token_count : Z) : PK WorkControlPacket :=
  let rd := pd_request_dispatch d in
  let! capacity := kv_block_capacity c in
  do! modify (fun p => p <| p_magic := PACKET_MAGIC |> <| p_abi_version := WORK_ABI_VERSION |>
    <| p_control_generation := STANDALONE_GENERATION |>
    <| p_flags := flag_if (has_flag (d_flags rd) REQUEST_DISPATCH_FLAG_DSPARK_TAP_CAPTURE)
                    FLAG_DSPARK_TAP_CAPTURE FLAG_PREFILL |>
    <| new_token_count := token_count |> <| priority := highest_priority rd |>
    <| block_token_count := kv_block_tokens c |> <| max_blocks_per_sequence := capacity |>) in
  let! destination_lane_count :=
    for_fold (range 0 (pd_lane_count d)) (build_prefill_lane d token_offset token_count) 0 in
  if destination_lane_count =? 0 then throw InvalidArgument else
  do! modify (fun p => p <| active_sequence_count := destination_lane_count |>
    <| lane_count := destination_lane_count |> <| rows_per_lane := token_count |>
    <| execution_row_count := destination_lane_count *u32 token_count |>) in
  let! p := gets id in
  let! bucket := catch (select_execution_batch_bucket rd (execution_row_count p)) (fun _ => throw InvalidArgument) in
  do! modify (fun p => p <| execution_batch_bucket := bucket |>
    <| p_descriptor_bytes := calculate_packet_bytes c (active_sequence_count p) |>) in
  do! copy_first_lane in
  do! finalize_transaction c STANDALONE_GENERATION 0 1 in
  gets id.

Definition build_prefill_packet {S} (c : WorkControlConfig) (d : PromptPipelinePrefillDispatch)
    (token_offset token_count : Z) : WC S WorkControlPacket :=
  if (pd_lane_count d =? 0) || negb (pd_lane_count d =? pd_active_sequence_count d)
     || negb (pd_lane_count d =? pv_lane_count (prefill_view d))
     || negb (bool_decide (is_Some (pd_kv_block_table_view d)))
     || match pd_kv_block_table_view d with
        | Some view => negb (tv_lane_count view =? pd_lane_count d) | None => false end
     || (max_active_sequence_count c <? pd_lane_count d)
     || bool_decide (host_token_ids d = [])
     || (host_token_stride d =? 0)
     || (pd_prompt_token_count d <=? token_offset)
     || (token_count =? 0) || (max_prefill_tokens_per_packet c <? token_count)
     || ((pd_prompt_token_count d -u32 token_offset) <? token_count)
  then throw InvalidArgument
  else if Z.of_nat (length (host_token_ids d)) <? pd_lane_count d * host_token_stride d then throw InvalidArgument else
  let! active_lane_count := for_fold (range 0 (pd_lane_count d)) (check_lane d token_offset token_count) 0 in
  if max_active_sequence_count c <? active_lane_count * token_count then throw CapacityExceeded
  else if calculate_packet_bytes c active_lane_count =? 0 then throw InvalidArgument else
  with_local (set_lane_count c active_lane_count (zeroed c)) (fill_prefill_packet c d token_offset token_count).

(** ** Chunks and blocks *)

Definition block_count (token_count block_token_count : Z) : Z :=
  if (token_count =? 0) || (block_token_count =? 0) then 0 else div_ceil token_count block_token_count.

Definition plan_execution_chunks {S} (c : WorkControlConfig) (logical_lane_count rows_per_lane
    execution_row_capacity : Z) : WC S (Z * Z) :=
  if (logical_lane_count =? 0) || (max_lane_count c <? logical_lane_count) || (rows_per_lane =? 0)
     || (execution_row_capacity =? 0)
  then throw InvalidArgument
  else execution_chunk_shape logical_lane_count rows_per_lane execution_row_capacity (max_active_sequence_count c).

(** ** Packet validation *)

(** [if b { return Err(e) }] *)
Definition reject_if {S} (b : bool) (e : WorkControlError) : WC S unit := if b then throw e else ret tt.

(** [ids[lo..hi].iter().any(|&id| id != 0)] *)
Definition any_nonzero {S} (ids : list Z) (lo hi : Z) : WC S bool :=
  let! part := slice ids lo hi in ret (existsb (fun token_id => negb (token_id =? 0)) part).

(** [for i in 0..n { if ids[i] >= vocab { return Err(InvalidArgument) } }] *)
Definition tokens_in_vocab {S} (c : WorkControlConfig) (ids : list Z) (n : Z) : WC S unit :=
  for_fold (range 0 n) (fun i _ =>
    let! token := index ids i in reject_if (output_vocab_count c <=? token) InvalidArgument) tt.

Definition validate_release_lane {S} (p : WorkControlPacket) (c : WorkControlConfig) (lane : WorkControlLane)
    : WC S unit :=
  do! reject_if ((l_request_id lane =? 0) || (l_sequence_id lane =? 0) || (context_token_count lane =? 0)
    || (kv_block_table_token_count p <? context_token_count lane)
    || (max_blocks_per_sequence p <? block_count (context_token_count lane) (block_token_count p))
    || negb (l_input_token_id lane =? 0) || negb (l_mtp_draft_token_count lane =? 0)
    || negb (l_speculative_token_count lane =? 0) || negb (mtp_resolution_proposed_token_count lane =? 0)
    || negb (mtp_resolution_accepted_token_count lane =? 0)
    || negb (mtp_resolution_path_id lane =? mtp_tree.RESOLUTION_NONE)) InvalidArgument in
  let! dirty := any_nonzero (l_speculative_draft_token_ids lane) 0 (max_speculative_token_count c) in
  reject_if dirty InvalidArgument.

Definition validate_release {S} (p : WorkControlPacket) (c : WorkControlConfig) (max_pipeline_slot_count : Z)
    : WC S unit :=
  do! reject_if (negb (p_flags p =? FLAG_RELEASE_SEQUENCES)
    || negb (p_descriptor_bytes p =? calculate_packet_bytes c (lane_count p))
    || (active_sequence_count p =? 0) || (max_lane_count c <? active_sequence_count p)
    || negb (lane_count p =? active_sequence_count p) || (max_lane_count c <? lane_count p)
    || negb (new_token_count p =? 0) || (max_pipeline_slot_count <=? pipeline_slot p)
    || (block_token_count p =? 0) || (kv_block_table_token_count p =? 0) || (max_blocks_per_sequence p =? 0)
    || negb (p_mtp_draft_token_count p =? 0) || negb (p_input_token_id p =? 0)
    || negb (p_speculative_token_count p =? 0) || negb (speculative_token_index p =? 0)
    || negb (rows_per_lane p =? 0) || negb (execution_row_count p =? 0) || negb (execution_batch_bucket p =? 0))
    InvalidArgument in
  let! dirty := any_nonzero (p_speculative_draft_token_ids p) 0 (max_speculative_token_count c) in
  do! reject_if dirty InvalidArgument in
  let! active := slice (lanes p) 0 (lane_count p) in
  do! for_fold active (fun lane _ => validate_release_lane p c lane) tt in
  let! first := index (lanes p) 0 in
  reject_if (negb (p_request_id p =? l_request_id first) || negb (p_sequence_id p =? l_sequence_id first))
    InvalidArgument.

Definition prefill_flag (p : WorkControlPacket) : bool := has_flag (p_flags p) FLAG_PREFILL.

Definition dspark_verify (p : WorkControlPacket) : bool := has_flag (p_flags p) FLAG_DSPARK_SPECULATIVE_VERIFY.

Definition mtp_verify (p : WorkControlPacket) : bool := has_flag (p_flags p) FLAG_MTP_SPECULATIVE_VERIFY.

Definition mtp_tree_verify (p : WorkControlPacket) : bool := has_flag (p_flags p) FLAG_MTP_TREE_VERIFY.

Definition speculative_verify (p : WorkControlPacket) : bool := dspark_verify p || mtp_verify p.

Definition expected_rows_per_lane (p : WorkControlPacket) : Z :=
  if prefill_flag p then new_token_count p
  else if speculative_verify p then
    if mtp_tree_verify p then mtp_tree.VERIFIER_ROW_COUNT else p_speculative_token_count p +u32 1
  else 1.

(** Header counts, sizes and rows. *)
Definition validate_counts {S} (p : WorkControlPacket) (c : WorkControlConfig) (max_active max_pipeline_slot_count : Z)
    : WC S unit :=
  do! reject_if ((active_sequence_count p =? 0) || (max_lane_count c <? active_sequence_count p)
    || (lane_count p =? 0) || (max_lane_count c <? lane_count p)
    || negb (lane_count p =? active_sequence_count p) || (new_token_count p =? 0)
    || (max_pipeline_slot_count <=? pipeline_slot p) || (block_token_count p =? 0)
    || (kv_block_table_token_count p =? 0) || (max_blocks_per_sequence p =? 0)) InvalidArgument in
  let! capacity :=
    (if (max_active_sequence_count c <? active_sequence_count p)
        || negb (p_descriptor_bytes p =? calculate_packet_bytes c (active_sequence_count p))
     then throw AbiMismatch else kv_block_capacity c) in
  do! reject_if (capacity <? max_blocks_per_sequence p) AbiMismatch in
  do! reject_if (negb (prefill_flag p) && (max_speculative_token_count c +u32 1 <? new_token_count p))
    InvalidArgument in
  do! reject_if (prefill_flag p && ((new_token_count p =? 0) || (max_prefill_tokens_per_packet c <? new_token_count p)))
    InvalidArgument in
  let expected_execution_row_count := lane_count p * expected_rows_per_lane p in
  reject_if (negb (rows_per_lane p =? expected_rows_per_lane p) || (U32_MAX <? expected_execution_row_count)
    || (max_active <? expected_execution_row_count) || negb (execution_row_count p =? expected_execution_row_count)
    || negb (batch_bucket_is_supported (execution_batch_bucket p))
    || (execution_batch_bucket p <? (if prefill_flag p then execution_row_count p else lane_count p)))
    InvalidArgument.

(** Header tokens and the combination of flags. *)
Definition validate_tokens {S} (p : WorkControlPacket) (c : WorkControlConfig) : WC S unit :=
  do! reject_if (output_vocab_count c <=? p_input_token_id p) InvalidArgument in
  do! (if prefill_flag p then tokens_in_vocab c (prefill_token_ids p) (execution_row_count p) else ret tt) in
  do! reject_if (dspark_verify p && mtp_verify p) InvalidArgument in
  do! reject_if (mtp_tree_verify p && (negb (mtp_verify p)
    || negb (p_speculative_token_count p =? mtp_tree.CANDIDATE_COUNT)
    || negb (rows_per_lane p =? mtp_tree.VERIFIER_ROW_COUNT))) InvalidArgument in
  do! reject_if ((c_mtp_draft_token_count c <? p_mtp_draft_token_count p)
    || negb (Bool.eqb (has_flag (p_flags p) FLAG_MTP_DRAFT) (negb (p_mtp_draft_token_count p =? 0))))
    InvalidArgument in
  if speculative_verify p then
    do! reject_if (prefill_flag p || negb (new_token_count p =? rows_per_lane p)
      || (p_speculative_token_count p =? 0) || (max_speculative_token_count c <? p_speculative_token_count p)
      || negb (speculative_token_index p =? 0)
      || (dspark_verify p && negb (has_flag (p_flags p) FLAG_DSPARK_TAP_CAPTURE))) InvalidArgument in
    do! (if mtp_tree_verify p then
      reject_if (negb (has_flag (p_flags p) FLAG_MTP_DRAFT)
        || negb (p_mtp_draft_token_count p =? mtp_tree.CANDIDATE_COUNT)) ModuleNotValidated
    else reject_if (has_flag (p_flags p) FLAG_MTP_DRAFT || negb (p_mtp_draft_token_count p =? 0)) InvalidArgument) in
    do! tokens_in_vocab c (p_speculative_draft_token_ids p) (p_speculative_token_count p) in
    let! dirty := any_nonzero (p_speculative_draft_token_ids p) (p_speculative_token_count p) (max_speculative_token_count c) in
    reject_if dirty InvalidArgument
  else
    do! reject_if (negb (p_speculative_token_count p =? 0) || negb (speculative_token_index p =? 0)) InvalidArgument in
    let! dirty := any_nonzero (p_speculative_draft_token_ids p) 0 (max_speculative_token_count c) in
    reject_if dirty InvalidArgument.

(** The MTP resolution of one lane; counts the lanes that resolve. *)
Definition validate_resolution {S} (p : WorkControlPacket) (c : WorkControlConfig) (lane : WorkControlLane)
    (mtp_resolution_lane_count : Z) : WC S Z :=
  if mtp_resolution_proposed_token_count lane =? 0 then
    do! reject_if (negb (mtp_resolution_accepted_token_count lane =? 0)
      || negb (mtp_resolution_path_id lane =? mtp_tree.RESOLUTION_NONE)) InvalidArgument in
    ret mtp_resolution_lane_count
  else
    do! reject_if (negb (has_flag (p_flags p) FLAG_MTP_RESOLVE)
      || (c_mtp_draft_token_count c <? mtp_resolution_proposed_token_count lane)
      || negb (mtp_tree.resolution_is_valid (mtp_resolution_proposed_token_count lane)
                 (mtp_resolution_accepted_token_count lane) (mtp_resolution_path_id lane))
      || (l_sequence_position lane <? mtp_resolution_accepted_token_count lane + 1)) InvalidArgument in
    ret (mtp_resolution_lane_count +u32 1).

(** The draft tokens of one lane. *)
Definition validate_lane_drafts {S} (p : WorkControlPacket) (c : WorkControlConfig) (lane : WorkControlLane) : WC S unit :=
  if speculative_verify p then
    do! reject_if (negb (l_mtp_draft_token_count lane =? p_mtp_draft_token_count p)
      || negb (l_speculative_token_count lane =? p_speculative_token_count p)) InvalidArgument in
    do! tokens_in_vocab c (l_speculative_draft_token_ids lane) (l_speculative_token_count lane) in
    let! dirty := any_nonzero (l_speculative_draft_token_ids lane) (l_speculative_token_count lane)
      (max_speculative_token_count c) in
    reject_if dirty InvalidArgument
  else
    do! reject_if (negb (l_speculative_token_count lane =? 0)
      || negb (l_mtp_draft_token_count lane =? p_mtp_draft_token_count p)) InvalidArgument in
    let! dirty := any_nonzero (l_speculative_draft_token_ids lane) 0 (max_speculative_token_count c) in
    reject_if dirty InvalidArgument.

Definition validate_lane {S} (p : WorkControlPacket) (c : WorkControlConfig) (il : nat * WorkControlLane)
    (mtp_resolution_lane_count : Z) : WC S Z :=
  let '(lane_index, lane) := il in
  do! reject_if ((l_request_id lane =? 0) || (l_sequence_id lane =? 0)
    || (request_slot_index lane =? INVALID_REQUEST_SLOT) || (context_token_count lane =? 0)
    || (context_token_count lane <? (l_sequence_position lane +u64 written_position_count p))
    || (kv_block_table_token_count p <? context_token_count lane)
    || (max_blocks_per_sequence p <? block_count (context_token_count lane) (block_token_count p))
    || (output_vocab_count c <=? l_input_token_id lane)) InvalidArgument in
  do! (if prefill_flag p then
    let! bad :=
      (if negb (l_mtp_draft_token_count lane =? 0) || negb (l_speculative_token_count lane =? 0)
          || negb (context_token_count lane =? (l_sequence_position lane +u64 new_token_count p))
       then ret true
       else
         let! last := index (prefill_token_ids p)
           (((Z.of_nat lane_index *u64 rows_per_lane p) +u64 rows_per_lane p) -u64 1) in
         ret (negb (l_input_token_id lane =? last))) in
    reject_if bad InvalidArgument
  else ret tt) in
  let! n := validate_resolution p c lane mtp_resolution_lane_count in
  do! validate_lane_drafts p c lane in
  ret n.

Definition validate_work {S} (p : WorkControlPacket) (c : WorkControlConfig) (max_active max_pipeline_slot_count : Z)
    : WC S unit :=
  do! validate_counts p c max_active max_pipeline_slot_count in
  do! validate_tokens p c in
  let! active := slice (lanes p) 0 (lane_count p) in
  let! mtp_resolution_lane_count := for_fold (imap pair active) (validate_lane p c) 0 in
  do! reject_if (negb (Bool.eqb (has_flag (p_flags p) FLAG_MTP_RESOLVE) (negb (mtp_resolution_lane_count =? 0))))
    InvalidArgument in
  let! first := index (lanes p) 0 in
  let! bad :=
    (if negb (p_request_id p =? l_request_id first) || negb (p_sequence_id p =? l_sequence_id first)
        || negb (p_sequence_position p =? l_sequence_position first)
        || negb (p_input_token_id p =? l_input_token_id first)
     then ret true
     else if speculative_verify p then
       let! mine := slice (p_speculative_draft_token_ids p) 0 (max_speculative_token_count c) in
       let! theirs := slice (l_speculative_draft_token_ids first) 0 (max_speculative_token_count c) in
       ret (negb (bool_decide (mine = theirs)))
     else ret false) in
  reject_if bad InvalidArgument.

Definition validate_packet {S} (p : WorkControlPacket) (c : WorkControlConfig) (max_active max_pipeline_slot_count : Z)
    : WC S unit :=
  do! reject_if (negb (p_magic p =? PACKET_MAGIC) || negb (p_abi_version p =? WORK_ABI_VERSION)) AbiMismatch in
  do! reject_if (negb (Z.land (p_flags p) (u32_not KNOWN_FLAGS) =? 0) || (p_request_id p =? 0)
    || (p_sequence_id p =? 0) || (p_control_generation p =? 0)) InvalidArgument in
  do! validate_transaction_fields p c in
  if has_flag (p_flags p) FLAG_RELEASE_SEQUENCES then validate_release p c max_pipeline_slot_count
  else validate_work p c max_active max_pipeline_slot_count.
