(* ===== verification/WorkControlProps.v ===== *)
(** * The work control plane: transaction identities

    Finalizing a packet always succeeds on a well-shaped packet whose lanes carry
    requests, the identity it stamps is valid and passes the receiver's checks, and it
    is a function of the packet's content: finalizing again changes nothing. *)

From S2P Require Import Prelude Bytes WorkTransaction Wire WireProps WorkControl.

(** ** Words *)

Lemma pow2_64 : U64_MAX + 1 = 2 ^ 64.
Proof. reflexivity. Qed.

Lemma word64_pow x : word64 x <-> 0 <= x < 2 ^ 64.
Proof. unfold word64. pose proof pow2_64. lia. Qed.

(** Bitwise operations stay within 64 bits. *)
Lemma bits_bound (x : Z) : 0 <= x -> (forall i, 64 <= i -> Z.testbit x i = false) -> word64 x.
Proof.
  intros Hx Hb. apply word64_pow. split; [done|]. destruct (decide (x = 0)) as [->|]; [done|].
  apply Z.log2_lt_pow2; [lia|]. apply Z.nle_gt. intros Hle. specialize (Hb (Z.log2 x) Hle).
  rewrite Z.bit_log2 in Hb by lia. done.
Qed.

Lemma high_bits x i : word64 x -> 64 <= i -> Z.testbit x i = false.
Proof.
  rewrite word64_pow. intros Hx Hi. destruct (decide (x = 0)) as [->|]; [apply Z.bits_0|].
  apply Z.bits_above_log2; [lia|]. apply Z.lt_le_trans with 64; [apply Z.log2_lt_pow2; lia|done].
Qed.

Lemma word64_lxor x y : word64 x -> word64 y -> word64 (Z.lxor x y).
Proof.
  intros Hx Hy. apply bits_bound; [apply Z.lxor_nonneg; unfold word64 in *; lia|].
  intros i Hi. rewrite Z.lxor_spec, (high_bits x), (high_bits y) by done. done.
Qed.

Lemma word64_lor x y : word64 x -> word64 y -> word64 (Z.lor x y).
Proof.
  intros Hx Hy. apply bits_bound; [apply Z.lor_nonneg; unfold word64 in *; lia|].
  intros i Hi. rewrite Z.lor_spec, (high_bits x), (high_bits y) by done. done.
Qed.

Lemma word64_u64 x : word64 (u64 x).
Proof. apply u64_range. Qed.

Lemma word64_shiftr x n : 0 <= n -> word64 x -> word64 (Z.shiftr x n).
Proof.
  intros Hn Hx. unfold word64 in *. rewrite Z.shiftr_div_pow2 by done.
  assert (0 < 2 ^ n) by (by apply Z.pow_pos_nonneg). split; [apply Z.div_pos; lia|].
  apply Z.le_trans with x; [|lia]. apply Z.div_le_upper_bound; nia.
Qed.

Lemma word64_rotate x n : 0 <= n <= 64 -> word64 x -> word64 (rotate_left64 x n).
Proof. intros. apply word64_lor; [apply word64_u64|]. apply word64_shiftr; [lia|done]. Qed.

Lemma word64_nonzero_word x : word64 x -> word64 (nonzero_identity_word x 1) /\ nonzero_identity_word x 1 <> 0.
Proof.
  intros Hx. unfold nonzero_identity_word. destruct (Z.eqb_spec x 0); [|done]. unfold word64. lia.
Qed.

(** FNV-1a of a nonempty buffer is a nonzero word. *)
Lemma fingerprint_word data : data <> [] -> word64 (fingerprint_bytes data) /\ fingerprint_bytes data <> 0.
Proof.
  destruct data as [|b data]; [done|]. intros _. unfold fingerprint_bytes.
  assert (forall l h, word64 h -> word64 (foldl (fun hash b => Z.lxor hash b *u64 FINGERPRINT_PRIME) h l)) as Hf.
  { induction l as [|x l IH]; intros h Hh; [done|]. apply IH. apply word64_u64. }
  specialize (Hf (b :: data) FINGERPRINT_OFFSET ltac:(unfold word64, FINGERPRINT_OFFSET; lia)).
  destruct (Z.eqb_spec (foldl (fun hash b => Z.lxor hash b *u64 FINGERPRINT_PRIME) FINGERPRINT_OFFSET (b :: data)) 0);
    [|done]. unfold word64. lia.
Qed.

(** Only [vm_compute] evaluates a fingerprint. *)
Opaque fingerprint_bytes rotate_left64.

(** ** The packet that is hashed *)

Definition set_steps (g : Z) (ls : list WorkControlLane) : list WorkControlLane :=
  (fun l => l <| l_step_generation := g |>) <$> ls.

(** [p] with its identity words cleared and its place in the step set. *)
Definition unstamped (p : WorkControlPacket) (control_generation chunk_index chunk_count : Z) : WorkControlPacket :=
  let p := p <| lanes := set_steps 0 (lanes p) |> <| p_control_generation := control_generation |>
    <| p_transaction_id := 0 |> <| p_dispatch_generation := 0 |>
    <| p_request_generation := default 0 (l_request_generation <$> head (lanes p)) |>
    <| p_step_generation := 0 |> <| p_step_chunk_index := chunk_index |> <| p_step_chunk_count := chunk_count |> in
  p <| p_transaction_phase := packet_phase p |> <| p_reserved_transaction := 0 |>.

(** [p] with the identity words derived from a hash. *)
Definition stamped (p : WorkControlPacket) (hash : Z) : WorkControlPacket :=
  let step := nonzero_identity_word (Z.lxor (rotate_left64 hash 17) 0xD1B54A32D192ED03) 1 in
  p <| p_transaction_id := hash |>
    <| p_dispatch_generation := nonzero_identity_word (Z.lxor hash 0x9E3779B97F4A7C15) 1 |>
    <| p_step_generation := step |> <| lanes := set_steps step (lanes p) |>.

(** The content hash of a packet. *)
Definition content_hash (c : WorkControlConfig) (p : WorkControlPacket) : Z :=
  fingerprint_bytes (pad8 8 (packet_header p) ++ concat (lane_wire c <$> lanes p)).

(** A packet as the builders hand it to [finalize_transaction]. *)
Record finalizable (c : WorkControlConfig) (p : WorkControlPacket) : Prop := {
  fin_config : config_ok c;
  fin_words : packet_words c p;
  fin_lanes : 0 < lane_count p <= max_lane_count c;
  fin_size : p_descriptor_bytes p = calculate_packet_bytes c (lane_count p) /\ p_descriptor_bytes p <> 0;
  fin_requests : Forall (fun l => l_request_generation l <> 0) (lanes p);
}.

Lemma slice_all {S E A} (l : list A) n (s : S) :
  Z.of_nat (length l) = n -> slice (E := E) l 0 n s = Ret l s.
Proof.
  intros <-. unfold slice. destruct (Z.leb_spec 0 (Z.of_nat (length l))); [|lia]. rewrite Z.leb_refl. cbn [andb].
  rewrite Z.sub_0_r, Nat2Z.id, firstn_all. done.
Qed.

Lemma stamp_step_all g p : Z.of_nat (length (lanes p)) = lane_count p -> stamp_step g p = p <| lanes := set_steps g (lanes p) |>.
Proof. intros H. unfold stamp_step. rewrite <-H, Nat2Z.id, firstn_all, skipn_all, app_nil_r. done. Qed.

(** Clearing the step stamps of lanes that all carry requests. *)
Lemma clear_steps_spec p n :
  Forall (fun l => l_request_generation l <> 0) (lanes p) -> 0 <= n <= Z.of_nat (length (lanes p)) ->
  wp (for_fold (range 0 n) (fun lane_index _ => clear_step lane_index) tt)
    (fun _ p' => p' = p <| lanes := set_steps 0 (take (Z.to_nat n) (lanes p)) ++ drop (Z.to_nat n) (lanes p) |>)
    (fun _ _ => False) p.
Proof.
  intros Hreq Hn. eapply wp_mono.
  - apply (wp_for_fold (fun pre _ p' => p' = p <| lanes := set_steps 0 (take (length pre) (lanes p)) ++ drop (length pre) (lanes p) |>)).
    { by destruct p. }
    intros pre i post b p' Hsplit ->. apply range_split in Hsplit as [-> Hi].
    destruct (lookup_Some_range (lanes p) i) as [l Hl]; [lia|].
    unfold clear_step. wp_steps. rewrite length_range, Z.sub_0_r.
    set (ls := set_steps 0 (take (Z.to_nat i) (lanes p)) ++ drop (Z.to_nat i) (lanes p)).
    assert (length (set_steps 0 (take (Z.to_nat i) (lanes p))) = Z.to_nat i) as Hlen.
    { unfold set_steps. rewrite length_fmap, length_take. lia. }
    assert (ls !! Z.to_nat i = Some l) as Hls.
    { unfold ls. rewrite lookup_app_r by lia. rewrite lookup_drop, Hlen. rewrite <-Hl. f_equal. lia. }
    eapply wp_index; [exact Hls|]. rewrite (proj2 (Z.eqb_neq _ 0)) by (by apply (Forall_lookup_1 _ _ _ _ Hreq Hl)).
    wp_steps.
    enough (upd_nth i (fun l => l <| l_step_generation := 0 |>) ls =
      set_steps 0 (take (length (range 0 i ++ [i])) (lanes p)) ++ drop (length (range 0 i ++ [i])) (lanes p)) as Heq
      by (rewrite <-Heq; reflexivity).
    unfold ls, upd_nth. rewrite (drop_S (lanes p) l (Z.to_nat i)) by done. rewrite alter_app_r_alt by lia. rewrite Hlen, Nat.sub_diag.
    rewrite length_app, length_range. cbn. replace (Z.to_nat (i - 0) + 1)%nat with (Datatypes.S (Z.to_nat i)) by lia.
    rewrite (take_S_r _ _ _ Hl). unfold set_steps. rewrite fmap_app, <-app_assoc. done.
  - intros _ p' ->. rewrite length_range, Z.sub_0_r. done.
  - intros e s' H. exact H.
Qed.

Lemma lane_words_step c g l : word64 g -> lane_words c l -> lane_words c (l <| l_step_generation := g |>).
Proof.
  intros Hg (H64&Hrest). split; [|exact Hrest]. cbn in *. rewrite !Forall_cons in *. intuition.
Qed.

Lemma set_steps_words c g ls : word64 g -> Forall (lane_words c) ls -> Forall (lane_words c) (set_steps g ls).
Proof. intros Hg Hls. unfold set_steps. apply Forall_fmap. eapply Forall_impl; [exact Hls|]. intros l. by apply lane_words_step. Qed.

Lemma packet_phase_valid p : phase_is_valid (packet_phase p) = true /\ word32 (packet_phase p).
Proof.
  unfold packet_phase. destruct (has_flag _ FLAG_RELEASE_SEQUENCES); [done|]. destruct (has_flag _ FLAG_PREFILL); [done|].
  by destruct (has_flag _ _).
Qed.

(** The words of a packet with its identity fields replaced. *)
Lemma packet_words_identity c p g cg t dg rg sg i n ph :
  packet_words c p -> word64 g -> Forall word64 [cg; t; dg; rg; sg] -> Forall word32 [i; n; ph] ->
  packet_words c (p <| lanes := set_steps g (lanes p) |> <| p_control_generation := cg |>
    <| p_transaction_id := t |> <| p_dispatch_generation := dg |> <| p_request_generation := rg |>
    <| p_step_generation := sg |> <| p_step_chunk_index := i |> <| p_step_chunk_count := n |>
    <| p_transaction_phase := ph |> <| p_reserved_transaction := 0 |>).
Proof.
  intros (H32&H64&Hspec&Hpre&Hlen&Hlanes) Hg Hids Hix. unfold packet_words.
  split. { cbn in *. rewrite !Forall_cons in *. intuition. unfold word32. lia. }
  split. { cbn in *. rewrite !Forall_cons in *. intuition. }
  split; [exact Hspec|]. split; [exact Hpre|]. split.
  - cbn. unfold set_steps. by rewrite length_fmap.
  - cbn. by apply set_steps_words.
Qed.

Section finalize.
Context (c : WorkControlConfig) (p : WorkControlPacket) (Hfin : finalizable c p).
Context (cg i n : Z) (Hcg : 0 < cg <= U64_MAX) (Hi : 0 <= i < n) (Hn : n <= U32_MAX).

Lemma fin_count : Z.of_nat (length (lanes p)) = lane_count p.
Proof. apply (fin_words _ _ Hfin). Qed.

Lemma fin_head : exists l, lanes p !! 0%nat = Some l /\ lane_words c l /\ l_request_generation l <> 0.
Proof.
  pose proof fin_count as Hc. destruct (fin_lanes _ _ Hfin) as [Hpos _]. destruct (lanes p) as [|l ls] eqn:E; [cbn in Hc; lia|].
  exists l. split; [done|]. destruct Hfin as [_ (_&_&_&_&_&Hl) _ _ Hr]. rewrite E in Hl, Hr.
  rewrite Forall_cons in Hl, Hr. by destruct Hl, Hr.
Qed.

Lemma unstamped_words : packet_words c (unstamped p cg i n).
Proof.
  destruct fin_head as (l&Hl&(Hlw&_)&_).
  assert (head (lanes p) = Some l) as Hhd by (by destruct (lanes p)).
  unfold unstamped. rewrite Hhd. cbn [default from_option fmap option_fmap option_map].
  pose proof (packet_words_identity c p 0 cg 0 0 (l_request_generation l) 0 i n) as Hw. apply Hw.
  - apply (fin_words _ _ Hfin).
  - unfold word64. lia.
  - rewrite !Forall_cons in *. unfold word64 in *. intuition lia.
  - rewrite !Forall_cons. split; [unfold word32; lia|]. split; [unfold word32; lia|]. split; [apply packet_phase_valid|done].
Qed.

Lemma content_hash_word q : word64 (content_hash c q) /\ content_hash c q <> 0.
Proof.
  apply fingerprint_word. intros H. apply (f_equal length) in H. rewrite length_app in H.
  assert (forall k bs, (length bs <= length (pad8 k bs))%nat) as Hpad.
  { induction k as [|k IH]; intros bs; cbn [pad8]; [lia|]. destruct (_ =? 0); [lia|].
    specialize (IH (bs ++ [0])). rewrite length_app in IH. lia. }
  specialize (Hpad 8%nat (packet_header q)). unfold packet_header in Hpad at 1. rewrite length_app in Hpad.
  rewrite length_to_le_bytes in Hpad. cbn [length] in H. lia.
Qed.

Lemma canonical_content {S E} q (s : S) :
  packet_words c q -> lane_count q = lane_count p -> p_descriptor_bytes q = p_descriptor_bytes p ->
  canonical_bytes (E := E) c q s = Ret (pad8 8 (packet_header q) ++ concat (lane_wire c <$> lanes q)) s.
Proof.
  intros Hq Hlc Hd. destruct Hfin as [Hc _ [Hl _] [Hsz Hnz] _].
  apply canonical_bytes_spec; [done|done|]. rewrite Hlc. rewrite Hsz in Hnz.
  by destruct (packet_bytes_exact c (lane_count p) Hc Hnz ltac:(lia)) as (_&_&_&?).
Qed.

(** What [finalize_transaction] leaves behind. *)
Definition finalized : WorkControlPacket := stamped (unstamped p cg i n) (content_hash c (unstamped p cg i n)).

Lemma wp_eq {S E A} (m : M S E A) a s s' (Q : A -> S -> Prop) R : m s = Ret a s' -> Q a s' -> wp m Q R s.
Proof. unfold wp. by intros ->. Qed.

Lemma set_identity_spec q t dg sg :
  t <> 0 -> dg <> 0 -> sg <> 0 -> lane_count q = lane_count p -> lanes q = set_steps 0 (lanes p) ->
  p_step_chunk_count q = n -> p_step_chunk_index q = i -> phase_is_valid (p_transaction_phase q) = true ->
  p_request_generation q = default 0 (l_request_generation <$> head (lanes p)) -> p_control_generation q = cg ->
  p_reserved_transaction q = 0 ->
  set_transaction_identity c cg t dg sg q = Ret tt (q <| p_transaction_id := t |>
    <| p_dispatch_generation := dg |> <| p_step_generation := sg |> <| lanes := set_steps sg (lanes q) |>).
Proof.
  intros Ht Hdg Hsg Hlc Hlanes Hscc Hsci Hph Hrg Hcgq Hres. pose proof fin_count as Hcount.
  destruct fin_head as (l&Hl&_&_). destruct (fin_lanes _ _ Hfin) as [Hpos Hmax].
  assert (Z.of_nat (length (lanes q)) = lane_count q) as Hqc by (rewrite Hlanes, Hlc; unfold set_steps; by rewrite length_fmap).
  unfold set_transaction_identity, bind, gets, id.
  rewrite (proj2 (Z.eqb_neq cg 0)), (proj2 (Z.eqb_neq t 0)), (proj2 (Z.eqb_neq dg 0)), (proj2 (Z.eqb_neq sg 0)),
    (proj2 (Z.eqb_neq (lane_count q) 0)), (proj2 (Z.ltb_ge (max_lane_count c) (lane_count q))), Hscc, Hsci,
    (proj2 (Z.eqb_neq n 0)), (proj2 (Z.leb_gt n i)), Hph by lia. cbn [orb negb].
  rewrite slice_all by done.
  assert (existsb (fun l => l_request_generation l =? 0) (lanes q) = false) as Hex.
  { apply not_true_iff_false. rewrite List.existsb_exists. intros (x&Hx&H0). apply Z.eqb_eq in H0.
    rewrite Hlanes in Hx. apply list_elem_of_In, list_elem_of_fmap in Hx as (y&->&Hy).
    pose proof (fin_requests _ _ Hfin) as Hr. rewrite Forall_forall in Hr. by apply (Hr y Hy). }
  rewrite Hex. unfold index. assert (lanes q !! Z.to_nat 0 = Some (l <| l_step_generation := 0 |>)) as ->.
  { rewrite Hlanes. unfold set_steps. change (Z.to_nat 0) with 0%nat. by rewrite list_lookup_fmap, Hl. }
  assert (head (lanes p) = Some l) as Hhd by (by destruct (lanes p)). rewrite Hhd in Hrg. cbn in Hrg.
  unfold ret, modify. rewrite stamp_step_all; [|exact Hqc]. f_equal. destruct q. cbn in *. subst. done.
Qed.

Lemma finalize_spec : finalize_transaction c cg i n p = Ret tt finalized.
Proof.
  pose proof fin_count as Hcount. destruct fin_head as (l&Hl&Hlw&Hlr). destruct (fin_lanes _ _ Hfin) as [Hpos Hmax].
  destruct (fin_size _ _ Hfin) as [Hsize _].
  assert (head (lanes p) = Some l) as Hhd by (by destruct (lanes p)).
  destruct (wp_elim (finalize_transaction c cg i n) (fun _ q => q = finalized) (fun _ _ => False) p)
    as [([]&q&Hq&->)|(?&?&_&[])]; [|done].
  unfold finalize_transaction. wp_steps. unfold id.
  rewrite (proj2 (Z.eqb_neq cg 0)), (proj2 (Z.eqb_neq n 0)), (proj2 (Z.leb_gt n i)), (proj2 (Z.eqb_neq (lane_count p) 0)),
    (proj2 (Z.ltb_ge (max_lane_count c) (lane_count p))), (proj2 (Z.eqb_eq _ _) Hsize) by lia. cbn [orb negb].
  apply wp_bind. eapply wp_eq; [by apply slice_all|].
  apply wp_bind. eapply wp_mono; [apply (clear_steps_spec p (lane_count p)); [apply (fin_requests _ _ Hfin)|lia]| |intros ?? H; exact H].
  intros _ q ->. rewrite <-Hcount, Nat2Z.id, firstn_all, skipn_all, app_nil_r.
  wp_steps. apply (wp_index _ _ _ _ _ (l <| l_step_generation := 0 |>)).
  { cbn. unfold set_steps. change (Z.to_nat 0) with 0%nat. by rewrite list_lookup_fmap, Hl. }
  wp_steps.
  match goal with |- context [canonical_bytes c ?q] => assert (q = unstamped p cg i n) as Heq
    by (unfold unstamped; rewrite Hhd; reflexivity); rewrite Heq; clear Heq end.
  assert (phase_is_valid (p_transaction_phase (unstamped p cg i n)) = true) as Hph by apply packet_phase_valid.
  rewrite Hph. cbn [negb]. pose proof unstamped_words as Hw.
  wp_steps. eapply wp_eq; [by apply canonical_content|]. fold (content_hash c (unstamped p cg i n)).
  destruct (content_hash_word (unstamped p cg i n)) as [Hhw Hh0].
  set (h := content_hash c (unstamped p cg i n)) in *. rewrite (proj2 (Z.eqb_neq _ _) Hh0).
  destruct (word64_nonzero_word (Z.lxor h 0x9E3779B97F4A7C15)) as [_ Hd]; [apply word64_lxor; [done|unfold word64; lia]|].
  destruct (word64_nonzero_word (Z.lxor (rotate_left64 h 17) 0xD1B54A32D192ED03)) as [_ Hs].
  { apply word64_lxor; [apply word64_rotate; [lia|done]|unfold word64; lia]. }
  eapply wp_eq; [by apply set_identity_spec|]. done.
Qed.

(** The words of the stamped identity. *)
Lemma stamp_words :
  let h := content_hash c (unstamped p cg i n) in
  word64 h /\ h <> 0 /\
  word64 (p_dispatch_generation finalized) /\ p_dispatch_generation finalized <> 0 /\
  word64 (p_step_generation finalized) /\ p_step_generation finalized <> 0.
Proof.
  cbv zeta. destruct (content_hash_word (unstamped p cg i n)) as [Hh Hnz]. unfold finalized, stamped.
  set (h := content_hash c (unstamped p cg i n)) in *. cbn.
  destruct (word64_nonzero_word (Z.lxor h 0x9E3779B97F4A7C15)) as [? ?]; [apply word64_lxor; [done|unfold word64; lia]|].
  destruct (word64_nonzero_word (Z.lxor (rotate_left64 h 17) 0xD1B54A32D192ED03)) as [? ?]; [|done].
  apply word64_lxor; [apply word64_rotate; [lia|done]|unfold word64; lia].
Qed.

Lemma set_steps_twice g g' ls : set_steps g (set_steps g' ls) = set_steps g ls.
Proof. unfold set_steps. rewrite <-list_fmap_compose. by apply list_fmap_ext. Qed.

Lemma head_steps g ls : l_request_generation <$> head (set_steps g ls) = l_request_generation <$> head ls.
Proof. by destruct ls. Qed.

(** Everything outside the identity words is as it was. *)
Lemma finalized_lanes : lanes finalized = set_steps (p_step_generation finalized) (lanes p).
Proof. unfold finalized, stamped, unstamped. cbn. apply set_steps_twice. Qed.

Lemma unstamped_stamped q h : unstamped (stamped q h) cg i n = unstamped q cg i n.
Proof.
  assert (exists sg, lanes (stamped q h) = set_steps sg (lanes q)) as [sg Hl] by (eexists; reflexivity).
  unfold unstamped. rewrite Hl, set_steps_twice, head_steps. clear Hl. unfold stamped.
  generalize (nonzero_identity_word (Z.lxor h 11400714819323198485) 1) as dg. intros dg.
  generalize (nonzero_identity_word (Z.lxor (rotate_left64 h 17) 15111065706836454659) 1) as g. intros g.
  destruct q. reflexivity.
Qed.

Lemma unstamped_twice q : unstamped (unstamped q cg i n) cg i n = unstamped q cg i n.
Proof.
  assert (lanes (unstamped q cg i n) = set_steps 0 (lanes q)) as Hl by reflexivity.
  unfold unstamped at 1. rewrite Hl, set_steps_twice, head_steps. clear Hl. destruct q. vm_compute. reflexivity.
Qed.

Lemma finalized_unstamped : unstamped finalized cg i n = unstamped p cg i n.
Proof. unfold finalized. rewrite unstamped_stamped. apply unstamped_twice. Qed.

Lemma packet_words_stamped q h :
  packet_words c q -> word64 h -> word64 (p_dispatch_generation (stamped q h)) -> word64 (p_step_generation (stamped q h)) ->
  packet_words c (stamped q h).
Proof.
  unfold stamped. generalize (nonzero_identity_word (Z.lxor h 11400714819323198485) 1) as dg. intros dg.
  generalize (nonzero_identity_word (Z.lxor (rotate_left64 h 17) 15111065706836454659) 1) as g. intros g.
  intros (H32&H64&Hspec&Hpre&Hlen&Hlanes) Hh Hdg Hg. cbn in Hdg, Hg. unfold packet_words. split; [exact H32|]. split.
  { cbn in *. rewrite !Forall_cons in *. intuition. }
  split; [exact Hspec|]. split; [exact Hpre|]. split.
  - cbn. unfold set_steps. by rewrite length_fmap.
  - cbn. by apply set_steps_words.
Qed.

Lemma finalized_finalizable : finalizable c finalized.
Proof.
  pose proof stamp_words as (Hh&Hnz&Hdw&Hdz&Hsw&Hsz). destruct fin_head as (l&Hl&(Hlw&_)&Hlr).
  assert (head (lanes p) = Some l) as Hhd by (by destruct (lanes p)).
  split; try apply Hfin.
  - apply packet_words_stamped; [apply unstamped_words|exact Hh|exact Hdw|exact Hsw].
  - rewrite finalized_lanes. unfold set_steps. apply Forall_fmap. apply (fin_requests _ _ Hfin).
Qed.

(** The receiver's checks on the identity of a finalized packet. *)
Lemma finalized_identity : validate_identity (packet_identity finalized) = true.
Proof.
  pose proof stamp_words as (Hh&Hnz&Hdw&Hdz&Hsw&Hsz). destruct fin_head as (l&Hl&_&Hlr).
  assert (head (lanes p) = Some l) as Hhd by (by destruct (lanes p)).
  unfold validate_identity, packet_identity. cbn [control_generation transaction_id dispatch_generation request_generation
    step_generation step_chunk_index step_chunk_count transaction_phase].
  rewrite (proj2 (Z.eqb_neq _ _) Hdz), (proj2 (Z.eqb_neq _ _) Hsz).
  assert (p_transaction_id finalized <> 0) as Ht by exact Hnz. rewrite (proj2 (Z.eqb_neq _ _) Ht).
  assert (p_control_generation finalized <> 0) as Hc by (change (cg <> 0); lia). rewrite (proj2 (Z.eqb_neq _ _) Hc).
  assert (p_request_generation finalized = l_request_generation l) as Hrg
    by (unfold finalized, stamped, unstamped; rewrite Hhd; reflexivity).
  rewrite Hrg, (proj2 (Z.eqb_neq _ _) Hlr).
  change (p_step_chunk_count finalized) with n. change (p_step_chunk_index finalized) with i.
  rewrite (proj2 (Z.eqb_neq n 0)), (proj2 (Z.leb_gt n i)) by lia.
  change (p_transaction_phase finalized) with (packet_phase (unstamped p cg i n)).
  rewrite (proj1 (packet_phase_valid (unstamped p cg i n))). done.
Qed.

(** The words the stamp does not touch, and the phase. *)
Lemma finalized_words :
  lane_count finalized = lane_count p /\ p_descriptor_bytes finalized = p_descriptor_bytes p /\
  p_reserved_transaction finalized = 0 /\ packet_phase finalized = packet_phase p /\
  p_transaction_phase finalized = packet_phase p.
Proof.
  unfold finalized, stamped. generalize (content_hash c (unstamped p cg i n)) as h. intros h.
  generalize (nonzero_identity_word (Z.lxor h 11400714819323198485) 1) as dg. intros dg.
  generalize (nonzero_identity_word (Z.lxor (rotate_left64 h 17) 15111065706836454659) 1) as g. intros g.
  by split_and!.
Qed.

Lemma finalized_fields {S} (s : S) : validate_transaction_fields finalized c s = Ret tt s.
Proof.
  destruct fin_head as (l&Hl&_&Hlr). pose proof fin_count as Hcount.
  assert (head (lanes p) = Some l) as Hhd by (by destruct (lanes p)).
  pose proof (fin_lanes _ _ Hfin) as [Hpos Hmax]. pose proof (fin_size _ _ Hfin) as [Hsize _].
  assert (p_request_generation finalized = l_request_generation l) as Hrg
    by (unfold finalized, stamped, unstamped; rewrite Hhd; reflexivity).
  destruct finalized_words as (W1&W2&W3&W4&W5).
  unfold validate_transaction_fields. rewrite W1, W2, W3, Hrg, (proj2 (Z.eqb_neq _ _) Hlr), (proj2 (Z.eqb_neq (lane_count p) 0)),
    (proj2 (Z.ltb_ge (max_lane_count c) (lane_count p))), (proj2 (Z.eqb_eq _ _) Hsize) by lia.
  cbn [orb negb Z.eqb]. unfold get_transaction_identity, bind at 1. rewrite finalized_identity. cbv zeta. unfold ret at 1.
  rewrite W4, W5, Z.eqb_refl. cbn [negb].
  assert (lanes finalized !! Z.to_nat 0 = Some (l <| l_step_generation := p_step_generation finalized |>)) as Hfirst.
  { rewrite finalized_lanes. unfold set_steps. change (Z.to_nat 0) with 0%nat. by rewrite list_lookup_fmap, Hl. }
  unfold bind at 1, bind at 1, index. rewrite Hfirst. unfold ret at 1, ret at 1. cbn [l_request_generation].
  change (l_request_generation (l <| l_step_generation := p_step_generation finalized |>)) with (l_request_generation l).
  rewrite Z.eqb_refl. cbn [negb]. unfold bind at 1.
  rewrite slice_all by (rewrite finalized_lanes; unfold set_steps; by rewrite length_fmap).
  assert (existsb (fun l => (l_request_generation l =? 0) || negb (l_step_generation l =? p_step_generation finalized))
    (lanes finalized) = false) as ->; [|done].
  apply not_true_iff_false. rewrite List.existsb_exists. intros (x&Hx&H0).
  rewrite finalized_lanes in Hx. apply list_elem_of_In, list_elem_of_fmap in Hx as (y&->&Hy).
  pose proof (fin_requests _ _ Hfin) as Hr. rewrite Forall_forall in Hr. specialize (Hr y Hy).
  rewrite orb_true_iff, negb_true_iff, Z.eqb_eq, Z.eqb_neq in H0. by destruct H0.
Qed.

End finalize.

(** C30. Transaction identities are content addressed.  On every well-shaped packet
    whose lanes carry requests [finalize_transaction] returns [Ok]; it changes only the
    identity words; the identity it stamps is valid, and the receiver's
    [validate_transaction_fields] accepts it; and it is a function of the content, so
    finalizing the finished packet again, as a retry would, reproduces it exactly. *)
Theorem finalize_content_addressed c p cg i n :
  finalizable c p -> 0 < cg <= U64_MAX -> 0 <= i < n -> n <= U32_MAX ->
  exists p', finalize_transaction c cg i n p = Ret tt p' /\
    get_transaction_identity p' tt = Ret (packet_identity p') tt /\
    validate_transaction_fields p' c tt = Ret tt tt /\
    finalizable c p' /\
    p_transaction_id p' = content_hash c (unstamped p cg i n) /\
    unstamped p' cg i n = unstamped p cg i n /\
    finalize_transaction c cg i n p' = Ret tt p'.
Proof.
  intros Hfin Hcg Hi Hn. exists (finalized c p cg i n). pose proof (finalized_unstamped c p cg i n) as Hun.
  pose proof (finalized_finalizable c p Hfin cg i n Hcg Hi Hn) as Hfin'.
  split; [by apply finalize_spec|]. split.
  { unfold get_transaction_identity. by rewrite finalized_identity. }
  split; [by apply finalized_fields|]. split; [done|]. split; [done|]. split; [done|].
  rewrite finalize_spec by done. f_equal. unfold finalized at 1. by rewrite Hun.
Qed.

(** ** A concrete packet *)

Definition tiny_config : WorkControlConfig := mkWorkConfig 1 1 64 4 8 100 16 4 3.

Definition tiny_packet : WorkControlPacket :=
  (set_lane_count tiny_config 1 (zeroed tiny_config)) <| p_flags := FLAG_PREFILL |>
    <| p_descriptor_bytes := calculate_packet_bytes tiny_config 1 |>
    <| lanes := [(zeroed_lane tiny_config) <| l_request_generation := 7 |>] |>.

Lemma tiny_packet_ok : finalizable tiny_config tiny_packet.
Proof.
  split.
  - unfold config_ok, word32, max_speculative_token_count. cbn [tiny_config c_mtp_draft_token_count
      dspark_max_speculative_token_count max_active_sequence_count]. lia.
  - unfold packet_words. repeat split; repeat constructor; vm_compute; first [reflexivity|intros [=]].
  - vm_compute. split; [reflexivity|intros [=]].
  - vm_compute. split; [reflexivity|intros [=]].
  - repeat constructor. vm_compute. intros [=].
Defined.

Lemma finalize_content_addressed_witness :
  lane_count tiny_packet = 1 /\
  exists p', finalize_transaction tiny_config 9 0 1 tiny_packet = Ret tt p' /\
    get_transaction_identity p' tt = Ret (packet_identity p') tt /\
    validate_transaction_fields p' tiny_config tt = Ret tt tt /\
    finalizable tiny_config p' /\
    p_transaction_id p' = content_hash tiny_config (unstamped tiny_packet 9 0 1) /\
    unstamped p' 9 0 1 = unstamped tiny_packet 9 0 1 /\
    finalize_transaction tiny_config 9 0 1 p' = Ret tt p'.
Proof.
  split; [reflexivity|].
  apply (finalize_content_addressed tiny_config tiny_packet 9 0 1).
  - exact tiny_packet_ok.
  - lia.
  - lia.
  - lia.
Defined.
