(* ===== verification/PrefillPackets.v ===== *)
(** * Prefill packets: from chunk selection to the receiver

    The prefill path of the work control plane, end to end: the chunk
    [select_prefill_chunk] picks is always one that [build_prefill_packet] accepts, the
    packet holds exactly the next tokens of every lane that still has prompt left, and
    [validate_packet] accepts it on the receiving side. *)

From S2P Require Import Prelude Bytes WorkTransaction Wire WireProps WorkControl WorkControlProps.

(** ** What a chunk carries *)

(** The first [k] lanes with prompt left at [off], with their indices. *)
Definition live (d : PromptPipelinePrefillDispatch) (off : Z) (k : nat) : list (Z * PrefillDispatchLaneView) :=
  filter (fun il => off < pl_prompt_token_count (snd il))
    (imap (fun i l => (Z.of_nat i, l)) (take k (pv_lanes (prefill_view d)))).

(** The [n] tokens of lane [i] from [off] on. *)
Definition chunk_tokens (d : PromptPipelinePrefillDispatch) (off n i : Z) : list Z :=
  take (Z.to_nat n) (drop (Z.to_nat (i * host_token_stride d + off)) (host_token_ids d)).

Definition sent_tokens (d : PromptPipelinePrefillDispatch) (off n : Z) (ils : list (Z * PrefillDispatchLaneView))
    : list Z := concat ((fun il => chunk_tokens d off n (fst il)) <$> ils).

(** The lane a source lane becomes. *)
Definition sent_lane (c : WorkControlConfig) (d : PromptPipelinePrefillDispatch) (off n : Z)
    (il : Z * PrefillDispatchLaneView) : WorkControlLane :=
  let '(i, l) := il in
  (zeroed_lane c) <| l_request_id := pl_request_id l |> <| l_request_generation := pl_request_handle l |>
    <| l_sequence_id := pl_sequence_id l |> <| l_sequence_position := pl_prompt_token_offset l + off |>
    <| request_slot_index := pl_request_slot_index l |>
    <| context_token_count := pl_prompt_token_offset l + off + n |>
    <| l_input_token_id := List.last (chunk_tokens d off n i) 0 |>.

(** The longest context among the lanes. *)
Definition table_count (off n : Z) (ils : list (Z * PrefillDispatchLaneView)) : Z :=
  foldr (fun il acc => Z.max (pl_prompt_token_offset (snd il) + off + n) acc) 0 ils.

(** ** Dispatches the serving side hands over *)

Record prefill_lane_ok (c : WorkControlConfig) (d : PromptPipelinePrefillDispatch) (l : PrefillDispatchLaneView)
    : Prop := {
  plo_request : 0 < pl_request_id l <= U64_MAX;
  plo_sequence : 0 < pl_sequence_id l <= U64_MAX;
  plo_handle : 0 < pl_request_handle l <= U64_MAX;
  plo_slot : 0 <= pl_request_slot_index l < INVALID_REQUEST_SLOT;
  plo_offset : 0 <= pl_prompt_token_offset l;
  plo_count : 0 <= pl_prompt_token_count l <= host_token_stride d;
  plo_context : pl_prompt_token_offset l + pl_prompt_token_count l <= maximum_context_tokens c;
  plo_prompt : pl_prompt_token_count l <= pd_prompt_token_count d;
}.

(** The configuration of a node: it validates, its fields are words and a full packet
    fits a descriptor. *)
Record node_config (c : WorkControlConfig) : Prop := {
  nc_ok : config_ok c;
  nc_valid : validate_config c = true;
  nc_words : Forall word32 [maximum_context_tokens c; kv_block_tokens c; max_prefill_tokens_per_packet c;
    output_vocab_count c; max_lane_count c];
  nc_lanes : max_active_sequence_count c <= max_lane_count c;
  nc_bucket : max_active_sequence_count c <= 1024;
  nc_spec : max_speculative_token_count c < U32_MAX;
  nc_fits : packet_prefix_bytes c + max_active_sequence_count c * lane_bytes c <= U32_MAX;
}.

Record prefill_dispatch_ok (c : WorkControlConfig) (d : PromptPipelinePrefillDispatch) : Prop := {
  pdo_count : 0 < pd_lane_count d <= max_active_sequence_count c;
  pdo_active : pd_lane_count d = pd_active_sequence_count d;
  pdo_lanes : pd_lane_count d = pv_lane_count (prefill_view d) /\ pd_lane_count d = Z.of_nat (length (pv_lanes (prefill_view d)));
  pdo_view : exists v, pd_kv_block_table_view d = Some v /\ tv_lane_count v = pd_lane_count d;
  pdo_stride : 0 < host_token_stride d <= U32_MAX;
  pdo_tokens : pd_lane_count d * host_token_stride d <= Z.of_nat (length (host_token_ids d)) <= ISIZE_MAX;
  pdo_vocab : Forall (fun t => 0 <= t < output_vocab_count c) (host_token_ids d);
  pdo_lane : Forall (prefill_lane_ok c d) (pv_lanes (prefill_view d));
  pdo_prompt : 0 <= pd_prompt_token_count d <= U32_MAX;
  pdo_bucket : exists b, dispatch_bucket (pd_request_dispatch d) = Some b /\ batch_bucket_is_supported b = true;
  pdo_priority : word32 (highest_priority (pd_request_dispatch d));
}.

(** ** Lanes with prompt left *)

Section chunk.
Context (c : WorkControlConfig) (d : PromptPipelinePrefillDispatch).
Context (Hc : node_config c) (Hd : prefill_dispatch_ok c d).
Implicit Types (off n : Z).

Lemma live_0 off : live d off 0 = [].
Proof. done. Qed.

Lemma live_S off k l : pv_lanes (prefill_view d) !! k = Some l ->
  live d off (S k) = live d off k ++ (if off <? pl_prompt_token_count l then [(Z.of_nat k, l)] else []).
Proof.
  intros Hl. unfold live. rewrite (take_S_r _ _ _ Hl), imap_app, filter_app. f_equal.
  rewrite length_take_le by (apply lookup_lt_Some in Hl; lia). cbn [imap]. rewrite filter_cons. cbn [snd compose].
  rewrite Nat.add_0_r. destruct (Z.ltb_spec off (pl_prompt_token_count l)), (decide (off < pl_prompt_token_count l)); done || lia.
Qed.

Lemma live_elem off k i l : (i, l) ∈ live d off k ->
  0 <= i < pd_lane_count d /\ (Z.to_nat i < k)%nat /\ pv_lanes (prefill_view d) !! Z.to_nat i = Some l /\
  off < pl_prompt_token_count l /\ prefill_lane_ok c d l.
Proof.
  unfold live. rewrite list_elem_of_filter. cbn [snd]. intros [Hoff Hin].
  apply list_elem_of_lookup in Hin as [j Hj]. rewrite list_lookup_imap in Hj. apply fmap_Some in Hj as (l'&Hl'&[= -> ->]).
  apply lookup_take_Some in Hl' as [Hl' Hlt]. pose proof (lookup_lt_Some _ _ _ Hl'). pose proof (pdo_lanes _ _ Hd).
  rewrite Nat2Z.id. pose proof (Forall_lookup_1 _ _ _ _ (pdo_lane _ _ Hd) Hl'). repeat (split; [lia || done|]). done.
Qed.

Lemma live_length off k : (length (live d off k) <= k)%nat.
Proof.
  unfold live. etransitivity; [apply length_filter|]. rewrite length_imap, length_take. lia.
Qed.

Lemma lane_at i : 0 <= i < pd_lane_count d -> exists l, pv_lanes (prefill_view d) !! Z.to_nat i = Some l /\ prefill_lane_ok c d l.
Proof.
  intros Hi. destruct (lookup_Some_range (pv_lanes (prefill_view d)) i) as [l Hl]; [pose proof (pdo_lanes _ _ Hd); lia|].
  exists l. split; [done|]. apply (Forall_lookup_1 _ _ _ _ (pdo_lane _ _ Hd) Hl).
Qed.

Lemma wp_get {S A} (l : list A) i x e Q R (s : S) :
  l !! Z.to_nat i = Some x -> Q x s -> wp (E := WorkControlError) (some_or e (get l i)) Q R s.
Proof. intros Hl HQ. unfold some_or, get. rewrite Hl. by apply wp_ret. Qed.

Lemma live_count_bound off k : (k <= Z.to_nat (pd_lane_count d))%nat -> Z.of_nat (length (live d off k)) <= max_active_sequence_count c.
Proof. intros. pose proof (live_length off k). pose proof (pdo_count _ _ Hd). lia. Qed.

Lemma node_words : word32 (max_active_sequence_count c) /\ word32 (max_lane_count c) /\ word32 (max_prefill_tokens_per_packet c) /\
  word32 (maximum_context_tokens c) /\ word32 (kv_block_tokens c) /\ word32 (output_vocab_count c) /\ word32 (max_speculative_token_count c).
Proof.
  pose proof (nc_words _ Hc) as H. rewrite !Forall_cons in H. pose proof (nc_ok _ Hc) as (H1&H2&H3&_).
  unfold max_speculative_token_count. unfold word32 in *. intuition lia.
Qed.

(** The lanes still being prefilled at [off]. *)
Definition lanes_left off : list (Z * PrefillDispatchLaneView) := live d off (Z.to_nat (pd_lane_count d)).

(** A chunk of [n] tokens at [off] that fits [rows] execution rows and crosses the end of no lane. *)
Record chunk_ok off n rows : Prop := {
  co_offset : 0 <= off;
  co_positive : 0 < n <= max_prefill_tokens_per_packet c;
  co_prompt : off + n <= pd_prompt_token_count d;
  co_some : lanes_left off <> [];
  co_lanes i l : (i, l) ∈ lanes_left off -> off + n <= pl_prompt_token_count l;
  co_rows : Z.of_nat (length (lanes_left off)) * n <= rows;
}.

Lemma scan_lanes_spec {S} off (s : S) :
  0 <= off ->
  wp (for_fold (range 0 (pd_lane_count d)) (scan_lane d off) (0, U32_MAX))
    (fun acc s' => s' = s /\ fst acc = Z.of_nat (length (lanes_left off)) /\ 0 < snd acc <= U32_MAX /\
       forall i l, (i, l) ∈ lanes_left off -> off + snd acc <= pl_prompt_token_count l)
    (fun _ _ => False) s.
Proof.
  intros Hoff. eapply wp_mono.
  - apply (wp_for_fold (fun pre acc s' => s' = s /\ fst acc = Z.of_nat (length (live d off (length pre))) /\ 0 < snd acc <= U32_MAX /\
       forall i l, (i, l) ∈ live d off (length pre) -> off + snd acc <= pl_prompt_token_count l)).
    { cbn [length]. rewrite live_0. split; [done|]. split; [done|]. split; [cbn; lia|]. intros i l Hil. by apply not_elem_of_nil in Hil. }
    intros pre i post [a r] s' Hsplit (->&Ha&Hr&Hmin). apply range_split in Hsplit as [-> Hi]. cbn [fst snd] in *.
    destruct (lane_at i Hi) as (l&Hl&Hlo). rewrite length_range, Z.sub_0_r in *.
    unfold scan_lane. apply wp_bind. eapply wp_get; [exact Hl|].
    rewrite length_app, length_range. cbn [length]. replace (Z.to_nat (i - 0) + 1)%nat with (Datatypes.S (Z.to_nat i)) by lia.
    rewrite (live_S off _ l Hl). pose proof (plo_count _ _ _ Hlo). pose proof (pdo_stride _ _ Hd).
    pose proof (live_count_bound off (Z.to_nat i) ltac:(lia)). pose proof (nc_bucket _ Hc).
    destruct (Z.leb_spec (pl_prompt_token_count l) off) as [Hle|Hlt].
    + rewrite (proj2 (Z.ltb_ge off (pl_prompt_token_count l))) by done. rewrite app_nil_r. by apply wp_ret.
    + rewrite (proj2 (Z.ltb_lt off (pl_prompt_token_count l))) by done. apply wp_ret. split; [done|].
      cbn [fst snd]. rewrite length_app. cbn [length]. rewrite !u32_small by lia.
      split; [lia|]. split; [lia|]. intros j m. rewrite elem_of_app, list_elem_of_singleton. intros [Hjm|[= -> ->]]; [|lia].
      specialize (Hmin j m Hjm). lia.
  - intros acc s'. unfold lanes_left. rewrite length_range, Z.sub_0_r. done.
  - intros ?? H. exact H.
Qed.

(** [select_prefill_chunk] only returns chunks that fit. *)
Lemma select_prefill_chunk_sound {S} off rows n (s : S) s' :
  0 <= off -> 0 <= rows -> select_prefill_chunk c d off rows s = Ret n s' -> s' = s /\ chunk_ok off n rows.
Proof.
  intros Hoff Hrows Hsel. pose proof node_words as (Hw1&_&Hw2&_). pose proof (pdo_prompt _ _ Hd).
  refine (wp_ret_inv _ (fun n s' => s' = s /\ chunk_ok off n rows) (fun _ _ => True) s n s' _ Hsel). clear Hsel n s'.
  unfold select_prefill_chunk.
  destruct (Z.leb_spec (pd_prompt_token_count d) off) as [|Hlt]; [rewrite !orb_true_r; by apply wp_throw|].
  match goal with |- wp (if ?b then _ else _) _ _ _ => destruct b; [by apply wp_throw|] end.
  apply wp_bind. eapply wp_mono; [by apply scan_lanes_spec| |done].
  intros [a r] s'' (->&Ha&Hr&Hmin). cbn [fst snd] in *.
  destruct (Z.eqb_spec a 0) as [|Ha0]; [by apply wp_throw|]. destruct (Z.ltb_spec rows a) as [|Har]; [by apply wp_throw|].
  cbn [orb]. cbv zeta. rewrite u32_small by lia. set (n0 := Z.min _ (pd_prompt_token_count d - off)).
  destruct (Z.eqb_spec n0 0) as [|Hn0]; [by apply wp_throw|]. apply wp_ret. split; [done|].
  assert (0 <= rows / a) by (apply Z.div_pos; lia). unfold word32 in *.
  assert (0 < n0 <= rows / a) as Hn by lia. pose proof (Z.mul_div_le rows a ltac:(lia)). split.
  - done.
  - lia.
  - lia.
  - intros Heq. rewrite Heq in Ha. cbn in Ha. lia.
  - intros i l Hil. specialize (Hmin i l Hil). lia.
  - rewrite <-Ha. nia.
Qed.

(** It returns one whenever a lane has prompt left and each gets a row. *)
Lemma select_prefill_chunk_total {S} off rows (s : S) :
  0 <= off < pd_prompt_token_count d -> lanes_left off <> [] -> pd_lane_count d <= rows <= max_active_sequence_count c ->
  exists n, select_prefill_chunk c d off rows s = Ret n s.
Proof.
  intros Hoff Hsome Hrows. pose proof node_words as (Hw1&_&Hw2&_). pose proof (pdo_prompt _ _ Hd). pose proof (pdo_count _ _ Hd).
  assert (0 < max_prefill_tokens_per_packet c) as Hmp.
  { pose proof (nc_valid _ Hc) as Hv. unfold validate_config in Hv. unfold word32 in *.
    destruct (Z.eqb_spec (max_prefill_tokens_per_packet c) 0); [|lia]. rewrite !orb_true_r in Hv. done. }
  destruct (wp_elim (select_prefill_chunk c d off rows) (fun n s' => s' = s) (fun _ _ => False) s) as [(n&?&Hn&->)|(?&?&_&[])]; [|by exists n].
  unfold select_prefill_chunk.
  rewrite (proj2 (Z.eqb_neq (pd_lane_count d) 0)), (proj2 (Z.eqb_eq (pd_lane_count d) (pd_active_sequence_count d)) (pdo_active _ _ Hd)),
    (proj2 (Z.eqb_eq _ _) (proj1 (pdo_lanes _ _ Hd))), (proj2 (Z.leb_gt (pd_prompt_token_count d) off)),
    (proj2 (Z.eqb_neq rows 0)), (proj2 (Z.ltb_ge (max_active_sequence_count c) rows)) by lia. cbn [orb negb].
  apply wp_bind. eapply wp_mono; [by apply scan_lanes_spec; lia| |intros ?? H'; exact H'].
  intros [a r] s'' (->&Ha&Hr&Hmin). cbn [fst snd] in *.
  assert (0 < a) by (rewrite Ha; destruct (lanes_left off); [done|cbn; lia]).
  pose proof (live_length off (Z.to_nat (pd_lane_count d))) as Hlen. fold (lanes_left off) in Hlen.
  rewrite (proj2 (Z.eqb_neq a 0)), (proj2 (Z.ltb_ge rows a)) by lia. cbn [orb]. cbv zeta. rewrite u32_small by lia.
  assert (1 <= rows / a) by (apply Z.div_le_lower_bound; lia).
  destruct (Z.eqb_spec (Z.min (Z.min (Z.min (rows / a) r) (max_prefill_tokens_per_packet c)) (pd_prompt_token_count d - off)) 0); [lia|].
  by apply wp_ret.
Qed.

(** ** Building the packet *)

Lemma check_lanes_spec {S} off n rows (s : S) :
  chunk_ok off n rows ->
  wp (for_fold (range 0 (pd_lane_count d)) (check_lane d off n) 0)
    (fun a s' => s' = s /\ a = Z.of_nat (length (lanes_left off))) (fun _ _ => False) s.
Proof.
  intros Hco. pose proof (co_offset _ _ _ Hco). pose proof (co_positive _ _ _ Hco). eapply wp_mono.
  - apply (wp_for_fold (fun pre a s' => s' = s /\ a = Z.of_nat (length (live d off (length pre))))); [done|].
    intros pre i post a s' Hsplit (->&->). apply range_split in Hsplit as [-> Hi].
    destruct (lane_at i Hi) as (l&Hl&Hlo). rewrite length_range, Z.sub_0_r in *.
    unfold check_lane. apply wp_bind. eapply wp_get; [exact Hl|].
    rewrite length_app, length_range. cbn [length]. replace (Z.to_nat (i - 0) + 1)%nat with (Datatypes.S (Z.to_nat i)) by lia.
    rewrite (live_S off _ l Hl). pose proof (plo_count _ _ _ Hlo). pose proof (pdo_stride _ _ Hd).
    pose proof (live_count_bound off (Z.to_nat i) ltac:(lia)). pose proof (nc_bucket _ Hc).
    destruct (Z.ltb_spec off (pl_prompt_token_count l)) as [Hlt|Hge].
    + rewrite (u32_small (_ - _)) by lia. assert (off + n <= pl_prompt_token_count l) as Hn.
      { apply (co_lanes _ _ _ Hco i l). unfold lanes_left, live. rewrite list_elem_of_filter. cbn [snd]. split; [done|].
        apply list_elem_of_lookup. exists (Z.to_nat i). rewrite list_lookup_imap, lookup_take_lt by lia. rewrite Hl. cbn.
        by rewrite Z2Nat.id by lia. }
      rewrite (proj2 (Z.ltb_ge _ _)) by lia. apply wp_ret. split; [done|]. rewrite length_app. cbn [length].
      rewrite u32_small by lia. lia.
    + apply wp_ret. split; [done|]. by rewrite app_nil_r.
  - intros a s'. unfold lanes_left. rewrite length_range, Z.sub_0_r. done.
  - intros ?? H'. exact H'.
Qed.

(** The packet under construction: the fields the lane loop writes over a base packet. *)
Definition filled (p0 : WorkControlPacket) (ls : list WorkControlLane) (ids : list Z) (count : Z) : WorkControlPacket :=
  p0 <| lanes := ls |> <| prefill_token_ids := ids |> <| kv_block_table_token_count := count |>.

Lemma host_index i off r n l :
  0 <= i < pd_lane_count d -> 0 <= off -> 0 <= r < n -> off + n <= pl_prompt_token_count l -> prefill_lane_ok c d l ->
  (i *u64 host_token_stride d) +u64 (off +u32 r) = i * host_token_stride d + off + r /\
  0 <= i * host_token_stride d + off + r < Z.of_nat (length (host_token_ids d)).
Proof.
  intros Hi Hoff Hr Hn Hl. pose proof (plo_count _ _ _ Hl). pose proof (pdo_stride _ _ Hd). pose proof (pdo_tokens _ _ Hd).
  assert (i * host_token_stride d + host_token_stride d <= pd_lane_count d * host_token_stride d) by nia.
  assert (0 <= i * host_token_stride d) by nia.
  rewrite (u64_small (i * _)) by lia. rewrite (u32_small (off + r)) by lia. rewrite u64_small by lia. lia.
Qed.

Lemma length_chunk_tokens i off n l :
  0 <= i < pd_lane_count d -> 0 <= off -> 0 < n -> off + n <= pl_prompt_token_count l -> prefill_lane_ok c d l ->
  length (chunk_tokens d off n i) = Z.to_nat n.
Proof.
  intros Hi Hoff Hn0 Hn Hl. destruct (host_index i off (n - 1) n l) as [_ Hix]; [done|done|lia|done|done|].
  unfold chunk_tokens. rewrite length_take, length_drop. pose proof (pdo_stride _ _ Hd).
  assert (0 <= i * host_token_stride d) by nia. lia.
Qed.

Lemma lookup_chunk_tokens i off n r : 0 <= r < n -> 0 <= i * host_token_stride d -> 0 <= off ->
  chunk_tokens d off n i !! Z.to_nat r = host_token_ids d !! Z.to_nat (i * host_token_stride d + off + r).
Proof. intros. unfold chunk_tokens. rewrite lookup_take_lt by lia. rewrite lookup_drop. f_equal. lia. Qed.

Lemma insert_boundary {A} (pre : list A) m x y :
  (0 < m)%nat -> <[length pre := x]> (pre ++ replicate m y) = (pre ++ [x]) ++ replicate (m - 1) y.
Proof.
  intros Hm. destruct m as [|m]; [lia|]. rewrite insert_app_r_alt by done. rewrite Nat.sub_diag. cbn.
  rewrite Nat.sub_0_r, <-app_assoc. done.
Qed.

Lemma copy_tokens_spec p0 ls ids count i off n l (m : nat) row :
  0 <= i < pd_lane_count d -> 0 <= off -> 0 < n -> off + n <= pl_prompt_token_count l -> prefill_lane_ok c d l ->
  row = Z.of_nat (length ids) -> row + n <= U32_MAX -> (Z.to_nat n <= m)%nat ->
  wp (for_fold (range 0 n) (fun r _ => copy_prompt_token d i off row r) tt)
    (fun _ p => p = filled p0 ls ((ids ++ chunk_tokens d off n i) ++ replicate (m - Z.to_nat n) 0) count)
    (fun _ _ => False) (filled p0 ls (ids ++ replicate m 0) count).
Proof.
  intros Hi Hoff Hn0 Hn Hl -> Hrow Hm. pose proof (length_chunk_tokens i off n l Hi Hoff Hn0 Hn Hl) as Hlen. eapply wp_mono.
  - apply (wp_for_fold (fun pre _ p => p =
      filled p0 ls ((ids ++ take (length pre) (chunk_tokens d off n i)) ++ replicate (m - length pre) 0) count)).
    { cbn [length]. rewrite take_0, app_nil_r, Nat.sub_0_r. done. }
    intros pre r post [] p Hsplit ->. apply range_split in Hsplit as [-> Hr].
    destruct (host_index i off r n l Hi Hoff Hr Hn Hl) as [Hix Hrange].
    destruct (lookup_Some_range (host_token_ids d) _ Hrange) as [t Ht].
    assert (chunk_tokens d off n i !! Z.to_nat r = Some t) as Htc.
    { pose proof (pdo_stride _ _ Hd). rewrite lookup_chunk_tokens by nia. done. }
    unfold copy_prompt_token. rewrite Hix. apply wp_bind. eapply wp_index; [exact Ht|]. wp_steps.
    rewrite length_range, Z.sub_0_r. set (pre' := ids ++ take (Z.to_nat r) (chunk_tokens d off n i)).
    assert (length pre' = Z.to_nat (Z.of_nat (length ids) + r)) as Hpre.
    { unfold pre'. rewrite length_app, length_take. lia. }
    rewrite u32_small by lia. apply (wp_index _ _ _ _ _ 0).
    { cbn. rewrite lookup_app_r by lia. rewrite lookup_replicate. split; [done|lia]. }
    wp_steps. rewrite length_app, length_range. cbn [length].
    replace (Z.to_nat (r - 0) + 1)%nat with (Datatypes.S (Z.to_nat r)) by lia. rewrite (take_S_r _ _ _ Htc), (app_assoc ids). fold pre'.
    enough (<[Z.to_nat (Z.of_nat (length ids) + r):=t]> (pre' ++ replicate (m - Z.to_nat r) 0) =
      (pre' ++ [t]) ++ replicate (m - Datatypes.S (Z.to_nat r)) 0) as Heq by (rewrite <-Heq; reflexivity).
    rewrite <-Hpre, insert_boundary by lia. do 2 f_equal. lia.
  - intros _ p ->. rewrite length_range, Z.sub_0_r. rewrite (take_ge (chunk_tokens d off n i)) by lia. done.
  - intros ?? H'. exact H'.
Qed.

Lemma table_count_snoc off n ils il :
  table_count off n (ils ++ [il]) = Z.max (table_count off n ils) (pl_prompt_token_offset (snd il) + off + n) \/
  pl_prompt_token_offset (snd il) + off + n < 0.
Proof. induction ils as [|x ils IH]; cbn; [lia|]. destruct IH as [IH|IH]; [left; unfold table_count in *; cbn in *; lia|by right]. Qed.

Lemma table_count_bound off n ils i l : (i, l) ∈ ils -> pl_prompt_token_offset l + off + n <= table_count off n ils.
Proof.
  unfold table_count. induction ils as [|x ils IH]; [by intros ?%not_elem_of_nil|]. rewrite elem_of_cons. cbn [foldr].
  intros [<-|Hin]; [cbn [snd]; lia|]. specialize (IH Hin). lia.
Qed.

Lemma table_count_le off n ils m : 0 <= m -> (forall i l, (i, l) ∈ ils -> pl_prompt_token_offset l + off + n <= m) -> 0 <= table_count off n ils <= m.
Proof.
  intros Hm. unfold table_count. induction ils as [|[i l] ils IH]; intros H; cbn [foldr snd]; [lia|].
  pose proof (H i l ltac:(by apply list_elem_of_here)). destruct IH as [? ?]; [|lia].
  intros j q Hj. apply (H j q). by apply list_elem_of_further.
Qed.

Lemma live_mono off k i l : (k <= Z.to_nat (pd_lane_count d))%nat -> (i, l) ∈ live d off k -> (i, l) ∈ lanes_left off.
Proof.
  unfold lanes_left, live. rewrite !list_elem_of_filter. intros Hk [Hoff Hin]. split; [done|].
  apply list_elem_of_lookup in Hin as [j Hj]. rewrite list_lookup_imap in Hj. apply fmap_Some in Hj as (l'&Hl'&Heq).
  apply lookup_take_Some in Hl' as [Hl' Hlt]. apply list_elem_of_lookup. exists j.
  rewrite list_lookup_imap, lookup_take_lt by lia. rewrite Hl'. by rewrite Heq.
Qed.

Lemma length_sent_tokens off n rows k :
  chunk_ok off n rows -> (k <= Z.to_nat (pd_lane_count d))%nat ->
  Z.of_nat (length (sent_tokens d off n (live d off k))) = Z.of_nat (length (live d off k)) * n.
Proof.
  intros Hco Hk. assert (forall ils, (forall i l, (i, l) ∈ ils -> (i, l) ∈ lanes_left off) ->
    Z.of_nat (length (sent_tokens d off n ils)) = Z.of_nat (length ils) * n) as H; [|apply H; intros i l; by apply live_mono].
  pose proof (co_positive _ _ _ Hco) as [Hn0 _].
  induction ils as [|[i l] ils IH]; intros Hin; [done|]. unfold sent_tokens in *. rewrite fmap_cons. cbn [concat fst].
  rewrite length_app. pose proof (Hin i l ltac:(by apply list_elem_of_here)) as Hil.
  destruct (live_elem _ _ _ _ Hil) as (Hi&_&_&_&Hlo).
  rewrite (length_chunk_tokens i off n l Hi (co_offset _ _ _ Hco) Hn0 (co_lanes _ _ _ Hco _ _ Hil) Hlo).
  cbn [length]. rewrite !Nat2Z.inj_add, IH; [lia|]. intros j q Hj. apply Hin. by apply list_elem_of_further.
Qed.

(** The packet after the first [k] source lanes. *)
Definition progress (p0 : WorkControlPacket) off n (k : nat) : WorkControlPacket :=
  filled p0
    ((sent_lane c d off n <$> live d off k) ++
     replicate (length (lanes_left off) - length (live d off k)) (zeroed_lane c))
    (sent_tokens d off n (live d off k) ++
     replicate (Z.to_nat (max_active_sequence_count c) - length (sent_tokens d off n (live d off k))) 0)
    (table_count off n (live d off k)).

Lemma live_left off k l : pv_lanes (prefill_view d) !! k = Some l -> off < pl_prompt_token_count l ->
  (length (live d off k) < length (lanes_left off))%nat.
Proof.
  intros Hl Hoff. pose proof (lookup_lt_Some _ _ _ Hl) as Hlt. pose proof (pdo_lanes _ _ Hd) as [_ Hn].
  assert (length (live d off (Datatypes.S k)) <= length (lanes_left off))%nat as Hle.
  { unfold lanes_left, live.
    rewrite <-(take_drop (Datatypes.S k) (take (Z.to_nat (pd_lane_count d)) (pv_lanes (prefill_view d)))), imap_app, filter_app, length_app.
    rewrite take_take, Nat.min_l by lia. lia. }
  rewrite (live_S off k l Hl) in Hle. rewrite (proj2 (Z.ltb_lt _ _) Hoff), length_app in Hle. cbn [length] in Hle. lia.
Qed.

Lemma upd_boundary {A} (pre : list A) m f x i :
  Z.to_nat i = length pre -> (0 < m)%nat ->
  upd_nth i f (pre ++ replicate m x) = pre ++ f x :: replicate (m - 1) x.
Proof.
  intros Hi Hm. destruct m as [|m]; [lia|]. unfold upd_nth. rewrite Hi, alter_app_r_alt by done.
  rewrite Nat.sub_diag. cbn. by rewrite Nat.sub_0_r.
Qed.

Lemma upd_middle {A} (pre : list A) f x post i :
  Z.to_nat i = length pre -> upd_nth i f (pre ++ x :: post) = pre ++ f x :: post.
Proof. intros Hi. unfold upd_nth. rewrite Hi, alter_app_r_alt by done. by rewrite Nat.sub_diag. Qed.

Lemma lookup_middle {A} (pre : list A) x post i : Z.to_nat i = length pre -> (pre ++ x :: post) !! Z.to_nat i = Some x.
Proof. intros ->. by rewrite list_lookup_middle. Qed.

Lemma raise_spec p0 ls ids k i z Q R :
  ls !! Z.to_nat i = Some z -> Q tt (filled p0 ls ids (Z.max k (context_token_count z))) ->
  wp (raise_table_count i) Q R (filled p0 ls ids k).
Proof.
  intros Hz HQ. unfold raise_table_count. wp_steps.
  change (kv_block_table_token_count (id (filled p0 ls ids k))) with k.
  destruct (Z.ltb_spec k (context_token_count z)) as [Hlt|Hge].
  - wp_steps. rewrite Z.max_r in HQ by lia. exact HQ.
  - wp_steps. rewrite Z.max_l in HQ by lia. exact HQ.
Qed.

(** Writing one live lane. *)
Lemma build_lane_spec p0 off n rows i l :
  chunk_ok off n rows -> rows <= max_active_sequence_count c ->
  0 <= i < pd_lane_count d -> pv_lanes (prefill_view d) !! Z.to_nat i = Some l ->
  wp (build_prefill_lane d off n i (Z.of_nat (length (live d off (Z.to_nat i)))))
    (fun k p => k = Z.of_nat (length (live d off (Datatypes.S (Z.to_nat i)))) /\ p = progress p0 off n (Datatypes.S (Z.to_nat i)))
    (fun _ _ => False) (progress p0 off n (Z.to_nat i)).
Proof.
  intros Hco Hrows Hi Hl. pose proof (Forall_lookup_1 _ _ _ _ (pdo_lane _ _ Hd) Hl) as Hlo.
  pose proof (co_offset _ _ _ Hco) as Hoff. pose proof (co_positive _ _ _ Hco) as [Hn0 Hnp].
  pose proof (length_sent_tokens off n rows (Z.to_nat i) Hco ltac:(lia)) as Hst.
  pose proof node_words as (Hma&_&_&Hmc&_). pose proof (nc_bucket _ Hc). unfold word32 in *.
  unfold build_prefill_lane. apply wp_bind. eapply wp_index; [exact Hl|].
  destruct (Z.leb_spec (pl_prompt_token_count l) off) as [Hle|Hlt].
  { apply wp_ret. unfold progress. rewrite (live_S off _ l Hl), (proj2 (Z.ltb_ge _ _)), app_nil_r by done. done. }
  pose proof (live_left off _ l Hl Hlt) as Hleft.
  assert ((i, l) ∈ lanes_left off) as Hin.
  { apply (live_mono off (Datatypes.S (Z.to_nat i))); [lia|]. rewrite (live_S off _ l Hl), (proj2 (Z.ltb_lt _ _)) by done.
    rewrite Z2Nat.id by lia. rewrite elem_of_app, list_elem_of_singleton. by right. }
  pose proof (co_lanes _ _ _ Hco _ _ Hin) as Hfit. pose proof (co_rows _ _ _ Hco) as Hr.
  pose proof (plo_count _ _ _ Hlo). pose proof (plo_context _ _ _ Hlo). pose proof (plo_offset _ _ _ Hlo).
  pose proof (pdo_stride _ _ Hd).
  set (K := length (live d off (Z.to_nat i))) in *. set (T := length (lanes_left off)) in *.
  assert (Z.of_nat K * n + n <= Z.of_nat T * n) as Hkn by nia.
  rewrite (proj2 (Z.ltb_ge (host_token_stride d) _)) by lia. rewrite (proj2 (Z.ltb_ge (U32_MAX - off) _)) by lia.
  rewrite (u32_small (pl_prompt_token_offset l + off)) by lia. rewrite (proj2 (Z.ltb_ge (U32_MAX - n) _)) by lia.
  set (A := sent_lane c d off n <$> live d off (Z.to_nat i)). assert (length A = K) as HA by apply length_fmap.
  set (B := sent_tokens d off n (live d off (Z.to_nat i))) in *.
  rewrite (u32_small (Z.of_nat K * n)) by nia.
  wp_steps. apply (wp_index _ _ _ _ _ (zeroed_lane c)).
  { cbn. fold A T K. replace (T - K)%nat with (Datatypes.S (T - K - 1)) by lia. cbn [replicate]. apply lookup_middle. lia. }
  wp_steps.
  set (z := (zeroed_lane c) <| l_request_id := pl_request_id l |> <| l_request_generation := pl_request_handle l |>
      <| l_sequence_id := pl_sequence_id l |> <| l_sequence_position := pl_prompt_token_offset l + off |>
      <| request_slot_index := pl_request_slot_index l |>
      <| context_token_count := u32 (pl_prompt_token_offset l + off + n) |>).
  match goal with |- wp _ _ _ (upd_lane ?k ?f _) =>
    assert (upd_lane k f (progress p0 off n (Z.to_nat i)) =
      filled p0 (A ++ z :: replicate (T - K - 1) (zeroed_lane c)) (B ++ replicate (Z.to_nat (max_active_sequence_count c) - length B) 0)
        (table_count off n (live d off (Z.to_nat i)))) as Heq
  end.
  { unfold upd_lane, progress. cbn [lanes]. change (lanes (filled p0 ?ls ?ids ?k)) with ls. fold A B T K.
    rewrite upd_boundary by lia. reflexivity. }
  rewrite Heq. clear Heq.
  eapply wp_mono; [apply (copy_tokens_spec p0 _ B _ i off n l (Z.to_nat (max_active_sequence_count c) - length B) (Z.of_nat K * n));
    try done; nia| |intros ?? H'; exact H'].
  intros _ p ->. wp_steps. set (C := chunk_tokens d off n i).
  pose proof (length_chunk_tokens i off n l Hi Hoff Hn0 Hfit Hlo) as HC. fold C in HC.
  destruct (exists_last (l := C)) as (C'&last&HC'); [intros HC0; rewrite HC0 in HC; cbn in HC; lia|].
  rewrite (u32_small (Z.of_nat K * n + n)) by nia. rewrite u32_small by nia.
  apply (wp_index _ _ _ _ _ last).
  { cbn. rewrite lookup_app_l by (rewrite length_app; lia). rewrite lookup_app_r by lia. rewrite HC', length_app in HC. cbn in HC.
    rewrite HC'. rewrite lookup_app_r by lia. replace (_ - _ - _)%nat with 0%nat by lia. done. }
  wp_steps. set (z' := z <| l_input_token_id := last |>).
  assert (z' = sent_lane c d off n (i, l)) as Hz.
  { unfold z', z, sent_lane. fold C. rewrite HC', last_last, u32_small by lia. reflexivity. }
  match goal with |- wp _ _ _ (upd_lane ?k ?f (filled _ ?ls ?ids ?t)) =>
    assert (upd_lane k f (filled p0 ls ids t) = filled p0 (A ++ z' :: replicate (T - K - 1) (zeroed_lane c)) ids t) as Heq
  end.
  { unfold upd_lane. change (lanes (filled p0 ?ls ?ids ?k)) with ls. rewrite upd_middle by lia. reflexivity. }
  rewrite Heq. clear Heq. rewrite Hz.
  apply (raise_spec _ _ _ _ _ (sent_lane c d off n (i, l))); [apply lookup_middle; lia|]. wp_steps.
  assert (live d off (Datatypes.S (Z.to_nat i)) = live d off (Z.to_nat i) ++ [(i, l)]) as HS.
  { rewrite (live_S off _ l Hl), (proj2 (Z.ltb_lt _ _)) by done. rewrite Z2Nat.id by lia. done. }
  rewrite HS, length_app. cbn [length]. fold K. split; [rewrite u32_small by lia; lia|].
  unfold progress. rewrite HS. f_equal.
  - rewrite fmap_app, <-app_assoc. fold A. rewrite length_app. cbn [length fmap list_fmap app]. fold T K. do 3 f_equal. lia.
  - unfold sent_tokens. rewrite fmap_app, concat_app. cbn [fmap list_fmap concat fst]. rewrite app_nil_r. fold (sent_tokens d off n (live d off (Z.to_nat i))).
    fold B C. rewrite length_app. do 2 f_equal. lia.
  - destruct (table_count_snoc off n (live d off (Z.to_nat i)) (i, l)) as [->|Hneg]; [|cbn [snd] in Hneg; lia]. done.
Qed.

Lemma config_pos : 0 < kv_block_tokens c /\ 0 < maximum_context_tokens c / kv_block_tokens c /\
  maximum_context_tokens c = kv_block_tokens c * (maximum_context_tokens c / kv_block_tokens c) /\
  0 < max_lane_count c.
Proof.
  pose proof node_words as (_&Hl&_&Hm&Hk&_). pose proof (nc_valid _ Hc) as Hv. unfold validate_config in Hv.
  rewrite negb_true_iff, !orb_false_iff, negb_false_iff, !Z.eqb_neq, Z.eqb_eq in Hv.
  destruct Hv as [[[[[[[[[_ _] Hmc] Hkt] _] _] Hlc] _] _] Hmod]. unfold word32 in *.
  assert (0 < kv_block_tokens c) as Hpos by lia. pose proof (Z.div_mod (maximum_context_tokens c) (kv_block_tokens c)) as Hdm.
  split; [done|]. assert (maximum_context_tokens c = kv_block_tokens c * (maximum_context_tokens c / kv_block_tokens c)) as He by lia.
  split; [|split; [done|lia]]. assert (0 <= maximum_context_tokens c / kv_block_tokens c) by (apply Z.div_pos; lia). nia.
Qed.

(** The flags and the packet a chunk becomes, before it is stamped. *)
Definition prefill_flags : Z :=
  flag_if (has_flag (d_flags (pd_request_dispatch d)) REQUEST_DISPATCH_FLAG_DSPARK_TAP_CAPTURE)
    FLAG_DSPARK_TAP_CAPTURE FLAG_PREFILL.

Definition prefill_base (a n : Z) : WorkControlPacket :=
  mkPacket PACKET_MAGIC WORK_ABI_VERSION 0 prefill_flags 0 0 0 0 STANDALONE_GENERATION 0 0 0 0 0 0 0 0 0 n 0
    (highest_priority (pd_request_dispatch d)) (kv_block_tokens c) 0 (maximum_context_tokens c / kv_block_tokens c)
    0 0 0 0 (replicate (Z.to_nat (max_speculative_token_count c)) 0) a 0 0 0 [] [].

Definition unsigned off n bucket (first : WorkControlLane) : WorkControlPacket :=
  let a := Z.of_nat (length (lanes_left off)) in
  mkPacket PACKET_MAGIC WORK_ABI_VERSION (calculate_packet_bytes c a) prefill_flags
    (l_request_id first) (l_sequence_id first) (l_sequence_position first) 0 STANDALONE_GENERATION 0 0 0 0 0 0 0 0
    a n 0 (highest_priority (pd_request_dispatch d)) (kv_block_tokens c) (table_count off n (lanes_left off))
    (maximum_context_tokens c / kv_block_tokens c) 0 (l_input_token_id first) 0 0
    (replicate (Z.to_nat (max_speculative_token_count c)) 0) a n (a * n) bucket
    (sent_tokens d off n (lanes_left off) ++
     replicate (Z.to_nat (max_active_sequence_count c) - length (sent_tokens d off n (lanes_left off))) 0)
    (sent_lane c d off n <$> lanes_left off).

Lemma first_lane off n rows : chunk_ok off n rows -> exists first, (sent_lane c d off n <$> lanes_left off) !! 0%nat = Some first.
Proof. intros Hco. pose proof (co_some _ _ _ Hco). destruct (lanes_left off); [done|]. by eexists. Qed.

Lemma bucket_spec {S} rows (s : S) : 0 < rows <= 1024 ->
  exists b, select_execution_batch_bucket (pd_request_dispatch d) rows s = Ret b s /\
    batch_bucket_is_supported b = true /\ rows <= b /\ 0 <= b <= 1024.
Proof.
  intros Hr. destruct (pdo_bucket _ _ Hd) as (b&Hb&Hsup). unfold select_execution_batch_bucket, bind, some_or.
  rewrite (proj2 (Z.eqb_neq rows 0)) by lia. rewrite Hb. unfold ret at 1. rewrite Hsup. cbn [negb].
  assert (forall x, batch_bucket_is_supported x = true -> 0 <= x <= 1024) as Hbound.
  { intros x. unfold batch_bucket_is_supported. rewrite bool_decide_eq_true. unfold STAGE_PLAN_BATCH_BUCKETS.
    rewrite !elem_of_cons, elem_of_nil. lia. }
  destruct (Z.ltb_spec b rows) as [Hlt|Hge].
  - unfold select_batch_bucket. rewrite (proj2 (Z.eqb_neq rows 0)) by lia. unfold some_or.
    destruct (List.find (fun bucket => rows <=? bucket) STAGE_PLAN_BATCH_BUCKETS) as [b'|] eqn:Hf.
    + apply List.find_some in Hf as [Hin Hle]. apply Z.leb_le in Hle. exists b'. split; [done|].
      assert (batch_bucket_is_supported b' = true) as Hs by (apply bool_decide_eq_true, list_elem_of_In, Hin).
      split; [done|]. split; [done|]. by apply Hbound.
    + pose proof (List.find_none _ _ Hf 1024 ltac:(cbn; tauto)) as H1. apply Z.leb_gt in H1. lia.
  - exists b. split; [done|]. split; [done|]. split; [done|]. by apply Hbound.
Qed.

Lemma sent_lane_words off n rows il :
  chunk_ok off n rows -> il ∈ lanes_left off -> lane_words c (sent_lane c d off n il).
Proof.
  destruct il as [i l]. intros Hco Hin. pose proof (co_lanes _ _ _ Hco _ _ Hin) as Hfit.
  pose proof (co_offset _ _ _ Hco) as Hoff. pose proof (co_positive _ _ _ Hco) as [Hn0 _].
  destruct (live_elem _ _ _ _ Hin) as (Hi&_&_&_&[]). pose proof node_words as (_&_&_&Hmc&_&Hv&Hsp).
  unfold sent_lane, lane_words, zeroed_lane. cbn. unfold word32, word64, byte, INVALID_REQUEST_SLOT in *.
  split. { rewrite !Forall_cons, Forall_nil. lia. }
  split.
  { rewrite !Forall_cons, Forall_nil.
    assert (0 <= List.last (chunk_tokens d off n i) 0 <= U32_MAX); [|lia].
    destruct (chunk_tokens d off n i) as [|t ts] eqn:E using rev_ind; [cbn; lia|]. rewrite last_last.
    assert (t ∈ host_token_ids d) as Ht.
    { assert (t ∈ chunk_tokens d off n i) as Ht by (rewrite E, elem_of_app, list_elem_of_singleton; by right).
      unfold chunk_tokens in Ht. apply list_elem_of_lookup in Ht as [j Hj]. apply lookup_take_Some in Hj as [Hj _].
      rewrite lookup_drop in Hj. by eapply list_elem_of_lookup_2. }
    pose proof (pdo_vocab _ _ Hd) as Hvo. rewrite Forall_forall in Hvo. specialize (Hvo t Ht). lia. }
  rewrite length_replicate. split; [lia|]. split; [lia|]. split; [lia|]. split; [lia|].
  apply Forall_replicate. lia.
Qed.

Lemma token_in_vocab t off n rows ils :
  chunk_ok off n rows -> t ∈ sent_tokens d off n ils -> 0 <= t < output_vocab_count c.
Proof.
  intros Hco Ht. unfold sent_tokens in Ht. apply list_elem_of_In, in_concat in Ht as (ts&Hts&Ht).
  apply list_elem_of_In, list_elem_of_fmap in Hts as (il&->&_). apply list_elem_of_In in Ht.
  unfold chunk_tokens in Ht. apply list_elem_of_lookup in Ht as [j Hj]. apply lookup_take_Some in Hj as [Hj _].
  rewrite lookup_drop in Hj. pose proof (pdo_vocab _ _ Hd) as Hvo. by apply (Forall_lookup_1 _ _ _ _ Hvo Hj).
Qed.

Lemma left_count off n rows : chunk_ok off n rows -> rows <= max_active_sequence_count c ->
  0 < Z.of_nat (length (lanes_left off)) <= max_active_sequence_count c /\
  Z.of_nat (length (sent_tokens d off n (lanes_left off))) = Z.of_nat (length (lanes_left off)) * n /\
  Z.of_nat (length (lanes_left off)) * n <= max_active_sequence_count c.
Proof.
  intros Hco Hrows. pose proof (live_count_bound off (Z.to_nat (pd_lane_count d)) ltac:(lia)) as Hb.
  fold (lanes_left off) in Hb. pose proof (co_some _ _ _ Hco) as Hs. pose proof (co_rows _ _ _ Hco).
  split; [split; [destruct (lanes_left off); [done|cbn; lia]|done]|].
  split; [by apply (length_sent_tokens off n rows); [|lia]|lia].
Qed.

Lemma packet_size a : 0 < a <= max_active_sequence_count c ->
  calculate_packet_bytes c a = packet_prefix_bytes c + a * lane_bytes c /\ 0 < calculate_packet_bytes c a <= U32_MAX.
Proof.
  intros Ha. pose proof (nc_fits _ Hc) as Hfit. pose proof (nc_ok _ Hc) as Hok. pose proof (lane_bytes_room c Hok) as Hroom.
  pose proof (speculative_range c Hok) as Hsp.
  assert (0 < packet_prefix_bytes c) as Hpp.
  { rewrite prefix_bytes_spec by done. pose proof (Z.div_mod (164 + 4 * (max_speculative_token_count c + max_active_sequence_count c) + 7) 8).
    pose proof (Z.mod_pos_bound (164 + 4 * (max_speculative_token_count c + max_active_sequence_count c) + 7) 8). lia. }
  assert (0 <= lane_bytes c) by lia.
  assert (a * lane_bytes c <= max_active_sequence_count c * lane_bytes c) by nia. assert (0 <= a * lane_bytes c) by nia.
  unfold calculate_packet_bytes. rewrite (proj2 (Z.eqb_neq a 0)), (proj2 (Z.ltb_ge _ a)) by lia. cbn [orb].
  rewrite (u64_small (a * lane_bytes c)) by lia. rewrite u64_small by lia. rewrite (proj2 (Z.leb_le _ _)) by lia. lia.
Qed.

Lemma flags_small : 0 <= prefill_flags <= 5 /\ has_flag prefill_flags FLAG_PREFILL = true /\
  Z.land prefill_flags (u32_not KNOWN_FLAGS) = 0 /\ has_flag prefill_flags FLAG_RELEASE_SEQUENCES = false /\
  has_flag prefill_flags FLAG_DSPARK_SPECULATIVE_VERIFY = false /\ has_flag prefill_flags FLAG_MTP_SPECULATIVE_VERIFY = false /\
  has_flag prefill_flags FLAG_MTP_TREE_VERIFY = false /\ has_flag prefill_flags FLAG_MTP_DRAFT = false /\
  has_flag prefill_flags FLAG_MTP_RESOLVE = false.
Proof.
  unfold prefill_flags, flag_if.
  destruct (has_flag (d_flags (pd_request_dispatch d)) REQUEST_DISPATCH_FLAG_DSPARK_TAP_CAPTURE); vm_compute; intuition discriminate.
Qed.

Lemma unsigned_finalizable off n rows bucket first :
  chunk_ok off n rows -> rows <= max_active_sequence_count c -> 0 <= bucket <= 1024 ->
  (sent_lane c d off n <$> lanes_left off) !! 0%nat = Some first -> finalizable c (unsigned off n bucket first).
Proof.
  intros Hco Hrows Hb Hfirst. destruct (left_count off n rows Hco Hrows) as (Ha&Htok&Hex).
  destruct (packet_size _ Ha) as [_ Hsz]. pose proof node_words as (Hma&Hml&Hmp&Hmc&Hk&Hv&Hsp). pose proof config_pos as (Hkp&Hcap&Hceq&Hlp).
  pose proof (nc_lanes _ Hc) as Hnl. pose proof (co_positive _ _ _ Hco) as Hn. pose proof flags_small as (Hfl&_).
  pose proof (pdo_priority _ _ Hd) as Hprio.
  assert (Forall (lane_words c) (sent_lane c d off n <$> lanes_left off)) as Hlw.
  { apply Forall_fmap, Forall_forall. intros il Hil. by apply (sent_lane_words off n rows). }
  assert (0 <= table_count off n (lanes_left off) <= maximum_context_tokens c) as Htc.
  { unfold word32 in *. apply table_count_le; [lia|]. intros i l Hil. pose proof (co_lanes _ _ _ Hco _ _ Hil).
    destruct (live_elem _ _ _ _ Hil) as (_&_&_&_&[]). lia. }
  pose proof (Forall_lookup_1 _ _ _ _ Hlw Hfirst) as (Hf64&Hf32&_). rewrite !Forall_cons in Hf64, Hf32.
  split.
  - apply Hc.
  - unfold packet_words, unsigned. cbv zeta. cbn [p_magic p_abi_version p_descriptor_bytes p_flags p_step_chunk_index
      p_step_chunk_count p_transaction_phase p_reserved_transaction active_sequence_count new_token_count pipeline_slot priority
      block_token_count kv_block_table_token_count max_blocks_per_sequence p_mtp_draft_token_count p_input_token_id
      p_speculative_token_count speculative_token_index lane_count rows_per_lane execution_row_count execution_batch_bucket
      p_request_id p_sequence_id p_sequence_position deadline_time_ns p_control_generation p_transaction_id
      p_dispatch_generation p_request_generation p_step_generation p_speculative_draft_token_ids prefill_token_ids lanes].
    unfold word32, word64, PACKET_MAGIC, WORK_ABI_VERSION, STANDALONE_GENERATION in *.
    assert (maximum_context_tokens c / kv_block_tokens c <= U32_MAX) by nia.
    split. { rewrite !Forall_cons, Forall_nil. intuition lia. }
    split. { rewrite !Forall_cons, Forall_nil. intuition lia. }
    split. { rewrite length_replicate. split; [lia|]. apply Forall_replicate. lia. }
    split.
    { rewrite length_app, length_replicate. split; [lia|]. apply Forall_app. split; [|apply Forall_replicate; lia].
      apply Forall_forall. intros t Ht. pose proof (token_in_vocab t off n rows _ Hco Ht). lia. }
    rewrite length_fmap. done.
  - cbn [lane_count unsigned]. lia.
  - cbn [lane_count p_descriptor_bytes unsigned]. split; [done|lia].
  - cbn [lanes unsigned]. apply Forall_fmap, Forall_forall. intros [i l] Hil. destruct (live_elem _ _ _ _ Hil) as (_&_&_&_&[]).
    cbn. lia.
Qed.

Lemma build_lanes_spec p0 off n rows :
  chunk_ok off n rows -> rows <= max_active_sequence_count c ->
  wp (for_fold (range 0 (pd_lane_count d)) (build_prefill_lane d off n) 0)
    (fun k p => k = Z.of_nat (length (lanes_left off)) /\ p = progress p0 off n (Z.to_nat (pd_lane_count d)))
    (fun _ _ => False) (progress p0 off n 0).
Proof.
  intros Hco Hrows. eapply wp_mono.
  - apply (wp_for_fold (fun pre k p => k = Z.of_nat (length (live d off (length pre))) /\ p = progress p0 off n (length pre))); [done|].
    intros pre i post k p Hsplit (->&->). apply range_split in Hsplit as [-> Hi].
    destruct (lane_at i Hi) as (l&Hl&_). rewrite length_app, !length_range, !Z.sub_0_r. cbn [length].
    replace (Z.to_nat i + 1)%nat with (Datatypes.S (Z.to_nat i)) by lia. by apply (build_lane_spec p0 off n rows i l).
  - intros k p. unfold lanes_left. rewrite length_range, Z.sub_0_r. done.
  - intros ?? H'. exact H'.
Qed.

(** The fields written after the lane loop. *)
Lemma fill_prefill_spec off n rows :
  chunk_ok off n rows -> rows <= max_active_sequence_count c ->
  exists bucket first, (sent_lane c d off n <$> lanes_left off) !! 0%nat = Some first /\
    batch_bucket_is_supported bucket = true /\ Z.of_nat (length (lanes_left off)) * n <= bucket <= 1024 /\
    wp (fill_prefill_packet c d off n)
      (fun p _ => p = finalized c (unsigned off n bucket first) STANDALONE_GENERATION 0 1) (fun _ _ => False)
      (set_lane_count c (Z.of_nat (length (lanes_left off))) (zeroed c)).
Proof.
  intros Hco Hrows. destruct (left_count off n rows Hco Hrows) as (Ha&Htok&Hex). pose proof (nc_bucket _ Hc).
  pose proof (co_positive _ _ _ Hco) as [Hn0 _]. destruct (first_lane off n rows Hco) as [first Hfirst].
  set (a := Z.of_nat (length (lanes_left off))) in *.
  destruct (bucket_spec (a * n) tt) as (b&_&Hsup&Hle&Hb1024); [nia|].
  set (built := progress (prefill_base a n) off n (Z.to_nat (pd_lane_count d))).
  destruct (bucket_spec (a * n) (built <| active_sequence_count := a |> <| lane_count := a |> <| rows_per_lane := n |>
    <| execution_row_count := a * n |>)) as (b'&Hb'&Hsup'&Hle'&Hb1024'); [nia|]. clear b Hsup Hle Hb1024.
  exists b', first. split; [done|]. split; [done|]. split; [lia|].
  pose proof config_pos as (Hkp&_). pose proof node_words as (Hma&_). unfold word32 in *.
  unfold fill_prefill_packet. apply wp_bind. unfold kv_block_capacity. rewrite (proj2 (Z.eqb_neq _ 0)) by lia. apply wp_ret.
  apply wp_bind, wp_modify.
  match goal with |- wp _ _ _ ?q => assert (q = progress (prefill_base a n) off n 0) as Hq end.
  { unfold progress. rewrite live_0. unfold prefill_base, set_lane_count, zeroed. cbn. unfold filled.
    unfold a. rewrite Nat2Z.id, !Nat.sub_0_r, take_nil. reflexivity. }
  rewrite Hq. clear Hq. apply wp_bind.
  eapply wp_mono; [by apply (build_lanes_spec _ off n rows)| |intros ?? H'; exact H'].
  intros k p [-> ->]. fold a built. rewrite (proj2 (Z.eqb_neq a 0)) by lia.
  rewrite (u32_small (a * n)) by lia. wp_steps.
  eapply wp_eq; [exact Hb'|]. unfold copy_first_lane. wp_steps. apply (wp_index _ _ _ _ _ first).
  { change (lanes (progress (prefill_base a n) off n (Z.to_nat (pd_lane_count d))) !! Z.to_nat 0 = Some first).
    unfold progress. change (lanes (filled ?p ?ls ?ids ?k)) with ls. fold (lanes_left off).
    rewrite Nat.sub_diag. cbn [replicate]. rewrite app_nil_r. exact Hfirst. }
  wp_steps.
  match goal with |- wp _ _ _ ?q => assert (q = unsigned off n b' first) as Hq end.
  { unfold built, progress. fold (lanes_left off). unfold unsigned. rewrite Nat.sub_diag. cbn [replicate]. rewrite app_nil_r.
    reflexivity. }
  rewrite Hq. clear Hq. eapply wp_eq; [|wp_steps; reflexivity].
  apply finalize_spec; [by apply (unsigned_finalizable off n rows)|unfold STANDALONE_GENERATION; lia|lia|lia].
Qed.

Lemma build_prefill_spec {S} off n rows (s : S) :
  chunk_ok off n rows -> rows <= max_active_sequence_count c ->
  exists bucket first, (sent_lane c d off n <$> lanes_left off) !! 0%nat = Some first /\
    batch_bucket_is_supported bucket = true /\ Z.of_nat (length (lanes_left off)) * n <= bucket <= 1024 /\
    build_prefill_packet c d off n s = Ret (finalized c (unsigned off n bucket first) STANDALONE_GENERATION 0 1) s.
Proof.
  intros Hco Hrows. destruct (fill_prefill_spec off n rows Hco Hrows) as (b&first&Hfirst&Hsup&Hb&Hfill).
  exists b, first. split; [done|]. split; [done|]. split; [done|].
  destruct (left_count off n rows Hco Hrows) as (Ha&_&Hex). destruct (packet_size _ Ha) as [_ Hsz].
  pose proof (co_positive _ _ _ Hco) as [Hn0 Hn1]. pose proof (co_offset _ _ _ Hco). pose proof (co_prompt _ _ _ Hco).
  pose proof (pdo_count _ _ Hd). pose proof (pdo_stride _ _ Hd). pose proof (pdo_tokens _ _ Hd). pose proof (pdo_prompt _ _ Hd).
  destruct (pdo_view _ _ Hd) as (v&Hv&Hvl).
  unfold build_prefill_packet. rewrite Hv, (bool_decide_eq_true_2 (is_Some (Some v))) by eauto.
  rewrite (proj2 (Z.eqb_neq (pd_lane_count d) 0)), (proj2 (Z.eqb_eq _ _) (pdo_active _ _ Hd)),
    (proj2 (Z.eqb_eq _ _) (proj1 (pdo_lanes _ _ Hd))), (proj2 (Z.eqb_eq _ _) Hvl),
    (proj2 (Z.ltb_ge (max_active_sequence_count c) (pd_lane_count d))), (proj2 (Z.eqb_neq (host_token_stride d) 0)),
    (proj2 (Z.leb_gt (pd_prompt_token_count d) off)), (proj2 (Z.eqb_neq n 0)), (proj2 (Z.ltb_ge (max_prefill_tokens_per_packet c) n)),
    (u32_small (pd_prompt_token_count d - off)), (proj2 (Z.ltb_ge (pd_prompt_token_count d - off) n)) by lia.
  rewrite bool_decide_eq_false_2 by (intros Hnil; rewrite Hnil in *; cbn in *; nia). cbn [orb negb].
  rewrite (proj2 (Z.ltb_ge _ _)) by lia.
  destruct (wp_elim _ _ _ _ (check_lanes_spec off n rows s Hco)) as [(a&?&Hchk&->&->)|(?&?&_&[])].
  unfold bind. rewrite Hchk. rewrite (proj2 (Z.ltb_ge (max_active_sequence_count c) _)) by lia.
  rewrite (proj2 (Z.eqb_neq _ 0)) by lia. unfold with_local.
  destruct (wp_elim _ _ _ _ Hfill) as [(p&?&Hp&->)|(?&?&_&[])]. by rewrite Hp.
Qed.

End chunk.

(** ** Acceptance by the receiver *)

(** Sequencing of validation steps that all pass. *)
Lemma seq_ok {S A B} (m : WC S A) (k : A -> WC S B) a s : m s = Ret a s -> bind m k s = k a s.
Proof. unfold bind. by intros ->. Qed.

Lemma reject_ok {S} b e (s : S) : b = false -> reject_if b e s = Ret tt s.
Proof. by intros ->. Qed.

Lemma any_nonzero_zero {S} k lo hi (s : S) :
  0 <= lo <= hi -> hi <= Z.of_nat k -> any_nonzero (replicate k 0) lo hi s = Ret false s.
Proof.
  intros Hlo Hhi. unfold any_nonzero, bind, slice. rewrite length_replicate.
  rewrite (proj2 (Z.leb_le lo hi)), (proj2 (Z.leb_le hi _)) by lia. cbn [andb]. unfold ret. f_equal.
  apply not_true_iff_false. rewrite List.existsb_exists. intros (x&Hx&Hnz).
  apply list_elem_of_In, list_elem_of_lookup in Hx as [j Hj]. apply lookup_take_Some in Hj as [Hj _].
  rewrite lookup_drop in Hj. apply lookup_replicate in Hj as [-> _]. done.
Qed.

Lemma tokens_in_vocab_ok {S} c ids n (s : S) :
  0 <= n <= Z.of_nat (length ids) -> (forall i t, (i < Z.to_nat n)%nat -> ids !! i = Some t -> t < output_vocab_count c) ->
  tokens_in_vocab c ids n s = Ret tt s.
Proof.
  intros Hn Hv.
  destruct (wp_elim (tokens_in_vocab c ids n) (fun _ s' => s' = s) (fun _ _ => False) s) as [([]&?&H&->)|(?&?&_&[])]; [|done].
  unfold tokens_in_vocab. apply (wp_for_fold (fun _ _ s' => s' = s)); [done|].
  intros pre i post [] s' Hsplit ->. apply range_split in Hsplit as [_ Hi].
  destruct (lookup_Some_range ids i) as [t Ht]; [lia|]. apply wp_bind. eapply wp_index; [exact Ht|].
  unfold reject_if. specialize (Hv (Z.to_nat i) t ltac:(lia) Ht). rewrite (proj2 (Z.leb_gt _ _)) by lia. by apply wp_ret.
Qed.

(** A fold of checks that leave the count alone. *)
Lemma for_fold_const {S A} (body : A -> Z -> WC S Z) xs k s :
  (forall x, x ∈ xs -> body x k s = Ret k s) -> for_fold xs body k s = Ret k s.
Proof.
  induction xs as [|x xs IH]; intros H; [done|]. cbn [for_fold]. unfold bind.
  rewrite H by apply list_elem_of_here. apply IH. intros y Hy. apply H. by apply list_elem_of_further.
Qed.

(** What the receiver demands of a prefill lane, and of a prefill packet. *)
Record prefill_lane_valid (c : WorkControlConfig) (p : WorkControlPacket) (i : nat) (l : WorkControlLane) : Prop := {
  plv_ids : l_request_id l <> 0 /\ l_sequence_id l <> 0 /\ request_slot_index l <> INVALID_REQUEST_SLOT;
  plv_context : 0 <= l_sequence_position l /\ l_sequence_position l + new_token_count p = context_token_count l /\
    0 < context_token_count l <= kv_block_table_token_count p;
  plv_blocks : context_token_count l <= block_token_count p * max_blocks_per_sequence p;
  plv_input : l_input_token_id l < output_vocab_count c /\
    prefill_token_ids p !! Z.to_nat (Z.of_nat i * rows_per_lane p + rows_per_lane p - 1) = Some (l_input_token_id l);
  plv_quiet : l_mtp_draft_token_count l = 0 /\ l_speculative_token_count l = 0 /\
    mtp_resolution_proposed_token_count l = 0 /\ mtp_resolution_accepted_token_count l = 0 /\ mtp_resolution_path_id l = 0 /\
    l_speculative_draft_token_ids l = replicate (Z.to_nat (max_speculative_token_count c)) 0;
}.

Lemma block_count_le tokens block cap : 0 <= tokens -> 0 < block -> tokens <= block * cap -> block_count tokens block <= Z.max cap 0.
Proof.
  intros Ht Hb Hle. unfold block_count. destruct (Z.eqb_spec tokens 0); [cbn; lia|].
  rewrite (proj2 (Z.eqb_neq block 0)) by lia. cbn [orb].
  destruct (div_ceil_spec tokens block Ht Hb) as [[H1 _]|[? _]]; [nia|lia].
Qed.

Lemma validate_prefill_lane {S} c p i l k (s : S) :
  prefill_lane_valid c p i l -> prefill_flag p = true -> mtp_tree_verify p = false -> speculative_verify p = false ->
  p_mtp_draft_token_count p = 0 -> 0 < block_token_count p -> 0 < max_blocks_per_sequence p ->
  0 < rows_per_lane p -> Z.of_nat i * rows_per_lane p + rows_per_lane p <= U32_MAX ->
  kv_block_table_token_count p <= U32_MAX -> 0 <= max_speculative_token_count c ->
  validate_lane p c (i, l) k s = Ret k s.
Proof.
  intros [(Hr&Hq&Hsl) (Hp0&Hpc&Hc0) Hblk (Hin&Hlast) (Hm&Hsp&Hpr&Hac&Hpa&Hids)] Hpf Htree Hspec Hdraft Hbt Hmb Hrow Hrows Htab Hms.
  unfold validate_lane. rewrite (seq_ok _ _ tt).
  2: { apply reject_ok. unfold written_position_count. unfold mtp_tree_verify in Htree. rewrite Htree.
    rewrite (u64_small (_ + _)) by lia.
    pose proof (block_count_le (context_token_count l) (block_token_count p) (max_blocks_per_sequence p) ltac:(lia) Hbt Hblk).
    rewrite (proj2 (Z.eqb_neq _ _) Hr), (proj2 (Z.eqb_neq _ _) Hq), (proj2 (Z.eqb_neq _ _) Hsl),
      (proj2 (Z.eqb_neq (context_token_count l) 0)), (proj2 (Z.ltb_ge (context_token_count l) _)),
      (proj2 (Z.ltb_ge (kv_block_table_token_count p) _)), (proj2 (Z.ltb_ge (max_blocks_per_sequence p) _)),
      (proj2 (Z.leb_gt (output_vocab_count c) _)) by lia. done. }
  rewrite Hpf, (seq_ok _ _ tt).
  2: { rewrite Hm, Hsp. rewrite (u64_small (_ + _)) by lia. rewrite Hpc, !Z.eqb_refl. cbn [negb orb].
    rewrite (u64_small (Z.of_nat i * _)), (u64_small (_ * _ + _)), u64_small by nia.
    unfold bind, index. rewrite Hlast. unfold ret at 1 2. rewrite Z.eqb_refl. done. }
  rewrite (seq_ok _ _ k).
  2: { unfold validate_resolution. rewrite Hpr, Hac, Hpa. done. }
  rewrite (seq_ok _ _ tt); [done|].
  unfold validate_lane_drafts. rewrite Hspec, Hsp, Hm, Hdraft. cbn [Z.eqb negb orb]. unfold bind at 1. cbn [reject_if].
  unfold ret at 1. unfold bind. rewrite Hids, any_nonzero_zero by lia. done.
Qed.

Record prefill_packet_valid (c : WorkControlConfig) (max_active slots : Z) (p : WorkControlPacket) : Prop := {
  ppv_header : p_magic p = PACKET_MAGIC /\ p_abi_version p = WORK_ABI_VERSION /\ p_request_id p <> 0 /\
    p_sequence_id p <> 0 /\ p_control_generation p <> 0;
  ppv_flags : Z.land (p_flags p) (u32_not KNOWN_FLAGS) = 0 /\ prefill_flag p = true /\
    has_flag (p_flags p) FLAG_RELEASE_SEQUENCES = false /\ dspark_verify p = false /\ mtp_verify p = false /\
    mtp_tree_verify p = false /\ has_flag (p_flags p) FLAG_MTP_DRAFT = false /\ has_flag (p_flags p) FLAG_MTP_RESOLVE = false;
  ppv_lanes : 0 < lane_count p <= max_lane_count c /\ lane_count p = active_sequence_count p /\
    active_sequence_count p <= max_active_sequence_count c /\ Z.of_nat (length (lanes p)) = lane_count p;
  ppv_size : p_descriptor_bytes p = calculate_packet_bytes c (active_sequence_count p);
  ppv_slot : pipeline_slot p < slots;
  ppv_blocks : 0 < block_token_count p /\ 0 < kv_block_tokens c /\
    0 < max_blocks_per_sequence p <= maximum_context_tokens c / kv_block_tokens c /\ 0 < kv_block_table_token_count p <= U32_MAX;
  ppv_rows : 0 < new_token_count p <= max_prefill_tokens_per_packet c /\ rows_per_lane p = new_token_count p /\
    execution_row_count p = lane_count p * new_token_count p /\ execution_row_count p <= max_active /\
    execution_row_count p <= max_active_sequence_count c <= U32_MAX;
  ppv_bucket : batch_bucket_is_supported (execution_batch_bucket p) = true /\ execution_row_count p <= execution_batch_bucket p;
  ppv_tokens : Z.of_nat (length (prefill_token_ids p)) = max_active_sequence_count c /\
    forall i t, (i < Z.to_nat (execution_row_count p))%nat -> prefill_token_ids p !! i = Some t -> t < output_vocab_count c;
  ppv_quiet : p_mtp_draft_token_count p = 0 /\ 0 <= c_mtp_draft_token_count c /\ p_speculative_token_count p = 0 /\
    speculative_token_index p = 0 /\ 0 <= max_speculative_token_count c /\
    p_speculative_draft_token_ids p = replicate (Z.to_nat (max_speculative_token_count c)) 0;
  ppv_lane i l : lanes p !! i = Some l -> prefill_lane_valid c p i l;
  ppv_first : exists l, lanes p !! 0%nat = Some l /\ p_request_id p = l_request_id l /\ p_sequence_id p = l_sequence_id l /\
    p_sequence_position p = l_sequence_position l /\ p_input_token_id p = l_input_token_id l;
}.

Section accept.
Context {S : Type} (c : WorkControlConfig) (max_active slots : Z) (p : WorkControlPacket).
Context (Hv : prefill_packet_valid c max_active slots p) (s : S).

Lemma accept_counts : validate_counts p c max_active slots s = Ret tt s.
Proof.
  destruct Hv as [_ (_&Hpf&_) (Hl&Hla&Hma&_) Hsz Hsl (Hb&Hkb&Hmb&Ht) (Hn&Hr&Hex&Hexm&Hexc) (Hbs&Hbe) _ _ _ _].
  unfold validate_counts. rewrite (seq_ok _ _ tt).
  2: { apply reject_ok. rewrite <-Hla, Z.eqb_refl.
    rewrite (proj2 (Z.eqb_neq (lane_count p) 0)), (proj2 (Z.ltb_ge (max_lane_count c) _)), (proj2 (Z.eqb_neq (new_token_count p) 0)),
      (proj2 (Z.leb_gt slots _)), (proj2 (Z.eqb_neq (block_token_count p) 0)), (proj2 (Z.eqb_neq (kv_block_table_token_count p) 0)),
      (proj2 (Z.eqb_neq (max_blocks_per_sequence p) 0)) by lia. done. }
  rewrite (seq_ok _ _ (maximum_context_tokens c / kv_block_tokens c)).
  2: { rewrite (proj2 (Z.ltb_ge _ _) Hma), (proj2 (Z.eqb_eq _ _) Hsz). cbn [negb orb]. unfold kv_block_capacity.
    rewrite (proj2 (Z.eqb_neq _ 0)) by lia. done. }
  rewrite (seq_ok _ _ tt) by (apply reject_ok; apply Z.ltb_ge; lia). rewrite Hpf. cbn [negb andb].
  rewrite (seq_ok _ _ tt) by done.
  rewrite (seq_ok _ _ tt) by (apply reject_ok; rewrite (proj2 (Z.eqb_neq _ 0)), (proj2 (Z.ltb_ge _ _)) by lia; done).
  cbv zeta. apply reject_ok. unfold expected_rows_per_lane. rewrite Hpf, Hr, Z.eqb_refl, Hbs. rewrite <-Hex, Z.eqb_refl.
  rewrite !(proj2 (Z.ltb_ge _ _)) by lia. done.
Qed.

Lemma accept_tokens : validate_tokens p c s = Ret tt s.
Proof.
  destruct Hv as [_ (_&Hpf&_&Hds&Hmv&Htr&Hdr&_) (Hl&_) _ _ _ (Hn&Hr&Hex&Hexm&Hexc) _ (Htl&Htv) (Hd0&Hcd&Hs0&Hsi&Hms&Hids) Hlane (l&Hfirst&_&_&_&Hinp)].
  unfold validate_tokens. rewrite Hinp. destruct (Hlane 0%nat l Hfirst) as [_ _ _ (Hvoc&_) _].
  rewrite (seq_ok _ _ tt) by (apply reject_ok, Z.leb_gt; lia). rewrite Hpf.
  rewrite (seq_ok _ _ tt) by (apply tokens_in_vocab_ok; [nia|exact Htv]). rewrite Hds, Hmv, Htr, Hdr, Hd0. cbn [andb].
  rewrite (seq_ok _ _ tt) by done. rewrite (seq_ok _ _ tt) by done. rewrite (seq_ok _ _ tt).
  2: { apply reject_ok. rewrite (proj2 (Z.ltb_ge _ _)) by lia. done. }
  unfold speculative_verify. rewrite Hds, Hmv, Hs0, Hsi. cbn [orb]. rewrite (seq_ok _ _ tt) by done.
  rewrite Hids, (seq_ok _ _ false) by (apply any_nonzero_zero; lia). done.
Qed.

Lemma accept_lanes : for_fold (imap pair (lanes p)) (validate_lane p c) 0 s = Ret 0 s.
Proof.
  destruct Hv as [_ (_&Hpf&_&Hds&Hmv&Htr&_) (Hl&_&_&Hlen) _ _ (Hb&_&Hmb&Ht) (Hn&Hr&Hex&Hexm&Hexc) _ _ (Hd0&_&_&_&Hms&_) Hlane _].
  apply for_fold_const. intros [i l] Hin. apply list_elem_of_lookup in Hin as [j Hj].
  rewrite list_lookup_imap in Hj. apply fmap_Some in Hj as (l'&Hl'&[= -> ->]).
  pose proof (lookup_lt_Some _ _ _ Hl'). apply validate_prefill_lane; try done; try lia.
  - by apply Hlane.
  - unfold speculative_verify. by rewrite Hds, Hmv.
  - nia.
Qed.

Lemma accept_prefill : validate_transaction_fields p c s = Ret tt s -> validate_packet p c max_active slots s = Ret tt s.
Proof.
  intros Htf. pose proof accept_counts as Hcounts. pose proof accept_tokens as Htokens. pose proof accept_lanes as Hlanes.
  destruct Hv as [(Hm&Hab&Hri&Hsi&Hcg) (Hkf&Hpf&Hrel&Hds&Hmv&_&_&Hres) (Hl&_&_&Hlen) _ _ _ _ _ _ _ _ (l&Hfirst&Hr&Hs&Hp&Hi)].
  unfold validate_packet. rewrite (seq_ok _ _ tt) by (apply reject_ok; rewrite Hm, Hab; done).
  rewrite (seq_ok _ _ tt).
  2: { apply reject_ok. rewrite Hkf, (proj2 (Z.eqb_neq _ _) Hri), (proj2 (Z.eqb_neq _ _) Hsi), (proj2 (Z.eqb_neq _ _) Hcg). done. }
  rewrite (seq_ok _ _ tt) by done. rewrite Hrel. unfold validate_work.
  rewrite (seq_ok _ _ tt) by done. rewrite (seq_ok _ _ tt) by done.
  rewrite (seq_ok _ _ (lanes p)) by (by apply slice_all). rewrite (seq_ok _ _ 0) by done.
  rewrite (seq_ok _ _ tt) by (apply reject_ok; rewrite Hres; done).
  rewrite (seq_ok _ _ l) by (unfold index; change (Z.to_nat 0) with 0%nat; by rewrite Hfirst).
  rewrite Hr, Hs, Hp, Hi, !Z.eqb_refl. cbn [negb orb]. unfold speculative_verify. rewrite Hds, Hmv. cbn [orb].
  rewrite (seq_ok _ _ false) by done. done.
Qed.

End accept.

Section composed.
Context (c : WorkControlConfig) (d : PromptPipelinePrefillDispatch).
Context (Hc : node_config c) (Hd : prefill_dispatch_ok c d).
Context (off n rows slots bucket : Z) (first : WorkControlLane).
Context (Hco : chunk_ok c d off n rows) (Hrows : rows <= max_active_sequence_count c) (Hslots : 0 < slots).
Context (Hfirst : (sent_lane c d off n <$> lanes_left d off) !! 0%nat = Some first).
Context (Hsup : batch_bucket_is_supported bucket = true).
Context (Hbucket : Z.of_nat (length (lanes_left d off)) * n <= bucket <= 1024).
Let q := unsigned c d off n bucket first.
Let p := finalized c q STANDALONE_GENERATION 0 1.

Lemma bucket_bound : 0 <= bucket <= 1024.
Proof. pose proof (co_positive _ _ _ _ _ Hco). nia. Qed.

Lemma row_token j i l r : lanes_left d off !! j = Some (i, l) -> 0 <= r < n ->
  sent_tokens d off n (lanes_left d off) !! Z.to_nat (Z.of_nat j * n + r) = chunk_tokens d off n i !! Z.to_nat r.
Proof.
  clear Hbucket. intros Hj Hr. assert (forall ils k, (forall i l, (i, l) ∈ ils -> (i, l) ∈ lanes_left d off) -> ils !! k = Some (i, l) ->
    sent_tokens d off n ils !! Z.to_nat (Z.of_nat k * n + r) = chunk_tokens d off n i !! Z.to_nat r) as H; [|by apply H].
  induction ils as [|[i' l'] ils IH]; intros k Hsub Hk; [done|]. unfold sent_tokens. rewrite fmap_cons. cbn [concat fst].
  pose proof (Hsub i' l' ltac:(by apply list_elem_of_here)) as Hin. destruct (live_elem c d Hd _ _ _ _ Hin) as (Hi&_&_&_&Hlo).
  pose proof (co_positive _ _ _ _ _ Hco) as [Hn0 _].
  pose proof (length_chunk_tokens c d Hd i' off n l' Hi (co_offset _ _ _ _ _ Hco) Hn0 (co_lanes _ _ _ _ _ Hco _ _ Hin) Hlo) as Hlen.
  destruct k as [|k].
  - injection Hk as -> ->. rewrite lookup_app_l by lia. done.
  - cbn in Hk. rewrite lookup_app_r by nia. rewrite Hlen. rewrite <-(IH k); [|intros i0 l0 H0; apply Hsub; by apply list_elem_of_further|done].
    unfold sent_tokens. f_equal. nia.
Qed.

Lemma sent_lane_valid j i l g :
  lanes_left d off !! j = Some (i, l) -> prefill_lane_valid c p j ((sent_lane c d off n (i, l)) <| l_step_generation := g |>).
Proof.
  intros Hj. assert ((i, l) ∈ lanes_left d off) as Hin by (by eapply list_elem_of_lookup_2).
  destruct (live_elem c d Hd _ _ _ _ Hin) as (Hi&_&_&_&Hlo). pose proof (co_lanes _ _ _ _ _ Hco _ _ Hin) as Hfit.
  pose proof (co_positive _ _ _ _ _ Hco) as [Hn0 _]. pose proof (co_offset _ _ _ _ _ Hco) as Hoff.
  destruct (config_pos c Hc) as (Hkp&Hcap&Hceq&_). pose proof (table_count_bound off n _ _ _ Hin) as Htab.
  destruct (left_count c d Hd off n rows Hco Hrows) as (_&Htok&_).
  pose proof (length_chunk_tokens c d Hd i off n l Hi Hoff Hn0 Hfit Hlo) as Hlen.
  assert (chunk_tokens d off n i !! Z.to_nat (n - 1) = Some (List.last (chunk_tokens d off n i) 0)) as Hlast.
  { destruct (exists_last (l := chunk_tokens d off n i)) as (ts&t&Hts); [intros H0; rewrite H0 in Hlen; cbn in Hlen; lia|].
    rewrite Hts in *. rewrite last_last. rewrite length_app in Hlen. cbn in Hlen. rewrite lookup_app_r by lia.
    replace (_ - _)%nat with 0%nat by lia. done. }
  pose proof (lookup_lt_Some _ _ _ Hj) as Hjl.
  assert (sent_tokens d off n (lanes_left d off) !! Z.to_nat (Z.of_nat j * n + n - 1) = Some (List.last (chunk_tokens d off n i) 0)) as Hrow.
  { replace (Z.of_nat j * n + n - 1) with (Z.of_nat j * n + (n - 1)) by lia. rewrite (row_token j i l) by (done || lia). exact Hlast. }
  destruct Hlo. split.
  - cbn. lia.
  - change (new_token_count p) with n. change (kv_block_table_token_count p) with (table_count off n (lanes_left d off)). cbn. lia.
  - change (block_token_count p) with (kv_block_tokens c). change (max_blocks_per_sequence p) with (maximum_context_tokens c / kv_block_tokens c).
    cbn. lia.
  - change (rows_per_lane p) with n. change (prefill_token_ids p) with (prefill_token_ids q). cbn [q prefill_token_ids unsigned].
    cbn. split.
    + apply (token_in_vocab c d Hd _ off n rows (lanes_left d off) Hco). by eapply list_elem_of_lookup_2.
    + rewrite lookup_app_l by (apply lookup_lt_is_Some; eauto). exact Hrow.
  - done.
Qed.

Lemma prefill_packet_ok : prefill_packet_valid c rows slots p.
Proof.
  pose proof (unsigned_finalizable c d Hc Hd off n rows bucket first Hco Hrows bucket_bound Hfirst) as Hfin.
  destruct (left_count c d Hd off n rows Hco Hrows) as (Ha&Htok&Hex). pose proof (nc_bucket _ Hc). pose proof (nc_lanes _ Hc).
  destruct (node_words c Hc) as (Hma&Hml&Hmp&Hmc&Hk&Hvo&Hsp). destruct (config_pos c Hc) as (Hkp&Hcap&Hceq&Hlp).
  pose proof (co_positive _ _ _ _ _ Hco) as Hn. pose proof (co_rows _ _ _ _ _ Hco) as Hr.
  destruct (flags_small d) as (_&Hf1&Hf2&Hf3&Hf4&Hf5&Hf6&Hf7&Hf8). pose proof (nc_ok _ Hc) as (Hcm&_).
  assert (lanes p = set_steps (p_step_generation p) (sent_lane c d off n <$> lanes_left d off)) as Hlanes by apply finalized_lanes.
  pose proof Hfirst as Hf0. rewrite list_lookup_fmap in Hf0. apply fmap_Some in Hf0 as ([i0 l0]&Hl0&Hfl).
  assert ((i0, l0) ∈ lanes_left d off) as Hin0 by (by eapply list_elem_of_lookup_2).
  destruct (live_elem c d Hd _ _ _ _ Hin0) as (_&_&_&_&Hlo0). unfold word32 in *.
  assert (0 < table_count off n (lanes_left d off) <= U32_MAX) as Htab.
  { pose proof (table_count_bound off n _ _ _ Hin0). pose proof (plo_offset _ _ _ Hlo0). pose proof (co_offset _ _ _ _ _ Hco). split; [lia|].
    apply (table_count_le off n (lanes_left d off) U32_MAX); [lia|]. intros i l Hil. pose proof (co_lanes _ _ _ _ _ Hco _ _ Hil).
    destruct (live_elem c d Hd _ _ _ _ Hil) as (_&_&_&_&[]). lia. }
  split.
  - split; [done|]. split; [done|]. change (p_request_id p) with (l_request_id first). change (p_sequence_id p) with (l_sequence_id first).
    rewrite Hfl. destruct Hlo0. cbn. split; [lia|]. split; [lia|]. done.
  - done.
  - change (lane_count p) with (Z.of_nat (length (lanes_left d off))). split; [lia|]. split; [done|]. split; [done || apply Ha|].
    rewrite Hlanes. unfold set_steps. by rewrite !length_fmap.
  - done.
  - done.
  - change (block_token_count p) with (kv_block_tokens c). split; [lia|]. split; [lia|]. split; [|exact Htab].
    change (max_blocks_per_sequence p) with (maximum_context_tokens c / kv_block_tokens c). lia.
  - change (new_token_count p) with n. change (execution_row_count p) with (Z.of_nat (length (lanes_left d off)) * n).
    split; [lia|]. split; [done|]. split; [done|]. lia.
  - split; [exact Hsup|]. change (execution_row_count p) with (Z.of_nat (length (lanes_left d off)) * n). apply Hbucket.
  - split; [apply (finalized_finalizable c q Hfin); unfold STANDALONE_GENERATION; lia|].
    change (execution_row_count p) with (Z.of_nat (length (lanes_left d off)) * n).
    change (prefill_token_ids p) with (prefill_token_ids q). intros i t Hi Ht.
    unfold q, unsigned in Ht. cbn [prefill_token_ids] in Ht. rewrite lookup_app_l in Ht by lia.
    apply (token_in_vocab c d Hd t off n rows (lanes_left d off) Hco). by eapply list_elem_of_lookup_2.
  - split; [done|]. unfold word32 in *. split; [lia|]. split; [done|]. split; [done|]. split; [lia|]. done.
  - intros j l. rewrite Hlanes. unfold set_steps. rewrite !list_lookup_fmap. intros Hl.
    destruct (lanes_left d off !! j) as [[i l']|] eqn:Hj; [|done].
    cbn [fmap option_fmap option_map] in Hl. apply (inj Some) in Hl. rewrite <-Hl. exact (sent_lane_valid j i l' (p_step_generation p) Hj).
  - exists (first <| l_step_generation := p_step_generation p |>). split; [|done].
    rewrite Hlanes. unfold set_steps. rewrite list_lookup_fmap, Hfirst. done.
Qed.

Lemma prefill_packet_accepted {S} (s : S) : validate_packet p c rows slots s = Ret tt s.
Proof.
  apply accept_prefill; [apply prefill_packet_ok|]. apply finalized_fields; [|unfold STANDALONE_GENERATION; lia|lia].
  exact (unsigned_finalizable c d Hc Hd off n rows bucket first Hco Hrows bucket_bound Hfirst).
Qed.

End composed.

(** C13. A selected prefill chunk always goes through.  For every dispatch the serving
    side forms, whenever [select_prefill_chunk] returns a chunk, [build_prefill_packet]
    builds it, [validate_packet] on the receiving node accepts the packet, and the
    packet carries exactly the next [n] tokens of each lane that still has prompt left,
    in lane order, at the right positions. *)
Theorem prefill_chunk_accepted c d off rows n slots :
  node_config c -> prefill_dispatch_ok c d -> 0 <= off -> 0 <= rows <= max_active_sequence_count c -> 0 < slots ->
  select_prefill_chunk c d off rows tt = Ret n tt ->
  exists p, build_prefill_packet c d off n tt = Ret p tt /\
    validate_packet p c rows slots tt = Ret tt tt /\
    set_steps 0 (lanes p) = sent_lane c d off n <$> lanes_left d off /\
    (sent_tokens d off n (lanes_left d off)) `prefix_of` (prefill_token_ids p) /\
    execution_row_count p = Z.of_nat (length (sent_tokens d off n (lanes_left d off))).
Proof.
  intros Hc Hd Hoff Hrows Hslots Hsel.
  destruct (select_prefill_chunk_sound c d Hc Hd off rows n tt tt Hoff ltac:(lia) Hsel) as [_ Hco].
  destruct (build_prefill_spec c d Hc Hd off n rows tt Hco ltac:(lia)) as (b&first&Hfirst&Hsup&Hb&Hbuild).
  exists (finalized c (unsigned c d off n b first) STANDALONE_GENERATION 0 1). split; [exact Hbuild|].
  split; [exact (prefill_packet_accepted c d Hc Hd off n rows slots b first Hco (proj2 Hrows) Hslots Hfirst Hsup Hb tt)|].
  rewrite finalized_lanes, set_steps_twice. split.
  { cbn [lanes unsigned]. unfold set_steps. rewrite <-list_fmap_compose. apply list_fmap_ext. by intros _ [i l] _. }
  split; [by eexists|]. destruct (left_count c d Hd off n rows Hco ltac:(lia)) as (_&Htok&_). by rewrite Htok.
Qed.

(** The receiver of a chunk sees every token of the lane at its place. *)
Lemma chunk_rows c d off n rows j i l r :
  prefill_dispatch_ok c d -> chunk_ok c d off n rows -> lanes_left d off !! j = Some (i, l) -> 0 <= r < n ->
  sent_tokens d off n (lanes_left d off) !! Z.to_nat (Z.of_nat j * n + r) =
  host_token_ids d !! Z.to_nat (i * host_token_stride d + off + r).
Proof.
  intros Hd Hco Hj Hr. rewrite (row_token c d Hd off n rows Hco j i l r Hj Hr).
  assert ((i, l) ∈ lanes_left d off) as Hin by (by eapply list_elem_of_lookup_2).
  destruct (live_elem c d Hd _ _ _ _ Hin) as (Hi&_). pose proof (pdo_stride _ _ Hd).
  apply lookup_chunk_tokens; [done|nia|apply (co_offset _ _ _ _ _ Hco)].
Qed.

(** ** A concrete dispatch *)

(** Two lanes of a ten-token and a four-token prompt, eight rows per packet. *)
Definition sample_config : WorkControlConfig := mkWorkConfig 6 7 64 4 8 100 16 16 15.

Definition sample_dispatch : PromptPipelinePrefillDispatch :=
  mkPrefillDispatch 3 2 2 0 10 10 10
    (mkRequestDispatch 3 0x40 2 1 [11; 12] [21; 22] [31; 32] 16 16 16 0 0)
    (mkPrefillView 2 10 10 [mkPrefillLane 0 0 10 0 21 31 11; mkPrefillLane 1 8 4 1 22 32 12])
    [1; 2; 3; 4; 5; 6; 7; 8; 9; 10; 41; 42; 43; 44; 0; 0; 0; 0; 0; 0]
    (Some (mkTableView 4 2 16 16)).

Lemma sample_config_ok : node_config sample_config.
Proof.
  split.
  - unfold config_ok, word32, max_speculative_token_count. cbn [sample_config c_mtp_draft_token_count
      dspark_max_speculative_token_count max_active_sequence_count]. lia.
  - vm_compute. reflexivity.
  - unfold word32. repeat constructor; vm_compute; intros [=].
  - vm_compute. intros [=].
  - vm_compute. intros [=].
  - vm_compute. reflexivity.
  - vm_compute. intros [=].
Defined.

Lemma sample_dispatch_ok : prefill_dispatch_ok sample_config sample_dispatch.
Proof.
  split.
  - vm_compute. split; [reflexivity|intros [=]].
  - reflexivity.
  - split; reflexivity.
  - eexists. split; reflexivity.
  - vm_compute. split; [reflexivity|intros [=]].
  - vm_compute. split; intros [=].
  - repeat constructor; vm_compute; first [reflexivity|intros [=]].
  - repeat constructor; vm_compute; first [reflexivity|intros [=]].
  - vm_compute. split; intros [=].
  - eexists. split; reflexivity.
  - vm_compute. split; intros [=].
Defined.

Lemma prefill_chunk_accepted_witness :
  select_prefill_chunk sample_config sample_dispatch 0 8 tt = Ret 4 tt /\
  exists p, build_prefill_packet sample_config sample_dispatch 0 4 tt = Ret p tt /\
    validate_packet p sample_config 8 1 tt = Ret tt tt /\
    set_steps 0 (lanes p) = sent_lane sample_config sample_dispatch 0 4 <$> lanes_left sample_dispatch 0 /\
    (sent_tokens sample_dispatch 0 4 (lanes_left sample_dispatch 0)) `prefix_of` (prefill_token_ids p) /\
    execution_row_count p = Z.of_nat (length (sent_tokens sample_dispatch 0 4 (lanes_left sample_dispatch 0))).
Proof.
  split; [vm_compute; reflexivity|].
  apply (prefill_chunk_accepted sample_config sample_dispatch 0 8 4 1).
  - exact sample_config_ok.
  - exact sample_dispatch_ok.
  - lia.
  - vm_compute. split; intros [=].
  - lia.
  - vm_compute. reflexivity.
Defined.
