(* ===== verification/PacketSafety.v ===== *)
(** * Packet validation never panics

    [validate_packet] reads the packet's fixed-size arrays at positions it computes from
    the packet's own counters.  On a packet whose arrays have their declared sizes every
    read is in range, whatever the counters say: the packet is accepted or rejected, and
    the caller's state is untouched. *)

From S2P Require Import KvIndex Prelude WorkTransaction Wire WireProps WorkControl WorkControlProps PrefillPackets.

(** [m] reads only: it returns with [P] or fails, and leaves the state as it was. *)
Definition calm {S A} (m : WC S A) (P : A -> Prop) : Prop :=
  forall s, wp m (fun a s' => s' = s /\ P a) (fun _ s' => s' = s) s.

Section calm.
Context {S : Type}.

Lemma calm_ret {A} (a : A) (P : A -> Prop) : P a -> calm (S := S) (ret a) P.
Proof. intros HP s. by apply wp_ret. Qed.

Lemma calm_throw {A} e (P : A -> Prop) : calm (S := S) (throw e) P.
Proof. intros s. by apply wp_throw. Qed.

Lemma calm_bind {A B} (m : WC S A) (k : A -> WC S B) P Q :
  calm m P -> (forall a, P a -> calm (k a) Q) -> calm (bind m k) Q.
Proof.
  intros Hm Hk s. apply wp_bind. eapply wp_mono; [apply Hm| |intros ?? H'; exact H'].
  intros a s' [-> HP]. by apply Hk.
Qed.

Lemma calm_mono {A} (m : WC S A) (P Q : A -> Prop) : calm m P -> (forall a, P a -> Q a) -> calm m Q.
Proof. intros Hm HPQ s. eapply wp_mono; [apply Hm| |intros ?? H'; exact H']. intros a s' [-> HP]. auto. Qed.

Lemma calm_reject b e : calm (S := S) (reject_if b e) (fun _ => b = false).
Proof. unfold reject_if. destruct b; [apply calm_throw|by apply calm_ret]. Qed.

Lemma calm_if {A} (b : bool) (m n : WC S A) P : (b = true -> calm m P) -> (b = false -> calm n P) -> calm (if b then m else n) P.
Proof. destruct b; auto. Qed.

Lemma calm_index {A} (l : list A) i : 0 <= i < Z.of_nat (length l) -> calm (S := S) (index l i) (fun x => l !! Z.to_nat i = Some x).
Proof. intros Hi s. destruct (lookup_Some_range l i Hi) as [x Hx]. by eapply wp_index. Qed.

Lemma calm_slice {A} (l : list A) lo hi : 0 <= lo <= hi -> hi <= Z.of_nat (length l) ->
  calm (S := S) (slice l lo hi) (fun x => x = take (Z.to_nat (hi - lo)) (drop (Z.to_nat lo) l)).
Proof. intros ? ? s. by apply wp_slice. Qed.

Lemma calm_for_fold {X B} (xs : list X) (body : X -> B -> WC S B) b :
  (forall i x b, xs !! i = Some x -> calm (body x b) (fun _ => True)) -> calm (for_fold xs body b) (fun _ => True).
Proof.
  revert b. induction xs as [|x xs IH]; intros b Hb; [by apply calm_ret|]. cbn [for_fold].
  eapply calm_bind; [by apply (Hb 0%nat)|]. intros b' _. apply IH. intros i y b2 Hi. by apply (Hb (Datatypes.S i)).
Qed.

Lemma calm_any_nonzero ids lo hi : 0 <= lo <= hi -> hi <= Z.of_nat (length ids) -> calm (S := S) (any_nonzero ids lo hi) (fun _ => True).
Proof. intros. unfold any_nonzero. eapply calm_bind; [by apply calm_slice|]. intros a _. by apply calm_ret. Qed.

Lemma calm_tokens c ids n : n <= Z.of_nat (length ids) -> calm (S := S) (tokens_in_vocab c ids n) (fun _ => True).
Proof.
  intros Hn. unfold tokens_in_vocab. apply calm_for_fold. intros i x b Hx%lookup_range.
  eapply calm_bind; [apply calm_index; lia|]. intros t _. eapply calm_mono; [apply calm_reject|done].
Qed.

End calm.

(** Peel one [reject_if] and keep what it established. *)
Ltac calm_guard H := eapply calm_bind; [apply calm_reject|intros [] H].

Section packet.
Context {S : Type} (c : WorkControlConfig) (p : WorkControlPacket).
Context (Hp : packet_words c p) (Hc : config_ok c) (Htokens : kv_block_tokens c <> 0).

Lemma packet_lengths :
  Z.of_nat (length (p_speculative_draft_token_ids p)) = max_speculative_token_count c /\
  Z.of_nat (length (prefill_token_ids p)) = max_active_sequence_count c /\
  Z.of_nat (length (lanes p)) = lane_count p /\ 0 <= max_speculative_token_count c.
Proof.
  destruct Hp as (_&_&[H1 _]&[H2 _]&[H3 _]). pose proof (speculative_range c Hc). split_and!; try done. lia.
Qed.

Lemma lane_length i l : lanes p !! i = Some l -> Z.of_nat (length (l_speculative_draft_token_ids l)) = max_speculative_token_count c.
Proof. intros Hl. destruct Hp as (_&_&_&_&[_ Hls]). apply (Forall_lookup_1 _ _ _ _ Hls Hl). Qed.

Lemma calm_transaction_fields : calm (S := S) (validate_transaction_fields p c) (fun _ => lane_count p <> 0).
Proof.
  pose proof packet_lengths as (_&_&Hl&_). unfold validate_transaction_fields. apply calm_if; intros Hg; [apply calm_throw|].
  rewrite !orb_false_iff, Z.eqb_neq in Hg. destruct Hg as ((((Hn&_)&_)&_)&_).
  eapply (calm_bind _ _ (fun _ => True)).
  - unfold get_transaction_identity. cbv zeta. apply calm_if; intros _; [by apply calm_ret|apply calm_throw].
  - intros _ _. eapply (calm_bind _ _ (fun _ => True)).
    + apply calm_if; intros _; [by apply calm_ret|]. eapply calm_bind; [apply calm_index; lia|]. intros a _. by apply calm_ret.
    + intros bad _. apply calm_if; intros _; [apply calm_throw|]. eapply calm_bind; [apply calm_slice; lia|].
      intros ls _. apply calm_if; intros _; [apply calm_throw|by apply calm_ret].
Qed.

Lemma calm_release slots : lane_count p <> 0 ->
  calm (S := S) (validate_release p c slots) (fun _ => lane_count p = active_sequence_count p /\ block_token_count p <> 0).
Proof.
  intros Hn. pose proof packet_lengths as (Hs&_&Hl&Hs0). unfold validate_release. calm_guard Hg.
  rewrite !orb_false_iff, !negb_false_iff, !Z.eqb_neq, !Z.eqb_eq in Hg.
  eapply calm_bind; [apply calm_any_nonzero; lia|]. intros d _. calm_guard Hd.
  eapply calm_bind; [apply calm_slice; lia|]. intros ls ->. eapply calm_bind.
  - apply calm_for_fold. intros i l [] Hi%lookup_take_Some. destruct Hi as [Hi _]. rewrite lookup_drop in Hi. unfold validate_release_lane.
    calm_guard Hr. pose proof (lane_length _ _ Hi). eapply calm_bind; [apply calm_any_nonzero; lia|]. intros b _.
    eapply calm_mono; [apply calm_reject|done].
  - intros [] _. eapply calm_bind; [apply calm_index; lia|]. intros l _. eapply calm_mono; [apply calm_reject|]. intros. tauto.
Qed.

Section work.
Context (max_active slots : Z) (Hmax : max_active <= max_active_sequence_count c).

(** What the header checks establish for the later array reads. *)
Record counts_ok : Prop := {
  cn_lanes : lane_count p = active_sequence_count p;
  cn_block : block_token_count p <> 0;
  cn_rows : rows_per_lane p = expected_rows_per_lane p;
  cn_total : execution_row_count p = lane_count p * rows_per_lane p;
  cn_fits : execution_row_count p <= max_active;
  cn_new : new_token_count p <> 0;
}.

Lemma calm_counts : calm (S := S) (validate_counts p c max_active slots) (fun _ => counts_ok).
Proof.
  unfold validate_counts. calm_guard Hg. rewrite !orb_false_iff, !negb_false_iff, !Z.eqb_neq, !Z.eqb_eq in Hg.
  eapply (calm_bind _ _ (fun _ => True)).
  { apply calm_if; intros _; [apply calm_throw|]. unfold kv_block_capacity. rewrite (proj2 (Z.eqb_neq _ _)) by done. by apply calm_ret. }
  intros cap _. calm_guard H1. calm_guard H2. calm_guard H3. cbv zeta. eapply calm_mono; [apply calm_reject|].
  intros [] Hr. rewrite !orb_false_iff, !negb_false_iff, !Z.eqb_eq, !Z.ltb_ge in Hr. destruct Hr as (((((Hr1&_)&Hr2)&Hr3)&_)&_).
  split; try tauto; try lia.
Qed.

Definition drafts_ok : Prop := speculative_verify p = true -> 0 < p_speculative_token_count p <= max_speculative_token_count c.

Lemma calm_header_tokens : counts_ok -> calm (S := S) (validate_tokens p c) (fun _ => drafts_ok).
Proof.
  intros Hn. pose proof packet_lengths as (Hs&Hpre&_&Hs0). destruct Hn as [_ _ _ _ Hfit _]. unfold validate_tokens.
  assert (0 <= p_speculative_token_count p) as Hsp.
  { destruct Hp as (Hw&_). rewrite !Forall_cons in Hw. unfold word32 in Hw. tauto. }
  calm_guard H1. eapply (calm_bind _ _ (fun _ => True)).
  { apply calm_if; intros _; [apply calm_tokens; lia|by apply calm_ret]. }
  intros _ _. calm_guard H2. calm_guard H3. calm_guard H4. unfold drafts_ok. apply calm_if; intros Hsv.
  - calm_guard H5. rewrite !orb_false_iff, !negb_false_iff, !Z.eqb_neq, !Z.eqb_eq, !Z.ltb_ge in H5.
    eapply (calm_bind _ _ (fun _ => True)); [apply calm_if; intros _; eapply calm_mono; [apply calm_reject|done|apply calm_reject|done]|].
    intros _ _. eapply calm_bind; [apply calm_tokens; lia|]. intros _ _.
    eapply calm_bind; [apply calm_any_nonzero; lia|]. intros d _. eapply calm_mono; [apply calm_reject|]. intros _ _ _. lia.
  - calm_guard H5. eapply calm_bind; [apply calm_any_nonzero; lia|]. intros d _. eapply calm_mono; [apply calm_reject|]. congruence.
Qed.

Lemma calm_resolution l n : calm (S := S) (validate_resolution p c l n) (fun _ => True).
Proof. unfold validate_resolution. apply calm_if; intros _; calm_guard H1; by apply calm_ret. Qed.

Lemma calm_lane_drafts i l : lanes p !! i = Some l -> drafts_ok -> calm (S := S) (validate_lane_drafts p c l) (fun _ => True).
Proof.
  intros Hl Hd. pose proof (lane_length _ _ Hl). pose proof packet_lengths as (_&_&_&Hs0). unfold validate_lane_drafts. apply calm_if; intros Hsv.
  - specialize (Hd Hsv). calm_guard H1. rewrite !orb_false_iff, !negb_false_iff, !Z.eqb_eq in H1.
    eapply calm_bind; [apply calm_tokens; lia|]. intros _ _. eapply calm_bind; [apply calm_any_nonzero; lia|].
    intros d _. eapply calm_mono; [apply calm_reject|done].
  - calm_guard H1. eapply calm_bind; [apply calm_any_nonzero; lia|]. intros d _. eapply calm_mono; [apply calm_reject|done].
Qed.

(** The last token of a lane's prefill chunk lies inside the packet's token array. *)
Lemma last_row_range (i : nat) : counts_ok -> prefill_flag p = true -> Z.of_nat i < lane_count p ->
  0 <= ((Z.of_nat i *u64 rows_per_lane p) +u64 rows_per_lane p) -u64 1 < Z.of_nat (length (prefill_token_ids p)).
Proof.
  intros Hn Hpf Hi. pose proof packet_lengths as (_&Hpre&_&_). destruct Hn as [_ _ Hr Ht Hfit Hnew].
  unfold expected_rows_per_lane in Hr. rewrite Hpf in Hr. assert (0 <= new_token_count p <= U32_MAX) as Hw.
  { destruct Hp as (Hw&_). rewrite !Forall_cons in Hw. unfold word32 in Hw. tauto. }
  assert (max_active_sequence_count c <= U32_MAX) as Hm by (destruct Hc as (_&_&Hm&_); unfold word32 in Hm; lia).
  assert ((Z.of_nat i + 1) * rows_per_lane p <= lane_count p * rows_per_lane p) by (apply Z.mul_le_mono_nonneg_r; lia).
  rewrite (u64_small (Z.of_nat i * rows_per_lane p)) by nia. rewrite (u64_small (_ + _)) by nia. rewrite u64_small by nia. nia.
Qed.

Lemma calm_lane i l n : counts_ok -> drafts_ok -> lanes p !! i = Some l -> calm (S := S) (validate_lane p c (i, l) n) (fun _ => True).
Proof.
  intros Hn Hd Hl. pose proof packet_lengths as (_&_&Hlen&_). pose proof (lookup_lt_Some _ _ _ Hl).
  unfold validate_lane. calm_guard H1. eapply (calm_bind _ _ (fun _ => True)).
  - apply calm_if; intros Hpf; [|by apply calm_ret]. eapply (calm_bind _ _ (fun _ => True)).
    + apply calm_if; intros _; [by apply calm_ret|]. eapply calm_bind; [apply calm_index, last_row_range; [done|done|lia]|].
      intros t _. by apply calm_ret.
    + intros b _. eapply calm_mono; [apply calm_reject|done].
  - intros _ _. eapply calm_bind; [apply calm_resolution|]. intros m _. eapply calm_bind; [by apply (calm_lane_drafts i)|].
    intros _ _. by apply calm_ret.
Qed.

Lemma calm_work : lane_count p <> 0 ->
  calm (S := S) (validate_work p c max_active slots) (fun _ => lane_count p = active_sequence_count p /\ block_token_count p <> 0).
Proof.
  intros Hn0. pose proof packet_lengths as (Hs&_&Hl&Hs0). unfold validate_work. eapply calm_bind; [apply calm_counts|]. intros [] Hn.
  eapply calm_bind; [by apply calm_header_tokens|]. intros [] Hd. eapply calm_bind; [apply calm_slice; lia|]. intros ls ->.
  eapply calm_bind.
  { apply calm_for_fold. intros i [j l] b Hi. rewrite list_lookup_imap in Hi. apply fmap_Some in Hi as (l'&Hi&[= -> ->]).
    apply lookup_take_Some in Hi as [Hi _]. rewrite lookup_drop in Hi. by apply calm_lane. }
  intros m _. calm_guard H1. destruct (lookup_Some_range (lanes p) 0) as [l0 Hl0]; [lia|]. eapply calm_bind; [apply calm_index; lia|].
  intros first Hfirst. pose proof (lane_length _ _ Hfirst). eapply (calm_bind _ _ (fun _ => True)).
  - apply calm_if; intros _; [by apply calm_ret|]. apply calm_if; intros _; [|by apply calm_ret].
    eapply calm_bind; [apply calm_slice; lia|]. intros a _. eapply calm_bind; [apply calm_slice; lia|]. intros b _. by apply calm_ret.
  - intros b _. eapply calm_mono; [apply calm_reject|]. intros _ _. by destruct Hn.
Qed.

End work.

Lemma validate_packet_calm max_active slots : max_active <= max_active_sequence_count c ->
  calm (S := S) (validate_packet p c max_active slots) (fun _ => lane_count p = active_sequence_count p /\ block_token_count p <> 0).
Proof.
  intros Hmax. unfold validate_packet. calm_guard H1. calm_guard H2. eapply calm_bind; [apply calm_transaction_fields|]. intros [] Hn.
  apply calm_if; intros _; [by apply calm_release|by apply calm_work].
Qed.

End packet.

(** C25. Validating a packet never panics: on any packet whose arrays have the sizes its
    configuration declares, whatever its counters and flags say, [validate_packet] accepts
    or rejects and leaves the caller's state as it was, provided the caller passes at most
    the configured number of active sequences; an accepted packet has as many lanes as
    active sequences and a nonzero block size. *)
Theorem validate_packet_never_panics {S} (c : WorkControlConfig) (p : WorkControlPacket) (max_active slots : Z) (s : S) :
  packet_words c p -> config_ok c -> kv_block_tokens c <> 0 -> max_active <= max_active_sequence_count c ->
  (validate_packet p c max_active slots s = Ret tt s /\ lane_count p = active_sequence_count p /\ block_token_count p <> 0) \/
  exists e, validate_packet p c max_active slots s = Fails e s.
Proof.
  intros Hp Hc Ht Hm. destruct (wp_elim _ _ _ _ (validate_packet_calm (S := S) c p Hp Hc Ht max_active slots Hm s))
    as [([]&s'&Hr&->&Hf)|(e&s'&Hr&->)]; [left|right]; eauto.
Qed.

Lemma validate_packet_never_panics_witness :
  (validate_packet tiny_packet tiny_config 4 1 tt = Ret tt tt /\ lane_count tiny_packet = active_sequence_count tiny_packet /\
     block_token_count tiny_packet <> 0) \/
  exists e, validate_packet tiny_packet tiny_config 4 1 tt = Fails e tt.
Proof.
  apply (validate_packet_never_panics tiny_config tiny_packet 4 1 tt).
  - apply tiny_packet_ok.
  - apply tiny_packet_ok.
  - done.
  - done.
Defined.
