(* ===== verification/KvDirectory.v ===== *)
(** * The KV block directory (work_control.rs, [KvState])

    Maps [(sequence, logical block)] slots onto block records and block records onto
    physical GPU blocks, with reference-counted sharing, a clock sweep that spills
    resident blocks to backing storage through the [KvSwapHooks] trait, and the per-packet
    operations that build, commit, cancel and release the host block table.
    This file holds the definitions; [KvDirectoryInv] the invariant and
    [KvDirectoryProps] the properties. *)

From S2P Require Import KvIndex Prelude WorkTransaction Wire WorkControl.

(** ** Constants *)

Definition KV_STATE_DESCRIPTOR_BYTES : Z := 256.

Definition KV_CACHE_ABI_VERSION : Z := 2.

Definition KV_BLOCK_TABLE_VIEW_DESCRIPTOR_BYTES : Z := 56.

Definition KV_ENTRY_MISSING : Z := 0.

Definition KV_ENTRY_IN_FLIGHT : Z := 1.

Definition KV_ENTRY_RESIDENT : Z := 2.

Definition KV_ENTRY_TRANSIENT : Z := 3.

Definition KV_DIRECTORY_RESIDENCY_GPU : Z := 1.

Definition KV_DIRECTORY_RESIDENCY_NVME : Z := 2.

Definition KV_INVALID_BLOCK_INDEX : Z := U32_MAX.

(** ** Entries *)

Record KvDirectoryEntry := mkDirEntry { d_key : KvKey; d_block_key : KvKey }.

Record KvBlockEntry := mkBlockEntry {
  b_key : KvKey;
  physical_block_index : Z;
  backing_block_index : Z;
  reference_count : Z;
  residency_state : Z;
  backing_valid : bool;
  prefetch_mark : Z;
}.

Record KvPrefetchEntry := mkPrefetchEntry { pf_key : KvKey; pf_backing_block_index : Z }.

#[export] Instance KvDirectoryEntry_eta : RecordEta KvDirectoryEntry := fun e => mkDirEntry (d_key e) (d_block_key e).

#[export] Instance KvBlockEntry_eta : RecordEta KvBlockEntry := fun e =>
  mkBlockEntry (b_key e) (physical_block_index e) (backing_block_index e) (reference_count e)
    (residency_state e) (backing_valid e) (prefetch_mark e).

#[export] Instance KvDirectoryEntry_indexed : KvIndexed KvDirectoryEntry :=
  {| entry_key := d_key; entry_default := mkDirEntry empty_key empty_key; entry_default_key := eq_refl |}.

#[export] Instance KvBlockEntry_indexed : KvIndexed KvBlockEntry :=
  {| entry_key := b_key; entry_default := mkBlockEntry empty_key 0 0 0 0 false 0; entry_default_key := eq_refl |}.

(** [kv_committed_frontier(lane)] *)
Definition kv_committed_frontier (lane : WorkControlLane) : Z :=
  let outstanding_token_count := l_speculative_token_count lane + l_mtp_draft_token_count lane in
  if outstanding_token_count <? context_token_count lane then context_token_count lane - outstanding_token_count else 0.

(** [kv_select_key]: the content key the caller published for a committed block. *)
Definition kv_select_key {S E} (lane_keys : option (list KvKey)) (sequence_id logical_block_index block_end_token
    committed_frontier : Z) : M S E KvKey :=
  match lane_keys with
  | Some keys =>
      if block_end_token <=? committed_frontier then
        let! key := index keys logical_block_index in
        if negb (key_is_empty key) then ret (content_key (key_low key) (key_high key))
        else ret (private_key sequence_id logical_block_index)
      else ret (private_key sequence_id logical_block_index)
  | None => ret (private_key sequence_id logical_block_index)
  end.

(** ** The state *)

(** [trait KvSwapHooks]: storage calls on the implementer's own state. *)
Class KvSwapHooks (H : Type) := {
  hook_store : KvKey -> Z -> Z -> H -> option WorkControlError * H;
  hook_load : KvKey -> Z -> Z -> H -> option WorkControlError * H;
}.

Section KvState.
Context {H : Type} `{!KvSwapHooks H}.

Record KvState := mkKvState {
  k_abi_version : Z;
  k_descriptor_bytes : Z;
  lane_capacity : Z;
  lane_stride : Z;
  k_block_token_count : Z;
  table_entry_capacity : Z;
  physical_block_capacity : Z;
  directory_capacity : Z;
  block_entry_capacity : Z;
  lane_block_key_stride : Z;
  next_physical_block_index : Z;
  backing_block_capacity : Z;
  free_backing_block_head : Z;
  directory_entry_count : Z;
  block_entry_count : Z;
  swapped_block_count : Z;
  clean_evict_count : Z;
  epoch : Z;
  k_control_generation : Z;
  control_generation_reset_count : Z;
  missing_block_count : Z;
  in_flight_block_count : Z;
  resident_block_count : Z;
  allocated_physical_block_count : Z;
  swap_store_count : Z;
  swap_load_count : Z;
  prefetch_generation : Z;
  share_hit_count : Z;
  share_admit_count : Z;
  physical_block_indices : list Z;
  lane_physical_block_counts : list Z;
  physical_block_states : list Z;
  physical_block_keys : list KvKey;
  physical_block_last_used_epochs : list Z;
  physical_block_pin_counts : option (list Z);
  directory_entries : list KvDirectoryEntry;
  block_entries : list KvBlockEntry;
  lane_block_keys : option (list KvKey);
  backing_block_free_next : option (list Z);
  swap_hooks : option H;
}.

#[global] Instance KvState_eta : RecordEta KvState := fun s =>
  mkKvState (k_abi_version s) (k_descriptor_bytes s) (lane_capacity s) (lane_stride s) (k_block_token_count s)
    (table_entry_capacity s) (physical_block_capacity s) (directory_capacity s) (block_entry_capacity s)
    (lane_block_key_stride s) (next_physical_block_index s) (backing_block_capacity s) (free_backing_block_head s)
    (directory_entry_count s) (block_entry_count s) (swapped_block_count s) (clean_evict_count s) (epoch s)
    (k_control_generation s) (control_generation_reset_count s) (missing_block_count s) (in_flight_block_count s)
    (resident_block_count s) (allocated_physical_block_count s) (swap_store_count s) (swap_load_count s)
    (prefetch_generation s) (share_hit_count s) (share_admit_count s) (physical_block_indices s)
    (lane_physical_block_counts s) (physical_block_states s) (physical_block_keys s)
    (physical_block_last_used_epochs s) (physical_block_pin_counts s) (directory_entries s) (block_entries s)
    (lane_block_keys s) (backing_block_free_next s) (swap_hooks s).

Abbreviation KM := (M KvState WorkControlError).

(** [x & (x - 1)] on [u32]. *)
Definition not_power_of_two (x : Z) : bool := negb (Z.land x (x -u32 1) =? 0).

Definition fresh_state (lane_cap stride block_tokens physical_cap directory_cap block_cap : Z) : KvState :=
  mkKvState WORK_ABI_VERSION KV_STATE_DESCRIPTOR_BYTES lane_cap stride block_tokens (lane_cap * stride) physical_cap
    directory_cap block_cap 0 0 0 KV_INVALID_BLOCK_INDEX 0 0 0 0 0 0 0 0 0 0 0 0 0 0 0 0
    (replicate (Z.to_nat (lane_cap * stride)) KV_INVALID_BLOCK_INDEX)
    (replicate (Z.to_nat lane_cap) 0)
    (replicate (Z.to_nat physical_cap) KV_ENTRY_MISSING)
    (replicate (Z.to_nat physical_cap) empty_key)
    (replicate (Z.to_nat physical_cap) 0)
    None
    (replicate (Z.to_nat directory_cap) entry_default)
    (replicate (Z.to_nat block_cap) entry_default)
    None None None.

(** [KvState::new] *)
Definition new_kv_state {S} (lane_cap stride block_tokens physical_cap directory_cap block_cap : Z)
    : M S WorkControlError KvState :=
  if (lane_cap =? 0) || (stride =? 0) || (block_tokens =? 0) || (physical_cap =? 0)
     || (U32_MAX / 2 <? physical_cap)
     || (directory_cap <? physical_cap *u32 2) || not_power_of_two directory_cap
     || (block_cap <? physical_cap *u32 2) || not_power_of_two block_cap
  then throw InvalidArgument
  else if U32_MAX <? lane_cap * stride then throw CapacityExceeded
  else ret (fresh_state lane_cap stride block_tokens physical_cap directory_cap block_cap).

(** ** Configuration *)

(** The free list over all backing blocks. *)
Definition free_chain (capacity : Z) (n : nat) : list Z :=
  imap (fun i (_ : unit) => if Z.of_nat i + 1 <? capacity then u32 (Z.of_nat i) +u32 1 else KV_INVALID_BLOCK_INDEX) (replicate n tt).

Definition configure_kv_swap (capacity : Z) (hooks : H) : KM unit :=
  let! s := gets id in
  if negb (k_abi_version s =? WORK_ABI_VERSION) || negb (k_descriptor_bytes s =? KV_STATE_DESCRIPTOR_BYTES)
     || (capacity =? 0) || (directory_capacity s / 2 <? capacity) || negb (directory_entry_count s =? 0)
     || negb (allocated_physical_block_count s =? 0) || negb (backing_block_capacity s =? 0)
  then throw InvalidArgument
  else modify (fun s => s <| backing_block_capacity := capacity |> <| free_backing_block_head := 0 |>
    <| backing_block_free_next := Some (free_chain capacity (Z.to_nat capacity)) |> <| swap_hooks := Some hooks |>).

Definition configure_kv_pins : KM unit :=
  let! s := gets id in
  if negb (k_abi_version s =? WORK_ABI_VERSION) || negb (k_descriptor_bytes s =? KV_STATE_DESCRIPTOR_BYTES)
     || bool_decide (is_Some (physical_block_pin_counts s)) || negb (directory_entry_count s =? 0)
     || negb (allocated_physical_block_count s =? 0)
  then throw InvalidArgument
  else modify (fun s => s <| physical_block_pin_counts := Some (replicate (Z.to_nat (physical_block_capacity s)) 0) |>).

Definition configure_kv_sharing (keys : option (list KvKey)) (stride : Z) : KM unit :=
  let! s := gets id in
  if negb (k_abi_version s =? WORK_ABI_VERSION) || negb (Bool.eqb (bool_decide (keys = None)) (stride =? 0))
     || (lane_stride s <? stride)
  then throw InvalidArgument
  else modify (fun s => s <| lane_block_keys := keys |> <| lane_block_key_stride := stride |>).

(** ** Pins *)

Definition pin_physical_block (i : Z) : KM unit :=
  let! s := gets id in
  let! bad := (if physical_block_capacity s <=? i then ret true
               else let! k := index (physical_block_keys s) i in ret (key_is_empty k)) in
  if bad then throw InvalidArgument else
  let! pins := some_or InvalidArgument (physical_block_pin_counts s) in
  let! n := index pins i in
  if n =? U32_MAX then throw InvalidArgument
  else modify (fun s => s <| physical_block_pin_counts := Some (<[Z.to_nat i := n +u32 1]> pins) |>).

Definition unpin_physical_block (i : Z) : KM unit :=
  let! s := gets id in
  if physical_block_capacity s <=? i then throw InvalidArgument else
  let! pins := some_or InvalidArgument (physical_block_pin_counts s) in
  let! n := index pins i in
  if n =? 0 then throw InvalidArgument
  else modify (fun s => s <| physical_block_pin_counts := Some (<[Z.to_nat i := n -u32 1]> pins) |>).

(** [if let Some(pins) { if pins[i] != 0 { .. } }] *)
Definition is_pinned (i : Z) : KM bool :=
  let! s := gets id in
  match physical_block_pin_counts s with
  | Some pins => let! n := index pins i in ret (negb (n =? 0))
  | None => ret false
  end.

(** ** Generations *)

Definition reset_backing_blocks : KM unit :=
  modify (fun s => match backing_block_free_next s with
    | None => s <| free_backing_block_head := KV_INVALID_BLOCK_INDEX |>
    | Some free_next =>
        s <| backing_block_free_next := Some (free_chain (backing_block_capacity s) (length free_next)) |>
          <| free_backing_block_head := 0 |>
    end).

(** [v.fill(x)] *)
Definition fill {A} (x : A) (l : list A) : list A := (fun _ => x) <$> l.

Definition reset_kv_generation (control_generation : Z) : KM unit :=
  do! modify (fun s => s
    <| physical_block_indices := fill KV_INVALID_BLOCK_INDEX (physical_block_indices s) |>
    <| lane_physical_block_counts := fill 0 (lane_physical_block_counts s) |>
    <| physical_block_states := fill KV_ENTRY_MISSING (physical_block_states s) |>
    <| physical_block_keys := fill empty_key (physical_block_keys s) |>
    <| physical_block_last_used_epochs := fill 0 (physical_block_last_used_epochs s) |>
    <| physical_block_pin_counts := fill 0 <$> physical_block_pin_counts s |>
    <| directory_entries := fill entry_default (directory_entries s) |>
    <| block_entries := fill entry_default (block_entries s) |>) in
  do! reset_backing_blocks in
  modify (fun s => s
    <| next_physical_block_index := 0 |> <| directory_entry_count := 0 |> <| block_entry_count := 0 |>
    <| swapped_block_count := 0 |> <| epoch := 0 |> <| missing_block_count := 0 |> <| in_flight_block_count := 0 |>
    <| resident_block_count := 0 |> <| allocated_physical_block_count := 0 |>
    <| k_control_generation := control_generation |>
    <| control_generation_reset_count := control_generation_reset_count s +u64 1 |>).

Definition advance_kv_generation (control_generation : Z) : KM unit :=
  if control_generation =? 0 then throw InvalidArgument else
  let! s := gets id in
  if control_generation <? k_control_generation s then throw ValidationFailed
  else if negb (control_generation =? k_control_generation s) then reset_kv_generation control_generation
  else ret tt.

Definition select_kv_generation (p : WorkControlPacket) : KM unit :=
  catch (advance_kv_generation (p_control_generation p))
    (fun e => if bool_decide (e = ValidationFailed) then throw NotFound else throw e).

(** ** Readiness counters *)

Definition reset_readiness_counts : KM unit :=
  modify (fun s => s <| missing_block_count := 0 |> <| in_flight_block_count := 0 |> <| resident_block_count := 0 |>).

Definition account_readiness (entry_state : Z) : KM unit :=
  modify (fun s =>
    if entry_state =? KV_ENTRY_RESIDENT then s <| resident_block_count := resident_block_count s +u32 1 |>
    else if entry_state =? KV_ENTRY_IN_FLIGHT then s <| in_flight_block_count := in_flight_block_count s +u32 1 |>
    else s <| missing_block_count := missing_block_count s +u32 1 |>).

(** ** Lookups *)

Definition find_directory (sequence_id logical_block_index : Z) : KM (option Z) :=
  let! s := gets id in kv_index_find (directory_entries s) (private_key sequence_id logical_block_index).

Definition find_block (block_key : KvKey) : KM (option Z) :=
  let! s := gets id in kv_index_find (block_entries s) block_key.

Definition kv_sequence_block (sequence_id logical_block_index : Z) : KM (option Z) :=
  let! o := find_directory sequence_id logical_block_index in
  match o with
  | None => ret None
  | Some slot =>
      let! s := gets id in
      let! e := index (directory_entries s) slot in
      find_block (d_block_key e)
  end.

(** [self.block_entries[slot].field = ..] *)
Definition upd_block (slot : Z) (f : KvBlockEntry -> KvBlockEntry) : KM unit :=
  let! s := gets id in
  do! index (block_entries s) slot in
  modify (fun s => s <| block_entries := upd_nth slot f (block_entries s) |>).

Definition block_at (slot : Z) : KM KvBlockEntry := let! s := gets id in index (block_entries s) slot.

Definition dir_at (slot : Z) : KM KvDirectoryEntry := let! s := gets id in index (directory_entries s) slot.

Definition set_dir (slot : Z) (e : KvDirectoryEntry) : KM unit :=
  do! dir_at slot in
  modify (fun s => s <| directory_entries := <[Z.to_nat slot := e]> (directory_entries s) |>).

(** [self.physical_block_*[i] = ..] for the three parallel arrays. *)
Definition set_physical (i : Z) (key : KvKey) (used_epoch state : Z) : KM unit :=
  let! s := gets id in
  do! index (physical_block_keys s) i in
  do! modify (fun s => s <| physical_block_keys := <[Z.to_nat i := key]> (physical_block_keys s) |>) in
  do! index (physical_block_last_used_epochs s) i in
  do! modify (fun s => s <| physical_block_last_used_epochs := <[Z.to_nat i := used_epoch]> (physical_block_last_used_epochs s) |>) in
  do! index (physical_block_states s) i in
  modify (fun s => s <| physical_block_states := <[Z.to_nat i := state]> (physical_block_states s) |>).

Definition kv_clear_physical_block (i : Z) : KM unit := set_physical i empty_key 0 KV_ENTRY_MISSING.

Definition kv_assign_physical_block (i : Z) (key : KvKey) (state : Z) : KM unit :=
  let! s := gets id in
  do! set_physical i key (epoch s) state in
  modify (fun s => s <| allocated_physical_block_count := allocated_physical_block_count s +u32 1 |>).

(** ** Backing blocks *)

Definition kv_backing_acquire : KM Z :=
  let! s := gets id in
  if backing_block_capacity s =? 0 then ret KV_INVALID_BLOCK_INDEX else
  let i := free_backing_block_head s in
  if backing_block_capacity s <=? i then throw CapacityExceeded else
  let! free_next := some_or InternalError (backing_block_free_next s) in
  let! next := index free_next i in
  do! modify (fun s => s <| free_backing_block_head := next |>
    <| backing_block_free_next := Some (<[Z.to_nat i := KV_INVALID_BLOCK_INDEX]> free_next) |>) in
  ret i.

Definition kv_backing_release (i : Z) : KM unit :=
  let! s := gets id in
  if backing_block_capacity s =? 0 then
    (if i =? KV_INVALID_BLOCK_INDEX then ret tt else throw InternalError)
  else
    let! free_next := some_or InternalError (backing_block_free_next s) in
    let! bad := (if backing_block_capacity s <=? i then ret true
                 else let! next := index free_next i in ret (negb (next =? KV_INVALID_BLOCK_INDEX))) in
    if bad then throw InternalError
    else modify (fun s => s <| backing_block_free_next := Some (<[Z.to_nat i := free_backing_block_head s]> free_next) |>
      <| free_backing_block_head := i |>).

(** [self.swap_hooks.as_mut().ok_or(InternalError)?.f(..)?] *)
Definition call_hook (f : H -> option WorkControlError * H) : KM unit :=
  let! s := gets id in
  let! hooks := some_or InternalError (swap_hooks s) in
  let '(err, hooks') := f hooks in
  do! modify (fun s => s <| swap_hooks := Some hooks' |>) in
  match err with Some e => throw e | None => ret tt end.

(** ** Spilling and acquiring physical blocks *)

Definition kv_spill_block (slot i : Z) : KM unit :=
  let! entry := block_at slot in
  do! (if negb (backing_valid entry) then
    do! call_hook (hook_store (b_key entry) i (backing_block_index entry)) in
    do! upd_block slot (fun e => e <| backing_valid := true |>) in
    modify (fun s => s <| swap_store_count := swap_store_count s +u64 1 |>)
  else modify (fun s => s <| clean_evict_count := clean_evict_count s +u32 1 |>)) in
  do! upd_block slot (fun e => e <| physical_block_index := KV_INVALID_BLOCK_INDEX |>
    <| residency_state := KV_DIRECTORY_RESIDENCY_NVME |>) in
  do! kv_clear_physical_block i in
  modify (fun s => s <| allocated_physical_block_count := allocated_physical_block_count s -u32 1 |>
    <| swapped_block_count := swapped_block_count s +u32 1 |>).

(** One turn of the clock sweep. *)
Definition sweep_round (_ : Z) : KM (option Z) :=
  let! s := gets id in
  let i := next_physical_block_index s in
  if physical_block_capacity s =? 0 then panic else
  do! modify (fun s => s <| next_physical_block_index := (i +u32 1) mod physical_block_capacity s |>) in
  let! pinned := is_pinned i in
  if pinned then ret None else
  let! key := index (physical_block_keys s) i in
  if key_is_empty key then ret (Some i) else
  if backing_block_capacity s =? 0 then ret None else
  let! state := index (physical_block_states s) i in
  if negb (state =? KV_ENTRY_RESIDENT) then ret None else
  let! used := index (physical_block_last_used_epochs s) i in
  if used =? epoch s then ret None else
  let! o := find_block key in
  let! slot := some_or InternalError o in
  do! kv_spill_block slot i in
  ret (Some i).

Definition kv_acquire_physical_block : KM Z :=
  let! s := gets id in
  let! o := for_return (range 0 (physical_block_capacity s)) sweep_round in
  some_or CapacityExceeded o.

Definition acquire_transient_physical_block : KM Z :=
  let! s := gets id in
  if negb (bool_decide (is_Some (physical_block_pin_counts s))) then throw InvalidArgument else
  let! i := kv_acquire_physical_block in
  do! kv_assign_physical_block i (private_key U64_MAX i) KV_ENTRY_TRANSIENT in
  let! s := gets id in
  let! pins := some_or InternalError (physical_block_pin_counts s) in
  do! index pins i in
  do! modify (fun s => s <| physical_block_pin_counts := Some (<[Z.to_nat i := 1]> pins) |>) in
  ret i.

Definition release_transient_physical_block (i : Z) : KM unit :=
  let! s := gets id in
  let! bad :=
    (if physical_block_capacity s <=? i then ret true else
     let! state := index (physical_block_states s) i in
     if negb (state =? KV_ENTRY_TRANSIENT) then ret true else
     let! key := index (physical_block_keys s) i in
     ret (negb (bool_decide (key = private_key U64_MAX i)) || (allocated_physical_block_count s =? 0))) in
  if bad then throw InvalidArgument else
  let! pins := some_or InvalidArgument (physical_block_pin_counts s) in
  let! n := index pins i in
  if negb (n =? 1) then throw InvalidArgument else
  do! modify (fun s => s <| physical_block_pin_counts := Some (<[Z.to_nat i := 0]> pins) |>) in
  do! kv_clear_physical_block i in
  modify (fun s => s <| allocated_physical_block_count := allocated_physical_block_count s -u32 1 |>).

(** ** Block records *)

(** [if backing != 0 { backing } else { physical }] *)
Definition block_limit (s : KvState) : Z :=
  if negb (backing_block_capacity s =? 0) then backing_block_capacity s else physical_block_capacity s.

Definition kv_block_resolve (block_key : KvKey) : KM unit :=
  let! s := gets id in
  let! r := kv_index_probe (block_entries s) block_key in
  let '(slot, found) := r in
  if slot =? U32_MAX then throw CapacityExceeded
  else if (found : bool) then
    do! upd_block slot (fun e => e <| reference_count := reference_count e +u32 1 |>) in
    modify (fun s => s <| share_hit_count := share_hit_count s +u64 1 |>)
  else if block_limit s <=? block_entry_count s then throw CapacityExceeded else
  let! backing := kv_backing_acquire in
  let! i := catch kv_acquire_physical_block (fun e =>
    do! ignore (E := WorkControlError) (kv_backing_release backing) in throw e) in
  do! upd_block slot (fun _ => mkBlockEntry block_key i backing 1 KV_DIRECTORY_RESIDENCY_GPU false 0) in
  do! modify (fun s => s <| block_entry_count := block_entry_count s +u32 1 |>
    <| share_admit_count := share_admit_count s +u64 1 |>) in
  kv_assign_physical_block i block_key KV_ENTRY_MISSING.

(** Run [kv_index_erase] on the block table or on the directory. *)
Definition erase_block (slot : Z) : KM unit :=
  zoom block_entries (fun es s => s <| block_entries := es |>) id (kv_index_erase slot).

Definition erase_directory (slot : Z) : KM unit :=
  zoom directory_entries (fun es s => s <| directory_entries := es |>) id (kv_index_erase slot).

Definition kv_block_deref (block_key : KvKey) : KM unit :=
  let! o := find_block block_key in
  let! slot := some_or NotFound o in
  let! entry := block_at slot in
  if 1 <? reference_count entry then
    upd_block slot (fun e => e <| reference_count := reference_count e -u32 1 |>)
  else
    do! (if residency_state entry =? KV_DIRECTORY_RESIDENCY_GPU then
      let! pinned := is_pinned (physical_block_index entry) in
      if pinned then throw Busy else
      do! kv_clear_physical_block (physical_block_index entry) in
      modify (fun s => s <| allocated_physical_block_count := allocated_physical_block_count s -u32 1 |>)
    else modify (fun s => s <| swapped_block_count := swapped_block_count s -u32 1 |>)) in
    do! kv_backing_release (backing_block_index entry) in
    do! upd_block slot (fun e => e <| reference_count := 0 |>) in
    do! modify (fun s => s <| block_entry_count := block_entry_count s -u32 1 |>) in
    erase_block slot.

Definition kv_rekey_block (source_slot : Z) (block_key : KvKey) : KM unit :=
  let! record := block_at source_slot in
  do! erase_block source_slot in
  let record := record <| b_key := block_key |> in
  let! s := gets id in
  let! r := kv_index_probe (block_entries s) block_key in
  do! upd_block (fst r) (fun _ => record) in
  if residency_state record =? KV_DIRECTORY_RESIDENCY_GPU then
    let! s := gets id in
    do! index (physical_block_keys s) (physical_block_index record) in
    modify (fun s => s <| physical_block_keys := <[Z.to_nat (physical_block_index record) := block_key]> (physical_block_keys s) |>)
  else ret tt.

Definition kv_promote_block (directory_slot : Z) (block_key : KvKey) : KM unit :=
  let! dir := dir_at directory_slot in
  let! o := find_block (d_block_key dir) in
  let! source_slot := some_or NotFound o in
  let! previous := block_at source_slot in
  let! pinned := (if residency_state previous =? KV_DIRECTORY_RESIDENCY_GPU
                  then is_pinned (physical_block_index previous) else ret false) in
  if pinned then ret tt else
  let! target := find_block block_key in
  if bool_decide (target = None) && (reference_count previous =? 1) then
    do! kv_rekey_block source_slot block_key in
    let! dir := dir_at directory_slot in
    set_dir directory_slot (dir <| d_block_key := block_key |>)
  else
    do! kv_block_resolve block_key in
    let! dir := dir_at directory_slot in
    do! kv_block_deref (d_block_key dir) in
    set_dir directory_slot (dir <| d_block_key := block_key |>).

Definition kv_block_resident (block_key : KvKey) : KM Z :=
  let! o := find_block block_key in
  let! slot := some_or NotFound o in
  let! entry := block_at slot in
  if residency_state entry =? KV_DIRECTORY_RESIDENCY_GPU then
    let! s := gets id in
    do! index (physical_block_last_used_epochs s) (physical_block_index entry) in
    do! modify (fun s => s <| physical_block_last_used_epochs :=
      <[Z.to_nat (physical_block_index entry) := epoch s]> (physical_block_last_used_epochs s) |>) in
    ret (physical_block_index entry)
  else
    let! i := kv_acquire_physical_block in
    do! call_hook (hook_load block_key i (backing_block_index entry)) in
    do! modify (fun s => s <| swapped_block_count := swapped_block_count s -u32 1 |>
      <| swap_load_count := swap_load_count s +u64 1 |>) in
    do! upd_block slot (fun e => e <| physical_block_index := i |> <| residency_state := KV_DIRECTORY_RESIDENCY_GPU |>) in
    do! kv_assign_physical_block i block_key KV_ENTRY_RESIDENT in
    ret i.

(** ** The directory *)

Definition kv_directory_acquire (sequence_id logical_block_index : Z) (block_key : KvKey) : KM Z :=
  let directory_key := private_key sequence_id logical_block_index in
  let! s := gets id in
  let! r := kv_index_probe (directory_entries s) directory_key in
  let '(slot, found) := r in
  if slot =? U32_MAX then throw CapacityExceeded else
  do! (if negb found then
    if directory_capacity s / 2 <=? directory_entry_count s then throw CapacityExceeded else
    do! kv_block_resolve block_key in
    do! set_dir slot (mkDirEntry directory_key block_key) in
    modify (fun s => s <| directory_entry_count := directory_entry_count s +u32 1 |>)
  else
    let! dir := dir_at slot in
    if negb (bool_decide (d_block_key dir = block_key)) then kv_promote_block slot block_key else ret tt) in
  let! dir := dir_at slot in
  kv_block_resident (d_block_key dir).

Definition kv_directory_release (sequence_id logical_block_index : Z) : KM unit :=
  let! o := find_directory sequence_id logical_block_index in
  let! slot := some_or NotFound o in
  let! dir := dir_at slot in
  do! kv_block_deref (d_block_key dir) in
  do! modify (fun s => s <| directory_entry_count := directory_entry_count s -u32 1 |>) in
  erase_directory slot.

(** ** Packets *)

Definition validate_kv_state (p : WorkControlPacket) (c : WorkControlConfig) : KM unit :=
  let! s := gets id in
  if negb (k_abi_version s =? WORK_ABI_VERSION) || negb (k_descriptor_bytes s =? KV_STATE_DESCRIPTOR_BYTES)
     || (lane_capacity s =? 0) || (lane_stride s =? 0) || (k_block_token_count s =? 0)
     || negb (table_entry_capacity s =? lane_capacity s * lane_stride s)
     || (physical_block_capacity s =? 0) || (U32_MAX / 2 <? physical_block_capacity s)
     || (directory_capacity s <? physical_block_capacity s *u32 2) || not_power_of_two (directory_capacity s)
     || (block_entry_capacity s <? physical_block_capacity s *u32 2) || not_power_of_two (block_entry_capacity s)
  then throw InvalidArgument
  else if negb (Bool.eqb (backing_block_capacity s =? 0) (bool_decide (backing_block_free_next s = None)))
     || negb (Bool.eqb (backing_block_capacity s =? 0) (match swap_hooks s with None => true | Some _ => false end))
     || (block_entry_capacity s / 2 <? backing_block_capacity s)
     || (block_limit s <? block_entry_count s)
     || (directory_capacity s / 2 <? directory_entry_count s)
     || (physical_block_capacity s <? allocated_physical_block_count s)
     || (block_entry_count s <? swapped_block_count s)
  then throw InvalidArgument
  else
    do! catch (validate_packet p c (lane_capacity s) U32_MAX) (fun _ => throw InvalidArgument) in
    if negb (block_token_count p =? k_block_token_count s) || (lane_stride s <? max_blocks_per_sequence p)
       || (lane_capacity s <? active_sequence_count p)
    then throw CapacityExceeded else ret tt.

(** One block of one lane of [collect_kv_prefetch_entries]. *)
Definition prefetch_block (sequence_id mark entry_capacity block_index : Z) (found : list KvPrefetchEntry)
    : KM (list KvPrefetchEntry) :=
  let! o := kv_sequence_block sequence_id block_index in
  match o with
  | None => ret found
  | Some block_slot =>
      let! entry := block_at block_slot in
      if negb (residency_state entry =? KV_DIRECTORY_RESIDENCY_NVME) || negb (backing_valid entry)
         || (prefetch_mark entry =? mark)
      then ret found else
      do! upd_block block_slot (fun e => e <| prefetch_mark := mark |>) in
      if entry_capacity <=? u32 (Z.of_nat (length found)) then throw CapacityExceeded
      else ret (found ++ [mkPrefetchEntry (b_key entry) (backing_block_index entry)])
  end.

Definition prefetch_lane (p : WorkControlPacket) (mark entry_capacity lane_index : Z) (found : list KvPrefetchEntry)
    : KM (list KvPrefetchEntry) :=
  let! lane := index (lanes p) lane_index in
  let count := block_count (context_token_count lane) (block_token_count p) in
  for_fold (range 0 count) (prefetch_block (l_sequence_id lane) mark entry_capacity) found.

Definition prefetch_packet (c : WorkControlConfig) (mark entry_capacity : Z) (p : WorkControlPacket)
    (found : list KvPrefetchEntry) : KM (list KvPrefetchEntry) :=
  do! validate_kv_state p c in
  let! s := gets id in
  if negb (p_control_generation p =? k_control_generation s) then ret found
  else if has_flag (p_flags p) FLAG_RELEASE_SEQUENCES then ret found
  else for_fold (range 0 (active_sequence_count p)) (prefetch_lane p mark entry_capacity) found.

Definition collect_kv_prefetch_entries (packets : list WorkControlPacket) (c : WorkControlConfig) (entry_capacity : Z)
    : KM (list KvPrefetchEntry) :=
  if bool_decide (packets = []) || (entry_capacity =? 0) then throw InvalidArgument else
  do! modify (fun s => s <| prefetch_generation := prefetch_generation s +u32 1 |>) in
  let! s := gets id in
  let mark := Z.land (prefetch_generation s) 0x1FFFFFFF in
  for_fold packets (prefetch_packet c mark entry_capacity) [].

(** [keys.get(start..start + count)] *)
Definition kv_lane_keys (s : KvState) (lane_index count : Z) : option (list KvKey) :=
  match lane_block_keys s with
  | None => None
  | Some keys =>
      if lane_block_key_stride s <? count then None else
      let start := lane_index *u64 lane_block_key_stride s in
      let stop := start +u64 count in
      if (start <=? stop) && (stop <=? Z.of_nat (length keys))
      then Some (take (Z.to_nat (stop - start)) (drop (Z.to_nat start) keys)) else None
  end.

(** One block of one lane of [kv_count_admission]. *)
Definition count_block (p : WorkControlPacket) (lane : WorkControlLane) (lane_keys : option (list KvKey))
    (block_index : Z) (acc : Z * Z * Z) : KM (Z * Z * Z) :=
  let '(new_entry_count, new_block_count, block_end_token) := acc in
  let block_end_token := block_end_token +u64 block_token_count p in
  let! d := find_directory (l_sequence_id lane) block_index in
  let new_entry_count := if bool_decide (d = None) then new_entry_count +u32 1 else new_entry_count in
  let! key := kv_select_key lane_keys (l_sequence_id lane) block_index block_end_token (kv_committed_frontier lane) in
  let! b := find_block key in
  let new_block_count := if bool_decide (b = None) then new_block_count +u32 1 else new_block_count in
  ret (new_entry_count, new_block_count, block_end_token).

Definition count_lane (p : WorkControlPacket) (lane_index : Z) (acc : Z * Z) : KM (Z * Z) :=
  let '(new_entry_count, new_block_count) := acc in
  let! lane := index (lanes p) lane_index in
  let! s := gets id in
  let count := block_count (context_token_count lane) (block_token_count p) in
  if (count =? 0) || (max_blocks_per_sequence p <? count) || (physical_block_capacity s <? count)
  then throw CapacityExceeded else
  let lane_keys := kv_lane_keys s lane_index count in
  let! r := for_fold (range 0 count) (count_block p lane lane_keys) (new_entry_count, new_block_count, 0) in
  ret (fst r).

Definition kv_count_admission (p : WorkControlPacket) : KM (Z * Z) :=
  for_fold (range 0 (active_sequence_count p)) (count_lane p) (0, 0).

Definition kv_admit_packet (p : WorkControlPacket) : KM unit :=
  let! s := gets id in
  let! total_block_count := for_fold (range 0 (active_sequence_count p)) (fun lane_index total =>
    let! lane := index (lanes p) lane_index in
    let count := block_count (context_token_count lane) (block_token_count p) in
    if (count =? 0) || (max_blocks_per_sequence p <? count) then throw CapacityExceeded
    else ret (total +u32 count)) 0 in
  if (directory_entry_count s +u32 total_block_count <=? directory_capacity s / 2)
     && (total_block_count <=? physical_block_capacity s) then ret tt else
  let! '(new_entry_count, new_block_count) := kv_count_admission p in
  if (directory_capacity s / 2 <? directory_entry_count s)
     || ((directory_capacity s / 2 -u32 directory_entry_count s) <? new_entry_count)
     || (physical_block_capacity s <? new_block_count)
  then throw CapacityExceeded else ret tt.

(** [kv_resolve_entry_state]: the state the block moves to. *)
Definition kv_resolve_entry_state (p : WorkControlPacket) (block_index count entry_state : Z) : KM Z :=
  if has_flag (p_flags p) FLAG_PREFILL then
    ret (if entry_state =? KV_ENTRY_MISSING then KV_ENTRY_IN_FLIGHT else entry_state)
  else if ((block_index +u32 1) <? count) && negb (entry_state =? KV_ENTRY_RESIDENT) then
    do! account_readiness entry_state in throw Busy
  else if ((block_index +u32 1) =? count) && (entry_state =? KV_ENTRY_MISSING) then ret KV_ENTRY_IN_FLIGHT
  else ret entry_state.

(** One block of [kv_build_lane]; the accumulator is [block_end_token]. *)
Definition build_block (p : WorkControlPacket) (lane : WorkControlLane) (lane_keys : option (list KvKey))
    (base_block_index count block_index block_end_token : Z) : KM Z :=
  let block_end_token := block_end_token +u64 block_token_count p in
  let! key := kv_select_key lane_keys (l_sequence_id lane) block_index block_end_token (kv_committed_frontier lane) in
  let! i := kv_directory_acquire (l_sequence_id lane) block_index key in
  let! s := gets id in
  let! entry_state := index (physical_block_states s) i in
  let! entry_state := kv_resolve_entry_state p block_index count entry_state in
  do! modify (fun s => s <| physical_block_states := <[Z.to_nat i := entry_state]> (physical_block_states s) |>) in
  do! account_readiness entry_state in
  let! s := gets id in
  do! index (physical_block_indices s) (base_block_index +u64 block_index) in
  do! modify (fun s => s <| physical_block_indices :=
    <[Z.to_nat (base_block_index +u64 block_index) := i]> (physical_block_indices s) |>) in
  ret block_end_token.

Definition kv_build_lane (p : WorkControlPacket) (lane_index : Z) : KM unit :=
  let! lane := index (lanes p) lane_index in
  let count := block_count (context_token_count lane) (block_token_count p) in
  if (count =? 0) || (max_blocks_per_sequence p <? count) then throw CapacityExceeded else
  let! s := gets id in
  let base_block_index := lane_index *u64 lane_stride s in
  if table_entry_capacity s <? base_block_index +u64 count then throw CapacityExceeded else
  let lane_keys := kv_lane_keys s lane_index count in
  do! index (lane_physical_block_counts s) lane_index in
  do! modify (fun s => s <| lane_physical_block_counts := <[Z.to_nat lane_index := count]> (lane_physical_block_counts s) |>) in
  do! for_fold (range 0 count) (build_block p lane lane_keys base_block_index count) 0 in
  ret tt.

(** One block of [mark_table]. *)
Definition mark_block (sequence_id entry_state block_index : Z) : KM unit :=
  let! o := kv_sequence_block sequence_id block_index in
  let! block_slot := some_or NotFound o in
  let! entry := block_at block_slot in
  let i := physical_block_index entry in
  if i =? KV_INVALID_BLOCK_INDEX then throw InternalError else
  let! s := gets id in
  do! index (physical_block_states s) i in
  do! modify (fun s => s <| physical_block_states := <[Z.to_nat i := entry_state]> (physical_block_states s) |>) in
  do! index (physical_block_last_used_epochs s) i in
  modify (fun s => s <| physical_block_last_used_epochs := <[Z.to_nat i := epoch s]> (physical_block_last_used_epochs s) |>).

Definition mark_lane (p : WorkControlPacket) (entry_state lane_index : Z) : KM unit :=
  let! lane := index (lanes p) lane_index in
  let count := block_count (context_token_count lane) (block_token_count p) in
  if (count =? 0) || (max_blocks_per_sequence p <? count) then throw CapacityExceeded else
  for_fold (range 0 count) (fun b _ => mark_block (l_sequence_id lane) entry_state b) tt.

Definition mark_table (p : WorkControlPacket) (c : WorkControlConfig) (entry_state : Z) : KM unit :=
  do! validate_kv_state p c in
  let! s := gets id in
  if negb (p_control_generation p =? k_control_generation s) then throw NotFound else
  for_fold (range 0 (active_sequence_count p)) (fun lane_index _ => mark_lane p entry_state lane_index) tt.

Record KvBlockTableView := mkBlockTableView {
  v_abi_version : Z;
  v_descriptor_bytes : Z;
  v_block_token_count : Z;
  v_lane_count : Z;
  v_lane_stride : Z;
  v_lane_capacity : Z;
  v_physical_block_indices : list Z;
  v_lane_physical_block_counts : list Z;
  v_host_physical_block_indices : list Z;
  v_host_lane_physical_block_counts : list Z;
}.

Definition build_host_kv_block_table (p : WorkControlPacket) (c : WorkControlConfig) : KM KvBlockTableView :=
  do! validate_kv_state p c in
  do! select_kv_generation p in
  do! kv_admit_packet p in
  let! s := gets id in
  let! active := slice (lane_physical_block_counts s) 0 (active_sequence_count p) in
  do! modify (fun s => s <| lane_physical_block_counts :=
    fill 0 active ++ drop (Z.to_nat (active_sequence_count p)) (lane_physical_block_counts s) |>) in
  do! modify (fun s => s <| epoch := let e := epoch s +u64 1 in if e =? 0 then 1 else e |>) in
  do! reset_readiness_counts in
  do! for_fold (range 0 (active_sequence_count p)) (fun lane_index _ => kv_build_lane p lane_index) tt in
  let! s := gets id in
  ret (mkBlockTableView KV_CACHE_ABI_VERSION KV_BLOCK_TABLE_VIEW_DESCRIPTOR_BYTES (block_token_count p)
    (active_sequence_count p) (lane_stride s) (lane_stride s) (physical_block_indices s) (lane_physical_block_counts s)
    (physical_block_indices s) (lane_physical_block_counts s)).

(** One written block of [commit_host_kv_block_table]. *)
Definition dirty_block (sequence_id block_index : Z) : KM unit :=
  let! o := kv_sequence_block sequence_id block_index in
  let! block_slot := some_or NotFound o in
  upd_block block_slot (fun e => e <| backing_valid := false |>).

Definition dirty_lane (p : WorkControlPacket) (written lane_index : Z) : KM unit :=
  let! lane := index (lanes p) lane_index in
  let write_end_token := l_sequence_position lane +u64 written -u64 1 in
  if context_token_count lane <=? write_end_token then throw InvalidArgument else
  if block_token_count p =? 0 then panic else
  let first_written_block := u32 (l_sequence_position lane / block_token_count p) in
  let last_written_block := u32 (write_end_token / block_token_count p) in
  for_fold (range first_written_block (last_written_block + 1)) (fun b _ => dirty_block (l_sequence_id lane) b) tt.

Definition commit_host_kv_block_table (p : WorkControlPacket) (c : WorkControlConfig) : KM unit :=
  do! mark_table p c KV_ENTRY_RESIDENT in
  let written := written_position_count p in
  if written =? 0 then throw InvalidArgument else
  for_fold (range 0 (active_sequence_count p)) (fun lane_index _ => dirty_lane p written lane_index) tt.

(** One block of [cancel_host_kv_block_table]. *)
Definition cancel_block (sequence_id block_index : Z) : KM unit :=
  let! o := kv_sequence_block sequence_id block_index in
  match o with
  | None => ret tt
  | Some block_slot =>
      let! entry := block_at block_slot in
      let i := physical_block_index entry in
      if i =? KV_INVALID_BLOCK_INDEX then ret tt else
      let! s := gets id in
      let! state := index (physical_block_states s) i in
      if state =? KV_ENTRY_IN_FLIGHT then kv_directory_release sequence_id block_index else ret tt
  end.

Definition cancel_lane (p : WorkControlPacket) (lane_index : Z) : KM unit :=
  let! lane := index (lanes p) lane_index in
  let count := block_count (context_token_count lane) (block_token_count p) in
  if (count =? 0) || (max_blocks_per_sequence p <? count) then throw CapacityExceeded else
  for_fold (range 0 count) (fun b _ => cancel_block (l_sequence_id lane) b) tt.

Definition cancel_host_kv_block_table (p : WorkControlPacket) (c : WorkControlConfig) : KM unit :=
  do! validate_kv_state p c in
  let! s := gets id in
  if negb (p_control_generation p =? k_control_generation s) then throw NotFound else
  for_fold (range 0 (active_sequence_count p)) (fun lane_index _ => cancel_lane p lane_index) tt.

(** [Ok(()) | Err(NotFound) => {}] *)
Definition release_block (sequence_id logical_block_index : Z) : KM unit :=
  catch (kv_directory_release sequence_id logical_block_index)
    (fun e => if bool_decide (e = NotFound) then ret tt else throw e).

Definition release_sequence (sequence_id logical_block_count : Z) : KM unit :=
  let! s := gets id in
  if (sequence_id =? 0) || (logical_block_count =? 0) || negb (k_abi_version s =? WORK_ABI_VERSION)
     || negb (k_descriptor_bytes s =? KV_STATE_DESCRIPTOR_BYTES) || (lane_stride s <? logical_block_count)
  then throw InvalidArgument
  else for_fold (range 0 logical_block_count) (fun b _ => release_block sequence_id b) tt.

Definition release_packet_sequences (p : WorkControlPacket) (c : WorkControlConfig) : KM unit :=
  do! validate_kv_state p c in
  if negb (has_flag (p_flags p) FLAG_RELEASE_SEQUENCES) then throw InvalidArgument else
  let! s := gets id in
  if p_control_generation p <? k_control_generation s then ret tt else
  do! select_kv_generation p in
  for_fold (range 0 (lane_count p)) (fun lane_index _ =>
    let! lane := index (lanes p) lane_index in
    release_sequence (l_sequence_id lane) (block_count (context_token_count lane) (block_token_count p))) tt.

End KvState.
Arguments KvState H : clear implicits.
