(* ===== verification/KvDirectoryInv.v ===== *)
(** * The KV block directory: invariant

    [blocks_wf s R B]: the block table stores the map [B] of block records, a record's
    reference count is the number [R] of references to its key, physical blocks and
    GPU-resident records name each other, backing blocks are owned by one record or on
    the free list, and the counters are exact.  [directory_wf s D B]: in addition the
    sequence directory stores [D] and [R] counts the slots of [D]. *)

From S2P Require Import KvIndex Prelude FreeList WorkTransaction Wire WorkControl KvDirectory.

(** ** Physical blocks *)

Definition allocated_key (k : KvKey) : bool := negb (key_is_empty k).

(** [gpu] maps the key of every GPU-resident record to its physical block. *)
Record phys_ok (cap : Z) (keys : list KvKey) (states : list Z) (gpu : gmap KvKey Z) (allocated : Z) : Prop := {
  ph_cap : 0 < cap <= U32_MAX / 2;
  ph_keys : Z.of_nat (length keys) = cap;
  ph_states : Z.of_nat (length states) = cap;
  ph_gpu k i : gpu !! k = Some i ->
    0 <= i < cap /\ k <> empty_key /\ keys !! Z.to_nat i = Some k /\ states !! Z.to_nat i <> Some KV_ENTRY_TRANSIENT;
  ph_owned i k : keys !! i = Some k -> k <> empty_key -> states !! i <> Some KV_ENTRY_TRANSIENT ->
    gpu !! k = Some (Z.of_nat i);
  ph_transient i : states !! i = Some KV_ENTRY_TRANSIENT -> keys !! i = Some (private_key U64_MAX (Z.of_nat i));
  ph_allocated : allocated = countb allocated_key keys;
}.

Lemma allocated_key_spec k : allocated_key k = true <-> k <> empty_key.
Proof. unfold allocated_key. rewrite negb_true_iff, <-not_true_iff_false, key_is_empty_spec. done. Qed.

Lemma allocated_key_empty : allocated_key empty_key = false.
Proof. done. Qed.

Lemma phys_allocated_bound cap keys states gpu a : phys_ok cap keys states gpu a -> 0 <= a <= cap.
Proof. intros []. subst. pose proof (countb_nonneg allocated_key keys). pose proof (countb_le_length allocated_key keys). lia. Qed.

Lemma phys_inj cap keys states gpu a k k' i :
  phys_ok cap keys states gpu a -> gpu !! k = Some i -> gpu !! k' = Some i -> k = k'.
Proof. intros Hp H1 H2. apply (ph_gpu _ _ _ _ _ Hp) in H1 as (_&_&H1&_), H2 as (_&_&H2&_). congruence. Qed.

Lemma lookup_insert_cases {A} (l : list A) i j x y :
  <[i := x]> l !! j = Some y -> (j = i /\ y = x) \/ (j <> i /\ l !! j = Some y).
Proof.
  intros Hj. destruct (decide (j = i)) as [->|Hne].
  - left. split; [done|]. pose proof (lookup_lt_Some _ _ _ Hj) as Hlt. rewrite length_insert in Hlt.
    rewrite list_lookup_insert_eq in Hj by done. congruence.
  - right. split; [done|]. by rewrite list_lookup_insert_ne in Hj.
Qed.

(** Freeing the block of a resident record. *)
Lemma phys_clear cap keys states gpu a k i :
  phys_ok cap keys states gpu a -> gpu !! k = Some i ->
  phys_ok cap (<[Z.to_nat i := empty_key]> keys) (<[Z.to_nat i := KV_ENTRY_MISSING]> states) (delete k gpu) (a - 1).
Proof.
  intros Hp Hk. pose proof (ph_gpu _ _ _ _ _ Hp k i Hk) as (Hi&Hne&Hki&Hsi). split.
  - apply Hp.
  - rewrite length_insert. apply Hp.
  - rewrite length_insert. apply Hp.
  - intros k' i' [Hkk Hk']%lookup_delete_Some. pose proof (ph_gpu _ _ _ _ _ Hp k' i' Hk') as (Hi'&Hne'&Hki'&Hsi').
    assert (Z.to_nat i <> Z.to_nat i') by congruence. rewrite !list_lookup_insert_ne by done. done.
  - intros j k' Hj Hk' Hs'. destruct (lookup_insert_cases _ _ _ _ _ Hj) as [[-> ->]|[Hji Hj']]; [done|].
    rewrite list_lookup_insert_ne in Hs' by done. pose proof (ph_owned _ _ _ _ _ Hp j k' Hj' Hk' Hs') as Hg.
    rewrite lookup_delete_ne; [done|]. intros ->. rewrite Hk in Hg. injection Hg as ->. lia.
  - intros j Hj. destruct (lookup_insert_cases _ _ _ _ _ Hj) as [[_ Heq]|[Hji Hj']]; [done|].
    rewrite list_lookup_insert_ne by done. by apply (ph_transient _ _ _ _ _ Hp).
  - rewrite (countb_insert _ _ _ k) by done. rewrite (proj2 (allocated_key_spec k)) by done.
    rewrite allocated_key_empty, (ph_allocated _ _ _ _ _ Hp). simpl. lia.
Qed.

(** Giving a free block to a record. *)
Lemma phys_assign cap keys states gpu a k i st :
  phys_ok cap keys states gpu a -> 0 <= i < cap -> keys !! Z.to_nat i = Some empty_key -> gpu !! k = None ->
  k <> empty_key -> st <> KV_ENTRY_TRANSIENT ->
  phys_ok cap (<[Z.to_nat i := k]> keys) (<[Z.to_nat i := st]> states) (<[k := i]> gpu) (a + 1).
Proof.
  intros Hp Hi Hki Hk Hne Hst. pose proof (ph_keys _ _ _ _ _ Hp). pose proof (ph_states _ _ _ _ _ Hp). split.
  - apply Hp.
  - by rewrite length_insert.
  - by rewrite length_insert.
  - intros k' i' [[<- <-]|[Hkk Hk']]%lookup_insert_Some.
    + rewrite !list_lookup_insert_eq by lia. repeat (split; [done|]). congruence.
    + pose proof (ph_gpu _ _ _ _ _ Hp k' i' Hk') as (Hi'&Hne'&Hki'&Hsi').
      assert (Z.to_nat i <> Z.to_nat i') by congruence. rewrite !list_lookup_insert_ne by done. done.
  - intros j k' Hj Hk' Hs'. destruct (lookup_insert_cases _ _ _ _ _ Hj) as [[-> ->]|[Hji Hj']].
    + rewrite lookup_insert_eq. f_equal. lia.
    + rewrite list_lookup_insert_ne in Hs' by done. pose proof (ph_owned _ _ _ _ _ Hp j k' Hj' Hk' Hs') as Hg.
      rewrite lookup_insert_ne by congruence. done.
  - intros j Hj. destruct (lookup_insert_cases _ _ _ _ _ Hj) as [[_ Heq]|[Hji Hj']]; [congruence|].
    rewrite list_lookup_insert_ne by done. by apply (ph_transient _ _ _ _ _ Hp).
  - rewrite (countb_insert _ _ _ empty_key) by done. rewrite (proj2 (allocated_key_spec k)) by done.
    rewrite allocated_key_empty, (ph_allocated _ _ _ _ _ Hp). simpl. lia.
Qed.

(** A transient block: allocated and owned by no record. *)
Lemma phys_transient_assign cap keys states gpu a i :
  phys_ok cap keys states gpu a -> 0 <= i < cap -> keys !! Z.to_nat i = Some empty_key ->
  phys_ok cap (<[Z.to_nat i := private_key U64_MAX i]> keys) (<[Z.to_nat i := KV_ENTRY_TRANSIENT]> states) gpu (a + 1).
Proof.
  intros Hp Hi Hki. pose proof (ph_keys _ _ _ _ _ Hp). pose proof (ph_states _ _ _ _ _ Hp). split.
  - apply Hp.
  - by rewrite length_insert.
  - by rewrite length_insert.
  - intros k' i' Hk'. pose proof (ph_gpu _ _ _ _ _ Hp k' i' Hk') as (Hi'&Hne'&Hki'&Hsi').
    assert (Z.to_nat i <> Z.to_nat i') by congruence. rewrite !list_lookup_insert_ne by done. done.
  - intros j k' Hj Hk' Hs'. destruct (lookup_insert_cases _ _ _ _ _ Hj) as [[-> ->]|[Hji Hj']].
    + by rewrite list_lookup_insert_eq in Hs' by lia.
    + rewrite list_lookup_insert_ne in Hs' by done. by apply (ph_owned _ _ _ _ _ Hp j k').
  - intros j Hj. destruct (lookup_insert_cases _ _ _ _ _ Hj) as [[-> _]|[Hji Hj']].
    + rewrite list_lookup_insert_eq by lia. do 2 f_equal. lia.
    + rewrite list_lookup_insert_ne by done. by apply (ph_transient _ _ _ _ _ Hp).
  - rewrite (countb_insert _ _ _ empty_key) by done.
    rewrite (proj2 (allocated_key_spec (private_key U64_MAX i)) (private_key_nonempty _ _)).
    rewrite allocated_key_empty, (ph_allocated _ _ _ _ _ Hp). simpl. lia.
Qed.

Lemma phys_transient_clear cap keys states gpu a i :
  phys_ok cap keys states gpu a -> 0 <= i -> states !! Z.to_nat i = Some KV_ENTRY_TRANSIENT ->
  phys_ok cap (<[Z.to_nat i := empty_key]> keys) (<[Z.to_nat i := KV_ENTRY_MISSING]> states) gpu (a - 1).
Proof.
  intros Hp Hi0 Hsi. pose proof (ph_transient _ _ _ _ _ Hp _ Hsi) as Hki. pose proof (lookup_lt_Some _ _ _ Hsi). split.
  - apply Hp.
  - rewrite length_insert. apply Hp.
  - rewrite length_insert. apply Hp.
  - intros k' i' Hk'. pose proof (ph_gpu _ _ _ _ _ Hp k' i' Hk') as (Hi'&Hne'&Hki'&Hsi').
    assert (Z.to_nat i <> Z.to_nat i') by congruence. rewrite !list_lookup_insert_ne by done. done.
  - intros j k' Hj Hk' Hs'. destruct (lookup_insert_cases _ _ _ _ _ Hj) as [[-> ->]|[Hji Hj']]; [done|].
    rewrite list_lookup_insert_ne in Hs' by done. by apply (ph_owned _ _ _ _ _ Hp j k').
  - intros j Hj. destruct (lookup_insert_cases _ _ _ _ _ Hj) as [[_ Heq]|[Hji Hj']]; [done|].
    rewrite list_lookup_insert_ne by done. by apply (ph_transient _ _ _ _ _ Hp).
  - rewrite (countb_insert _ _ _ (private_key U64_MAX (Z.of_nat (Z.to_nat i)))) by done.
    rewrite (proj2 (allocated_key_spec (private_key U64_MAX (Z.of_nat (Z.to_nat i)))) (private_key_nonempty _ _)).
    rewrite allocated_key_empty, (ph_allocated _ _ _ _ _ Hp). simpl. lia.
Qed.

(** Moving a resident block through the readiness states. *)
Lemma phys_state cap keys states gpu a k i st :
  phys_ok cap keys states gpu a -> gpu !! k = Some i -> st <> KV_ENTRY_TRANSIENT ->
  phys_ok cap keys (<[Z.to_nat i := st]> states) gpu a.
Proof.
  intros Hp Hk Hst. pose proof (ph_gpu _ _ _ _ _ Hp k i Hk) as (Hi&Hne&Hki&Hsi). pose proof (ph_states _ _ _ _ _ Hp).
  assert (forall j, <[Z.to_nat i := st]> states !! j <> Some KV_ENTRY_TRANSIENT -> states !! j <> Some KV_ENTRY_TRANSIENT) as Hback.
  { intros j Hj. destruct (decide (j = Z.to_nat i)) as [->|]; [done|]. by rewrite list_lookup_insert_ne in Hj. }
  split; try apply Hp.
  - by rewrite length_insert.
  - intros k' i' Hk'. pose proof (ph_gpu _ _ _ _ _ Hp k' i' Hk') as (Hi'&Hne'&Hki'&Hsi'). repeat (split; [done|]).
    intros Hj. destruct (lookup_insert_cases _ _ _ _ _ Hj) as [[_ Heq]|[_ Hj']]; [congruence|done].
  - intros j k' Hj Hk' Hs'. by apply (ph_owned _ _ _ _ _ Hp j k'); [..|apply Hback].
  - intros j Hj. destruct (lookup_insert_cases _ _ _ _ _ Hj) as [[_ Heq]|[_ Hj']]; [congruence|]. by apply (ph_transient _ _ _ _ _ Hp).
Qed.

(** Renaming a resident record. *)
Lemma phys_rekey cap keys states gpu a k k' i :
  phys_ok cap keys states gpu a -> gpu !! k = Some i -> gpu !! k' = None -> k' <> empty_key ->
  phys_ok cap (<[Z.to_nat i := k']> keys) states (<[k' := i]> (delete k gpu)) a.
Proof.
  intros Hp Hk Hk' Hne'. pose proof (ph_gpu _ _ _ _ _ Hp k i Hk) as (Hi&Hne&Hki&Hsi). pose proof (ph_keys _ _ _ _ _ Hp). split; try apply Hp.
  - by rewrite length_insert.
  - intros k2 i2 [[<- <-]|[Hkk [Hk2k Hk2]%lookup_delete_Some]]%lookup_insert_Some.
    + rewrite list_lookup_insert_eq by lia. done.
    + pose proof (ph_gpu _ _ _ _ _ Hp k2 i2 Hk2) as (Hi2&Hne2&Hki2&Hsi2).
      assert (Z.to_nat i <> Z.to_nat i2) by congruence. rewrite list_lookup_insert_ne by done. done.
  - intros j k2 Hj Hk2 Hs2. destruct (lookup_insert_cases _ _ _ _ _ Hj) as [[-> ->]|[Hji Hj']].
    + rewrite lookup_insert_eq. f_equal. lia.
    + pose proof (ph_owned _ _ _ _ _ Hp j k2 Hj' Hk2 Hs2) as Hg. rewrite lookup_insert_ne by congruence.
      rewrite lookup_delete_ne; [done|]. intros ->. rewrite Hk in Hg. injection Hg as ->. lia.
  - intros j Hj. rewrite list_lookup_insert_ne; [by apply (ph_transient _ _ _ _ _ Hp)|]. intros <-. done.
  - rewrite (countb_insert _ _ _ k) by done. rewrite !(proj2 (allocated_key_spec _)) by done. rewrite (ph_allocated _ _ _ _ _ Hp). lia.
Qed.

(** ** Backing blocks *)

(** [owners] maps the key of every record to its backing block. *)
Definition backing_free (cap : Z) (owners : gmap KvKey Z) (i : nat) : Prop :=
  Z.of_nat i < cap /\ forall k, owners !! k <> Some (Z.of_nat i).

Definition backing_ok (cap head : Z) (links : option (list Z)) (owners : gmap KvKey Z) : Prop :=
  match links with
  | None => cap = 0 /\ forall k i, owners !! k = Some i -> i = KV_INVALID_BLOCK_INDEX
  | Some l => 0 < cap < KV_INVALID_BLOCK_INDEX /\ Z.of_nat (length l) = cap /\
      (forall k i, owners !! k = Some i -> 0 <= i < cap /\ l !! Z.to_nat i = Some KV_INVALID_BLOCK_INDEX) /\
      (forall k k' i, owners !! k = Some i -> owners !! k' = Some i -> k = k') /\
      exists fl, free_list (fun i => l !! i) (backing_free cap owners) KV_INVALID_BLOCK_INDEX head fl
  end.

(** A backing block taken from the free list, and one put back. *)
Lemma backing_take cap head l owners k nx :
  backing_ok cap head (Some l) owners -> 0 <= head < cap -> owners !! k = None -> l !! Z.to_nat head = Some nx ->
  backing_ok cap nx (Some (<[Z.to_nat head := KV_INVALID_BLOCK_INDEX]> l)) (<[k := head]> owners).
Proof.
  intros (Hcap&Hlen&Hown&Hinj&fl&Hfl) Hh Hk Hnx.
  destruct (free_list_head _ _ _ _ _ Hfl) as (i&nx'&fl'&Hi&Hfree&Hli&->); [lia|].
  assert (Z.to_nat head = i) as Hhi by lia. rewrite Hhi in *. simplify_eq.
  split; [done|]. split; [by rewrite length_insert|]. split; [|split].
  - intros k2 i2 [[<- <-]|[Hne Hk2]]%lookup_insert_Some.
    + split; [lia|]. rewrite Nat2Z.id. rewrite list_lookup_insert_eq by lia. done.
    + destruct (Hown k2 i2 Hk2) as [? ?]. split; [done|]. rewrite list_lookup_insert_ne; [done|].
      intros ->. destruct Hfree as [_ Hno]. apply (Hno k2). rewrite Hk2. f_equal. lia.
  - destruct Hfree as [_ Hno]. intros k1 k2 i2 [[H1 H1']|[Hne1 Hk1]]%lookup_insert_Some [[H2 H2']|[Hne2 Hk2]]%lookup_insert_Some.
    + congruence.
    + subst i2. by destruct (Hno k2).
    + subst i2. by destruct (Hno k1).
    + by apply (Hinj k1 k2 i2).
  - exists fl'. eapply free_list_pop; [exact Hfl|exact Hnx| |].
    + intros j _ Hj. by rewrite list_lookup_insert_ne.
    + intros j. unfold backing_free. destruct Hfree as [_ Hno]. split.
      * intros [Hj Hj']. split; [split; [done|]|].
        -- intros k2 Hk2. apply (Hj' k2). rewrite lookup_insert_ne; [done|]. intros ->. congruence.
        -- intros ->. apply (Hj' k). by rewrite lookup_insert_eq.
      * intros [[Hj Hj'] Hji]. split; [done|]. intros k2 [[<- Heq]|[_ Hk2]]%lookup_insert_Some; [lia|]. by apply (Hj' k2).
Qed.

Lemma backing_give cap head l owners k i :
  backing_ok cap head (Some l) owners -> owners !! k = Some i ->
  backing_ok cap i (Some (<[Z.to_nat i := head]> l)) (delete k owners).
Proof.
  intros (Hcap&Hlen&Hown&Hinj&fl&Hfl) Hk. destruct (Hown k i Hk) as [Hi Hli].
  split; [done|]. split; [by rewrite length_insert|]. split; [|split].
  - intros k2 i2 [Hne Hk2]%lookup_delete_Some. destruct (Hown k2 i2 Hk2) as [? ?]. split; [done|].
    rewrite list_lookup_insert_ne; [done|]. intros Heq. apply Hne. apply (Hinj k k2 i); [done|]. rewrite Hk2. f_equal. lia.
  - intros k1 k2 i2 [_ Hk1]%lookup_delete_Some [_ Hk2]%lookup_delete_Some. by apply (Hinj k1 k2 i2).
  - exists (Z.to_nat i :: fl).
    enough (free_list (fun j => <[Z.to_nat i := head]> l !! j) (backing_free cap (delete k owners)) KV_INVALID_BLOCK_INDEX
      (Z.of_nat (Z.to_nat i)) (Z.to_nat i :: fl)) as He by (rewrite Z2Nat.id in He by lia; exact He).
    apply (free_list_push (fun j => l !! j) _ (backing_free cap owners) _ _ head); [exact Hfl| | | |].
    + intros [_ Hno]. apply (Hno k). rewrite Hk. f_equal. lia.
    + apply list_lookup_insert_eq. lia.
    + intros j [_ Hno]. rewrite list_lookup_insert_ne; [done|]. intros <-. apply (Hno k). rewrite Hk. f_equal. lia.
    + intros j. unfold backing_free. split.
      * intros [Hj Hj']. destruct (decide (j = Z.to_nat i)) as [->|Hji]; [by right|left]. split; [done|].
        intros k2 Hk2. apply (Hj' k2). rewrite lookup_delete_ne; [done|]. intros <-. rewrite Hk in Hk2. injection Hk2 as ->. lia.
      * intros [[Hj Hj']|Hji]; [|subst j].
        -- split; [done|]. intros k2 [_ Hk2]%lookup_delete_Some. by apply (Hj' k2).
        -- split; [lia|]. intros k2 [Hne Hk2]%lookup_delete_Some. apply Hne. apply (Hinj k k2 i); [done|]. rewrite Hk2. f_equal. lia.
Qed.

(** Renaming the owner of a backing block. *)
Lemma backing_rename cap head links owners k k' i :
  backing_ok cap head links owners -> owners !! k = Some i -> owners !! k' = None ->
  backing_ok cap head links (<[k' := i]> (delete k owners)).
Proof.
  intros Hb Hk Hk'. assert (forall k2 i2, <[k' := i]> (delete k owners) !! k2 = Some i2 ->
    exists k0, owners !! k0 = Some i2 /\ (k2 = k' /\ k0 = k \/ k2 <> k' /\ k0 = k2 /\ k2 <> k)) as Hback.
  { intros k2 i2 [[<- <-]|[Hne [Hkk Hk2]%lookup_delete_Some]]%lookup_insert_Some; [exists k; auto|exists k2; auto]. }
  destruct links as [l|]; cbn [backing_ok] in *.
  - destruct Hb as (Hcap&Hlen&Hown&Hinj&fl&Hfl). split; [done|]. split; [done|]. split; [|split].
    + intros k2 i2 Hk2. destruct (Hback k2 i2 Hk2) as (k0&Hk0&_). by apply (Hown k0).
    + intros k1 k2 i2 H1 H2. destruct (Hback k1 i2 H1) as (k3&H3&Hc1), (Hback k2 i2 H2) as (k4&H4&Hc2).
      pose proof (Hinj k3 k4 i2 H3 H4). naive_solver.
    + exists fl. eapply free_list_frame; [exact Hfl|done|]. intros j. unfold backing_free. split; intros [Hj Hno]; (split; [done|]).
      * intros k2 Hk2. destruct (decide (k2 = k)) as [->|Hne].
        -- apply (Hno k'). rewrite lookup_insert_eq. congruence.
        -- apply (Hno k2). rewrite lookup_insert_ne by congruence. by rewrite lookup_delete_ne.
      * intros k2 Hk2. destruct (Hback k2 _ Hk2) as (k0&Hk0&_). by apply (Hno k0).
  - destruct Hb as [Hcap Hinv]. split; [done|]. intros k2 i2 Hk2. destruct (Hback k2 i2 Hk2) as (k0&Hk0&_). by apply (Hinv k0).
Qed.

(** ** Block records *)

Definition gpu_block (e : KvBlockEntry) : option Z :=
  if residency_state e =? KV_DIRECTORY_RESIDENCY_GPU then Some (physical_block_index e) else None.

(** The GPU-resident records and their physical blocks. *)
Definition resident (B : gmap KvKey KvBlockEntry) : gmap KvKey Z := omap gpu_block B.

Definition owners (B : gmap KvKey KvBlockEntry) : gmap KvKey Z := backing_block_index <$> B.

Lemma gpu_block_Some e i :
  gpu_block e = Some i <-> residency_state e = KV_DIRECTORY_RESIDENCY_GPU /\ physical_block_index e = i.
Proof. unfold gpu_block. destruct (Z.eqb_spec (residency_state e) KV_DIRECTORY_RESIDENCY_GPU); naive_solver. Qed.

Lemma resident_Some B k i : resident B !! k = Some i <-> exists e, B !! k = Some e /\ gpu_block e = Some i.
Proof. unfold resident. rewrite lookup_omap. destruct (B !! k) as [e|]; naive_solver. Qed.

Lemma resident_insert B k e :
  resident (<[k := e]> B) = match gpu_block e with Some i => <[k := i]> (resident B) | None => delete k (resident B) end.
Proof. unfold resident. rewrite omap_insert. by destruct (gpu_block e). Qed.

Lemma resident_insert_none B k e : gpu_block e = None -> resident (<[k := e]> B) = delete k (resident B).
Proof. intros He. by rewrite resident_insert, He. Qed.

Lemma resident_insert_some B k e i : gpu_block e = Some i -> resident (<[k := e]> B) = <[k := i]> (resident B).
Proof. intros He. by rewrite resident_insert, He. Qed.

Lemma resident_delete B k : resident (delete k B) = delete k (resident B).
Proof. unfold resident. apply omap_delete. Qed.

Lemma owners_Some B k i : owners B !! k = Some i <-> exists e, B !! k = Some e /\ backing_block_index e = i.
Proof. unfold owners. rewrite lookup_fmap_Some. naive_solver. Qed.

(** How many records are swapped out. *)
Definition swapped (B : gmap KvKey KvBlockEntry) : Z := Z.of_nat (size B) - Z.of_nat (size (resident B)).

Lemma resident_insert_size B k e e' :
  B !! k = Some e ->
  Z.of_nat (size (resident (<[k := e']> B))) = Z.of_nat (size (resident B))
    - b2z (bool_decide (is_Some (gpu_block e))) + b2z (bool_decide (is_Some (gpu_block e'))).
Proof.
  intros Hk. rewrite resident_insert. assert (resident B !! k = gpu_block e) as Hr.
  { unfold resident. by rewrite lookup_omap, Hk. }
  destruct (gpu_block e') as [i'|] eqn:He', (gpu_block e) as [i|] eqn:He.
  - rewrite map_size_insert_Some by (by rewrite Hr). rewrite !bool_decide_true by eauto. simpl. lia.
  - rewrite map_size_insert_None by done. rewrite bool_decide_false by (by intros [? ?]). rewrite bool_decide_true by eauto. simpl. lia.
  - rewrite map_size_delete_Some by (by rewrite Hr). rewrite bool_decide_true by eauto. rewrite bool_decide_false by (by intros [? ?]).
    assert (size (resident B) <> 0)%nat; [|simpl; lia]. intros H0%map_size_empty_iff. rewrite H0, lookup_empty in Hr. done.
  - rewrite map_size_delete_None by done. rewrite !bool_decide_false by (by intros [? ?]). simpl. lia.
Qed.

Lemma resident_size B : (size (resident B) <= size B)%nat.
Proof.
  unfold resident. rewrite <-!size_dom. apply subseteq_size. intros k [i Hi]%elem_of_dom.
  rewrite lookup_omap in Hi. destruct (B !! k) as [e|] eqn:He; [|done]. apply elem_of_dom. eauto.
Qed.

Lemma size_pos {A} (m : gmap KvKey A) k x : m !! k = Some x -> (size m <> 0)%nat.
Proof. intros Hk H0%map_size_empty_iff. by rewrite H0, lookup_empty in Hk. Qed.

Lemma swapped_pos B k e : B !! k = Some e -> gpu_block e = None -> 1 <= swapped B.
Proof.
  intros Hk Hg. assert (resident B !! k = None) as Hr by (unfold resident; by rewrite lookup_omap, Hk).
  unfold swapped. pose proof (resident_size (delete k B)) as Hle. pose proof (size_pos _ _ _ Hk).
  rewrite resident_delete, delete_id in Hle by done. rewrite map_size_delete_Some in Hle by (by rewrite Hk). lia.
Qed.

Section wf.
Context {H : Type} `{!KvSwapHooks H}.
Implicit Types (s : KvState H) (R : KvKey -> Z) (B : gmap KvKey KvBlockEntry) (O : gmap KvKey Z).

(** A record that is not on the GPU has a valid copy in backing storage. *)
Definition placed (backing_cap : Z) (e : KvBlockEntry) : Prop :=
  residency_state e = KV_DIRECTORY_RESIDENCY_GPU \/
  (residency_state e = KV_DIRECTORY_RESIDENCY_NVME /\ physical_block_index e = KV_INVALID_BLOCK_INDEX /\
   backing_valid e = true /\ backing_cap <> 0).

(** The fields no block operation changes. *)
Definition shape s : Z * Z * Z * nat * option nat * bool * nat :=
  (block_entry_capacity s, physical_block_capacity s, backing_block_capacity s, length (physical_block_last_used_epochs s),
   length <$> physical_block_pin_counts s, match swap_hooks s with Some _ => true | None => false end, length (block_entries s)).

Record shape_ok s : Prop := {
  so_entries : Z.of_nat (length (block_entries s)) = block_entry_capacity s;
  so_epochs : Z.of_nat (length (physical_block_last_used_epochs s)) = physical_block_capacity s;
  so_pins pins : physical_block_pin_counts s = Some pins -> Z.of_nat (length pins) = physical_block_capacity s;
  so_hooks : swap_hooks s = None <-> backing_block_capacity s = 0;
  so_limit : 2 * block_limit s <= block_entry_capacity s;
}.

Lemma shape_ok_eq s s' : shape s' = shape s -> shape_ok s -> shape_ok s'.
Proof.
  intros [= Hec Hpc Hbc Hep Hpi Hh Hel] []. split.
  - congruence.
  - congruence.
  - intros pins Hp. rewrite Hp in Hpi. destruct (physical_block_pin_counts s) as [pins'|]; [|done].
    injection Hpi as ->. rewrite Hpc. auto.
  - rewrite Hbc, <-so_hooks0. destruct (swap_hooks s), (swap_hooks s'); naive_solver.
  - unfold block_limit in *. rewrite Hec, Hbc, Hpc. done.
Qed.

Record blocks_wf s R B O : Prop := {
  bw_shape : shape_ok s;
  bw_table : represents (block_entries s) B;
  bw_phys : phys_ok (physical_block_capacity s) (physical_block_keys s) (physical_block_states s) (resident B)
              (allocated_physical_block_count s);
  bw_back : backing_ok (backing_block_capacity s) (free_backing_block_head s) (backing_block_free_next s) O;
  bw_owner k e : B !! k = Some e -> O !! k = Some (backing_block_index e);
  bw_entry k e : B !! k = Some e -> reference_count e = R k /\ 0 < R k <= U32_MAX /\ placed (backing_block_capacity s) e;
  bw_live k : 0 < R k -> is_Some (B !! k);
  bw_nonneg k : 0 <= R k;
  bw_count : block_entry_count s = Z.of_nat (size B);
  bw_swapped : swapped_block_count s = swapped B;
  bw_size : Z.of_nat (size B) <= block_limit s;
  bw_next : 0 <= next_physical_block_index s < physical_block_capacity s;
}.

Lemma table_key s B (slot : nat) e : represents (block_entries s) B -> block_entries s !! slot = Some e -> b_key e <> empty_key ->
  B !! b_key e = Some e /\ held e = true.
Proof. intros Hr He Hk. split; [by eapply (rep_found Hr)|by apply held_spec]. Qed.

Lemma wf_key_nonempty s R B O k e : blocks_wf s R B O -> B !! k = Some e -> k <> empty_key /\ b_key e = k.
Proof. intros Hw Hk. apply (rep_lookup _ _ (bw_table _ _ _ _ Hw)) in Hk as (Hne&i&_&He). done. Qed.

(** A record rewritten in place: its key and backing block stay. *)
Lemma blocks_wf_put s s' R R' B O slot k e e' :
  blocks_wf s R B O -> block_entries s !! slot = Some e -> B !! k = Some e ->
  b_key e' = k -> backing_block_index e' = backing_block_index e ->
  reference_count e' = R' k -> 0 < R' k <= U32_MAX -> (forall k', k' <> k -> R' k' = R k') ->
  placed (backing_block_capacity s) e' ->
  shape s' = shape s -> block_entries s' = <[slot := e']> (block_entries s) ->
  free_backing_block_head s' = free_backing_block_head s -> backing_block_free_next s' = backing_block_free_next s ->
  phys_ok (physical_block_capacity s) (physical_block_keys s') (physical_block_states s') (resident (<[k := e']> B))
    (allocated_physical_block_count s') ->
  block_entry_count s' = block_entry_count s ->
  swapped_block_count s' = swapped_block_count s + b2z (bool_decide (is_Some (gpu_block e))) - b2z (bool_decide (is_Some (gpu_block e'))) ->
  0 <= next_physical_block_index s' < physical_block_capacity s ->
  blocks_wf s' R' (<[k := e']> B) O.
Proof.
  intros Hw Hse Hk Hke' Hbi Hrc HR HR' Hpl Hsh Hent Hhd Hfn Hph Hcnt Hsw Hnx.
  pose proof (wf_key_nonempty _ _ _ _ _ _ Hw Hk) as [Hne Hke]. pose proof (shape_ok_eq _ _ Hsh (bw_shape _ _ _ _ Hw)) as Hso.
  injection Hsh as Hec Hpc Hbc Hep Hpi Hh Hel.
  assert (size (<[k := e']> B) = size B) as Hsz by (apply map_size_insert_Some; by rewrite Hk).
  split.
  - done.
  - rewrite Hent, <-Hke. apply (represents_update (bw_table _ _ _ _ Hw)); [done| |cbn; congruence].
    apply held_spec. cbn. congruence.
  - by rewrite Hpc.
  - rewrite Hbc, Hhd, Hfn. apply Hw.
  - intros k2 e2 [[<- <-]|[_ H2]]%lookup_insert_Some; [rewrite Hbi; by apply (bw_owner _ _ _ _ Hw)|by apply (bw_owner _ _ _ _ Hw)].
  - intros k2 e2 [[<- <-]|[Hk2 H2]]%lookup_insert_Some; [by rewrite Hbc|]. rewrite HR', Hbc by congruence. by apply (bw_entry _ _ _ _ Hw).
  - intros k2 H2. destruct (decide (k2 = k)) as [->|Hk2]; [rewrite lookup_insert_eq; eauto|].
    rewrite lookup_insert_ne by congruence. apply (bw_live _ _ _ _ Hw). by rewrite <-HR'.
  - intros k2. destruct (decide (k2 = k)) as [->|Hk2]; [lia|]. rewrite HR' by done. apply Hw.
  - rewrite Hcnt, Hsz. apply Hw.
  - rewrite Hsw. unfold swapped. rewrite Hsz, (resident_insert_size _ _ e) by done.
    rewrite (bw_swapped _ _ _ _ Hw). unfold swapped. lia.
  - rewrite Hsz. unfold block_limit. rewrite Hbc, Hpc. apply Hw.
  - by rewrite Hpc.
Qed.

(** A record entered at the vacant slot a probe found. *)
Lemma blocks_wf_new s s' R R' B O slot e0 e' k i :
  blocks_wf s R B O -> block_entries s !! slot = Some e0 -> held e0 = false ->
  reaches (block_entries s) k (Z.of_nat slot) -> k <> empty_key -> B !! k = None ->
  b_key e' = k -> O !! k = Some (backing_block_index e') -> gpu_block e' = Some i ->
  reference_count e' = R' k -> R' k = 1 -> (forall k', k' <> k -> R' k' = R k') ->
  shape s' = shape s -> block_entries s' = <[slot := e']> (block_entries s) ->
  free_backing_block_head s' = free_backing_block_head s -> backing_block_free_next s' = backing_block_free_next s ->
  phys_ok (physical_block_capacity s) (physical_block_keys s') (physical_block_states s') (<[k := i]> (resident B))
    (allocated_physical_block_count s') ->
  Z.of_nat (size B) < block_limit s -> block_entry_count s' = block_entry_count s + 1 ->
  swapped_block_count s' = swapped_block_count s -> next_physical_block_index s' = next_physical_block_index s ->
  blocks_wf s' R' (<[k := e']> B) O.
Proof.
  intros Hw Hse Hv Hre Hne Hk Hke' HO Hg Hrc HR1 HR' Hsh Hent Hhd Hfn Hph Hlim Hcnt Hsw Hnx.
  pose proof (shape_ok_eq _ _ Hsh (bw_shape _ _ _ _ Hw)) as Hso. injection Hsh as Hec Hpc Hbc Hep Hpi Hh Hel.
  assert (size (<[k := e']> B) = S (size B)) as Hsz by by apply map_size_insert_None.
  assert (resident (<[k := e']> B) = <[k := i]> (resident B)) as Hres by by rewrite resident_insert, Hg.
  assert (resident B !! k = None) as Hrk by (unfold resident; by rewrite lookup_omap, Hk).
  split.
  - done.
  - rewrite Hent. subst k. by apply (represents_insert (bw_table _ _ _ _ Hw) slot e0).
  - by rewrite Hpc, Hres.
  - rewrite Hbc, Hhd, Hfn. apply Hw.
  - intros k2 e2 [[<- <-]|[_ H2]]%lookup_insert_Some; [done|by apply (bw_owner _ _ _ _ Hw)].
  - intros k2 e2 [[<- <-]|[Hk2 H2]]%lookup_insert_Some.
    + split; [done|]. split; [lia|]. left. by apply gpu_block_Some in Hg as [? _].
    + rewrite HR', Hbc by congruence. by apply (bw_entry _ _ _ _ Hw).
  - intros k2 H2. destruct (decide (k2 = k)) as [->|Hk2]; [rewrite lookup_insert_eq; eauto|].
    rewrite lookup_insert_ne by congruence. apply (bw_live _ _ _ _ Hw). by rewrite <-HR'.
  - intros k2. destruct (decide (k2 = k)) as [->|Hk2]; [lia|]. rewrite HR' by done. apply Hw.
  - rewrite Hcnt, Hsz, (bw_count _ _ _ _ Hw). lia.
  - rewrite Hsw, (bw_swapped _ _ _ _ Hw). unfold swapped. rewrite Hsz, Hres, map_size_insert_None by done. lia.
  - rewrite Hsz. unfold block_limit in *. rewrite Hbc, Hpc. lia.
  - rewrite Hnx, Hpc. apply Hw.
Qed.

(** A record removed. *)
Lemma blocks_wf_drop s s' R R' B k e :
  blocks_wf s R B (owners B) -> B !! k = Some e -> R' k = 0 -> (forall k', k' <> k -> R' k' = R k') ->
  shape s' = shape s -> represents (block_entries s') (delete k B) ->
  phys_ok (physical_block_capacity s) (physical_block_keys s') (physical_block_states s') (delete k (resident B))
    (allocated_physical_block_count s') ->
  backing_ok (backing_block_capacity s) (free_backing_block_head s') (backing_block_free_next s') (delete k (owners B)) ->
  block_entry_count s' = block_entry_count s - 1 ->
  swapped_block_count s' = swapped_block_count s - 1 + b2z (bool_decide (is_Some (gpu_block e))) ->
  next_physical_block_index s' = next_physical_block_index s ->
  blocks_wf s' R' (delete k B) (owners (delete k B)).
Proof.
  intros Hw Hk HR0 HR' Hsh Hrep Hph Hbk Hcnt Hsw Hnx.
  pose proof (shape_ok_eq _ _ Hsh (bw_shape _ _ _ _ Hw)) as Hso. injection Hsh as Hec Hpc Hbc Hep Hpi Hh Hel.
  assert (Z.of_nat (size (delete k B)) = Z.of_nat (size B) - 1) as Hsz.
  { pose proof (size_pos _ _ _ Hk).
    rewrite map_size_delete_Some by (by rewrite Hk). lia. }
  assert (owners (delete k B) = delete k (owners B)) as Ho by apply fmap_delete.
  assert (Z.of_nat (size (delete k (resident B))) = Z.of_nat (size (resident B)) - b2z (bool_decide (is_Some (gpu_block e)))) as Hrs.
  { assert (resident B !! k = gpu_block e) as Hr by (unfold resident; by rewrite lookup_omap, Hk).
    destruct (gpu_block e) as [i|] eqn:He.
    - pose proof (size_pos _ _ _ Hr).
      rewrite map_size_delete_Some by (by rewrite Hr). rewrite bool_decide_true by eauto. simpl. lia.
    - rewrite map_size_delete_None by done. rewrite bool_decide_false by (by intros [? ?]). simpl. lia. }
  rewrite Ho. split.
  - done.
  - done.
  - by rewrite Hpc, resident_delete.
  - by rewrite Hbc.
  - intros k2 e2 [Hk2 H2]%lookup_delete_Some. rewrite lookup_delete_ne by done. by apply (bw_owner _ _ _ _ Hw).
  - intros k2 e2 [Hk2 H2]%lookup_delete_Some. rewrite HR', Hbc by congruence. by apply (bw_entry _ _ _ _ Hw).
  - intros k2 H2. assert (k2 <> k) by (intros ->; lia). rewrite lookup_delete_ne by congruence.
    apply (bw_live _ _ _ _ Hw). by rewrite <-HR'.
  - intros k2. destruct (decide (k2 = k)) as [->|Hk2]; [lia|]. rewrite HR' by done. apply Hw.
  - rewrite Hcnt, Hsz, (bw_count _ _ _ _ Hw). lia.
  - rewrite Hsw, (bw_swapped _ _ _ _ Hw). unfold swapped. rewrite Hsz, resident_delete, Hrs. lia.
  - rewrite Hsz. unfold block_limit in *. rewrite Hbc, Hpc. pose proof (bw_size _ _ _ _ Hw) as Hs. unfold block_limit in Hs. lia.
  - rewrite Hnx, Hpc. apply Hw.
Qed.

Definition rekeyed (k' : KvKey) (e : KvBlockEntry) : KvBlockEntry := e <| b_key := k' |>.

(** A record entered again under another key. *)
Lemma blocks_wf_rekey s s' R R' B k k' e :
  blocks_wf s R B (owners B) -> B !! k = Some e -> B !! k' = None -> k' <> empty_key ->
  R' k = 0 -> R' k' = R k -> (forall k2, k2 <> k -> k2 <> k' -> R' k2 = R k2) ->
  shape s' = shape s -> represents (block_entries s') (<[k' := rekeyed k' e]> (delete k B)) ->
  phys_ok (physical_block_capacity s) (physical_block_keys s') (physical_block_states s')
    (resident (<[k' := rekeyed k' e]> (delete k B))) (allocated_physical_block_count s') ->
  free_backing_block_head s' = free_backing_block_head s -> backing_block_free_next s' = backing_block_free_next s ->
  block_entry_count s' = block_entry_count s -> swapped_block_count s' = swapped_block_count s ->
  next_physical_block_index s' = next_physical_block_index s ->
  blocks_wf s' R' (<[k' := rekeyed k' e]> (delete k B)) (owners (<[k' := rekeyed k' e]> (delete k B))).
Proof.
  intros Hw Hk Hk' Hne' HR0 HRk HR' Hsh Hrep Hph Hhd Hfn Hcnt Hsw Hnx.
  assert (k <> k') as Hkk by congruence. destruct (bw_entry _ _ _ _ Hw k e Hk) as (Hrc&HRr&Hpl).
  pose proof (shape_ok_eq _ _ Hsh (bw_shape _ _ _ _ Hw)) as Hso. injection Hsh as Hec Hpc Hbc Hep Hpi Hh Hel.
  assert (delete k B !! k' = None) as Hdk by by rewrite lookup_delete_ne.
  assert (size (<[k' := rekeyed k' e]> (delete k B)) = size B) as Hsz.
  { rewrite map_size_insert_None by done. rewrite map_size_delete_Some by (by rewrite Hk).
    pose proof (size_pos _ _ _ Hk). lia. }
  assert (owners (<[k' := rekeyed k' e]> (delete k B)) = <[k' := backing_block_index e]> (delete k (owners B))) as Ho.
  { unfold owners. by rewrite fmap_insert, fmap_delete. }
  assert (size (resident (<[k' := rekeyed k' e]> (delete k B))) = size (resident B)) as Hrs.
  { rewrite resident_insert, resident_delete. change (gpu_block (rekeyed k' e)) with (gpu_block e).
    assert (resident B !! k = gpu_block e) as Hr by (unfold resident; by rewrite lookup_omap, Hk).
    assert (resident B !! k' = None) as Hr' by (unfold resident; by rewrite lookup_omap, Hk').
    destruct (gpu_block e) as [i|] eqn:He.
    - rewrite map_size_insert_None by by rewrite lookup_delete_ne. rewrite map_size_delete_Some by (by rewrite Hr).
      pose proof (size_pos _ _ _ Hr). lia.
    - rewrite !map_size_delete_None; [done|done|by rewrite lookup_delete_ne]. }
  rewrite Ho. split.
  - done.
  - done.
  - by rewrite Hpc.
  - rewrite Hbc, Hhd, Hfn. apply backing_rename; [apply Hw|apply owners_Some; eauto|].
    unfold owners. by rewrite lookup_fmap, Hk'.
  - intros k2 e2 [[<- <-]|[Hk2' [Hk2 H2]%lookup_delete_Some]]%lookup_insert_Some; [by rewrite lookup_insert_eq|].
    rewrite lookup_insert_ne, lookup_delete_ne by done. by apply (bw_owner _ _ _ _ Hw).
  - intros k2 e2 [[<- <-]|[Hk2' [Hk2 H2]%lookup_delete_Some]]%lookup_insert_Some.
    + rewrite HRk, Hbc. done.
    + rewrite HR', Hbc by congruence. by apply (bw_entry _ _ _ _ Hw).
  - intros k2 H2. destruct (decide (k2 = k')) as [->|Hk2]; [rewrite lookup_insert_eq; eauto|].
    assert (k2 <> k) by (intros ->; lia). rewrite lookup_insert_ne, lookup_delete_ne by congruence.
    apply (bw_live _ _ _ _ Hw). by rewrite <-HR'.
  - intros k2. destruct (decide (k2 = k)) as [->|Hk2]; [lia|]. destruct (decide (k2 = k')) as [->|Hk2']; [lia|].
    rewrite HR' by done. apply Hw.
  - rewrite Hcnt, Hsz. apply Hw.
  - rewrite Hsw, (bw_swapped _ _ _ _ Hw). unfold swapped. by rewrite Hsz, Hrs.
  - rewrite Hsz. unfold block_limit in *. rewrite Hbc, Hpc. apply Hw.
  - rewrite Hnx, Hpc. apply Hw.
Qed.

(** Only the reference counts of live keys matter, and a block waiting for its record
    can be owned ahead of it. *)
Lemma blocks_wf_ext s R R' B O : (forall k, R' k = R k) -> blocks_wf s R B O -> blocks_wf s R' B O.
Proof.
  intros HR [? ? ? ? ? He Hl Hn ? ? ? ?]. split; try done.
  - intros k e Hk. rewrite HR. by apply He.
  - intros k. rewrite HR. apply Hl.
  - intros k. rewrite HR. apply Hn.
Qed.

Lemma blocks_wf_owner s s' R B O O' :
  blocks_wf s R B O -> shape s' = shape s -> block_entries s' = block_entries s ->
  physical_block_keys s' = physical_block_keys s -> physical_block_states s' = physical_block_states s ->
  allocated_physical_block_count s' = allocated_physical_block_count s ->
  block_entry_count s' = block_entry_count s -> swapped_block_count s' = swapped_block_count s ->
  next_physical_block_index s' = next_physical_block_index s ->
  backing_ok (backing_block_capacity s) (free_backing_block_head s') (backing_block_free_next s') O' ->
  (forall k e, B !! k = Some e -> O' !! k = O !! k) ->
  blocks_wf s' R B O'.
Proof.
  intros Hw Hsh He Hk Hs Ha Hc Hsw Hn Hb HO. pose proof (shape_ok_eq _ _ Hsh (bw_shape _ _ _ _ Hw)) as Hso.
  injection Hsh as Hec Hpc Hbc Hep Hpi Hh Hel. destruct Hw. split; unfold block_limit in *; rewrite ?He, ?Hk, ?Hs, ?Ha, ?Hc, ?Hsw, ?Hn, ?Hpc, ?Hbc; try done.
  - intros k e Hke. rewrite (HO k e Hke). auto.
Qed.

End wf.
