(* ===== verification/KvDirectoryOps.v ===== *)
(** * The KV block directory: block operations

    Specifications of the operations on physical blocks and block records: the clock
    sweep, spilling, resolving, releasing, renaming and loading a record.  Each keeps
    [blocks_wf], and evicts no block that is pinned or was used in the current epoch. *)

From S2P Require Import KvIndex Prelude FreeList WorkTransaction Wire WorkControl KvDirectory KvDirectoryInv.

Section ops.
Context {H : Type} `{!KvSwapHooks H}.
Implicit Types (s : KvState H) (R : KvKey -> Z) (B : gmap KvKey KvBlockEntry) (O : gmap KvKey Z).

(** ** What block operations leave alone *)

Definition pinned s (i : Z) : Prop :=
  exists pins n, physical_block_pin_counts s = Some pins /\ pins !! Z.to_nat i = Some n /\ n <> 0.

Definition current s (i : Z) : Prop := physical_block_last_used_epochs s !! Z.to_nat i = Some (epoch s).

(** [k] is on the GPU at [i], and [i] is protected from eviction. *)
Definition kept s B (k : KvKey) (i : Z) : Prop := resident B !! k = Some i /\ (current s i \/ pinned s i).

Definition rest s :=
  (directory_entries s, directory_entry_count s, directory_capacity s, epoch s, physical_block_pin_counts s,
   physical_block_indices s, lane_physical_block_counts s,
   (lane_stride s, lane_capacity s, k_block_token_count s, table_entry_capacity s, lane_block_keys s, lane_block_key_stride s),
   (k_control_generation s, k_abi_version s, k_descriptor_bytes s, missing_block_count s, in_flight_block_count s,
    resident_block_count s)).

Lemma rest_epoch s s' : rest s' = rest s -> epoch s' = epoch s.
Proof. by intros [=]. Qed.

Lemma rest_pins s s' : rest s' = rest s -> physical_block_pin_counts s' = physical_block_pin_counts s.
Proof. by intros [=]. Qed.

Lemma pinned_rest s s' i : rest s' = rest s -> pinned s i -> pinned s' i.
Proof. intros Hr (pins&n&Hp&Hn). exists pins, n. by rewrite (rest_pins _ _ Hr). Qed.

Definition spilled (e : KvBlockEntry) : KvBlockEntry :=
  e <| backing_valid := true |> <| physical_block_index := KV_INVALID_BLOCK_INDEX |>
    <| residency_state := KV_DIRECTORY_RESIDENCY_NVME |>.

(** Records may have been spilled to make room, and nothing else. *)
Record swept s B s' B' : Prop := {
  sw_rest : rest s' = rest s;
  sw_shape : shape s' = shape s;
  sw_head : free_backing_block_head s' = free_backing_block_head s;
  sw_links : backing_block_free_next s' = backing_block_free_next s;
  sw_keys : b_key <$> block_entries s' = b_key <$> block_entries s;
  sw_records k : B' !! k = B !! k \/ exists e i, B !! k = Some e /\ gpu_block e = Some i /\ B' !! k = Some (spilled e);
  sw_kept k i : kept s B k i -> kept s' B' k i;
}.

Lemma swept_refl s B : swept s B s B.
Proof. split; auto. Qed.

Lemma swept_trans s1 B1 s2 B2 s3 B3 : swept s1 B1 s2 B2 -> swept s2 B2 s3 B3 -> swept s1 B1 s3 B3.
Proof.
  intros H1 H2. destruct H1 as [? ? ? ? ? Hr1 ?], H2 as [? ? ? ? ? Hr2 ?]. split; try congruence; [|auto].
  intros k. destruct (Hr2 k) as [Heq|(e&i&He&Hg&Hs)].
  - rewrite Heq. apply Hr1.
  - destruct (Hr1 k) as [Heq1|(e1&i1&He1&Hg1&Hs1)]; [right; exists e, i; by rewrite <-Heq1|].
    exfalso. rewrite Hs1 in He. injection He as <-. done.
Qed.

Lemma swept_lookup s B s' B' k e : swept s B s' B' -> B !! k = Some e -> gpu_block e = None -> B' !! k = Some e.
Proof. intros Hs He Hg. destruct (sw_records _ _ _ _ Hs k) as [->|(e'&i&He'&Hg'&_)]; [done|]. congruence. Qed.

Lemma swept_none s B s' B' k : swept s B s' B' -> B' !! k = None <-> B !! k = None.
Proof. intros Hs. destruct (sw_records _ _ _ _ Hs k) as [->|(e'&i&He'&Hg'&->)]; [done|]. rewrite He'. done. Qed.

Lemma swept_owners s B s' B' : swept s B s' B' -> owners B' = owners B.
Proof.
  intros Hs. apply map_eq. intros k. unfold owners. rewrite !lookup_fmap.
  destruct (sw_records _ _ _ _ Hs k) as [->|(e'&i&He'&Hg'&->)]; [done|]. by rewrite He'.
Qed.

Lemma swept_size s B s' B' : swept s B s' B' -> size B' = size B.
Proof. intros Hs%swept_owners. rewrite <-(map_size_fmap backing_block_index B), <-(map_size_fmap backing_block_index B'). by f_equal. Qed.

(** A probe's walk depends on the keys of the table only. *)
Lemma reaches_keys {E} `{KvIndexed E} (es es' : list E) key i :
  entry_key <$> es' = entry_key <$> es -> reaches es key i -> reaches es' key i.
Proof.
  intros Heq Hr. assert (length es' = length es) as Hlen by (rewrite <-(length_fmap entry_key es'), Heq; apply length_fmap).
  unfold reaches in *. rewrite Hlen. intros j Hj Hd. destruct (Hr j Hj Hd) as (e&He&Hh).
  assert ((entry_key <$> es') !! Z.to_nat j = Some (entry_key e)) as Hk by (rewrite Heq, list_lookup_fmap, He; done).
  rewrite list_lookup_fmap in Hk. destruct (es' !! Z.to_nat j) as [e'|] eqn:He'; [|done]. injection Hk as Hk.
  exists e'. split; [done|]. rewrite held_spec in *. congruence.
Qed.

Lemma upd_nth_as_insert {A} i (f : A -> A) l x : l !! Z.to_nat i = Some x -> upd_nth i f l = <[Z.to_nat i := f x]> l.
Proof.
  intros Hl. apply list_eq. intros j. unfold upd_nth. destruct (decide (j = Z.to_nat i)) as [->|Hne].
  - rewrite list_lookup_alter_eq, Hl, list_lookup_insert_eq by (by eapply lookup_lt_Some). done.
  - by rewrite list_lookup_alter_ne, list_lookup_insert_ne.
Qed.

(** ** Primitive steps *)

Lemma wp_upd_block slot f e Q (Rr : WorkControlError -> KvState H -> Prop) s :
  block_entries s !! Z.to_nat slot = Some e ->
  Q tt (s <| block_entries := <[Z.to_nat slot := f e]> (block_entries s) |>) -> wp (upd_block slot f) Q Rr s.
Proof.
  intros He HQ. unfold upd_block. wp_steps.
  by rewrite (upd_nth_as_insert _ _ _ _ He).
Qed.

Lemma wp_set_physical i key used state k0 u0 st0 Q (Rr : WorkControlError -> KvState H -> Prop) s :
  physical_block_keys s !! Z.to_nat i = Some k0 -> physical_block_last_used_epochs s !! Z.to_nat i = Some u0 ->
  physical_block_states s !! Z.to_nat i = Some st0 ->
  Q tt (s <| physical_block_keys := <[Z.to_nat i := key]> (physical_block_keys s) |>
          <| physical_block_last_used_epochs := <[Z.to_nat i := used]> (physical_block_last_used_epochs s) |>
          <| physical_block_states := <[Z.to_nat i := state]> (physical_block_states s) |>) ->
  wp (set_physical i key used state) Q Rr s.
Proof. intros Hk Hu Hs HQ. unfold set_physical. wp_steps. done. Qed.

Lemma phys_lookup s R B O i : blocks_wf s R B O -> 0 <= i < physical_block_capacity s ->
  (exists k, physical_block_keys s !! Z.to_nat i = Some k) /\ (exists u, physical_block_last_used_epochs s !! Z.to_nat i = Some u) /\
  (exists st, physical_block_states s !! Z.to_nat i = Some st).
Proof.
  intros Hw Hi. pose proof (bw_phys _ _ _ _ Hw) as Hp. pose proof (ph_keys _ _ _ _ _ Hp). pose proof (ph_states _ _ _ _ _ Hp).
  pose proof (so_epochs _ (bw_shape _ _ _ _ Hw)). split; [|split]; apply lookup_Some_range; lia.
Qed.

Lemma wp_is_pinned i Q (Rr : WorkControlError -> KvState H -> Prop) s R B O :
  blocks_wf s R B O -> 0 <= i < physical_block_capacity s ->
  (pinned s i -> Q true s) -> (~ pinned s i -> Q false s) -> wp (is_pinned i) Q Rr s.
Proof.
  intros Hw Hi Hy Hn. unfold is_pinned. wp_steps. change (id s) with s. destruct (physical_block_pin_counts s) as [pins|] eqn:Hp.
  - pose proof (so_pins _ (bw_shape _ _ _ _ Hw) pins Hp). destruct (lookup_Some_range pins i) as [n Hpn]; [lia|]. wp_steps.
    destruct (Z.eqb_spec n 0) as [->|Hn0]; simpl.
    + apply Hn. intros (pins'&n'&Hp'&Hn'&Hne). congruence.
    + apply Hy. exists pins, n. done.
  - wp_steps. apply Hn. intros (pins'&n'&Hp'&_). congruence.
Qed.

Lemma wp_find_block k Q (Rr : WorkControlError -> KvState H -> Prop) s R B O :
  blocks_wf s R B O -> k <> empty_key ->
  (forall slot e, 0 <= slot < Z.of_nat (length (block_entries s)) -> block_entries s !! Z.to_nat slot = Some e -> B !! k = Some e -> Q (Some slot) s) ->
  (B !! k = None -> Q None s) -> wp (find_block k) Q Rr s.
Proof.
  intros Hw Hne Hy Hn. unfold find_block. wp_steps. change (id s) with s.
  eapply wp_mono; [apply (kv_index_find_spec (bw_table _ _ _ _ Hw) k Rr s Hne)| |intros ?? H'; exact H'].
  intros [slot|] s' [-> Ho]; [|by apply Hn]. destruct Ho as (e&Hs&He&_&Hk). by apply (Hy slot e).
Qed.

(** ** Spilling *)

Lemma entries_bound s R B O : blocks_wf s R B O ->
  2 * block_limit s <= 2147483648 /\ block_entry_capacity s <= 2147483648 /\ 0 <= swapped B <= Z.of_nat (size B).
Proof.
  intros Hw. pose proof (rep_bounds (bw_table _ _ _ _ Hw)). pose proof (bw_shape _ _ _ _ Hw) as [].
  pose proof (resident_size B). unfold swapped. lia.
Qed.

Lemma allocated_at_owner s R B O k i : blocks_wf s R B O -> resident B !! k = Some i ->
  1 <= allocated_physical_block_count s <= 2147483647.
Proof.
  intros Hw Hk. pose proof (bw_phys _ _ _ _ Hw) as Hp. destruct (ph_gpu _ _ _ _ _ Hp k i Hk) as (_&Hne&Hki&_).
  pose proof (countb_ge_1 allocated_key _ _ _ Hki (proj2 (allocated_key_spec k) Hne)). pose proof (phys_allocated_bound _ _ _ _ _ Hp).
  rewrite <-(ph_allocated _ _ _ _ _ Hp) in H0. pose proof (ph_cap _ _ _ _ _ Hp) as Hc. change (U32_MAX / 2) with 2147483647 in Hc. lia.
Qed.

Lemma resident_of s R B O k e i : blocks_wf s R B O -> B !! k = Some e -> gpu_block e = Some i ->
  resident B !! k = Some i /\ 0 <= i < physical_block_capacity s.
Proof.
  intros Hw Hk Hg. assert (resident B !! k = Some i) as Hr by (apply resident_Some; eauto). split; [done|].
  by apply (ph_gpu _ _ _ _ _ (bw_phys _ _ _ _ Hw)) in Hr as [? _].
Qed.

Lemma spill_wf s s' R B O slot k e i :
  blocks_wf s R B O -> block_entries s !! slot = Some e -> B !! k = Some e -> gpu_block e = Some i ->
  backing_block_capacity s <> 0 -> ~ current s i -> ~ pinned s i ->
  rest s' = rest s -> shape s' = shape s -> block_entries s' = <[slot := spilled e]> (block_entries s) ->
  free_backing_block_head s' = free_backing_block_head s -> backing_block_free_next s' = backing_block_free_next s ->
  physical_block_keys s' = <[Z.to_nat i := empty_key]> (physical_block_keys s) ->
  physical_block_states s' = <[Z.to_nat i := KV_ENTRY_MISSING]> (physical_block_states s) ->
  physical_block_last_used_epochs s' = <[Z.to_nat i := 0]> (physical_block_last_used_epochs s) ->
  allocated_physical_block_count s' = allocated_physical_block_count s -u32 1 ->
  block_entry_count s' = block_entry_count s -> swapped_block_count s' = swapped_block_count s +u32 1 ->
  next_physical_block_index s' = next_physical_block_index s ->
  blocks_wf s' R (<[k := spilled e]> B) O /\ swept s B s' (<[k := spilled e]> B).
Proof.
  intros Hw Hse Hk Hg Hcap Hcur Hpin Hrest Hsh Hent Hhd Hln Hkeys Hst Hep Hal Hcnt Hsw Hnx.
  destruct (resident_of _ _ _ _ _ _ _ Hw Hk Hg) as [Hr Hi]. destruct (wf_key_nonempty _ _ _ _ _ _ Hw Hk) as [Hne Hke].
  destruct (bw_entry _ _ _ _ Hw k e Hk) as (Hrc&HR&_).
  pose proof (allocated_at_owner _ _ _ _ _ _ Hw Hr). destruct (entries_bound _ _ _ _ Hw) as (Hlim&_&Hsb).
  pose proof (bw_size _ _ _ _ Hw) as Hsz. rewrite (bw_swapped _ _ _ _ Hw) in Hsw.
  rewrite u32_small in Hsw by lia. rewrite u32_small in Hal by lia. split.
  - apply (blocks_wf_put s s' R R B O slot k e); try done.
    + right. repeat split; try done.
    + rewrite Hkeys, Hst, Hal, resident_insert_none by done.
      apply phys_clear; [apply Hw|done].
    + rewrite Hsw, (bw_swapped _ _ _ _ Hw), Hg. change (gpu_block (spilled e)) with (@None Z). rewrite bool_decide_true by eauto.
      rewrite bool_decide_false by (by intros [? ?]). simpl. lia.
    + rewrite Hnx. apply Hw.
  - split; try done.
    + rewrite Hent, list_fmap_insert. apply list_insert_id. by rewrite list_lookup_fmap, Hse.
    + intros k2. destruct (decide (k2 = k)) as [->|Hk2]; [right; exists e, i; by rewrite lookup_insert_eq|].
      left. by rewrite lookup_insert_ne.
    + intros k2 i2 [Hr2 Hkeep]. assert (k2 <> k) as Hk2.
      { intros ->. rewrite Hr in Hr2. injection Hr2 as <-. tauto. }
      assert (i2 <> i) as Hi2 by (intros ->; apply Hk2; by eapply phys_inj; [apply Hw| |]).
      assert (0 <= i2) by (apply (ph_gpu _ _ _ _ _ (bw_phys _ _ _ _ Hw)) in Hr2; lia).
      split.
      * rewrite resident_insert_none by done. by rewrite lookup_delete_ne.
      * destruct Hkeep as [Hc|Hp]; [left|right; by apply (pinned_rest s)].
        unfold current in *. rewrite Hep, list_lookup_insert_ne, (rest_epoch _ _ Hrest) by lia. done.
Qed.

(** A storage call changes the hooks' own state only. *)
Lemma blocks_wf_hooks s R B O h h' :
  blocks_wf s R B O -> swap_hooks s = Some h -> blocks_wf (s <| swap_hooks := Some h' |>) R B O.
Proof.
  intros Hw Hh. apply (blocks_wf_owner s _ R B O O); try done; [unfold shape; cbn; by rewrite Hh|apply Hw].
Qed.

Lemma swept_hooks s B h h' : swap_hooks s = Some h -> swept s B (s <| swap_hooks := Some h' |>) B.
Proof. intros Hh. split; try done; [unfold shape; cbn; by rewrite Hh|auto]. Qed.

Lemma spill_spec s R B O slot k e i :
  blocks_wf s R B O -> block_entries s !! Z.to_nat slot = Some e -> B !! k = Some e -> gpu_block e = Some i ->
  backing_block_capacity s <> 0 -> ~ current s i -> ~ pinned s i ->
  wp (kv_spill_block slot i)
    (fun _ s' => exists B', blocks_wf s' R B' O /\ swept s B s' B' /\ physical_block_keys s' !! Z.to_nat i = Some empty_key)
    (fun _ s' => blocks_wf s' R B O /\ swept s B s' B) s.
Proof.
  intros Hw Hse Hk Hg Hcap Hcur Hpin. destruct (resident_of _ _ _ _ _ _ _ Hw Hk Hg) as [Hr Hi].
  destruct (phys_lookup _ _ _ _ i Hw Hi) as ([k0 Hk0]&[u0 Hu0]&[st0 Hst0]).
  pose proof (lookup_lt_Some _ _ _ Hse) as Hlt. pose proof (lookup_lt_Some _ _ _ Hk0) as Hkl.
  assert (exists h, swap_hooks s = Some h) as [h Hh].
  { destruct (swap_hooks s) as [h|] eqn:Hh; [eauto|]. apply (so_hooks _ (bw_shape _ _ _ _ Hw)) in Hh. done. }
  unfold kv_spill_block, block_at. wp_steps. destruct (backing_valid e) eqn:Hbv; cbn [negb]; wp_steps.
  - eapply wp_upd_block; [exact Hse|]. wp_steps. unfold kv_clear_physical_block. eapply wp_set_physical; [exact Hk0|exact Hu0|exact Hst0|].
    wp_steps. exists (<[k := spilled e]> B). apply and_assoc. split.
    + eapply spill_wf; try done; cbn.
      * unfold shape. cbn. rewrite !length_insert. done.
      * unfold spilled. destruct e; cbn in *. by subst.
    + cbn. apply list_lookup_insert_eq. lia.
  - unfold call_hook. wp_steps. cbn [id]. rewrite Hh. unfold some_or. wp_steps.
    destruct (hook_store (b_key e) i (backing_block_index e) h) as [[err|] h'].
    + wp_steps. split; [by eapply blocks_wf_hooks|by apply (swept_hooks s B h)].
    + wp_steps. eapply wp_upd_block; [exact Hse|]. wp_steps.
      eapply wp_upd_block; [cbn; apply list_lookup_insert_eq; lia|]. wp_steps. unfold kv_clear_physical_block.
      eapply wp_set_physical; [exact Hk0|exact Hu0|exact Hst0|].
      wp_steps. exists (<[k := spilled e]> B). apply and_assoc. split.
      * eapply spill_wf; try done; cbn.
        -- unfold shape. cbn. rewrite Hh, !length_insert. done.
        -- by rewrite list_insert_insert_eq.
      * cbn. apply list_lookup_insert_eq. lia.
Qed.

(** ** The clock sweep *)

Definition free_at s (i : Z) : Prop :=
  0 <= i < physical_block_capacity s /\ physical_block_keys s !! Z.to_nat i = Some empty_key.

Lemma blocks_wf_next s R B O n :
  blocks_wf s R B O -> 0 <= n < physical_block_capacity s -> blocks_wf (s <| next_physical_block_index := n |>) R B O.
Proof. intros [] Hn. split; try done. by apply (shape_ok_eq s). Qed.

Lemma swept_next s B n : swept s B (s <| next_physical_block_index := n |>) B.
Proof. split; auto. Qed.

Lemma sweep_round_spec s R B O x :
  blocks_wf s R B O ->
  wp (sweep_round x)
    (fun o s' => exists B', blocks_wf s' R B' O /\ swept s B s' B' /\ match o with Some i => free_at s' i | None => True end)
    (fun _ s' => exists B', blocks_wf s' R B' O /\ swept s B s' B') s.
Proof.
  intros Hw. pose proof (bw_next _ _ _ _ Hw) as Hi. set (i := next_physical_block_index s) in *.
  destruct (phys_lookup _ _ _ _ i Hw Hi) as ([k Hk]&[u Hu]&[st Hst]).
  set (s1 := s <| next_physical_block_index := (i +u32 1) mod physical_block_capacity s |>).
  assert (blocks_wf s1 R B O) as Hw1 by (apply blocks_wf_next; [done|apply Z.mod_pos_bound; lia]).
  pose proof (swept_next s B ((i +u32 1) mod physical_block_capacity s)) as Hsw1. fold s1 in Hsw1.
  unfold sweep_round. wp_steps. cbn [id]. fold i. rewrite (proj2 (Z.eqb_neq _ _)) by lia. wp_steps. fold s1.
  eapply (wp_is_pinned i _ _ s1 R B O Hw1 Hi); intros Hpin; [wp_steps; eauto|]. cbv iota. wp_steps.
  destruct (key_is_empty k) eqn:Hke.
  { apply key_is_empty_spec in Hke as ->. wp_steps. exists B. split_and!; done. }
  assert (k <> empty_key) as Hne by (rewrite <-key_is_empty_spec; congruence).
  destruct (Z.eqb_spec (backing_block_capacity s) 0) as [|Hcap]; [wp_steps; eauto|]. wp_steps.
  destruct (Z.eqb_spec st KV_ENTRY_RESIDENT) as [->|]; cbn [negb]; [|wp_steps; eauto]. wp_steps.
  destruct (Z.eqb_spec u (epoch s)) as [|Hue]; [wp_steps; eauto|]. wp_steps.
  assert (resident B !! k = Some i) as Hr.
  { replace i with (Z.of_nat (Z.to_nat i)) by lia. apply (ph_owned _ _ _ _ _ (bw_phys _ _ _ _ Hw)); [done|done|]. rewrite Hst. done. }
  apply resident_Some in Hr as (e&He&Hg).
  apply (wp_find_block k _ _ s1 R B O Hw1 Hne); [|congruence]. intros slot e' Hslot Hse He'.
  assert (e' = e) as -> by congruence. unfold some_or. wp_steps.
  eapply wp_mono; [apply (spill_spec s1 R B O slot k e i); try done|..].
  - unfold current. cbn. intros Hc. congruence.
  - intros _ s2 (B2&Hw2&Hs2&Hk2). wp_steps. exists B2. split; [done|]. split; [by eapply swept_trans|]. split; [|done].
    pose proof (sw_shape _ _ _ _ Hs2) as Hsh. injection Hsh as _ -> _. done.
  - intros _ s2 [Hw2 Hs2]. exists B. split; [done|by eapply swept_trans].
Qed.

Lemma acquire_spec s R B O :
  blocks_wf s R B O ->
  wp kv_acquire_physical_block
    (fun i s' => exists B', blocks_wf s' R B' O /\ swept s B s' B' /\ free_at s' i)
    (fun _ s' => exists B', blocks_wf s' R B' O /\ swept s B s' B') s.
Proof.
  intros Hw. unfold kv_acquire_physical_block. wp_steps.
  eapply (wp_mono _ (fun o s' => exists B', blocks_wf s' R B' O /\ swept s B s' B' /\ match o with Some i => free_at s' i | None => True end) _
    (fun _ s' => exists B', blocks_wf s' R B' O /\ swept s B s' B')).
  - apply (wp_for_return (fun _ s' => exists B', blocks_wf s' R B' O /\ swept s B s' B')).
    + exists B. split; [done|apply swept_refl].
    + intros pre x post s1 _ (B1&Hw1&Hs1). eapply wp_mono; [apply (sweep_round_spec s1 R B1 O x Hw1)|..].
      * intros [i|] s2 (B2&Hw2&Hs2&Hf); exists B2; split_and!; try done; by eapply swept_trans.
      * intros ? s2 (B2&Hw2&Hs2). exists B2. split; [done|by eapply swept_trans].
    + intros s1 (B1&Hw1&Hs1). exists B1. done.
  - intros [i|] s1 (B1&Hw1&Hs1&Hf); unfold some_or; wp_steps; eauto.
  - intros ? s1 H1. exact H1.
Qed.

(** ** Steps that keep the protected blocks of some keys *)

Record steady (K : KvKey -> Prop) s B s' B' : Prop := {
  st_rest : rest s' = rest s;
  st_shape : shape s' = shape s;
  st_kept k i : K k -> kept s B k i -> kept s' B' k i;
}.

Lemma steady_refl K s B : steady K s B s B.
Proof. split; auto. Qed.

Lemma steady_trans K s1 B1 s2 B2 s3 B3 : steady K s1 B1 s2 B2 -> steady K s2 B2 s3 B3 -> steady K s1 B1 s3 B3.
Proof. intros [Hr1 Hs1 Hk1] [Hr2 Hs2 Hk2]. split; [congruence|congruence|auto]. Qed.

Lemma steady_weaken (K K' : KvKey -> Prop) s B s' B' : (forall k, K' k -> K k) -> steady K s B s' B' -> steady K' s B s' B'.
Proof. intros HK []. split; auto. Qed.

Lemma swept_steady K s B s' B' : swept s B s' B' -> steady K s B s' B'.
Proof. intros []. split; auto. Qed.

(** Everything [blocks_wf] and [steady] read. *)
Record core_eq s s' : Prop := {
  ce_rest : rest s' = rest s;
  ce_shape : shape s' = shape s;
  ce_entries : block_entries s' = block_entries s;
  ce_keys : physical_block_keys s' = physical_block_keys s;
  ce_states : physical_block_states s' = physical_block_states s;
  ce_epochs : physical_block_last_used_epochs s' = physical_block_last_used_epochs s;
  ce_head : free_backing_block_head s' = free_backing_block_head s;
  ce_links : backing_block_free_next s' = backing_block_free_next s;
  ce_allocated : allocated_physical_block_count s' = allocated_physical_block_count s;
  ce_count : block_entry_count s' = block_entry_count s;
  ce_swapped : swapped_block_count s' = swapped_block_count s;
  ce_next : next_physical_block_index s' = next_physical_block_index s;
}.

Lemma blocks_wf_core s s' R B O : core_eq s s' -> blocks_wf s R B O -> blocks_wf s' R B O.
Proof.
  intros [Hr Hsh He Hk Hs Hep Hh Hl Ha Hc Hsw Hn] Hw.
  apply (blocks_wf_owner s s' R B O O); try done. rewrite Hh, Hl. apply Hw.
Qed.

Lemma kept_core s s' B k i : core_eq s s' -> kept s B k i -> kept s' B k i.
Proof.
  intros [Hr Hsh He Hk Hs Hep Hh Hl Ha Hc Hsw Hn] [Hres [Hcur|Hpin]]; (split; [done|]).
  - left. unfold current in *. by rewrite Hep, (rest_epoch _ _ Hr).
  - right. by apply (pinned_rest s).
Qed.

Lemma steady_core K s B s1 s2 B' : core_eq s1 s2 -> steady K s B s1 B' -> steady K s B s2 B'.
Proof.
  intros Hc [Hr Hs Hk]. split; [rewrite <-Hr; apply Hc|rewrite <-Hs; apply Hc|].
  intros k i HK Hki. apply (kept_core s1); auto.
Qed.

Lemma kept_resident s s' B B' k i :
  rest s' = rest s -> physical_block_last_used_epochs s' !! Z.to_nat i = physical_block_last_used_epochs s !! Z.to_nat i ->
  resident B' !! k = resident B !! k -> kept s B k i -> kept s' B' k i.
Proof.
  intros Hr He Hres [Hk Hprot]. split; [congruence|]. destruct Hprot as [Hcur|Hpin]; [left|right; by apply (pinned_rest s)].
  unfold current in *. by rewrite He, (rest_epoch _ _ Hr).
Qed.

(** A record rewritten without moving its data. *)
Lemma resident_same B k e e' : B !! k = Some e -> gpu_block e' = gpu_block e -> resident (<[k := e']> B) = resident B.
Proof.
  intros Hk Hg. rewrite resident_insert, Hg. assert (resident B !! k = gpu_block e) as Hr by (unfold resident; by rewrite lookup_omap, Hk).
  destruct (gpu_block e) as [i|]; [by apply insert_id|by apply delete_id].
Qed.

Lemma blocks_wf_touch K s R R' B O slot k e e' :
  let s' := s <| block_entries := <[slot := e']> (block_entries s) |> in
  blocks_wf s R B O -> block_entries s !! slot = Some e -> B !! k = Some e ->
  b_key e' = k -> backing_block_index e' = backing_block_index e -> gpu_block e' = gpu_block e ->
  placed (backing_block_capacity s) e' ->
  reference_count e' = R' k -> 0 < R' k <= U32_MAX -> (forall k', k' <> k -> R' k' = R k') ->
  blocks_wf s' R' (<[k := e']> B) O /\ steady K s B s' (<[k := e']> B).
Proof.
  intros s' Hw Hse Hk Hke Hbi Hg Hpl Hrc HR HR'. pose proof (resident_same B k e e' Hk Hg) as Hres.
  assert (shape s' = shape s) as Hsh by (unfold shape; cbn; by rewrite length_insert). split.
  - apply (blocks_wf_put s s' R R' B O slot k e); try done.
    + rewrite Hres. apply Hw.
    + cbn. rewrite Hg. lia.
    + apply Hw.
  - split; [done|done|]. intros k2 i2 _. apply kept_resident; try done. by rewrite Hres.
Qed.

(** ** Backing blocks *)

Definition with_backing s (head : Z) (links : option (list Z)) : KvState H :=
  s <| free_backing_block_head := head |> <| backing_block_free_next := links |>.

Lemma with_backing_id s : with_backing s (free_backing_block_head s) (backing_block_free_next s) = s.
Proof. by destruct s. Qed.

Lemma backing_acquire_spec s O k (Rr : WorkControlError -> KvState H -> Prop) :
  backing_ok (backing_block_capacity s) (free_backing_block_head s) (backing_block_free_next s) O -> O !! k = None ->
  Rr CapacityExceeded s ->
  wp kv_backing_acquire
    (fun i s' => exists h l, s' = with_backing s h l /\ backing_ok (backing_block_capacity s) h l (<[k := i]> O)) Rr s.
Proof.
  intros Hb Hk HR. unfold kv_backing_acquire. wp_steps. cbn [id]. destruct (backing_block_free_next s) as [l|] eqn:Hl; cbn [backing_ok] in Hb.
  - pose proof Hb as (Hcap&Hlen&_&_&fl&Hfl). rewrite (proj2 (Z.eqb_neq _ _)) by lia.
    destruct (Z.leb_spec (backing_block_capacity s) (free_backing_block_head s)) as [|Hhd]; [by wp_steps|].
    unfold some_or. wp_steps. destruct (free_list_head _ _ _ _ _ Hfl) as (i&nx&fl'&Hi&_&Hli&_); [lia|].
    eapply (wp_index _ _ _ _ _ nx); [by rewrite Hi, Nat2Z.id|]. wp_steps. eexists nx, _. split; [done|].
    apply backing_take; [done|lia|done|]. by rewrite Hi, Nat2Z.id.
  - destruct Hb as [Hcap Hinv]. rewrite Hcap. cbn. wp_steps. exists (free_backing_block_head s), None. split.
    + rewrite <-Hl. symmetry. apply with_backing_id.
    + split; [done|]. intros k2 i [[_ <-]|[_ H2]]%lookup_insert_Some; [done|]. by apply (Hinv k2).
Qed.

Lemma backing_release_spec s O k i (Rr : WorkControlError -> KvState H -> Prop) :
  backing_ok (backing_block_capacity s) (free_backing_block_head s) (backing_block_free_next s) O -> O !! k = Some i ->
  wp (kv_backing_release i)
    (fun _ s' => exists h l, s' = with_backing s h l /\ backing_ok (backing_block_capacity s) h l (delete k O)) Rr s.
Proof.
  intros Hb Hk. unfold kv_backing_release. wp_steps. cbn [id]. destruct (backing_block_free_next s) as [l|] eqn:Hl; cbn [backing_ok] in Hb.
  - pose proof Hb as (Hcap&Hlen&Hown&_). rewrite (proj2 (Z.eqb_neq _ _)) by lia. destruct (Hown k i Hk) as [Hi Hli].
    unfold some_or. wp_steps. rewrite (proj2 (Z.leb_gt _ _)) by lia. wp_steps. rewrite Z.eqb_refl. cbn [negb]. wp_steps.
    eexists _, _. split; [|by apply backing_give].
    by destruct s.
  - destruct Hb as [Hcap Hinv]. rewrite Hcap. cbn. rewrite (Hinv k i Hk), Z.eqb_refl. wp_steps.
    exists (free_backing_block_head s), None. split.
    + rewrite <-Hl. symmetry. apply with_backing_id.
    + split; [done|]. intros k2 i2 [_ H2]%lookup_delete_Some. by apply (Hinv k2).
Qed.

(** ** Resolving a record *)

Definition bump (k : KvKey) (d : Z) R : KvKey -> Z := fun k' => if bool_decide (k' = k) then R k' + d else R k'.

Lemma bump_eq k d R : bump k d R k = R k + d.
Proof. unfold bump. by rewrite bool_decide_true. Qed.

Lemma bump_ne k d R k' : k' <> k -> bump k d R k' = R k'.
Proof. intros. unfold bump. by rewrite bool_decide_false. Qed.

Lemma allocated_range s R B O : blocks_wf s R B O -> 0 <= allocated_physical_block_count s <= 2147483647.
Proof.
  intros Hw. pose proof (bw_phys _ _ _ _ Hw) as Hp. pose proof (phys_allocated_bound _ _ _ _ _ Hp). pose proof (ph_cap _ _ _ _ _ Hp) as Hc.
  change (U32_MAX / 2) with 2147483647 in Hc. lia.
Qed.

(** A free block given to a record: the three arrays and the counter. *)
Lemma assigned_phys s R B O k i st :
  blocks_wf s R B O -> free_at s i -> resident B !! k = None -> k <> empty_key -> st <> KV_ENTRY_TRANSIENT ->
  phys_ok (physical_block_capacity s) (<[Z.to_nat i := k]> (physical_block_keys s)) (<[Z.to_nat i := st]> (physical_block_states s))
    (<[k := i]> (resident B)) (allocated_physical_block_count s +u32 1).
Proof.
  intros Hw [Hi Hk] Hr Hne Hst. pose proof (allocated_range _ _ _ _ Hw). rewrite u32_small by lia. apply phys_assign; try done. apply Hw.
Qed.

Lemma wp_assign i k st Q (Rr : WorkControlError -> KvState H -> Prop) s R B O :
  blocks_wf s R B O -> 0 <= i < physical_block_capacity s ->
  Q tt (s <| physical_block_keys := <[Z.to_nat i := k]> (physical_block_keys s) |>
          <| physical_block_last_used_epochs := <[Z.to_nat i := epoch s]> (physical_block_last_used_epochs s) |>
          <| physical_block_states := <[Z.to_nat i := st]> (physical_block_states s) |>
          <| allocated_physical_block_count := allocated_physical_block_count s +u32 1 |>) ->
  wp (kv_assign_physical_block i k st) Q Rr s.
Proof.
  intros Hw Hi HQ. destruct (phys_lookup _ _ _ _ i Hw Hi) as ([k0 Hk0]&[u0 Hu0]&[st0 Hst0]).
  unfold kv_assign_physical_block. wp_steps. cbn [id]. eapply wp_set_physical; [done..|]. wp_steps. done.
Qed.

(** A protected block is not free. *)
Lemma kept_not_free s R B O k i j : blocks_wf s R B O -> kept s B k i -> free_at s j -> Z.to_nat i <> Z.to_nat j.
Proof.
  intros Hw [Hr _] [Hj Hk] Heq. destruct (ph_gpu _ _ _ _ _ (bw_phys _ _ _ _ Hw) k i Hr) as (_&Hne&Hki&_). congruence.
Qed.

Lemma swept_slot s B s' B' (slot : nat) e :
  swept s B s' B' -> block_entries s !! slot = Some e -> held e = false ->
  exists e', block_entries s' !! slot = Some e' /\ held e' = false.
Proof.
  intros Hs He Hv. assert ((b_key <$> block_entries s') !! slot = Some (b_key e)) as Hk.
  { rewrite (sw_keys _ _ _ _ Hs), list_lookup_fmap, He. done. }
  rewrite list_lookup_fmap in Hk. destruct (block_entries s' !! slot) as [e'|]; [|done]. injection Hk as Hk.
  exists e'. split; [done|]. apply not_true_iff_false. apply not_true_iff_false in Hv. intros Ht. apply Hv. rewrite held_spec in *. cbn in *. congruence.
Qed.

Lemma new_record_spec s R B O slot e0 k i bi :
  blocks_wf s R B O -> owners B = delete k O -> O !! k = Some bi ->
  block_entries s !! Z.to_nat slot = Some e0 -> held e0 = false -> 0 <= slot -> reaches (block_entries s) k slot ->
  k <> empty_key -> B !! k = None -> R k = 0 -> Z.of_nat (size B) < block_limit s -> free_at s i ->
  wp (do! upd_block slot (fun _ => mkBlockEntry k i bi 1 KV_DIRECTORY_RESIDENCY_GPU false 0) in
      do! modify (fun s => s <| block_entry_count := block_entry_count s +u32 1 |>
        <| share_admit_count := share_admit_count s +u64 1 |>) in
      kv_assign_physical_block i k KV_ENTRY_MISSING)
    (fun _ s' => exists B', blocks_wf s' (bump k 1 R) B' (owners B') /\ steady (fun _ => True) s B s' B')
    (fun _ _ => False) s.
Proof.
  intros Hw HO Hbi Hse Hv Hs0 Hre Hne Hk HR0 Hlim Hf. pose proof Hf as [Hi _].
  destruct (phys_lookup _ _ _ _ i Hw Hi) as ([k0 Hk0]&[u0 Hu0]&[st0 Hst0]). destruct (entries_bound _ _ _ _ Hw) as (Hlb&_&_).
  pose proof (bw_count _ _ _ _ Hw) as Hcnt.
  assert (resident B !! k = None) as Hr by (unfold resident; by rewrite lookup_omap, Hk).
  set (e := mkBlockEntry k i bi 1 KV_DIRECTORY_RESIDENCY_GPU false 0).
  unfold kv_assign_physical_block. wp_steps. eapply wp_upd_block; [exact Hse|]. wp_steps.
  eapply wp_set_physical; [exact Hk0|exact Hu0|exact Hst0|]. wp_steps. fold e.
  match goal with |- exists B', blocks_wf ?x _ _ _ /\ _ => set (s' := x) end.
  assert (rest s' = rest s) as Hrest by done. assert (shape s' = shape s) as Hsh.
  { unfold shape. cbn. by rewrite !length_insert. }
  assert (owners (<[k := e]> B) = O) as HO'.
  { unfold owners. rewrite fmap_insert. fold (owners B). rewrite HO. cbn. by rewrite insert_delete_eq, insert_id. }
  exists (<[k := e]> B). rewrite HO'. split.
  - apply (blocks_wf_new s s' R (bump k 1 R) B O (Z.to_nat slot) e0 e k i); try done.
    + by rewrite Z2Nat.id.
    + rewrite bump_eq, HR0. done.
    + rewrite bump_eq, HR0. done.
    + intros k'. apply bump_ne.
    + by apply (assigned_phys s R B O).
    + transitivity (block_entry_count s +u32 1); [done|]. apply u32_small. lia.
  - split; [done|done|]. intros k2 i2 _ Hk2. assert (k2 <> k) by (intros ->; destruct Hk2; congruence).
    apply (kept_resident s s' B); try done.
    + apply list_lookup_insert_ne. intros Heq. by apply (kept_not_free s R B O k2 i2 i Hw Hk2 Hf).
    + rewrite (resident_insert_some _ _ _ i) by done. by rewrite lookup_insert_ne.
Qed.

(** The outcome of an operation on block records: the references become [R']. *)
Definition moves (K : KvKey -> Prop) s B R' s' : Prop :=
  exists B', blocks_wf s' R' B' (owners B') /\ steady K s B s' B'.

Lemma moves_core K s B R s1 s2 : core_eq s1 s2 -> moves K s B R s1 -> moves K s B R s2.
Proof. intros Hc (B'&Hw&Hs). exists B'. split; [by apply (blocks_wf_core s1)|by apply (steady_core _ _ _ s1)]. Qed.

Lemma owners_touch B k e e' : B !! k = Some e -> backing_block_index e' = backing_block_index e -> owners (<[k := e']> B) = owners B.
Proof. intros Hk He. unfold owners. rewrite fmap_insert, He. apply insert_id. by rewrite lookup_fmap, Hk. Qed.

Lemma touch_moves K s R R' B slot k e e' :
  blocks_wf s R B (owners B) -> block_entries s !! slot = Some e -> B !! k = Some e ->
  b_key e' = k -> backing_block_index e' = backing_block_index e -> gpu_block e' = gpu_block e ->
  placed (backing_block_capacity s) e' ->
  reference_count e' = R' k -> 0 < R' k <= U32_MAX -> (forall k', k' <> k -> R' k' = R k') ->
  moves K s B R' (s <| block_entries := <[slot := e']> (block_entries s) |>).
Proof.
  intros Hw Hse Hk Hke Hbi Hg Hpl Hrc HR HR'.
  destruct (blocks_wf_touch K s R R' B (owners B) slot k e e') as [Hw' Hs']; try done.
  exists (<[k := e']> B). rewrite (owners_touch B k e) by done. done.
Qed.

Lemma no_reference s R B O k : blocks_wf s R B O -> B !! k = None -> R k = 0.
Proof.
  intros Hw Hk. pose proof (bw_nonneg _ _ _ _ Hw k). destruct (decide (0 < R k)) as [Hlt|]; [|lia].
  destruct (bw_live _ _ _ _ Hw k Hlt). congruence.
Qed.

Lemma backed_wf s R B O O' h l :
  blocks_wf s R B O -> backing_ok (backing_block_capacity s) h l O' -> (forall k e, B !! k = Some e -> O' !! k = O !! k) ->
  blocks_wf (with_backing s h l) R B O' /\ steady (fun _ => True) s B (with_backing s h l) B.
Proof.
  intros Hw Hb HO. split; [by apply (blocks_wf_owner s _ R B O)|]. split; [done|done|auto].
Qed.

Lemma block_resolve_spec s R B k :
  blocks_wf s R B (owners B) -> k <> empty_key -> R k < U32_MAX ->
  wp (kv_block_resolve k) (fun _ s' => exists B', blocks_wf s' (bump k 1 R) B' (owners B') /\ steady (fun _ => True) s B s' B' /\
                 (is_Some (B !! k) -> resident B' = resident B))
    (fun _ => moves (fun _ => True) s B R) s.
Proof.
  intros Hw Hne HRk. assert (moves (fun _ => True) s B R s) as Hsame by (exists B; split; [done|apply steady_refl]).
  destruct (rep_bounds (bw_table _ _ _ _ Hw)). unfold kv_block_resolve. wp_steps. cbn [id].
  eapply wp_mono; [apply (kv_index_probe_spec (bw_table _ _ _ _ Hw) k (fun _ => moves (fun _ => True) s B R) s Hne)| |intros ?? H'; exact H'].
  intros [slot found] s0 [-> Hp]. inversion Hp as [slot' e Hs Hse Hke Hk|slot' e Hs Hse Hv Hk Hre|Hk Hfull]; subst; clear Hp.
  - change (entry_key e) with (b_key e) in *. rewrite (proj2 (Z.eqb_neq slot U32_MAX)) by lia. destruct (bw_entry _ _ _ _ Hw _ e Hk) as (Hrc&HR&Hpl).
    eapply wp_bind, wp_upd_block; [exact Hse|]. wp_steps.
    destruct (blocks_wf_touch (fun _ => True) s R (bump (b_key e) 1 R) B (owners B) (Z.to_nat slot) (b_key e) e
      (e <| reference_count := reference_count e +u32 1 |>)) as [Hw' Hs']; try done.
    + cbn. rewrite Hrc, bump_eq. apply u32_small. lia.
    + rewrite bump_eq. lia.
    + intros k'. apply bump_ne.
    + exists (<[b_key e := e <| reference_count := reference_count e +u32 1 |>]> B). rewrite (owners_touch _ _ e) by done.
      split; [by eapply blocks_wf_core, Hw'|]. split; [by eapply steady_core, Hs'|]. intros _. by apply (resident_same B _ e).
  - rewrite (proj2 (Z.eqb_neq slot U32_MAX)) by lia. destruct (Z.leb_spec (block_limit s) (block_entry_count s)) as [|Hlim]; [by wp_steps|].
    wp_steps. assert (owners B !! k = None) as HOk by (unfold owners; by rewrite lookup_fmap, Hk).
    eapply wp_mono; [apply (backing_acquire_spec s (owners B) k (fun _ => moves (fun _ => True) s B R)); [apply Hw|done|done]| |intros ?? H'; exact H'].
    intros bi s1 (h&l&->&Hb). destruct (backed_wf s R B (owners B) _ h l Hw Hb) as [Hw1 Hst1].
    { intros k2 e2 Hk2. rewrite lookup_insert_ne by congruence. done. }
    wp_steps. eapply wp_mono; [apply (acquire_spec _ _ _ _ Hw1)|..].
    + intros i s2 (B2&Hw2&Hsw&Hf).
      assert (reaches (block_entries s2) k slot) as Hre2 by (apply (reaches_keys (block_entries s)); [apply Hsw|done]).
      destruct (swept_slot _ _ _ _ _ _ Hsw Hse Hv) as (e2&Hse2&Hv2).
      eapply wp_mono; [apply (new_record_spec s2 R B2 _ slot e2 k i bi Hw2); try done|..].
      * rewrite (swept_owners _ _ _ _ Hsw). by rewrite delete_insert_id.
      * by rewrite lookup_insert_eq.
      * lia.
      * by apply (swept_none _ _ _ _ _ Hsw).
      * by apply (no_reference s R B (owners B)).
      * rewrite (swept_size _ _ _ _ Hsw), <-(bw_count _ _ _ _ Hw). destruct (sw_shape _ _ _ _ Hsw). unfold block_limit in *.
        pose proof (sw_shape _ _ _ _ Hsw) as Hsh. injection Hsh as _ -> -> _. exact Hlim.
      * intros _ s3 (B3&Hw3&Hst3). exists B3. split; [done|]. split; [|intros [? ?]; congruence].
        eapply steady_trans; [exact Hst1|]. eapply steady_trans; [by apply swept_steady|done].
      * intros ? ? [].
    + intros err s2 (B2&Hw2&Hsw). wp_steps. eapply wp_mono.
      * apply (backing_release_spec s2 (<[k := bi]> (owners B)) k bi (fun _ _ => False)); [apply Hw2|by rewrite lookup_insert_eq].
      * intros _ s3 (h3&l3&->&Hb3). wp_steps. destruct (backed_wf s2 R B2 _ _ h3 l3 Hw2 Hb3) as [Hw3 Hst3].
        { intros k2 e2 Hk2. rewrite lookup_delete_ne; [done|]. intros <-.
          apply (swept_none _ _ _ _ k Hsw) in Hk. congruence. }
        exists B2. split; [|eapply steady_trans; [exact Hst1|]; eapply steady_trans; [by apply swept_steady|done]].
        rewrite delete_insert_id in Hw3 by done. by rewrite (swept_owners _ _ _ _ Hsw).
      * intros ? ? [].
  - rewrite Z.eqb_refl. by wp_steps.
Qed.

(** ** Dropping a reference *)

Definition erased (e : KvBlockEntry) : KvBlockEntry := e <| reference_count := 0 |>.

(** The last steps of a deref, from a state whose physical side is already released. *)
Lemma deref_tail_spec s s1 R B slot k e :
  blocks_wf s R B (owners B) -> 0 <= slot -> block_entries s !! Z.to_nat slot = Some e -> B !! k = Some e ->
  R k = 1 -> rest s1 = rest s -> shape s1 = shape s -> block_entries s1 = block_entries s ->
  free_backing_block_head s1 = free_backing_block_head s -> backing_block_free_next s1 = backing_block_free_next s ->
  phys_ok (physical_block_capacity s) (physical_block_keys s1) (physical_block_states s1) (delete k (resident B))
    (allocated_physical_block_count s1) ->
  (forall k2 i2, k2 <> k -> resident B !! k2 = Some i2 ->
     physical_block_last_used_epochs s1 !! Z.to_nat i2 = physical_block_last_used_epochs s !! Z.to_nat i2) ->
  block_entry_count s1 = block_entry_count s ->
  swapped_block_count s1 = swapped_block_count s - 1 + b2z (bool_decide (is_Some (gpu_block e))) ->
  next_physical_block_index s1 = next_physical_block_index s ->
  wp (do! kv_backing_release (backing_block_index e) in
      do! upd_block slot (fun e => e <| reference_count := 0 |>) in
      do! modify (fun s => s <| block_entry_count := block_entry_count s -u32 1 |>) in
      erase_block slot)
    (fun _ => moves (fun k' => k' <> k) s B (bump k (-1) R)) (fun _ _ => False) s1.
Proof.
  intros Hw Hs0 Hse Hk HR1 Hrest Hsh Hent Hhd Hln Hph Hep Hcnt Hsw Hnx.
  pose proof (lookup_lt_Some _ _ _ Hse) as Hlt. destruct (wf_key_nonempty _ _ _ _ _ _ Hw Hk) as [Hne Hke].
  assert (held e = true) as Hh by (apply held_spec; cbn; congruence).
  pose proof (represents_update (bw_table _ _ _ _ Hw) (Z.to_nat slot) e (erased e) Hse Hh eq_refl) as Hrep.
  change (entry_key e) with (b_key e) in Hrep. rewrite Hke in Hrep.
  destruct (entries_bound _ _ _ _ Hw) as (Hlim&_&_). pose proof (bw_size _ _ _ _ Hw) as Hsz. pose proof (bw_shape _ _ _ _ Hw) as [Hsl _ _ _ Hsl2].
  pose proof (size_pos _ _ _ Hk) as Hsn.
  wp_steps. eapply wp_mono.
  - apply (backing_release_spec s1 (owners B) k _ (fun _ _ => False)); [|apply owners_Some; eauto].
    rewrite Hhd, Hln. replace (backing_block_capacity s1) with (backing_block_capacity s); [apply Hw|by injection Hsh].
  - intros _ s2 (h&l&->&Hb). wp_steps. eapply wp_upd_block; [cbn; rewrite Hent; exact Hse|]. wp_steps. unfold erase_block. apply wp_zoom.
    fold (erased e). cbn. rewrite Hent. eapply wp_mono.
    + apply (kv_index_erase_spec _ _ slot (erased e) (fun _ _ => False) Hrep); rewrite ?length_insert; try lia.
      * rewrite list_lookup_insert_eq by lia. done.
      * done.
      * rewrite map_size_insert_Some by (by rewrite Hk). lia.
    + intros _ es [Hlen Hrep']. change (entry_key (erased e)) with (b_key e) in Hrep'. rewrite Hke, delete_insert_eq in Hrep'.
      rewrite length_insert in Hlen. match goal with |- moves _ _ _ _ ?x => set (s3 := x) end.
      assert (rest s3 = rest s) as Hrest3 by done. assert (shape s3 = shape s) as Hsh3.
      { rewrite <-Hsh. unfold shape. cbn. rewrite Hlen. f_equal. rewrite <-Hent. done. }
      exists (delete k B). split.
      * apply (blocks_wf_drop s s3 R _ B k e); try done.
        -- rewrite bump_eq. lia.
        -- intros k'. apply bump_ne.
        -- replace (backing_block_capacity s) with (backing_block_capacity s1); [done|by injection Hsh].
        -- transitivity (block_entry_count s1 -u32 1); [done|]. rewrite Hcnt, (bw_count _ _ _ _ Hw). rewrite u32_small; lia.
      * split; [done|done|]. intros k2 i2 Hk2 Hkept. apply (kept_resident s s3 B); try done.
        -- apply (Hep k2); [done|]. apply Hkept.
        -- rewrite resident_delete. by rewrite lookup_delete_ne.
    + intros ? ? [].
  - intros ? ? [].
Qed.

Lemma deref_spec s R B k :
  blocks_wf s R B (owners B) -> 0 < R k ->
  wp (kv_block_deref k) (fun _ => moves (fun k' => k' <> k \/ 1 < R k) s B (bump k (-1) R))
    (fun err s' => s' = s /\ err = Busy /\ R k = 1 /\ exists i, resident B !! k = Some i /\ pinned s i) s.
Proof.
  intros Hw HRk. destruct (bw_live _ _ _ _ Hw k HRk) as [e He]. destruct (wf_key_nonempty _ _ _ _ _ _ Hw He) as [Hne Hke].
  destruct (bw_entry _ _ _ _ Hw k e He) as (Hrc&HR&Hpl).
  unfold kv_block_deref. wp_steps. apply (wp_find_block k _ _ s R B (owners B) Hw Hne); [|congruence]. intros slot e' Hs Hse He'.
  assert (e' = e) as -> by congruence. unfold some_or, block_at. wp_steps. rewrite Hrc. destruct (Z.ltb_spec 1 (R k)) as [H1|H1].
  - eapply wp_upd_block; [exact Hse|]. apply (touch_moves _ s R _ B (Z.to_nat slot) k e); try done.
    + cbn. rewrite Hrc, bump_eq. apply u32_small. lia.
    + rewrite bump_eq. lia.
    + intros k'. apply bump_ne.
  - assert (R k = 1) as HR1 by lia.
    assert (forall s' P, moves (fun k' => k' <> k) s B P s' -> moves (fun k' => k' <> k \/ 1 < R k) s B P s') as Hwk.
    { intros s' P (B'&Hw'&Hs'). exists B'. split; [done|]. eapply steady_weaken, Hs'. intros k2 [?|?]; [done|lia]. }
    destruct (Z.eqb_spec (residency_state e) KV_DIRECTORY_RESIDENCY_GPU) as [Hgpu|Hgpu].
    + assert (gpu_block e = Some (physical_block_index e)) as Hg by by apply gpu_block_Some.
      set (i := physical_block_index e) in *. destruct (resident_of _ _ _ _ _ _ _ Hw He Hg) as [Hr Hi].
      destruct (phys_lookup _ _ _ _ i Hw Hi) as ([k0 Hk0]&[u0 Hu0]&[st0 Hst0]). pose proof (allocated_at_owner _ _ _ _ _ _ Hw Hr).
      wp_steps. eapply (wp_is_pinned i _ _ s _ _ _ Hw Hi); intros Hpin; [wp_steps; eauto 10|]. cbv iota. wp_steps.
      unfold kv_clear_physical_block. eapply wp_set_physical; [exact Hk0|exact Hu0|exact Hst0|]. apply wp_modify. cbn beta.
      eapply wp_mono; [eapply (deref_tail_spec s _ R B slot k e Hw); try done|intros ? s' Hm; by apply Hwk|intros ? ? []].
      * lia.
      * unfold shape. cbn. by rewrite length_insert.
      * cbn. rewrite u32_small by lia. apply phys_clear; [apply Hw|done].
      * intros k2 i2 Hk2 Hr2. apply list_lookup_insert_ne. intros Heq. apply Hk2. eapply phys_inj; [apply Hw|exact Hr2|].
        rewrite Hr. f_equal. apply (ph_gpu _ _ _ _ _ (bw_phys _ _ _ _ Hw)) in Hr2. lia.
      * cbn. rewrite Hg. rewrite bool_decide_true by eauto. simpl. lia.
    + assert (gpu_block e = None) as Hg by (unfold gpu_block; by rewrite (proj2 (Z.eqb_neq _ _))).
      assert (resident B !! k = None) as Hr by (unfold resident; by rewrite lookup_omap, He).
      pose proof (swapped_pos _ _ _ He Hg) as Hsw1.
      destruct (entries_bound _ _ _ _ Hw) as (Hlim&_&Hsb). pose proof (bw_size _ _ _ _ Hw). pose proof (bw_swapped _ _ _ _ Hw).
      apply wp_bind, wp_modify. cbn beta. eapply wp_mono; [eapply (deref_tail_spec s _ R B slot k e Hw); try done|intros ? s' Hm; by apply Hwk|intros ? ? []].
      * lia.
      * rewrite delete_id by done. apply Hw.
      * cbn. rewrite Hg, bool_decide_false by (by intros [? ?]). rewrite u32_small by lia. simpl. lia.
Qed.

(** ** Renaming a record *)

Lemma rekey_spec s R B slot k k' e :
  blocks_wf s R B (owners B) -> 0 <= slot -> block_entries s !! Z.to_nat slot = Some e -> B !! k = Some e ->
  B !! k' = None -> k' <> empty_key -> R k = 1 ->
  wp (kv_rekey_block slot k') (fun _ => moves (fun k2 => k2 <> k) s B (bump k' 1 (bump k (-1) R))) (fun _ _ => False) s.
Proof.
  intros Hw Hs0 Hse Hk Hk' Hne' HR1. assert (k <> k') as Hkk by congruence.
  pose proof (lookup_lt_Some _ _ _ Hse) as Hlt. destruct (wf_key_nonempty _ _ _ _ _ _ Hw Hk) as [Hne Hke].
  assert (held e = true) as Hh by (apply held_spec; cbn; congruence).
  destruct (entries_bound _ _ _ _ Hw) as (Hlim&_&_). pose proof (bw_size _ _ _ _ Hw) as Hsz. pose proof (bw_shape _ _ _ _ Hw) as [Hsl _ _ _ Hsl2].
  pose proof (size_pos _ _ _ Hk) as Hsn.
  assert (R k' = 0) as HRk' by by apply (no_reference s R B (owners B)).
  unfold kv_rekey_block, block_at. wp_steps. unfold erase_block. apply wp_zoom. eapply wp_mono.
  { apply (kv_index_erase_spec _ _ slot e (fun _ _ => False) (bw_table _ _ _ _ Hw)); [lia|done|done|lia]. }
  2: { intros ? ? []. }
  intros _ es [Hlen Hrep]. change (entry_key e) with (b_key e) in Hrep. rewrite Hke in Hrep. wp_steps. cbn [id].
  set (s1 := s <| block_entries := es |>). fold (rekeyed k' e).
  assert (delete k B !! k' = None) as Hdk by by rewrite lookup_delete_ne.
  assert (Z.of_nat (size (delete k B)) < Z.of_nat (length es)) as Hroom.
  { rewrite map_size_delete_Some by (by rewrite Hk). lia. }
  eapply wp_mono; [apply (kv_index_probe_spec Hrep k' (fun _ _ => False) s1 Hne')| |intros ? ? []].
  intros [slot' found] s2 [-> Hp]. inversion Hp as [? e2 Hs2 Hse2 Hke2 Hk2|? e2 Hs2 Hse2 Hv2 Hk2 Hre|Hk2 Hfull]; subst; clear Hp.
  { congruence. }
  2: { destruct (represents_vacant _ _ Hrep Hroom) as (v&e2&Hv&He2&Hh2). destruct (Hfull v Hv) as (e3&He3&Hh3). congruence. }
  cbn [fst]. eapply wp_bind, wp_upd_block; [exact Hse2|]. set (e' := rekeyed k' e) in *.
  assert (represents (<[Z.to_nat slot' := e']> es) (<[k' := e']> (delete (b_key e) B))) as Hrep'.
  { apply (represents_insert Hrep _ e2); try done. by rewrite Z2Nat.id by lia. }
  set (s3 := s1 <| block_entries := <[Z.to_nat slot' := e']> (block_entries s1) |>).
  assert (shape s3 = shape s) as Hsh3 by (unfold shape; cbn; by rewrite length_insert, Hlen).
  assert (forall s4, rest s4 = rest s3 -> shape s4 = shape s3 -> block_entries s4 = block_entries s3 ->
    free_backing_block_head s4 = free_backing_block_head s -> backing_block_free_next s4 = backing_block_free_next s ->
    phys_ok (physical_block_capacity s) (physical_block_keys s4) (physical_block_states s4)
      (resident (<[k' := e']> (delete (b_key e) B))) (allocated_physical_block_count s4) ->
    physical_block_last_used_epochs s4 = physical_block_last_used_epochs s ->
    block_entry_count s4 = block_entry_count s -> swapped_block_count s4 = swapped_block_count s ->
    next_physical_block_index s4 = next_physical_block_index s ->
    moves (fun k2 => k2 <> b_key e) s B (bump k' 1 (bump (b_key e) (-1) R)) s4) as Hfin.
  { intros s4 Hr4 Hsh4 Hent4 Hhd4 Hln4 Hph4 Hep4 Hc4 Hsw4 Hn4. exists (<[k' := e']> (delete (b_key e) B)). split.
    - apply (blocks_wf_rekey s s4 R _ B (b_key e) k' e); try done.
      + rewrite bump_ne, bump_eq by done. lia.
      + rewrite bump_eq, bump_ne by done. lia.
      + intros k2 H1 H2. by rewrite !bump_ne.
      + by rewrite Hsh4.
      + by rewrite Hent4.
    - split; [by rewrite Hr4|by rewrite Hsh4|]. intros k2 i2 Hk2e Hkept. apply (kept_resident s s4 B); try done; [by rewrite Hep4|].
      assert (k2 <> k') by (intros ->; destruct Hkept as [Hr2 _]; unfold resident in Hr2; by rewrite lookup_omap, Hk' in Hr2).
      unfold resident. rewrite !lookup_omap, lookup_insert_ne, lookup_delete_ne by done. done. }
  change (residency_state e') with (residency_state e). change (physical_block_index e') with (physical_block_index e).
  destruct (Z.eqb_spec (residency_state e) KV_DIRECTORY_RESIDENCY_GPU) as [Hgpu|Hgpu].
  - assert (gpu_block e = Some (physical_block_index e)) as Hg by by apply gpu_block_Some.
    set (i := physical_block_index e) in *. destruct (resident_of _ _ _ _ _ _ _ Hw Hk Hg) as [Hr Hi].
    destruct (phys_lookup _ _ _ _ i Hw Hi) as ([k0 Hk0]&_). wp_steps. apply Hfin; try done.
    rewrite (resident_insert_some _ _ _ i), resident_delete by done. apply phys_rekey; [apply Hw|done| |done].
    unfold resident. by rewrite lookup_omap, Hk'.
  - assert (gpu_block e = None) as Hg by (unfold gpu_block; by rewrite (proj2 (Z.eqb_neq _ _))).
    wp_steps. apply Hfin; try done. rewrite resident_insert_none, resident_delete by done.
    rewrite !delete_id; [apply Hw| |]; unfold resident; rewrite ?lookup_delete_ne, lookup_omap, ?Hk, ?Hk' by done; done.
Qed.

(** ** Bringing a record onto the GPU *)

Lemma swept_entry s R B O s' B' slot k e e' :
  blocks_wf s' R B' O -> swept s B s' B' -> block_entries s !! slot = Some e -> b_key e = k -> k <> empty_key ->
  B' !! k = Some e' -> block_entries s' !! slot = Some e'.
Proof.
  intros Hw Hs He Hke Hne Hk. assert ((b_key <$> block_entries s') !! slot = Some k) as Hks.
  { by rewrite (sw_keys _ _ _ _ Hs), list_lookup_fmap, He, <-Hke. }
  rewrite list_lookup_fmap in Hks. destruct (block_entries s' !! slot) as [e2|] eqn:He2; [|done]. injection Hks as Hks.
  rewrite <-Hks in Hk, Hne. assert (B' !! b_key e2 = Some e2) by (by eapply (rep_found (bw_table _ _ _ _ Hw))). congruence.
Qed.

Definition loaded (i : Z) (e : KvBlockEntry) : KvBlockEntry :=
  e <| physical_block_index := i |> <| residency_state := KV_DIRECTORY_RESIDENCY_GPU |>.

Definition on_gpu s B R k (i : Z) s' : Prop :=
  exists B', blocks_wf s' R B' (owners B') /\ steady (fun _ => True) s B s' B' /\ resident B' !! k = Some i /\ current s' i.

Lemma touch_epoch s R B k i :
  blocks_wf s R B (owners B) -> resident B !! k = Some i ->
  on_gpu s B R k i (s <| physical_block_last_used_epochs := <[Z.to_nat i := epoch s]> (physical_block_last_used_epochs s) |>).
Proof.
  intros Hw Hr. destruct (ph_gpu _ _ _ _ _ (bw_phys _ _ _ _ Hw) k i Hr) as (Hi&_). pose proof (so_epochs _ (bw_shape _ _ _ _ Hw)).
  match goal with |- on_gpu _ _ _ _ _ ?x => set (s' := x) end. assert (shape s' = shape s) as Hsh by (unfold shape; cbn; by rewrite length_insert).
  assert (current s' i) as Hcur by (apply list_lookup_insert_eq; lia).
  exists B. split_and!; try done.
  - apply (blocks_wf_owner s s' R B (owners B) (owners B)); try done. apply Hw.
  - split; [done|done|]. intros k2 i2 _ Hk2. destruct (decide (Z.to_nat i2 = Z.to_nat i)) as [Heq|Hni].
    + destruct Hk2 as [Hr2 _]. split; [done|]. left. apply (ph_gpu _ _ _ _ _ (bw_phys _ _ _ _ Hw)) in Hr2 as (Hi2&_).
      by replace i2 with i by lia.
    + apply (kept_resident s s' B); try done. by apply list_lookup_insert_ne.
Qed.

Lemma load_spec s R B slot k e i :
  blocks_wf s R B (owners B) -> block_entries s !! Z.to_nat slot = Some e -> B !! k = Some e -> gpu_block e = None -> free_at s i ->
  wp (do! modify (fun s => s <| swapped_block_count := swapped_block_count s -u32 1 |>
        <| swap_load_count := swap_load_count s +u64 1 |>) in
      do! upd_block slot (fun e => e <| physical_block_index := i |> <| residency_state := KV_DIRECTORY_RESIDENCY_GPU |>) in
      do! kv_assign_physical_block i k KV_ENTRY_RESIDENT in
      ret i)
    (fun j s' => j = i /\ on_gpu s B R k i s') (fun _ _ => False) s.
Proof.
  intros Hw Hse Hk Hg Hf. pose proof Hf as [Hi Hki]. destruct (wf_key_nonempty _ _ _ _ _ _ Hw Hk) as [Hne Hke].
  destruct (phys_lookup _ _ _ _ i Hw Hi) as ([k0 Hk0]&[u0 Hu0]&[st0 Hst0]). destruct (bw_entry _ _ _ _ Hw k e Hk) as (Hrc&HR&Hpl).
  assert (resident B !! k = None) as Hr by (unfold resident; by rewrite lookup_omap, Hk).
  pose proof (lookup_lt_Some _ _ _ Hu0) as Hul.
  assert (1 <= swapped_block_count s <= U32_MAX) as Hsw1.
  { destruct (entries_bound _ _ _ _ Hw) as (Hlim&_&Hsb). pose proof (bw_size _ _ _ _ Hw). rewrite (bw_swapped _ _ _ _ Hw) in *.
    pose proof (swapped_pos _ _ _ Hk Hg). lia. }
  unfold kv_assign_physical_block. wp_steps. eapply wp_upd_block; [exact Hse|]. wp_steps.
  eapply wp_set_physical; [exact Hk0|exact Hu0|exact Hst0|]. wp_steps. split; [done|]. fold (loaded i e).
  match goal with |- on_gpu _ _ _ _ _ ?x => set (s' := x) end.
  assert (shape s' = shape s) as Hsh by (unfold shape; cbn; by rewrite !length_insert).
  assert (gpu_block (loaded i e) = Some i) as Hg' by done.
  exists (<[k := loaded i e]> B). rewrite (owners_touch _ _ e) by done. split_and!.
  - apply (blocks_wf_put s s' R R B (owners B) (Z.to_nat slot) k e); try done.
    + by left.
    + rewrite (resident_insert_some _ _ _ i) by done. by apply (assigned_phys s R B (owners B)).
    + transitivity (swapped_block_count s -u32 1); [done|]. rewrite Hg, Hg', bool_decide_false by (by intros [? ?]).
      rewrite bool_decide_true by eauto. rewrite u32_small by lia. simpl. lia.
    + apply Hw.
  - split; [done|done|]. intros k2 i2 _ Hk2. assert (k2 <> k) by (intros ->; destruct Hk2; congruence).
    apply (kept_resident s s' B); try done.
    + apply list_lookup_insert_ne. intros Heq. by apply (kept_not_free s R B (owners B) k2 i2 i Hw Hk2 Hf).
    + rewrite (resident_insert_some _ _ _ i) by done. by rewrite lookup_insert_ne.
  - rewrite (resident_insert_some _ _ _ i) by done. by rewrite lookup_insert_eq.
  - apply (list_lookup_insert_eq (physical_block_last_used_epochs s)). exact Hul.
Qed.

Lemma block_resident_spec s R B k :
  blocks_wf s R B (owners B) -> is_Some (B !! k) ->
  wp (kv_block_resident k) (fun i => on_gpu s B R k i) (fun _ => moves (fun _ => True) s B R) s.
Proof.
  intros Hw [e He]. destruct (wf_key_nonempty _ _ _ _ _ _ Hw He) as [Hne Hke].
  unfold kv_block_resident. wp_steps. apply (wp_find_block k _ _ s R B (owners B) Hw Hne); [|congruence]. intros slot e' Hs Hse He'.
  assert (e' = e) as -> by congruence. unfold some_or, block_at. wp_steps.
  destruct (Z.eqb_spec (residency_state e) KV_DIRECTORY_RESIDENCY_GPU) as [Hgpu|Hgpu].
  - assert (gpu_block e = Some (physical_block_index e)) as Hg by by apply gpu_block_Some.
    destruct (resident_of _ _ _ _ _ _ _ Hw He Hg) as [Hr Hi]. destruct (phys_lookup _ _ _ _ _ Hw Hi) as (_&[u0 Hu0]&_).
    wp_steps. by apply touch_epoch.
  - assert (gpu_block e = None) as Hg by (unfold gpu_block; by rewrite (proj2 (Z.eqb_neq _ _))).
    wp_steps. eapply wp_mono; [apply (acquire_spec s R B (owners B) Hw)|..].
    + intros i s1 (B1&Hw1&Hsw&Hf). rewrite <-(swept_owners _ _ _ _ Hsw) in Hw1.
      pose proof (swept_lookup _ _ _ _ _ _ Hsw He Hg) as He1. pose proof (swept_entry _ _ _ _ _ _ _ _ _ _ Hw1 Hsw Hse Hke Hne He1) as Hse1.
      assert (backing_block_capacity s1 <> 0) as Hcap.
      { destruct (bw_entry _ _ _ _ Hw1 k e He1) as (_&_&[?|(_&_&_&?)]); [congruence|done]. }
      assert (exists h, swap_hooks s1 = Some h) as [h Hh].
      { destruct (swap_hooks s1) as [h|] eqn:Hh; [eauto|]. by apply (so_hooks _ (bw_shape _ _ _ _ Hw1)) in Hh. }
      unfold call_hook. apply wp_bind, wp_bind, wp_gets. cbn beta. cbn [id]. rewrite Hh. unfold some_or. apply wp_bind, wp_ret. cbn beta.
      destruct (hook_load k i (backing_block_index e) h) as [err h']. apply wp_bind, wp_modify. cbn beta.
      pose proof (blocks_wf_hooks s1 R B1 (owners B1) h h' Hw1 Hh) as Hw2.
      pose proof (swept_trans _ _ _ _ _ _ Hsw (swept_hooks s1 B1 h h' Hh)) as Hsw2. set (s2 := s1 <| swap_hooks := Some h' |>) in *.
      destruct err as [err|]; [wp_steps; exists B1; split; [done|by apply swept_steady]|]. apply wp_ret. cbn beta.
      eapply wp_mono; [apply (load_spec s2 R B1 slot k e i); try done| |intros ? ? []].
      intros j s3 [-> (B3&Hw3&Hs3&Hr3&Hc3)]. exists B3. split_and!; try done. eapply steady_trans; [by apply swept_steady|done].
    + intros err s1 (B1&Hw1&Hsw). exists B1. rewrite (swept_owners _ _ _ _ Hsw). split; [done|by apply swept_steady].
Qed.

End ops.
