(* ===== verification/KvDirectoryRefs.v ===== *)
(** * The KV block directory: the sequence directory

    [directory_wf s D B]: the directory table stores [D], the block table stores [B], and
    the reference count of every record is the number of directory slots that name it.
    Acquiring and releasing a slot keep it, and keep every other slot's block in place. *)

From S2P Require Import KvIndex Prelude FreeList WorkTransaction Wire WorkControl KvDirectory KvDirectoryInv KvDirectoryOps.

(** ** Counting references *)

Section refs.
Implicit Types (D : gmap KvKey KvDirectoryEntry).

(** How many directory slots name block [k]. *)
Definition refs D (k : KvKey) : Z := Z.of_nat (size (filter (fun p : KvKey * KvDirectoryEntry => d_block_key p.2 = k) D)).

Lemma refs_new D dk d k : D !! dk = None -> refs (<[dk := d]> D) k = bump (d_block_key d) 1 (refs D) k.
Proof.
  intros Hd. unfold refs, bump. case_bool_decide as Hk.
  - subst k. rewrite map_filter_insert_True by done. rewrite map_size_insert_None; [lia|].
    by apply map_lookup_filter_None_2; left.
  - rewrite map_filter_insert_False by (cbn; congruence). by rewrite delete_id.
Qed.

Lemma refs_delete D dk d k : D !! dk = Some d -> refs (delete dk D) k = bump (d_block_key d) (-1) (refs D) k.
Proof.
  intros Hd. assert (delete dk D !! dk = None) as Hnone by apply lookup_delete_eq.
  rewrite <-(insert_delete_id D dk d Hd) at 2. unfold bump at 1. case_bool_decide as Hk.
  - subst k. rewrite (refs_new _ _ d _ Hnone), bump_eq. lia.
  - rewrite (refs_new _ _ d _ Hnone), bump_ne; done.
Qed.

Lemma bump_ext k d (R R' : KvKey -> Z) k2 : (forall k, R k = R' k) -> bump k d R k2 = bump k d R' k2.
Proof. intros HR. unfold bump. by rewrite HR. Qed.

Lemma refs_replace D dk d d' k :
  D !! dk = Some d -> refs (<[dk := d']> D) k = bump (d_block_key d') 1 (bump (d_block_key d) (-1) (refs D)) k.
Proof.
  intros Hd. rewrite <-insert_delete_eq, refs_new by apply lookup_delete_eq. apply bump_ext. intros k2. by apply refs_delete.
Qed.

Lemma refs_pos D dk d : D !! dk = Some d -> 0 < refs D (d_block_key d).
Proof. intros Hd. pose proof (refs_delete D dk d (d_block_key d) Hd) as Hr. rewrite bump_eq in Hr. unfold refs in *. lia. Qed.

Lemma refs_pos_inv D k : 0 < refs D k -> exists dk d, D !! dk = Some d /\ d_block_key d = k.
Proof.
  unfold refs. intros Hpos. destruct (decide (filter (fun p : KvKey * KvDirectoryEntry => d_block_key p.2 = k) D = ∅)) as [He|He].
  - rewrite He, map_size_empty in Hpos. lia.
  - apply map_choose in He as (dk&d&[Hd Hk]%map_lookup_filter_Some). eauto.
Qed.

Lemma refs_shared D dk dk' d d' :
  D !! dk = Some d -> D !! dk' = Some d' -> dk' <> dk -> d_block_key d' = d_block_key d -> 1 < refs D (d_block_key d).
Proof.
  intros Hd Hd' Hne Heq. pose proof (refs_delete D dk d (d_block_key d) Hd) as Hr. rewrite bump_eq in Hr.
  assert (0 < refs (delete dk D) (d_block_key d)); [|lia]. rewrite <-Heq. apply (refs_pos _ dk'). by rewrite lookup_delete_ne.
Qed.

Lemma refs_le D k : refs D k <= Z.of_nat (size D).
Proof. unfold refs. apply Nat2Z.inj_le. rewrite <-!size_dom. apply subseteq_size, dom_filter_subseteq. Qed.

Lemma refs_empty k : refs ∅ k = 0.
Proof. unfold refs. by rewrite map_filter_empty, map_size_empty. Qed.

End refs.

Section directory.
Context {H : Type} `{!KvSwapHooks H}.
Implicit Types (s : KvState H) (D : gmap KvKey KvDirectoryEntry) (B : gmap KvKey KvBlockEntry).

Record directory_wf s D B : Prop := {
  dw_table : represents (directory_entries s) D;
  dw_length : Z.of_nat (length (directory_entries s)) = directory_capacity s;
  dw_count : directory_entry_count s = Z.of_nat (size D);
  dw_half : 2 * Z.of_nat (size D) <= directory_capacity s;
  dw_blocks : blocks_wf s (refs D) B (owners B);
}.

(** The fields no directory operation changes. *)
Definition frame s :=
  (directory_capacity s, epoch s, physical_block_pin_counts s, physical_block_indices s, lane_physical_block_counts s,
   (lane_stride s, lane_capacity s, k_block_token_count s, table_entry_capacity s, lane_block_keys s, lane_block_key_stride s),
   (k_control_generation s, k_abi_version s, k_descriptor_bytes s, missing_block_count s, in_flight_block_count s,
    resident_block_count s)).

Lemma rest_frame s s' : rest s' = rest s -> frame s' = frame s.
Proof. unfold frame. by intros [= _ _ -> -> -> -> -> -> -> -> -> -> -> -> -> -> -> -> ->]. Qed.

Lemma rest_dirs s s' : rest s' = rest s -> directory_entries s' = directory_entries s /\
  directory_entry_count s' = directory_entry_count s /\ directory_capacity s' = directory_capacity s.
Proof. by intros [=]. Qed.

Lemma rest_slot s s' (slot : nat) d : rest s' = rest s -> directory_entries s !! slot = Some d -> directory_entries s' !! slot = Some d.
Proof. intros Hr Hd. by rewrite (proj1 (rest_dirs _ _ Hr)). Qed.

(** An operation on blocks alone keeps the directory. *)
Lemma directory_moves s s' D B B' :
  directory_wf s D B -> rest s' = rest s -> blocks_wf s' (refs D) B' (owners B') -> directory_wf s' D B'.
Proof. intros [] (Hd&Hc&Hcap)%rest_dirs Hw. split; rewrite ?Hd, ?Hc, ?Hcap; done. Qed.

Lemma blocks_wf_dirs s R B O es n :
  blocks_wf s R B O -> blocks_wf (s <| directory_entries := es |> <| directory_entry_count := n |>) R B O.
Proof. intros Hw. apply (blocks_wf_owner s _ R B O O); try done. apply Hw. Qed.

Lemma dir_entry s D B (slot : nat) d : directory_wf s D B -> directory_entries s !! slot = Some d -> d_key d <> empty_key ->
  D !! d_key d = Some d.
Proof. intros Hw Hd Hne. by eapply (rep_found (dw_table _ _ _ Hw)). Qed.

Lemma dir_block s D B dk d : directory_wf s D B -> D !! dk = Some d ->
  d_block_key d <> empty_key /\ is_Some (B !! d_block_key d) /\ 0 < refs D (d_block_key d) /\ d_key d = dk /\ dk <> empty_key.
Proof.
  intros Hw Hd. pose proof (refs_pos D dk d Hd) as Hpos. pose proof (dw_blocks _ _ _ Hw) as Hb.
  destruct (bw_live _ _ _ _ Hb _ Hpos) as [e He]. destruct (wf_key_nonempty _ _ _ _ _ _ Hb He) as [Hne _].
  apply (rep_lookup _ _ (dw_table _ _ _ Hw)) in Hd as (Hdk&_&_&Hkey). split_and!; eauto.
Qed.

Lemma refs_bound s D B k : directory_wf s D B -> refs D k <= 1073741824.
Proof.
  intros Hw. pose proof (refs_le D k). pose proof (dw_half _ _ _ Hw). pose proof (dw_length _ _ _ Hw).
  pose proof (rep_bounds (dw_table _ _ _ Hw)). lia.
Qed.

Lemma wp_set_dir slot d d0 Q (Rr : WorkControlError -> KvState H -> Prop) s :
  directory_entries s !! Z.to_nat slot = Some d0 ->
  Q tt (s <| directory_entries := <[Z.to_nat slot := d]> (directory_entries s) |>) -> wp (set_dir slot d) Q Rr s.
Proof. intros Hd HQ. unfold set_dir, dir_at. wp_steps. done. Qed.

(** Slots other than [dk] keep their block, and protected blocks stay where they are. *)
Definition neighbours dk s D B s' D' B' : Prop :=
  (forall dk', dk' <> dk -> D' !! dk' = D !! dk') /\
  (forall dk' d i, dk' <> dk -> D !! dk' = Some d -> kept s B (d_block_key d) i -> kept s' B' (d_block_key d) i).

Lemma neighbours_refl dk s D B : neighbours dk s D B s D B.
Proof. split; auto. Qed.

Lemma neighbours_trans dk s1 D1 B1 s2 D2 B2 s3 D3 B3 :
  neighbours dk s1 D1 B1 s2 D2 B2 -> neighbours dk s2 D2 B2 s3 D3 B3 -> neighbours dk s1 D1 B1 s3 D3 B3.
Proof.
  intros [Ha1 Hb1] [Ha2 Hb2]. split.
  - intros dk' Hne. by rewrite Ha2, Ha1.
  - intros dk' d i Hne Hd Hk. apply (Hb2 dk'); [done|by rewrite Ha1|]. by apply (Hb1 dk').
Qed.

Lemma neighbours_steady dk s D B s' B' : steady (fun _ => True) s B s' B' -> neighbours dk s D B s' D B'.
Proof. intros []. split; auto. Qed.

(** ** Promoting a slot to another block *)

Definition retarget (k' : KvKey) (d : KvDirectoryEntry) : KvDirectoryEntry := d <| d_block_key := k' |>.

(** Rewriting the slot once the references are those of the new directory. *)
Lemma retarget_wf s s1 D B B1 slot dk d k' :
  directory_wf s D B -> directory_entries s !! Z.to_nat slot = Some d -> D !! dk = Some d -> rest s1 = rest s ->
  blocks_wf s1 (refs (<[dk := retarget k' d]> D)) B1 (owners B1) ->
  directory_wf (s1 <| directory_entries := <[Z.to_nat slot := retarget k' d]> (directory_entries s1) |>) (<[dk := retarget k' d]> D) B1.
Proof.
  intros Hw Hse Hd Hrest Hb. destruct (dir_block _ _ _ _ _ Hw Hd) as (_&_&_&Hkey&Hne). destruct (rest_dirs _ _ Hrest) as (Hds&Hdc&Hdcap).
  assert (size (<[dk := retarget k' d]> D) = size D) as Hsz by (apply map_size_insert_Some; by rewrite Hd). split.
  - cbn. rewrite Hds. rewrite <-Hkey. apply (represents_update (dw_table _ _ _ Hw)); [done|apply held_spec; cbn; congruence|done].
  - cbn. rewrite length_insert, Hds. rewrite Hdcap. apply Hw.
  - cbn. rewrite Hdc, Hsz. apply Hw.
  - cbn. rewrite Hsz, Hdcap. apply Hw.
  - apply (blocks_wf_owner s1 _ _ B1 (owners B1)); try done. apply Hb.
Qed.

Definition promoted slot dk d k' s D B s' : Prop :=
  exists D' B', directory_wf s' D' B' /\ frame s' = frame s /\ neighbours dk s D B s' D' B' /\
    ((D' = D /\ directory_entries s' !! Z.to_nat slot = Some d) \/
     (D' = <[dk := retarget k' d]> D /\ directory_entries s' !! Z.to_nat slot = Some (retarget k' d))).

Lemma promoted_retarget K s s1 D B B1 slot dk d k' :
  directory_wf s D B -> directory_entries s !! Z.to_nat slot = Some d -> D !! dk = Some d ->
  (forall dk' d', dk' <> dk -> D !! dk' = Some d' -> K (d_block_key d')) -> steady K s B s1 B1 ->
  blocks_wf s1 (refs (<[dk := retarget k' d]> D)) B1 (owners B1) ->
  promoted slot dk d k' s D B (s1 <| directory_entries := <[Z.to_nat slot := retarget k' d]> (directory_entries s1) |>).
Proof.
  intros Hw Hse Hd HK Hst Hb. pose proof (st_rest _ _ _ _ _ Hst) as Hrest. exists (<[dk := retarget k' d]> D), B1.
  split; [by apply (retarget_wf s s1 D B B1 slot dk d k')|]. split; [by apply rest_frame in Hrest|]. split.
  - split.
    + intros dk' Hne. by rewrite lookup_insert_ne.
    + intros dk' d' i Hne Hd' Hk. apply (st_kept _ _ _ _ _ Hst); [by apply (HK dk')|done].
  - right. split; [done|]. destruct (rest_dirs _ _ Hrest) as (Hds&_). cbn. rewrite Hds. apply list_lookup_insert_eq. by eapply lookup_lt_Some.
Qed.

Lemma promote_spec s D B slot dk d k' :
  directory_wf s D B -> directory_entries s !! Z.to_nat slot = Some d -> D !! dk = Some d -> k' <> empty_key -> d_block_key d <> k' ->
  wp (kv_promote_block slot k') (fun _ => promoted slot dk d k' s D B)
    (fun _ s' => exists B', directory_wf s' D B' /\ frame s' = frame s) s.
Proof.
  intros Hw Hse Hd Hne' Hkk. destruct (dir_block _ _ _ _ _ Hw Hd) as (Hne&[e He]&Hpos&Hkey&Hdk). set (k := d_block_key d) in *.
  pose proof (dw_blocks _ _ _ Hw) as Hb. destruct (bw_entry _ _ _ _ Hb k e He) as (Hrc&_&_). pose proof (refs_bound s D B k' Hw) as Hbound.
  assert (promoted slot dk d k' s D B s) as Hsame.
  { exists D, B. split; [done|]. split; [done|]. split; [apply neighbours_refl|by left]. }
  assert (forall dk' d', dk' <> dk -> D !! dk' = Some d' -> d_block_key d' = k -> 1 < refs D k) as Hshare.
  { intros dk' d' Hn Hd' Heq. by apply (refs_shared D dk dk' d d'). }
  unfold kv_promote_block, dir_at. wp_steps. fold k.
  apply (wp_find_block k _ _ s _ B _ Hb Hne); [|congruence]. intros src e' Hs Hsrc He'. assert (e' = e) as -> by congruence.
  unfold some_or, block_at. wp_steps.
  eapply (wp_mono _ (fun b s' => s' = s /\ (b = false -> forall i, resident B !! k = Some i -> ~ pinned s i)) _ (fun _ _ => False)).
  { destruct (Z.eqb_spec (residency_state e) KV_DIRECTORY_RESIDENCY_GPU) as [Hgpu|Hgpu].
    - assert (gpu_block e = Some (physical_block_index e)) as Hg by by apply gpu_block_Some.
      destruct (resident_of _ _ _ _ _ _ _ Hb He Hg) as [Hr Hi].
      eapply (wp_is_pinned _ _ _ s _ _ _ Hb Hi); intros Hp; (split; [done|]); [done|]. intros _ i Hi'. by simplify_eq.
    - wp_steps. split; [done|]. intros _ i (e2&He2&Hg)%resident_Some. simplify_eq. by apply gpu_block_Some in Hg as [? _]. }
  2: { intros ? ? []. }
  intros [|] s0 [-> Hunpin]; [by wp_steps|]. specialize (Hunpin eq_refl). wp_steps.
  apply (wp_find_block k' _ _ s _ B _ Hb Hne'); rewrite Hrc.
  2: intros Hnone; rewrite bool_decide_true by done; cbn [andb]; destruct (Z.eqb_spec (refs D k) 1) as [Hone|Hone].
  2: { (* the record is renamed *) wp_steps. eapply wp_mono; [apply (rekey_spec s _ B src k k' e Hb); try done; lia| |intros ? ? []].
    intros _ s1 (B1&Hb1&Hst). pose proof (rest_slot _ _ _ _ (st_rest _ _ _ _ _ Hst) Hse) as Hse1.
    wp_steps. eapply wp_set_dir; [exact Hse1|]. fold (retarget k' d).
    eapply (promoted_retarget _ s s1 D B B1 slot dk d k'); try done.
    - intros dk' d' Hn Hd' Heq. pose proof (Hshare dk' d' Hn Hd' Heq). lia.
    - eapply blocks_wf_ext, Hb1. intros k2. by rewrite (refs_replace _ _ d). }
  1: intros tslot te Hts Hte Ht; rewrite bool_decide_false by done; cbn [andb].
  all: wp_steps; eapply wp_mono; [apply (block_resolve_spec s _ B k' Hb Hne'); lia| |].
  2, 4: intros ? s1 (B1&Hb1&Hst); exists B1; split; [eapply directory_moves; [done|apply Hst|done]|apply rest_frame, Hst].
  all: intros _ s1 (B1&Hb1&Hst&Hfound); pose proof (rest_slot _ _ _ _ (st_rest _ _ _ _ _ Hst) Hse) as Hse1.
  all: wp_steps; fold k.
  all: eapply wp_mono; [apply (deref_spec s1 _ B1 k Hb1); rewrite bump_ne by done; done| |].
  all: rewrite ?bump_ne by done.
  1, 3: intros _ s2 (B2&Hb2&Hst2); pose proof (rest_slot _ _ _ _ (st_rest _ _ _ _ _ Hst2) Hse1) as Hse2;
    eapply wp_set_dir; [exact Hse2|]; fold (retarget k' d);
    eapply (promoted_retarget (fun k2 => k2 <> k \/ 1 < refs D k) s s2 D B B2 slot dk d k'); try done;
    [intros dk' d' Hn Hd'; destruct (decide (d_block_key d' = k)) as [Heq|]; [right; by apply (Hshare dk' d')|by left]
    |eapply steady_trans; [eapply steady_weaken, Hst; done|done]
    |eapply blocks_wf_ext, Hb2; intros k2; rewrite (refs_replace _ _ d) by done; fold k; change (d_block_key (retarget k' d)) with k'; unfold bump; repeat case_bool_decide; cbn; lia].
  all: intros err s2 (->&_&Hone1&i&Hi&Hpin); exfalso.
  - rewrite Hfound in Hi by eauto. apply (Hunpin i Hi). apply (pinned_rest s1); [symmetry; apply Hst|done].
  - done.
Qed.

(** ** Acquiring a slot *)

(** Slot [dk] names a record that sits on the GPU at [i] and was used in this epoch. *)
Definition acquired dk (key : KvKey) s D B (i : Z) s' : Prop :=
  exists D' B' d, directory_wf s' D' B' /\ frame s' = frame s /\ neighbours dk s D B s' D' B' /\
    D' !! dk = Some d /\ (d_block_key d = key \/ D !! dk = Some d) /\ resident B' !! d_block_key d = Some i /\ current s' i.

Definition still_wf s s' : Prop := exists D' B', directory_wf s' D' B' /\ frame s' = frame s.

Lemma resident_tail_spec s s1 D D1 B B1 slot dk key d :
  directory_wf s1 D1 B1 -> frame s1 = frame s -> neighbours dk s D B s1 D1 B1 -> D1 !! dk = Some d ->
  (d_block_key d = key \/ D !! dk = Some d) -> directory_entries s1 !! Z.to_nat slot = Some d ->
  wp (let! dir := dir_at slot in kv_block_resident (d_block_key dir)) (acquired dk key s D B) (fun _ => still_wf s) s1.
Proof.
  intros Hw Hf Hn Hd Hkey Hse. unfold dir_at. wp_steps. destruct (dir_block _ _ _ _ _ Hw Hd) as (_&Hsome&_).
  eapply wp_mono; [apply (block_resident_spec s1 _ B1 _ (dw_blocks _ _ _ Hw) Hsome)|..].
  - intros i s2 (B2&Hb2&Hst&Hr&Hc). exists D1, B2, d. split_and!; try done.
    + eapply directory_moves; [exact Hw|apply Hst|done].
    + rewrite <-Hf. apply rest_frame, Hst.
    + eapply neighbours_trans; [exact Hn|by apply neighbours_steady].
  - intros err s2 (B2&Hb2&Hst). exists D1, B2. split; [eapply directory_moves; [exact Hw|apply Hst|done]|].
    rewrite <-Hf. apply rest_frame, Hst.
Qed.

(** A new slot entered where the probe stopped. *)
Lemma new_slot_wf s s1 D B B1 slot d0 dk key :
  directory_wf s D B -> 0 <= slot -> directory_entries s !! Z.to_nat slot = Some d0 -> held d0 = false -> reaches (directory_entries s) dk slot ->
  dk <> empty_key -> D !! dk = None -> 2 * Z.of_nat (size D) + 2 <= directory_capacity s -> rest s1 = rest s ->
  blocks_wf s1 (bump key 1 (refs D)) B1 (owners B1) ->
  directory_wf (s1 <| directory_entries := <[Z.to_nat slot := mkDirEntry dk key]> (directory_entries s1) |>
    <| directory_entry_count := directory_entry_count s1 +u32 1 |>) (<[dk := mkDirEntry dk key]> D) B1.
Proof.
  intros Hw Hs0 Hse Hv Hre Hne Hd Hhalf Hrest Hb. destruct (rest_dirs _ _ Hrest) as (Hds&Hdc&Hdcap).
  assert (size (<[dk := mkDirEntry dk key]> D) = S (size D)) as Hsz by by apply map_size_insert_None.
  pose proof (rep_bounds (dw_table _ _ _ Hw)). pose proof (dw_length _ _ _ Hw). pose proof (dw_count _ _ _ Hw). split.
  - cbn. rewrite Hds. apply (represents_insert (dw_table _ _ _ Hw) _ d0 (mkDirEntry dk key)); try done. by rewrite Z2Nat.id.
  - cbn. rewrite length_insert, Hds, Hdcap. apply Hw.
  - transitivity (directory_entry_count s1 +u32 1); [done|]. rewrite Hdc, Hsz. rewrite u32_small; lia.
  - cbn. rewrite Hsz, Hdcap. lia.
  - apply blocks_wf_dirs. eapply blocks_wf_ext, Hb. intros k. by rewrite refs_new.
Qed.

Lemma directory_acquire_spec s D B seq idx key :
  directory_wf s D B -> key <> empty_key ->
  wp (kv_directory_acquire seq idx key) (acquired (private_key seq idx) key s D B) (fun _ => still_wf s) s.
Proof.
  intros Hw Hne. pose proof (private_key_nonempty seq idx) as Hdk. set (dk := private_key seq idx) in *.
  pose proof (rep_bounds (dw_table _ _ _ Hw)) as Hb. assert (still_wf s s) as Hsame by (exists D, B; done).
  unfold kv_directory_acquire. fold dk. clearbody dk. wp_steps. cbn [id].
  eapply wp_mono; [apply (kv_index_probe_spec (dw_table _ _ _ Hw) dk (fun _ _ => False) s Hdk)| |intros ? ? []].
  intros [slot found] s0 [-> Hp]. inversion Hp as [slot' d Hs Hse Hke Hd Heq|slot' d Hs Hse Hv Hd Hre Heq|Hd Hfull Heq]; subst found; subst; clear Hp.
  - change (entry_key d) with (d_key d) in *. rewrite (proj2 (Z.eqb_neq slot U32_MAX)) by lia. cbn [negb]. unfold dir_at at 1. wp_steps.
    case_bool_decide as Hsk; cbn [negb].
    + apply wp_ret. eapply (resident_tail_spec s s D D B B slot (d_key d) key d); try done. by left.
    + eapply wp_mono; [apply (promote_spec s D B slot (d_key d) d key); done| |].
      * intros _ s1 (D1&B1&Hw1&Hf1&Hn1&[[-> Hse1]|[-> Hse1]]).
        -- eapply (resident_tail_spec s s1 D D B B1 slot (d_key d) key d); try done. by right.
        -- eapply (resident_tail_spec s s1 D _ B B1 slot (d_key d) key (retarget key d)); try done; [by rewrite lookup_insert_eq|by left].
      * intros err s1 (B1&Hw1&Hf1). exists D, B1. done.
  - rewrite (proj2 (Z.eqb_neq slot U32_MAX)) by lia. cbn [negb].
    destruct (Z.leb_spec (directory_capacity s / 2) (directory_entry_count s)) as [|Hlt]; [by wp_steps|].
    assert (2 * Z.of_nat (size D) + 2 <= directory_capacity s) as Hhalf.
    { rewrite (dw_count _ _ _ Hw) in Hlt. pose proof (Z.mul_div_le (directory_capacity s) 2). lia. }
    wp_steps. pose proof (refs_bound s D B key Hw).
    eapply wp_mono; [apply (block_resolve_spec s _ B key (dw_blocks _ _ _ Hw) Hne); lia| |].
    + intros _ s1 (B1&Hb1&Hst&_). pose proof (st_rest _ _ _ _ _ Hst) as Hrest. pose proof (rest_slot _ _ _ _ Hrest Hse) as Hse1.
      wp_steps. eapply wp_set_dir; [exact Hse1|]. apply wp_modify. cbn beta.
      eapply (resident_tail_spec s _ D _ B B1 slot dk key (mkDirEntry dk key)).
      * apply (new_slot_wf s s1 D B B1 slot d dk key); try done. lia.
      * by apply rest_frame in Hrest.
      * split; [intros dk' Hn; by rewrite lookup_insert_ne|]. intros dk' d' i Hn Hd' Hk. by apply (st_kept _ _ _ _ _ Hst).
      * by rewrite lookup_insert_eq.
      * by left.
      * cbn. apply list_lookup_insert_eq. by eapply lookup_lt_Some.
    + intros err s1 (B1&Hb1&Hst). exists D, B1. split; [eapply directory_moves; [done|apply Hst|done]|apply rest_frame, Hst].
  - rewrite Z.eqb_refl. by wp_steps.
Qed.

(** ** Releasing a slot *)

Lemma wp_find_directory seq idx Q (Rr : WorkControlError -> KvState H -> Prop) s D B :
  directory_wf s D B ->
  (forall slot d, 0 <= slot < Z.of_nat (length (directory_entries s)) -> directory_entries s !! Z.to_nat slot = Some d ->
     D !! private_key seq idx = Some d -> Q (Some slot) s) ->
  (D !! private_key seq idx = None -> Q None s) -> wp (find_directory seq idx) Q Rr s.
Proof.
  intros Hw Hy Hn. unfold find_directory. wp_steps. change (id s) with s.
  eapply wp_mono; [apply (kv_index_find_spec (dw_table _ _ _ Hw) _ Rr s (private_key_nonempty seq idx))| |intros ?? H'; exact H'].
  intros [slot|] s' [-> Ho]; [|by apply Hn]. destruct Ho as (e&Hs&He&_&Hk). by apply (Hy slot e).
Qed.

(** The slot is gone, or stays because its block is pinned or was never there. *)
Lemma directory_release_spec s D B seq idx :
  let dk := private_key seq idx in
  directory_wf s D B ->
  wp (kv_directory_release seq idx)
    (fun _ s' => is_Some (D !! dk) /\ exists B', directory_wf s' (delete dk D) B' /\ frame s' = frame s /\
       neighbours dk s D B s' (delete dk D) B')
    (fun err s' => s' = s /\ (err = NotFound /\ D !! dk = None \/
       err = Busy /\ exists d i, D !! dk = Some d /\ resident B !! d_block_key d = Some i /\ pinned s i)) s.
Proof.
  intros dk Hw. unfold kv_directory_release. wp_steps. apply (wp_find_directory seq idx _ _ s D B Hw); fold dk.
  2: { intros Hnone. unfold some_or. wp_steps. auto. }
  intros slot d Hs Hse Hd. unfold some_or, dir_at. wp_steps. destruct (dir_block _ _ _ _ _ Hw Hd) as (Hne&Hsome&Hpos&Hkey&Hdk).
  pose proof (rep_bounds (dw_table _ _ _ Hw)). pose proof (dw_length _ _ _ Hw). pose proof (dw_count _ _ _ Hw). pose proof (dw_half _ _ _ Hw).
  pose proof (size_pos _ _ _ Hd).
  eapply wp_mono; [apply (deref_spec s _ B _ (dw_blocks _ _ _ Hw) Hpos)| |].
  - intros _ s1 (B1&Hb1&Hst). pose proof (st_rest _ _ _ _ _ Hst) as Hrest. destruct (rest_dirs _ _ Hrest) as (Hds&Hdc&Hdcap).
    wp_steps. unfold erase_directory. apply wp_zoom. cbn. rewrite Hds. eapply wp_mono.
    + apply (kv_index_erase_spec _ _ slot d (fun _ _ => False) (dw_table _ _ _ Hw)); [done|done|apply held_spec; cbn; congruence|lia].
    + intros _ es [Hlen Hrep]. change (entry_key d) with (d_key d) in Hrep. rewrite Hkey in Hrep.
      assert (Z.of_nat (size (delete dk D)) = Z.of_nat (size D) - 1) as Hsz by (rewrite map_size_delete_Some by (by rewrite Hd); lia).
      split; [done|]. exists B1. split; [|split].
      * split.
        -- done.
        -- cbn. rewrite Hlen, Hdcap. apply Hw.
        -- transitivity (directory_entry_count s1 -u32 1); [done|]. rewrite Hdc, Hsz. rewrite u32_small; lia.
        -- cbn. rewrite Hsz, Hdcap. lia.
        -- apply (blocks_wf_owner s1 _ _ B1 (owners B1)); try done; [|apply Hb1].
           eapply blocks_wf_ext, Hb1. intros k. by apply refs_delete.
      * by apply rest_frame in Hrest.
      * split; [intros dk' Hn; by rewrite lookup_delete_ne|]. intros dk' d' i Hn Hd' Hk. apply (st_kept _ _ _ _ _ Hst); [|done].
        destruct (decide (d_block_key d' = d_block_key d)) as [Heq|]; [right; by apply (refs_shared D dk dk' d d')|by left].
    + intros ? ? [].
  - intros err s1 (->&->&_&i&Hi&Hp). split; [done|]. right. eauto 10.
Qed.

End directory.
