(* ===== verification/KvDirectoryProps.v ===== *)
(** * The KV block directory: packets

    The operations the rank daemon calls with a work packet, and the directory's
    properties: every operation keeps the directory well formed and returns or fails
    without panicking, and the block table a packet is given names, for every lane and
    block, the physical block that holds that block's data. *)

From S2P Require Import KvIndex Prelude FreeList WorkTransaction Wire WireProps WorkControl WorkControlProps PrefillPackets.
From S2P Require Import PacketSafety KvDirectory KvDirectoryInv KvDirectoryOps KvDirectoryRefs.

Section props.
Context {H : Type} `{!KvSwapHooks H}.
Implicit Types (s : KvState H) (D : gmap KvKey KvDirectoryEntry) (B : gmap KvKey KvBlockEntry).

(** The host table has a row of [lane_stride] entries per lane. *)
Record table_ok s : Prop := {
  tk_indices : Z.of_nat (length (physical_block_indices s)) = table_entry_capacity s;
  tk_capacity : table_entry_capacity s = lane_capacity s * lane_stride s;
  tk_fits : table_entry_capacity s <= U32_MAX;
  tk_lanes : Z.of_nat (length (lane_physical_block_counts s)) = lane_capacity s;
  tk_sizes : 0 <= lane_capacity s <= U32_MAX /\ 0 <= lane_stride s <= U32_MAX;
  tk_keys : 0 <= lane_block_key_stride s <= lane_stride s;
}.

Definition kv_wf s : Prop := table_ok s /\ exists D B, directory_wf s D B.

(** What no packet operation changes. *)
Definition settings s :=
  (lane_capacity s, lane_stride s, table_entry_capacity s, lane_block_keys s, lane_block_key_stride s, k_block_token_count s,
   length (physical_block_indices s), length (lane_physical_block_counts s)).

Lemma table_ok_eq s s' : settings s' = settings s -> table_ok s -> table_ok s'.
Proof. intros [= Hc Hs Ht Hk Hks Hb Hi Hl] []. split; rewrite ?Hc, ?Hs, ?Ht, ?Hk, ?Hks, ?Hi, ?Hl; done. Qed.

Lemma frame_settings s s' : frame s' = frame s -> settings s' = settings s.
Proof. unfold settings. by intros [= _ _ _ -> -> -> -> -> -> -> -> _ _ _ _ _ _]. Qed.

(** ** Small state changes *)

Lemma directory_wf_core s s' D B :
  directory_wf s D B -> directory_entries s' = directory_entries s -> directory_entry_count s' = directory_entry_count s ->
  directory_capacity s' = directory_capacity s -> blocks_wf s' (refs D) B (owners B) -> directory_wf s' D B.
Proof. intros [] Hd Hc Hcap Hb. split; rewrite ?Hd, ?Hc, ?Hcap; done. Qed.

(** Moving a resident block through the readiness states. *)
Lemma directory_wf_state s D B k i st :
  directory_wf s D B -> resident B !! k = Some i -> st <> KV_ENTRY_TRANSIENT ->
  directory_wf (s <| physical_block_states := <[Z.to_nat i := st]> (physical_block_states s) |>) D B.
Proof.
  intros Hw Hr Hst. apply (directory_wf_core s); try done. pose proof (dw_blocks _ _ _ Hw) as [].
  split; try done; [by apply (shape_ok_eq s)|]. by apply (phys_state _ _ _ _ _ k).
Qed.

Lemma directory_wf_readiness s D B st : directory_wf s D B ->
  wp (account_readiness st) (fun _ s' => directory_wf s' D B /\ (forall k i, kept s B k i -> kept s' B k i) /\ settings s' = settings s /\
     physical_block_indices s' = physical_block_indices s /\ lane_physical_block_counts s' = lane_physical_block_counts s /\ epoch s' = epoch s)
    (fun _ _ => False) s.
Proof.
  intros Hw. unfold account_readiness. apply wp_modify. destruct (st =? KV_ENTRY_RESIDENT), (st =? KV_ENTRY_IN_FLIGHT).
  all: split_and!; try done; apply (directory_wf_core s); try done.
  all: apply (blocks_wf_owner s _ _ B (owners B)); try done; apply Hw.
Qed.

(** ** Lookups *)

Lemma wp_sequence_block seq idx Q (Rr : WorkControlError -> KvState H -> Prop) s D B :
  let dk := private_key seq idx in
  directory_wf s D B ->
  (forall slot d e, 0 <= slot -> D !! dk = Some d -> B !! d_block_key d = Some e -> block_entries s !! Z.to_nat slot = Some e -> Q (Some slot) s) ->
  (D !! dk = None -> Q None s) -> wp (kv_sequence_block seq idx) Q Rr s.
Proof.
  intros dk Hw Hy Hn. unfold kv_sequence_block. wp_steps. apply (wp_find_directory seq idx _ _ s D B Hw); fold dk; [|intros Hnone; wp_steps; auto].
  intros slot d Hs Hse Hd. wp_steps. destruct (dir_block _ _ _ _ _ Hw Hd) as (Hne&[e He]&_).
  apply (wp_find_block _ _ _ s _ B _ (dw_blocks _ _ _ Hw) Hne); [|congruence]. intros slot' e' Hs' Hse' He'. apply (Hy slot' d e'); try done. lia.
Qed.

(** The data of a slot that exists: on the GPU, or in backing storage. *)
Lemma entry_place s D B k e : directory_wf s D B -> B !! k = Some e ->
  (physical_block_index e = KV_INVALID_BLOCK_INDEX /\ gpu_block e = None) \/
  (physical_block_index e <> KV_INVALID_BLOCK_INDEX /\ resident B !! k = Some (physical_block_index e) /\
   0 <= physical_block_index e < physical_block_capacity s).
Proof.
  intros Hw He. pose proof (dw_blocks _ _ _ Hw) as Hb. destruct (bw_entry _ _ _ _ Hb k e He) as (_&_&[Hg|(Hn&Hp&_)]).
  - right. assert (gpu_block e = Some (physical_block_index e)) as Hg' by by apply gpu_block_Some.
    destruct (resident_of _ _ _ _ _ _ _ Hb He Hg') as [Hr Hi]. pose proof (ph_cap _ _ _ _ _ (bw_phys _ _ _ _ Hb)) as Hc.
    change (U32_MAX / 2) with 2147483647 in Hc. split; [unfold KV_INVALID_BLOCK_INDEX; lia|]. done.
  - left. split; [done|]. unfold gpu_block. by rewrite Hn.
Qed.

(** ** Marking and dirtying blocks *)

Lemma blocks_wf_epochs s R B O (n : nat) v :
  blocks_wf s R B O -> blocks_wf (s <| physical_block_last_used_epochs := <[n := v]> (physical_block_last_used_epochs s) |>) R B O.
Proof. intros Hw. apply (blocks_wf_owner s _ R B O O); try done; [|apply Hw]. unfold shape. cbn. by rewrite length_insert. Qed.

Lemma mark_block_spec s D B seq st b :
  directory_wf s D B -> st <> KV_ENTRY_TRANSIENT ->
  wp (mark_block seq st b)
    (fun _ s' => directory_wf s' D B /\ settings s' = settings s /\
       exists d i, D !! private_key seq b = Some d /\ resident B !! d_block_key d = Some i)
    (fun _ s' => s' = s) s.
Proof.
  intros Hw Hst. unfold mark_block. wp_steps. apply (wp_sequence_block seq b _ _ s D B Hw); unfold some_or.
  2: { intros _. by wp_steps. }
  intros slot d e Hs Hd He Hse. unfold block_at. wp_steps. destruct (entry_place s D B _ e Hw He) as [[-> _]|(Hp&Hr&Hi)].
  { rewrite Z.eqb_refl. by wp_steps. }
  rewrite (proj2 (Z.eqb_neq _ _)) by done. destruct (phys_lookup _ _ _ _ _ (dw_blocks _ _ _ Hw) Hi) as (_&[u Hu]&[st0 Hst0]).
  wp_steps. split_and!; [|done|eauto].
  pose proof (directory_wf_state s D B _ _ st Hw Hr Hst) as Hw1.
  apply (directory_wf_core (s <| physical_block_states := <[Z.to_nat (physical_block_index e) := st]> (physical_block_states s) |>)); try done.
  apply blocks_wf_epochs, Hw1.
Qed.

(** A record rewritten in place without moving its data or changing its references. *)
Lemma directory_touch s D B (slot : nat) k e e' :
  directory_wf s D B -> block_entries s !! slot = Some e -> B !! k = Some e -> b_key e' = b_key e ->
  backing_block_index e' = backing_block_index e -> gpu_block e' = gpu_block e -> reference_count e' = reference_count e ->
  placed (backing_block_capacity s) e' ->
  directory_wf (s <| block_entries := <[slot := e']> (block_entries s) |>) D (<[k := e']> B) /\ resident (<[k := e']> B) = resident B.
Proof.
  intros Hw Hse He Hk Hbi Hg Hrc Hpl. pose proof (dw_blocks _ _ _ Hw) as Hb. destruct (bw_entry _ _ _ _ Hb _ e He) as (Hrc'&HR&_).
  destruct (wf_key_nonempty _ _ _ _ _ _ Hb He) as [Hne Hke]. split; [|by apply (resident_same B k e)].
  destruct (blocks_wf_touch (fun _ => True) s (refs D) (refs D) B (owners B) slot k e e') as [Hb' Hst]; try congruence.
  eapply directory_moves; [exact Hw|apply Hst|]. by rewrite (owners_touch _ _ e).
Qed.

Lemma dirty_block_spec s D B seq b d i :
  directory_wf s D B -> D !! private_key seq b = Some d -> resident B !! d_block_key d = Some i ->
  wp (dirty_block seq b)
    (fun _ s' => exists B', directory_wf s' D B' /\ settings s' = settings s /\ resident B' = resident B) (fun _ _ => False) s.
Proof.
  intros Hw Hd Hr. unfold dirty_block. wp_steps. apply (wp_sequence_block seq b _ _ s D B Hw); unfold some_or; [|congruence].
  intros slot d' e Hs Hd' He Hse. assert (d' = d) as -> by congruence. wp_steps. eapply wp_upd_block; [exact Hse|].
  apply resident_Some in Hr as (e2&He2&Hg). assert (e2 = e) as -> by congruence.
  exists (<[d_block_key d := e <| backing_valid := false |>]> B).
  destruct (directory_touch s D B (Z.to_nat slot) (d_block_key d) e (e <| backing_valid := false |>)) as [Hw' Hr']; try done.
  left. by apply gpu_block_Some in Hg as [? _].
Qed.

(** ** Operations that keep the directory well formed *)

(** [s] is well formed and shares its table layout with [s0]. *)
Definition stays s0 s : Prop := kv_wf s /\ settings s = settings s0.

Lemma stays_settings s0 s s' D B : stays s0 s -> directory_wf s' D B -> settings s' = settings s -> stays s0 s'.
Proof. intros [[Ht _] Hs] Hw Hs'. split; [|congruence]. split; [by apply (table_ok_eq s)|eauto]. Qed.

Lemma stays_frame s0 s s' D B : stays s0 s -> directory_wf s' D B -> frame s' = frame s -> stays s0 s'.
Proof. intros Hs Hw Hf. eapply stays_settings; [done|done|]. by apply frame_settings. Qed.

(** [m] returns or fails, and keeps the directory well formed either way. *)
Definition keeps {A} (m : M (KvState H) WorkControlError A) : Prop :=
  forall s0 s, stays s0 s -> wp m (fun _ => stays s0) (fun _ => stays s0) s.

Lemma keeps_ret {A} (a : A) : keeps (ret a).
Proof. intros s0 s Hs. by apply wp_ret. Qed.

Lemma keeps_throw {A} e : keeps (A := A) (throw e).
Proof. intros s0 s Hs. by apply wp_throw. Qed.

Lemma keeps_bind {A A'} (m : M (KvState H) WorkControlError A) (k : A -> M (KvState H) WorkControlError A') :
  keeps m -> (forall a, keeps (k a)) -> keeps (bind m k).
Proof.
  intros Hm Hk s0 s Hs. apply wp_bind. eapply wp_mono; [by apply (Hm s0)| |intros ?? H'; exact H']. intros a s' Hs'. by apply Hk.
Qed.

Lemma keeps_for_fold {X Y} (xs : list X) (body : X -> Y -> M (KvState H) WorkControlError Y) b :
  (forall x b, x ∈ xs -> keeps (body x b)) -> keeps (for_fold xs body b).
Proof.
  revert b. induction xs as [|x xs IH]; intros b Hb; [apply keeps_ret|]. cbn [for_fold]. apply keeps_bind.
  - apply Hb. by apply list_elem_of_here.
  - intros b'. apply IH. intros y b2 Hy. apply Hb. by apply list_elem_of_further.
Qed.

Lemma keeps_release seq b : keeps (kv_directory_release seq b).
Proof.
  intros s0 s Hs. pose proof Hs as [[_ (D&B&Hw)] _]. eapply wp_mono; [apply (directory_release_spec s D B seq b Hw)|..].
  - intros _ s' (_&B'&Hw'&Hf&_). by eapply stays_frame.
  - intros e s' [-> _]. done.
Qed.

Lemma keeps_catch {A} (m : M (KvState H) WorkControlError A) h : keeps m -> (forall e, keeps (h e)) -> keeps (catch m h).
Proof.
  intros Hm Hh s0 s Hs. apply wp_catch. eapply wp_mono; [by apply (Hm s0)|intros ?? H'; exact H'|]. intros e s' Hs'. by apply Hh.
Qed.

Lemma keeps_release_block seq b : keeps (release_block seq b).
Proof. apply keeps_catch; [apply keeps_release|]. intros e. case_bool_decide; [apply keeps_ret|apply keeps_throw]. Qed.

Lemma keeps_gets {A} (k : KvState H -> M (KvState H) WorkControlError A) :
  (forall s0 s, stays s0 s -> wp (k s) (fun _ => stays s0) (fun _ => stays s0) s) -> keeps (bind (gets id) k).
Proof. intros Hk s0 s Hs. apply wp_bind, wp_gets. by apply Hk. Qed.

Lemma keeps_if {A} (b : bool) (m n : M (KvState H) WorkControlError A) : keeps m -> keeps n -> keeps (if b then m else n).
Proof. by destruct b. Qed.

Lemma keeps_release_sequence seq n : keeps (release_sequence seq n).
Proof.
  apply keeps_gets. intros s0 s. apply keeps_if; [apply keeps_throw|]. apply keeps_for_fold. intros b u _. apply keeps_release_block.
Qed.

Lemma keeps_cancel_block seq b : keeps (cancel_block seq b).
Proof.
  intros s0 s Hs. pose proof Hs as [[_ (D&B&Hw)] _]. unfold cancel_block. wp_steps.
  apply (wp_sequence_block seq b _ _ s D B Hw); [|intros _; by wp_steps]. intros slot d e Hsl Hd He Hse. unfold block_at. wp_steps.
  destruct (entry_place s D B _ e Hw He) as [[-> _]|(Hp&Hr&Hi)]; [rewrite Z.eqb_refl; by wp_steps|].
  rewrite (proj2 (Z.eqb_neq _ _)) by done. destruct (phys_lookup _ _ _ _ _ (dw_blocks _ _ _ Hw) Hi) as (_&_&[st Hst]). wp_steps.
  destruct (st =? KV_ENTRY_IN_FLIGHT); [by apply keeps_release|by wp_steps].
Qed.

Lemma keeps_prefetch_block seq mark cap b found : keeps (prefetch_block seq mark cap b found).
Proof.
  intros s0 s Hs. pose proof Hs as [[_ (D&B&Hw)] _]. unfold prefetch_block. wp_steps.
  apply (wp_sequence_block seq b _ _ s D B Hw); [|intros _; by wp_steps]. intros slot d e Hsl Hd He Hse. unfold block_at. wp_steps.
  match goal with |- wp (if ?g then _ else _) _ _ _ => destruct g end; [by wp_steps|]. wp_steps. eapply wp_upd_block; [exact Hse|].
  destruct (directory_touch s D B (Z.to_nat slot) (d_block_key d) e (e <| prefetch_mark := mark |>)) as [Hw' _]; try done.
  { apply (bw_entry _ _ _ _ (dw_blocks _ _ _ Hw) _ e He). }
  match goal with |- wp (if ?g then _ else _) _ _ _ => destruct g end; wp_steps; by eapply (stays_settings s0 s).
Qed.

(** ** Generations *)

Lemma fill_replicate {A} (x : A) l : fill x l = replicate (length l) x.
Proof. unfold fill. induction l as [|y l IH]; [done|]. cbn. by f_equal. Qed.

Lemma free_chain_initial n : 0 < Z.of_nat n < KV_INVALID_BLOCK_INDEX -> free_chain (Z.of_nat n) n = initial_links n KV_INVALID_BLOCK_INDEX.
Proof.
  intros Hn. unfold KV_INVALID_BLOCK_INDEX in Hn. apply list_eq. intros i. unfold free_chain. rewrite list_lookup_imap.
  destruct (decide (i < n)%nat) as [Hi|Hi].
  - rewrite lookup_initial_links by done. rewrite lookup_replicate_2 by done. cbn [fmap option_fmap option_map]. f_equal.
    destruct (Z.ltb_spec (Z.of_nat i + 1) (Z.of_nat n)), (Nat.ltb_spec (S i) n); try done; try lia.
    rewrite (u32_small (Z.of_nat i)) by lia. rewrite u32_small by lia. lia.
  - rewrite (lookup_ge_None_2 (initial_links _ _)) by (rewrite length_initial_links; lia).
    rewrite (lookup_ge_None_2 (replicate _ _)); [done|]. rewrite length_replicate. lia.
Qed.

Lemma backing_initial n : 0 < Z.of_nat n < KV_INVALID_BLOCK_INDEX ->
  backing_ok (Z.of_nat n) 0 (Some (free_chain (Z.of_nat n) n)) ∅.
Proof.
  intros Hn. rewrite free_chain_initial by done. split; [done|]. split; [by rewrite length_initial_links|]. split; [|split].
  - intros k i Hk. by rewrite lookup_empty in Hk.
  - intros k k' i Hk. by rewrite lookup_empty in Hk.
  - exists (seq 0 n). apply free_list_initial; [lia|]. intros i. unfold backing_free. setoid_rewrite lookup_empty. split; [lia|].
    intros Hi. split; [lia|done].
Qed.

Lemma phys_initial cap n : 0 < cap <= U32_MAX / 2 -> Z.of_nat n = cap ->
  phys_ok cap (replicate n empty_key) (replicate n KV_ENTRY_MISSING) ∅ 0.
Proof.
  intros Hc Hn. split; rewrite ?length_replicate; try done.
  - intros i k [-> _]%lookup_replicate. done.
  - intros i [? _]%lookup_replicate. done.
  - symmetry. apply countb_0. intros i x [-> _]%lookup_replicate. done.
Qed.

(** A state with empty tables. *)
Lemma pristine_wf s kd kb :
  0 <= kd <= 31 -> 0 <= kb <= 31 ->
  directory_entries s = replicate (Z.to_nat (2 ^ kd)) entry_default -> directory_capacity s = 2 ^ kd -> directory_entry_count s = 0 ->
  block_entries s = replicate (Z.to_nat (2 ^ kb)) entry_default -> shape_ok s -> block_entry_count s = 0 -> swapped_block_count s = 0 ->
  phys_ok (physical_block_capacity s) (physical_block_keys s) (physical_block_states s) ∅ (allocated_physical_block_count s) ->
  backing_ok (backing_block_capacity s) (free_backing_block_head s) (backing_block_free_next s) ∅ ->
  0 <= next_physical_block_index s < physical_block_capacity s -> 0 <= block_limit s -> directory_wf s ∅ ∅.
Proof.
  intros Hkd Hkb Hde Hdc Hdn Hbe Hso Hbn Hsw Hph Hbk Hnx Hlim. pose proof (Z.pow_nonneg 2 kd). split.
  - rewrite Hde. by apply represents_empty.
  - rewrite Hde, length_replicate, Hdc. lia.
  - by rewrite Hdn, map_size_empty.
  - rewrite map_size_empty. lia.
  - split; try done.
    + rewrite Hbe. by apply represents_empty.
Qed.

Lemma keeps_reset g : keeps (reset_kv_generation g).
Proof.
  intros s0 s [[Ht (D&B&Hw)] Hs]. pose proof (dw_blocks _ _ _ Hw) as Hb.
  destruct (rep_size _ _ (dw_table _ _ _ Hw)) as (kd&Hkd&Hld). destruct (rep_size _ _ (bw_table _ _ _ _ Hb)) as (kb&Hkb&Hlb).
  pose proof (bw_phys _ _ _ _ Hb) as Hp. pose proof (bw_shape _ _ _ _ Hb) as Hso. pose proof (ph_cap _ _ _ _ _ Hp) as Hpc.
  unfold reset_kv_generation, reset_backing_blocks. wp_steps.
  assert (exists h l, backing_ok (backing_block_capacity s) h l ∅ /\
    (backing_block_free_next s = None /\ l = None /\ h = KV_INVALID_BLOCK_INDEX \/
     exists ls, backing_block_free_next s = Some ls /\ l = Some (free_chain (backing_block_capacity s) (length ls)) /\ h = 0)) as (h&l&Hbk&Hcase).
  { pose proof (bw_back _ _ _ _ Hb) as Hbk. destruct (backing_block_free_next s) as [ls|] eqn:Hls; cbn [backing_ok] in Hbk.
    - destruct Hbk as (Hcap&Hlen&_). eexists 0, _. split; [|right; eauto]. rewrite <-Hlen in *. by apply backing_initial.
    - destruct Hbk as [Hcap _]. exists KV_INVALID_BLOCK_INDEX, None. split; [|by left]. split; [done|]. intros k i Hk. by rewrite lookup_empty in Hk. }
  match goal with |- stays s0 ?x => set (s' := x) end.
  assert (free_backing_block_head s' = h /\ backing_block_free_next s' = l) as [Hh' Hl'].
  { destruct Hcase as [(Hn&->&->)|(ls&Hn&->&->)]; subst s'; cbn; rewrite Hn; done. }
  assert (backing_block_capacity s' = backing_block_capacity s /\ physical_block_capacity s' = physical_block_capacity s /\
    block_entry_capacity s' = block_entry_capacity s /\ directory_capacity s' = directory_capacity s) as (Hbc'&Hpc'&Hec'&Hdc').
  { destruct Hcase as [(Hn&_)|(ls&Hn&_)]; subst s'; cbn; rewrite Hn; done. }
  assert (directory_entries s' = fill entry_default (directory_entries s) /\ block_entries s' = fill entry_default (block_entries s) /\
    physical_block_keys s' = fill empty_key (physical_block_keys s) /\ physical_block_states s' = fill KV_ENTRY_MISSING (physical_block_states s))
    as (Hde'&Hbe'&Hpk'&Hps').
  { destruct Hcase as [(Hn&_)|(ls&Hn&_)]; subst s'; cbn; rewrite Hn; done. }
  assert (physical_block_last_used_epochs s' = fill 0 (physical_block_last_used_epochs s) /\
    physical_block_pin_counts s' = fill 0 <$> physical_block_pin_counts s /\ swap_hooks s' = swap_hooks s) as (Hep'&Hpi'&Hho').
  { destruct Hcase as [(Hn&_)|(ls&Hn&_)]; subst s'; cbn; rewrite Hn; done. }
  assert (settings s' = settings s) as Hse'.
  { destruct Hcase as [(Hn&_)|(ls&Hn&_)]; subst s'; unfold settings; cbn; rewrite Hn; cbn; rewrite !fill_replicate, !length_replicate; done. }
  apply (stays_settings s0 s s' ∅ ∅); [split; [split; eauto|done]| |done].
  apply (pristine_wf s' kd kb); try done.
  - rewrite Hde', fill_replicate. f_equal. lia.
  - rewrite Hdc', <-(dw_length _ _ _ Hw). done.
  - rewrite Hbe', fill_replicate. f_equal. lia.
  - apply (shape_ok_eq s); [|done]. unfold shape. rewrite Hec', Hpc', Hbc', Hep', Hpi', Hho', Hbe'.
    rewrite !fill_replicate, !length_replicate. destruct (physical_block_pin_counts s) as [pins|]; cbn; [|done].
    by rewrite fill_replicate, length_replicate.
  - rewrite Hpk', Hps', !fill_replicate, Hpc'. pose proof (ph_keys _ _ _ _ _ Hp). pose proof (ph_states _ _ _ _ _ Hp).
    replace (length (physical_block_states s)) with (length (physical_block_keys s)) by lia. by apply phys_initial.
  - by rewrite Hbc', Hh', Hl'.
  - rewrite Hpc'. change (next_physical_block_index s') with 0. lia.
  - unfold block_limit. rewrite Hbc', Hpc'. pose proof (bw_size _ _ _ _ Hb) as Hsz. unfold block_limit in Hsz. lia.
Qed.

Lemma keeps_advance g : keeps (advance_kv_generation g).
Proof.
  apply keeps_if; [apply keeps_throw|]. apply keeps_gets. intros s0 s.
  apply keeps_if; [apply keeps_throw|]. apply keeps_if; [apply keeps_reset|apply keeps_ret].
Qed.

Lemma keeps_select p : keeps (select_kv_generation p).
Proof. apply keeps_catch; [apply keeps_advance|]. intros e. case_bool_decide; apply keeps_throw. Qed.

(** ** Pins and transient blocks *)

Lemma stays_pins s0 s pins n v :
  stays s0 s -> physical_block_pin_counts s = Some pins -> stays s0 (s <| physical_block_pin_counts := Some (<[n := v]> pins) |>).
Proof.
  intros Hs Hp. pose proof Hs as [[_ (D&B&Hw)] _]. apply (stays_settings s0 s _ D B); [done| |done].
  apply (directory_wf_core s); try done. apply (blocks_wf_owner s _ _ B (owners B)); try done; [apply Hw| |apply Hw].
  unfold shape. cbn. by rewrite Hp, length_insert.
Qed.

Lemma wf_pins s pins D B : directory_wf s D B -> physical_block_pin_counts s = Some pins ->
  Z.of_nat (length pins) = physical_block_capacity s /\ Z.of_nat (length (physical_block_keys s)) = physical_block_capacity s /\
  Z.of_nat (length (physical_block_states s)) = physical_block_capacity s.
Proof.
  intros Hw Hp. pose proof (dw_blocks _ _ _ Hw) as Hb. split; [by apply (so_pins _ (bw_shape _ _ _ _ Hb))|].
  split; [apply (ph_keys _ _ _ _ _ (bw_phys _ _ _ _ Hb))|apply (ph_states _ _ _ _ _ (bw_phys _ _ _ _ Hb))].
Qed.

Lemma keeps_pin i : 0 <= i -> keeps (pin_physical_block i).
Proof.
  intros Hi0. apply keeps_gets. intros s0 s Hs. pose proof Hs as [[_ (D&B&Hw)] _].
  pose proof (ph_keys _ _ _ _ _ (bw_phys _ _ _ _ (dw_blocks _ _ _ Hw))) as Hk. wp_steps.
  destruct (Z.leb_spec (physical_block_capacity s) i) as [|Hi]; [by wp_steps|].
  destruct (lookup_Some_range (physical_block_keys s) i) as [k Hki]; [lia|]. wp_steps. destruct (key_is_empty k); [by wp_steps|].
  destruct (physical_block_pin_counts s) as [pins|] eqn:Hp; unfold some_or; [|by wp_steps]. wp_steps.
  destruct (wf_pins s pins D B Hw Hp) as (Hlen&_). destruct (lookup_Some_range pins i) as [n Hn]; [lia|]. wp_steps.
  destruct (n =? U32_MAX); wp_steps; [done|by apply stays_pins].
Qed.

Lemma keeps_unpin i : 0 <= i -> keeps (unpin_physical_block i).
Proof.
  intros Hi0. apply keeps_gets. intros s0 s Hs. pose proof Hs as [[_ (D&B&Hw)] _].
  destruct (Z.leb_spec (physical_block_capacity s) i) as [|Hi]; [by wp_steps|].
  destruct (physical_block_pin_counts s) as [pins|] eqn:Hp; unfold some_or; wp_steps; [|done].
  destruct (wf_pins s pins D B Hw Hp) as (Hlen&_). destruct (lookup_Some_range pins i) as [n Hn]; [lia|]. wp_steps.
  destruct (n =? 0); wp_steps; [done|by apply stays_pins].
Qed.

Lemma keeps_acquire_transient : keeps acquire_transient_physical_block.
Proof.
  apply keeps_gets. intros s0 s Hs. pose proof Hs as [[_ (D&B&Hw)] _]. case_bool_decide as Hpins; cbn [negb]; [|by wp_steps].
  destruct Hpins as [pins Hp]. wp_steps. eapply wp_mono; [apply (acquire_spec s _ B _ (dw_blocks _ _ _ Hw))|..].
  - intros i s1 (B1&Hb1&Hsw&Hf). pose proof Hf as [Hi Hki]. rewrite <-(swept_owners _ _ _ _ Hsw) in Hb1.
    pose proof (directory_moves _ _ _ _ _ Hw (sw_rest _ _ _ _ Hsw) Hb1) as Hw1.
    assert (stays s0 s1) as Hs1 by (eapply stays_frame; [done|exact Hw1|apply rest_frame, Hsw]).
    assert (physical_block_pin_counts s1 = Some pins) as Hp1 by (rewrite (rest_pins _ _ (sw_rest _ _ _ _ Hsw)); done).
    destruct (wf_pins s1 pins D B1 Hw1 Hp1) as (Hlen&_). destruct (lookup_Some_range pins i) as [n Hn]; [lia|].
    pose proof (allocated_range _ _ _ _ Hb1) as Hal.
    wp_steps. eapply (wp_assign i _ _ _ _ s1); [exact Hb1|done|]. wp_steps. cbn [id].
    match goal with |- context [some_or _ (physical_block_pin_counts ?x)] => set (s2 := x) end.
    change (physical_block_pin_counts s2) with (physical_block_pin_counts s1). rewrite Hp1. unfold some_or. wp_steps.
    apply (stays_pins s0 s2); [|done]. apply (stays_settings s0 s1 s2 D B1); [done| |done].
    apply (directory_wf_core s1); try done. pose proof Hb1 as []. assert (shape s2 = shape s1) as Hsh by (unfold shape; cbn; by rewrite length_insert).
    split; try done; [by apply (shape_ok_eq s1)|].
    enough (phys_ok (physical_block_capacity s1) (<[Z.to_nat i := private_key U64_MAX i]> (physical_block_keys s1))
      (<[Z.to_nat i := KV_ENTRY_TRANSIENT]> (physical_block_states s1)) (resident B1) (allocated_physical_block_count s1 +u32 1)) as He by exact He.
    rewrite u32_small by lia. by apply phys_transient_assign.
  - intros e s1 (B1&Hb1&Hsw). rewrite <-(swept_owners _ _ _ _ Hsw) in Hb1.
    eapply stays_frame; [exact Hs|exact (directory_moves _ _ _ _ _ Hw (sw_rest _ _ _ _ Hsw) Hb1)|apply rest_frame, Hsw].
Qed.

Lemma keeps_release_transient i : 0 <= i -> keeps (release_transient_physical_block i).
Proof.
  intros Hi0. apply keeps_gets. intros s0 s Hs. pose proof Hs as [[_ (D&B&Hw)] _]. pose proof (dw_blocks _ _ _ Hw) as Hb. wp_steps.
  destruct (Z.leb_spec (physical_block_capacity s) i) as [|Hi]; [by wp_steps|].
  destruct (phys_lookup _ _ _ _ i Hb ltac:(lia)) as ([k Hk]&[u Hu]&[st Hst]). wp_steps.
  destruct (Z.eqb_spec st KV_ENTRY_TRANSIENT) as [->|]; cbn [negb]; [|by wp_steps]. wp_steps.
  match goal with |- wp (if ?g then _ else _) _ _ _ => destruct g eqn:Hg end; [by wp_steps|]. rewrite orb_false_iff, Z.eqb_neq in Hg.
  destruct (physical_block_pin_counts s) as [pins|] eqn:Hp; unfold some_or; [|by wp_steps]. wp_steps.
  destruct (wf_pins s pins D B Hw Hp) as (Hlen&_). destruct (lookup_Some_range pins i) as [n Hn]; [lia|]. wp_steps.
  destruct (negb (n =? 1)); [by wp_steps|]. wp_steps. unfold kv_clear_physical_block. eapply wp_set_physical; [exact Hk|exact Hu|exact Hst|]. wp_steps.
  pose proof (allocated_range _ _ _ _ Hb) as Hal.
  match goal with |- stays s0 ?x => set (s2 := x) end. apply (stays_settings s0 s s2 D B); [done| |done].
  apply (directory_wf_core s); try done. pose proof Hb as [].
  assert (shape s2 = shape s) as Hsh by (unfold shape; cbn; by rewrite !length_insert, Hp).
  split; try done; [by apply (shape_ok_eq s)|].
  enough (phys_ok (physical_block_capacity s) (<[Z.to_nat i := empty_key]> (physical_block_keys s))
    (<[Z.to_nat i := KV_ENTRY_MISSING]> (physical_block_states s)) (resident B) (allocated_physical_block_count s -u32 1)) as He by exact He.
  rewrite u32_small by lia. by apply phys_transient_clear.
Qed.

(** ** Packets *)

Section packet.
Context (c : WorkControlConfig) (p : WorkControlPacket).
Context (Hp : packet_words c p) (Hc : config_ok c) (Htok : kv_block_tokens c <> 0).

Definition lane_blocks (lane : WorkControlLane) : Z := block_count (context_token_count lane) (block_token_count p).

(** What [validate_kv_state] establishes. *)
Record fits_packet s : Prop := {
  fp_lanes : Z.of_nat (length (lanes p)) = active_sequence_count p;
  fp_block : 0 < block_token_count p <= U32_MAX;
  fp_active : 0 <= active_sequence_count p <= lane_capacity s;
  fp_blocks : max_blocks_per_sequence p <= lane_stride s;
}.

Lemma packet_range : 0 <= block_token_count p <= U32_MAX /\ 0 <= active_sequence_count p <= U32_MAX.
Proof. destruct Hp as (Hw&_). rewrite !Forall_cons in Hw. unfold word32 in Hw. tauto. Qed.

Lemma validate_kv_spec s :
  lane_capacity s <= max_active_sequence_count c ->
  wp (validate_kv_state p c) (fun _ s' => s' = s /\ fits_packet s) (fun _ s' => s' = s) s.
Proof.
  intros Hcap. unfold validate_kv_state. wp_steps. cbn [id].
  match goal with |- wp (if ?g then _ else _) _ _ _ => destruct g end; [by wp_steps|].
  match goal with |- wp (if ?g then _ else _) _ _ _ => destruct g end; [by wp_steps|]. wp_steps.
  eapply wp_mono; [apply (validate_packet_calm c p Hp Hc Htok (lane_capacity s) U32_MAX Hcap)| |intros e s' ->; by wp_steps].
  intros [] s' (->&Hn&Hb). match goal with |- wp (if ?g then _ else _) _ _ _ => destruct g eqn:Hg end; [by wp_steps|]. wp_steps.
  rewrite !orb_false_iff, negb_false_iff, Z.eqb_eq, !Z.ltb_ge in Hg. destruct (packet_lengths c p Hp Hc) as (_&_&Hl&_). pose proof packet_range.
  split; [done|]. split; try lia.
Qed.

Lemma packet_lane s i : fits_packet s -> 0 <= i < active_sequence_count p -> exists lane, lanes p !! Z.to_nat i = Some lane /\ lane_words c lane.
Proof.
  intros Hf Hi. destruct (lookup_Some_range (lanes p) i) as [lane Hl]; [rewrite (fp_lanes _ Hf); lia|]. exists lane. split; [done|].
  destruct Hp as (_&_&_&_&[_ Hls]). apply (Forall_lookup_1 _ _ _ _ Hls Hl).
Qed.

Lemma fits_settings s s' : settings s' = settings s -> fits_packet s -> fits_packet s'.
Proof. intros [= Hcap Hst _ _ _ _ _ _] []. split; rewrite ?Hcap, ?Hst; done. Qed.

Lemma stays_fits s0 s : stays s0 s -> fits_packet s0 -> fits_packet s.
Proof. intros [_ Hs]. by apply fits_settings. Qed.

(** [for lane_index in 0..active]: every lane exists. *)
Lemma keeps_lanes {A} s0 s n (body : Z -> A -> M (KvState H) WorkControlError A) a :
  stays s0 s -> fits_packet s0 -> n <= active_sequence_count p ->
  (forall i lane a s, lanes p !! Z.to_nat i = Some lane -> stays s0 s -> wp (body i a) (fun _ => stays s0) (fun _ => stays s0) s) ->
  wp (for_fold (range 0 n) body a) (fun _ => stays s0) (fun _ => stays s0) s.
Proof.
  intros Hs Hf Hn Hb. apply (wp_for_fold (fun _ _ s' => stays s0 s')); [done|].
  intros pre i post a' s' [_ Hi]%range_split Hs'. destruct (packet_lane s0 i Hf ltac:(lia)) as (lane&Hl&_). by apply (Hb i lane).
Qed.

Lemma packet_op_keeps {A} s0 s (k : M (KvState H) WorkControlError A) :
  stays s0 s -> lane_capacity s0 <= max_active_sequence_count c ->
  (stays s0 s -> fits_packet s0 -> wp k (fun _ => stays s0) (fun _ => stays s0) s) ->
  wp (do! validate_kv_state p c in k) (fun _ => stays s0) (fun _ => stays s0) s.
Proof.
  intros Hs Hcap Hk. pose proof Hs as [_ Hset]. apply wp_bind. eapply wp_mono; [apply (validate_kv_spec s)|..].
  - by injection Hset as -> _.
  - intros _ s' [-> Hf]. apply Hk; [done|]. by apply (fits_settings s).
  - intros e s' ->. done.
Qed.

Lemma cancel_keeps s0 s : stays s0 s -> lane_capacity s0 <= max_active_sequence_count c ->
  wp (cancel_host_kv_block_table p c) (fun _ => stays s0) (fun _ => stays s0) s.
Proof.
  intros Hs Hcap. apply packet_op_keeps; [done|done|]. intros _ Hf. wp_steps.
  match goal with |- wp (if ?g then _ else _) _ _ _ => destruct g end; [by wp_steps|].
  apply keeps_lanes; [done|done|lia|]. intros i lane [] s' Hl Hs'. unfold cancel_lane. wp_steps.
  match goal with |- wp (if ?g then _ else _) _ _ _ => destruct g end; [by wp_steps|].
  apply (keeps_for_fold _ _ tt); [|done]. intros b u _. apply keeps_cancel_block.
Qed.

Lemma release_keeps s0 s : stays s0 s -> lane_capacity s0 <= max_active_sequence_count c ->
  wp (release_packet_sequences p c) (fun _ => stays s0) (fun _ => stays s0) s.
Proof.
  intros Hs Hcap. apply packet_op_keeps; [done|done|]. intros _ Hf.
  match goal with |- wp (if ?g then _ else _) _ _ _ => destruct g end; [by wp_steps|]. wp_steps.
  match goal with |- wp (if ?g then _ else _) _ _ _ => destruct g end; [by wp_steps|]. wp_steps.
  eapply wp_mono; [by apply (keeps_select p s0)| |intros ?? H'; exact H']. intros [] s1 Hs1.
  apply keeps_lanes; [done|done| |].
  - destruct (packet_lengths c p Hp Hc) as (_&_&Hl&_). rewrite <-Hl, (fp_lanes _ Hf). lia.
  - intros i lane [] s' Hl Hs'. wp_steps. by apply keeps_release_sequence.
Qed.

End packet.

Lemma collect_keeps c (Hc : config_ok c) (Htok : kv_block_tokens c <> 0) s0 s packets cap :
  stays s0 s -> lane_capacity s0 <= max_active_sequence_count c -> Forall (packet_words c) packets ->
  wp (collect_kv_prefetch_entries packets c cap) (fun _ => stays s0) (fun _ => stays s0) s.
Proof.
  intros Hs Hcap Hps. unfold collect_kv_prefetch_entries.
  match goal with |- wp (if ?g then _ else _) _ _ _ => destruct g end; [by wp_steps|]. wp_steps.
  match goal with |- wp _ _ _ ?x => set (s1 := x) end.
  assert (stays s0 s1) as Hs1.
  { pose proof Hs as [[_ (D&B&Hw)] _]. apply (stays_settings s0 s s1 D B); [done| |done]. apply (directory_wf_core s); try done.
    apply (blocks_wf_owner s _ _ B (owners B)); try done; apply Hw. }
  apply (wp_for_fold (fun _ _ s' => stays s0 s')); [done|].
  intros pre p post found s2 Heq Hs2. assert (packet_words c p) as Hp.
  { rewrite Heq in Hps. apply Forall_app in Hps as [_ Hps]. by apply Forall_cons in Hps as [? _]. }
  unfold prefetch_packet. apply (packet_op_keeps c p Hp Hc Htok); [done|done|]. intros _ Hf. wp_steps.
  match goal with |- wp (if ?g then _ else _) _ _ _ => destruct g end; [by wp_steps|].
  match goal with |- wp (if ?g then _ else _) _ _ _ => destruct g end; [by wp_steps|].
  apply (keeps_lanes c p Hp); [done|done|lia|]. intros i lane f s' Hl Hs'. unfold prefetch_lane. wp_steps.
  apply (keeps_for_fold _ _ f); [|done]. intros b u _. apply keeps_prefetch_block.
Qed.

End props.
