(* ===== verification/KvTable.v ===== *)
(** * The KV block table of a packet

    Building, committing and the lifecycle of the host block table a work packet is
    given, and the directory's properties over all its operations. *)

From S2P Require Import KvIndex Prelude FreeList WorkTransaction Wire WireProps WorkControl WorkControlProps PrefillPackets.
From S2P Require Import PacketSafety KvDirectory KvDirectoryInv KvDirectoryOps KvDirectoryRefs KvDirectoryProps.

Section table.
Context {H : Type} `{!KvSwapHooks H}.
Implicit Types (s : KvState H) (D : gmap KvKey KvDirectoryEntry) (B : gmap KvKey KvBlockEntry).

Section packet.
Context (c : WorkControlConfig) (p : WorkControlPacket).
Context (Hp : packet_words c p) (Hc : config_ok c) (Htok : kv_block_tokens c <> 0).
Abbreviation lane_blocks := (lane_blocks p).
Abbreviation fits_packet := (fits_packet p).

(** ** Committing *)

(** Every block of the first [n] lanes is on the GPU. *)
Definition lane_on_gpu D (gpu : gmap KvKey Z) (lane : WorkControlLane) (n : Z) : Prop :=
  forall b, 0 <= b < n -> exists d i, D !! private_key (l_sequence_id lane) b = Some d /\ gpu !! d_block_key d = Some i.

Definition lanes_on_gpu D gpu (n : Z) : Prop :=
  forall i lane, 0 <= i < n -> lanes p !! Z.to_nat i = Some lane -> lane_on_gpu D gpu lane (lane_blocks lane).

Lemma mark_lane_spec s D B st i lane :
  directory_wf s D B -> st <> KV_ENTRY_TRANSIENT -> lanes p !! Z.to_nat i = Some lane ->
  wp (mark_lane p st i)
    (fun _ s' => directory_wf s' D B /\ settings s' = settings s /\ lane_on_gpu D (resident B) lane (lane_blocks lane))
    (fun _ s' => directory_wf s' D B /\ settings s' = settings s) s.
Proof.
  intros Hw Hst Hl. unfold mark_lane. wp_steps. fold (lane_blocks lane).
  match goal with |- wp (if ?g then _ else _) _ _ _ => destruct g end; [by wp_steps|].
  eapply wp_mono; [apply (wp_for_fold (fun pre (_ : unit) s' => directory_wf s' D B /\ settings s' = settings s /\
    lane_on_gpu D (resident B) lane (Z.of_nat (length pre))) _ _ _
    (fun _ s' => directory_wf s' D B /\ settings s' = settings s))|..].
  - split_and!; try done. intros b Hb. cbn in Hb. lia.
  - intros pre b post [] s1 [-> Hb]%range_split (Hw1&Hs1&Hon). eapply wp_mono; [apply (mark_block_spec s1 D B _ st b Hw1 Hst)|..].
    + intros _ s2 (Hw2&Hs2&Hd). split_and!; [done|congruence|]. intros b' Hb'. rewrite length_app, length_range in Hb'. cbn in Hb'.
      destruct (decide (b' = b)) as [->|]; [done|]. apply Hon. rewrite length_range. lia.
    + intros e s2 ->. done.
  - intros [] s1 (Hw1&Hs1&Hon). split_and!; try done. intros b Hb. apply Hon. rewrite length_range. lia.
  - intros ?? H'. exact H'.
Qed.

Lemma mark_table_spec s D B st :
  table_ok s -> directory_wf s D B -> lane_capacity s <= max_active_sequence_count c -> st <> KV_ENTRY_TRANSIENT ->
  wp (mark_table p c st)
    (fun _ s' => directory_wf s' D B /\ settings s' = settings s /\ fits_packet s /\ lanes_on_gpu D (resident B) (active_sequence_count p))
    (fun _ s' => directory_wf s' D B /\ settings s' = settings s) s.
Proof.
  intros Ht Hw Hcap Hst. unfold mark_table. wp_steps. eapply wp_mono; [by apply (validate_kv_spec c p Hp Hc Htok s)| |by intros e s' ->].
  intros [] s' [-> Hf]. wp_steps. match goal with |- wp (if ?g then _ else _) _ _ _ => destruct g end; [by wp_steps|].
  eapply wp_mono; [apply (wp_for_fold (fun pre (_ : unit) s' => directory_wf s' D B /\ settings s' = settings s /\
    lanes_on_gpu D (resident B) (Z.of_nat (length pre))) _ _ _
    (fun _ s' => directory_wf s' D B /\ settings s' = settings s))|..].
  - split_and!; try done. intros i lane Hi. cbn in Hi. lia.
  - intros pre i post [] s1 [-> Hi]%range_split (Hw1&Hs1&Hon). destruct (packet_lane c p Hp s i Hf Hi) as (lane&Hl&_).
    eapply wp_mono; [apply (mark_lane_spec s1 D B st i lane Hw1 Hst Hl)|..].
    + intros _ s2 (Hw2&Hs2&Hd). split_and!; [done|congruence|]. intros i' lane' Hi' Hl'. rewrite length_app, length_range in Hi'. cbn in Hi'.
      destruct (decide (i' = i)) as [->|]; [by replace lane' with lane by congruence|]. apply (Hon i'); [|done]. rewrite length_range. lia.
    + intros e s2 [Hw2 Hs2]. split; [done|congruence].
  - intros [] s1 (Hw1&Hs1&Hon). split_and!; try done. intros i lane Hi. apply Hon. rewrite length_range. lia.
  - intros ?? H'. exact H'.
Qed.

(** The last block a write touches lies before the end of the context. *)
Lemma written_block lane write_end b :
  0 < block_token_count p -> 0 <= write_end < context_token_count lane -> b <= u32 (write_end / block_token_count p) -> b < lane_blocks lane.
Proof.
  intros Hbt Hwe Hb. unfold KvDirectoryProps.lane_blocks, block_count. rewrite !(proj2 (Z.eqb_neq _ _)) by lia. cbn [orb].
  assert (u32 (write_end / block_token_count p) <= write_end / block_token_count p) as Hu.
  { apply Z.mod_le; [apply Z.div_pos; lia|lia]. }
  pose proof (Z.mul_div_le write_end (block_token_count p) Hbt).
  destruct (div_ceil_spec (context_token_count lane) (block_token_count p)) as [[_ Hdc]|[Hz _]]; [lia|lia| |lia]. nia.
Qed.

Lemma dirty_lane_spec s D B i lane written :
  directory_wf s D B -> 0 < block_token_count p -> lanes p !! Z.to_nat i = Some lane -> lane_on_gpu D (resident B) lane (lane_blocks lane) ->
  wp (dirty_lane p written i)
    (fun _ s' => exists B', directory_wf s' D B' /\ settings s' = settings s /\ resident B' = resident B) (fun _ s' => s' = s) s.
Proof.
  intros Hw Hbt Hl Hon. unfold dirty_lane. wp_steps. set (we := l_sequence_position lane +u64 written -u64 1).
  pose proof (u64_range (l_sequence_position lane +u64 written - 1)) as Hwe. fold we in Hwe.
  destruct (Z.leb_spec (context_token_count lane) we) as [|Hlt]; [by wp_steps|].
  rewrite (proj2 (Z.eqb_neq (block_token_count p) 0)) by lia.
  eapply wp_mono; [apply (wp_for_fold (fun _ (_ : unit) s' => exists B', directory_wf s' D B' /\ settings s' = settings s /\ resident B' = resident B) _ _ _ (fun _ _ => False))|..].
  - exists B. done.
  - intros pre b post [] s1 [_ Hb]%range_split (B1&Hw1&Hs1&Hr1).
    pose proof (u32_range (l_sequence_position lane / block_token_count p)) as Hf.
    destruct (Hon b) as (d&j&Hd&Hj); [split; [lia|apply (written_block lane we); lia]|]. rewrite <-Hr1 in Hj.
    eapply wp_mono; [apply (dirty_block_spec s1 D B1 _ b d j Hw1 Hd Hj)| |intros ? ? []].
    intros _ s2 (B2&Hw2&Hs2&Hr2). exists B2. split_and!; [done|congruence|congruence].
  - intros [] s1 H1. exact H1.
  - intros ? ? [].
Qed.

Lemma commit_keeps s0 s : stays s0 s -> lane_capacity s0 <= max_active_sequence_count c ->
  wp (commit_host_kv_block_table p c) (fun _ => stays s0) (fun _ => stays s0) s.
Proof.
  intros Hs Hcap. pose proof Hs as [[Ht (D&B&Hw)] Hset]. unfold commit_host_kv_block_table. apply wp_bind.
  eapply wp_mono; [apply (mark_table_spec s D B KV_ENTRY_RESIDENT Ht Hw); [by injection Hset as -> _|done]|..].
  - intros [] s1 (Hw1&Hs1&Hf&Hon). match goal with |- wp (if ?g then _ else _) _ _ _ => destruct g end.
    { apply wp_throw. by eapply stays_settings. }
    pose proof (fp_block _ _ Hf) as Hbt.
    eapply wp_mono; [apply (wp_for_fold (fun _ (_ : unit) s' => exists B', directory_wf s' D B' /\ settings s' = settings s /\ resident B' = resident B) _ _ _
      (fun _ s' => exists B', directory_wf s' D B' /\ settings s' = settings s))|..].
    + exists B. done.
    + intros pre i post [] s2 [_ Hi]%range_split (B2&Hw2&Hs2&Hr2). destruct (packet_lane c p Hp s i Hf Hi) as (lane&Hl&_).
      eapply wp_mono; [apply (dirty_lane_spec s2 D B2 i lane)|..]; [done|lia|done|by rewrite Hr2; apply (Hon i)| |].
      * intros _ s3 (B3&Hw3&Hs3&Hr3). exists B3. split_and!; [done|congruence|congruence].
      * intros e s3 ->. eauto.
    + intros [] s2 (B2&Hw2&Hs2&_). by eapply stays_settings.
    + intros e s2 (B2&Hw2&Hs2). by eapply stays_settings.
  - intros e s1 [Hw1 Hs1]. by eapply stays_settings.
Qed.

(** ** Building *)

Lemma select_key_spec (Rr : WorkControlError -> KvState H -> Prop) s keys seq b stop frontier :
  (forall ks, keys = Some ks -> 0 <= b < Z.of_nat (length ks)) ->
  wp (kv_select_key keys seq b stop frontier) (fun k s' => s' = s /\ k <> empty_key) Rr s.
Proof.
  intros Hk. pose proof (private_key_nonempty seq b). unfold kv_select_key. destruct keys as [ks|]; [|by wp_steps].
  destruct (stop <=? frontier); [|by wp_steps]. destruct (lookup_Some_range ks b (Hk ks eq_refl)) as [k Hkb]. wp_steps.
  destruct (negb (key_is_empty k)); wp_steps; [|done]. split; [done|apply content_key_nonempty].
Qed.

Lemma lane_keys_length s i count ks :
  table_ok s -> 0 <= i < lane_capacity s -> 0 <= count <= U32_MAX -> kv_lane_keys s i count = Some ks -> Z.of_nat (length ks) = count.
Proof.
  intros Ht Hi Hcount. unfold kv_lane_keys. destruct (lane_block_keys s) as [keys|]; [|done].
  destruct (Z.ltb_spec (lane_block_key_stride s) count) as [|Hle]; [done|]. cbv zeta.
  pose proof (tk_sizes _ Ht). pose proof (tk_keys _ Ht).
  rewrite (u64_small (i * lane_block_key_stride s)) by nia. rewrite (u64_small (_ + count)) by nia.
  destruct (Z.leb_spec (i * lane_block_key_stride s) (i * lane_block_key_stride s + count)) as [_|]; cbn [andb]; [|done].
  destruct (Z.leb_spec (i * lane_block_key_stride s + count) (Z.of_nat (length keys))) as [Hle'|]; [|done].
  intros [= <-]. rewrite length_take, length_drop. nia.
Qed.

Lemma resolve_entry_spec s D B b count st :
  directory_wf s D B -> st <> KV_ENTRY_TRANSIENT ->
  wp (kv_resolve_entry_state p b count st) (fun st' s' => s' = s /\ st' <> KV_ENTRY_TRANSIENT)
    (fun _ s' => directory_wf s' D B /\ settings s' = settings s) s.
Proof.
  intros Hw Hst. unfold kv_resolve_entry_state. destruct (has_flag (p_flags p) FLAG_PREFILL).
  { wp_steps. split; [done|]. by destruct (st =? KV_ENTRY_MISSING). }
  match goal with |- wp (if ?g then _ else _) _ _ _ => destruct g end.
  { apply wp_bind. eapply wp_mono; [apply (directory_wf_readiness s D B st Hw)| |intros ? ? []]. intros _ s' (Hw'&_&Hs'&_). by wp_steps. }
  match goal with |- wp (if ?g then _ else _) _ _ _ => destruct g end; wp_steps; done.
Qed.

(** Table position [pos] holds the physical block of the record slot [dk] names, and
    that block is protected from eviction. *)
Definition table_row s D B (pos : Z) (dk : KvKey) : Prop :=
  exists d i, D !! dk = Some d /\ physical_block_indices s !! Z.to_nat pos = Some i /\ kept s B (d_block_key d) i.

Definition rows_ok s D B (rows : list (Z * KvKey)) : Prop := forall pos dk, (pos, dk) ∈ rows -> table_row s D B pos dk.

(** The state while a table is built; [E] is the epoch of the build, [L] the row lengths. *)
Record building s0 (E : Z) (L : list Z) s D B rows : Prop := {
  bd_wf : directory_wf s D B;
  bd_settings : settings s = settings s0;
  bd_epoch : epoch s = E;
  bd_counts : lane_physical_block_counts s = L;
  bd_rows : rows_ok s D B rows;
}.

Lemma frame_fields s s' : frame s' = frame s -> epoch s' = epoch s /\ physical_block_indices s' = physical_block_indices s /\
  lane_physical_block_counts s' = lane_physical_block_counts s.
Proof. by intros [=]. Qed.

Lemma acquired_rows s D B s' D' B' dk rows :
  frame s' = frame s -> neighbours dk s D B s' D' B' -> (forall pos' dk', (pos', dk') ∈ rows -> dk' <> dk) ->
  rows_ok s D B rows -> rows_ok s' D' B' rows.
Proof.
  intros Hf [Hd Hk] Hfresh Hr pos dk' Hin. destruct (Hr pos dk' Hin) as (d&i&Hdd&Hi&Hkept). destruct (frame_fields _ _ Hf) as (_&Hix&_).
  pose proof (Hfresh _ _ Hin). exists d, i. rewrite Hd, Hix by done. split_and!; [done|done|]. by apply (Hk dk').
Qed.

Lemma build_block_spec s0 E L s D B rows lane keys base count b stop :
  let dk := private_key (l_sequence_id lane) b in
  building s0 E L s D B rows -> (forall ks, keys = Some ks -> Z.of_nat (length ks) = count) -> 0 <= b < count -> 0 <= base ->
  base + b < Z.of_nat (length (physical_block_indices s)) -> base + b <= U64_MAX ->
  (forall pos' dk', (pos', dk') ∈ rows -> Z.to_nat pos' <> Z.to_nat (base + b) /\ dk' <> dk) ->
  wp (build_block p lane keys base count b stop)
    (fun _ s' => exists D' B', building s0 E L s' D' B' (rows ++ [(base + b, dk)]))
    (fun _ s' => exists D' B', directory_wf s' D' B' /\ settings s' = settings s0) s.
Proof.
  intros dk Hbd Hkeys Hb Hbase Hpos Hp64 Hfresh. unfold build_block. wp_steps.
  eapply wp_mono; [apply (select_key_spec (fun _ _ => False)); intros ks Hks; rewrite (Hkeys ks Hks); done| |intros ? ? []].
  intros key s1 [-> Hne]. wp_steps.
  eapply wp_mono; [apply (directory_acquire_spec s D B (l_sequence_id lane) b key (bd_wf _ _ _ _ _ _ _ Hbd) Hne)|..].
  2: { intros e s1 (D1&B1&Hw1&Hf1). exists D1, B1. split; [done|]. rewrite (frame_settings _ _ Hf1). apply Hbd. }
  intros i s1 (D1&B1&d&Hw1&Hf1&Hn1&Hd1&_&Hr1&Hcur1). fold dk in Hn1, Hd1.
  pose proof (acquired_rows _ _ _ _ _ _ _ rows Hf1 Hn1 (fun pos' dk' Hin => proj2 (Hfresh pos' dk' Hin)) (bd_rows _ _ _ _ _ _ _ Hbd)) as Hrows1.
  destruct (frame_fields _ _ Hf1) as (Hep1&Hix1&Hlc1). pose proof (frame_settings _ _ Hf1) as Hs1.
  destruct (ph_gpu _ _ _ _ _ (bw_phys _ _ _ _ (dw_blocks _ _ _ Hw1)) _ i Hr1) as (Hi&_&_&Hnt).
  destruct (phys_lookup _ _ _ _ i (dw_blocks _ _ _ Hw1) Hi) as (_&_&[st Hst]). wp_steps.
  eapply wp_mono; [apply (resolve_entry_spec s1 D1 B1 b count st Hw1); congruence|..].
  2: { intros e s2 [Hw2 Hs2]. exists D1, B1. split; [done|]. rewrite Hs2, Hs1. apply Hbd. }
  intros st' s2 [-> Hst']. wp_steps. pose proof (directory_wf_state s1 D1 B1 _ i st' Hw1 Hr1 Hst') as Hw2.
  match goal with |- wp _ _ _ ?x => set (s2 := x) in * end.
  eapply wp_mono; [apply (directory_wf_readiness s2 D1 B1 st' Hw2)| |intros ? ? []].
  intros [] s3 (Hw3&Hk3&Hs3&Hix3&Hlc3&Hep3). change (physical_block_indices s2) with (physical_block_indices s1) in Hix3.
  assert (base +u64 b = base + b) as -> by (apply u64_small; lia).
  destruct (lookup_Some_range (physical_block_indices s3) (base + b)) as [old Hold]; [rewrite Hix3, Hix1; lia|]. wp_steps.
  exists D1, B1. split.
  - apply (directory_wf_core s3); try done. apply (blocks_wf_owner s3 _ _ B1 (owners B1)); try done; apply Hw3.
  - transitivity (settings s3); [unfold settings; cbn; by rewrite length_insert|]. rewrite Hs3. transitivity (settings s1); [done|].
    rewrite Hs1. apply Hbd.
  - transitivity (epoch s3); [done|]. rewrite Hep3. transitivity (epoch s1); [done|]. rewrite Hep1. apply Hbd.
  - transitivity (lane_physical_block_counts s3); [done|]. rewrite Hlc3. transitivity (lane_physical_block_counts s1); [done|]. rewrite Hlc1. apply Hbd.
  - intros pos dk' [Hin|Hin]%elem_of_app.
    + destruct (Hrows1 pos dk' Hin) as (d'&i'&Hd'&Hi'&Hkept'). exists d', i'. split; [done|]. split; [|by apply Hk3].
      cbn. rewrite list_lookup_insert_ne; [by rewrite Hix3|]. intros Heq. by destruct (Hfresh _ _ Hin) as [[] _].
    + apply list_elem_of_singleton in Hin. injection Hin as -> ->. exists d, i. split; [done|]. split.
      * cbn. apply list_lookup_insert_eq. rewrite Hix3, Hix1. lia.
      * apply Hk3. split; [done|by left].
Qed.

(** The rows of one lane and of the first [n] lanes: table positions and directory slots. *)
Definition lane_rows (stride i : Z) (lane : WorkControlLane) (bs : list Z) : list (Z * KvKey) :=
  (fun b => (i * stride + b, private_key (l_sequence_id lane) b)) <$> bs.

Definition packet_rows (stride n : Z) : list (Z * KvKey) :=
  concat ((fun i => match lanes p !! Z.to_nat i with
                    | Some lane => lane_rows stride i lane (range 0 (lane_blocks lane)) | None => [] end) <$> range 0 n).

(** Rows are tracked when the packet's directory slots are distinct. *)
Definition tracked (t : bool) (rows : list (Z * KvKey)) : list (Z * KvKey) := if t then rows else [].

Lemma building_weaken s0 E L s D B rows rows' t : building s0 E L s D B rows' -> (t = true -> rows' = rows) -> building s0 E L s D B (tracked t rows).
Proof. intros [] Heq. destruct t; [by rewrite <-Heq|]. split; try done. intros ? ? []%not_elem_of_nil. Qed.

Lemma lane_blocks_nonneg s i lane : fits_packet s -> 0 <= i < active_sequence_count p -> lanes p !! Z.to_nat i = Some lane -> 0 <= lane_blocks lane.
Proof.
  intros Hf Hi Hl. unfold KvDirectoryProps.lane_blocks, block_count. destruct (_ || _) eqn:Hz; [done|]. rewrite orb_false_iff, !Z.eqb_neq in Hz.
  destruct (packet_lane c p Hp s i Hf Hi) as (lane'&Hl'&Hw). assert (lane' = lane) as -> by congruence.
  destruct Hw as (_&Hw&_). rewrite !Forall_cons in Hw. unfold word32 in Hw. pose proof (fp_block _ _ Hf).
  destruct (div_ceil_spec (context_token_count lane) (block_token_count p)) as [[??]|[??]]; [tauto|lia|nia|lia].
Qed.

(** The next row of a lane is at a new position and names a new slot. *)
Lemma fresh_row stride i lane rows pre post n b pos dk :
  range 0 n = pre ++ b :: post -> 0 <= i * stride -> NoDup (snd <$> rows ++ lane_rows stride i lane (range 0 n)) ->
  (forall pos dk, (pos, dk) ∈ rows -> 0 <= pos < i * stride) -> (pos, dk) ∈ rows ++ lane_rows stride i lane pre ->
  Z.to_nat pos <> Z.to_nat (i * stride + b) /\ dk <> private_key (l_sequence_id lane) b.
Proof.
  intros Hsplit Hbase Hnd Hlow Hin. destruct (range_split _ _ _ _ _ Hsplit) as [Hpre Hb]. split.
  - apply elem_of_app in Hin as [Hin|Hin]; [pose proof (Hlow _ _ Hin); lia|]. unfold lane_rows in Hin.
    apply list_elem_of_fmap in Hin as (b'&[= -> _]&Hb'). rewrite Hpre in Hb'. apply elem_of_range in Hb'. lia.
  - intros ->. unfold lane_rows in *. rewrite Hsplit, !fmap_app, app_assoc, NoDup_app in Hnd. destruct Hnd as (_&Hd&_).
    apply (Hd (private_key (l_sequence_id lane) b)).
    + rewrite <-fmap_app. apply list_elem_of_fmap. by exists (pos, private_key (l_sequence_id lane) b).
    + rewrite !fmap_cons. apply list_elem_of_here.
Qed.

Lemma kv_build_lane_spec s0 E L s D B t rows i lane :
  table_ok s0 -> fits_packet s0 -> building s0 E L s D B (tracked t rows) -> lanes p !! Z.to_nat i = Some lane ->
  0 <= i < active_sequence_count p ->
  (t = true -> NoDup (snd <$> rows ++ lane_rows (lane_stride s0) i lane (range 0 (lane_blocks lane)))) ->
  (forall pos dk, (pos, dk) ∈ rows -> 0 <= pos < i * lane_stride s0) ->
  wp (kv_build_lane p i)
    (fun _ s' => exists D' B', building s0 E (<[Z.to_nat i := lane_blocks lane]> L) s' D' B'
       (tracked t (rows ++ lane_rows (lane_stride s0) i lane (range 0 (lane_blocks lane)))) /\ 0 < lane_blocks lane <= lane_stride s0)
    (fun _ s' => exists D' B', directory_wf s' D' B' /\ settings s' = settings s0) s.
Proof.
  intros Ht Hf Hbd Hl Hi Hnd Hlow. pose proof (bd_settings _ _ _ _ _ _ _ Hbd) as Hset. pose proof (table_ok_eq _ _ Hset Ht) as Hts.
  assert (exists D' B', directory_wf s D' B' /\ settings s = settings s0) as Hsame by (exists D, B; split; [apply Hbd|done]).
  pose proof Hset as Hset'. injection Hset' as Hcap Hst Htab _ _ _ Hlix Hllc.
  pose proof (tk_sizes _ Ht). pose proof (tk_fits _ Ht). pose proof (tk_capacity _ Ht). pose proof (fp_active _ _ Hf). pose proof (fp_blocks _ _ Hf).
  unfold kv_build_lane. wp_steps. fold (lane_blocks lane).
  match goal with |- wp (if ?g then _ else _) _ _ _ => destruct g eqn:Hg end; [by wp_steps|].
  rewrite orb_false_iff, Z.eqb_neq, Z.ltb_ge in Hg. destruct Hg as [Hc0 Hcb]. pose proof (lane_blocks_nonneg s0 i lane Hf Hi Hl) as Hcn.
  wp_steps. cbn [id]. rewrite Hst. rewrite (u64_small (i * lane_stride s0)) by nia. rewrite (u64_small (_ + _)) by nia.
  match goal with |- wp (if ?g then _ else _) _ _ _ => destruct g eqn:Hg end; [by wp_steps|]. rewrite Z.ltb_ge in Hg.
  destruct (lookup_Some_range (lane_physical_block_counts s) i) as [old Hold]; [rewrite (tk_lanes _ Hts); lia|]. wp_steps.
  match goal with |- wp _ _ _ ?x => set (s1 := x) end. set (keys := kv_lane_keys s i (lane_blocks lane)).
  assert (forall ks, keys = Some ks -> Z.of_nat (length ks) = lane_blocks lane) as Hkeys.
  { intros ks Hks. apply (lane_keys_length s i); try done; lia. }
  assert (building s0 E (<[Z.to_nat i := lane_blocks lane]> L) s1 D B (tracked t rows)) as Hbd1.
  { destruct Hbd. split; try done.
    - apply (directory_wf_core s); try done. apply (blocks_wf_owner s _ _ B (owners B)); try done; apply bd_wf0.
    - rewrite <-bd_settings0. unfold settings. cbn. by rewrite length_insert.
    - subst L. done. }
  eapply wp_mono; [apply (wp_for_fold (fun pre (_ : Z) s' => exists D' B', building s0 E (<[Z.to_nat i := lane_blocks lane]> L) s' D' B'
    (tracked t (rows ++ lane_rows (lane_stride s0) i lane pre))) _ _ _ (fun _ s' => exists D' B', directory_wf s' D' B' /\ settings s' = settings s0))|..].
  - exists D, B. by rewrite app_nil_r.
  - intros pre b post stop s2 Hsplit (D2&B2&Hbd2). pose proof (range_split _ _ _ _ _ Hsplit) as [Hpre Hb].
    assert (length (physical_block_indices s2) = length (physical_block_indices s0)) as Hlen2.
    { pose proof (bd_settings _ _ _ _ _ _ _ Hbd2) as Hs2. by injection Hs2. }
    eapply wp_mono; [apply (build_block_spec s0 E _ s2 D2 B2 _ lane keys (i * lane_stride s0) (lane_blocks lane) b stop Hbd2 Hkeys)|..].
    + done.
    + nia.
    + rewrite Hlen2, (tk_indices _ Ht). lia.
    + lia.
    + intros pos dk' Hin. destruct t; cbn [tracked] in Hin; [|by apply not_elem_of_nil in Hin].
      apply (fresh_row (lane_stride s0) i lane rows pre post (lane_blocks lane) b); try done; [nia|by apply Hnd].
    + intros stop' s3 (D3&B3&Hbd3). exists D3, B3. eapply building_weaken; [exact Hbd3|]. intros ->. cbn [tracked].
      unfold lane_rows. by rewrite fmap_app, app_assoc.
    + intros ?? H'. exact H'.
  - intros stop s2 (D2&B2&Hbd2). wp_steps. exists D2, B2. split; [done|lia].
  - intros ?? H'. exact H'.
Qed.

(** ** Admission reads only *)

Lemma count_lane_spec s D B i lane acc :
  table_ok s -> directory_wf s D B -> fits_packet s -> 0 <= i < active_sequence_count p -> lanes p !! Z.to_nat i = Some lane ->
  wp (count_lane p i acc) (fun _ s' => s' = s) (fun _ s' => s' = s) s.
Proof.
  intros Ht Hw Hf Hi Hl. pose proof (lane_blocks_nonneg s i lane Hf Hi Hl). pose proof (fp_active _ _ Hf). pose proof (fp_blocks _ _ Hf).
  pose proof (tk_sizes _ Ht). unfold count_lane. destruct acc as [n m]. wp_steps. fold (lane_blocks lane). cbn [id].
  match goal with |- wp (if ?g then _ else _) _ _ _ => destruct g eqn:Hg end; [by wp_steps|]. rewrite !orb_false_iff, !Z.ltb_ge in Hg.
  wp_steps. eapply wp_mono; [apply (wp_for_fold (fun _ _ s' => s' = s) _ _ _ (fun _ s' => s' = s))|..].
  - done.
  - intros pre b post [[n' m'] stop] s' [_ Hb]%range_split ->. unfold count_block. wp_steps.
    apply (wp_find_directory (l_sequence_id lane) b _ _ s D B Hw).
    all: intros; wp_steps; (eapply wp_mono; [apply (select_key_spec (fun _ _ => False));
      intros ks Hks; apply lane_keys_length in Hks; try done; lia| |intros ? ? []]);
      intros k s' [-> Hk]; wp_steps; apply (wp_find_block k _ _ s _ B _ (dw_blocks _ _ _ Hw) Hk); intros; by wp_steps.
  - intros r s' ->. by wp_steps.
  - intros ?? H'. exact H'.
Qed.

Lemma admit_spec s D B : table_ok s -> directory_wf s D B -> fits_packet s ->
  wp (kv_admit_packet p) (fun _ s' => s' = s) (fun _ s' => s' = s) s.
Proof.
  intros Ht Hw Hf. unfold kv_admit_packet. wp_steps.
  eapply wp_mono; [apply (wp_for_fold (fun _ _ s' => s' = s) _ _ _ (fun _ s' => s' = s))| |intros ?? H'; exact H'].
  - done.
  - intros pre i post total s' [_ Hi]%range_split ->. destruct (packet_lane c p Hp s i Hf Hi) as (lane&Hl&_). wp_steps.
    match goal with |- wp (if ?g then _ else _) _ _ _ => destruct g end; by wp_steps.
  - intros total s' ->. match goal with |- wp (if ?g then _ else _) _ _ _ => destruct g end; [by wp_steps|]. wp_steps. unfold kv_count_admission.
    eapply wp_mono; [apply (wp_for_fold (fun _ _ s' => s' = s) _ _ _ (fun _ s' => s' = s))| |intros ?? H'; exact H'].
    + done.
    + intros pre i post acc s' [_ Hi]%range_split ->. destruct (packet_lane c p Hp s i Hf Hi) as (lane&Hl&_).
      by apply (count_lane_spec s D B i lane).
    + intros [n m] s' ->. match goal with |- wp (if ?g then _ else _) _ _ _ => destruct g end; by wp_steps.
Qed.

(** ** The whole table *)

Lemma packet_rows_snoc stride i lane : 0 <= i -> lanes p !! Z.to_nat i = Some lane ->
  packet_rows stride (i + 1) = packet_rows stride i ++ lane_rows stride i lane (range 0 (lane_blocks lane)).
Proof. intros Hi Hl. unfold packet_rows. rewrite range_snoc, fmap_app, concat_app by done. cbn. by rewrite Hl, app_nil_r. Qed.

Lemma packet_rows_prefix stride n m : 0 <= n <= m -> exists rest, packet_rows stride m = packet_rows stride n ++ rest.
Proof.
  intros Hn. unfold packet_rows. replace (range 0 m) with (range 0 n ++ range n m); [rewrite fmap_app, concat_app; eauto|].
  unfold range. rewrite !Z.sub_0_r. replace m with (n + (m - n)) at 2 by lia. rewrite seqZ_app by lia. by rewrite Z.add_0_l.
Qed.

(** The built part of the table: its rows, and the length of every row. *)
Definition built (t : bool) s0 (E n : Z) s : Prop :=
  exists D B L, building s0 E L s D B (tracked t (packet_rows (lane_stride s0) n)) /\
    (forall i lane, 0 <= i < n -> lanes p !! Z.to_nat i = Some lane -> L !! Z.to_nat i = Some (lane_blocks lane)) /\
    (forall pos dk, (pos, dk) ∈ packet_rows (lane_stride s0) n -> 0 <= pos < n * lane_stride s0).

Lemma kv_build_lanes_spec t s0 s E :
  table_ok s0 -> fits_packet s0 -> built t s0 E 0 s -> (t = true -> NoDup (snd <$> packet_rows (lane_stride s0) (active_sequence_count p))) ->
  wp (for_fold (range 0 (active_sequence_count p)) (fun i _ => kv_build_lane p i) tt)
    (fun _ s' => built t s0 E (active_sequence_count p) s')
    (fun _ s' => exists D' B', directory_wf s' D' B' /\ settings s' = settings s0) s.
Proof.
  intros Ht Hf Hb0 Hnd. pose proof (fp_active _ _ Hf) as Hact. pose proof (tk_sizes _ Ht).
  eapply wp_mono; [apply (wp_for_fold (fun pre (_ : unit) s' => built t s0 E (Z.of_nat (length pre)) s') _ _ _
    (fun _ s' => exists D' B', directory_wf s' D' B' /\ settings s' = settings s0))| |intros ?? H'; exact H'].
  - exact Hb0.
  - intros pre i post [] s1 [-> Hi]%range_split (D1&B1&L&Hbd&HL&Hpos). rewrite length_range, Z.sub_0_r, Z2Nat.id in * by lia.
    destruct (packet_lane c p Hp s0 i Hf Hi) as (lane&Hl&_). eapply wp_mono.
    + apply (kv_build_lane_spec s0 E L s1 D1 B1 t (packet_rows (lane_stride s0) i) i lane); try done. intros Htt.
      rewrite <-packet_rows_snoc by (done || lia). destruct (packet_rows_prefix (lane_stride s0) (i + 1) (active_sequence_count p)) as [tl Htl]; [lia|].
      specialize (Hnd Htt). rewrite Htl, fmap_app, NoDup_app in Hnd. apply Hnd.
    + intros _ s2 (D2&B2&Hbd2&Hcount). rewrite length_app, length_range, Z.sub_0_r. cbn [length].
      replace (Z.of_nat (Z.to_nat i + 1)) with (i + 1) by lia. rewrite <-packet_rows_snoc in Hbd2 by (done || lia).
      exists D2, B2, (<[Z.to_nat i := lane_blocks lane]> L). split; [done|]. split.
      * intros i' lane' Hi' Hl'. destruct (decide (i' = i)) as [->|Hne].
        -- assert (lane' = lane) as -> by congruence. apply list_lookup_insert_eq.
           rewrite <-(bd_counts _ _ _ _ _ _ _ Hbd). pose proof (bd_settings _ _ _ _ _ _ _ Hbd) as Hs. injection Hs as _ _ _ _ _ _ _ Hlc.
           rewrite Hlc. pose proof (tk_lanes _ Ht). lia.
        -- rewrite list_lookup_insert_ne by lia. apply HL; [lia|done].
      * intros pos dk. rewrite (packet_rows_snoc _ _ lane) by (done || lia). intros [Hin|Hin]%elem_of_app; [pose proof (Hpos _ _ Hin); nia|].
        apply list_elem_of_fmap in Hin as (b&[= -> _]&Hb%elem_of_range). nia.
    + intros ?? H'. exact H'.
  - intros [] s1. rewrite length_range, Z.sub_0_r, Z2Nat.id by lia. done.
Qed.

Lemma build_host_spec t s :
  kv_wf s -> lane_capacity s <= max_active_sequence_count c ->
  (t = true -> NoDup (snd <$> packet_rows (lane_stride s) (active_sequence_count p))) ->
  wp (build_host_kv_block_table p c)
    (fun v s' => fits_packet s /\ (exists E, built t s E (active_sequence_count p) s') /\
       v_physical_block_indices v = physical_block_indices s' /\ v_lane_physical_block_counts v = lane_physical_block_counts s' /\
       v_lane_count v = active_sequence_count p /\ v_lane_stride v = lane_stride s)
    (fun _ s' => stays s s') s.
Proof.
  intros Hwf Hcap Hnd. assert (stays s s) as Hs by done. unfold build_host_kv_block_table. wp_steps.
  eapply wp_mono; [by apply (validate_kv_spec c p Hp Hc Htok s)| |by intros e s' ->]. intros [] s' [-> Hf]. wp_steps.
  eapply wp_mono; [by apply (keeps_select p s)| |intros ?? H'; exact H']. intros [] s1 Hs1. pose proof Hs1 as [[Ht1 (D1&B1&Hw1)] Hset1].
  pose proof (fits_settings p _ _ Hset1 Hf) as Hf1. pose proof (fp_active _ _ Hf1). pose proof (tk_lanes _ Ht1).
  wp_steps. eapply wp_mono; [by apply (admit_spec s1 D1 B1)| |by intros e s' ->]. intros [] s' ->. wp_steps. cbn [id].
  apply wp_slice; [lia|lia|]. wp_steps. unfold reset_readiness_counts. wp_steps. fold (lane_blocks).
  match goal with |- wp _ _ _ ?x => set (s2 := x) end.
  assert (settings s2 = settings s) as Hset2.
  { rewrite <-Hset1. unfold settings. cbn. rewrite fill_replicate, length_app, length_replicate, !length_take, !length_drop.
    do 1 f_equal. lia. }
  eapply wp_mono; [apply (kv_build_lanes_spec t s s2 (epoch s2))|..].
  - apply Hwf.
  - done.
  - exists D1, B1, (lane_physical_block_counts s2). split; [|split].
    + split; try done.
      * apply (directory_wf_core s1); try done. apply (blocks_wf_owner s1 _ _ B1 (owners B1)); try done; apply Hw1.
      * unfold packet_rows. rewrite range_nil by lia. destruct t; intros ? ? []%not_elem_of_nil.
    + intros i lane Hi. lia.
    + unfold packet_rows. rewrite range_nil by lia. intros ? ? []%not_elem_of_nil.
  - done.
  - intros [] s3 Hb. wp_steps. pose proof Hb as (D3&B3&L3&Hbd&_). pose proof (bd_settings _ _ _ _ _ _ _ Hbd) as Hs3.
    split_and!; eauto. by injection Hs3.
  - intros e s3 (D3&B3&Hw3&Hs3). by apply (stays_settings s s s3 D3 B3).
Qed.

End packet.
End table.
