(* ===== verification/KvLifecycle.v ===== *)
(** * The KV block directory: lifecycle

    Creating and configuring the directory, the operations a rank performs on it, and its
    properties over every sequence of them. *)

From S2P Require Import KvIndex Prelude FreeList WorkTransaction Wire WireProps WorkControl WorkControlProps PrefillPackets.
From S2P Require Import PacketSafety KvDirectory KvDirectoryInv KvDirectoryOps KvDirectoryRefs KvDirectoryProps KvTable.

(** [x & (x - 1) == 0] on a positive [u32] says a power of two. *)
Lemma power_of_two x : 0 < x <= U32_MAX -> not_power_of_two x = false -> exists k, 0 <= k <= 31 /\ x = 2 ^ k.
Proof.
  intros Hx Hp. unfold not_power_of_two in Hp. rewrite negb_false_iff, Z.eqb_eq, u32_small in Hp by lia.
  exists (Z.log2 x). destruct (Z.log2_spec x) as [Hlo Hhi]; [lia|]. pose proof (Z.log2_nonneg x) as Hk.
  assert (Z.log2 x <= 31) as Hk31 by (assert (Z.log2 x < 32); [apply Z.log2_lt_pow2; [lia|change (2 ^ 32) with 4294967296; lia]|lia]).
  split; [lia|]. rewrite Z.pow_succ_r in Hhi by done. destruct (decide (x = 2 ^ Z.log2 x)) as [|Hne]; [done|]. exfalso.
  assert (Z.testbit (Z.land x (x - 1)) (Z.log2 x) = true) as Hb; [|by rewrite Hp, Z.testbit_0_l in Hb].
  rewrite Z.land_spec, Z.bit_log2 by lia. assert (Z.log2 (x - 1) = Z.log2 x) as <-.
  { apply Z.log2_unique; [done|]. rewrite Z.pow_succ_r by done. lia. }
  apply Z.bit_log2. pose proof (Z.pow_pos_nonneg 2 (Z.log2 x)). lia.
Qed.

Section lifecycle.
Context {H : Type} `{!KvSwapHooks H}.
Implicit Types (s : KvState H).

(** ** A fresh directory *)

Lemma new_wf {S} lanes stride tokens phys dir blk (t t' : S) s :
  Forall word32 [lanes; stride; tokens; phys; dir; blk] ->
  new_kv_state lanes stride tokens phys dir blk t = Ret s t' -> kv_wf s.
Proof.
  intros Hw. rewrite !Forall_cons in Hw. unfold word32 in Hw. destruct Hw as (Hl&Hs&Ht&Hp&Hd&Hb&_). unfold new_kv_state.
  destruct (_ || _) eqn:Hg; [done|]. destruct (Z.ltb_spec U32_MAX (lanes * stride)) as [|Hcap]; [done|]. intros [= <- _].
  rewrite !orb_false_iff, !Z.eqb_neq, !Z.ltb_ge in Hg. destruct Hg as ((((((((Hl0&Hs0)&_)&Hp0)&Hp2)&Hdp)&Hdd)&Hbp)&Hbb).
  pose proof Hp2 as Hp2'. change (U32_MAX / 2) with 2147483647 in Hp2'. rewrite u32_small in Hdp, Hbp by lia.
  destruct (power_of_two dir) as (kd&Hkd&Hdir); [lia|done|]. destruct (power_of_two blk) as (kb&Hkb&Hblk); [lia|done|].
  split.
  - split; cbn; rewrite ?length_replicate; try lia.
  - exists ∅, ∅. unfold fresh_state. rewrite Hdir, Hblk. apply (pristine_wf _ kd kb); try done.
    + split; cbn; rewrite ?length_replicate; try lia; try done.
    + cbn. apply phys_initial; lia.
    + cbn. lia.
    + unfold block_limit. cbn. lia.
Qed.

(** ** Configuration *)

Lemma empty_directory s D B : directory_wf s D B -> directory_entry_count s = 0 -> D = ∅ /\ B = ∅.
Proof.
  intros Hw H0. assert (D = ∅) as -> by (apply map_size_empty_inv; pose proof (dw_count _ _ _ Hw); lia). split; [done|].
  apply map_empty. intros k. destruct (B !! k) as [e|] eqn:He; [|done]. destruct (bw_entry _ _ _ _ (dw_blocks _ _ _ Hw) k e He) as (_&Hr&_).
  rewrite refs_empty in Hr. lia.
Qed.

Definition kv_ok {A} (m : M (KvState H) WorkControlError A) s : Prop := wp m (fun _ => kv_wf) (fun _ => kv_wf) s.

Lemma configure_swap_wf s cap hooks : kv_wf s -> 0 <= cap <= U32_MAX -> 2 * cap <= block_entry_capacity s -> kv_ok (configure_kv_swap cap hooks) s.
Proof.
  intros Hwf Hc Hfit. pose proof Hwf as [Ht (D&B&Hw)]. unfold kv_ok, configure_kv_swap. wp_steps. cbn [id].
  match goal with |- wp (if ?g then _ else _) _ _ _ => destruct g eqn:Hg end; [by wp_steps|]. rewrite !orb_false_iff, !negb_false_iff, !Z.eqb_eq, Z.eqb_neq, Z.ltb_ge in Hg.
  destruct Hg as ((((((_&_)&Hc0)&Hcd)&Hdn)&Han)&Hbn). destruct (empty_directory s D B Hw Hdn) as [-> ->]. wp_steps.
  match goal with |- kv_wf ?x => set (s' := x) end. pose proof (dw_blocks _ _ _ Hw) as Hb. pose proof (bw_shape _ _ _ _ Hb) as [Hse Hsp Hsi Hsh Hsl].
  pose proof (rep_bounds (bw_table _ _ _ _ Hb)).
  assert (block_limit s' = cap) as Hlim by (unfold block_limit; cbn; by rewrite (proj2 (Z.eqb_neq cap 0))).
  split; [by apply (table_ok_eq s)|]. exists ∅, ∅. apply (directory_wf_core s); try done. destruct Hb. split; try done.
  - split; try done; rewrite ?Hlim; try done.
  - pose proof (backing_initial (Z.to_nat cap)) as Hi. rewrite Z2Nat.id in Hi by lia. apply Hi. unfold KV_INVALID_BLOCK_INDEX. lia.
  - rewrite Hlim, map_size_empty. lia.
Qed.

Lemma configure_pins_wf s : kv_wf s -> kv_ok configure_kv_pins s.
Proof.
  intros Hwf. pose proof Hwf as [Ht (D&B&Hw)]. unfold kv_ok, configure_kv_pins. wp_steps. cbn [id].
  match goal with |- wp (if ?g then _ else _) _ _ _ => destruct g eqn:Hg end; [by wp_steps|]. wp_steps. split; [by apply (table_ok_eq s)|]. exists D, B.
  apply (directory_wf_core s); try done. pose proof (dw_blocks _ _ _ Hw) as Hb. pose proof (bw_shape _ _ _ _ Hb) as [].
  pose proof (ph_cap _ _ _ _ _ (bw_phys _ _ _ _ Hb)). destruct Hb. split; try done. split; try done.
  cbn. intros pins [= <-]. rewrite length_replicate. lia.
Qed.

Lemma configure_sharing_wf s keys stride : kv_wf s -> 0 <= stride -> kv_ok (configure_kv_sharing keys stride) s.
Proof.
  intros Hwf Hst. pose proof Hwf as [Ht (D&B&Hw)]. unfold kv_ok, configure_kv_sharing. wp_steps. cbn [id].
  match goal with |- wp (if ?g then _ else _) _ _ _ => destruct g eqn:Hg end; [by wp_steps|]. rewrite !orb_false_iff, Z.ltb_ge in Hg. wp_steps. split.
  - destruct Ht. split; try done. cbn. lia.
  - exists D, B. apply (directory_wf_core s); try done. apply (blocks_wf_owner s _ _ B (owners B)); try done; apply Hw.
Qed.

(** ** Operations *)

(** The public operations of the directory. *)
Inductive KvOp : Type :=
| ConfigureSwap (capacity : Z) (hooks : H)
| ConfigurePins
| ConfigureSharing (keys : option (list KvKey)) (stride : Z)
| Pin (i : Z)
| Unpin (i : Z)
| AcquireTransient
| ReleaseTransient (i : Z)
| Advance (control_generation : Z)
| Prefetch (packets : list WorkControlPacket) (entry_capacity : Z)
| Build (p : WorkControlPacket)
| Commit (p : WorkControlPacket)
| Cancel (p : WorkControlPacket)
| ReleaseSequences (p : WorkControlPacket)
| ReleaseSequence (sequence_id logical_block_count : Z).

Definition run_op (c : WorkControlConfig) (op : KvOp) : M (KvState H) WorkControlError unit :=
  match op with
  | ConfigureSwap capacity hooks => configure_kv_swap capacity hooks
  | ConfigurePins => configure_kv_pins
  | ConfigureSharing keys stride => configure_kv_sharing keys stride
  | Pin i => pin_physical_block i
  | Unpin i => unpin_physical_block i
  | AcquireTransient => do! acquire_transient_physical_block in ret tt
  | ReleaseTransient i => release_transient_physical_block i
  | Advance g => advance_kv_generation g
  | Prefetch ps n => do! collect_kv_prefetch_entries ps c n in ret tt
  | Build p => do! build_host_kv_block_table p c in ret tt
  | Commit p => commit_host_kv_block_table p c
  | Cancel p => cancel_host_kv_block_table p c
  | ReleaseSequences p => release_packet_sequences p c
  | ReleaseSequence seq n => release_sequence seq n
  end.

(** The arguments are machine words, packets have their declared array sizes, the node
    configuration admits at least the directory's lanes, and backing storage is
    configured within the bound [validate_kv_state] checks. *)
Definition op_ok (c : WorkControlConfig) s (op : KvOp) : Prop :=
  match op with
  | ConfigureSwap capacity _ => 0 <= capacity <= U32_MAX /\ 2 * capacity <= block_entry_capacity s
  | ConfigureSharing _ stride => 0 <= stride
  | Pin i | Unpin i | ReleaseTransient i => 0 <= i
  | Prefetch ps _ => lane_capacity s <= max_active_sequence_count c /\ Forall (packet_words c) ps
  | Build p | Commit p | Cancel p | ReleaseSequences p => lane_capacity s <= max_active_sequence_count c /\ packet_words c p
  | ConfigurePins | AcquireTransient | Advance _ | ReleaseSequence _ _ => True
  end.

Lemma keeps_ok {A} (m : M (KvState H) WorkControlError A) s :
  wp m (fun _ => stays s) (fun _ => stays s) s -> kv_ok m s.
Proof. intros Hm. eapply wp_mono; [exact Hm|..]; intros ? s' [Hwf _]; exact Hwf. Qed.

Lemma ok_unit {A} (m : M (KvState H) WorkControlError A) s : kv_ok m s -> kv_ok (do! m in ret tt) s.
Proof. intros Hm. apply wp_bind. eapply wp_mono; [exact Hm| |intros ?? H'; exact H']. intros a s' Hwf. by wp_steps. Qed.

Lemma op_wf c op s : config_ok c -> kv_block_tokens c <> 0 -> kv_wf s -> op_ok c s op -> kv_ok (run_op c op) s.
Proof.
  intros Hc Htok Hwf Hop. assert (stays s s) as Hs by done. destruct op as [cap h| |keys st|i|i| |i|g|ps n|p|p|p|p|seq n]; cbn in Hop |- *.
  - destruct Hop. by apply configure_swap_wf.
  - by apply configure_pins_wf.
  - by apply configure_sharing_wf.
  - apply keeps_ok. by apply keeps_pin.
  - apply keeps_ok. by apply keeps_unpin.
  - apply ok_unit, keeps_ok. by apply keeps_acquire_transient.
  - apply keeps_ok. by apply keeps_release_transient.
  - apply keeps_ok. by apply keeps_advance.
  - destruct Hop. apply ok_unit, keeps_ok. by apply collect_keeps.
  - destruct Hop as [Hcap Hp]. apply ok_unit. eapply wp_mono; [by apply (build_host_spec c p Hp Hc Htok false s Hwf Hcap)|..].
    + intros v s' (_&(E&D'&B'&L&Hbd&_)&_). destruct Hbd as [Hw Hset _ _ _]. split; [|eauto]. apply (table_ok_eq s); [done|apply Hwf].
    + intros e s' [Hwf' _]. done.
  - destruct Hop. apply keeps_ok. by apply commit_keeps.
  - destruct Hop. apply keeps_ok. by apply cancel_keeps.
  - destruct Hop. apply keeps_ok. by apply release_keeps.
  - apply keeps_ok. by apply keeps_release_sequence.
Qed.

(** The states a directory reaches from its creation. *)
Inductive kv_reached (c : WorkControlConfig) : KvState H -> Prop :=
| Reached_new lanes stride tokens phys dir blk s :
    Forall word32 [lanes; stride; tokens; phys; dir; blk] ->
    new_kv_state lanes stride tokens phys dir blk tt = Ret s tt -> kv_reached c s
| Reached_ok s op s' : kv_reached c s -> op_ok c s op -> run_op c op s = Ret tt s' -> kv_reached c s'
| Reached_err s op e s' : kv_reached c s -> op_ok c s op -> run_op c op s = Fails e s' -> kv_reached c s'.

Lemma reached_wf c s : config_ok c -> kv_block_tokens c <> 0 -> kv_reached c s -> kv_wf s.
Proof.
  intros Hc Htok. induction 1 as [lanes stride tokens phys dir blk s Hw Hn|s op s' _ IH Hop Hr|s op e s' _ IH Hop Hr].
  - by eapply new_wf.
  - exact (wp_ret_inv _ _ _ _ _ _ (op_wf c op s Hc Htok IH Hop) Hr).
  - exact (wp_fails_inv _ _ _ _ _ _ (op_wf c op s Hc Htok IH Hop) Hr).
Qed.

End lifecycle.

(** ** Properties *)

(** C2. The KV directory over every sequence of operations.  In every state reached from
    [KvState::new] through configuration, pinning, transient blocks, generation changes,
    prefetch, and building, committing, cancelling and releasing packets (successful or
    failed), the directory is well formed: both hash tables store their maps, every
    record's reference count is the number of directory slots that name it, GPU-resident
    records and physical blocks name each other, backing blocks are owned by one record or
    on the free list, a record off the GPU has a valid copy, and all counters are exact.
    And every next operation returns or fails, never panics, whatever the storage hooks
    answer. *)
Theorem kv_directory_invariant {H} `{!KvSwapHooks H} (c : WorkControlConfig) (s : KvState H) :
  config_ok c -> kv_block_tokens c <> 0 -> kv_reached c s ->
  kv_wf s /\
  forall op, op_ok c s op ->
    exists s', (run_op c op s = Ret tt s' \/ exists e, run_op c op s = Fails e s') /\ kv_wf s'.
Proof.
  intros Hc Htok Hr. pose proof (reached_wf c s Hc Htok Hr) as Hwf. split; [done|]. intros op Hop.
  destruct (wp_elim _ _ _ _ (op_wf c op s Hc Htok Hwf Hop)) as [([]&s'&Hs'&Hw')|(e&s'&Hs'&Hw')]; exists s'; eauto.
Qed.

(** C8. The block table a packet is given is right.  When the directory builds the host
    table of a packet whose (sequence, block) slots have distinct keys, then for every
    active lane the table records the lane's number of blocks, and for every block of
    every lane the entry is the physical block where the record of that slot sits on the
    GPU, protected from eviction; two entries are the same physical block only when the
    two slots share one record.  A packet that names a sequence in two lanes, which no check
    rejects, is outside: [repeated_sequence_names_freed_block] below. *)
Theorem kv_table_resident {H} `{!KvSwapHooks H} (c : WorkControlConfig) (p : WorkControlPacket) (s s' : KvState H) v :
  config_ok c -> kv_block_tokens c <> 0 -> kv_reached c s -> packet_words c p -> lane_capacity s <= max_active_sequence_count c ->
  NoDup (snd <$> packet_rows p (lane_stride s) (active_sequence_count p)) ->
  build_host_kv_block_table p c s = Ret v s' ->
  exists D B, directory_wf s' D B /\
    (forall i lane, 0 <= i < active_sequence_count p -> lanes p !! Z.to_nat i = Some lane ->
       v_lane_physical_block_counts v !! Z.to_nat i = Some (lane_blocks p lane) /\
       forall b, 0 <= b < lane_blocks p lane ->
         exists d j, D !! private_key (l_sequence_id lane) b = Some d /\
           v_physical_block_indices v !! Z.to_nat (i * v_lane_stride v + b) = Some j /\ kept s' B (d_block_key d) j) /\
    (forall k k' j, kept s' B k j -> kept s' B k' j -> k = k').
Proof.
  intros Hc Htok Hr Hp Hcap Hnd Hb. pose proof (reached_wf c s Hc Htok Hr) as Hwf.
  destruct (wp_ret_inv _ _ _ _ _ _ (build_host_spec c p Hp Hc Htok true s Hwf Hcap (fun _ => Hnd)) Hb)
    as (Hf&(E&D&B&L&Hbd&HL&_)&Hvi&Hvc&Hvn&Hvs). exists D, B. split; [apply Hbd|]. split.
  - intros i lane Hi Hl. split; [rewrite Hvc, (bd_counts _ _ _ _ _ _ _ Hbd); by apply HL|]. intros b Hb'. rewrite Hvi, Hvs.
    apply (bd_rows _ _ _ _ _ _ _ Hbd). cbn [tracked]. unfold packet_rows. apply list_elem_of_In, in_concat.
    exists (lane_rows (lane_stride s) i lane (range 0 (lane_blocks p lane))). split.
    + apply list_elem_of_In, list_elem_of_fmap. exists i. by rewrite Hl, elem_of_range.
    + apply list_elem_of_In, list_elem_of_fmap. exists b. by rewrite elem_of_range.
  - intros k k' j [Hk _] [Hk' _]. eapply phys_inj; [|exact Hk|exact Hk']. apply (bd_wf _ _ _ _ _ _ _ Hbd).
Qed.

(** C15. Nothing leaks.  In every reachable state, a block record exists exactly when some
    directory slot names it; and once the directory is empty no record is left, no block
    counts as swapped out, every physical block is free or a transient lease, and no
    backing block is taken. *)
Theorem kv_no_leak {H} `{!KvSwapHooks H} (c : WorkControlConfig) (s : KvState H) :
  config_ok c -> kv_block_tokens c <> 0 -> kv_reached c s ->
  exists D B, directory_wf s D B /\
    (forall k, is_Some (B !! k) <-> exists dk d, D !! dk = Some d /\ d_block_key d = k) /\
    (directory_entry_count s = 0 ->
       block_entry_count s = 0 /\ swapped_block_count s = 0 /\
       (forall i, (i < Z.to_nat (physical_block_capacity s))%nat ->
          physical_block_keys s !! i = Some empty_key \/ physical_block_states s !! i = Some KV_ENTRY_TRANSIENT) /\
       (forall i l, backing_block_free_next s = Some l -> (i < length l)%nat ->
          exists fl, free_list (fun j => l !! j) (backing_free (backing_block_capacity s) (owners B)) KV_INVALID_BLOCK_INDEX
                       (free_backing_block_head s) fl /\ i ∈ fl)).
Proof.
  intros Hc Htok Hr. destruct (reached_wf c s Hc Htok Hr) as [_ (D&B&Hw)]. exists D, B. split; [done|]. split.
  - intros k. split; [|by intros (dk&d&Hd&<-); apply (dir_block _ _ _ _ _ Hw Hd)]. intros [e He].
    destruct (bw_entry _ _ _ _ (dw_blocks _ _ _ Hw) k e He) as (_&[Hpos _]&_). by apply refs_pos_inv.
  - intros H0. destruct (empty_directory s D B Hw H0) as [-> ->]. pose proof (dw_blocks _ _ _ Hw) as Hb.
    pose proof (bw_phys _ _ _ _ Hb) as Hph. split; [apply (bw_count _ _ _ _ Hb)|]. split; [apply (bw_swapped _ _ _ _ Hb)|]. split.
    + intros i Hi. destruct (lookup_lt_is_Some_2 (physical_block_keys s) i) as [k Hk]; [pose proof (ph_keys _ _ _ _ _ Hph); lia|].
      destruct (decide (k = empty_key)) as [->|Hne]; [by left|right].
      destruct (decide (physical_block_states s !! i = Some KV_ENTRY_TRANSIENT)) as [|Hst]; [done|].
      pose proof (ph_owned _ _ _ _ _ Hph i k Hk Hne Hst) as Hg. unfold resident in Hg. by rewrite omap_empty, lookup_empty in Hg.
    + intros i l Hl Hi. pose proof (bw_back _ _ _ _ Hb) as Hbk. rewrite Hl in Hbk. destruct Hbk as (Hcap&Hlen&_&_&fl&Hfl).
      exists fl. split; [done|]. apply Hfl. split; [lia|]. intros k. unfold owners. by rewrite fmap_empty, lookup_empty.
Qed.

(** ** Witnesses *)

(** Storage that always succeeds. *)
#[local] Instance unit_hooks : KvSwapHooks unit :=
  {| hook_store := fun _ _ _ h => (None, h); hook_load := fun _ _ _ h => (None, h) |}.

Definition fresh_kv : KvState unit := fresh_state 16 16 4 8 16 16.

Definition chunk_packet : WorkControlPacket := Eval vm_compute in
  match build_prefill_packet sample_config sample_dispatch 0 4 tt with Ret p _ => p | _ => zeroed sample_config end.

Lemma chunk_packet_words : packet_words sample_config chunk_packet.
Proof.
  unfold packet_words, lane_words. repeat (constructor || split); vm_compute; first [reflexivity|intros [=]].
Defined.

Lemma fresh_kv_reached : kv_reached sample_config fresh_kv.
Proof.
  apply (Reached_new sample_config 16 16 4 8 16 16); [|vm_compute; reflexivity].
  unfold word32. repeat constructor; vm_compute; intros [=].
Defined.

Lemma kv_directory_invariant_witness :
  kv_wf fresh_kv /\
  exists s', (run_op sample_config (Build chunk_packet) fresh_kv = Ret tt s' \/
              exists e, run_op sample_config (Build chunk_packet) fresh_kv = Fails e s') /\ kv_wf s'.
Proof.
  destruct (kv_directory_invariant sample_config fresh_kv) as [Hwf Hop].
  - apply sample_config_ok.
  - vm_compute. intros [=].
  - exact fresh_kv_reached.
  - split; [exact Hwf|]. apply Hop. split; [vm_compute; intros [=]|exact chunk_packet_words].
Defined.

(** Two lanes: one block for the first, three for the second. *)
Lemma kv_table_resident_witness :
  exists v s', build_host_kv_block_table chunk_packet sample_config fresh_kv = Ret v s' /\
    take 1 (v_physical_block_indices v) = [0] /\ take 3 (drop 16 (v_physical_block_indices v)) = [1; 2; 3] /\
    exists D B, directory_wf s' D B /\
      (forall i lane, 0 <= i < 2 -> lanes chunk_packet !! Z.to_nat i = Some lane ->
         v_lane_physical_block_counts v !! Z.to_nat i = Some (lane_blocks chunk_packet lane) /\
         forall b, 0 <= b < lane_blocks chunk_packet lane ->
           exists d j, D !! private_key (l_sequence_id lane) b = Some d /\
             v_physical_block_indices v !! Z.to_nat (i * v_lane_stride v + b) = Some j /\ kept s' B (d_block_key d) j) /\
      (forall k k' j, kept s' B k j -> kept s' B k' j -> k = k').
Proof.
  destruct (build_host_kv_block_table chunk_packet sample_config fresh_kv) as [v s'| | |] eqn:Hb; [|vm_compute in Hb; discriminate Hb..].
  exists v, s'. split; [reflexivity|].
  assert (v_physical_block_indices v = match build_host_kv_block_table chunk_packet sample_config fresh_kv with
                                       | Ret v _ => v_physical_block_indices v | _ => [] end) as Hv by (rewrite Hb; reflexivity).
  split; [rewrite Hv; vm_compute; reflexivity|]. split; [rewrite Hv; vm_compute; reflexivity|].
  apply (kv_table_resident sample_config chunk_packet fresh_kv s' v).
  - apply sample_config_ok.
  - vm_compute. intros [=].
  - exact fresh_kv_reached.
  - exact chunk_packet_words.
  - vm_compute. intros [=].
  - apply (bool_decide_unpack _). vm_compute. exact I.
  - exact Hb.
Defined.

(** The state an operation leaves. *)
Definition after_op (op : KvOp (H := unit)) (s : KvState unit) : KvState unit :=
  match run_op sample_config op s with Ret _ s' | Fails _ s' => s' | _ => s end.

Lemma after_op_reached op s : kv_reached sample_config s -> op_ok sample_config s op -> kv_reached sample_config (after_op op s).
Proof.
  intros Hr Hop. unfold after_op. destruct (run_op sample_config op s) as [[] s'|e s'| |] eqn:Ho; [by eapply Reached_ok|by eapply Reached_err|done..].
Defined.

(** Two sequences of four blocks in all, built and then released. *)
Definition built_kv : KvState unit := after_op (Build chunk_packet) fresh_kv.

Definition drained_kv : KvState unit := after_op (ReleaseSequence 32 3) (after_op (ReleaseSequence 31 1) built_kv).

Lemma drained_kv_reached : kv_reached sample_config drained_kv.
Proof.
  do 2 (apply after_op_reached; [|exact I]). apply after_op_reached; [exact fresh_kv_reached|].
  split; [vm_compute; intros [=]|exact chunk_packet_words].
Defined.

Lemma kv_no_leak_witness :
  directory_entry_count built_kv = 4 /\ directory_entry_count drained_kv = 0 /\
  block_entry_count drained_kv = 0 /\ swapped_block_count drained_kv = 0 /\
  (forall i, (i < 8)%nat -> physical_block_keys drained_kv !! i = Some empty_key \/ physical_block_states drained_kv !! i = Some KV_ENTRY_TRANSIENT).
Proof.
  assert (directory_entry_count drained_kv = 0) as H0 by (vm_compute; reflexivity).
  split; [vm_compute; reflexivity|]. split; [exact H0|].
  destruct (kv_no_leak sample_config drained_kv) as (D&B&_&_&Hempty).
  - apply sample_config_ok.
  - vm_compute. intros [=].
  - exact drained_kv_reached.
  - destruct (Hempty H0) as (H1&H2&H3&_). split; [exact H1|]. split; [exact H2|].
    replace (Z.to_nat (physical_block_capacity drained_kv)) with 8%nat in H3 by (vm_compute; reflexivity). exact H3.
Defined.

(** ** A sequence in two lanes *)

(** The dispatch names sequence 31 in both lanes. *)
Definition twice_dispatch : PromptPipelinePrefillDispatch :=
  mkPrefillDispatch 3 2 2 0 10 10 10
    (mkRequestDispatch 3 0x40 2 1 [11; 12] [21; 22] [31; 31] 16 16 16 0 0)
    (mkPrefillView 2 10 10 [mkPrefillLane 0 0 10 0 21 31 11; mkPrefillLane 1 8 4 1 22 31 12])
    [1; 2; 3; 4; 5; 6; 7; 8; 9; 10; 41; 42; 43; 44; 0; 0; 0; 0; 0; 0]
    (Some (mkTableView 4 2 16 16)).

Definition twice_packet : WorkControlPacket := Eval vm_compute in
  match build_prefill_packet sample_config twice_dispatch 0 4 tt with Ret p _ => p | _ => zeroed sample_config end.

(** A content key for every block of every lane. *)
Definition sharing_keys : list KvKey := (fun i => mkKvKey (Z.of_nat i) 77) <$> seq 1 256.

(** [validate_packet] accepts the packet.  The second lane moves slot (31, 0) to the record of
    its content key, at block 1, and gives back block 0, which the table still lists for the
    first lane. *)
Lemma repeated_sequence_names_freed_block :
  validate_packet twice_packet sample_config 8 1 tt = Ret tt tt /\
  match (do! configure_kv_sharing (Some sharing_keys) 16 in
         do! build_host_kv_block_table chunk_packet sample_config in
         let! v := build_host_kv_block_table twice_packet sample_config in
         let! slot := kv_sequence_block 31 0 in
         match slot with Some b => let! e := block_at b in ret (v, e) | None => throw NotFound end) fresh_kv with
  | Ret (v, e) s => v_physical_block_indices v !! 0%nat = Some 0 /\ physical_block_index e = 1 /\ physical_block_keys s !! 0%nat = Some empty_key
  | _ => False
  end.
Proof. split; [vm_compute; reflexivity|]. vm_compute. split_and!; reflexivity. Qed.
