(* ===== verification/Scheduler.v ===== *)
(** * The scheduler: definitions ([crates/spark-sched/src/scheduler.rs])

    The scheduler admits decode and prefill steps to the ring.  It picks a batch bucket
    and a stage plan ([StagePlan]), checks every stage's in-flight count against the queue
    depth, probes and reserves the prompt in the prefix cache it owns ([PrefixCache]), and
    returns a decision that the caller later completes or cancels.  Methods are
    computations over the record [Scheduler]; the planner's functions are lifted with
    their errors converted, and the cache's methods run on the cache the scheduler owns.
    The theorems are in [SchedulerInv] and [SchedulerProps]. *)

From S2P Require Import Prelude StagePlan PrefixCache.

Definition DEFAULT_QUEUE_DEPTH_PER_SPARK : Z := 1.

Definition PREFILL_BLOCK_TOKENS : Z := 16.

Definition BATCH_REQUEST_CAPACITY_FACTOR : Z := 2.

Definition NO_PROMPT_LIMIT : Z := 0.

(** [stage_plan::PROFILE_UNIFORM_ESTIMATED] *)
Definition PROFILE_UNIFORM_ESTIMATED : Z := 0.

Definition CONFIGURATION_FLAG_CHUNKED_PREFILL : Z := 1.

Definition CONFIGURATION_FLAG_PREFIX_CACHE : Z := 2.

Definition CONFIGURATION_FLAG_CUDAGRAPH_PADDING : Z := 4.

Definition CONFIGURATION_FLAG_PREFILL_DECODE_INTERLEAVE : Z := 8.

Definition CONFIGURATION_FLAG_KV_CACHE_REQUIRED : Z := 16.

Definition CONFIGURATION_FLAG_MEASURED_DECODE_BUCKET_SELECTION : Z := 32.

Definition CONFIGURATION_FLAG_CROSS_SEQUENCE_PREFIX_REUSE : Z := 64.

Definition CONFIGURATION_DEFAULT_FLAGS : Z :=
  foldl Z.lor 0 [CONFIGURATION_FLAG_CHUNKED_PREFILL; CONFIGURATION_FLAG_PREFIX_CACHE;
    CONFIGURATION_FLAG_CUDAGRAPH_PADDING; CONFIGURATION_FLAG_PREFILL_DECODE_INTERLEAVE;
    CONFIGURATION_FLAG_KV_CACHE_REQUIRED; CONFIGURATION_FLAG_MEASURED_DECODE_BUCKET_SELECTION;
    CONFIGURATION_FLAG_CROSS_SEQUENCE_PREFIX_REUSE].

Definition CONFIGURATION_KNOWN_FLAGS : Z := CONFIGURATION_DEFAULT_FLAGS.

Definition REQUEST_FLAG_DECODE : Z := 1.

Definition REQUEST_FLAG_PREFILL : Z := 2.

Definition REQUEST_KNOWN_FLAGS : Z := Z.lor REQUEST_FLAG_DECODE REQUEST_FLAG_PREFILL.

Definition DECISION_FLAG_PREFILL_CHUNK : Z := 1.

Definition DECISION_FLAG_PREFILL_FINAL_CHUNK : Z := 2.

Definition DECISION_FLAG_PREFIX_CACHE_USED : Z := 4.

Definition DECISION_FLAG_CUDAGRAPH_PADDING : Z := 8.

Definition DECISION_FLAG_DECODE_STEP : Z := 16.

Definition DECISION_FLAG_PREFILL_STEP : Z := 32.

Definition DECISION_FLAG_PREFILL_RESERVED_DECODE_SLOT : Z := 64.

Definition DECISION_FLAG_DECODE_BYPASS_PREFILL : Z := 128.

Definition DECISION_FLAG_ADAPTIVE_DECODE_PACK : Z := 256.

Definition DECISION_FLAG_ADAPTIVE_PREFILL_PACK : Z := 512.

Definition DECISION_FLAG_MEASURED_DECODE_BUCKET : Z := 1024.

Definition DISPATCH_STAGE_FLAG_DECODE : Z := 1.

Definition DISPATCH_STAGE_FLAG_PREFILL : Z := 2.

Definition DISPATCH_STAGE_FLAG_PREFILL_CHUNK : Z := 4.

Definition DISPATCH_STAGE_FLAG_PREFILL_FINAL_CHUNK : Z := 8.

Definition DISPATCH_STAGE_FLAG_CUDAGRAPH_PADDING : Z := 16.

Definition DISPATCH_STAGE_FLAG_PREFILL_RESERVED_DECODE_SLOT : Z := 32.

Definition DISPATCH_STAGE_FLAG_DECODE_BYPASS_PREFILL : Z := 64.

Definition DISPATCH_STAGE_FLAG_ADAPTIVE_DECODE_PACK : Z := 128.

Definition DISPATCH_STAGE_FLAG_ADAPTIVE_PREFILL_PACK : Z := 256.

Definition DISPATCH_STAGE_FLAG_MEASURED_DECODE_BUCKET : Z := 512.

(** ** Errors *)

Inductive SchedulerError :=
| InvalidArgument
| CapacityExceeded
| NotFound
| Busy
| Duplicate
| ModuleNotValidated
| InternalError.

(** [From<PrefixCacheError> for SchedulerError] *)
Definition from_cache_error (e : PrefixCacheError) : SchedulerError :=
  match e with
  | PrefixCache.InvalidArgument => InvalidArgument
  | PrefixCache.CapacityExceeded => CapacityExceeded
  | PrefixCache.NotFound => NotFound
  | PrefixCache.Busy => Busy
  | PrefixCache.Duplicate => Duplicate
  | PrefixCache.ModuleNotValidated => ModuleNotValidated
  | PrefixCache.InternalError => InternalError
  end.

(** [From<StagePlanError> for SchedulerError] *)
Definition from_plan_error (e : StagePlanError) : SchedulerError :=
  match e with
  | StagePlan.InvalidArgument _ => InvalidArgument
  | StagePlan.CapacityExceeded _ => CapacityExceeded
  | StagePlan.AbiMismatch _ | StagePlan.InternalError _ => InternalError
  end.

(** ** Data *)

Record SchedulerConfig := mkSchedulerConfig {
  cfg_spark_count : Z;
  cfg_queue_depth_per_spark : Z;
  cfg_measured_profile_id : Z;
  cfg_stage_geometry : StagePlanGeometry;
  cfg_estimated_layer_cost_ns : Z;
  cfg_estimated_final_stage_extra_cost_ns : Z;
  cfg_quantization_mode : QuantizationMode;
  cfg_max_prefill_tokens_per_step : Z;
  cfg_default_max_prefill_tokens_per_step : Z;
  cfg_max_context_tokens : Z;
  cfg_max_batch_bucket : Z;
  cfg_prefix_cache_block_tokens : Z;
  cfg_configuration_flags : Z;
  cfg_prefix_cache : option PrefixCache;
}.

Record SchedulerRequest := mkRequest {
  rq_active_sequence_count : Z;
  rq_prompt_token_count : Z;
  rq_flags : Z;
  rq_computed_prompt_token_count : Z;
  rq_cached_prefix_token_count : Z;
  rq_max_scheduled_prompt_token_count : Z;
  rq_sequence_id : Z;
  rq_prompt_token_ids : option (list Z);
}.

(** [SchedulerRequest::decode] *)
Definition decode_request (active_sequence_count : Z) : SchedulerRequest :=
  mkRequest active_sequence_count 0 REQUEST_FLAG_DECODE 0 0 NO_PROMPT_LIMIT 0 None.

(** [SchedulerRequest::prefill] *)
Definition prefill_request (active_sequence_count prompt_token_count sequence_id : Z)
    (prompt_token_ids : list Z) : SchedulerRequest :=
  mkRequest active_sequence_count prompt_token_count REQUEST_FLAG_PREFILL 0 0 NO_PROMPT_LIMIT
    sequence_id (Some prompt_token_ids).

Definition is_prefill (r : SchedulerRequest) : bool := has_flag (rq_flags r) REQUEST_FLAG_PREFILL.

Definition is_decode (r : SchedulerRequest) : bool := has_flag (rq_flags r) REQUEST_FLAG_DECODE.

Record PackedRequest := mkPackedRequest {
  pr_request_index : Z;
  pr_active_sequence_offset : Z;
  pr_active_sequence_count : Z;
  pr_request_flags : Z;
  pr_scheduled_token_count : Z;
  pr_total_scheduled_token_count : Z;
}.

Record DispatchStage := mkDispatchStage {
  ds_spark_index : Z;
  ds_batch_bucket : Z;
  ds_first_layer_index : Z;
  ds_layer_count : Z;
  ds_stage_flags : Z;
  ds_dispatch_flags : Z;
  ds_active_sequence_count : Z;
  ds_graph_sequence_capacity : Z;
  ds_graph_sequence_padding_count : Z;
  ds_scheduled_prompt_token_offset : Z;
  ds_scheduled_prompt_token_count : Z;
  ds_cached_prefix_token_count : Z;
  ds_estimated_service_time_ns : Z;
}.

#[export] Instance DispatchStage_eta : RecordEta DispatchStage := fun d =>
  mkDispatchStage (ds_spark_index d) (ds_batch_bucket d) (ds_first_layer_index d) (ds_layer_count d)
    (ds_stage_flags d) (ds_dispatch_flags d) (ds_active_sequence_count d) (ds_graph_sequence_capacity d)
    (ds_graph_sequence_padding_count d) (ds_scheduled_prompt_token_offset d)
    (ds_scheduled_prompt_token_count d) (ds_cached_prefix_token_count d) (ds_estimated_service_time_ns d).

Record SchedulerDecision := mkDecision {
  sd_accepted : bool;
  sd_batch_bucket : Z;
  sd_quantization_mode : QuantizationMode;
  sd_spark_count : Z;
  sd_stage_count : Z;
  sd_rejected_status : option SchedulerError;
  sd_decision_flags : Z;
  sd_active_sequence_count : Z;
  sd_graph_sequence_capacity : Z;
  sd_graph_sequence_padding_count : Z;
  sd_prompt_token_count : Z;
  sd_computed_prompt_token_count : Z;
  sd_cached_prefix_token_count : Z;
  sd_prefix_cache_block_count : Z;
  sd_scheduled_prompt_token_offset : Z;
  sd_scheduled_prompt_token_count : Z;
  sd_remaining_prompt_token_count_after_step : Z;
  sd_prefill_block_count : Z;
  sd_cache_commit_token_count_after_step : Z;
  sd_kv_block_token_count : Z;
  sd_kv_physical_block_count : Z;
  sd_kv_cached_physical_block_count : Z;
  sd_kv_pending_physical_block_count : Z;
  sd_kv_block_table_token_count : Z;
  sd_prefix_cache_reservation_epoch : Z;
  sd_prefix_cache_parent_hash : Z;
  sd_prefix_cache_result_hash : Z;
  sd_sequence_id : Z;
  sd_prompt_token_ids : list Z;
  sd_total_scheduled_token_count : Z;
  sd_estimated_critical_path_ns : Z;
  sd_kv_physical_block_indices : list Z;
  sd_stage_plan : StagePlan;
  sd_dispatch_stages : list DispatchStage;
}.

#[export] Instance SchedulerDecision_eta : RecordEta SchedulerDecision := fun d =>
  mkDecision (sd_accepted d) (sd_batch_bucket d) (sd_quantization_mode d) (sd_spark_count d)
    (sd_stage_count d) (sd_rejected_status d) (sd_decision_flags d) (sd_active_sequence_count d)
    (sd_graph_sequence_capacity d) (sd_graph_sequence_padding_count d) (sd_prompt_token_count d)
    (sd_computed_prompt_token_count d) (sd_cached_prefix_token_count d) (sd_prefix_cache_block_count d)
    (sd_scheduled_prompt_token_offset d) (sd_scheduled_prompt_token_count d)
    (sd_remaining_prompt_token_count_after_step d) (sd_prefill_block_count d)
    (sd_cache_commit_token_count_after_step d) (sd_kv_block_token_count d)
    (sd_kv_physical_block_count d) (sd_kv_cached_physical_block_count d)
    (sd_kv_pending_physical_block_count d) (sd_kv_block_table_token_count d)
    (sd_prefix_cache_reservation_epoch d) (sd_prefix_cache_parent_hash d)
    (sd_prefix_cache_result_hash d) (sd_sequence_id d) (sd_prompt_token_ids d)
    (sd_total_scheduled_token_count d) (sd_estimated_critical_path_ns d)
    (sd_kv_physical_block_indices d) (sd_stage_plan d) (sd_dispatch_stages d).

(** [SchedulerDecision::empty] *)
Definition empty_decision (mode : QuantizationMode) (spark_count : Z) : SchedulerDecision :=
  mkDecision false 0 mode spark_count 0 None 0 0 0 0 0 0 0 0 0 0 0 0 0 0 0 0 0 0 0 0 0 0 [] 0 0 []
    (mkStagePlan 0 0 0 0 []) [].

Record PrefillBatchLane := mkLane {
  bl_request_index : Z;
  bl_active_sequence_offset : Z;
  bl_active_sequence_count : Z;
  bl_prompt_token_count : Z;
  bl_computed_prompt_token_count : Z;
  bl_cached_prefix_token_count : Z;
  bl_scheduled_prompt_token_offset : Z;
  bl_scheduled_prompt_token_count : Z;
  bl_remaining_prompt_token_count_after_step : Z;
  bl_cache_commit_token_count_after_step : Z;
  bl_prefix_cache_block_count : Z;
  bl_kv_block_token_count : Z;
  bl_kv_physical_block_count : Z;
  bl_kv_cached_physical_block_count : Z;
  bl_kv_pending_physical_block_count : Z;
  bl_kv_block_table_token_count : Z;
  bl_prefix_cache_reservation_epoch : Z;
  bl_prefix_cache_parent_hash : Z;
  bl_prefix_cache_result_hash : Z;
  bl_sequence_id : Z;
  bl_prompt_token_ids : list Z;
}.

Record BatchDecision := mkBatchDecision {
  bd_accepted : bool;
  bd_rejected_status : option SchedulerError;
  bd_source_request_count : Z;
  bd_packed_request_count : Z;
  bd_batch_bucket : Z;
  bd_active_sequence_count : Z;
  bd_graph_sequence_capacity : Z;
  bd_graph_sequence_padding_count : Z;
  bd_decision_flags : Z;
  bd_total_scheduled_token_count : Z;
  bd_estimated_critical_path_ns : Z;
  bd_stage_decision : SchedulerDecision;
  bd_packed_requests : list PackedRequest;
}.

Record PrefillBatchDecision := mkPrefillBatchDecision {
  fb_accepted : bool;
  fb_rejected_status : option SchedulerError;
  fb_source_request_count : Z;
  fb_packed_request_count : Z;
  fb_batch_bucket : Z;
  fb_active_sequence_count : Z;
  fb_graph_sequence_capacity : Z;
  fb_graph_sequence_padding_count : Z;
  fb_decision_flags : Z;
  fb_maximum_scheduled_prompt_token_count : Z;
  fb_total_scheduled_token_count : Z;
  fb_estimated_critical_path_ns : Z;
  fb_stage_decision : SchedulerDecision;
  fb_lanes : list PrefillBatchLane;
}.

Inductive ReservationSettlement := Commit | Cancel.

Record Scheduler := mkScheduler {
  stage_geometry : StagePlanGeometry;
  estimated_layer_cost_ns : Z;
  estimated_final_stage_extra_cost_ns : Z;
  spark_count : Z;
  queue_depth_per_spark : Z;
  measured_profile_id : Z;
  quantization_mode : QuantizationMode;
  max_prefill_tokens_per_step : Z;
  max_context_tokens : Z;
  max_batch_bucket : Z;
  prefix_cache_block_tokens : Z;
  configuration_flags : Z;
  prefix_cache : option PrefixCache;
  spark_inflight_counts : list Z;
  prefill_demand : Z;
  admitted_count : Z;
  rejected_count : Z;
  completed_count : Z;
  scheduled_decode_token_count : Z;
  total_prefill_token_count : Z;  (* [scheduled_prefill_token_count], also the name of a method *)
  prefix_cache_hit_token_count : Z;
  chunked_prefill_count : Z;
  interleaved_prefill_admission_count : Z;
  decode_bypass_admission_count : Z;
  adaptive_decode_pack_admission_count : Z;
  adaptive_decode_pack_request_count : Z;
  adaptive_decode_pack_padding_token_count : Z;
  adaptive_prefill_pack_admission_count : Z;
  adaptive_prefill_pack_request_count : Z;
  adaptive_prefill_pack_padding_token_count : Z;
  measured_decode_bucket_selection_count : Z;
  measured_decode_bucket_padding_token_count : Z;
  kv_block_reservation_count : Z;
  kv_block_reservation_token_count : Z;
  kv_block_cancel_count : Z;
}.

#[export] Instance Scheduler_eta : RecordEta Scheduler := fun s =>
  mkScheduler (stage_geometry s) (estimated_layer_cost_ns s) (estimated_final_stage_extra_cost_ns s)
    (spark_count s) (queue_depth_per_spark s) (measured_profile_id s) (quantization_mode s)
    (max_prefill_tokens_per_step s) (max_context_tokens s) (max_batch_bucket s)
    (prefix_cache_block_tokens s) (configuration_flags s) (prefix_cache s) (spark_inflight_counts s)
    (prefill_demand s) (admitted_count s) (rejected_count s) (completed_count s)
    (scheduled_decode_token_count s) (total_prefill_token_count s) (prefix_cache_hit_token_count s)
    (chunked_prefill_count s) (interleaved_prefill_admission_count s) (decode_bypass_admission_count s)
    (adaptive_decode_pack_admission_count s) (adaptive_decode_pack_request_count s)
    (adaptive_decode_pack_padding_token_count s) (adaptive_prefill_pack_admission_count s)
    (adaptive_prefill_pack_request_count s) (adaptive_prefill_pack_padding_token_count s)
    (measured_decode_bucket_selection_count s) (measured_decode_bucket_padding_token_count s)
    (kv_block_reservation_count s) (kv_block_reservation_token_count s) (kv_block_cancel_count s).

Abbreviation SM := (M Scheduler SchedulerError).

(** [Result] of a planner function with [?]: the planner has no state. *)
Definition on_plan {A} (m : SP A) : SM A := zoom (fun _ => tt) (fun _ s => s) from_plan_error m.

(** [self.prefix_cache.as_mut().ok_or(InvalidArgument)?] and a method of the cache. *)
Definition on_cache {A} (m : PM A) : SM A :=
  let! o := gets prefix_cache in
  match o with
  | None => throw InvalidArgument
  | Some c => zoom (fun s => default c (prefix_cache s)) (fun c' s => s <| prefix_cache := Some c' |>)
                from_cache_error m
  end.

Definition some_or {A} (e : SchedulerError) (o : option A) : SM A :=
  match o with Some a => ret a | None => throw e end.

(** [list.get(..n)] *)
Definition get_prefix (n : Z) (l : list Z) : option (list Z) :=
  if n <=? Z.of_nat (length l) then Some (take (Z.to_nat n) l) else None.

(** ** Construction and settings *)

(** [Scheduler::new]; the queue of the ring starts empty. *)
Definition fresh_scheduler (c : SchedulerConfig) : Scheduler :=
  let depth := if cfg_queue_depth_per_spark c =? 0 then DEFAULT_QUEUE_DEPTH_PER_SPARK
               else cfg_queue_depth_per_spark c in
  let mode := match cfg_quantization_mode c with Auto => Nvfp4_4Bit | mode => mode end in
  let step := if cfg_max_prefill_tokens_per_step c =? 0 then cfg_default_max_prefill_tokens_per_step c
              else cfg_max_prefill_tokens_per_step c in
  let step := if step <? cfg_prefix_cache_block_tokens c then cfg_prefix_cache_block_tokens c else step in
  mkScheduler (cfg_stage_geometry c) (cfg_estimated_layer_cost_ns c)
    (cfg_estimated_final_stage_extra_cost_ns c) (cfg_spark_count c) depth (cfg_measured_profile_id c) mode
    step (cfg_max_context_tokens c) (cfg_max_batch_bucket c) (cfg_prefix_cache_block_tokens c)
    (cfg_configuration_flags c) (cfg_prefix_cache c) (replicate (Z.to_nat (cfg_spark_count c)) 0) 0
    0 0 0 0 0 0 0 0 0 0 0 0 0 0 0 0 0 0 0 0.

Definition new_scheduler (c : SchedulerConfig) : M unit SchedulerError Scheduler :=
  if negb (cfg_max_batch_bucket c =? MAX_BATCH_BUCKET) || (cfg_configuration_flags c =? 0)
     || has_flag (cfg_configuration_flags c) (u32_not CONFIGURATION_KNOWN_FLAGS)
     || (cfg_prefix_cache_block_tokens c =? 0) || (cfg_default_max_prefill_tokens_per_step c =? 0)
     || (cfg_max_context_tokens c =? 0)
  then throw InvalidArgument else
  do! (if has_flag (cfg_configuration_flags c) CONFIGURATION_FLAG_PREFIX_CACHE then
         match cfg_prefix_cache c with
         | None => throw InvalidArgument
         | Some pc => if negb (block_token_count pc =? cfg_prefix_cache_block_tokens c)
                      then throw InvalidArgument else ret tt
         end
       else ret tt) in
  if (cfg_measured_profile_id c =? PROFILE_UNIFORM_ESTIMATED) && (cfg_estimated_layer_cost_ns c =? 0)
  then throw InvalidArgument else
  if (g_layer_count (cfg_stage_geometry c) =? 0) || (MAX_LAYER_COUNT <? g_layer_count (cfg_stage_geometry c))
     || (g_layer_count (cfg_stage_geometry c) <? g_first_routed_layer (cfg_stage_geometry c))
  then throw InvalidArgument else
  ret (fresh_scheduler c).

Definition max_packed_request_count (s : Scheduler) : Z := max_batch_bucket s.

Definition max_batch_request_count (s : Scheduler) : Z :=
  max_batch_bucket s *u32 BATCH_REQUEST_CAPACITY_FACTOR.

Definition kv_block_table_capacity (s : Scheduler) : Z := max_context_tokens s / PREFILL_BLOCK_TOKENS.

Definition prompt_cache_is_enabled (s : Scheduler) : bool :=
  has_flag (configuration_flags s) CONFIGURATION_FLAG_PREFIX_CACHE.

Definition cross_sequence_prefix_reuse_is_enabled (s : Scheduler) : bool :=
  has_flag (configuration_flags s) CONFIGURATION_FLAG_CROSS_SEQUENCE_PREFIX_REUSE.

Definition chunked_prefill_is_enabled (s : Scheduler) : bool :=
  has_flag (configuration_flags s) CONFIGURATION_FLAG_CHUNKED_PREFILL.

Definition cuda_graph_padding_is_enabled (s : Scheduler) : bool :=
  has_flag (configuration_flags s) CONFIGURATION_FLAG_CUDAGRAPH_PADDING.

Definition measured_decode_bucket_selection_is_enabled (s : Scheduler) : bool :=
  has_flag (configuration_flags s) CONFIGURATION_FLAG_MEASURED_DECODE_BUCKET_SELECTION.

Definition prefill_decode_interleave_is_enabled (s : Scheduler) : bool :=
  has_flag (configuration_flags s) CONFIGURATION_FLAG_PREFILL_DECODE_INTERLEAVE.

(** ** Pricing *)

Definition round_down_to_multiple (value multiple : Z) : Z :=
  if multiple =? 0 then value else value -u32 value mod multiple.

(** Slicing the costs panics past the table; [sum] wraps. *)
Definition stage_cost_ns (costs : list Z) (extra : Z) (stage : StagePlanStage) : SM Z :=
  let layer_end := first_layer_index stage +u32 layer_count stage in
  let! layers := slice costs (first_layer_index stage) layer_end in
  let cost := foldl (fun a x => a +u64 x) 0 layers in
  ret (if has_flag (flags stage) STAGE_FLAG_FINAL_TOKEN then cost +u64 extra else cost).

Definition plan_critical_path_ns (plan : StagePlan) (costs : list Z) (extra prefill_block_count : Z) : SM Z :=
  let blocks := Z.max prefill_block_count 1 in
  let! table := slice (stages plan) 0 (stage_count plan) in
  for_fold table (fun stage critical =>
    let! cost := stage_cost_ns costs extra stage in
    let service := cost *u64 blocks in
    ret (if critical <? service then service else critical)) 0.

Definition build_measured_plan_and_costs (batch_bucket : Z) : SM (StagePlan * list Z * Z) :=
  let! s := gets id in
  if measured_profile_id s =? PROFILE_UNIFORM_ESTIMATED then
    let! profile := on_plan (load_uniform_cost_profile (stage_geometry s) (estimated_layer_cost_ns s)
                               (estimated_final_stage_extra_cost_ns s)) in
    let! plan := on_plan (build_balanced_with_final_cost (stage_geometry s) (layer_cost_ns profile)
                            (final_stage_extra_cost_ns profile) (spark_count s)) in
    ret (plan, layer_cost_ns profile, final_stage_extra_cost_ns profile)
  else
    let! plan := on_plan (build_measured_balanced_for_quantization (stage_geometry s) (measured_profile_id s)
                            batch_bucket (quantization_mode s) (spark_count s)) in
    let! profile := on_plan (load_measured_cost_profile_for_quantization (stage_geometry s)
                               (measured_profile_id s) batch_bucket (quantization_mode s)) in
    ret (plan, layer_cost_ns profile, final_stage_extra_cost_ns profile).

(** One candidate of [select_decode_batch_bucket] on [(best_bucket, best_critical_path_ns)]. *)
Definition consider_bucket (active_sequence_count candidate : Z) (best : Z * Z) : SM (Z * Z) :=
  if candidate <? active_sequence_count then ret best else
  let! o := catch (let! x := build_measured_plan_and_costs candidate in ret (Some x)) (fun _ : SchedulerError => ret None) in
  match o with
  | None => ret best
  | Some (plan, costs, extra) =>
      let! critical := plan_critical_path_ns plan costs extra 1 in
      ret (if (critical <? snd best) || ((critical =? snd best) && (candidate <? fst best))
           then (candidate, critical) else best)
  end.

Definition select_decode_batch_bucket (active_sequence_count : Z) : SM (Z * Z) :=
  let! minimal := on_plan (select_batch_bucket active_sequence_count) in
  let! s := gets id in
  if negb (measured_decode_bucket_selection_is_enabled s) || (active_sequence_count <=? BUCKET_B16)
  then ret (minimal, minimal) else
  let! best := for_fold BATCH_BUCKETS (consider_bucket active_sequence_count) (minimal, U64_MAX) in
  ret (fst best, minimal).

Definition select_request_batch_bucket (r : SchedulerRequest) : SM (Z * Z) :=
  if is_decode r then select_decode_batch_bucket (rq_active_sequence_count r) else
  let! bucket := catch (on_plan (select_batch_bucket (rq_active_sequence_count r)))
                   (fun _ : SchedulerError => throw CapacityExceeded) in
  ret (bucket, bucket).

(** ** Capacity *)

Definition stage_has_capacity (spark_index : Z) (request_is_prefill : bool) : SM bool :=
  let! s := gets id in
  if spark_count s <=? spark_index then ret false else
  let! inflight := index (spark_inflight_counts s) spark_index in
  if queue_depth_per_spark s <=? inflight then ret false else
  let reserved_slot := b2z (prefill_decode_interleave_is_enabled s && (1 <? queue_depth_per_spark s)
                            && (request_is_prefill || negb (prefill_demand s =? 0))) in
  ret (negb (negb (reserved_slot =? 0) && ((queue_depth_per_spark s -u32 reserved_slot) <=? inflight))).

Definition decode_bypass_is_active : SM bool :=
  let! s := gets id in
  if negb (prefill_decode_interleave_is_enabled s) then ret false else
  let! counts := slice (spark_inflight_counts s) 0 (spark_count s) in
  ret (existsb (fun count => negb (count =? 0)) counts).

Definition set_prefill_demand (demand : Z) : SM unit :=
  modify (fun s => s <| prefill_demand := b2z (negb (demand =? 0)) |>).

Definition select_pipeline_batch_width (s : Scheduler) (active_request_count batch_capacity : Z) : Z :=
  if (spark_count s =? 0) || (active_request_count =? 0) || (batch_capacity =? 0) then 0 else
  let width := active_request_count / spark_count s in
  let width := if negb (active_request_count mod spark_count s =? 0) then width +u32 1 else width in
  Z.min width batch_capacity.

(** ** The prompt *)

Definition lookup_cached_prefix_token_count (r : SchedulerRequest) : SM Z :=
  let! s := gets id in
  if negb (is_prefill r) || negb (prompt_cache_is_enabled s) || negb (cross_sequence_prefix_reuse_is_enabled s)
  then ret 0 else
  let! token_ids := some_or InvalidArgument (rq_prompt_token_ids r) in
  let! token_ids := some_or InvalidArgument (get_prefix (rq_prompt_token_count r) token_ids) in
  let! lookup := on_cache (probe_prompt (rq_sequence_id r) token_ids) in
  ret (lk_matched_token_count lookup).

(** [Scheduler::reserve_prompt] *)
Definition reserve_request_prompt (r : SchedulerRequest) (token_count : Z) : SM Reservation :=
  let! token_ids := some_or InvalidArgument (rq_prompt_token_ids r) in
  let! token_ids := some_or InvalidArgument (get_prefix token_count token_ids) in
  let! s := gets id in
  if cross_sequence_prefix_reuse_is_enabled s
  then on_cache (reserve_prompt (rq_sequence_id r) token_ids)
  else on_cache (reserve_sequence_prompt (rq_sequence_id r) token_ids).

Definition effective_computed_prompt_token_count (r : SchedulerRequest) (cached : Z) : Z :=
  Z.max (rq_computed_prompt_token_count r) cached.

Definition request_max_prefill_tokens_per_step (s : Scheduler) (r : SchedulerRequest) : Z :=
  let limit := rq_max_scheduled_prompt_token_count r in
  let limit := if (limit =? 0) || (max_prefill_tokens_per_step s <? limit)
               then max_prefill_tokens_per_step s else limit in
  if limit <? prefix_cache_block_tokens s then prefix_cache_block_tokens s else limit.

Definition scheduled_prefill_token_count (s : Scheduler) (r : SchedulerRequest) (computed : Z) : Z :=
  let remaining := rq_prompt_token_count r -u32 computed in
  if negb (chunked_prefill_is_enabled s) then remaining else
  let limit := request_max_prefill_tokens_per_step s r in
  if remaining <=? limit then remaining else
  let scheduled := round_down_to_multiple limit (prefix_cache_block_tokens s) in
  if scheduled =? 0 then Z.min remaining (prefix_cache_block_tokens s) else scheduled.

(** [div_ceil] by zero panics; [new] refuses a zero block size. *)
Definition prefill_block_count (s : Scheduler) (prompt_token_count : Z) : SM Z :=
  if prompt_token_count =? 0 then ret 1
  else if prefix_cache_block_tokens s =? 0 then panic
  else ret (div_ceil prompt_token_count (prefix_cache_block_tokens s)).

Definition flag_when (b : bool) (flag acc : Z) : Z := if b then Z.lor acc flag else acc.

Definition build_dispatch_flags (df : Z) : Z :=
  let f := flag_when (has_flag df DECISION_FLAG_DECODE_STEP) DISPATCH_STAGE_FLAG_DECODE 0 in
  let f := flag_when (has_flag df DECISION_FLAG_PREFILL_STEP) DISPATCH_STAGE_FLAG_PREFILL f in
  let f := flag_when (has_flag df DECISION_FLAG_PREFILL_CHUNK) DISPATCH_STAGE_FLAG_PREFILL_CHUNK f in
  let f := flag_when (has_flag df DECISION_FLAG_PREFILL_FINAL_CHUNK) DISPATCH_STAGE_FLAG_PREFILL_FINAL_CHUNK f in
  let f := flag_when (has_flag df DECISION_FLAG_CUDAGRAPH_PADDING) DISPATCH_STAGE_FLAG_CUDAGRAPH_PADDING f in
  let f := flag_when (has_flag df DECISION_FLAG_PREFILL_RESERVED_DECODE_SLOT)
             DISPATCH_STAGE_FLAG_PREFILL_RESERVED_DECODE_SLOT f in
  let f := flag_when (has_flag df DECISION_FLAG_DECODE_BYPASS_PREFILL) DISPATCH_STAGE_FLAG_DECODE_BYPASS_PREFILL f in
  flag_when (has_flag df DECISION_FLAG_MEASURED_DECODE_BUCKET) DISPATCH_STAGE_FLAG_MEASURED_DECODE_BUCKET f.

Definition build_decision_flags (s : Scheduler) (r : SchedulerRequest) (batch_bucket cached scheduled remaining : Z)
    (decode_bypass_active : bool) : Z :=
  let f := if is_decode r
           then flag_when decode_bypass_active DECISION_FLAG_DECODE_BYPASS_PREFILL DECISION_FLAG_DECODE_STEP else 0 in
  let f := if is_prefill r then
      let f := Z.lor f DECISION_FLAG_PREFILL_STEP in
      let f := flag_when (prefill_decode_interleave_is_enabled s && (1 <? queue_depth_per_spark s))
                 DECISION_FLAG_PREFILL_RESERVED_DECODE_SLOT f in
      let f := flag_when (remaining =? 0) DECISION_FLAG_PREFILL_FINAL_CHUNK f in
      let f := flag_when (negb (scheduled =? 0) && negb (remaining =? 0)) DECISION_FLAG_PREFILL_CHUNK f in
      flag_when (negb (cached =? 0)) DECISION_FLAG_PREFIX_CACHE_USED f
    else f in
  flag_when (cuda_graph_padding_is_enabled s && (rq_active_sequence_count r <? batch_bucket))
    DECISION_FLAG_CUDAGRAPH_PADDING f.

Definition reject (d : SchedulerDecision) (status : SchedulerError) : SM SchedulerDecision :=
  do! modify (fun s => s <| rejected_count := rejected_count s +u64 1 |>) in
  ret (d <| sd_accepted := false |> <| sd_rejected_status := Some status |>).

Definition validate_request (s : Scheduler) (r : SchedulerRequest) : SM unit :=
  if has_flag (rq_flags r) (u32_not REQUEST_KNOWN_FLAGS) || (rq_active_sequence_count r =? 0)
     || eqb (is_decode r) (is_prefill r)
     || (is_decode r && negb (rq_prompt_token_count r =? 0))
     || (is_decode r && negb (rq_computed_prompt_token_count r =? 0))
     || (is_decode r && negb (rq_cached_prefix_token_count r =? 0))
     || (is_decode r && negb (rq_max_scheduled_prompt_token_count r =? 0))
     || (is_decode r && negb (rq_sequence_id r =? 0))
     || (is_decode r && match rq_prompt_token_ids r with Some _ => true | None => false end)
     || (is_prefill r && (rq_prompt_token_count r =? 0))
     || (is_prefill r && negb (rq_cached_prefix_token_count r =? 0))
     || (is_prefill r && prompt_cache_is_enabled s
         && ((rq_sequence_id r =? 0)
             || match rq_prompt_token_ids r with
                | None => true
                | Some ids => Z.of_nat (length ids) <? rq_prompt_token_count r
                end))
     || (is_prefill r && prompt_cache_is_enabled s && cross_sequence_prefix_reuse_is_enabled s
         && negb (rq_computed_prompt_token_count r =? 0))
     || (is_prefill r && (rq_prompt_token_count r <=? rq_computed_prompt_token_count r))
  then throw InvalidArgument else ret tt.

(** ** Decode estimates *)

Definition estimate_decode_chunk_ns (execution_row_count : Z) : SM Z :=
  let! bucket := select_decode_batch_bucket execution_row_count in
  let! '(plan, costs, extra) := build_measured_plan_and_costs (fst bucket) in
  let! work := plan_critical_path_ns plan costs extra 1 in
  if work =? 0 then throw ModuleNotValidated else ret work.

Definition estimate_decode_work_ns (logical_sequence_count rows_per_sequence execution_row_capacity : Z) : SM Z :=
  let! shape := on_plan (execution_chunk_shape logical_sequence_count rows_per_sequence execution_row_capacity) in
  let! '(total, remaining) := for_fold (range 0 (chunk_count shape)) (fun _ acc =>
    let '(total, remaining) := acc in
    let chunk := Z.min remaining (maximum_sequences_per_chunk shape) in
    let! work := estimate_decode_chunk_ns (chunk *u32 rows_per_sequence) in
    if U64_MAX <? total + work then throw CapacityExceeded else
    ret (total + work, remaining -u32 chunk)) (0, logical_sequence_count) in
  if negb (remaining =? 0) then throw InternalError else ret total.

(** ** Admission *)

(** [match m { Ok(x) => .., Err(status) => .. }] *)
Definition attempt {A} (m : SM A) : SM (SchedulerError + A) :=
  catch (let! x := m in ret (inr x)) (fun e : SchedulerError => ret (inl e)).

(** The locals of [admit] that describe the prefill step. *)
Record PrefillStep := mkPrefillStep {
  st_cached : Z;
  st_computed : Z;
  st_scheduled : Z;
  st_remaining : Z;
  st_blocks : Z;
  st_reservation : option Reservation;
}.

(** Their values for a decode. *)
Definition decode_step : PrefillStep := mkPrefillStep 0 0 0 0 1 None.

Definition plan_prefill (r : SchedulerRequest) : SM PrefillStep :=
  let! cached := lookup_cached_prefix_token_count r in
  let! s := gets id in
  let computed := effective_computed_prompt_token_count r cached in
  let scheduled := scheduled_prefill_token_count s r computed in
  let remaining := rq_prompt_token_count r -u32 computed -u32 scheduled in
  let! blocks := prefill_block_count s scheduled in
  if prompt_cache_is_enabled s then
    let! reservation := reserve_request_prompt r (computed +u32 scheduled) in
    ret (mkPrefillStep cached computed scheduled remaining blocks (Some reservation))
  else ret (mkPrefillStep cached computed scheduled remaining blocks None).

(** The capacity check: the index of no stage, or the first one that is full. *)
Definition first_full_stage (count : Z) (request_is_prefill : bool) : SM (option Z) :=
  for_return (range 0 count) (fun i =>
    let! free := stage_has_capacity i request_is_prefill in ret (if free : bool then None else Some i)).

(** The parent hash of the scheduled chunk; a hash failure gives the reservation back. *)
Definition hash_parent (r : SchedulerRequest) (computed reservation_epoch : Z) : SM (SchedulerError + Z) :=
  if computed =? 0 then ret (inr EMPTY_PARENT_HASH) else
  let! s := gets id in
  let! token_ids := some_or InvalidArgument (rq_prompt_token_ids r) in
  let! hash_prefix := some_or InvalidArgument (get_prefix computed token_ids) in
  let! h := attempt (zoom (fun _ => tt) (fun _ s => s) from_cache_error
              (hash_prompt_tokens (prefix_cache_block_tokens s) EMPTY_PARENT_HASH hash_prefix)) in
  match h with
  | inr prompt_hash => ret (inr (ph_prompt_hash prompt_hash))
  | inl status => do! ignore (on_cache (cancel_reservation (rq_sequence_id r) reservation_epoch)) in ret (inl status)
  end.

(** The reservation's part of the decision. *)
Definition stamp_reservation (s : Scheduler) (rs : Reservation) (d : SchedulerDecision) : SchedulerDecision :=
  d <| sd_kv_block_token_count := prefix_cache_block_tokens s |>
    <| sd_kv_physical_block_count := rs_physical_block_count rs |>
    <| sd_kv_cached_physical_block_count := rs_cached_physical_block_count rs |>
    <| sd_kv_pending_physical_block_count := rs_pending_physical_block_count rs |>
    <| sd_kv_block_table_token_count := rs_reserved_token_count rs |>
    <| sd_prefix_cache_reservation_epoch := rs_reservation_epoch rs |>
    <| sd_prefix_cache_result_hash := rs_last_block_hash rs |>
    <| sd_kv_physical_block_indices := rs_physical_block_indices rs |>.

(** The fields set before the reservation is stamped. *)
Definition stamp_request (s : Scheduler) (r : SchedulerRequest) (batch_bucket decision_flags : Z) (st : PrefillStep)
    (d : SchedulerDecision) : SchedulerDecision :=
  d <| sd_accepted := true |> <| sd_batch_bucket := batch_bucket |>
    <| sd_stage_count := stage_count (sd_stage_plan d) |> <| sd_rejected_status := None |>
    <| sd_decision_flags := decision_flags |> <| sd_active_sequence_count := rq_active_sequence_count r |>
    <| sd_graph_sequence_capacity := batch_bucket |>
    <| sd_graph_sequence_padding_count := batch_bucket -u32 rq_active_sequence_count r |>
    <| sd_prompt_token_count := rq_prompt_token_count r |>
    <| sd_computed_prompt_token_count := st_computed st |>
    <| sd_cached_prefix_token_count := st_cached st |>
    <| sd_prefix_cache_block_count := st_cached st / prefix_cache_block_tokens s |>
    <| sd_scheduled_prompt_token_offset := st_computed st |>
    <| sd_scheduled_prompt_token_count := st_scheduled st |>
    <| sd_remaining_prompt_token_count_after_step := st_remaining st |>
    <| sd_prefill_block_count := st_blocks st |>
    <| sd_cache_commit_token_count_after_step := st_computed st +u32 st_scheduled st |>.

(** One stage of the dispatch loop on [(dispatch_stages, estimated_critical_path_ns)]; the
    template holds the fields that are the same for all stages. *)
Definition dispatch_round (template : DispatchStage) (plan : StagePlan) (costs : list Z) (extra blocks : Z)
    (stage_index : Z) (acc : list DispatchStage * Z) : SM (list DispatchStage * Z) :=
  let! stage := index (stages plan) stage_index in
  let! cost := stage_cost_ns costs extra stage in
  let service := cost *u64 blocks in
  let! s := gets id in
  do! index (spark_inflight_counts s) stage_index in
  do! modify (fun s => s <| spark_inflight_counts :=
        upd_nth stage_index (fun n => n +u32 1) (spark_inflight_counts s) |>) in
  ret (fst acc ++ [template <| ds_spark_index := u32 stage_index |>
                     <| ds_first_layer_index := first_layer_index stage |>
                     <| ds_layer_count := layer_count stage |>
                     <| ds_stage_flags := flags stage |>
                     <| ds_estimated_service_time_ns := service |>],
       if snd acc <? service then service else snd acc).

(** The statistics of an accepted request. *)
Definition account_admission (r : SchedulerRequest) (cached : Z) (d : SchedulerDecision) (s : Scheduler) : Scheduler :=
  let df := sd_decision_flags d in
  let s := s <| admitted_count := admitted_count s +u64 1 |> in
  if is_prefill r then
    let s := s <| total_prefill_token_count := total_prefill_token_count s +u64 sd_total_scheduled_token_count d |>
               <| prefix_cache_hit_token_count :=
                    prefix_cache_hit_token_count s +u64 (rq_active_sequence_count r *u64 cached) |> in
    let s := if has_flag df DECISION_FLAG_PREFILL_CHUNK
             then s <| chunked_prefill_count := chunked_prefill_count s +u64 1 |> else s in
    let s := if has_flag df DECISION_FLAG_PREFILL_RESERVED_DECODE_SLOT
             then s <| interleaved_prefill_admission_count := interleaved_prefill_admission_count s +u64 1 |> else s in
    if prompt_cache_is_enabled s then
      s <| kv_block_reservation_count := kv_block_reservation_count s +u64 sd_kv_pending_physical_block_count d |>
        <| kv_block_reservation_token_count := kv_block_reservation_token_count s +u64 sd_kv_block_table_token_count d |>
    else s
  else
    let s := s <| scheduled_decode_token_count := scheduled_decode_token_count s +u64 sd_total_scheduled_token_count d |> in
    let s := if has_flag df DECISION_FLAG_DECODE_BYPASS_PREFILL
             then s <| decode_bypass_admission_count := decode_bypass_admission_count s +u64 1 |> else s in
    if has_flag df DECISION_FLAG_MEASURED_DECODE_BUCKET then
      s <| measured_decode_bucket_selection_count := measured_decode_bucket_selection_count s +u64 1 |>
        <| measured_decode_bucket_padding_token_count :=
             measured_decode_bucket_padding_token_count s +u64 sd_graph_sequence_padding_count d |>
    else s.

(** The end of [admit]: dispatch every stage and count the admission. *)
Definition dispatch_request (r : SchedulerRequest) (batch_bucket dispatch_flags : Z) (st : PrefillStep)
    (costs : list Z) (extra : Z) (d : SchedulerDecision) : SM SchedulerDecision :=
  let plan := sd_stage_plan d in
  let d := d <| sd_sequence_id := rq_sequence_id r |>
             <| sd_prompt_token_ids := match rq_prompt_token_ids r with Some ids => ids | None => sd_prompt_token_ids d end |>
             <| sd_total_scheduled_token_count :=
                  if is_prefill r then rq_active_sequence_count r *u64 st_scheduled st else rq_active_sequence_count r |> in
  let template := mkDispatchStage 0 batch_bucket 0 0 0 dispatch_flags (rq_active_sequence_count r) batch_bucket
    (batch_bucket -u32 rq_active_sequence_count r) (st_computed st) (st_scheduled st) (st_cached st) 0 in
  let! dispatched := for_fold (range 0 (stage_count plan))
    (dispatch_round template plan costs extra (st_blocks st)) ([], 0) in
  let d := d <| sd_dispatch_stages := fst dispatched |> <| sd_estimated_critical_path_ns := snd dispatched |> in
  do! modify (account_admission r (st_cached st) d) in
  ret d.

(** [admit] once the ring has room and the prompt is planned. *)
Definition accept_request (r : SchedulerRequest) (batch_bucket minimal_batch_bucket : Z) (costs : list Z) (extra : Z)
    (st : PrefillStep) (d : SchedulerDecision) : SM SchedulerDecision :=
  let! bypass := (if is_decode r then decode_bypass_is_active else ret false) in
  let! s := gets id in
  let df := build_decision_flags s r batch_bucket (st_cached st) (st_scheduled st) (st_remaining st) bypass in
  let df := flag_when (is_decode r && negb (batch_bucket =? minimal_batch_bucket)) DECISION_FLAG_MEASURED_DECODE_BUCKET df in
  if prefix_cache_block_tokens s =? 0 then panic else
  let d := stamp_request s r batch_bucket df st d in
  if is_prefill r && prompt_cache_is_enabled s then
    let! rs := some_or InternalError (st_reservation st) in
    let d := stamp_reservation s rs d in
    let! h := hash_parent r (st_computed st) (rs_reservation_epoch rs) in
    match h with
    | inl status => reject d status
    | inr parent => dispatch_request r batch_bucket (build_dispatch_flags df) st costs extra
                      (d <| sd_prefix_cache_parent_hash := parent |>)
    end
  else dispatch_request r batch_bucket (build_dispatch_flags df) st costs extra d.

(** [Scheduler::admit] *)
Definition scheduler_admit (r : SchedulerRequest) : SM SchedulerDecision :=
  let! s := gets id in
  do! validate_request s r in
  let d := empty_decision (quantization_mode s) (spark_count s) in
  let! buckets := attempt (select_request_batch_bucket r) in
  match buckets with
  | inl status => reject d status
  | inr (batch_bucket, minimal_batch_bucket) =>
      let! planned := attempt (build_measured_plan_and_costs batch_bucket) in
      match planned with
      | inl status => reject d status
      | inr (plan, costs, extra) =>
          let d := d <| sd_stage_plan := plan |> in
          let! full := first_full_stage (stage_count plan) (is_prefill r) in
          match full with
          | Some _ => reject d Busy
          | None =>
              let! step := attempt (if is_prefill r then plan_prefill r else ret decode_step) in
              match step with
              | inl status => reject d status
              | inr st => accept_request r batch_bucket minimal_batch_bucket costs extra st d
              end
          end
      end
  end.

(** ** Retiring a decision *)

Definition validate_accepted_decision (s : Scheduler) (d : SchedulerDecision) : SM unit :=
  if negb (sd_accepted d) || (sd_stage_count d =? 0) || (spark_count s <? sd_stage_count d)
     || (Z.of_nat (length (sd_dispatch_stages d)) <? sd_stage_count d)
  then throw InvalidArgument else ret tt.

(** The check of every stage, then the decrement of every stage. *)
Definition release_decision_inflight (d : SchedulerDecision) : SM unit :=
  do! for_fold (range 0 (sd_stage_count d)) (fun i _ =>
        let! stage := index (sd_dispatch_stages d) i in
        let! s := gets id in
        if spark_count s <=? ds_spark_index stage then throw InvalidArgument else
        let! count := index (spark_inflight_counts s) (ds_spark_index stage) in
        if count =? 0 then throw InvalidArgument else ret tt) tt in
  for_fold (range 0 (sd_stage_count d)) (fun i _ =>
    let! stage := index (sd_dispatch_stages d) i in
    let! s := gets id in
    do! index (spark_inflight_counts s) (ds_spark_index stage) in
    modify (fun s => s <| spark_inflight_counts :=
      upd_nth (ds_spark_index stage) (fun n => n -u32 1) (spark_inflight_counts s) |>)) tt.

Definition complete (d : SchedulerDecision) : SM unit :=
  let! s := gets id in
  do! validate_accepted_decision s d in
  do! release_decision_inflight d in
  when! has_flag (sd_decision_flags d) DECISION_FLAG_PREFILL_STEP && prompt_cache_is_enabled s
        && negb (sd_cache_commit_token_count_after_step d =? 0) then
    on_cache (commit_reservation (sd_sequence_id d) (sd_prefix_cache_reservation_epoch d)) in
  modify (fun s => s <| completed_count := completed_count s +u64 1 |>).

Definition cancel (d : SchedulerDecision) : SM unit :=
  let! s := gets id in
  do! validate_accepted_decision s d in
  do! release_decision_inflight d in
  if has_flag (sd_decision_flags d) DECISION_FLAG_PREFILL_STEP && prompt_cache_is_enabled s
     && negb (sd_prefix_cache_reservation_epoch d =? 0)
  then do! on_cache (cancel_reservation (sd_sequence_id d) (sd_prefix_cache_reservation_epoch d)) in
       modify (fun s => s <| kv_block_cancel_count := kv_block_cancel_count s +u64 1 |>)
  else ret tt.

(** ** Decode batches *)

Definition validate_decode_batch_request (requests : list SchedulerRequest) : SM unit :=
  let! s := gets id in
  if (Z.of_nat (length requests) =? 0) || (max_batch_request_count s <? u32 (Z.of_nat (length requests)))
  then throw InvalidArgument else
  for_fold requests (fun r _ =>
    do! validate_request s r in if negb (is_decode r) then throw InvalidArgument else ret tt) tt.

Definition reject_decode_batch (source_request_count : Z) (status : SchedulerError) : BatchDecision :=
  mkBatchDecision false (Some status) source_request_count 0 0 0 0 0 0 0 0 (empty_decision Nvfp4_4Bit 0) [].

(** The packing loop on [(packed_requests, active_sequence_offset, active_sequence_count)]. *)
Fixpoint pack_decode (limit request_index : Z) (requests : list SchedulerRequest) (acc : list PackedRequest * Z * Z)
    : SchedulerError + list PackedRequest * Z * Z :=
  let '(packed, offset, active) := acc in
  match requests with
  | [] => inr acc
  | r :: rest =>
      if limit <=? u32 (Z.of_nat (length packed)) then inr acc
      else if limit <? rq_active_sequence_count r then inl CapacityExceeded
      else if limit <? (active +u32 rq_active_sequence_count r) then inr acc
      else pack_decode limit (request_index + 1) rest
        (packed ++ [mkPackedRequest (u32 request_index) offset (rq_active_sequence_count r) (rq_flags r)
                      (rq_active_sequence_count r) (rq_active_sequence_count r)],
         offset +u32 rq_active_sequence_count r, active +u32 rq_active_sequence_count r)
  end.

(** The flags an accepted aggregate gets; slicing past the stages panics. *)
Definition mark_adaptive_decode (d : SchedulerDecision) : SM SchedulerDecision :=
  let n := sd_stage_count d in
  do! slice (sd_dispatch_stages d) 0 n in
  ret (d <| sd_decision_flags := Z.lor (sd_decision_flags d) DECISION_FLAG_ADAPTIVE_DECODE_PACK |>
         <| sd_dispatch_stages :=
              ((fun st => st <| ds_dispatch_flags := Z.lor (ds_dispatch_flags st) DISPATCH_STAGE_FLAG_ADAPTIVE_DECODE_PACK |>)
                 <$> take (Z.to_nat n) (sd_dispatch_stages d)) ++ drop (Z.to_nat n) (sd_dispatch_stages d) |>).

Definition admit_decode_batch (requests : list SchedulerRequest) : SM BatchDecision :=
  let source_request_count := u32 (Z.of_nat (length requests)) in
  do! validate_decode_batch_request requests in
  let! s := gets id in
  match pack_decode (max_packed_request_count s) 0 requests ([], 0, 0) with
  | inl status => ret (reject_decode_batch source_request_count status)
  | inr (packed, _, active) =>
      let count := u32 (Z.of_nat (length packed)) in
      if (count =? 0) || (active =? 0) then ret (reject_decode_batch source_request_count CapacityExceeded) else
      let! d := scheduler_admit (decode_request active) in
      if negb (sd_accepted d)
      then ret (reject_decode_batch source_request_count (default InternalError (sd_rejected_status d))) else
      let! d := mark_adaptive_decode d in
      let b := mkBatchDecision true None source_request_count count (sd_batch_bucket d) active
        (sd_graph_sequence_capacity d) (sd_graph_sequence_padding_count d) (sd_decision_flags d)
        (sd_total_scheduled_token_count d) (sd_estimated_critical_path_ns d) d packed in
      do! modify (fun s =>
        s <| adaptive_decode_pack_admission_count := adaptive_decode_pack_admission_count s +u64 1 |>
          <| adaptive_decode_pack_request_count := adaptive_decode_pack_request_count s +u64 count |>
          <| adaptive_decode_pack_padding_token_count :=
               adaptive_decode_pack_padding_token_count s +u64 bd_graph_sequence_padding_count b |>) in
      ret b
  end.

Definition validate_accepted_decode_batch (b : BatchDecision) : SM unit :=
  if negb (bd_accepted b) || (bd_packed_request_count b =? 0)
     || negb (has_flag (bd_decision_flags b) DECISION_FLAG_ADAPTIVE_DECODE_PACK)
  then throw InvalidArgument else ret tt.

Definition complete_decode_batch (b : BatchDecision) : SM unit :=
  do! validate_accepted_decode_batch b in complete (bd_stage_decision b).

Definition cancel_decode_batch (b : BatchDecision) : SM unit :=
  do! validate_accepted_decode_batch b in release_decision_inflight (bd_stage_decision b).

(** ** Prefill batches *)

Definition validate_prefill_batch_request (requests : list SchedulerRequest) : SM unit :=
  let! s := gets id in
  if (Z.of_nat (length requests) =? 0) || (max_batch_request_count s <? u32 (Z.of_nat (length requests)))
  then throw InvalidArgument else
  for_fold requests (fun r _ =>
    do! validate_request s r in
    if negb (is_prefill r) || negb (rq_active_sequence_count r =? 1) then throw InvalidArgument else ret tt) tt.

Definition reject_prefill_batch (source_request_count : Z) (status : SchedulerError) : PrefillBatchDecision :=
  mkPrefillBatchDecision false (Some status) source_request_count 0 0 0 0 0 0 0 0 0 (empty_decision Nvfp4_4Bit 0) [].

Definition cancel_accepted_prefill_batch_reservations (lanes : list PrefillBatchLane) : SM unit :=
  let! s := gets id in
  if negb (prompt_cache_is_enabled s) then ret tt else
  for_fold lanes (fun lane _ =>
    if bl_prefix_cache_reservation_epoch lane =? 0 then ret tt
    else on_cache (cancel_reservation (bl_sequence_id lane) (bl_prefix_cache_reservation_epoch lane))) tt.

(** The counting loop on [(active_sequence_count, packed_request_count)]. *)
Fixpoint pack_prefill (limit : Z) (requests : list SchedulerRequest) (active packed : Z) : Z * Z :=
  match requests with
  | [] => (active, packed)
  | r :: rest =>
      if (limit <=? packed) || (limit <? (active +u32 rq_active_sequence_count r)) then (active, packed)
      else pack_prefill limit rest (active +u32 rq_active_sequence_count r) (packed +u32 1)
  end.

(** The locals the lane loop accumulates. *)
Record PrefillTotals := mkTotals {
  pt_lanes : list PrefillBatchLane;
  pt_maximum_scheduled : Z;
  pt_maximum_blocks : Z;
  pt_any_remaining : bool;
  pt_cached : Z;
  pt_pending : Z;
  pt_scheduled : Z;
}.

(** Give back what the batch has reserved so far, then fail. *)
Definition abandon_batch {A} (lanes : list PrefillBatchLane) (status : SchedulerError) : SM A :=
  do! ignore (cancel_accepted_prefill_batch_reservations lanes) in throw status.

(** [SparkSchedulerInitializePrefillBatchLane] *)
Definition make_lane (s : Scheduler) (i : Z) (r : SchedulerRequest) (cached computed scheduled : Z) (rs : Reservation)
    (parent_hash : Z) : PrefillBatchLane :=
  mkLane (u32 i) (u32 i) (rq_active_sequence_count r) (rq_prompt_token_count r) computed cached computed scheduled
    (rq_prompt_token_count r -u32 computed -u32 scheduled) (computed +u32 scheduled)
    (cached / prefix_cache_block_tokens s) (prefix_cache_block_tokens s) (rs_physical_block_count rs)
    (rs_cached_physical_block_count rs) (rs_pending_physical_block_count rs) (rs_reserved_token_count rs)
    (rs_reservation_epoch rs) parent_hash (rs_last_block_hash rs) (rq_sequence_id r)
    (default [] (rq_prompt_token_ids r)).

Definition lane_round (x : Z * SchedulerRequest) (t : PrefillTotals) : SM PrefillTotals :=
  let '(i, r) := x in
  let! cached := catch (lookup_cached_prefix_token_count r) (abandon_batch (pt_lanes t)) in
  let! s := gets id in
  let computed := effective_computed_prompt_token_count r cached in
  let scheduled := scheduled_prefill_token_count s r computed in
  if scheduled =? 0 then abandon_batch (pt_lanes t) InvalidArgument else
  let! rs := catch (reserve_request_prompt r (computed +u32 scheduled)) (abandon_batch (pt_lanes t)) in
  let! h := hash_parent r computed (rs_reservation_epoch rs) in
  match h with
  | inl status => abandon_batch (pt_lanes t) status
  | inr parent_hash =>
      if prefix_cache_block_tokens s =? 0 then panic else
      let lane := make_lane s i r cached computed scheduled rs parent_hash in
      let! blocks := prefill_block_count s scheduled in
      ret (mkTotals (pt_lanes t ++ [lane])
             (if pt_maximum_scheduled t <? scheduled then scheduled else pt_maximum_scheduled t)
             (if pt_maximum_blocks t <? blocks then blocks else pt_maximum_blocks t)
             (pt_any_remaining t || negb (bl_remaining_prompt_token_count_after_step lane =? 0))
             (pt_cached t +u32 cached) (pt_pending t +u32 rs_pending_physical_block_count rs)
             (pt_scheduled t +u64 scheduled))
  end.

Definition prefill_batch_flags (s : Scheduler) (t : PrefillTotals) (padding : Z) : Z :=
  let f := Z.lor DECISION_FLAG_PREFILL_STEP DECISION_FLAG_ADAPTIVE_PREFILL_PACK in
  let f := Z.lor f (if pt_any_remaining t then DECISION_FLAG_PREFILL_CHUNK else DECISION_FLAG_PREFILL_FINAL_CHUNK) in
  let f := flag_when (negb (pt_cached t =? 0)) DECISION_FLAG_PREFIX_CACHE_USED f in
  let f := flag_when (negb (padding =? 0) && cuda_graph_padding_is_enabled s) DECISION_FLAG_CUDAGRAPH_PADDING f in
  flag_when (prefill_decode_interleave_is_enabled s && (1 <? queue_depth_per_spark s))
    DECISION_FLAG_PREFILL_RESERVED_DECODE_SLOT f.

(** The statistics of an accepted prefill batch. *)
Definition account_prefill_batch (t : PrefillTotals) (df count padding : Z) (s : Scheduler) : Scheduler :=
  let s := s <| admitted_count := admitted_count s +u64 1 |>
             <| total_prefill_token_count := total_prefill_token_count s +u64 pt_scheduled t |>
             <| prefix_cache_hit_token_count := prefix_cache_hit_token_count s +u64 pt_cached t |> in
  let s := if has_flag df DECISION_FLAG_PREFILL_CHUNK
           then s <| chunked_prefill_count := chunked_prefill_count s +u64 1 |> else s in
  let s := if has_flag df DECISION_FLAG_PREFILL_RESERVED_DECODE_SLOT
           then s <| interleaved_prefill_admission_count := interleaved_prefill_admission_count s +u64 1 |> else s in
  s <| kv_block_reservation_count := kv_block_reservation_count s +u64 pt_pending t |>
    <| kv_block_reservation_token_count := kv_block_reservation_token_count s +u64 pt_scheduled t |>
    <| adaptive_prefill_pack_admission_count := adaptive_prefill_pack_admission_count s +u64 1 |>
    <| adaptive_prefill_pack_request_count := adaptive_prefill_pack_request_count s +u64 count |>
    <| adaptive_prefill_pack_padding_token_count := adaptive_prefill_pack_padding_token_count s +u64 padding |>.

(** The end of [admit_prefill_batch]: the stage decision, the dispatch loop, the counters. *)
Definition dispatch_prefill_batch (source_request_count active count batch_bucket : Z) (plan : StagePlan)
    (profile : CostProfile) (t : PrefillTotals) : SM PrefillBatchDecision :=
  let! s := gets id in
  let padding := batch_bucket -u32 active in
  let df := prefill_batch_flags s t padding in
  let dispatch_flags := Z.lor (build_dispatch_flags df) DISPATCH_STAGE_FLAG_ADAPTIVE_PREFILL_PACK in
  let d := (empty_decision (quantization_mode s) (spark_count s))
    <| sd_stage_plan := plan |> <| sd_accepted := true |> <| sd_batch_bucket := batch_bucket |>
    <| sd_stage_count := stage_count plan |> <| sd_rejected_status := None |> <| sd_decision_flags := df |>
    <| sd_active_sequence_count := active |> <| sd_graph_sequence_capacity := batch_bucket |>
    <| sd_graph_sequence_padding_count := padding |> <| sd_scheduled_prompt_token_count := pt_maximum_scheduled t |>
    <| sd_prefill_block_count := pt_maximum_blocks t |> <| sd_total_scheduled_token_count := pt_scheduled t |> in
  let template := mkDispatchStage 0 batch_bucket 0 0 0 dispatch_flags active batch_bucket padding 0
    (pt_maximum_scheduled t) 0 0 in
  let! dispatched := for_fold (range 0 (stage_count plan))
    (dispatch_round template plan (layer_cost_ns profile) (final_stage_extra_cost_ns profile) (pt_maximum_blocks t))
    ([], 0) in
  let d := d <| sd_dispatch_stages := fst dispatched |> <| sd_estimated_critical_path_ns := snd dispatched |> in
  do! modify (account_prefill_batch t df count padding) in
  ret (mkPrefillBatchDecision true None source_request_count count batch_bucket active batch_bucket padding df
         (pt_maximum_scheduled t) (pt_scheduled t) (snd dispatched) d (pt_lanes t)).

(** The measured plan and its profile; the batch path has no uniform fallback. *)
Definition plan_prefill_batch (active : Z) : SM (Z * StagePlan * CostProfile) :=
  let! s := gets id in
  let! batch_bucket := on_plan (select_batch_bucket active) in
  let! plan := on_plan (build_measured_balanced_for_quantization (stage_geometry s) (measured_profile_id s)
                          batch_bucket (quantization_mode s) (spark_count s)) in
  let! profile := on_plan (load_measured_cost_profile_for_quantization (stage_geometry s) (measured_profile_id s)
                             batch_bucket (quantization_mode s)) in
  ret (batch_bucket, plan, profile).

Definition admit_prefill_batch (requests : list SchedulerRequest) : SM PrefillBatchDecision :=
  let source_request_count := u32 (Z.of_nat (length requests)) in
  do! validate_prefill_batch_request requests in
  let! s := gets id in
  let '(active, count) := pack_prefill (max_packed_request_count s) requests 0 0 in
  if (count =? 0) || (active =? 0) then ret (reject_prefill_batch source_request_count CapacityExceeded) else
  let! planned := attempt (plan_prefill_batch active) in
  match planned with
  | inl status => ret (reject_prefill_batch source_request_count status)
  | inr (batch_bucket, plan, profile) =>
      let! full := first_full_stage (stage_count plan) true in
      match full with
      | Some _ => ret (reject_prefill_batch source_request_count Busy)
      | None =>
          let! packed := slice requests 0 count in
          let! t := for_fold (zip (range 0 count) packed) lane_round (mkTotals [] 0 1 false 0 0 0) in
          dispatch_prefill_batch source_request_count active count batch_bucket plan profile t
      end
  end.

Definition validate_accepted_prefill_batch_decision (s : Scheduler) (b : PrefillBatchDecision) : SM unit :=
  if negb (fb_accepted b) || (fb_packed_request_count b =? 0)
     || (max_packed_request_count s <? fb_packed_request_count b)
     || negb (sd_accepted (fb_stage_decision b))
     || negb (has_flag (fb_decision_flags b) DECISION_FLAG_ADAPTIVE_PREFILL_PACK)
     || (Z.of_nat (length (fb_lanes b)) <? fb_packed_request_count b)
  then throw InvalidArgument else ret tt.

Definition settle_lane (settlement : ReservationSettlement) (lane : PrefillBatchLane) : SM unit :=
  if bl_prefix_cache_reservation_epoch lane =? 0 then ret tt else
  match settlement with
  | Commit => on_cache (commit_reservation (bl_sequence_id lane) (bl_prefix_cache_reservation_epoch lane))
  | Cancel => on_cache (cancel_reservation (bl_sequence_id lane) (bl_prefix_cache_reservation_epoch lane))
  end.

Definition retire_prefill_batch (b : PrefillBatchDecision) (settlement : ReservationSettlement) : SM unit :=
  let! s := gets id in
  do! validate_accepted_prefill_batch_decision s b in
  do! release_decision_inflight (fb_stage_decision b) in
  let! lanes := slice (fb_lanes b) 0 (fb_packed_request_count b) in
  do! for_fold lanes (fun lane _ => settle_lane settlement lane) tt in
  match settlement with
  | Commit => modify (fun s => s <| completed_count := completed_count s +u64 1 |>)
  | Cancel => modify (fun s => s <| kv_block_cancel_count := kv_block_cancel_count s +u64 1 |>)
  end.

Definition complete_prefill_batch (b : PrefillBatchDecision) : SM unit := retire_prefill_batch b Commit.

Definition cancel_prefill_batch (b : PrefillBatchDecision) : SM unit := retire_prefill_batch b Cancel.

(** ** Block tables and release *)

Definition build_kv_block_table (d : SchedulerDecision) : SM (list Z) :=
  let! s := gets id in
  do! validate_accepted_decision s d in
  if negb (prompt_cache_is_enabled s) || negb (has_flag (sd_decision_flags d) DECISION_FLAG_PREFILL_STEP)
  then throw InvalidArgument else
  on_cache (build_physical_block_table (sd_sequence_id d) (sd_kv_block_table_token_count d)).

Definition build_prefill_batch_kv_block_tables (b : PrefillBatchDecision) (lane_capacity : Z) : SM (list (list Z)) :=
  let! s := gets id in
  do! validate_accepted_prefill_batch_decision s b in
  if negb (prompt_cache_is_enabled s) || (lane_capacity =? 0) then throw InvalidArgument else
  let! lanes := slice (fb_lanes b) 0 (fb_packed_request_count b) in
  for_fold lanes (fun lane tables =>
    if (bl_sequence_id lane =? 0) || (bl_kv_block_table_token_count lane =? 0) then throw InvalidArgument else
    let! table := on_cache (build_physical_block_table (bl_sequence_id lane) (bl_kv_block_table_token_count lane)) in
    if lane_capacity <? u32 (Z.of_nat (length table)) then throw CapacityExceeded else ret (tables ++ [table])) [].

(** [Scheduler::release_sequence] *)
Definition scheduler_release_sequence (sequence_id : Z) : SM unit :=
  if sequence_id =? 0 then throw InvalidArgument else
  let! s := gets id in
  if negb (prompt_cache_is_enabled s) then ret tt else on_cache (release_sequence sequence_id).
