(* ===== verification/SchedulerInv.v ===== *)
(** * The scheduler: pricing, capacity and the prompt

    Specifications of the parts [admit] and the batch admissions are made of.  A plan's
    price is the cost of its slowest stage, and the planner makes it minimal; every
    admitted step holds one slot of every stage of the ring, so the in-flight counts are
    all equal to the number of outstanding steps; planning a prefill schedules a chunk
    of the prompt behind its cached prefix and reserves it in the prefix cache. *)

From S2P Require Import Prelude FreeList KvArena StagePlan StagePlanProps PrefixCache PrefixCacheInv PrefixCacheSpecs.
From S2P Require Import PrefixCacheGrow PrefixCacheProps Scheduler.

(** ** Prices *)

(** What each stage of the cut [ks] costs; the last one is charged [extra]. *)
Fixpoint prices (costs : list Z) (extra first : Z) (ks : list Z) : list Z :=
  match ks with
  | [] => []
  | k :: ks' => (layers_cost costs first k + match ks' with [] => extra | _ => 0 end) :: prices costs extra (first + k) ks'
  end.

Definition largest (l : list Z) : Z := foldr Z.max 0 l.

Lemma largest_snoc l x : 0 <= x -> largest (l ++ [x]) = Z.max (largest l) x.
Proof.
  intros Hx. unfold largest. induction l as [|y l IH]; cbn [app foldr]; [lia|]. rewrite IH. lia.
Qed.

Lemma largest_ge l x : x ∈ l -> x <= largest l.
Proof. unfold largest. induction 1; cbn [foldr]; lia. Qed.

Lemma max_stage_cost_prices costs extra first ks : max_stage_cost costs extra first ks = largest (prices costs extra first ks).
Proof. unfold largest. revert first. induction ks as [|k ks IH]; intros first; cbn [max_stage_cost prices foldr]; [done|]. by rewrite IH. Qed.

Lemma length_prices costs extra first ks : length (prices costs extra first ks) = length ks.
Proof. revert first. induction ks as [|k ks IH]; intros first; cbn; [done|]. by rewrite IH. Qed.

Lemma lookup_prices costs extra first ks i k :
  ks !! i = Some k ->
  prices costs extra first ks !! i =
    Some (layers_cost costs (first + sumZ (take i ks)) k + if Z.of_nat i + 1 <? Z.of_nat (length ks) then 0 else extra).
Proof.
  revert first i. induction ks as [|x ks IH]; intros first [|i] Hk; cbn [prices lookup list_lookup] in *; [done..| |].
  - injection Hk as ->. cbn [take]. change (sumZ []) with 0. rewrite Z.add_0_r. f_equal. f_equal. cbn [length].
    destruct ks; cbn [length]; [done|]. destruct (Z.ltb_spec (Z.of_nat 0 + 1) (Z.of_nat (S (S (length ks))))); [done|lia].
  - rewrite (IH _ _ Hk). f_equal. cbn [take length]. rewrite sumZ_cons, Z.add_assoc. f_equal.
    destruct (Z.ltb_spec (Z.of_nat i + 1) (Z.of_nat (length ks))), (Z.ltb_spec (Z.of_nat (S i) + 1) (Z.of_nat (S (length ks)))); lia.
Qed.

(** [iter().sum()] is the sum while it fits. *)
Lemma wrapping_sum l : forall a, 0 <= a -> Forall (fun x => 0 <= x) l -> a + sumZ l <= U64_MAX ->
  foldl (fun a x => a +u64 x) a l = a + sumZ l.
Proof.
  induction l as [|x l IH]; intros a Ha Hl Hs; cbn [foldl]; [change (sumZ []) with 0; lia|].
  inversion_clear Hl. rewrite sumZ_cons in *. pose proof (sumZ_nonneg l ltac:(done)). rewrite u64_small by lia.
  rewrite IH by (done || lia). lia.
Qed.

(** ** The configuration *)

(** A cut of the ring that is legal, affordable and no slower than any other. *)
Record best_cut (s : Scheduler) (costs : list Z) (extra : Z) (ks : list Z) : Prop := {
  bc_length : Z.of_nat (length ks) = spark_count s;
  bc_cut : cut_ok (stage_geometry s) ks;
  bc_affordable : max_stage_cost costs extra 0 ks < UNREACHABLE_COST;
  bc_minimal : forall ks', Z.of_nat (length ks') = spark_count s -> cut_ok (stage_geometry s) ks' ->
    max_stage_cost costs extra 0 ks <= max_stage_cost costs extra 0 ks';
}.

(** The settings [new] accepts, with the words in range. *)
Record settings_ok (s : Scheduler) : Prop := {
  so_layers : 0 < g_layer_count (stage_geometry s) <= MAX_LAYER_COUNT;
  so_layer_cost : 0 <= estimated_layer_cost_ns s <= U64_MAX;
  so_final_cost : 0 <= estimated_final_stage_extra_cost_ns s <= U64_MAX;
  so_sparks : 0 <= spark_count s <= U32_MAX;
  so_depth : 0 < queue_depth_per_spark s <= U32_MAX;
  so_block : 0 < prefix_cache_block_tokens s;
  so_step : prefix_cache_block_tokens s <= max_prefill_tokens_per_step s <= U32_MAX;
  so_bucket : max_batch_bucket s = MAX_BATCH_BUCKET;
}.

(** The settings never change after [new]. *)
Definition settings (s : Scheduler) :=
  (stage_geometry s, estimated_layer_cost_ns s, estimated_final_stage_extra_cost_ns s, spark_count s,
   queue_depth_per_spark s, measured_profile_id s, quantization_mode s, max_prefill_tokens_per_step s,
   (max_context_tokens s, max_batch_bucket s, prefix_cache_block_tokens s, configuration_flags s)).

Lemma settings_fields s s' : settings s' = settings s ->
  stage_geometry s' = stage_geometry s /\ estimated_layer_cost_ns s' = estimated_layer_cost_ns s /\
  estimated_final_stage_extra_cost_ns s' = estimated_final_stage_extra_cost_ns s /\ spark_count s' = spark_count s /\
  queue_depth_per_spark s' = queue_depth_per_spark s /\ measured_profile_id s' = measured_profile_id s /\
  quantization_mode s' = quantization_mode s /\ max_prefill_tokens_per_step s' = max_prefill_tokens_per_step s /\
  max_batch_bucket s' = max_batch_bucket s /\ prefix_cache_block_tokens s' = prefix_cache_block_tokens s /\
  configuration_flags s' = configuration_flags s.
Proof. unfold settings. intros [=]. by split_and!. Qed.

Lemma settings_ok_eq s s' : settings s' = settings s -> settings_ok s -> settings_ok s'.
Proof.
  intros He Hs. destruct (settings_fields s s' He) as (E1&E2&E3&E4&E5&E6&E7&E8&E9&E10&E11).
  split; rewrite ?E1, ?E2, ?E3, ?E4, ?E5, ?E8, ?E9, ?E10; apply Hs.
Qed.

Section pricing.
Context (s : Scheduler) (Hs : settings_ok s).

Abbreviation g := (stage_geometry s).

(** A bound computation that only reads. *)
Lemma wp_on_plan {A} (m : SP A) (Q : A -> Scheduler -> Prop) R :
  wp m (fun a _ => Q a s) (fun e _ => R (from_plan_error e) s) tt -> wp (on_plan m) Q R s.
Proof. intros H. unfold on_plan. by apply wp_zoom. Qed.

Lemma plan_not_busy e : from_plan_error e <> Busy.
Proof. by destruct e. Qed.

(** The costs of a bucket. *)
Definition costs_ok (costs : list Z) (extra : Z) : Prop :=
  Z.of_nat (length costs) = g_layer_count g /\ Forall (fun x => 0 <= x <= U64_MAX) costs /\ 0 <= extra <= U64_MAX.

Lemma measured_any_mode id b mode :
  load_measured_cost_profile_for_quantization g id b mode tt = load_measured_cost_profile g id b tt.
Proof. by destruct mode. Qed.

Lemma load_measured_ok id b mode : batch_bucket_is_supported b = true ->
  wp (load_measured_cost_profile_for_quantization g id b mode)
    (fun p _ => costs_ok (layer_cost_ns p) (final_stage_extra_cost_ns p)) (fun _ _ => True) tt.
Proof.
  intros Hb. destruct (Z.eqb_spec id MEASURED_PROFILE_20260701) as [->|Hid].
  - pose proof (so_layers s Hs) as HL. destruct (load_measured_spec g b ltac:(lia) Hb) as (p&Hp&(H1&H2&H3)&Hx).
    rewrite <- (measured_any_mode _ _ mode) in Hp. unfold wp. rewrite Hp. split_and!; [done| |lia..].
    apply Forall_lookup. intros i x Hi. destruct (Z.lt_ge_cases (Z.of_nat i) 78) as [Hl|Hl].
    + pose proof (H2 i x Hi Hl). lia.
    + rewrite (H3 i x Hi Hl). lia.
  - unfold load_measured_cost_profile_for_quantization. wp_steps. destruct mode; unfold normalize; wp_steps.
    all: destruct (Z.eqb_spec id MEASURED_PROFILE_20260701); [done|]; cbn [negb]; by wp_steps.
Qed.

Lemma build_plan_spec costs extra (R : StagePlanError -> unit -> Prop) : costs_ok costs extra -> (forall e u, R e u) ->
  wp (build_balanced_with_final_cost g costs extra (spark_count s))
    (fun p _ => exists ks, p = plan_of g ks /\ best_cut s costs extra ks /\ 1 <= spark_count s <= 13) R tt.
Proof.
  intros (Hl&Hc&Hx) HR. pose proof (so_layers s Hs) as HL. pose proof (so_sparks s Hs) as Hn.
  assert (MAX_LAYER_COUNT = 128) by done.
  pose proof (build_balanced_spec g costs extra (spark_count s) ltac:(lia) Hc ltac:(lia) ltac:(lia)) as Hw.
  destruct (Z.le_gt_cases 1 (spark_count s)) as [H1|H1]; [destruct (Z.le_gt_cases (spark_count s) 13) as [H2|H2]|].
  - eapply wp_mono; [exact Hw| |intros; by apply HR]. intros p _ (_&ks&->&Hk&Hcut&Ha&Hm). exists ks. split; [done|]. split; [by split|lia].
  - unfold build_balanced_with_final_cost. destruct (_ || _) eqn:Hg; [wp_steps; by apply HR|].
    apply orb_false_iff in Hg as [_ Hg]. rewrite Z.ltb_ge in Hg. unfold MAX_STAGE_COUNT, CURRENT_SPARK_COUNT in Hg. lia.
  - unfold build_balanced_with_final_cost. destruct (_ || _) eqn:Hg; [wp_steps; by apply HR|].
    apply orb_false_iff in Hg as [Hg _]. apply orb_false_iff in Hg as [_ Hg]. rewrite Z.eqb_neq in Hg. lia.
Qed.

(** What [build_measured_plan_and_costs] hands out. *)
Definition priced (x : StagePlan * list Z * Z) : Prop :=
  let '(plan, costs, extra) := x in
  exists ks, plan = plan_of g ks /\ best_cut s costs extra ks /\ costs_ok costs extra /\ 1 <= spark_count s <= 13.

Lemma measured_plan_spec b : batch_bucket_is_supported b = true ->
  wp (build_measured_balanced_for_quantization g (measured_profile_id s) b (quantization_mode s) (spark_count s))
    (fun plan _ => exists p, load_measured_cost_profile_for_quantization g (measured_profile_id s) b (quantization_mode s) tt = Ret p tt /\
       priced (plan, layer_cost_ns p, final_stage_extra_cost_ns p)) (fun _ _ => True) tt.
Proof.
  intros Hb. unfold build_measured_balanced_for_quantization. wp_step. wp_step.
  destruct (wp_elim _ _ _ _ (load_measured_ok (measured_profile_id s) b (quantization_mode s) Hb)) as [(p&[]&Hp&Hok)|(e&[]&He&_)].
  - unfold wp at 1. rewrite Hp. eapply wp_mono; [apply (build_plan_spec _ _ (fun _ _ => True)); done| |done].
    intros plan _ (ks&->&Hbest&Hn). exists p. split; [done|]. by exists ks.
  - unfold wp at 1. rewrite He. destruct e; by wp_steps.
Qed.

Lemma plan_and_costs_spec b : batch_bucket_is_supported b = true ->
  wp (build_measured_plan_and_costs b) (fun x s' => s' = s /\ priced x) (fun e s' => s' = s /\ e <> Busy) s.
Proof.
  intros Hb. unfold build_measured_plan_and_costs. wp_steps. unfold id. pose proof plan_not_busy. destruct (_ =? _).
  - wp_steps. apply wp_on_plan. unfold load_uniform_cost_profile. destruct (_ || _); wp_steps; [done|].
    apply wp_on_plan. cbn [layer_cost_ns final_stage_extra_cost_ns].
    pose proof (so_layers s Hs) as HL. pose proof (so_final_cost s Hs). pose proof (so_layer_cost s Hs).
    assert (costs_ok (replicate (Z.to_nat (g_layer_count g)) (estimated_layer_cost_ns s)) (estimated_final_stage_extra_cost_ns s)) as Hc.
    { split_and!; [rewrite length_replicate; lia| |lia..]. by apply Forall_replicate. }
    eapply wp_mono; [apply (build_plan_spec _ _ (fun _ _ => True)); done| |by intros; split].
    intros plan _ (ks&->&Hbest&Hn). wp_steps. split; [done|]. by exists ks.
  - wp_steps. apply wp_on_plan. eapply wp_mono; [by apply measured_plan_spec| |by intros; split].
    intros plan _ (p&Hp&Hpr). wp_steps. apply wp_on_plan. unfold wp at 1. rewrite Hp. by wp_steps.
Qed.

(** ** Stage costs *)

Section plan.
Context (costs : list Z) (extra : Z) (ks : list Z).
Context (Hc : costs_ok costs extra) (Hb : best_cut s costs extra ks).

Abbreviation price := (prices costs extra 0 ks).

Lemma layer_sum_bounds first k : 0 <= layers_cost costs first k.
Proof.
  unfold layers_cost. apply sumZ_nonneg. destruct Hc as (_&Hf&_). apply Forall_take, Forall_drop.
  eapply Forall_impl; [exact Hf|]. simpl. lia.
Qed.

Lemma price_bounds i p : price !! i = Some p -> 0 <= p < UNREACHABLE_COST.
Proof.
  intros Hp. pose proof (bc_affordable _ _ _ _ Hb) as Ha. rewrite max_stage_cost_prices in Ha.
  pose proof (largest_ge price p ltac:(by eapply list_elem_of_lookup_2)). split; [|lia].
  destruct (lookup_lt_is_Some_2 ks i) as [k Hk]; [apply lookup_lt_Some in Hp; by rewrite length_prices in Hp|].
  rewrite (lookup_prices _ _ _ _ _ _ Hk) in Hp. injection Hp as <-. pose proof (layer_sum_bounds (0 + sumZ (take i ks)) k).
  destruct Hc as (_&_&Hx). destruct (_ <? _); lia.
Qed.

Lemma stage_price i st : stages (plan_of g ks) !! i = Some st ->
  exists p, price !! i = Some p /\ forall s' Q R, Q p s' -> wp (stage_cost_ns costs extra st) Q R s'.
Proof.
  intros Hst. destruct (plan_of_lookup g ks i st Hst) as (k&Hk&->). pose proof (lookup_prices costs extra 0 _ _ _ Hk) as Hp.
  rewrite Z.add_0_l in Hp. eexists. split; [exact Hp|]. intros s' Q R HQ. unfold stage_cost_ns. cbn [first_layer_index layer_count flags].
  destruct Hc as (Hl&Hf&Hx). destruct (bc_cut _ _ _ _ Hb) as [Hv Hsum]. pose proof (so_layers s Hs) as HL.
  assert (MAX_LAYER_COUNT = 128) by done. set (first := sumZ (take i ks)) in *.
  destruct (cuts_valid_lookup g 0 ks i k Hv Hk) as [Hk0 Hr]. rewrite Z.add_0_l in Hr. fold first in Hr.
  assert (0 <= first) as Hf0.
  { apply sumZ_nonneg, Forall_take. eapply Forall_impl; [by eapply cuts_valid_pos|]. simpl. lia. }
  destruct (range_valid_bounds g first k ltac:(lia) Hf0 ltac:(lia) Hr) as [_ Hend]. rewrite u32_small by lia.
  wp_steps. apply wp_slice; [lia|lia|]. replace (first + k - first) with k by lia. fold (layers_cost costs first k).
  pose proof (price_bounds i _ Hp) as Hpb. pose proof (layer_sum_bounds first k) as H0. pose proof unreachable_range as HU.
  rewrite wrapping_sum; [|lia| |].
  2:{ apply Forall_take, Forall_drop. eapply Forall_impl; [exact Hf|]. simpl. lia. }
  2:{ unfold layers_cost in *. destruct (_ <? _); lia. }
  rewrite Z.add_0_l. fold (layers_cost costs first k). apply wp_ret.
  destruct (stage_flags_ok g (Z.of_nat (length ks)) (Z.of_nat i) (mkStage first k 0 0)) as (_&->&_).
  destruct (_ <? _); cbn [negb]; [by rewrite Z.add_0_r in HQ|]. by rewrite u64_small by lia.
Qed.

Lemma plan_stages : length (stages (plan_of g ks)) = length ks.
Proof. rewrite <- (plan_of_counts g ks) at 2. by rewrite length_fmap. Qed.

(** The critical path of a plan is its slowest stage, which is as fast as the ring allows. *)
Lemma critical_path_spec s' Q R :
  Q (max_stage_cost costs extra 0 ks) s' -> wp (plan_critical_path_ns (plan_of g ks) costs extra 1) Q R s'.
Proof.
  intros HQ. unfold plan_critical_path_ns. wp_steps. pose proof plan_stages as Hlen.
  change (stage_count (plan_of g ks)) with (Z.of_nat (length ks)). apply wp_slice; [lia|lia|].
  rewrite Z.sub_0_r, Nat2Z.id, drop_0. rewrite <- Hlen, firstn_all.
  eapply wp_mono.
  - apply (wp_for_fold (fun pre c s0 => s0 = s' /\ c = largest (take (length pre) price)) _ _ _ R); [done|].
    intros pre st post c s0 Hsplit [-> ->]. wp_steps.
    assert (stages (plan_of g ks) !! length pre = Some st) as Hst by (by rewrite Hsplit, list_lookup_middle).
    destruct (stage_price _ _ Hst) as (p&Hp&Hw). apply Hw. wp_steps. split; [done|]. rewrite length_app, Nat.add_1_r.
    rewrite (take_S_r _ _ _ Hp). pose proof (price_bounds _ _ Hp) as Hpb. pose proof unreachable_range.
    rewrite largest_snoc by lia. rewrite Z.mul_1_r, u64_small by lia. destruct (Z.ltb_spec (largest (take (length pre) price)) p); lia.
  - intros c s0 [-> ->]. rewrite take_ge by (rewrite length_prices; lia). by rewrite <- max_stage_cost_prices.
  - done.
Qed.

End plan.

(** ** Buckets *)

Lemma batch_bucket_spec n : 0 <= n ->
  wp (select_batch_bucket n)
    (fun b _ => batch_bucket_is_supported b = true /\ n <= b /\ 0 < n /\ forall b', batch_bucket_is_supported b' = true -> n <= b' -> b <= b')
    (fun e _ => n = 0 \/ MAX_BATCH_BUCKET < n) tt.
Proof.
  intros Hn. destruct (batch_bucket_smallest n Hn) as [(->&m&He)|[(Hb&m&He)|(b&He&Hb1&Hb2&Hb3)]]; unfold wp; rewrite He.
  - by left.
  - by right.
  - split_and!; try done. destruct (Z.eq_dec n 0) as [->|]; [|lia]. vm_compute in He. discriminate.
Qed.

(** The price of a bucket, when the ring can be planned for it. *)
Definition bucket_price (b : Z) : option Z :=
  match build_measured_plan_and_costs b s with
  | Ret (plan, costs, extra) _ =>
      match plan_critical_path_ns plan costs extra 1 s with Ret c _ => Some c | _ => None end
  | _ => None
  end.

(** It is the cost of the slowest stage under the best cut. *)
Lemma bucket_price_spec b p : batch_bucket_is_supported b = true -> bucket_price b = Some p ->
  exists costs extra ks, costs_ok costs extra /\ best_cut s costs extra ks /\ p = max_stage_cost costs extra 0 ks /\
    build_measured_plan_and_costs b s = Ret (plan_of g ks, costs, extra) s.
Proof.
  intros Hb. unfold bucket_price. destruct (wp_elim _ _ _ _ (plan_and_costs_spec b Hb)) as [([[plan costs] extra]&s'&Hr&->&Hp)|(e&s'&Hr&_)];
    rewrite Hr; [|done].
  destruct Hp as (ks&->&Hbest&Hc&_).
  destruct (wp_elim _ _ _ _ (critical_path_spec costs extra ks Hc Hbest s (fun c _ => c = max_stage_cost costs extra 0 ks) (fun _ _ => False) eq_refl))
    as [(c&s''&Hcr&->)|(?&?&_&[])]. rewrite Hcr. intros [= <-]. by exists costs, extra, ks.
Qed.

Lemma bucket_price_some b costs extra ks : costs_ok costs extra -> best_cut s costs extra ks ->
  build_measured_plan_and_costs b s = Ret (plan_of g ks, costs, extra) s -> bucket_price b = Some (max_stage_cost costs extra 0 ks).
Proof.
  intros Hc Hbest Hr. unfold bucket_price. rewrite Hr.
  destruct (wp_elim _ _ _ _ (critical_path_spec costs extra ks Hc Hbest s (fun c _ => c = max_stage_cost costs extra 0 ks) (fun _ _ => False) eq_refl))
    as [(c&s''&Hcr&->)|(?&?&_&[])]. by rewrite Hcr.
Qed.

Lemma bucket_price_range b p : batch_bucket_is_supported b = true -> bucket_price b = Some p -> 0 <= p < UNREACHABLE_COST.
Proof.
  intros Hb Hp. destruct (bucket_price_spec b p Hb Hp) as (costs&extra&ks&Hc&Hbest&->&_).
  split; [|by apply Hbest]. rewrite max_stage_cost_prices. unfold largest. generalize (prices costs extra 0 ks). intros l. induction l; cbn [foldr]; lia.
Qed.

(** The best bucket among those seen. *)
Definition cheapest (n minimal : Z) (seen : list Z) (best : Z * Z) : Prop :=
  (snd best = U64_MAX /\ fst best = minimal /\ (forall b, b ∈ seen -> n <= b -> bucket_price b = None)) \/
  (fst best ∈ seen /\ n <= fst best /\ bucket_price (fst best) = Some (snd best) /\
   forall b p, b ∈ seen -> n <= b -> bucket_price b = Some p -> snd best < p \/ (snd best = p /\ fst best <= b)).

Lemma supported_elem b : b ∈ BATCH_BUCKETS <-> batch_bucket_is_supported b = true.
Proof. unfold batch_bucket_is_supported. by rewrite bool_decide_eq_true. Qed.

Lemma consider_bucket_spec n minimal pre b post best R : BATCH_BUCKETS = pre ++ b :: post ->
  cheapest n minimal pre best ->
  wp (consider_bucket n b best) (fun best' s' => s' = s /\ cheapest n minimal (pre ++ [b]) best') R s.
Proof.
  intros Hsplit Hbest. unfold consider_bucket.
  assert (batch_bucket_is_supported b = true) as Hsup by (apply supported_elem; rewrite Hsplit; set_solver).
  assert (bucket_price b = None \/ b < n -> cheapest n minimal (pre ++ [b]) best) as Hskip.
  { intros Hno. destruct Hbest as [(H1&H2&H3)|(H1&H2&H3&H4)]; [left|right]; split_and!; try done.
    - intros b' [Hb'| ->%list_elem_of_singleton]%elem_of_app Hn; [by apply H3|]. destruct Hno; [done|lia].
    - set_solver.
    - intros b' p [Hb'| ->%list_elem_of_singleton]%elem_of_app Hn Hp; [by apply H4|]. destruct Hno; [congruence|lia]. }
  destruct (Z.ltb_spec b n) as [Hlt|Hge]; [wp_steps; split; [done|apply Hskip; by right]|].
  wp_step. wp_step. wp_step. destruct (wp_elim _ _ _ _ (plan_and_costs_spec b Hsup)) as [([[plan costs] extra]&s'&Hr&->&Hp)|(e&s'&Hr&->&_)].
  2:{ unfold wp at 1. rewrite Hr. wp_steps. split; [done|]. apply Hskip. left. unfold bucket_price. by rewrite Hr. }
  destruct Hp as (ks&->&Hcut&Hc&_). pose proof (bucket_price_some b costs extra ks Hc Hcut Hr) as Hprice.
  pose proof (bucket_price_range b _ Hsup Hprice) as Hrange. pose proof unreachable_range.
  unfold wp at 1. rewrite Hr. wp_steps. apply (critical_path_spec costs extra ks Hc Hcut). wp_steps. split; [done|].
  set (c := max_stage_cost costs extra 0 ks) in *.
  destruct (Z.ltb_spec c (snd best)) as [Hlt|Hnl]; cbn [orb].
  { right. cbn [fst snd]. split_and!; [set_solver|done|done|]. intros b' p [Hb'| ->%list_elem_of_singleton]%elem_of_app Hn Hp.
    - destruct Hbest as [(_&_&H3)|(_&_&_&H4)]; [by rewrite H3 in Hp|]. destruct (H4 b' p Hb' Hn Hp); lia.
    - right. split; [congruence|lia]. }
  destruct Hbest as [(H1&_)|(H1&H2&H3&H4)]; [lia|].
  destruct (Z.eqb_spec c (snd best)) as [He|Hne]; cbn [andb]; [destruct (Z.ltb_spec b (fst best)) as [Hlt|Hle]|];
    right; cbn [fst snd]; (split_and!; [set_solver|lia|congruence|]); intros b' p [Hb'| ->%list_elem_of_singleton]%elem_of_app Hn Hp.
  - destruct (H4 b' p Hb' Hn Hp); lia.
  - right. split; [congruence|lia].
  - by apply H4.
  - right. split; [congruence|lia].
  - by apply H4.
  - left. assert (p = c) by congruence. lia.
Qed.

(** What a selected bucket promises: it is supported and holds the batch; with measured
    selection on a large batch no bucket that holds it is cheaper. *)
Definition bucket_ok (n b minimal : Z) : Prop :=
  batch_bucket_is_supported b = true /\ batch_bucket_is_supported minimal = true /\ 0 < n <= minimal /\ minimal <= b.

Lemma select_decode_spec n : 0 <= n ->
  wp (select_decode_batch_bucket n)
    (fun x s' => s' = s /\ bucket_ok n (fst x) (snd x) /\
       (measured_decode_bucket_selection_is_enabled s = true -> BUCKET_B16 < n ->
        forall b p, batch_bucket_is_supported b = true -> n <= b -> bucket_price b = Some p ->
        exists p', bucket_price (fst x) = Some p' /\ (p' < p \/ (p' = p /\ fst x <= b))))
    (fun e s' => s' = s /\ e <> Busy /\ (n = 0 \/ MAX_BATCH_BUCKET < n)) s.
Proof.
  intros Hn. unfold select_decode_batch_bucket. wp_steps. apply wp_on_plan.
  eapply wp_mono; [by apply batch_bucket_spec| |by intros; split; [|split; [apply plan_not_busy|]]]. intros minimal _ (Hsup&Hle&Hpos&Hmin). wp_steps. unfold id.
  destruct (negb (measured_decode_bucket_selection_is_enabled s) || (n <=? BUCKET_B16)) eqn:Hg.
  { wp_steps. split; [done|]. cbn [fst snd]. split; [by split_and!|]. intros He Hl. rewrite He in Hg. cbn [negb orb] in Hg. lia. }
  wp_steps. eapply wp_mono.
  - apply (wp_for_fold (fun pre best s' => s' = s /\ cheapest n minimal pre best) _ _ _ (fun _ _ => False)).
    + split; [done|]. left. split_and!; [done|done|]. intros b []%elem_of_nil.
    + intros pre b post best s' Hsplit [-> Hbest]. by eapply consider_bucket_spec.
  - intros [b p] s' [-> Hbest]. wp_steps. split; [done|]. unfold cheapest in Hbest. cbn [fst snd] in *.
    destruct Hbest as [(H1&->&H3)|(H1&H2&H3&H4)].
    + split; [by split_and!|]. intros _ _ b' p' Hb' Hn' Hp'. rewrite H3 in Hp'; [done|by apply supported_elem|done].
    + apply supported_elem in H1. split; [split_and!; try done; by apply Hmin|].
      intros _ _ b' p' Hb' Hn' Hp'. exists p. split; [done|]. apply H4; [by apply supported_elem|done|done].
  - done.
Qed.

(** The bucket of a decode, when measured selection applies, is the cheapest. *)
Definition chosen (r : SchedulerRequest) (bucket : Z) : Prop :=
  is_decode r = true -> measured_decode_bucket_selection_is_enabled s = true -> BUCKET_B16 < rq_active_sequence_count r ->
  forall b p, batch_bucket_is_supported b = true -> rq_active_sequence_count r <= b -> bucket_price b = Some p ->
  exists p', bucket_price bucket = Some p' /\ (p' < p \/ (p' = p /\ bucket <= b)).

Lemma select_request_spec r : 0 <= rq_active_sequence_count r ->
  wp (select_request_batch_bucket r)
    (fun x s' => s' = s /\ bucket_ok (rq_active_sequence_count r) (fst x) (snd x) /\ chosen r (fst x)) (fun e s' => s' = s /\ e <> Busy) s.
Proof.
  intros Hn. unfold select_request_batch_bucket, chosen. destruct (is_decode r).
  - eapply wp_mono; [by apply select_decode_spec|by intros ?? (?&?&?)|by intros ?? (?&?&_)].
  - wp_steps. apply wp_on_plan. eapply wp_mono; [by apply batch_bucket_spec| |].
    + intros b _ (?&?&?&?). wp_steps. split; [done|]. cbn [fst snd]. by split_and!.
    + intros e _ _. by wp_steps.
Qed.

(** ** Capacity *)

(** A slot is kept for decodes when prefills interleave with them; while prefills are
    waiting it is kept from decodes as well. *)
Definition kept_slots (request_is_prefill : bool) : Z :=
  b2z (prefill_decode_interleave_is_enabled s && (1 <? queue_depth_per_spark s)
       && (request_is_prefill || negb (prefill_demand s =? 0))).

Definition room (request_is_prefill : bool) (n : Z) : bool := n <? queue_depth_per_spark s - kept_slots request_is_prefill.

(** Every stage carries the same number of steps. *)
Definition carries (n : Z) : Prop :=
  spark_inflight_counts s = replicate (Z.to_nat (spark_count s)) n /\ 0 <= n <= queue_depth_per_spark s.

Lemma kept_slots_bounds prefill : 0 <= kept_slots prefill <= 1 /\ kept_slots prefill < queue_depth_per_spark s.
Proof.
  unfold kept_slots. pose proof (so_depth s Hs). destruct (Z.ltb_spec 1 (queue_depth_per_spark s)).
  - destruct (_ && _); cbn; lia.
  - rewrite andb_false_r. cbn. lia.
Qed.

Lemma stage_capacity_spec i prefill n (R : SchedulerError -> Scheduler -> Prop) : carries n -> 0 <= i < spark_count s ->
  wp (stage_has_capacity i prefill) (fun b s' => s' = s /\ b = room prefill n) R s.
Proof.
  intros [Hc Hn] Hi. unfold stage_has_capacity. wp_steps. unfold id.
  destruct (Z.leb_spec (spark_count s) i); [lia|]. wp_step.
  apply (wp_index _ _ _ _ _ n); [rewrite Hc; apply lookup_replicate_2; lia|]. fold (kept_slots prefill).
  pose proof (kept_slots_bounds prefill) as Hk. pose proof (so_depth s Hs). unfold room.
  destruct (Z.leb_spec (queue_depth_per_spark s) n); wp_steps.
  - split; [done|]. symmetry. apply Z.ltb_ge. lia.
  - split; [done|]. rewrite u32_small by lia. destruct (Z.eqb_spec (kept_slots prefill) 0) as [->|]; cbn [negb andb].
    + symmetry. apply Z.ltb_lt. lia.
    + rewrite Z.ltb_antisym. done.
Qed.

Lemma first_full_spec prefill n (R : SchedulerError -> Scheduler -> Prop) : carries n -> 0 < spark_count s ->
  wp (first_full_stage (spark_count s) prefill)
    (fun o s' => s' = s /\ match o with None => room prefill n = true | Some _ => room prefill n = false end) R s.
Proof.
  intros Hc H0. unfold first_full_stage.
  apply (wp_for_return (fun pre s' => s' = s /\ (pre <> [] -> room prefill n = true))); [done| |].
  - intros pre i post s' Hsplit [-> _]. apply range_split in Hsplit as [_ Hi].
    wp_steps. eapply wp_mono; [by apply (stage_capacity_spec i prefill n R)| |done].
    intros b s' [-> ->]. wp_steps. by destruct (room prefill n).
  - intros s' [-> H]. split; [done|]. apply H. intros Hnil. apply (f_equal length) in Hnil.
    rewrite length_range in Hnil. cbn in Hnil. lia.
Qed.

Lemma bypass_spec n (R : SchedulerError -> Scheduler -> Prop) : carries n ->
  wp decode_bypass_is_active (fun b s' => s' = s /\ (b = true -> 0 < n)) R s.
Proof.
  intros [Hc Hn]. unfold decode_bypass_is_active. wp_steps. unfold id. destruct (negb _); wp_steps; [done|].
  pose proof (so_sparks s Hs). apply wp_slice; [lia|rewrite Hc, length_replicate; lia|]. wp_steps. split; [done|]. rewrite Z.sub_0_r, drop_0.
  rewrite Hc, take_replicate. intros (x&Hx&H0)%existsb_exists. apply list_elem_of_In, elem_of_replicate in Hx as [-> _]. rewrite negb_true_iff, Z.eqb_neq in H0. lia.
Qed.

End pricing.

(** ** The owned cache *)

Definition cache_owned (s : Scheduler) : Prop :=
  match prefix_cache s with
  | Some c => cache_wf c /\ (prompt_cache_is_enabled s = true -> block_token_count c = prefix_cache_block_tokens s)
  | None => prompt_cache_is_enabled s = false
  end.

Lemma wp_on_cache {A} (m : PM A) (Q : A -> Scheduler -> Prop) R s :
  match prefix_cache s with
  | Some c => wp m (fun a c' => Q a (s <| prefix_cache := Some c' |>))
                (fun e c' => R (from_cache_error e) (s <| prefix_cache := Some c' |>)) c
  | None => R InvalidArgument s
  end -> wp (on_cache m) Q R s.
Proof.
  intros H. unfold on_cache. wp_steps. destruct (prefix_cache s) as [c|] eqn:Hc; [|by wp_steps].
  apply wp_zoom. by rewrite Hc.
Qed.

(** Only the cache changed, within its invariant. *)
Definition recached (s s' : Scheduler) : Prop :=
  exists o, s' = s <| prefix_cache := o |> /\
    match prefix_cache s, o with
    | Some c, Some c' => cache_ok c c'
    | None, None => True
    | _, _ => False
    end.

Lemma recached_refl s : cache_owned s -> recached s s.
Proof.
  intros Ho. exists (prefix_cache s). split; [by destruct s|]. unfold cache_owned in Ho.
  destruct (prefix_cache s); [|done]. apply cache_ok_refl, Ho.
Qed.

Lemma recached_trans s1 s2 s3 : recached s1 s2 -> recached s2 s3 -> recached s1 s3.
Proof.
  intros (o&->&H1) (o'&->&H2). exists o'. split; [by destruct s1|]. cbn in H2.
  destruct (prefix_cache s1), o, o'; try done. by eapply cache_ok_trans.
Qed.

Lemma recached_owned s s' : cache_owned s -> recached s s' -> cache_owned s'.
Proof.
  intros Ho (o&->&H). unfold cache_owned in *. cbn. destruct (prefix_cache s) as [c|], o as [c'|]; try done.
  destruct H as [Hwf Hshape]. split; [done|]. intros He. destruct (shape_fields _ _ Hshape) as (->&_). by apply Ho.
Qed.

Lemma recached_settings s s' : recached s s' -> settings s' = settings s.
Proof. by intros (o&->&_). Qed.

Lemma recached_counts s s' : recached s s' ->
  spark_inflight_counts s' = spark_inflight_counts s /\ prefill_demand s' = prefill_demand s.
Proof. by intros (o&->&_). Qed.

(** A method of the cache that keeps its invariant keeps the scheduler's. *)
Lemma on_cache_safe {A} (m : PM A) s : cache_owned s -> (forall c, prefix_cache s = Some c -> safe m c) ->
  wp (on_cache m) (fun _ s' => recached s s') (fun _ s' => recached s s') s.
Proof.
  intros Ho Hm. pose proof (recached_refl s Ho) as Hr. apply wp_on_cache. destruct (prefix_cache s) as [c|] eqn:Hc; [|done].
  eapply wp_mono; [by apply Hm|..]; intros ? c' Hok; exists (Some c'); by rewrite Hc.
Qed.

(** ** Requests *)

(** The words of a request. *)
Definition request_words (r : SchedulerRequest) : Prop :=
  0 <= rq_active_sequence_count r <= U32_MAX /\ 0 <= rq_prompt_token_count r <= U32_MAX /\
  0 <= rq_computed_prompt_token_count r <= U32_MAX /\ 0 <= rq_max_scheduled_prompt_token_count r <= U32_MAX.

(** What [validate_request] accepts. *)
Record request_ok (s : Scheduler) (r : SchedulerRequest) : Prop := {
  ro_active : rq_active_sequence_count r <> 0;
  ro_kind : is_decode r = negb (is_prefill r);
  ro_prompt : is_prefill r = true -> 0 < rq_prompt_token_count r /\ rq_computed_prompt_token_count r < rq_prompt_token_count r;
  ro_ids : is_prefill r = true -> prompt_cache_is_enabled s = true ->
    rq_sequence_id r <> 0 /\ exists ids, rq_prompt_token_ids r = Some ids /\ rq_prompt_token_count r <= Z.of_nat (length ids);
  ro_fresh : is_prefill r = true -> prompt_cache_is_enabled s = true -> cross_sequence_prefix_reuse_is_enabled s = true ->
    rq_computed_prompt_token_count r = 0;
}.

Lemma validate_request_spec s r s0 (Q : unit -> Scheduler -> Prop) (R : SchedulerError -> Scheduler -> Prop) :
  request_words r -> (request_ok s r -> Q tt s0) -> R InvalidArgument s0 -> wp (validate_request s r) Q R s0.
Proof.
  intros (Hw1&Hw2&Hw3&Hw4) HQ HR. unfold validate_request. destruct (_ || _) eqn:Hg; [by wp_steps|]. apply wp_ret, HQ.
  repeat match goal with H : _ || _ = false |- _ => apply orb_false_iff in H as [? ?] end.
  assert (is_decode r = negb (is_prefill r)) as Hkind by (destruct (is_decode r), (is_prefill r); done).
  split; [lia|done|..]; intros Hp; rewrite Hp in *; cbn [andb] in *.
  - lia.
  - intros He. rewrite He in *. cbn [andb] in *.
    match goal with H : (_ =? 0) || _ = false |- _ => apply orb_false_iff in H as [? Hids] end. split; [lia|].
    destruct (rq_prompt_token_ids r) as [ids|]; [|done]. exists ids. split; [done|]. lia.
  - intros He Hx. rewrite He, Hx in *. cbn [andb] in *.
    match goal with H : negb (rq_computed_prompt_token_count r =? 0) = false |- _ => apply negb_false_iff, Z.eqb_eq in H end. done.
Qed.

(** ** The prompt *)

(** The cap of a chunk. *)
Definition chunk_cap (s : Scheduler) (r : SchedulerRequest) : Z :=
  if chunked_prefill_is_enabled s then request_max_prefill_tokens_per_step s r else rq_prompt_token_count r.

Lemma request_max_bounds s r : settings_ok s -> request_words r ->
  prefix_cache_block_tokens s <= request_max_prefill_tokens_per_step s r <= max_prefill_tokens_per_step s.
Proof.
  intros Hs (_&_&_&Hm). pose proof (so_block s Hs). pose proof (so_step s Hs). unfold request_max_prefill_tokens_per_step.
  destruct (_ || _) eqn:Hg; [destruct (Z.ltb_spec (max_prefill_tokens_per_step s) (prefix_cache_block_tokens s)); lia|].
  apply orb_false_iff in Hg as [? ?]. destruct (Z.ltb_spec (rq_max_scheduled_prompt_token_count r) (prefix_cache_block_tokens s)); lia.
Qed.

(** A chunk is not empty, stays within the cap and the prompt, and ends at the end of
    the prompt or after whole blocks. *)
Lemma scheduled_chunk s r computed : settings_ok s -> request_words r -> 0 <= computed < rq_prompt_token_count r ->
  let n := scheduled_prefill_token_count s r computed in
  0 < n <= rq_prompt_token_count r - computed /\ n <= chunk_cap s r /\
  (n = rq_prompt_token_count r - computed \/ n mod prefix_cache_block_tokens s = 0).
Proof.
  intros Hs Hr Hc. pose proof Hr as (_&Hp&_). pose proof (request_max_bounds s r Hs Hr) as Hm.
  pose proof (so_block s Hs) as Hb. pose proof (so_step s Hs) as Hst. cbv zeta.
  unfold scheduled_prefill_token_count, chunk_cap. rewrite u32_small by lia.
  destruct (chunked_prefill_is_enabled s); cbn [negb]; [|lia]. destruct (Z.leb_spec (rq_prompt_token_count r - computed) (request_max_prefill_tokens_per_step s r)); [lia|].
  set (m := request_max_prefill_tokens_per_step s r) in *. unfold round_down_to_multiple.
  destruct (Z.eqb_spec (prefix_cache_block_tokens s) 0); [lia|]. pose proof (Z.mod_pos_bound m _ Hb) as Hmod.
  pose proof (Z.div_mod m (prefix_cache_block_tokens s) ltac:(lia)) as Hdm.
  pose proof (Z.div_le_lower_bound m (prefix_cache_block_tokens s) 1 Hb ltac:(lia)) as Hq.
  rewrite u32_small by lia. destruct (Z.eqb_spec (m - m mod prefix_cache_block_tokens s) 0); [nia|].
  split; [lia|]. split; [lia|]. right. replace (m - m mod prefix_cache_block_tokens s) with (m / prefix_cache_block_tokens s * prefix_cache_block_tokens s) by lia.
  by apply Z_mod_mult.
Qed.

Lemma get_prefix_spec n l : 0 <= n <= Z.of_nat (length l) -> get_prefix n l = Some (take (Z.to_nat n) l).
Proof. intros Hn. unfold get_prefix. by destruct (Z.leb_spec n (Z.of_nat (length l))); [|lia]. Qed.

Section prompt.
Context (s : Scheduler) (r : SchedulerRequest).
Context (Hs : settings_ok s) (Ho : cache_owned s) (Hw : request_words r) (Hr : request_ok s r) (Hp : is_prefill r = true).

Abbreviation prompt := (rq_prompt_token_count r).

(** The tokens a request gives for the prompt. *)
Definition request_tokens (n : Z) : list Z := take (Z.to_nat n) (default [] (rq_prompt_token_ids r)).

Lemma request_tokens_spec n : prompt_cache_is_enabled s = true -> 0 <= n <= prompt ->
  exists ids, rq_prompt_token_ids r = Some ids /\ get_prefix n ids = Some (request_tokens n) /\
    Z.of_nat (length (request_tokens n)) = n.
Proof.
  intros He Hn. destruct (ro_ids s r Hr Hp He) as (_&ids&Hids&Hlen). exists ids. unfold request_tokens. rewrite Hids. cbn [default]. unfold id.
  split; [done|]. split; [apply get_prefix_spec; lia|]. rewrite length_take. lia.
Qed.

(** How long a prefix the cache supplies: the longest reusable chain of the prompt. *)
Definition supplied (cached : Z) : Prop :=
  if prompt_cache_is_enabled s && cross_sequence_prefix_reuse_is_enabled s
  then exists c lk, prefix_cache s = Some c /\ probe_result c (request_tokens prompt) (rq_sequence_id r) lk /\
         cached = lk_matched_token_count lk
  else cached = 0.

(** Only the clocks of the cache moved. *)
Definition probed (s' : Scheduler) : Prop :=
  s' = s \/ (prompt_cache_is_enabled s = true /\
    exists c c', prefix_cache s = Some c /\ quiet c c' /\ s' = s <| prefix_cache := Some c' |>).

Lemma probed_recached s' : probed s' -> recached s s'.
Proof.
  intros [->|(_&c&c'&Hc&Hq&->)]; [by apply recached_refl|]. exists (Some c'). rewrite Hc. split; [done|].
  unfold cache_owned in Ho. rewrite Hc in Ho. by apply quiet_ok; [apply Ho|].
Qed.

Lemma lookup_spec :
  wp (lookup_cached_prefix_token_count r)
    (fun cached s' => probed s' /\ 0 <= cached < prompt /\ supplied cached) (fun _ _ => False) s.
Proof.
  unfold lookup_cached_prefix_token_count. wp_steps. unfold id. rewrite Hp. cbn [negb orb].
  destruct (ro_prompt s r Hr Hp) as [H0 _]. pose proof Hw as (_&Hpr&_). unfold supplied.
  destruct (prompt_cache_is_enabled s) eqn:He; cbn [negb orb andb]; [|wp_steps; split; [by left|]; lia].
  destruct (cross_sequence_prefix_reuse_is_enabled s); cbn [negb andb]; [|wp_steps; split; [by left|]; lia].
  destruct (request_tokens_spec prompt He ltac:(lia)) as (ids&Hids&Hget&Hlen). rewrite Hids. unfold some_or. wp_steps. rewrite Hget. wp_steps.
  pose proof Ho as Ho'. unfold cache_owned in Ho'. apply wp_on_cache. destruct (prefix_cache s) as [c|] eqn:Hc; [|congruence].
  destruct Ho' as [Hwf Hbtc]. destruct (ro_ids s r Hr Hp He) as (Hseq&_).
  eapply wp_mono; [by apply probe_prompt_spec| |].
  - intros lk c' [Hq Hpr']. pose proof Hpr' as (n&_&Hm&_&_&_&Hend). wp_steps. split; [right; split; [done|]; by exists c, c'|].
    split; [|by exists c, lk]. pose proof (sw_btc _ _ _ _ _ _ Hwf) as Hb. rewrite Hlen, u32_small in Hend by lia.
    destruct (max_reusable_spec c prompt Hb ltac:(lia)) as (M0&Mlt&_). rewrite Hm. destruct Hend as [?|[? _]]; lia.
  - intros e c' (_&_&[Hnil|?]); [|done]. rewrite Hnil in Hlen. cbn in Hlen. lia.
Qed.

End prompt.

(** ** Planning a prefill *)

Definition set_cache (c : PrefixCache) (s : Scheduler) : Scheduler := s <| prefix_cache := Some c |>.

(** The step planned for the prompt: the supplied prefix, a chunk behind it, and the
    reservation of everything up to the chunk's end. *)
Record step_ok (s : Scheduler) (r : SchedulerRequest) (st : PrefillStep) : Prop := {
  sk_cached : 0 <= st_cached st < rq_prompt_token_count r /\ supplied s r (st_cached st);
  sk_computed : st_computed st = Z.max (rq_computed_prompt_token_count r) (st_cached st);
  sk_chunk : 0 <= st_computed st /\ 0 < st_scheduled st <= chunk_cap s r /\ 0 <= st_remaining st /\
    st_computed st + st_scheduled st + st_remaining st = rq_prompt_token_count r;
  sk_whole : st_remaining st = 0 \/ st_scheduled st mod prefix_cache_block_tokens s = 0;
  sk_blocks : st_blocks st = div_ceil (st_scheduled st) (prefix_cache_block_tokens s);
}.

(** The reservation made in the cache [c], leaving [c']. *)
Definition step_reserved (s : Scheduler) (r : SchedulerRequest) (st : PrefillStep) (c c' : PrefixCache) (rs : Reservation) : Prop :=
  reserve_prompt_internal (rq_sequence_id r) (request_tokens r (st_computed st + st_scheduled st))
    (cross_sequence_prefix_reuse_is_enabled s) c = Ret rs c' /\
  cache_ok c c' /\ reserved c (rq_sequence_id r) (request_tokens r (st_computed st + st_scheduled st)) rs c'.

(** A step planned from [s], leaving [s']. *)
Definition planned (s : Scheduler) (r : SchedulerRequest) (st : PrefillStep) (s' : Scheduler) : Prop :=
  step_ok s r st /\
  if prompt_cache_is_enabled s then
    exists c0 c c' rs, prefix_cache s = Some c0 /\ quiet c0 c /\ step_reserved s r st c c' rs /\
      st_reservation st = Some rs /\ s' = set_cache c' s
  else st_reservation st = None /\ s' = s.

Section planning.
Context (s : Scheduler) (r : SchedulerRequest).
Context (Hs : settings_ok s) (Ho : cache_owned s) (Hw : request_words r) (Hr : request_ok s r) (Hp : is_prefill r = true).

Lemma chunk_step cached : 0 <= cached < rq_prompt_token_count r -> supplied s r cached ->
  let computed := effective_computed_prompt_token_count r cached in
  let scheduled := scheduled_prefill_token_count s r computed in
  let remaining := rq_prompt_token_count r -u32 computed -u32 scheduled in
  forall rs, step_ok s r (mkPrefillStep cached computed scheduled remaining (div_ceil scheduled (prefix_cache_block_tokens s)) rs) /\
    computed + scheduled <= rq_prompt_token_count r /\ scheduled <> 0.
Proof.
  intros Hc Hsup computed scheduled remaining rs. destruct (ro_prompt s r Hr Hp) as [H0 H1]. pose proof Hw as (_&Hpr&Hcp&_).
  assert (0 <= computed < rq_prompt_token_count r) as Hcomp by (unfold computed, effective_computed_prompt_token_count; lia).
  destruct (scheduled_chunk s r computed Hs Hw Hcomp) as (C1&C2&C3). fold scheduled in C1, C2, C3.
  assert (remaining = rq_prompt_token_count r - computed - scheduled) as Hrem.
  { unfold remaining. rewrite (u32_small (_ - computed)) by lia. by rewrite u32_small by lia. }
  split; [|lia]. split; cbn [st_cached st_computed st_scheduled st_remaining st_blocks]; try done; try lia.
Qed.

Lemma reserve_spec st : step_ok s r st -> prompt_cache_is_enabled s = true ->
  forall s1, probed s s1 ->
  wp (reserve_request_prompt r (st_computed st + st_scheduled st))
    (fun rs s' => exists c0 c c', prefix_cache s = Some c0 /\ quiet c0 c /\ step_reserved s r st c c' rs /\ s' = set_cache c' s)
    (fun e s' => recached s s' /\ e = CapacityExceeded /\
       exists c', prefix_cache s' = Some c' /\ forall c0, prefix_cache s = Some c0 -> rolled_back c' (rq_sequence_id r) (operation_epoch c0 +u64 1)) s1.
Proof.
  intros Hst He s1 Hpr. destruct (sk_chunk s r st Hst) as (K0&K1&K2&K3). pose proof Hw as (_&Hpw&_).
  destruct (ro_ids s r Hr Hp He) as (Hseq&_).
  destruct (request_tokens_spec s r Hr Hp (st_computed st + st_scheduled st) He ltac:(lia)) as (ids&Hids&Hget&Hlen).
  unfold reserve_request_prompt. rewrite Hids. unfold some_or. wp_steps. rewrite Hget. wp_steps. unfold id.
  set (tokens := request_tokens r (st_computed st + st_scheduled st)) in *.
  pose proof Ho as Ho'. unfold cache_owned in Ho'. destruct (prefix_cache s) as [c0|] eqn:Hc0; [|congruence]. destruct Ho' as [Hwf Hbtc].
  assert (exists c, prefix_cache s1 = Some c /\ quiet c0 c /\ cross_sequence_prefix_reuse_is_enabled s1 = cross_sequence_prefix_reuse_is_enabled s /\
    forall c', s1 <| prefix_cache := Some c' |> = set_cache c' s) as (c&Hc&Hq&Hx&Hset).
  { destruct Hpr as [->|(_&c1&c'&Hc1&Hq&->)]; [exists c0; split_and!; [done|apply quiet_refl|done|done]|].
    assert (c1 = c0) as -> by congruence. exists c'. by split_and!. }
  pose proof (proj1 (quiet_ok _ _ Hwf Hq)) as Hwfc.
  assert (wp (on_cache (reserve_prompt_internal (rq_sequence_id r) tokens (cross_sequence_prefix_reuse_is_enabled s)))
    (fun rs s' => exists c0' c c', Some c0 = Some c0' /\ quiet c0' c /\ step_reserved s r st c c' rs /\ s' = set_cache c' s)
    (fun e s' => recached s s' /\ e = CapacityExceeded /\
       exists c', prefix_cache s' = Some c' /\ forall c1, Some c0 = Some c1 -> rolled_back c' (rq_sequence_id r) (operation_epoch c1 +u64 1)) s1) as Hmain.
  { apply wp_on_cache. rewrite Hc.
    destruct (wp_elim _ _ _ _ (reserve_internal_spec c (rq_sequence_id r) tokens (cross_sequence_prefix_reuse_is_enabled s) Hwfc ltac:(lia)))
      as [(rs&c'&Hres&Hok&Hrd)|(e&c'&Hres&Hf)]; unfold wp; rewrite Hres.
    - exists c0, c, c'. rewrite Hset. by split_and!.
    - destruct Hf as [(_&_&[Hnil|?])|(Hok&Hrb&<-)]; [rewrite Hnil in Hlen; cbn in Hlen; lia|done|].
      split; [|split; [done|exists c'; split; [done|]]].
      + exists (Some c'). rewrite Hset, Hc0. split; [done|]. eapply cache_ok_trans; [by eapply quiet_ok|done].
      + intros c1 [= <-]. by rewrite <- (qu_epoch _ _ Hq). }
  unfold reserve_prompt, reserve_sequence_prompt. rewrite Hx. by destruct (cross_sequence_prefix_reuse_is_enabled s).
Qed.

Lemma plan_prefill_spec :
  wp (plan_prefill r) (fun st s' => planned s r st s') (fun e s' => recached s s' /\ e = CapacityExceeded) s.
Proof.
  unfold plan_prefill. wp_steps. eapply wp_mono; [by apply (lookup_spec s r)| |done].
  intros cached s1 (Hpr&Hc&Hsup). pose proof (probed_recached s Ho s1 Hpr) as Hrc.
  pose proof (chunk_step cached Hc Hsup) as Hst. cbv zeta in Hst.
  wp_steps. unfold id. replace (scheduled_prefill_token_count s1) with (scheduled_prefill_token_count s)
    by (destruct Hpr as [->|(_&?&?&_&_&->)]; done).
  set (computed := effective_computed_prompt_token_count r cached) in *. set (scheduled := scheduled_prefill_token_count s r computed) in *.
  destruct (Hst None) as (Hok&Hsum&Hn0). pose proof (so_block s Hs).
  unfold prefill_block_count. replace (prefix_cache_block_tokens s1) with (prefix_cache_block_tokens s)
    by (destruct Hpr as [->|(_&?&?&_&_&->)]; done).
  destruct (Z.eqb_spec scheduled 0); [done|]. destruct (Z.eqb_spec (prefix_cache_block_tokens s) 0); [lia|]. wp_steps.
  replace (prompt_cache_is_enabled s1) with (prompt_cache_is_enabled s) by (destruct Hpr as [->|(_&?&?&_&_&->)]; done).
  destruct (sk_chunk s r _ Hok) as (K0&K1&K2&K3). cbn [st_computed st_scheduled st_remaining] in *.
  pose proof Hw as (_&Hpw&_).
  destruct (prompt_cache_is_enabled s) eqn:He.
  - wp_steps. rewrite (u32_small (computed + scheduled)) by lia.
    eapply wp_mono; [apply (reserve_spec _ Hok He s1 Hpr)| |by intros ?? (?&?&_)].
    intros rs s2 (c0&c&c'&Hc0&Hq&Hres&->). wp_steps. split; [by destruct (Hst (Some rs))|]. rewrite He. by exists c0, c, c', rs.
  - wp_steps. split; [done|]. rewrite He. split; [done|]. destruct Hpr as [->|[? _]]; [done|congruence].
Qed.

End planning.

(** ** The parent hash *)

(** The hash of the first [computed] tokens; an oversized block size refuses it, and the
    reservation is given back. *)
Lemma hash_parent_spec s r computed epoch : settings_ok s -> cache_owned s -> 0 <= computed <= U32_MAX ->
  wp (hash_parent r computed epoch)
    (fun x s' => match x with
       | inr h => s' = s /\ h = chain_from (prefix_cache_block_tokens s) (request_tokens r computed) EMPTY_PARENT_HASH
                                 (Z.to_nat (div_ceil computed (prefix_cache_block_tokens s)))
       | inl _ => recached s s' /\ 256 < prefix_cache_block_tokens s
       end) (fun _ s' => s' = s /\ (computed <> 0 /\ forall ids, rq_prompt_token_ids r = Some ids -> Z.of_nat (length ids) < computed)) s.
Proof.
  intros Hs Ho Hc. unfold hash_parent. destruct (Z.eqb_spec computed 0) as [->|Hc0].
  { wp_steps. split; [done|]. unfold div_ceil. by rewrite Zmod_0_l, Zdiv_0_l. }
  wp_steps. unfold some_or.
  destruct (rq_prompt_token_ids r) as [ids|] eqn:Hids; wp_steps; [|done]. unfold get_prefix.
  destruct (Z.leb_spec computed (Z.of_nat (length ids))) as [Hl|Hl]; wp_steps.
  2:{ split; [done|]. split; [done|]. by intros ? [= <-]. }
  unfold attempt, id. wp_steps. apply wp_zoom. pose proof (so_block s Hs) as Hb.
  assert (request_tokens r computed = take (Z.to_nat computed) ids) as Htok by (unfold request_tokens; by rewrite Hids).
  assert (Z.of_nat (length (take (Z.to_nat computed) ids)) = computed) as Hlen by (rewrite length_take; lia).
  destruct (Z.le_gt_cases (prefix_cache_block_tokens s) 256) as [Hsmall|Hbig].
  - destruct (hash_prompt_spec (prefix_cache_block_tokens s) EMPTY_PARENT_HASH (take (Z.to_nat computed) ids) ltac:(lia) ltac:(lia)) as (h&Hh&Hv&_).
    unfold wp at 1. rewrite Hh. wp_steps. split; [done|]. by rewrite Hv, Hlen, Htok.
  - unfold hash_prompt_tokens, MAX_BLOCK_TOKENS. destruct (Z.eqb_spec (prefix_cache_block_tokens s) 0); [lia|].
    destruct (Z.ltb_spec 256 (prefix_cache_block_tokens s)); [|lia]. cbn [orb]. wp_steps.
    assert (forall c, prefix_cache s = Some c -> safe (cancel_reservation (rq_sequence_id r) epoch) c) as Hsafe.
    { intros c Hc'. unfold cache_owned in Ho. rewrite Hc' in Ho. apply cancel_safe, Ho. }
    eapply wp_mono; [by apply on_cache_safe|..]; intros ? s1 Hr; by wp_steps.
Qed.

(** ** Dispatch *)

(** The state in which every stage carries [n] steps. *)
Definition set_carried (n : Z) (s : Scheduler) : Scheduler :=
  s <| spark_inflight_counts := replicate (Z.to_nat (spark_count s)) n |>.

Definition stage_dispatch (template : DispatchStage) (blocks : Z) (i : nat) (x : StagePlanStage * Z) : DispatchStage :=
  template <| ds_spark_index := Z.of_nat i |> <| ds_first_layer_index := first_layer_index (fst x) |>
    <| ds_layer_count := layer_count (fst x) |> <| ds_stage_flags := flags (fst x) |>
    <| ds_estimated_service_time_ns := snd x *u64 blocks |>.

(** One dispatch per stage, in ring order, priced by the plan. *)
Definition dispatch_table (g : StagePlanGeometry) (template : DispatchStage) (costs : list Z) (extra blocks : Z) (ks : list Z) : list DispatchStage :=
  imap (stage_dispatch template blocks) (zip (stages (plan_of g ks)) (prices costs extra 0 ks)).

Lemma length_dispatch_table g template costs extra blocks ks : length (dispatch_table g template costs extra blocks ks) = length ks.
Proof.
  unfold dispatch_table. rewrite length_imap, length_zip_with, length_prices.
  assert (length (stages (plan_of g ks)) = length ks) as -> by (rewrite <- (plan_of_counts g ks) at 2; by rewrite length_fmap). lia.
Qed.

Lemma lookup_dispatch_table g template costs extra blocks ks i st p :
  stages (plan_of g ks) !! i = Some st -> prices costs extra 0 ks !! i = Some p ->
  dispatch_table g template costs extra blocks ks !! i = Some (stage_dispatch template blocks i (st, p)).
Proof.
  intros Hst Hp. unfold dispatch_table. rewrite list_lookup_imap. by rewrite (lookup_zip_with pair), Hst, Hp.
Qed.

Lemma dispatch_table_index g template costs extra blocks ks i d :
  dispatch_table g template costs extra blocks ks !! i = Some d -> ds_spark_index d = Z.of_nat i.
Proof. unfold dispatch_table. rewrite list_lookup_imap. destruct (_ !! i) as [x|]; [|done]. by intros [= <-]. Qed.

(** Counts after the first [i] stages were dispatched. *)
Lemma bump_stage m (i : nat) n : (i < m)%nat -> 0 <= n < U32_MAX ->
  upd_nth (Z.of_nat i) (fun n => n +u32 1) (replicate i (n + 1) ++ replicate (m - i) n) = replicate (S i) (n + 1) ++ replicate (m - S i) n.
Proof.
  intros Hi Hn. unfold upd_nth. rewrite Nat2Z.id, alter_app_r_alt by (rewrite length_replicate; lia).
  rewrite length_replicate, Nat.sub_diag. replace (m - i)%nat with (S (m - S i)) by lia. cbn [replicate alter list_alter].
  rewrite u32_small by lia. by rewrite (replicate_cons_app i), <- (assoc_L (++)).
Qed.

Section dispatch.
Context (s : Scheduler) (Hs : settings_ok s) (costs : list Z) (extra : Z) (ks : list Z).
Context (Hc : costs_ok s costs extra) (Hb : best_cut s costs extra ks).

Lemma dispatch_spec template blocks n (R : SchedulerError -> Scheduler -> Prop) : carries s n -> n < queue_depth_per_spark s ->
  wp (for_fold (range 0 (stage_count (plan_of (stage_geometry s) ks)))
        (dispatch_round template (plan_of (stage_geometry s) ks) costs extra blocks) ([], 0))
    (fun x s' => s' = set_carried (n + 1) s /\
       x = (dispatch_table (stage_geometry s) template costs extra blocks ks,
            largest ((fun p => p *u64 blocks) <$> prices costs extra 0 ks))) R s.
Proof.
  intros [Hcar Hn] Hroom. change (stage_count (plan_of (stage_geometry s) ks)) with (Z.of_nat (length ks)).
  pose proof (bc_length _ _ _ _ Hb) as Hlen. pose proof (so_depth s Hs) as Hd.
  set (m := Z.to_nat (spark_count s)) in *. assert (length ks = m) as Hm by lia.
  set (table := dispatch_table (stage_geometry s) template costs extra blocks ks).
  set (services := (fun p => p *u64 blocks) <$> prices costs extra 0 ks).
  eapply wp_mono.
  - apply (wp_for_fold (fun pre x s' => let i := length pre in (i <= m)%nat /\
      s' = s <| spark_inflight_counts := replicate i (n + 1) ++ replicate (m - i) n |> /\
      x = (take i table, largest (take i services))) _ _ _ R).
    + cbn. rewrite Nat.sub_0_r, <- Hcar. split; [lia|]. split; [by destruct s|done].
    + intros pre i post x s' Hsplit (Hi&->&->). apply range_split in Hsplit as [Hpre Hir].
      assert (i = Z.of_nat (length pre)) as -> by (rewrite Hpre, length_range; lia). clear Hpre.
      set (j := length pre) in *. rewrite length_app. cbn [length]. rewrite Nat.add_1_r.
      destruct (lookup_lt_is_Some_2 (stages (plan_of (stage_geometry s) ks)) j) as [st Hst].
      { rewrite <- (length_fmap layer_count), plan_of_counts. lia. }
      destruct (stage_price s Hs costs extra ks Hc Hb j st Hst) as (p&Hp&Hw).
      unfold dispatch_round. wp_step. apply (wp_index _ _ _ _ _ st); [by rewrite Nat2Z.id|]. wp_step. apply Hw. wp_steps.
      apply (wp_index _ _ _ _ _ n); [cbn; rewrite Nat2Z.id, lookup_app_r, lookup_replicate_2; [done|rewrite length_replicate; lia|rewrite length_replicate; lia]|].
      wp_steps. split; [lia|]. split.
      * change (spark_inflight_counts (s <| spark_inflight_counts := replicate j (n + 1) ++ replicate (m - j) n |>))
          with (replicate j (n + 1) ++ replicate (m - j) n). rewrite bump_stage by lia. done.
      * cbn [fst snd]. fold j. f_equal.
        -- rewrite (take_S_r table j (stage_dispatch template blocks j (st, p))); [|by apply lookup_dispatch_table].
           f_equal. unfold stage_dispatch. cbn [fst snd]. rewrite u32_small; [done|]. pose proof (so_sparks s Hs). lia.
        -- rewrite (take_S_r services j (p *u64 blocks)); [|unfold services; by rewrite list_lookup_fmap, Hp].
           pose proof (u64_range (p * blocks)). rewrite largest_snoc by lia. destruct (Z.ltb_spec (largest (take j services)) (p *u64 blocks)); lia.
  - intros x s' (_&->&->). rewrite length_range. replace (Z.to_nat (Z.of_nat (length ks) - 0)) with m by lia.
    rewrite Nat.sub_diag, app_nil_r. split; [done|].
    rewrite !take_ge; [done|unfold services; rewrite length_fmap, length_prices; lia|unfold table; rewrite length_dispatch_table; lia].
  - done.
Qed.

End dispatch.
