(* ===== verification/SchedulerOps.v ===== *)
(** * The scheduler: admission and retirement

    [admit] either refuses the request, leaving the ring as it was, or admits exactly one
    more step on every stage; completing or cancelling an admitted decision takes exactly
    that step away again.  Batches reduce to the same two facts. *)

From S2P Require Import Prelude FreeList KvArena StagePlan StagePlanProps PrefixCache PrefixCacheInv PrefixCacheSpecs.
From S2P Require Import PrefixCacheGrow PrefixCacheProps Scheduler SchedulerInv.

(** The scheduler carries [n] steps. *)
Record sched_wf (s : Scheduler) (n : Z) : Prop := {
  wf_settings : settings_ok s;
  wf_cache : cache_owned s;
  wf_carries : carries s n;
}.

(** The parts of the state that accounting leaves alone. *)
Definition same_ring (s s' : Scheduler) : Prop :=
  settings s' = settings s /\ prefix_cache s' = prefix_cache s /\
  spark_inflight_counts s' = spark_inflight_counts s /\ prefill_demand s' = prefill_demand s.

(** Settings and the presence of a cache never change. *)
Definition same_shape (s s' : Scheduler) : Prop :=
  settings s' = settings s /\ (prefix_cache s <> None -> prefix_cache s' <> None).

Lemma recached_some s s' : recached s s' -> prefix_cache s <> None -> prefix_cache s' <> None.
Proof. intros (o&->&H) Hc. cbn. by destruct (prefix_cache s), o. Qed.

Lemma recached_shape s s' : recached s s' -> same_shape s s'.
Proof. intros Hr. split; [by apply recached_settings|by apply recached_some]. Qed.

Lemma carries_eq s s' n : settings s' = settings s -> spark_inflight_counts s' = spark_inflight_counts s -> carries s n -> carries s' n.
Proof.
  intros He Hi [Hc Hn]. destruct (settings_fields s s' He) as (_&_&_&E4&E5&_). split; [by rewrite Hi, E4|by rewrite E5].
Qed.

Lemma cache_owned_eq s s' : settings s' = settings s -> prefix_cache s' = prefix_cache s -> cache_owned s -> cache_owned s'.
Proof.
  intros He Hc. destruct (settings_fields s s' He) as (_&_&_&_&_&_&_&_&_&E10&E11). unfold cache_owned, prompt_cache_is_enabled. by rewrite Hc, E10, E11.
Qed.

Lemma same_ring_wf s s' n : same_ring s s' -> sched_wf s n -> sched_wf s' n.
Proof.
  intros (He&Hc&Hi&_) [H1 H2 H3]. split; [by eapply settings_ok_eq|by eapply cache_owned_eq|by eapply carries_eq].
Qed.

Lemma same_ring_refl s : same_ring s s.
Proof. done. Qed.

Lemma recached_wf s s' n : recached s s' -> sched_wf s n -> sched_wf s' n.
Proof.
  intros Hr [H1 H2 H3]. pose proof (recached_settings _ _ Hr) as He. destruct (recached_counts _ _ Hr) as [Hi _].
  split; [by eapply settings_ok_eq|by eapply recached_owned|by eapply carries_eq].
Qed.

Lemma set_carried_wf s n n' : sched_wf s n -> 0 <= n' <= queue_depth_per_spark s -> sched_wf (set_carried n' s) n'.
Proof.
  intros [H1 H2 H3] Hn. split; [by apply (settings_ok_eq s)|by apply (cache_owned_eq s)|by split].
Qed.

Lemma account_ring r cached d s : same_ring s (account_admission r cached d s).
Proof.
  unfold account_admission. cbv zeta. destruct (is_prefill r).
  - destruct (has_flag _ DECISION_FLAG_PREFILL_CHUNK), (has_flag _ DECISION_FLAG_PREFILL_RESERVED_DECODE_SLOT), (prompt_cache_is_enabled _); done.
  - destruct (has_flag _ DECISION_FLAG_DECODE_BYPASS_PREFILL), (has_flag _ DECISION_FLAG_MEASURED_DECODE_BUCKET); done.
Qed.

(** ** Admitting a request *)

(** What an accepted decision promises. *)
Record admitted (s : Scheduler) (r : SchedulerRequest) (n : Z) (d : SchedulerDecision) (s' : Scheduler)
    (bucket : Z) (costs : list Z) (extra : Z) (ks : list Z) (st : PrefillStep) (s1 : Scheduler) : Prop := {
  ad_room : room s (is_prefill r) n = true;
  ad_bucket : batch_bucket_is_supported bucket = true /\ 0 < rq_active_sequence_count r <= bucket;
  ad_costs : costs_ok s costs extra;
  ad_choice : chosen s r bucket /\ bucket_price s bucket = Some (max_stage_cost costs extra 0 ks);
  ad_cut : best_cut s costs extra ks /\ 1 <= spark_count s <= 13;
  ad_step : if is_prefill r then planned s r st s1 else st = decode_step /\ s1 = s;
  ad_accepted : sd_accepted d = true /\ sd_rejected_status d = None;
  ad_plan : sd_stage_plan d = plan_of (stage_geometry s) ks /\ sd_stage_count d = spark_count s /\ sd_batch_bucket d = bucket;
  ad_padding : sd_active_sequence_count d = rq_active_sequence_count r /\ sd_graph_sequence_capacity d = bucket /\
    sd_graph_sequence_padding_count d = bucket - rq_active_sequence_count r;
  ad_prompt : sd_cached_prefix_token_count d = st_cached st /\ sd_computed_prompt_token_count d = st_computed st /\
    sd_scheduled_prompt_token_offset d = st_computed st /\ sd_scheduled_prompt_token_count d = st_scheduled st /\
    sd_remaining_prompt_token_count_after_step d = st_remaining st /\
    sd_cache_commit_token_count_after_step d = st_computed st +u32 st_scheduled st;
  ad_prefill_flag : has_flag (sd_decision_flags d) DECISION_FLAG_PREFILL_STEP = is_prefill r;
  ad_sequence : sd_sequence_id d = rq_sequence_id r;
  ad_reservation : if is_prefill r && prompt_cache_is_enabled s
    then exists rs, st_reservation st = Some rs /\ sd_prefix_cache_reservation_epoch d = rs_reservation_epoch rs /\
           sd_kv_physical_block_indices d = rs_physical_block_indices rs /\ sd_kv_block_table_token_count d = rs_reserved_token_count rs
    else sd_prefix_cache_reservation_epoch d = 0;
  ad_dispatch : exists template, sd_dispatch_stages d = dispatch_table (stage_geometry s) template costs extra (st_blocks st) ks;
  ad_critical : sd_estimated_critical_path_ns d = largest ((fun p => p *u64 st_blocks st) <$> prices costs extra 0 ks);
  ad_settings : settings s' = settings s /\ prefill_demand s' = prefill_demand s;
  ad_cache : prefix_cache s' = prefix_cache s1;
  ad_carried : spark_inflight_counts s' = replicate (Z.to_nat (spark_count s)) (n + 1);
}.

(** The fields [dispatch_request] adds. *)
Definition finished (r : SchedulerRequest) (st : PrefillStep) (table : list DispatchStage) (critical : Z) (d : SchedulerDecision) : SchedulerDecision :=
  d <| sd_sequence_id := rq_sequence_id r |>
    <| sd_prompt_token_ids := match rq_prompt_token_ids r with Some ids => ids | None => sd_prompt_token_ids d end |>
    <| sd_total_scheduled_token_count := if is_prefill r then rq_active_sequence_count r *u64 st_scheduled st else rq_active_sequence_count r |>
    <| sd_dispatch_stages := table |> <| sd_estimated_critical_path_ns := critical |>.

Section admission.
Context (s : Scheduler) (r : SchedulerRequest) (n bucket minimal : Z) (costs : list Z) (extra : Z) (ks : list Z).
Context (Hwf : sched_wf s n) (Hw : request_words r) (Hr : request_ok s r) (Hroom : room s (is_prefill r) n = true).
Context (Hbucket : bucket_ok (rq_active_sequence_count r) bucket minimal).
Context (Hc : costs_ok s costs extra) (Hcut : best_cut s costs extra ks) (Hn : 1 <= spark_count s <= 13).
Context (Hchoice : chosen s r bucket /\ bucket_price s bucket = Some (max_stage_cost costs extra 0 ks)).

Abbreviation g := (stage_geometry s).
Abbreviation bare := ((empty_decision (quantization_mode s) (spark_count s)) <| sd_stage_plan := plan_of g ks |>).

Lemma room_below : n < queue_depth_per_spark s.
Proof.
  pose proof Hroom as Hr'. unfold room in Hr'. apply Z.ltb_lt in Hr'. pose proof (kept_slots_bounds s (wf_settings s n Hwf) (is_prefill r)). lia.
Qed.

(** The dispatch runs in the state the prompt was planned in. *)
Definition same_but_cache (s1 : Scheduler) : Prop := exists o, s1 = s <| prefix_cache := o |>.

Lemma dispatch_request_spec flags st d s1 (R : SchedulerError -> Scheduler -> Prop) :
  same_but_cache s1 -> sd_stage_plan d = plan_of g ks ->
  wp (dispatch_request r bucket flags st costs extra d)
    (fun d' s' => exists template, d' = finished r st (dispatch_table g template costs extra (st_blocks st) ks)
         (largest ((fun p => p *u64 st_blocks st) <$> prices costs extra 0 ks)) d /\
       same_ring (set_carried (n + 1) s1) s') R s1.
Proof.
  intros [o ->] Hd. unfold dispatch_request. cbv zeta. rewrite Hd. wp_step.
  set (template := mkDispatchStage _ _ _ _ _ _ _ _ _ _ _ _ _). destruct Hwf as [Hs _ Hcar].
  assert (settings_ok (s <| prefix_cache := o |>)) as Hs1 by (by apply (settings_ok_eq s)).
  pose proof (dispatch_spec (s <| prefix_cache := o |>) Hs1 costs extra ks Hc) as Hsp.
  change (stage_geometry (s <| prefix_cache := o |>)) with g in Hsp.
  eapply wp_mono; [eapply (Hsp ltac:(by destruct Hcut) template (st_blocks st) n R)| |done].
  - exact Hcar.
  - exact room_below.
  - intros x s' [-> ->]. wp_steps. exists template. split; [done|]. apply account_ring.
Qed.

Lemma planned_recached st s1 : planned s r st s1 -> recached s s1.
Proof.
  intros [_ Hp]. destruct (prompt_cache_is_enabled s) eqn:He; [|destruct Hp as [_ ->]; apply recached_refl, (wf_cache s n Hwf)].
  destruct Hp as (c0&c&c'&rs&Hc0&Hq&(_&Hok&_)&_&->). exists (Some c'). split; [done|]. rewrite Hc0.
  pose proof (wf_cache s n Hwf) as Ho. unfold cache_owned in Ho. rewrite Hc0 in Ho. eapply cache_ok_trans; [by apply quiet_ok; [apply Ho|]|done].
Qed.

Lemma prefill_step_flag st bypass :
  has_flag (flag_when (is_decode r && negb (bucket =? minimal)) DECISION_FLAG_MEASURED_DECODE_BUCKET
    (build_decision_flags s r bucket (st_cached st) (st_scheduled st) (st_remaining st) bypass)) DECISION_FLAG_PREFILL_STEP = is_prefill r.
Proof.
  rewrite (ro_kind s r Hr). unfold build_decision_flags. rewrite (ro_kind s r Hr).
  destruct (is_prefill r); cbn [negb andb]; unfold flag_when;
    repeat match goal with |- context [if ?b then _ else _] => destruct b end; vm_compute; reflexivity.
Qed.

Lemma accept_spec st s1 (R : SchedulerError -> Scheduler -> Prop) :
  (if is_prefill r then planned s r st s1 else st = decode_step /\ s1 = s) ->
  wp (accept_request r bucket minimal costs extra st bare) (fun d s' => admitted s r n d s' bucket costs extra ks st s1) R s1.
Proof.
  intros Hst. assert (same_but_cache s1) as Hsame.
  { destruct (is_prefill r); [|destruct Hst as [_ ->]; exists (prefix_cache s); by destruct s].
    destruct (planned_recached st s1 Hst) as (o&->&_). by exists o. }
  assert (cache_owned s1) as Ho1.
  { destruct (is_prefill r); [|destruct Hst as [_ ->]; apply Hwf]. eapply recached_owned; [apply Hwf|by eapply planned_recached]. }
  pose proof Hsame as [o Hs1]. pose proof (wf_settings s n Hwf) as Hs. pose proof (so_block s Hs) as Hblock.
  assert (carries s1 n) as Hcar1 by (rewrite Hs1; apply Hwf).
  assert (settings_ok s1) as Hset1 by (rewrite Hs1; by apply (settings_ok_eq s)).
  unfold accept_request. wp_step.
  apply (wp_mono _ (fun (b : bool) s' => s' = s1) _ R R); [|intros bypass s' ->|done].
  { destruct (is_decode r); [|by wp_steps]. eapply wp_mono; [by apply (bypass_spec s1 Hset1 n R)|by intros ?? [? _]|done]. }
  wp_steps. unfold id. replace (build_decision_flags s1) with (build_decision_flags s) by (by rewrite Hs1).
  replace (prefix_cache_block_tokens s1) with (prefix_cache_block_tokens s) by (by rewrite Hs1).
  destruct (Z.eqb_spec (prefix_cache_block_tokens s) 0); [lia|].
  set (df := flag_when _ _ _). pose proof (prefill_step_flag st bypass) as Hflag. fold df in Hflag.
  replace (prompt_cache_is_enabled s1) with (prompt_cache_is_enabled s) by (by rewrite Hs1).
  replace (stamp_request s1) with (stamp_request s) by (by rewrite Hs1). replace (stamp_reservation s1) with (stamp_reservation s) by (by rewrite Hs1).
  destruct Hbucket as (B1&B2&B3&B4). pose proof Hw as (Hw1&_).
  assert (bucket -u32 rq_active_sequence_count r = bucket - rq_active_sequence_count r) as Hpad.
  { rewrite u32_small; [done|]. apply supported_elem in B1. unfold BATCH_BUCKETS in B1.
    repeat (apply elem_of_cons in B1 as [->|B1]; [unfold BUCKET_B16, BUCKET_B32, BUCKET_B64, BUCKET_B128, BUCKET_B256, BUCKET_B512, BUCKET_B1024 in *; lia|]).
    by apply elem_of_nil in B1. }
  pose proof (bc_length _ _ _ _ Hcut) as Hlen.
  destruct (is_prefill r && prompt_cache_is_enabled s) eqn:Hcase.
  - apply andb_true_iff in Hcase as [Hp He]. rewrite Hp in Hst. pose proof Hst as [Hok Hres]. rewrite He in Hres.
    destruct Hres as (c0&c&c'&rs&Hc0&Hq&Hrs&Hsome&_). rewrite Hsome. unfold some_or. wp_steps.
    destruct (sk_chunk s r st Hok) as (K0&K1&K2&K3). pose proof Hw as (_&Hpw&_).
    destruct (ro_ids s r Hr Hp He) as (_&ids&Hids&Hil).
    pose proof (wf_cache s n Hwf) as Ho. unfold cache_owned in Ho. rewrite Hc0 in Ho. destruct Ho as [Hcw Hbtc].
    specialize (Hbtc He). pose proof (sw_btc _ _ _ _ _ _ Hcw) as Hb256.
    eapply wp_mono; [apply (hash_parent_spec s1 r (st_computed st) (rs_reservation_epoch rs) Hset1 Ho1 ltac:(lia))| |].
    2:{ intros e s' (_&_&Hbad). specialize (Hbad ids Hids). lia. }
    intros [status|parent] s' H.
    { destruct H as [_ H]. replace (prefix_cache_block_tokens s1) with (prefix_cache_block_tokens s) in H by (by rewrite Hs1). lia. }
    destruct H as [-> _]. eapply wp_mono; [by apply dispatch_request_spec| |done].
    intros d s' (template&->&He1&He2&He3&He4). split; try done; rewrite ?Hp, ?He; cbn [andb].
    + split; [done|lia].
    + done.
    + by exists rs.
    + by exists template.
    + split; [by rewrite He1, Hs1|by rewrite He4, Hs1].
    + by rewrite He3, Hs1.
  - eapply wp_mono; [by apply dispatch_request_spec| |done].
    intros d s' (template&->&He1&He2&He3&He4). split; try done; rewrite ?Hcase.
    + split; [done|lia].
    + done.
    + by exists template.
    + split; [by rewrite He1, Hs1|by rewrite He4, Hs1].
    + by rewrite He3, Hs1.
Qed.

End admission.

(** A refused request leaves the ring alone; it is refused as [Busy] only for want of a slot. *)
Definition refused (s : Scheduler) (r : SchedulerRequest) (n : Z) (d : SchedulerDecision) (s' : Scheduler) : Prop :=
  sd_accepted d = false /\
  (exists status, sd_rejected_status d = Some status /\ (status = Busy -> room s (is_prefill r) n = false)) /\
  exists s1, recached s s1 /\ s' = s1 <| rejected_count := rejected_count s1 +u64 1 |>.

Lemma reject_spec s s1 r n d status (R : SchedulerError -> Scheduler -> Prop) :
  recached s s1 -> (status = Busy -> room s (is_prefill r) n = false) ->
  wp (reject d status) (fun d' s' => refused s r n d' s') R s1.
Proof. intros Hrc Hb. unfold reject. wp_steps. split; [done|]. split; [by exists status|by exists s1]. Qed.

Lemma wp_attempt {A} (m : SM A) (Q : SchedulerError + A -> Scheduler -> Prop) R s :
  wp m (fun a s' => Q (inr a) s') (fun e s' => Q (inl e) s') s -> wp (attempt m) Q R s.
Proof.
  intros H. unfold attempt. wp_steps. eapply wp_mono; [exact H|..]; intros ? s1 HQ; by wp_steps.
Qed.

(** The computation returned what it did. *)
Lemma wp_track {A} (m : SM A) (Q : A -> Scheduler -> Prop) R s : wp m Q R s -> wp m (fun a s' => Q a s' /\ m s = Ret a s') R s.
Proof. unfold wp. by destruct (m s). Qed.

Definition accepted (s : Scheduler) (r : SchedulerRequest) (n : Z) (d : SchedulerDecision) (s' : Scheduler) : Prop :=
  request_ok s r /\ exists bucket costs extra ks st s1, admitted s r n d s' bucket costs extra ks st s1.

Lemma scheduler_admit_spec s r n : sched_wf s n -> request_words r ->
  wp (scheduler_admit r) (fun d s' => accepted s r n d s' \/ refused s r n d s') (fun e s' => s' = s /\ e = InvalidArgument) s.
Proof.
  intros Hwf Hw. pose proof (wf_settings s n Hwf) as Hs. pose proof (wf_cache s n Hwf) as Ho.
  pose proof (recached_refl s Ho) as Hrefl. unfold scheduler_admit. wp_steps. unfold id.
  apply validate_request_spec; [done|intros Hr|done]. wp_steps. apply wp_attempt.
  eapply wp_mono; [apply select_request_spec; [done|apply Hw]| |].
  2:{ intros e s' [-> Hb]. eapply wp_mono; [by apply (reject_spec s s r n _ _ (fun _ _ => False))|by right|done]. }
  intros [bucket minimal] s' (->&Hbucket&Hchosen). cbn [fst snd] in Hbucket, Hchosen. wp_steps. apply wp_attempt.
  eapply wp_mono; [by apply wp_track, (plan_and_costs_spec s Hs bucket), Hbucket| |].
  2:{ intros e s' [-> Hb]. eapply wp_mono; [by apply (reject_spec s s r n _ _ (fun _ _ => False))|by right|done]. }
  intros [[plan costs] extra] s' [[-> (ks&->&Hcut&Hc&Hn)] Hpl]. pose proof (bucket_price_some s Hs bucket costs extra ks Hc Hcut Hpl) as Hprice. wp_steps.
  replace (stage_count (plan_of (stage_geometry s) ks)) with (spark_count s) by (symmetry; apply Hcut).
  eapply wp_mono; [apply (first_full_spec s Hs (is_prefill r) n (fun _ _ => False)); [apply Hwf|lia]| |done].
  intros [i|] s' [-> Hroom].
  { eapply wp_mono; [by apply (reject_spec s s r n _ _ (fun _ _ => False))|by right|done]. }
  wp_steps. apply wp_attempt.
  apply (wp_mono _ (fun st s1 => if is_prefill r then planned s r st s1 else st = decode_step /\ s1 = s) _
    (fun e s1 => recached s s1 /\ e = CapacityExceeded)).
  - destruct (is_prefill r) eqn:Hp; [by apply plan_prefill_spec|by wp_steps].
  - intros st s1 Hst. eapply wp_mono; [by apply (accept_spec s r n bucket minimal costs extra ks Hwf Hw Hr Hroom Hbucket Hc Hcut Hn (conj Hchosen Hprice) st s1 (fun _ _ => False))| |done].
    intros d s' Hd. left. split; [done|]. by exists bucket, costs, extra, ks, st, s1.
  - intros e s1 [Hrc ->]. eapply wp_mono; [by apply (reject_spec s s1 r n _ _ (fun _ _ => False))|by right|done].
Qed.

(** An admission adds one step to every stage. *)
Lemma accepted_wf s r n d s' : sched_wf s n -> accepted s r n d s' -> sched_wf s' (n + 1).
Proof.
  intros Hwf (Hr&bucket&costs&extra&ks&st&s1&Ha). pose proof (ad_settings _ _ _ _ _ _ _ _ _ _ _ Ha) as [He _].
  destruct (settings_fields s s' He) as (_&_&_&E4&E5&_). pose proof (ad_room _ _ _ _ _ _ _ _ _ _ _ Ha) as Hroom.
  pose proof (room_below s r n Hwf Hroom). destruct Hwf as [Hs Ho [Hcar Hn]]. split.
  - by eapply settings_ok_eq.
  - eapply (cache_owned_eq s1); [|by apply Ha|].
    + pose proof (ad_step _ _ _ _ _ _ _ _ _ _ _ Ha) as Hst. destruct (is_prefill r).
      * rewrite He. symmetry. eapply recached_settings. by eapply (planned_recached s r n).
      * by destruct Hst as [_ ->].
    + pose proof (ad_step _ _ _ _ _ _ _ _ _ _ _ Ha) as Hst. destruct (is_prefill r); [|by destruct Hst as [_ ->]].
      eapply recached_owned; [done|]. by eapply (planned_recached s r n).
  - split; [by rewrite E4, (ad_carried _ _ _ _ _ _ _ _ _ _ _ Ha)|]. rewrite E5. lia.
Qed.

Lemma refused_wf s r n d s' : sched_wf s n -> refused s r n d s' -> sched_wf s' n.
Proof.
  intros Hwf (_&_&s1&Hrc&->). apply (same_ring_wf s1); [done|]. by eapply recached_wf.
Qed.

(** ** Retiring a decision *)

(** The decision occupies every stage of the ring once. *)
Record dispatched (s : Scheduler) (d : SchedulerDecision) : Prop := {
  dp_accepted : sd_accepted d = true;
  dp_ring : 1 <= spark_count s /\ sd_stage_count d = spark_count s;
  dp_stages : Z.of_nat (length (sd_dispatch_stages d)) = spark_count s;
  dp_index : forall i st, sd_dispatch_stages d !! i = Some st -> ds_spark_index st = Z.of_nat i;
}.

Lemma dispatched_eq s s' d : spark_count s' = spark_count s -> dispatched s d -> dispatched s' d.
Proof. intros He [H1 H2 H3 H4]. split; by rewrite ?He. Qed.

Lemma accepted_dispatched s r n d s' : accepted s r n d s' -> dispatched s d.
Proof.
  intros (_&bucket&costs&extra&ks&st&s1&Ha). destruct (ad_plan _ _ _ _ _ _ _ _ _ _ _ Ha) as (_&Hcount&_).
  destruct (ad_cut _ _ _ _ _ _ _ _ _ _ _ Ha) as [Hcut Hn]. destruct (ad_dispatch _ _ _ _ _ _ _ _ _ _ _ Ha) as [template Htable].
  split; [by apply Ha|split; [lia|done]|..]; rewrite Htable.
  - rewrite length_dispatch_table. apply Hcut.
  - intros i x Hx. by eapply dispatch_table_index.
Qed.

(** Counts after the first [i] stages were released. *)
Lemma drop_stage m (i : nat) n : (i < m)%nat -> 0 < n <= U32_MAX ->
  upd_nth (Z.of_nat i) (fun n => n -u32 1) (replicate i (n - 1) ++ replicate (m - i) n) = replicate (S i) (n - 1) ++ replicate (m - S i) n.
Proof.
  intros Hi Hn. unfold upd_nth. rewrite Nat2Z.id, alter_app_r_alt by (rewrite length_replicate; lia).
  rewrite length_replicate, Nat.sub_diag. replace (m - i)%nat with (S (m - S i)) by lia. cbn [replicate alter list_alter].
  rewrite u32_small by lia. by rewrite (replicate_cons_app i), <- (assoc_L (++)).
Qed.

Lemma release_inflight_spec s d n (R : SchedulerError -> Scheduler -> Prop) : settings_ok s -> carries s n -> dispatched s d -> 0 < n ->
  wp (release_decision_inflight d) (fun _ s' => s' = set_carried (n - 1) s) R s.
Proof.
  intros Hs [Hcar Hn] [Hacc [H1 Hcount] Hlen Hidx] Hpos. pose proof (so_depth s Hs) as Hd. pose proof (so_sparks s Hs) as Hsp.
  unfold release_decision_inflight. rewrite Hcount. set (m := Z.to_nat (spark_count s)) in *.
  assert (forall i, 0 <= i < spark_count s -> exists st, sd_dispatch_stages d !! Z.to_nat i = Some st /\ ds_spark_index st = i) as Hst.
  { intros i Hi. destruct (lookup_lt_is_Some_2 (sd_dispatch_stages d) (Z.to_nat i)) as [st Hx]; [lia|].
    exists st. split; [done|]. rewrite (Hidx _ _ Hx). lia. }
  wp_step. eapply wp_mono; [apply (wp_for_fold (fun _ _ s' => s' = s) _ _ _ R)| |done].
  - done.
  - intros pre i post [] s' Hsplit ->. apply range_split in Hsplit as [_ Hi]. destruct (Hst i Hi) as (st&Hx&Hsi).
    wp_steps. unfold id. rewrite Hsi. destruct (Z.leb_spec (spark_count s) i); [lia|]. wp_step.
    apply (wp_index _ _ _ _ _ n); [rewrite Hcar; apply lookup_replicate_2; lia|]. destruct (Z.eqb_spec n 0); [lia|]. by wp_steps.
  - intros [] s' ->. eapply wp_mono; [apply (wp_for_fold (fun pre _ s' => let i := length pre in (i <= m)%nat /\
      s' = s <| spark_inflight_counts := replicate i (n - 1) ++ replicate (m - i) n |>) _ _ _ R)| |done].
    + cbn. rewrite Nat.sub_0_r, <- Hcar. split; [lia|by destruct s].
    + intros pre i post [] s' Hsplit (Hi&->). apply range_split in Hsplit as [Hpre Hir]. destruct (Hst i Hir) as (st&Hx&Hsi).
      assert (i = Z.of_nat (length pre)) as Hil by (rewrite Hpre, length_range; lia). set (j := length pre) in *.
      wp_steps. rewrite Hsi.
      apply (wp_index _ _ _ _ _ n); [cbn; rewrite Hil, Nat2Z.id, lookup_app_r, lookup_replicate_2; [done|rewrite length_replicate; lia|rewrite length_replicate; lia]|].
      wp_steps. rewrite length_app. cbn [length]. fold j. rewrite Nat.add_1_r, Hil. split; [lia|].
      change (spark_inflight_counts (s <| spark_inflight_counts := replicate j (n - 1) ++ replicate (m - j) n |>))
        with (replicate j (n - 1) ++ replicate (m - j) n). rewrite drop_stage by lia. done.
    + intros [] s' (_&->). rewrite length_range. replace (Z.to_nat (spark_count s - 0)) with m by lia.
      by rewrite Nat.sub_diag, app_nil_r.
Qed.

Lemma validate_accepted_spec s d s0 (Q : unit -> Scheduler -> Prop) (R : SchedulerError -> Scheduler -> Prop) :
  dispatched s d -> Q tt s0 -> wp (validate_accepted_decision s d) Q R s0.
Proof.
  intros [Ha [H1 H2] H3 _] HQ. unfold validate_accepted_decision. rewrite Ha, H2, H3. cbn [negb orb].
  destruct (Z.eqb_spec (spark_count s) 0); [lia|]. rewrite Z.ltb_irrefl. cbn [orb]. by apply wp_ret.
Qed.

(** A method of the owned cache keeps the scheduler well formed. *)
Lemma on_cache_wf {A} (m : PM A) s n : sched_wf s n -> (forall c, cache_wf c -> safe m c) ->
  wp (on_cache m) (fun _ s' => sched_wf s' n /\ recached s s') (fun _ s' => sched_wf s' n /\ recached s s') s.
Proof.
  intros Hwf Hm. eapply wp_mono; [apply on_cache_safe; [apply Hwf|]|..].
  - intros c Hc. apply Hm. pose proof (wf_cache s n Hwf) as Ho. unfold cache_owned in Ho. rewrite Hc in Ho. apply Ho.
  - intros a s' Hr. split; [exact (recached_wf s s' n Hr Hwf)|exact Hr].
  - intros e s' Hr. split; [exact (recached_wf s s' n Hr Hwf)|exact Hr].
Qed.

(** A commit of a valid reservation cannot fail. *)
Lemma commit_wf s n seq op : sched_wf s n -> prompt_cache_is_enabled s = true -> seq <> 0 -> op <> 0 ->
  wp (on_cache (commit_reservation seq op)) (fun _ s' => sched_wf s' n /\ recached s s') (fun _ _ => False) s.
Proof.
  intros Hwf He Hseq Hop. pose proof (wf_cache s n Hwf) as Ho. pose proof Ho as Ho'. unfold cache_owned in Ho'.
  apply wp_on_cache. destruct (prefix_cache s) as [c|] eqn:Hc; [|congruence].
  eapply wp_mono; [apply (commit_spec c seq op); [apply Ho'|done|done]| |done]. intros [] c' [Hok _].
  assert (recached s (s <| prefix_cache := Some c' |>)) as Hr by (exists (Some c'); by rewrite Hc).
  split; [exact (recached_wf _ _ n Hr Hwf)|exact Hr].
Qed.

Lemma cancel_wf s n seq op : sched_wf s n -> prompt_cache_is_enabled s = true -> seq <> 0 -> op <> 0 ->
  wp (on_cache (cancel_reservation seq op)) (fun _ s' => sched_wf s' n /\ recached s s') (fun _ _ => False) s.
Proof.
  intros Hwf He Hseq Hop. pose proof (wf_cache s n Hwf) as Ho. pose proof Ho as Ho'. unfold cache_owned in Ho'.
  apply wp_on_cache. destruct (prefix_cache s) as [c|] eqn:Hc; [|congruence]. unfold cancel_reservation.
  destruct (Z.eqb_spec seq 0); [done|]. destruct (Z.eqb_spec op 0); [done|]. cbn [orb].
  eapply wp_mono; [apply (rollback_epoch_spec c seq op), Ho'| |done]. intros [] c' [Hok _].
  assert (recached s (s <| prefix_cache := Some c' |>)) as Hr by (exists (Some c'); by rewrite Hc).
  split; [exact (recached_wf _ _ n Hr Hwf)|exact Hr].
Qed.

(** The reservation a prefill decision holds. *)
Definition holds_reservation (s : Scheduler) (d : SchedulerDecision) : bool :=
  has_flag (sd_decision_flags d) DECISION_FLAG_PREFILL_STEP && prompt_cache_is_enabled s.

(** Completing or cancelling an outstanding decision takes one step off every stage; it
    fails only for a reservation whose epoch wrapped to zero. *)
Definition retired (s : Scheduler) (d : SchedulerDecision) (m : SM unit) (n : Z) : Prop :=
  wp m (fun _ s' => sched_wf s' (n - 1) /\ same_shape s s')
    (fun _ s' => sched_wf s' (n - 1) /\ same_shape s s' /\
       (holds_reservation s d = true /\ (sd_sequence_id d = 0 \/ sd_prefix_cache_reservation_epoch d = 0))) s.

(** The common start of [complete] and [cancel]. *)
Lemma retire_spec s d n (m : SM unit) : sched_wf s n -> dispatched s d -> 0 < n ->
  (sched_wf (set_carried (n - 1) s) (n - 1) ->
   wp m (fun _ s' => sched_wf s' (n - 1) /\ same_shape s s')
     (fun _ s' => sched_wf s' (n - 1) /\ same_shape s s' /\
        (holds_reservation s d = true /\ (sd_sequence_id d = 0 \/ sd_prefix_cache_reservation_epoch d = 0))) (set_carried (n - 1) s)) ->
  retired s d (do! validate_accepted_decision s d in do! release_decision_inflight d in m) n.
Proof.
  intros Hwf Hd Hn Hm. unfold retired. wp_step. apply validate_accepted_spec; [done|]. wp_step.
  eapply wp_mono; [apply (release_inflight_spec s d n (fun _ _ => False)); [apply Hwf|apply Hwf|done|done]| |done].
  intros [] s1 ->. pose proof (wf_carries s n Hwf) as [_ Hb]. apply Hm, (set_carried_wf s n); [done|lia].
Qed.

Lemma complete_decision_spec s d n : sched_wf s n -> dispatched s d -> 0 < n -> retired s d (complete d) n.
Proof.
  intros Hwf Hd Hn. unfold complete. apply wp_bind, wp_gets. unfold id. apply (retire_spec s d n); [done..|]. intros Hwf1.
  set (s1 := set_carried (n - 1) s) in *.
  assert (forall s2, sched_wf s2 (n - 1) -> same_shape s s2 ->
    wp (modify (E := SchedulerError) (fun s => s <| completed_count := completed_count s +u64 1 |>))
      (fun _ s' => sched_wf s' (n - 1) /\ same_shape s s') (fun _ s' => sched_wf s' (n - 1) /\ same_shape s s' /\
        (holds_reservation s d = true /\ (sd_sequence_id d = 0 \/ sd_prefix_cache_reservation_epoch d = 0))) s2) as Hend.
  { intros s2 Hw2 He2. wp_steps. split; [by apply (same_ring_wf s2)|done]. }
  wp_step. apply wp_when; [intros Hc|intros _; by apply Hend].
  apply andb_true_iff in Hc as [Hh _]. fold (holds_reservation s d) in Hh. pose proof Hh as [_ He]%andb_true_iff.
  destruct (decide (sd_sequence_id d = 0 \/ sd_prefix_cache_reservation_epoch d = 0)) as [H0|Hnz].
  - eapply wp_mono; [apply (on_cache_wf _ s1 (n - 1) Hwf1); intros c Hcw; by apply commit_safe|..].
    + intros [] s2 [Hw2 Hr2]. apply Hend; [done|]. exact (recached_shape _ _ Hr2).
    + intros e s2 [Hw2 Hr2]. split; [done|]. split; [exact (recached_shape _ _ Hr2)|done].
  - apply Decidable.not_or in Hnz as [Hs0 He0]. eapply wp_mono; [by apply (commit_wf s1 (n - 1))| |done].
    intros [] s2 [Hw2 Hr2]. apply Hend; [done|]. exact (recached_shape _ _ Hr2).
Qed.

Lemma cancel_spec s d n : sched_wf s n -> dispatched s d -> 0 < n -> retired s d (cancel d) n.
Proof.
  intros Hwf Hd Hn. unfold cancel. apply wp_bind, wp_gets. unfold id. apply (retire_spec s d n); [done..|]. intros Hwf1.
  set (s1 := set_carried (n - 1) s) in *. destruct (_ && negb _) eqn:Hc; [|by wp_steps].
  apply andb_true_iff in Hc as [Hh _]. fold (holds_reservation s d) in Hh. pose proof Hh as [_ He]%andb_true_iff. wp_step.
  destruct (decide (sd_sequence_id d = 0 \/ sd_prefix_cache_reservation_epoch d = 0)) as [H0|Hnz].
  - eapply wp_mono; [apply (on_cache_wf _ s1 (n - 1) Hwf1); intros c Hcw; by apply cancel_safe|..].
    + intros [] s2 [Hw2 Hr2]. wp_steps. split; [by apply (same_ring_wf s2)|]. exact (recached_shape _ _ Hr2).
    + intros e s2 [Hw2 Hr2]. split; [done|]. split; [exact (recached_shape _ _ Hr2)|done].
  - apply Decidable.not_or in Hnz as [Hs0 He0]. eapply wp_mono; [by apply (cancel_wf s1 (n - 1))| |done].
    intros [] s2 [Hw2 Hr2]. wp_steps. split; [by apply (same_ring_wf s2)|]. exact (recached_shape _ _ Hr2).
Qed.

(** ** Packing decodes *)

(** The packed form of the first requests: consecutive rows in request order. *)
Fixpoint packs (i offset : Z) (rs : list SchedulerRequest) : list PackedRequest :=
  match rs with
  | [] => []
  | r :: rest =>
      mkPackedRequest i offset (rq_active_sequence_count r) (rq_flags r) (rq_active_sequence_count r) (rq_active_sequence_count r)
        :: packs (i + 1) (offset + rq_active_sequence_count r) rest
  end.

Definition rows (rs : list SchedulerRequest) : Z := sumZ (rq_active_sequence_count <$> rs).

Lemma length_packs i offset rs : length (packs i offset rs) = length rs.
Proof. revert i offset. induction rs as [|r rs IH]; intros i offset; cbn; [done|]. by rewrite IH. Qed.

(** The longest prefix of the requests whose rows fit. *)
Definition longest_fit (limit : Z) (rs : list SchedulerRequest) (k : nat) : Prop :=
  (k <= length rs)%nat /\ rows (take k rs) <= limit /\ Z.of_nat k <= limit /\
  (Z.of_nat k = limit \/ k = length rs \/ exists r, rs !! k = Some r /\ limit < rows (take k rs) + rq_active_sequence_count r).

Lemma rows_cons r rs : rows (r :: rs) = rq_active_sequence_count r + rows rs.
Proof. done. Qed.

Lemma rows_app rs rs' : rows (rs ++ rs') = rows rs + rows rs'.
Proof. unfold rows. by rewrite fmap_app, sumZ_app. Qed.

Lemma packs_app i offset rs rs' :
  packs i offset (rs ++ rs') = packs i offset rs ++ packs (i + Z.of_nat (length rs)) (offset + rows rs) rs'.
Proof.
  revert i offset. induction rs as [|r rs IH]; intros i offset; cbn [app packs length].
  - unfold rows. cbn. change (sumZ []) with 0. by rewrite !Z.add_0_r.
  - rewrite IH, rows_cons. do 2 f_equal. f_equal; lia.
Qed.

(** The packing loop, from the requests [pre] already packed. *)
Lemma pack_decode_spec limit rest : forall pre, 0 <= limit <= 1024 ->
  Forall (fun r => 0 < rq_active_sequence_count r <= U32_MAX) (pre ++ rest) -> rows pre <= limit -> Z.of_nat (length pre) <= limit ->
  match pack_decode limit (Z.of_nat (length pre)) rest (packs 0 0 pre, rows pre, rows pre) with
  | inl e => e = CapacityExceeded /\ exists r, r ∈ rest /\ limit < rq_active_sequence_count r
  | inr (packed, _, active) => exists k, longest_fit limit (pre ++ rest) k /\ (length pre <= k)%nat /\
      packed = packs 0 0 (take k (pre ++ rest)) /\ active = rows (take k (pre ++ rest))
  end.
Proof.
  induction rest as [|r rest IH]; intros pre Hl Hall Hrows Hlen; cbn [pack_decode].
  - exists (length pre). rewrite app_nil_r, firstn_all. split; [|by split_and!]. unfold longest_fit. rewrite firstn_all. split_and!; try done. by right; left.
  - pose proof (proj1 (Forall_app _ _ _) Hall) as [Hpre Hrest]. inversion_clear Hrest as [|? ? Hr Hrest'].
    assert (0 <= rows pre) as Hr0 by (apply sumZ_nonneg, Forall_fmap; eapply Forall_impl; [exact Hpre|]; cbn; lia).
    assert (take (length pre) (pre ++ r :: rest) = pre) as Htake by apply take_app_length.
    rewrite length_packs, u32_small by lia. destruct (Z.leb_spec limit (Z.of_nat (length pre))).
    { exists (length pre). rewrite Htake. split; [|by split_and!]. unfold longest_fit. rewrite Htake, length_app. split_and!; [lia|lia|lia|left; lia]. }
    destruct (Z.ltb_spec limit (rq_active_sequence_count r)) as [Hbig|Hsmall]; [split; [done|]; exists r; split; [set_solver|done]|].
    rewrite (u32_small (rows pre + _)) by lia. destruct (Z.ltb_spec limit (rows pre + rq_active_sequence_count r)) as [Hno|Hfit].
    { exists (length pre). rewrite Htake. split; [|by split_and!]. unfold longest_fit. rewrite Htake, length_app. split_and!; [lia|lia|lia|].
      right; right. exists r. split; [by rewrite list_lookup_middle|done]. }

    assert (packs 0 0 pre ++ [mkPackedRequest (Z.of_nat (length pre)) (rows pre) (rq_active_sequence_count r) (rq_flags r)
      (rq_active_sequence_count r) (rq_active_sequence_count r)] = packs 0 0 (pre ++ [r])) as -> by (rewrite packs_app; cbn [packs]; by rewrite !Z.add_0_l).
    assert (rows pre + rq_active_sequence_count r = rows (pre ++ [r])) as Hs by (rewrite rows_app, rows_cons; unfold rows at 3; cbn; change (sumZ []) with 0; lia).
    rewrite Hs. replace (Z.of_nat (length pre) + 1) with (Z.of_nat (length (pre ++ [r]))) by (rewrite length_app; cbn; lia).
    specialize (IH (pre ++ [r]) Hl). rewrite <- app_assoc in IH. specialize (IH Hall ltac:(lia) ltac:(rewrite length_app; cbn; lia)).
    destruct (pack_decode _ _ _ _) as [e|[[packed x] active]].
    + destruct IH as [-> (r'&Hr'&Hb)]. split; [done|]. exists r'. split; [set_solver|done].
    + destruct IH as (k&Hk1&Hk2&Hk3&Hk4). exists k. rewrite length_app in Hk2. cbn in Hk2. split_and!; try done. lia.
Qed.

(** ** Decode batches *)

Lemma validate_each_spec s (ok : SchedulerRequest -> Prop) (test : SchedulerRequest -> bool) requests s0 (Q : unit -> Scheduler -> Prop)
    (R : SchedulerError -> Scheduler -> Prop) :
  Forall request_words requests -> (forall r, request_ok s r -> test r = false -> ok r) ->
  (Forall ok requests -> Q tt s0) -> R InvalidArgument s0 ->
  wp (for_fold requests (fun r _ => do! validate_request s r in if test r then throw InvalidArgument else ret tt) tt) Q R s0.
Proof.
  intros Hw Hok HQ HR. eapply wp_mono; [apply (wp_for_fold (fun pre _ s' => s' = s0 /\ Forall ok pre) _ _ _ (fun e s' => e = InvalidArgument /\ s' = s0))| |].
  - done.
  - intros pre r post [] s' Hsplit [-> Hpre]. wp_step.
    apply validate_request_spec; [eapply Forall_forall; [exact Hw|rewrite Hsplit; set_solver]|intros Hr|done].
    destruct (test r) eqn:Ht; wp_steps; [done|]. split; [done|]. apply Forall_app. split; [done|]. constructor; [by apply Hok|done].
  - intros [] s' [-> H]. by apply HQ.
  - by intros e s' [-> ->].
Qed.

Lemma validate_decode_batch_spec s requests (Q : unit -> Scheduler -> Prop) (R : SchedulerError -> Scheduler -> Prop) :
  Forall request_words requests ->
  (requests <> [] -> Forall (fun r => request_ok s r /\ is_decode r = true) requests -> Q tt s) -> R InvalidArgument s ->
  wp (validate_decode_batch_request requests) Q R s.
Proof.
  intros Hw HQ HR. unfold validate_decode_batch_request. wp_steps. unfold id. destruct (_ || _) eqn:Hg; wp_steps; [done|].
  apply orb_false_iff in Hg as [Hg _].
  apply (validate_each_spec s (fun r => request_ok s r /\ is_decode r = true) (fun r => negb (is_decode r))); [done| |intros H; apply HQ; [|done]|done].
  - intros r Hr Ht. split; [done|by destruct (is_decode r)].
  - intros ->. done.
Qed.

(** An accepted decode batch: the longest prefix of the requests that fits the largest
    bucket, packed into consecutive rows and admitted as one decode. *)
Record decode_batched (s : Scheduler) (n : Z) (requests : list SchedulerRequest) (b : BatchDecision) (s' : Scheduler) (k : nat) : Prop := {
  db_fit : longest_fit MAX_BATCH_BUCKET requests k /\ (0 < k)%nat;
  db_packed : bd_packed_requests b = packs 0 0 (take k requests) /\ bd_packed_request_count b = Z.of_nat k;
  db_rows : bd_active_sequence_count b = rows (take k requests);
  db_admitted : exists d s1, accepted s (decode_request (rows (take k requests))) n d s1 /\ same_ring s1 s' /\
    bd_batch_bucket b = sd_batch_bucket d /\ bd_estimated_critical_path_ns b = sd_estimated_critical_path_ns d;
  db_dispatched : dispatched s (bd_stage_decision b);
  db_flags : has_flag (bd_decision_flags b) DECISION_FLAG_ADAPTIVE_DECODE_PACK = true /\
    has_flag (sd_decision_flags (bd_stage_decision b)) DECISION_FLAG_PREFILL_STEP = false;
  db_accepted : bd_accepted b = true;
}.

Definition decode_batch_refused (s : Scheduler) (n : Z) (b : BatchDecision) (s' : Scheduler) : Prop :=
  bd_accepted b = false /\ (s' = s \/ exists r d, refused s r n d s').

Lemma mark_spec s0 d s (Q : SchedulerDecision -> Scheduler -> Prop) (R : SchedulerError -> Scheduler -> Prop) : dispatched s0 d ->
  (forall d', dispatched s0 d' -> sd_decision_flags d' = Z.lor (sd_decision_flags d) DECISION_FLAG_ADAPTIVE_DECODE_PACK ->
     sd_batch_bucket d' = sd_batch_bucket d -> sd_estimated_critical_path_ns d' = sd_estimated_critical_path_ns d -> Q d' s) ->
  wp (mark_adaptive_decode d) Q R s.
Proof.
  intros [H1 [H2 H3] H4 H5] HQ. unfold mark_adaptive_decode. cbv zeta. wp_step. apply wp_slice; [lia|lia|]. wp_steps.
  apply HQ; [|done..]. rewrite take_ge, drop_ge, app_nil_r by lia. split; cbn; [done|done|by rewrite length_fmap|].
  intros i st Hi. apply list_lookup_fmap_Some in Hi as (st'&->&Hi). cbn. by apply H5.
Qed.

Lemma admit_decode_batch_spec s n requests : sched_wf s n -> Forall request_words requests ->
  wp (admit_decode_batch requests)
    (fun b s' => (exists k, decode_batched s n requests b s' k) \/ decode_batch_refused s n b s')
    (fun e s' => e = InvalidArgument /\ s' = s) s.
Proof.
  intros Hwf Hw. unfold admit_decode_batch. wp_steps. apply validate_decode_batch_spec; [done| |done]. intros Hne Hall. wp_steps. unfold id.
  unfold max_packed_request_count. rewrite (so_bucket s (wf_settings s n Hwf)). change MAX_BATCH_BUCKET with 1024.
  pose proof (pack_decode_spec 1024 requests [] ltac:(lia)) as Hpack. cbn [app length packs] in Hpack. change (rows []) with 0 in Hpack.
  assert (Forall (fun r => 0 < rq_active_sequence_count r <= U32_MAX) requests) as Hpos.
  { apply Forall_forall. intros r Hr. pose proof (proj1 (Forall_forall _ _) Hw r Hr) as ((?&?)&_).
    pose proof (proj1 (Forall_forall _ _) Hall r Hr) as [Hok _]. pose proof (ro_active s r Hok). lia. }
  specialize (Hpack Hpos ltac:(lia) ltac:(lia)). change (Z.of_nat 0) with 0 in Hpack.
  destruct (pack_decode 1024 0 requests ([], 0, 0)) as [e|[[packed x] active]].
  { wp_steps. right. split; [done|by left]. }
  destruct Hpack as (k&Hk&_&->&->). pose proof Hk as (Hk1&Hk2&Hk3&Hk4). rewrite length_packs, length_take, u32_small by lia.
  replace (k `min` length requests)%nat with k by lia.
  destruct (Z.eqb_spec (Z.of_nat k) 0) as [|Hk0]; cbn [orb]; [wp_steps; right; split; [done|by left]|].
  destruct (Z.eqb_spec (rows (take k requests)) 0) as [|Hr0]; [wp_steps; right; split; [done|by left]|].
  assert (0 <= rows (take k requests)) as Hrge.
  { apply sumZ_nonneg, Forall_fmap, Forall_take. eapply Forall_impl; [exact Hpos|]. cbn. lia. }
  wp_step. eapply wp_mono; [apply (scheduler_admit_spec s (decode_request (rows (take k requests))) n Hwf)| |].
  { unfold request_words, decode_request, NO_PROMPT_LIMIT. cbn. split_and!; lia. }
  2:{ intros e s' [-> ->]. done. }
  intros d s1 [Hacc|Href].
  - pose proof (accepted_dispatched _ _ _ _ _ Hacc) as Hd. rewrite (dp_accepted _ _ Hd). cbn [negb]. wp_step.
    apply (mark_spec s); [done|]. intros d' Hd' Hf Hb Hcrit. wp_steps. left. exists k. split; cbn; try done.
    + split; [done|]. lia.
    + exists d, s1. by split_and!.
    + rewrite Hf, !has_flag_lor. split; [apply orb_true_iff; by right|].
      destruct Hacc as (_&?&?&?&?&?&?&Ha). by rewrite (ad_prefill_flag _ _ _ _ _ _ _ _ _ _ _ Ha).
  - pose proof Href as (Hrej&_). rewrite Hrej. cbn [negb]. wp_steps. right. split; [done|]. right. by eexists _, d.
Qed.
