(* ===== verification/SchedulerBatch.v ===== *)
(** * The scheduler: batches

    A decode batch is one packed decode.  A prefill batch plans every lane like a single
    prefill, one after the other, and admits them as one step; when a lane fails, the
    reservations of the lanes before it are given back.  Retiring a batch takes exactly
    its step off every stage. *)

From S2P Require Import Prelude FreeList KvArena StagePlan StagePlanProps PrefixCache PrefixCacheInv PrefixCacheSpecs.
From S2P Require Import PrefixCacheGrow PrefixCacheProps Scheduler SchedulerInv SchedulerOps.

(** ** Retiring a decode batch *)

Lemma decode_batched_wf s n requests b s' k : sched_wf s n -> decode_batched s n requests b s' k -> sched_wf s' (n + 1).
Proof.
  intros Hwf Hb. destruct (db_admitted _ _ _ _ _ _ Hb) as (d&s1&Hacc&Hring&_).
  exact (same_ring_wf s1 s' (n + 1) Hring (accepted_wf _ _ _ _ _ Hwf Hacc)).
Qed.

(** The outstanding decode batch. *)
Definition decode_batch_held (s : Scheduler) (b : BatchDecision) : Prop :=
  dispatched s (bd_stage_decision b) /\ bd_accepted b = true /\ bd_packed_request_count b <> 0 /\
  has_flag (bd_decision_flags b) DECISION_FLAG_ADAPTIVE_DECODE_PACK = true /\
  has_flag (sd_decision_flags (bd_stage_decision b)) DECISION_FLAG_PREFILL_STEP = false.

Lemma decode_batched_held s n requests b s' k : decode_batched s n requests b s' k -> decode_batch_held s b.
Proof.
  intros [[_ Hk] [_ Hc] _ _ Hd [Hf Hp] Ha]. split_and!; try done. lia.
Qed.

Lemma validate_decode_held s b s0 (Q : unit -> Scheduler -> Prop) (R : SchedulerError -> Scheduler -> Prop) :
  decode_batch_held s b -> Q tt s0 -> wp (validate_accepted_decode_batch b) Q R s0.
Proof.
  intros (_&Ha&Hc&Hf&_) HQ. unfold validate_accepted_decode_batch. rewrite Ha, Hf. destruct (Z.eqb_spec (bd_packed_request_count b) 0); [done|].
  by apply wp_ret.
Qed.

(** A decode batch holds no reservation, so retiring it cannot fail. *)
Lemma complete_decode_batch_spec s b n : sched_wf s n -> decode_batch_held s b -> 0 < n ->
  wp (complete_decode_batch b) (fun _ s' => sched_wf s' (n - 1) /\ same_shape s s') (fun _ _ => False) s.
Proof.
  intros Hwf Hb Hn. unfold complete_decode_batch. wp_step. apply (validate_decode_held s b); [done|].
  pose proof Hb as (Hd&_&_&_&Hp). eapply wp_mono; [by apply (complete_decision_spec s _ n)|done|].
  intros e s' (_&_&Hh&_). unfold holds_reservation in Hh. by rewrite Hp in Hh.
Qed.

Lemma cancel_decode_batch_spec s b n : sched_wf s n -> decode_batch_held s b -> 0 < n ->
  wp (cancel_decode_batch b) (fun _ s' => s' = set_carried (n - 1) s) (fun _ _ => False) s.
Proof.
  intros Hwf Hb Hn. unfold cancel_decode_batch. wp_step. apply (validate_decode_held s b); [done|].
  apply release_inflight_spec; [apply Hwf|apply Hwf|apply Hb|done].
Qed.

(** ** Prefill lanes *)

(** No binding of the operation [op] of the sequence is left. *)
Definition unbound_op (c : PrefixCache) (seq op : Z) : Prop :=
  forall k b, bindings c !! k = Some b -> b_valid b = true -> b_sequence_id b <> seq \/ b_acquire_epoch b <> op.

(** The reservation of a lane is gone. *)
Definition lane_dropped (s : Scheduler) (lane : PrefillBatchLane) : Prop :=
  forall c, prefix_cache s = Some c -> bl_prefix_cache_reservation_epoch lane <> 0 ->
    unbound_op c (bl_sequence_id lane) (bl_prefix_cache_reservation_epoch lane).

Lemma cancel_drops s seq op : cache_owned s -> prefix_cache s <> None -> seq <> 0 -> op <> 0 ->
  wp (on_cache (cancel_reservation seq op))
    (fun _ s' => recached s s' /\ (forall c, prefix_cache s' = Some c -> unbound_op c seq op) /\
       forall lane, lane_dropped s lane -> lane_dropped s' lane) (fun _ _ => False) s.
Proof.
  intros Ho Hsome Hseq Hop. apply wp_on_cache. destruct (prefix_cache s) as [c|] eqn:Hc; [|done].
  assert (cache_wf c) as Hwf by (unfold cache_owned in Ho; rewrite Hc in Ho; apply Ho). unfold cancel_reservation.
  destruct (Z.eqb_spec seq 0); [done|]. destruct (Z.eqb_spec op 0); [done|]. cbn [orb].
  eapply wp_mono; [by apply (rollback_epoch_spec c seq op)| |done]. intros [] c' (Hok&Hb&_). split_and!.
  - exists (Some c'). by rewrite Hc.
  - intros c1 [= <-] k b Hk Hv. by apply (Hb k b).
  - intros lane Hl c1 [= <-] He k b Hk Hv. destruct (Hb k b Hk Hv) as [Hk' _]. by apply (Hl c Hc He k b).
Qed.

(** Giving back the lanes. *)
Lemma cancel_lanes_spec s lanes : cache_owned s -> Forall (fun lane => bl_sequence_id lane <> 0) lanes ->
  wp (cancel_accepted_prefill_batch_reservations lanes)
    (fun _ s' => recached s s' /\ (prompt_cache_is_enabled s = true -> Forall (lane_dropped s') lanes)) (fun _ _ => False) s.
Proof.
  intros Ho Hseq. pose proof (recached_refl s Ho) as Hrefl. unfold cancel_accepted_prefill_batch_reservations. wp_steps. unfold id.
  destruct (prompt_cache_is_enabled s) eqn:He; cbn [negb]; [|by wp_steps].
  eapply wp_mono; [apply (wp_for_fold (fun pre _ s' => recached s s' /\ Forall (lane_dropped s') pre) _ _ _ (fun _ _ => False))| |done].
  - by split.
  - intros pre lane post [] s' Hsplit [Hr Hpre].
    assert (bl_sequence_id lane <> 0) as Hl by (eapply (proj1 (Forall_forall _ _) Hseq); rewrite Hsplit; set_solver).
    destruct (Z.eqb_spec (bl_prefix_cache_reservation_epoch lane) 0) as [H0|H0]; wp_steps.
    + split; [done|]. apply Forall_app. split; [done|]. constructor; [by intros ???|done].
    + pose proof (recached_owned _ _ Ho Hr) as Ho'. eapply wp_mono; [apply (cancel_drops s'); try done| |done].
      * destruct Hr as (o&->&Hx). destruct o; [done|]. change (prompt_cache_is_enabled s = false) in Ho'. congruence.
      * intros [] s2 (Hr2&Hd&Hk). split; [exact (recached_trans _ _ _ Hr Hr2)|]. apply Forall_app. split.
        -- eapply Forall_impl; [exact Hpre|exact Hk].
        -- constructor; [|done]. intros c Hc _. by apply Hd.
  - intros [] s' [? ?]. by split.
Qed.

(** The reservation of a lane, whether or not the cache is enabled. *)
Lemma reserve_any s r m : cache_owned s -> 0 <= m <= U32_MAX ->
  wp (reserve_request_prompt r m)
    (fun rs s' => recached s s' /\ rq_sequence_id r <> 0 /\ prefix_cache s <> None /\ rs_reserved_token_count rs = m /\
       exists ids, rq_prompt_token_ids r = Some ids /\ m <= Z.of_nat (length ids))
    (fun _ s' => recached s s') s.
Proof.
  intros Ho Hm. pose proof (recached_refl s Ho) as Hrefl. unfold reserve_request_prompt, some_or.
  destruct (rq_prompt_token_ids r) as [ids|]; wp_steps; [|done]. unfold get_prefix.
  destruct (Z.leb_spec m (Z.of_nat (length ids))) as [Hl|Hl]; wp_steps; [|done]. unfold id.
  set (tokens := take (Z.to_nat m) ids).
  assert (Z.of_nat (length tokens) <= U32_MAX) as Htl by (unfold tokens; rewrite length_take; lia).
  assert (forall allow, wp (on_cache (reserve_prompt_internal (rq_sequence_id r) tokens allow))
    (fun rs s' => recached s s' /\ rq_sequence_id r <> 0 /\ prefix_cache s <> None /\ rs_reserved_token_count rs = m /\
       exists ids0, Some ids = Some ids0 /\ m <= Z.of_nat (length ids0)) (fun _ s' => recached s s') s) as Hmain.
  { intros allow. apply wp_on_cache. destruct (prefix_cache s) as [c|] eqn:Hc; [|done].
    assert (cache_wf c) as Hwf by (unfold cache_owned in Ho; rewrite Hc in Ho; apply Ho).
    assert (forall c', cache_ok c c' -> recached s (s <| prefix_cache := Some c' |>)) as Hrec by (intros c' ?; exists (Some c'); by rewrite Hc).
    destruct (decide (rq_sequence_id r = 0)) as [H0|H0].
    - rewrite H0 in *. unfold reserve_prompt_internal in *. rewrite Z.eqb_refl, orb_true_r in *. wp_steps. by apply Hrec, cache_ok_refl.
    - eapply wp_mono; [by apply (reserve_internal_spec c (rq_sequence_id r) tokens allow)| |].
      + intros rs c' (Hok&k&_&Hres&_). split; [by apply Hrec|]. split; [done|]. split; [done|]. split; [|by exists ids].
        rewrite Hres. unfold tokens. rewrite length_take. lia.
      + intros e c' [(_&->&_)|[Hok _]]; apply Hrec; [by apply cache_ok_refl|exact Hok]. }
  destruct (cross_sequence_prefix_reuse_is_enabled s); apply Hmain.
Qed.

(** A lane planned in the state [s1]. *)
Record lane_planned (s1 : Scheduler) (i : nat) (r : SchedulerRequest) (lane : PrefillBatchLane) : Prop := {
  lp_step : exists st, step_ok s1 r st /\ bl_cached_prefix_token_count lane = st_cached st /\
    bl_computed_prompt_token_count lane = st_computed st /\ bl_scheduled_prompt_token_count lane = st_scheduled st /\
    bl_remaining_prompt_token_count_after_step lane = st_remaining st;
  lp_offset : bl_scheduled_prompt_token_offset lane = bl_computed_prompt_token_count lane /\
    bl_cache_commit_token_count_after_step lane = bl_computed_prompt_token_count lane + bl_scheduled_prompt_token_count lane;
  lp_row : bl_request_index lane = Z.of_nat i /\ bl_active_sequence_offset lane = Z.of_nat i;
  lp_request : bl_prompt_token_count lane = rq_prompt_token_count r /\ bl_sequence_id lane = rq_sequence_id r;
  lp_sequence : bl_sequence_id lane <> 0;
  lp_table : bl_kv_block_table_token_count lane = bl_cache_commit_token_count_after_step lane;
}.

(** The rounds so far: one planned lane per request, the totals of the lanes. *)
Record totals_ok (s : Scheduler) (requests : list SchedulerRequest) (t : PrefillTotals) : Prop := {
  to_length : length (pt_lanes t) = length requests;
  to_lanes : forall i r lane, requests !! i = Some r -> pt_lanes t !! i = Some lane ->
    exists s1, recached s s1 /\ lane_planned s1 i r lane;
  to_cache : requests <> [] -> prefix_cache s <> None;
  to_scheduled : pt_scheduled t = sumZ (bl_scheduled_prompt_token_count <$> pt_lanes t) /\
    pt_scheduled t <= U32_MAX * Z.of_nat (length requests);
  to_maximum : pt_maximum_scheduled t = largest (bl_scheduled_prompt_token_count <$> pt_lanes t);
  to_remaining : pt_any_remaining t = existsb (fun lane => negb (bl_remaining_prompt_token_count_after_step lane =? 0)) (pt_lanes t);
}.

(** A failed round leaves only the cache changed, with nothing of the lanes in it. *)
Definition lanes_dropped (s s' : Scheduler) (lanes : list PrefillBatchLane) : Prop :=
  recached s s' /\ (prompt_cache_is_enabled s = true -> Forall (lane_dropped s') lanes).

Lemma abandon_spec {A} s s1 lanes status (Q : A -> Scheduler -> Prop) : cache_owned s -> recached s s1 ->
  Forall (fun lane => bl_sequence_id lane <> 0) lanes ->
  wp (abandon_batch lanes status) Q (fun _ s' => lanes_dropped s s' lanes) s1.
Proof.
  intros Ho Hr Hl. pose proof (recached_owned _ _ Ho Hr) as Ho1. unfold abandon_batch. wp_step. wp_step.
  eapply wp_mono; [by apply cancel_lanes_spec| |done]. intros [] s2 [Hr2 Hd]. wp_steps. split; [exact (recached_trans _ _ _ Hr Hr2)|].
  intros He. apply Hd. destruct Hr as (o&->&_). exact He.
Qed.

(** A planned lane joins the totals. *)
Lemma totals_snoc s s1 requests t r lane blocks cached pending : totals_ok s requests t -> recached s s1 ->
  (length requests < 1024)%nat -> prefix_cache s <> None ->
  lane_planned s1 (length requests) r lane -> rq_prompt_token_count r <= U32_MAX ->
  totals_ok s (requests ++ [r]) (mkTotals (pt_lanes t ++ [lane])
    (if pt_maximum_scheduled t <? bl_scheduled_prompt_token_count lane then bl_scheduled_prompt_token_count lane else pt_maximum_scheduled t)
    blocks (pt_any_remaining t || negb (bl_remaining_prompt_token_count_after_step lane =? 0)) cached pending
    (pt_scheduled t +u64 bl_scheduled_prompt_token_count lane)).
Proof.
  intros [H1 H2 H3 [H4 H4'] H5 H6] Hr Hlen Hc Hl Hp. pose proof (lp_step _ _ _ _ Hl) as (st&Hst&_&_&Hsch&_).
  destruct (sk_chunk _ _ _ Hst) as (K0&K1&K2&K3). rewrite <- Hsch in K1, K3.
  assert (0 <= pt_scheduled t) as H0.
  { rewrite H4. apply sumZ_nonneg, Forall_fmap, Forall_lookup. intros i lane' Hi. cbn.
    destruct (lookup_lt_is_Some_2 requests i) as [r' Hr']; [rewrite <- H1; by eapply lookup_lt_Some|].
    destruct (H2 i r' lane' Hr' Hi) as (s2&_&Hl'). destruct (lp_step _ _ _ _ Hl') as (st'&Hst'&_&_&->&_). pose proof (sk_chunk _ _ _ Hst'). lia. }
  split; cbn [pt_lanes pt_scheduled pt_maximum_scheduled pt_any_remaining]; rewrite ?length_app; cbn [length].
  - by rewrite H1.
  - intros i r' lane' Hi Hj. destruct (decide (i < length requests)%nat) as [Hlt|Hge].
    + rewrite lookup_app_l in Hi by lia. rewrite lookup_app_l in Hj by lia. by apply (H2 i).
    + assert (i = length requests) as -> by (apply lookup_lt_Some in Hi; rewrite length_app in Hi; cbn in Hi; lia).
      rewrite list_lookup_middle in Hi by done. rewrite list_lookup_middle in Hj by (by rewrite H1). injection Hi as <-. injection Hj as <-. by exists s1.
  - done.
  - rewrite u64_small by lia. split; [|lia]. rewrite fmap_app, sumZ_app, <- H4. cbn [fmap list_fmap]. rewrite sumZ_cons. change (sumZ []) with 0. lia.
  - rewrite fmap_app. cbn [fmap list_fmap]. rewrite largest_snoc, <- H5 by lia.
    destruct (Z.ltb_spec (pt_maximum_scheduled t) (bl_scheduled_prompt_token_count lane)); lia.
  - rewrite existsb_app, <- H6. cbn [existsb]. by rewrite orb_false_r.
Qed.

Lemma request_ok_eq s s' r : settings s' = settings s -> request_ok s r -> request_ok s' r.
Proof.
  intros He [H1 H2 H3 H4 H5]. destruct (settings_fields s s' He) as (_&_&_&_&_&_&_&_&_&_&E).
  split; try done; unfold prompt_cache_is_enabled, cross_sequence_prefix_reuse_is_enabled; by rewrite E.
Qed.

(** The lane made from a planned step. *)
Lemma make_lane_planned s1 s2 i r cached h rs : settings_ok s1 -> request_words r -> request_ok s1 r -> is_prefill r = true ->
  0 <= cached < rq_prompt_token_count r -> supplied s1 r cached -> rq_sequence_id r <> 0 -> Z.of_nat i <= U32_MAX ->
  let computed := effective_computed_prompt_token_count r cached in
  let scheduled := scheduled_prefill_token_count s1 r computed in
  rs_reserved_token_count rs = computed + scheduled ->
  lane_planned s1 i r (make_lane s2 (Z.of_nat i) r cached computed scheduled rs h) /\
  0 < scheduled /\ 0 <= computed /\ computed + scheduled <= rq_prompt_token_count r.
Proof.
  intros Hs Hw Hr Hp Hc Hsup Hseq Hi computed scheduled Hrs. pose proof Hw as (_&Hpw&_).
  destruct (chunk_step s1 r Hs Hw Hr Hp cached Hc Hsup None) as (Hok&Hsum&Hn0). fold computed in Hok, Hsum, Hn0. fold scheduled in Hok, Hsum, Hn0.
  destruct (sk_chunk _ _ _ Hok) as (K0&K1&K2&K3). cbn [st_computed st_scheduled st_remaining] in *. split; [|lia].
  split; cbn [make_lane bl_cached_prefix_token_count bl_computed_prompt_token_count bl_scheduled_prompt_token_count
    bl_remaining_prompt_token_count_after_step bl_scheduled_prompt_token_offset bl_cache_commit_token_count_after_step
    bl_request_index bl_active_sequence_offset bl_prompt_token_count bl_sequence_id bl_kv_block_table_token_count].
  - eexists. split; [exact Hok|done].
  - split; [done|]. by rewrite u32_small by lia.
  - by rewrite u32_small by lia.
  - done.
  - done.
  - by rewrite u32_small by lia.
Qed.

Lemma lanes_sequence s requests t : totals_ok s requests t -> Forall (fun lane => bl_sequence_id lane <> 0) (pt_lanes t).
Proof.
  intros Ht. apply Forall_lookup. intros i lane Hi. destruct (lookup_lt_is_Some_2 requests i) as [r Hr].
  { rewrite <- (to_length _ _ _ Ht). by eapply lookup_lt_Some. }
  destruct (to_lanes _ _ _ Ht i r lane Hr Hi) as (s1&_&Hl). exact (lp_sequence _ _ _ _ Hl).
Qed.

(** One round. *)
Lemma lane_round_spec s s1 requests t r : settings_ok s -> cache_owned s -> recached s s1 -> (length requests < 1024)%nat ->
  request_words r -> request_ok s r -> is_prefill r = true -> totals_ok s requests t ->
  wp (lane_round (Z.of_nat (length requests), r) t) (fun t' s' => recached s s' /\ totals_ok s (requests ++ [r]) t')
    (fun _ s' => lanes_dropped s s' (pt_lanes t)) s1.
Proof.
  intros Hs Ho Hr1 Hlen Hw Hr Hp Ht. pose proof (lanes_sequence s requests t Ht) as Hseqs.
  pose proof (recached_settings _ _ Hr1) as He1. pose proof (settings_ok_eq _ _ He1 Hs) as Hs1. pose proof (recached_owned _ _ Ho Hr1) as Ho1.
  pose proof (request_ok_eq _ _ r He1 Hr) as Hrq1. unfold lane_round. wp_steps.
  eapply wp_mono; [by apply (lookup_spec s1 r)| |done]. intros cached s2 (Hpr&Hc&Hsup). wp_steps. unfold id.
  pose proof (probed_recached s1 Ho1 s2 Hpr) as Hr2. pose proof (recached_trans _ _ _ Hr1 Hr2) as Hr12.
  replace (scheduled_prefill_token_count s2) with (scheduled_prefill_token_count s1) by (destruct Hr2 as (?&->&_); done).
  set (computed := effective_computed_prompt_token_count r cached). set (scheduled := scheduled_prefill_token_count s1 r computed).
  destruct (chunk_step s1 r Hs1 Hw Hrq1 Hp cached Hc Hsup None) as (Hok&Hsum&Hn0). fold computed in Hok, Hsum, Hn0. fold scheduled in Hok, Hsum, Hn0.
  destruct (sk_chunk _ _ _ Hok) as (K0&K1&K2&K3). cbn [st_computed st_scheduled st_remaining] in *. pose proof Hw as (_&Hpw&_).
  destruct (Z.eqb_spec scheduled 0); [done|]. wp_steps. rewrite u32_small by lia.
  pose proof (recached_owned _ _ Ho Hr12) as Ho2. pose proof (recached_settings _ _ Hr12) as He2.
  eapply wp_mono; [apply (reserve_any s2 r (computed + scheduled) Ho2 ltac:(lia))| |].
  2:{ intros e s3 Hr3. pose proof (recached_trans _ _ _ Hr12 Hr3) as Hr13. by apply abandon_spec. }
  intros rs s3 (Hr3&Hseq&Hsome&Hrs&ids&Hids&Hil). pose proof (recached_trans _ _ _ Hr12 Hr3) as Hr13. wp_steps.
  pose proof (recached_owned _ _ Ho Hr13) as Ho3. pose proof (settings_ok_eq _ _ (recached_settings _ _ Hr13) Hs) as Hs3.
  eapply wp_mono; [apply (hash_parent_spec s3 r computed (rs_reservation_epoch rs) Hs3 Ho3 ltac:(lia))| |].
  2:{ intros e s' (_&_&Hbad). specialize (Hbad ids Hids). lia. }
  intros [status|h] s4 H4.
  { destruct H4 as [Hr4 _]. pose proof (recached_trans _ _ _ Hr13 Hr4) as Hr14. by apply abandon_spec. }
  destruct H4 as [-> _]. destruct (settings_fields _ _ He2) as (_&_&_&_&_&_&_&_&_&Hblk&_). pose proof (so_block s Hs) as Hb.
  unfold prefill_block_count. rewrite Hblk.
  destruct (Z.eqb_spec (prefix_cache_block_tokens s) 0); [lia|]. destruct (Z.eqb_spec scheduled 0); [done|].
  destruct (make_lane_planned s1 s2 (length requests) r cached h rs Hs1 Hw Hrq1 Hp Hc Hsup Hseq ltac:(lia) Hrs) as [Hl _].
  fold computed in Hl. fold scheduled in Hl. wp_steps. split; [done|].
  eapply (totals_snoc s s1 requests t r (make_lane s2 (Z.of_nat (length requests)) r cached computed scheduled rs h)); [done..| |done|lia].
  destruct Hr12 as (o&->&Hx). cbn in Hsome. by destruct (prefix_cache s), o.
Qed.

(** ** Admitting a prefill batch *)

Lemma pack_prefill_spec limit requests : forall k, 0 <= limit <= 1024 -> 0 <= k <= limit ->
  Forall (fun r => rq_active_sequence_count r = 1) requests ->
  pack_prefill limit requests k k = (Z.min (k + Z.of_nat (length requests)) limit, Z.min (k + Z.of_nat (length requests)) limit).
Proof.
  induction requests as [|r rest IH]; intros k Hl Hk Hall; cbn [pack_prefill length].
  - rewrite Z.add_0_r, Z.min_l by lia. done.
  - inversion_clear Hall as [|? ? H1 Hrest]. rewrite H1, u32_small by lia.
    destruct (Z.leb_spec limit k), (Z.ltb_spec limit (k + 1)); cbn [orb]; try lia; [f_equal; lia|].
    rewrite IH by (done || lia). f_equal; f_equal; lia.
Qed.

Definition prefill_lane_ok (s : Scheduler) (r : SchedulerRequest) : Prop :=
  request_ok s r /\ is_prefill r = true /\ rq_active_sequence_count r = 1.

Lemma validate_prefill_batch_spec s requests (Q : unit -> Scheduler -> Prop) (R : SchedulerError -> Scheduler -> Prop) :
  Forall request_words requests -> (requests <> [] -> Forall (prefill_lane_ok s) requests -> Q tt s) -> R InvalidArgument s ->
  wp (validate_prefill_batch_request requests) Q R s.
Proof.
  intros Hw HQ HR. unfold validate_prefill_batch_request. wp_steps. unfold id. destruct (_ || _) eqn:Hg; wp_steps; [done|].
  apply orb_false_iff in Hg as [Hg _].
  apply (validate_each_spec s (prefill_lane_ok s) (fun r => negb (is_prefill r) || negb (rq_active_sequence_count r =? 1)));
    [done| |intros H; apply HQ; [by intros ->|done]|done].
  intros r Hr Ht. apply orb_false_iff in Ht as [Ht1 Ht2]. apply negb_false_iff in Ht1, Ht2. split_and!; [done..|lia].
Qed.

(** The batch's bucket is the smallest that holds it, its plan the best cut. *)
Definition batch_planned (s : Scheduler) (active : Z) (x : Z * StagePlan * CostProfile) : Prop :=
  let '(b, plan, p) := x in
  (batch_bucket_is_supported b = true /\ 0 < active <= b /\ forall b', batch_bucket_is_supported b' = true -> active <= b' -> b <= b') /\
  priced s (plan, layer_cost_ns p, final_stage_extra_cost_ns p).

Lemma plan_prefill_batch_spec s active : settings_ok s -> 0 <= active ->
  wp (plan_prefill_batch active) (fun x s' => s' = s /\ batch_planned s active x) (fun e s' => s' = s /\ e <> Busy) s.
Proof.
  intros Hs Ha. pose proof plan_not_busy as Hnb. unfold plan_prefill_batch. wp_steps. unfold id. apply wp_on_plan.
  eapply wp_mono; [by apply batch_bucket_spec| |by intros; split]. intros b _ (H1&H2&H3&H4). wp_steps. apply wp_on_plan.
  eapply wp_mono; [by apply measured_plan_spec| |by intros; split]. intros plan _ (p&Hp&Hpr). wp_steps. apply wp_on_plan.
  unfold wp at 1. rewrite Hp. wp_steps. split; [done|]. split; [by split_and!|done].
Qed.

Lemma account_batch_ring t df count padding s : same_ring s (account_prefill_batch t df count padding s).
Proof.
  unfold account_prefill_batch. cbv zeta. destruct (has_flag _ DECISION_FLAG_PREFILL_CHUNK), (has_flag _ DECISION_FLAG_PREFILL_RESERVED_DECODE_SLOT); done.
Qed.

Record prefill_batched (s : Scheduler) (n : Z) (requests : list SchedulerRequest) (b : PrefillBatchDecision) (s' : Scheduler)
    (t : PrefillTotals) (k : nat) : Prop := {
  pb_count : Z.of_nat k = Z.min (Z.of_nat (length requests)) MAX_BATCH_BUCKET /\ (0 < k)%nat;
  pb_rows : fb_packed_request_count b = Z.of_nat k /\ fb_active_sequence_count b = Z.of_nat k;
  pb_room : room s true n = true;
  pb_totals : totals_ok s (take k requests) t;
  pb_lanes : fb_lanes b = pt_lanes t /\ fb_total_scheduled_token_count b = pt_scheduled t /\
    fb_maximum_scheduled_prompt_token_count b = pt_maximum_scheduled t;
  pb_bucket : batch_bucket_is_supported (fb_batch_bucket b) = true /\ Z.of_nat k <= fb_batch_bucket b /\
    forall b', batch_bucket_is_supported b' = true -> Z.of_nat k <= b' -> fb_batch_bucket b <= b';
  pb_cut : exists costs extra ks, costs_ok s costs extra /\ best_cut s costs extra ks /\
    sd_stage_plan (fb_stage_decision b) = plan_of (stage_geometry s) ks;
  pb_dispatched : dispatched s (fb_stage_decision b);
  pb_accepted : fb_accepted b = true /\ has_flag (fb_decision_flags b) DECISION_FLAG_ADAPTIVE_PREFILL_PACK = true;
  pb_after : settings s' = settings s /\ spark_inflight_counts s' = replicate (Z.to_nat (spark_count s)) (n + 1) /\
    exists s1, recached s s1 /\ prefix_cache s' = prefix_cache s1;
}.

Lemma prefill_pack_flag s t padding : has_flag (prefill_batch_flags s t padding) DECISION_FLAG_ADAPTIVE_PREFILL_PACK = true.
Proof.
  unfold prefill_batch_flags, flag_when. repeat match goal with |- context [if ?b then _ else _] => destruct b end; vm_compute; reflexivity.
Qed.

Lemma dispatch_prefill_batch_spec s s1 n requests k t source b plan p : sched_wf s n -> recached s s1 -> room s true n = true ->
  Z.of_nat k = Z.min (Z.of_nat (length requests)) MAX_BATCH_BUCKET -> (0 < k)%nat -> totals_ok s (take k requests) t ->
  batch_planned s (Z.of_nat k) (b, plan, p) ->
  wp (dispatch_prefill_batch source (Z.of_nat k) (Z.of_nat k) b plan p t)
    (fun d s' => prefill_batched s n requests d s' t k) (fun _ _ => False) s1.
Proof.
  intros Hwf Hr Hroom Hk Hk0 Ht ((B1&B2&B3)&ks&->&Hcut&Hc&Hn). pose proof (recached_wf s s1 n Hr Hwf) as Hwf1. pose proof Hr as (o&Hs1&_).
  pose proof Hroom as Hlt. unfold room in Hlt. apply Z.ltb_lt in Hlt. pose proof (kept_slots_bounds s (wf_settings s n Hwf) true) as Hkept.
  assert (stage_geometry s1 = stage_geometry s) as Hg by (by rewrite Hs1).
  unfold dispatch_prefill_batch. wp_steps. unfold id. set (template := mkDispatchStage _ _ _ _ _ _ _ _ _ _ _ _ _).
  assert (costs_ok s1 (layer_cost_ns p) (final_stage_extra_cost_ns p)) as Hc1 by (by rewrite Hs1).
  assert (best_cut s1 (layer_cost_ns p) (final_stage_extra_cost_ns p) ks) as Hcut1 by (rewrite Hs1; by destruct Hcut).
  pose proof (dispatch_spec s1 (wf_settings s1 n Hwf1) _ _ ks Hc1 Hcut1 template (pt_maximum_blocks t) n (fun _ _ => False) (wf_carries s1 n Hwf1)
    ltac:(rewrite Hs1; cbn; lia)) as Hd. rewrite Hg in Hd.
  eapply wp_mono; [exact Hd| |done]. intros x s' [-> ->]. wp_steps. cbn [fst snd].
  set (df := prefill_batch_flags _ _ _). destruct (account_batch_ring t df (Z.of_nat k) (b -u32 Z.of_nat k) (set_carried (n + 1) s1)) as (R1&R2&R3&R4).
  split; cbn [fb_packed_request_count fb_active_sequence_count fb_lanes fb_total_scheduled_token_count fb_maximum_scheduled_prompt_token_count
    fb_batch_bucket fb_stage_decision fb_accepted fb_decision_flags]; try done.
  - split_and!; [done|lia|done].
  - by exists (layer_cost_ns p), (final_stage_extra_cost_ns p), ks.
  - split; [done|split; [lia|exact (bc_length _ _ _ _ Hcut)]|..]; cbn [sd_dispatch_stages].
    + change (Z.of_nat (length (dispatch_table (stage_geometry s) template (layer_cost_ns p) (final_stage_extra_cost_ns p) (pt_maximum_blocks t) ks)) = spark_count s).
      rewrite length_dispatch_table. apply Hcut.
    + intros i st Hi. exact (dispatch_table_index (stage_geometry s) template _ _ _ ks i st Hi).
  - split; [done|apply prefill_pack_flag].
  - rewrite R1, R2, R3, Hs1. split; [done|]. split; [done|]. exists s1. rewrite Hs1. split; [by rewrite <- Hs1|done].
Qed.

Lemma zip_range_split {A} m (l pre' : list A) pre i r post : Z.of_nat (length l) = m ->
  zip (range 0 m) l = pre ++ (i, r) :: post -> pre' = pre.*2 -> i = Z.of_nat (length pre') /\ l !! length pre' = Some r /\ pre' = take (length pre') l.
Proof.
  intros Hl Hz ->. rewrite length_fmap. assert (zip (range 0 m) l !! length pre = Some (i, r)) as Hi by (by rewrite Hz, list_lookup_middle).
  apply (lookup_zip_with_Some pair) in Hi as (j&r'&[= <- <-]&Hj&Hr). split_and!; [|done|].
  - apply lookup_range in Hj as [-> _]. lia.
  - rewrite <- (snd_zip (range 0 m) l) by (rewrite length_range; lia). rewrite <- fmap_take, Hz, take_app_length. done.
Qed.

Lemma for_fold_snoc {S E X B} (xs : list X) x (body : X -> B -> M S E B) : forall b s b1 s1, for_fold xs body b s = Ret b1 s1 ->
  for_fold (xs ++ [x]) body b s = body x b1 s1.
Proof.
  induction xs as [|y xs IH]; intros b s b1 s1; cbn [app for_fold]; unfold bind.
  - intros [= <- <-]. destruct (body x b s); done.
  - destruct (body y b s) as [b' s'|e s'| |]; try done. apply IH.
Qed.

Lemma wp_track_fail {A} (m : SM A) (Q : A -> Scheduler -> Prop) R s : wp m Q R s -> wp m Q (fun e s' => R e s' /\ m s = Fails e s') s.
Proof. unfold wp. by destruct (m s). Qed.

Definition no_totals : PrefillTotals := mkTotals [] 0 1 false 0 0 0.

(** The batch failed in the lane of request [k]: the lanes before it were planned, leaving
    [t] in [sk], and that lane's round failed. *)
Definition failed_lane (s : Scheduler) (requests : list SchedulerRequest) (k : nat) (t : PrefillTotals) (e : SchedulerError) (s' : Scheduler) : Prop :=
  exists sk r, requests !! k = Some r /\
    for_fold (zip (range 0 (Z.of_nat k)) (take k requests)) lane_round no_totals s = Ret t sk /\
    lane_round (Z.of_nat k, r) t sk = Fails e s'.

Lemma zip_range_prefix {A} m (l : list A) pre x post : Z.of_nat (length l) = m -> zip (range 0 m) l = pre ++ x :: post ->
  pre = zip (range 0 (Z.of_nat (length pre))) (take (length pre) l).
Proof.
  intros Hl Hz. assert (length (zip (range 0 m) l) = length l) as Hzl by (rewrite length_zip_with, length_range; lia).
  rewrite Hz, length_app in Hzl. cbn in Hzl.
  apply list_eq. intros i. destruct (decide (i < length pre)%nat) as [Hi|Hi].
  - assert (pre !! i = zip (range 0 m) l !! i) as -> by (by rewrite Hz, lookup_app_l).
    rewrite !(lookup_zip_with pair). rewrite lookup_take_lt by lia.
    assert (range 0 m !! i = Some (Z.of_nat i)) as -> by (apply lookup_range; lia).
    assert (range 0 (Z.of_nat (length pre)) !! i = Some (Z.of_nat i)) as -> by (apply lookup_range; lia). done.
  - rewrite !lookup_ge_None_2; [done|rewrite length_zip_with, length_range, length_take; lia|lia].
Qed.

(** An error leaves the ring as it was, and nothing of the lanes reserved so far. *)
Lemma admit_prefill_batch_spec s n requests : sched_wf s n -> Forall request_words requests ->
  wp (admit_prefill_batch requests)
    (fun b s' => (exists t k, prefill_batched s n requests b s' t k) \/
       (s' = s /\ fb_accepted b = false /\ exists status, fb_rejected_status b = Some status /\ (status = Busy -> room s true n = false)))
    (fun e s' => (s' = s /\ e = InvalidArgument) \/ exists t k, failed_lane s requests k t e s' /\ lanes_dropped s s' (pt_lanes t)) s.
Proof.
  intros Hwf Hw. pose proof (wf_settings s n Hwf) as Hs. pose proof (wf_cache s n Hwf) as Ho. pose proof (recached_refl s Ho) as Hrefl.
  assert (totals_ok s [] no_totals) as Ht0 by (split; done).
  unfold admit_prefill_batch. wp_steps. apply validate_prefill_batch_spec; [done| |by left].
  intros Hne Hall. wp_steps. unfold id, max_packed_request_count. rewrite (so_bucket s Hs). change MAX_BATCH_BUCKET with 1024.
  assert (Forall (fun r => rq_active_sequence_count r = 1) requests) as Hones by (eapply Forall_impl; [exact Hall|by intros ? (_&_&?)]).
  rewrite (pack_prefill_spec 1024 requests 0 ltac:(lia) ltac:(lia) Hones), Z.add_0_l.
  assert (0 < length requests)%nat as Hpos by (destruct requests; [done|cbn; lia]).
  set (count := Z.min (Z.of_nat (length requests)) 1024). destruct (Z.eqb_spec count 0); [lia|]. cbn [orb]. wp_steps. apply wp_attempt.
  eapply wp_mono; [apply (plan_prefill_batch_spec s count Hs); lia| |].
  2:{ intros e s' [-> Hnb]. wp_steps. right. split; [done|]. split; [done|]. by exists e. }
  intros [[b plan] p] s' [-> Hpl]. pose proof Hpl as (_&ks&Hplan&Hcut&Hc&Hn). wp_steps.
  replace (stage_count plan) with (spark_count s) by (rewrite Hplan; symmetry; apply Hcut).
  eapply wp_mono; [apply (first_full_spec s Hs true n (fun _ _ => False)); [apply Hwf|lia]| |done].
  intros [j|] s' [-> Hroom]; wp_steps.
  { right. split; [done|]. split; [done|]. by exists Busy. }
  apply wp_slice; [lia|lia|]. rewrite Z.sub_0_r, drop_0. set (k := Z.to_nat count).
  assert (Z.of_nat (length (take k requests)) = count) as Hlk by (rewrite length_take; lia). fold no_totals.
  wp_step. eapply wp_mono; [apply (wp_for_fold (fun pre t s' => (recached s s' /\ totals_ok s (pre.*2) t) /\ for_fold pre lane_round no_totals s = Ret t s') _ _ _
     (fun e s' => exists t k, failed_lane s requests k t e s' /\ lanes_dropped s s' (pt_lanes t)))| |by right].
  - done.
  - intros pre [i r] post t s' Hsplit [[Hr Ht] Hfold].
    destruct (zip_range_split count (take k requests) (pre.*2) pre i r post Hlk Hsplit eq_refl) as (->&Hri&Hpre).
    pose proof (zip_range_prefix count (take k requests) pre _ post Hlk Hsplit) as Hzip.
    rewrite length_fmap in Hri. apply lookup_take_Some in Hri as [Hri Hdk].
    assert (r ∈ requests) as Hin by (by eapply list_elem_of_lookup_2).
    destruct (proj1 (Forall_forall _ _) Hall r Hin) as (Hok&Hp&_). pose proof (proj1 (Forall_forall _ _) Hw r Hin) as Hwr.
    eapply wp_mono; [apply wp_track, wp_track_fail, (lane_round_spec s s' (pre.*2) t r Hs Ho Hr); [rewrite length_fmap; lia|done..]| |].
    + intros t' s2 [[Hr2 Ht2] Hrun]. split; [split; [exact Hr2|by rewrite fmap_app]|]. by rewrite (for_fold_snoc pre _ lane_round _ _ _ _ Hfold).
    + intros e s2 [Hd Hrun]. rewrite length_fmap in Hrun. exists t, (length pre). split; [|exact Hd]. exists s', r. split; [done|]. split; [|done].
      rewrite take_take, Nat.min_l in Hzip by lia. by rewrite <- Hzip.
  - intros t s' [[Hr Ht] _]. rewrite snd_zip in Ht by (rewrite length_range; lia). replace count with (Z.of_nat k) by lia.
    assert (Z.of_nat k = count) as Hkc by lia.
    eapply wp_mono; [apply (dispatch_prefill_batch_spec s s' n requests k t); [done|done|done|exact Hkc|lia|done|by rewrite Hkc]| |done].
    intros d s2 Hd. left. by exists t, k.
Qed.

Lemma prefill_batched_wf s n requests b s' t k : sched_wf s n -> prefill_batched s n requests b s' t k -> sched_wf s' (n + 1).
Proof.
  intros Hwf Hb. destruct (pb_after _ _ _ _ _ _ _ Hb) as (He&Hi&s1&Hr&Hc). pose proof (pb_room _ _ _ _ _ _ _ Hb) as Hroom. unfold room in Hroom.
  apply Z.ltb_lt in Hroom. pose proof (kept_slots_bounds s (wf_settings s n Hwf) true). destruct (settings_fields s s' He) as (_&_&_&E4&E5&_).
  destruct Hwf as [Hs Ho [Hcar Hn]]. split; [by eapply settings_ok_eq| |].
  - eapply (cache_owned_eq s1); [by rewrite He, (recached_settings _ _ Hr)|done|by eapply recached_owned].
  - split; [by rewrite E4, Hi|rewrite E5; lia].
Qed.

(** ** Retiring a prefill batch *)

Definition prefill_batch_held (s : Scheduler) (b : PrefillBatchDecision) : Prop :=
  dispatched s (fb_stage_decision b) /\ fb_accepted b = true /\ has_flag (fb_decision_flags b) DECISION_FLAG_ADAPTIVE_PREFILL_PACK = true /\
  (fb_packed_request_count b = Z.of_nat (length (fb_lanes b)) /\ 0 < fb_packed_request_count b <= MAX_BATCH_BUCKET) /\
  Forall (fun lane => bl_sequence_id lane <> 0 /\ 0 < bl_kv_block_table_token_count lane <= U32_MAX) (fb_lanes b) /\ prefix_cache s <> None.

Lemma lanes_readable s requests t : totals_ok s requests t -> Forall request_words requests ->
  Forall (fun lane => bl_sequence_id lane <> 0 /\ 0 < bl_kv_block_table_token_count lane <= U32_MAX) (pt_lanes t).
Proof.
  intros Ht Hw. apply Forall_lookup. intros i lane Hi. destruct (lookup_lt_is_Some_2 requests i) as [r Hr].
  { rewrite <- (to_length _ _ _ Ht). by eapply lookup_lt_Some. }
  destruct (to_lanes _ _ _ Ht i r lane Hr Hi) as (s1&_&Hl). destruct (lp_step _ _ _ _ Hl) as (st&Hst&_&Hcomp&Hsched&_).
  destruct (sk_chunk _ _ _ Hst) as (K0&K1&K2&K3). destruct (lp_offset _ _ _ _ Hl) as [_ Hcommit].
  pose proof (proj1 (Forall_lookup _ _) Hw i r Hr) as (_&Hpw&_). rewrite (lp_table _ _ _ _ Hl), Hcommit, Hcomp, Hsched.
  split; [exact (lp_sequence _ _ _ _ Hl)|lia].
Qed.

Lemma prefill_batched_held s n requests b s' t k : Forall request_words requests -> prefill_batched s n requests b s' t k -> prefill_batch_held s b.
Proof.
  intros Hw Hb. destruct (pb_count _ _ _ _ _ _ _ Hb) as [Hk Hk0]. destruct (pb_rows _ _ _ _ _ _ _ Hb) as [Hr _].
  destruct (pb_lanes _ _ _ _ _ _ _ Hb) as [Hl _]. pose proof (pb_totals _ _ _ _ _ _ _ Hb) as Ht. change MAX_BATCH_BUCKET with 1024 in *.
  assert (length (take k requests) = k) as Hlen by (rewrite length_take; lia).
  split; [apply Hb|]. split; [apply Hb|]. split; [apply Hb|]. rewrite Hl, Hr, (to_length _ _ _ Ht), Hlen.
  change MAX_BATCH_BUCKET with 1024. split; [lia|].
  split; [by eapply lanes_readable; [|apply Forall_take]|]. apply (to_cache _ _ _ Ht). intros Hnil. rewrite Hnil in Hlen. cbn in Hlen. lia.
Qed.

Lemma settle_lane_spec s n how lane : sched_wf s n -> prefix_cache s <> None -> bl_sequence_id lane <> 0 ->
  wp (settle_lane how lane) (fun _ s' => sched_wf s' n /\ recached s s') (fun _ _ => False) s.
Proof.
  intros Hwf Hsome Hseq. pose proof (wf_cache s n Hwf) as Ho. unfold settle_lane.
  destruct (Z.eqb_spec (bl_prefix_cache_reservation_epoch lane) 0) as [|H0]; [wp_steps; split; [done|by apply recached_refl]|].
  assert (forall c c', prefix_cache s = Some c -> cache_ok c c' -> sched_wf (s <| prefix_cache := Some c' |>) n /\ recached s (s <| prefix_cache := Some c' |>)) as Hset.
  { intros c c' Hc Hok. assert (recached s (s <| prefix_cache := Some c' |>)) as Hr by (exists (Some c'); by rewrite Hc).
    split; [exact (recached_wf _ _ n Hr Hwf)|exact Hr]. }
  destruct how; apply wp_on_cache; destruct (prefix_cache s) as [c|] eqn:Hc; try done;
    (assert (cache_wf c) as Hcw by (unfold cache_owned in Ho; rewrite Hc in Ho; apply Ho)).
  - eapply wp_mono; [by apply (commit_spec c)| |done]. intros [] c' [Hok _]. by apply (Hset c).
  - unfold cancel_reservation. destruct (Z.eqb_spec (bl_sequence_id lane) 0); [done|].
    destruct (Z.eqb_spec (bl_prefix_cache_reservation_epoch lane) 0); [done|]. cbn [orb].
    eapply wp_mono; [by apply rollback_epoch_spec| |done]. intros [] c' [Hok _]. by apply (Hset c).
Qed.

(** Retiring an outstanding prefill batch cannot fail. *)
Lemma retire_prefill_batch_spec s b n how : sched_wf s n -> prefill_batch_held s b -> 0 < n ->
  wp (retire_prefill_batch b how) (fun _ s' => sched_wf s' (n - 1) /\ same_shape s s') (fun _ _ => False) s.
Proof.
  intros Hwf (Hd&Ha&Hf&[Hlen Hcount]&Hseq&Hsome) Hn. unfold retire_prefill_batch. wp_steps. unfold id, validate_accepted_prefill_batch_decision.
  rewrite Ha, Hf, (dp_accepted _ _ Hd). unfold max_packed_request_count. rewrite (so_bucket s (wf_settings s n Hwf)). cbn [negb orb].
  change MAX_BATCH_BUCKET with 1024 in *. destruct (Z.eqb_spec (fb_packed_request_count b) 0); [lia|].
  destruct (Z.ltb_spec 1024 (fb_packed_request_count b)); [lia|]. rewrite <- Hlen, Z.ltb_irrefl. cbn [orb]. wp_steps.
  eapply wp_mono; [apply (release_inflight_spec s _ n (fun _ _ => False)); [apply Hwf|apply Hwf|done|done]| |done].
  intros [] s1 ->. pose proof (wf_carries s n Hwf) as [_ Hb]. assert (sched_wf (set_carried (n - 1) s) (n - 1)) as Hwf1 by (apply (set_carried_wf s n); [done|lia]).
  wp_steps. apply wp_slice; [lia|lia|]. rewrite Z.sub_0_r, drop_0, take_ge by lia. wp_step.
  eapply wp_mono; [apply (wp_for_fold (fun _ _ s' => sched_wf s' (n - 1) /\ recached (set_carried (n - 1) s) s') _ _ _ (fun _ _ => False))| |done].
  - split; [done|]. apply recached_refl, Hwf1.
  - intros pre lane post [] s' Hsplit [Hw' Hr']. eapply wp_mono; [apply (settle_lane_spec s' (n - 1)); [done|by eapply recached_some|]| |done].
    + apply (proj1 (Forall_forall _ _) Hseq lane). rewrite Hsplit. set_solver.
    + intros [] s2 [Hw2 Hr2]. split; [exact Hw2|exact (recached_trans _ _ _ Hr' Hr2)].
  - intros [] s' [Hw' Hr']. pose proof (recached_shape _ _ Hr') as He. destruct how; wp_steps; (split; [by apply (same_ring_wf s')|exact He]).
Qed.
