(* ===== verification/SchedulerProps.v ===== *)
(** * The scheduler: theorems

    A run of the scheduler is a sequence of calls on it and on the cache it owns; the
    caller holds a ticket for every accepted decision until it completes or cancels it.
    Every stage of the ring carries exactly the outstanding tickets, and no call panics.
    The other theorems say what single calls do: a prefill covers the next chunk of its
    prompt and its block table is readable, an admitted prefill leaves decodes a slot,
    a decode runs in the cheapest bucket, batches pack greedily, and a failed prefill
    batch gives everything back. *)

From S2P Require Import Prelude FreeList KvArena StagePlan StagePlanProps PrefixCache PrefixCacheInv PrefixCacheSpecs.
From S2P Require Import PrefixCacheGrow PrefixCacheProps Scheduler SchedulerInv SchedulerOps SchedulerBatch.

(** ** Runs *)

(** What the caller holds for an accepted decision. *)
Inductive ticket :=
| Single (d : SchedulerDecision)
| DecodeBatch (b : BatchDecision)
| PrefillBatch (b : PrefillBatchDecision).

Inductive sched_call :=
| CallAdmit (r : SchedulerRequest)
| CallAdmitDecodes (requests : list SchedulerRequest)
| CallAdmitPrefills (requests : list SchedulerRequest)
| CallRetire (i : nat) (how : ReservationSettlement)
| CallOnCache (call : cache_call)
| CallSetDemand (demand : Z)
| CallReleaseSequence (seq : Z)
| CallBlockTable (i : nat)
| CallBlockTables (i : nat) (lane_capacity : Z).

(** Completing and cancelling a ticket. *)
Definition retire_ticket (t : ticket) (how : ReservationSettlement) : SM unit :=
  match t, how with
  | Single d, Commit => complete d
  | Single d, Cancel => cancel d
  | DecodeBatch b, Commit => complete_decode_batch b
  | DecodeBatch b, Cancel => cancel_decode_batch b
  | PrefillBatch b, Commit => complete_prefill_batch b
  | PrefillBatch b, Cancel => cancel_prefill_batch b
  end.

(** A call of a client that keeps the tickets it was given and retires each at most once: a
    ticket leaves the list when it is retired.  The code itself accepts a retired decision
    again, see [completed_twice_takes_another]. *)
Definition sched_run (call : sched_call) (ts : list ticket) : SM (list ticket) :=
  match call with
  | CallAdmit r => let! d := scheduler_admit r in ret (if sd_accepted d then ts ++ [Single d] else ts)
  | CallAdmitDecodes rs => let! b := admit_decode_batch rs in ret (if bd_accepted b then ts ++ [DecodeBatch b] else ts)
  | CallAdmitPrefills rs => let! b := admit_prefill_batch rs in ret (if fb_accepted b then ts ++ [PrefillBatch b] else ts)
  | CallRetire i how => match ts !! i with Some t => do! retire_ticket t how in ret (delete i ts) | None => ret ts end
  | CallOnCache call => do! on_cache (cache_run call) in ret ts
  | CallSetDemand demand => do! set_prefill_demand demand in ret ts
  | CallReleaseSequence seq => do! scheduler_release_sequence seq in ret ts
  | CallBlockTable i => match ts !! i with Some (Single d) => do! build_kv_block_table d in ret ts | _ => ret ts end
  | CallBlockTables i capacity =>
      match ts !! i with Some (PrefillBatch b) => do! build_prefill_batch_kv_block_tables b capacity in ret ts | _ => ret ts end
  end.

(** A retirement that fails has released the ring all the same. *)
Definition after_error (call : sched_call) (ts : list ticket) : list ticket :=
  match call with CallRetire i _ => delete i ts | _ => ts end.

Definition sched_call_ok (call : sched_call) : Prop :=
  match call with
  | CallAdmit r => request_words r
  | CallAdmitDecodes rs | CallAdmitPrefills rs => Forall request_words rs
  | CallOnCache call => cache_call_ok call
  | _ => True
  end.

Inductive sched_step : Scheduler * list ticket -> Scheduler * list ticket -> Prop :=
| step_returns s ts call ts' s' : sched_call_ok call -> sched_run call ts s = Ret ts' s' -> sched_step (s, ts) (s', ts')
| step_fails s ts call e s' : sched_call_ok call -> sched_run call ts s = Fails e s' -> sched_step (s, ts) (s', after_error call ts).

(** ** The invariant *)

(** The ticket occupies the ring once. *)
Definition held (s : Scheduler) (t : ticket) : Prop :=
  match t with
  | Single d => dispatched s d /\
      (holds_reservation s d = true -> sd_sequence_id d <> 0 /\ 0 < sd_kv_block_table_token_count d <= U32_MAX)
  | DecodeBatch b => decode_batch_held s b
  | PrefillBatch b => prefill_batch_held s b
  end.

(** Settings and the presence of the cache are all a held ticket depends on. *)
Lemma held_mono s s' t : same_shape s s' -> held s t -> held s' t.
Proof.
  intros [He Hc]. destruct (settings_fields s s' He) as (_&_&_&E4&_&_&_&_&_&_&E11).
  destruct t as [d|b|b]; cbn [held].
  - intros (Hd&Hh). split; [by eapply dispatched_eq|]. unfold holds_reservation, prompt_cache_is_enabled in *. by rewrite E11.
  - intros (Hd&H). split; [by eapply dispatched_eq|done].
  - intros (Hd&H1&H2&H3&H4&H5). split; [by eapply dispatched_eq|]. split_and!; try done; [apply H3..|by apply Hc].
Qed.

Record sched_ready (s : Scheduler) (ts : list ticket) : Prop := {
  sr_wf : sched_wf s (Z.of_nat (length ts));
  sr_held : Forall (held s) ts;
}.

Lemma ready_keep s s' ts : sched_ready s ts -> sched_wf s' (Z.of_nat (length ts)) -> same_shape s s' -> sched_ready s' ts.
Proof. intros [_ Hh] Hwf Hs. split; [done|]. eapply Forall_impl; [exact Hh|]. intros t. exact (held_mono s s' t Hs). Qed.

Lemma ready_add s s' ts t : sched_ready s ts -> sched_wf s' (Z.of_nat (length ts) + 1) -> same_shape s s' -> held s t -> sched_ready s' (ts ++ [t]).
Proof.
  intros [_ Hh] Hwf Hs Ht. split.
  - rewrite length_app. cbn [length]. by rewrite Nat2Z.inj_add.
  - apply Forall_app. split; [eapply Forall_impl; [exact Hh|]; intros t'; exact (held_mono s s' t' Hs)|].
    constructor; [exact (held_mono s s' t Hs Ht)|done].
Qed.

Lemma ready_drop s s' ts i t : sched_ready s ts -> ts !! i = Some t -> sched_wf s' (Z.of_nat (length ts) - 1) -> same_shape s s' -> sched_ready s' (delete i ts).
Proof.
  intros [_ Hh] Hi Hwf Hs. pose proof (lookup_lt_Some _ _ _ Hi). split.
  - rewrite length_delete by done. by rewrite Nat2Z.inj_sub by lia.
  - apply Forall_delete. eapply Forall_impl; [exact Hh|]. intros t'. exact (held_mono s s' t' Hs).
Qed.

(** ** Every call keeps the invariant *)

Lemma accepted_held s r n d s' : request_words r -> accepted s r n d s' -> held s (Single d).
Proof.
  intros Hw Hacc. split; [exact (accepted_dispatched _ _ _ _ _ Hacc)|]. intros Hh. unfold holds_reservation in Hh. apply andb_true_iff in Hh as [Hp He].
  destruct Hacc as (Hr&bucket&costs&extra&ks&st&s1&Ha). rewrite (ad_prefill_flag _ _ _ _ _ _ _ _ _ _ _ Ha) in Hp.
  rewrite (ad_sequence _ _ _ _ _ _ _ _ _ _ _ Ha). destruct (ro_ids s r Hr Hp He) as [Hseq _]. split; [exact Hseq|].
  pose proof (ad_reservation _ _ _ _ _ _ _ _ _ _ _ Ha) as Hres. pose proof (ad_step _ _ _ _ _ _ _ _ _ _ _ Ha) as Hst.
  rewrite Hp, He in Hres. cbn [andb] in Hres. rewrite Hp in Hst. destruct Hst as [Hok Hpl]. rewrite He in Hpl.
  destruct Hres as (rs&Hrs&_&_&->). destruct Hpl as (c0&c&c'&rs'&_&_&(_&_&k&_&Hcount&_)&Hrs'&_).
  assert (rs' = rs) as -> by congruence. rewrite Hcount. destruct (sk_chunk _ _ _ Hok) as (K0&K1&K2&K3). pose proof Hw as (_&Hpw&_).
  destruct (request_tokens_spec s r Hr Hp (st_computed st + st_scheduled st) He ltac:(lia)) as (_&_&_&->). lia.
Qed.

Lemma accepted_shape s r n d s' : sched_wf s n -> accepted s r n d s' -> same_shape s s'.
Proof.
  intros Hwf (Hr&bucket&costs&extra&ks&st&s1&Ha). split; [by apply Ha|]. rewrite (ad_cache _ _ _ _ _ _ _ _ _ _ _ Ha).
  pose proof (ad_step _ _ _ _ _ _ _ _ _ _ _ Ha) as Hst. destruct (is_prefill r); [|by destruct Hst as [_ ->]].
  apply recached_some. by eapply (planned_recached s r n).
Qed.

Lemma refused_shape s r n d s' : refused s r n d s' -> same_shape s s'.
Proof. intros (_&_&s1&Hr&->). exact (recached_shape _ _ Hr). Qed.

Definition keeps (s : Scheduler) (call : sched_call) (ts : list ticket) : Prop :=
  wp (sched_run call ts) (fun ts' s' => sched_ready s' ts' /\ same_shape s s')
    (fun _ s' => sched_ready s' (after_error call ts) /\ same_shape s s') s.

Lemma admit_keeps s r ts : sched_ready s ts -> request_words r -> keeps s (CallAdmit r) ts.
Proof.
  intros Hrd Hw. pose proof (sr_wf _ _ Hrd) as Hwf. unfold keeps. cbn [sched_run after_error]. wp_step.
  eapply wp_mono; [by apply (scheduler_admit_spec s r _ Hwf)| |].
  - intros d s' [Hacc|Href]; wp_steps.
    + rewrite (dp_accepted _ _ (accepted_dispatched _ _ _ _ _ Hacc)). pose proof (accepted_shape _ _ _ _ _ Hwf Hacc) as Hsh. split; [|done].
      apply (ready_add s); [done|exact (accepted_wf _ _ _ _ _ Hwf Hacc)|done|exact (accepted_held _ _ _ _ _ Hw Hacc)].
    + pose proof (refused_shape _ _ _ _ _ Href) as Hsh. split; [|done]. pose proof Href as [-> _].
      apply (ready_keep s); [done|exact (refused_wf _ _ _ _ _ Hwf Href)|done].
  - by intros e s' [-> _].
Qed.

Lemma admit_decodes_keeps s rs ts : sched_ready s ts -> Forall request_words rs -> keeps s (CallAdmitDecodes rs) ts.
Proof.
  intros Hrd Hw. pose proof (sr_wf _ _ Hrd) as Hwf. unfold keeps. cbn [sched_run after_error]. wp_step.
  eapply wp_mono; [by apply (admit_decode_batch_spec s _ rs Hwf)| |].
  - intros b s' [(k&Hb)|[Hacc Hcase]]; wp_steps.
    + rewrite (db_accepted _ _ _ _ _ _ Hb). assert (same_shape s s') as Hsh.
      { destruct (db_admitted _ _ _ _ _ _ Hb) as (d&s1&Ha&(E1&E2&_)&_). pose proof (accepted_shape _ _ _ _ _ Hwf Ha) as [H1 H2].
        split; [by rewrite E1|by rewrite E2]. }
      split; [|done]. apply (ready_add s); [done|exact (decode_batched_wf _ _ _ _ _ _ Hwf Hb)|done|exact (decode_batched_held _ _ _ _ _ _ Hb)].
    + rewrite Hacc. destruct Hcase as [->|(r&d&Href)]; [by split|]. pose proof (refused_shape _ _ _ _ _ Href) as Hsh. split; [|done].
      apply (ready_keep s); [done|exact (refused_wf _ _ _ _ _ Hwf Href)|done].
  - by intros e s' [_ ->].
Qed.

Lemma admit_prefills_keeps s rs ts : sched_ready s ts -> Forall request_words rs -> keeps s (CallAdmitPrefills rs) ts.
Proof.
  intros Hrd Hw. pose proof (sr_wf _ _ Hrd) as Hwf. unfold keeps. cbn [sched_run after_error]. wp_step.
  eapply wp_mono; [by apply (admit_prefill_batch_spec s _ rs Hwf)| |].
  - intros b s' [(t&k&Hb)|(->&Hacc&_)]; wp_steps.
    + destruct (pb_accepted _ _ _ _ _ _ _ Hb) as [-> _]. assert (same_shape s s') as Hsh.
      { destruct (pb_after _ _ _ _ _ _ _ Hb) as (E1&_&s1&Hr&E2). split; [done|]. rewrite E2. by apply recached_some. }
      split; [|done]. apply (ready_add s); [done|exact (prefill_batched_wf _ _ _ _ _ _ _ Hwf Hb)|done|exact (prefill_batched_held _ _ _ _ _ _ _ Hw Hb)].
    + by rewrite Hacc.
  - intros e s' [[-> _]|(t&k&_&Hr&_)]; [by split|]. pose proof (recached_shape _ _ Hr) as Hsh. split; [|done].
    apply (ready_keep s); [done|exact (recached_wf _ _ _ Hr Hwf)|done].
Qed.

(** Retiring a ticket takes one step off every stage; it fails only for a reservation
    whose epoch wrapped around to zero. *)
Lemma retire_ticket_spec s t how n : sched_wf s n -> held s t -> 0 < n ->
  wp (retire_ticket t how) (fun _ s' => sched_wf s' (n - 1) /\ same_shape s s')
    (fun _ s' => (sched_wf s' (n - 1) /\ same_shape s s') /\ exists d, t = Single d /\ sd_prefix_cache_reservation_epoch d = 0) s.
Proof.
  intros Hwf Hh Hn. destruct t as [d|b|b]; cbn [held retire_ticket] in *.
  - destruct Hh as [Hd Hseq]. assert (forall m, retired s d m n -> wp m (fun _ s' => sched_wf s' (n - 1) /\ same_shape s s')
      (fun _ s' => (sched_wf s' (n - 1) /\ same_shape s s') /\ exists d', Single d = Single d' /\ sd_prefix_cache_reservation_epoch d' = 0) s) as Hm.
    { intros m Hm. eapply wp_mono; [exact Hm|done|]. intros e s' (H1&H2&H3&[H4|H4]); [by apply Hseq in H3 as [? _]|].
      split; [done|]. by exists d. }
    destruct how; apply Hm; [by apply complete_decision_spec|by apply cancel_spec].
  - destruct how.
    + eapply wp_mono; [by apply (complete_decode_batch_spec s b n)|done|done].
    + eapply wp_mono; [by apply (cancel_decode_batch_spec s b n)| |done]. intros [] s' ->. split; [|done].
      apply (set_carried_wf s n); [done|]. destruct (wf_carries s n Hwf). lia.
  - destruct how; eapply wp_mono; try by apply (retire_prefill_batch_spec s b n). all: done.
Qed.

Lemma retire_keeps s i how ts : sched_ready s ts -> keeps s (CallRetire i how) ts.
Proof.
  intros Hrd. pose proof (sr_wf _ _ Hrd) as Hwf. unfold keeps. cbn [sched_run after_error].
  destruct (ts !! i) as [t|] eqn:Hi; [|by wp_steps].
  pose proof (proj1 (Forall_lookup _ _) (sr_held _ _ Hrd) i t Hi) as Ht. pose proof (lookup_lt_Some _ _ _ Hi). wp_step.
  eapply wp_mono; [apply (retire_ticket_spec s t how _ Hwf Ht); lia| |].
  - intros [] s' [Hw Hsh]. wp_steps. split; [|done]. by eapply (ready_drop s).
  - intros e s' [[Hw Hsh] _]. split; [|done]. by eapply (ready_drop s).
Qed.

Lemma safe_undrop {A} (m : PM A) c : safe (drop_result m) c -> safe m c.
Proof. unfold safe, drop_result, wp, bind. by destruct (m c). Qed.

Lemma table_safe c seq n : cache_wf c -> 0 <= n <= U32_MAX -> safe (build_physical_block_table seq n) c.
Proof. intros Hwf Hn. apply safe_undrop. by apply (cache_run_safe (CallTable seq n) c). Qed.

(** A method of the owned cache, under the invariant. *)
Lemma on_cache_keeps {A} (m : PM A) s ts : sched_ready s ts -> (forall c, cache_wf c -> safe m c) ->
  wp (on_cache m) (fun _ s' => sched_ready s' ts /\ same_shape s s') (fun _ s' => sched_ready s' ts /\ same_shape s s') s.
Proof.
  intros Hrd Hm. pose proof (sr_wf _ _ Hrd) as Hwf.
  eapply wp_mono; [by apply (on_cache_wf m s _ Hwf)|..]; intros ? s' [Hw Hr]; pose proof (recached_shape _ _ Hr) as Hsh;
    (split; [by apply (ready_keep s)|done]).
Qed.

Lemma same_shape_trans s1 s2 s3 : same_shape s1 s2 -> same_shape s2 s3 -> same_shape s1 s3.
Proof. intros [H1 H2] [H3 H4]. split; [by rewrite H3|auto]. Qed.

Lemma single_table_keeps s ts d : sched_ready s ts -> held s (Single d) ->
  wp (build_kv_block_table d) (fun _ s' => sched_ready s' ts /\ same_shape s s') (fun _ s' => sched_ready s' ts /\ same_shape s s') s.
Proof.
  intros Hrd [Hd Hh]. unfold build_kv_block_table. wp_steps. unfold id. apply validate_accepted_spec; [done|].
  unfold holds_reservation in Hh. destruct (prompt_cache_is_enabled s) eqn:He; cbn [negb orb]; [|by wp_steps].
  destruct (has_flag (sd_decision_flags d) DECISION_FLAG_PREFILL_STEP) eqn:Hf; cbn [negb]; [|by wp_steps].
  destruct (Hh eq_refl) as [_ Hn]. apply on_cache_keeps; [done|]. intros c Hc. apply table_safe; [done|lia].
Qed.

Lemma batch_tables_keeps s ts b capacity : sched_ready s ts -> held s (PrefillBatch b) ->
  wp (build_prefill_batch_kv_block_tables b capacity)
    (fun _ s' => sched_ready s' ts /\ same_shape s s') (fun _ s' => sched_ready s' ts /\ same_shape s s') s.
Proof.
  intros Hrd (Hd&Ha&Hf&[Hlen Hcount]&Hseq&Hsome). unfold build_prefill_batch_kv_block_tables. wp_steps. unfold id, validate_accepted_prefill_batch_decision.
  rewrite Ha, Hf, (dp_accepted _ _ Hd). unfold max_packed_request_count. rewrite (so_bucket s (wf_settings _ _ (sr_wf _ _ Hrd))). cbn [negb orb].
  change MAX_BATCH_BUCKET with 1024 in *. destruct (Z.eqb_spec (fb_packed_request_count b) 0); [lia|].
  destruct (Z.ltb_spec 1024 (fb_packed_request_count b)); [lia|]. rewrite <- Hlen, Z.ltb_irrefl. cbn [orb]. wp_steps.
  destruct (_ || _); wp_steps; [by split|]. apply wp_slice; [lia|lia|]. rewrite Z.sub_0_r, drop_0, take_ge by lia.
  eapply wp_mono; [apply (wp_for_fold (fun _ _ s' => sched_ready s' ts /\ same_shape s s') _ _ _ (fun _ s' => sched_ready s' ts /\ same_shape s s'))|done|done].
  - by split.
  - intros pre lane post tables s' Hsplit [Hrd' Hsh]. destruct (_ || _); wp_steps; [by split|].
    assert (lane ∈ fb_lanes b) as Hin by (rewrite Hsplit; set_solver). destruct (proj1 (Forall_forall _ _) Hseq lane Hin) as [_ Hn].
    eapply wp_mono; [apply (on_cache_keeps _ s' ts Hrd'); intros c Hc; apply table_safe; [done|lia]|..]; intros x s2 [Hrd2 Hsh2];
      pose proof (same_shape_trans _ _ _ Hsh Hsh2).
    + destruct (_ <? _); by wp_steps.
    + done.
Qed.

Lemma release_sequence_safe c seq : cache_wf c -> safe (release_sequence seq) c.
Proof. intros Hc. by apply (cache_run_safe (CallRelease seq) c). Qed.

Lemma run_keeps s call ts : sched_ready s ts -> sched_call_ok call -> keeps s call ts.
Proof.
  intros Hrd Hok. destruct call as [r|rs|rs|i how|call|demand|seq|i|i capacity]; cbn [sched_call_ok] in Hok.
  - by apply admit_keeps.
  - by apply admit_decodes_keeps.
  - by apply admit_prefills_keeps.
  - by apply retire_keeps.
  - unfold keeps. cbn [sched_run after_error]. wp_step. eapply wp_mono; [apply (on_cache_keeps _ s ts Hrd); intros c Hc; by apply cache_run_safe| |done].
    intros [] s' H. by wp_steps.
  - unfold keeps. cbn [sched_run after_error]. unfold set_prefill_demand. wp_steps. split; [|done].
    apply (ready_keep s); [done| |done]. destruct (sr_wf _ _ Hrd) as [H1 H2 H3]. split; [by apply (settings_ok_eq s)|by apply (cache_owned_eq s)|exact H3].
  - unfold keeps. cbn [sched_run after_error]. unfold scheduler_release_sequence. wp_step. destruct (_ =? _); wp_steps; [done|]. unfold id.
    destruct (negb _); wp_steps; [done|]. eapply wp_mono; [apply (on_cache_keeps _ s ts Hrd); intros c Hc; by apply release_sequence_safe| |done].
    intros [] s' H. by wp_steps.
  - unfold keeps. cbn [sched_run after_error]. destruct (ts !! i) as [[d|b|b]|] eqn:Hi; try by wp_steps. wp_step.
    eapply wp_mono; [apply (single_table_keeps s ts d Hrd); exact (proj1 (Forall_lookup _ _) (sr_held _ _ Hrd) i _ Hi)| |done].
    intros x s' H. by wp_steps.
  - unfold keeps. cbn [sched_run after_error]. destruct (ts !! i) as [[d|b|b]|] eqn:Hi; try by wp_steps. wp_step.
    eapply wp_mono; [apply (batch_tables_keeps s ts b capacity Hrd); exact (proj1 (Forall_lookup _ _) (sr_held _ _ Hrd) i _ Hi)| |done].
    intros x s' H. by wp_steps.
Qed.

Lemma sched_step_keeps s ts s' ts' : sched_step (s, ts) (s', ts') -> sched_ready s ts -> sched_ready s' ts' /\ same_shape s s'.
Proof.
  intros Hst Hrd. inversion Hst as [? ? call ? ? Hok Hrun|? ? call e ? Hok Hrun]; subst;
    pose proof (run_keeps s call ts Hrd Hok) as Hk; unfold keeps, wp in Hk; by rewrite Hrun in Hk.
Qed.

(** The words of a configuration, with a well-formed cache. *)
Record config_words (c : SchedulerConfig) : Prop := {
  cw_sparks : 0 <= cfg_spark_count c <= U32_MAX;
  cw_depth : 0 <= cfg_queue_depth_per_spark c <= U32_MAX;
  cw_layer_cost : 0 <= cfg_estimated_layer_cost_ns c <= U64_MAX;
  cw_final_cost : 0 <= cfg_estimated_final_stage_extra_cost_ns c <= U64_MAX;
  cw_layers : 0 <= g_layer_count (cfg_stage_geometry c);
  cw_step : 0 <= cfg_max_prefill_tokens_per_step c <= U32_MAX /\ 0 <= cfg_default_max_prefill_tokens_per_step c <= U32_MAX;
  cw_block : 0 <= cfg_prefix_cache_block_tokens c <= U32_MAX;
  cw_cache : match cfg_prefix_cache c with Some pc => cache_wf pc | None => True end;
}.

Lemma fresh_settings c : config_words c -> cfg_max_batch_bucket c = MAX_BATCH_BUCKET -> cfg_prefix_cache_block_tokens c <> 0 ->
  0 < g_layer_count (cfg_stage_geometry c) <= MAX_LAYER_COUNT -> settings_ok (fresh_scheduler c).
Proof.
  intros [W1 W2 W3 W4 W5 [W6 W7] W8 W9] Hb Ht Hl. unfold fresh_scheduler, DEFAULT_QUEUE_DEPTH_PER_SPARK. split; cbn; try done; try lia.
  - destruct (Z.eqb_spec (cfg_queue_depth_per_spark c) 0); lia.
  - set (step := if cfg_max_prefill_tokens_per_step c =? 0 then _ else _). assert (0 <= step <= U32_MAX) by (unfold step; destruct (_ =? 0); lia).
    destruct (Z.ltb_spec step (cfg_prefix_cache_block_tokens c)); lia.
Qed.

Lemma new_ready c s : config_words c -> new_scheduler c tt = Ret s tt -> sched_ready s [].
Proof.
  intros Hc Hnew. assert (wp (new_scheduler c) (fun s _ => sched_ready s []) (fun _ _ => True) tt) as Hwp; [|unfold wp in Hwp; by rewrite Hnew in Hwp].
  clear Hnew. unfold new_scheduler. destruct (_ || _) eqn:Hg; [by wp_steps|].
  repeat match goal with H : _ || _ = false |- _ => apply orb_false_iff in H as [? ?] end.
  wp_step. apply (wp_mono _ (fun _ _ => cache_owned (fresh_scheduler c)) _ (fun _ _ => True)); [| |done].
  { pose proof (cw_cache c Hc) as W9. unfold cache_owned.
    change (prompt_cache_is_enabled (fresh_scheduler c)) with (has_flag (cfg_configuration_flags c) CONFIGURATION_FLAG_PREFIX_CACHE).
    change (prefix_cache (fresh_scheduler c)) with (cfg_prefix_cache c).
    change (prefix_cache_block_tokens (fresh_scheduler c)) with (cfg_prefix_cache_block_tokens c).
    destruct (has_flag (cfg_configuration_flags c) CONFIGURATION_FLAG_PREFIX_CACHE), (cfg_prefix_cache c) as [pc|]; wp_steps; try done.
    destruct (Z.eqb_spec (block_token_count pc) (cfg_prefix_cache_block_tokens c)) as [Hb|]; cbn [negb]; by wp_steps. }
  intros _ [] Ho. destruct (_ && _); [by wp_steps|]. destruct (_ || _) eqn:Hg; [by wp_steps|].
  repeat match goal with H : _ || _ = false |- _ => apply orb_false_iff in H as [? ?] end. wp_steps.
  pose proof (cw_layers c Hc). assert (settings_ok (fresh_scheduler c)) as Hs by (apply fresh_settings; [done|lia..]).
  split; [|done]. split; [done|done|]. split; [done|]. pose proof (so_depth _ Hs). cbn [length]. lia.
Qed.

Lemma run_ready x y : rtc sched_step x y -> sched_ready (fst x) (snd x) -> sched_ready (fst y) (snd y) /\ same_shape (fst x) (fst y).
Proof.
  induction 1 as [x|[s ts] [s1 ts1] z Hst _ IH]; [done|]. intros Hrd. cbn [fst snd] in *. destruct (sched_step_keeps _ _ _ _ Hst Hrd) as [Hrd1 Hsh1].
  destruct (IH Hrd1) as [Hrd2 Hsh2]. split; [done|]. exact (same_shape_trans _ _ _ Hsh1 Hsh2).
Qed.

(** C3. From [new] on, for a caller that completes or cancels each decision it was given at
    most once and otherwise makes any calls on the scheduler and on its cache: every stage of
    the ring carries exactly the outstanding decisions, never more than its queue depth; the cache keeps its own invariant; the settings never change; every further call
    returns, with a value or an error; and every outstanding decision can still be completed
    or cancelled, which takes it off every stage.  Only a single decision whose reservation
    epoch wrapped around to zero makes its retirement report an error.  The discipline of the
    caller is needed: [completed_twice_takes_another] below. *)
Theorem scheduler_invariant c s0 s ts :
  config_words c -> new_scheduler c tt = Ret s0 tt -> rtc sched_step (s0, []) (s, ts) ->
  let n := Z.of_nat (length ts) in
  (spark_inflight_counts s = replicate (Z.to_nat (spark_count s)) n /\ n <= queue_depth_per_spark s) /\
  cache_owned s /\ settings s = settings s0 /\
  (forall call, sched_call_ok call -> exists s', (exists ts', sched_run call ts s = Ret ts' s') \/ (exists e, sched_run call ts s = Fails e s')) /\
  (forall i t how, ts !! i = Some t -> exists s',
     spark_inflight_counts s' = replicate (Z.to_nat (spark_count s)) (n - 1) /\
     (retire_ticket t how s = Ret tt s' \/
      exists e d, retire_ticket t how s = Fails e s' /\ t = Single d /\ sd_prefix_cache_reservation_epoch d = 0)).
Proof.
  intros Hc Hnew Hrun n. pose proof (new_ready c s0 Hc Hnew) as Hrd0. destruct (run_ready _ _ Hrun Hrd0) as [Hrd [He _]]. cbn [fst snd] in *.
  pose proof (sr_wf _ _ Hrd) as Hwf. fold n in Hwf. destruct (wf_carries _ _ Hwf) as [Hcar [_ Hn]].
  split; [done|]. split; [apply Hwf|]. split; [done|]. split.
  - intros call Hok. destruct (wp_elim _ _ _ _ (run_keeps s call ts Hrd Hok)) as [(ts'&s'&Hr&_)|(e&s'&Hr&_)]; exists s'; [left; by exists ts'|right; by exists e].
  - intros i t how Hi. pose proof (proj1 (Forall_lookup _ _) (sr_held _ _ Hrd) i t Hi) as Ht. pose proof (lookup_lt_Some _ _ _ Hi).
    assert (forall s', sched_wf s' (n - 1) -> same_shape s s' -> spark_inflight_counts s' = replicate (Z.to_nat (spark_count s)) (n - 1)) as Hcount.
    { intros s' Hw' [Hsh _]. destruct (settings_fields _ _ Hsh) as (_&_&_&<-&_). apply Hw'. }
    destruct (wp_elim _ _ _ _ (retire_ticket_spec s t how n Hwf Ht ltac:(lia))) as [([]&s'&Hr&Hw'&Hsh)|(e&s'&Hr&[Hw' Hsh]&d&->&H0)];
      exists s'; (split; [by apply Hcount|]); [by left|]. right. by exists e, d.
Qed.

(** ** A sample ring *)

(** Two sparks, two steps deep, over six layers, with the small prefix cache. *)
Definition small_setup : SchedulerConfig :=
  mkSchedulerConfig 2 2 MEASURED_PROFILE_20260701 (new_geometry 6 3) 100 50 Nvfp4_4Bit 2 2 64 MAX_BATCH_BUCKET 2
    CONFIGURATION_DEFAULT_FLAGS (Some fresh_cache).

Definition small_ring : Scheduler := fresh_scheduler small_setup.

Definition small_prefill : SchedulerRequest := prefill_request 1 3 7 [10; 11; 12].

Lemma small_setup_words : config_words small_setup.
Proof. split; cbn; try lia. apply fresh_cache_wf. Qed.

Lemma small_new : new_scheduler small_setup tt = Ret small_ring tt.
Proof. reflexivity. Qed.

Lemma small_ready : sched_ready small_ring [].
Proof. exact (new_ready small_setup small_ring small_setup_words small_new). Qed.

Lemma small_prefill_words : request_words small_prefill.
Proof. unfold request_words, small_prefill, prefill_request, NO_PROMPT_LIMIT. cbn. split_and!; lia. Qed.

(** The ring does not know which decisions it already retired: two decodes are admitted and
    the first is completed twice. *)
Definition completed_twice : SM SchedulerDecision :=
  let! d1 := scheduler_admit (decode_request 1) in
  let! d2 := scheduler_admit (decode_request 1) in
  do! complete d1 in do! complete d1 in ret d2.

(** The second completion takes the other decode off the ring: the ring is empty while that
    decode is still running, and completing it is then refused. *)
Lemma completed_twice_takes_another :
  exists d s, completed_twice small_ring = Ret d s /\ sd_accepted d = true /\ spark_inflight_counts s = [0; 0] /\
    complete d s = Fails InvalidArgument s.
Proof.
  assert (match completed_twice small_ring with
    | Ret d s => sd_accepted d && bool_decide ((spark_inflight_counts s) = [0; 0]) | _ => false end = true) as Hv by (vm_compute; reflexivity).
  assert (match completed_twice small_ring with
    | Ret d s => complete d s = Fails InvalidArgument s | _ => False end) as Hc by (vm_compute; reflexivity).
  destruct (completed_twice small_ring) as [d s|e s| |]; [|discriminate Hv..]. apply andb_true_iff in Hv as [H1 H2].
  exists d, s. split_and!; [reflexivity|exact H1|by apply bool_decide_eq_true in H2|exact Hc].
Qed.

(** The state after a call, and what the caller then holds. *)
Definition after_call (call : sched_call) (x : Scheduler * list ticket) : Scheduler * list ticket :=
  match sched_run call (snd x) (fst x) with
  | Ret ts s => (s, ts)
  | Fails _ s => (s, after_error call (snd x))
  | _ => x
  end.

Lemma after_call_step call x : sched_call_ok call -> sched_ready (fst x) (snd x) -> sched_step x (after_call call x).
Proof.
  destruct x as [s ts]. cbn [fst snd]. intros Hok Hrd. unfold after_call. cbn [fst snd].
  destruct (wp_elim _ _ _ _ (run_keeps s call ts Hrd Hok)) as [(ts'&s'&Hr&_)|(e&s'&Hr&_)]; rewrite Hr; by econstructor.
Qed.

Lemma scheduler_invariant_witness :
  let x := after_call (CallAdmit small_prefill) (small_ring, []) in
  length (snd x) = 1%nat /\ spark_inflight_counts (fst x) = [1; 1] /\
  exists s', spark_inflight_counts s' = [0; 0] /\
    exists t, snd x !! 0%nat = Some t /\ (retire_ticket t Commit (fst x) = Ret tt s' \/ exists e, retire_ticket t Commit (fst x) = Fails e s').
Proof.
  intros x. assert (length (snd x) = 1%nat) as Hlen by (vm_compute; reflexivity).
  assert (spark_count (fst x) = 2) as Hsp by (vm_compute; reflexivity).
  assert (rtc sched_step (small_ring, []) (fst x, snd x)) as Hrun.
  { assert ((fst x, snd x) = x) as -> by (destruct x; reflexivity).
    apply rtc_once. apply (after_call_step (CallAdmit small_prefill)); [exact small_prefill_words|exact small_ready]. }
  destruct (scheduler_invariant small_setup small_ring (fst x) (snd x) small_setup_words small_new Hrun) as ((Hc&_)&_&_&_&Hret).
  rewrite Hlen, Hsp in *. split; [reflexivity|]. split; [exact Hc|].
  destruct (lookup_lt_is_Some_2 (snd x) 0) as [t Ht]; [rewrite Hlen; lia|].
  destruct (Hret 0%nat t Commit Ht) as (s'&Hc'&Hr). exists s'. split; [exact Hc'|]. exists t. split; [exact Ht|].
  destruct Hr as [Hr|(e&d&Hr&_)]; [left; exact Hr|right; exists e; exact Hr].
Defined.

(** ** One prefill *)

Lemma on_cache_ret {A} (m : PM A) s c a : prefix_cache s = Some c -> m c = Ret a c -> on_cache m s = Ret a s.
Proof.
  intros Hc Hm. unfold on_cache, bind, gets. rewrite Hc. unfold zoom. rewrite Hc. cbn [default]. unfold id. rewrite Hm. f_equal. rewrite <- Hc. by destruct s.
Qed.

Lemma on_cache_fails {A} (m : PM A) s c e : prefix_cache s = Some c -> m c = Fails e c -> on_cache m s = Fails (from_cache_error e) s.
Proof.
  intros Hc Hm. unfold on_cache, bind, gets. rewrite Hc. unfold zoom. rewrite Hc. cbn [default]. unfold id. rewrite Hm. f_equal. rewrite <- Hc. by destruct s.
Qed.

(** Probing the cache does not change what a sequence holds. *)
Lemma quiet_holds_enough c c' seq tokens : quiet c c' -> holds_enough seq tokens c' <-> holds_enough seq tokens c.
Proof.
  intros Hq. assert (forall m, PrefixCacheSpecs.held c' seq c' m = PrefixCacheSpecs.held c seq c m) as Hh by (intros m; unfold PrefixCacheSpecs.held, find_binding_at_token_offset; by rewrite (qu_bindings _ _ Hq), (qu_btc _ _ Hq)).
  unfold holds_enough, block_tokens. rewrite (qu_btc _ _ Hq). split; intros H m count p; [rewrite <- Hh|rewrite Hh]; apply H.
Qed.

(** The table of an admitted prefill, read back. *)
Lemma admitted_table s n r d s' : sched_wf s n -> request_words r -> is_prefill r = true -> prompt_cache_is_enabled s = true -> accepted s r n d s' ->
  let tokens := request_tokens r (sd_computed_prompt_token_count d + sd_scheduled_prompt_token_count d) in
  sd_kv_block_table_token_count d = sd_computed_prompt_token_count d + sd_scheduled_prompt_token_count d /\
  Z.of_nat (length (sd_kv_physical_block_indices d)) = div_ceil (sd_kv_block_table_token_count d) (prefix_cache_block_tokens s) /\
  forall c, prefix_cache s = Some c ->
    (holds_enough (rq_sequence_id r) tokens c -> build_kv_block_table d s' = Ret (sd_kv_physical_block_indices d) s') /\
    (~ holds_enough (rq_sequence_id r) tokens c -> build_kv_block_table d s' = Fails NotFound s').
Proof.
  intros Hwf Hw Hp He Hacc. pose proof (accepted_dispatched _ _ _ _ _ Hacc) as Hd. destruct Hacc as (Hr&bucket&costs&extra&ks&st&s1&Ha).
  pose proof (ad_reservation _ _ _ _ _ _ _ _ _ _ _ Ha) as Hres. pose proof (ad_step _ _ _ _ _ _ _ _ _ _ _ Ha) as Hst.
  rewrite Hp, He in Hres. cbn [andb] in Hres. rewrite Hp in Hst. destruct Hst as [Hok Hpl]. rewrite He in Hpl.
  destruct Hres as (rs&Hrs&_&Hidx&Hkv). destruct Hpl as (c0&c&c'&rs'&Hc0&Hq&(_&Hcok&Hrd)&Hrs'&->). assert (rs' = rs) as -> by congruence.
  destruct (ad_prompt _ _ _ _ _ _ _ _ _ _ _ Ha) as (_&Hcomp&_&Hsch&_). destruct (sk_chunk _ _ _ Hok) as (K0&K1&K2&K3). pose proof Hw as (_&Hpw&_).
  rewrite Hcomp, Hsch. set (tokens := request_tokens r (st_computed st + st_scheduled st)) in *. cbv zeta.
  destruct (request_tokens_spec s r Hr Hp (st_computed st + st_scheduled st) He ltac:(lia)) as (_&_&_&Hlen). fold tokens in Hlen.
  pose proof Hrd as (k&Hk&Hcount&_&_&_&Hkl&_). destruct (ro_ids s r Hr Hp He) as [Hseq _].
  pose proof (wf_cache s n Hwf) as Ho. unfold cache_owned in Ho. rewrite Hc0 in Ho. destruct Ho as [Hwf0 Hbtc].
  pose proof (proj1 (quiet_ok _ _ Hwf0 Hq)) as Hwfc. rewrite Hkv, Hcount, Hlen. split; [done|].
  split; [rewrite Hidx, Hkl, <- Hk, Hlen; unfold ceil_block_count; by rewrite (qu_btc _ _ Hq), (Hbtc He)|].
  intros c1 Hc1. assert (c1 = c0) as -> by congruence. rewrite <- (quiet_holds_enough c0 c) by done.
  destruct (reserved_table c _ tokens rs c' Hwfc Hcok Hseq ltac:(lia) Hrd) as [H1 H2].
  assert (build_kv_block_table d s' = on_cache (build_physical_block_table (rq_sequence_id r) (Z.of_nat (length tokens))) s') as ->.
  { unfold build_kv_block_table. cbv [bind gets]. unfold id. destruct (settings_fields _ _ (proj1 (ad_settings _ _ _ _ _ _ _ _ _ _ _ Ha))) as (_&_&_&E4&_&_&_&_&_&_&E11).
    destruct (wp_elim _ _ _ _ (validate_accepted_spec s' d s' (fun _ s2 => s2 = s') (fun _ _ => False) (dispatched_eq s s' d E4 Hd) eq_refl)) as [([]&s2&->&->)|(?&?&_&[])].
    unfold prompt_cache_is_enabled in *. rewrite E11, He, (ad_prefill_flag _ _ _ _ _ _ _ _ _ _ _ Ha), Hp. cbn [negb orb].
    by rewrite (ad_sequence _ _ _ _ _ _ _ _ _ _ _ Ha), Hkv, Hcount. }
  rewrite Hidx. pose proof (ad_cache _ _ _ _ _ _ _ _ _ _ _ Ha) as Hc'.
  split; intros H; [apply (on_cache_ret _ s' c'); [by rewrite Hc'|by apply H1]|apply (on_cache_fails _ s' c' PrefixCache.NotFound); [by rewrite Hc'|by apply H2]].
Qed.

(** What [scheduler_admit] returned, by the cases of [scheduler_admit_spec]. *)
Lemma admit_cases s n r d s' : sched_wf s n -> request_words r -> scheduler_admit r s = Ret d s' -> accepted s r n d s' \/ refused s r n d s'.
Proof. intros Hwf Hw Hr. exact (wp_ret_inv _ _ _ _ _ _ (scheduler_admit_spec s r n Hwf Hw) Hr). Qed.

Lemma admit_accepted s n r d s' : sched_wf s n -> request_words r -> scheduler_admit r s = Ret d s' -> sd_accepted d = true -> accepted s r n d s'.
Proof. intros Hwf Hw Hr Ha. destruct (admit_cases s n r d s' Hwf Hw Hr) as [H|[H _]]; [done|congruence]. Qed.

(** C11. An admitted prefill schedules the next chunk of its prompt, the first or a later one.
    What counts as computed is the larger of what the request declares and what the cache
    supplies (its longest reusable prefix of the prompt when sequences share prefixes, nothing
    otherwise); the chunk starts there, is not empty, stays within the step limit, and ends at
    the end of the prompt or after whole blocks; computed, chunk and remainder make up the
    prompt.  With the cache enabled the decision carries the physical blocks of everything up
    to the chunk's end, and [build_kv_block_table] reads exactly these back when the bindings
    the sequence had before cover the blocks at their offsets (none, or whole blocks, as the
    commits of earlier chunks leave them), and answers [NotFound] when one is too short. *)
Theorem admit_prefill_exact s n r d s' :
  sched_wf s n -> request_words r -> is_prefill r = true ->
  scheduler_admit r s = Ret d s' -> sd_accepted d = true ->
  let computed := sd_computed_prompt_token_count d in
  let chunk := sd_scheduled_prompt_token_count d in
  let remaining := sd_remaining_prompt_token_count_after_step d in
  let tokens := request_tokens r (computed + chunk) in
  (supplied s r (sd_cached_prefix_token_count d) /\ computed = Z.max (rq_computed_prompt_token_count r) (sd_cached_prefix_token_count d)) /\
  (sd_scheduled_prompt_token_offset d = computed /\ 0 < chunk <= chunk_cap s r /\ 0 <= remaining /\
   computed + chunk + remaining = rq_prompt_token_count r /\ (remaining = 0 \/ chunk mod prefix_cache_block_tokens s = 0)) /\
  (prompt_cache_is_enabled s = true ->
   sd_kv_block_table_token_count d = computed + chunk /\
   Z.of_nat (length (sd_kv_physical_block_indices d)) = div_ceil (computed + chunk) (prefix_cache_block_tokens s) /\
   forall c, prefix_cache s = Some c ->
     (holds_enough (rq_sequence_id r) tokens c -> build_kv_block_table d s' = Ret (sd_kv_physical_block_indices d) s') /\
     (~ holds_enough (rq_sequence_id r) tokens c -> build_kv_block_table d s' = Fails NotFound s')).
Proof.
  intros Hwf Hw Hp Hr Ha computed chunk remaining tokens. pose proof (admit_accepted s n r d s' Hwf Hw Hr Ha) as Hacc.
  split; [|split; [|intros He; destruct (admitted_table s n r d s' Hwf Hw Hp He Hacc) as (Hkv&Hlen&Htab); rewrite Hkv in Hlen; by split_and!]].
  all: destruct Hacc as (_&bucket&costs&extra&ks&st&s1&Hadm); pose proof (ad_step _ _ _ _ _ _ _ _ _ _ _ Hadm) as Hst; rewrite Hp in Hst;
    destruct Hst as [Hok _]; destruct (ad_prompt _ _ _ _ _ _ _ _ _ _ _ Hadm) as (P1&P2&P3&P4&P5&_);
    destruct (sk_chunk _ _ _ Hok) as (K0&K1&K2&K3), (sk_cached _ _ _ Hok) as [_ Hsup]; unfold computed, chunk, remaining in *.
  - rewrite P1, P2. split; [done|apply Hok].
  - rewrite P3, P2, P4, P5. split_and!; try done; try lia. apply Hok.
Qed.

(** The ring after the first chunk of [small_prefill] was completed. *)
Definition chunk_done : Scheduler * list ticket := after_call (CallRetire 0 Commit) (after_call (CallAdmit small_prefill) (small_ring, [])).

Lemma chunk_done_ready : sched_ready (fst chunk_done) (snd chunk_done).
Proof.
  pose proof (after_call_step (CallAdmit small_prefill) (small_ring, []) small_prefill_words small_ready) as H1.
  destruct (after_call (CallAdmit small_prefill) (small_ring, [])) as [s1 ts1] eqn:E1.
  pose proof (proj1 (sched_step_keeps _ _ _ _ H1 small_ready)) as Hrd1.
  pose proof (after_call_step (CallRetire 0 Commit) (s1, ts1) I Hrd1) as H2. unfold chunk_done. rewrite E1.
  destruct (after_call (CallRetire 0 Commit) (s1, ts1)) as [s2 ts2]. exact (proj1 (sched_step_keeps _ _ _ _ H2 Hrd1)).
Qed.

(** Bindings of whole blocks, checked by evaluation. *)
Lemma whole_check seq tokens c :
  forallb (fun b => negb (b_valid b && (b_sequence_id b =? seq)) || (b_token_count b =? block_token_count c)) (bindings c) = true -> holds_enough seq tokens c.
Proof.
  intros Hall. apply whole_holds_enough. intros k b Hk Hv Hs. rewrite forallb_forall in Hall. specialize (Hall b ltac:(by eapply list_elem_of_In, list_elem_of_lookup_2)).
  rewrite Hv, Hs, Z.eqb_refl in Hall. by apply Z.eqb_eq in Hall.
Qed.

(** The second and last chunk of a prompt, read back over the block of the first. *)
Lemma admit_prefill_exact_witness :
  exists d s', scheduler_admit small_prefill (fst chunk_done) = Ret d s' /\
    sd_scheduled_prompt_token_count d = 1 /\ sd_remaining_prompt_token_count_after_step d = 0 /\
    build_kv_block_table d s' = Ret (sd_kv_physical_block_indices d) s'.
Proof.
  assert (match scheduler_admit small_prefill (fst chunk_done) with
    | Ret d _ => sd_accepted d && (sd_scheduled_prompt_token_count d =? 1) && (sd_remaining_prompt_token_count_after_step d =? 0)
    | _ => false end = true) as Hv by (vm_compute; reflexivity).
  assert (match prefix_cache (fst chunk_done) with
    | Some c => forallb (fun b => negb (b_valid b && (b_sequence_id b =? 7)) || (b_token_count b =? block_token_count c)) (bindings c)
    | None => false end = true) as Hwhole by (vm_compute; reflexivity).
  assert (prompt_cache_is_enabled (fst chunk_done) = true) as He by (vm_compute; reflexivity).
  destruct (scheduler_admit small_prefill (fst chunk_done)) as [d s'|e s'| |] eqn:Hr; [|discriminate Hv..].
  apply andb_true_iff in Hv as [Hv H3]. apply andb_true_iff in Hv as [H1 H2].
  destruct (admit_prefill_exact (fst chunk_done) _ small_prefill d s' (sr_wf _ _ chunk_done_ready) small_prefill_words eq_refl Hr H1) as (_&_&Htab).
  destruct (Htab He) as (_&_&Hc). destruct (prefix_cache (fst chunk_done)) as [c|]; [|discriminate Hwhole]. destruct (Hc c eq_refl) as [Hread _].
  exists d, s'. split; [reflexivity|]. split; [lia|]. split; [lia|]. apply Hread. by apply whole_check.
Defined.

(** ** Decodes beside prefills *)

(** C26. With prefill and decode interleaved on a ring deeper than one step, and no prefills
    announced as waiting, an admitted prefill leaves every stage a free slot for decodes:
    no decode offered next is refused as [Busy]. *)
Theorem prefill_leaves_decode_slot s n r d s' rows :
  sched_wf s n -> request_words r -> 0 <= rows <= U32_MAX ->
  prefill_decode_interleave_is_enabled s = true -> 1 < queue_depth_per_spark s -> prefill_demand s = 0 -> is_prefill r = true ->
  scheduler_admit r s = Ret d s' -> sd_accepted d = true ->
  match scheduler_admit (decode_request rows) s' with
  | Ret d2 _ => sd_rejected_status d2 <> Some Busy
  | Fails e _ => e = InvalidArgument
  | _ => False
  end.
Proof.
  intros Hwf Hw Hrows Hi Hdepth Hdem Hp Hr Ha. pose proof (admit_accepted s n r d s' Hwf Hw Hr Ha) as Hacc.
  pose proof (accepted_wf s r n d s' Hwf Hacc) as Hwf'. pose proof (proj1 (accepted_shape s r n d s' Hwf Hacc)) as Hsh.
  destruct Hacc as (_&bucket&costs&extra&ks&st&s1&Hadm). pose proof (ad_room _ _ _ _ _ _ _ _ _ _ _ Hadm) as Hroom.
  pose proof (proj2 (ad_settings _ _ _ _ _ _ _ _ _ _ _ Hadm)) as Hdem'. destruct (settings_fields _ _ Hsh) as (_&_&_&_&E5&_).
  unfold room, kept_slots in Hroom. rewrite Hp, Hi in Hroom. destruct (Z.ltb_spec 1 (queue_depth_per_spark s)); [|lia].
  cbn [orb andb b2z] in Hroom. apply Z.ltb_lt in Hroom.
  assert (request_words (decode_request rows)) as Hw2 by (unfold request_words, decode_request, NO_PROMPT_LIMIT; cbn; split_and!; lia).
  pose proof (scheduler_admit_spec s' (decode_request rows) (n + 1) Hwf' Hw2) as Hw'. unfold wp in Hw'.
  destruct (scheduler_admit (decode_request rows) s') as [d2 s2|e s2| |]; [|by apply Hw'|done|done].
  destruct Hw' as [(Hok&?&?&?&?&?&?&H2)|(_&(status&->&Hbusy)&_)].
  - destruct (ad_accepted _ _ _ _ _ _ _ _ _ _ _ H2) as [_ ->]. done.
  - intros [= ->]. specialize (Hbusy eq_refl). unfold room, kept_slots in Hbusy. change (is_prefill (decode_request rows)) with false in Hbusy.
    rewrite Hdem', Hdem, E5 in Hbusy. cbn [orb negb Z.eqb] in Hbusy. rewrite andb_false_r in Hbusy. cbn [b2z] in Hbusy. apply Z.ltb_ge in Hbusy. lia.
Qed.

Lemma prefill_leaves_decode_slot_witness :
  exists d s', scheduler_admit small_prefill small_ring = Ret d s' /\
    match scheduler_admit (decode_request 4) s' with Ret d2 _ => sd_rejected_status d2 <> Some Busy | Fails e _ => e = InvalidArgument | _ => False end.
Proof.
  assert (match scheduler_admit small_prefill small_ring with Ret d _ => sd_accepted d | _ => false end = true) as Hv by (vm_compute; reflexivity).
  destruct (scheduler_admit small_prefill small_ring) as [d s'|e s'| |] eqn:Hr; [|discriminate Hv..].
  exists d, s'. split; [reflexivity|].
  apply (prefill_leaves_decode_slot small_ring 0 small_prefill d s' 4 (sr_wf _ _ small_ready) small_prefill_words);
    [lia|reflexivity|reflexivity|reflexivity|reflexivity|exact Hr|exact Hv].
Defined.

(** With prefills announced as waiting, the slot the prefill left is refused to the decode. *)
Lemma announced_prefills_block_decode :
  match (do! set_prefill_demand 1 in let! d := scheduler_admit small_prefill in
         let! d2 := scheduler_admit (decode_request 1) in ret (sd_accepted d, sd_rejected_status d2)) small_ring with
  | Ret x s => x = (true, Some Busy) /\ spark_inflight_counts s = [1; 1] /\ queue_depth_per_spark s = 2
  | _ => False
  end.
Proof. vm_compute. split_and!; reflexivity. Qed.

(** ** Buckets *)

Lemma decode_price s r n d s' bucket costs extra ks st s1 : is_prefill r = false -> settings_ok s ->
  admitted s r n d s' bucket costs extra ks st s1 -> bucket_price s (sd_batch_bucket d) = Some (sd_estimated_critical_path_ns d).
Proof.
  intros Hp Hs Ha. destruct (ad_plan _ _ _ _ _ _ _ _ _ _ _ Ha) as (_&_&->). destruct (ad_choice _ _ _ _ _ _ _ _ _ _ _ Ha) as [_ ->].
  pose proof (ad_step _ _ _ _ _ _ _ _ _ _ _ Ha) as Hst. rewrite Hp in Hst. destruct Hst as [-> _]. rewrite (ad_critical _ _ _ _ _ _ _ _ _ _ _ Ha), max_stage_cost_prices.
  cbn [decode_step st_blocks]. f_equal. f_equal. symmetry. apply list_eq. intros i. rewrite list_lookup_fmap.
  destruct (prices costs extra 0 ks !! i) as [p|] eqn:Hi; [|done]. cbn. f_equal.
  pose proof (price_bounds s costs extra ks (ad_costs _ _ _ _ _ _ _ _ _ _ _ Ha) (proj1 (ad_cut _ _ _ _ _ _ _ _ _ _ _ Ha)) i p Hi) as Hb.
  pose proof unreachable_range. rewrite Z.mul_1_r. by rewrite u64_small by lia.
Qed.

(** C12. A decode of more than 16 rows, under measured bucket selection, runs in the bucket
    whose slowest stage is fastest: no supported bucket that holds the rows and that the
    ring can be cut for has a shorter critical path, and among equals the smallest is taken.
    The cut is itself the best one for that bucket, and the decision reports its price. *)
Theorem decode_bucket_cheapest s n r d s' :
  sched_wf s n -> request_words r -> is_decode r = true -> measured_decode_bucket_selection_is_enabled s = true ->
  BUCKET_B16 < rq_active_sequence_count r -> scheduler_admit r s = Ret d s' -> sd_accepted d = true ->
  (batch_bucket_is_supported (sd_batch_bucket d) = true /\ rq_active_sequence_count r <= sd_batch_bucket d) /\
  bucket_price s (sd_batch_bucket d) = Some (sd_estimated_critical_path_ns d) /\
  (forall b p, batch_bucket_is_supported b = true -> rq_active_sequence_count r <= b -> bucket_price s b = Some p ->
     sd_estimated_critical_path_ns d < p \/ (sd_estimated_critical_path_ns d = p /\ sd_batch_bucket d <= b)) /\
  exists costs extra ks, costs_ok s costs extra /\ sd_stage_plan d = plan_of (stage_geometry s) ks /\ best_cut s costs extra ks /\
    sd_estimated_critical_path_ns d = max_stage_cost costs extra 0 ks.
Proof.
  intros Hwf Hw Hdec Hm H16 Hr Ha. pose proof (admit_accepted s n r d s' Hwf Hw Hr Ha) as (Hok&bucket&costs&extra&ks&st&s1&Hadm).
  assert (is_prefill r = false) as Hp by (pose proof (ro_kind _ _ Hok) as Hk; rewrite Hdec in Hk; by destruct (is_prefill r)).
  pose proof (decode_price _ _ _ _ _ _ _ _ _ _ _ Hp (wf_settings _ _ Hwf) Hadm) as Hprice.
  destruct (ad_plan _ _ _ _ _ _ _ _ _ _ _ Hadm) as (Hplan&_&Hb). destruct (ad_choice _ _ _ _ _ _ _ _ _ _ _ Hadm) as [Hch Hbp].
  destruct (ad_bucket _ _ _ _ _ _ _ _ _ _ _ Hadm) as [B1 B2]. rewrite Hb in *. split; [split; [done|lia]|]. split; [done|]. split.
  - intros b p Hsup Hle Hpb. destruct (Hch Hdec Hm H16 b p Hsup Hle Hpb) as (p'&Hp'&Hcase). assert (p' = sd_estimated_critical_path_ns d) as <- by congruence. done.
  - exists costs, extra, ks. split; [apply Hadm|]. split; [done|]. split; [apply Hadm|]. congruence.
Qed.

Lemma decode_bucket_cheapest_witness :
  exists d s', scheduler_admit (decode_request 100) small_ring = Ret d s' /\ sd_batch_bucket d = 128 /\
    forall b p, batch_bucket_is_supported b = true -> 100 <= b -> bucket_price small_ring b = Some p ->
      sd_estimated_critical_path_ns d < p \/ (sd_estimated_critical_path_ns d = p /\ 128 <= b).
Proof.
  assert (match scheduler_admit (decode_request 100) small_ring with
    | Ret d _ => sd_accepted d && (sd_batch_bucket d =? 128) | _ => false end = true) as Hv by (vm_compute; reflexivity).
  destruct (scheduler_admit (decode_request 100) small_ring) as [d s'|e s'| |] eqn:Hr; [|discriminate Hv..].
  apply andb_true_iff in Hv as [H1 H2]. apply Z.eqb_eq in H2.
  assert (request_words (decode_request 100)) as Hw by (unfold request_words, decode_request, NO_PROMPT_LIMIT; cbn; split_and!; lia).
  destruct (decode_bucket_cheapest small_ring 0 (decode_request 100) d s' (sr_wf _ _ small_ready) Hw ltac:(reflexivity) ltac:(reflexivity) ltac:(reflexivity) Hr H1)
    as (_&_&H&_). rewrite H2 in H. exists d, s'. split; [reflexivity|]. split; [exact H2|exact H].
Defined.

(** ** Batches *)

(** C28. A decode batch packs greedily: an accepted batch is the longest prefix of the
    requests whose rows fit the largest bucket, in consecutive rows in request order, and
    occupies the ring once; a refused or malformed batch leaves every in-flight count as it
    was.  One of the two always happens. *)
Theorem decode_batch_packs s n requests :
  sched_wf s n -> Forall request_words requests ->
  match admit_decode_batch requests s with
  | Ret b s' =>
      if bd_accepted b then
        (exists k, longest_fit MAX_BATCH_BUCKET requests k /\ (0 < k)%nat /\ bd_packed_requests b = packs 0 0 (take k requests) /\
           bd_active_sequence_count b = rows (take k requests)) /\
        spark_inflight_counts s' = replicate (Z.to_nat (spark_count s)) (n + 1)
      else spark_inflight_counts s' = spark_inflight_counts s
  | Fails e s' => e = InvalidArgument /\ s' = s
  | _ => False
  end.
Proof.
  intros Hwf Hw. pose proof (admit_decode_batch_spec s n requests Hwf Hw) as Hb. unfold wp in Hb.
  destruct (admit_decode_batch requests s) as [b s'|e s'| |]; [|done..]. destruct Hb as [(k&Hb)|[-> [->|(r&d&_&_&s1&Hr&->)]]].
  - rewrite (db_accepted _ _ _ _ _ _ Hb). destruct (db_fit _ _ _ _ _ _ Hb) as [Hf Hk]. split; [exists k; split_and!; try done; by apply Hb|].
    destruct (db_admitted _ _ _ _ _ _ Hb) as (d&s1&(_&?&?&?&?&?&?&Ha)&(_&_&->&_)&_). exact (ad_carried _ _ _ _ _ _ _ _ _ _ _ Ha).
  - done.
  - cbn. apply (recached_counts _ _ Hr).
Qed.

Lemma decode_batch_packs_witness :
  exists b s', admit_decode_batch [decode_request 600; decode_request 300; decode_request 200] small_ring = Ret b s' /\
    bd_accepted b = true /\ spark_inflight_counts s' = [1; 1].
Proof.
  assert (match admit_decode_batch [decode_request 600; decode_request 300; decode_request 200] small_ring with
    | Ret b _ => bd_accepted b | _ => false end = true) as Hv by (vm_compute; reflexivity).
  assert (Forall request_words [decode_request 600; decode_request 300; decode_request 200]) as Hw.
  { repeat constructor; cbn; unfold NO_PROMPT_LIMIT; lia. }
  pose proof (decode_batch_packs small_ring 0 _ (sr_wf _ _ small_ready) Hw) as H.
  destruct (admit_decode_batch _ small_ring) as [b s'|e s'| |]; [|discriminate Hv..].
  exists b, s'. rewrite Hv in H. split; [reflexivity|]. split; [exact Hv|]. destruct H as [_ H]. exact H.
Defined.



(** Two lanes on a ring whose PREFIX_CACHE flag is off but that was given a cache; the second
    carries no tokens. *)
Definition flagless_ring : Scheduler :=
  fresh_scheduler (mkSchedulerConfig 2 2 MEASURED_PROFILE_20260701 (new_geometry 6 3) 100 50 Nvfp4_4Bit 2 2 64 MAX_BATCH_BUCKET 2
    (Z.lor CONFIGURATION_FLAG_CHUNKED_PREFILL CONFIGURATION_FLAG_PREFILL_DECODE_INTERLEAVE) (Some fresh_cache)).

(** The batch fails at its second lane, and the block reserved for the first stays bound. *)
Lemma flagless_batch_keeps_reservation :
  prompt_cache_is_enabled flagless_ring = false /\
  exists e s' c, admit_prefill_batch [small_prefill; mkRequest 1 1 REQUEST_FLAG_PREFILL 0 0 NO_PROMPT_LIMIT 8 None] flagless_ring = Fails e s' /\
    prefix_cache s' = Some c /\ existsb (fun b => b_valid b && (b_sequence_id b =? 7)) (bindings c) = true.
Proof.
  split; [reflexivity|]. set (rs := [small_prefill; _]).
  assert (match admit_prefill_batch rs flagless_ring with
    | Fails _ s' => match prefix_cache s' with Some c => existsb (fun b => b_valid b && (b_sequence_id b =? 7)) (bindings c) | None => false end
    | _ => false end = true) as Hv by (vm_compute; reflexivity).
  destruct (admit_prefill_batch rs flagless_ring) as [b s'|e s'| |]; [discriminate Hv| |discriminate Hv..].
  destruct (prefix_cache s') as [c|] eqn:Hc; [|discriminate Hv]. by exists e, s', c.
Qed.

(** ** Chunks of a prompt *)




(** ** Estimates *)

(** What a chunk of decode rows is priced at when it is admitted. *)
Definition chunk_price (s : Scheduler) (rows : Z) : option Z :=
  match select_decode_batch_bucket rows s with Ret (bucket, _) _ => bucket_price s bucket | _ => None end.

Lemma estimate_chunk_spec s rows : settings_ok s -> 0 <= rows ->
  wp (estimate_decode_chunk_ns rows) (fun p s' => s' = s /\ chunk_price s rows = Some p /\ 0 < p < UNREACHABLE_COST) (fun _ s' => s' = s) s.
Proof.
  intros Hs Hr. unfold estimate_decode_chunk_ns, chunk_price. wp_step.
  destruct (wp_elim _ _ _ _ (select_decode_spec s Hs rows Hr)) as [([b m]&s'&Hsel&->&Hb&_)|(e&s'&Hsel&->&_)].
  2:{ unfold wp. by rewrite Hsel. }
  unfold wp at 1. rewrite Hsel. cbn [fst snd] in *. wp_step. eapply wp_mono; [by apply wp_track, (plan_and_costs_spec s Hs b), Hb| |by intros e s' [-> _]].
  intros [[plan costs] extra] s' [[-> (ks&->&Hcut&Hc&Hn)] Hpl]. wp_step. apply (critical_path_spec s Hs costs extra ks Hc Hcut).
  pose proof (bucket_price_some s Hs b costs extra ks Hc Hcut Hpl) as Hp. pose proof (bucket_price_range s Hs b _ (proj1 Hb) Hp) as Hrange.
  destruct (Z.eqb_spec (max_stage_cost costs extra 0 ks) 0); wp_steps; [done|]. split_and!; [done|done|lia|lia].
Qed.

(** The chunks of the estimate, their prices and what is left after the first [j]. *)
Record priced_chunks (s : Scheduler) (sequences rows per : Z) (j : nat) (sizes prices : list Z) (total remaining : Z) : Prop := {
  pc_length : length sizes = j;
  pc_sum : sumZ sizes + remaining = sequences;
  pc_remaining : remaining = Z.max 0 (sequences - Z.of_nat j * per);
  pc_sizes : Forall (fun k => 0 < k <= per) sizes;
  pc_prices : Forall2 (fun k p => chunk_price s (k * rows) = Some p) sizes prices;
  pc_total : total = sumZ prices;
}.

Lemma estimate_round_spec s sequences rows per j sizes prices total remaining :
  settings_ok s -> 0 <= sequences <= U32_MAX -> 0 <= rows -> 1 <= per -> per * rows <= MAX_BATCH_BUCKET -> Z.of_nat j * per < sequences ->
  priced_chunks s sequences rows per j sizes prices total remaining ->
  let chunk := Z.min remaining per in
  wp (let! work := estimate_decode_chunk_ns (chunk *u32 rows) in
      if U64_MAX <? total + work then throw CapacityExceeded else ret (total + work, remaining -u32 chunk))
    (fun x s' => s' = s /\ exists sizes' prices', priced_chunks s sequences rows per (S j) sizes' prices' (fst x) (snd x))
    (fun _ s' => s' = s) s.
Proof.
  intros Hs Hseq Hrows Hper Hcap Hj [L1 L2 L3 L4 L5 L6] chunk. assert (0 < chunk <= per) as Hchunk by (unfold chunk; nia).
  change MAX_BATCH_BUCKET with 1024 in Hcap. assert (0 <= chunk * rows <= 1024) as Hrow by nia. wp_step. rewrite u32_small by lia.
  eapply wp_mono; [by apply estimate_chunk_spec; [|lia]| |done]. intros p s' (->&Hp&_).
  destruct (_ <? _); wp_steps; [done|]. split; [done|]. cbn [fst snd]. exists (sizes ++ [chunk]), (prices ++ [p]).
  assert (remaining -u32 chunk = remaining - chunk) as -> by (apply u32_small; unfold chunk in *; nia). split.
  - rewrite length_app. cbn. lia.
  - rewrite sumZ_app, sumZ_cons. change (sumZ []) with 0. lia.
  - unfold chunk in *. nia.
  - apply Forall_app. split; [done|]. by constructor.
  - apply Forall2_app; [done|]. by constructor.
  - rewrite sumZ_app, sumZ_cons, L6. change (sumZ []) with 0. lia.
Qed.

(** The decode estimate prices the work the way it would be admitted: the sequences are
    cut into the fewest chunks that the row capacity allows, every chunk is priced at the
    critical path of the bucket it would be admitted in, and the estimate is the sum of
    these prices.  Estimating never changes the scheduler and never panics. *)
Theorem estimate_decode_work_exact s sequences rows capacity :
  settings_ok s -> 0 <= sequences <= U32_MAX -> 0 <= rows <= U32_MAX -> 0 <= capacity <= U32_MAX ->
  match estimate_decode_work_ns sequences rows capacity s with
  | Ret total s' => s' = s /\ exists sizes prices,
      sumZ sizes = sequences /\ Forall (fun k => 0 < k /\ k * rows <= Z.min capacity MAX_BATCH_BUCKET) sizes /\
      (forall k, 0 <= k < Z.of_nat (length sizes) -> k * (Z.min capacity MAX_BATCH_BUCKET / rows) < sequences) /\
      Forall2 (fun k p => chunk_price s (k * rows) = Some p) sizes prices /\ total = sumZ prices
  | Fails _ s' => s' = s
  | _ => False
  end.
Proof.
  intros Hs Hseq Hrows Hcap. pose proof (chunk_shape_spec sequences rows capacity Hseq Hrows Hcap) as Hshape.
  assert (wp (estimate_decode_work_ns sequences rows capacity) (fun total s' => s' = s /\ exists sizes prices,
      sumZ sizes = sequences /\ Forall (fun k => 0 < k /\ k * rows <= Z.min capacity MAX_BATCH_BUCKET) sizes /\
      (forall k, 0 <= k < Z.of_nat (length sizes) -> k * (Z.min capacity MAX_BATCH_BUCKET / rows) < sequences) /\
      Forall2 (fun k p => chunk_price s (k * rows) = Some p) sizes prices /\ total = sumZ prices) (fun _ s' => s' = s) s) as Hwp; [|exact Hwp].
  unfold estimate_decode_work_ns. wp_step. apply wp_on_plan. unfold wp at 1.
  destruct (execution_chunk_shape sequences rows capacity tt) as [shape []|e []| |]; [|done..].
  set (per := maximum_sequences_per_chunk shape) in *. set (n := chunk_count shape) in *. destruct Hshape as (P1&P2&P3&P4).
  set (cap := Z.min capacity MAX_BATCH_BUCKET) in *. assert (cap <= MAX_BATCH_BUCKET) as Hcb by (unfold cap; lia). wp_step.
  eapply wp_mono; [apply (wp_for_fold (fun pre x s' => s' = s /\ exists sizes prices, priced_chunks s sequences rows per (length pre) sizes prices (fst x) (snd x))
    _ _ _ (fun _ s' => s' = s))| |done].
  - split; [done|]. exists [], []. split; try done; cbn; change (sumZ []) with 0; lia.
  - intros pre i post [total remaining] s' Hsplit [-> (sizes&prices&Hpc)]. apply range_split in Hsplit as [Hpre Hi]. cbn [fst snd] in Hpc.
    assert (Z.of_nat (length pre) = i) as Hlen by (rewrite Hpre, length_range; lia).
    rewrite length_app, Nat.add_1_r. apply (estimate_round_spec s sequences rows per (length pre) sizes prices); try done; [lia|lia|lia|nia].
  - intros [total remaining] s' [-> (sizes&prices&[L1 L2 L3 L4 L5 L6])]. rewrite length_range, Z.sub_0_r in L1, L3. cbn [fst snd] in *.
    assert (remaining = 0) as -> by nia. cbn [Z.eqb negb]. wp_steps. split; [done|]. exists sizes, prices. split; [lia|]. split.
    + eapply Forall_impl; [exact L4|]. cbn. intros k Hk. split; [lia|nia].
    + split; [|done]. intros k Hk. rewrite L1, Z2Nat.id in Hk by nia. destruct (Z.eq_dec rows 0) as [->|]; [rewrite Zdiv_0_r; lia|].
      destruct (Z.eq_dec per sequences) as [He|Hne]; [assert (k = 0) as -> by nia; lia|].
      assert (cap / rows <= per) as Hq by (assert (cap / rows < per + 1); [apply Z.div_lt_upper_bound; lia|lia]). nia.
Qed.

Lemma estimate_decode_work_exact_witness :
  match estimate_decode_work_ns 40 4 64 small_ring with
  | Ret total s' => s' = small_ring /\ exists sizes prices, sumZ sizes = 40 /\ total = sumZ prices
  | _ => False
  end.
Proof.
  assert (match estimate_decode_work_ns 40 4 64 small_ring with Ret _ _ => true | _ => false end = true) as Hv by (vm_compute; reflexivity).
  pose proof (estimate_decode_work_exact small_ring 40 4 64 (wf_settings _ _ (sr_wf _ _ small_ready)) ltac:(lia) ltac:(lia) ltac:(lia)) as H.
  destruct (estimate_decode_work_ns 40 4 64 small_ring) as [total s'|e s'| |]; [|discriminate Hv..].
  destruct H as (Hs&sizes&prices&H1&_&_&_&H2). split; [exact Hs|]. exists sizes, prices. split; [exact H1|exact H2].
Defined.
