(* ===== verification/TokenTables.v ===== *)
(** * The tokenizer: text encodings and tables ([crates/spark-text/src/tokenizer.rs])

    The GPT-2 byte-to-unicode mapping, UTF-8 of single code points, the string table
    (an entry arena with chained power-of-two buckets) and the merge-pair table of the
    byte-level BPE tokenizer.  Texts are lists of bytes.  Lookups are loops over the
    chain of a bucket with as much fuel as the arena has entries. *)

From Stdlib Require Import String.
From S2P Require Import Prelude.

Inductive TokenizerError :=
| InvalidArgument (what : string)
| CapacityExceeded
| NotFound (what : string)
| Io
| Parse (what : string)
| Schema (what : string)
| Duplicate (what : string)
| Internal (what : string).

Definition EMPTY_BUCKET : Z := U32_MAX.

Definition HASH_LOAD_FACTOR : Z := 2.

(** The doubling loop: at most 32 rounds. *)
Fixpoint double_until (fuel : nat) (value power_of_two : Z) : Z :=
  match fuel with
  | O => power_of_two
  | S fuel' =>
      if (power_of_two <? value) && (power_of_two <=? U32_MAX / 2)
      then double_until fuel' value (Z.shiftl power_of_two 1) else power_of_two
  end.

Definition next_power_of_two (value : Z) : Z := double_until 32 value 1.

(** FNV-1a-32 *)
Definition hash_bytes (text : list Z) : Z :=
  foldl (fun hash_value byte => Z.lxor hash_value byte *u32 16777619) 2166136261 text.

Definition hash_token_pair (left_token_id right_token_id : Z) : Z :=
  let hash_value := Z.lxor 2166136261 left_token_id *u32 16777619 in
  Z.lxor hash_value right_token_id *u32 16777619.

(** ** Bytes as code points *)

Definition printable (candidate : Z) : bool :=
  ((33 <=? candidate) && (candidate <=? 126)) || ((161 <=? candidate) && (candidate <=? 172))
  || ((174 <=? candidate) && (candidate <=? 255)).

(** The loop of [byte_to_unicode_code_point]. *)
Fixpoint number_unprintable (byte_value next_code_point : Z) (candidates : list Z) : option Z :=
  match candidates with
  | [] => None
  | candidate :: rest =>
      if printable candidate then number_unprintable byte_value next_code_point rest
      else if candidate =? byte_value then Some next_code_point
      else number_unprintable byte_value (next_code_point +u32 1) rest
  end.

Definition byte_to_unicode_code_point (byte_value : Z) : Z :=
  if printable byte_value then byte_value
  else default byte_value (number_unprintable byte_value 256 (range 0 (byte_value + 1))).

(** The loop of [unicode_code_point_to_byte]. *)
Fixpoint find_unprintable (code_point next_code_point : Z) (candidates : list Z) : option Z :=
  match candidates with
  | [] => None
  | candidate :: rest =>
      if printable candidate then find_unprintable code_point next_code_point rest
      else if code_point =? next_code_point then Some candidate
      else find_unprintable code_point (next_code_point +u32 1) rest
  end.

Definition unicode_code_point_to_byte (code_point : Z) : option Z :=
  if printable code_point then Some code_point else find_unprintable code_point 256 (range 0 256).

(** [text[i]] where the code has checked the bound. *)
Definition byte_at (text : list Z) (i : Z) : Z := default 0 (text !! Z.to_nat i).

(** The code point at a position and the position behind it. *)
Definition read_utf8_code_point (text : list Z) (position : Z) : option (Z * Z) :=
  let len := Z.of_nat (length text) in
  if len <=? position then None else
  let first_byte := byte_at text position in
  let remaining_bytes := len - position in
  let continuation offset := Z.land (byte_at text (position + offset)) 0xc0 =? 0x80 in
  let payload offset := Z.land (byte_at text (position + offset)) 0x3f in
  if first_byte <? 0x80 then Some (first_byte, position + 1)
  else if (Z.land first_byte 0xe0 =? 0xc0) && (2 <=? remaining_bytes) && continuation 1 then
    Some (Z.lor (Z.shiftl (Z.land first_byte 0x1f) 6) (payload 1), position + 2)
  else if (Z.land first_byte 0xf0 =? 0xe0) && (3 <=? remaining_bytes) && continuation 1 && continuation 2 then
    Some (Z.lor (Z.lor (Z.shiftl (Z.land first_byte 0x0f) 12) (Z.shiftl (payload 1) 6)) (payload 2), position + 3)
  else if (Z.land first_byte 0xf8 =? 0xf0) && (4 <=? remaining_bytes) && continuation 1 && continuation 2 && continuation 3 then
    Some (Z.lor (Z.lor (Z.lor (Z.shiftl (Z.land first_byte 0x07) 18) (Z.shiftl (payload 1) 12)) (Z.shiftl (payload 2) 6)) (payload 3),
          position + 4)
  else None.

(** [code_point as u8] keeps the low byte. *)
Definition append_utf8_code_point (destination : list Z) (code_point : Z) : list Z :=
  if code_point <=? 0x7f then destination ++ [code_point]
  else if code_point <=? 0x7ff then
    destination ++ [Z.lor 0xc0 (Z.shiftr code_point 6 mod 256); Z.lor 0x80 (Z.land code_point 0x3f)]
  else
    destination ++ [Z.lor 0xe0 (Z.shiftr code_point 12 mod 256); Z.lor 0x80 (Z.land (Z.shiftr code_point 6) 0x3f);
                    Z.lor 0x80 (Z.land code_point 0x3f)].

(** ** The string table *)

Record StringEntry := mkStringEntry {
  se_text : option (list Z);
  se_value : Z;
  se_next_index : Z;
}.

Record StringTable := mkStringTable {
  st_entries : list StringEntry;
  st_buckets : list Z;
}.

#[export] Instance StringTable_eta : RecordEta StringTable := fun t => mkStringTable (st_entries t) (st_buckets t).

(** [StringTable::with_entry_count] *)
Definition strings_with_entry_count (entry_count : Z) : StringTable :=
  if entry_count =? 0 then mkStringTable [] [] else
  let bucket_count := next_power_of_two (u32 entry_count *u32 HASH_LOAD_FACTOR +u32 1) in
  mkStringTable [] (replicate (Z.to_nat bucket_count) EMPTY_BUCKET).

Definition text_is (text : list Z) (o : option (list Z)) : bool :=
  match o with Some entry_text => bool_decide (entry_text = text) | None => false end.

(** [StringTable::find] *)
Definition find_string {St E} (t : StringTable) (text : list Z) : M St E (option StringEntry) :=
  if Z.of_nat (length (st_buckets t)) =? 0 then ret None else
  let! first := index (st_buckets t) (Z.land (hash_bytes text) (Z.of_nat (length (st_buckets t)) - 1)) in
  loop (S (length (st_entries t))) (fun entry_index =>
    if entry_index =? EMPTY_BUCKET then ret (Break None) else
    let! entry := index (st_entries t) entry_index in
    if text_is text (se_text entry) then ret (Break (Some entry)) else ret (Continue (se_next_index entry))) first.

(** [StringTable::insert] *)
Definition insert_string (text : list Z) (value : Z) : M StringTable TokenizerError unit :=
  let! t := gets id in
  if Z.of_nat (length (st_buckets t)) =? 0 then throw (InvalidArgument "string table not allocated") else
  let! found := find_string t text in
  match found with
  | Some _ => throw (Duplicate "string table entry")
  | None =>
      let bucket_index := Z.land (hash_bytes text) (Z.of_nat (length (st_buckets t)) - 1) in
      let entry_index := u32 (Z.of_nat (length (st_entries t))) in
      let! head := index (st_buckets t) bucket_index in
      modify (fun t => t <| st_entries := st_entries t ++ [mkStringEntry (Some text) value head] |>
                         <| st_buckets := upd_nth bucket_index (fun _ => entry_index) (st_buckets t) |>)
  end.

Definition push_empty_slot {E} : M StringTable E unit :=
  modify (fun t => t <| st_entries := st_entries t ++ [mkStringEntry None 0 EMPTY_BUCKET] |>).

(** ** The merge-pair table *)

Record FastMergePair := mkMergePair {
  mp_left_token_id : Z;
  mp_right_token_id : Z;
  mp_merged_token_id : Z;
  mp_rank : Z;
}.

Record MergePairTable := mkMergePairTable {
  mt_pairs : list FastMergePair;
  mt_next_indices : list Z;
  mt_buckets : list Z;
}.

#[export] Instance MergePairTable_eta : RecordEta MergePairTable := fun t =>
  mkMergePairTable (mt_pairs t) (mt_next_indices t) (mt_buckets t).

(** [MergePairTable::with_entry_count] *)
Definition pairs_with_entry_count (entry_count : Z) : MergePairTable :=
  if entry_count =? 0 then mkMergePairTable [] [] [] else
  let bucket_count := next_power_of_two (u32 entry_count *u32 HASH_LOAD_FACTOR +u32 1) in
  mkMergePairTable [] [] (replicate (Z.to_nat bucket_count) EMPTY_BUCKET).

(** [MergePairTable::find] *)
Definition find_pair {St E} (t : MergePairTable) (left_token_id right_token_id : Z) : M St E (option FastMergePair) :=
  if Z.of_nat (length (mt_buckets t)) =? 0 then ret None else
  let! first := index (mt_buckets t) (Z.land (hash_token_pair left_token_id right_token_id) (Z.of_nat (length (mt_buckets t)) - 1)) in
  loop (S (length (mt_pairs t))) (fun entry_index =>
    if entry_index =? EMPTY_BUCKET then ret (Break None) else
    let! entry := index (mt_pairs t) entry_index in
    if (mp_left_token_id entry =? left_token_id) && (mp_right_token_id entry =? right_token_id)
    then ret (Break (Some entry))
    else let! next := index (mt_next_indices t) entry_index in ret (Continue next)) first.

(** [MergePairTable::insert] *)
Definition insert_pair (pair : FastMergePair) : M MergePairTable TokenizerError unit :=
  let! t := gets id in
  if Z.of_nat (length (mt_buckets t)) =? 0 then throw (InvalidArgument "merge pair table not allocated") else
  let! found := find_pair t (mp_left_token_id pair) (mp_right_token_id pair) in
  match found with
  | Some _ => throw (Duplicate "merge pair")
  | None =>
      let bucket_index := Z.land (hash_token_pair (mp_left_token_id pair) (mp_right_token_id pair)) (Z.of_nat (length (mt_buckets t)) - 1) in
      let entry_index := u32 (Z.of_nat (length (mt_pairs t))) in
      let! head := index (mt_buckets t) bucket_index in
      modify (fun t => t <| mt_pairs := mt_pairs t ++ [pair] |> <| mt_next_indices := mt_next_indices t ++ [head] |>
                         <| mt_buckets := upd_nth bucket_index (fun _ => entry_index) (mt_buckets t) |>)
  end.
