(* ===== verification/TokenTablesProps.v ===== *)
(** * The tokenizer's text encodings and tables: theorems ([crates/spark-text/src/tokenizer.rs])

    The byte-to-unicode mapping and its UTF-8 text invert each other on every byte.
    A chained table that only its own operations built answers a lookup with the
    entry of the key wherever its arena holds one: the bucket chains run through
    strictly decreasing arena indices, every entry is on the chain of its bucket,
    and a key occurs once.  The two tables share these facts through [chained]. *)

From Stdlib Require Import String.
From S2P Require Import Prelude Bytes TokenTables.

(** ** Bytes as text *)

(** The UTF-8 text that stands for a byte in the vocabulary. *)
Definition byte_text (b : Z) : list Z := append_utf8_code_point [] (byte_to_unicode_code_point b).

(** One byte below [0x80], or a two-byte sequence; its code point maps back. *)
Definition byte_text_reads_back (b : Z) : bool :=
  match byte_text b with
  | [c] => (c <? 0x80) && bool_decide (unicode_code_point_to_byte c = Some b)
  | [c; d] => negb (c <? 0x80) && (Z.land c 0xe0 =? 0xc0) && (Z.land d 0xc0 =? 0x80) &&
              bool_decide (unicode_code_point_to_byte (Z.lor (Z.shiftl (Z.land c 0x1f) 6) (Z.land d 0x3f)) = Some b)
  | _ => false
  end.

Lemma byte_text_ok b : byte b -> byte_text_reads_back b = true.
Proof.
  assert (forallb byte_text_reads_back (range 0 256) = true) as H by (vm_compute; reflexivity).
  rewrite forallb_forall in H. intros Hb. apply H, list_elem_of_In, elem_of_range. unfold byte in Hb. lia.
Qed.

Lemma byte_at_app (pre text : list Z) i :
  Z.of_nat (length pre) <= i -> byte_at (pre ++ text) i = byte_at text (i - Z.of_nat (length pre)).
Proof. intros ?. unfold byte_at. rewrite lookup_app_r; [|lia]. do 2 f_equal. lia. Qed.

(** The text of a byte reads back as the byte, wherever it stands. *)
Lemma read_byte_text pre b post :
  byte b ->
  exists code_point,
    read_utf8_code_point (pre ++ byte_text b ++ post) (Z.of_nat (length pre))
      = Some (code_point, Z.of_nat (length pre) + Z.of_nat (length (byte_text b))) /\
    unicode_code_point_to_byte code_point = Some b.
Proof.
  intros Hb. pose proof (byte_text_ok b Hb) as H. unfold byte_text_reads_back in H.
  unfold read_utf8_code_point.
  rewrite !length_app, !Nat2Z.inj_add, !(byte_at_app pre) by lia.
  destruct (byte_text b) as [|c [|d [|? ?]]]; try done; cbn [length].
  - apply andb_prop in H as [Hc H]. apply bool_decide_eq_true in H. exists c. split; [|done].
    case_bool_decide || destruct (Z.leb_spec (Z.of_nat (length pre) + (Z.of_nat 1 + Z.of_nat (length post))) (Z.of_nat (length pre))); [lia|].
    rewrite Z.sub_diag. change (byte_at ([c] ++ post) 0) with c. rewrite Hc. done.
  - rewrite !andb_true_iff in H. destruct H as [[[Hc Hc'] Hd] H]. apply bool_decide_eq_true in H.
    eexists. split; [|done].
    destruct (Z.leb_spec (Z.of_nat (length pre) + (Z.of_nat 2 + Z.of_nat (length post))) (Z.of_nat (length pre))); [lia|].
    replace (Z.of_nat (length pre) + 1 - Z.of_nat (length pre)) with 1 by lia. rewrite Z.sub_diag.
    change (byte_at ([c; d] ++ post) 0) with c. change (byte_at ([c; d] ++ post) 1) with d.
    apply negb_true_iff in Hc. rewrite Hc, Hc', Hd.
    destruct (Z.leb_spec 2 (Z.of_nat (length pre) + (Z.of_nat 2 + Z.of_nat (length post)) - Z.of_nat (length pre))); [done|lia].
Qed.

(** ** Chained tables *)

Inductive in_chain (nexts : list Z) : Z -> nat -> Prop :=
| in_chain_here i : in_chain nexts (Z.of_nat i) i
| in_chain_next h n i : nexts !! h = Some n -> in_chain nexts n i -> in_chain nexts (Z.of_nat h) i.

(** The bucket of a hash. *)
Definition slot_of (buckets : list Z) (hash : Z) : nat := Z.to_nat (Z.land hash (Z.of_nat (length buckets) - 1)).

Definition power_of_two_length (buckets : list Z) : Prop := exists k, 0 <= k /\ Z.of_nat (length buckets) = 2 ^ k.

Section chains.
Context {K : Type}.
Implicit Types (keys : list (option K)) (hash : K -> Z).

Record chained hash keys nexts buckets : Prop := {
  ch_length : length nexts = length keys;
  ch_small : Z.of_nat (length keys) <= EMPTY_BUCKET;
  ch_buckets : power_of_two_length buckets;
  ch_head : forall b h, buckets !! b = Some h -> h = EMPTY_BUCKET \/ 0 <= h < Z.of_nat (length keys);
  ch_next : forall i n, nexts !! i = Some n -> n = EMPTY_BUCKET \/ 0 <= n < Z.of_nat i;
  ch_home : forall i key h, keys !! i = Some (Some key) -> buckets !! slot_of buckets (hash key) = Some h -> in_chain nexts h i;
  ch_unique : forall i j key, keys !! i = Some (Some key) -> keys !! j = Some (Some key) -> i = j;
}.

Lemma bucket_in_range buckets h : power_of_two_length buckets -> is_Some (buckets !! slot_of buckets h).
Proof.
  intros (k & Hk & Hlen). apply lookup_lt_is_Some_2. unfold slot_of. rewrite Hlen.
  pose proof (Z.ones_equiv k) as Hones. rewrite Z.sub_1_r, <- Hones, Z.land_ones by lia.
  pose proof (Z.mod_pos_bound h (2 ^ k) ltac:(lia)). lia.
Qed.

(** A chain walk ends with the entry of the key, or with none when there is none. *)
Lemma chain_walk {St E R} hash keys nexts buckets (test : option K -> bool) (res : nat -> R)
    (body : Z -> M St E (flow Z (option R))) fuel h s :
  chained hash keys nexts buckets ->
  body EMPTY_BUCKET s = Ret (Break None) s ->
  (forall i k n, keys !! i = Some k -> nexts !! i = Some n ->
     body (Z.of_nat i) s = Ret (if test k then Break (Some (res i)) else Continue n) s) ->
  h = EMPTY_BUCKET \/ 0 <= h < Z.of_nat (length keys) ->
  (h <> EMPTY_BUCKET -> (S (Z.to_nat h) < fuel)%nat) -> (0 < fuel)%nat ->
  exists r, loop fuel body h s = Ret r s /\
    match r with
    | Some x => exists i k, x = res i /\ keys !! i = Some k /\ test k = true
    | None => forall i k, in_chain nexts h i -> keys !! i = Some k -> test k = false
    end.
Proof.
  intros Hc Hend Hbody. revert h. induction fuel as [|fuel IH]; intros h Hh Hf Hf0; [lia|].
  cbn [loop]. unfold bind.
  destruct (decide (h = EMPTY_BUCKET)) as [->|Hne].
  - rewrite Hend. exists None. split; [done|]. intros i k Hi Hk.
    pose proof (ch_small _ _ _ _ Hc). apply lookup_lt_Some in Hk as Hlt.
    inversion Hi as [j Hj|h' n' j Hn' _ Hj]; subst; [lia|].
    pose proof (ch_length _ _ _ _ Hc). apply lookup_lt_Some in Hn'. lia.
  - destruct Hh as [?|Hh]; [done|].
    destruct (lookup_lt_is_Some_2 keys (Z.to_nat h)) as [k Hk]; [lia|].
    destruct (lookup_lt_is_Some_2 nexts (Z.to_nat h)) as [n Hn]; [rewrite (ch_length _ _ _ _ Hc); lia|].
    rewrite <- (Z2Nat.id h) by lia. rewrite (Hbody _ k n Hk Hn).
    destruct (test k) eqn:Ht; [by exists (Some (res (Z.to_nat h))); eauto 10|].
    pose proof (ch_next _ _ _ _ Hc _ _ Hn) as Hn'. specialize (Hf Hne).
    destruct (IH n) as (r & Hr & Hpost); [destruct Hn'; [by left|right; lia]|intros ?; destruct Hn'; [done|lia]|lia|].
    exists r. split; [done|]. destruct r; [done|]. intros i k' Hi Hk'.
    inversion Hi as [j Hj|h' n' j Hn'' Hin Hj]; subst.
    + replace (Z.to_nat h) with i in * by lia. congruence.
    + replace h' with (Z.to_nat h) in * by lia. simplify_eq. by eapply Hpost.
Qed.

Lemma in_chain_snoc nexts x h i : in_chain nexts h i -> in_chain (nexts ++ [x]) h i.
Proof. induction 1; [constructor|]. econstructor; [by apply lookup_app_l_Some|done]. Qed.

(** Pushing an entry in front of its bucket's chain. *)
Lemma chained_insert hash keys nexts buckets key head :
  chained hash keys nexts buckets ->
  Z.of_nat (length keys) < EMPTY_BUCKET ->
  (forall i, keys !! i <> Some (Some key)) ->
  buckets !! slot_of buckets (hash key) = Some head ->
  chained hash (keys ++ [Some key]) (nexts ++ [head])
    (<[slot_of buckets (hash key) := Z.of_nat (length keys)]> buckets).
Proof.
  intros [Hl Hs Hp Hh Hn Hhome Hu] Hroom Hfresh Hhead.
  assert (forall hk, slot_of (<[slot_of buckets (hash key) := Z.of_nat (length keys)]> buckets) hk = slot_of buckets hk) as Hslot
    by (intros; unfold slot_of; by rewrite length_insert).
  split; rewrite ?length_app, ?length_insert; cbn [length].
  - lia.
  - lia.
  - destruct Hp as (k & ? & ?). exists k. by rewrite length_insert.
  - intros b h. rewrite list_lookup_insert_Some. intros [(_ & <- & _)|(_ & Hb)]; [right; lia|].
    destruct (Hh _ _ Hb); [by left|right; lia].
  - intros i n. rewrite lookup_app_Some. intros [Hi|(Hi & Hx)]; [by apply Hn|].
    apply list_lookup_singleton_Some in Hx as [Hx <-].
    destruct (Hh _ _ Hhead); [by left|right; lia].
  - intros i key' h Hi. rewrite Hslot. intros Hb.
    apply lookup_app_Some in Hi as [Hi|(Hi & Hx)].
    + apply list_lookup_insert_Some in Hb as [(Heq & <- & _)|(_ & Hb)]; [|by apply in_chain_snoc; eapply Hhome].
      apply (in_chain_next _ _ head); [rewrite <- Hl; apply list_lookup_middle; done|].
      apply in_chain_snoc. eapply Hhome; [done|by rewrite <- Heq].
    + apply list_lookup_singleton_Some in Hx as [Hx ?]. simplify_eq.
      rewrite list_lookup_insert_eq in Hb by (by eapply lookup_lt_Some). simplify_eq.
      replace i with (length keys) by lia. constructor.
  - intros i j key' Hi Hj.
    apply lookup_app_Some in Hi as [Hi|(Hi & Hx)]; apply lookup_app_Some in Hj as [Hj|(Hj & Hy)].
    + by eapply Hu.
    + apply list_lookup_singleton_Some in Hy as [? ?]. simplify_eq. by destruct (Hfresh i).
    + apply list_lookup_singleton_Some in Hx as [? ?]. simplify_eq. by destruct (Hfresh j).
    + apply list_lookup_singleton_Some in Hx as [? ?]. apply list_lookup_singleton_Some in Hy as [? ?]. lia.
Qed.

(** A slot no bucket links to. *)
Lemma chained_skip hash keys nexts buckets :
  chained hash keys nexts buckets ->
  Z.of_nat (length keys) < EMPTY_BUCKET ->
  chained hash (keys ++ [None]) (nexts ++ [EMPTY_BUCKET]) buckets.
Proof.
  intros [Hl Hs Hp Hh Hn Hhome Hu] Hroom.
  split; rewrite ?length_app; cbn [length]; [lia|lia|done| | | |].
  - intros b h Hb. destruct (Hh _ _ Hb); [by left|right; lia].
  - intros i n. rewrite lookup_app_Some. intros [Hi|(Hi & Hx)]; [by apply Hn|].
    apply list_lookup_singleton_Some in Hx as [Hx <-]. by left.
  - intros i key h Hi Hb. apply in_chain_snoc.
    apply lookup_app_Some in Hi as [Hi|(Hi & Hx)]; [by eapply Hhome|].
    by apply list_lookup_singleton_Some in Hx as [_ ?].
  - intros i j key Hi Hj.
    apply lookup_app_Some in Hi as [Hi|(Hi & Hx)]; [|by apply list_lookup_singleton_Some in Hx as [_ ?]].
    apply lookup_app_Some in Hj as [Hj|(Hj & Hy)]; [|by apply list_lookup_singleton_Some in Hy as [_ ?]].
    by eapply Hu.
Qed.

Lemma chained_empty hash n :
  power_of_two_length (replicate n EMPTY_BUCKET) -> chained hash [] [] (replicate n EMPTY_BUCKET).
Proof.
  intros Hp. split; try done.
  intros b h Hb. apply lookup_replicate in Hb as [-> _]. by left.
Qed.

End chains.

Lemma double_until_power fuel value k :
  0 <= k -> exists k', 0 <= k' /\ double_until fuel value (2 ^ k) = 2 ^ k'.
Proof.
  revert k. induction fuel as [|fuel IH]; intros k Hk; cbn [double_until]; [by exists k|].
  destruct ((2 ^ k <? value) && _); [|by exists k].
  rewrite Z.shiftl_mul_pow2, <- Z.pow_add_r by lia. apply IH. lia.
Qed.

Lemma next_power_of_two_length value :
  power_of_two_length (replicate (Z.to_nat (next_power_of_two value)) EMPTY_BUCKET).
Proof.
  destruct (double_until_power 32 value 0 ltac:(lia)) as (k & Hk & Heq).
  exists k. split; [done|]. unfold next_power_of_two. change 1 with (2 ^ 0). rewrite Heq, length_replicate. lia.
Qed.

Lemma power_of_two_nonempty buckets : power_of_two_length buckets -> (Z.of_nat (length buckets) =? 0) = false.
Proof. intros (k & Hk & Hlen). apply Z.eqb_neq. pose proof (Z.pow_pos_nonneg 2 k). lia. Qed.

(** [upd_nth] with a constant is an insertion. *)
Lemma upd_nth_const {A} i (x : A) l : upd_nth i (fun _ => x) l = <[Z.to_nat i := x]> l.
Proof.
  apply list_eq. intros j.
  destruct (decide (Z.to_nat i = j)) as [<-|Hne].
  - destruct (l !! Z.to_nat i) as [y|] eqn:H.
    + rewrite (lookup_upd_nth_eq _ _ _ _ H), list_lookup_insert_eq; [done|by eapply lookup_lt_Some].
    + rewrite list_insert_ge by (by apply lookup_ge_None). rewrite H. apply lookup_ge_None. rewrite length_upd_nth. by apply lookup_ge_None.
  - rewrite list_lookup_insert_ne by done. unfold upd_nth. by rewrite list_lookup_alter_ne.
Qed.

(** The key at the end of a walk is the only one of its kind. *)
Lemma find_unique {A} (p : A -> bool) l i x :
  l !! i = Some x -> p x = true -> (forall j y, l !! j = Some y -> p y = true -> j = i) -> List.find p l = Some x.
Proof.
  revert i. induction l as [|y l IH]; intros i Hi Hp Hu; [done|]. cbn.
  destruct (p y) eqn:Hy.
  - pose proof (Hu 0%nat y eq_refl Hy) as <-. cbn in Hi. congruence.
  - destruct i as [|i]; [cbn in Hi; congruence|]. apply (IH i); [done|done|].
    intros j z Hj Hz. pose proof (Hu (S j) z Hj Hz). lia.
Qed.

Lemma find_nothing {A} (p : A -> bool) l :
  (forall i x, l !! i = Some x -> p x = false) -> List.find p l = None.
Proof.
  induction l as [|y l IH]; intros H; [done|]. cbn. rewrite (H 0%nat y eq_refl). apply IH.
  intros i x Hi. by apply (H (S i)).
Qed.

Lemma find_snoc {A} (p : A -> bool) l x :
  List.find p (l ++ [x]) = match List.find p l with Some y => Some y | None => if p x then Some x else None end.
Proof. induction l as [|y l IH]; cbn; [done|]. by destruct (p y). Qed.

(** ** The string table *)

Definition wf_strings (t : StringTable) : Prop :=
  (st_buckets t = [] /\ st_entries t = []) \/
  chained hash_bytes (se_text <$> st_entries t) (se_next_index <$> st_entries t) (st_buckets t).

(** The entry of a text in the arena. *)
Definition string_entry (t : StringTable) (text : list Z) : option StringEntry :=
  List.find (fun e => text_is text (se_text e)) (st_entries t).

Lemma text_is_true text o : text_is text o = true <-> o = Some text.
Proof. destruct o; cbn; rewrite ?bool_decide_eq_true; naive_solver. Qed.

Lemma text_is_false text o : text_is text o = false <-> o <> Some text.
Proof. rewrite <- not_true_iff_false, text_is_true. done. Qed.

(** The pure answer of a lookup: the arena entry with the text. *)
Lemma find_string_spec {St E} t text (s : St) : wf_strings t -> find_string (E := E) t text s = Ret (string_entry t text) s.
Proof.
  unfold find_string. intros [[Hb He]|Hc]; [by unfold string_entry; rewrite Hb, He|].
  rewrite (power_of_two_nonempty _ (ch_buckets _ _ _ _ Hc)).
  destruct (bucket_in_range _ (hash_bytes text) (ch_buckets _ _ _ _ Hc)) as [h Hh].
  unfold bind at 1, index at 1. fold (slot_of (st_buckets t) (hash_bytes text)). rewrite Hh. cbn [ret].
  match goal with |- loop _ ?body _ _ = _ =>
    destruct (chain_walk hash_bytes _ _ _ (text_is text) (fun i => default (mkStringEntry None 0 0) (st_entries t !! i))
      body (S (length (st_entries t))) h s Hc) as (r & Hr & Hpost) end.
  - done.
  - cbv beta. intros i k n Hi Hn.
    apply list_lookup_fmap_Some in Hi as (e & Hk & Hi). apply list_lookup_fmap_Some in Hn as (e' & Hn & Hi').
    simplify_eq.
    destruct (Z.eqb_spec (Z.of_nat i) EMPTY_BUCKET).
    { apply lookup_lt_Some in Hi. pose proof (ch_small _ _ _ _ Hc). rewrite length_fmap in *. lia. }
    unfold bind, index. rewrite Nat2Z.id, Hi. cbn. by destruct (text_is text (se_text e)).
  - by eapply ch_head.
  - intros Hne. apply (ch_head _ _ _ _ Hc) in Hh as [?|Hh]; [done|]. rewrite length_fmap in Hh. lia.
  - lia.
  - rewrite Hr. f_equal. unfold string_entry. destruct r as [e|]; symmetry.
    + destruct Hpost as (i & k & -> & Hi & Ht).
      apply list_lookup_fmap_Some in Hi as (e & Hk & Hi). subst k. rewrite Hi.
      apply (find_unique _ _ i); [done..|]. intros j e' Hj Ht'.
      apply text_is_true in Ht, Ht'. apply (ch_unique _ _ _ _ Hc j i text); rewrite list_lookup_fmap, ?Hi, ?Hj; cbn; congruence.
    + apply find_nothing. intros i e Hi. destruct (text_is text (se_text e)) eqn:Ht; [exfalso|done].
      enough (text_is text (se_text e) = false) by congruence.
      apply (Hpost i); [|by rewrite list_lookup_fmap, Hi].
      apply text_is_true in Ht. apply (ch_home _ _ _ _ Hc i text); [by rewrite list_lookup_fmap, Hi, <- Ht|done].
Qed.

Lemma string_entry_Some t text e : string_entry t text = Some e -> e ∈ st_entries t /\ se_text e = Some text.
Proof.
  intros H. apply find_some in H as [Hin Ht]. apply text_is_true in Ht. split; [by apply list_elem_of_In|done].
Qed.

Lemma string_entry_None t text i e : string_entry t text = None -> st_entries t !! i = Some e -> se_text e <> Some text.
Proof.
  intros H Hi. apply text_is_false. apply (find_none _ _ H).
  apply list_elem_of_In. by eapply list_elem_of_lookup_2.
Qed.

Lemma insert_string_spec text value t :
  wf_strings t -> Z.of_nat (length (st_entries t)) < EMPTY_BUCKET ->
  wp (insert_string text value)
    (fun _ t' => wf_strings t' /\ string_entry t text = None /\
                 exists head, length (st_buckets t') = length (st_buckets t) /\ st_entries t' = st_entries t ++ [mkStringEntry (Some text) value head])
    (fun e t' => t' = t /\ ((st_buckets t = [] /\ e = InvalidArgument "string table not allocated") \/
                            (is_Some (string_entry t text) /\ e = Duplicate "string table entry"))) t.
Proof.
  intros Hwf Hroom. unfold insert_string. wp_steps.
  change (id t) with t. destruct (Z.eqb_spec (Z.of_nat (length (st_buckets t))) 0) as [H0|H0].
  { wp_steps. split; [done|]. left. split; [|done]. destruct (st_buckets t); [done|cbn in H0; lia]. }
  destruct Hwf as [[Hb _]|Hc]; [by rewrite Hb in H0|].
  wp_steps. unfold wp. rewrite find_string_spec by (by right).
  destruct (string_entry t text) as [e|] eqn:Hfind; [cbn; split; [done|right; eauto]|].
  destruct (bucket_in_range _ (hash_bytes text) (ch_buckets _ _ _ _ Hc)) as [head Hh].
  unfold bind, index. fold (slot_of (st_buckets t) (hash_bytes text)). rewrite Hh. cbn.
  rewrite upd_nth_const. fold (slot_of (st_buckets t) (hash_bytes text)).
  split_and!; [|done|exists head; by rewrite length_insert].
  right. cbn. rewrite !fmap_app, u32_small by (unfold EMPTY_BUCKET in Hroom; lia). cbn.
  rewrite <- (length_fmap se_text).
  apply chained_insert; [done|by rewrite length_fmap| |done].
  intros i Hi. apply list_lookup_fmap_Some in Hi as (e & He & Hi). by eapply (string_entry_None t text i e).
Qed.

Lemma wf_strings_new entry_count : wf_strings (strings_with_entry_count entry_count).
Proof.
  unfold strings_with_entry_count. destruct (entry_count =? 0); [by left|].
  right. apply chained_empty, next_power_of_two_length.
Qed.

Lemma push_empty_slot_spec {E} t :
  wf_strings t -> st_buckets t <> [] -> Z.of_nat (length (st_entries t)) < EMPTY_BUCKET ->
  wp (push_empty_slot (E := E))
    (fun _ t' => wf_strings t' /\ st_buckets t' = st_buckets t /\ st_entries t' = st_entries t ++ [mkStringEntry None 0 EMPTY_BUCKET])
    (fun _ _ => False) t.
Proof.
  intros [[? _]|Hc] Hb Hroom; [done|]. unfold push_empty_slot. wp_steps. split; [|done].
  right. cbn. rewrite !fmap_app. apply chained_skip; [done|by rewrite length_fmap].
Qed.

(** ** The merge-pair table *)

Definition pair_key (p : FastMergePair) : Z * Z := (mp_left_token_id p, mp_right_token_id p).

Definition wf_pairs (t : MergePairTable) : Prop :=
  (mt_buckets t = [] /\ mt_pairs t = []) \/
  chained (fun k => hash_token_pair (fst k) (snd k)) (Some ∘ pair_key <$> mt_pairs t) (mt_next_indices t) (mt_buckets t).

(** The pair of two tokens in the arena. *)
Definition pair_is (left_token_id right_token_id : Z) (p : FastMergePair) : bool :=
  (mp_left_token_id p =? left_token_id) && (mp_right_token_id p =? right_token_id).

Definition pair_entry (t : MergePairTable) (left_token_id right_token_id : Z) : option FastMergePair :=
  List.find (pair_is left_token_id right_token_id) (mt_pairs t).

Lemma pair_is_true l r p : pair_is l r p = true <-> pair_key p = (l, r).
Proof. unfold pair_is, pair_key. rewrite andb_true_iff, !Z.eqb_eq. split; [by intros [-> ->]|by intros [= -> ->]]. Qed.

Lemma find_pair_spec {St E} t l r (s : St) : wf_pairs t -> find_pair (E := E) t l r s = Ret (pair_entry t l r) s.
Proof.
  unfold find_pair. intros [[Hb He]|Hc]; [by unfold pair_entry; rewrite Hb, He|].
  rewrite (power_of_two_nonempty _ (ch_buckets _ _ _ _ Hc)).
  destruct (bucket_in_range _ (hash_token_pair l r) (ch_buckets _ _ _ _ Hc)) as [h Hh].
  unfold bind at 1, index at 1. fold (slot_of (mt_buckets t) (hash_token_pair l r)). rewrite Hh. cbn [ret].
  match goal with |- loop _ ?body _ _ = _ =>
    destruct (chain_walk (fun k => hash_token_pair (fst k) (snd k)) _ _ _ (fun k => bool_decide (k = Some (l, r)))
      (fun i => default (mkMergePair 0 0 0 0) (mt_pairs t !! i))
      body (S (length (mt_pairs t))) h s Hc) as (res & Hr & Hpost) end.
  - done.
  - cbv beta. intros i k n Hi Hn.
    apply list_lookup_fmap_Some in Hi as (p & -> & Hi).
    destruct (Z.eqb_spec (Z.of_nat i) EMPTY_BUCKET).
    { apply lookup_lt_Some in Hi. pose proof (ch_small _ _ _ _ Hc). rewrite length_fmap in *. lia. }
    unfold bind, index. rewrite Nat2Z.id, Hi. cbn. fold (pair_is l r p). rewrite Hn.
    destruct (pair_is l r p) eqn:Hp.
    + apply pair_is_true in Hp. by rewrite bool_decide_eq_true_2 by congruence.
    + rewrite bool_decide_eq_false_2; [done|]. intros Heq. apply (inj Some), pair_is_true in Heq. congruence.
  - by eapply ch_head.
  - intros Hne. apply (ch_head _ _ _ _ Hc) in Hh as [?|Hh]; [done|]. rewrite length_fmap in Hh. lia.
  - lia.
  - rewrite Hr. f_equal. unfold pair_entry. destruct res as [p|]; symmetry.
    + destruct Hpost as (i & k & -> & Hi & Ht). apply bool_decide_eq_true in Ht as ->.
      pose proof Hi as Hkey. apply list_lookup_fmap_Some in Hi as (p & Hk & Hi). apply (inj Some) in Hk. rewrite Hi.
      apply (find_unique _ _ i); [done|by apply pair_is_true|]. intros j p' Hj Ht'.
      apply pair_is_true in Ht'. apply (ch_unique _ _ _ _ Hc j i (l, r)); [|done].
      rewrite list_lookup_fmap, Hj. cbn. congruence.
    + apply find_nothing. intros i p Hi. destruct (pair_is l r p) eqn:Ht; [exfalso|done].
      apply pair_is_true in Ht.
      assert ((Some ∘ pair_key <$> mt_pairs t) !! i = Some (Some (l, r))) as Hi'
        by (rewrite list_lookup_fmap, Hi; cbn; congruence).
      enough (bool_decide (Some (l, r) = Some (l, r)) = false) by (by rewrite bool_decide_eq_true_2 in *).
      apply (Hpost i); [|done]. by apply (ch_home _ _ _ _ Hc i (l, r)).
Qed.

Lemma pair_entry_Some t l r p : pair_entry t l r = Some p -> p ∈ mt_pairs t /\ pair_key p = (l, r).
Proof.
  intros H. apply find_some in H as [Hin Ht]. apply pair_is_true in Ht. split; [by apply list_elem_of_In|done].
Qed.

Lemma insert_pair_spec pair t :
  wf_pairs t -> Z.of_nat (length (mt_pairs t)) < EMPTY_BUCKET ->
  wp (insert_pair pair)
    (fun _ t' => wf_pairs t' /\ pair_entry t (mp_left_token_id pair) (mp_right_token_id pair) = None /\
                 length (mt_buckets t') = length (mt_buckets t) /\ mt_pairs t' = mt_pairs t ++ [pair])
    (fun e t' => t' = t /\ ((mt_buckets t = [] /\ e = InvalidArgument "merge pair table not allocated") \/
                            (is_Some (pair_entry t (mp_left_token_id pair) (mp_right_token_id pair)) /\ e = Duplicate "merge pair"))) t.
Proof.
  intros Hwf Hroom. unfold insert_pair. wp_steps.
  change (id t) with t. destruct (Z.eqb_spec (Z.of_nat (length (mt_buckets t))) 0) as [H0|H0].
  { wp_steps. split; [done|]. left. split; [|done]. destruct (mt_buckets t); [done|cbn in H0; lia]. }
  destruct Hwf as [[Hb _]|Hc]; [by rewrite Hb in H0|].
  wp_steps. unfold wp. rewrite find_pair_spec by (by right).
  destruct (pair_entry t _ _) as [p|] eqn:Hfind; [cbn; split; [done|right; eauto]|].
  set (h := hash_token_pair (mp_left_token_id pair) (mp_right_token_id pair)).
  destruct (bucket_in_range _ h (ch_buckets _ _ _ _ Hc)) as [head Hh].
  unfold bind, index. fold (slot_of (mt_buckets t) h). rewrite Hh. cbn.
  rewrite upd_nth_const. fold (slot_of (mt_buckets t) h).
  split_and!; [|done|by rewrite length_insert|done].
  right. cbn. rewrite !fmap_app, u32_small by (unfold EMPTY_BUCKET in Hroom; lia). cbn.
  rewrite <- (length_fmap (Some ∘ pair_key)).
  apply (chained_insert (fun k => hash_token_pair (fst k) (snd k)) _ _ _ (pair_key pair));
    [done|by rewrite length_fmap| |done].
  intros i Hi. apply list_lookup_fmap_Some in Hi as (p & He & Hi). apply (inj Some) in He.
  assert (pair_is (mp_left_token_id pair) (mp_right_token_id pair) p = true) as Ht by (by apply pair_is_true).
  enough (pair_is (mp_left_token_id pair) (mp_right_token_id pair) p = false) by congruence.
  apply (find_none _ _ Hfind). apply list_elem_of_In. by eapply list_elem_of_lookup_2.
Qed.

Lemma wf_pairs_new entry_count : wf_pairs (pairs_with_entry_count entry_count).
Proof.
  unfold pairs_with_entry_count. destruct (entry_count =? 0); [by left|].
  right. apply chained_empty, next_power_of_two_length.
Qed.

(** Only an empty table has no buckets. *)
Lemma strings_buckets entry_count : st_buckets (strings_with_entry_count entry_count) = [] -> entry_count = 0.
Proof.
  unfold strings_with_entry_count. destruct (Z.eqb_spec entry_count 0); [done|]. cbv zeta. cbn [st_buckets]. intros Hb.
  pose proof (power_of_two_nonempty _ (next_power_of_two_length (u32 entry_count *u32 HASH_LOAD_FACTOR +u32 1))) as H. by rewrite Hb in H.
Qed.

Lemma pairs_buckets entry_count : mt_buckets (pairs_with_entry_count entry_count) = [] -> entry_count = 0.
Proof.
  unfold pairs_with_entry_count. destruct (Z.eqb_spec entry_count 0); [done|]. cbv zeta. cbn [mt_buckets]. intros Hb.
  pose proof (power_of_two_nonempty _ (next_power_of_two_length (u32 entry_count *u32 HASH_LOAD_FACTOR +u32 1))) as H. by rewrite Hb in H.
Qed.
