(* ===== verification/Tokenizer.v ===== *)
(** * The tokenizer: definitions ([crates/spark-text/src/tokenizer.rs])

    The byte-level BPE tokenizer: the workspace with its merge heap and piece cache,
    loading from a [tokenizer.json] document or a compiled file, pretokenization, the
    merge loop, encoding, decoding and batches.  The tokenizer is immutable after
    loading and is an argument; encoding is a computation over the workspace and the
    encoding the caller passes.  File contents are arguments ([None] when reading
    fails), and so is the JSON parser; the parsed document is the type [Json].  The
    theorems are in [TokenTablesProps], [MergeHeap], [Bpe] and [TokenizerProps]. *)

From Stdlib Require Import String Ascii.
From S2P Require Import Prelude Bytes TokenTables.

Definition BPE_MODEL_KIND_BYTE_LEVEL : Z := 1.

Definition ENCODE_FLAG_DISABLE_SPECIAL_TOKEN_MATCH : Z := 1.

Definition ENCODE_FLAG_ADD_PREFIX_SPACE : Z := 2.

Definition ENCODE_FLAG_DISABLE_REGEX_PRETOKENIZATION : Z := 4.

Definition ENCODE_FLAG_DISABLE_PIECE_CACHE : Z := 8.

Definition ENCODE_KNOWN_FLAGS : Z :=
  Z.lor (Z.lor (Z.lor ENCODE_FLAG_DISABLE_SPECIAL_TOKEN_MATCH ENCODE_FLAG_ADD_PREFIX_SPACE)
    ENCODE_FLAG_DISABLE_REGEX_PRETOKENIZATION) ENCODE_FLAG_DISABLE_PIECE_CACHE.

Definition DECODE_FLAG_SKIP_SPECIAL_TOKENS : Z := 1.

Definition DECODE_KNOWN_FLAGS : Z := DECODE_FLAG_SKIP_SPECIAL_TOKENS.

Definition PIECE_CACHE_INLINE_BYTES : Z := 32.

Definition PIECE_CACHE_SLOT_COUNT : Z := 16384.

Definition PIECE_CACHE_TOKEN_CAPACITY : Z := 262144.

Definition PIECE_CACHE_EMPTY_HASH : Z := 0.

Definition NO_TOKEN_ID : Z := U32_MAX.

Definition MAX_PARALLEL_WORKER_COUNT : Z := 16.

Definition COMPILED_FILE_MAGIC : Z := 0x00314b4f54535053.

Definition COMPILED_FILE_VERSION : Z := 1.

Definition MERGE_HEAP_CAPACITY_FACTOR : Z := 4.

Definition MERGE_HEAP_CAPACITY_SLACK : Z := 16.

Definition SYMBOL_NONE : Z := U32_MAX.

Record SpecialToken := mkSpecialToken {
  sp_text : list Z;
  sp_token_id : Z;
}.

(** ** The merge heap *)

Record MergeCandidate := mkCandidate {
  mc_rank : Z;
  mc_left_symbol_index : Z;
  mc_left_generation : Z;
  mc_right_generation : Z;
}.

Definition compare_merge_candidates (left right : MergeCandidate) : comparison :=
  match Z.compare (mc_rank left) (mc_rank right) with
  | Eq => Z.compare (mc_left_symbol_index left) (mc_left_symbol_index right)
  | c => c
  end.

Definition is_less (c : comparison) : bool := match c with Lt => true | _ => false end.

Definition is_greater (c : comparison) : bool := match c with Gt => true | _ => false end.

Record PieceCacheEntry := mkPieceEntry {
  pe_hash : Z;
  pe_piece_bytes : Z;
  pe_token_offset : Z;
  pe_token_count : Z;
  pe_piece : list Z;
}.

#[export] Instance PieceCacheEntry_eta : RecordEta PieceCacheEntry := fun e =>
  mkPieceEntry (pe_hash e) (pe_piece_bytes e) (pe_token_offset e) (pe_token_count e) (pe_piece e).

(** [PieceCacheEntry::EMPTY] *)
Definition EMPTY_PIECE : PieceCacheEntry :=
  mkPieceEntry PIECE_CACHE_EMPTY_HASH 0 0 0 (replicate (Z.to_nat PIECE_CACHE_INLINE_BYTES) 0).

Record Workspace := mkWorkspace {
  maximum_symbol_count : Z;
  symbol_token_ids : list Z;
  previous_symbol_indices : list Z;
  next_symbol_indices : list Z;
  symbol_generations : list Z;
  merge_heap : list MergeCandidate;
  heap_capacity : Z;
  piece_cache_entries : list PieceCacheEntry;
  piece_cache_token_pool : list Z;
  piece_cache_token_used : Z;
}.

#[export] Instance Workspace_eta : RecordEta Workspace := fun w =>
  mkWorkspace (maximum_symbol_count w) (symbol_token_ids w) (previous_symbol_indices w) (next_symbol_indices w)
    (symbol_generations w) (merge_heap w) (heap_capacity w) (piece_cache_entries w) (piece_cache_token_pool w)
    (piece_cache_token_used w).

Abbreviation WM := (M Workspace TokenizerError).

Definition ensure_symbol_buffers (count : Z) : WM unit :=
  let! w := gets id in
  if negb (Z.of_nat (length (symbol_token_ids w)) =? 0) && (count <=? maximum_symbol_count w) then ret tt else
  if (U32_MAX - MERGE_HEAP_CAPACITY_SLACK) / MERGE_HEAP_CAPACITY_FACTOR <? count then throw CapacityExceeded else
  let zeroes := replicate (Z.to_nat count) 0 in
  modify (fun w => w <| maximum_symbol_count := count |>
                     <| heap_capacity := count * MERGE_HEAP_CAPACITY_FACTOR + MERGE_HEAP_CAPACITY_SLACK |>
                     <| symbol_token_ids := zeroes |> <| previous_symbol_indices := zeroes |>
                     <| next_symbol_indices := zeroes |> <| symbol_generations := zeroes |> <| merge_heap := [] |>).

Definition ensure_piece_cache : WM unit :=
  let! w := gets id in
  if negb (Z.of_nat (length (piece_cache_entries w)) =? 0) && negb (Z.of_nat (length (piece_cache_token_pool w)) =? 0)
  then ret tt else
  modify (fun w => w <| piece_cache_token_used := 0 |>
                     <| piece_cache_entries := replicate (Z.to_nat PIECE_CACHE_SLOT_COUNT) EMPTY_PIECE |>
                     <| piece_cache_token_pool := replicate (Z.to_nat PIECE_CACHE_TOKEN_CAPACITY) 0 |>).

Definition blank_workspace : Workspace := mkWorkspace 0 [] [] [] [] [] 0 [] [] 0.

(** Run a method on a local value. *)
Definition run_on {St T E A} (m : M T E A) (t : T) : M St E T := fun s =>
  match m t with
  | Ret _ t' => Ret t' s
  | Fails e _ => Fails e s
  | Panic => Panic
  | OutOfFuel => OutOfFuel
  end.

(** [Workspace::new] *)
Definition new_workspace {St} (count : Z) : M St TokenizerError Workspace :=
  if count =? 0 then throw (InvalidArgument "maximum_symbol_count is zero") else
  run_on (do! ensure_symbol_buffers count in ensure_piece_cache) blank_workspace.

(** [self.merge_heap.swap(i, j)] *)
Definition swap_at {A} (i j : Z) (l : list A) : list A :=
  match l !! Z.to_nat i, l !! Z.to_nat j with
  | Some x, Some y => <[Z.to_nat i := y]> (<[Z.to_nat j := x]> l)
  | _, _ => l
  end.

Definition heap_push (candidate : MergeCandidate) : WM unit :=
  let! w := gets id in
  let n := Z.of_nat (length (merge_heap w)) in
  if heap_capacity w <=? n then throw CapacityExceeded else
  do! modify (fun w => w <| merge_heap := merge_heap w ++ [candidate] |>) in
  loop (S (S (length (merge_heap w)))) (fun heap_index =>
    if heap_index <=? 0 then ret (Break tt) else
    let parent_index := (heap_index - 1) / 2 in
    let! w := gets id in
    let! child := index (merge_heap w) heap_index in
    let! parent := index (merge_heap w) parent_index in
    if negb (is_less (compare_merge_candidates child parent)) then ret (Break tt) else
    do! modify (fun w => w <| merge_heap := swap_at heap_index parent_index (merge_heap w) |>) in
    ret (Continue parent_index)) n.

(** The sift-down loop of [heap_pop]. *)
Definition sift_down (heap_count heap_index : Z) : WM (flow Z unit) :=
  let left_child_index := heap_index * 2 + 1 in
  let right_child_index := left_child_index + 1 in
  if heap_count <=? left_child_index then ret (Break tt) else
  let! w := gets id in
  let! best_child_index :=
    (if right_child_index <? heap_count then
       let! right := index (merge_heap w) right_child_index in
       let! left := index (merge_heap w) left_child_index in
       ret (if is_less (compare_merge_candidates right left) then right_child_index else left_child_index)
     else ret left_child_index) in
  let! here := index (merge_heap w) heap_index in
  let! best := index (merge_heap w) best_child_index in
  if negb (is_greater (compare_merge_candidates here best)) then ret (Break tt) else
  do! modify (fun w => w <| merge_heap := swap_at heap_index best_child_index (merge_heap w) |>) in
  ret (Continue best_child_index).

Definition heap_pop : WM (option MergeCandidate) :=
  let! w := gets id in
  match merge_heap w with
  | [] => ret None
  | candidate :: rest =>
      let heap_count := Z.of_nat (length rest) in
      if heap_count =? 0 then do! modify (fun w => w <| merge_heap := [] |>) in ret (Some candidate) else
      let! last := index (merge_heap w) heap_count in
      do! modify (fun w => w <| merge_heap := take (length rest) (<[0%nat := last]> (merge_heap w)) |>) in
      do! loop (S (length rest)) (sift_down heap_count) 0 in
      ret (Some candidate)
  end.

(** FNV-1a-64, remapping the empty sentinel *)
Definition piece_hash (text : list Z) : Z :=
  let hash := foldl (fun hash byte => Z.lxor hash byte *u64 1099511628211) 1469598103934665603 text in
  if hash =? PIECE_CACHE_EMPTY_HASH then 1 else hash.

(** ** Encodings *)

Record Encoding := mkEncoding {
  en_token_ids : list Z;
  en_token_capacity : Z;
  en_overflow_token_count : Z;
  en_invalid_segment_count : Z;
}.

#[export] Instance Encoding_eta : RecordEta Encoding := fun e =>
  mkEncoding (en_token_ids e) (en_token_capacity e) (en_overflow_token_count e) (en_invalid_segment_count e).

(** [Encoding::unbounded] *)
Definition unbounded_encoding : Encoding := mkEncoding [] U64_MAX 0 0.

(** [Encoding::with_capacity] *)
Definition encoding_with_capacity (token_capacity : Z) : Encoding := mkEncoding [] token_capacity 0 0.

(** [Encoding::reset] *)
Definition reset_encoding (e : Encoding) : Encoding :=
  e <| en_token_ids := [] |> <| en_overflow_token_count := 0 |> <| en_invalid_segment_count := 0 |>.

(** [Encoding::append] *)
Definition append_token (token_id : Z) (e : Encoding) : Encoding :=
  if Z.of_nat (length (en_token_ids e)) <? en_token_capacity e
  then e <| en_token_ids := en_token_ids e ++ [token_id] |>
  else e <| en_overflow_token_count := en_overflow_token_count e +u64 1 |>.

(** ** The tokenizer *)

Record Tokenizer := mkTokenizer {
  tk_model_kind : Z;
  tk_add_prefix_space : bool;
  tk_byte_fallback : bool;
  tk_has_unk_token : bool;
  tk_unk_token_id : Z;
  tk_maximum_token_id : Z;
  tk_byte_level_use_regex : bool;
  tk_token_text_by_id : list (option (list Z));
  tk_vocabulary : StringTable;
  tk_merge_count : Z;
  tk_merges : StringTable;
  tk_special_tokens : list SpecialToken;
  tk_byte_token_ids : list Z;
  tk_merge_pairs : MergePairTable;
}.

#[export] Instance Tokenizer_eta : RecordEta Tokenizer := fun t =>
  mkTokenizer (tk_model_kind t) (tk_add_prefix_space t) (tk_byte_fallback t) (tk_has_unk_token t) (tk_unk_token_id t)
    (tk_maximum_token_id t) (tk_byte_level_use_regex t) (tk_token_text_by_id t) (tk_vocabulary t) (tk_merge_count t)
    (tk_merges t) (tk_special_tokens t) (tk_byte_token_ids t) (tk_merge_pairs t).

(** [Tokenizer::default] *)
Definition default_tokenizer : Tokenizer :=
  mkTokenizer BPE_MODEL_KIND_BYTE_LEVEL false false false 0 0 true [] (strings_with_entry_count 0) 0
    (strings_with_entry_count 0) [] (replicate 256 NO_TOKEN_ID) (pairs_with_entry_count 0).

Definition SPACE : Z := 32.

Definition make_merge_key (left_text right_text : list Z) : list Z := left_text ++ SPACE :: right_text.

Definition parse_merge_string {St} (merge_text : list Z) : M St TokenizerError (list Z) :=
  match position (fun byte => byte =? SPACE) merge_text with
  | Some i => ret (make_merge_key (take (Z.to_nat i) merge_text) (drop (Z.to_nat (i + 1)) merge_text))
  | None => throw (Parse "merge string has no separator")
  end.

(** ** The parsed document

    What [serde_json] hands out: an object is the list of its members in the order of
    the map, a number keeps what [as_u64] answers. *)

Inductive Json :=
| JNull
| JBool (b : bool)
| JNumber (as_u64 : option N)
| JString (text : list Z)
| JArray (elements : list Json)
| JObject (members : list (list Z * Json)).

(** The bytes of a literal. *)
Definition lit (s : string) : list Z := (fun c => Z.of_N (N_of_ascii c)) <$> list_ascii_of_string s.

(** [map.get(name)] *)
Fixpoint member (name : list Z) (members : list (list Z * Json)) : option Json :=
  match members with
  | [] => None
  | (key, value) :: rest => if bool_decide (key = name) then Some value else member name rest
  end.

(** [value.get(name)] *)
Definition json_get (name : string) (value : Json) : option Json :=
  match value with JObject members => member (lit name) members | _ => None end.

Definition as_bool (value : Json) : option bool := match value with JBool b => Some b | _ => None end.

Fixpoint json_search_boolean_member (name : list Z) (value : Json) : option bool :=
  match value with
  | JObject members =>
      match member name members with
      | Some (JBool b) => Some b
      | _ => (fix children (l : list (list Z * Json)) : option bool :=
                match l with
                | [] => None
                | (_, v) :: rest =>
                    match json_search_boolean_member name v with Some b => Some b | None => children rest end
                end) members
      end
  | JArray elements =>
      (fix children (l : list Json) : option bool :=
         match l with
         | [] => None
         | v :: rest => match json_search_boolean_member name v with Some b => Some b | None => children rest end
         end) elements
  | _ => None
  end.

Definition json_string_bytes {St} (value : Json) (what : string) : M St TokenizerError (list Z) :=
  match value with JString text => ret text | _ => throw (Parse what) end.

Definition json_u32 {St} (value : Json) (what : string) : M St TokenizerError Z :=
  match value with
  | JNumber (Some n) => if Z.of_N n <=? U32_MAX then ret (Z.of_N n) else throw (Parse what)
  | _ => throw (Parse what)
  end.

(** ** Building the tables *)

(** [SparkTokenizerBuildReverseVocabulary], the block both loaders have. *)
Definition build_reverse_vocabulary (t : Tokenizer) : Tokenizer :=
  t <| tk_token_text_by_id :=
    foldl (fun table entry =>
      match se_text entry with
      | Some text => if se_value entry <=? tk_maximum_token_id t
                     then upd_nth (se_value entry) (fun _ => Some text) table else table
      | None => table
      end) (replicate (Z.to_nat (tk_maximum_token_id t + 1)) None) (st_entries (tk_vocabulary t)) |>.

Definition build_byte_token_table {St} (t : Tokenizer) : M St TokenizerError Tokenizer :=
  let! ids := for_fold (range 0 256) (fun byte_value ids =>
    let encoded_text := append_utf8_code_point [] (byte_to_unicode_code_point byte_value) in
    let! found := find_string (tk_vocabulary t) encoded_text in
    ret (upd_nth byte_value (fun _ =>
      match found with
      | Some entry => se_value entry
      | None => if tk_has_unk_token t then tk_unk_token_id t else NO_TOKEN_ID
      end) ids)) (tk_byte_token_ids t) in
  ret (t <| tk_byte_token_ids := ids |>).

(** One merge of [build_merge_pair_table]. *)
Definition add_merge_pair {St} (vocabulary : StringTable) (merge_entry : StringEntry) (pairs : MergePairTable)
    : M St TokenizerError MergePairTable :=
  match se_text merge_entry with
  | None => ret pairs
  | Some merge_text =>
      let separator_index := default (Z.of_nat (length merge_text)) (position (fun byte => byte =? SPACE) merge_text) in
      if (separator_index =? 0) || (Z.of_nat (length merge_text) <=? separator_index) then ret pairs else
      let left_text := take (Z.to_nat separator_index) merge_text in
      let right_text := drop (Z.to_nat (separator_index + 1)) merge_text in
      let! left_entry := find_string vocabulary left_text in
      match left_entry with
      | None => ret pairs
      | Some left_entry =>
          let! right_entry := find_string vocabulary right_text in
          match right_entry with
          | None => ret pairs
          | Some right_entry =>
              let! merged_entry := find_string vocabulary (left_text ++ right_text) in
              match merged_entry with
              | None => ret pairs
              | Some merged_entry =>
                  run_on (catch (insert_pair (mkMergePair (se_value left_entry) (se_value right_entry)
                                                (se_value merged_entry) (se_value merge_entry)))
                            (fun e => match e with Duplicate _ => ret tt | e => throw e end)) pairs
              end
          end
      end
  end.

Definition build_merge_pair_table {St} (t : Tokenizer) : M St TokenizerError Tokenizer :=
  let! pairs := for_fold (st_entries (tk_merges t)) (add_merge_pair (tk_vocabulary t)) (pairs_with_entry_count (tk_merge_count t)) in
  ret (t <| tk_merge_pairs := pairs |>).

(** [sort_by] is stable: an element goes behind all that are not after it. *)
Fixpoint insert_stable {A} (before : A -> A -> bool) (x : A) (l : list A) : list A :=
  match l with
  | [] => [x]
  | y :: rest => if before y x then y :: insert_stable before x rest else x :: y :: rest
  end.

Definition sort_stable {A} (before : A -> A -> bool) (l : list A) : list A :=
  foldl (fun sorted x => insert_stable before x sorted) [] l.

(** Longest text first, then ascending ids. *)
Definition special_before (left right : SpecialToken) : bool :=
  (Z.of_nat (length (sp_text right)) <? Z.of_nat (length (sp_text left)))
  || ((Z.of_nat (length (sp_text left)) =? Z.of_nat (length (sp_text right))) && (sp_token_id left <=? sp_token_id right)).

Definition sort_special_tokens (t : Tokenizer) : Tokenizer :=
  t <| tk_special_tokens := sort_stable special_before (tk_special_tokens t) |>.

(** ** Loading a [tokenizer.json] *)

Definition require_some {St A} (o : option A) (what : string) : M St TokenizerError A :=
  match o with Some a => ret a | None => throw (Parse what) end.

Definition json_object (value : Json) : option (list (list Z * Json)) := match value with JObject m => Some m | _ => None end.

Definition json_array (value : Json) : option (list Json) := match value with JArray l => Some l | _ => None end.

(** [SparkTokenizerParseVocabulary] *)
Definition parse_vocabulary {St} (vocabulary_object : list (list Z * Json)) (t : Tokenizer) : M St TokenizerError Tokenizer :=
  for_fold vocabulary_object (fun x t =>
    let! token_id := json_u32 (snd x) "vocab value" in
    let! vocabulary := run_on (insert_string (fst x) token_id) (tk_vocabulary t) in
    ret (t <| tk_vocabulary := vocabulary |>
           <| tk_maximum_token_id := if tk_maximum_token_id t <? token_id then token_id else tk_maximum_token_id t |>))
    (t <| tk_vocabulary := strings_with_entry_count (Z.of_nat (length vocabulary_object)) |>).

Definition parse_merge {St} (merge_value : Json) : M St TokenizerError (list Z) :=
  match merge_value with
  | JString merge_text => parse_merge_string merge_text
  | JArray [first; second] =>
      let! left_text := json_string_bytes first "merge left" in
      let! right_text := json_string_bytes second "merge right" in
      ret (make_merge_key left_text right_text)
  | JArray _ => throw (Parse "merge array must have two elements")
  | _ => throw (Parse "merge must be string or pair")
  end.

(** [SparkTokenizerParseMerges] *)
Definition parse_merges {St} (merges_array : list Json) (t : Tokenizer) : M St TokenizerError Tokenizer :=
  let n := Z.of_nat (length merges_array) in
  let! merges := for_fold (zip (range 0 n) merges_array) (fun x merges =>
    let! merge_key := parse_merge (snd x) in
    run_on (catch (insert_string merge_key (u32 (fst x)))
              (fun e => match e with Duplicate _ => push_empty_slot | e => throw e end)) merges)
    (strings_with_entry_count n) in
  ret (t <| tk_merge_count := n |> <| tk_merges := merges |>).

(** [SparkTokenizerParseAddedTokens] *)
Definition parse_added_token {St} (token_object : Json) (specials : list SpecialToken) : M St TokenizerError (list SpecialToken) :=
  match token_object with
  | JObject _ =>
      let! is_special := match json_get "special" token_object with
                         | Some value => require_some (as_bool value) "special not boolean"
                         | None => ret false
                         end in
      if negb is_special then ret specials else
      match json_get "id" token_object, json_get "content" token_object with
      | Some id_value, Some content_value =>
          let! token_id := json_u32 id_value "added token id" in
          let! content := json_string_bytes content_value "added token content" in
          ret (specials ++ [mkSpecialToken content token_id])
      | _, _ => ret specials
      end
  | _ => ret specials
  end.

Definition load_huggingface_json (from_slice : list Z -> option Json) (file : option (list Z)) : M unit TokenizerError Tokenizer :=
  match file with
  | None => throw Io
  | Some bytes =>
      let! document := require_some (from_slice bytes) "json" in
      let! model := require_some (json_get "model" document) "missing model member" in
      let! vocabulary_object := require_some (json_get "vocab" model ≫= json_object) "missing model.vocab object" in
      let! merges_array := require_some (json_get "merges" model ≫= json_array) "missing model.merges array" in
      let! t := parse_vocabulary vocabulary_object default_tokenizer in
      let t := match st_entries (tk_vocabulary t) with [] => t | _ => build_reverse_vocabulary t end in
      let! t := (match json_get "unk_token" model with
                 | Some (JString unknown_token) =>
                     let! found := find_string (tk_vocabulary t) unknown_token in
                     ret (match found with
                          | Some entry => t <| tk_has_unk_token := true |> <| tk_unk_token_id := se_value entry |>
                          | None => t
                          end)
                 | _ => ret t
                 end) in
      let! t := build_byte_token_table t in
      let! t := parse_merges merges_array t in
      let! t := build_merge_pair_table t in
      let! specials := for_fold (default [] (json_get "added_tokens" document ≫= json_array)) parse_added_token [] in
      let t := t <| tk_special_tokens := specials |>
                 <| tk_byte_fallback := default false (json_get "byte_fallback" model ≫= as_bool) |> in
      let t := match json_get "pre_tokenizer" document with
               | Some pre_tokenizer =>
                   t <| tk_add_prefix_space := default (tk_add_prefix_space t) (json_search_boolean_member (lit "add_prefix_space") pre_tokenizer) |>
                     <| tk_byte_level_use_regex := default (tk_byte_level_use_regex t) (json_search_boolean_member (lit "use_regex") pre_tokenizer) |>
               | None => t
               end in
      ret (sort_special_tokens t)
  end.

Definition find_token_id {St} (t : Tokenizer) (text : list Z) : M St TokenizerError Z :=
  let! found := find_string (tk_vocabulary t) text in
  match found with Some entry => ret (se_value entry) | None => throw (NotFound "token text") end.

Definition token_text (t : Tokenizer) (token_id : Z) : option (list Z) := mjoin (tk_token_text_by_id t !! Z.to_nat token_id).

(** ** The compiled file *)

(** [save_compiled_file], up to the write *)
Definition compiled_file (t : Tokenizer) : list Z :=
  le64 COMPILED_FILE_MAGIC ++ le32 COMPILED_FILE_VERSION ++ le32 (tk_model_kind t) ++
  le32 (b2z (tk_add_prefix_space t)) ++ le32 (b2z (tk_byte_fallback t)) ++ le32 (b2z (tk_has_unk_token t)) ++
  le32 (tk_unk_token_id t) ++ le32 (tk_maximum_token_id t) ++ le32 (b2z (tk_byte_level_use_regex t)) ++
  le32 (u32 (Z.of_nat (length (st_entries (tk_vocabulary t))))) ++
  le32 (u32 (Z.of_nat (length (mt_pairs (tk_merge_pairs t))))) ++
  le32 (u32 (Z.of_nat (length (tk_special_tokens t)))) ++
  concat ((fun entry => let text := default [] (se_text entry) in
             le32 (se_value entry) ++ le32 (u32 (Z.of_nat (length text))) ++ text) <$> st_entries (tk_vocabulary t)) ++
  concat ((fun pair => le32 (mp_left_token_id pair) ++ le32 (mp_right_token_id pair) ++
             le32 (mp_merged_token_id pair) ++ le32 (mp_rank pair)) <$> mt_pairs (tk_merge_pairs t)) ++
  concat ((fun special => le32 (sp_token_id special) ++ le32 (u32 (Z.of_nat (length (sp_text special)))) ++
             sp_text special) <$> tk_special_tokens t).

Record CompiledReader := mkCompiledReader {
  cr_bytes : list Z;
  cr_position : Z;
}.

#[export] Instance CompiledReader_eta : RecordEta CompiledReader := fun r => mkCompiledReader (cr_bytes r) (cr_position r).

Abbreviation RM := (M CompiledReader TokenizerError).

(** [CompiledReader::take] *)
Definition take_bytes (count : Z) : RM (list Z) :=
  let! r := gets id in
  let end_position := cr_position r + count in
  if (U64_MAX <? end_position) || (Z.of_nat (length (cr_bytes r)) <? end_position)
  then throw (Schema "truncated compiled file") else
  let! bytes := slice (cr_bytes r) (cr_position r) end_position in
  do! modify (fun r => r <| cr_position := end_position |>) in
  ret bytes.

Definition read_u64 : RM Z := let! bytes := take_bytes 8 in ret (from_le_bytes bytes).

Definition read_u32 : RM Z := let! bytes := take_bytes 4 in ret (from_le_bytes bytes).

Definition read_flag : RM bool := let! x := read_u32 in ret (negb (x =? 0)).

(** The loop bodies of [load_compiled_file]. *)
Definition read_vocabulary_entry (_ : Z) (vocabulary : StringTable) : RM StringTable :=
  let! token_id := read_u32 in
  let! text_bytes := read_u32 in
  let! text := take_bytes text_bytes in
  run_on (insert_string text token_id) vocabulary.

Definition read_merge_pair (_ : Z) (pairs : MergePairTable) : RM MergePairTable :=
  let! left_token_id := read_u32 in
  let! right_token_id := read_u32 in
  let! merged_token_id := read_u32 in
  let! rank := read_u32 in
  run_on (insert_pair (mkMergePair left_token_id right_token_id merged_token_id rank)) pairs.

Definition read_special_token (_ : Z) (specials : list SpecialToken) : RM (list SpecialToken) :=
  let! token_id := read_u32 in
  let! text_bytes := read_u32 in
  let! text := take_bytes text_bytes in
  ret (specials ++ [mkSpecialToken text token_id]).

Definition read_compiled : RM Tokenizer :=
  let! magic := read_u64 in
  let! version := read_u32 in
  if negb (magic =? COMPILED_FILE_MAGIC) || negb (version =? COMPILED_FILE_VERSION)
  then throw (Schema "bad compiled file magic or version") else
  let! model_kind := read_u32 in
  let! add_prefix_space := read_flag in
  let! byte_fallback := read_flag in
  let! has_unk_token := read_flag in
  let! unk_token_id := read_u32 in
  let! maximum_token_id := read_u32 in
  let! byte_level_use_regex := read_flag in
  let! vocabulary_count := read_u32 in
  let! fast_merge_pair_count := read_u32 in
  let! special_token_count := read_u32 in
  let! vocabulary := for_fold (range 0 vocabulary_count) read_vocabulary_entry (strings_with_entry_count vocabulary_count) in
  let t := default_tokenizer
    <| tk_model_kind := model_kind |> <| tk_add_prefix_space := add_prefix_space |> <| tk_byte_fallback := byte_fallback |>
    <| tk_has_unk_token := has_unk_token |> <| tk_unk_token_id := unk_token_id |> <| tk_maximum_token_id := maximum_token_id |>
    <| tk_byte_level_use_regex := byte_level_use_regex |> <| tk_vocabulary := vocabulary |> in
  let t := if negb (vocabulary_count =? 0) then build_reverse_vocabulary t else t in
  let! t := build_byte_token_table t in
  let! pairs := for_fold (range 0 fast_merge_pair_count) read_merge_pair (pairs_with_entry_count fast_merge_pair_count) in
  let! specials := for_fold (range 0 special_token_count) read_special_token [] in
  ret (sort_special_tokens (t <| tk_merge_pairs := pairs |> <| tk_special_tokens := specials |>)).

Definition load_compiled_file (file : option (list Z)) : M unit TokenizerError Tokenizer :=
  match file with
  | None => throw Io
  | Some bytes =>
      fun s => match read_compiled (mkCompiledReader bytes 0) with
               | Ret t _ => Ret t s
               | Fails e _ => Fails e s
               | Panic => Panic
               | OutOfFuel => OutOfFuel
               end
  end.

(** ** Pretokenization *)

Definition BYTE_CLASS : list Z :=
  [4;4;4;4;4;4;4;4;4;1;1;1;1;1;4;4; 4;4;4;4;4;4;4;4;4;4;4;4;4;4;4;4;
   1;4;4;4;4;4;4;4;4;4;4;4;4;4;4;4; 3;3;3;3;3;3;3;3;3;3;4;4;4;4;4;4;
   4;2;2;2;2;2;2;2;2;2;2;2;2;2;2;2; 2;2;2;2;2;2;2;2;2;2;2;4;4;4;4;4;
   4;2;2;2;2;2;2;2;2;2;2;2;2;2;2;2; 2;2;2;2;2;2;2;2;2;2;2;4;4;4;4;4;
   2;2;2;2;2;2;2;2;2;2;2;2;2;2;2;2; 2;2;2;2;2;2;2;2;2;2;2;2;2;2;2;2;
   2;2;2;2;2;2;2;2;2;2;2;2;2;2;2;2; 2;2;2;2;2;2;2;2;2;2;2;2;2;2;2;2;
   2;2;2;2;2;2;2;2;2;2;2;2;2;2;2;2; 2;2;2;2;2;2;2;2;2;2;2;2;2;2;2;2;
   2;2;2;2;2;2;2;2;2;2;2;2;2;2;2;2; 2;2;2;2;2;2;2;2;2;2;2;2;2;2;2;2].

(** [BYTE_CLASS[b as usize]] *)
Definition byte_class (b : Z) : Z := byte_at BYTE_CLASS b.

Definition is_ascii_whitespace (value : Z) : bool :=
  (value =? 32) || (value =? 9) || (value =? 10) || (value =? 13) || (value =? 0x0b) || (value =? 0x0c).

(** [while going(scan_position) { scan_position += 1 }] *)
Fixpoint scan_while (fuel : nat) (going : Z -> bool) (scan_position : Z) : Z :=
  match fuel with
  | O => scan_position
  | S fuel' => if going scan_position then scan_while fuel' going (scan_position + 1) else scan_position
  end.

Definition in_class (text : list Z) (target_class scan_position : Z) : bool :=
  (scan_position <? Z.of_nat (length text)) && (byte_class (byte_at text scan_position) =? target_class).

Definition scan_class_run (text : list Z) (scan_position target_class : Z) : Z :=
  scan_while (length text) (in_class text target_class) scan_position.

(** [if b.is_ascii_uppercase() { b = b - b'A' + b'a' }] *)
Definition lower (b : Z) : Z := if (65 <=? b) && (b <=? 90) then b - 65 + 97 else b.

Definition matches_contraction (text : list Z) (position : Z) : option Z :=
  let len := Z.of_nat (length text) in
  if (len <=? position + 1) || negb (byte_at text position =? 39) then None else
  let first := lower (byte_at text (position + 1)) in
  if (first =? 115) || (first =? 116) || (first =? 109) || (first =? 100) then Some 2 else
  if len <=? position + 2 then None else
  let second := lower (byte_at text (position + 2)) in
  if ((first =? 114) && (second =? 101)) || ((first =? 118) && (second =? 101)) || ((first =? 108) && (second =? 108))
  then Some 3 else None.

(** The byte-by-byte scan of an "other" run, cut short by a contraction. *)
Definition scan_other_run (text : list Z) (scan_position class_id : Z) : Z :=
  scan_while (length text)
    (fun p => in_class text class_id p && negb (bool_decide (is_Some (matches_contraction text p)))) scan_position.

Definition find_next_regex_piece (text : list Z) (position : Z) : option (Z * Z) :=
  let len := Z.of_nat (length text) in
  if len <=? position then None else
  match matches_contraction text position with
  | Some piece_bytes => Some (position, piece_bytes)
  | None =>
      if (byte_at text position =? SPACE) && (position + 1 <? len) && negb (is_ascii_whitespace (byte_at text (position + 1)))
      then
        let class_id := byte_class (byte_at text (position + 1)) in
        let scan_position :=
          if (class_id =? 2) || (class_id =? 3) then scan_class_run text (position + 1) class_id
          else scan_other_run text (position + 1) class_id in
        Some (position, scan_position - position)
      else
        let class_id := byte_class (byte_at text position) in
        let scan_position :=
          if (class_id =? 2) || (class_id =? 3) || (class_id =? 1) then scan_class_run text position class_id
          else scan_other_run text position class_id in
        let piece_bytes := scan_position - position in
        if piece_bytes =? 0 then None else Some (position, piece_bytes)
  end.

(** [text.starts_with(prefix)] *)
Fixpoint starts_with (text prefix : list Z) : bool :=
  match prefix, text with
  | [], _ => true
  | p :: prefix', b :: text' => (p =? b) && starts_with text' prefix'
  | _ :: _, [] => false
  end.

Definition find_special_token_at (t : Tokenizer) (text : list Z) : option (Z * Z) :=
  (fix find (specials : list SpecialToken) : option (Z * Z) :=
     match specials with
     | [] => None
     | special :: rest =>
         if (Z.of_nat (length (sp_text special)) <=? Z.of_nat (length text)) && starts_with text (sp_text special)
         then Some (sp_token_id special, Z.of_nat (length (sp_text special))) else find rest
     end) (tk_special_tokens t).

Definition token_id_is_special (t : Tokenizer) (token_id : Z) : bool :=
  existsb (fun special => sp_token_id special =? token_id) (tk_special_tokens t).

(** ** The merge loop *)

Definition push_pair_candidate (t : Tokenizer) (left_symbol_index : Z) : WM unit :=
  if left_symbol_index =? SYMBOL_NONE then ret tt else
  let! w := gets id in
  let! right_symbol_index := index (next_symbol_indices w) left_symbol_index in
  if right_symbol_index =? SYMBOL_NONE then ret tt else
  let! left_token := index (symbol_token_ids w) left_symbol_index in
  let! right_token := index (symbol_token_ids w) right_symbol_index in
  let! found := find_pair (tk_merge_pairs t) left_token right_token in
  match found with
  | None => ret tt
  | Some merge_pair =>
      let! left_generation := index (symbol_generations w) left_symbol_index in
      let! right_generation := index (symbol_generations w) right_symbol_index in
      heap_push (mkCandidate (mp_rank merge_pair) left_symbol_index left_generation right_generation)
  end.

(** Bounds of the four symbol arrays: an index the code writes to. *)
Definition in_bounds (i : Z) : WM unit :=
  let! w := gets id in
  do! index (symbol_token_ids w) i in
  do! index (previous_symbol_indices w) i in
  do! index (next_symbol_indices w) i in
  do! index (symbol_generations w) i in ret tt.

(** The symbol a byte starts as. *)
Definition set_symbol (t : Tokenizer) (text_bytes : Z) (x : Z * Z) : WM unit :=
  let '(symbol_index, byte) := x in
  let! token_id := index (tk_byte_token_ids t) byte in
  if token_id =? NO_TOKEN_ID then throw (NotFound "byte token") else
  do! in_bounds symbol_index in
  modify (fun w =>
    w <| symbol_token_ids := upd_nth symbol_index (fun _ => token_id) (symbol_token_ids w) |>
      <| previous_symbol_indices :=
           upd_nth symbol_index (fun _ => if symbol_index =? 0 then SYMBOL_NONE else symbol_index - 1) (previous_symbol_indices w) |>
      <| next_symbol_indices :=
           upd_nth symbol_index (fun _ => if symbol_index + 1 <? text_bytes then symbol_index + 1 else SYMBOL_NONE) (next_symbol_indices w) |>
      <| symbol_generations := upd_nth symbol_index (fun _ => 1) (symbol_generations w) |>).

(** Splice the right symbol out and give the left one the merged token. *)
Definition splice_symbols (left_symbol_index right_symbol_index merged_token_id next_symbol_index : Z) : WM unit :=
  do! modify (fun w =>
    w <| symbol_token_ids := upd_nth left_symbol_index (fun _ => merged_token_id) (symbol_token_ids w) |>
      <| next_symbol_indices := upd_nth left_symbol_index (fun _ => next_symbol_index) (next_symbol_indices w) |>) in
  when! negb (next_symbol_index =? SYMBOL_NONE) then
    (let! w := gets id in
     do! index (previous_symbol_indices w) next_symbol_index in
     modify (fun w => w <| previous_symbol_indices := upd_nth next_symbol_index (fun _ => left_symbol_index) (previous_symbol_indices w) |>)) in
  modify (fun w => w <| symbol_generations :=
    upd_nth right_symbol_index (fun g => g +u32 1) (upd_nth left_symbol_index (fun g => g +u32 1) (symbol_generations w)) |>).

(** A popped candidate: skipped when it is stale, else merged. *)
Definition apply_candidate (t : Tokenizer) (text_bytes live_symbol_count : Z) (candidate : MergeCandidate) : WM (flow Z Z) :=
  let skip := ret (Continue live_symbol_count) in
  let left_symbol_index := mc_left_symbol_index candidate in
  if text_bytes <=? left_symbol_index then skip else
  let! w := gets id in
  let! left_generation := index (symbol_generations w) left_symbol_index in
  if negb (left_generation =? mc_left_generation candidate) then skip else
  let! right_symbol_index := index (next_symbol_indices w) left_symbol_index in
  if right_symbol_index =? SYMBOL_NONE then skip else
  let! right_generation := index (symbol_generations w) right_symbol_index in
  if negb (right_generation =? mc_right_generation candidate) then skip else
  let! left_token := index (symbol_token_ids w) left_symbol_index in
  let! right_token := index (symbol_token_ids w) right_symbol_index in
  let! found := find_pair (tk_merge_pairs t) left_token right_token in
  match found with
  | None => skip
  | Some merge_pair =>
      if negb (mp_rank merge_pair =? mc_rank candidate) then skip else
      let! previous_symbol_index := index (previous_symbol_indices w) left_symbol_index in
      let! next_symbol_index := index (next_symbol_indices w) right_symbol_index in
      do! splice_symbols left_symbol_index right_symbol_index (mp_merged_token_id merge_pair) next_symbol_index in
      do! push_pair_candidate t previous_symbol_index in
      do! push_pair_candidate t left_symbol_index in
      ret (Continue (live_symbol_count - 1))
  end.

(** The body of the merge loop on the live symbol count. *)
Definition merge_step (t : Tokenizer) (text_bytes live_symbol_count : Z) : WM (flow Z Z) :=
  if live_symbol_count <=? 1 then ret (Break live_symbol_count) else
  let! popped := heap_pop in
  match popped with
  | None => ret (Break live_symbol_count)
  | Some candidate => apply_candidate t text_bytes live_symbol_count candidate
  end.

(** The walk over the linked symbols that emits the tokens. *)
Definition emit_step (x : Z * list Z) : WM (flow (Z * list Z) (list Z)) :=
  let '(symbol_index, token_ids) := x in
  if symbol_index =? SYMBOL_NONE then ret (Break token_ids) else
  let! w := gets id in
  let! token_id := index (symbol_token_ids w) symbol_index in
  let! next := index (next_symbol_indices w) symbol_index in
  ret (Continue (next, token_ids ++ [token_id])).

Definition encode_byte_level_piece_uncached (t : Tokenizer) (text : list Z) : WM (list Z) :=
  let text_bytes := Z.of_nat (length text) in
  if text_bytes =? 0 then ret [] else
  let! w := gets id in
  if maximum_symbol_count w <? text_bytes then throw CapacityExceeded else
  do! modify (fun w => w <| merge_heap := [] |>) in
  do! for_fold (zip (range 0 text_bytes) text) (fun x _ => set_symbol t text_bytes x) tt in
  do! for_fold (range 0 (sat_sub text_bytes 1)) (fun symbol_index _ => push_pair_candidate t symbol_index) tt in
  do! loop (S (3 * length text)) (merge_step t text_bytes) text_bytes in
  loop (S (length text)) emit_step (0, []).

(** ** The piece cache *)

(** The probe loop; [piece_cache_lookup] answers the stop slot. *)
Definition piece_cache_lookup {St E} (w : Workspace) (text : list Z) (hash : Z) : M St E (option Z) :=
  let slot_count := Z.of_nat (length (piece_cache_entries w)) in
  if slot_count =? 0 then ret None else
  let! r := for_flow (range 0 slot_count) (fun _ slot =>
    let! entry := index (piece_cache_entries w) slot in
    if pe_hash entry =? PIECE_CACHE_EMPTY_HASH then ret (Break slot) else
    let next := ret (Continue (Z.land (slot + 1) (slot_count - 1))) in
    if (pe_hash entry =? hash) && (pe_piece_bytes entry =? Z.of_nat (length text)) then
      let! piece := slice (pe_piece entry) 0 (Z.of_nat (length text)) in
      if bool_decide (piece = text) then ret (Break slot) else next
    else next) (Z.land hash (slot_count - 1)) in
  match r with Break slot => ret (Some slot) | Continue _ => ret None end.

(** What the encode path mutates: the caller's workspace and encoding. *)
Record EncodeState := mkEncodeState {
  es_workspace : Workspace;
  es_encoding : Encoding;
}.

#[export] Instance EncodeState_eta : RecordEta EncodeState := fun s => mkEncodeState (es_workspace s) (es_encoding s).

Abbreviation TM := (M EncodeState TokenizerError).

Definition on_workspace {A} (m : WM A) : TM A := zoom es_workspace (fun w s => s <| es_workspace := w |>) id m.

Definition on_encoding (f : Encoding -> Encoding) : TM unit := modify (fun s => s <| es_encoding := f (es_encoding s) |>).

Definition count_invalid : TM unit :=
  on_encoding (fun e => e <| en_invalid_segment_count := en_invalid_segment_count e +u64 1 |>).

(** The uncached encoder with the count of an unmapped byte. *)
Definition produce_tokens (t : Tokenizer) (text : list Z) : TM (list Z) :=
  catch (on_workspace (encode_byte_level_piece_uncached t text)) (fun error =>
    match error with
    | NotFound _ => do! count_invalid in throw error
    | _ => throw error
    end).

Definition append_tokens (token_ids : list Z) : TM unit :=
  for_fold token_ids (fun token_id _ => on_encoding (append_token token_id)) tt.

(** Commit a piece to the cache when its tokens fit in the pool. *)
Definition commit_piece (text : list Z) (hash slot_index : Z) (produced : list Z) : TM unit :=
  let! w := gets es_workspace in
  let pool_start := piece_cache_token_used w in
  let produced_len := Z.of_nat (length produced) in
  let pool_room := Z.of_nat (length (piece_cache_token_pool w)) - pool_start in
  if produced_len <=? pool_room then
    do! slice (piece_cache_token_pool w) pool_start (pool_start + produced_len) in
    let! entry := index (piece_cache_entries w) slot_index in
    let entry' := mkPieceEntry hash (u32 (Z.of_nat (length text))) (u32 pool_start) (u32 produced_len)
                    (write_slice 0 (Z.of_nat (length text)) text (pe_piece entry)) in
    on_workspace (modify (fun w =>
      w <| piece_cache_token_pool := write_slice pool_start (pool_start + produced_len) produced (piece_cache_token_pool w) |>
        <| piece_cache_entries := upd_nth slot_index (fun _ => entry') (piece_cache_entries w) |>
        <| piece_cache_token_used := pool_start + produced_len |>))
  else ret tt.

Definition encode_byte_level_piece (t : Tokenizer) (text : list Z) (encode_flags : Z) : TM unit :=
  let text_bytes := Z.of_nat (length text) in
  if text_bytes =? 0 then ret tt else
  let! w := gets es_workspace in
  if (PIECE_CACHE_INLINE_BYTES <? text_bytes) || has_flag encode_flags ENCODE_FLAG_DISABLE_PIECE_CACHE
     || (Z.of_nat (length (piece_cache_entries w)) =? 0) || (Z.of_nat (length (piece_cache_token_pool w)) =? 0)
  then let! produced := produce_tokens t text in append_tokens produced
  else
    let hash := piece_hash text in
    let! slot := piece_cache_lookup w text hash in
    let! hit := match slot with
                | Some slot_index =>
                    let! entry := index (piece_cache_entries w) slot_index in
                    ret (if negb (pe_hash entry =? PIECE_CACHE_EMPTY_HASH) then Some entry else None)
                | None => ret None
                end in
    match hit with
    | Some entry =>
        for_fold (range 0 (pe_token_count entry)) (fun token_index _ =>
          let! token_id := index (piece_cache_token_pool w) (pe_token_offset entry + token_index) in
          on_encoding (append_token token_id)) tt
    | None =>
        let! produced := produce_tokens t text in
        do! append_tokens produced in
        match slot with
        | Some slot_index => commit_piece text hash slot_index produced
        | None => ret tt
        end
    end.

(** ** Encoding *)

(** The pieces of a segment, one after the other. *)
Definition encode_piece_step (t : Tokenizer) (text : list Z) (encode_flags position : Z) : TM (flow Z unit) :=
  if Z.of_nat (length text) <=? position then ret (Break tt) else
  match find_next_regex_piece text position with
  | None => throw (Parse "regex pretokenization stalled")
  | Some (piece_start, piece_bytes) =>
      let! piece := slice text piece_start (piece_start + piece_bytes) in
      do! catch (encode_byte_level_piece t piece encode_flags) (fun error => do! count_invalid in throw error) in
      ret (Continue (piece_start + piece_bytes))
  end.

Definition encode_regular_segment (t : Tokenizer) (text : list Z) (encode_flags : Z) : TM unit :=
  if Z.of_nat (length text) =? 0 then ret tt else
  if negb (tk_byte_level_use_regex t) || has_flag encode_flags ENCODE_FLAG_DISABLE_REGEX_PRETOKENIZATION
  then encode_byte_level_piece t text encode_flags
  else loop (S (length text)) (encode_piece_step t text encode_flags) 0.

(** The scan for special tokens, on the position and the start of the segment. *)
Definition scan_step (t : Tokenizer) (text : list Z) (encode_flags : Z) (x : Z * Z) : TM (flow (Z * Z) Z) :=
  let '(position, segment_start) := x in
  if Z.of_nat (length text) <=? position then ret (Break segment_start) else
  match (if has_flag encode_flags ENCODE_FLAG_DISABLE_SPECIAL_TOKEN_MATCH then None
         else find_special_token_at t (drop (Z.to_nat position) text)) with
  | Some (special_token_id, matched_text_bytes) =>
      let! segment := slice text segment_start position in
      do! encode_regular_segment t segment encode_flags in
      do! on_encoding (append_token special_token_id) in
      ret (Continue (position + matched_text_bytes, position + matched_text_bytes))
  | None => ret (Continue (position + 1, segment_start))
  end.

(** The loop over the text and the segment behind the last special token. *)
Definition encode_segments (t : Tokenizer) (text : list Z) (encode_flags : Z) : TM unit :=
  let! segment_start := loop (S (length text)) (scan_step t text encode_flags) (0, 0) in
  let! segment := slice text segment_start (Z.of_nat (length text)) in
  encode_regular_segment t segment encode_flags.

Definition encode_with_workspace (t : Tokenizer) (text : list Z) (encode_flags : Z) : TM unit :=
  if negb (Z.land encode_flags (u32_not ENCODE_KNOWN_FLAGS) =? 0) then throw (InvalidArgument "unknown encode flags") else
  do! on_workspace (ensure_symbol_buffers (Z.of_nat (length text) + 1)) in
  do! on_workspace ensure_piece_cache in
  do! on_encoding reset_encoding in
  let add_prefix_space := (has_flag encode_flags ENCODE_FLAG_ADD_PREFIX_SPACE || tk_add_prefix_space t)
    && ((Z.of_nat (length text) =? 0) || negb (byte_at text 0 =? SPACE)) in
  when! add_prefix_space then encode_regular_segment t [SPACE] encode_flags in
  do! encode_segments t text encode_flags in
  let! encoding := gets es_encoding in
  if negb (en_overflow_token_count encoding =? 0) then throw CapacityExceeded else ret tt.

(** [Tokenizer::encode] *)
Definition encode {St} (t : Tokenizer) (text : list Z) (encode_flags : Z) : M St TokenizerError Encoding :=
  let! workspace := new_workspace (Z.of_nat (length text) + 1) in
  let! s := run_on (encode_with_workspace t text encode_flags) (mkEncodeState workspace unbounded_encoding) in
  ret (es_encoding s).

(** ** Decoding *)

(** The loop of [decode_one_token] on the position; the state is the text. *)
Definition decode_step (token_text : list Z) (text_capacity position : Z) : M (list Z) TokenizerError (flow Z unit) :=
  if Z.of_nat (length token_text) <=? position then ret (Break tt) else
  match read_utf8_code_point token_text position with
  | None => throw (Parse "invalid UTF-8 in token text")
  | Some (code_point, position') =>
      match unicode_code_point_to_byte code_point with
      | None => throw (Parse "unmappable code point in token text")
      | Some decoded_byte =>
          let! text := gets id in
          if text_capacity <=? Z.of_nat (length text) + 1 then throw CapacityExceeded else
          do! modify (fun text => text ++ [decoded_byte]) in
          ret (Continue position')
      end
  end.

Definition decode_one_token (t : Tokenizer) (token_id text_capacity : Z) : M (list Z) TokenizerError unit :=
  match token_text t token_id with
  | None => throw (InvalidArgument "token id has no vocabulary text")
  | Some token_text => loop (S (length token_text)) (decode_step token_text text_capacity) 0
  end.

Definition decode_with_capacity (t : Tokenizer) (token_ids : list Z) (decode_flags text_capacity : Z)
    : M unit TokenizerError (list Z) :=
  if negb (Z.land decode_flags (u32_not DECODE_KNOWN_FLAGS) =? 0) then throw (InvalidArgument "unknown decode flags") else
  if text_capacity =? 0 then throw (InvalidArgument "text capacity is zero") else
  run_on (for_fold token_ids (fun token_id _ =>
    if has_flag decode_flags DECODE_FLAG_SKIP_SPECIAL_TOKENS && token_id_is_special t token_id then ret tt else
    if tk_maximum_token_id t <? token_id then throw (InvalidArgument "token id above maximum") else
    decode_one_token t token_id text_capacity) tt) [].

Definition decode (t : Tokenizer) (token_ids : list Z) (decode_flags : Z) : M unit TokenizerError (list Z) :=
  decode_with_capacity t token_ids decode_flags U64_MAX.

(** ** Batches *)

Record BatchEncoding := mkBatchEncoding {
  be_token_stride : Z;
  be_token_ids : list Z;
  be_token_counts : list Z;
  be_overflow_token_counts : list Z;
  be_invalid_segment_counts : list Z;
}.

#[export] Instance BatchEncoding_eta : RecordEta BatchEncoding := fun b =>
  mkBatchEncoding (be_token_stride b) (be_token_ids b) (be_token_counts b) (be_overflow_token_counts b)
    (be_invalid_segment_counts b).

(** [BatchEncoding::default] *)
Definition default_batch : BatchEncoding := mkBatchEncoding 0 [] [] [] [].

Definition tokens_of {St E} (b : BatchEncoding) (text_index : Z) : M St E (list Z) :=
  let start := text_index *u64 be_token_stride b in
  let! count := index (be_token_counts b) text_index in
  slice (be_token_ids b) start (start + count).

(** The texts of a worker, in order, up to the first that fails; [Vec::with_capacity]
    panics above [isize::MAX] bytes. *)
Fixpoint encode_texts {St} (t : Tokenizer) (encode_flags token_stride : Z) (texts : list (list Z)) (workspace : Workspace)
    (encodings : list Encoding) : M St TokenizerError (list Encoding * option TokenizerError) :=
  match texts with
  | [] => ret (encodings, None)
  | text :: rest => fun s =>
      if ISIZE_MAX <? 4 * token_stride then Panic else
      match encode_with_workspace t text encode_flags (mkEncodeState workspace (encoding_with_capacity token_stride)) with
      | Ret _ e => encode_texts t encode_flags token_stride rest (es_workspace e) (encodings ++ [es_encoding e]) s
      | Fails error e => Ret (encodings ++ [es_encoding e], Some error) s
      | Panic => Panic
      | OutOfFuel => OutOfFuel
      end
  end.

Definition batch_worker {St} (t : Tokenizer) (texts : list (list Z)) (first_text_index text_count encode_flags token_stride : Z)
    : M St TokenizerError (list Encoding * option TokenizerError) :=
  let! mine := slice texts first_text_index (first_text_index + text_count) in
  let maximum_text_bytes :=
    foldl (fun maximum (text : list Z) => Z.max maximum (Z.of_nat (length text) + 1)) 1 mine in
  fun s =>
    match new_workspace maximum_text_bytes s with
    | Ret workspace s' => encode_texts t encode_flags token_stride mine workspace [] s'
    | Fails error s' => Ret ([], Some error) s'
    | Panic => Panic
    | OutOfFuel => OutOfFuel
    end.

Abbreviation WorkerResult := (Z * (list Encoding * option TokenizerError))%type.

(** [(first_text_index, assigned_count)] of each worker *)
Definition worker_assignments (worker_count base_count remainder_count : Z) : list (Z * Z) :=
  snd (foldl (fun '(next_text_index, assignments) worker_index =>
    let assigned_count := base_count + b2z (worker_index <? remainder_count) in
    (next_text_index + assigned_count, assignments ++ [(next_text_index, assigned_count)])) (0, []) (range 0 worker_count)).

(** One encoding copied into the batch. *)
Definition copy_encoding {St} (token_stride text_index : Z) (encoding : Encoding) (batch : BatchEncoding) : M St TokenizerError BatchEncoding :=
  let start := text_index *u64 token_stride in
  let stop := start + Z.of_nat (length (en_token_ids encoding)) in
  do! slice (be_token_ids batch) start stop in
  do! index (be_token_counts batch) text_index in
  ret (batch <| be_token_ids := write_slice start stop (en_token_ids encoding) (be_token_ids batch) |>
             <| be_token_counts := upd_nth text_index (fun _ => Z.of_nat (length (en_token_ids encoding))) (be_token_counts batch) |>
             <| be_overflow_token_counts := upd_nth text_index (fun _ => en_overflow_token_count encoding) (be_overflow_token_counts batch) |>
             <| be_invalid_segment_counts := upd_nth text_index (fun _ => en_invalid_segment_count encoding) (be_invalid_segment_counts batch) |>).

(** The encodings of one worker copied into the batch. *)
Definition copy_encodings {St} (token_stride : Z) (result : WorkerResult) (batch : BatchEncoding) : M St TokenizerError BatchEncoding :=
  let '(first_text_index, (encodings, _)) := result in
  for_fold (zip (range 0 (Z.of_nat (length encodings))) encodings) (fun x batch =>
    copy_encoding token_stride (first_text_index + fst x) (snd x) batch) batch.

(** The threads share the tokenizer read-only and join in the order they were
    spawned; [sort_by_key] orders the results by their first text. *)
Definition run_workers {St} (t : Tokenizer) (texts : list (list Z)) (encode_flags token_stride worker_count : Z)
    : M St TokenizerError (list WorkerResult) :=
  let len := Z.of_nat (length texts) in
  if worker_count <=? 1 then
    let! r := batch_worker t texts 0 len encode_flags token_stride in ret [(0, r)]
  else
    let! results := for_fold (worker_assignments worker_count (len / worker_count) (len mod worker_count)) (fun x results =>
      let! r := batch_worker t texts (fst x) (snd x) encode_flags token_stride in
      ret (results ++ [(fst x, r)])) [] in
    ret (sort_stable (fun a b => fst a <=? fst b) results).

(** The status of the first failing worker. *)
Definition final_status (results : list WorkerResult) : option TokenizerError :=
  foldl (fun final result => match final with Some e => Some e | None => snd (snd result) end) None results.

Definition encode_batch_with_workers (t : Tokenizer) (texts : list (list Z)) (encode_flags token_stride worker_count : Z)
    : M unit TokenizerError BatchEncoding :=
  let len := Z.of_nat (length texts) in
  if negb (len =? 0) && (token_stride =? 0) then throw (InvalidArgument "token stride is zero") else
  if len =? 0 then ret default_batch else
  let worker_count := if worker_count =? 0 then MAX_PARALLEL_WORKER_COUNT else worker_count in
  let worker_count := if len <? worker_count then len else worker_count in
  let! results := run_workers t texts encode_flags token_stride worker_count in
  let zeroes := replicate (length texts) 0 in
  let size := len *u64 token_stride in
  if ISIZE_MAX <? 4 * size then panic else
  let! batch := for_fold results (copy_encodings token_stride)
    (mkBatchEncoding token_stride (replicate (Z.to_nat size) 0) zeroes zeroes zeroes) in
  match final_status results with
  | Some error => throw error
  | None => ret batch
  end.

Definition encode_batch (t : Tokenizer) (texts : list (list Z)) (encode_flags token_stride : Z) : M unit TokenizerError BatchEncoding :=
  encode_batch_with_workers t texts encode_flags token_stride
    (if 2 <=? Z.of_nat (length texts) then MAX_PARALLEL_WORKER_COUNT else 1).
