(* ===== verification/MergeHeap.v ===== *)
(** * The merge heap of the tokenizer ([crates/spark-text/src/tokenizer.rs])

    [heap_push] and [heap_pop] keep the array a binary min-heap for the order on
    [(rank, left_symbol_index)]: they add and remove exactly one candidate, and
    [heap_pop] hands out a smallest one.  Both touch nothing else of the workspace. *)

From Stdlib Require Import String.
From S2P Require Import Prelude TokenTables Tokenizer.

#[export] Instance MergeCandidate_inhabited : Inhabited MergeCandidate := populate (mkCandidate 0 0 0 0).

(** The order of the candidates. *)
Definition cle (a b : MergeCandidate) : Prop :=
  mc_rank a < mc_rank b \/ (mc_rank a = mc_rank b /\ mc_left_symbol_index a <= mc_left_symbol_index b).

#[export] Instance cle_preorder : PreOrder cle.
Proof. split; unfold cle; [intros a; lia|intros a b c; lia]. Qed.

Lemma is_less_spec a b : if is_less (compare_merge_candidates a b) then cle a b else cle b a.
Proof.
  unfold compare_merge_candidates, cle.
  destruct (Z.compare_spec (mc_rank a) (mc_rank b)); cbn; [|lia..].
  destruct (Z.compare_spec (mc_left_symbol_index a) (mc_left_symbol_index b)); cbn; lia.
Qed.

Lemma is_greater_spec a b : if is_greater (compare_merge_candidates a b) then cle b a else cle a b.
Proof.
  unfold compare_merge_candidates, cle.
  destruct (Z.compare_spec (mc_rank a) (mc_rank b)); cbn; [|lia..].
  destruct (Z.compare_spec (mc_left_symbol_index a) (mc_left_symbol_index b)); cbn; lia.
Qed.

(** ** Heap order *)

Abbreviation parent i := (((i - 1) / 2)%nat).

Lemma parent_lt i : (0 < i)%nat -> (parent i < i)%nat.
Proof. intros ?. apply Nat.Div0.div_lt_upper_bound. lia. Qed.

Definition heap_ordered (l : list MergeCandidate) : Prop :=
  forall i, (0 < i < length l)%nat -> cle (l !!! parent i) (l !!! i).

(** Ordered but for the element at [i], which may be too small... *)
Definition ordered_above (l : list MergeCandidate) (i : nat) : Prop :=
  (i < length l)%nat /\
  (forall j, (0 < j < length l)%nat -> j <> i -> cle (l !!! parent j) (l !!! j)) /\
  (forall j, (0 < j < length l)%nat -> parent j = i -> (0 < i)%nat -> cle (l !!! parent i) (l !!! j)).

(** ... or too large. *)
Definition ordered_below (l : list MergeCandidate) (i : nat) : Prop :=
  (i < length l)%nat /\
  (forall j, (0 < j < length l)%nat -> parent j <> i -> cle (l !!! parent j) (l !!! j)) /\
  (forall j, (0 < j < length l)%nat -> parent j = i -> (0 < i)%nat -> cle (l !!! parent i) (l !!! j)).

Lemma heap_min l i : heap_ordered l -> (i < length l)%nat -> cle (l !!! 0%nat) (l !!! i).
Proof.
  intros H. induction i as [i IH] using lt_wf_ind. intros Hi.
  destruct (decide (i = 0%nat)) as [->|]; [reflexivity|].
  pose proof (parent_lt i ltac:(lia)).
  etransitivity; [apply (IH (parent i)); lia|apply H; lia].
Qed.

Section swap.
Context {A : Type} `{!Inhabited A}.
Implicit Types (l : list A).

Lemma swap_at_lookup l i j : (i < length l)%nat -> (j < length l)%nat ->
  swap_at (Z.of_nat i) (Z.of_nat j) l = <[i := l !!! j]> (<[j := l !!! i]> l).
Proof.
  intros Hi Hj. unfold swap_at. rewrite !Nat2Z.id.
  destruct (lookup_lt_is_Some_2 l i Hi) as [x Hx], (lookup_lt_is_Some_2 l j Hj) as [y Hy].
  by rewrite Hx, Hy, (list_lookup_total_correct _ _ _ Hx), (list_lookup_total_correct _ _ _ Hy).
Qed.

Lemma swap_at_l l i j : (i < length l)%nat -> (j < length l)%nat ->
  swap_at (Z.of_nat i) (Z.of_nat j) l !!! i = l !!! j.
Proof.
  intros Hi Hj. rewrite swap_at_lookup by done. by rewrite list_lookup_total_insert_eq by (by rewrite length_insert).
Qed.

Lemma swap_at_r l i j : (i < length l)%nat -> (j < length l)%nat -> i <> j ->
  swap_at (Z.of_nat i) (Z.of_nat j) l !!! j = l !!! i.
Proof.
  intros Hi Hj Hne. rewrite swap_at_lookup by done.
  by rewrite list_lookup_total_insert_ne, list_lookup_total_insert_eq by done.
Qed.

Lemma swap_at_ne l i j k : (i < length l)%nat -> (j < length l)%nat -> k <> i -> k <> j ->
  swap_at (Z.of_nat i) (Z.of_nat j) l !!! k = l !!! k.
Proof. intros Hi Hj ??. rewrite swap_at_lookup by done. by rewrite !list_lookup_total_insert_ne by done. Qed.

Lemma length_swap_at i j l : length (swap_at i j l) = length l.
Proof. unfold swap_at. destruct (l !! Z.to_nat i), (l !! Z.to_nat j); by rewrite ?length_insert. Qed.

Lemma swap_at_perm l i j : (i < length l)%nat -> (j < length l)%nat -> swap_at (Z.of_nat i) (Z.of_nat j) l ≡ₚ l.
Proof.
  intros Hi Hj. unfold swap_at. rewrite !Nat2Z.id.
  destruct (lookup_lt_is_Some_2 l i Hi) as [x Hx], (lookup_lt_is_Some_2 l j Hj) as [y Hy]. rewrite Hx, Hy.
  by apply Permutation_insert_swap.
Qed.

End swap.

(** Moving a too small element up keeps all but its new place in order. *)
Lemma swap_up l i :
  ordered_above l i -> (0 < i)%nat -> cle (l !!! i) (l !!! parent i) ->
  ordered_above (swap_at (Z.of_nat i) (Z.of_nat (parent i)) l) (parent i).
Proof.
  intros (Hi & Hord & Hchild) Hpos Hle. pose proof (parent_lt i Hpos) as Hp.
  set (p := parent i) in *. assert (p < length l)%nat as Hpl by lia.
  unfold ordered_above. rewrite length_swap_at. split; [done|]. split.
  - intros j Hj Hjp. pose proof (parent_lt j ltac:(lia)).
    destruct (decide (j = i)) as [->|].
    { fold p. by rewrite swap_at_l, swap_at_r by (done || lia). }
    rewrite (swap_at_ne l i p j) by done.
    destruct (decide (parent j = i)) as [Hji|].
    { rewrite Hji, swap_at_l by done. apply Hchild; [lia|done|lia]. }
    destruct (decide (parent j = p)) as [Hjp'|].
    { rewrite Hjp', swap_at_r by (done || lia). etransitivity; [exact Hle|]. rewrite <- Hjp'. apply Hord; [lia|done]. }
    rewrite swap_at_ne by done. by apply Hord.
  - intros j Hj Hjp Hp0. pose proof (parent_lt p Hp0).
    rewrite (swap_at_ne l i p (parent p)) by lia.
    assert (cle (l !!! parent p) (l !!! p)) as Hpp by (apply Hord; lia).
    destruct (decide (j = i)) as [->|]; [by rewrite swap_at_l by done|].
    pose proof (parent_lt j ltac:(lia)). rewrite swap_at_ne by lia.
    etransitivity; [exact Hpp|]. rewrite <- Hjp. apply Hord; [lia|done].
Qed.

(** Moving a too large element down to its smallest child's place. *)
Lemma swap_down l i b :
  ordered_below l i -> (0 < b < length l)%nat -> parent b = i -> cle (l !!! b) (l !!! i) ->
  (forall j, (0 < j < length l)%nat -> parent j = i -> cle (l !!! b) (l !!! j)) ->
  ordered_below (swap_at (Z.of_nat i) (Z.of_nat b) l) b.
Proof.
  intros (Hi & Hord & Hchild) Hb Hbi Hle Hmin. pose proof (parent_lt b ltac:(lia)) as Hib. rewrite Hbi in Hib.
  unfold ordered_below. rewrite length_swap_at. split; [lia|]. split.
  - intros j Hj Hjb. pose proof (parent_lt j ltac:(lia)).
    destruct (decide (parent j = i)) as [Hji|Hji].
    { rewrite Hji, swap_at_l by lia. destruct (decide (j = b)) as [->|]; [by rewrite swap_at_r by lia|].
      rewrite swap_at_ne by lia. apply Hmin; [lia|done]. }
    rewrite (swap_at_ne l i b (parent j)) by (done || lia).
    destruct (decide (j = i)) as [->|]; [rewrite swap_at_l by lia; apply Hchild; lia|].
    rewrite swap_at_ne by (congruence || lia). by apply Hord.
  - intros j Hj Hjb _. rewrite Hbi, swap_at_l by lia. pose proof (parent_lt j ltac:(lia)).
    rewrite swap_at_ne by lia. rewrite <- Hjb. apply Hord; lia.
Qed.

(** ** The operations *)

(** Only the heap differs. *)
Definition heap_only (w w' : Workspace) : Prop := w' = w <| merge_heap := merge_heap w' |>.

Lemma heap_only_refl w : heap_only w w.
Proof. by destruct w. Qed.

Lemma heap_only_trans w1 w2 w3 : heap_only w1 w2 -> heap_only w2 w3 -> heap_only w1 w3.
Proof. unfold heap_only. destruct w1, w2, w3. cbn. intros [= ] [= ]. by subst. Qed.

Lemma heap_only_set w l : heap_only w (w <| merge_heap := l |>).
Proof. by destruct w. Qed.

Lemma merge_heap_set w l : merge_heap (w <| merge_heap := l |>) = l.
Proof. done. Qed.
#[export] Hint Resolve heap_only_refl heap_only_set : spark.

Lemma wp_index_total {S E A} `{!Inhabited A} (l : list A) (i : nat) Q (R : E -> S -> Prop) s :
  (i < length l)%nat -> Q (l !!! i) s -> wp (index l (Z.of_nat i)) Q R s.
Proof.
  intros Hi HQ. apply (wp_index _ _ _ _ _ (l !!! i)); [|done]. rewrite Nat2Z.id. by apply list_lookup_lookup_total_lt.
Qed.

Lemma heap_push_spec c w :
  heap_ordered (merge_heap w) -> Z.of_nat (length (merge_heap w)) < heap_capacity w ->
  wp (heap_push c)
    (fun _ w' => heap_only w w' /\ heap_ordered (merge_heap w') /\ merge_heap w' ≡ₚ c :: merge_heap w)
    (fun _ _ => False) w.
Proof.
  intros Hord Hroom. unfold heap_push. wp_steps. change (id w) with w.
  destruct (Z.leb_spec (heap_capacity w) (Z.of_nat (length (merge_heap w)))); [lia|]. wp_steps.
  apply (wp_loop
    (fun i w' => heap_only w w' /\ merge_heap w' ≡ₚ c :: merge_heap w /\ 0 <= i /\ ordered_above (merge_heap w') (Z.to_nat i))
    (fun i _ => Z.to_nat i)); [|lia|].
  - split_and!; [auto with spark|cbn; by rewrite (comm (++))|lia|]. cbn. rewrite Nat2Z.id.
    split_and!; [rewrite length_app; cbn; lia| |]; rewrite length_app; cbn [length].
    + intros j Hj Hne. pose proof (parent_lt j ltac:(lia)).
      rewrite !lookup_total_app_l by lia. apply Hord. lia.
    + intros j Hj Hp ?. pose proof (parent_lt j ltac:(lia)). lia.
  - intros i w' (Hw & Hperm & Hi0 & Hab). destruct (Z.leb_spec i 0); wp_steps.
    { split_and!; [done| |done]. destruct Hab as (? & Hab & _). intros j Hj. apply Hab; [lia|]. lia. }
    destruct Hab as (Hi & Hab') eqn:?. change (id w') with w'.
    replace i with (Z.of_nat (Z.to_nat i)) at 1 by lia.
    replace ((i - 1) / 2) with (Z.of_nat (parent (Z.to_nat i))) by (rewrite Nat2Z.inj_div; f_equal; lia).
    pose proof (parent_lt (Z.to_nat i) ltac:(lia)) as Hp.
    apply wp_index_total; [done|]. cbn beta. wp_steps. apply wp_index_total; [lia|]. cbn beta.
    pose proof (is_less_spec (merge_heap w' !!! Z.to_nat i) (merge_heap w' !!! parent (Z.to_nat i))) as Hless.
    destruct (is_less _); cbn [negb]; wp_steps.
    + rewrite merge_heap_set, !Nat2Z.id. split_and!; [by eapply heap_only_trans, heap_only_set| |lia| |lia].
      * replace i with (Z.of_nat (Z.to_nat i)) at 1 by lia. rewrite swap_at_perm by lia. done.
      * replace i with (Z.of_nat (Z.to_nat i)) at 1 by lia. apply swap_up; [done|lia|done].
    + split_and!; [done| |done]. intros j Hj.
      destruct (decide (j = Z.to_nat i)) as [->|]; [done|]. by apply Hab'.
Qed.

(** The children of [i] in an array of [n] elements. *)
Lemma parent_children i j : (0 < j)%nat -> parent j = i -> j = (2 * i + 1)%nat \/ j = (2 * i + 2)%nat.
Proof. intros Hj <-. pose proof (Nat.div_mod_eq (j - 1) 2). pose proof (Nat.mod_upper_bound (j - 1) 2). lia. Qed.

Lemma parent_left i : parent (2 * i + 1) = i.
Proof. replace (2 * i + 1 - 1)%nat with (i * 2)%nat by lia. by apply Nat.div_mul. Qed.

Lemma parent_right i : parent (2 * i + 2) = i.
Proof. replace (2 * i + 2 - 1)%nat with (1 + i * 2)%nat by lia. rewrite Nat.div_add by lia. done. Qed.

Lemma sift_down_spec w0 n (i : nat) w :
  length (merge_heap w) = n -> ordered_below (merge_heap w) i -> heap_only w0 w ->
  wp (sift_down (Z.of_nat n) (Z.of_nat i))
    (fun r w' => heap_only w0 w' /\ merge_heap w' ≡ₚ merge_heap w /\
       match r with
       | Continue b => exists j : nat, b = Z.of_nat j /\ (i < j < n)%nat /\ ordered_below (merge_heap w') j
       | Break _ => heap_ordered (merge_heap w')
       end) (fun _ _ => False) w.
Proof.
  intros Hn Hbelow Hw. destruct Hbelow as (Hi & Hord & Hchild) eqn:Hb. unfold sift_down. wp_steps.
  replace (Z.of_nat i * 2 + 1) with (Z.of_nat (2 * i + 1)) by lia.
  replace (Z.of_nat (2 * i + 1) + 1) with (Z.of_nat (2 * i + 2)) by lia.
  pose proof (parent_left i) as Hpl. pose proof (parent_right i) as Hpr.
  destruct (Z.leb_spec (Z.of_nat n) (Z.of_nat (2 * i + 1))) as [Hnone|Hsome]; wp_steps.
  { split_and!; [done..|]. intros j Hj. apply Hord; [done|]. intros Hji.
    destruct (parent_children i j ltac:(lia) Hji); lia. }
  change (id w) with w.
  apply (wp_mono _ (fun b s' => s' = w /\ exists j : nat, b = Z.of_nat j /\ (0 < j < n)%nat /\ parent j = i /\
    forall k, (0 < k < n)%nat -> parent k = i -> cle (merge_heap w !!! j) (merge_heap w !!! k)) _ (fun _ _ => False));
    [|intros b s' (-> & j & -> & Hj & Hji & Hmin)|done].
  { destruct (Z.ltb_spec (Z.of_nat (2 * i + 2)) (Z.of_nat n)) as [H2|H2]; wp_steps.
    - apply wp_index_total; [lia|]. cbn beta. wp_steps. apply wp_index_total; [lia|]. cbn beta. wp_steps. split; [done|].
      pose proof (is_less_spec (merge_heap w !!! (2 * i + 2)%nat) (merge_heap w !!! (2 * i + 1)%nat)) as Hless.
      destruct (is_less _).
      + exists (2 * i + 2)%nat. split_and!; [done|lia|lia|done|]. intros k Hk Hki.
        destruct (parent_children i k ltac:(lia) Hki) as [-> | ->]; [done|reflexivity].
      + exists (2 * i + 1)%nat. split_and!; [done|lia|lia|done|]. intros k Hk Hki.
        destruct (parent_children i k ltac:(lia) Hki) as [-> | ->]; [reflexivity|done].
    - split; [done|]. exists (2 * i + 1)%nat. split_and!; [done|lia|lia|done|]. intros k Hk Hki.
      destruct (parent_children i k ltac:(lia) Hki) as [-> | ->]; [reflexivity|lia]. }
  cbn beta. wp_steps. apply wp_index_total; [lia|]. cbn beta. wp_steps. apply wp_index_total; [lia|]. cbn beta.
  pose proof (is_greater_spec (merge_heap w !!! i) (merge_heap w !!! j)) as Hgr.
  destruct (is_greater _); cbn [negb]; wp_steps.
  - rewrite merge_heap_set. pose proof (parent_lt j ltac:(lia)).
    split_and!; [by eapply heap_only_trans, heap_only_set|apply swap_at_perm; lia|].
    exists j. split_and!; [done|lia|lia|]. apply swap_down; [done|lia|done|done|].
    intros k Hk. apply Hmin. lia.
  - split_and!; [done..|]. intros k Hk.
    destruct (decide (parent k = i)) as [Hki|]; [|by apply Hord].
    rewrite Hki. etransitivity; [exact Hgr|]. apply Hmin; [lia|done].
Qed.

Lemma heap_pop_spec w :
  heap_ordered (merge_heap w) ->
  wp heap_pop
    (fun o w' => heap_only w w' /\ heap_ordered (merge_heap w') /\
       match o with
       | None => merge_heap w = [] /\ w' = w
       | Some c => merge_heap w ≡ₚ c :: merge_heap w' /\ forall d, d ∈ merge_heap w -> cle c d
       end) (fun _ _ => False) w.
Proof.
  intros Hord. unfold heap_pop. wp_steps. change (id w) with w.
  destruct (merge_heap w) as [|c rest] eqn:Hheap; wp_steps;
    [split_and!; [auto with spark|by rewrite Hheap|done|done]|].
  assert (forall d, d ∈ c :: rest -> cle c d) as Hmin.
  { intros d Hd. apply list_elem_of_lookup in Hd as [i Hi].
    rewrite <- (list_lookup_total_correct _ _ _ Hi). apply (heap_min (c :: rest) i); [done|by eapply lookup_lt_Some]. }
  destruct (Z.eqb_spec (Z.of_nat (length rest)) 0) as [H0|H0]; wp_steps.
  { rewrite merge_heap_set. destruct rest; [|cbn in H0; lia].
    split_and!; [auto with spark|intros i ?; cbn in *; lia|done|done]. }
  destruct (exists_last (l := rest)) as (init & last & ->); [by intros ->|].
  apply (wp_index _ _ _ _ _ last).
  { rewrite Nat2Z.id, length_app. cbn [length]. rewrite Nat.add_1_r. cbn. by apply list_lookup_middle. }
  cbn beta. wp_steps.
  set (w1 := w <| merge_heap := take (length (init ++ [last])) (<[0%nat := last]> (merge_heap w)) |>).
  assert (merge_heap w1 = last :: init) as Hw1.
  { subst w1. rewrite merge_heap_set, Hheap, length_app. cbn [length]. rewrite Nat.add_1_r. cbn. by rewrite take_app_length. }
  eapply wp_mono with (R := fun _ _ => False).
  - apply (wp_loop (fun b w' => heap_only w w' /\ merge_heap w' ≡ₚ last :: init /\
                      exists j : nat, b = Z.of_nat j /\ ordered_below (merge_heap w') j)
             (fun b _ => (S (length init) - Z.to_nat b)%nat) _ _ _
             (fun _ w' => heap_only w w' /\ merge_heap w' ≡ₚ last :: init /\ heap_ordered (merge_heap w'))).
    + split_and!; [subst w1; auto with spark|by rewrite Hw1|]. exists 0%nat. split; [done|]. rewrite Hw1.
      split_and!; [cbn; lia| |lia]. intros j Hj Hp.
      pose proof (parent_lt j ltac:(lia)). cbn [length] in Hj.
      specialize (Hord j ltac:(cbn; rewrite length_app; cbn; lia)).
      destruct (parent j) as [|p] eqn:Hpj; [done|]. destruct j as [|j]; [lia|].
      assert (cle ((init ++ [last]) !!! p) ((init ++ [last]) !!! j)) as Hle by exact Hord.
      rewrite !lookup_total_app_l in Hle by lia. exact Hle.
    + rewrite length_app. cbn [length]. lia.
    + intros b w' (Hw' & Hperm & j & -> & Hbelow).
      eapply wp_mono; [apply (sift_down_spec w); [|done|done]| |done].
      { apply Permutation_length in Hperm. rewrite Hperm, length_app. cbn. lia. }
      intros [b|[]] w'' (Hw'' & Hperm' & Hpost); [|split_and!; [done|by rewrite Hperm'|done]].
      destruct Hpost as (k & -> & Hk & Hbelow'). rewrite length_app in Hk. cbn in Hk.
      split; [split_and!; [done|by rewrite Hperm'|by exists k]|lia].
  - intros _ w' (Hw' & Hperm & Hord'). cbn beta. wp_steps.
    split_and!; [done..| |done]. rewrite Hperm. apply perm_skip. by rewrite (comm (++)).
  - done.
Qed.
