(* ===== verification/Bpe.v ===== *)
(** * The merge loop of the tokenizer is byte-pair encoding ([crates/spark-text/src/tokenizer.rs])

    The reference: as long as two neighbouring tokens have a merge rule, the pair of
    the lowest rank, the leftmost of these, becomes one token.  The code keeps the
    symbols of a piece in a linked list over arrays, and a heap of candidates that
    may be stale.  [Sim] relates the two: the live symbols in order, the tokens they
    carry, and for every neighbouring pair with a rule a candidate in the heap with
    the current generations.  The loop then takes exactly the reference's steps. *)

From Stdlib Require Import String.
From S2P Require Import Prelude TokenTables TokenTablesProps Tokenizer MergeHeap.

(** ** Reference *)

Section reference.
Context (pairs : MergePairTable).

(** A rule applies at a position. *)
Definition pair_at (tokens : list Z) (k : nat) (p : FastMergePair) : Prop :=
  exists a b, tokens !! k = Some a /\ tokens !! S k = Some b /\ pair_entry pairs a b = Some p.

(** Two neighbours become one token. *)
Definition merge_at (k : nat) (merged : Z) (tokens : list Z) : list Z := delete (S k) (<[k := merged]> tokens).

(** The lowest rank and the leftmost position of that rank. *)
Fixpoint best_pair (tokens : list Z) : option (nat * FastMergePair) :=
  match tokens with
  | a :: ((b :: _) as rest) =>
      match pair_entry pairs a b, best_pair rest with
      | Some p, Some (k, q) => if mp_rank p <=? mp_rank q then Some (0%nat, p) else Some (S k, q)
      | Some p, None => Some (0%nat, p)
      | None, Some (k, q) => Some (S k, q)
      | None, None => None
      end
  | _ => None
  end.

Fixpoint bpe_steps (fuel : nat) (tokens : list Z) : list Z :=
  match fuel with
  | O => tokens
  | S fuel' =>
      match best_pair tokens with
      | Some (k, p) => bpe_steps fuel' (merge_at k (mp_merged_token_id p) tokens)
      | None => tokens
      end
  end.

(** Every step drops a token, so the length is enough fuel. *)
Definition bpe (tokens : list Z) : list Z := bpe_steps (length tokens) tokens.

(** [p] applies at [k] and no other rule comes before it. *)
Definition first_pair (tokens : list Z) (k : nat) (p : FastMergePair) : Prop :=
  pair_at tokens k p /\
  forall k' p', pair_at tokens k' p' -> mp_rank p < mp_rank p' \/ (mp_rank p = mp_rank p' /\ (k <= k')%nat).

Lemma best_pair_spec tokens :
  match best_pair tokens with
  | Some (k, p) => first_pair tokens k p
  | None => forall k p, ~ pair_at tokens k p
  end.
Proof.
  assert (forall a b rest k p, pair_at (a :: b :: rest) k p <->
    match k with O => pair_entry pairs a b = Some p | S k => pair_at (b :: rest) k p end) as Hcons.
  { intros a b rest [|k] p; unfold pair_at; cbn; naive_solver. }
  induction tokens as [|a [|b rest] IH]; [by intros k p (?&?&?&?&?)|by intros [|k] p (?&?&?&?&?)|].
  change (best_pair (a :: b :: rest)) with
    (match pair_entry pairs a b, best_pair (b :: rest) with
      | Some p, Some (k, q) => if mp_rank p <=? mp_rank q then Some (0%nat, p) else Some (S k, q)
      | Some p, None => Some (0%nat, p)
      | None, Some (k, q) => Some (S k, q)
      | None, None => None
      end).
  destruct (pair_entry pairs a b) as [p|] eqn:Hp, (best_pair (b :: rest)) as [[k q]|].
  - destruct IH as [Hq Hmin]. destruct (Z.leb_spec (mp_rank p) (mp_rank q)); split; [by rewrite Hcons| |by rewrite Hcons|].
    + intros [|k'] p'; rewrite Hcons; [rewrite Hp; intros [= ->]; lia|]. intros Hp'. apply Hmin in Hp'. lia.
    + intros [|k'] p'; rewrite Hcons; [rewrite Hp; intros [= ->]; lia|]. intros Hp'. apply Hmin in Hp'. lia.
  - split; [by rewrite Hcons|]. intros [|k'] p'; rewrite Hcons; [rewrite Hp; intros [= ->]; lia|]. intros Hp'. by apply IH in Hp'.
  - destruct IH as [Hq Hmin]. split; [by rewrite Hcons|].
    intros [|k'] p'; rewrite Hcons; [by rewrite Hp|]. intros Hp'. apply Hmin in Hp'. lia.
  - intros [|k'] p'; rewrite Hcons; [by rewrite Hp|apply IH].
Qed.

Lemma pair_at_fun tokens k p p' : pair_at tokens k p -> pair_at tokens k p' -> p = p'.
Proof. intros (a & b & Ha & Hb & Hp) (a' & b' & Ha' & Hb' & Hp'). congruence. Qed.

Lemma first_pair_best tokens k p : first_pair tokens k p -> best_pair tokens = Some (k, p).
Proof.
  intros [Hp Hmin]. pose proof (best_pair_spec tokens) as Hbest.
  destruct (best_pair tokens) as [[k' p']|]; [|by destruct (Hbest k p)].
  destruct Hbest as [Hp' Hmin'].
  assert (k' = k) as -> by (specialize (Hmin _ _ Hp'); specialize (Hmin' _ _ Hp); lia).
  by rewrite (pair_at_fun tokens k p p').
Qed.

Lemma length_merge_at k m tokens : (S k < length tokens)%nat -> length (merge_at k m tokens) = (length tokens - 1)%nat.
Proof.
  intros Hk. unfold merge_at. rewrite length_delete; [by rewrite length_insert|].
  apply lookup_lt_is_Some_2. by rewrite length_insert.
Qed.

(** One step of the loop of the reference. *)
Lemma bpe_first tokens k p : first_pair tokens k p -> bpe tokens = bpe (merge_at k (mp_merged_token_id p) tokens).
Proof.
  intros Hf. pose proof Hf as [(a & b & Ha & Hb & _) _]. apply lookup_lt_Some in Hb as Hlt.
  unfold bpe. rewrite length_merge_at by done. destruct (length tokens) as [|n]; [lia|]. cbn [bpe_steps].
  rewrite (first_pair_best _ _ _ Hf). by replace (S n - 1)%nat with n by lia.
Qed.

Lemma bpe_stop tokens : (forall k p, ~ pair_at tokens k p) -> bpe tokens = tokens.
Proof.
  intros H. unfold bpe. destruct (length tokens); [done|]. cbn.
  pose proof (best_pair_spec tokens) as Hb. destruct (best_pair tokens) as [[k p]|]; [|done].
  destruct Hb as [Hp _]. by apply H in Hp.
Qed.

(** The fuel is enough: no rule applies to the result. *)
Lemma bpe_normal tokens k p : ~ pair_at (bpe tokens) k p.
Proof.
  unfold bpe. remember (length tokens) as n eqn:Hn. revert tokens Hn k p.
  induction n as [|n IH]; intros tokens Hn k p.
  - cbn. intros (a & b & _ & Hb & _). apply lookup_lt_Some in Hb. lia.
  - cbn. pose proof (best_pair_spec tokens) as Hbest.
    destruct (best_pair tokens) as [[k' p']|]; [|apply Hbest].
    destruct Hbest as [(a & b & Ha & Hb & _) _]. apply lookup_lt_Some in Hb.
    apply IH. rewrite length_merge_at by done. lia.
Qed.

End reference.
