(* ===== verification/MergeLoop.v ===== *)
(** * The merge loop and the symbol list ([crates/spark-text/src/tokenizer.rs])

    [Sim n B miss w idxs]: the workspace holds the symbols [idxs] of a piece of [n]
    bytes, linked in order through the arrays.  Generations say which candidates are
    current: a candidate of a merged-away symbol is older than the symbol's
    generation.  For every neighbouring pair with a rule, except at the positions
    [miss], the heap holds its candidate; [B] bounds the heap and the symbols
    together, which bounds both the loop and the heap's capacity. *)

From Stdlib Require Import String.
From S2P Require Import Prelude TokenTables TokenTablesProps Tokenizer MergeHeap Bpe.

Definition link (o : option nat) : Z := match o with Some j => Z.of_nat j | None => SYMBOL_NONE end.

(** The current candidate of two neighbours. *)
Definition candidate_of (w : Workspace) (p : FastMergePair) (i j : nat) : MergeCandidate :=
  mkCandidate (mp_rank p) (Z.of_nat i) (symbol_generations w !!! i) (symbol_generations w !!! j).

(** The tokens the symbols carry. *)
Definition symbols (w : Workspace) (idxs : list nat) : list Z := (fun i => symbol_token_ids w !!! i) <$> idxs.

(** What the merge loop leaves alone: the cache, the sizes and the capacities. *)
Record frame (w w' : Workspace) : Prop := {
  fr_maximum : maximum_symbol_count w' = maximum_symbol_count w;
  fr_capacity : heap_capacity w' = heap_capacity w;
  fr_entries : piece_cache_entries w' = piece_cache_entries w;
  fr_pool : piece_cache_token_pool w' = piece_cache_token_pool w;
  fr_used : piece_cache_token_used w' = piece_cache_token_used w;
  fr_tokens : length (symbol_token_ids w') = length (symbol_token_ids w);
  fr_previous : length (previous_symbol_indices w') = length (previous_symbol_indices w);
  fr_next : length (next_symbol_indices w') = length (next_symbol_indices w);
  fr_generations : length (symbol_generations w') = length (symbol_generations w);
}.

#[export] Instance frame_preorder : PreOrder frame.
Proof. split; [by intros w; split|]. intros w1 w2 w3 [] []. split; congruence. Qed.

Lemma heap_only_frame w w' : heap_only w w' -> frame w w'.
Proof. intros ->. by split. Qed.
#[export] Hint Resolve heap_only_frame : spark.

Section loop.
Context (t : Tokenizer) (Hpairs : wf_pairs (tk_merge_pairs t)).
Abbreviation pairs := (tk_merge_pairs t).

Record Sim (n B : nat) (miss : nat -> Prop) (w : Workspace) (idxs : list nat) : Prop := {
  sim_room : Z.of_nat B < heap_capacity w;
  sim_small : Z.of_nat n < SYMBOL_NONE;
  sim_arrays : (n <= length (symbol_token_ids w) /\ n <= length (previous_symbol_indices w) /\
                n <= length (next_symbol_indices w) /\ n <= length (symbol_generations w))%nat;
  sim_head : idxs !! 0%nat = Some 0%nat;
  sim_sorted : forall j k x y, idxs !! j = Some x -> idxs !! k = Some y -> (j < k)%nat -> (x < y)%nat;
  sim_bound : forall k i, idxs !! k = Some i -> (i < n)%nat;
  sim_next : forall k i, idxs !! k = Some i -> next_symbol_indices w !!! i = link (idxs !! S k);
  sim_prev : forall k i, idxs !! k = Some i ->
    previous_symbol_indices w !!! i = match k with O => SYMBOL_NONE | S k' => link (idxs !! k') end;
  sim_gen : forall i, (i < n)%nat -> 1 <= symbol_generations w !!! i <= 1 + Z.of_nat n - Z.of_nat (length idxs);
  sim_heap : heap_ordered (merge_heap w);
  sim_old : forall c, c ∈ merge_heap w -> exists i, mc_left_symbol_index c = Z.of_nat i /\ (i < n)%nat /\
    mc_left_generation c <= symbol_generations w !!! i /\
    (i ∉ idxs -> mc_left_generation c < symbol_generations w !!! i);
  sim_complete : forall k p i j, ~ miss k -> pair_at pairs (symbols w idxs) k p ->
    idxs !! k = Some i -> idxs !! S k = Some j -> candidate_of w p i j ∈ merge_heap w;
  sim_size : (length (merge_heap w) + 2 * length idxs <= B)%nat;
}.

Lemma sim_position n B miss w idxs j k i : Sim n B miss w idxs -> idxs !! j = Some i -> idxs !! k = Some i -> j = k.
Proof.
  intros Hsim Hj Hk. destruct (decide (j = k)) as [|Hne]; [done|].
  destruct (decide (j < k)%nat).
  - pose proof (sim_sorted _ _ _ _ _ Hsim j k i i Hj Hk). lia.
  - pose proof (sim_sorted _ _ _ _ _ Hsim k j i i Hk Hj). lia.
Qed.

Lemma sim_weaken n B B' (miss miss' : nat -> Prop) w idxs :
  Sim n B miss w idxs -> (B <= B')%nat -> Z.of_nat B' < heap_capacity w -> (forall k, miss k -> miss' k) -> Sim n B' miss' w idxs.
Proof. intros [] ???. split; try done; [|lia]. intros k p i j Hm. eapply sim_complete0. naive_solver. Qed.

(** The same symbols over another heap. *)
Lemma sim_set_heap n B B' miss (miss' : nat -> Prop) w idxs h :
  Sim n B miss w idxs -> Z.of_nat B' < heap_capacity w -> heap_ordered h ->
  (forall c, c ∈ h -> c ∈ merge_heap w \/
     exists i, i ∈ idxs /\ mc_left_symbol_index c = Z.of_nat i /\ mc_left_generation c = symbol_generations w !!! i) ->
  (forall k p i j, ~ miss' k -> pair_at pairs (symbols w idxs) k p ->
     idxs !! k = Some i -> idxs !! S k = Some j -> candidate_of w p i j ∈ h) ->
  (length h + 2 * length idxs <= B')%nat ->
  Sim n B' miss' (w <| merge_heap := h |>) idxs.
Proof.
  intros Hsim Hroom Hord Hold Hcomp Hsize. pose proof Hsim as []. split; try done.
  intros c Hc. destruct (Hold c Hc) as [Hin|(i & Hi & Hci & Hg)]; [by apply sim_old0|].
  pose proof Hi as [k Hk]%list_elem_of_lookup. exists i. split_and!; [done|by eapply sim_bound0|cbn; lia|].
  intros Hn. by destruct Hn.
Qed.

Lemma wp_find_pair {St E} a b Q (R : E -> St -> Prop) s :
  Q (pair_entry pairs a b) s -> wp (find_pair pairs a b) Q R s.
Proof. intros H. unfold wp. by rewrite find_pair_spec. Qed.

Lemma pair_at_symbols w idxs k i j p :
  idxs !! k = Some i -> idxs !! S k = Some j ->
  pair_at pairs (symbols w idxs) k p <-> pair_entry pairs (symbol_token_ids w !!! i) (symbol_token_ids w !!! j) = Some p.
Proof.
  intros Hi Hj. unfold pair_at, symbols. rewrite !list_lookup_fmap, Hi, Hj. cbn. naive_solver.
Qed.

Lemma pair_at_indices w idxs k p :
  pair_at pairs (symbols w idxs) k p -> exists i j, idxs !! k = Some i /\ idxs !! S k = Some j.
Proof.
  intros (a & b & Ha & Hb & _). apply list_lookup_fmap_Some in Ha as (i & _ & Hi), Hb as (j & _ & Hj). eauto.
Qed.

Lemma link_none n B miss w idxs k : Sim n B miss w idxs -> link (idxs !! k) = SYMBOL_NONE <-> idxs !! k = None.
Proof.
  intros Hsim. destruct (idxs !! k) as [i|] eqn:Hk; cbn; [|done].
  pose proof (sim_bound _ _ _ _ _ Hsim _ _ Hk). pose proof (sim_small _ _ _ _ _ Hsim). split; [lia|done].
Qed.

(** Pushing the candidate of a live symbol completes its position. *)
Lemma push_live n B miss w idxs k i :
  Sim n B miss w idxs -> idxs !! k = Some i -> Z.of_nat (S B) < heap_capacity w ->
  wp (push_pair_candidate t (Z.of_nat i))
    (fun _ w' => heap_only w w' /\ Sim n (S B) (fun m => miss m /\ m <> k) w' idxs)
    (fun _ _ => False) w.
Proof.
  intros Hsim Hk Hroom. pose proof (sim_bound _ _ _ _ _ Hsim _ _ Hk) as Hi.
  pose proof (sim_small _ _ _ _ _ Hsim) as Hsmall. pose proof (sim_arrays _ _ _ _ _ Hsim) as Harr.
  assert ((forall p, ~ pair_at pairs (symbols w idxs) k p) -> Sim n (S B) (fun m => miss m /\ m <> k) w idxs) as Hnone.
  { intros Hno. pose proof Hsim as []. split; try done; [|lia]. intros m p x y Hm Hp. eapply sim_complete0; [|done].
    intros Hmiss. apply Hm. split; [done|]. intros ->. by apply Hno in Hp. }
  unfold push_pair_candidate. destruct (Z.eqb_spec (Z.of_nat i) SYMBOL_NONE); [lia|]. wp_steps. change (id w) with w.
  apply wp_index_total; [lia|]. cbn beta. rewrite (sim_next _ _ _ _ _ Hsim _ _ Hk).
  destruct (idxs !! S k) as [j|] eqn:Hj; cbn [link].
  2:{ destruct (Z.eqb_spec SYMBOL_NONE SYMBOL_NONE); [|done]. wp_steps. split; [auto with spark|]. apply Hnone.
      intros p Hp. apply pair_at_indices in Hp as (x & y & _ & Hy). congruence. }
  pose proof (sim_bound _ _ _ _ _ Hsim _ _ Hj) as Hjn.
  destruct (Z.eqb_spec (Z.of_nat j) SYMBOL_NONE); [lia|]. wp_steps.
  apply wp_index_total; [lia|]. cbn beta. wp_steps. apply wp_index_total; [lia|]. cbn beta. wp_steps.
  apply wp_find_pair. destruct (pair_entry pairs _ _) as [p|] eqn:Hp.
  2:{ wp_steps. split; [auto with spark|]. apply Hnone. intros p. rewrite pair_at_symbols by done. congruence. }
  wp_steps. apply wp_index_total; [lia|]. cbn beta. wp_steps. apply wp_index_total; [lia|]. cbn beta.
  fold (candidate_of w p i j).
  pose proof (sim_size _ _ _ _ _ Hsim) as Hsize.
  eapply wp_mono; [apply heap_push_spec; [by eapply sim_heap|lia]| |done].
  intros _ w' (Hw & Hord & Hperm). split; [done|]. rewrite Hw.
  apply (sim_set_heap n B (S B) miss); [done|done|done| | |apply Permutation_length in Hperm; cbn in Hperm; lia].
  - intros c. rewrite Hperm. intros [->|Hc]%elem_of_cons; [right|by left].
    exists i. split; [by eapply list_elem_of_lookup_2|done].
  - intros m q x y Hm Hq Hx Hy. rewrite Hperm. destruct (decide (m = k)) as [->|Hne].
    + rewrite (pair_at_symbols w idxs k x y) in Hq by done. simplify_eq. by left.
    + right. eapply sim_complete; [done| |done..]. naive_solver.
Qed.


(** ** Splicing *)

Definition bump (i j : nat) (gens : list Z) : list Z :=
  upd_nth (Z.of_nat j) (fun g => g +u32 1) (upd_nth (Z.of_nat i) (fun g => g +u32 1) gens).

Definition spliced (w : Workspace) (i j : nat) (merged : Z) (o : option nat) : Workspace :=
  w <| symbol_token_ids := <[i := merged]> (symbol_token_ids w) |>
    <| next_symbol_indices := <[i := link o]> (next_symbol_indices w) |>
    <| previous_symbol_indices := match o with Some x => <[x := Z.of_nat i]> (previous_symbol_indices w)
                                             | None => previous_symbol_indices w end |>
    <| symbol_generations := bump i j (symbol_generations w) |>.

Lemma spliced_frame w i j merged o : frame w (spliced w i j merged o).
Proof. split; try done; cbn; unfold bump; rewrite ?length_upd_nth, ?length_insert; try done. destruct o; by rewrite ?length_insert. Qed.

Lemma splice_spec n B miss w idxs k i j merged :
  Sim n B miss w idxs -> idxs !! k = Some i -> idxs !! S k = Some j ->
  wp (splice_symbols (Z.of_nat i) (Z.of_nat j) merged (link (idxs !! S (S k))))
    (fun _ w' => w' = spliced w i j merged (idxs !! S (S k))) (fun _ _ => False) w.
Proof.
  intros Hsim Hi Hj. pose proof (sim_arrays _ _ _ _ _ Hsim) as Harr.
  unfold splice_symbols, spliced, bump. wp_steps.
  destruct (idxs !! S (S k)) as [x|] eqn:Hx; cbn [link].
  - pose proof (sim_bound _ _ _ _ _ Hsim _ _ Hx) as Hxn. pose proof (sim_small _ _ _ _ _ Hsim).
    destruct (Z.eqb_spec (Z.of_nat x) SYMBOL_NONE); [lia|]. cbn [negb]. wp_steps.
    apply wp_index_total; [cbn; lia|]. cbn beta. wp_steps. rewrite !upd_nth_const, !Nat2Z.id. by destruct w.
  - destruct (Z.eqb_spec SYMBOL_NONE SYMBOL_NONE); [|done]. cbn [negb]. wp_steps.
    rewrite !upd_nth_const, !Nat2Z.id. by destruct w.
Qed.

Lemma lookup_upd_nat {A} (i : nat) (f : A -> A) l x : l !! i = Some x -> upd_nth (Z.of_nat i) f l !! i = Some (f x).
Proof. pose proof (lookup_upd_nth_eq (Z.of_nat i) f l x) as H. by rewrite Nat2Z.id in H. Qed.

Lemma bump_lookup n i j gens x :
  (n <= length gens)%nat -> (x < n)%nat -> i <> j -> 0 <= gens !!! x < U32_MAX ->
  bump i j gens !!! x = gens !!! x + (if bool_decide (x = i \/ x = j) then 1 else 0).
Proof.
  intros Hn Hx Hij Hg. unfold bump.
  destruct (lookup_lt_is_Some_2 gens x ltac:(lia)) as [g Hgx].
  assert (gens !!! x = g) as Heq by (by apply list_lookup_total_correct). rewrite Heq in *.
  assert (g +u32 1 = g + 1) as Hu by (apply u32_small; lia).
  apply list_lookup_total_correct. case_bool_decide as Hxij.
  - destruct (decide (x = j)) as [->|].
    + rewrite (lookup_upd_nat _ _ _ g); [by rewrite Hu|]. by rewrite lookup_upd_nth_ne by lia.
    + destruct Hxij as [->|]; [|done]. rewrite lookup_upd_nth_ne by lia.
      by rewrite (lookup_upd_nat _ _ _ g), Hu.
  - rewrite !lookup_upd_nth_ne by (intros ?; apply Hxij; lia). by rewrite Hgx, Z.add_0_r.
Qed.

Lemma symbols_spliced n B miss w idxs k i j merged :
  Sim n B miss w idxs -> idxs !! k = Some i -> idxs !! S k = Some j ->
  symbols (spliced w i j merged (idxs !! S (S k))) (delete (S k) idxs) = merge_at k merged (symbols w idxs).
Proof.
  intros Hsim Hi Hj. unfold symbols, merge_at. rewrite list_fmap_delete. f_equal.
  apply list_eq. intros m. rewrite list_lookup_fmap. cbn.
  destruct (decide (k = m)) as [<-|Hne].
  - rewrite Hi, list_lookup_insert_eq by (rewrite length_fmap; by eapply lookup_lt_Some). cbn.
    pose proof (sim_bound _ _ _ _ _ Hsim _ _ Hi). pose proof (sim_arrays _ _ _ _ _ Hsim).
    by rewrite list_lookup_total_insert_eq by lia.
  - rewrite list_lookup_insert_ne, list_lookup_fmap by done. destruct (idxs !! m) as [x|] eqn:Hm; [|done]. cbn.
    rewrite list_lookup_total_insert_ne; [done|]. intros ->. apply Hne. by eapply sim_position.
Qed.

Section spliced.
Context (n B k i j : nat) (miss : nat -> Prop) (w : Workspace) (idxs : list nat) (merged : Z).
Context (Hsim : Sim n B miss w idxs) (Hi : idxs !! k = Some i) (Hj : idxs !! S k = Some j).
Abbreviation w' := (spliced w i j merged (idxs !! S (S k))).
Abbreviation idxs' := (delete (S k) idxs).

Lemma spliced_lookup m : idxs' !! m = if (m <=? k)%nat then idxs !! m else idxs !! S m.
Proof.
  destruct (Nat.leb_spec m k); [by apply list_lookup_delete_lt; lia|apply list_lookup_delete_ge; lia].
Qed.

Lemma spliced_ne : i <> j.
Proof. pose proof (sim_sorted _ _ _ _ _ Hsim k (S k) i j Hi Hj ltac:(lia)). lia. Qed.

Lemma spliced_length : length idxs' = (length idxs - 1)%nat.
Proof. apply length_delete. eauto. Qed.

Lemma spliced_next m x : idxs' !! m = Some x -> next_symbol_indices w' !!! x = link (idxs' !! S m).
Proof.
  pose proof (sim_arrays _ _ _ _ _ Hsim). pose proof (sim_bound _ _ _ _ _ Hsim _ _ Hi).
  change (next_symbol_indices w') with (<[i := link (idxs !! S (S k))]> (next_symbol_indices w)).
  rewrite !spliced_lookup. intros Hx. destruct (decide (x = i)) as [->|Hne].
  - assert (m = k) as ->.
    { destruct (Nat.leb_spec m k); [by eapply sim_position|]. enough (S m = k) by lia. by eapply sim_position. }
    destruct (Nat.leb_spec (S k) k); [lia|]. by rewrite list_lookup_total_insert_eq by lia.
  - rewrite list_lookup_total_insert_ne by done.
    destruct (Nat.leb_spec m k).
    + rewrite (sim_next _ _ _ _ _ Hsim _ _ Hx). destruct (Nat.leb_spec (S m) k); [done|].
      replace m with k in * by lia. congruence.
    + rewrite (sim_next _ _ _ _ _ Hsim _ _ Hx). destruct (Nat.leb_spec (S m) k); [lia|done].
Qed.

Lemma spliced_prev m x : idxs' !! m = Some x ->
  previous_symbol_indices w' !!! x = match m with O => SYMBOL_NONE | S m' => link (idxs' !! m') end.
Proof.
  pose proof (sim_arrays _ _ _ _ _ Hsim) as Harr.
  rewrite spliced_lookup. intros Hx.
  assert (forall m0, m0 <> S (S k) -> idxs !! m0 = Some x -> previous_symbol_indices w' !!! x = previous_symbol_indices w !!! x) as Hkeep.
  { intros m0 Hne Hm0. cbn. destruct (idxs !! S (S k)) as [y|] eqn:Hy; [|done].
    rewrite list_lookup_total_insert_ne; [done|]. intros ->. apply Hne. by eapply sim_position. }
  destruct (Nat.leb_spec m k).
  - rewrite (Hkeep m) by (done || lia). rewrite (sim_prev _ _ _ _ _ Hsim _ _ Hx).
    destruct m as [|m]; [done|]. rewrite spliced_lookup. destruct (Nat.leb_spec m k); [done|lia].
  - destruct m as [|m]; [lia|]. rewrite spliced_lookup. destruct (decide (m = k)) as [->|Hne].
    + destruct (Nat.leb_spec k k); [|lia]. rewrite Hi. cbn. rewrite Hx.
      pose proof (sim_bound _ _ _ _ _ Hsim _ _ Hx). by rewrite list_lookup_total_insert_eq by lia.
    + rewrite (Hkeep (S (S m))) by (done || lia). rewrite (sim_prev _ _ _ _ _ Hsim _ _ Hx).
      destruct (Nat.leb_spec m k); [lia|done].
Qed.

Lemma spliced_gen x : (x < n)%nat ->
  symbol_generations w' !!! x = symbol_generations w !!! x + (if bool_decide (x = i \/ x = j) then 1 else 0).
Proof.
  intros Hx. pose proof (sim_arrays _ _ _ _ _ Hsim). pose proof (sim_gen _ _ _ _ _ Hsim x Hx).
  pose proof (sim_small _ _ _ _ _ Hsim). unfold SYMBOL_NONE in *. apply (bump_lookup n); [lia|done|by apply spliced_ne|].
  assert (0 < length idxs)%nat by (by eapply lookup_lt_Some, sim_head). lia.
Qed.

(** Away from the merge the pairs and their candidates are as before. *)
Lemma spliced_complete m p x y :
  (forall m, miss m -> m = k) -> m <> k -> S m <> k -> pair_at pairs (symbols w' idxs') m p ->
  idxs' !! m = Some x -> idxs' !! S m = Some y -> candidate_of w' p x y ∈ merge_heap w.
Proof.
  intros Hmiss Hmk Hmk' Hp Hx Hy.
  assert (exists m0, m0 <> k /\ m0 <> S k /\ S m0 <> k /\ idxs !! m0 = Some x /\ idxs !! S m0 = Some y) as (m0 & H0 & H1 & H2 & Hx0 & Hy0).
  { rewrite !spliced_lookup in Hx, Hy. destruct (Nat.leb_spec m k).
    - destruct (Nat.leb_spec (S m) k); [|lia]. exists m. split_and!; [lia..|done|done].
    - destruct (Nat.leb_spec (S m) k); [lia|]. exists (S m). split_and!; [lia..|done|done]. }
  assert (forall z m', m' <> k -> m' <> S k -> idxs !! m' = Some z -> z <> i /\ z <> j) as Hother.
  { intros z m' ? ? Hz. split; intros ->; [destruct (sim_position _ _ _ _ _ m' k i Hsim); naive_solver|].
    destruct (sim_position _ _ _ _ _ m' (S k) j Hsim); naive_solver. }
  destruct (Hother x m0) as [Hxi Hxj]; [done..|]. destruct (Hother y (S m0)) as [Hyi Hyj]; [lia..|done|].
  pose proof (sim_bound _ _ _ _ _ Hsim _ _ Hx0). pose proof (sim_bound _ _ _ _ _ Hsim _ _ Hy0).
  rewrite (pair_at_symbols _ _ m x y) in Hp by done. cbn in Hp. rewrite !list_lookup_total_insert_ne in Hp by done.
  rewrite <- (pair_at_symbols w idxs m0 x y) in Hp by done.
  unfold candidate_of. rewrite !spliced_gen by done. rewrite !bool_decide_eq_false_2 by naive_solver. rewrite !Z.add_0_r.
  eapply (sim_complete _ _ _ _ _ Hsim m0); [|done..]. intros Hm. by apply Hmiss in Hm.
Qed.

Lemma sim_splice :
  (forall m, miss m -> m = k) ->
  Sim n (B - 2) (fun m => m = k \/ S m = k) w' idxs'.
Proof.
  intros Hmiss. pose proof Hsim as [Hroom Hsmall Harr Hhead Hsorted Hbound Hnext Hprev Hgen Hheap Hold Hcomp Hsize].
  assert (2 <= length idxs)%nat by (apply lookup_lt_Some in Hj; lia).
  assert (forall m x, idxs' !! m = Some x -> exists m', idxs !! m' = Some x /\ (m = m' /\ m <= k \/ S m = m' /\ k < m)%nat) as Hback.
  { intros m x. rewrite spliced_lookup. destruct (Nat.leb_spec m k); eauto 10. }
  split; try done.
  - cbn. lia.
  - cbn. unfold bump. rewrite !length_upd_nth, !length_insert. destruct (idxs !! S (S k)); rewrite ?length_insert; done.
  - by rewrite spliced_lookup.
  - intros a b x y Ha Hb Hab. apply Hback in Ha as (a' & Ha & Ha'), Hb as (b' & Hb & Hb').
    eapply (Hsorted a' b'); [done..|lia].
  - intros m x Hm. apply Hback in Hm as (m' & Hm & _). by eapply Hbound.
  - apply spliced_next.
  - apply spliced_prev.
  - intros x Hx. rewrite spliced_gen, spliced_length by done. specialize (Hgen x Hx). case_bool_decide; lia.
  - intros c Hc. destruct (Hold c Hc) as (x & Hcx & Hx & Hle & Hlt). exists x. rewrite spliced_gen by done.
    split_and!; [done|done|case_bool_decide; lia|]. intros Hdead.
    case_bool_decide as Hxij; [lia|]. rewrite Z.add_0_r. apply Hlt. intros Hin. apply Hdead.
    apply list_elem_of_lookup in Hin as [m Hm].
    destruct (decide (m <= k)%nat).
    + apply (list_elem_of_lookup_2 _ m). rewrite spliced_lookup. by destruct (Nat.leb_spec m k); [|lia].
    + assert (m <> S k) by (intros ->; naive_solver). apply (list_elem_of_lookup_2 _ (m - 1)). rewrite spliced_lookup.
      destruct (Nat.leb_spec (m - 1) k); [lia|]. by replace (S (m - 1)) with m by lia.
  - intros m p x y Hm Hp Hx Hy. eapply spliced_complete; [done| | |done..]; naive_solver.
  - rewrite spliced_length. cbn. lia.
Qed.
End spliced.

(** ** The loop *)

Abbreviation none := (fun _ : nat => False).

(** The heap and the symbols, which every round makes smaller. *)
Definition weight (w : Workspace) (idxs : list nat) : nat := (length (merge_heap w) + 2 * length idxs)%nat.

Lemma sim_tight n B miss w idxs : Sim n B miss w idxs -> Sim n (weight w idxs) miss w idxs.
Proof. intros []. split; try done. unfold weight. lia. Qed.

(** A popped candidate that is not current leaves the symbols complete. *)
Lemma sim_pop n B w idxs c h (miss : nat -> Prop) :
  Sim n B none w idxs -> merge_heap w ≡ₚ c :: h -> heap_ordered h ->
  (forall k p i j, pair_at pairs (symbols w idxs) k p -> idxs !! k = Some i -> idxs !! S k = Some j ->
     candidate_of w p i j = c -> miss k) ->
  Sim n (weight w idxs - 1) miss (w <| merge_heap := h |>) idxs.
Proof.
  intros Hsim Hperm Hord Hmiss. pose proof (sim_tight _ _ _ _ _ Hsim) as Ht.
  pose proof (Permutation_length Hperm) as Hl. cbn in Hl.
  apply (sim_set_heap _ _ _ _ _ _ _ _ Ht); [pose proof (sim_room _ _ _ _ _ Ht); lia|done| | |unfold weight; lia].
  - intros c' Hc'. left. rewrite Hperm. by right.
  - intros k p i j Hm Hp Hi Hj.
    assert (candidate_of w p i j ∈ merge_heap w) as Hin by (by eapply (sim_complete _ _ _ _ _ Hsim); eauto).
    rewrite Hperm in Hin. apply elem_of_cons in Hin as [Hc|]; [|done]. destruct Hm. by eapply Hmiss.
Qed.

(** The popped candidate that passes the checks is the reference's choice. *)
Lemma sim_first n B w idxs c k p i j :
  Sim n B none w idxs -> (forall d, d ∈ merge_heap w -> cle c d) ->
  pair_at pairs (symbols w idxs) k p -> idxs !! k = Some i -> idxs !! S k = Some j ->
  mc_rank c = mp_rank p -> mc_left_symbol_index c = Z.of_nat i ->
  first_pair pairs (symbols w idxs) k p.
Proof.
  intros Hsim Hmin Hp Hi Hj Hr Hc. split; [done|]. intros k' p' Hp'.
  destruct (pair_at_indices _ _ _ _ Hp') as (i' & j' & Hi' & Hj').
  pose proof (Hmin _ (sim_complete _ _ _ _ _ Hsim k' p' i' j' (fun H => H) Hp' Hi' Hj')) as Hle.
  unfold cle in Hle. cbn in Hle. rewrite Hr, Hc in Hle.
  destruct Hle as [Hlt|[Heq Hii]]; [by left|]. right. split; [done|].
  destruct (decide (k <= k')%nat); [done|]. pose proof (sim_sorted _ _ _ _ _ Hsim k' k i' i Hi' Hi). lia.
Qed.

(** What a round leaves: the symbols of a reference step, or the same ones. *)
Definition round_post (n : nat) (w : Workspace) (idxs : list nat) (r : flow Z Z) (w' : Workspace) : Prop :=
  frame w w' /\
  match r with
  | Continue live => exists idxs', live = Z.of_nat (length idxs') /\ (weight w' idxs' < weight w idxs)%nat /\
      Sim n (weight w' idxs') none w' idxs' /\ bpe pairs (symbols w' idxs') = bpe pairs (symbols w idxs)
  | Break live => live = Z.of_nat (length idxs) /\ w' = w /\
      forall k p, ~ pair_at pairs (symbols w idxs) k p
  end.

Lemma round_skip n B w idxs c h :
  Sim n B none w idxs -> merge_heap w ≡ₚ c :: h -> heap_ordered h ->
  (forall k p i j, pair_at pairs (symbols w idxs) k p -> idxs !! k = Some i -> idxs !! S k = Some j ->
     candidate_of w p i j = c -> False) ->
  round_post n w idxs (Continue (Z.of_nat (length idxs))) (w <| merge_heap := h |>).
Proof.
  intros Hsim Hperm Hord Hmiss. pose proof (sim_pop _ _ _ _ _ _ _ Hsim Hperm Hord Hmiss) as Hs.
  pose proof (Permutation_length Hperm) as Hl. cbn in Hl.
  split; [by auto with spark|].
  exists idxs. split_and!; [done|unfold weight; cbn; lia|by eapply sim_tight|done].
Qed.

Lemma heap_only_symbols w w' idxs : heap_only w w' -> symbols w' idxs = symbols w idxs.
Proof. intros ->. done. Qed.

(** The round that merges. *)
Lemma round_merge n w idxs w1 k i j p c h :
  Sim n (weight w idxs) none w idxs -> merge_heap w ≡ₚ c :: h -> heap_ordered h -> w1 = w <| merge_heap := h |> ->
  idxs !! k = Some i -> idxs !! S k = Some j -> first_pair pairs (symbols w idxs) k p -> mc_left_symbol_index c = Z.of_nat i ->
  wp (do! splice_symbols (Z.of_nat i) (Z.of_nat j) (mp_merged_token_id p) (link (idxs !! S (S k))) in
      do! push_pair_candidate t (match k with O => SYMBOL_NONE | S k' => link (idxs !! k') end) in
      do! push_pair_candidate t (Z.of_nat i) in
      ret (Continue (Z.of_nat (length idxs) - 1))) (round_post n w idxs) (fun _ _ => False) w1.
Proof.
  intros Hsim Hperm Hord Hw1 Hi Hj Hfirst Hc. pose proof (Permutation_length Hperm) as Hl. cbn in Hl.
  assert (Sim n (weight w idxs - 1) (fun m => m = k) w1 idxs) as Hs1.
  { rewrite Hw1. apply (sim_pop n (weight w idxs) w idxs c); [done..|]. intros k' p' i' j' _ Hi' _ Hcand. subst c. cbn in Hc.
    eapply sim_position; [done|exact Hi'|]. by replace i' with i by lia. }
  apply lookup_lt_Some in Hj as Hjl.
  wp_steps. eapply wp_mono; [by eapply splice_spec| |done]. cbn beta. intros _ w2 Hw2.
  pose proof (sim_splice _ _ _ _ _ _ _ _ (mp_merged_token_id p) Hs1 Hi Hj ltac:(done)) as Hs2. rewrite <- Hw2 in Hs2.
  pose proof (symbols_spliced _ _ _ _ _ _ _ _ (mp_merged_token_id p) Hs1 Hi Hj) as Hsym. rewrite <- Hw2 in Hsym.
  set (idxs' := delete (S k) idxs) in *.
  assert (length idxs' = (length idxs - 1)%nat) as Hlen by (by apply length_delete; eauto).
  assert (idxs' !! k = Some i) as Hi' by (subst idxs'; rewrite list_lookup_delete_lt by lia; done).
  pose proof (sim_room _ _ _ _ _ Hsim) as Hroom. unfold weight in *.
  assert (heap_capacity w2 = heap_capacity w) as Hcap by (by rewrite Hw2, Hw1).
  wp_steps.
  eapply (wp_mono _ (fun _ w3 => heap_only w2 w3 /\ Sim n (weight w idxs - 2) (fun m => m = k) w3 idxs') _ (fun _ _ => False)); [| |done].
  { destruct k as [|k'].
    - unfold push_pair_candidate. destruct (Z.eqb_spec SYMBOL_NONE SYMBOL_NONE); [|done]. wp_steps. split; [auto with spark|].
      eapply sim_weaken; [exact Hs2|unfold weight; lia|unfold weight; lia|]. intros m [->|?]; [done|lia].
    - destruct (lookup_lt_is_Some_2 idxs k') as [x Hx]; [lia|]. rewrite Hx. cbn [link].
      eapply wp_mono; [eapply (push_live _ _ _ _ idxs' k'); [exact Hs2| |lia]| |done].
      { subst idxs'. by rewrite list_lookup_delete_lt by lia. }
      intros _ w3 [Hw3 Hs3]. split; [done|].
      eapply sim_weaken; [exact Hs3|unfold weight; lia|rewrite Hw3; cbn; unfold weight; lia|]. intros m [[->|?] ?]; [done|lia]. }
  cbn beta. intros _ w3 [Hw3 Hs3]. wp_steps.
  eapply wp_mono; [eapply (push_live _ _ _ _ idxs' k); [exact Hs3|done|rewrite Hw3; cbn; unfold weight; lia]| |done].
  intros _ w4 [Hw4 Hs4]. cbn beta. wp_steps. split.
  { etransitivity; [|by apply heap_only_frame, Hw4]. etransitivity; [|by apply heap_only_frame, Hw3].
    rewrite Hw2. etransitivity; [|apply spliced_frame]. rewrite Hw1. auto with spark. }
  exists idxs'. pose proof (sim_size _ _ _ _ _ Hs4) as Hsize. unfold weight in *.
  split_and!; [rewrite Hlen; lia|lia| |].
  - eapply sim_tight, sim_weaken; [exact Hs4|done|by eapply sim_room|naive_solver].
  - rewrite (heap_only_symbols w3 w4), (heap_only_symbols w2 w3), Hsym by done.
    replace (symbols w1 idxs) with (symbols w idxs) by (by rewrite Hw1). by rewrite <- bpe_first.
Qed.

(** A popped candidate is skipped when it is not the current one of its symbols, else merged. *)
Lemma apply_candidate_spec n w idxs c h :
  Sim n (weight w idxs) none w idxs -> merge_heap w ≡ₚ c :: h -> heap_ordered h -> (forall d, d ∈ merge_heap w -> cle c d) ->
  wp (apply_candidate t (Z.of_nat n) (Z.of_nat (length idxs)) c) (round_post n w idxs) (fun _ _ => False) (w <| merge_heap := h |>).
Proof.
  intros Hsim Hperm Hord Hmin. pose proof (round_skip n _ w idxs c h Hsim Hperm Hord) as Hskip.
  assert (c ∈ merge_heap w) as Hcin by (rewrite Hperm; by left).
  destruct (sim_old _ _ _ _ _ Hsim c Hcin) as (i & Hci & Hin & Hge & Hdead).
  pose proof (sim_arrays _ _ _ _ _ Hsim) as Harr. pose proof (sim_small _ _ _ _ _ Hsim) as Hsmall.
  unfold apply_candidate. rewrite Hci.
  destruct (Z.leb_spec (Z.of_nat n) (Z.of_nat i)); [lia|]. wp_steps. apply wp_index_total; [cbn; lia|]. cbn.
  destruct (Z.eqb_spec (symbol_generations w !!! i) (mc_left_generation c)) as [Hg|Hg]; cbn [negb]; wp_steps.
  2:{ apply Hskip. intros k p x y _ _ _ <-. cbn in Hci, Hg. apply Hg. f_equal. lia. }
  assert (i ∈ idxs) as [k Hk]%list_elem_of_lookup.
  { destruct (decide (i ∈ idxs)); [done|]. specialize (Hdead ltac:(done)). lia. }
  assert (forall k' p x y, idxs !! k' = Some x -> candidate_of w p x y = c -> k' = k) as Hpos.
  { intros k' p x y Hx <-. cbn in Hci. eapply sim_position; [exact Hsim|exact Hx|]. by replace x with i by lia. }
  apply wp_index_total; [cbn; lia|]. cbn beta. rewrite (sim_next _ _ _ _ _ Hsim _ _ Hk).
  destruct (idxs !! S k) as [j|] eqn:Hj; cbn [link].
  2:{ destruct (Z.eqb_spec SYMBOL_NONE SYMBOL_NONE); [|done]. wp_steps. apply Hskip.
      intros k' p x y _ Hx Hy Hc. pose proof (Hpos k' p x y Hx Hc). congruence. }
  pose proof (sim_bound _ _ _ _ _ Hsim _ _ Hj) as Hjn.
  destruct (Z.eqb_spec (Z.of_nat j) SYMBOL_NONE); [lia|]. wp_steps. apply wp_index_total; [cbn; lia|]. cbn.
  assert (forall k' p x y, pair_at pairs (symbols w idxs) k' p -> idxs !! k' = Some x -> idxs !! S k' = Some y ->
    candidate_of w p x y = c -> k' = k /\ x = i /\ y = j /\
      pair_entry pairs (symbol_token_ids w !!! i) (symbol_token_ids w !!! j) = Some p) as Hcur.
  { intros k' p x y Hp Hx Hy Hc. pose proof (Hpos k' p x y Hx Hc). subst k'. rewrite (pair_at_symbols w idxs k x y) in Hp by done.
    by simplify_eq. }
  destruct (Z.eqb_spec (symbol_generations w !!! j) (mc_right_generation c)) as [Hgr|Hgr]; cbn [negb]; wp_steps.
  2:{ apply Hskip. intros k' p x y Hp Hx Hy Hc. destruct (Hcur k' p x y) as (_ & _ & -> & _); [done..|]. by subst c. }
  apply wp_index_total; [cbn; lia|]. cbn beta. wp_steps. apply wp_index_total; [cbn; lia|]. cbn beta. wp_steps.
  apply wp_find_pair. cbn. destruct (pair_entry pairs _ _) as [p|] eqn:Hp.
  2:{ wp_steps. apply Hskip. intros k' p x y Hp' Hx Hy Hc. destruct (Hcur k' p x y) as (_ & _ & _ & ?); [done..|]. congruence. }
  destruct (Z.eqb_spec (mp_rank p) (mc_rank c)) as [Hr|Hr]; cbn [negb]; wp_steps.
  2:{ apply Hskip. intros k' p' x y Hp' Hx Hy Hc. destruct (Hcur k' p' x y) as (_ & _ & _ & ?); [done..|].
      apply Hr. subst c. cbn. congruence. }
  rewrite <- (pair_at_symbols w idxs k i j) in Hp by done.
  apply wp_index_total; [cbn; lia|]. cbn beta. rewrite (sim_prev _ _ _ _ _ Hsim _ _ Hk). wp_steps.
  apply wp_index_total; [cbn; lia|]. cbn beta. rewrite (sim_next _ _ _ _ _ Hsim _ _ Hj).
  apply (round_merge n w idxs _ k i j p c h); try done.
  eapply sim_first; [exact Hsim|exact Hmin|done..].
Qed.

Lemma merge_step_spec n B w idxs :
  Sim n B none w idxs ->
  wp (merge_step t (Z.of_nat n) (Z.of_nat (length idxs))) (round_post n w idxs) (fun _ _ => False) w.
Proof.
  intros Hsim0. pose proof (sim_tight _ _ _ _ _ Hsim0) as Hsim.
  unfold merge_step. destruct (Z.leb_spec (Z.of_nat (length idxs)) 1) as [H1|H1]; wp_steps.
  { split_and!; [reflexivity|done|done|]. intros k p Hp. apply pair_at_indices in Hp as (i & j & _ & Hj).
    apply lookup_lt_Some in Hj. lia. }
  eapply wp_mono; [apply heap_pop_spec; by eapply sim_heap| |done].
  cbn beta. intros [c|] w1 (Hw1 & Hord & Hpop).
  - destruct Hpop as [Hperm Hmin]. rewrite Hw1. by apply apply_candidate_spec.
  - destruct Hpop as [Hnil ->]. wp_steps. split_and!; [reflexivity|done|done|].
    intros k p Hp. destruct (pair_at_indices _ _ _ _ Hp) as (i & j & Hi & Hj).
    pose proof (sim_complete _ _ _ _ _ Hsim k p i j (fun H => H) Hp Hi Hj) as Hc. rewrite Hnil in Hc. by apply elem_of_nil in Hc.
Qed.

Lemma sim_length n B miss w idxs : Sim n B miss w idxs -> (length idxs <= n)%nat.
Proof. intros Hsim. pose proof (sim_gen _ _ _ _ _ Hsim 0 ltac:(by eapply sim_bound, sim_head)). lia. Qed.

(** The loop ends with the tokens of the reference. *)
Lemma merge_loop_spec n w idxs :
  Sim n (3 * n) none w idxs ->
  wp (loop (S (3 * n)) (merge_step t (Z.of_nat n)) (Z.of_nat (length idxs)))
    (fun _ w' => frame w w' /\ exists idxs', Sim n (3 * n) none w' idxs' /\ symbols w' idxs' = bpe pairs (symbols w idxs))
    (fun _ _ => False) w.
Proof.
  intros Hsim.
  apply (wp_loop (fun live w' => frame w w' /\ exists idxs', live = Z.of_nat (length idxs') /\ Sim n (3 * n) none w' idxs' /\
                    bpe pairs (symbols w' idxs') = bpe pairs (symbols w idxs))
           (fun live w' => (length (merge_heap w') + 2 * Z.to_nat live)%nat)).
  - split; [reflexivity|by exists idxs].
  - rewrite Nat2Z.id. pose proof (sim_size _ _ _ _ _ Hsim). lia.
  - intros live w' (Hfr & idxs' & -> & Hs & Hbpe). pose proof (sim_size _ _ _ _ _ Hs) as Hsize.
    eapply wp_mono; [by eapply merge_step_spec| |done].
    intros r w'' [Hfr' Hpost]. assert (frame w w'') as Hfr'' by (by etransitivity).
    assert (Z.of_nat (3 * n) < heap_capacity w'') as Hroom
      by (rewrite (fr_capacity _ _ Hfr''); by eapply sim_room).
    destruct r as [live'|live'].
    + destruct Hpost as (idxs'' & -> & Hw & Hs' & Heq). unfold weight in *. rewrite !Nat2Z.id. split; [|lia]. split; [done|].
      exists idxs''. split_and!; [done| |congruence]. eapply sim_weaken; [exact Hs'|lia|done|done].
    + destruct Hpost as (-> & -> & Hno). split; [done|]. exists idxs'. split; [done|]. by rewrite <- Hbpe, bpe_stop.
Qed.

(** The walk emits the tokens in order. *)
Lemma emit_spec n B miss w idxs fuel :
  Sim n B miss w idxs -> (length idxs < fuel)%nat ->
  wp (loop fuel emit_step (0, [])) (fun r w' => w' = w /\ r = symbols w idxs) (fun _ _ => False) w.
Proof.
  intros Hsim Hfuel. pose proof (sim_arrays _ _ _ _ _ Hsim) as Harr.
  apply (wp_loop (fun x w' => w' = w /\ exists k, (k <= length idxs)%nat /\ x = (link (idxs !! k), take k (symbols w idxs)))
           (fun x _ => (length idxs - length (snd x))%nat)).
  - split; [done|]. exists 0%nat. split; [lia|]. by rewrite (sim_head _ _ _ _ _ Hsim).
  - cbn. lia.
  - intros x w' (-> & k & Hk & ->). unfold emit_step.
    destruct (idxs !! k) as [i|] eqn:Hi; cbn [link].
    + pose proof (sim_bound _ _ _ _ _ Hsim _ _ Hi). pose proof (sim_small _ _ _ _ _ Hsim). apply lookup_lt_Some in Hi as Hlt.
      destruct (Z.eqb_spec (Z.of_nat i) SYMBOL_NONE); [lia|]. wp_steps. change (id w) with w.
      apply wp_index_total; [lia|]. cbn beta. wp_steps. apply wp_index_total; [lia|]. cbn beta. wp_steps.
      assert (take (S k) (symbols w idxs) = take k (symbols w idxs) ++ [symbol_token_ids w !!! i]) as Htake.
      { apply take_S_r. unfold symbols. by rewrite list_lookup_fmap, Hi. }
      split.
      * split; [done|]. exists (S k). split; [lia|]. by rewrite (sim_next _ _ _ _ _ Hsim _ _ Hi), Htake.
      * cbn [snd]. rewrite length_app. cbn [length]. rewrite !length_take. unfold symbols. rewrite length_fmap. lia.
    + destruct (Z.eqb_spec SYMBOL_NONE SYMBOL_NONE); [|done]. wp_steps. split; [done|].
      apply lookup_ge_None in Hi. apply take_ge. unfold symbols. rewrite length_fmap. lia.
Qed.
End loop.
