(* ===== verification/PieceTokens.v ===== *)
(** * The tokens of a piece ([crates/spark-text/src/tokenizer.rs])

    [encode_byte_level_piece_uncached] maps the bytes of a piece to their tokens and
    applies byte-pair encoding to them, whatever the workspace held before: it
    neither overruns the heap nor the arrays, and fails only on an unmapped byte or a
    piece longer than the workspace. *)

From Stdlib Require Import String.
From S2P Require Import Prelude Bytes TokenTables TokenTablesProps Tokenizer MergeHeap Bpe MergeLoop.

(** ** What a tokenizer and a workspace satisfy *)

Record tokenizer_ok (t : Tokenizer) : Prop := {
  tok_bytes : length (tk_byte_token_ids t) = 256%nat;
  tok_pairs : wf_pairs (tk_merge_pairs t);
}.

Definition MAX_SYMBOLS : Z := (U32_MAX - MERGE_HEAP_CAPACITY_SLACK) / MERGE_HEAP_CAPACITY_FACTOR.

(** The sizes of a workspace fit each other. *)
Record workspace_ok (w : Workspace) : Prop := {
  ws_maximum : 0 <= maximum_symbol_count w <= MAX_SYMBOLS;
  ws_capacity : heap_capacity w = maximum_symbol_count w * MERGE_HEAP_CAPACITY_FACTOR + MERGE_HEAP_CAPACITY_SLACK;
  ws_tokens : Z.of_nat (length (symbol_token_ids w)) = maximum_symbol_count w;
  ws_previous : Z.of_nat (length (previous_symbol_indices w)) = maximum_symbol_count w;
  ws_next : Z.of_nat (length (next_symbol_indices w)) = maximum_symbol_count w;
  ws_generations : Z.of_nat (length (symbol_generations w)) = maximum_symbol_count w;
}.

Lemma frame_ok w w' : frame w w' -> workspace_ok w -> workspace_ok w'.
Proof. intros [] []. split; congruence. Qed.

(** ** Reference *)

(** The token a byte starts as. *)
Definition byte_symbol (t : Tokenizer) (b : Z) : option Z :=
  match tk_byte_token_ids t !! Z.to_nat b with
  | Some token_id => if token_id =? NO_TOKEN_ID then None else Some token_id
  | None => None
  end.

(** The tokens of a piece, [None] when a byte has no token. *)
Definition piece_tokens (t : Tokenizer) (text : list Z) : option (list Z) :=
  bpe (tk_merge_pairs t) <$> mapM (byte_symbol t) text.

(** ** The first symbols *)

(** The first [m] of [n] symbols are set. *)
Record filled (t : Tokenizer) (text : list Z) (m : nat) (w : Workspace) : Prop := {
  fi_heap : merge_heap w = [];
  fi_symbols : forall x b, (x < m)%nat -> text !! x = Some b -> byte_symbol t b = Some (symbol_token_ids w !!! x);
  fi_previous : forall x, (x < m)%nat ->
    previous_symbol_indices w !!! x = if (x =? 0)%nat then SYMBOL_NONE else Z.of_nat (x - 1);
  fi_next : forall x, (x < m)%nat ->
    next_symbol_indices w !!! x = if (S x <? length text)%nat then Z.of_nat (S x) else SYMBOL_NONE;
  fi_generations : forall x, (x < m)%nat -> symbol_generations w !!! x = 1;
}.

Lemma byte_id_lookup t b : tokenizer_ok t -> byte b -> exists id, tk_byte_token_ids t !! Z.to_nat b = Some id.
Proof. intros [Hl _] Hb. unfold byte in Hb. apply lookup_lt_is_Some_2. lia. Qed.

Lemma upd_nth_total {A} `{!Inhabited A} (i x : nat) (v : A) l : (i < length l)%nat ->
  upd_nth (Z.of_nat i) (fun _ => v) l !!! x = if (x =? i)%nat then v else l !!! x.
Proof.
  intros Hi. rewrite upd_nth_const, Nat2Z.id. destruct (Nat.eqb_spec x i) as [->|].
  - by apply list_lookup_total_insert_eq.
  - by rewrite list_lookup_total_insert_ne.
Qed.

Lemma set_symbol_spec t text m b w :
  tokenizer_ok t -> workspace_ok w -> byte b -> text !! m = Some b -> Z.of_nat (length text) <= maximum_symbol_count w ->
  filled t text m w ->
  wp (set_symbol t (Z.of_nat (length text)) (Z.of_nat m, b))
    (fun _ w' => frame w w' /\ filled t text (S m) w')
    (fun e w' => e = NotFound "byte token" /\ w' = w /\ byte_symbol t b = None) w.
Proof.
  intros Ht Hw Hb Hm Hfit [Hh Hs Hp Hn Hg]. pose proof Hw as [_ _ W1 W2 W3 W4]. apply lookup_lt_Some in Hm as Hlt.
  destruct (byte_id_lookup t b Ht Hb) as [id Hid]. unfold set_symbol. wp_steps.
  destruct (Z.eqb_spec id NO_TOKEN_ID) as [Hno|Hno]; wp_steps.
  { unfold byte_symbol. rewrite Hid. by destruct (Z.eqb_spec id NO_TOKEN_ID). }
  unfold in_bounds. wp_steps.
  do 4 (apply wp_index_total; [cbn; lia|]; cbn beta; wp_steps).
  split; [by split; cbn; rewrite ?length_upd_nth|].
  split; cbn -[Nat.ltb Nat.eqb Z.of_nat].
  - done.
  - intros x b' Hx Hb'. rewrite upd_nth_total by lia. destruct (Nat.eqb_spec x m) as [->|]; [|apply Hs; [lia|done]].
    replace b' with b by congruence. unfold byte_symbol. rewrite Hid. by destruct (Z.eqb_spec id NO_TOKEN_ID).
  - intros x Hx. rewrite upd_nth_total by lia. destruct (Nat.eqb_spec x m) as [->|]; [|apply Hp; lia].
    destruct (Z.eqb_spec (Z.of_nat m) 0), (Nat.eqb_spec m 0); (lia || done).
  - intros x Hx. rewrite upd_nth_total by lia. destruct (Nat.eqb_spec x m) as [->|]; [|apply Hn; lia].
    destruct (Z.ltb_spec (Z.of_nat m + 1) (Z.of_nat (length text))), (Nat.ltb_spec (S m) (length text)); lia || done.
  - intros x Hx. rewrite upd_nth_total by lia. destruct (Nat.eqb_spec x m) as [->|]; [done|apply Hg; lia].
Qed.

Lemma mapM_take_None {A B} (f : A -> option B) l m x : l !! m = Some x -> f x = None -> mapM f l = None.
Proof.
  intros Hx Hf. apply mapM_None. apply Exists_exists. exists x. split; [by eapply list_elem_of_lookup_2|done].
Qed.

(** All bytes are mapped, or the loop stops at one that is not. *)
Lemma set_symbols_spec t text w :
  tokenizer_ok t -> workspace_ok w -> Forall byte text -> Z.of_nat (length text) <= maximum_symbol_count w -> merge_heap w = [] ->
  wp (for_fold (zip (range 0 (Z.of_nat (length text))) text) (fun x _ => set_symbol t (Z.of_nat (length text)) x) tt)
    (fun _ w' => frame w w' /\ filled t text (length text) w')
    (fun e w' => frame w w' /\ e = NotFound "byte token" /\ mapM (byte_symbol t) text = None) w.
Proof.
  intros Ht Hw Htext Hfit Hheap.
  apply (wp_for_enumerate (fun m (_ : unit) w' => frame w w' /\ filled t text m w')).
  - split; [reflexivity|]. split; [done|lia..].
  - intros m b _ w' Hm [Hfr Hfi].
    eapply wp_mono; [apply (set_symbol_spec t text m b w'); [done|by eapply frame_ok|by eapply Forall_lookup_1|done| |done]| |].
    + by rewrite (fr_maximum _ _ Hfr).
    + intros _ w'' [? ?]. split; [by etransitivity|done].
    + intros e w'' (-> & -> & Hno). split_and!; [done|done|]. by eapply mapM_take_None.
Qed.

(** ** From the first symbols to the tokens *)

Lemma lookup_seq_Some n k x : seq 0 n !! k = Some x <-> x = k /\ (k < n)%nat.
Proof. rewrite lookup_seq. lia. Qed.

Section piece.
Context (t : Tokenizer) (Ht : tokenizer_ok t) (text : list Z).
Abbreviation n := (length text).

Lemma filled_symbols w : filled t text n w -> mapM (byte_symbol t) text = Some (symbols w (seq 0 n)).
Proof.
  intros Hfi. apply mapM_Some, Forall2_same_length_lookup_2.
  { unfold symbols. by rewrite length_fmap, length_seq. }
  intros x b y Hb Hy. apply list_lookup_fmap_Some in Hy as (k & -> & Hk). apply lookup_seq_Some in Hk as [-> Hk].
  by apply (fi_symbols _ _ _ _ Hfi).
Qed.

(** Before the first push every position misses its candidate. *)
Lemma filled_sim w :
  filled t text n w -> workspace_ok w -> (0 < n)%nat -> Z.of_nat n <= maximum_symbol_count w ->
  Sim t n (2 * n) (fun _ => True) w (seq 0 n).
Proof.
  intros [Hh Hs Hp Hn Hg] [W0 Wc W1 W2 W3 W4] Hpos Hfit.
  assert (Z.of_nat n < SYMBOL_NONE) as Hsmall.
  { unfold MAX_SYMBOLS in W0. change ((U32_MAX - MERGE_HEAP_CAPACITY_SLACK) / MERGE_HEAP_CAPACITY_FACTOR) with 1073741819 in W0.
    change SYMBOL_NONE with U32_MAX. lia. }
  split.
  - rewrite Wc. change MERGE_HEAP_CAPACITY_FACTOR with 4. change MERGE_HEAP_CAPACITY_SLACK with 16. lia.
  - done.
  - lia.
  - by apply lookup_seq_Some.
  - intros j k x y [-> ?]%lookup_seq_Some [-> ?]%lookup_seq_Some. done.
  - by intros k i [-> ?]%lookup_seq_Some.
  - intros k i [-> Hk]%lookup_seq_Some. rewrite (Hn k Hk). destruct (Nat.ltb_spec (S k) n).
    + by rewrite (proj2 (lookup_seq_Some n (S k) (S k))).
    + rewrite lookup_ge_None_2; [done|rewrite length_seq; lia].
  - intros k i [-> Hk]%lookup_seq_Some. rewrite (Hp k Hk). destruct k as [|k]; [done|]. cbn [Nat.eqb].
    rewrite (proj2 (lookup_seq_Some n k k)) by lia. cbn [link]. lia.
  - intros i Hi. rewrite (Hg i Hi), length_seq. lia.
  - rewrite Hh. intros i Hi. cbn in Hi. lia.
  - intros c Hc. rewrite Hh in Hc. by apply elem_of_nil in Hc.
  - intros k p i j Hm. by destruct Hm.
  - rewrite Hh, length_seq. cbn. lia.
Qed.

(** Every position that may have a pair gets its candidate. *)
Lemma push_all_spec w :
  Sim t n (2 * n) (fun _ => True) w (seq 0 n) -> (0 < n)%nat -> Z.of_nat (3 * n) < heap_capacity w ->
  wp (for_fold (range 0 (sat_sub (Z.of_nat n) 1)) (fun symbol_index _ => push_pair_candidate t symbol_index) tt)
    (fun _ w' => heap_only w w' /\ Sim t n (3 * n) (fun _ => False) w' (seq 0 n))
    (fun _ _ => False) w.
Proof.
  intros Hsim Hpos Hroom. replace (sat_sub (Z.of_nat n) 1) with (Z.of_nat (n - 1)) by (unfold sat_sub; lia).
  eapply wp_mono.
  - apply (wp_for_range (fun m (_ : unit) w' => heap_only w w' /\ Sim t n (2 * n + m) (fun k => m <= k)%nat w' (seq 0 n))
             (n - 1) _ _ (fun _ _ => False)).
    + split; [auto with spark|]. eapply sim_weaken; [exact Hsim|lia|by eapply sim_room; rewrite Nat.add_0_r|lia].
    + intros m _ w' Hm [Hw Hs].
      eapply wp_mono; [eapply (push_live t (tok_pairs _ Ht) _ _ _ _ _ m); [exact Hs|by apply lookup_seq_Some; lia|]| |done].
      { rewrite Hw. cbn. lia. }
      intros _ w'' [Hw' Hs']. split; [by eapply heap_only_trans|].
      eapply sim_weaken; [exact Hs'|lia|rewrite Hw', Hw; cbn; lia|]. cbn. lia.
  - intros _ w' [Hw Hs]. split; [done|]. pose proof (sim_size _ _ _ _ _ _ Hs) as Hsize.
    assert (Sim t n (3 * n) (fun k => n - 1 <= k)%nat w' (seq 0 n)) as Hs'.
    { eapply sim_weaken; [exact Hs|lia|rewrite Hw; cbn; lia|done]. }
    pose proof Hs' as []. split; try done.
    intros k p i j _ Hp Hi Hj. eapply sim_complete; [|done..]. apply lookup_seq_Some in Hj as [_ ?]. lia.
  - done.
Qed.

(** The uncached encoder of a piece. *)
Lemma uncached_spec w :
  workspace_ok w -> Forall byte text ->
  wp (encode_byte_level_piece_uncached t text)
    (fun r w' => frame w w' /\ piece_tokens t text = Some r)
    (fun e w' => frame w w' /\ ((e = NotFound "byte token" /\ piece_tokens t text = None) \/
                                (e = CapacityExceeded /\ maximum_symbol_count w < Z.of_nat n))) w.
Proof.
  intros Hw Htext. unfold encode_byte_level_piece_uncached.
  destruct (Z.eqb_spec (Z.of_nat n) 0) as [H0|H0]; wp_steps.
  { split; [reflexivity|]. by destruct text; [|cbn in H0; lia]. }
  change (id w) with w. destruct (Z.ltb_spec (maximum_symbol_count w) (Z.of_nat n)); wp_steps.
  { split; [reflexivity|by right]. }
  set (w0 := w <| merge_heap := [] |>). assert (frame w w0) as Hf0 by (subst w0; auto with spark).
  pose proof (frame_ok _ _ Hf0 Hw) as Hw0.
  eapply wp_mono; [apply (set_symbols_spec t text w0); [done|done|done|by rewrite (fr_maximum _ _ Hf0)|done]| |].
  2:{ intros e w' (Hf & -> & Hno). split; [by etransitivity|]. left. unfold piece_tokens. by rewrite Hno. }
  cbn beta. intros _ w1 [Hf1 Hfi]. pose proof (frame_ok _ _ Hf1 Hw0) as Hw1.
  assert (frame w w1) as Hfw1 by (by etransitivity).
  assert (Z.of_nat n <= maximum_symbol_count w1) as Hfit by (rewrite (fr_maximum _ _ Hfw1); done).
  pose proof (filled_sim w1 Hfi Hw1 ltac:(lia) Hfit) as Hsim1.
  assert (Z.of_nat (3 * n) < heap_capacity w1) as Hroom.
  { rewrite (ws_capacity _ Hw1). change MERGE_HEAP_CAPACITY_FACTOR with 4. change MERGE_HEAP_CAPACITY_SLACK with 16. lia. }
  wp_steps. eapply wp_mono; [apply (push_all_spec w1 Hsim1); [lia|done]| |done].
  cbn beta. intros _ w2 [Hf2 Hsim2]. wp_steps.
  pose proof (merge_loop_spec t (tok_pairs _ Ht) n w2 (seq 0 n) Hsim2) as Hloop. rewrite length_seq in Hloop.
  eapply wp_mono; [exact Hloop| |done].
  cbn beta. intros _ w3 (Hf3 & idxs & Hsim3 & Hsym). wp_steps.
  eapply wp_mono; [apply (emit_spec t n _ _ w3 idxs _ Hsim3)| |done].
  { pose proof (sim_length _ _ _ _ _ _ Hsim3). lia. }
  intros r w4 [-> ->]. split.
  - etransitivity; [exact Hfw1|]. etransitivity; [by apply heap_only_frame, Hf2|done].
  - unfold piece_tokens. rewrite (filled_symbols w1 Hfi), Hsym. cbn. by rewrite (heap_only_symbols w1 w2).
Qed.
End piece.
