(* ===== verification/PieceCache.v ===== *)
(** * The piece cache ([crates/spark-text/src/tokenizer.rs])

    A cache entry memoizes what the uncached encoder produces for its piece, so a
    piece encodes to the same tokens whether it hits, misses or bypasses the cache,
    and the cache stays that way. *)

From Stdlib Require Import String.
From S2P Require Import Prelude Bytes TokenTables TokenTablesProps Tokenizer MergeHeap Bpe MergeLoop PieceTokens.

(** Tokens appended one by one. *)
Definition append_all (token_ids : list Z) (e : Encoding) : Encoding := foldl (fun e token_id => append_token token_id e) e token_ids.

(** The piece an entry stands for. *)
Definition entry_piece (e : PieceCacheEntry) : list Z := take (Z.to_nat (pe_piece_bytes e)) (pe_piece e).

(** The tokens an entry points at. *)
Definition entry_tokens (pool : list Z) (e : PieceCacheEntry) : list Z :=
  take (Z.to_nat (pe_token_count e)) (drop (Z.to_nat (pe_token_offset e)) pool).

Record entry_ok (t : Tokenizer) (pool : list Z) (used : Z) (e : PieceCacheEntry) : Prop := {
  en_inline : length (pe_piece e) = Z.to_nat PIECE_CACHE_INLINE_BYTES;
  en_filled : pe_hash e <> PIECE_CACHE_EMPTY_HASH ->
    0 <= pe_token_offset e /\ 0 <= pe_token_count e /\ pe_token_offset e + pe_token_count e <= used /\
    piece_tokens t (entry_piece e) = Some (entry_tokens pool e);
}.

Record cache_ok (t : Tokenizer) (w : Workspace) : Prop := {
  ca_slots : piece_cache_entries w = [] \/ exists k, 0 <= k /\ Z.of_nat (length (piece_cache_entries w)) = 2 ^ k;
  ca_used : 0 <= piece_cache_token_used w <= Z.of_nat (length (piece_cache_token_pool w));
  ca_pool : Z.of_nat (length (piece_cache_token_pool w)) <= U32_MAX;
  ca_entries : forall i e, piece_cache_entries w !! i = Some e ->
    entry_ok t (piece_cache_token_pool w) (piece_cache_token_used w) e;
}.

Lemma frame_cache t w w' : frame w w' -> cache_ok t w -> cache_ok t w'.
Proof. intros [_ _ E1 E2 E3 _ _ _ _] []. split; rewrite ?E1, ?E2, ?E3; done. Qed.

(** ** Lookup *)

Lemma mask_range h n k : 0 <= k -> n = 2 ^ k -> 0 <= Z.land h (n - 1) < n.
Proof.
  intros Hk ->. pose proof (Z.ones_equiv k) as Hones. rewrite Z.sub_1_r, <- Hones, Z.land_ones by lia.
  apply Z.mod_pos_bound. lia.
Qed.

(** The stop slot is free or holds the piece. *)
Lemma piece_lookup_spec {St E} t w text hash (s : St) (R : E -> St -> Prop) :
  cache_ok t w -> Z.of_nat (length text) <= PIECE_CACHE_INLINE_BYTES ->
  wp (piece_cache_lookup w text hash)
    (fun r s' => s' = s /\ match r with
       | None => True
       | Some slot => exists e, piece_cache_entries w !! Z.to_nat slot = Some e /\
           (pe_hash e = PIECE_CACHE_EMPTY_HASH \/ (pe_hash e = hash /\ entry_piece e = text))
       end) R s.
Proof.
  intros Hc Hlen. unfold piece_cache_lookup.
  destruct (Z.eqb_spec (Z.of_nat (length (piece_cache_entries w))) 0) as [H0|H0]; wp_steps; [done|].
  destruct (ca_slots _ _ Hc) as [He|(k & Hk & Hpow)]; [by rewrite He in H0|].
  set (n := Z.of_nat (length (piece_cache_entries w))) in *.
  apply (wp_for_flow (fun _ slot s' => s' = s /\ 0 <= slot < n)).
  - split; [done|by eapply mask_range].
  - intros pre x post slot s' _ [-> Hslot].
    destruct (lookup_lt_is_Some_2 (piece_cache_entries w) (Z.to_nat slot)) as [e He]; [subst n; lia|].
    wp_steps. pose proof (mask_range (slot + 1) n k Hk Hpow) as Hnext.
    destruct (Z.eqb_spec (pe_hash e) PIECE_CACHE_EMPTY_HASH) as [Hempty|Hne]; wp_steps; [by eauto 10|].
    destruct (Z.eqb_spec (pe_hash e) hash) as [Hh|]; cbn [andb]; [|by wp_steps].
    destruct (Z.eqb_spec (pe_piece_bytes e) (Z.of_nat (length text))) as [Hb|]; [|by wp_steps].
    wp_steps. pose proof (en_inline _ _ _ _ (ca_entries _ _ Hc _ _ He)) as Hinline.
    change PIECE_CACHE_INLINE_BYTES with 32 in *. apply wp_slice; [lia|lia|].
    rewrite Z.sub_0_r, Nat2Z.id, drop_0. case_bool_decide as Heq; wp_steps; [|done].
    split; [done|]. exists e. split; [done|]. right. split; [done|]. unfold entry_piece. by rewrite Hb, Nat2Z.id.
  - intros slot s' [-> _]. by wp_steps.
Qed.

(** ** Appending *)

Lemma append_tokens_spec token_ids s R :
  wp (append_tokens token_ids) (fun _ s' => s' = s <| es_encoding := append_all token_ids (es_encoding s) |>) R s.
Proof.
  eapply wp_mono; [apply (wp_for_fold (fun pre _ s' => s' = s <| es_encoding := append_all pre (es_encoding s) |>) _ _ _ R)| |done].
  - by destruct s.
  - intros pre x post _ s' _ ->. unfold on_encoding. wp_steps. unfold append_all. rewrite foldl_app. by destruct s.
  - by intros _ s' ->.
Qed.

(** Replaying the tokens of an entry. *)
Lemma replay_spec pool (offset : Z) (n : nat) s R :
  0 <= offset -> (Z.to_nat offset + n <= length pool)%nat ->
  wp (for_fold (range 0 (Z.of_nat n)) (fun token_index _ =>
        let! token_id := index pool (offset + token_index) in
        on_encoding (append_token token_id)) tt)
    (fun _ s' => s' = s <| es_encoding := append_all (take n (drop (Z.to_nat offset) pool)) (es_encoding s) |>) R s.
Proof.
  intros Ho Hn. apply (wp_for_range (fun m _ s' => s' = s <| es_encoding := append_all (take m (drop (Z.to_nat offset) pool)) (es_encoding s) |>)).
  - by destruct s.
  - intros m _ s' Hm ->. wp_steps.
    destruct (lookup_lt_is_Some_2 pool (Z.to_nat offset + m)) as [x Hx]; [lia|].
    apply (wp_index _ _ _ _ _ x); [by replace (Z.to_nat (offset + Z.of_nat m)) with (Z.to_nat offset + m)%nat by lia|].
    cbn beta. unfold on_encoding. wp_steps. rewrite (take_S_r _ _ x) by (by rewrite lookup_drop).
    unfold append_all. rewrite foldl_app. by destruct s.
Qed.

(** ** Encoding a piece *)

(** The states an encoding goes through. *)
Record state_ok (t : Tokenizer) (s : EncodeState) : Prop := {
  so_workspace : workspace_ok (es_workspace s);
  so_cache : cache_ok t (es_workspace s);
}.

Definition counted_invalid (e : Encoding) : Encoding := e <| en_invalid_segment_count := en_invalid_segment_count e +u64 1 |>.

Section encode.
Context (t : Tokenizer) (Ht : tokenizer_ok t).

(** What encoding a piece that fits the workspace does. *)
Definition piece_post (text : list Z) (s : EncodeState) (r : unit) (s' : EncodeState) : Prop :=
  state_ok t s' /\ maximum_symbol_count (es_workspace s') = maximum_symbol_count (es_workspace s) /\
  exists token_ids, piece_tokens t text = Some token_ids /\ es_encoding s' = append_all token_ids (es_encoding s).

Definition piece_error (text : list Z) (s : EncodeState) (e : TokenizerError) (s' : EncodeState) : Prop :=
  state_ok t s' /\ maximum_symbol_count (es_workspace s') = maximum_symbol_count (es_workspace s) /\
  e = NotFound "byte token" /\ piece_tokens t text = None /\ es_encoding s' = counted_invalid (es_encoding s).

Lemma produce_spec text s :
  state_ok t s -> Forall byte text -> Z.of_nat (length text) <= maximum_symbol_count (es_workspace s) ->
  wp (produce_tokens t text)
    (fun r s' => piece_tokens t text = Some r /\ frame (es_workspace s) (es_workspace s') /\ es_encoding s' = es_encoding s)
    (piece_error text s) s.
Proof.
  intros [Hw Hc] Htext Hfit. unfold produce_tokens, on_workspace. apply wp_catch, wp_zoom.
  eapply wp_mono; [by apply uncached_spec| |].
  - intros r w' [Hf Hr]. cbn. done.
  - intros e w' [Hf [[-> Hno]|[_ ?]]]; [|lia]. cbn beta. unfold count_invalid, on_encoding. wp_steps.
    split; [split; cbn; [by eapply frame_ok|by eapply frame_cache]|].
    split_and!; [by apply fr_maximum|done..].
Qed.

Lemma write_slice_at {A} lo (xs l : list A) : 0 <= lo -> lo + Z.of_nat (length xs) <= Z.of_nat (length l) ->
  take (length xs) (drop (Z.to_nat lo) (write_slice lo (lo + Z.of_nat (length xs)) xs l)) = xs.
Proof.
  intros ??. unfold write_slice. rewrite drop_app_length' by (rewrite length_take; lia). by rewrite take_app_length.
Qed.

Lemma write_slice_before {A} lo (xs l : list A) (a n : nat) :
  0 <= lo -> lo + Z.of_nat (length xs) <= Z.of_nat (length l) -> Z.of_nat (a + n) <= lo ->
  take n (drop a (write_slice lo (lo + Z.of_nat (length xs)) xs l)) = take n (drop a l).
Proof.
  intros ???. apply list_eq. intros i. destruct (decide (i < n)%nat).
  - rewrite !lookup_take_lt, !lookup_drop by done. apply lookup_write_slice_out; lia.
  - rewrite !lookup_take_ge by lia. done.
Qed.

Lemma commit_piece_spec text slot s produced e :
  state_ok t s -> Z.of_nat (length text) <= PIECE_CACHE_INLINE_BYTES -> 
  piece_cache_entries (es_workspace s) !! Z.to_nat slot = Some e -> piece_tokens t text = Some produced ->
  wp (commit_piece text (piece_hash text) slot produced)
    (fun _ s' => state_ok t s' /\ maximum_symbol_count (es_workspace s') = maximum_symbol_count (es_workspace s) /\
                 es_encoding s' = es_encoding s) (fun _ _ => False) s.
Proof.
  intros [Hw Hc] Hlen He Hp. unfold commit_piece. wp_steps.
  destruct (ca_used _ _ Hc) as [Hu0 Hu]. pose proof (ca_pool _ _ Hc) as Hpool.
  destruct (Z.leb_spec (Z.of_nat (length produced))
    (Z.of_nat (length (piece_cache_token_pool (es_workspace s))) - piece_cache_token_used (es_workspace s))) as [Hroom|Hroom]; wp_steps.
  2:{ split_and!; [by split|done|done]. }
  apply wp_slice; [lia|lia|]. wp_steps. unfold on_workspace. apply wp_zoom. wp_steps. cbn.
  split_and!; [|done|done]. split; cbn.
  { destruct Hw. by split. }
  pose proof (ca_entries _ _ Hc) as Hent.
  assert (length (pe_piece e) = 32%nat) as Hinl by (apply (en_inline _ _ _ _ (Hent _ _ He))).
  change PIECE_CACHE_INLINE_BYTES with 32 in Hlen.
  split; cbn.
  - rewrite length_upd_nth. destruct (ca_slots _ _ Hc) as [Hn|Hn]; [by rewrite Hn in He|by right].
  - rewrite length_write_slice by lia. lia.
  - rewrite length_write_slice by lia. done.
  - intros i e' Hi. rewrite upd_nth_const in Hi. apply list_lookup_insert_Some in Hi as [(_ & <- & _)|(Hne & Hi)].
    + split; cbn; [rewrite length_write_slice by lia; done|]. intros _. rewrite !u32_small by lia.
      split_and!; [lia..|]. unfold entry_piece, entry_tokens. cbn. rewrite !Nat2Z.id.
      rewrite write_slice_at by lia. unfold write_slice.
      change (take (Z.to_nat 0) (pe_piece e)) with (@nil Z). by rewrite app_nil_l, take_app_length.
    + destruct (Hent _ _ Hi) as [Hin Hfill]. split; [done|]. intros Hh. destruct (Hfill Hh) as (? & ? & ? & Htok).
      split_and!; [done|done|lia|]. rewrite Htok. unfold entry_tokens. by rewrite write_slice_before by lia.
Qed.

Lemma encode_piece_spec text flags s :
  state_ok t s -> Forall byte text -> Z.of_nat (length text) <= maximum_symbol_count (es_workspace s) ->
  wp (encode_byte_level_piece t text flags) (piece_post text s) (piece_error text s) s.
Proof.
  intros Hs Htext Hfit. pose proof Hs as [Hw Hc]. unfold encode_byte_level_piece.
  destruct (Z.eqb_spec (Z.of_nat (length text)) 0) as [H0|H0]; wp_steps.
  { split_and!; [done|done|]. exists []. destruct text; [done|cbn in H0; lia]. }
  assert (forall produced s', piece_tokens t text = Some produced -> frame (es_workspace s) (es_workspace s') ->
    es_encoding s' = es_encoding s -> state_ok t s') as Hkeep.
  { intros produced s' _ Hf _. split; [by eapply frame_ok|by eapply frame_cache]. }
  destruct ((PIECE_CACHE_INLINE_BYTES <? _) || _ || _ || _) eqn:Hskip; wp_steps.
  - eapply wp_mono; [by apply produce_spec| |done]. cbn beta. intros r s' (Hr & Hf & Henc).
    eapply wp_mono; [apply (append_tokens_spec r s' (fun _ _ => False))| |done]. intros [] s'' ->. cbn.
    split_and!; [by destruct (Hkeep r s'); [..|split]|by apply fr_maximum|]. exists r. cbn. by rewrite Henc.
  - rewrite !orb_false_iff in Hskip. destruct Hskip as [[[Hlen _] _] _]. apply Z.ltb_ge in Hlen.
    eapply wp_mono; [by apply (piece_lookup_spec t _ text (piece_hash text) s (fun _ _ => False))| |done].
    cbn beta. intros slot s0 [-> Hslot]. wp_steps.
    eapply (wp_mono _ (fun hit s0 => s0 = s /\ match hit with
      | Some e => exists slot_index, piece_cache_entries (es_workspace s) !! slot_index = Some e /\ entry_piece e = text /\
                                     pe_hash e <> PIECE_CACHE_EMPTY_HASH
      | None => True
      end) _ (fun _ _ => False)); [| |done].
    { destruct slot as [slot|]; wp_steps; [|done]. destruct Hslot as (e & He & Hmatch). wp_steps. split; [done|].
      destruct (Z.eqb_spec (pe_hash e) PIECE_CACHE_EMPTY_HASH); cbn [negb]; [done|].
      exists (Z.to_nat slot). split_and!; [done|by destruct Hmatch as [|[_ ?]]|done]. }
    cbn beta. intros [e|] s0 [-> Hhit].
    + destruct Hhit as (i & He & Hpiece & Hne). destruct (en_filled _ _ _ _ (ca_entries _ _ Hc _ _ He) Hne) as (Ho & Hn & Hend & Htok).
      pose proof (ca_used _ _ Hc). rewrite <- (Z2Nat.id (pe_token_count e)) by done.
      eapply wp_mono; [apply (replay_spec _ (pe_token_offset e) (Z.to_nat (pe_token_count e)) s (fun _ _ => False)); [done|lia]| |done].
      intros [] s' ->. cbn. split_and!; [by split|done|]. exists (entry_tokens (piece_cache_token_pool (es_workspace s)) e).
      by rewrite <- Hpiece.
    + wp_steps. eapply wp_mono; [by apply produce_spec| |done]. cbn beta. intros r s' (Hr & Hf & Henc). wp_steps.
      pose proof (Hkeep r s' Hr Hf Henc) as Hs'.
      eapply wp_mono; [apply (append_tokens_spec r s' (fun _ _ => False))| |done]. cbn beta. intros _ s1 Hs1.
      assert (state_ok t s1) as Hok1 by (rewrite Hs1; destruct Hs'; by split).
      assert (es_workspace s1 = es_workspace s') as Hw1 by (by rewrite Hs1).
      assert (maximum_symbol_count (es_workspace s1) = maximum_symbol_count (es_workspace s)) as Hmax
        by (rewrite Hw1; by apply fr_maximum).
      assert (es_encoding s1 = append_all r (es_encoding s)) as Henc1 by (rewrite Hs1, <- Henc; done).
      destruct slot as [slot|]; [|wp_steps; split_and!; [done|done|by exists r]].
      destruct Hslot as (e & He & _).
      eapply wp_mono; [eapply (commit_piece_spec text slot s1 r e); [done|done|by rewrite Hw1, (fr_entries _ _ Hf)|done]| |done].
      intros [] s2 (Hok2 & Hmax2 & Henc2). split_and!; [done|congruence|]. exists r. by rewrite Henc2.
Qed.

(** A hit answers from the pool alone: the tokenizer is not looked at. *)
Lemma hit_ignores_tokenizer t' text flags s slot e :
  0 < Z.of_nat (length text) <= PIECE_CACHE_INLINE_BYTES -> has_flag flags ENCODE_FLAG_DISABLE_PIECE_CACHE = false ->
  piece_cache_token_pool (es_workspace s) <> [] ->
  piece_cache_lookup (E := TokenizerError) (es_workspace s) text (piece_hash text) s = Ret (Some slot) s ->
  piece_cache_entries (es_workspace s) !! Z.to_nat slot = Some e -> pe_hash e <> PIECE_CACHE_EMPTY_HASH ->
  encode_byte_level_piece t text flags s = encode_byte_level_piece t' text flags s.
Proof.
  intros Hlen Hflag Hpool Hlook He Hne. unfold encode_byte_level_piece.
  destruct (Z.eqb_spec (Z.of_nat (length text)) 0); [lia|]. unfold bind, gets, id. rewrite Hflag.
  destruct (Z.ltb_spec PIECE_CACHE_INLINE_BYTES (Z.of_nat (length text))); [lia|].
  destruct (Z.eqb_spec (Z.of_nat (length (piece_cache_entries (es_workspace s)))) 0) as [H0|].
  { apply lookup_lt_Some in He. lia. }
  destruct (Z.eqb_spec (Z.of_nat (length (piece_cache_token_pool (es_workspace s)))) 0) as [H0|].
  { exfalso. apply Hpool, length_zero_iff_nil. lia. }
  cbn [orb]. rewrite Hlook. unfold index at 1 3. rewrite He. apply Z.eqb_neq in Hne.
  unfold ret. rewrite Hne. cbn [negb]. reflexivity.
Qed.
End encode.
