(* ===== verification/TextSplit.v ===== *)
(** * Pretokenization ([crates/spark-text/src/tokenizer.rs])

    The regex scanner never stalls and its pieces are a partition of the segment; the
    scan for special tokens splits a text into regular segments and special tokens
    that put together are the text, provided no special token is empty. *)

From Stdlib Require Import String.
From S2P Require Import Prelude Bytes TokenTables TokenTablesProps Tokenizer.

(** ** Regex pieces *)

Lemma scan_while_bounds fuel going len p :
  (forall q, going q = true -> q < len) -> p <= scan_while fuel going p /\ (p <= len -> scan_while fuel going p <= len).
Proof.
  intros Hgo. revert p. induction fuel as [|fuel IH]; intros p; cbn; [lia|].
  destruct (going p) eqn:Hp; [|lia]. apply Hgo in Hp. specialize (IH (p + 1)). lia.
Qed.

Lemma scan_while_advances fuel going len p :
  (forall q, going q = true -> q < len) -> (0 < fuel)%nat -> going p = true -> p + 1 <= scan_while fuel going p.
Proof.
  intros Hgo Hf Hp. destruct fuel as [|fuel]; [lia|]. cbn. rewrite Hp. by apply (scan_while_bounds fuel going len (p + 1)).
Qed.

Lemma in_class_lt text c q : in_class text c q = true -> q < Z.of_nat (length text).
Proof. unfold in_class. intros [H _]%andb_prop. by apply Z.ltb_lt. Qed.

Lemma contraction_bounds text p n : matches_contraction text p = Some n -> 1 <= n /\ p + n <= Z.of_nat (length text).
Proof.
  unfold matches_contraction. destruct (Z.leb_spec (Z.of_nat (length text)) (p + 1)); [done|].
  destruct (negb _); [done|]. cbn [orb].
  destruct (_ || _ || _ || _); [intros [= <-]; lia|].
  destruct (Z.leb_spec (Z.of_nat (length text)) (p + 2)); [done|].
  destruct (_ || _ || _); [|done]. intros [= <-]. lia.
Qed.

(** Every position starts a piece of at least one byte. *)
Lemma next_piece text p :
  0 <= p < Z.of_nat (length text) ->
  exists n, find_next_regex_piece text p = Some (p, n) /\ 1 <= n /\ p + n <= Z.of_nat (length text).
Proof.
  intros Hp. unfold find_next_regex_piece. destruct (Z.leb_spec (Z.of_nat (length text)) p); [lia|].
  destruct (matches_contraction text p) as [n|] eqn:Hc.
  { exists n. split; [done|]. by apply contraction_bounds. }
  assert (forall c q, in_class text c q && negb (bool_decide (is_Some (matches_contraction text q))) = true ->
    q < Z.of_nat (length text)) as Hother by (intros c q [H' _]%andb_prop; by eapply in_class_lt).
  assert (0 < length text)%nat as Hpos by lia.
  destruct (_ && negb (is_ascii_whitespace _)) eqn:Hspace.
  - apply andb_prop in Hspace as [[_ Hlt%Z.ltb_lt]%andb_prop _]. eexists. split; [done|].
    set (c := byte_class _). destruct ((c =? 2) || (c =? 3)).
    + pose proof (scan_while_bounds (length text) (in_class text c) _ (p + 1) (in_class_lt text c)). unfold scan_class_run. lia.
    + pose proof (scan_while_bounds (length text) _ _ (p + 1) (Hother c)). unfold scan_other_run. lia.
  - set (c := byte_class (byte_at text p)). set (q := if (c =? 2) || (c =? 3) || (c =? 1) then _ else _).
    assert (in_class text c p = true) as Hin.
    { unfold in_class. subst c. rewrite Z.eqb_refl, andb_true_r. by apply Z.ltb_lt. }
    assert (p + 1 <= q <= Z.of_nat (length text)) as Hq.
    { subst q. destruct ((c =? 2) || (c =? 3) || (c =? 1)).
      - pose proof (scan_while_bounds (length text) (in_class text c) _ p (in_class_lt text c)).
        pose proof (scan_while_advances (length text) (in_class text c) _ p (in_class_lt text c) Hpos Hin). unfold scan_class_run. lia.
      - pose proof (scan_while_bounds (length text) _ _ p (Hother c)).
        assert (in_class text c p && negb (bool_decide (is_Some (matches_contraction text p))) = true) as Hgo.
        { rewrite Hin, Hc, bool_decide_eq_false_2; [done|]. by intros [? ?]. }
        pose proof (scan_while_advances (length text) _ _ p (Hother c) Hpos Hgo). unfold scan_other_run. lia. }
    destruct (Z.eqb_spec (q - p) 0); [lia|]. exists (q - p). split; [done|lia].
Qed.

(** The pieces from a position on. *)
Fixpoint regex_pieces (fuel : nat) (text : list Z) (position : Z) : list (list Z) :=
  match fuel with
  | O => []
  | S fuel' =>
      match find_next_regex_piece text position with
      | Some (piece_start, piece_bytes) =>
          take (Z.to_nat piece_bytes) (drop (Z.to_nat piece_start) text) :: regex_pieces fuel' text (piece_start + piece_bytes)
      | None => []
      end
  end.

Definition pieces_from (text : list Z) (position : Z) : list (list Z) :=
  regex_pieces (length text - Z.to_nat position) text position.

Lemma next_piece_end text p : Z.of_nat (length text) <= p -> find_next_regex_piece text p = None.
Proof. intros ?. unfold find_next_regex_piece. by destruct (Z.leb_spec (Z.of_nat (length text)) p); [|lia]. Qed.

(** Enough fuel is enough. *)
Lemma regex_pieces_fuel text f1 f2 p :
  0 <= p -> (length text <= Z.to_nat p + f1)%nat -> (length text <= Z.to_nat p + f2)%nat ->
  regex_pieces f1 text p = regex_pieces f2 text p.
Proof.
  revert f2 p. induction f1 as [|f1 IH]; intros f2 p Hp H1 H2.
  - destruct f2; cbn; [done|]. by rewrite next_piece_end by lia.
  - cbn. destruct (decide (p < Z.of_nat (length text))) as [Hlt|].
    + destruct (next_piece text p) as (n & Hn & ? & ?); [lia|]. destruct f2 as [|f2]; [lia|]. cbn. rewrite Hn. f_equal.
      apply IH; lia.
    + rewrite next_piece_end by lia. destruct f2; cbn; [done|]. by rewrite next_piece_end by lia.
Qed.

Lemma pieces_end text p : Z.of_nat (length text) <= p -> pieces_from text p = [].
Proof. intros ?. unfold pieces_from. by replace (length text - Z.to_nat p)%nat with 0%nat by lia. Qed.

Lemma pieces_step text p n :
  0 <= p < Z.of_nat (length text) -> find_next_regex_piece text p = Some (p, n) ->
  pieces_from text p = take (Z.to_nat n) (drop (Z.to_nat p) text) :: pieces_from text (p + n).
Proof.
  intros Hp Hn. destruct (next_piece text p Hp) as (n' & Hn' & Hpos & Hle). simplify_eq. unfold pieces_from.
  destruct (length text - Z.to_nat p)%nat as [|f] eqn:Hf; [lia|]. cbn. rewrite Hn. f_equal. apply regex_pieces_fuel; lia.
Qed.

(** The pieces are a partition of the text. *)
Lemma pieces_partition text p :
  0 <= p -> concat (pieces_from text p) = drop (Z.to_nat p) text /\ Forall (fun piece => piece <> []) (pieces_from text p).
Proof.
  remember (length text - Z.to_nat p)%nat as k eqn:Hk. revert p Hk.
  induction k as [k IH] using lt_wf_ind; intros p Hk Hp.
  destruct (decide (p < Z.of_nat (length text))) as [Hlt|].
  - destruct (next_piece text p) as (n & Hn & ? & ?); [lia|].
    rewrite (pieces_step text p n) by (done || lia). cbn.
    destruct (IH (length text - Z.to_nat (p + n))%nat) with (p := p + n) as [Hc Hne]; [lia|done|lia|].
    rewrite Hc. split.
    + replace (Z.to_nat (p + n)) with (Z.to_nat p + Z.to_nat n)%nat by lia. rewrite <- drop_drop. apply take_drop.
    + constructor; [|done]. intros Hnil%(f_equal length). rewrite length_take, length_drop in Hnil. cbn in Hnil. lia.
  - rewrite pieces_end by lia. split; [by rewrite drop_ge by lia|done].
Qed.

(** ** Special tokens *)

Lemma starts_with_spec text prefix : starts_with text prefix = true <-> exists rest, text = prefix ++ rest.
Proof.
  revert text. induction prefix as [|p prefix IH]; intros text; [by destruct text; split; eauto|].
  destruct text as [|b text]; [split; [done|by intros [? ?]]|].
  cbn [starts_with]. rewrite andb_true_iff, Z.eqb_eq, IH. split.
  - intros (-> & rest & ->). by exists rest.
  - intros (rest & [= -> ->]). eauto.
Qed.

Definition no_empty_special (t : Tokenizer) : Prop := Forall (fun special => sp_text special <> []) (tk_special_tokens t).

Lemma find_special_spec t text id n :
  find_special_token_at t text = Some (id, n) ->
  exists special rest, special ∈ tk_special_tokens t /\ id = sp_token_id special /\
    n = Z.of_nat (length (sp_text special)) /\ text = sp_text special ++ rest.
Proof.
  unfold find_special_token_at. induction (tk_special_tokens t) as [|special specials IH]; [done|].
  destruct (_ && _) eqn:Hm.
  - intros [= <- <-]. apply andb_prop in Hm as [_ Hm]. apply starts_with_spec in Hm as [rest ->].
    exists special, rest. split_and!; [by left|done..].
  - intros H. destruct (IH H) as (sp & rest & Hin & ?). exists sp, rest. split; [by right|done].
Qed.

(** A text as the scan cuts it. *)
Inductive chunk := Segment (text : list Z) | Special (token_id : Z) (text : list Z).

Fixpoint split_specials (fuel : nat) (t : Tokenizer) (matching : bool) (segment text : list Z) : list chunk :=
  match fuel, text with
  | S fuel', b :: rest =>
      match (if matching then find_special_token_at t text else None) with
      | Some (id, n) => Segment segment :: Special id (take (Z.to_nat n) text) ::
                        split_specials fuel' t matching [] (drop (Z.to_nat n) text)
      | None => split_specials fuel' t matching (segment ++ [b]) rest
      end
  | _, _ => [Segment segment]
  end.

Definition chunks (t : Tokenizer) (matching : bool) (segment text : list Z) : list chunk :=
  split_specials (length text) t matching segment text.

Definition chunk_text (c : chunk) : list Z := match c with Segment text => text | Special _ text => text end.

Lemma split_specials_fuel t matching f1 f2 segment text :
  no_empty_special t -> (length text <= f1)%nat -> (length text <= f2)%nat ->
  split_specials f1 t matching segment text = split_specials f2 t matching segment text.
Proof.
  intros Hne. revert f2 segment text. induction f1 as [|f1 IH]; intros f2 segment text H1 H2.
  - destruct text; [|cbn in H1; lia]. by destruct f2.
  - destruct text as [|b text]; [by destruct f2|]. destruct f2 as [|f2]; [cbn in H2; lia|]. cbn [split_specials].
    destruct (if matching then _ else _) as [[id n]|] eqn:Hf; [|apply IH; cbn in *; lia].
    destruct matching; [|done]. apply find_special_spec in Hf as (sp & rest & Hin & -> & -> & Htext).
    do 2 f_equal. rewrite Htext, Nat2Z.id, drop_app_length.
    assert (sp_text sp <> []) as Hsp by (by eapply Forall_forall in Hne; [exact Hne|done]).
    assert (length (b :: text) = length (sp_text sp ++ rest)) as Hl by (by rewrite Htext). rewrite length_app in Hl. cbn in *.
    destruct (sp_text sp); [done|]. cbn in Hl. apply IH; lia.
Qed.

(** The chunks put together are the text. *)
Lemma chunks_text t matching segment text :
  no_empty_special t -> concat (chunk_text <$> chunks t matching segment text) = segment ++ text.
Proof.
  intros Hne. unfold chunks. remember (length text) as f eqn:Hf. revert segment text Hf.
  induction f as [f IH] using lt_wf_ind; intros segment text Hf.
  destruct text as [|b text]; [destruct f; cbn; by rewrite !app_nil_r|]. destruct f as [|f]; [done|]. cbn [split_specials].
  destruct (if matching then _ else _) as [[id n]|] eqn:Hm.
  - destruct matching; [|done]. apply find_special_spec in Hm as (sp & rest & Hin & -> & -> & Htext). rewrite Htext in *.
    rewrite Nat2Z.id, drop_app_length, take_app_length. cbn. f_equal. f_equal.
    assert (sp_text sp <> []) as Hsp by (by eapply Forall_forall in Hne; [exact Hne|done]).
    rewrite length_app in Hf. destruct (sp_text sp) eqn:Hs; [done|]. cbn in Hf.
    rewrite (split_specials_fuel _ _ _ (length rest)) by (done || lia). by rewrite (IH (length rest)) by (done || lia).
  - cbn in Hf. rewrite (IH f) by lia. by rewrite <- app_assoc.
Qed.

Lemma chunks_end t matching segment : chunks t matching segment [] = [Segment segment].
Proof. done. Qed.

Lemma chunks_skip t matching segment b text :
  (if matching then find_special_token_at t (b :: text) else None) = None ->
  chunks t matching segment (b :: text) = chunks t matching (segment ++ [b]) text.
Proof. intros H. unfold chunks. cbn [length split_specials]. by rewrite H. Qed.

Lemma special_nonempty t text id n :
  no_empty_special t -> find_special_token_at t text = Some (id, n) -> 1 <= n <= Z.of_nat (length text).
Proof.
  intros Hne Hf. apply find_special_spec in Hf as (sp & rest & Hin & _ & -> & ->).
  assert (sp_text sp <> []) as Hsp by (by eapply Forall_forall in Hne; [exact Hne|done]).
  rewrite length_app. destruct (sp_text sp); [done|]. cbn. lia.
Qed.

Lemma chunks_special t segment text id n :
  no_empty_special t -> find_special_token_at t text = Some (id, n) ->
  chunks t true segment text = Segment segment :: Special id (take (Z.to_nat n) text) :: chunks t true [] (drop (Z.to_nat n) text).
Proof.
  intros Hne Hf. pose proof (special_nonempty t text id n Hne Hf) as Hn. unfold chunks.
  destruct text as [|b text]; [cbn in Hn; lia|]. cbn [length split_specials]. rewrite Hf. do 2 f_equal.
  apply split_specials_fuel; [done| |done]. rewrite length_drop. cbn in *. lia.
Qed.

Lemma chunks_special_text t matching segment text id tx :
  no_empty_special t -> Special id tx ∈ chunks t matching segment text -> tx <> [].
Proof.
  intros Hne. unfold chunks. generalize (length text) as f. intros f. revert segment text.
  induction f as [|f IH]; intros segment text; cbn [split_specials]; [by intros H%list_elem_of_singleton|].
  destruct text as [|b text]; [by intros H%list_elem_of_singleton|].
  destruct (if matching then _ else _) as [[id' n]|] eqn:Hm; [|apply IH].
  intros [|[[= -> ->]|Hin]%elem_of_cons]%elem_of_cons; [done| |by eapply IH].
  destruct matching; [|done]. apply (special_nonempty _ _ _ _ Hne) in Hm. intros Hnil%(f_equal length).
  rewrite length_take in Hnil. cbn in *. lia.
Qed.
