(* ===== verification/Encode.v ===== *)
(** * Encoding a text ([crates/spark-text/src/tokenizer.rs])

    [encode_tokens] is the reference: the special tokens of the text, and between
    them the byte-pair encodings of the pieces.  [encode_with_workspace] computes it
    from any workspace and any state of its cache, keeps the first [token_capacity]
    tokens and counts the others. *)

From Stdlib Require Import String.
From S2P Require Import Prelude Bytes TokenTables TokenTablesProps Tokenizer MergeHeap Bpe MergeLoop PieceTokens PieceCache TextSplit.

(** ** Reference *)

Definition use_regex (t : Tokenizer) (flags : Z) : bool :=
  negb (negb (tk_byte_level_use_regex t) || has_flag flags ENCODE_FLAG_DISABLE_REGEX_PRETOKENIZATION).

Definition segment_pieces (t : Tokenizer) (flags : Z) (text : list Z) : list (list Z) :=
  if use_regex t flags then pieces_from text 0 else [text].

Definition segment_tokens (t : Tokenizer) (flags : Z) (text : list Z) : option (list Z) :=
  @concat Z <$> mapM (piece_tokens t) (segment_pieces t flags text).

Definition chunk_tokens (t : Tokenizer) (flags : Z) (c : chunk) : option (list Z) :=
  match c with Segment text => segment_tokens t flags text | Special id _ => Some [id] end.

(** The chunks of a text, with the space the flags put in front. *)
Definition text_chunks (t : Tokenizer) (flags : Z) (text : list Z) : list chunk :=
  (if (has_flag flags ENCODE_FLAG_ADD_PREFIX_SPACE || tk_add_prefix_space t)
      && ((Z.of_nat (length text) =? 0) || negb (byte_at text 0 =? SPACE)) then [Segment [SPACE]] else []) ++
  chunks t (negb (has_flag flags ENCODE_FLAG_DISABLE_SPECIAL_TOKEN_MATCH)) [] text.

Definition encode_tokens (t : Tokenizer) (flags : Z) (text : list Z) : option (list Z) :=
  @concat Z <$> mapM (chunk_tokens t flags) (text_chunks t flags text).

(** ** Lists of optional results *)

Lemma mapM_app_Some {A B} (f : A -> option B) l k xs :
  mapM f l = Some xs -> mapM f (l ++ k) = (xs ++.) <$> mapM f k.
Proof.
  revert xs. induction l as [|a l IH]; intros xs; cbn; [intros [= <-]; by destruct (mapM f k)|].
  destruct (f a) as [b|]; [|done]. cbn. destruct (mapM f l) as [bs|]; [|done]. cbn. intros [= <-].
  rewrite (IH bs eq_refl). by destruct (mapM f k).
Qed.

Lemma mapM_app_None {A B} (f : A -> option B) l x k :
  f x = None -> mapM f (l ++ x :: k) = None.
Proof. intros Hx. apply mapM_None, Exists_exists. exists x. split; [set_solver|done]. Qed.

(** ** Segments *)

Lemma append_all_app a b e : append_all (a ++ b) e = append_all b (append_all a e).
Proof. apply foldl_app. Qed.

(** The capacity is kept and never exceeded. *)
Definition capped (e e' : Encoding) : Prop :=
  en_token_capacity e' = en_token_capacity e /\
  (Z.of_nat (length (en_token_ids e)) <= en_token_capacity e -> Z.of_nat (length (en_token_ids e')) <= en_token_capacity e').

#[export] Instance capped_preorder : PreOrder capped.
Proof. split; [by intros e; split|]. intros e1 e2 e3 [H1 H2] [H3 H4]. split; [congruence|auto]. Qed.

Lemma append_all_capped token_ids e : capped e (append_all token_ids e).
Proof.
  revert e. induction token_ids as [|id ids IH]; intros e; cbn; [reflexivity|]. etransitivity; [|apply IH].
  unfold append_token. destruct (Z.ltb_spec (Z.of_nat (length (en_token_ids e))) (en_token_capacity e)); split; cbn; try done.
  rewrite length_app. cbn. lia.
Qed.

Lemma counted_invalid_capped e : capped e (counted_invalid e).
Proof. by split. Qed.

Section encode.
Context (t : Tokenizer) (Ht : tokenizer_ok t) (flags : Z).

(** A computation appends tokens and keeps the workspace, or meets a byte without a token. *)
Definition appends (o : option (list Z)) (s : EncodeState) {A} (r : A) (s' : EncodeState) : Prop :=
  state_ok t s' /\ maximum_symbol_count (es_workspace s') = maximum_symbol_count (es_workspace s) /\
  exists token_ids, o = Some token_ids /\ es_encoding s' = append_all token_ids (es_encoding s).

Definition unmapped (o : option (list Z)) (s : EncodeState) (e : TokenizerError) (s' : EncodeState) : Prop :=
  state_ok t s' /\ e = NotFound "byte token" /\ o = None /\ capped (es_encoding s) (es_encoding s').

Lemma segment_spec text s :
  state_ok t s -> Forall byte text -> Z.of_nat (length text) <= maximum_symbol_count (es_workspace s) ->
  wp (encode_regular_segment t text flags) (appends (segment_tokens t flags text) s) (unmapped (segment_tokens t flags text) s) s.
Proof.
  intros Hs Htext Hfit. unfold encode_regular_segment, segment_tokens, segment_pieces, use_regex.
  destruct (Z.eqb_spec (Z.of_nat (length text)) 0) as [H0|H0]; wp_steps.
  { split_and!; [done|done|]. exists []. split; [|done]. assert (text = []) as -> by (apply length_zero_iff_nil; lia).
    by destruct (negb (_ || _)). }
  destruct (negb (tk_byte_level_use_regex t) || _); cbn [negb].
  { eapply wp_mono; [by apply encode_piece_spec| |].
    - intros [] s' (Hok & Hm & ids & Hp & He). split_and!; [done|done|]. exists ids. cbn. rewrite Hp. cbn. by rewrite app_nil_r.
    - intros e s' (Hok & Hm & -> & Hp & He). split_and!; [done|done|cbn; by rewrite Hp|rewrite He; apply counted_invalid_capped]. }
  apply (wp_loop (fun p s' => 0 <= p <= Z.of_nat (length text) /\ state_ok t s' /\
    maximum_symbol_count (es_workspace s') = maximum_symbol_count (es_workspace s) /\
    exists before lists, pieces_from text 0 = before ++ pieces_from text p /\ mapM (piece_tokens t) before = Some lists /\
      es_encoding s' = append_all (concat lists) (es_encoding s))
    (fun p _ => (length text - Z.to_nat p)%nat)); [|lia|].
  { split_and!; [lia|lia|done|done|]. by exists [], []. }
  intros p s' (Hp & Hok & Hm & before & lists & Hpieces & Hlists & Henc). unfold encode_piece_step.
  destruct (Z.leb_spec (Z.of_nat (length text)) p); wp_steps.
  { split_and!; [done|done|]. exists (concat lists). split; [|done]. rewrite Hpieces, pieces_end, app_nil_r, Hlists by lia. done. }
  destruct (next_piece text p) as (n & Hn & Hpos & Hle); [lia|]. rewrite Hn. wp_steps. apply wp_slice; [lia|lia|].
  replace (p + n - p) with n by lia. rewrite (pieces_step text p n) in Hpieces by (done || lia).
  set (piece := take (Z.to_nat n) (drop (Z.to_nat p) text)) in *.
  wp_steps.
  eapply wp_mono; [apply (encode_piece_spec t Ht piece flags s' Hok)| |].
  - subst piece. by apply Forall_take, Forall_drop.
  - subst piece. rewrite length_take, length_drop. lia.
  - cbn beta. intros [] s2 (Hok2 & Hm2 & ids & Htok & Henc2). wp_steps. split; [|lia].
    split_and!; [lia|lia|done|congruence|]. exists (before ++ [piece]), (lists ++ [ids]). split_and!.
    + by rewrite <- app_assoc.
    + rewrite (mapM_app_Some _ _ _ lists) by done. cbn. by rewrite Htok.
    + rewrite concat_app. cbn. by rewrite app_nil_r, append_all_app, <- Henc.
  - cbn beta. intros e s2 (Hok2 & Hm2 & -> & Hno & He). unfold count_invalid, on_encoding. wp_steps.
    split_and!; [destruct Hok2; by split|done|rewrite Hpieces, mapM_app_None; done|]. cbn. fold (counted_invalid (es_encoding s2)).
    rewrite He, Henc. do 2 (etransitivity; [|apply counted_invalid_capped]). apply append_all_capped.
Qed.

(** ** The scan *)

Abbreviation matching := (negb (has_flag flags ENCODE_FLAG_DISABLE_SPECIAL_TOKEN_MATCH)).

(** The chunks already encoded and the ones ahead. *)
Definition scanned (text : list Z) (s0 : EncodeState) (x : Z * Z) (s : EncodeState) : Prop :=
  let '(position, segment_start) := x in
  0 <= segment_start <= position /\ position <= Z.of_nat (length text) /\ state_ok t s /\
  maximum_symbol_count (es_workspace s) = maximum_symbol_count (es_workspace s0) /\
  exists before lists,
    chunks t matching [] text = before ++ chunks t matching
      (take (Z.to_nat (position - segment_start)) (drop (Z.to_nat segment_start) text)) (drop (Z.to_nat position) text) /\
    mapM (chunk_tokens t flags) before = Some lists /\ es_encoding s = append_all (concat lists) (es_encoding s0).

Lemma slice_bytes text lo hi : Forall byte text -> Forall byte (take hi (drop lo text)).
Proof. intros. by apply Forall_take, Forall_drop. Qed.

Lemma scan_step_spec text s0 x s :
  no_empty_special t -> Forall byte text -> Z.of_nat (length text) <= maximum_symbol_count (es_workspace s0) ->
  scanned text s0 x s ->
  wp (scan_step t text flags x)
    (fun r s' => match r with
       | Continue x' => scanned text s0 x' s' /\ (length text - Z.to_nat (fst x') < length text - Z.to_nat (fst x))%nat
       | Break segment_start => scanned text s0 (Z.of_nat (length text), segment_start) s'
       end)
    (unmapped (@concat Z <$> mapM (chunk_tokens t flags) (chunks t matching [] text)) s0) s.
Proof.
  intros Hne Htext Hfit. destruct x as [position segment_start]. intros (Hseg & Hpos & Hok & Hm & before & lists & Hchunks & Hlists & Henc).
  unfold scan_step, scanned, unmapped. destruct (Z.leb_spec (Z.of_nat (length text)) position); wp_steps.
  { replace (Z.of_nat (length text)) with position by lia. split_and!; [lia..|done|done|by exists before, lists]. }
  destruct (lookup_lt_is_Some_2 text (Z.to_nat position)) as [b Hb]; [lia|].
  set (segment := take (Z.to_nat (position - segment_start)) (drop (Z.to_nat segment_start) text)) in *.
  destruct (if has_flag flags ENCODE_FLAG_DISABLE_SPECIAL_TOKEN_MATCH then _ else _) as [[id n]|] eqn:Hf.
  - destruct (has_flag flags ENCODE_FLAG_DISABLE_SPECIAL_TOKEN_MATCH); [done|]. cbn [negb] in *.
    pose proof (special_nonempty t _ id n Hne Hf) as Hn. rewrite length_drop in Hn.
    rewrite (chunks_special t segment _ id n Hne Hf) in Hchunks. wp_steps. apply wp_slice; [lia|lia|]. fold segment. wp_steps.
    eapply wp_mono; [apply (segment_spec segment s Hok); [by apply slice_bytes|subst segment; rewrite length_take; lia]| |].
    + cbn beta. intros [] s1 (Hok1 & Hm1 & ids & Hids & Henc1). unfold on_encoding. wp_steps. cbn [fst].
      split; [|lia]. split_and!; [lia..|destruct Hok1; by split|cbn; congruence|].
      exists (before ++ [Segment segment; Special id (take (Z.to_nat n) (drop (Z.to_nat position) text))]), (lists ++ [ids; [id]]).
      split_and!.
      * rewrite Hchunks, <- app_assoc. rewrite Z.sub_diag. cbn. rewrite drop_drop.
        by replace (Z.to_nat (position + n)) with (Z.to_nat position + Z.to_nat n)%nat by lia.
      * rewrite (mapM_app_Some _ _ _ lists) by done. cbn. by rewrite Hids.
      * cbn. rewrite concat_app. cbn. rewrite !append_all_app, <- Henc, <- Henc1. done.
    + intros e s1 (Hok1 & -> & Hno & Hcap). split_and!; [done|done|rewrite Hchunks, mapM_app_None; done|].
      etransitivity; [|exact Hcap]. rewrite Henc. apply append_all_capped.
  - wp_steps. cbn [fst]. split; [|lia]. split_and!; [lia..|done|done|]. exists before, lists. split_and!; [|done|done].
    rewrite Hchunks. f_equal. rewrite (drop_S _ b) by done. rewrite chunks_skip.
    + replace (Z.to_nat (position + 1)) with (S (Z.to_nat position)) by lia. f_equal.
      replace (Z.to_nat (position + 1 - segment_start)) with (S (Z.to_nat (position - segment_start))) by lia.
      rewrite (take_S_r _ _ b); [done|]. rewrite lookup_drop. by replace (Z.to_nat segment_start + Z.to_nat (position - segment_start))%nat with (Z.to_nat position) by lia.
    + rewrite <- (drop_S _ b) by done. by destruct (has_flag flags _).
Qed.

(** All chunks of a text, one after the other. *)
Lemma scan_text_spec text s :
  no_empty_special t -> Forall byte text -> Z.of_nat (length text) <= maximum_symbol_count (es_workspace s) -> state_ok t s ->
  wp (encode_segments t text flags)
    (appends (@concat Z <$> mapM (chunk_tokens t flags) (chunks t matching [] text)) s)
    (unmapped (@concat Z <$> mapM (chunk_tokens t flags) (chunks t matching [] text)) s) s.
Proof.
  intros Hne Htext Hfit Hok. unfold encode_segments. wp_steps.
  apply (wp_loop (scanned text s) (fun x _ => (length text - Z.to_nat (fst x))%nat)).
  - split_and!; [lia..|done|done|]. by exists [], [].
  - cbn [fst]. lia.
  - intros x s' Hx. eapply wp_mono; [by apply scan_step_spec| |done].
    intros [x'|segment_start] s'' Hpost; [done|]. destruct Hpost as (Hseg & Hpos & Hok' & Hm & before & lists & Hchunks & Hlists & Henc).
    rewrite Nat2Z.id, drop_all in Hchunks. wp_steps. apply wp_slice; [lia|lia|].
    set (segment := take _ _) in *. rewrite chunks_end in Hchunks.
    eapply wp_mono; [apply (segment_spec segment s'' Hok'); [by apply slice_bytes|subst segment; rewrite length_take, length_drop; lia]| |].
    + intros [] s1 (Hok1 & Hm1 & ids & Hids & Henc1). split_and!; [done|congruence|]. exists (concat lists ++ ids). split.
      * rewrite Hchunks, (mapM_app_Some _ _ _ lists) by done. cbn. rewrite Hids. cbn. rewrite concat_app. cbn. by rewrite app_nil_r.
      * by rewrite append_all_app, <- Henc.
    + intros e s1 (Hok1 & -> & Hno & Hcap). split_and!; [done|done|rewrite Hchunks, mapM_app_None; done|].
      etransitivity; [|exact Hcap]. rewrite Henc. apply append_all_capped.
Qed.
End encode.

(** ** Counting tokens *)

Lemma length_bpe pairs tokens : (length (bpe pairs tokens) <= length tokens)%nat.
Proof.
  unfold bpe. generalize (length tokens) at 1 as f. intros f. revert tokens.
  induction f as [|f IH]; intros tokens; cbn; [lia|].
  pose proof (best_pair_spec pairs tokens) as Hb. destruct (best_pair pairs tokens) as [[k p]|]; [|lia].
  destruct Hb as [(a & b & _ & Hlt%lookup_lt_Some & _) _].
  etransitivity; [apply IH|]. rewrite length_merge_at by done. lia.
Qed.

Lemma length_concat_mapM {A} (f : A -> option (list Z)) (g : A -> list Z) l xs :
  (forall x y, x ∈ l -> f x = Some y -> (length y <= length (g x))%nat) ->
  mapM f l = Some xs -> (length (concat xs) <= length (concat (g <$> l)))%nat.
Proof.
  revert xs. induction l as [|x l IH]; intros xs Hfg Hm; cbn in Hm.
  - by injection Hm as <-.
  - destruct (f x) as [y|] eqn:Hx; [|done]. cbn in Hm. destruct (mapM f l) as [ys|]; [|done]. injection Hm as <-.
    cbn. rewrite !length_app. specialize (Hfg x y ltac:(by left) Hx) as Hy.
    specialize (IH ys ltac:(intros z w Hz; apply Hfg; by right) eq_refl). lia.
Qed.

Lemma piece_tokens_length t text ids : piece_tokens t text = Some ids -> (length ids <= length text)%nat.
Proof.
  unfold piece_tokens. intros Hp. destruct (mapM (byte_symbol t) text) as [tokens|] eqn:Hm; [|done]. injection Hp as <-.
  etransitivity; [apply length_bpe|]. apply length_mapM in Hm. lia.
Qed.

Lemma segment_text t flags text : concat (segment_pieces t flags text) = text.
Proof.
  unfold segment_pieces. destruct (use_regex t flags); [|cbn; by rewrite app_nil_r].
  by destruct (pieces_partition text 0).
Qed.

Lemma segment_tokens_length t flags text ids : segment_tokens t flags text = Some ids -> (length ids <= length text)%nat.
Proof.
  unfold segment_tokens. intros Hs. destruct (mapM _ _) as [lists|] eqn:Hm; [|done]. injection Hs as <-.
  apply (length_concat_mapM _ id) in Hm; [|by intros x y _; apply piece_tokens_length].
  by rewrite list_fmap_id, segment_text in Hm.
Qed.

(** No more tokens than bytes, but for the space in front. *)
Lemma encode_tokens_length t flags text ids :
  no_empty_special t -> encode_tokens t flags text = Some ids -> (length ids <= length text + 1)%nat.
Proof.
  intros Hne. unfold encode_tokens. intros Hs. destruct (mapM _ _) as [lists|] eqn:Hm; [|done]. injection Hs as <-.
  apply (length_concat_mapM _ chunk_text) in Hm.
  - etransitivity; [exact Hm|]. unfold text_chunks. rewrite fmap_app, concat_app, chunks_text, length_app by done.
    destruct (_ && _); cbn; lia.
  - intros [tx|id tx] y Hin; cbn; [apply segment_tokens_length|]. intros [= <-]. cbn.
    assert (tx <> []) as Htx; [|destruct tx; [done|cbn; lia]].
    unfold text_chunks in Hin. apply elem_of_app in Hin as [Hin|Hin]; [|by eapply chunks_special_text].
    destruct (_ && _); [by apply list_elem_of_singleton in Hin|by apply elem_of_nil in Hin].
Qed.

(** The first tokens are kept, the others counted. *)
Definition filled_encoding (token_ids : list Z) (e : Encoding) : Encoding :=
  mkEncoding (take (Z.to_nat (en_token_capacity e)) token_ids) (en_token_capacity e)
    (Z.max 0 (Z.of_nat (length token_ids) - en_token_capacity e)) 0.

Lemma append_all_reset token_ids e :
  0 <= en_token_capacity e -> Z.of_nat (length token_ids) <= U64_MAX ->
  append_all token_ids (reset_encoding e) = filled_encoding token_ids e.
Proof.
  intros Hc. induction token_ids as [|id ids IH] using rev_ind; intros Hlen.
  - unfold filled_encoding. cbn. rewrite take_nil. rewrite Z.max_l by lia. by destruct e.
  - rewrite length_app in Hlen. cbn in Hlen. rewrite append_all_app, IH by lia. cbn. unfold append_token, filled_encoding. cbn.
    rewrite length_take, length_app. cbn [length].
    destruct (Z.ltb_spec (Z.of_nat (Z.to_nat (en_token_capacity e) `min` length ids)) (en_token_capacity e)).
    + assert (length ids < Z.to_nat (en_token_capacity e))%nat as Hlt by lia.
      rewrite (take_ge ids) by lia. rewrite (take_ge (ids ++ [id])) by (rewrite length_app; cbn [length]; lia). rewrite !Z.max_l by lia. done.
    + rewrite take_app_le, u64_small by lia.
      by replace (Z.max 0 (Z.of_nat (length ids) - en_token_capacity e) + 1)
        with (Z.max 0 (Z.of_nat (length ids + 1) - en_token_capacity e)) by lia.
Qed.

(** ** The buffers *)

Lemma ensure_symbols_spec t w count :
  workspace_ok w \/ symbol_token_ids w = [] -> cache_ok t w -> 0 < count <= MAX_SYMBOLS ->
  wp (ensure_symbol_buffers count) (fun _ w' => workspace_ok w' /\ cache_ok t w' /\ count <= maximum_symbol_count w') (fun _ _ => False) w.
Proof.
  intros Hw Hc Hcount. unfold ensure_symbol_buffers. wp_steps. change (id w) with w.
  destruct (negb (Z.of_nat (length (symbol_token_ids w)) =? 0) && (count <=? maximum_symbol_count w)) eqn:Hgrow; wp_steps.
  { apply andb_prop in Hgrow as [Hlen Hle%Z.leb_le]. split_and!; [|done|done].
    destruct Hw as [|Hnil]; [done|]. by rewrite Hnil in Hlen. }
  fold MAX_SYMBOLS. destruct (Z.ltb_spec MAX_SYMBOLS count); [lia|]. wp_steps.
  split_and!; [|destruct Hc; by split|cbn; lia].
  split; cbn; rewrite ?length_replicate; try done; lia.
Qed.

Lemma ensure_cache_spec t w :
  workspace_ok w -> cache_ok t w ->
  wp ensure_piece_cache (fun _ w' => workspace_ok w' /\ cache_ok t w' /\ maximum_symbol_count w' = maximum_symbol_count w) (fun _ _ => False) w.
Proof.
  intros Hw Hc. unfold ensure_piece_cache. wp_steps. change (id w) with w.
  destruct (_ && _); wp_steps; [done|].
  split_and!; [destruct Hw; by split| |done]. split; cbn [piece_cache_entries piece_cache_token_pool piece_cache_token_used].
  - right. exists 14. split; [lia|]. cbn. rewrite length_replicate. reflexivity.
  - cbn. rewrite length_replicate. lia.
  - cbn. rewrite length_replicate. unfold PIECE_CACHE_TOKEN_CAPACITY. lia.
  - cbn. intros i e He. apply lookup_replicate in He as [-> _]. split; [done|]. intros Hh. by destruct Hh.
Qed.

(** ** The theorem *)

Section encode_text.
Context (t : Tokenizer) (Ht : tokenizer_ok t) (Hne : no_empty_special t) (flags : Z).

Lemma encode_text_spec text s :
  state_ok t s -> Forall byte text -> Z.of_nat (length text) + 1 <= MAX_SYMBOLS ->
  Z.land flags (u32_not ENCODE_KNOWN_FLAGS) = 0 -> 0 <= en_token_capacity (es_encoding s) ->
  wp (encode_with_workspace t text flags)
    (fun _ s' => state_ok t s' /\ exists token_ids, encode_tokens t flags text = Some token_ids /\
       Z.of_nat (length token_ids) <= en_token_capacity (es_encoding s) /\ es_encoding s' = filled_encoding token_ids (es_encoding s))
    (fun e s' => state_ok t s' /\
       ((e = NotFound "byte token" /\ encode_tokens t flags text = None /\
         Z.of_nat (length (en_token_ids (es_encoding s'))) <= en_token_capacity (es_encoding s)) \/
        (e = CapacityExceeded /\ exists token_ids, encode_tokens t flags text = Some token_ids /\
           en_token_capacity (es_encoding s) < Z.of_nat (length token_ids) /\ es_encoding s' = filled_encoding token_ids (es_encoding s)))) s.
Proof.
  intros [Hw Hc] Htext Hfit Hflags Hcap. unfold encode_with_workspace. rewrite Hflags. cbn [Z.eqb negb].
  apply wp_bind. unfold on_workspace at 1. apply wp_zoom.
  eapply wp_mono; [apply (ensure_symbols_spec t); [by left|done|lia]| |done]. cbn beta. intros _ w1 (Hw1 & Hc1 & Hm1). wp_steps.
  unfold on_workspace at 1. apply wp_zoom. cbn.
  eapply wp_mono; [by apply (ensure_cache_spec t)| |done]. cbn beta. intros _ w2 (Hw2 & Hc2 & Hm2). unfold on_encoding. wp_steps. cbn.
  set (s2 := {| es_workspace := w2; es_encoding := reset_encoding (es_encoding s) |}).
  assert (state_ok t s2) as Hok2 by (by split).
  assert (forall s3, capped (es_encoding s2) (es_encoding s3) ->
    Z.of_nat (length (en_token_ids (es_encoding s3))) <= en_token_capacity (es_encoding s)) as Hcapped.
  { intros s3 [Hc3 Hl3]. cbn in Hc3, Hl3. rewrite <- Hc3. apply Hl3. lia. }
  unfold encode_tokens, text_chunks. set (pre := _ && _).
  eapply (wp_mono _ (fun u s3 => appends t (if pre then segment_tokens t flags [SPACE] else Some []) s2 u s3) _
            (unmapped t (if pre then segment_tokens t flags [SPACE] else Some []) s2)).
  { destruct pre; [|wp_steps; split_and!; [done|done|by exists []]].
    apply segment_spec; [done|done| |cbn; lia]. by repeat constructor. }
  2:{ intros e s3 (Hok3 & -> & Hno & Hcap3). split; [done|]. left. split_and!; [done| |by apply Hcapped].
      destruct pre; [|done]. cbn. by rewrite Hno. }
  cbn beta. intros [] s3 (Hok3 & Hm3 & ids & Hids & Henc3).
  assert (mapM (chunk_tokens t flags) (if pre then [Segment [SPACE]] else []) = Some (if pre then [ids] else [])) as Hpre.
  { destruct pre; cbn; [by rewrite Hids|done]. }
  assert (concat (if pre then [ids] else []) = ids) as Hcat.
  { destruct pre; cbn; [by rewrite app_nil_r|by injection Hids]. }
  rewrite (mapM_app_Some _ _ _ _ Hpre).
  wp_steps. eapply wp_mono; [apply (scan_text_spec t Ht flags text s3 Hne Htext)| |].
  - rewrite Hm3. cbn. lia.
  - done.
  - cbn beta. intros [] s4 (Hok4 & _ & ids' & Hids' & Henc4). wp_steps.
    destruct (mapM _ (chunks _ _ _ _)) as [lists|] eqn:Hlists; [|done]. injection Hids' as <-. cbn.
    assert (es_encoding s4 = filled_encoding (ids ++ concat lists) (es_encoding s)) as Henc.
    { rewrite Henc4, Henc3. change (es_encoding s2) with (reset_encoding (es_encoding s)). rewrite <- append_all_app.
      apply append_all_reset; [done|].
      assert (length (ids ++ concat lists) <= length text + 1)%nat; [|change MAX_SYMBOLS with 1073741819 in Hfit; lia].
      apply (encode_tokens_length t flags text); [done|]. unfold encode_tokens, text_chunks. fold pre.
      rewrite (mapM_app_Some _ _ _ _ Hpre), Hlists. cbn. by rewrite concat_app, Hcat. }
    rewrite concat_app, Hcat, Henc. cbn [filled_encoding en_overflow_token_count].
    destruct (Z.eqb_spec (Z.max 0 (Z.of_nat (length (ids ++ concat lists)) - en_token_capacity (es_encoding s))) 0); cbn [negb]; wp_steps.
    + split; [done|]. exists (ids ++ concat lists). split_and!; [done|lia|done].
    + split; [done|]. right. split; [done|]. exists (ids ++ concat lists). split_and!; [done|lia|done].
  - intros e s4 (Hok4 & -> & Hno & Hcap4). split; [done|]. left. split_and!; [done|by destruct (mapM _ (chunks _ _ _ _))|].
    apply Hcapped. etransitivity; [|exact Hcap4]. rewrite Henc3. apply append_all_capped.
Qed.
End encode_text.

(** ** [encode] *)

Lemma wp_run_on {St T E A} (m : M T E A) (x : T) (Q : T -> St -> Prop) (R : E -> St -> Prop) s :
  wp m (fun _ x' => Q x' s) (fun e _ => R e s) x -> wp (run_on m x) Q R s.
Proof. unfold wp, run_on. by destruct (m x). Qed.

Lemma new_workspace_spec {St} t count (s : St) :
  0 < count <= MAX_SYMBOLS ->
  wp (new_workspace count) (fun w s' => s' = s /\ workspace_ok w /\ cache_ok t w /\ count <= maximum_symbol_count w) (fun _ _ => False) s.
Proof.
  intros Hcount. unfold new_workspace. destruct (Z.eqb_spec count 0); [lia|]. apply wp_run_on. wp_steps.
  eapply wp_mono; [apply (ensure_symbols_spec t blank_workspace count); [by right| |done]| |done].
  { split; cbn; [by left|lia|lia|done]. }
  cbn beta. intros _ w (Hw & Hc & Hm). eapply wp_mono; [by apply (ensure_cache_spec t)| |done].
  intros _ w' (Hw' & Hc' & Hm'). split_and!; [done..|lia].
Qed.

(** A fresh workspace and no capacity: all the tokens of the reference. *)
Lemma encode_spec {St} t flags text (s : St) :
  tokenizer_ok t -> no_empty_special t -> Forall byte text -> Z.of_nat (length text) + 1 <= MAX_SYMBOLS ->
  Z.land flags (u32_not ENCODE_KNOWN_FLAGS) = 0 ->
  encode t text flags s =
    match encode_tokens t flags text with
    | Some token_ids => Ret (mkEncoding token_ids U64_MAX 0 0) s
    | None => Fails (NotFound "byte token") s
    end.
Proof.
  intros Ht Hne Htext Hfit Hflags.
  assert (wp (encode t text flags)
    (fun e s' => s' = s /\ encode_tokens t flags text = Some (en_token_ids e) /\ e = mkEncoding (en_token_ids e) U64_MAX 0 0)
    (fun e s' => s' = s /\ e = NotFound "byte token" /\ encode_tokens t flags text = None) s) as Hwp.
  { unfold encode. wp_steps. eapply wp_mono; [apply (new_workspace_spec t); lia| |done].
    cbn beta. intros w s' (-> & Hw & Hc & Hm). wp_steps. apply wp_run_on.
    eapply wp_mono; [apply (encode_text_spec t Ht Hne flags text (mkEncodeState w unbounded_encoding)); [by split|done|done|done|done]| |].
    - cbn beta. intros _ s1 (_ & ids & Hids & Hlen & ->). wp_steps. unfold filled_encoding. cbn -[Z.of_nat Z.max Z.to_nat] in *.
      rewrite take_ge, Z.max_l by lia. done.
    - intros e s1 (_ & [(-> & Hno & _)|(-> & ids & Hids & Hlen & _)]); [done|].
      apply (encode_tokens_length t flags text) in Hids; [|done]. cbn in Hlen. change MAX_SYMBOLS with 1073741819 in Hfit. lia. }
  apply wp_elim in Hwp as [(e & s' & -> & -> & -> & He)|(e & s' & -> & -> & -> & ->)]; [by rewrite He at 1|done].
Qed.
