(* ===== verification/Decode.v ===== *)
(** * Decoding ([crates/spark-text/src/tokenizer.rs])

    In a consistent vocabulary the token of a byte has the text of the byte, and a
    merged token the text of its parts.  Then the tokens of a piece spell the piece,
    and decoding what encoding produced gives the text back. *)

From Stdlib Require Import String.
From S2P Require Import Prelude Bytes TokenTables TokenTablesProps Tokenizer MergeHeap Bpe MergeLoop PieceTokens PieceCache TextSplit Encode.

(** The vocabulary text of a sequence of bytes. *)
Definition bytes_text (bytes : list Z) : list Z := concat (byte_text <$> bytes).

Lemma bytes_text_app a b : bytes_text (a ++ b) = bytes_text a ++ bytes_text b.
Proof. unfold bytes_text. by rewrite fmap_app, concat_app. Qed.

(** A token stands for some bytes. *)
Definition spells (t : Tokenizer) (token_id : Z) (bytes : list Z) : Prop :=
  token_id <= tk_maximum_token_id t /\ token_text t token_id = Some (bytes_text bytes) /\ Forall byte bytes.

(** The tokens stand for the bytes, one after the other. *)
Definition spell_out (t : Tokenizer) (token_ids bytes : list Z) : Prop :=
  exists parts, Forall2 (spells t) token_ids parts /\ concat parts = bytes.

Record consistent (t : Tokenizer) : Prop := {
  co_bytes : forall b id, byte b -> byte_symbol t b = Some id -> spells t id [b];
  co_pairs : forall p a b, p ∈ mt_pairs (tk_merge_pairs t) -> spells t (mp_left_token_id p) a -> spells t (mp_right_token_id p) b ->
    spells t (mp_merged_token_id p) (a ++ b);
}.

(** A byte with a token of its own. *)
Definition mapped (t : Tokenizer) (b : Z) : Prop := is_Some (byte_symbol t b).

(** ** The tokens spell the text *)

Lemma spell_out_app t a b x y : spell_out t a x -> spell_out t b y -> spell_out t (a ++ b) (x ++ y).
Proof. intros (p & Hp & <-) (q & Hq & <-). exists (p ++ q). split; [by apply Forall2_app|]. by rewrite concat_app. Qed.

Lemma spell_out_concat t lists parts : Forall2 (spell_out t) lists parts -> spell_out t (concat lists) (concat parts).
Proof. induction 1; cbn; [by exists []|]. by apply spell_out_app. Qed.

Section spelling.
Context (t : Tokenizer) (Hc : consistent t).

(** A merge step spells the same bytes. *)
Lemma merge_spells tokens k p bytes :
  pair_at (tk_merge_pairs t) tokens k p -> spell_out t tokens bytes -> spell_out t (merge_at k (mp_merged_token_id p) tokens) bytes.
Proof.
  intros (a & b & Ha & Hb & Hp) (parts & Hparts & Hcat). apply pair_entry_Some in Hp as [Hin Hkey]. injection Hkey as Hl Hr.
  assert (exists pre post, tokens = pre ++ a :: b :: post /\ length pre = k) as (pre & post & Htok & Hk).
  { exists (take k tokens), (drop (S (S k)) tokens). split; [|rewrite length_take; apply lookup_lt_Some in Ha; lia].
    rewrite <- (drop_S _ b), <- (drop_S _ a) by done. by rewrite take_drop. }
  subst tokens. apply Forall2_app_inv_l in Hparts as (pre' & rest & Hpre & Hrest & ->).
  apply Forall2_cons_inv_l in Hrest as (x & rest' & Hx & Hrest & ->). apply Forall2_cons_inv_l in Hrest as (y & post' & Hy & Hpost & ->).
  exists (pre' ++ (x ++ y) :: post'). split.
  - assert (merge_at k (mp_merged_token_id p) (pre ++ a :: b :: post) = pre ++ mp_merged_token_id p :: post) as ->.
    { unfold merge_at. subst k. rewrite insert_app_r_alt, Nat.sub_diag by lia. cbn [insert list_insert].
      change (mp_merged_token_id p :: b :: post) with ([mp_merged_token_id p] ++ b :: post). rewrite app_assoc.
      replace (S (length pre)) with (length (pre ++ [mp_merged_token_id p])) by (rewrite length_app; cbn; lia).
      by rewrite delete_middle, <- app_assoc. }
    apply Forall2_app; [done|]. constructor; [|done]. apply (co_pairs _ Hc p); congruence.
  - rewrite <- Hcat, !concat_app. cbn. by rewrite <- app_assoc.
Qed.

Lemma bpe_spells tokens bytes : spell_out t tokens bytes -> spell_out t (bpe (tk_merge_pairs t) tokens) bytes.
Proof.
  unfold bpe. generalize (length tokens) as f. intros f. revert tokens.
  induction f as [|f IH]; intros tokens Hs; cbn; [done|].
  pose proof (best_pair_spec (tk_merge_pairs t) tokens) as Hb. destruct (best_pair _ tokens) as [[k p]|]; [|done].
  destruct Hb as [Hp _]. apply IH. by apply merge_spells.
Qed.

Lemma piece_spells text ids : Forall byte text -> piece_tokens t text = Some ids -> spell_out t ids text.
Proof.
  unfold piece_tokens. intros Htext Hp. destruct (mapM (byte_symbol t) text) as [tokens|] eqn:Hm; [|done]. injection Hp as <-.
  apply bpe_spells. exists ((fun b => [b]) <$> text). split.
  - apply mapM_Some_1 in Hm. induction Hm as [|b id text tokens Hb Hm IH]; [constructor|].
    apply Forall_cons in Htext as [Hbb Htext]. constructor; [by apply (co_bytes _ Hc)|by apply IH].
  - clear. induction text as [|b text IH]; cbn; [done|by rewrite IH].
Qed.

Lemma segment_spells flags text ids : Forall byte text -> segment_tokens t flags text = Some ids -> spell_out t ids text.
Proof.
  unfold segment_tokens. intros Htext Hs. destruct (mapM _ _) as [lists|] eqn:Hm; [|done]. injection Hs as <-.
  rewrite <- (segment_text t flags text) in Htext |- *. apply spell_out_concat.
  apply mapM_Some_1 in Hm. induction Hm as [|piece ids pieces lists Hp Hm IH]; [constructor|].
  cbn in Htext. apply Forall_app in Htext as [Hpiece Htext]. constructor; [by apply piece_spells|by apply IH].
Qed.

(** Every special token stands for its own text. *)
Definition specials_spelled : Prop := Forall (fun special => spells t (sp_token_id special) (sp_text special)) (tk_special_tokens t).

(** A chunk of plain bytes, or a special token with the bytes it stands for. *)
Definition chunk_ok (c : chunk) : Prop :=
  match c with Segment text => Forall byte text | Special id text => spells t id text end.

Lemma split_specials_ok matching f segment text :
  matching = false \/ specials_spelled -> Forall byte (segment ++ text) -> Forall chunk_ok (split_specials f t matching segment text).
Proof.
  intros Hsp. revert segment text. induction f as [|f IH]; intros segment text Hb; cbn [split_specials].
  - repeat constructor. by apply Forall_app in Hb as [? _].
  - destruct text as [|b text]; [repeat constructor; by rewrite app_nil_r in Hb|].
    destruct (if matching then _ else _) as [[id n]|] eqn:Hf; [|apply IH; by rewrite <- app_assoc].
    destruct matching; [|done]. destruct Hsp as [|Hsp]; [done|]. apply find_special_spec in Hf as (sp & rest & Hin & -> & -> & Htext).
    apply Forall_app in Hb as [Hseg Hb]. rewrite Htext, Nat2Z.id, take_app_length, drop_app_length in *. apply Forall_app in Hb as [_ Hrest].
    constructor; [done|]. constructor; [|by apply IH]. unfold specials_spelled in Hsp. rewrite Forall_forall in Hsp. by apply Hsp.
Qed.

(** With the special tokens off, or each standing for its own text, the tokens spell the text
    behind its prefix space. *)
Lemma encode_spells flags text ids :
  has_flag flags ENCODE_FLAG_DISABLE_SPECIAL_TOKEN_MATCH = true \/ specials_spelled -> Forall byte text -> encode_tokens t flags text = Some ids ->
  spell_out t ids (concat (chunk_text <$> text_chunks t flags text)).
Proof.
  intros Hsp Htext Hs. unfold encode_tokens in Hs.
  assert (Forall chunk_ok (text_chunks t flags text)) as Hall.
  { unfold text_chunks. apply Forall_app. split; [destruct (_ && _); by repeat constructor|].
    apply split_specials_ok; [|done]. destruct Hsp as [->|]; by [left|right]. }
  destruct (mapM _ _) as [lists|] eqn:Hm; [|done]. injection Hs as <-. apply spell_out_concat.
  apply mapM_Some_1 in Hm. induction Hm as [|c ids cs lists Hp Hm IH]; [constructor|].
  apply Forall_cons in Hall as [Hchunk Hall]. constructor; [|by apply IH]. destruct c as [tx|id tx]; [by apply (segment_spells flags)|].
  injection Hp as <-. exists [tx]. split; [by apply Forall2_cons; split|]. apply app_nil_r.
Qed.
End spelling.

(** ** Mapped bytes *)

Lemma mapM_total {A B} (f : A -> option B) l : Forall (fun x => is_Some (f x)) l -> is_Some (mapM f l).
Proof. induction 1 as [|x l [y Hy] _ [ys Hys]]; cbn; [eauto|]. rewrite Hy, Hys. eauto. Qed.

Lemma mapped_segment t flags text : Forall (mapped t) text -> is_Some (segment_tokens t flags text).
Proof.
  intros Htext. unfold segment_tokens. apply fmap_is_Some, mapM_total.
  rewrite <- (segment_text t flags text) in Htext. induction (segment_pieces t flags text) as [|piece pieces IH]; [done|].
  cbn in Htext. apply Forall_app in Htext as [Hp Htext]. constructor; [|by apply IH].
  unfold piece_tokens. by apply fmap_is_Some, mapM_total.
Qed.

(** The text with the space the flags put in front. *)
Definition prefixed (t : Tokenizer) (flags : Z) (text : list Z) : list Z :=
  (if (has_flag flags ENCODE_FLAG_ADD_PREFIX_SPACE || tk_add_prefix_space t)
      && ((Z.of_nat (length text) =? 0) || negb (byte_at text 0 =? SPACE)) then [SPACE] else []) ++ text.

Lemma text_chunks_text t flags text :
  no_empty_special t -> concat (chunk_text <$> text_chunks t flags text) = prefixed t flags text.
Proof. intros Hne. unfold text_chunks, prefixed. rewrite fmap_app, concat_app, chunks_text by done. by destruct (_ && _). Qed.

(** The bytes of the text that no special token stands for, which the vocabulary has to cover. *)
Definition plain_bytes (t : Tokenizer) (flags : Z) (text : list Z) : list Z :=
  concat ((fun c => match c with Segment tx => tx | Special _ _ => [] end) <$> text_chunks t flags text).

Lemma mapped_text t flags text : Forall (mapped t) (plain_bytes t flags text) -> is_Some (encode_tokens t flags text).
Proof.
  intros Hm. unfold encode_tokens, plain_bytes in *. apply fmap_is_Some, mapM_total.
  induction (text_chunks t flags text) as [|c cs IH]; [done|]. cbn in Hm. apply Forall_app in Hm as [Hcm Hm].
  constructor; [|by apply IH]. destruct c as [tx|id tx]; cbn; [by apply mapped_segment|by eexists].
Qed.

(** They are bytes of the text. *)
Lemma plain_bytes_in t flags text : no_empty_special t -> plain_bytes t flags text ⊆ prefixed t flags text.
Proof.
  intros Hne. rewrite <- text_chunks_text by done. unfold plain_bytes.
  induction (text_chunks t flags text) as [|c cs IH]; [done|]. cbn. destruct c; set_solver.
Qed.

(** ** Decoding *)

Lemma decode_token_spec t token_id bytes capacity s :
  spells t token_id bytes -> Z.of_nat (length s) + Z.of_nat (length bytes) + 1 < capacity ->
  wp (decode_one_token t token_id capacity) (fun _ s' => s' = s ++ bytes) (fun _ _ => False) s.
Proof.
  intros (_ & Htext & Hbytes) Hcap. unfold decode_one_token. rewrite Htext.
  apply (wp_loop (fun p s' => exists done todo, bytes = done ++ todo /\ p = Z.of_nat (length (bytes_text done)) /\ s' = s ++ done)
    (fun p _ => (length (bytes_text bytes) - Z.to_nat p)%nat)).
  - exists [], bytes. split_and!; [done|done|by rewrite app_nil_r].
  - cbn. lia.
  - intros p s' (done & todo & Hsplit & -> & ->). unfold decode_step. rewrite Hsplit, bytes_text_app, length_app.
    destruct todo as [|b todo].
    { destruct (Z.leb_spec (Z.of_nat (length (bytes_text done) + length (bytes_text []))) (Z.of_nat (length (bytes_text done)))); [|cbn in *; lia].
      wp_steps. by rewrite app_nil_r. }
    assert (byte b) as Hb by (rewrite Hsplit in Hbytes; apply Forall_app in Hbytes as [_ Hb]; by apply Forall_cons in Hb as [? _]).
    change (bytes_text (b :: todo)) with (byte_text b ++ bytes_text todo).
    assert (1 <= length (byte_text b))%nat as Hpos.
    { pose proof (byte_text_ok b Hb) as Hok. unfold byte_text_reads_back in Hok. destruct (byte_text b); [done|cbn; lia]. }
    rewrite length_app.
    destruct (Z.leb_spec (Z.of_nat (length (bytes_text done) + (length (byte_text b) + length (bytes_text todo)))) (Z.of_nat (length (bytes_text done)))); [lia|].
    destruct (read_byte_text (bytes_text done) b (bytes_text todo) Hb) as (code_point & Hread & Hback). rewrite Hread, Hback. wp_steps.
    change (id (s ++ done)) with (s ++ done). rewrite length_app.
    destruct (Z.leb_spec capacity (Z.of_nat (length s + length done) + 1)).
    { rewrite Hsplit, length_app in Hcap. cbn in Hcap. lia. }
    wp_steps. split; [|lia]. exists (done ++ [b]), todo. split_and!.
    + by rewrite <- app_assoc.
    + rewrite bytes_text_app, length_app. change (bytes_text [b]) with (byte_text b ++ []). rewrite app_nil_r. lia.
    + by rewrite <- app_assoc.
Qed.

Lemma decode_spec t token_ids bytes :
  spell_out t token_ids bytes -> Z.of_nat (length bytes) + 1 < U64_MAX ->
  decode t token_ids 0 tt = Ret bytes tt.
Proof.
  intros (parts & Hparts & Hcat) Hlen.
  assert (wp (decode t token_ids 0) (fun text _ => text = bytes) (fun _ _ => False) tt) as Hwp.
  { unfold decode, decode_with_capacity. cbn [Z.land Z.eqb negb]. apply wp_run_on.
    eapply wp_mono; [apply (wp_for_fold (fun pre _ s => exists done todo, parts = done ++ todo /\ length done = length pre /\ s = concat done) _ _ _
      (fun _ _ => False))| |done].
    - by exists [], parts.
    - intros pre id post _ s Hsplit (done & todo & Hp & Hl & ->). rewrite Hp, Hsplit in Hparts.
      apply Forall2_app_inv in Hparts as [_ Htodo]; [|done]. apply Forall2_cons_inv_l in Htodo as (part & todo' & Hid & _ & ->).
      cbn [has_flag]. rewrite has_flag_0. cbn [andb].
      destruct (Z.ltb_spec (tk_maximum_token_id t) id); [destruct Hid; lia|].
      eapply wp_mono; [eapply (decode_token_spec t id part)| |done]; [done| |].
      + rewrite <- Hcat, Hp, concat_app, length_app in Hlen. cbn in Hlen. rewrite length_app in Hlen. lia.
      + intros _ s' ->. exists (done ++ [part]), todo'. split_and!.
        * by rewrite Hp, <- app_assoc.
        * rewrite !length_app. cbn. lia.
        * rewrite concat_app. cbn. by rewrite app_nil_r.
    - intros _ s (done & todo & Hp & Hl & ->). apply Forall2_length in Hparts. rewrite Hp, length_app in Hparts.
      destruct todo; [|cbn in Hparts; lia]. rewrite <- Hcat, Hp. by rewrite app_nil_r. }
  apply wp_elim in Hwp as [(a & [] & -> & ->)|(? & ? & _ & [])]. done.
Qed.
