(* ===== verification/TokenizerLoad.v ===== *)
(** * Loading a tokenizer ([crates/spark-text/src/tokenizer.rs])

    What the tables of a tokenizer loaded from a [tokenizer.json] document hold, and
    that they are consistent: texts encoded with it decode to themselves. *)

From Stdlib Require Import String Sorted.
From S2P Require Import Prelude Bytes TokenTables TokenTablesProps Tokenizer MergeHeap Bpe MergeLoop PieceTokens PieceCache TextSplit Encode Decode.

(** An id of the vocabulary and its text. *)
Definition in_vocabulary (t : Tokenizer) (text : list Z) (token_id : Z) : Prop :=
  exists e, string_entry (tk_vocabulary t) text = Some e /\ se_value e = token_id.

(** A merge rule joins two vocabulary texts to a third. *)
Definition rule_of (t : Tokenizer) (p : FastMergePair) : Prop :=
  exists left_text right_text, in_vocabulary t left_text (mp_left_token_id p) /\
    in_vocabulary t right_text (mp_right_token_id p) /\ in_vocabulary t (left_text ++ right_text) (mp_merged_token_id p).

(** The token a byte gets. *)
Definition byte_id (t : Tokenizer) (b : Z) : Z :=
  match string_entry (tk_vocabulary t) (byte_text b) with
  | Some e => se_value e
  | None => if tk_has_unk_token t then tk_unk_token_id t else NO_TOKEN_ID
  end.

(** The vocabulary: every entry has a text and an id up to the largest. *)
Record vocabulary_ok (t : Tokenizer) : Prop := {
  vo_table : wf_strings (tk_vocabulary t);
  vo_entries : forall e, e ∈ st_entries (tk_vocabulary t) ->
    is_Some (se_text e) /\ 0 <= se_value e <= tk_maximum_token_id t;
}.

(** The texts by id: none without a vocabulary. *)
Definition reverse_texts (t : Tokenizer) : list (option (list Z)) :=
  match st_entries (tk_vocabulary t) with [] => [] | _ => tk_token_text_by_id (build_reverse_vocabulary t) end.

(** The tables derived from it. *)
Record tables_ok (t : Tokenizer) : Prop := {
  ta_vocabulary : vocabulary_ok t;
  ta_text : tk_token_text_by_id t = reverse_texts t;
  ta_bytes : length (tk_byte_token_ids t) = 256%nat;
  ta_byte : forall b, byte b -> tk_byte_token_ids t !! Z.to_nat b = Some (byte_id t b);
  ta_pairs : wf_pairs (tk_merge_pairs t);
  ta_rules : forall p, p ∈ mt_pairs (tk_merge_pairs t) -> rule_of t p;
}.

(** ** Sorting *)

Section stable.
Context {A : Type} (before : A -> A -> bool).
Context (Htrans : forall x y z, before x y = true -> before y z = true -> before x z = true).
Context (Htotal : forall x y, before x y = false -> before y x = true).
Abbreviation sorted := (StronglySorted (fun x y => before x y = true)).

Lemma insert_stable_perm x l : insert_stable before x l ≡ₚ x :: l.
Proof.
  induction l as [|y l IH]; cbn; [done|]. destruct (before y x); [|done]. rewrite IH. apply Permutation_swap.
Qed.

Lemma insert_stable_sorted x l : sorted l -> sorted (insert_stable before x l).
Proof.
  induction 1 as [|y l Hl IH Hy]; cbn; [by repeat constructor|]. destruct (before y x) eqn:Hyx.
  - constructor; [done|]. rewrite insert_stable_perm. by constructor.
  - constructor; [by constructor|]. constructor; [by apply Htotal|].
    eapply Forall_impl; [exact Hy|]. intros z Hz. eapply Htrans; [by apply Htotal|done].
Qed.

Lemma sort_stable_sorted l : sorted (sort_stable before l).
Proof.
  unfold sort_stable. assert (sorted []) as H by constructor. revert H. generalize (@nil A) as acc.
  induction l as [|x l IH]; intros acc Hacc; cbn; [done|]. by apply IH, insert_stable_sorted.
Qed.

(** An element behind all others goes to the end. *)
Lemma insert_stable_last x l : Forall (fun y => before y x = true) l -> insert_stable before x l = l ++ [x].
Proof. induction 1 as [|y l Hy Hl IH]; cbn; [done|]. by rewrite Hy, IH. Qed.

Lemma sort_stable_id l : sorted l -> sort_stable before l = l.
Proof.
  intros Hl. unfold sort_stable. enough (forall acc, sorted (acc ++ l) -> foldl (fun s x => insert_stable before x s) acc l = acc ++ l) as H
    by (by apply (H [])).
  clear Hl. induction l as [|x l IH]; intros acc Hacc; cbn; [by rewrite app_nil_r|].
  rewrite insert_stable_last.
  - rewrite IH; rewrite <- app_assoc; done.
  - clear IH. induction acc as [|y acc IH]; [constructor|]. apply StronglySorted_inv in Hacc as [Hacc Hy].
    constructor; [|by apply IH]. apply Forall_app in Hy as [_ Hy]. by apply Forall_cons in Hy as [? _].
Qed.
End stable.

Lemma special_before_trans x y z : special_before x y = true -> special_before y z = true -> special_before x z = true.
Proof. unfold special_before. rewrite !orb_true_iff, !andb_true_iff, !Z.ltb_lt, !Z.eqb_eq, !Z.leb_le. lia. Qed.

Lemma special_before_total x y : special_before x y = false -> special_before y x = true.
Proof.
  unfold special_before. rewrite orb_false_iff, orb_true_iff, andb_true_iff, andb_false_iff, !Z.ltb_lt, !Z.ltb_ge, !Z.eqb_eq, !Z.eqb_neq, !Z.leb_le, !Z.leb_gt.
  lia.
Qed.

Definition specials_sorted (t : Tokenizer) : Prop := StronglySorted (fun x y => special_before x y = true) (tk_special_tokens t).

(** ** The steps of loading *)

Lemma json_u32_spec {St} value what (s : St) R :
  (forall e, R e s) -> wp (json_u32 value what) (fun n s' => s' = s /\ 0 <= n <= U32_MAX) R s.
Proof.
  intros HR. unfold json_u32. destruct value as [| |[n|]| | |]; wp_steps; try apply HR.
  destruct (Z.leb_spec (Z.of_N n) U32_MAX); wp_steps; [|apply HR]. split; [done|lia].
Qed.

Lemma parse_vocabulary_spec {St} members t (s : St) :
  Z.of_nat (length members) <= EMPTY_BUCKET -> tk_maximum_token_id t = 0 ->
  wp (parse_vocabulary members t)
    (fun t' s' => s' = s /\ vocabulary_ok t' /\ exists vocabulary maximum,
       t' = t <| tk_vocabulary := vocabulary |> <| tk_maximum_token_id := maximum |>) (fun _ s' => s' = s) s.
Proof.
  intros Hsize H0. unfold parse_vocabulary.
  eapply wp_mono; [apply (wp_for_fold (fun pre t' s' => s' = s /\ vocabulary_ok t' /\ 0 <= tk_maximum_token_id t' /\
    length (st_entries (tk_vocabulary t')) = length pre /\ exists vocabulary maximum,
       t' = t <| tk_vocabulary := vocabulary |> <| tk_maximum_token_id := maximum |>) _ _ _ (fun _ s' => s' = s))| |done].
  - split_and!; [done| |cbn; lia| |].
    + split; cbn; [apply wf_strings_new|]. intros e He. unfold strings_with_entry_count in He.
      destruct (_ =? 0); cbn in He; by apply elem_of_nil in He.
    + cbn. unfold strings_with_entry_count. by destruct (_ =? 0).
    + exists (strings_with_entry_count (Z.of_nat (length members))), 0. destruct t. cbn in *. by subst.
  - intros pre [text value] post t' s' Hsplit (-> & [Hwf Hent] & Hmax & Hlen & vocabulary & maximum & ->). cbn [fst snd]. wp_steps.
    eapply wp_mono; [apply (json_u32_spec value _ s (fun _ s' => s' = s)); done| |done]. cbn beta. intros id s' [-> Hid]. wp_steps. apply wp_run_on.
    cbn in Hlen. eapply wp_mono; [apply insert_string_spec; [done|]| |done].
    { cbn. rewrite Hlen. rewrite Hsplit, length_app in Hsize. cbn in Hsize. lia. }
    cbn beta. intros _ v' (Hwf' & Hnew & head & _ & Hentries). wp_steps. cbn in *.
    split_and!; [done| |destruct (Z.ltb_spec maximum id); lia|rewrite Hentries, !length_app; cbn; lia|].
    + split; cbn; [done|]. rewrite Hentries. intros e [He|He%list_elem_of_singleton]%elem_of_app.
      * destruct (Hent e He). split; [done|]. destruct (Z.ltb_spec maximum id); lia.
      * subst e. cbn. split; [by eexists|]. destruct (Z.ltb_spec maximum id); lia.
    + exists v', (if maximum <? id then id else maximum). by destruct t.
  - intros t' s' (-> & Hv & _ & _ & Heq). done.
Qed.

Lemma find_string_wp {St E} t text Q (R : E -> St -> Prop) s :
  wf_strings t -> Q (string_entry t text) s -> wp (find_string t text) Q R s.
Proof. intros Hwf HQ. unfold wp. by rewrite find_string_spec. Qed.

Lemma byte_table_spec {St} t (s : St) :
  wf_strings (tk_vocabulary t) -> length (tk_byte_token_ids t) = 256%nat ->
  wp (build_byte_token_table t)
    (fun t' s' => s' = s /\ exists ids, t' = t <| tk_byte_token_ids := ids |> /\ length ids = 256%nat /\
       forall b, byte b -> ids !! Z.to_nat b = Some (byte_id t b))
    (fun _ _ => False) s.
Proof.
  intros Hwf Hlen. unfold build_byte_token_table. wp_steps. change 256 with (Z.of_nat 256) at 1.
  eapply wp_mono; [apply (wp_for_range (fun m ids s' => s' = s /\ length ids = 256%nat /\
    forall b, byte b -> (Z.to_nat b < m)%nat -> ids !! Z.to_nat b = Some (byte_id t b))
    256 _ _ (fun _ _ => False))| |done].
  - split_and!; [done|done|lia].
  - intros m ids s' Hm (-> & Hl & Hids). wp_steps. fold (byte_text (Z.of_nat m)). apply find_string_wp; [done|]. wp_steps.
    split_and!; [done|by rewrite length_upd_nth|]. intros b Hb Hlt. rewrite upd_nth_const, Nat2Z.id.
    destruct (decide (Z.to_nat b = m)) as [Heq|Hne].
    + rewrite Heq, list_lookup_insert_eq by lia. replace (Z.of_nat m) with b by (unfold byte in Hb; lia). done.
    + rewrite list_lookup_insert_ne by done. apply Hids; [done|lia].
  - cbn beta. intros ids s' (-> & Hl & Hids). wp_steps. split; [done|]. exists ids. split_and!; [done|done|].
    intros b Hb. apply Hids; [done|]. unfold byte in Hb. lia.
Qed.

Lemma entry_in_vocabulary t text e : string_entry (tk_vocabulary t) text = Some e -> in_vocabulary t text (se_value e).
Proof. intros H. by exists e. Qed.

Lemma add_pair_spec {St} t pairs merge_entry (s : St) :
  wf_strings (tk_vocabulary t) -> wf_pairs pairs -> Z.of_nat (length (mt_pairs pairs)) < EMPTY_BUCKET ->
  (forall p, p ∈ mt_pairs pairs -> rule_of t p) ->
  wp (add_merge_pair (tk_vocabulary t) merge_entry pairs)
    (fun pairs' s' => s' = s /\ wf_pairs pairs' /\ (length (mt_pairs pairs') <= S (length (mt_pairs pairs)))%nat /\
       forall p, p ∈ mt_pairs pairs' -> rule_of t p) (fun _ s' => s' = s) s.
Proof.
  intros Hv Hp Hroom Hrules. assert (forall k, wp (E := TokenizerError) (ret pairs)
    (fun pairs' (s' : St) => s' = s /\ wf_pairs pairs' /\ (length (mt_pairs pairs') <= S (length (mt_pairs pairs)))%nat /\
       forall p, p ∈ mt_pairs pairs' -> rule_of t p) k s) as Hkeep by (intros k; wp_steps; split_and!; [done|done|lia|done]).
  unfold add_merge_pair. destruct (se_text merge_entry) as [text|]; [|apply Hkeep]. cbv zeta. destruct (_ || _); [apply Hkeep|].
  set (left_text := take _ text). set (right_text := drop _ text).
  wp_steps. apply find_string_wp; [done|]. destruct (string_entry _ left_text) as [el|] eqn:Hl; [|apply Hkeep].
  wp_steps. apply find_string_wp; [done|]. destruct (string_entry _ right_text) as [er|] eqn:Hr; [|apply Hkeep].
  wp_steps. apply find_string_wp; [done|]. destruct (string_entry _ (left_text ++ right_text)) as [em|] eqn:Hm; [|apply Hkeep].
  apply wp_run_on, wp_catch. eapply wp_mono; [by apply insert_pair_spec| |].
  - cbn beta. intros _ pairs' (Hp' & _ & _ & Heq). split_and!; [done|done|rewrite Heq, length_app; cbn; lia|].
    rewrite Heq. intros p [Hin|Hin%list_elem_of_singleton]%elem_of_app; [by apply Hrules|]. subst p.
    exists left_text, right_text. split_and!; by apply entry_in_vocabulary.
  - cbn beta. intros e pairs' (-> & [(_ & ->)|(_ & ->)]); wp_steps; [done|]. split_and!; [done|done|lia|done].
Qed.

Lemma merge_table_spec {St} t (s : St) :
  wf_strings (tk_vocabulary t) -> Z.of_nat (length (st_entries (tk_merges t))) <= EMPTY_BUCKET ->
  wp (build_merge_pair_table t)
    (fun t' s' => s' = s /\ exists pairs, t' = t <| tk_merge_pairs := pairs |> /\ wf_pairs pairs /\
       forall p, p ∈ mt_pairs pairs -> rule_of t p) (fun _ s' => s' = s) s.
Proof.
  intros Hv Hsize. unfold build_merge_pair_table. wp_steps.
  eapply wp_mono; [apply (wp_for_fold (fun pre pairs s' => s' = s /\ wf_pairs pairs /\ (length (mt_pairs pairs) <= length pre)%nat /\
    forall p, p ∈ mt_pairs pairs -> rule_of t p) _ _ _ (fun _ s' => s' = s))| |done].
  - split_and!; [done|apply wf_pairs_new| |]; unfold pairs_with_entry_count; destruct (_ =? 0); cbn; try lia; by intros p Hp%elem_of_nil.
  - intros pre entry post pairs s' Hsplit (-> & Hp & Hlen & Hrules).
    eapply wp_mono; [apply add_pair_spec; [done|done| |done]| |done].
    + rewrite Hsplit, length_app in Hsize. cbn in Hsize. lia.
    + intros pairs' s' (-> & Hp' & Hlen' & Hrules'). split_and!; [done|done|rewrite length_app; cbn; lia|done].
  - cbn beta. intros pairs s' (-> & Hp & _ & Hrules). wp_steps. split; [done|]. by exists pairs.
Qed.

Lemma parse_merge_spec {St} value (s : St) : wp (parse_merge value) (fun _ s' => s' = s) (fun _ s' => s' = s) s.
Proof.
  unfold parse_merge, parse_merge_string, json_string_bytes. destruct value as [| | |text|[|x [|y [|]]]|]; wp_steps; try done.
  - destruct (position _ text); by wp_steps.
  - destruct x; wp_steps; try done. destruct y; by wp_steps.
Qed.

Lemma parse_merges_spec {St} merges t (s : St) :
  Z.of_nat (length merges) <= EMPTY_BUCKET ->
  wp (parse_merges merges t)
    (fun t' s' => s' = s /\ exists table n, t' = t <| tk_merge_count := n |> <| tk_merges := table |> /\
       Z.of_nat (length (st_entries table)) <= EMPTY_BUCKET) (fun _ s' => s' = s) s.
Proof.
  intros Hsize. unfold parse_merges. wp_steps.
  eapply wp_mono; [apply (wp_for_enumerate (fun m table s' => s' = s /\ wf_strings table /\ (m <= length merges)%nat /\
    length (st_entries table) = m) merges _ _ (fun _ s' => s' = s))| |done].
  - split_and!; [done|apply wf_strings_new|lia|]. unfold strings_with_entry_count. by destruct (_ =? 0).
  - intros m value table s' Hm (-> & Hwf & _ & Hlen). apply lookup_lt_Some in Hm. wp_steps. cbn [snd fst].
    eapply wp_mono; [apply parse_merge_spec| |done]. cbn beta. intros key s' ->. apply wp_run_on, wp_catch.
    eapply wp_mono; [apply insert_string_spec; [done|lia]| |].
    + cbn beta. intros _ table' (Hwf' & _ & head & _ & Heq). split_and!; [done|done|lia|rewrite Heq, length_app; cbn; lia].
    + cbn beta. intros e table' (-> & [(_ & ->)|([x Hx] & ->)]); wp_steps; [done|].
      eapply wp_mono; [apply push_empty_slot_spec; [done| |lia]| |done].
      * intros Hnil. destruct Hwf as [[_ He]|Hc]; [by unfold string_entry in Hx; rewrite He in Hx|].
        pose proof (power_of_two_nonempty _ (ch_buckets _ _ _ _ Hc)) as H0. by rewrite Hnil in H0.
      * intros _ table' (Hwf' & _ & Heq). split_and!; [done|done|lia|rewrite Heq, length_app; cbn; lia].
  - cbn beta. intros table s' (-> & _ & _ & Hlen). wp_steps. split; [done|]. exists table, (Z.of_nat (length merges)). split; [done|]. lia.
Qed.

Lemma added_token_spec {St} value specials (s : St) :
  wp (parse_added_token value specials) (fun _ s' => s' = s) (fun _ s' => s' = s) s.
Proof.
  unfold parse_added_token, require_some, json_string_bytes. destruct value as [| | | | |members]; wp_steps; try done.
  eapply (wp_mono _ (fun _ s' => s' = s) _ (fun _ s' => s' = s)); [| |done].
  - destruct (json_get "special" (JObject members)) as [value|]; wp_steps; [|done]. destruct (as_bool value); by wp_steps.
  - intros b s' ->. cbn beta. destruct (negb b); wp_steps; [done|].
    destruct (json_get "id" (JObject members)) as [id_value|], (json_get "content" (JObject members)) as [content|]; wp_steps; try done.
    eapply wp_mono; [apply (json_u32_spec id_value _ s (fun _ s' => s' = s)); done| |done]. cbn beta. intros id s' [-> _]. wp_steps.
    destruct content; by wp_steps.
Qed.

Lemma added_tokens_spec {St} values (s : St) :
  wp (for_fold values parse_added_token []) (fun _ s' => s' = s) (fun _ s' => s' = s) s.
Proof.
  eapply wp_mono; [apply (wp_for_fold (fun _ _ s' => s' = s) _ _ _ (fun _ s' => s' = s))|done|done]; [done|].
  intros pre value post specials s' _ ->. apply added_token_spec.
Qed.

(** Only the tables matter. *)
Lemma tables_ok_ext t t' :
  tables_ok t -> tk_vocabulary t' = tk_vocabulary t -> tk_maximum_token_id t' = tk_maximum_token_id t ->
  tk_token_text_by_id t' = tk_token_text_by_id t -> tk_byte_token_ids t' = tk_byte_token_ids t ->
  tk_merge_pairs t' = tk_merge_pairs t -> tk_has_unk_token t' = tk_has_unk_token t -> tk_unk_token_id t' = tk_unk_token_id t -> tables_ok t'.
Proof.
  intros [[Hw He] Htx Hbl Hb Hp Hr] E1 E2 E3 E4 E5 E6 E7.
  split; unfold rule_of, in_vocabulary, byte_id in *; rewrite ?E1, ?E3, ?E4, ?E5, ?E6, ?E7; try done.
  - split; by rewrite ?E1, ?E2.
  - rewrite Htx. unfold reverse_texts, build_reverse_vocabulary. cbn. by rewrite E1, E2.
Qed.

(** The tables of the document are of a size 32-bit indices can address. *)
Definition document_fits (document : Json) : Prop :=
  forall model, json_get "model" document = Some model ->
    (forall members, json_get "vocab" model ≫= json_object = Some members -> Z.of_nat (length members) <= EMPTY_BUCKET) /\
    (forall merges, json_get "merges" model ≫= json_array = Some merges -> Z.of_nat (length merges) <= EMPTY_BUCKET).

Lemma load_json_spec from_slice bytes document :
  from_slice bytes = Some document -> document_fits document ->
  wp (load_huggingface_json from_slice (Some bytes)) (fun t _ => tables_ok t /\ specials_sorted t) (fun _ _ => True) tt.
Proof.
  intros Hparse Hfits. unfold load_huggingface_json, require_some. rewrite Hparse. wp_steps.
  destruct (json_get "model" document) as [model|] eqn:Hmodel; wp_steps; [|done]. destruct (Hfits model Hmodel) as [Hfv Hfm].
  destruct (json_get "vocab" model ≫= json_object) as [members|] eqn:Hvocab; wp_steps; [|done].
  destruct (json_get "merges" model ≫= json_array) as [merges|] eqn:Hmerges; wp_steps; [|done].
  eapply wp_mono; [apply parse_vocabulary_spec; [by apply Hfv|done]| |done].
  cbn beta. intros t1 [] (_ & Hv1 & vocabulary & maximum & Ht1). cbv zeta.
  set (t2 := match st_entries (tk_vocabulary t1) with [] => t1 | _ => build_reverse_vocabulary t1 end).
  assert (exists texts, t2 = t1 <| tk_token_text_by_id := texts |> /\ texts = reverse_texts t1) as (texts & Ht2 & Htexts).
  { subst t2. unfold reverse_texts. destruct (st_entries (tk_vocabulary t1)) eqn:Hst; [|by eexists].
    exists []. split; [|done]. by rewrite Ht1. }
  apply wp_bind.
  eapply (wp_mono _ (fun t3 _ => exists unk id, t3 = t2 <| tk_has_unk_token := unk |> <| tk_unk_token_id := id |>) _ (fun _ _ => False)); [| |done].
  { assert (exists unk id, t2 = t2 <| tk_has_unk_token := unk |> <| tk_unk_token_id := id |>) as Hsame
      by (exists (tk_has_unk_token t2), (tk_unk_token_id t2); by destruct t2).
    destruct (json_get "unk_token" model) as [[| | |unknown| |]|]; wp_steps; try done.
    apply find_string_wp; [rewrite Ht2; by apply Hv1|]. wp_steps. destruct (string_entry _ unknown); [|done]. by eexists _, _. }
  cbn beta. intros t3 [] (unk & unk_id & Ht3). apply wp_bind.
  assert (tk_vocabulary t3 = tk_vocabulary t1) as Hv3 by (by rewrite Ht3, Ht2).
  eapply wp_mono; [apply byte_table_spec; [rewrite Hv3; by apply Hv1|rewrite Ht3, Ht2, Ht1; done]| |done].
  cbn beta. intros t4 [] (_ & ids & Ht4 & Hids & Hbytes). wp_steps.
  eapply wp_mono; [apply parse_merges_spec; by apply Hfm| |done]. cbn beta. intros t5 [] (_ & table & n & Ht5 & Htable). wp_steps.
  assert (tk_vocabulary t5 = tk_vocabulary t1) as Hv5 by (by rewrite Ht5, Ht4).
  eapply wp_mono; [apply merge_table_spec; [rewrite Hv5; by apply Hv1|by rewrite Ht5]| |done].
  cbn beta. intros t6 [] (_ & pairs & Ht6 & Hpairs & Hrules). wp_steps.
  eapply wp_mono; [apply added_tokens_spec| |done]. cbn beta. intros specials [] _. wp_steps.
  split; [|apply sort_stable_sorted; [exact special_before_trans|exact special_before_total]].
  apply (tables_ok_ext t6); try (by destruct (json_get "pre_tokenizer" document)).
  assert (tk_vocabulary t6 = tk_vocabulary t1) as Hv6 by (by rewrite Ht6).
  assert (tk_maximum_token_id t6 = tk_maximum_token_id t1) as Hm6 by (by rewrite Ht6, Ht5, Ht4, Ht3, Ht2).
  split.
  - split; rewrite Hv6; [apply Hv1|]. rewrite Hm6. apply Hv1.
  - replace (tk_token_text_by_id t6) with texts by (by rewrite Ht6, Ht5, Ht4, Ht3, Ht2).
    rewrite Htexts. unfold reverse_texts, build_reverse_vocabulary. cbn. by rewrite Hv6, Hm6.
  - by rewrite Ht6, Ht5, Ht4.
  - intros b Hb. unfold byte_id in *. rewrite Hv6, <- Hv3, Ht6, Ht5, Ht4. by apply Hbytes.
  - by rewrite Ht6.
  - intros p Hp. rewrite Ht6 in Hp. apply Hrules in Hp. unfold rule_of, in_vocabulary in *. by rewrite Hv6, <- Hv5.
Qed.

(** ** Consistency *)

Lemma upd_fold_lookup (t : Tokenizer) pre post e text table :
  se_text e = Some text -> 0 <= se_value e <= tk_maximum_token_id t -> (Z.to_nat (se_value e) < length table)%nat ->
  (forall e', e' ∈ post -> 0 <= se_value e' -> se_value e' <> se_value e) -> (forall e', e' ∈ post -> 0 <= se_value e') ->
  foldl (fun table entry =>
      match se_text entry with
      | Some text => if se_value entry <=? tk_maximum_token_id t then upd_nth (se_value entry) (fun _ => Some text) table else table
      | None => table
      end) table (pre ++ e :: post) !! Z.to_nat (se_value e) = Some (Some text).
Proof.
  intros Htext Hle Hlen Hother Hnn. rewrite foldl_app. cbn.
  set (f := fun table entry => _). set (table1 := foldl f table pre).
  assert (length table1 = length table) as Hl.
  { subst table1. clear -f. revert table. induction pre as [|x pre IH]; intros table; cbn; [done|]. rewrite IH. unfold f.
    destruct (se_text x); [|done]. destruct (_ <=? _); by rewrite ?length_upd_nth. }
  rewrite Htext. destruct (Z.leb_spec (se_value e) (tk_maximum_token_id t)); [|lia].
  assert (upd_nth (se_value e) (fun _ => Some text) table1 !! Z.to_nat (se_value e) = Some (Some text)) as Hset
    by (rewrite upd_nth_const, list_lookup_insert_eq; [done|lia]).
  clear Hl. revert Hset. generalize (upd_nth (se_value e) (fun _ => Some text) table1) as tb.
  induction post as [|x post IH]; intros tb Hset; cbn; [done|]. apply IH; [intros; apply Hother; [by right|done]|intros; apply Hnn; by right|].
  unfold f. destruct (se_text x); [|done]. destruct (_ <=? _); [|done]. rewrite lookup_upd_nth_ne; [done|].
  specialize (Hother x ltac:(by left) (Hnn x ltac:(by left))). specialize (Hnn x ltac:(by left)). lia.
Qed.

Section consistent.
Context (t : Tokenizer) (Hta : tables_ok t) (Hids : NoDup (se_value <$> st_entries (tk_vocabulary t))).

Lemma vocabulary_text text id : in_vocabulary t text id -> token_text t id = Some text /\ 0 <= id <= tk_maximum_token_id t.
Proof.
  intros (e & He & <-). apply string_entry_Some in He as [Hin Htext].
  destruct (vo_entries _ (ta_vocabulary _ Hta) e Hin) as [_ Hle]. split; [|done].
  unfold token_text. rewrite (ta_text _ Hta). unfold reverse_texts, build_reverse_vocabulary. cbn.
  destruct (st_entries (tk_vocabulary t)) as [|e0 es] eqn:Hst; [by apply elem_of_nil in Hin|]. rewrite <- Hst in *. clear e0 es Hst. apply list_elem_of_split in Hin as (pre & post & Hsplit). rewrite Hsplit.
  rewrite (upd_fold_lookup t pre post e text); [done|done|done|rewrite length_replicate; lia| |].
  - intros e' He' _ Heq. rewrite Hsplit, fmap_app in Hids. apply NoDup_app in Hids as (_ & _ & Hnd). cbn in Hnd.
    apply NoDup_cons in Hnd as [Hnd _]. apply Hnd. rewrite <- Heq. by apply list_elem_of_fmap_2.
  - intros e' He'. apply (vo_entries _ (ta_vocabulary _ Hta)). rewrite Hsplit. set_solver.
Qed.

(** Bytes without a text of their own are either unmapped or none. *)
Lemma tables_consistent :
  (tk_has_unk_token t = false \/ forall b, byte b -> is_Some (string_entry (tk_vocabulary t) (byte_text b))) ->
  tokenizer_ok t /\ consistent t.
Proof.
  intros Hall. split; [split; apply Hta|]. split.
  - intros b id Hb Hid. unfold byte_symbol in Hid. rewrite (ta_byte _ Hta b Hb) in Hid. unfold byte_id in Hid.
    destruct (string_entry (tk_vocabulary t) (byte_text b)) as [e|] eqn:He.
    + destruct (_ =? _); [done|]. injection Hid as <-.
      destruct (vocabulary_text (byte_text b) (se_value e)) as [Ht Hle]; [by exists e|].
      split_and!; [lia| |by apply Forall_singleton]. rewrite Ht. unfold bytes_text. cbn. by rewrite app_nil_r.
    + destruct Hall as [Hu|Hall]; [by rewrite Hu in Hid|]. destruct (Hall b Hb) as [e He']. congruence.
  - intros p a b Hp (_ & Ha & Hba) (_ & Hb & Hbb). destruct (ta_rules _ Hta p Hp) as (lt & rt & Hl & Hr & Hm).
    apply vocabulary_text in Hl as [Hl _], Hr as [Hr _], Hm as [Hm Hle]. split_and!; [lia| |by apply Forall_app].
    rewrite Hm, bytes_text_app. congruence.
Qed.

Lemma tables_mapped b :
  tk_maximum_token_id t < NO_TOKEN_ID -> byte b -> is_Some (string_entry (tk_vocabulary t) (byte_text b)) -> mapped t b.
Proof.
  intros Hmax Hb [e He]. unfold mapped, byte_symbol. rewrite (ta_byte _ Hta b Hb). unfold byte_id. rewrite He.
  apply string_entry_Some in He as [Hin _]. destruct (vo_entries _ (ta_vocabulary _ Hta) e Hin) as [_ ?].
  destruct (Z.eqb_spec (se_value e) NO_TOKEN_ID); [lia|by eexists].
Qed.
End consistent.
