(* ===== verification/CompiledFile.v ===== *)
(** * The compiled tokenizer file ([crates/spark-text/src/tokenizer.rs])

    Loading the file [save_compiled_file] writes gives a tokenizer that encodes and
    decodes like the one saved.  (It is not the same value: the merge strings are not
    saved, and the merge-pair table gets a bucket count of its own.) *)

From Stdlib Require Import String Sorted.
From S2P Require Import Prelude Bytes TokenTables TokenTablesProps Tokenizer MergeHeap Bpe MergeLoop PieceTokens PieceCache TextSplit Encode Decode TokenizerLoad.

(** ** Reading *)

(** What is left to read. *)
Definition reads (rest : list Z) (r : CompiledReader) : Prop :=
  exists pre, cr_bytes r = pre ++ rest /\ cr_position r = Z.of_nat (length pre) /\ Z.of_nat (length (cr_bytes r)) <= U64_MAX.

Lemma take_bytes_spec xs rest r R :
  reads (xs ++ rest) r -> wp (take_bytes (Z.of_nat (length xs))) (fun ys r' => ys = xs /\ reads rest r') R r.
Proof.
  intros (pre & Hb & Hp & Hmax). unfold take_bytes. wp_steps. change (id r) with r. rewrite Hp.
  assert (Z.of_nat (length (cr_bytes r)) = Z.of_nat (length pre) + (Z.of_nat (length xs) + Z.of_nat (length rest))) as Hlen
    by (rewrite Hb, !length_app; lia).
  destruct (Z.ltb_spec U64_MAX (Z.of_nat (length pre) + Z.of_nat (length xs))); [lia|].
  destruct (Z.ltb_spec (Z.of_nat (length (cr_bytes r))) (Z.of_nat (length pre) + Z.of_nat (length xs))); [lia|]. cbn [orb]. wp_steps.
  apply wp_slice; [lia|lia|]. wp_steps. split.
  - replace (Z.of_nat (length pre) + Z.of_nat (length xs) - Z.of_nat (length pre)) with (Z.of_nat (length xs)) by lia.
    rewrite Hb, !Nat2Z.id, drop_app_length, take_app_length. done.
  - exists (pre ++ xs). cbn. split_and!; [by rewrite Hb, <- app_assoc|rewrite length_app; lia|done].
Qed.

Lemma read_u32_spec x rest r R :
  0 <= x <= U32_MAX -> reads (le32 x ++ rest) r -> wp read_u32 (fun y r' => y = x /\ reads rest r') R r.
Proof.
  intros Hx Hr. unfold read_u32. wp_steps. change 4 with (Z.of_nat (length (le32 x))).
  eapply wp_mono; [by apply (take_bytes_spec _ rest r R)| |done]. cbn beta. intros ys r' [-> Hr']. wp_steps.
  split; [by apply le32_roundtrip|done].
Qed.

Lemma read_u64_spec x rest r R :
  0 <= x <= U64_MAX -> reads (le64 x ++ rest) r -> wp read_u64 (fun y r' => y = x /\ reads rest r') R r.
Proof.
  intros Hx Hr. unfold read_u64. wp_steps. change 8 with (Z.of_nat (length (le64 x))).
  eapply wp_mono; [by apply (take_bytes_spec _ rest r R)| |done]. cbn beta. intros ys r' [-> Hr']. wp_steps.
  split; [by apply le64_roundtrip|done].
Qed.

Lemma read_flag_spec b rest r R : reads (le32 (b2z b) ++ rest) r -> wp read_flag (fun y r' => y = b /\ reads rest r') R r.
Proof.
  intros Hr. unfold read_flag. wp_steps. eapply wp_mono; [apply (read_u32_spec (b2z b) rest r R); [by destruct b|done]| |done].
  cbn beta. intros y r' [-> Hr']. wp_steps. split; [by destruct b|done].
Qed.

(** A count and as many bytes. *)
Lemma read_text_spec {A} id text rest r (k : Z -> list Z -> RM A) Q R :
  0 <= id <= U32_MAX -> Z.of_nat (length text) <= U32_MAX ->
  reads ((le32 id ++ le32 (u32 (Z.of_nat (length text))) ++ text) ++ rest) r ->
  (forall r', reads rest r' -> wp (k id text) Q R r') ->
  wp (let! token_id := read_u32 in let! text_bytes := read_u32 in let! text := take_bytes text_bytes in k token_id text) Q R r.
Proof.
  intros Hid Hlen Hr Hk. rewrite <- !app_assoc in Hr. wp_steps.
  eapply wp_mono; [exact (read_u32_spec id _ r R Hid Hr)| |done]. cbn beta. intros y r1 [-> Hr1]. wp_steps.
  rewrite u32_small in Hr1 by lia.
  eapply wp_mono; [exact (read_u32_spec (Z.of_nat (length text)) _ r1 R ltac:(lia) Hr1)| |done]. cbn beta. intros y r2 [-> Hr2]. wp_steps.
  eapply wp_mono; [by apply (take_bytes_spec text rest r2 R)| |done]. cbn beta. intros y r3 [-> Hr3]. by apply Hk.
Qed.

(** ** The file *)

(** The integers of a tokenizer have their widths and its tables fit 32-bit counts. *)
Record file_ok (t : Tokenizer) : Prop := {
  fo_kind : 0 <= tk_model_kind t <= U32_MAX;
  fo_unk : 0 <= tk_unk_token_id t <= U32_MAX;
  fo_maximum : 0 <= tk_maximum_token_id t <= U32_MAX;
  fo_vocabulary : Z.of_nat (length (st_entries (tk_vocabulary t))) <= U32_MAX;
  fo_texts : forall e text, e ∈ st_entries (tk_vocabulary t) -> se_text e = Some text -> Z.of_nat (length text) <= U32_MAX;
  fo_pair_count : Z.of_nat (length (mt_pairs (tk_merge_pairs t))) <= U32_MAX;
  fo_pairs : forall p, p ∈ mt_pairs (tk_merge_pairs t) -> 0 <= mp_left_token_id p <= U32_MAX /\
    0 <= mp_right_token_id p <= U32_MAX /\ 0 <= mp_merged_token_id p <= U32_MAX /\ 0 <= mp_rank p <= U32_MAX;
  fo_special_count : Z.of_nat (length (tk_special_tokens t)) <= U32_MAX;
  fo_specials : forall x, x ∈ tk_special_tokens t -> 0 <= sp_token_id x <= U32_MAX /\ Z.of_nat (length (sp_text x)) <= U32_MAX;
  fo_size : Z.of_nat (length (compiled_file t)) <= U64_MAX;
}.

(** The key and the value of an entry. *)
Definition entry_of (e : StringEntry) : option (list Z) * Z := (se_text e, se_value e).

Lemma same_entries_find v v' text :
  entry_of <$> st_entries v' = entry_of <$> st_entries v -> se_value <$> string_entry v' text = se_value <$> string_entry v text.
Proof.
  unfold string_entry. generalize (st_entries v') (st_entries v). intros l'. induction l' as [|e' l' IH]; intros [|e l]; cbn; try done.
  intros [= H1 H2 H3]. rewrite H1. destruct (text_is text (se_text e)); cbn; [congruence|by apply IH].
Qed.

Lemma unique_texts v i j e e' text :
  wf_strings v -> st_entries v !! i = Some e -> st_entries v !! j = Some e' -> se_text e = Some text -> se_text e' = Some text -> i = j.
Proof.
  intros [[_ Hn]|Hc] Hi Hj He He'; [by rewrite Hn in Hi|].
  apply (ch_unique _ _ _ _ Hc i j text); rewrite list_lookup_fmap, ?Hi, ?Hj; cbn; congruence.
Qed.

Definition vocabulary_bytes (e : StringEntry) : list Z :=
  let text := default [] (se_text e) in le32 (se_value e) ++ le32 (u32 (Z.of_nat (length text))) ++ text.

Lemma read_vocabulary_spec t rest r R :
  vocabulary_ok t -> file_ok t -> reads (concat (vocabulary_bytes <$> st_entries (tk_vocabulary t)) ++ rest) r ->
  let n := Z.of_nat (length (st_entries (tk_vocabulary t))) in
  wp (for_fold (range 0 n) read_vocabulary_entry (strings_with_entry_count n))
    (fun v r' => wf_strings v /\ entry_of <$> st_entries v = entry_of <$> st_entries (tk_vocabulary t) /\ reads rest r') R r.
Proof.
  intros Hv Hf Hr n. set (entries := st_entries (tk_vocabulary t)) in *.
  eapply wp_mono; [apply (wp_for_range (fun m v r' => wf_strings v /\ entry_of <$> st_entries v = take m (entry_of <$> entries) /\
    (st_buckets v = [] -> entries = []) /\ reads (concat (vocabulary_bytes <$> drop m entries) ++ rest) r') (length entries) _ _ R)| |done].
  - split_and!; [apply wf_strings_new| | |done].
    + unfold strings_with_entry_count. by destruct (_ =? 0).
    + intros Hb%strings_buckets. apply length_zero_iff_nil. lia.
  - intros m v r' Hm (Hwf & Hsame & Hb & Hr'). destruct (lookup_lt_is_Some_2 entries m Hm) as [e He].
    rewrite (drop_S _ _ _ He), fmap_cons in Hr'. cbn [concat] in Hr'. rewrite <- app_assoc in Hr'.
    assert (e ∈ entries) as Hin by (by eapply list_elem_of_lookup_2).
    destruct (vo_entries _ Hv e Hin) as [[text Htext] Hval]. 
    assert (vocabulary_bytes e = le32 (se_value e) ++ le32 (u32 (Z.of_nat (length text))) ++ text) as Hvb by (unfold vocabulary_bytes; by rewrite Htext).
    rewrite Hvb in Hr'.
    pose proof (fo_maximum _ Hf). pose proof (fo_vocabulary _ Hf) as Hcount.
    assert (length (st_entries v) = m) as Hlen.
    { apply (f_equal length) in Hsame. rewrite length_fmap, length_take, length_fmap in Hsame. lia. }
    eapply (read_text_spec (se_value e) text); [lia|by apply (fo_texts _ Hf e)|exact Hr'|].
    intros r2 Hr2. apply wp_run_on. eapply wp_mono; [apply insert_string_spec; [done|]| |].
    + rewrite Hlen. unfold EMPTY_BUCKET. fold entries in Hcount. lia.
    + cbn beta. intros _ v' (Hwf' & Hnew & head & Hbl & Heq). split_and!; [done| | |done].
      * rewrite Heq, fmap_app, Hsame, (take_S_r _ _ (entry_of e)) by (by rewrite list_lookup_fmap, He).
        f_equal. unfold entry_of. cbn. by rewrite Htext.
      * intros Hnil. apply Hb. apply length_zero_iff_nil. rewrite <- Hbl. by rewrite Hnil.
    + cbn beta. intros err v' (_ & [(Hnil & _)|([x Hx] & _)]); exfalso.
      * rewrite (Hb Hnil) in Hin. by apply elem_of_nil in Hin.
      * apply string_entry_Some in Hx as [Hxin Hxt]. apply list_elem_of_lookup in Hxin as [j Hj]. apply lookup_lt_Some in Hj as Hjl.
        assert ((entry_of <$> st_entries v) !! j = Some (entry_of x)) as Hjx by (by rewrite list_lookup_fmap, Hj).
        rewrite Hsame, lookup_take_lt in Hjx by lia. apply list_lookup_fmap_Some in Hjx as (x' & Hxx & Hx').
        injection Hxx as Hxx _. assert (j = m); [|lia].
        eapply (unique_texts (tk_vocabulary t) j m x' e text); [apply Hv|done|done|congruence|done].
  - intros v r' (Hwf & Hsame & _ & Hr'). split_and!; [done| |].
    + rewrite Hsame, take_ge; [done|]. rewrite length_fmap. done.
    + rewrite drop_all in Hr'. done.
Qed.

Definition pair_bytes (p : FastMergePair) : list Z :=
  le32 (mp_left_token_id p) ++ le32 (mp_right_token_id p) ++ le32 (mp_merged_token_id p) ++ le32 (mp_rank p).

Lemma read_pairs_spec t rest r R :
  wf_pairs (tk_merge_pairs t) -> file_ok t -> reads (concat (pair_bytes <$> mt_pairs (tk_merge_pairs t)) ++ rest) r ->
  let n := Z.of_nat (length (mt_pairs (tk_merge_pairs t))) in
  wp (for_fold (range 0 n) read_merge_pair (pairs_with_entry_count n))
    (fun table r' => wf_pairs table /\ mt_pairs table = mt_pairs (tk_merge_pairs t) /\ reads rest r') R r.
Proof.
  intros Hwf0 Hf Hr n. set (pairs := mt_pairs (tk_merge_pairs t)) in *.
  eapply wp_mono; [apply (wp_for_range (fun m v r' => wf_pairs v /\ mt_pairs v = take m pairs /\
    (mt_buckets v = [] -> pairs = []) /\ reads (concat (pair_bytes <$> drop m pairs) ++ rest) r') (length pairs) _ _ R)| |done].
  - split_and!; [apply wf_pairs_new| | |done].
    + unfold pairs_with_entry_count. by destruct (_ =? 0).
    + intros Hb%pairs_buckets. apply length_zero_iff_nil. lia.
  - intros m v r' Hm (Hwf & Hsame & Hb & Hr'). destruct (lookup_lt_is_Some_2 pairs m Hm) as [p Hp].
    rewrite (drop_S _ _ _ Hp), fmap_cons in Hr'. cbn [concat] in Hr'. unfold pair_bytes at 1 in Hr'. rewrite <- !app_assoc in Hr'.
    assert (p ∈ pairs) as Hin by (by eapply list_elem_of_lookup_2). destruct (fo_pairs _ Hf p Hin) as (H1 & H2 & H3 & H4).
    unfold read_merge_pair. wp_steps.
    eapply wp_mono; [exact (read_u32_spec _ _ r' R H1 Hr')| |done]. cbn beta. intros y r1 [-> Hr1]. wp_steps.
    eapply wp_mono; [exact (read_u32_spec _ _ r1 R H2 Hr1)| |done]. cbn beta. intros y r2 [-> Hr2]. wp_steps.
    eapply wp_mono; [exact (read_u32_spec _ _ r2 R H3 Hr2)| |done]. cbn beta. intros y r3 [-> Hr3]. wp_steps.
    eapply wp_mono; [exact (read_u32_spec _ _ r3 R H4 Hr3)| |done]. cbn beta. intros y r4 [-> Hr4].
    replace (mkMergePair _ _ _ _) with p by (by destruct p). apply wp_run_on.
    assert (length (mt_pairs v) = m) as Hlen by (rewrite Hsame, length_take; lia).
    pose proof (fo_pair_count _ Hf) as Hcount. fold pairs in Hcount.
    eapply wp_mono; [apply insert_pair_spec; [done|unfold EMPTY_BUCKET; lia]| |].
    + cbn beta. intros _ v' (Hwf' & Hnew & Hbl & Heq). split_and!; [done| | |done].
      * by rewrite Heq, Hsame, (take_S_r _ _ p).
      * intros Hnil. apply Hb. apply length_zero_iff_nil. rewrite <- Hbl. by rewrite Hnil.
    + cbn beta. intros err v' (_ & [(Hnil & _)|([x Hx] & _)]); exfalso.
      * rewrite (Hb Hnil) in Hin. by apply elem_of_nil in Hin.
      * apply pair_entry_Some in Hx as [Hxin Hxt]. rewrite Hsame in Hxin. apply list_elem_of_lookup in Hxin as [j Hj].
        apply lookup_lt_Some in Hj as Hjl. rewrite length_take in Hjl. rewrite lookup_take_lt in Hj by lia. assert (j = m); [|lia].
        destruct Hwf0 as [[_ Hn]|Hc]; [subst pairs; by rewrite Hn in Hin; apply elem_of_nil in Hin|].
        apply (ch_unique _ _ _ _ Hc j m (pair_key p)); fold pairs; rewrite list_lookup_fmap, ?Hj, ?Hp; cbn; by rewrite ?Hxt.
  - intros v r' (Hwf & Hsame & _ & Hr'). split_and!; [done|by rewrite Hsame, take_ge by done|by rewrite drop_all in Hr'].
Qed.

Definition special_bytes (x : SpecialToken) : list Z :=
  le32 (sp_token_id x) ++ le32 (u32 (Z.of_nat (length (sp_text x)))) ++ sp_text x.

Lemma read_specials_spec t rest r R :
  file_ok t -> reads (concat (special_bytes <$> tk_special_tokens t) ++ rest) r ->
  wp (for_fold (range 0 (Z.of_nat (length (tk_special_tokens t)))) read_special_token [])
    (fun specials r' => specials = tk_special_tokens t /\ reads rest r') R r.
Proof.
  intros Hf Hr. set (specials := tk_special_tokens t) in *.
  eapply wp_mono; [apply (wp_for_range (fun m l r' => l = take m specials /\ reads (concat (special_bytes <$> drop m specials) ++ rest) r')
    (length specials) _ _ R)| |done].
  - done.
  - intros m l r' Hm [-> Hr']. destruct (lookup_lt_is_Some_2 specials m Hm) as [x Hx].
    rewrite (drop_S _ _ _ Hx), fmap_cons in Hr'. cbn [concat] in Hr'. rewrite <- app_assoc in Hr'.
    destruct (fo_specials _ Hf x) as [H1 H2]; [by eapply list_elem_of_lookup_2|].
    eapply (read_text_spec (sp_token_id x) (sp_text x)); [done|done|exact Hr'|].
    intros r2 Hr2. wp_steps. split; [|done]. rewrite (take_S_r _ _ x) by done. by destruct x.
  - intros l r' [-> Hr']. split; [by rewrite take_ge|by rewrite drop_all in Hr'].
Qed.

(** ** The loaded tokenizer *)

(** The same entries, rules, special tokens and settings. *)
Record restored (t t' : Tokenizer) : Prop := {
  re_kind : tk_model_kind t' = tk_model_kind t;
  re_prefix : tk_add_prefix_space t' = tk_add_prefix_space t;
  re_fallback : tk_byte_fallback t' = tk_byte_fallback t;
  re_has_unk : tk_has_unk_token t' = tk_has_unk_token t;
  re_unk : tk_unk_token_id t' = tk_unk_token_id t;
  re_maximum : tk_maximum_token_id t' = tk_maximum_token_id t;
  re_regex : tk_byte_level_use_regex t' = tk_byte_level_use_regex t;
  re_entries : entry_of <$> st_entries (tk_vocabulary t') = entry_of <$> st_entries (tk_vocabulary t);
  re_texts : tk_token_text_by_id t' = tk_token_text_by_id t;
  re_bytes : tk_byte_token_ids t' = tk_byte_token_ids t;
  re_pairs : mt_pairs (tk_merge_pairs t') = mt_pairs (tk_merge_pairs t);
  re_specials : tk_special_tokens t' = tk_special_tokens t;
  re_tables : wf_strings (tk_vocabulary t') /\ wf_pairs (tk_merge_pairs t');
}.

Lemma reverse_texts_same t t' :
  entry_of <$> st_entries (tk_vocabulary t') = entry_of <$> st_entries (tk_vocabulary t) ->
  tk_maximum_token_id t' = tk_maximum_token_id t -> reverse_texts t' = reverse_texts t.
Proof.
  intros He Hm. unfold reverse_texts, build_reverse_vocabulary. cbn. rewrite Hm.
  assert (forall l l' table, entry_of <$> l' = entry_of <$> l ->
    foldl (fun table entry => match se_text entry with
      | Some text => if se_value entry <=? tk_maximum_token_id t then upd_nth (se_value entry) (fun _ => Some text) table else table
      | None => table end) table l' =
    foldl (fun table entry => match se_text entry with
      | Some text => if se_value entry <=? tk_maximum_token_id t then upd_nth (se_value entry) (fun _ => Some text) table else table
      | None => table end) table l) as Hfold.
  { induction l as [|e l IH]; intros [|e' l'] table; cbn; try done. intros [= H1 H2 H3]. rewrite H1, H2. by apply IH. }
  destruct (st_entries (tk_vocabulary t')) as [|e' l'], (st_entries (tk_vocabulary t)) as [|e l]; try done. by apply Hfold.
Qed.

Lemma byte_id_same t t' b :
  entry_of <$> st_entries (tk_vocabulary t') = entry_of <$> st_entries (tk_vocabulary t) ->
  tk_has_unk_token t' = tk_has_unk_token t -> tk_unk_token_id t' = tk_unk_token_id t -> byte_id t' b = byte_id t b.
Proof.
  intros He Hh Hu. pose proof (same_entries_find _ _ (byte_text b) He) as Hf. unfold byte_id. rewrite Hh, Hu.
  destruct (string_entry (tk_vocabulary t') _), (string_entry (tk_vocabulary t) _); cbn in Hf; congruence.
Qed.

Lemma byte_ids_same (ids ids' : list Z) (f : Z -> Z) :
  length ids = 256%nat -> length ids' = 256%nat -> (forall b, byte b -> ids !! Z.to_nat b = Some (f b)) ->
  (forall b, byte b -> ids' !! Z.to_nat b = Some (f b)) -> ids' = ids.
Proof.
  intros Hl Hl' H H'. apply list_eq. intros i. destruct (decide (i < 256)%nat) as [Hi|Hi].
  - rewrite <- (Nat2Z.id i), H, H' by (unfold byte; lia). done.
  - rewrite !lookup_ge_None_2 by lia. done.
Qed.

(** The byte table of the loaded vocabulary. *)
Lemma restored_bytes t t' ids :
  tables_ok t -> entry_of <$> st_entries (tk_vocabulary t') = entry_of <$> st_entries (tk_vocabulary t) ->
  tk_has_unk_token t' = tk_has_unk_token t -> tk_unk_token_id t' = tk_unk_token_id t ->
  length ids = 256%nat -> (forall b, byte b -> ids !! Z.to_nat b = Some (byte_id t' b)) -> ids = tk_byte_token_ids t.
Proof.
  intros Hta He Hh Hu Hl Hids. apply (byte_ids_same _ _ (byte_id t)); [apply Hta|done|apply Hta|].
  intros b Hb. rewrite (Hids b Hb). f_equal. by apply byte_id_same.
Qed.

(** Read one field of the header. *)
Ltac read_field spec :=
  eapply wp_mono; [exact spec| |done]; cbn beta;
  match goal with H : reads _ _ |- _ => clear H end;
  intros ? ? [-> ?]; wp_steps.

Section load.
Context (t : Tokenizer) (Hta : tables_ok t) (Hsorted : specials_sorted t) (Hf : file_ok t).

(** Behind the header come the entries, the pairs and the special tokens. *)
Definition body_bytes : list Z :=
  concat (vocabulary_bytes <$> st_entries (tk_vocabulary t)) ++ concat (pair_bytes <$> mt_pairs (tk_merge_pairs t)) ++
  concat (special_bytes <$> tk_special_tokens t) ++ [].

Lemma compiled_file_layout :
  compiled_file t =
  le64 COMPILED_FILE_MAGIC ++ le32 COMPILED_FILE_VERSION ++ le32 (tk_model_kind t) ++
  le32 (b2z (tk_add_prefix_space t)) ++ le32 (b2z (tk_byte_fallback t)) ++ le32 (b2z (tk_has_unk_token t)) ++
  le32 (tk_unk_token_id t) ++ le32 (tk_maximum_token_id t) ++ le32 (b2z (tk_byte_level_use_regex t)) ++
  le32 (Z.of_nat (length (st_entries (tk_vocabulary t)))) ++
  le32 (Z.of_nat (length (mt_pairs (tk_merge_pairs t)))) ++
  le32 (Z.of_nat (length (tk_special_tokens t))) ++ body_bytes.
Proof.
  pose proof (fo_vocabulary _ Hf). pose proof (fo_pair_count _ Hf). pose proof (fo_special_count _ Hf).
  unfold compiled_file, body_bytes. rewrite !u32_small by lia. by rewrite app_nil_r.
Qed.

Lemma read_compiled_spec :
  wp read_compiled (fun t' _ => restored t t') (fun _ _ => False) (mkCompiledReader (compiled_file t) 0).
Proof.
  set (R := fun (_ : TokenizerError) (_ : CompiledReader) => False).
  pose proof (fo_vocabulary _ Hf) as Hvc. pose proof (fo_pair_count _ Hf) as Hpc. pose proof (fo_special_count _ Hf) as Hsc.
  assert (reads (compiled_file t) (mkCompiledReader (compiled_file t) 0)) as Hr by (exists []; split_and!; [done|done|by apply fo_size]).
  revert Hr. generalize (mkCompiledReader (compiled_file t) 0) as r. intros r Hr. rewrite compiled_file_layout in Hr.
  unfold read_compiled. wp_steps.
  read_field (read_u64_spec COMPILED_FILE_MAGIC _ _ R ltac:(done) ltac:(eassumption)).
  read_field (read_u32_spec COMPILED_FILE_VERSION _ _ R ltac:(done) ltac:(eassumption)).
  rewrite !Z.eqb_refl. cbn [negb orb]. wp_steps.
  read_field (read_u32_spec (tk_model_kind t) _ _ R (fo_kind _ Hf) ltac:(eassumption)).
  do 3 (read_field (read_flag_spec _ _ _ R ltac:(eassumption))).
  read_field (read_u32_spec (tk_unk_token_id t) _ _ R (fo_unk _ Hf) ltac:(eassumption)).
  read_field (read_u32_spec (tk_maximum_token_id t) _ _ R (fo_maximum _ Hf) ltac:(eassumption)).
  read_field (read_flag_spec _ _ _ R ltac:(eassumption)).
  read_field (read_u32_spec (Z.of_nat (length (st_entries (tk_vocabulary t)))) _ _ R ltac:(lia) ltac:(eassumption)).
  read_field (read_u32_spec (Z.of_nat (length (mt_pairs (tk_merge_pairs t)))) _ _ R ltac:(lia) ltac:(eassumption)).
  read_field (read_u32_spec (Z.of_nat (length (tk_special_tokens t))) _ _ R ltac:(lia) ltac:(eassumption)).
  unfold body_bytes in *.
  eapply wp_mono; [eapply (read_vocabulary_spec t _ _ R); [apply Hta|done|eassumption]| |done].
  cbn beta. intros v r1 (Hwf & He & Hr1). cbv zeta.
  set (t1 := default_tokenizer <| tk_model_kind := _ |> <| tk_add_prefix_space := _ |> <| tk_byte_fallback := _ |>
    <| tk_has_unk_token := _ |> <| tk_unk_token_id := _ |> <| tk_maximum_token_id := _ |> <| tk_byte_level_use_regex := _ |>
    <| tk_vocabulary := v |>).
  set (t2 := if negb _ then _ else t1).
  assert (exists texts, t2 = t1 <| tk_token_text_by_id := texts |> /\ texts = tk_token_text_by_id t) as (texts & Ht2 & Htexts).
  { rewrite (ta_text _ Hta), <- (reverse_texts_same t t1) by done. unfold reverse_texts. subst t2. cbn [tk_vocabulary].
    apply (f_equal length) in He. rewrite !length_fmap in He. rewrite <- He.
    change (tk_vocabulary t1) with v. destruct (st_entries v); cbn; by eexists. }
  apply wp_bind. eapply wp_mono; [apply byte_table_spec; [by rewrite Ht2|by rewrite Ht2]| |done].
  cbn beta. intros t3 r2 (-> & ids & Ht3 & Hl & Hids). wp_steps.
  eapply wp_mono; [eapply (read_pairs_spec t _ _ R); [apply Hta|done|eassumption]| |done].
  cbn beta. intros pairs r3 (Hwp & Hpairs & Hr3). wp_steps.
  eapply wp_mono; [eapply (read_specials_spec t _ _ R); [done|eassumption]| |done].
  cbn beta. intros specials r4 (-> & _). wp_steps.
  rewrite Ht2 in Hids. apply (restored_bytes t) in Hids; [|done..].
  rewrite Ht3, Ht2, Hids, Htexts. split; try done. by apply sort_stable_id.
Qed.

Lemma load_restored : exists t', load_compiled_file (Some (compiled_file t)) tt = Ret t' tt /\ restored t t'.
Proof.
  pose proof read_compiled_spec as H. apply wp_elim in H as [(t' & r & Hread & Hre)|(? & ? & _ & [])].
  exists t'. split; [|done]. unfold load_compiled_file. by rewrite Hread.
Qed.
End load.

(** ** The same behaviour *)

Lemma bpe_same p p' tokens : mt_pairs p' = mt_pairs p -> bpe p' tokens = bpe p tokens.
Proof.
  intros Hp. assert (pair_entry p' = pair_entry p) as Hpe by (unfold pair_entry; by rewrite Hp).
  assert (best_pair p' = best_pair p) as Hbest by (unfold best_pair; by rewrite Hpe).
  unfold bpe. generalize (length tokens) as f. intros f. revert tokens. induction f as [|f IH]; intros tokens; cbn; [done|].
  rewrite Hbest. destruct (best_pair p tokens) as [[k q]|]; [apply IH|done].
Qed.

Section same.
Context (t t' : Tokenizer) (Hre : restored t t').

Lemma restored_piece text : piece_tokens t' text = piece_tokens t text.
Proof.
  unfold piece_tokens. assert (mapM (byte_symbol t') text = mapM (byte_symbol t) text) as ->.
  { apply mapM_ext. intros b. unfold byte_symbol. by rewrite (re_bytes _ _ Hre). }
  destruct (mapM (byte_symbol t) text); [|done]. cbn. f_equal. apply bpe_same, Hre.
Qed.

Lemma restored_segment flags text : segment_tokens t' flags text = segment_tokens t flags text.
Proof.
  unfold segment_tokens, segment_pieces, use_regex. rewrite (re_regex _ _ Hre). f_equal. apply mapM_ext, restored_piece.
Qed.

Lemma restored_encode flags text : encode_tokens t' flags text = encode_tokens t flags text.
Proof.
  unfold encode_tokens, text_chunks. rewrite (re_prefix _ _ Hre).
  assert (forall matching segment text, chunks t' matching segment text = chunks t matching segment text) as Hchunks.
  { intros matching segment tx. unfold chunks. generalize (length tx) as f. intros f. revert segment tx.
    induction f as [|f IH]; intros segment tx; cbn [split_specials]; [done|]. destruct tx as [|b tx]; [done|].
    unfold find_special_token_at. rewrite (re_specials _ _ Hre). fold (find_special_token_at t (b :: tx)).
    destruct (if matching then _ else _) as [[id n]|]; by rewrite IH. }
  rewrite Hchunks. f_equal. apply mapM_ext. intros [tx|id tx]; cbn; [apply restored_segment|done].
Qed.

Lemma restored_text id : token_text t' id = token_text t id.
Proof. unfold token_text. by rewrite (re_texts _ _ Hre). Qed.
End same.
