(* ===== verification/BatchEncode.v ===== *)
(** * Batches ([crates/spark-text/src/tokenizer.rs])

    [encode_batch_with_workers] gives each worker a contiguous run of the texts and a
    workspace of its own.  Whatever the number of workers, the batch holds for every
    text the tokens that encoding it alone gives, and the error is that of the first
    text, in order, that has one. *)

From Stdlib Require Import String Sorted.
From S2P Require Import Prelude Bytes TokenTables TokenTablesProps Tokenizer MergeHeap Bpe MergeLoop PieceTokens PieceCache TextSplit Encode TokenizerLoad.

(** ** Reference *)

Definition text_error (t : Tokenizer) (flags stride : Z) (text : list Z) : option TokenizerError :=
  match encode_tokens t flags text with
  | None => Some (NotFound "byte token")
  | Some token_ids => if Z.of_nat (length token_ids) <=? stride then None else Some CapacityExceeded
  end.

Fixpoint first_error (t : Tokenizer) (flags stride : Z) (texts : list (list Z)) : option TokenizerError :=
  match texts with
  | [] => None
  | text :: rest => match text_error t flags stride text with Some e => Some e | None => first_error t flags stride rest end
  end.

(** The tokens of a text, padded to the stride. *)
Definition row (stride : Z) (token_ids : list Z) : list Z := token_ids ++ replicate (Z.to_nat stride - length token_ids) 0.

Definition batch_of (stride : Z) (lists : list (list Z)) : BatchEncoding :=
  mkBatchEncoding stride (concat (row stride <$> lists)) ((fun l => Z.of_nat (length l)) <$> lists)
    (replicate (length lists) 0) (replicate (length lists) 0).

Lemma first_error_app t flags stride a b :
  first_error t flags stride (a ++ b) = match first_error t flags stride a with Some e => Some e | None => first_error t flags stride b end.
Proof. induction a as [|x a IH]; cbn; [done|]. by destruct (text_error _ _ _ x). Qed.

Lemma no_error_lists t flags stride texts :
  first_error t flags stride texts = None -> exists lists, mapM (encode_tokens t flags) texts = Some lists /\
    Forall (fun l => Z.of_nat (length l) <= stride) lists.
Proof.
  induction texts as [|x texts IH]; cbn; [by exists []|]. unfold text_error.
  destruct (encode_tokens t flags x) as [ids|]; [|done]. destruct (Z.leb_spec (Z.of_nat (length ids)) stride); [|done].
  intros Hn. destruct (IH Hn) as (lists & Hl & Hall). exists (ids :: lists). cbn. rewrite Hl. split; [done|by constructor].
Qed.

Section batch.
Context (t : Tokenizer) (Ht : tokenizer_ok t) (Hne : no_empty_special t) (flags stride : Z).
Context (Hflags : Z.land flags (u32_not ENCODE_KNOWN_FLAGS) = 0).
Context (Hstride : 0 < stride) (Hsmall : 4 * stride <= ISIZE_MAX).

Definition text_ok (text : list Z) : Prop := Forall byte text /\ Z.of_nat (length text) + 1 <= MAX_SYMBOLS.

(** ** One worker *)

(** What a worker answers for its texts. *)
Record worker_ok (texts : list (list Z)) (r : list Encoding * option TokenizerError) : Prop := {
  wo_status : snd r = first_error t flags stride texts;
  wo_length : (length (fst r) <= length texts)%nat;
  wo_capped : Forall (fun e => Z.of_nat (length (en_token_ids e)) <= stride) (fst r);
  wo_lists : snd r = None -> forall lists, mapM (encode_tokens t flags) texts = Some lists ->
    fst r = (fun l => mkEncoding l stride 0 0) <$> lists;
}.

Lemma filled_fits ids : Z.of_nat (length ids) <= stride -> filled_encoding ids (encoding_with_capacity stride) = mkEncoding ids stride 0 0.
Proof. intros H. unfold filled_encoding. cbn -[Z.of_nat Z.max Z.to_nat]. rewrite take_ge, Z.max_l by lia. done. Qed.

Lemma encode_texts_spec {St} texts w acc (s : St) :
  Forall text_ok texts -> workspace_ok w -> cache_ok t w ->
  exists encs status, encode_texts t flags stride texts w acc s = Ret (acc ++ encs, status) s /\ worker_ok texts (encs, status).
Proof.
  revert w acc. induction texts as [|text texts IH]; intros w acc Hall Hw Hc; cbn [encode_texts].
  { exists [], None. split; [by rewrite app_nil_r|]. split; cbn; try done. by intros _ lists [= <-]. }
  apply Forall_cons in Hall as [[Hb Hfit] Hall]. destruct (Z.ltb_spec ISIZE_MAX (4 * stride)); [lia|].
  pose proof (encode_text_spec t Ht Hne flags text (mkEncodeState w (encoding_with_capacity stride))
    ltac:(by split) Hb Hfit Hflags ltac:(cbn; lia)) as Hwp. cbn [es_encoding en_token_capacity encoding_with_capacity] in Hwp.
  apply wp_elim in Hwp as [(u & s' & -> & [Hw' Hc'] & ids & Hids & Hlen & Henc)|(e & s' & -> & Hok & Herr)].
  - destruct (IH (es_workspace s') (acc ++ [es_encoding s']) Hall Hw' Hc') as (encs & status & -> & Hwo).
    exists (es_encoding s' :: encs), status. split; [by rewrite <- app_assoc|]. fold (encoding_with_capacity stride) in Henc. rewrite filled_fits in Henc by done. destruct Hwo as [H1 H2 H3 H4].
    split; cbn in *.
    + rewrite H1. unfold text_error. rewrite Hids. by destruct (Z.leb_spec (Z.of_nat (length ids)) stride); [|lia].
    + lia.
    + constructor; [by rewrite Henc|done].
    + intros Hn lists. rewrite Hids. cbn. destruct (mapM _ texts) as [ls|] eqn:Hls; [|done]. intros [= <-]. cbn. by rewrite Henc, (H4 Hn ls).
  - exists [es_encoding s'], (Some e). split; [done|].
    destruct Herr as [(-> & Hno & Hl)|(-> & ids & Hids & Hlt & Henc)]; split; cbn; unfold text_error.
    + by rewrite Hno.
    + lia.
    + by constructor.
    + done.
    + rewrite Hids. by destruct (Z.leb_spec (Z.of_nat (length ids)) stride); [lia|].
    + lia.
    + constructor; [|done]. rewrite Henc. cbn -[Z.of_nat Z.max Z.to_nat]. rewrite length_take. lia.
    + done.
Qed.

Lemma largest_text texts m :
  Forall text_ok texts -> 0 < m <= MAX_SYMBOLS ->
  0 < foldl (fun maximum (text : list Z) => Z.max maximum (Z.of_nat (length text) + 1)) m texts <= MAX_SYMBOLS.
Proof.
  intros Hall. revert m. induction Hall as [|text l [_ Htx] Hl IH]; intros m Hm; cbn; [done|]. apply IH. lia.
Qed.

Definition part (texts : list (list Z)) (x : Z * Z) : list (list Z) := take (Z.to_nat (snd x)) (drop (Z.to_nat (fst x)) texts).

Lemma batch_worker_spec {St} texts x (s : St) R :
  Forall text_ok texts -> 0 <= fst x -> 0 <= snd x -> fst x + snd x <= Z.of_nat (length texts) ->
  wp (batch_worker t texts (fst x) (snd x) flags stride) (fun r s' => s' = s /\ worker_ok (part texts x) r) R s.
Proof.
  intros Hall H1 H2 H3. unfold batch_worker. wp_steps. apply wp_slice; [lia|lia|].
  replace (fst x + snd x - fst x) with (snd x) by lia. fold (part texts x).
  assert (Forall text_ok (part texts x)) as Hpart by (by apply Forall_take, Forall_drop).
  set (count := foldl _ 1 (part texts x)).
  assert (0 < count <= MAX_SYMBOLS) as Hcount.
  { by apply largest_text. }
  unfold wp. pose proof (new_workspace_spec t count s Hcount) as Hnew.
  apply wp_elim in Hnew as [(w & s' & -> & -> & Hw & Hc & _)|(? & ? & _ & [])].
  destruct (encode_texts_spec (part texts x) w [] s Hpart Hw Hc) as (encs & status & -> & Hwo). done.
Qed.

(** ** The assignment *)

(** Contiguous runs from [k] to [n]. *)
Fixpoint contiguous (k : Z) (assignments : list (Z * Z)) (n : Z) : Prop :=
  match assignments with
  | [] => k = n
  | (first, count) :: rest => first = k /\ 0 <= count /\ contiguous (k + count) rest n
  end.

Lemma contiguous_snoc k l n c : contiguous k l n -> 0 <= c -> contiguous k (l ++ [(n, c)]) (n + c).
Proof.
  revert k. induction l as [|[f d] l IH]; intros k; cbn; [by intros -> ?|]. intros (-> & Hd & Hl) Hc. split_and!; [done|done|by apply IH].
Qed.

Lemma contiguous_le k l n : contiguous k l n -> k <= n.
Proof. revert k. induction l as [|[f d] l IH]; intros k; cbn; [lia|]. intros (_ & Hd & Hl). apply IH in Hl. lia. Qed.

Lemma assignments_contiguous workers len :
  0 < workers -> 0 <= len ->
  contiguous 0 (worker_assignments workers (len / workers) (len mod workers)) len.
Proof.
  intros Hw Hl. set (base := len / workers). set (rem := len mod workers).
  pose proof (Z.div_mod len workers ltac:(lia)) as Hdm. fold base rem in Hdm.
  pose proof (Z.mod_pos_bound len workers Hw) as Hrem. fold rem in Hrem.
  assert (0 <= base) as Hb by (apply Z.div_pos; lia). unfold worker_assignments.
  assert (forall m : nat, Z.of_nat m <= workers -> let r := foldl (fun '(next_text_index, assignments) worker_index =>
      let assigned_count := base + b2z (worker_index <? rem) in
      (next_text_index + assigned_count, assignments ++ [(next_text_index, assigned_count)])) (0, []) (range 0 (Z.of_nat m)) in
    fst r = Z.of_nat m * base + Z.min (Z.of_nat m) rem /\ contiguous 0 (snd r) (fst r)) as Hind.
  { induction m as [|m IH]; intros Hm; cbv zeta.
    { rewrite range_nil by lia. cbn [foldl fst snd contiguous]. lia. }
    rewrite Nat2Z.inj_succ. unfold Z.succ. rewrite range_snoc, foldl_app by lia.
    specialize (IH ltac:(lia)). cbv zeta in IH. destruct (foldl _ _ _) as [next assignments]. cbn [fst snd] in IH. destruct IH as [Hn Hc].
    cbn [foldl fst snd]. destruct (Z.ltb_spec (Z.of_nat m) rem); cbn [b2z]; (split; [nia|apply contiguous_snoc; [done|lia]]). }
  specialize (Hind (Z.to_nat workers) ltac:(lia)). cbv zeta in Hind. rewrite Z2Nat.id in Hind by lia.
  destruct (foldl _ _ _) as [next assignments]. cbn [fst snd] in *. destruct Hind as [Hn Hc]. by replace len with next by lia.
Qed.

Lemma final_status_cons r results :
  final_status (r :: results) = match snd (snd r) with Some e => Some e | None => final_status results end.
Proof.
  unfold final_status. cbn [foldl]. destruct (snd (snd r)) as [e|]; [|done].
  induction results as [|r' results IH]; cbn; done.
Qed.

(** The results of the workers in the order of their texts. *)
Definition results_ok (texts : list (list Z)) (assignments : list (Z * Z)) (results : list WorkerResult) : Prop :=
  Forall2 (fun x r => fst r = fst x /\ worker_ok (part texts x) (snd r)) assignments results.

Lemma results_status texts k assignments results :
  0 <= k -> contiguous k assignments (Z.of_nat (length texts)) -> results_ok texts assignments results ->
  final_status results = first_error t flags stride (drop (Z.to_nat k) texts).
Proof.
  intros Hk Hc Hr. revert k Hk Hc. induction Hr as [|[f c] r xs rs [Hf Hw] Hr IH]; intros k Hk; cbn [contiguous].
  - intros ->. rewrite Nat2Z.id, drop_all. done.
  - intros (-> & Hcount & Hc). rewrite final_status_cons, (IH (k + c)) by (done || lia).
    rewrite (wo_status _ _ Hw). unfold part. cbn [fst snd].
    rewrite <- (take_drop (Z.to_nat c) (drop (Z.to_nat k) texts)) at 2. rewrite first_error_app, drop_drop.
    by replace (Z.to_nat (k + c)) with (Z.to_nat k + Z.to_nat c)%nat by lia.
Qed.

Lemma contiguous_bounds k l n x : contiguous k l n -> 0 <= k -> x ∈ l -> k <= fst x /\ 0 <= snd x /\ fst x + snd x <= n.
Proof.
  revert k. induction l as [|[f c] l IH]; intros k Hc Hk Hx; [by apply elem_of_nil in Hx|]. cbn in Hc. destruct Hc as (-> & Hcount & Hc).
  apply elem_of_cons in Hx as [->|Hx]; cbn; [apply contiguous_le in Hc; lia|]. destruct (IH _ Hc ltac:(lia) Hx). lia.
Qed.

Lemma contiguous_sorted k l n : contiguous k l n -> Forall (fun x => k <= fst x) l /\ StronglySorted (fun x y => (fst x <=? fst y) = true) l.
Proof.
  revert k. induction l as [|[f c] l IH]; intros k; cbn; [by repeat constructor|]. intros (-> & Hc & Hl). destruct (IH _ Hl) as [H1 H2]. split.
  - constructor; [cbn; lia|]. eapply Forall_impl; [exact H1|]. cbn. lia.
  - constructor; [done|]. eapply Forall_impl; [exact H1|]. intros x Hx. cbn in Hx |- *. apply Z.leb_le. lia.
Qed.

Lemma results_sorted texts assignments results :
  results_ok texts assignments results -> StronglySorted (fun x y => (fst x <=? fst y) = true) assignments ->
  StronglySorted (fun x y => (fst x <=? fst y) = true) results.
Proof.
  induction 1 as [|x r xs rs [Hf _] Hr IH]; intros Hs; [constructor|]. apply StronglySorted_inv in Hs as [Hs Hx].
  constructor; [by apply IH|]. clear IH Hs. induction Hr as [|y r' ys rs' [Hf' _] Hr IH]; [constructor|].
  apply Forall_cons in Hx as [Hy Hx]. constructor; [by rewrite Hf, Hf'|by apply IH].
Qed.

Lemma run_workers_spec {St} texts workers (s : St) R :
  Forall text_ok texts -> 0 < workers ->
  wp (run_workers t texts flags stride workers)
    (fun results s' => s' = s /\ exists assignments, contiguous 0 assignments (Z.of_nat (length texts)) /\ results_ok texts assignments results) R s.
Proof.
  intros Hall Hw. unfold run_workers. destruct (Z.leb_spec workers 1) as [H1|H1]; wp_steps.
  - eapply wp_mono; [apply (batch_worker_spec texts (0, Z.of_nat (length texts)) s R); [done|cbn; lia..]| |done].
    cbn beta. intros r s' [-> Hr]. wp_steps. split; [done|]. exists [(0, Z.of_nat (length texts))].
    split; [cbn; lia|]. constructor; [done|constructor].
  - set (assignments := worker_assignments _ _ _).
    assert (contiguous 0 assignments (Z.of_nat (length texts))) as Hc by (apply assignments_contiguous; lia).
    eapply wp_mono; [apply (wp_for_fold (fun pre results s' => s' = s /\ results_ok texts pre results) _ _ _ R)| |done].
    + split; [done|constructor].
    + intros pre x post results s' Hsplit [-> Hr]. wp_steps.
      destruct (contiguous_bounds 0 assignments _ x Hc) as (Hb1 & Hb2 & Hb3); [lia|rewrite Hsplit; set_solver|].
      eapply wp_mono; [by apply (batch_worker_spec texts x s R)| |done]. cbn beta. intros r s' [-> Hwo]. wp_steps. split; [done|].
      apply Forall2_app; [done|]. constructor; [done|constructor].
    + cbn beta. intros results s' [-> Hr]. wp_steps. split; [done|]. exists assignments. split; [done|].
      rewrite sort_stable_id; [done|]. eapply results_sorted; [done|]. by apply (contiguous_sorted 0 _ (Z.of_nat (length texts))).
Qed.

(** ** Copying *)

Definition shaped (n : nat) (b : BatchEncoding) : Prop :=
  Z.of_nat (length (be_token_ids b)) = Z.of_nat n * stride /\ length (be_token_counts b) = n.

Section copy.
Context (n : nat) (Hsize : 4 * (Z.of_nat n * stride) <= ISIZE_MAX).

Lemma row_bounds (i : nat) len : (i < n)%nat -> 0 <= len <= stride ->
  Z.of_nat i *u64 stride = Z.of_nat i * stride /\ 0 <= Z.of_nat i * stride /\ Z.of_nat i * stride + len <= Z.of_nat n * stride.
Proof.
  intros Hi Hlen. assert (Z.of_nat i * stride + stride <= Z.of_nat n * stride) by nia.
  assert (0 <= Z.of_nat i * stride) by nia. split; [apply u64_small; lia|lia].
Qed.

(** One text copied to its row. *)
Lemma copy_row_spec {St} (i : nat) (l : Encoding) b (s : St) R :
  (i < n)%nat -> Z.of_nat (length (en_token_ids l)) <= stride -> shaped n b ->
  wp (copy_encoding stride (Z.of_nat i) l b)
    (fun b' s' => s' = s /\ shaped n b' /\
       b' = mkBatchEncoding (be_token_stride b)
              (write_slice (Z.of_nat i * stride) (Z.of_nat i * stride + Z.of_nat (length (en_token_ids l))) (en_token_ids l) (be_token_ids b))
              (<[i := Z.of_nat (length (en_token_ids l))]> (be_token_counts b))
              (<[i := en_overflow_token_count l]> (be_overflow_token_counts b))
              (<[i := en_invalid_segment_count l]> (be_invalid_segment_counts b))) R s.
Proof.
  intros Hi Hl [Hb1 Hb2]. destruct (row_bounds i (Z.of_nat (length (en_token_ids l))) Hi ltac:(lia)) as (Hu & H0 & H1).
  unfold copy_encoding. rewrite Hu. wp_steps. apply wp_slice; [lia|lia|]. wp_steps.
  destruct (lookup_lt_is_Some_2 (be_token_counts b) i) as [c Hc]; [lia|].
  apply (wp_index _ _ _ _ _ c); [by rewrite Nat2Z.id|]. wp_steps. split; [done|]. rewrite !upd_nth_const, !Nat2Z.id. split; [|done].
  split; cbn; [rewrite length_write_slice by lia; done|by rewrite length_insert].
Qed.

(** The rows of the first texts, and zeroes behind them. *)
Definition partial (lists : list (list Z)) (b : BatchEncoding) : Prop :=
  b = mkBatchEncoding stride
        (concat (row stride <$> lists) ++ replicate (Z.to_nat ((Z.of_nat n - Z.of_nat (length lists)) * stride)) 0)
        (((fun l => Z.of_nat (length l)) <$> lists) ++ replicate (n - length lists) 0) (replicate n 0) (replicate n 0).

Lemma length_rows lists : Forall (fun l => Z.of_nat (length l) <= stride) lists ->
  Z.of_nat (length (concat (row stride <$> lists))) = Z.of_nat (length lists) * stride.
Proof.
  induction 1 as [|l lists Hl Hall IH]; cbn; [done|]. rewrite length_app, Nat2Z.inj_add, IH. unfold row. rewrite length_app, length_replicate. lia.
Qed.

Lemma partial_shaped lists b : Forall (fun l => Z.of_nat (length l) <= stride) lists -> (length lists <= n)%nat -> partial lists b -> shaped n b.
Proof.
  intros Hall Hn ->. split; cbn; rewrite length_app, length_replicate; [|rewrite length_fmap; lia].
  rewrite Nat2Z.inj_add, length_rows by done. nia.
Qed.

Lemma insert_replicate_same {A} (m i : nat) (x : A) : <[i := x]> (replicate m x) = replicate m x.
Proof.
  apply list_eq. intros j. destruct (decide (i = j)) as [->|]; [|by rewrite list_lookup_insert_ne].
  destruct (decide (j < m)%nat).
  - rewrite list_lookup_insert_eq by (by rewrite length_replicate). symmetry. by apply lookup_replicate_2.
  - by rewrite list_insert_ge by (rewrite length_replicate; lia).
Qed.

(** Copying the next row extends them. *)
Lemma partial_row lists l b :
  Forall (fun l => Z.of_nat (length l) <= stride) lists -> Z.of_nat (length l) <= stride -> (length lists < n)%nat -> partial lists b ->
  partial (lists ++ [l]) (mkBatchEncoding (be_token_stride b)
    (write_slice (Z.of_nat (length lists) * stride) (Z.of_nat (length lists) * stride + Z.of_nat (length l)) l (be_token_ids b))
    (<[length lists := Z.of_nat (length l)]> (be_token_counts b)) (<[length lists := 0]> (be_overflow_token_counts b))
    (<[length lists := 0]> (be_invalid_segment_counts b))).
Proof.
  intros Hall Hl Hn ->. unfold partial. cbn. rewrite !insert_replicate_same, !fmap_app, concat_app, length_app. cbn [length fmap list_fmap concat].
  pose proof (length_rows lists Hall) as Hrows. f_equal.
  - assert (0 <= Z.of_nat (length lists) * stride) as Hq by nia.
    assert ((Z.of_nat n - Z.of_nat (length lists)) * stride = stride + (Z.of_nat n - Z.of_nat (length lists + 1)) * stride) as Hrest by nia.
    assert (0 <= (Z.of_nat n - Z.of_nat (length lists + 1)) * stride) as Hrest0 by nia.
    rewrite Hrest. revert Hq Hrows Hrest0. generalize (Z.of_nat (length lists) * stride), ((Z.of_nat n - Z.of_nat (length lists + 1)) * stride).
    intros q m Hq Hrows Hm. unfold write_slice. rewrite take_app_length' by lia. rewrite drop_app_ge by lia.
    rewrite drop_replicate, app_nil_r, <- app_assoc. f_equal.
    change (row stride l) with (l ++ replicate (Z.to_nat stride - length l) 0). rewrite <- app_assoc. f_equal.
    rewrite <- replicate_add. apply (f_equal (fun k => replicate k 0)). lia.
  - rewrite <- app_assoc. replace (n - length lists)%nat with (S (n - (length lists + 1))) by lia. cbn [replicate].
    replace (length lists) with (length ((fun l0 : list Z => Z.of_nat (length l0)) <$> lists)) at 1 by (by rewrite length_fmap).
    rewrite insert_app_r_alt, Nat.sub_diag by lia. done.
Qed.

Lemma length_batch_of lists : length (be_token_counts (batch_of stride lists)) = length lists.
Proof. cbn. by rewrite length_fmap. Qed.

(** The encodings of a worker. *)
Lemma copy_shaped {St} (k : nat) encs status b (s : St) R :
  Forall (fun e => Z.of_nat (length (en_token_ids e)) <= stride) encs -> (k + length encs <= n)%nat -> shaped n b ->
  wp (copy_encodings stride (Z.of_nat k, (encs, status)) b) (fun b' s' => s' = s /\ shaped n b') R s.
Proof.
  intros Hall Hk Hb. unfold copy_encodings.
  apply (wp_for_enumerate (fun m b' s' => s' = s /\ shaped n b') encs); [done|].
  intros m e b' s' Hm [-> Hb']. cbn [fst snd]. apply lookup_lt_Some in Hm as Hlt. rewrite <- Nat2Z.inj_add.
  eapply wp_mono; [apply (copy_row_spec (k + m) e b' s R); [lia|by eapply Forall_lookup_1 in Hall|done]| |done].
  cbn beta. intros b2 s' (-> & Hb2 & _). done.
Qed.

Lemma copy_partial {St} lists more status b (s : St) R :
  Forall (fun l => Z.of_nat (length l) <= stride) (lists ++ more) -> (length (lists ++ more) <= n)%nat -> partial lists b ->
  wp (copy_encodings stride (Z.of_nat (length lists), ((fun l => mkEncoding l stride 0 0) <$> more, status)) b)
    (fun b' s' => s' = s /\ partial (lists ++ more) b') R s.
Proof.
  intros Hall Hn Hb. unfold copy_encodings. rewrite length_app in Hn.
  eapply wp_mono; [apply (wp_for_enumerate (fun m b' s' => s' = s /\ partial (lists ++ take m more) b') _ _ _ R)| |done].
  - by rewrite app_nil_r.
  - intros m e b' s' Hm [-> Hb']. apply list_lookup_fmap_Some in Hm as (l & -> & Hl). cbn [fst snd]. apply lookup_lt_Some in Hl as Hlt.
    assert (Forall (fun l => Z.of_nat (length l) <= stride) (lists ++ take m more)) as Hpre.
    { apply Forall_app in Hall as [H1 H2]. apply Forall_app. split; [done|by apply Forall_take]. }
    assert (Z.of_nat (length l) <= stride) as Hll by (apply Forall_app in Hall as [_ H2]; by eapply Forall_lookup_1 in H2).
    assert (length (lists ++ take m more) = (length lists + m)%nat) as Hlen by (rewrite length_app, length_take; lia).
    rewrite <- Nat2Z.inj_add. eapply wp_mono; [apply (copy_row_spec (length lists + m) _ b' s R); [lia|done|]| |done].
    { apply (partial_shaped (lists ++ take m more)); [done|lia|done]. }
    cbn beta. intros b2 s' (-> & _ & ->). split; [done|]. rewrite (take_S_r _ _ l) by done. rewrite app_assoc, <- Hlen. cbn [en_token_ids en_overflow_token_count en_invalid_segment_count].
    apply partial_row; [done|done|lia|done].
  - intros b' s' [-> Hb']. rewrite length_fmap, firstn_all in Hb'. done.
Qed.
End copy.

(** The results of all workers, when none failed... *)
Lemma copy_all_partial {St} texts lists k assignments results b (s : St) R :
  4 * (Z.of_nat (length texts) * stride) <= ISIZE_MAX ->
  mapM (encode_tokens t flags) texts = Some lists -> Forall (fun l => Z.of_nat (length l) <= stride) lists ->
  (k <= length texts)%nat -> contiguous (Z.of_nat k) assignments (Z.of_nat (length texts)) -> results_ok texts assignments results ->
  first_error t flags stride (drop k texts) = None -> partial (length texts) (take k lists) b ->
  wp (for_fold results (copy_encodings stride) b) (fun b' s' => s' = s /\ partial (length texts) lists b') R s.
Proof.
  intros Hsize Hm Hall. pose proof (length_mapM _ _ _ Hm) as Hlen. revert k results b.
  induction assignments as [|[f c] assignments IH]; intros k results b Hk Hc Hr Herr Hb; inversion Hr as [|x r xs rs [Hf Hw] Hr']; subst; cbn [for_fold].
  - cbn in Hc. wp_steps. split; [done|]. by rewrite take_ge in Hb by lia.
  - cbn in Hc. destruct Hc as (-> & Hcount & Hc). pose proof (contiguous_le _ _ _ Hc). cbn [fst] in Hf.
    set (m := Z.to_nat c). assert (part texts (Z.of_nat k, c) = take m (drop k texts)) as Hpart by (unfold part; cbn; by rewrite Nat2Z.id).
    rewrite Hpart in Hw. rewrite <- (take_drop m (drop k texts)), first_error_app, drop_drop in Herr.
    destruct (first_error t flags stride (take m (drop k texts))) eqn:Hno; [done|].
    assert (mapM (encode_tokens t flags) (take m (drop k texts)) = Some (take m (drop k lists))) as Hmine.
    { apply mapM_Some in Hm. apply mapM_Some. by apply Forall2_take, Forall2_drop. }
    destruct r as [first [encs status]]. cbn in Hf, Hw. subst first.
    assert (status = None) as Hst by (pose proof (wo_status _ _ Hw) as Hs; cbn in Hs; congruence).
    pose proof (wo_lists _ _ Hw Hst _ Hmine) as Hencs. cbn in Hencs. rewrite Hencs.
    assert (length (take k lists) = k) as Hkl by (rewrite length_take; lia).
    assert (take k lists ++ take m (drop k lists) = take (k + m) lists) as Htake by (by rewrite take_take_drop).
    wp_steps. rewrite <- Hkl at 1.
    eapply wp_mono; [apply (copy_partial (length texts) Hsize (take k lists) (take m (drop k lists)) status b s R); rewrite ?Htake; [by apply Forall_take|rewrite length_take; lia|done]| |done].
    cbn beta. intros b' s' [-> Hb']. rewrite Htake in Hb'. apply (IH (k + m)%nat); [lia| |done|done|done].
    by replace (Z.of_nat (k + m)) with (Z.of_nat k + c) by lia.
Qed.

(** ... and when one did. *)
Lemma copy_all_shaped {St} texts assignments results b (s : St) R :
  4 * (Z.of_nat (length texts) * stride) <= ISIZE_MAX ->
  (forall x, x ∈ assignments -> 0 <= fst x /\ 0 <= snd x /\ fst x + snd x <= Z.of_nat (length texts)) ->
  results_ok texts assignments results -> shaped (length texts) b ->
  wp (for_fold results (copy_encodings stride) b) (fun b' s' => s' = s) R s.
Proof.
  intros Hsize Hin Hr Hb. revert b Hb. induction Hr as [|x r xs rs [Hf Hw] Hr IH]; intros b Hb; cbn [for_fold]; wp_steps; [done|].
  destruct (Hin x ltac:(by left)) as (H1 & H2 & H3). destruct r as [first [encs status]]. cbn in Hf, Hw. subst first.
  pose proof (wo_length _ _ Hw) as Hlen. cbn in Hlen. unfold part in Hlen. rewrite length_take, length_drop in Hlen.
  rewrite <- (Z2Nat.id (fst x)) by done.
  eapply wp_mono; [apply (copy_shaped (length texts) Hsize (Z.to_nat (fst x)) encs status b s R); [apply Hw|lia|done]| |done].
  cbn beta. intros b' s' [-> Hb']. apply IH; [|done]. intros y Hy. apply Hin. by right.
Qed.

Lemma partial_all lists b : partial (length lists) lists b -> b = batch_of stride lists.
Proof. intros ->. unfold batch_of. by rewrite !Z.sub_diag, Nat.sub_diag, !app_nil_r. Qed.

Lemma batch_spec texts workers :
  texts <> [] -> Forall text_ok texts -> 0 <= workers -> 4 * (Z.of_nat (length texts) * stride) <= ISIZE_MAX ->
  encode_batch_with_workers t texts flags stride workers tt =
    match first_error t flags stride texts with
    | Some e => Fails e tt
    | None => Ret (batch_of stride (default [] (mapM (encode_tokens t flags) texts))) tt
    end.
Proof.
  intros Hnil Hall Hworkers Hsize.
  assert (wp (encode_batch_with_workers t texts flags stride workers)
    (fun b _ => first_error t flags stride texts = None /\ b = batch_of stride (default [] (mapM (encode_tokens t flags) texts)))
    (fun e _ => first_error t flags stride texts = Some e) tt) as Hwp.
  { unfold encode_batch_with_workers.
    assert (0 < length texts)%nat as Hpos by (destruct texts; [done|cbn; lia]).
    destruct (Z.eqb_spec (Z.of_nat (length texts)) 0); [lia|]. destruct (Z.eqb_spec stride 0); [lia|]. cbn [negb andb].
    cbv zeta. set (count := if _ <? _ then _ else _). assert (0 < count) as Hcount.
    { subst count. destruct (Z.eqb_spec workers 0); unfold MAX_PARALLEL_WORKER_COUNT; [destruct (Z.of_nat (length texts) <? 16)|destruct (Z.of_nat (length texts) <? workers)]; lia. }
    apply wp_bind. eapply wp_mono; [by apply (run_workers_spec texts count tt (fun e _ => first_error t flags stride texts = Some e))| |done].
    cbn beta. intros results [] (_ & assignments & Hc & Hr).
    pose proof (results_status texts 0 assignments results ltac:(lia) Hc Hr) as Hstatus. rewrite drop_0 in Hstatus.
    rewrite u64_small by lia. destruct (Z.ltb_spec ISIZE_MAX (4 * (Z.of_nat (length texts) * stride))); [lia|].
    set (blank := mkBatchEncoding stride _ _ _ _).
    assert (partial (length texts) [] blank) as Hblank.
    { unfold partial. subst blank. cbn. by rewrite Z.sub_0_r, Nat.sub_0_r. }
    rewrite Hstatus. apply wp_bind. destruct (first_error t flags stride texts) as [e|] eqn:Herr.
    - eapply wp_mono; [apply (copy_all_shaped texts assignments results blank tt (fun e' _ => Some e = Some e') Hsize)| |done].
      + intros x Hx. by apply (contiguous_bounds 0 assignments).
      + done.
      + apply (partial_shaped _ Hsize []); [done|cbn; lia|done].
      + cbn beta. intros b' [] _. by wp_steps.
    - destruct (no_error_lists _ _ _ _ Herr) as (lists & Hm & Hl). rewrite Hm. pose proof (length_mapM _ _ _ Hm) as Hlen.
      eapply wp_mono; [apply (copy_all_partial texts lists 0 assignments results blank tt (fun _ _ => False) Hsize Hm Hl); [lia|done|done|by rewrite drop_0|done]| |done].
      cbn beta. intros b' [] [_ Hb']. wp_steps. split; [done|]. rewrite Hlen in Hb'. by apply partial_all. }
  apply wp_elim in Hwp as [(b & [] & -> & -> & ->)|(e & [] & -> & ->)]; done.
Qed.

Lemma batch_tokens {St E} lists (i : nat) l (s : St) :
  Forall (fun l => Z.of_nat (length l) <= stride) lists -> 4 * (Z.of_nat (length lists) * stride) <= ISIZE_MAX ->
  lists !! i = Some l -> tokens_of (E := E) (batch_of stride lists) (Z.of_nat i) s = Ret l s.
Proof.
  intros Hall Hsize Hi. apply lookup_lt_Some in Hi as Hlt.
  destruct (row_bounds (length lists) Hsize i (Z.of_nat (length l)) Hlt) as (Hu & H0 & H1).
  { split; [lia|]. by eapply Forall_lookup_1 in Hall. }
  unfold tokens_of. cbn [be_token_stride be_token_counts be_token_ids batch_of]. rewrite Hu.
  unfold bind, index. rewrite Nat2Z.id, list_lookup_fmap, Hi. cbn [fmap option_fmap option_map ret].
  pose proof (length_rows (length lists) lists Hall) as Hrows. unfold slice.
  destruct (Z.leb_spec (Z.of_nat i * stride) (Z.of_nat i * stride + Z.of_nat (length l))); [|lia].
  destruct (Z.leb_spec (Z.of_nat i * stride + Z.of_nat (length l)) (Z.of_nat (length (concat (row stride <$> lists))))); [|lia].
  cbn [andb]. unfold ret. f_equal. rewrite <- (take_drop_middle lists i l Hi), fmap_app, concat_app. cbn [fmap list_fmap concat].
  pose proof (length_rows (length lists) (take i lists) ltac:(by apply Forall_take)) as Hpre. rewrite length_take in Hpre.
  rewrite drop_app_length' by nia. unfold row. rewrite <- app_assoc.
  replace (Z.to_nat (Z.of_nat i * stride + Z.of_nat (length l) - Z.of_nat i * stride)) with (length l) by lia. apply take_app_length.
Qed.
End batch.
