(* ===== verification/TokenizerProps.v ===== *)
(** * What the tokenizer promises ([crates/spark-text/src/tokenizer.rs])

    The theorems of the tokenizer as a whole: the hash table refines a finite map, the
    merge loop is byte-pair encoding, a reused workspace never changes the tokens, a
    loaded tokenizer decodes what it encodes, a compiled file behaves as the document
    it was made from, a batch is its texts one by one.  A sample document evaluates
    each of them. *)

From Stdlib Require Import String Sorted.
From stdpp Require Import gmap.
From S2P Require Import Prelude Bytes TokenTables TokenTablesProps Tokenizer MergeHeap Bpe MergeLoop PieceTokens PieceCache TextSplit Encode Decode TokenizerLoad CompiledFile BatchEncode.

#[local] Instance byte_decision b : Decision (byte b) := ltac:(unfold byte; apply _).

(** A decidable goal on closed terms, by evaluation. *)
Ltac evaluates := match goal with |- ?P => apply (bool_decide_eq_true_1 P); vm_compute; reflexivity end.

(** ** A sample document *)

(** The vocabulary [a], [b], [ab], the rule that joins the first two, and a special token. *)
Definition sample_document : Json :=
  JObject [
    (lit "model", JObject [
      (lit "vocab", JObject [(lit "a", JNumber (Some 0%N)); (lit "b", JNumber (Some 1%N)); (lit "ab", JNumber (Some 2%N))]);
      (lit "merges", JArray [JString (lit "a b")])]);
    (lit "added_tokens", JArray [JObject [(lit "special", JBool true); (lit "id", JNumber (Some 3%N)); (lit "content", JString (lit "<s>"))]])].

Definition sample_parser (_ : list Z) : option Json := Some sample_document.

Definition sample_tokenizer : Tokenizer :=
  match load_huggingface_json sample_parser (Some []) tt with Ret t _ => t | _ => default_tokenizer end.

Lemma sample_loaded : load_huggingface_json sample_parser (Some []) tt = Ret sample_tokenizer tt.
Proof. vm_compute. reflexivity. Qed.

Lemma sample_fits : document_fits sample_document.
Proof. intros model Hmodel. vm_compute in Hmodel. injection Hmodel as <-. split; intros l Hl; vm_compute in Hl; injection Hl as <-; done. Qed.

Lemma loaded_tables from_slice bytes document t :
  from_slice bytes = Some document -> document_fits document -> load_huggingface_json from_slice (Some bytes) tt = Ret t tt ->
  tables_ok t /\ specials_sorted t.
Proof. intros Hparse Hfits Hload. pose proof (load_json_spec _ _ _ Hparse Hfits) as H. unfold wp in H. by rewrite Hload in H. Qed.

Lemma tables_tokenizer t : tables_ok t -> tokenizer_ok t.
Proof. intros []. by split. Qed.

Lemma sample_tables : tables_ok sample_tokenizer /\ specials_sorted sample_tokenizer.
Proof. exact (loaded_tables sample_parser [] sample_document _ eq_refl sample_fits sample_loaded). Qed.

Lemma sample_ok : tokenizer_ok sample_tokenizer.
Proof. apply tables_tokenizer, sample_tables. Qed.

Lemma sample_specials : no_empty_special sample_tokenizer.
Proof. unfold no_empty_special. replace (tk_special_tokens sample_tokenizer) with [mkSpecialToken (lit "<s>") 3] by (vm_compute; reflexivity). by apply Forall_singleton. Qed.

(** ** The string table *)

(** The map a table stands for. *)
Definition string_map (t : StringTable) : gmap (list Z) Z :=
  list_to_map (omap (fun e => (fun text => (text, se_value e)) <$> se_text e) (st_entries t)).

Lemma string_map_lookup t text : string_map t !! text = se_value <$> string_entry t text.
Proof.
  unfold string_map, string_entry. induction (st_entries t) as [|e es IH]; [done|]. cbn -[list_to_map].
  destruct (se_text e) as [x|]; cbn -[list_to_map]; [|done]. change (list_to_map ((x, se_value e) :: ?l)) with (<[x:=se_value e]> (list_to_map (M := gmap (list Z) Z) l)).
  case_bool_decide as Hx; [subst x; by rewrite lookup_insert_eq|]. by rewrite lookup_insert_ne.
Qed.

(** C23. The chained hash table implements a finite map from texts to values: it starts empty
    whatever its size, a lookup finds exactly what the map holds, and an insertion into an
    allocated table with room binds a new text, or reports a duplicate and changes nothing. *)
Theorem string_table_refines_map n t text value :
  wf_strings t -> st_buckets t <> [] -> Z.of_nat (length (st_entries t)) < EMPTY_BUCKET ->
  (wf_strings (strings_with_entry_count n) /\ string_map (strings_with_entry_count n) = ∅) /\
  (forall other, exists found, find_string (E := TokenizerError) t other tt = Ret found tt /\ string_map t !! other = se_value <$> found) /\
  match string_map t !! text with
  | Some _ => insert_string text value t = Fails (Duplicate "string table entry") t
  | None => exists t', insert_string text value t = Ret tt t' /\ wf_strings t' /\ st_buckets t' <> [] /\
              string_map t' = <[text := value]> (string_map t)
  end.
Proof.
  intros Hwf Hb Hroom. split_and!.
  - apply wf_strings_new.
  - unfold strings_with_entry_count. by destruct (n =? 0).
  - intros other. exists (string_entry t other). split; [by apply find_string_spec|apply string_map_lookup].
  - rewrite string_map_lookup. destruct (wp_elim _ _ _ _ (insert_string_spec text value t Hwf Hroom))
      as [([] & t' & -> & Hwf' & Hnone & head & Hlen & Hst)|(e & t' & -> & -> & [[Hnil _]|[[x ->] ->]])]; [|done|done].
    rewrite Hnone. exists t'. split_and!; [done|done|by intros Hnil; apply Hb, length_zero_iff_nil; rewrite Hnil in Hlen|].
    apply map_eq. intros other. destruct (decide (text = other)) as [<-|Hne].
    + rewrite lookup_insert_eq, string_map_lookup. unfold string_entry in *. rewrite Hst, find_snoc, Hnone. cbn.
      by rewrite bool_decide_eq_true_2.
    + rewrite lookup_insert_ne, !string_map_lookup by done. unfold string_entry. rewrite Hst, find_snoc. cbn.
      rewrite bool_decide_eq_false_2 by done. by destruct (List.find _ _).
Qed.

Lemma string_table_refines_map_witness :
  exists t', insert_string (lit "c") 7 (tk_vocabulary sample_tokenizer) = Ret tt t' /\ string_map t' !! lit "c" = Some 7 /\
    insert_string (lit "b") 7 (tk_vocabulary sample_tokenizer) = Fails (Duplicate "string table entry") (tk_vocabulary sample_tokenizer).
Proof.
  assert (wf_strings (tk_vocabulary sample_tokenizer)) as Hwf by apply sample_tables.
  assert (st_buckets (tk_vocabulary sample_tokenizer) <> []) as Hb by (vm_compute; discriminate).
  assert (Z.of_nat (length (st_entries (tk_vocabulary sample_tokenizer))) < EMPTY_BUCKET) as Hroom by (vm_compute; reflexivity).
  assert (string_map (tk_vocabulary sample_tokenizer) !! lit "c" = None) as Hc by (rewrite string_map_lookup; vm_compute; reflexivity).
  assert (string_map (tk_vocabulary sample_tokenizer) !! lit "b" = Some 1) as Hdup by (rewrite string_map_lookup; vm_compute; reflexivity).
  destruct (string_table_refines_map 3 (tk_vocabulary sample_tokenizer) (lit "c") 7 Hwf Hb Hroom) as (_ & _ & H). rewrite Hc in H.
  destruct H as (t' & Ht' & _ & _ & Hmap). exists t'. split; [exact Ht'|]. split; [by rewrite Hmap, lookup_insert_eq|].
  destruct (string_table_refines_map 3 (tk_vocabulary sample_tokenizer) (lit "b") 7 Hwf Hb Hroom) as (_ & _ & H). by rewrite Hdup in H.
Defined.

(** ** Byte-pair encoding *)

(** C4. The heap-driven merge loop computes byte-pair encoding: from any workspace, whatever
    earlier pieces left in it, the tokens of a piece are those of its bytes after joining,
    again and again, the leftmost pair of least rank, until no rule applies.  It never overruns the heap or the
    symbol arrays; a byte without a token is reported as such, a piece longer than the
    workspace is refused, and there is no other failure. *)
Theorem merge_loop_is_bpe t text w :
  tokenizer_ok t -> workspace_ok w -> Forall byte text ->
  match encode_byte_level_piece_uncached t text w with
  | Ret token_ids w' => workspace_ok w' /\ exists symbols, mapM (byte_symbol t) text = Some symbols /\
      token_ids = bpe (tk_merge_pairs t) symbols /\ (forall k p, ~ pair_at (tk_merge_pairs t) token_ids k p)
  | Fails e w' => workspace_ok w' /\
      ((e = NotFound "byte token" /\ mapM (byte_symbol t) text = None) \/
       (e = CapacityExceeded /\ maximum_symbol_count w < Z.of_nat (length text)))
  | _ => False
  end.
Proof.
  intros Ht Hw Htext. pose proof (uncached_spec t Ht text w Hw Htext) as H. unfold wp in H.
  destruct (encode_byte_level_piece_uncached t text w) as [ids w'|e w'| |]; [| |done|done].
  - destruct H as [Hf Hp]. split; [by eapply frame_ok|]. unfold piece_tokens in Hp.
    destruct (mapM (byte_symbol t) text) as [symbols|]; [|done]. injection Hp as <-. exists symbols. split_and!; [done|done|intros k p; apply bpe_normal].
  - destruct H as [Hf He]. split; [by eapply frame_ok|]. unfold piece_tokens in He.
    destruct He as [[-> Hp]|?]; [left|by right]. by destruct (mapM (byte_symbol t) text).
Qed.

(** A workspace of three symbols with remains of earlier work. *)
Definition used_workspace : Workspace := mkWorkspace 3 [9; 9; 9] [0; 0; 0] [2; 2; 2] [5; 5; 5] [mkCandidate 0 0 0 0] 28 [] [] 0.

Lemma used_workspace_ok : workspace_ok used_workspace.
Proof. by split. Qed.

Lemma merge_loop_is_bpe_witness :
  match encode_byte_level_piece_uncached sample_tokenizer (lit "bab") used_workspace with
  | Ret token_ids w' => workspace_ok w' /\ token_ids = [1; 2]
  | _ => False
  end.
Proof.
  pose proof (merge_loop_is_bpe sample_tokenizer (lit "bab") used_workspace sample_ok used_workspace_ok
    ltac:(evaluates)) as H.
  assert (match encode_byte_level_piece_uncached sample_tokenizer (lit "bab") used_workspace with
          | Ret ids _ => bool_decide (ids = [1; 2]) | _ => false end = true) as Hrun by (vm_compute; reflexivity).
  destruct (encode_byte_level_piece_uncached sample_tokenizer (lit "bab") used_workspace); try discriminate Hrun.
  apply bool_decide_eq_true_1 in Hrun. split; [apply H|exact Hrun].
Defined.

(** ** Reused workspaces *)

(** The workspaces that one tokenizer's encodings leave behind, successful or not. *)
Inductive encoded_with (t : Tokenizer) : Workspace -> Prop :=
| encoded_new count w :
    0 < count <= MAX_SYMBOLS -> new_workspace count tt = Ret w tt -> encoded_with t w
| encoded_next w encoding text flags r s :
    encoded_with t w -> Forall byte text -> Z.of_nat (length text) + 1 <= MAX_SYMBOLS ->
    Z.land flags (u32_not ENCODE_KNOWN_FLAGS) = 0 -> 0 <= en_token_capacity encoding ->
    encode_with_workspace t text flags (mkEncodeState w encoding) = r ->
    r = Ret tt s \/ (exists e, r = Fails e s) -> encoded_with t (es_workspace s).

Lemma encoded_state t w encoding :
  tokenizer_ok t -> no_empty_special t -> encoded_with t w -> state_ok t (mkEncodeState w encoding).
Proof.
  intros Ht Hne Hw. revert encoding. induction Hw as [count w Hcount Hnew|w e text flags r s Hw IH Htext Hfit Hflags Hcap Hr Hret]; intros encoding.
  - pose proof (new_workspace_spec t count tt Hcount) as H. unfold wp in H. rewrite Hnew in H. by destruct H as (_ & ? & ? & _).
  - pose proof (encode_text_spec t Ht Hne flags text _ (IH e) Htext Hfit Hflags Hcap) as H. unfold wp in H. rewrite Hr in H.
    destruct Hret as [->|[er ->]]; destruct H as [[] _]; by split.
Qed.

(** C5. The tokens of a text depend on the tokenizer, the flags and the text alone: however
    many texts a workspace has encoded before with this tokenizer (and no other) and whatever
    its piece cache kept of them, the next encoding, by a tokenizer without empty special
    tokens, is that of the reference, cut at the capacity of its output with the
    rest counted as overflow and reported.  A text with an unmapped byte is refused, and
    there is no other failure. *)
Theorem encode_is_reference t w encoding text flags :
  tokenizer_ok t -> no_empty_special t -> encoded_with t w -> Forall byte text -> Z.of_nat (length text) + 1 <= MAX_SYMBOLS ->
  Z.land flags (u32_not ENCODE_KNOWN_FLAGS) = 0 -> 0 <= en_token_capacity encoding ->
  let capacity := en_token_capacity encoding in
  match encode_with_workspace t text flags (mkEncodeState w encoding), encode_tokens t flags text with
  | Ret _ s, Some token_ids => Z.of_nat (length token_ids) <= capacity /\ es_encoding s = mkEncoding token_ids capacity 0 0
  | Fails e s, Some token_ids => e = CapacityExceeded /\ capacity < Z.of_nat (length token_ids) /\
      es_encoding s = mkEncoding (take (Z.to_nat capacity) token_ids) capacity (Z.of_nat (length token_ids) - capacity) 0
  | Fails e _, None => e = NotFound "byte token"
  | _, _ => False
  end.
Proof.
  intros Ht Hne Hw Htext Hfit Hflags Hcap. cbv zeta.
  pose proof (encode_text_spec t Ht Hne flags text _ (encoded_state t w encoding Ht Hne Hw) Htext Hfit Hflags Hcap) as H. unfold wp in H.
  destruct (encode_with_workspace t text flags _) as [[] s|e s| |]; [| |done|done].
  - destruct H as (_ & ids & -> & Hlen & ->). cbn [es_encoding] in *. split; [done|]. unfold filled_encoding.
    rewrite take_ge, Z.max_l by lia. done.
  - destruct H as (_ & [(-> & -> & _)|(-> & ids & -> & Hlen & ->)]); [done|]. cbn [es_encoding] in *. split_and!; [done|done|].
    unfold filled_encoding. by rewrite Z.max_r by lia.
Qed.

Lemma encode_is_reference_witness : exists w s1 s2, new_workspace 4 tt = Ret w tt /\
  encode_with_workspace sample_tokenizer (lit "ab<s>a") 0 (mkEncodeState w unbounded_encoding) = Ret tt s1 /\
  encode_with_workspace sample_tokenizer (lit "ab<s>a") 0 (mkEncodeState (es_workspace s1) (encoding_with_capacity 2)) = Fails CapacityExceeded s2 /\
  es_encoding s1 = mkEncoding [2; 3; 0] U64_MAX 0 0 /\ es_encoding s2 = mkEncoding [2; 3] 2 1 0.
Proof.
  assert (Forall byte (lit "ab<s>a")) as Htext
    by evaluates.
  assert (Z.of_nat (length (lit "ab<s>a")) + 1 <= MAX_SYMBOLS) as Hfit by (vm_compute; discriminate).
  assert (encode_tokens sample_tokenizer 0 (lit "ab<s>a") = Some [2; 3; 0]) as Hids by (vm_compute; reflexivity).
  assert (0 <= en_token_capacity unbounded_encoding) as Hcap1 by (vm_compute; discriminate).
  assert (0 <= en_token_capacity (encoding_with_capacity 2)) as Hcap2 by (vm_compute; discriminate).
  assert (0 < 4 <= MAX_SYMBOLS) as Hcount by (change MAX_SYMBOLS with 1073741819; lia).
  pose proof (new_workspace_spec sample_tokenizer 4 tt Hcount) as Hw. apply wp_elim in Hw as [(w & [] & Hw & _)|(? & ? & _ & [])].
  pose proof (encoded_new sample_tokenizer 4 w Hcount Hw) as Hnew.
  pose proof (encode_is_reference sample_tokenizer w unbounded_encoding (lit "ab<s>a") 0 sample_ok sample_specials Hnew Htext Hfit eq_refl Hcap1) as H1.
  cbv zeta in H1. rewrite Hids in H1. destruct (encode_with_workspace _ _ _ _) as [[] s1|e s1| |] eqn:Hrun1 in H1; [| |destruct H1|destruct H1].
  2: { exfalso. destruct H1 as (_ & H1 & _). vm_compute in H1. discriminate H1. }
  pose proof (encoded_next sample_tokenizer w unbounded_encoding _ 0 _ s1 Hnew Htext Hfit eq_refl Hcap1 Hrun1 (or_introl eq_refl)) as Hnext.
  pose proof (encode_is_reference sample_tokenizer (es_workspace s1) (encoding_with_capacity 2) (lit "ab<s>a") 0 sample_ok sample_specials Hnext Htext Hfit eq_refl Hcap2) as H2.
  cbv zeta in H2. rewrite Hids in H2. destruct (encode_with_workspace _ _ _ (mkEncodeState (es_workspace s1) _)) as [[] s2|e s2| |] eqn:Hrun2 in H2; [| |destruct H2|destruct H2].
  { exfalso. destruct H2 as [H2 _]. vm_compute in H2. by apply H2. }
  destruct H2 as (-> & _ & He2). destruct H1 as [_ He1]. exists w, s1, s2.
  split; [exact Hw|]. split; [exact Hrun1|]. split; [exact Hrun2|]. split; [exact He1|exact He2].
Defined.

(** ** Round trips *)








(** The loader takes the largest id and the texts of [decode] from the vocabulary only: a
    special token listed among the added tokens alone is encoded to an id that cannot be
    decoded. *)
Lemma unlisted_special_not_decoded :
  encode sample_tokenizer (lit "<s>") 0 tt = Ret (mkEncoding [3] U64_MAX 0 0) tt /\
  exists e, decode sample_tokenizer [3] 0 tt = Fails e tt.
Proof. split; [vm_compute; reflexivity|]. eexists. vm_compute. reflexivity. Qed.

Lemma restored_decode t t' token_ids flags : restored t t' -> decode t' token_ids flags tt = decode t token_ids flags tt.
Proof.
  intros Hre. unfold decode, decode_with_capacity, token_id_is_special, decode_one_token, token_text.
  by rewrite (re_texts _ _ Hre), (re_maximum _ _ Hre), (re_specials _ _ Hre).
Qed.

(** C19. Saving a tokenizer loaded from a document as a compiled file and loading that file
    succeeds, and the result is indistinguishable from the original: it encodes every text
    to the same tokens or the same error, and decodes every token list alike. *)
Theorem compiled_file_roundtrip from_slice bytes document t :
  from_slice bytes = Some document -> document_fits document -> load_huggingface_json from_slice (Some bytes) tt = Ret t tt ->
  file_ok t -> no_empty_special t ->
  exists t', load_compiled_file (Some (compiled_file t)) tt = Ret t' tt /\
    (forall text flags, text_ok text -> Z.land flags (u32_not ENCODE_KNOWN_FLAGS) = 0 -> encode t' text flags tt = encode t text flags tt) /\
    (forall token_ids flags, decode t' token_ids flags tt = decode t token_ids flags tt).
Proof.
  intros Hparse Hfits Hload Hf Hne. destruct (loaded_tables _ _ _ _ Hparse Hfits Hload) as [Hta Hsorted].
  destruct (load_restored t Hta Hsorted Hf) as (t' & Hload' & Hre). exists t'. split_and!; [done| |intros; by apply restored_decode].
  intros text flags [Htext Hfit] Hflags.
  assert (no_empty_special t') as Hne' by (unfold no_empty_special; by rewrite (re_specials _ _ Hre)).
  assert (tokenizer_ok t') as Hok by (split; [rewrite (re_bytes _ _ Hre); apply Hta|apply (re_tables _ _ Hre)]).
  rewrite (encode_spec t' flags text tt Hok Hne' Htext Hfit Hflags), (restored_encode t t' Hre).
  by rewrite (encode_spec t flags text tt (tables_tokenizer t Hta) Hne Htext Hfit Hflags).
Qed.

Lemma sample_file : file_ok sample_tokenizer.
Proof.
  assert (Forall (fun e => Z.of_nat (length (default [] (se_text e))) <= U32_MAX) (st_entries (tk_vocabulary sample_tokenizer))) as Htexts
    by evaluates.
  split; [evaluates..| |evaluates|apply Forall_forall; evaluates|evaluates|apply Forall_forall; evaluates|evaluates].
  intros e text He Ht. rewrite Forall_forall in Htexts. specialize (Htexts e He). by rewrite Ht in Htexts.
Qed.

Lemma compiled_file_roundtrip_witness : exists t', load_compiled_file (Some (compiled_file sample_tokenizer)) tt = Ret t' tt /\
  encode t' (lit "ab") 0 tt = Ret (mkEncoding [2] U64_MAX 0 0) tt.
Proof.
  destruct (compiled_file_roundtrip sample_parser [] sample_document sample_tokenizer eq_refl sample_fits sample_loaded
    sample_file sample_specials) as (t' & Hload & Henc & _).
  assert (text_ok (lit "ab")) as [Htext Hfit].
  { split; [|vm_compute; discriminate]. evaluates. }
  exists t'. split; [exact Hload|]. rewrite (Henc (lit "ab") 0 (conj Htext Hfit) eq_refl).
  rewrite (encode_spec sample_tokenizer 0 (lit "ab") tt sample_ok sample_specials Htext Hfit eq_refl).
  replace (encode_tokens sample_tokenizer 0 (lit "ab")) with (Some [2]) by (vm_compute; reflexivity). reflexivity.
Defined.

(** ** Batches *)

(** C20. However many workers share a batch, the outcome is the same: the error of the first
    text, in order, that cannot be encoded or does not fit the stride; or a batch whose rows
    hold, for every text, exactly the tokens that encoding it alone gives. *)
Theorem batch_any_workers t flags stride texts :
  tokenizer_ok t -> no_empty_special t -> Z.land flags (u32_not ENCODE_KNOWN_FLAGS) = 0 -> 0 < stride ->
  texts <> [] -> Forall text_ok texts -> 4 * (Z.of_nat (length texts) * stride) <= ISIZE_MAX ->
  exists result, (forall workers, 0 <= workers -> encode_batch_with_workers t texts flags stride workers tt = result) /\
  match first_error t flags stride texts with
  | Some e => result = Fails e tt
  | None => exists batch, result = Ret batch tt /\ forall i text, texts !! i = Some text ->
      exists token_ids, encode t text flags tt = Ret (mkEncoding token_ids U64_MAX 0 0) tt /\
        tokens_of (E := TokenizerError) batch (Z.of_nat i) tt = Ret token_ids tt
  end.
Proof.
  intros Ht Hne Hflags Hstride Hnil Hall Hsize.
  assert (4 * stride <= ISIZE_MAX) as Hsmall by (destruct texts; [done|cbn [length] in Hsize; nia]).
  eexists. split.
  - intros workers Hworkers. exact (batch_spec t Ht Hne flags stride Hflags Hstride Hsmall texts workers Hnil Hall Hworkers Hsize).
  - destruct (first_error t flags stride texts) eqn:He; [done|].
    destruct (no_error_lists _ _ _ _ He) as (lists & Hlists & Hfit). rewrite Hlists. cbn [default from_option id]. eexists. split; [done|].
    intros i text Hi. assert (length lists = length texts) as Hlen by (symmetry; by eapply length_mapM).
    apply mapM_Some_1 in Hlists. destruct (Forall2_lookup_l _ _ _ _ _ Hlists Hi) as (ids & Hids & Hs).
    exists ids. destruct (Forall_lookup_1 _ _ _ _ Hall Hi) as [Htext Hsz]. split.
    + by rewrite (encode_spec t flags text tt Ht Hne Htext Hsz Hflags), Hs.
    + apply (batch_tokens stride Hstride Hsmall) with (lists := lists); [done|by rewrite Hlen|done].
Qed.

Lemma batch_any_workers_witness : exists batch,
  encode_batch_with_workers sample_tokenizer [lit "ab"; lit "b<s>"] 0 2 1 tt = Ret batch tt /\
  encode_batch_with_workers sample_tokenizer [lit "ab"; lit "b<s>"] 0 2 2 tt = Ret batch tt /\
  tokens_of (E := TokenizerError) batch 1 tt = Ret [1; 3] tt.
Proof.
  assert (Forall text_ok [lit "ab"; lit "b<s>"]) as Hall.
  { repeat apply List.Forall_cons; [| |apply List.Forall_nil]; (split; [|vm_compute; discriminate]);
      evaluates. }
  destruct (batch_any_workers sample_tokenizer 0 2 [lit "ab"; lit "b<s>"] sample_ok sample_specials eq_refl eq_refl
    ltac:(discriminate) Hall ltac:(vm_compute; discriminate)) as (result & Hany & Hres).
  replace (first_error sample_tokenizer 0 2 [lit "ab"; lit "b<s>"]) with (@None TokenizerError) in Hres by (vm_compute; reflexivity).
  destruct Hres as (batch & Hb & Htok). rewrite Hb in Hany. exists batch.
  split; [apply Hany; vm_compute; discriminate|]. split; [apply Hany; vm_compute; discriminate|].
  destruct (Htok 1%nat (lit "b<s>") eq_refl) as (ids & Henc & Hof). change (Z.of_nat 1) with 1 in Hof. rewrite Hof.
  apply List.Forall_inv_tail, List.Forall_inv in Hall. destruct Hall as [Htext Hfit].
  rewrite (encode_spec sample_tokenizer 0 (lit "b<s>") tt sample_ok sample_specials Htext Hfit eq_refl) in Henc.
  replace (encode_tokens sample_tokenizer 0 (lit "b<s>")) with (Some [1; 3]) in Henc by (vm_compute; reflexivity).
  injection Henc as <-. reflexivity.
Defined.

(** ** An empty special token *)

(** With an empty special token the scan never moves past the first position: no number of
    rounds is enough. *)
Lemma empty_special_never_ends t id rest text flags fuel s :
  tk_special_tokens t = mkSpecialToken [] id :: rest -> text <> [] ->
  has_flag flags ENCODE_FLAG_DISABLE_SPECIAL_TOKEN_MATCH = false ->
  loop fuel (scan_step t text flags) (0, 0) s = OutOfFuel.
Proof.
  intros Hspecial Htext Hflag. revert s. induction fuel as [|fuel IH]; intros s; [done|]. cbn [loop]. unfold bind at 1.
  assert (scan_step t text flags (0, 0) s = Ret (Continue (0, 0)) (s <| es_encoding := append_token id (es_encoding s) |>)) as ->; [|apply IH].
  destruct text as [|b text]; [done|]. unfold scan_step. destruct (Z.leb_spec (Z.of_nat (length (b :: text))) 0); [cbn in *; lia|].
  rewrite Hflag. unfold find_special_token_at. rewrite Hspecial. cbn [sp_text sp_token_id]. change (drop (Z.to_nat 0) (b :: text)) with (b :: text).
  destruct (Z.leb_spec (Z.of_nat (length (@nil Z))) (Z.of_nat (length (b :: text)))); [|cbn in *; lia].
  cbn [starts_with andb]. unfold bind, slice. destruct (Z.leb_spec 0 (Z.of_nat (length (b :: text)))); [|lia]. done.
Qed.
