(* ===== verification/ChatTemplate.v ===== *)
(** * Chat template ([crates/spark-text/src/chat_template.rs])

    The bounded writer that renders a prompt: every operation appends literal
    fragments and caller text, and fails as soon as one fragment would pass the
    capacity, keeping what was written before it.

    The operations are the source's, on the bytes of the text.  The theorem gives a
    rendering as the list of its fragments: all of them in order, or, when they do
    not fit, exactly those before the first that does not. *)

From Stdlib Require Import String.
From S2P Require Import Prelude Tokenizer.

Definition FLAG_ADD_GENERATION_PROMPT : Z := 1.

Definition FLAG_ENABLE_THINKING : Z := 2.

Definition KNOWN_FLAGS : Z := Z.lor FLAG_ADD_GENERATION_PROMPT FLAG_ENABLE_THINKING.

Definition TEMPLATE_PREFIX : list Z := lit "[gMASK]<sop>".

Definition TEMPLATE_REASONING : list Z := lit "<|system|>Reasoning Effort: ".

Definition TEMPLATE_SYSTEM : list Z := lit "<|system|>".

Definition TEMPLATE_USER : list Z := lit "<|user|>".

Definition TEMPLATE_ASSISTANT : list Z := lit "<|assistant|>".

Definition TEMPLATE_OBSERVATION : list Z := lit "<|observation|>".

Definition TEMPLATE_THINK : list Z := lit "<think>".

Definition TEMPLATE_EMPTY_THINK : list Z := lit "<think></think>".

Definition TEMPLATE_TOOL_RESPONSE : list Z := lit "<tool_response>".

Definition TEMPLATE_TOOL_RESPONSE_END : list Z := lit "</tool_response>".

Definition TEMPLATE_REASONING_HIGH : list Z := lit "High".

Definition TEMPLATE_REASONING_MAX : list Z := lit "Max".

Inductive ChatTemplateError := ChatInvalidArgument | ChatCapacityExceeded.

Inductive Role := System | User | Assistant | Tool.

Record ChatTemplateWriter := mkWriter {
  wr_text : list Z;
  wr_capacity : Z;
}.

#[export] Instance ChatTemplateWriter_eta : RecordEta ChatTemplateWriter := fun w => mkWriter (wr_text w) (wr_capacity w).

Abbreviation CM := (M ChatTemplateWriter ChatTemplateError).

Definition new_writer (capacity : Z) : ChatTemplateWriter := mkWriter [] capacity.

Definition append (text : list Z) : CM unit :=
  let! w := gets id in
  let next_bytes := Z.of_nat (length (wr_text w)) + Z.of_nat (length text) in
  if U64_MAX <? next_bytes then throw ChatCapacityExceeded else
  if wr_capacity w <? next_bytes then throw ChatCapacityExceeded else
  modify (fun w => w <| wr_text := wr_text w ++ text |>).

(** [reasoning_effort] as the match of [begin] reads it *)
Definition effort_of (reasoning_effort : option (list Z)) : list Z :=
  match reasoning_effort with
  | Some effort => if bool_decide (effort = lit "high") || bool_decide (effort = lit "High") then TEMPLATE_REASONING_HIGH else TEMPLATE_REASONING_MAX
  | None => TEMPLATE_REASONING_MAX
  end.

Definition begin (reasoning_effort : option (list Z)) (flags : Z) : CM unit :=
  if negb (Z.land flags (u32_not KNOWN_FLAGS) =? 0) then throw ChatInvalidArgument else
  let effort := effort_of reasoning_effort in
  do! append TEMPLATE_PREFIX in
  if Z.land flags FLAG_ENABLE_THINKING =? 0 then ret tt else
  do! append TEMPLATE_REASONING in
  append effort.

Definition begin_message (role : Role) : CM unit :=
  match role with
  | System => append TEMPLATE_SYSTEM
  | User => append TEMPLATE_USER
  | Assistant => do! append TEMPLATE_ASSISTANT in append TEMPLATE_EMPTY_THINK
  | Tool => do! append TEMPLATE_OBSERVATION in append TEMPLATE_TOOL_RESPONSE
  end.

Definition end_message (role : Role) : CM unit :=
  match role with
  | Tool => append TEMPLATE_TOOL_RESPONSE_END
  | _ => ret tt
  end.

Definition finish (flags : Z) : CM unit :=
  if negb (Z.land flags (u32_not KNOWN_FLAGS) =? 0) then throw ChatInvalidArgument else
  if Z.land flags FLAG_ADD_GENERATION_PROMPT =? 0 then ret tt else
  do! append TEMPLATE_ASSISTANT in
  if negb (Z.land flags FLAG_ENABLE_THINKING =? 0) then append TEMPLATE_THINK else append TEMPLATE_EMPTY_THINK.

Definition render_simple (prompt : list Z) (system_prompt reasoning_effort : option (list Z)) (flags : Z) : CM unit :=
  do! begin reasoning_effort flags in
  do! (match system_prompt with
       | Some system_prompt =>
           if negb (Z.of_nat (length system_prompt) =? 0)
           then do! begin_message System in append system_prompt else ret tt
       | None => ret tt
       end) in
  do! begin_message User in
  do! append prompt in
  finish flags.

(** ** Fragments *)

(** Fragments appended one after the other. *)
Fixpoint append_fragments (fragments : list (list Z)) : CM unit :=
  match fragments with
  | [] => ret tt
  | fragment :: rest => do! append fragment in append_fragments rest
  end.

Lemma append_fragments_app a b w : append_fragments (a ++ b) w = (do! append_fragments a in append_fragments b) w.
Proof.
  revert w. induction a as [|f a IH]; intros w; [done|]. cbn. unfold bind in *. destruct (append f w); [|done..]. apply IH.
Qed.

(** What the writer holds after the fragments, or before the first that does not fit. *)
Definition fragments_post (fragments : list (list Z)) (w : ChatTemplateWriter) (r : outcome ChatTemplateWriter ChatTemplateError unit) : Prop :=
  match r with
  | Ret _ w' => w' = mkWriter (wr_text w ++ concat fragments) (wr_capacity w) /\ Z.of_nat (length (wr_text w')) <= wr_capacity w
  | Fails e w' => e = ChatCapacityExceeded /\ exists written fragment rest, fragments = written ++ fragment :: rest /\
      w' = mkWriter (wr_text w ++ concat written) (wr_capacity w) /\ Z.of_nat (length (wr_text w')) <= wr_capacity w /\
      wr_capacity w < Z.of_nat (length (wr_text w')) + Z.of_nat (length fragment)
  | _ => False
  end.

Lemma append_fragments_spec fragments w :
  Z.of_nat (length (wr_text w)) <= wr_capacity w <= U64_MAX -> fragments_post fragments w (append_fragments fragments w).
Proof.
  revert w. induction fragments as [|f rest IH]; intros [text capacity] [Hlen Hmax]; cbn [wr_text wr_capacity] in *.
  { cbn. by rewrite app_nil_r. }
  cbn [append_fragments]. unfold bind at 1, append. unfold bind, gets, id. cbn [wr_text wr_capacity].
  destruct (Z.ltb_spec U64_MAX (Z.of_nat (length text) + Z.of_nat (length f))); [|destruct (Z.ltb_spec capacity (Z.of_nat (length text) + Z.of_nat (length f)))].
  1, 2: split; [done|]; exists [], f, rest; cbn; rewrite app_nil_r; split_and!; (done || lia).
  unfold modify. cbv beta. specialize (IH (mkWriter (text ++ f) capacity)). cbn [wr_text wr_capacity] in IH.
  rewrite length_app in IH. specialize (IH ltac:(lia)). cbn [wr_text].
  change ((mkWriter text capacity) <| wr_text := text ++ f |>) with (mkWriter (text ++ f) capacity).
  destruct (append_fragments rest _) as [[] w'|e w'| |]; [| |done|done]; cbn [fragments_post wr_text wr_capacity concat] in *.
  - destruct IH as [-> Hle]. cbn [wr_text] in *. by rewrite <- app_assoc in *.
  - destruct IH as (-> & written & g & rest' & -> & -> & Hle & Hover). split; [done|]. exists (f :: written), g, rest'. cbn in *.
    by rewrite <- app_assoc in *.
Qed.

(** ** Each operation as fragments *)

Definition begin_fragments (reasoning_effort : option (list Z)) (flags : Z) : list (list Z) :=
  TEMPLATE_PREFIX :: if has_flag flags FLAG_ENABLE_THINKING then [TEMPLATE_REASONING; effort_of reasoning_effort] else [].

Definition message_fragments (role : Role) : list (list Z) :=
  match role with
  | System => [TEMPLATE_SYSTEM]
  | User => [TEMPLATE_USER]
  | Assistant => [TEMPLATE_ASSISTANT; TEMPLATE_EMPTY_THINK]
  | Tool => [TEMPLATE_OBSERVATION; TEMPLATE_TOOL_RESPONSE]
  end.

Definition finish_fragments (flags : Z) : list (list Z) :=
  if has_flag flags FLAG_ADD_GENERATION_PROMPT
  then [TEMPLATE_ASSISTANT; if has_flag flags FLAG_ENABLE_THINKING then TEMPLATE_THINK else TEMPLATE_EMPTY_THINK] else [].

(** A system prompt that is absent or empty leaves no trace. *)
Definition system_fragments (system_prompt : option (list Z)) : list (list Z) :=
  match system_prompt with
  | Some (b :: text) => [TEMPLATE_SYSTEM; b :: text]
  | _ => []
  end.

Definition simple_fragments (prompt : list Z) (system_prompt reasoning_effort : option (list Z)) (flags : Z) : list (list Z) :=
  begin_fragments reasoning_effort flags ++ system_fragments system_prompt ++ [TEMPLATE_USER; prompt] ++ finish_fragments flags.

Lemma append_last f w : append f w = append_fragments [f] w.
Proof. cbn [append_fragments]. unfold bind at 1. by destruct (append f w) as [[] ?| | |]. Qed.

Lemma append_two f g w : (do! append f in append g) w = append_fragments [f; g] w.
Proof. cbn [append_fragments]. unfold bind at 1 2. destruct (append f w); [apply append_last|done..]. Qed.

Lemma bind_same {S E A B} (m m' : M S E A) (k k' : A -> M S E B) s :
  m s = m' s -> (forall a s', k a s' = k' a s') -> bind m k s = bind m' k' s.
Proof. intros Hm Hk. unfold bind. rewrite Hm. by destruct (m' s). Qed.

Section known.
Context (flags : Z) (Hflags : Z.land flags (u32_not KNOWN_FLAGS) = 0).

Lemma begin_appends reasoning_effort w : begin reasoning_effort flags w = append_fragments (begin_fragments reasoning_effort flags) w.
Proof.
  unfold begin, begin_fragments, has_flag. rewrite Hflags. cbn [Z.eqb negb append_fragments].
  unfold bind at 1 3. destruct (append TEMPLATE_PREFIX w); [|done..]. destruct (_ =? _); [done|]. apply append_two.
Qed.

Lemma finish_appends w : finish flags w = append_fragments (finish_fragments flags) w.
Proof.
  unfold finish, finish_fragments, has_flag. rewrite Hflags. cbn [Z.eqb negb]. destruct (Z.land flags FLAG_ADD_GENERATION_PROMPT =? 0); [done|].
  cbn [negb]. destruct (Z.land flags FLAG_ENABLE_THINKING =? 0); apply append_two.
Qed.

Lemma render_appends prompt system_prompt reasoning_effort w :
  render_simple prompt system_prompt reasoning_effort flags w =
    append_fragments (simple_fragments prompt system_prompt reasoning_effort flags) w.
Proof.
  unfold render_simple, simple_fragments. rewrite append_fragments_app. apply bind_same; [apply begin_appends|]. intros _ w1.
  rewrite append_fragments_app. apply bind_same.
  { destruct system_prompt as [[|b text]|]; [done| |done]. apply append_two. }
  intros _ w2. cbn [app append_fragments begin_message]. do 2 (apply bind_same; [done|]; intros _ ?). apply finish_appends.
Qed.
End known.

(** C37. Rendering a single-turn prompt writes the template's fragments in order: the
    prefix, the reasoning effort when thinking is on, the system prompt unless it is
    absent or empty, the user's prompt, and the opened answer when asked for.  The text
    never passes the capacity; when it would, the writer keeps all the fragments before
    the first that does not fit, whole, and reports the capacity. *)
Theorem render_simple_exact prompt system_prompt reasoning_effort flags capacity :
  Z.land flags (u32_not KNOWN_FLAGS) = 0 -> 0 <= capacity <= U64_MAX ->
  let fragments := simple_fragments prompt system_prompt reasoning_effort flags in
  match render_simple prompt system_prompt reasoning_effort flags (new_writer capacity) with
  | Ret _ w => wr_text w = concat fragments /\ Z.of_nat (length (wr_text w)) <= capacity
  | Fails e w => e = ChatCapacityExceeded /\ exists written fragment rest, fragments = written ++ fragment :: rest /\
      wr_text w = concat written /\ Z.of_nat (length (wr_text w)) <= capacity < Z.of_nat (length (wr_text w)) + Z.of_nat (length fragment)
  | _ => False
  end.
Proof.
  intros Hflags Hcap. cbv zeta. rewrite (render_appends flags Hflags).
  pose proof (append_fragments_spec (simple_fragments prompt system_prompt reasoning_effort flags) (new_writer capacity) Hcap) as H.
  unfold fragments_post in H. destruct (append_fragments _ _) as [[] w|e w| |]; [| |done|done]; cbn [new_writer wr_text wr_capacity app] in H.
  - by destruct H as [-> Hle].
  - destruct H as (-> & written & f & rest & Hsplit & -> & Hle & Hover). split; [done|]. by exists written, f, rest.
Qed.

Lemma render_simple_exact_witness :
  match render_simple (lit "hi") None (Some (lit "high")) 3 (new_writer 80) with
  | Ret _ w => wr_text w = lit "[gMASK]<sop><|system|>Reasoning Effort: High<|user|>hi<|assistant|><think>"
  | _ => False
  end.
Proof.
  pose proof (render_simple_exact (lit "hi") None (Some (lit "high")) 3 80 eq_refl ltac:(split; vm_compute; discriminate)) as H. cbv zeta in H.
  assert (match render_simple (lit "hi") None (Some (lit "high")) 3 (new_writer 80) with Ret _ _ => true | _ => false end = true) as Hrun
    by (vm_compute; reflexivity).
  destruct (render_simple _ _ _ _ _); try discriminate Hrun. destruct H as [H _]. rewrite H. vm_compute. reflexivity.
Defined.
