(* ===== verification/PromptPipeline.v ===== *)
(** * Prompt pipeline ([crates/spark-text/src/prompt_pipeline.rs])

    The loop that schedules a dispatch, stages its tokens and block table, runs the
    caller's kernel and completes or cancels the dispatch; and the submission of a text
    prompt.

    The request API and the tokenizer are traits of the source and are type classes
    here.  [W] is the world the calls act on: the implementer of [RequestApi] and what
    the two closures capture.  A method is a total function on it; a shared reference
    ([&self]) only reads it.  A borrowed slice keeps its length, which the classes state
    for the methods that write into one. *)

From S2P Require Import Prelude.

Definition RUN_FLAG_STOP_AFTER_FIRST_DECODE_DISPATCH : Z := 1.

Definition RUN_KNOWN_FLAGS : Z := RUN_FLAG_STOP_AFTER_FIRST_DECODE_DISPATCH.

Definition DEFAULT_MAX_DISPATCH_STEPS : Z := 4096.

Definition TOKENIZER_ENCODE_FLAG_DISABLE_SPECIAL_TOKEN_MATCH : Z := 1.

Definition TOKENIZER_ENCODE_FLAG_ADD_PREFIX_SPACE : Z := 2.

Definition TOKENIZER_ENCODE_FLAG_DISABLE_REGEX_PRETOKENIZATION : Z := 4.

Definition TOKENIZER_ENCODE_FLAG_DISABLE_PIECE_CACHE : Z := 8.

Definition TOKENIZER_ENCODE_KNOWN_FLAGS : Z :=
  Z.lor (Z.lor (Z.lor TOKENIZER_ENCODE_FLAG_DISABLE_SPECIAL_TOKEN_MATCH TOKENIZER_ENCODE_FLAG_ADD_PREFIX_SPACE)
    TOKENIZER_ENCODE_FLAG_DISABLE_REGEX_PRETOKENIZATION) TOKENIZER_ENCODE_FLAG_DISABLE_PIECE_CACHE.

Inductive PromptPipelineError :=
| InvalidArgument | CapacityExceeded | NotFound | IoError | ParseError | Busy | InternalError | Pending | Unsupported.

Inductive DispatchKind := DispatchNone | Prefill | DecodeBatch | PrefillBatch | SpeculativeVerifyBatch.

#[export] Instance DispatchKind_eq_dec : EqDecision DispatchKind.
Proof. solve_decision. Defined.

Record RequestDispatch := mkRequestDispatch {
  accepted : bool;
  kind : DispatchKind;
}.

Record PrefillDispatchView := mkPrefillView {
  pv_kind : DispatchKind;
  pv_active_sequence_count : Z;
  pv_prompt_token_offset : Z;
  pv_prompt_token_count : Z;
  pv_prompt_token_stride : Z;
  pv_lane_count : Z;
}.

Record KvBlockTableView := mkBlockTableView {
  bt_block_token_count : Z;
  bt_lane_count : Z;
  bt_lane_stride : Z;
  bt_lane_capacity : Z;
  bt_physical_block_indices : option (list Z);
  bt_lane_physical_block_counts : option (list Z);
  bt_host_physical_block_indices : list Z;
  bt_host_lane_physical_block_counts : list Z;
}.

Record PrefillDispatch := mkPrefillDispatch {
  pd_step_index : Z;
  pd_dispatch_kind : DispatchKind;
  pd_active_sequence_count : Z;
  pd_lane_count : Z;
  pd_prompt_token_offset : Z;
  pd_prompt_token_count : Z;
  pd_prompt_token_stride : Z;
  pd_host_token_stride : Z;
  pd_host_token_ids : list Z;
  pd_kv_block_table_view : KvBlockTableView;
}.

Record SubmitRequest := mkSubmitRequest {
  su_flags : Z;
  su_priority : Z;
  su_prompt_token_count : Z;
  su_thinking_token_budget : Z;
  su_output_token_budget : Z;
  su_max_prefill_tokens_per_step : Z;
  su_request_id : Z;
  su_sequence_id : Z;
  su_prompt_token_ids : list Z;
}.

Abbreviation result A := (PromptPipelineError + A)%type.

(** A method on the implementer's state. *)
Abbreviation call W A := (W -> result A * W).

Class RequestApi (W : Type) := {
  schedule_next : call W RequestDispatch;
  describe_prefill_dispatch : RequestDispatch -> W -> result PrefillDispatchView;
  copy_prefill_dispatch_token_ids : RequestDispatch -> list Z -> Z -> Z -> W -> result unit * list Z;
  build_dispatch_kv_block_table_view : RequestDispatch -> list Z -> option (list Z) -> Z -> Z -> list Z -> W ->
    result KvBlockTableView * (list Z * list Z);
  complete_dispatch : RequestDispatch -> call W unit;
  cancel_dispatch : RequestDispatch -> call W unit;
  submit : SubmitRequest -> call W Z;
  copy_length dispatch ids stride lanes w :
    length (snd (copy_prefill_dispatch_token_ids dispatch ids stride lanes w)) = length ids;
  build_lengths dispatch blocks execution stride lanes counts w :
    let '(blocks', counts') := snd (build_dispatch_kv_block_table_view dispatch blocks execution stride lanes counts w) in
    length blocks' = length blocks /\ length counts' = length counts;
}.

Record PromptPipelineConfiguration := mkConfiguration {
  run_flags : Z;
  max_dispatch_steps : Z;
  host_prefill_token_ids : list Z;
  host_prefill_token_stride : Z;
  host_prefill_lane_capacity : Z;
  host_physical_block_indices : list Z;
  execution_physical_block_indices : option (list Z);
  kv_block_lane_stride : Z;
  kv_block_lane_capacity : Z;
  lane_physical_block_counts : list Z;
  lane_count_capacity : Z;
}.

#[export] Instance PromptPipelineConfiguration_eta : RecordEta PromptPipelineConfiguration := fun c =>
  mkConfiguration (run_flags c) (max_dispatch_steps c) (host_prefill_token_ids c) (host_prefill_token_stride c)
    (host_prefill_lane_capacity c) (host_physical_block_indices c) (execution_physical_block_indices c) (kv_block_lane_stride c)
    (kv_block_lane_capacity c) (lane_physical_block_counts c) (lane_count_capacity c).

Record RunStats := mkRunStats {
  completed_dispatch_count : Z;
  prefill_dispatch_count : Z;
  decode_dispatch_count : Z;
  speculative_verify_dispatch_count : Z;
  prefill_token_count : Z;
  maximum_prefill_token_count : Z;
  maximum_prefill_lane_count : Z;
  last_dispatch_kind : DispatchKind;
  reached_decode_dispatch : bool;
}.

#[export] Instance RunStats_eta : RecordEta RunStats := fun s =>
  mkRunStats (completed_dispatch_count s) (prefill_dispatch_count s) (decode_dispatch_count s) (speculative_verify_dispatch_count s)
    (prefill_token_count s) (maximum_prefill_token_count s) (maximum_prefill_lane_count s) (last_dispatch_kind s) (reached_decode_dispatch s).

Definition default_stats : RunStats := mkRunStats 0 0 0 0 0 0 0 DispatchNone false.

(** [checked_mul] of two [u32] as [usize], and the comparison with a slice *)
Definition words_exceed (stride lanes : Z) (buffer : list Z) : bool :=
  (U64_MAX <? stride * lanes) || (Z.of_nat (length buffer) <? stride * lanes).

Definition validate_configuration (c : PromptPipelineConfiguration) : option PromptPipelineError :=
  if negb (Z.land (run_flags c) (u32_not RUN_KNOWN_FLAGS) =? 0)
     || (host_prefill_token_stride c =? 0)
     || (host_prefill_lane_capacity c =? 0)
     || (kv_block_lane_stride c =? 0)
     || (kv_block_lane_capacity c =? 0)
     || (kv_block_lane_stride c <? kv_block_lane_capacity c)
     || (lane_count_capacity c =? 0)
     || words_exceed (host_prefill_token_stride c) (host_prefill_lane_capacity c) (host_prefill_token_ids c)
     || words_exceed (kv_block_lane_stride c) (lane_count_capacity c) (host_physical_block_indices c)
     || (Z.of_nat (length (lane_physical_block_counts c)) <? lane_count_capacity c)
  then Some InvalidArgument else None.

Section pipeline.
Context {W : Type} `{!RequestApi W}.

(** What [run] borrows: the world, the configuration with its staging buffers, its local
    statistics, and the caller's statistics. *)
Record Pipeline := mkPipeline {
  pp_world : W;
  pp_configuration : PromptPipelineConfiguration;
  pp_local_stats : RunStats;
  pp_stats : RunStats;
}.

#[global] Instance Pipeline_eta : RecordEta Pipeline := fun p =>
  mkPipeline (pp_world p) (pp_configuration p) (pp_local_stats p) (pp_stats p).

Abbreviation PM := (M Pipeline PromptPipelineError).

Definition on_world {A} (m : call W A) : PM A := fun p =>
  let '(r, w) := m (pp_world p) in
  let p := p <| pp_world := w |> in
  match r with inl e => Fails e p | inr a => Ret a p end.

Definition on_stats (f : RunStats -> RunStats) : PM unit := modify (fun p => p <| pp_local_stats := f (pp_local_stats p) |>).

Definition of_result {A} (r : result A) : PM A := match r with inl e => throw e | inr a => ret a end.

(** The call that fills the token staging buffer *)
Definition stage_tokens (dispatch : RequestDispatch) : PM unit :=
  let! p := gets id in
  let c := pp_configuration p in
  let '(r, ids) := copy_prefill_dispatch_token_ids dispatch (host_prefill_token_ids c) (host_prefill_token_stride c)
    (host_prefill_lane_capacity c) (pp_world p) in
  do! modify (fun p => p <| pp_configuration := c <| host_prefill_token_ids := ids |> |>) in
  of_result r.

(** The call that fills the block staging buffers *)
Definition stage_blocks (dispatch : RequestDispatch) : PM KvBlockTableView :=
  let! p := gets id in
  let c := pp_configuration p in
  let '(r, (blocks, counts)) := build_dispatch_kv_block_table_view dispatch (host_physical_block_indices c)
    (execution_physical_block_indices c) (kv_block_lane_stride c) (kv_block_lane_capacity c) (lane_physical_block_counts c) (pp_world p) in
  do! modify (fun p => p <| pp_configuration :=
    c <| host_physical_block_indices := blocks |> <| lane_physical_block_counts := counts |> |>) in
  of_result r.

Definition invoke_prefill (prefill_function : PrefillDispatch -> call W unit) (dispatch : RequestDispatch) (step_index : Z) : PM unit :=
  let! p := gets id in
  let! prefill_view := of_result (describe_prefill_dispatch dispatch (pp_world p)) in
  let c := pp_configuration p in
  if (host_prefill_lane_capacity c <? pv_lane_count prefill_view)
     || (lane_count_capacity c <? pv_lane_count prefill_view)
     || (host_prefill_token_stride c <? pv_prompt_token_stride prefill_view)
  then throw CapacityExceeded else
  let host_token_stride := host_prefill_token_stride c in
  do! stage_tokens dispatch in
  let! block_table_view := stage_blocks dispatch in
  let! c := gets pp_configuration in
  let prefill_dispatch := mkPrefillDispatch step_index (kind dispatch) (pv_active_sequence_count prefill_view)
    (pv_lane_count prefill_view) (pv_prompt_token_offset prefill_view) (pv_prompt_token_count prefill_view)
    (pv_prompt_token_stride prefill_view) host_token_stride (host_prefill_token_ids c) block_table_view in
  do! on_world (prefill_function prefill_dispatch) in
  on_stats (fun s => s
    <| prefill_dispatch_count := prefill_dispatch_count s +u32 1 |>
    <| prefill_token_count := prefill_token_count s +u32 pv_prompt_token_count prefill_view |>
    <| maximum_prefill_token_count := Z.max (maximum_prefill_token_count s) (pv_prompt_token_count prefill_view) |>
    <| maximum_prefill_lane_count := Z.max (maximum_prefill_lane_count s) (pv_lane_count prefill_view) |>).

Definition invoke_decode (decode_function : RequestDispatch -> call W unit) (dispatch : RequestDispatch) : PM unit :=
  do! on_world (decode_function dispatch) in
  do! on_stats (fun s => if bool_decide (kind dispatch = SpeculativeVerifyBatch)
                         then s <| speculative_verify_dispatch_count := speculative_verify_dispatch_count s +u32 1 |>
                         else s <| decode_dispatch_count := decode_dispatch_count s +u32 1 |>) in
  on_stats (fun s => s <| reached_decode_dispatch := true |>).

(** [*stats = local_stats; return ..] *)
Definition publish : PM unit := modify (fun p => p <| pp_stats := pp_local_stats p |>).

Definition leave {A} (status : PromptPipelineError) : PM A := do! publish in throw status.

(** One round of the loop; [true] when the run is over *)
Definition run_step (prefill_function : PrefillDispatch -> call W unit) (decode_function : RequestDispatch -> call W unit)
    (step_index : Z) : PM (option unit) :=
  let! dispatch := catch (on_world schedule_next) leave in
  if negb (accepted dispatch) || bool_decide (kind dispatch = DispatchNone) then leave Busy else
  do! on_stats (fun s => s <| completed_dispatch_count := completed_dispatch_count s +u32 1 |>) in
  do! on_stats (fun s => s <| last_dispatch_kind := kind dispatch |>) in
  let invoke := match kind dispatch with
                | Prefill | PrefillBatch => invoke_prefill prefill_function dispatch step_index
                | DecodeBatch | SpeculativeVerifyBatch => invoke_decode decode_function dispatch
                | DispatchNone => throw InvalidArgument
                end in
  do! catch invoke (fun status => do! ignore (F := PromptPipelineError) (on_world (cancel_dispatch dispatch)) in leave status) in
  do! catch (on_world (complete_dispatch dispatch)) leave in
  let! p := gets id in
  if reached_decode_dispatch (pp_local_stats p) && has_flag (run_flags (pp_configuration p)) RUN_FLAG_STOP_AFTER_FIRST_DECODE_DISPATCH
  then do! publish in ret (Some tt) else ret None.

Definition dispatch_steps (c : PromptPipelineConfiguration) : Z :=
  if negb (max_dispatch_steps c =? 0) then max_dispatch_steps c else DEFAULT_MAX_DISPATCH_STEPS.

Definition run (prefill_function : PrefillDispatch -> call W unit) (decode_function : RequestDispatch -> call W unit) : PM unit :=
  let! p := gets id in
  match validate_configuration (pp_configuration p) with
  | Some e => throw e
  | None =>
      do! modify (fun p => p <| pp_local_stats := default_stats |>) in
      let! over := for_return (range 0 (dispatch_steps (pp_configuration p))) (run_step prefill_function decode_function) in
      match over with Some _ => ret tt | None => leave CapacityExceeded end
  end.
End pipeline.
Arguments Pipeline : clear implicits.
Arguments mkPipeline {W}.

(** ** Submitting a text prompt *)

Record PromptEncoding := mkPromptEncoding {
  token_count : Z;
  overflow_token_count : Z;
}.

Class TextPromptTokenizer (T : Type) := {
  encode_utf8 : T -> list Z -> Z -> list Z -> result PromptEncoding * list Z;
}.

Record TextPromptSubmitRequest := mkTextRequest {
  tr_request_flags : Z;
  tr_priority : Z;
  tr_thinking_token_budget : Z;
  tr_output_token_budget : Z;
  tr_max_prefill_tokens_per_step : Z;
  tr_request_id : Z;
  tr_sequence_id : Z;
  tr_prompt_text : list Z;
  tr_tokenizer_encode_flags : Z;
  tr_prompt_token_capacity : Z;
}.

Record TextPromptSubmitResult := mkTextResult {
  ts_prompt_token_count : Z;
  ts_required_prompt_token_count : Z;
  ts_prompt_token_ids : list Z;
  ts_request_handle : Z;
}.

Definition validate_submit_request (r : TextPromptSubmitRequest) : option PromptPipelineError :=
  if (tr_prompt_token_capacity r =? 0) || negb (Z.land (tr_tokenizer_encode_flags r) (u32_not TOKENIZER_ENCODE_KNOWN_FLAGS) =? 0)
  then Some InvalidArgument else None.

Section submission.
Context {W T : Type} `{!RequestApi W} `{!TextPromptTokenizer T}.

Definition call_world {A} (m : call W A) : M W PromptPipelineError A := fun w =>
  match m w with (inl e, w) => Fails e w | (inr a, w) => Ret a w end.

Definition submit_text_prompt (tokenizer : T) (request : TextPromptSubmitRequest) : M W PromptPipelineError TextPromptSubmitResult :=
  match validate_submit_request request with
  | Some e => throw e
  | None =>
      let '(r, token_ids) := encode_utf8 tokenizer (tr_prompt_text request) (tr_tokenizer_encode_flags request)
        (replicate (Z.to_nat (tr_prompt_token_capacity request)) 0) in
      match r with
      | inl e => throw e
      | inr encoding =>
          let prompt_token_count := token_count encoding in
          let required_prompt_token_count := token_count encoding +u32 overflow_token_count encoding in
          if required_prompt_token_count =? 0 then throw InvalidArgument else
          let token_ids := take (Z.to_nat prompt_token_count) token_ids in
          let submit_request := mkSubmitRequest (tr_request_flags request) (tr_priority request) required_prompt_token_count
            (tr_thinking_token_budget request) (tr_output_token_budget request) (tr_max_prefill_tokens_per_step request)
            (tr_request_id request) (tr_sequence_id request) token_ids in
          let! request_handle := call_world (submit submit_request) in
          ret (mkTextResult prompt_token_count required_prompt_token_count token_ids request_handle)
      end
  end.
End submission.
