(* ===== verification/PromptPipelineProps.v ===== *)
(** * What a pipeline run does ([crates/spark-text/src/prompt_pipeline.rs])

    [run] calls an unknown request API and unknown kernels.  Over an instrumented world,
    which records every call with its result and otherwise behaves alike
    ([traced_run_agrees]), the calls of a run follow a protocol ([protocol]): every
    dispatch the API offers is executed at most once and then completed or cancelled,
    before the next one is asked for. *)

From S2P Require Import Prelude PromptPipeline.

(** ** The instrumented world *)

Inductive Event :=
| EvSchedule (r : result RequestDispatch)
| EvPrefill (d : PrefillDispatch) (r : result unit)
| EvDecode (d : RequestDispatch) (r : result unit)
| EvComplete (d : RequestDispatch) (r : result unit)
| EvCancel (d : RequestDispatch) (r : result unit).

Abbreviation Traced W := (W * list Event)%type.

(** A call that is recorded. *)
Definition traced {W A} (event : result A -> Event) (m : call W A) : call (Traced W) A := fun '(w, trace) =>
  let '(r, w') := m w in (r, (w', trace ++ [event r])).

#[export] Program Instance traced_api {W} `{!RequestApi W} : RequestApi (Traced W) := {|
  schedule_next := traced EvSchedule schedule_next;
  describe_prefill_dispatch d w := describe_prefill_dispatch d (fst w);
  copy_prefill_dispatch_token_ids d ids stride lanes w := copy_prefill_dispatch_token_ids d ids stride lanes (fst w);
  build_dispatch_kv_block_table_view d blocks execution stride lanes counts w :=
    build_dispatch_kv_block_table_view d blocks execution stride lanes counts (fst w);
  complete_dispatch d := traced (EvComplete d) (complete_dispatch d);
  cancel_dispatch d := traced (EvCancel d) (cancel_dispatch d);
  submit r := fun '(w, trace) => let '(h, w') := submit r w in (h, (w', trace));
|}.
Next Obligation. intros. apply copy_length. Qed.
Next Obligation. intros. apply build_lengths. Qed.

Section traced_run.
Context {W : Type} `{!RequestApi W}.

Definition erase (p : Pipeline (Traced W)) : Pipeline W :=
  mkPipeline (fst (pp_world p)) (pp_configuration p) (pp_local_stats p) (pp_stats p).

Definition erase_outcome {A} (r : outcome (Pipeline (Traced W)) PromptPipelineError A) : outcome (Pipeline W) PromptPipelineError A :=
  match r with
  | Ret a p => Ret a (erase p)
  | Fails e p => Fails e (erase p)
  | Panic => Panic
  | OutOfFuel => OutOfFuel
  end.

(** Forgetting the trace before or after is the same. *)
Definition agrees {A} (m : M (Pipeline (Traced W)) PromptPipelineError A) (m' : M (Pipeline W) PromptPipelineError A) : Prop :=
  forall p, m' (erase p) = erase_outcome (m p).

Lemma agrees_ret {A} (a : A) : agrees (ret a) (ret a).
Proof. done. Qed.

Lemma agrees_throw {A} e : agrees (A := A) (throw e) (throw e).
Proof. done. Qed.

Lemma agrees_gets {A} (f : Pipeline (Traced W) -> A) f' : (forall p, f' (erase p) = f p) -> agrees (gets f) (gets f').
Proof. intros H p. unfold gets. cbn. by rewrite H. Qed.

Lemma agrees_modify f f' : (forall p, f' (erase p) = erase (f p)) -> agrees (modify f) (modify f').
Proof. intros H p. unfold modify. cbn. by rewrite H. Qed.

Lemma agrees_bind {A B} (m : M _ _ A) m' (k : A -> M _ _ B) k' :
  agrees m m' -> (forall a, agrees (k a) (k' a)) -> agrees (bind m k) (bind m' k').
Proof. intros Hm Hk p. unfold bind. rewrite Hm. destruct (m p); cbn; [apply Hk|done..]. Qed.

Lemma agrees_catch {A} (m : M _ _ A) m' h h' :
  agrees m m' -> (forall e, agrees (h e) (h' e)) -> agrees (catch m h) (catch m' h').
Proof. intros Hm Hk p. unfold catch. rewrite Hm. destruct (m p); cbn; [done|apply Hk|done..]. Qed.

Lemma agrees_ignore {A} (m : M _ _ A) m' :
  agrees m m' -> agrees (ignore (F := PromptPipelineError) m) (ignore (F := PromptPipelineError) m').
Proof. intros Hm p. unfold ignore. rewrite Hm. by destruct (m p). Qed.

Lemma agrees_on_world {A} event (m : call W A) : agrees (on_world (traced event m)) (on_world m).
Proof. intros [[w trace] c ls st]. unfold on_world. cbn. destruct (m w) as [[e|a] w']; done. Qed.

Lemma agrees_of_result {A} (r : result A) : agrees (of_result r) (of_result r).
Proof. by destruct r. Qed.

Lemma agrees_for_return {X A} (xs : list X) (body : X -> M _ _ (option A)) body' :
  (forall x, agrees (body x) (body' x)) -> agrees (for_return xs body) (for_return xs body').
Proof.
  intros H. induction xs as [|x xs IH]; cbn [for_return]; [apply agrees_ret|].
  apply agrees_bind; [done|]. intros [a|]; [apply agrees_ret|done].
Qed.

(** A read of the state, then a computation that only uses what erasing keeps. *)
Lemma agrees_read {A} (k : Pipeline (Traced W) -> M _ _ A) k' :
  (forall p, agrees (k p) (k' (erase p))) -> agrees (bind (gets id) k) (bind (gets id) k').
Proof. intros H p. unfold bind, gets, id. apply H. Qed.
End traced_run.

Create HintDb agrees.
#[export] Hint Resolve agrees_ret agrees_throw agrees_bind agrees_catch agrees_ignore agrees_on_world agrees_of_result
  agrees_for_return agrees_read : agrees.
#[export] Hint Extern 1 (agrees (modify _) (modify _)) => (apply agrees_modify; intros []; done) : agrees.
#[export] Hint Extern 1 (agrees (gets _) (gets _)) => (apply agrees_gets; intros []; done) : agrees.

Section agreement.
Context {W : Type} `{!RequestApi W}.
Context (prefill_function : PrefillDispatch -> call W unit) (decode_function : RequestDispatch -> call W unit).

Definition traced_prefill (d : PrefillDispatch) : call (Traced W) unit := traced (EvPrefill d) (prefill_function d).
Definition traced_decode (d : RequestDispatch) : call (Traced W) unit := traced (EvDecode d) (decode_function d).

Lemma agrees_prefill d i : agrees (invoke_prefill traced_prefill d i) (invoke_prefill prefill_function d i).
Proof.
  unfold invoke_prefill. apply agrees_read. intros p. cbn [erase pp_world pp_configuration]. apply agrees_bind; [apply agrees_of_result|].
  intros view. destruct (_ || _); [apply agrees_throw|]. cbv zeta. apply agrees_bind.
  { unfold stage_tokens. apply agrees_read. intros q. cbn [erase pp_world pp_configuration].
    change (copy_prefill_dispatch_token_ids d ?a ?b ?c (pp_world q)) with (copy_prefill_dispatch_token_ids d a b c (fst (pp_world q))).
    destruct (copy_prefill_dispatch_token_ids _ _ _ _ _) as [r ids]. auto with agrees. }
  intros _. apply agrees_bind.
  { unfold stage_blocks. apply agrees_read. intros q. cbn [erase pp_world pp_configuration].
    change (build_dispatch_kv_block_table_view d ?a ?b ?c ?e ?f (pp_world q)) with (build_dispatch_kv_block_table_view d a b c e f (fst (pp_world q))).
    destruct (build_dispatch_kv_block_table_view _ _ _ _ _ _ _) as [r [blocks counts]]. auto with agrees. }
  intros table. apply agrees_bind; [auto with agrees|]. intros c. apply agrees_bind; [apply agrees_on_world|]. unfold on_stats. auto with agrees.
Qed.

Lemma agrees_decode d : agrees (invoke_decode traced_decode d) (invoke_decode decode_function d).
Proof. unfold invoke_decode, on_stats. apply agrees_bind; [apply agrees_on_world|]. auto with agrees. Qed.

Lemma agrees_leave {A} e : agrees (W := W) (A := A) (leave e) (leave e).
Proof. unfold leave, publish. auto with agrees. Qed.

(** Recording the calls changes nothing else. *)
Lemma traced_run_agrees : agrees (run traced_prefill traced_decode) (run prefill_function decode_function).
Proof.
  unfold run. apply agrees_read. intros p. cbn [erase pp_configuration]. destruct (validate_configuration _); [apply agrees_throw|].
  apply agrees_bind; [auto with agrees|]. intros _. apply agrees_bind; [|intros [?|]; [apply agrees_ret|apply agrees_leave]].
  apply agrees_for_return. intros i. unfold run_step. apply agrees_bind; [apply agrees_catch; [apply agrees_on_world|intros; apply agrees_leave]|].
  intros d. destruct (_ || _); [apply agrees_leave|]. unfold on_stats. do 2 (apply agrees_bind; [auto with agrees|intros _]). cbv zeta.
  apply agrees_bind.
  { apply agrees_catch.
    - destruct (kind d); [apply agrees_throw|apply agrees_prefill|apply agrees_decode|apply agrees_prefill|apply agrees_decode].
    - intros e. apply agrees_bind; [apply agrees_ignore, agrees_on_world|]. intros _. apply agrees_leave. }
  intros _. apply agrees_bind; [apply agrees_catch; [apply agrees_on_world|intros; apply agrees_leave]|]. intros _.
  apply agrees_read. intros q. cbn [erase pp_local_stats pp_configuration]. destruct (_ && _); unfold publish; auto with agrees.
Qed.
End agreement.

(** ** The protocol *)

Definition is_prefill (d : RequestDispatch) : bool := bool_decide (kind d = Prefill \/ kind d = PrefillBatch).

Definition offered (d : RequestDispatch) : bool := accepted d && negb (bool_decide (kind d = DispatchNone)).

(** What a kernel is handed fits the staging buffers. *)
Record fits (c : PromptPipelineConfiguration) (d : RequestDispatch) (p : PrefillDispatch) : Prop := {
  fit_kind : pd_dispatch_kind p = kind d;
  fit_lanes : pd_lane_count p <= host_prefill_lane_capacity c /\ pd_lane_count p <= lane_count_capacity c;
  fit_stride : pd_prompt_token_stride p <= pd_host_token_stride p;
  fit_host : pd_host_token_stride p = host_prefill_token_stride c;
  fit_tokens : host_prefill_token_stride c * host_prefill_lane_capacity c <= Z.of_nat (length (pd_host_token_ids p));
}.

(** The kernel call of a dispatch; a prefill that cannot be staged has none. *)
Inductive work (c : PromptPipelineConfiguration) (d : RequestDispatch) : list Event -> result unit -> Prop :=
| work_prefill p r : is_prefill d = true -> fits c d p -> work c d [EvPrefill p r] r
| work_unstaged e : is_prefill d = true -> work c d [] (inl e)
| work_decode r : is_prefill d = false -> work c d [EvDecode d r] r.

Definition stops (c : PromptPipelineConfiguration) : bool := has_flag (run_flags c) RUN_FLAG_STOP_AFTER_FIRST_DECODE_DISPATCH.

(** The calls of a run of at most [n] rounds, and its result. *)
Inductive protocol (c : PromptPipelineConfiguration) : nat -> list Event -> result unit -> Prop :=
| pr_limit : protocol c 0 [] (inl CapacityExceeded)
| pr_unscheduled n e : protocol c (S n) [EvSchedule (inl e)] (inl e)
| pr_idle n d : offered d = false -> protocol c (S n) [EvSchedule (inr d)] (inl Busy)
| pr_cancelled n d evs e r : offered d = true -> work c d evs (inl e) ->
    protocol c (S n) (EvSchedule (inr d) :: evs ++ [EvCancel d r]) (inl e)
| pr_incomplete n d evs e : offered d = true -> work c d evs (inr tt) ->
    protocol c (S n) (EvSchedule (inr d) :: evs ++ [EvComplete d (inl e)]) (inl e)
| pr_stopped n d evs : offered d = true -> work c d evs (inr tt) -> is_prefill d = false -> stops c = true ->
    protocol c (S n) (EvSchedule (inr d) :: evs ++ [EvComplete d (inr tt)]) (inr tt)
| pr_next n d evs trace r : offered d = true -> work c d evs (inr tt) -> is_prefill d = true \/ stops c = false ->
    protocol c n trace r ->
    protocol c (S n) ((EvSchedule (inr d) :: evs ++ [EvComplete d (inr tt)]) ++ trace) r.

(** The statistics the calls add up to. *)
Definition count_event (s : RunStats) (ev : Event) : RunStats :=
  match ev with
  | EvSchedule (inr d) =>
      if offered d then s <| completed_dispatch_count := completed_dispatch_count s +u32 1 |> <| last_dispatch_kind := kind d |> else s
  | EvPrefill p (inr _) => s
      <| prefill_dispatch_count := prefill_dispatch_count s +u32 1 |>
      <| prefill_token_count := prefill_token_count s +u32 pd_prompt_token_count p |>
      <| maximum_prefill_token_count := Z.max (maximum_prefill_token_count s) (pd_prompt_token_count p) |>
      <| maximum_prefill_lane_count := Z.max (maximum_prefill_lane_count s) (pd_lane_count p) |>
  | EvDecode d (inr _) =>
      (if bool_decide (kind d = SpeculativeVerifyBatch)
       then s <| speculative_verify_dispatch_count := speculative_verify_dispatch_count s +u32 1 |>
       else s <| decode_dispatch_count := decode_dispatch_count s +u32 1 |>) <| reached_decode_dispatch := true |>
  | _ => s
  end.

Definition stats_of (trace : list Event) : RunStats := foldl count_event default_stats trace.

Lemma stats_of_app a b : stats_of (a ++ b) = foldl count_event (stats_of a) b.
Proof. apply foldl_app. Qed.

(** ** Balance *)

Definition is_offer (ev : Event) : bool := match ev with EvSchedule (inr d) => offered d | _ => false end.

Definition is_settlement (ev : Event) : bool := match ev with EvComplete _ _ | EvCancel _ _ => true | _ => false end.

Definition is_kernel (ev : Event) : bool := match ev with EvPrefill _ _ | EvDecode _ _ => true | _ => false end.

Definition count_if (f : Event -> bool) (trace : list Event) : nat := length (List.filter f trace).

Lemma count_if_app f a b : count_if f (a ++ b) = (count_if f a + count_if f b)%nat.
Proof. unfold count_if. by rewrite List.filter_app, length_app. Qed.

Lemma work_counts c d evs r : work c d evs r ->
  count_if is_offer evs = 0%nat /\ count_if is_settlement evs = 0%nat /\ (count_if is_kernel evs <= 1)%nat.
Proof. intros []; cbn; lia. Qed.

(** Every offered dispatch is settled once and executed at most once. *)
Lemma protocol_balanced c n trace r : protocol c n trace r ->
  count_if is_settlement trace = count_if is_offer trace /\ (count_if is_kernel trace <= count_if is_offer trace <= n)%nat.
Proof.
  induction 1 as [|n e|n d Hd|n d evs e r Hd Hw|n d evs e Hd Hw|n d evs Hd Hw _ _|n d evs trace r Hd Hw _ _ IH];
    try (cbn; rewrite ?Hd; cbn; lia);
    pose proof (work_counts _ _ _ _ Hw); cbn [app];
    change (EvSchedule (inr d) :: ?l) with ([EvSchedule (inr d)] ++ l); rewrite !count_if_app; unfold count_if in *; cbn; rewrite Hd; cbn; lia.
Qed.

(** ** The run follows the protocol *)

(** The staging buffers are rewritten in place, nothing else of a configuration changes. *)
Record same_shape (c c' : PromptPipelineConfiguration) : Prop := {
  sh_fields : exists ids blocks counts, c' = c <| host_prefill_token_ids := ids |> <| host_physical_block_indices := blocks |>
    <| lane_physical_block_counts := counts |>;
  sh_tokens : length (host_prefill_token_ids c') = length (host_prefill_token_ids c);
}.

Lemma restaged c ids blocks counts : length ids = length (host_prefill_token_ids c) ->
  same_shape c (c <| host_prefill_token_ids := ids |> <| host_physical_block_indices := blocks |> <| lane_physical_block_counts := counts |>).
Proof. intros H. split; [by do 3 eexists|done]. Qed.

#[export] Instance same_shape_refl : Reflexive same_shape.
Proof. intros []. split; [by do 3 eexists|done]. Qed.

#[export] Instance same_shape_trans : Transitive same_shape.
Proof.
  intros c1 c2 c3 [(i & b & k & H1) L1] [(i' & b' & k' & H2) L2]. split; [|congruence]. exists i', b', k'. by rewrite H2, H1.
Qed.

Section run.
Context {W : Type} `{!RequestApi W}.
Context (prefill_function : PrefillDispatch -> call W unit) (decode_function : RequestDispatch -> call W unit).
Context (c : PromptPipelineConfiguration) (Hvalid : validate_configuration c = None).

Abbreviation trace p := (snd (pp_world p)).

(** From [p] to [p'] the recorded calls are [evs]; [stats] says what the local statistics did. *)
Record took (p : Pipeline (Traced W)) (evs : list Event) (p' : Pipeline (Traced W)) : Prop := {
  tk_trace : trace p' = trace p ++ evs;
  tk_shape : same_shape c (pp_configuration p) -> same_shape c (pp_configuration p');
  tk_stats : pp_local_stats p' = foldl count_event (pp_local_stats p) evs;
}.

Lemma took_nil p : took p [] p.
Proof. by split; rewrite ?app_nil_r. Qed.

Lemma took_app p a p1 b p2 : took p a p1 -> took p1 b p2 -> took p (a ++ b) p2.
Proof. intros [T1 C1 S1] [T2 C2 S2]. split; [by rewrite T2, T1, app_assoc|auto|by rewrite S2, S1, foldl_app]. Qed.

Lemma wp_on_world {A} (event : result A -> Event) (m : call W A) (Q : A -> Pipeline (Traced W) -> Prop) R (p : Pipeline (Traced W)) :
  (forall r p', pp_world p' = (snd (m (fst (pp_world p))), trace p ++ [event r]) -> pp_configuration p' = pp_configuration p ->
     pp_local_stats p' = pp_local_stats p -> match r with inl e => R e p' | inr a => Q a p' end) ->
  wp (on_world (traced event m)) Q R p.
Proof.
  intros H. unfold wp, on_world, traced. destruct p as [[w tr] c' ls st]. cbn in *. destruct (m w) as [[e|a] w'].
  - by apply (H (inl e)).
  - by apply (H (inr a)).
Qed.

(** An event that leaves the statistics alone. *)
Lemma took_quiet p ev p' :
  trace p' = trace p ++ [ev] -> pp_configuration p' = pp_configuration p -> pp_local_stats p' = pp_local_stats p ->
  count_event (pp_local_stats p) ev = pp_local_stats p -> took p [ev] p'.
Proof. intros H1 H2 H3 H4. split; [done|by rewrite H2|by rewrite H3; cbn]. Qed.

Lemma stage_tokens_spec d p : wp (stage_tokens d) (fun _ p' => took p [] p' /\ pp_world p' = pp_world p) (fun _ p' => took p [] p') p.
Proof.
  unfold stage_tokens. wp_steps. change (id p) with p.
  destruct (copy_prefill_dispatch_token_ids _ _ _ _ _) as [r ids] eqn:Hcopy. wp_steps.
  assert (length ids = length (host_prefill_token_ids (pp_configuration p))) as Hlen
    by exact (eq_trans (f_equal (fun x => length (snd x)) (eq_sym Hcopy)) (copy_length d _ _ _ _)).
  assert (took p [] (p <| pp_configuration := (pp_configuration p) <| host_prefill_token_ids := ids |> |>)) as Htook.
  { split; cbn; [by rewrite app_nil_r| |done]. intros Hs. etransitivity; [exact Hs|]. by apply (restaged _ ids (host_physical_block_indices (pp_configuration p)) (lane_physical_block_counts (pp_configuration p))). }
  destruct r; cbn [of_result]; wp_steps; done.
Qed.

Lemma stage_blocks_spec d p : wp (stage_blocks d) (fun _ p' => took p [] p' /\ pp_world p' = pp_world p) (fun _ p' => took p [] p') p.
Proof.
  unfold stage_blocks. wp_steps. change (id p) with p.
  destruct (build_dispatch_kv_block_table_view _ _ _ _ _ _ _) as [r [blocks counts]]. wp_steps.
  assert (took p [] (p <| pp_configuration := (pp_configuration p) <| host_physical_block_indices := blocks |> <| lane_physical_block_counts := counts |> |>)) as Htook.
  { split; cbn; [by rewrite app_nil_r| |done]. intros Hs. etransitivity; [exact Hs|]. by apply (restaged _ (host_prefill_token_ids (pp_configuration p)) blocks counts). }
  destruct r; cbn [of_result]; wp_steps; done.
Qed.

Lemma valid_tokens : host_prefill_token_stride c * host_prefill_lane_capacity c <= Z.of_nat (length (host_prefill_token_ids c)).
Proof.
  revert Hvalid. unfold validate_configuration, words_exceed. destruct (_ || _) eqn:H; [done|]. intros _. rewrite !orb_false_iff in H.
  destruct H as [[[_ [_ H]] _] _]. by apply Z.ltb_ge in H.
Qed.

Lemma invoke_prefill_spec d i p :
  same_shape c (pp_configuration p) -> is_prefill d = true ->
  wp (invoke_prefill (traced_prefill prefill_function) d i)
    (fun _ p' => exists evs, work c d evs (inr tt) /\ took p evs p')
    (fun e p' => exists evs, work c d evs (inl e) /\ took p evs p') p.
Proof.
  intros Hs Hd. pose proof Hs as [(ids0 & blocks0 & counts0 & Hc) _]. unfold invoke_prefill. wp_steps. change (id p) with p.
  destruct (describe_prefill_dispatch _ _) as [e|view]; cbn [of_result]; wp_steps.
  { exists []. split; [by constructor|apply took_nil]. }
  destruct (_ || _) eqn:Hfit; wp_steps.
  { exists []. split; [by constructor|apply took_nil]. }
  rewrite !orb_false_iff, !Z.ltb_ge in Hfit. rewrite Hc in Hfit. cbn in Hfit.
  eapply wp_mono; [apply stage_tokens_spec| |]; cbn beta; [|intros e p1 Ht; exists []; split; [by constructor|done]].
  intros _ p1 [Ht1 Hw1]. wp_steps.
  eapply wp_mono; [apply stage_blocks_spec| |]; cbn beta;
    [|intros e p2 Ht2; exists []; split; [by constructor|by apply (took_app p [] p1 [])]].
  intros table p2 [Ht2 Hw2]. wp_steps. pose proof (took_app _ _ _ _ _ Ht1 Ht2) as Ht. cbn in Ht.
  destruct (tk_shape _ _ _ Ht Hs) as [(ids & blocks & counts & Hc2) Hl2].
  set (pd := mkPrefillDispatch _ _ _ _ _ _ _ _ _ _).
  assert (fits c d pd) as Hpd.
  { split; cbn; try done; [lia|rewrite Hc; cbn; lia|by rewrite Hc|]. rewrite Hl2. apply valid_tokens. }
  apply wp_on_world. intros [e|[]] p3 Hw3 Hc3 Hs3.
  - exists [EvPrefill pd (inl e)]. split; [by constructor|]. apply (took_app p [] p2 _ p3 Ht), took_quiet; [by rewrite Hw3|done..].
  - unfold on_stats. wp_steps. exists [EvPrefill pd (inr tt)]. split; [by constructor|].
    apply (took_app p [] p2 _ _ Ht). split; cbn; [by rewrite Hw3|by rewrite Hc3|by rewrite Hs3].
Qed.

Lemma invoke_decode_spec d p :
  is_prefill d = false ->
  wp (invoke_decode (traced_decode decode_function) d)
    (fun _ p' => exists evs, work c d evs (inr tt) /\ took p evs p')
    (fun e p' => exists evs, work c d evs (inl e) /\ took p evs p') p.
Proof.
  intros Hd. unfold invoke_decode. wp_steps. apply wp_on_world. intros [e|[]] p3 Hw3 Hc3 Hs3.
  - exists [EvDecode d (inl e)]. split; [by constructor|]. apply took_quiet; [by rewrite Hw3|done..].
  - unfold on_stats. wp_steps. exists [EvDecode d (inr tt)]. split; [by constructor|].
    split; cbn; [by rewrite Hw3|by rewrite Hc3|]. by rewrite Hs3.
Qed.

Lemma leave_spec {A} e (Q : A -> Pipeline (Traced W) -> Prop) (R : PromptPipelineError -> Pipeline (Traced W) -> Prop) p :
  R e (p <| pp_stats := pp_local_stats p |>) -> wp (leave e) Q R p.
Proof. intros H. unfold leave, publish. wp_steps. done. Qed.

Lemma took_publish p evs p' : took p evs p' -> took p evs (p' <| pp_stats := pp_local_stats p' |>).
Proof. intros []. by split. Qed.

Lemma work_reached d evs s : work c d evs (inr tt) ->
  reached_decode_dispatch (foldl count_event s evs) = if is_prefill d then reached_decode_dispatch s else true.
Proof. intros Hw. inversion Hw as [q r Hd _| |r Hd]; subst; rewrite Hd; cbn; [done|]. by destruct (bool_decide (kind d = SpeculativeVerifyBatch)). Qed.

(** A round that ends the run, and one that does not. *)
Definition step_post (p : Pipeline (Traced W)) (o : option unit) (p' : Pipeline (Traced W)) : Prop :=
  exists evs, took p evs p' /\
  match o with
  | Some _ => (forall n, protocol c (S n) evs (inr tt)) /\ pp_stats p' = pp_local_stats p'
  | None => (forall n tr r, protocol c n tr r -> protocol c (S n) (evs ++ tr) r) /\
            (stops c = true -> reached_decode_dispatch (pp_local_stats p') = false)
  end.

Definition step_error (p : Pipeline (Traced W)) (e : PromptPipelineError) (p' : Pipeline (Traced W)) : Prop :=
  exists evs, took p evs p' /\ (forall n, protocol c (S n) evs (inl e)) /\ pp_stats p' = pp_local_stats p'.

Lemma run_step_spec i p :
  same_shape c (pp_configuration p) -> (stops c = true -> reached_decode_dispatch (pp_local_stats p) = false) ->
  wp (run_step (traced_prefill prefill_function) (traced_decode decode_function) i) (step_post p) (step_error p) p.
Proof.
  intros Hs Hreach. unfold run_step. wp_steps. apply wp_on_world. intros [e|d] p1 Hw1 Hc1 Hl1.
  { apply leave_spec. exists [EvSchedule (inl e)]. split_and!; [|by constructor|done].
    apply took_publish, took_quiet; [by rewrite Hw1|done..]. }
  destruct (negb (accepted d) || _) eqn:Hoffer; [|wp_steps].
  { apply leave_spec. assert (offered d = false) as Hd by (unfold offered; by destruct (accepted d), (bool_decide (kind d = DispatchNone))).
    exists [EvSchedule (inr d)]. split_and!; [|by constructor|done].
    apply took_publish, took_quiet; [by rewrite Hw1|done..|]. cbn. by rewrite Hd. }
  assert (offered d = true) as Hd by (unfold offered; by destruct (accepted d), (bool_decide (kind d = DispatchNone))).
  unfold on_stats. wp_steps. match goal with |- wp _ _ _ ?q => set (p2 := q) end.
  assert (took p [EvSchedule (inr d)] p2) as Ht2.
  { split; subst p2; cbn; [by rewrite Hw1|by rewrite Hc1|by rewrite Hd, Hl1]. }
  clearbody p2. cbv zeta. wp_steps.
  eapply (wp_mono _ (fun _ p3 => exists evs, work c d evs (inr tt) /\ took p2 evs p3) _ (fun e p3 => exists evs, work c d evs (inl e) /\ took p2 evs p3)).
  { pose proof (tk_shape _ _ _ Ht2 Hs) as Hs2. unfold offered in Hd.
    destruct (kind d) eqn:Hk; [by rewrite andb_false_r in Hd|apply invoke_prefill_spec|apply invoke_decode_spec|apply invoke_prefill_spec|apply invoke_decode_spec];
      try done; unfold is_prefill; rewrite Hk; (by apply bool_decide_eq_true_2; auto) || (apply bool_decide_eq_false_2; by intros [?|?]). }
  2: { cbn beta. intros e p3 (evs & Hwork & Ht3). wp_steps. pose proof (took_app _ _ _ _ _ Ht2 Ht3) as Ht. apply wp_on_world.
    intros r p4 Hw4 Hc4 Hl4. assert (took p (EvSchedule (inr d) :: evs ++ [EvCancel d r]) p4) as Ht4.
    { apply (took_app _ (EvSchedule (inr d) :: evs) p3); [done|]. apply took_quiet; [by rewrite Hw4|done..]. }
    destruct r; apply leave_spec; (eexists; split_and!; [by apply took_publish|intros n; by constructor|done]). }
  cbn beta. intros _ p3 (evs & Hwork & Ht3). wp_steps. pose proof (took_app _ _ _ _ _ Ht2 Ht3) as Ht. apply wp_on_world.
  intros r p4 Hw4 Hc4 Hl4. assert (took p (EvSchedule (inr d) :: evs ++ [EvComplete d r]) p4) as Ht4.
  { apply (took_app _ (EvSchedule (inr d) :: evs) p3); [done|]. apply took_quiet; [by rewrite Hw4|done..]. }
  destruct r as [e|[]].
  { apply leave_spec. eexists. split_and!; [by apply took_publish|intros n; by constructor|done]. }
  wp_steps. change (id p4) with p4.
  assert (reached_decode_dispatch (pp_local_stats p4) = if is_prefill d then reached_decode_dispatch (pp_local_stats p) else true) as Hr4.
  { rewrite Hl4, (tk_stats _ _ _ Ht3), (work_reached d) by done. rewrite (tk_stats _ _ _ Ht2). cbn. by rewrite Hd. }
  destruct (tk_shape _ _ _ Ht4 Hs) as [(ids & blocks & counts & Hc) _]. rewrite Hr4.
  replace (has_flag (run_flags (pp_configuration p4)) RUN_FLAG_STOP_AFTER_FIRST_DECODE_DISPATCH) with (stops c) by (by rewrite Hc).
  destruct (is_prefill d || negb (stops c)) eqn:Hgo.
  - assert (is_prefill d = true \/ stops c = false) as Hgoes by (destruct (is_prefill d), (stops c); auto).
    replace (_ && stops c) with false.
    2: { destruct (stops c); [|by rewrite andb_false_r]. rewrite Hreach by done. by destruct Hgoes as [->|?]. }
    wp_steps. exists (EvSchedule (inr d) :: evs ++ [EvComplete d (inr tt)]). split_and!; [done|intros; by apply pr_next|].
    intros Hstop. rewrite Hr4. destruct Hgoes as [->|?]; [auto|congruence].
  - assert (is_prefill d = false /\ stops c = true) as [Hp Hstop] by (by destruct (is_prefill d), (stops c)).
    rewrite Hp, Hstop. cbn [andb]. unfold publish. wp_steps. exists (EvSchedule (inr d) :: evs ++ [EvComplete d (inr tt)]).
    split_and!; [by apply took_publish|intros n; by constructor|done].
Qed.

(** The whole run. *)
Lemma pipeline_run_spec stats0 stats w :
  wp (run (traced_prefill prefill_function) (traced_decode decode_function))
    (fun _ p => protocol c (Z.to_nat (dispatch_steps c)) (trace p) (inr tt) /\ pp_stats p = stats_of (trace p))
    (fun e p => protocol c (Z.to_nat (dispatch_steps c)) (trace p) (inl e) /\ pp_stats p = stats_of (trace p))
    (mkPipeline (w, []) c stats0 stats).
Proof.
  unfold run. wp_steps. unfold id. cbn [pp_configuration]. rewrite Hvalid. wp_steps.
  set (n := Z.to_nat (dispatch_steps c)).
  change (wp ?m ?Q ?R _) with (wp m Q R (mkPipeline (w, []) c default_stats stats)). set (p0 := mkPipeline _ _ _ _).
  assert (length (range 0 (dispatch_steps c)) = n) as Hn by (unfold range; rewrite length_seqZ; lia).
  apply (wp_for_return (fun pre p => took p0 (trace p) p /\ (stops c = true -> reached_decode_dispatch (pp_local_stats p) = false) /\
    forall m tr r, protocol c m tr r -> protocol c (length pre + m) (trace p ++ tr) r)).
  - split_and!; [|done|done]. by split.
  - intros pre i post p Hsplit (Ht & Hreach & Hpre).
    assert (same_shape c (pp_configuration p)) as Hs by (by apply (tk_shape _ _ _ Ht)).
    assert (n = length pre + S (length post))%nat as Hlen by (rewrite <- Hn, Hsplit, length_app; done).
    eapply wp_mono; [by apply run_step_spec| |].
    + cbn beta. intros [[]|] p' (evs & Ht' & Hpost); pose proof (took_app _ _ _ _ _ Ht Ht') as Htt; rewrite <- (tk_trace _ _ _ Ht') in Htt.
      * wp_steps. destruct Hpost as [Hpost Hst]. rewrite Hst. rewrite (tk_trace _ _ _ Ht') at 1. rewrite Hlen.
        split; [by apply Hpre|apply (tk_stats _ _ _ Htt)].
      * destruct Hpost as [Hpost Hr]. split_and!; [done|done|]. intros m tr r Hpr. rewrite (tk_trace _ _ _ Ht'), length_app, <- app_assoc, <- Nat.add_assoc.
        by apply Hpre, Hpost.
    + cbn beta. intros e p' (evs & Ht' & Hpost & Hst). pose proof (took_app _ _ _ _ _ Ht Ht') as Htt. rewrite <- (tk_trace _ _ _ Ht') in Htt.
      rewrite Hst. rewrite (tk_trace _ _ _ Ht') at 1. rewrite Hlen. split; [by apply Hpre|apply (tk_stats _ _ _ Htt)].
  - intros p (Ht & _ & Hpre). apply leave_spec. cbn [pp_world pp_stats]. rewrite (tk_stats _ _ _ Ht). split; [|done].
    specialize (Hpre 0%nat [] _ (pr_limit c)). by rewrite app_nil_r, Nat.add_0_r, Hn in Hpre.
Qed.
End run.

(** C27. Whatever the request API and the kernels answer, a run on a valid configuration
    returns within its step limit and its calls follow the protocol: it asks for one
    dispatch at a time, runs at most one kernel for it, a prefill kernel only on staged
    tokens that fit the buffers, and settles it before the next: completed when the
    kernel succeeded, cancelled when staging or the kernel failed, every offered dispatch
    exactly once.  It stops at the first error, with that error; at the first decode when
    asked to; else at the limit.  The reported statistics are those the calls add up to. *)
Theorem pipeline_protocol {W} `{!RequestApi W} prefill_function decode_function c w stats0 stats :
  validate_configuration c = None ->
  let steps := Z.to_nat (dispatch_steps c) in
  let follows (trace : list Event) (result : result unit) (p : Pipeline (Traced W)) :=
    protocol c steps trace result /\ count_if is_settlement trace = count_if is_offer trace /\
    (count_if is_kernel trace <= count_if is_offer trace <= steps)%nat /\ pp_stats p = stats_of trace in
  match run (traced_prefill prefill_function) (traced_decode decode_function) (mkPipeline (w, []) c stats0 stats) with
  | Ret _ p => run prefill_function decode_function (mkPipeline w c stats0 stats) = Ret tt (erase p) /\ follows (snd (pp_world p)) (inr tt) p
  | Fails e p => run prefill_function decode_function (mkPipeline w c stats0 stats) = Fails e (erase p) /\ follows (snd (pp_world p)) (inl e) p
  | _ => False
  end.
Proof.
  intros Hvalid. cbv zeta. pose proof (pipeline_run_spec prefill_function decode_function c Hvalid stats0 stats w) as H. unfold wp in H.
  pose proof (traced_run_agrees prefill_function decode_function (mkPipeline (w, []) c stats0 stats)) as Ha.
  change (erase (mkPipeline (w, []) c stats0 stats)) with (mkPipeline w c stats0 stats) in Ha.
  destruct (run (traced_prefill _) _ _) as [[] p|e p| |]; [| |done|done]; destruct H as [Hp Hst];
    destruct (protocol_balanced _ _ _ _ Hp) as (Hb & Hk & Hn); split_and!; done.
Qed.

(** A scripted API: the dispatches it will offer. *)
#[local] Program Instance script_api : RequestApi (list RequestDispatch) := {|
  schedule_next script := match script with [] => (inl Pending, []) | d :: rest => (inr d, rest) end;
  describe_prefill_dispatch d _ := inr (mkPrefillView (kind d) 1 0 3 4 1);
  copy_prefill_dispatch_token_ids _ ids _ _ _ := (inr tt, ids);
  build_dispatch_kv_block_table_view _ blocks execution stride lanes counts _ :=
    (inr (mkBlockTableView 16 1 stride lanes execution None blocks counts), (blocks, counts));
  complete_dispatch _ script := (inr tt, script);
  cancel_dispatch _ script := (inr tt, script);
  submit _ script := (inr 1, script);
|}.
Next Obligation. done. Qed.
Next Obligation. done. Qed.

Definition sample_configuration : PromptPipelineConfiguration :=
  mkConfiguration 1 0 (replicate 8 0) 4 2 (replicate 8 0) None 4 4 (replicate 2 0) 2.

Lemma pipeline_protocol_witness :
  let script := [mkRequestDispatch true Prefill; mkRequestDispatch true DecodeBatch; mkRequestDispatch true Prefill] in
  match run (fun _ s => (inr tt, s)) (fun _ s => (inr tt, s)) (mkPipeline script sample_configuration default_stats default_stats) with
  | Ret _ p => pp_world p = [mkRequestDispatch true Prefill] /\ pp_stats p = mkRunStats 2 1 1 0 3 3 1 DecodeBatch true
  | _ => False
  end.
Proof.
  cbv zeta. set (script := _ :: _).
  pose proof (pipeline_protocol (W := list RequestDispatch) (fun _ s => (inr tt, s)) (fun _ s => (inr tt, s))
    sample_configuration script default_stats default_stats eq_refl) as H. cbv zeta in H.
  assert (match run (traced_prefill (fun _ s => (inr tt, s))) (traced_decode (fun _ s => (inr tt, s)))
            (mkPipeline (script, []) sample_configuration default_stats default_stats) with
          | Ret _ p => fst (pp_world p) = [mkRequestDispatch true Prefill] /\ stats_of (snd (pp_world p)) = mkRunStats 2 1 1 0 3 3 1 DecodeBatch true
          | _ => False end) as Hrun by (vm_compute; done).
  destruct (run (traced_prefill _) _ _) as [[] p|e p| |]; try destruct Hrun as [].
  destruct H as (-> & _ & _ & _ & Hst). cbn [erase pp_world pp_stats]. rewrite Hst. done.
Defined.

(** A dispatch that was cancelled is counted as completed. *)
Lemma cancelled_counts_as_completed d r :
  offered d = true -> completed_dispatch_count (stats_of [EvSchedule (inr d); EvCancel d r]) = 1.
Proof. intros Hd. cbn. by rewrite Hd. Qed.

(** ** Submitting a text prompt *)

(** What the trait asks of a tokenizer: the tokens that fit the buffer, and both counts. *)
Definition encodes_as {T} `{!TextPromptTokenizer T} (tokenizer : T) (reference : list Z -> Z -> result (list Z)) : Prop :=
  forall text flags buffer,
    encode_utf8 tokenizer text flags buffer =
      match reference text flags with
      | inl e => (inl e, buffer)
      | inr ids => let n := Nat.min (length ids) (length buffer) in
                   (inr (mkPromptEncoding (Z.of_nat n) (Z.of_nat (length ids - n))), take n ids ++ drop n buffer)
      end.

(** The request that is submitted carries the tokens that fit and the number of all of them;
    a prompt of no tokens is refused and the API is not called. *)
Lemma submit_text_prompt_exact {W T} `{!RequestApi W} `{!TextPromptTokenizer T} (tokenizer : T) reference request ids w :
  encodes_as tokenizer reference -> validate_submit_request request = None ->
  reference (tr_prompt_text request) (tr_tokenizer_encode_flags request) = inr ids ->
  Z.of_nat (length ids) <= U32_MAX ->
  submit_text_prompt tokenizer request w =
    if bool_decide (ids = []) then Fails InvalidArgument w else
    let fitting := take (Z.to_nat (tr_prompt_token_capacity request)) ids in
    match submit (mkSubmitRequest (tr_request_flags request) (tr_priority request) (Z.of_nat (length ids))
            (tr_thinking_token_budget request) (tr_output_token_budget request) (tr_max_prefill_tokens_per_step request)
            (tr_request_id request) (tr_sequence_id request) fitting) w with
    | (inl e, w') => Fails e w'
    | (inr handle, w') => Ret (mkTextResult (Z.of_nat (length fitting)) (Z.of_nat (length ids)) fitting handle) w'
    end.
Proof.
  intros Henc Hvalid Href Hlen. unfold submit_text_prompt. rewrite Hvalid, Henc, Href. cbv zeta. cbn [token_count overflow_token_count].
  rewrite length_replicate. set (cap := Z.to_nat (tr_prompt_token_capacity request)). set (n := Nat.min (length ids) cap).
  replace (Z.of_nat n +u32 Z.of_nat (length ids - n)) with (Z.of_nat (length ids)) by (rewrite u32_small by lia; lia).
  rewrite Nat2Z.id. rewrite take_app_le by (rewrite length_take; lia). rewrite take_take, Nat.min_id.
  assert (take n ids = take cap ids) as -> by (subst n; rewrite <- (take_ge ids (length ids)) at 3 by lia; by rewrite take_take, Nat.min_comm).
  assert (n = length (take cap ids)) as -> by (rewrite length_take; lia).
  case_bool_decide as Hnil; [subst ids; done|]. destruct (Z.eqb_spec (Z.of_nat (length ids)) 0); [destruct ids; [done|cbn in *; lia]|].
  unfold bind, call_world. destruct (submit _ w) as [[e|h] w']; done.
Qed.

(** A tokenizer with one token per byte. *)
#[local] Instance byte_tokenizer : TextPromptTokenizer unit := {|
  encode_utf8 _ text _ buffer := let n := Nat.min (length text) (length buffer) in
    (inr (mkPromptEncoding (Z.of_nat n) (Z.of_nat (length text - n))), take n text ++ drop n buffer) |}.

Lemma byte_tokenizer_encodes : encodes_as tt (fun text _ => inr text).
Proof. by intros text flags buffer. Qed.
