(* ===== verification/RequestTable.v ===== *)
(** * Request table ([crates/spark-serve/src/request_api/mod.rs] and [slot.rs])

    The request API keeps every request in a slot.  Free slots are on an intrusive free
    list; the others are found through a hash of their handle, whose buckets chain the
    slots by index.  [submit] takes a slot, [finish_request_generation] and
    [cancel_request] end a request, [release_completed_request] gives the slot back.
    The scheduler, with the prefix cache in it, belongs to the API: ending a request
    releases its sequence there.

    The record holds the fields these operations read or write.  The statistics that
    only the dispatch code counts ([dispatch.rs], [prefetch.rs], [speculation.rs]) and the
    prefetch backend's state are left out; of the backend, [new] only asks whether there
    is one.  The model speculator is a trait of the source and a type class here, with
    the methods these operations call. *)

From S2P Require Import Prelude FreeList StagePlan KvArena PrefixCache RowAllocator Scheduler.
From S2P Require WorkControl.

Definition INVALID_HANDLE : Z := 0.

Definition DEFAULT_PREFETCH_LOOKAHEAD_REQUEST_COUNT : Z := 64.

Definition MAX_PREFETCH_LANE_COUNT : Z := 13.

Definition DEFAULT_PREFETCH_LANE_COUNT : Z := MAX_PREFETCH_LANE_COUNT.

Definition MAX_DISPATCH_REQUEST_COUNT : Z := MAX_BATCH_BUCKET.

Definition CONFIGURATION_FLAG_JIT_KV_PREFETCH : Z := 0x1.

Definition CONFIGURATION_FLAG_DECODE_BATCHING : Z := 0x2.

Definition CONFIGURATION_FLAG_PREFIX_COHORTING : Z := 0x4.

Definition CONFIGURATION_FLAG_PREFILL_BATCHING : Z := 0x8.

Definition CONFIGURATION_FLAG_ASYNC_JIT_KV_PREFETCH : Z := 0x10.

Definition CONFIGURATION_FLAG_QUEUE_AWARE_PREFIX_CACHE_EVICTION : Z := 0x20.

Definition CONFIGURATION_FLAG_DSPARK_SPECULATIVE_DECODE : Z := 0x40.

Definition CONFIGURATION_FLAG_MTP_COMMIT : Z := 0x80.

Definition CONFIGURATION_FLAG_ADAPTIVE_PIPELINE_BATCHING : Z := 0x100.

Definition CONFIGURATION_FLAG_MTP_FORCE_ENABLE : Z := 0x200.

Definition CONFIGURATION_FLAG_PREFER_DSPARK_SPECULATION : Z := 0x800.

Definition API_CONFIGURATION_DEFAULT_FLAGS : Z :=
  Z.lor (Z.lor (Z.lor (Z.lor CONFIGURATION_FLAG_JIT_KV_PREFETCH CONFIGURATION_FLAG_DECODE_BATCHING) CONFIGURATION_FLAG_PREFIX_COHORTING)
    CONFIGURATION_FLAG_PREFILL_BATCHING) CONFIGURATION_FLAG_QUEUE_AWARE_PREFIX_CACHE_EVICTION.

Definition API_CONFIGURATION_KNOWN_FLAGS : Z :=
  Z.lor (Z.lor (Z.lor (Z.lor (Z.lor (Z.lor API_CONFIGURATION_DEFAULT_FLAGS CONFIGURATION_FLAG_ASYNC_JIT_KV_PREFETCH)
    CONFIGURATION_FLAG_DSPARK_SPECULATIVE_DECODE) CONFIGURATION_FLAG_MTP_COMMIT) CONFIGURATION_FLAG_MTP_FORCE_ENABLE)
    CONFIGURATION_FLAG_ADAPTIVE_PIPELINE_BATCHING) CONFIGURATION_FLAG_PREFER_DSPARK_SPECULATION.

Definition MTP_MAX_DRAFT_TOKEN_COUNT : Z := 8.

Definition MTP_INITIAL_DRAFT_TOKEN_COUNT : Z := WorkControl.mtp_tree.CANDIDATE_COUNT.

Definition MTP_COMMIT_EMA_INITIAL_MILLI : Z := 2900.

Definition PREFILL_INFLIGHT_WAVE_LIMIT : Z := 12.

Definition SLOT_HASH_SLOTS : Z := 4096.

Definition NO_SLOT : Z := U32_MAX.

Definition MAX_SPECULATIVE_TOKENS : Z := 7.

Definition STATE_FREE : Z := 0.

Definition STATE_QUEUED_PREFILL : Z := 1.

Definition STATE_RUNNING_PREFILL : Z := 2.

Definition STATE_READY_DECODE : Z := 3.

Definition STATE_RUNNING_DECODE : Z := 4.

Definition STATE_COMPLETED : Z := 5.

Definition STATE_CANCELLED : Z := 6.

Definition STATE_WAITING_PREFIX_COHORT : Z := 7.

Definition STATE_READY_SPECULATIVE_VERIFY : Z := 8.

Definition STATE_RUNNING_SPECULATIVE_VERIFY : Z := 9.

Definition REQUEST_FLAG_REALTIME : Z := 1.

Definition REQUEST_FLAG_DISABLE_SPECULATION : Z := 2.

Definition REQUEST_KNOWN_FLAGS : Z := Z.lor REQUEST_FLAG_REALTIME REQUEST_FLAG_DISABLE_SPECULATION.

Definition DEFAULT_PRIORITY : Z := 1000000.

Definition REALTIME_PRIORITY : Z := 4000000000.

Inductive RequestApiError :=
| ApiInvalidArgument | ApiCapacityExceeded | ApiNotFound | ApiBusy | ApiInternalError | ApiModuleNotValidated | ApiHashMismatch.

#[export] Instance RequestApiError_eq_dec : EqDecision RequestApiError.
Proof. solve_decision. Defined.

Definition api_from_scheduler_error (e : SchedulerError) : RequestApiError :=
  match e with
  | Scheduler.InvalidArgument => ApiInvalidArgument
  | Scheduler.CapacityExceeded => ApiCapacityExceeded
  | Scheduler.NotFound => ApiNotFound
  | Scheduler.Busy => ApiBusy
  | Scheduler.Duplicate => ApiInvalidArgument
  | Scheduler.ModuleNotValidated => ApiModuleNotValidated
  | Scheduler.InternalError => ApiInternalError
  end.

Definition api_from_cache_error (e : PrefixCacheError) : RequestApiError :=
  match e with
  | PrefixCache.InvalidArgument => ApiInvalidArgument
  | PrefixCache.CapacityExceeded => ApiCapacityExceeded
  | PrefixCache.NotFound => ApiNotFound
  | PrefixCache.Busy => ApiBusy
  | PrefixCache.Duplicate => ApiInvalidArgument
  | PrefixCache.ModuleNotValidated => ApiModuleNotValidated
  | PrefixCache.InternalError => ApiInternalError
  end.

Record SubmitRequest := mkSubmit {
  sm_flags : Z;
  sm_priority : Z;
  sm_prompt_token_count : Z;
  sm_thinking_token_budget : Z;
  sm_output_token_budget : Z;
  sm_max_prefill_tokens_per_step : Z;
  sm_request_id : Z;
  sm_sequence_id : Z;
  sm_prompt_token_ids : list Z;
}.

Record Slot := mkSlot {
  rs_state : Z;
  rs_flags : Z;
  rs_priority : Z;
  rs_prompt_token_count : Z;
  rs_computed_prompt_token_count : Z;
  rs_dispatched_prompt_token_count : Z;
  rs_inflight_prefill_dispatch_count : Z;
  rs_scheduled_prefill_step_count : Z;
  rs_completed_prefill_step_count : Z;
  rs_max_prefill_tokens_per_step : Z;
  rs_thinking_token_budget : Z;
  rs_output_token_budget : Z;
  rs_remaining_thinking_token_budget : Z;
  rs_remaining_output_token_budget : Z;
  rs_scheduled_decode_token_count : Z;
  rs_completed_decode_token_count : Z;
  rs_last_committed_prefix_token_count : Z;
  rs_prefix_scan_hashed_token_count : Z;
  rs_prefix_scan_hash : Z;
  rs_last_committed_prefix_hash : Z;
  rs_request_id : Z;
  rs_sequence_id : Z;
  rs_committed_prefix_hash : Z;
  rs_handle : Z;
  rs_submission_order : Z;
  rs_handle_hash_next : Z;
  rs_free_slot_next : Z;
  rs_prompt_token_ids : list Z;
  rs_mtp_draft_token_count : Z;
  rs_mtp_next_draft_token_budget : Z;
  rs_mtp_commit_ema_milli : Z;
  rs_mtp_probe_countdown : Z;
  rs_mtp_resolution_base_position : Z;
  rs_mtp_resolution_proposed_token_count : Z;
  rs_mtp_resolution_accepted_token_count : Z;
  rs_mtp_resolution_committed_token_count : Z;
  rs_mtp_resolution_path_id : Z;
  rs_mtp_draft_token_ids : list Z;
}.

#[export] Instance Slot_eta : RecordEta Slot := fun s =>
  mkSlot (rs_state s) (rs_flags s) (rs_priority s) (rs_prompt_token_count s) (rs_computed_prompt_token_count s)
    (rs_dispatched_prompt_token_count s) (rs_inflight_prefill_dispatch_count s) (rs_scheduled_prefill_step_count s)
    (rs_completed_prefill_step_count s) (rs_max_prefill_tokens_per_step s) (rs_thinking_token_budget s) (rs_output_token_budget s)
    (rs_remaining_thinking_token_budget s) (rs_remaining_output_token_budget s) (rs_scheduled_decode_token_count s)
    (rs_completed_decode_token_count s) (rs_last_committed_prefix_token_count s) (rs_prefix_scan_hashed_token_count s)
    (rs_prefix_scan_hash s) (rs_last_committed_prefix_hash s) (rs_request_id s) (rs_sequence_id s) (rs_committed_prefix_hash s)
    (rs_handle s) (rs_submission_order s) (rs_handle_hash_next s) (rs_free_slot_next s) (rs_prompt_token_ids s)
    (rs_mtp_draft_token_count s) (rs_mtp_next_draft_token_budget s) (rs_mtp_commit_ema_milli s) (rs_mtp_probe_countdown s)
    (rs_mtp_resolution_base_position s) (rs_mtp_resolution_proposed_token_count s) (rs_mtp_resolution_accepted_token_count s)
    (rs_mtp_resolution_committed_token_count s) (rs_mtp_resolution_path_id s) (rs_mtp_draft_token_ids s).

(** [Slot::free] *)
Definition free_slot : Slot :=
  mkSlot STATE_FREE 0 0 0 0 0 0 0 0 0 0 0 0 0 0 0 0 0 0 0 0 0 0 INVALID_HANDLE 0 NO_SLOT NO_SLOT []
    0 0 MTP_COMMIT_EMA_INITIAL_MILLI 0 0 0 0 0 0 (replicate (Z.to_nat MTP_MAX_DRAFT_TOKEN_COUNT) 0).

(** ** Slot predicates *)

Definition has_budget (s : Slot) : bool :=
  negb (rs_remaining_thinking_token_budget s =? 0) || negb (rs_remaining_output_token_budget s =? 0).

Definition is_ready_for_dispatch (s : Slot) : bool :=
  if rs_state s =? STATE_QUEUED_PREFILL then true
  else ((rs_state s =? STATE_READY_DECODE) || (rs_state s =? STATE_READY_SPECULATIVE_VERIFY)) && has_budget s.

Definition is_active (s : Slot) : bool :=
  negb (rs_state s =? STATE_FREE) && negb (rs_state s =? STATE_COMPLETED) && negb (rs_state s =? STATE_CANCELLED).

Definition is_schedulable_prefill (s : Slot) : bool :=
  if rs_state s =? STATE_QUEUED_PREFILL then true
  else (rs_state s =? STATE_RUNNING_PREFILL) && (rs_dispatched_prompt_token_count s <? rs_prompt_token_count s)
    && (rs_inflight_prefill_dispatch_count s <? PREFILL_INFLIGHT_WAVE_LIMIT).

Definition is_schedulable_decode (s : Slot) : bool :=
  ((rs_state s =? STATE_READY_DECODE) || ((rs_state s =? STATE_READY_SPECULATIVE_VERIFY) && negb (rs_mtp_draft_token_count s =? 0)))
  && has_budget s.

Definition is_schedulable_speculative_verify (s : Slot) : bool :=
  (rs_state s =? STATE_READY_SPECULATIVE_VERIFY) && has_budget s.

Definition has_realtime_priority (s : Slot) : bool :=
  negb (Z.land (rs_flags s) REQUEST_FLAG_REALTIME =? 0) || (REALTIME_PRIORITY <=? rs_priority s).

Definition has_higher_scheduling_priority_than (s : Slot) (current : option Slot) : bool :=
  match current with
  | None => true
  | Some current =>
      if negb (rs_priority s =? rs_priority current) then rs_priority current <? rs_priority s
      else rs_submission_order s <? rs_submission_order current
  end.

Definition has_same_scheduling_priority (s other : Slot) : bool := rs_priority s =? rs_priority other.

Definition remaining_decode_budget (s : Slot) : Z :=
  rs_remaining_thinking_token_budget s +u32 rs_remaining_output_token_budget s.

Record CacheState := mkCacheState {
  cs_state : Z;
  cs_computed_prompt_token_count : Z;
  cs_last_committed_prefix_token_count : Z;
  cs_physical_block_count : Z;
  cs_request_id : Z;
  cs_sequence_id : Z;
  cs_last_committed_prefix_hash : Z;
}.

(** [trait RequestModelSeam]: the methods the table calls. *)
Class RequestModelSeam (Sp : Type) := {
  seam_is_valid : Sp -> bool;
  seam_slot_can_speculate : Sp -> Slot -> bool;
  seam_cancel_sequence : Z -> Sp -> option RequestApiError * Sp;
}.

Definition hash_handle (handle : Z) : Z :=
  let hash := handle in
  let hash := Z.lxor hash (Z.shiftr hash 33) in
  let hash := hash *u64 0xff51afd7ed558ccd in
  let hash := Z.lxor hash (Z.shiftr hash 33) in
  hash mod SLOT_HASH_SLOTS.

(** ** Recovering the arena's resident capacity *)

Definition probe_round (x : Z * Z) : M KvArena KvArenaError (flow (Z * Z) Z) :=
  let '(low, high) := x in
  if high <=? low then ret (Break low) else
  let mid := low + div_ceil (high - low) 2 in
  let! accepted := (fun a => match trim_resident_blocks [] mid a with
                             | Ret _ a' => Ret true a'
                             | Fails _ a' => Ret false a'
                             | Panic => Panic
                             | OutOfFuel => OutOfFuel
                             end) in
  ret (Continue (if accepted then (mid, high) else (low, mid - 1))).

(** The binary search over at most 2^32 values ends within 33 rounds. *)
Definition probe_resident_block_capacity : M KvArena KvArenaError Z :=
  let! physical := gets KvArena.physical_block_count in
  loop 34 probe_round (0, physical).

(** ** The API *)

Section request_api.
Context {Sp : Type} `{!RequestModelSeam Sp}.

(** [Configuration], less the scheduler, which [new_request_api] takes as its state *)
Record Configuration := mkApiConfiguration {
  cf_configuration_flags : Z;
  cf_request_capacity : Z;
  cf_prefetch_lookahead_request_count : Z;
  cf_prefetch_lane_count : Z;
  cf_decode_batch_target : Z;
  cf_max_resident_kv_block_count : Z;
  cf_decode_execution_row_capacity : Z;
  cf_has_kv_prefetch_backend : bool;
  cf_model_speculator : option Sp;
  cf_output_vocab_count : Z;
}.

#[global] Instance Configuration_eta : RecordEta Configuration := fun c =>
  mkApiConfiguration (cf_configuration_flags c) (cf_request_capacity c) (cf_prefetch_lookahead_request_count c) (cf_prefetch_lane_count c)
    (cf_decode_batch_target c) (cf_max_resident_kv_block_count c) (cf_decode_execution_row_capacity c)
    (cf_has_kv_prefetch_backend c) (cf_model_speculator c) (cf_output_vocab_count c).

Definition normalize_configuration_flags (flags : Z) : Z := if flags =? 0 then API_CONFIGURATION_DEFAULT_FLAGS else flags.

Definition use_async_kv_cache_prefetch_backend (c : Configuration) : Configuration :=
  let flags := normalize_configuration_flags (cf_configuration_flags c) in
  let flags := Z.lor flags (Z.lor CONFIGURATION_FLAG_JIT_KV_PREFETCH CONFIGURATION_FLAG_ASYNC_JIT_KV_PREFETCH) in
  c <| cf_configuration_flags := flags |> <| cf_has_kv_prefetch_backend := true |>.

Definition normalize_prefetch_lookahead_request_count (lookahead request_capacity : Z) : Z :=
  let lookahead := if lookahead =? 0 then DEFAULT_PREFETCH_LOOKAHEAD_REQUEST_COUNT else lookahead in
  Z.min lookahead request_capacity.

Definition normalize_prefetch_lane_count (n : Z) : Z := if n =? 0 then DEFAULT_PREFETCH_LANE_COUNT else n.

Definition normalize_decode_batch_target (n : Z) : Z :=
  if n =? 0 then MAX_DISPATCH_REQUEST_COUNT else Z.min n MAX_DISPATCH_REQUEST_COUNT.

Definition normalize_decode_execution_row_capacity (c : Configuration) : Z :=
  if negb (cf_decode_execution_row_capacity c =? 0) then cf_decode_execution_row_capacity c else
  let maximum_speculative_token_count := Z.max MAX_SPECULATIVE_TOKENS MTP_MAX_DRAFT_TOKEN_COUNT in
  normalize_decode_batch_target (cf_decode_batch_target c) *u32 (maximum_speculative_token_count +u32 1).

Definition normalize_max_resident_kv_block_count (c : Configuration) (s : Scheduler) : Z :=
  match prefix_cache s with
  | None => 0
  | Some cache =>
      if (cf_max_resident_kv_block_count c =? 0)
         || (KvArena.physical_block_count (arena cache) <=? cf_max_resident_kv_block_count c)
      then 0 else cf_max_resident_kv_block_count c
  end.

Record RequestApi := mkRequestApi {
  ra_configuration_flags : Z;
  ra_request_capacity : Z;
  ra_queued_request_count : Z;
  ra_running_request_count : Z;
  ra_completed_request_count : Z;
  ra_cancelled_request_count : Z;
  ra_prefetch_lookahead_request_count : Z;
  ra_prefetch_lane_count : Z;
  ra_decode_batch_target : Z;
  ra_max_resident_kv_block_count : Z;
  ra_decode_execution_row_capacity : Z;
  ra_free_slot_head : Z;
  ra_next_handle : Z;
  ra_next_sequence_id : Z;
  ra_submission_counter : Z;
  ra_submitted_request_count : Z;
  ra_output_vocab_count : Z;
  ra_scheduler : Scheduler;
  ra_slots : list Slot;
  ra_model_speculator : option Sp;
  ra_arena_resident_block_capacity : Z;
  ra_slot_handle_hash_heads : list Z;
}.

#[global] Instance RequestApi_eta : RecordEta RequestApi := fun a =>
  mkRequestApi (ra_configuration_flags a) (ra_request_capacity a) (ra_queued_request_count a) (ra_running_request_count a)
    (ra_completed_request_count a) (ra_cancelled_request_count a) (ra_prefetch_lookahead_request_count a) (ra_prefetch_lane_count a)
    (ra_decode_batch_target a) (ra_max_resident_kv_block_count a) (ra_decode_execution_row_capacity a) (ra_free_slot_head a)
    (ra_next_handle a) (ra_next_sequence_id a) (ra_submission_counter a) (ra_submitted_request_count a) (ra_output_vocab_count a)
    (ra_scheduler a) (ra_slots a) (ra_model_speculator a) (ra_arena_resident_block_capacity a) (ra_slot_handle_hash_heads a).

Abbreviation RM := (M RequestApi RequestApiError).

Definition option_valid (o : option Sp) : bool := match o with Some sp => seam_is_valid sp | None => false end.

Definition is_none {A} (o : option A) : bool := match o with Some _ => false | None => true end.

(** The checks of [RequestApi::new] *)
Definition configuration_is_valid (c : Configuration) (s : Scheduler) : bool :=
  let flags := normalize_configuration_flags (cf_configuration_flags c) in
  let lanes := normalize_prefetch_lane_count (cf_prefetch_lane_count c) in
  negb (negb (Z.land flags (u32_not API_CONFIGURATION_KNOWN_FLAGS) =? 0)
        || (lanes =? 0) || (MAX_PREFETCH_LANE_COUNT <? lanes)
        || (normalize_decode_execution_row_capacity c <? normalize_decode_batch_target (cf_decode_batch_target c)))
  && negb (has_flag flags CONFIGURATION_FLAG_ASYNC_JIT_KV_PREFETCH && negb (has_flag flags CONFIGURATION_FLAG_JIT_KV_PREFETCH))
  && negb (has_flag flags CONFIGURATION_FLAG_QUEUE_AWARE_PREFIX_CACHE_EVICTION && is_none (prefix_cache s))
  && negb (has_flag flags CONFIGURATION_FLAG_DSPARK_SPECULATIVE_DECODE && negb (option_valid (cf_model_speculator c)))
  && negb (has_flag flags CONFIGURATION_FLAG_JIT_KV_PREFETCH && (is_none (prefix_cache s) || negb (cf_has_kv_prefetch_backend c))).

(** The slots [new] pushes: each linked to the next *)
Definition initial_slots (request_capacity : Z) : list Slot :=
  (fun i => free_slot <| rs_free_slot_next := if i +u32 1 <? request_capacity then i +u32 1 else NO_SLOT |>) <$> range 0 request_capacity.

(** [prefetch::probe_resident_block_capacity(prefix_cache.arena_mut())], 0 without a cache *)
Definition probe_scheduler : M Scheduler RequestApiError Z :=
  let! cache := gets prefix_cache in
  match cache with
  | None => ret 0
  | Some cache =>
      zoom (fun s => arena (default cache (prefix_cache s)))
        (fun a s => s <| prefix_cache := (fun c => c <| arena := a |>) <$> prefix_cache s |>)
        (fun _ => ApiInternalError) probe_resident_block_capacity
  end.

(** [RequestApi::new]: the state is the scheduler it takes over *)
Definition new_request_api (c : Configuration) : M Scheduler RequestApiError RequestApi :=
  if cf_request_capacity c =? 0 then throw ApiInvalidArgument else
  let! s := gets id in
  if negb (configuration_is_valid c s) then throw ApiInvalidArgument else
  let max_resident := normalize_max_resident_kv_block_count c s in
  let slots := initial_slots (cf_request_capacity c) in
  let! resident_capacity := probe_scheduler in
  let! s := gets id in
  ret (mkRequestApi (normalize_configuration_flags (cf_configuration_flags c)) (cf_request_capacity c) 0 0 0 0
    (normalize_prefetch_lookahead_request_count (cf_prefetch_lookahead_request_count c) (cf_request_capacity c))
    (normalize_prefetch_lane_count (cf_prefetch_lane_count c)) (normalize_decode_batch_target (cf_decode_batch_target c))
    max_resident (normalize_decode_execution_row_capacity c) 0 1 1 0 0 (cf_output_vocab_count c) s slots (cf_model_speculator c)
    resident_capacity (replicate (Z.to_nat SLOT_HASH_SLOTS) NO_SLOT)).

Definition validate : RM unit :=
  let! a := gets id in
  if (ra_request_capacity a =? 0) || (ra_decode_batch_target a =? 0)
     || (ra_decode_execution_row_capacity a <? ra_decode_batch_target a) || (Z.of_nat (length (ra_slots a)) =? 0)
  then throw ApiInvalidArgument else ret tt.

Definition adaptive_pipeline_batching_is_enabled (a : RequestApi) : bool :=
  has_flag (ra_configuration_flags a) CONFIGURATION_FLAG_ADAPTIVE_PIPELINE_BATCHING.

Definition speculation_is_enabled (a : RequestApi) : bool :=
  has_flag (ra_configuration_flags a) CONFIGURATION_FLAG_DSPARK_SPECULATIVE_DECODE && negb (is_none (ra_model_speculator a)).

Definition slot_can_speculate (slot_index : Z) : RM bool :=
  let! a := gets id in
  if negb (speculation_is_enabled a) then ret false else
  let! slot := index (ra_slots a) slot_index in
  if has_flag (rs_flags slot) REQUEST_FLAG_DISABLE_SPECULATION then ret false else
  ret (match ra_model_speculator a with Some speculator => seam_slot_can_speculate speculator slot | None => false end).

(** [self.slots[i].. = ..], panicking out of range *)
Definition upd_slot (i : Z) (f : Slot -> Slot) : RM unit :=
  let! a := gets id in
  let! _s := index (ra_slots a) i in
  modify (fun a => a <| ra_slots := upd_nth i f (ra_slots a) |>).

(** [self.slot_handle_hash_heads[h] = x] *)
Definition set_head (h x : Z) : RM unit :=
  let! a := gets id in
  let! _h := index (ra_slot_handle_hash_heads a) h in
  modify (fun a => a <| ra_slot_handle_hash_heads := upd_nth h (fun _ => x) (ra_slot_handle_hash_heads a) |>).

Definition find_free_slot : RM (option Z) :=
  let! a := gets id in
  if (ra_free_slot_head a =? NO_SLOT) || (ra_request_capacity a <=? ra_free_slot_head a) then ret None else
  let slot_index := ra_free_slot_head a in
  let! slot := index (ra_slots a) slot_index in
  if negb (rs_state slot =? STATE_FREE) then ret None else
  do! modify (fun a => a <| ra_free_slot_head := rs_free_slot_next slot |>) in
  do! upd_slot slot_index (fun s => s <| rs_free_slot_next := NO_SLOT |>) in
  ret (Some slot_index).

(** One round of the walk along a bucket *)
Definition find_round (a : RequestApi) (handle slot_index : Z) : RM (flow Z (option Z)) :=
  if (slot_index =? NO_SLOT) || (ra_request_capacity a <=? slot_index) then ret (Break None) else
  let! slot := index (ra_slots a) slot_index in
  if negb (rs_state slot =? STATE_FREE) && (rs_handle slot =? handle) then ret (Break (Some slot_index))
  else ret (Continue (rs_handle_hash_next slot)).

(** A bucket has at most as many slots as the table. *)
Definition find_slot_by_handle (handle : Z) : RM (option Z) :=
  if handle =? INVALID_HANDLE then ret None else
  let! a := gets id in
  let! head := index (ra_slot_handle_hash_heads a) (hash_handle handle) in
  loop (S (length (ra_slots a))) (find_round a handle) head.

Definition insert_slot_hash (slot_index : Z) : RM unit :=
  let! a := gets id in
  if ra_request_capacity a <=? slot_index then ret tt else
  let! slot := index (ra_slots a) slot_index in
  if rs_handle slot =? INVALID_HANDLE then ret tt else
  let hash_slot := hash_handle (rs_handle slot) in
  let! head := index (ra_slot_handle_hash_heads a) hash_slot in
  do! upd_slot slot_index (fun s => s <| rs_handle_hash_next := head |>) in
  set_head hash_slot slot_index.

(** One round of the unlinking walk on [(current_slot, previous_slot)] *)
Definition remove_round (slot_index hash_slot : Z) (x : Z * Z) : RM (flow (Z * Z) unit) :=
  let '(current_slot, previous_slot) := x in
  if current_slot =? NO_SLOT then ret (Break tt) else
  let! a := gets id in
  let! slot := index (ra_slots a) current_slot in
  if current_slot =? slot_index then
    do! (if previous_slot =? NO_SLOT then set_head hash_slot (rs_handle_hash_next slot)
         else upd_slot previous_slot (fun s => s <| rs_handle_hash_next := rs_handle_hash_next slot |>)) in
    do! upd_slot current_slot (fun s => s <| rs_handle_hash_next := NO_SLOT |>) in
    ret (Break tt)
  else ret (Continue (rs_handle_hash_next slot, current_slot)).

Definition remove_slot_hash (slot_index : Z) : RM unit :=
  let! a := gets id in
  if ra_request_capacity a <=? slot_index then ret tt else
  let! slot := index (ra_slots a) slot_index in
  if rs_handle slot =? INVALID_HANDLE then ret tt else
  let hash_slot := hash_handle (rs_handle slot) in
  let! head := index (ra_slot_handle_hash_heads a) hash_slot in
  loop (S (length (ra_slots a))) (remove_round slot_index hash_slot) (head, NO_SLOT).

(** ** Entry points *)

Definition current_pipeline_batch_width (a : RequestApi) : Z :=
  if ra_decode_batch_target a =? 0 then 0 else
  if negb (adaptive_pipeline_batching_is_enabled a) then ra_decode_batch_target a else
  let highest_ready_priority := foldl (fun highest s =>
    if is_ready_for_dispatch s && (highest <? rs_priority s) then rs_priority s else highest) 0 (ra_slots a) in
  if highest_ready_priority =? 0 then 0 else
  let ready_request_count := foldl (fun n s =>
    if is_active s && (rs_priority s =? highest_ready_priority) then n +u32 1 else n) 0 (ra_slots a) in
  select_pipeline_batch_width (ra_scheduler a) ready_request_count (ra_decode_batch_target a).

(** [vec.resize(n, 0)] *)
Definition resize (n : Z) (l : list Z) : list Z := take (Z.to_nat n) l ++ replicate (Z.to_nat n - length l) 0.

(** The slot [submit] fills *)
Definition submitted_slot (r : SubmitRequest) (priority sequence_id handle submission_order : Z) : Slot :=
  free_slot
    <| rs_state := STATE_QUEUED_PREFILL |>
    <| rs_flags := sm_flags r |>
    <| rs_priority := priority |>
    <| rs_prompt_token_count := sm_prompt_token_count r |>
    <| rs_thinking_token_budget := sm_thinking_token_budget r |>
    <| rs_output_token_budget := sm_output_token_budget r |>
    <| rs_remaining_thinking_token_budget := sm_thinking_token_budget r |>
    <| rs_remaining_output_token_budget := sm_output_token_budget r |>
    <| rs_max_prefill_tokens_per_step := sm_max_prefill_tokens_per_step r |>
    <| rs_mtp_next_draft_token_budget := MTP_INITIAL_DRAFT_TOKEN_COUNT |>
    <| rs_request_id := sm_request_id r |>
    <| rs_sequence_id := sequence_id |>
    <| rs_handle := handle |>
    <| rs_submission_order := submission_order |>
    <| rs_prompt_token_ids := resize (sm_prompt_token_count r) (sm_prompt_token_ids r) |>.

Definition submit (r : SubmitRequest) : RM Z :=
  do! validate in
  if negb (Z.land (sm_flags r) (u32_not REQUEST_KNOWN_FLAGS) =? 0) || (sm_prompt_token_count r =? 0) then throw ApiInvalidArgument else
  let! free := find_free_slot in
  match free with
  | None => throw ApiCapacityExceeded
  | Some slot_index =>
      let priority := if negb (Z.land (sm_flags r) REQUEST_FLAG_REALTIME =? 0) then REALTIME_PRIORITY
                      else if sm_priority r =? 0 then DEFAULT_PRIORITY else sm_priority r in
      let! sequence_id :=
        (if negb (sm_sequence_id r =? 0) then ret (sm_sequence_id r)
         else let! sequence_id := gets ra_next_sequence_id in
              do! modify (fun a => a <| ra_next_sequence_id := ra_next_sequence_id a +u64 1 |>) in
              ret sequence_id) in
      let! handle := gets ra_next_handle in
      do! modify (fun a => a <| ra_next_handle := ra_next_handle a +u64 1 |>) in
      let! submission_order := gets ra_submission_counter in
      do! modify (fun a => a <| ra_submission_counter := ra_submission_counter a +u64 1 |>) in
      do! upd_slot slot_index (fun _ => submitted_slot r priority sequence_id handle submission_order) in
      do! insert_slot_hash slot_index in
      do! modify (fun a => a <| ra_queued_request_count := ra_queued_request_count a +u32 1 |>) in
      do! modify (fun a => a <| ra_submitted_request_count := ra_submitted_request_count a +u64 1 |>) in
      ret handle
  end.

(** [self.find_slot_by_handle(handle).ok_or(NotFound)?] *)
Definition slot_of_handle (handle : Z) : RM Z :=
  let! o := find_slot_by_handle handle in
  match o with Some i => ret i | None => throw ApiNotFound end.

Definition on_scheduler {A} (m : SM A) : RM A := zoom ra_scheduler (fun s a => a <| ra_scheduler := s |>) api_from_scheduler_error m.

Definition get_request_cache_state (handle : Z) : RM CacheState :=
  do! validate in
  let! slot_index := slot_of_handle handle in
  let! a := gets id in
  let! slot := index (ra_slots a) slot_index in
  let! physical_block_count :=
    (if rs_computed_prompt_token_count slot =? 0 then ret 0 else
     match prefix_cache (ra_scheduler a) with
     | None => ret 0
     | Some cache =>
         let! probe := zoom (fun a => default cache (prefix_cache (ra_scheduler a)))
           (fun c a => a <| ra_scheduler := (ra_scheduler a) <| prefix_cache := Some c |> |>) api_from_cache_error
           (probe_sequence_residency (rs_sequence_id slot) (rs_computed_prompt_token_count slot)) in
         ret (sr_physical_block_count probe)
     end) in
  ret (mkCacheState (rs_state slot) (rs_computed_prompt_token_count slot) (rs_last_committed_prefix_token_count slot)
    physical_block_count (rs_request_id slot) (rs_sequence_id slot) (rs_last_committed_prefix_hash slot)).

Definition cancel_speculator_sequence (sequence_id : Z) : RM unit :=
  let! a := gets id in
  if negb (speculation_is_enabled a) then ret tt else
  match ra_model_speculator a with
  | None => ret tt
  | Some speculator =>
      let '(status, speculator) := seam_cancel_sequence sequence_id speculator in
      do! modify (fun a => a <| ra_model_speculator := Some speculator |>) in
      match status with
      | Some e => if bool_decide (e = ApiNotFound) then ret tt else throw e
      | None => ret tt
      end
  end.

Definition release_slot_sequence (slot_index : Z) : RM unit :=
  let! a := gets id in
  let! slot := index (ra_slots a) slot_index in
  let sequence_id := rs_sequence_id slot in
  if sequence_id =? 0 then ret tt else
  do! cancel_speculator_sequence sequence_id in
  do! on_scheduler (scheduler_release_sequence sequence_id) in
  upd_slot slot_index (fun s => s <| rs_sequence_id := 0 |>).

Definition finish_request_generation (handle : Z) : RM unit :=
  do! validate in
  let! slot_index := slot_of_handle handle in
  let! a := gets id in
  let! slot := index (ra_slots a) slot_index in
  let state := rs_state slot in
  if state =? STATE_COMPLETED then ret tt else
  if state =? STATE_CANCELLED then throw ApiNotFound else
  if (state =? STATE_RUNNING_PREFILL) || (state =? STATE_RUNNING_DECODE) || (state =? STATE_RUNNING_SPECULATIVE_VERIFY)
     || (state =? STATE_WAITING_PREFIX_COHORT) then throw ApiBusy else
  do! (if state =? STATE_QUEUED_PREFILL then
         if ra_queued_request_count a =? 0 then throw ApiInvalidArgument
         else modify (fun a => a <| ra_queued_request_count := ra_queued_request_count a -u32 1 |>)
       else if negb (state =? STATE_READY_DECODE) && negb (state =? STATE_READY_SPECULATIVE_VERIFY) then throw ApiInvalidArgument
       else ret tt) in
  do! (if (state =? STATE_READY_SPECULATIVE_VERIFY) && speculation_is_enabled a
       then cancel_speculator_sequence (rs_sequence_id slot) else ret tt) in
  do! upd_slot slot_index (fun s => s <| rs_remaining_thinking_token_budget := 0 |> <| rs_remaining_output_token_budget := 0 |>
        <| rs_state := STATE_COMPLETED |>) in
  modify (fun a => a <| ra_completed_request_count := ra_completed_request_count a +u32 1 |>).

Definition cancel_request (handle : Z) : RM unit :=
  do! validate in
  let! slot_index := slot_of_handle handle in
  let! a := gets id in
  let! slot := index (ra_slots a) slot_index in
  let state := rs_state slot in
  if state =? STATE_CANCELLED then ret tt else
  if (state =? STATE_RUNNING_PREFILL) || (state =? STATE_RUNNING_DECODE) then throw ApiBusy else
  when! state =? STATE_QUEUED_PREFILL then
    modify (fun a => a <| ra_queued_request_count := ra_queued_request_count a -u32 1 |>) in
  when! state =? STATE_COMPLETED then
    modify (fun a => a <| ra_completed_request_count := ra_completed_request_count a -u32 1 |>) in
  do! upd_slot slot_index (fun s => s <| rs_state := STATE_CANCELLED |>) in
  do! modify (fun a => a <| ra_cancelled_request_count := ra_cancelled_request_count a +u32 1 |>) in
  release_slot_sequence slot_index.

Definition release_completed_request (handle : Z) : RM unit :=
  do! validate in
  let! slot_index := slot_of_handle handle in
  let! a := gets id in
  let! slot := index (ra_slots a) slot_index in
  let state := rs_state slot in
  if negb (state =? STATE_COMPLETED) && negb (state =? STATE_CANCELLED) then throw ApiBusy else
  do! release_slot_sequence slot_index in
  do! remove_slot_hash slot_index in
  do! upd_slot slot_index (fun _ => free_slot) in
  let! a := gets id in
  do! upd_slot slot_index (fun s => s <| rs_free_slot_next := ra_free_slot_head a |>) in
  modify (fun a => a <| ra_free_slot_head := slot_index |>).

Definition slot_remaining_decode_budget (a : RequestApi) (slot_index : Z) : Z :=
  match ra_slots a !! Z.to_nat slot_index with Some s => remaining_decode_budget s | None => 0 end.

Definition slot_has_realtime_priority (a : RequestApi) (slot_index : Z) : bool :=
  match ra_slots a !! Z.to_nat slot_index with Some s => has_realtime_priority s | None => false end.

(** The closure of [assign_draft_budgets] *)
Definition eligible (s : Slot) : bool :=
  ((rs_state s =? STATE_READY_DECODE) || (rs_state s =? STATE_READY_SPECULATIVE_VERIFY)) && has_budget s.

Definition slot_input (s : Slot) : SlotInput :=
  mkSlotInput (rs_mtp_commit_ema_milli s)
    (if (rs_mtp_next_draft_token_budget s =? 0) && negb (rs_mtp_probe_countdown s =? 0) then 0 else WorkControl.mtp_tree.CANDIDATE_COUNT) 0.

(** The second loop: budgets to the eligible slots, in order *)
Fixpoint apply_budgets (slots : list Slot) (budgets : list Z) : list Slot :=
  match budgets, slots with
  | [], _ => slots
  | _, [] => []
  | b :: rest, s :: slots' =>
      if eligible s then s <| rs_mtp_next_draft_token_budget := b |> :: apply_budgets slots' rest
      else s :: apply_budgets slots' budgets
  end.

Definition assign_draft_budgets (firing_row_cap : Z) : RM Z :=
  if firing_row_cap =? 0 then ret 0 else
  let! a := gets id in
  let inputs := slot_input <$> List.filter eligible (ra_slots a) in
  match row_allocator_assign inputs firing_row_cap 1000 (replicate (length inputs) 0) with
  | Ret total budgets =>
      do! modify (fun a => a <| ra_slots := apply_budgets (ra_slots a) budgets |>) in
      ret total
  | Fails e _ => match e with end
  | Panic => panic
  | OutOfFuel => fun _ => OutOfFuel
  end.
End request_api.
Arguments Configuration : clear implicits.
Arguments RequestApi : clear implicits.
