(* ===== verification/RequestTableInv.v ===== *)
(** * The request table's invariant ([crates/spark-serve/src/request_api/mod.rs])

    [table_ok m a]: the live slots of [a] hold exactly the requests of the map [m] from
    handles to slot indices; the free list threads the others; each bucket of the handle
    hash chains the live slots whose handle falls in it, each once.  Here are the
    structural steps: walking a bucket, linking a slot in and out, taking a slot and
    giving it back. *)

From stdpp Require Import gmap.
From S2P Require Import Prelude FreeList StagePlan KvArena PrefixCache PrefixCacheInv PrefixCacheProps RowAllocator Scheduler SchedulerInv SchedulerOps SchedulerProps RequestTable.

(** ** Unlinking from a chain *)

Lemma chain_unlink link link' none head pre p i post nx :
  chain link none head (pre ++ p :: i :: post) -> link i = Some nx -> link' p = Some nx ->
  (forall j, j ∈ pre ++ post -> link' j = link j) -> chain link' none head (pre ++ p :: post).
Proof.
  revert head. induction pre as [|x pre IH]; intros head; cbn [app chain].
  - intros (-> & nx1 & _ & -> & nx2 & Hi & Hc) Hnx Hp Hext. split; [done|]. exists nx. split; [done|].
    replace nx with nx2 by congruence. eapply chain_ext; [|exact Hc]. done.
  - intros (-> & nx1 & Hx & Hc) Hnx Hp Hext. split; [done|]. exists nx1. split; [rewrite Hext; [done|by left]|].
    apply IH; [done|done|done|]. intros j Hj. apply Hext. by right.
Qed.

(** A list with [i] taken out of the middle. *)
Lemma free_list_unlink link link' (free free' : nat -> Prop) none head pre p i post nx :
  free_list link free none head (pre ++ p :: i :: post) -> link i = Some nx -> link' p = Some nx ->
  (forall j, j <> p -> j <> i -> link' j = link j) -> (forall j, free' j <-> free j /\ j <> i) ->
  free_list link' free' none head (pre ++ p :: post).
Proof.
  intros [Hc Hn Hf] Hi Hp Hext Hfree. apply NoDup_app in Hn as (Hn1 & Hn2 & Hn3).
  apply NoDup_cons in Hn3 as [Hp1 Hn3]. apply NoDup_cons in Hn3 as [Hi1 Hn3].
  split.
  - eapply chain_unlink; [done|done|done|]. intros j Hj. apply Hext; intros ->; set_solver.
  - apply NoDup_app. split_and!; [done|set_solver|]. apply NoDup_cons. split; [set_solver|done].
  - intros j. rewrite Hfree, <- Hf. set_solver.
Qed.

(** ** The invariant *)

Definition live (s : Slot) : Prop := rs_state s <> STATE_FREE.

Definition vacant (slots : list Slot) (i : nat) : Prop := exists s, slots !! i = Some s /\ rs_state s = STATE_FREE.

Definition bucketed (slots : list Slot) (h : nat) (i : nat) : Prop :=
  exists s, slots !! i = Some s /\ live s /\ hash_handle (rs_handle s) = Z.of_nat h.

Definition next_free (slots : list Slot) (i : nat) : option Z := rs_free_slot_next <$> slots !! i.

Definition next_hash (slots : list Slot) (i : nat) : option Z := rs_handle_hash_next <$> slots !! i.

Record links_ok (m : gmap Z nat) (slots : list Slot) (free_head : Z) (heads : list Z) (next_handle : Z) : Prop := {
  lk_room : 0 < Z.of_nat (length slots) <= U32_MAX;
  lk_free : exists fl, free_list (next_free slots) (vacant slots) NO_SLOT free_head fl;
  lk_heads : length heads = Z.to_nat SLOT_HASH_SLOTS;
  lk_buckets : forall h head, heads !! h = Some head -> exists idxs, free_list (next_hash slots) (bucketed slots h) NO_SLOT head idxs;
  lk_requests : forall h i, m !! h = Some i <-> exists s, slots !! i = Some s /\ live s /\ rs_handle s = h;
  lk_handles : forall h i, m !! h = Some i -> 0 < h < next_handle;
}.

(** What the rest of the code may do to a slot. *)
Record same_row (s s' : Slot) : Prop := {
  sw_free : rs_state s' = STATE_FREE <-> rs_state s = STATE_FREE;
  sw_handle : rs_handle s' = rs_handle s;
  sw_hash : rs_handle_hash_next s' = rs_handle_hash_next s;
  sw_next : rs_free_slot_next s' = rs_free_slot_next s;
}.

#[export] Instance same_row_equivalence : Equivalence same_row.
Proof.
  split.
  - by intros s.
  - intros s s' []. split; [tauto|done..].
  - intros s1 s2 s3 [] []. split; [tauto|congruence..].
Qed.

Lemma hash_handle_range h : (Z.to_nat (hash_handle h) < Z.to_nat SLOT_HASH_SLOTS)%nat.
Proof. unfold hash_handle, SLOT_HASH_SLOTS. pose proof (Z.mod_pos_bound (Z.lxor (Z.lxor h (Z.shiftr h 33) *u64 0xff51afd7ed558ccd) (Z.shiftr (Z.lxor h (Z.shiftr h 33) *u64 0xff51afd7ed558ccd) 33)) 4096). lia. Qed.

Lemma hash_handle_nonneg h : 0 <= hash_handle h.
Proof. unfold hash_handle, SLOT_HASH_SLOTS. apply Z.mod_pos_bound. lia. Qed.

Lemma head_lookup (heads : list Z) h : length heads = Z.to_nat SLOT_HASH_SLOTS -> exists head, heads !! Z.to_nat (hash_handle h) = Some head.
Proof. intros Hl. apply lookup_lt_is_Some_2. rewrite Hl. apply hash_handle_range. Qed.

Lemma bucketed_hash slots h i s : slots !! i = Some s -> live s -> rs_handle s = h -> bucketed slots (Z.to_nat (hash_handle h)) i.
Proof. intros Hs Hl <-. exists s. split_and!; [done|done|]. rewrite Z2Nat.id; [done|apply hash_handle_nonneg]. Qed.

Lemma bucketed_lt slots h i : bucketed slots h i -> (i < length slots)%nat.
Proof. intros (s & Hs & _). by eapply lookup_lt_Some. Qed.

Lemma vacant_lt slots i : vacant slots i -> (i < length slots)%nat.
Proof. intros (s & Hs & _). by eapply lookup_lt_Some. Qed.

(** Rewriting rows without touching the links keeps everything. *)
Lemma links_frame m slots slots' free_head heads next_handle :
  Forall2 same_row slots slots' -> links_ok m slots free_head heads next_handle -> links_ok m slots' free_head heads next_handle.
Proof.
  intros H2 [Hroom (fl & Hfl) Hheads Hb Hm Hh].
  assert (forall i s', slots' !! i = Some s' -> exists s, slots !! i = Some s /\ same_row s s') as Hback
    by (intros i s' Hs'; by eapply Forall2_lookup_r in H2 as (s & ? & ?); [|done]; eauto).
  assert (forall i s, slots !! i = Some s -> exists s', slots' !! i = Some s' /\ same_row s s') as Hforth
    by (intros i s Hs; by eapply Forall2_lookup_l in H2 as (s' & ? & ?); [|done]; eauto).
  assert (forall i, next_free slots' i = next_free slots i /\ next_hash slots' i = next_hash slots i) as Hlinks.
  { intros i. unfold next_free, next_hash. destruct (slots !! i) as [s|] eqn:Hs.
    - destruct (Hforth i s Hs) as (s' & -> & [_ _ E1 E2]). cbn. by rewrite E1, E2.
    - destruct (slots' !! i) as [s'|] eqn:Hs'; [|done]. destruct (Hback i s' Hs') as (s & ? & _). congruence. }
  assert (forall i, vacant slots' i <-> vacant slots i) as Hvac.
  { intros i. split.
    - intros (s' & Hs' & Hf). destruct (Hback i s' Hs') as (s & Hs & Hrow). exists s. split; [done|]. by apply Hrow.
    - intros (s & Hs & Hf). destruct (Hforth i s Hs) as (s' & Hs' & Hrow). exists s'. split; [done|]. by apply Hrow. }
  assert (forall i (P : Z -> Prop), (exists s', slots' !! i = Some s' /\ live s' /\ P (rs_handle s')) <->
                                    (exists s, slots !! i = Some s /\ live s /\ P (rs_handle s))) as Hlive.
  { intros i P. split.
    - intros (s' & Hs' & Hl & HP). destruct (Hback i s' Hs') as (s & Hs & [E1 E2 _ _]). exists s. unfold live in *. rewrite <- E2. split_and!; [done|tauto|done].
    - intros (s & Hs & Hl & HP). destruct (Hforth i s Hs) as (s' & Hs' & [E1 E2 _ _]). exists s'. unfold live in *. rewrite E2. split_and!; [done|tauto|done]. }
  split.
  - by rewrite <- (Forall2_length _ _ _ H2).
  - exists fl. eapply free_list_frame; [exact Hfl|intros; apply Hlinks|done].
  - done.
  - intros h head Hhead. destruct (Hb h head Hhead) as (idxs & Hi). exists idxs. eapply free_list_frame; [exact Hi|intros; apply Hlinks|].
    intros i. apply (Hlive i (fun x => hash_handle x = Z.of_nat h)).
  - intros h i. rewrite Hm. symmetry. apply (Hlive i (fun x => x = h)).
  - done.
Qed.

(** ** Taking a slot *)

Lemma links_take m slots heads next_handle free_head i s s' head fl :
  links_ok m slots free_head heads next_handle ->
  free_list (next_free slots) (vacant slots) NO_SLOT free_head (i :: fl) -> slots !! i = Some s ->
  live s' -> rs_handle s' = next_handle -> 0 < next_handle ->
  heads !! Z.to_nat (hash_handle next_handle) = Some head -> rs_handle_hash_next s' = head ->
  links_ok (<[next_handle := i]> m) (<[i := s']> slots) (rs_free_slot_next s)
    (<[Z.to_nat (hash_handle next_handle) := Z.of_nat i]> heads) (next_handle + 1).
Proof.
  intros [Hroom _ Hheads Hb Hm Hh] Hfl Hs Hl' Hh' Hpos Hhead Hnext. pose proof (lookup_lt_Some _ _ _ Hs) as Hlt.
  assert (vacant slots i) as Hvi by (apply (fl_free _ _ _ _ _ Hfl); by left).
  assert (rs_state s = STATE_FREE) as Hfree by (destruct Hvi as (s0 & Hs0 & ?); congruence).
  assert (forall j, j <> i -> <[i := s']> slots !! j = slots !! j) as Hother by (intros; by apply list_lookup_insert_ne).
  assert (<[i := s']> slots !! i = Some s') as Hnew by (by apply list_lookup_insert_eq).
  assert (m !! next_handle = None) as Hfresh by (destruct (m !! next_handle) as [k|] eqn:E; [apply Hh in E; lia|done]).
  split.
  - by rewrite length_insert.
  - exists fl. eapply free_list_pop; [exact Hfl|by unfold next_free; rewrite Hs| |].
    + intros j _ Hj. unfold next_free. by rewrite Hother.
    + intros j. split.
      * intros (x & Hx & Hxf). destruct (decide (j = i)) as [->|Hj]; [rewrite Hnew in Hx; injection Hx as <-; by destruct Hl'|].
        split; [|done]. exists x. by rewrite <- (Hother j Hj).
      * intros [(x & Hx & Hxf) Hj]. exists x. by rewrite Hother.
  - by rewrite length_insert.
  - intros h hd Hhd. destruct (decide (h = Z.to_nat (hash_handle next_handle))) as [->|Hne].
    + rewrite list_lookup_insert_eq in Hhd by (by eapply lookup_lt_Some). injection Hhd as <-.
      destruct (Hb _ _ Hhead) as (idxs & Hi). exists (i :: idxs). eapply free_list_push; [exact Hi| | | |].
      * intros (x & Hx & Hxl & _). rewrite Hs in Hx. injection Hx as <-. done.
      * unfold next_hash. rewrite Hnew. cbn. by rewrite Hnext.
      * intros j (x & Hx & Hxl & _). unfold next_hash. rewrite Hother; [done|]. intros ->. rewrite Hs in Hx. injection Hx as <-. done.
      * intros j. destruct (decide (j = i)) as [->|Hj].
        -- split; [by right|]. intros _. eapply (bucketed_hash _ next_handle); done.
        -- unfold bucketed. rewrite Hother by done. split; [by left|]. intros [?|?]; done.
    + rewrite list_lookup_insert_ne in Hhd by done. destruct (Hb _ _ Hhd) as (idxs & Hi). exists idxs. eapply free_list_frame; [exact Hi| |].
      * intros j (x & Hx & Hxl & _). unfold next_hash. rewrite Hother; [done|]. intros ->. rewrite Hs in Hx. injection Hx as <-. done.
      * intros j. unfold bucketed. destruct (decide (j = i)) as [->|Hj]; [|by rewrite Hother].
        split; [|intros (x & Hx & Hxl & _); rewrite Hs in Hx; injection Hx as <-; done].
        intros (x & Hx & _ & Hxh). rewrite Hnew in Hx. injection Hx as <-. rewrite Hh' in Hxh. rewrite Hxh in Hne. lia.
  - intros h j. destruct (decide (h = next_handle)) as [->|Hne].
    + rewrite lookup_insert_eq. split.
      * intros [= <-]. by exists s'.
      * intros (x & Hx & Hxl & Hxh). destruct (decide (j = i)) as [->|Hj]; [done|]. rewrite Hother in Hx by done.
        assert (m !! next_handle = Some j) by (apply Hm; eauto). congruence.
    + rewrite lookup_insert_ne, Hm by done. destruct (decide (j = i)) as [->|Hj]; [|by rewrite Hother].
      rewrite Hnew. split; intros (x & Hx & Hxl & Hxh); [rewrite Hs in Hx; injection Hx as <-; done|]. injection Hx as <-. congruence.
  - intros h j. destruct (decide (h = next_handle)) as [->|Hne]; [intros; lia|]. rewrite lookup_insert_ne by done. intros Hj. apply Hh in Hj. lia.
Qed.

(** ** Giving a slot back *)

(** A slot without its place in a bucket. *)
Definition row (s : Slot) : Z * Z * Z := (rs_state s, rs_handle s, rs_free_slot_next s).

Lemma row_some (slots slots' : list Slot) j s' : row <$> slots' !! j = row <$> slots !! j -> slots' !! j = Some s' ->
  exists s, slots !! j = Some s /\ rs_state s' = rs_state s /\ rs_handle s' = rs_handle s /\ rs_free_slot_next s' = rs_free_slot_next s.
Proof. intros Hr Hs'. rewrite Hs' in Hr. destruct (slots !! j) as [s|]; [|done]. injection Hr as H1 H2 H3. by exists s. Qed.

Lemma links_give m slots slots' free_head heads head' next_handle i h idxs' :
  links_ok m slots free_head heads next_handle -> m !! h = Some i -> length slots' = length slots ->
  (forall j, j <> i -> row <$> slots' !! j = row <$> slots !! j) ->
  (exists s, slots' !! i = Some s /\ rs_state s = STATE_FREE /\ rs_free_slot_next s = free_head) ->
  (forall j, j <> i -> ~ bucketed slots (Z.to_nat (hash_handle h)) j -> next_hash slots' j = next_hash slots j) ->
  free_list (next_hash slots') (fun j => bucketed slots (Z.to_nat (hash_handle h)) j /\ j <> i) NO_SLOT head' idxs' ->
  links_ok (delete h m) slots' (Z.of_nat i) (<[Z.to_nat (hash_handle h) := head']> heads) next_handle.
Proof.
  intros [Hroom (fl & Hfl) Hheads Hb Hm Hh] Hi Hlen Hrow (s' & Hs' & Hfree' & Hnext') Hkeep Hbucket.
  destruct (proj1 (Hm h i) Hi) as (s & Hs & Hl & Hsh).
  assert (forall j, j <> i -> row <$> slots !! j = row <$> slots' !! j) as Hrow' by (intros; symmetry; auto).
  assert (~ vacant slots i) as Hni by (intros (x & Hx & Hxf); rewrite Hs in Hx; injection Hx as <-; done).
  assert (forall j, vacant slots' j <-> vacant slots j \/ j = i) as Hvac.
  { intros j. destruct (decide (j = i)) as [->|Hj]; [split; [by right|intros _; by exists s']|]. split.
    - intros (x & Hx & Hxf). left. destruct (row_some _ _ _ _ (Hrow j Hj) Hx) as (y & Hy & E & _). exists y. by rewrite <- E.
    - intros [(x & Hx & Hxf)|?]; [|done]. destruct (row_some _ _ _ _ (Hrow' j Hj) Hx) as (y & Hy & E & _). exists y. by rewrite <- E. }
  assert (forall j (P : Z -> Prop), (exists x, slots' !! j = Some x /\ live x /\ P (rs_handle x)) <->
            (exists x, slots !! j = Some x /\ live x /\ P (rs_handle x)) /\ j <> i) as Hlive.
  { intros j P. destruct (decide (j = i)) as [->|Hj].
    { split; [intros (x & Hx & Hxl & _); rewrite Hs' in Hx; injection Hx as <-; done|by intros [_ ?]]. }
    unfold live. split.
    - intros (x & Hx & Hxl & HP). split; [|done]. destruct (row_some _ _ _ _ (Hrow j Hj) Hx) as (y & Hy & E1 & E2 & _). exists y. by rewrite <- E1, <- E2.
    - intros [(x & Hx & Hxl & HP) _]. destruct (row_some _ _ _ _ (Hrow' j Hj) Hx) as (y & Hy & E1 & E2 & _). exists y. by rewrite <- E1, <- E2. }
  pose proof (fun k j => Hlive j (fun x => hash_handle x = Z.of_nat k)) as HliveB.
  pose proof (fun k j => Hlive j (fun x => x = k)) as HliveH. cbn beta in HliveB, HliveH.
  split.
  - by rewrite Hlen.
  - exists (i :: fl). eapply free_list_push; [exact Hfl|done| | |done].
    + unfold next_free. rewrite Hs'. cbn. by rewrite Hnext'.
    + intros j Hv. assert (j <> i) as Hj by (intros ->; done). specialize (Hrow j Hj). unfold next_free.
      destruct (slots' !! j) as [x|], (slots !! j) as [y|]; try done. injection Hrow as _ _ E. cbn. by rewrite E.
  - by rewrite length_insert.
  - intros k hd Hhd. destruct (decide (k = Z.to_nat (hash_handle h))) as [->|Hne].
    + rewrite list_lookup_insert_eq in Hhd by (rewrite Hheads; apply hash_handle_range). injection Hhd as <-. exists idxs'.
      eapply free_list_frame; [exact Hbucket|done|]. intros j. apply HliveB.
    + rewrite list_lookup_insert_ne in Hhd by done. destruct (Hb k hd Hhd) as (idxs & Hidx). exists idxs.
      assert (forall j, bucketed slots k j -> j <> i /\ ~ bucketed slots (Z.to_nat (hash_handle h)) j) as Hother.
      { intros j (x & Hx & Hxl & Hxh). split.
        - intros ->. rewrite Hs in Hx. injection Hx as <-. rewrite Hsh in Hxh. rewrite Hxh in Hne. lia.
        - intros (y & Hy & _ & Hyh). rewrite Hx in Hy. injection Hy as <-. lia. }
      eapply free_list_frame; [exact Hidx| |].
      * intros j Hj. destruct (Hother j Hj). auto.
      * intros j. unfold bucketed at 1. rewrite HliveB. split; [by intros [? _]|]. intros Hj. split; [done|]. by apply Hother.
  - intros k j. destruct (decide (k = h)) as [->|Hne].
    + rewrite lookup_delete_eq. split; [done|]. rewrite HliveH. intros [Hj Hji]. apply Hm in Hj. congruence.
    + rewrite lookup_delete_ne, Hm, HliveH by done. split; [|tauto]. intros (x & Hx & Hxl & Hxh). split; [by exists x|].
      intros ->. congruence.
  - intros k j Hk. apply lookup_delete_Some in Hk as [_ Hk]. by apply Hh in Hk.
Qed.

(** ** Walking a bucket *)

(** A loop that consumes a list alongside its variable. *)
Lemma wp_loop_list {S E B C X} (I : B -> list X -> S -> Prop) (xs : list X) fuel (body : B -> M S E (flow B C)) b Q R s :
  I b xs s -> (length xs < fuel)%nat ->
  (forall b xs s, I b xs s -> wp (body b) (fun r s' => match r with
     | Continue b' => exists xs', I b' xs' s' /\ (length xs' < length xs)%nat
     | Break c => Q c s' end) R s) ->
  wp (loop fuel body b) Q R s.
Proof.
  revert b xs s. induction fuel as [|fuel IH]; intros b xs s HI Hl Hstep; [lia|]. cbn [loop]. apply wp_bind.
  eapply wp_mono; [by apply (Hstep b xs)| |done]. intros [b'|c] s' H; [|by apply wp_ret].
  destruct H as (xs' & HI' & Hlt). apply (IH b' xs'); [done|lia|done].
Qed.

Section table.
Context {Sp : Type} `{!RequestModelSeam Sp}.
Implicit Types a : RequestApi Sp.

Record table_ok (m : gmap Z nat) (a : RequestApi Sp) : Prop := {
  ok_links : links_ok m (ra_slots a) (ra_free_slot_head a) (ra_slot_handle_hash_heads a) (ra_next_handle a);
  ok_capacity : ra_request_capacity a = Z.of_nat (length (ra_slots a));
  ok_next : 0 < ra_next_handle a;
  ok_scheduler : exists n, sched_wf (ra_scheduler a) n;
}.

(** A walk ends at the sentinel, or stands on the next slot of its list. *)
Lemma chain_cursor slots cur (rest : list nat) :
  Z.of_nat (length slots) <= U32_MAX -> chain (next_hash slots) NO_SLOT cur rest -> (forall j, j ∈ rest -> (j < length slots)%nat) ->
  (rest = [] /\ cur = NO_SLOT) \/
  (exists j s rest', rest = j :: rest' /\ cur = Z.of_nat j /\ slots !! j = Some s /\ cur < NO_SLOT /\ cur < Z.of_nat (length slots) /\
     chain (next_hash slots) NO_SLOT (rs_handle_hash_next s) rest').
Proof.
  intros Hroom Hc Hlt. destruct rest as [|j rest]; cbn in Hc; [by left|]. right. destruct Hc as (-> & nx & Hnx & Hc).
  specialize (Hlt j ltac:(by left)). destruct (lookup_lt_is_Some_2 slots j Hlt) as [s Hs].
  unfold next_hash in Hnx. rewrite Hs in Hnx. injection Hnx as <-. exists j, s, rest. unfold NO_SLOT. split_and!; try done; lia.
Qed.

Lemma table_find_spec m a h : table_ok m a -> find_slot_by_handle h a = Ret (Z.of_nat <$> m !! h) a.
Proof.
  intros [Hlk Hcap _ _]. pose proof Hlk as [Hroom _ Hheads Hb Hm Hh]. unfold find_slot_by_handle, INVALID_HANDLE.
  destruct (Z.eqb_spec h 0) as [->|H0].
  { destruct (m !! 0) as [i|] eqn:E; [|done]. apply Hh in E. lia. }
  destruct (head_lookup (ra_slot_handle_hash_heads a) h Hheads) as [head Hhead]. destruct (Hb _ _ Hhead) as (idxs & Hidx).
  unfold bind, gets, id, index. rewrite Hhead. cbn [ret].
  assert (wp (loop (S (length (ra_slots a))) (find_round a h) head) (fun r a' => a' = a /\ r = Z.of_nat <$> m !! h) (fun _ _ => False) a) as Hwp.
  2: { apply wp_elim in Hwp as [(r & a' & Hr & -> & ->)|(? & ? & _ & [])]. exact Hr. }
  apply (wp_loop_list (fun cur rest a' => a' = a /\ chain (next_hash (ra_slots a)) NO_SLOT cur rest /\
     (forall j, j ∈ rest -> bucketed (ra_slots a) (Z.to_nat (hash_handle h)) j) /\ forall i, m !! h = Some i -> i ∈ rest) idxs).
  - split_and!; [done|apply Hidx|intros j; apply Hidx|]. intros i Hi. apply Hidx. destruct (proj1 (Hm h i) Hi) as (s & ? & ? & ?). by eapply bucketed_hash.
  - pose proof (free_list_length _ _ _ _ _ _ Hidx (bucketed_lt (ra_slots a) _)). lia.
  - intros cur rest a' (-> & Hc & Hin & Hi). unfold find_round.
    destruct (chain_cursor (ra_slots a) cur rest ltac:(lia) Hc ltac:(intros j Hj; eapply bucketed_lt; by apply Hin))
      as [[-> ->]|(j & s & rest' & -> & -> & Hs & Hlt1 & Hlt2 & Hc')].
    { cbn [Z.eqb orb]. wp_steps. split; [done|]. destruct (m !! h) as [i|] eqn:E; [|done]. specialize (Hi i eq_refl). by apply elem_of_nil in Hi. }
    destruct (Z.eqb_spec (Z.of_nat j) NO_SLOT); [lia|]. destruct (Z.leb_spec (ra_request_capacity a) (Z.of_nat j)); [lia|]. cbn [orb].
    apply wp_bind, (wp_index _ _ _ _ _ s); [by rewrite Nat2Z.id|]. destruct (Hin j ltac:(by left)) as (x & Hx & Hxl & _).
    rewrite Hs in Hx. injection Hx as <-. destruct (Z.eqb_spec (rs_state s) STATE_FREE); [done|]. cbn [negb andb].
    destruct (Z.eqb_spec (rs_handle s) h) as [Heq|Hne]; wp_steps.
    + split; [done|]. rewrite (proj2 (Hm h j)); [done|]. by exists s.
    + exists rest'. split; [|cbn; lia]. split_and!; [done|done|intros k Hk; apply Hin; by right|].
      intros i Him. specialize (Hi i Him). apply elem_of_cons in Hi as [->|?]; [|done]. destruct (proj1 (Hm h j) Him) as (y & Hy & _ & Hyh).
      rewrite Hs in Hy. injection Hy as <-. done.
Qed.

(** ** Unlinking a slot from its bucket *)

Lemma upd_insert (slots : list Slot) (i : nat) s f : slots !! i = Some s -> upd_nth (Z.of_nat i) f slots = <[i := f s]> slots.
Proof.
  intros Hs. unfold upd_nth. rewrite Nat2Z.id. apply list_eq. intros j. destruct (decide (i = j)) as [<-|Hne].
  - rewrite list_lookup_alter_eq, Hs, list_lookup_insert_eq by (by eapply lookup_lt_Some). done.
  - by rewrite list_lookup_alter_ne, list_lookup_insert_ne.
Qed.

Lemma wp_upd_slot i s f (Q : unit -> RequestApi Sp -> Prop) R a :
  ra_slots a !! i = Some s -> Q tt (a <| ra_slots := <[i := f s]> (ra_slots a) |>) -> wp (upd_slot (Z.of_nat i) f) Q R a.
Proof.
  intros Hs HQ. unfold upd_slot. wp_steps. apply (wp_index _ _ _ _ _ s); [by rewrite Nat2Z.id|]. wp_steps. change (id a) with a. by rewrite (upd_insert _ _ _ _ Hs).
Qed.

Lemma wp_set_head h x y (Q : unit -> RequestApi Sp -> Prop) R a :
  0 <= h -> ra_slot_handle_hash_heads a !! Z.to_nat h = Some y ->
  Q tt (a <| ra_slot_handle_hash_heads := <[Z.to_nat h := x]> (ra_slot_handle_hash_heads a) |>) -> wp (set_head h x) Q R a.
Proof.
  intros H0 Hh HQ. unfold set_head. wp_steps. change (id a) with a.
  replace (upd_nth h (fun _ => x) (ra_slot_handle_hash_heads a)) with (<[Z.to_nat h := x]> (ra_slot_handle_hash_heads a)); [done|].
  unfold upd_nth. apply list_eq. intros j. destruct (decide (Z.to_nat h = j)) as [<-|Hne].
  - rewrite list_lookup_alter_eq, Hh, list_lookup_insert_eq by (by eapply lookup_lt_Some). done.
  - by rewrite list_lookup_alter_ne, list_lookup_insert_ne.
Qed.

(** [slots1] and [head'] are the table with [i] out of its bucket. *)
Record unlinked (slots : list Slot) (h i : nat) (slots1 : list Slot) (head' : Z) : Prop := {
  un_length : length slots1 = length slots;
  un_row : forall j, row <$> slots1 !! j = row <$> slots !! j;
  un_sequence : forall j, rs_sequence_id <$> slots1 !! j = rs_sequence_id <$> slots !! j;
  un_other : forall j, j <> i -> ~ bucketed slots h j -> next_hash slots1 j = next_hash slots j;
  un_bucket : exists idxs, free_list (next_hash slots1) (fun j => bucketed slots h j /\ j <> i) NO_SLOT head' idxs;
}.

(** A slot whose bucket link is rewritten. *)
Lemma relink slots (j : nat) s nx : slots !! j = Some s ->
  let slots1 := <[j := s <| rs_handle_hash_next := nx |>]> slots in
  length slots1 = length slots /\ (forall k, row <$> slots1 !! k = row <$> slots !! k) /\
  (forall k, rs_sequence_id <$> slots1 !! k = rs_sequence_id <$> slots !! k) /\
  next_hash slots1 j = Some nx /\ (forall k, k <> j -> next_hash slots1 k = next_hash slots k).
Proof.
  intros Hs. cbv zeta. pose proof (lookup_lt_Some _ _ _ Hs) as Hlt. split_and!.
  - apply length_insert.
  - intros k. destruct (decide (j = k)) as [<-|Hne]; [rewrite list_lookup_insert_eq, Hs by done; done|by rewrite list_lookup_insert_ne].
  - intros k. destruct (decide (j = k)) as [<-|Hne]; [rewrite list_lookup_insert_eq, Hs by done; done|by rewrite list_lookup_insert_ne].
  - unfold next_hash. by rewrite list_lookup_insert_eq.
  - intros k Hk. unfold next_hash. by rewrite list_lookup_insert_ne.
Qed.

Lemma unlink_first slots h i s nx idxs :
  free_list (next_hash slots) (bucketed slots h) NO_SLOT (Z.of_nat i) (i :: idxs) -> slots !! i = Some s -> nx = rs_handle_hash_next s ->
  unlinked slots h i (<[i := s <| rs_handle_hash_next := NO_SLOT |>]> slots) nx.
Proof.
  intros Hfl Hs ->. destruct (relink slots i s NO_SLOT Hs) as (H1 & H2 & H3 & H4 & H5). split; [done..|by intros; apply H5|].
  exists idxs. eapply free_list_pop; [exact Hfl|by unfold next_hash; rewrite Hs|by intros; apply H5|done].
Qed.

Lemma unlink_later slots h i s p sp head pre post :
  free_list (next_hash slots) (bucketed slots h) NO_SLOT head (pre ++ p :: i :: post) -> slots !! i = Some s -> slots !! p = Some sp ->
  unlinked slots h i (<[i := s <| rs_handle_hash_next := NO_SLOT |>]> (<[p := sp <| rs_handle_hash_next := rs_handle_hash_next s |>]> slots)) head.
Proof.
  intros Hfl Hs Hsp. assert (p <> i) as Hpi.
  { pose proof (fl_nodup _ _ _ _ _ Hfl) as Hn. apply NoDup_app in Hn as (_ & _ & Hn). apply NoDup_cons in Hn as [Hn _]. set_solver. }
  destruct (relink slots p sp (rs_handle_hash_next s) Hsp) as (H1 & H2 & H3 & H4 & H5). set (slots0 := <[p := _]> slots) in *.
  assert (slots0 !! i = Some s) as Hs0 by (subst slots0; by rewrite list_lookup_insert_ne).
  destruct (relink slots0 i s NO_SLOT Hs0) as (G1 & G2 & G3 & G4 & G5).
  assert (bucketed slots h p) as Hbp by (apply (fl_free _ _ _ _ _ Hfl); set_solver).
  split.
  - congruence.
  - intros j. by rewrite G2.
  - intros j. by rewrite G3.
  - intros j Hj Hnb. rewrite G5, H5; [done| |done]. by intros ->.
  - exists (pre ++ p :: post). eapply free_list_unlink; [exact Hfl|by unfold next_hash; rewrite Hs|by rewrite G5| |done].
    intros j Hjp Hji. by rewrite G5, H5.
Qed.

(** Unlinking changes the links alone. *)
Definition unlinked_api (h i : nat) a (a' : RequestApi Sp) : Prop :=
  exists slots1 head', unlinked (ra_slots a) h i slots1 head' /\
    a' = a <| ra_slots := slots1 |> <| ra_slot_handle_hash_heads := <[h := head']> (ra_slot_handle_hash_heads a) |>.

Lemma remove_spec m a h i :
  table_ok m a -> m !! h = Some i ->
  wp (remove_slot_hash (Z.of_nat i)) (fun _ a' => unlinked_api (Z.to_nat (hash_handle h)) i a a') (fun _ _ => False) a.
Proof.
  intros [Hlk Hcap _ _] Hi. pose proof Hlk as [Hroom _ Hheads Hb Hm Hh]. destruct (proj1 (Hm h i) Hi) as (s & Hs & Hl & Hsh).
  pose proof (lookup_lt_Some _ _ _ Hs) as Hlt. pose proof (Hh h i Hi) as Hpos.
  destruct (head_lookup (ra_slot_handle_hash_heads a) h Hheads) as [head Hhead]. destruct (Hb _ _ Hhead) as (idxs & Hidx).
  set (hh := Z.to_nat (hash_handle h)) in *. unfold remove_slot_hash. wp_steps. change (id a) with a.
  destruct (Z.leb_spec (ra_request_capacity a) (Z.of_nat i)); [lia|]. wp_steps.
  apply (wp_index _ _ _ _ _ s); [by rewrite Nat2Z.id|]. unfold INVALID_HANDLE. rewrite Hsh. destruct (Z.eqb_spec h 0); [lia|]. wp_steps.

  apply (wp_loop_list (fun x rest a' => a' = a /\ exists pre, idxs = pre ++ rest /\ chain (next_hash (ra_slots a)) NO_SLOT (fst x) rest /\ i ∈ rest /\
     snd x = match last pre with Some p => Z.of_nat p | None => NO_SLOT end) idxs).
  - split; [done|]. exists []. split_and!; [done|apply Hidx| |done]. apply Hidx. by eapply bucketed_hash.
  - pose proof (free_list_length _ _ _ _ _ _ Hidx (bucketed_lt (ra_slots a) _)). lia.
  - intros [cur prev] rest a' (-> & pre & Hsplit & Hc & Hin & Hprev). cbn [fst snd] in *. unfold remove_round.
    assert (forall j, j ∈ idxs -> (j < length (ra_slots a))%nat) as Hbound by (intros j Hj; eapply bucketed_lt; by apply Hidx).
    destruct (chain_cursor (ra_slots a) cur rest ltac:(lia) Hc ltac:(intros j Hj; apply Hbound; rewrite Hsplit; set_solver))
      as [[-> ->]|(j & x & rest' & -> & -> & Hx & Hlt1 & Hlt2 & Hc')].
    { by apply elem_of_nil in Hin. }
    destruct (Z.eqb_spec (Z.of_nat j) NO_SLOT); [lia|]. wp_steps. change (id a) with a. apply (wp_index _ _ _ _ _ x); [by rewrite Nat2Z.id|].
    destruct (Z.eqb_spec (Z.of_nat j) (Z.of_nat i)) as [Hji|Hji]; wp_steps.
    2: { exists rest'. split; [|cbn; lia]. split; [done|]. exists (pre ++ [j]). rewrite <- app_assoc, last_snoc. split_and!; [done|done| |done].
      apply elem_of_cons in Hin as [->|?]; [lia|done]. }
    assert (j = i) as -> by lia. rewrite Hs in Hx. injection Hx as <-. rewrite Hsplit in Hidx. destruct pre as [|p pre _] using rev_ind.
    + cbn [last] in Hprev. rewrite Hprev, Z.eqb_refl. apply (wp_set_head _ _ head); [apply hash_handle_nonneg|done|]. wp_steps.
      apply (wp_upd_slot i s); [done|]. wp_steps. eexists _, _. split; [|reflexivity].
      pose proof (fl_chain _ _ _ _ _ Hidx) as [-> _]. by eapply unlink_first.
    + rewrite last_snoc in Hprev. rewrite Hprev. assert (p ∈ idxs) as Hp by (rewrite Hsplit; set_solver). apply Hbound in Hp.
      destruct (Z.eqb_spec (Z.of_nat p) NO_SLOT) as [Heq|_]; [unfold NO_SLOT in Heq; lia|].
      destruct (lookup_lt_is_Some_2 _ p Hp) as [sp Hsp]. rewrite <- app_assoc in Hidx. cbn in Hidx.
      apply (wp_upd_slot p sp); [done|]. wp_steps. apply (wp_upd_slot i s).
      { cbn. rewrite list_lookup_insert_ne; [done|]. intros ->. pose proof (fl_nodup _ _ _ _ _ Hidx) as Hn. apply NoDup_app in Hn as (_ & _ & Hn).
        apply NoDup_cons in Hn as [Hn _]. set_solver. }
      wp_steps. eexists _, head. split; [by eapply unlink_later|]. rewrite (list_insert_id (ra_slot_handle_hash_heads a) hh head Hhead).
      by destruct a.
Qed.
End table.
