(* ===== verification/RequestTableProps.v ===== *)
(** * The request table is a map of handles ([crates/spark-serve/src/request_api/mod.rs])

    Construction recovers the arena's capacity and builds an empty table; every entry
    point keeps the invariant of [RequestTableInv] and acts on the map it represents. *)

From stdpp Require Import gmap.
From S2P Require Import Prelude FreeList StagePlan KvArena PrefixCache PrefixCacheInv PrefixCacheSpecs PrefixCacheGrow PrefixCacheProps.
From S2P Require Import RowAllocator Scheduler SchedulerInv SchedulerOps SchedulerProps RequestTable RequestTableInv.

(** ** Recovering the capacity *)

Lemma geometry_capacity a a' : geometry a' = geometry a -> resident_block_capacity a' = resident_block_capacity a.
Proof. unfold geometry. congruence. Qed.

(** With nothing protected a trim is refused only for a target above the capacity. *)
Lemma trim_unprotected a target : kv_wf a -> 0 <= target ->
  match trim_resident_blocks [] target a with
  | Ret _ a' => target <= resident_block_capacity a /\ kv_wf a' /\ trimmed [] a a'
  | Fails _ a' => resident_block_capacity a < target /\ a' = a
  | _ => False
  end.
Proof.
  intros Hwf Ht. unfold trim_resident_blocks, bind, gets, id. destruct (Z.ltb_spec (resident_block_capacity a) target); [done|].
  destruct (wp_elim _ _ _ _ (trim_inner_spec a [] target Hwf Ht)) as [(n&a'&->&Hwf'&Htr&_)|(e&a'&_&_&Hwf'&Htr&Hno&Hgt&_)]; [done|].
  exfalso. rewrite (kw_resident a' Hwf') in Hgt. destruct (countb_pos resident (blocks a') ltac:(lia)) as (i&b&Hb&Hres).
  apply (Hno (Z.of_nat i) b). split_and!; [lia|by rewrite Nat2Z.id| |done|by apply not_elem_of_nil].
  apply resident_allocated; [by eapply block_ok_lookup|done].
Qed.

(** The rounds a search over [d] values needs. *)
Definition rounds (d : Z) : nat := if d <=? 0 then O else S (Z.to_nat (Z.log2 d)).

Lemma rounds_halve d d' : 0 < d -> d' <= d / 2 -> (rounds d' < rounds d)%nat.
Proof.
  intros Hd Hd'. unfold rounds. destruct (Z.leb_spec d 0); [lia|]. destruct (Z.leb_spec d' 0); [lia|].
  assert (Z.log2 d' <= Z.log2 (d / 2)) by (by apply Z.log2_le_mono). assert (d / 2 = Z.shiftr d 1) as Hsh by (by rewrite Z.shiftr_div_pow2 by lia).
  rewrite Hsh, Z.log2_shiftr in * by lia. assert (2 <= d) by (rewrite <- Hsh in Hd'; Z.div_mod_to_equations; lia).
  assert (Z.log2 2 <= Z.log2 d) as Hl2 by (by apply Z.log2_le_mono). change (Z.log2 2) with 1 in Hl2. pose proof (Z.log2_nonneg d'). lia.
Qed.

Lemma probe_exact a : kv_wf a ->
  wp probe_resident_block_capacity (fun n a' => n = resident_block_capacity a /\ kv_wf a' /\ trimmed [] a a') (fun _ _ => False) a.
Proof.
  intros Hwf. pose proof (kw_capacity a Hwf) as Hcap. pose proof (kw_count a Hwf) as Hcount. unfold probe_resident_block_capacity. wp_steps.
  apply (wp_loop (fun x a' => 0 <= fst x <= resident_block_capacity a /\ resident_block_capacity a <= snd x <= KvArena.physical_block_count a /\ kv_wf a' /\ trimmed [] a a')
    (fun x _ => rounds (snd x - fst x))).
  - cbn [fst snd]. split_and!; [lia..|done|apply trimmed_refl].
  - cbn [fst snd]. unfold rounds. destruct (Z.leb_spec (KvArena.physical_block_count a - 0) 0); [lia|].
    assert (Z.log2 (KvArena.physical_block_count a - 0) <= Z.log2 U32_MAX) as Hl by (apply Z.log2_le_mono; lia). change (Z.log2 U32_MAX) with 31 in Hl. lia.
  - intros [low high] a' (Hlow&Hhigh&Hwf'&Htr). cbn [fst snd] in *. unfold probe_round. destruct (Z.leb_spec high low); wp_steps; [split_and!; [lia|done|done]|].
    assert (low < low + div_ceil (high - low) 2 <= high /\ 2 * div_ceil (high - low) 2 >= high - low /\ 2 * div_ceil (high - low) 2 <= high - low + 1) as Hmid.
    { unfold div_ceil. destruct (Z.ltb_spec 0 ((high - low) mod 2)); Z.div_mod_to_equations; lia. }
    set (mid := low + div_ceil (high - low) 2) in *.
    pose proof (trim_unprotected a' mid Hwf' ltac:(lia)) as Ht. rewrite (geometry_capacity a a' (tr_geometry _ _ _ Htr)) in Ht.
    unfold wp. destruct (trim_resident_blocks [] mid a') as [r a2|e a2| |]; [..|done|done].
    + destruct Ht as (Hle&Hwf2&Htr2). cbn. split; [split_and!; [lia..|done|by eapply trimmed_trans]|]. apply rounds_halve; [lia|]. Z.div_mod_to_equations; lia.
    + destruct Ht as (Hgt&->). cbn. split; [split_and!; [lia..|done|done]|]. apply rounds_halve; [lia|]. Z.div_mod_to_equations; lia.
Qed.

Lemma probe_scheduler_spec s n : sched_wf s n ->
  wp probe_scheduler (fun r s' => r = match prefix_cache s with Some c => resident_block_capacity (arena c) | None => 0 end /\
    sched_wf s' n /\ recached s s') (fun _ _ => False) s.
Proof.
  intros Hwf. unfold probe_scheduler. wp_steps. destruct (prefix_cache s) as [c|] eqn:Hc.
  2: { wp_steps. split_and!; [done|done|]. exists None. rewrite Hc. split; [by destruct s; cbn in *; subst|done]. }
  pose proof (wf_cache s n Hwf) as Ho. unfold cache_owned in Ho. rewrite Hc in Ho. destruct Ho as [Hcw _].
  pose proof (probe_exact (arena c) (PrefixCacheInv.sw_arena _ _ _ _ _ _ Hcw)) as Hp. unfold wp, zoom in *. rewrite Hc. cbn [default]. change (id c) with c.
  destruct (probe_resident_block_capacity (arena c)) as [r a'|e a'| |]; [|done..]. destruct Hp as (->&Hwf'&Htr).
  assert (recached s (s <| prefix_cache := (fun c => c <| arena := a' |>) <$> Some c |>)) as Hr.
  { eexists. split; [reflexivity|]. rewrite Hc. cbn. apply cache_ok_arena; try done. by eapply trimmed_owners. }
  split_and!; [done|by eapply recached_wf|done].
Qed.

(** ** The empty table *)

Lemma lookup_initial_slots n i : 0 < n <= U32_MAX -> (i < Z.to_nat n)%nat ->
  exists nx, initial_slots n !! i = Some (free_slot <| rs_free_slot_next := nx |>) /\ initial_links (Z.to_nat n) NO_SLOT !! i = Some nx.
Proof.
  intros Hn Hi. eexists. split.
  - unfold initial_slots. rewrite list_lookup_fmap, (proj2 (lookup_range 0 n i (Z.of_nat i))) by lia. reflexivity.
  - rewrite lookup_initial_links by done. rewrite u32_small by lia. destruct (Nat.ltb_spec (S i) (Z.to_nat n)), (Z.ltb_spec (Z.of_nat i + 1) n); try lia; [f_equal; lia|done].
Qed.

Lemma length_initial_slots n : 0 < n -> length (initial_slots n) = Z.to_nat n.
Proof. intros. unfold initial_slots. rewrite length_fmap, length_range. lia. Qed.

Lemma initial_slot n i s : 0 < n <= U32_MAX -> initial_slots n !! i = Some s -> rs_state s = STATE_FREE.
Proof.
  intros Hn Hs. pose proof (lookup_lt_Some _ _ _ Hs) as Hi. rewrite length_initial_slots in Hi by lia.
  destruct (lookup_initial_slots n i Hn Hi) as (nx&Hs'&_). rewrite Hs in Hs'. by injection Hs' as ->.
Qed.

Lemma links_initial n : 0 < n <= U32_MAX -> links_ok ∅ (initial_slots n) 0 (replicate (Z.to_nat SLOT_HASH_SLOTS) NO_SLOT) 1.
Proof.
  intros Hn. pose proof (length_initial_slots n ltac:(lia)) as Hlen.
  assert (forall i, vacant (initial_slots n) i <-> (i < Z.to_nat n)%nat) as Hvac.
  { intros i. split; [intros Hv; apply vacant_lt in Hv; lia|]. intros Hi. destruct (lookup_initial_slots n i Hn Hi) as (nx&Hs&_). by eexists. }
  split.
  - lia.
  - exists (seq 0 (Z.to_nat n)). eapply free_list_frame; [apply (free_list_initial (Z.to_nat n) NO_SLOT (fun i => (i < Z.to_nat n)%nat)); [lia|done]| |done].
    intros i Hi. cbn beta in Hi. destruct (lookup_initial_slots n i Hn Hi) as (nx&Hs&->). unfold next_free. by rewrite Hs.
  - apply length_replicate.
  - intros h head Hh. apply lookup_replicate in Hh as [-> _]. exists []. split; [done|constructor|]. intros i. split; [by intros ?%elem_of_nil|].
    intros (s&Hs&Hl&_). destruct (Hl (initial_slot n i s Hn Hs)).
  - intros h i. rewrite lookup_empty. split; [done|]. intros (s&Hs&Hl&_). destruct (Hl (initial_slot n i s Hn Hs)).
  - intros h i. by rewrite lookup_empty.
Qed.

Section operations.
Context {Sp : Type} `{!RequestModelSeam Sp}.
Implicit Types a : RequestApi Sp.

(** The table and the settings every entry point validates. *)
Record table_ready (m : gmap Z nat) a : Prop := {
  rd_ok : table_ok m a;
  rd_target : 0 < ra_decode_batch_target a <= ra_decode_execution_row_capacity a;
}.

(** The words of a configuration. *)
Record api_words (c : Configuration Sp) : Prop := {
  aw_capacity : 0 <= cf_request_capacity c <= U32_MAX;
  aw_target : 0 <= cf_decode_batch_target c <= U32_MAX;
}.

Lemma normalized_target n : 0 <= n -> 0 < normalize_decode_batch_target n.
Proof. unfold normalize_decode_batch_target. change MAX_DISPATCH_REQUEST_COUNT with 1024. destruct (Z.eqb_spec n 0); lia. Qed.

(** A new table is empty. *)
Lemma new_ready_table c s n : api_words c -> sched_wf s n ->
  wp (new_request_api c) (fun a s' => table_ready ∅ a /\ ra_scheduler a = s' /\ recached s s' /\
       ra_arena_resident_block_capacity a = match prefix_cache s with Some c => resident_block_capacity (arena c) | None => 0 end)
    (fun e s' => e = ApiInvalidArgument /\ s' = s) s.
Proof.
  intros [Hcap Htg] Hwf. unfold new_request_api. destruct (Z.eqb_spec (cf_request_capacity c) 0); wp_steps; [done|]. unfold id.
  destruct (configuration_is_valid c s) eqn:Hv; cbn [negb]; wp_steps; [|done].
  eapply wp_mono; [by apply (probe_scheduler_spec s n)| |done]. intros r s' (->&Hwf'&Hr). wp_steps. unfold id. split_and!; [|done|done|done].
  unfold configuration_is_valid in Hv. rewrite !andb_true_iff, !negb_true_iff in Hv. destruct Hv as [[[[Hv _] _] _] _].
  apply orb_false_iff in Hv as [_ Hv]. apply Z.ltb_ge in Hv. pose proof (normalized_target _ (proj1 Htg)).
  split; cbn; [split; cbn|lia].
  - apply links_initial. lia.
  - rewrite length_initial_slots; lia.
  - lia.
  - by exists n.
Qed.

(** ** Calls that leave the links alone *)

Record framed a a' : Prop := {
  fm_rows : Forall2 same_row (ra_slots a) (ra_slots a');
  fm_free : ra_free_slot_head a' = ra_free_slot_head a;
  fm_heads : ra_slot_handle_hash_heads a' = ra_slot_handle_hash_heads a;
  fm_next : ra_next_handle a' = ra_next_handle a;
  fm_settings : (ra_request_capacity a', ra_decode_batch_target a', ra_decode_execution_row_capacity a') =
    (ra_request_capacity a, ra_decode_batch_target a, ra_decode_execution_row_capacity a);
  fm_scheduler : (exists n, sched_wf (ra_scheduler a) n) -> exists n, sched_wf (ra_scheduler a') n;
}.

#[local] Instance framed_preorder : PreOrder framed.
Proof.
  split.
  - by intros a.
  - intros a1 a2 a3 [] []. split; try congruence; [|auto]. by etransitivity.
Qed.

Lemma framed_ready m a a' : framed a a' -> table_ready m a -> table_ready m a'.
Proof.
  intros [Hrows E1 E2 E3 E4 Hs] [[Hlk Hcap Hnext Hsched] Htg]. injection E4 as F1 F2 F3. split; [split|by rewrite F2, F3].
  - rewrite E1, E2, E3. by eapply links_frame.
  - by rewrite F1, Hcap, (Forall2_length _ _ _ Hrows).
  - by rewrite E3.
  - auto.
Qed.

(** One row rewritten. *)
Lemma framed_upd a i s s' : ra_slots a !! i = Some s -> same_row s s' -> framed a (a <| ra_slots := <[i := s']> (ra_slots a) |>).
Proof.
  intros Hs Hrow. split; try done. cbn. apply Forall2_same_length_lookup_2; [by rewrite length_insert|]. intros j x y Hx Hy.
  destruct (decide (i = j)) as [<-|Hne].
  - rewrite list_lookup_insert_eq in Hy by (by eapply lookup_lt_Some). congruence.
  - rewrite list_lookup_insert_ne in Hy by done. by replace y with x by congruence.
Qed.

(** A framed state has the same slots, with new rows. *)
Lemma framed_slot a a' i s : framed a a' -> ra_slots a !! i = Some s -> exists s', ra_slots a' !! i = Some s' /\ same_row s s'.
Proof. intros Hf Hs. destruct (Forall2_lookup_l _ _ _ _ _ (fm_rows _ _ Hf) Hs) as (s'&?&?). by exists s'. Qed.

Lemma validate_ready m a : table_ready m a -> validate a = Ret tt a.
Proof.
  intros [[Hlk Hcap _ _] Htg]. pose proof (lk_room _ _ _ _ _ Hlk). unfold validate, bind, gets, id.
  destruct (Z.eqb_spec (ra_request_capacity a) 0); [lia|]. destruct (Z.eqb_spec (ra_decode_batch_target a) 0); [lia|].
  destruct (Z.ltb_spec (ra_decode_execution_row_capacity a) (ra_decode_batch_target a)); [lia|].
  destruct (Z.eqb_spec (Z.of_nat (length (ra_slots a))) 0); [lia|done].
Qed.

Lemma wp_table_validate m a (Q : unit -> RequestApi Sp -> Prop) R : table_ready m a -> Q tt a -> wp validate Q R a.
Proof. intros Hrd HQ. unfold wp. by rewrite (validate_ready m a Hrd). Qed.

(** The prologue of an entry point: the handle's slot, or [NotFound]. *)
Lemma wp_slot_of_handle m a h (Q : Z -> RequestApi Sp -> Prop) R : table_ready m a ->
  (m !! h = None -> R ApiNotFound a) ->
  (forall i s, m !! h = Some i -> ra_slots a !! i = Some s -> live s -> rs_handle s = h -> Q (Z.of_nat i) a) -> wp (slot_of_handle h) Q R a.
Proof.
  intros [Hok _] HR HQ. unfold slot_of_handle. apply wp_bind. unfold wp at 1. rewrite (table_find_spec m a h Hok).
  destruct (m !! h) as [i|] eqn:Hi; cbn; [|by apply wp_throw, HR].
  destruct (proj1 (lk_requests _ _ _ _ _ (ok_links _ _ Hok) h i) Hi) as (s&Hs&Hl&Hh). apply wp_ret. by eapply HQ.
Qed.

Lemma wp_slot a i s (Q : Slot -> RequestApi Sp -> Prop) (R : RequestApiError -> RequestApi Sp -> Prop) a0 : ra_slots a !! i = Some s -> Q s a0 -> wp (index (ra_slots a) (Z.of_nat i)) Q R a0.
Proof. intros Hs HQ. apply (wp_index _ _ _ _ _ s); [by rewrite Nat2Z.id|done]. Qed.

(** ** Ending a request *)

Lemma cancel_speculator_framed seq a :
  wp (cancel_speculator_sequence seq) (fun _ a' => framed a a' /\ ra_slots a' = ra_slots a) (fun _ a' => framed a a' /\ ra_slots a' = ra_slots a) a.
Proof.
  unfold cancel_speculator_sequence. wp_steps. unfold id. destruct (negb (speculation_is_enabled a)); wp_steps; [done|].
  destruct (ra_model_speculator a) as [sp|]; [|by wp_steps]. destruct (seam_cancel_sequence seq sp) as [status sp']. wp_steps.
  assert (framed a (a <| ra_model_speculator := Some sp' |>)) as Hf by (by split).
  destruct status as [e|]; [|by wp_steps]. destruct (bool_decide _); by wp_steps.
Qed.

Lemma scheduler_release_framed seq a m : table_ready m a ->
  wp (on_scheduler (scheduler_release_sequence seq)) (fun _ a' => framed a a' /\ ra_slots a' = ra_slots a) (fun _ a' => framed a a' /\ ra_slots a' = ra_slots a) a.
Proof.
  intros Hrd. destruct (ok_scheduler _ _ (rd_ok _ _ Hrd)) as [n Hn].
  assert (wp (scheduler_release_sequence seq) (fun _ s' => sched_wf s' n) (fun _ s' => sched_wf s' n) (ra_scheduler a)) as Hw.
  { unfold scheduler_release_sequence. destruct (seq =? 0); wp_steps; [done|]. unfold id. destruct (negb _); wp_steps; [done|].
    eapply wp_mono; [apply (on_cache_wf _ _ n Hn); intros c Hc; by apply release_sequence_safe|by intros ? ? [? _]..]. }
  assert (forall s', sched_wf s' n -> framed a (a <| ra_scheduler := s' |>)) as Hf.
  { intros s' Hs'. split; try done. intros _. by exists n. }
  unfold on_scheduler, zoom, wp in *. destruct (scheduler_release_sequence seq (ra_scheduler a)) as [[] s'|e s'| |]; [..|done|done]; (split; [by apply Hf|done]).
Qed.

Lemma release_sequence_framed i s m a : table_ready m a -> ra_slots a !! i = Some s ->
  wp (release_slot_sequence (Z.of_nat i))
    (fun _ a' => framed a a' /\ exists s', ra_slots a' !! i = Some s' /\ rs_state s' = rs_state s)
    (fun _ a' => framed a a' /\ exists s', ra_slots a' !! i = Some s' /\ rs_state s' = rs_state s) a.
Proof.
  intros Hrd Hs. unfold release_slot_sequence. wp_steps. unfold id. apply (wp_slot a i s); [done|].
  destruct (rs_sequence_id s =? 0); wp_steps; [split; [done|by exists s]|].
  eapply wp_mono; [apply (cancel_speculator_framed (rs_sequence_id s) a)| |intros e a1 [Hf ->]; split; [done|by exists s]]. intros [] a1 [Hf1 E1].
  wp_step. eapply wp_mono; [apply (scheduler_release_framed (rs_sequence_id s) a1 m); by eapply framed_ready| |].
  2: { intros e a2 [Hf2 E2]. rewrite E2, E1. split; [by transitivity a1|by exists s]. }
  intros [] a2 [Hf2 E2]. wp_steps. rewrite <- E1, <- E2 in Hs. apply (wp_upd_slot i s); [done|].
  split; [transitivity a1; [done|]; transitivity a2; [done|]; by apply (framed_upd a2 i s)|].
  eexists. cbn. rewrite list_lookup_insert_eq by (by eapply lookup_lt_Some). done.
Qed.

(** The request keeps its slot, now in state [st]. *)
Definition request_in (m : gmap Z nat) a (h st : Z) : Prop :=
  exists i s, m !! h = Some i /\ ra_slots a !! i = Some s /\ rs_state s = st.

(** A framed change of the state of one live slot. *)
Lemma framed_state a i s (f : Slot -> Slot) st : ra_slots a !! i = Some s -> live s -> st <> STATE_FREE ->
  rs_state (f s) = st -> rs_handle (f s) = rs_handle s -> rs_handle_hash_next (f s) = rs_handle_hash_next s ->
  rs_free_slot_next (f s) = rs_free_slot_next s ->
  framed a (a <| ra_slots := <[i := f s]> (ra_slots a) |>) /\ <[i := f s]> (ra_slots a) !! i = Some (f s).
Proof.
  intros Hs Hl Hst E1 E2 E3 E4. split; [|by rewrite list_lookup_insert_eq by (by eapply lookup_lt_Some)].
  apply (framed_upd a i s); [done|]. split; [rewrite E1; unfold live in Hl; tauto|done..].
Qed.

Lemma finish_framed m a h : table_ready m a ->
  wp (finish_request_generation h) (fun _ a' => framed a a' /\ request_in m a' h STATE_COMPLETED)
    (fun e a' => framed a a' /\ (m !! h = None -> e = ApiNotFound)) a.
Proof.
  intros Hrd. unfold finish_request_generation. wp_steps. apply (wp_table_validate m); [done|]. wp_steps.
  apply (wp_slot_of_handle m); [done|by split|]. intros i s Hi Hs Hl Hh. wp_steps. unfold id. apply (wp_slot a i s); [done|].
  assert (forall e : RequestApiError, m !! h = None -> e = ApiNotFound) as Hno by (intros e; by rewrite Hi).
  destruct (Z.eqb_spec (rs_state s) STATE_COMPLETED); wp_steps; [split; [done|by exists i, s]|].
  destruct (rs_state s =? STATE_CANCELLED); wp_steps; [split; [done|apply Hno]|].
  destruct (_ || _); wp_steps; [split; [done|apply Hno]|].
  apply (wp_mono _ (fun _ a1 => framed a a1 /\ ra_slots a1 = ra_slots a) _ (fun _ a1 => a1 = a)).
  { destruct (rs_state s =? STATE_QUEUED_PREFILL); [destruct (ra_queued_request_count a =? 0)|destruct (_ && _)]; by wp_steps. }
  2: { intros e a1 ->. split; [done|apply Hno]. }
  intros [] a1 [Hf1 E1]. wp_step.
  apply (wp_mono _ (fun _ a2 => framed a1 a2 /\ ra_slots a2 = ra_slots a1) _ (fun _ a2 => framed a1 a2 /\ ra_slots a2 = ra_slots a1)).
  { destruct (_ && _); [apply cancel_speculator_framed|by wp_steps]. }
  2: { intros e a2 [Hf2 _]. split; [by transitivity a1|apply Hno]. }
  intros [] a2 [Hf2 E2]. rewrite <- E1, <- E2 in Hs. wp_steps. apply (wp_upd_slot i s); [done|]. wp_steps.
  destruct (framed_state a2 i s (fun s => s <| rs_remaining_thinking_token_budget := 0 |> <| rs_remaining_output_token_budget := 0 |>
    <| rs_state := STATE_COMPLETED |>) STATE_COMPLETED Hs Hl ltac:(done) ltac:(done) ltac:(done) ltac:(done) ltac:(done)) as [Hf3 Hs3].
  split; [|by eexists i, _].
  transitivity a1; [done|]. transitivity a2; [done|]. transitivity (a2 <| ra_slots := <[i := s <| rs_remaining_thinking_token_budget := 0 |>
    <| rs_remaining_output_token_budget := 0 |> <| rs_state := STATE_COMPLETED |>]> (ra_slots a2) |>); [exact Hf3|by split].
Qed.

Lemma cancel_framed m a h : table_ready m a ->
  wp (cancel_request h) (fun _ a' => framed a a' /\ request_in m a' h STATE_CANCELLED)
    (fun e a' => framed a a' /\ (m !! h = None -> e = ApiNotFound)) a.
Proof.
  intros Hrd. unfold cancel_request. wp_steps. apply (wp_table_validate m); [done|]. wp_steps.
  apply (wp_slot_of_handle m); [done|by split|]. intros i s Hi Hs Hl Hh. wp_steps. unfold id. apply (wp_slot a i s); [done|].
  assert (forall e : RequestApiError, m !! h = None -> e = ApiNotFound) as Hno by (intros e; by rewrite Hi).
  destruct (Z.eqb_spec (rs_state s) STATE_CANCELLED); wp_steps; [split; [done|by exists i, s]|].
  destruct (_ || _); wp_steps; [split; [done|apply Hno]|].
  apply (wp_mono _ (fun _ a1 => framed a a1 /\ ra_slots a1 = ra_slots a) _ (fun _ _ => False)); [apply wp_when; intros _; by wp_steps| |done].
  intros [] a1 [Hf1 E1]. wp_step.
  apply (wp_mono _ (fun _ a2 => framed a1 a2 /\ ra_slots a2 = ra_slots a1) _ (fun _ _ => False)); [apply wp_when; intros _; by wp_steps| |done].
  intros [] a2 [Hf2 E2]. rewrite <- E1, <- E2 in Hs. wp_steps. apply (wp_upd_slot i s); [done|]. wp_steps.
  destruct (framed_state a2 i s (fun s => s <| rs_state := STATE_CANCELLED |>) STATE_CANCELLED Hs Hl ltac:(done) ltac:(done) ltac:(done) ltac:(done) ltac:(done)) as [Hf3 Hs3].
  set (a3 := a2 <| ra_slots := _ |> <| ra_cancelled_request_count := _ |>).
  assert (framed a a3) as Hf4.
  { transitivity a1; [done|]. transitivity a2; [done|]. transitivity (a2 <| ra_slots := <[i := s <| rs_state := STATE_CANCELLED |>]> (ra_slots a2) |>); [exact Hf3|by split]. }
  eapply wp_mono; [apply (release_sequence_framed i (s <| rs_state := STATE_CANCELLED |>) m a3); [by eapply framed_ready|exact Hs3]|..].
  - intros [] a4 (Hf5&s'&Hs'&Hst). split; [by transitivity a3|]. by exists i, s'.
  - intros e a4 (Hf5&_). split; [by transitivity a3|apply Hno].
Qed.

(** ** Asking for a request *)

Lemma cache_state_exact m a h : table_ready m a ->
  wp (get_request_cache_state h)
    (fun st a' => a' = a /\ exists i s, m !! h = Some i /\ ra_slots a !! i = Some s /\ cs_state st = rs_state s /\ cs_request_id st = rs_request_id s /\
       cs_sequence_id st = rs_sequence_id s)
    (fun e a' => a' = a /\ (m !! h = None -> e = ApiNotFound)) a.
Proof.
  intros Hrd. unfold get_request_cache_state. wp_steps. apply (wp_table_validate m); [done|]. wp_steps.
  apply (wp_slot_of_handle m); [done|done|]. intros i s Hi Hs Hl Hh. wp_steps. unfold id. apply (wp_slot a i s); [done|]. wp_step.
  apply (wp_mono _ (fun _ a' => a' = a) _ (fun _ a' => a' = a)).
  - destruct (_ =? 0); [by wp_steps|]. destruct (prefix_cache (ra_scheduler a)) as [c|] eqn:Hc; [|by wp_steps]. wp_step.
    destruct (ok_scheduler _ _ (rd_ok _ _ Hrd)) as [n Hn]. pose proof (wf_cache _ _ Hn) as Ho. unfold cache_owned in Ho. rewrite Hc in Ho.
    pose proof (sequence_residency_spec c (rs_sequence_id s) (rs_computed_prompt_token_count s) (proj1 Ho)) as Hp.
    assert (a <| ra_scheduler := (ra_scheduler a) <| prefix_cache := Some c |> |> = a) as Hsame.
    { destruct a as [? ? ? ? ? ? ? ? ? ? ? ? ? ? ? ? ? sc]. destruct sc. cbn in *. by subst. }
    unfold wp, zoom in *. rewrite Hc. cbn [default]. change (id c) with c. destruct (probe_sequence_residency _ _ c) as [r c'|e c'| |]; [..|done|done];
      subst c'; rewrite Hsame; done.
  - intros n a' ->. wp_steps. split; [done|]. by exists i, s.
  - intros e a' ->. split; [done|]. by rewrite Hi.
Qed.

Lemma apply_budgets_rows slots budgets : Forall2 same_row slots (apply_budgets slots budgets).
Proof.
  revert budgets. induction slots as [|s slots IH]; intros [|b budgets]; cbn; try done. destruct (eligible s); constructor; try done.
Qed.

(** Budgets are within the depths and the cap, and the call only writes budgets. *)
Lemma assign_draft_budgets_framed m a cap : table_ready m a -> 0 <= cap <= U32_MAX ->
  Forall (fun s => 0 <= rs_mtp_commit_ema_milli s <= U32_MAX) (ra_slots a) ->
  wp (assign_draft_budgets cap) (fun rows a' => framed a a' /\ 0 <= rows <= cap) (fun _ _ => False) a.
Proof.
  intros Hrd Hcap Hema. unfold assign_draft_budgets. destruct (Z.eqb_spec cap 0); [wp_steps; split; [done|lia]|]. wp_steps. unfold id.
  set (inputs := slot_input <$> List.filter eligible (ra_slots a)).
  pose proof (lk_room _ _ _ _ _ (ok_links _ _ (rd_ok _ _ Hrd))) as Hroom.
  assert (length inputs <= length (ra_slots a))%nat as Hlen by (unfold inputs; rewrite length_fmap; apply List.filter_length_le).
  assert (Forall slot_ok inputs) as Hin.
  { apply Forall_forall. intros x Hx. apply list_elem_of_fmap in Hx as (s&->&Hs). apply list_elem_of_In, List.filter_In in Hs as [Hs _].
    apply list_elem_of_In in Hs. split; [exact (proj1 (Forall_forall _ _) Hema s Hs)|]. cbn. by destruct (_ && _). }
  pose proof (assign_spec inputs cap 1000 (replicate (length inputs) 0) Hin ltac:(by rewrite length_replicate) ltac:(lia) ltac:(lia) ltac:(lia)) as Hw.
  cbv zeta in Hw. unfold wp at 1 in Hw. destruct (row_allocator_assign _ _ _ _) as [rows bs|e bs| |]; [|done..]. destruct Hw as (Hd&->&Hle&_).
  wp_steps. pose proof (total_nonneg _ (within_depth_nonneg _ _ Hd)). split; [|lia]. split; try done. apply apply_budgets_rows.
Qed.

(** ** Submitting *)

Definition acceptable (r : SubmitRequest) : Prop := Z.land (sm_flags r) (u32_not REQUEST_KNOWN_FLAGS) = 0 /\ sm_prompt_token_count r <> 0.

(** The state of an accepted submission in slot [i], up to the counters. *)
Record submitted (m : gmap Z nat) (r : SubmitRequest) a (i : nat) a' : Prop := {
  sb_ready : table_ready (<[ra_next_handle a := i]> m) a';
  sb_slot : exists priority seq order nx, ra_slots a' = <[i := (submitted_slot r priority seq (ra_next_handle a) order) <| rs_handle_hash_next := nx |>]> (ra_slots a);
  sb_next : ra_next_handle a' = ra_next_handle a + 1;
}.

(** Linking a filled slot [i], taken from the head of the free list, into its bucket. *)
Lemma insert_hash_spec m a a1 r i s s1 fl priority seq order :
  table_ready m a -> ra_next_handle a < U64_MAX -> free_list (next_free (ra_slots a)) (vacant (ra_slots a)) NO_SLOT (Z.of_nat i) (i :: fl) ->
  ra_free_slot_head a = Z.of_nat i -> ra_slots a !! i = Some s -> s1 = submitted_slot r priority seq (ra_next_handle a) order ->
  ra_slots a1 = <[i := s1]> (ra_slots a) -> ra_free_slot_head a1 = rs_free_slot_next s ->
  ra_slot_handle_hash_heads a1 = ra_slot_handle_hash_heads a -> ra_next_handle a1 = ra_next_handle a +u64 1 ->
  (ra_request_capacity a1, ra_decode_batch_target a1, ra_decode_execution_row_capacity a1, ra_scheduler a1) =
    (ra_request_capacity a, ra_decode_batch_target a, ra_decode_execution_row_capacity a, ra_scheduler a) ->
  wp (insert_slot_hash (Z.of_nat i)) (fun _ a' => submitted m r a i a') (fun _ _ => False) a1.
Proof.
  intros [[Hlk Hcap Hnext Hsched] Htg] Hmax Hfl Hhead Hs Hs1 Hslots Hfree Hheads Hn1 Eset. injection Eset as F1 F2 F3 F4.
  pose proof (lookup_lt_Some _ _ _ Hs) as Hlt. pose proof (lk_room _ _ _ _ _ Hlk) as Hroom.
  assert (ra_slots a1 !! i = Some s1) as Hi1 by (rewrite Hslots; by apply list_lookup_insert_eq).
  destruct (head_lookup (ra_slot_handle_hash_heads a) (ra_next_handle a) (lk_heads _ _ _ _ _ Hlk)) as [head Hh].
  unfold insert_slot_hash. wp_steps. unfold id. destruct (Z.leb_spec (ra_request_capacity a1) (Z.of_nat i)); [lia|]. wp_steps.
  apply (wp_slot a1 i s1); [done|]. assert (rs_handle s1 = ra_next_handle a) as Hsh by (by rewrite Hs1). rewrite Hsh. unfold INVALID_HANDLE.
  destruct (Z.eqb_spec (ra_next_handle a) 0); [lia|]. wp_steps. apply (wp_index _ _ _ _ _ head); [by rewrite Hheads|]. wp_steps.
  apply (wp_upd_slot i s1); [done|]. apply (wp_set_head _ _ head); [apply hash_handle_nonneg|cbn; by rewrite Hheads|].
  assert (ra_next_handle a1 = ra_next_handle a + 1) as Hn2 by (rewrite Hn1, u64_small; lia).
  split.
  - split; [split|]; cbn.
    + rewrite Hslots, list_insert_insert_eq, Hheads, Hfree, Hn2. rewrite <- Hhead in Hfl.
      eapply links_take; [exact Hlk|exact Hfl|exact Hs|by rewrite Hs1|by rewrite Hs1|done|exact Hh|by rewrite Hs1].
    + by rewrite F1, Hcap, !Hslots, !length_insert.
    + lia.
    + by rewrite F4.
    + by rewrite F2, F3.
  - exists priority, seq, order, head. cbn. by rewrite Hslots, list_insert_insert_eq, Hs1.
  - cbn. done.
Qed.

Lemma submit_spec m a r : table_ready m a -> ra_next_handle a < U64_MAX ->
  wp (submit r)
    (fun h a' => acceptable r /\ h = ra_next_handle a /\ exists i, vacant (ra_slots a) i /\ submitted m r a i a')
    (fun e a' => a' = a /\ (e = ApiInvalidArgument /\ ~ acceptable r \/ e = ApiCapacityExceeded /\ forall i, ~ vacant (ra_slots a) i)) a.
Proof.
  intros Hrd Hmax. pose proof Hrd as [[Hlk Hcap _ _] _]. pose proof (lk_room _ _ _ _ _ Hlk) as Hroom. destruct (lk_free _ _ _ _ _ Hlk) as (fl & Hfl).
  unfold submit, acceptable. wp_steps. apply (wp_table_validate m); [done|].
  destruct (Z.eqb_spec (Z.land (sm_flags r) (u32_not REQUEST_KNOWN_FLAGS)) 0) as [Hflags|Hflags]; cbn [negb orb]; [|wp_steps; split; [done|left; tauto]].
  destruct (Z.eqb_spec (sm_prompt_token_count r) 0) as [H0|H0]; [wp_steps; split; [done|left; tauto]|].
  wp_steps. unfold find_free_slot. wp_steps. unfold id. destruct fl as [|i fl].
  { rewrite (fl_chain _ _ _ _ _ Hfl), Z.eqb_refl. wp_steps. split; [done|]. right. split; [done|]. intros i Hi. apply (fl_free _ _ _ _ _ Hfl) in Hi. by apply elem_of_nil in Hi. }
  pose proof (fl_chain _ _ _ _ _ Hfl) as [Hhead _]. assert (vacant (ra_slots a) i) as Hv by (apply (fl_free _ _ _ _ _ Hfl); by left).
  destruct Hv as (s & Hs & Hst). pose proof (lookup_lt_Some _ _ _ Hs) as Hlt. rewrite Hhead.
  destruct (Z.eqb_spec (Z.of_nat i) NO_SLOT) as [Heq|_]; [unfold NO_SLOT in Heq; lia|]. destruct (Z.leb_spec (ra_request_capacity a) (Z.of_nat i)); [lia|].
  cbn [orb]. wp_steps. apply (wp_slot a i s); [done|]. rewrite Hst, Z.eqb_refl. cbn [negb]. wp_steps. apply (wp_upd_slot i s); [done|]. wp_steps.
  set (a0 := set_field ra_slots _ _).
  apply (wp_mono _ (fun seq a1 => exists n, a1 = a0 <| ra_next_sequence_id := n |>) _ (fun _ _ => False)); [| |done].
  { destruct (negb _); wp_steps; [exists (ra_next_sequence_id a0); by destruct a0|by eexists]. }
  intros seq a1 (n & ->). wp_steps. apply (wp_upd_slot i (s <| rs_free_slot_next := NO_SLOT |>)); [cbn; by apply list_lookup_insert_eq|]. wp_steps.
  rewrite Hhead in Hfl. eapply wp_mono; [eapply (insert_hash_spec m a _ r i s); [exact Hrd|exact Hmax|exact Hfl|exact Hhead|exact Hs|reflexivity| |reflexivity..]| |done].
  { cbn. apply list_insert_insert_eq. }
  intros [] a2 [Hready Hslot Hn]. wp_steps. split; [done|]. split; [done|]. exists i. split; [by exists s|].
  split; [|exact Hslot|exact Hn]. eapply framed_ready; [|exact Hready]. by split.
Qed.

(** ** Giving a slot back *)

Lemma release_spec m a h : table_ready m a ->
  wp (release_completed_request h)
    (fun _ a' => (request_in m a h STATE_COMPLETED \/ request_in m a h STATE_CANCELLED) /\ table_ready (delete h m) a' /\ ra_next_handle a' = ra_next_handle a)
    (fun e a' => framed a a' /\ (m !! h = None -> e = ApiNotFound)) a.
Proof.
  intros Hrd. unfold release_completed_request. wp_steps. apply (wp_table_validate m); [done|]. wp_steps.
  apply (wp_slot_of_handle m); [done|by split|]. intros i s Hi Hs Hl Hh. wp_steps. unfold id. apply (wp_slot a i s); [done|].
  assert (forall e : RequestApiError, m !! h = None -> e = ApiNotFound) as Hno by (intros e; by rewrite Hi).
  destruct (negb _ && negb _) eqn:Hst; wp_steps; [split; [done|apply Hno]|].
  assert (request_in m a h STATE_COMPLETED \/ request_in m a h STATE_CANCELLED) as Hended.
  { apply andb_false_iff in Hst as [Hst|Hst]; apply negb_false_iff, Z.eqb_eq in Hst; [left|right]; by exists i, s. }
  eapply wp_mono; [by apply (release_sequence_framed i s m a)| |intros e a1 [Hf _]; split; [done|apply Hno]].
  intros [] a1 [Hf1 _]. pose proof (framed_ready m a a1 Hf1 Hrd) as Hrd1. wp_step.
  eapply wp_mono; [apply (remove_spec m a1 h i (rd_ok _ _ Hrd1) Hi)| |done]. intros [] a2 (slots1 & head' & Hun & ->).
  destruct (framed_slot a a1 i s Hf1 Hs) as (s1 & Hs1 & Hrow).
  pose proof (lookup_lt_Some _ _ _ Hs1) as Hlt. rewrite <- (un_length _ _ _ _ _ Hun) in Hlt. destruct (lookup_lt_is_Some_2 _ _ Hlt) as [s2 Hs2].
  wp_steps. apply (wp_upd_slot i s2); [done|]. wp_steps. unfold id. apply (wp_upd_slot i free_slot); [cbn; by apply list_lookup_insert_eq|]. wp_steps.
  split; [done|]. split; [|cbn; apply Hf1]. pose proof Hrd1 as [[Hlk Hcap Hnext Hsched] Htg].
  assert (forall x j, j <> i -> <[i := x]> slots1 !! j = slots1 !! j) as Hother by (intros; by apply list_lookup_insert_ne).
  destruct (un_bucket _ _ _ _ _ Hun) as (idxs & Hidx).
  split; [split|]; cbn; rewrite ?list_insert_insert_eq, ?length_insert, ?(un_length _ _ _ _ _ Hun); try done.
  eapply (links_give _ (ra_slots a1)); [exact Hlk|exact Hi|by rewrite length_insert, (un_length _ _ _ _ _ Hun)| | | |].
  - intros j Hj. by rewrite Hother, (un_row _ _ _ _ _ Hun).
  - eexists. by rewrite list_lookup_insert_eq.
  - intros j Hj Hnb. rewrite <- (un_other _ _ _ _ _ Hun j Hj Hnb). unfold next_hash. by rewrite Hother.
  - eapply free_list_frame; [exact Hidx| |done]. intros j [_ Hj]. unfold next_hash. by rewrite Hother.
Qed.

(** ** The table as a map *)

(** The map from handles to slots that a caller sees: looking a handle up finds its slot, a
    handle's slot holds that request, and every occupied slot belongs to a handle. *)
Definition represents (m : gmap Z nat) a : Prop :=
  (forall h, find_slot_by_handle h a = Ret (Z.of_nat <$> m !! h) a) /\
  (forall h i, m !! h = Some i <-> exists s, ra_slots a !! i = Some s /\ rs_state s <> STATE_FREE /\ rs_handle s = h).

Lemma ready_represents m a : table_ready m a -> represents m a.
Proof. intros [Hok _]. split; [intros h; by apply table_find_spec|]. apply (lk_requests _ _ _ _ _ (ok_links _ _ Hok)). Qed.

(** A call that returned, with a value or an error. *)
Definition ends {A} (op : M (RequestApi Sp) RequestApiError A) a a' : Prop := (exists x, op a = Ret x a') \/ (exists e, op a = Fails e a').

(** The life of a table: the entry points in any order, and between them the dispatch,
    prefetch and speculation code.  That code is not modelled: it is taken to change rows but
    neither their handles nor the links, and to keep the scheduler invariant. *)
Inductive table_step : RequestApi Sp -> RequestApi Sp -> Prop :=
| step_submit r a a' : ra_next_handle a < U64_MAX -> ends (submit r) a a' -> table_step a a'
| step_finish h a a' : ends (finish_request_generation h) a a' -> table_step a a'
| step_cancel h a a' : ends (cancel_request h) a a' -> table_step a a'
| step_release h a a' : ends (release_completed_request h) a a' -> table_step a a'
| step_cache_state h a a' : ends (get_request_cache_state h) a a' -> table_step a a'
| step_elsewhere a a' : framed a a' -> table_step a a'.

Lemma ends_wp {A} (op : M (RequestApi Sp) RequestApiError A) a a' (P : RequestApi Sp -> Prop) : ends op a a' -> wp op (fun _ a' => P a') (fun _ a' => P a') a -> P a'.
Proof. unfold wp. by intros [[x ->]|[e ->]]. Qed.

Lemma step_ready m a a' : table_step a a' -> table_ready m a -> exists m', table_ready m' a'.
Proof.
  intros Hst Hrd. destruct Hst as [r a a' Hmax He|h a a' He|h a a' He|h a a' He|h a a' He|a a' Hf]; try (eapply (ends_wp _ _ _ (fun a' => exists m', table_ready m' a')); [exact He|]).
  - eapply wp_mono; [by apply (submit_spec m)|..]; [intros h x (_&_&i&_&[? _ _])|intros e x [-> _]]; by eexists.
  - eapply wp_mono; [by apply (finish_framed m)|..]; intros ? x [Hf _]; exists m; by eapply framed_ready.
  - eapply wp_mono; [by apply (cancel_framed m)|..]; intros ? x [Hf _]; exists m; by eapply framed_ready.
  - eapply wp_mono; [by apply (release_spec m)|..]; [intros ? x (_&?&_); by eexists|intros ? x [Hf _]; exists m; by eapply framed_ready].
  - eapply wp_mono; [by apply (cache_state_exact m)|..]; intros ? x [-> _]; by exists m.
  - exists m. by eapply framed_ready.
Qed.

Lemma table_run_ready a a' : rtc table_step a a' -> forall m, table_ready m a -> exists m', table_ready m' a'.
Proof. induction 1 as [a|a1 a2 a3 Hs _ IH]; [by eauto|]. intros m Hrd. destruct (step_ready m a1 a2 Hs Hrd) as [m' Hm']. by eapply IH. Qed.

(** C21. The request table refines a finite map from handles to slots: in every state reached
    from [new] by submissions, endings, releases, queries and any dispatch activity between
    them that keeps handles, links and the scheduler invariant (the dispatch code is not
    modelled, and direct writes through [slots_mut] are left out), looking up a handle answers what the map holds; [submit] adds a handle never used
    before in a slot that was free, holding the queued request, and refuses only a malformed
    request or when no slot is free; [finish_request_generation] and [cancel_request] keep the
    map and leave the request completed or cancelled; [release_completed_request] takes exactly
    its own handle out, and only after the request ended; an unknown handle is always answered
    [NotFound] and changes nothing in the map; no call panics or loops. *)
Theorem request_table_refines_map (c : Configuration Sp) s0 n a0 s1 a :
  api_words c -> sched_wf s0 n -> new_request_api c s0 = Ret a0 s1 -> rtc table_step a0 a ->
  exists m, represents m a /\
    (forall r, ra_next_handle a < U64_MAX ->
       wp (submit r)
         (fun h a' => acceptable r /\ m !! h = None /\ exists i s, represents (<[h := i]> m) a' /\ ra_slots a' !! i = Some s /\
            rs_state s = STATE_QUEUED_PREFILL /\ rs_request_id s = sm_request_id r)
         (fun e a' => a' = a /\ (e = ApiInvalidArgument /\ ~ acceptable r \/
            e = ApiCapacityExceeded /\ forall i s, ra_slots a !! i = Some s -> rs_state s <> STATE_FREE)) a) /\
    (forall h, wp (finish_request_generation h) (fun _ a' => represents m a' /\ request_in m a' h STATE_COMPLETED)
       (fun e a' => represents m a' /\ (m !! h = None -> e = ApiNotFound)) a) /\
    (forall h, wp (cancel_request h) (fun _ a' => represents m a' /\ request_in m a' h STATE_CANCELLED)
       (fun e a' => represents m a' /\ (m !! h = None -> e = ApiNotFound)) a) /\
    (forall h, wp (release_completed_request h)
       (fun _ a' => (request_in m a h STATE_COMPLETED \/ request_in m a h STATE_CANCELLED) /\ represents (delete h m) a')
       (fun e a' => represents m a' /\ (m !! h = None -> e = ApiNotFound)) a).
Proof.
  intros Hw Hs Hnew Hrun. pose proof (new_ready_table c s0 n Hw Hs) as Hn. unfold wp in Hn. rewrite Hnew in Hn. destruct Hn as [Hrd0 _].
  destruct (table_run_ready a0 a Hrun ∅ Hrd0) as [m Hrd]. exists m. split; [by apply ready_represents|].
  assert (forall a', framed a a' -> represents m a') as Hkeep by (intros a' Hf; apply ready_represents; by eapply framed_ready).
  split; [|split_and!].
  - intros r Hmax. eapply wp_mono; [by apply (submit_spec m)|..].
    + intros h a' (Hacc&->&i&(s&Hs0&_)&[Hrd' (p&q&o&nx&Hslot) _]). split; [done|]. split.
      { destruct (m !! ra_next_handle a) as [k|] eqn:Hk; [|done]. pose proof (lk_handles _ _ _ _ _ (ok_links _ _ (rd_ok _ _ Hrd)) _ _ Hk). lia. }
      eexists i, _. split; [by apply ready_represents|]. rewrite Hslot, list_lookup_insert_eq by (by eapply lookup_lt_Some). done.
    + intros e a' (->&[?|[-> Hv]]); [by auto|]. split; [done|]. right. split; [done|]. intros i s Hi Hst. apply (Hv i). by exists s.
  - intros h. eapply wp_mono; [by apply (finish_framed m)|..]; intros ? a' [Hf ?]; auto.
  - intros h. eapply wp_mono; [by apply (cancel_framed m)|..]; intros ? a' [Hf ?]; auto.
  - intros h. eapply wp_mono; [by apply (release_spec m)|..]; [intros ? a' (?&?&_); split; [done|by apply ready_represents]|intros ? a' [Hf ?]; auto].
Qed.

End operations.

(** A table of two slots over the sample ring, without speculation. *)
#[export] Instance no_speculator : RequestModelSeam unit := {
  seam_is_valid _ := true;
  seam_slot_can_speculate _ _ := false;
  seam_cancel_sequence _ sp := (None, sp);
}.

Definition sample_setup : Configuration unit := mkApiConfiguration CONFIGURATION_FLAG_DECODE_BATCHING 2 0 0 4 0 0 false None 100.

Definition sample_submit : SubmitRequest := mkSubmit 0 0 3 0 8 0 77 0 [10; 11; 12].

Lemma sample_run :
  match new_request_api sample_setup small_ring with
  | Ret a0 _ => match submit sample_submit a0 with
                | Ret h a1 => match find_slot_by_handle 1 a1 with Ret (Some k) _ => (h =? 1) && (k =? 0) && (ra_next_handle a0 =? 1) | _ => false end
                | _ => false
                end
  | _ => false
  end = true.
Proof. vm_compute. reflexivity. Qed.

Lemma request_table_refines_map_witness :
  exists a0 s1 a1, new_request_api sample_setup small_ring = Ret a0 s1 /\ submit sample_submit a0 = Ret 1 a1 /\
    exists m, represents m a1 /\ m !! 1 = Some 0%nat /\
      wp (finish_request_generation 1) (fun _ a' => represents m a' /\ request_in m a' 1 STATE_COMPLETED)
        (fun e a' => represents m a' /\ (m !! 1 = None -> e = ApiNotFound)) a1.
Proof.
  pose proof sample_run as Hrun. destruct (new_request_api sample_setup small_ring) as [a0 s1|? ?| |] eqn:Hn; [|discriminate Hrun..].
  destruct (submit sample_submit a0) as [h a1|? ?| |] eqn:Hs; [|discriminate Hrun..].
  destruct (request_table_refines_map sample_setup small_ring 0 a0 s1 a1) as (m&Hrep&_&Hfin&_).
  - split; cbn; lia.
  - exact (sr_wf _ _ small_ready).
  - exact Hn.
  - apply rtc_once, (step_submit sample_submit); [|left; by exists h]. destruct (find_slot_by_handle 1 a1) as [[k|] ?|? ?| |]; [|discriminate Hrun..].
    apply andb_true_iff in Hrun as [_ Hrun]. apply Z.eqb_eq in Hrun. lia.
  - rewrite (proj1 Hrep 1) in Hrun. destruct (m !! 1) as [i|] eqn:Hi; [|discriminate Hrun]. cbn in Hrun.
    apply andb_true_iff in Hrun as [Hrun _]. apply andb_true_iff in Hrun as [Hh Hk]. apply Z.eqb_eq in Hh, Hk. subst h.
    exists a0, s1, a1. split; [reflexivity|]. split; [exact Hs|]. exists m. split; [exact Hrep|]. split; [rewrite Hi; f_equal; lia|apply Hfin].
Defined.

(** A request whose draft is being verified is in flight: finishing it is refused with
    [Busy], but [cancel_request] accepts it and leaves it cancelled. *)
Lemma cancel_takes_verifying_request :
  match new_request_api sample_setup small_ring with
  | Ret a0 _ => match submit sample_submit a0 with
                | Ret h a1 =>
                    let a2 := a1 <| ra_slots := upd_nth 0 (fun s => s <| rs_state := STATE_RUNNING_SPECULATIVE_VERIFY |>) (ra_slots a1) |>
                      <| ra_queued_request_count := 0 |> <| ra_running_request_count := 1 |> in
                    match finish_request_generation h a2, cancel_request h a2 with
                    | Fails ApiBusy _, Ret _ a3 => (ra_running_request_count a3 =? 1) && (ra_cancelled_request_count a3 =? 1)
                    | _, _ => false
                    end
                | _ => false
                end
  | _ => false
  end = true.
Proof. vm_compute. reflexivity. Qed.
